(* ===== verification/_CoqProject ===== *)
-Q . S2P
Prelude.v
Node.v
Namespaces.v
Jid.v
Capabilities.v
Presence.v
RequestPipeline.v
BytestreamIface.v
BytestreamIBB.v
BytestreamSocks5.v
BytestreamMuc.v
MediaHold.v
BytestreamMultiple.v
StreamInitiation.v
Addressing.v
XmppError.v
MessageUtil.v
ImChannel.v
ImChannelFacts.v
DataForm.v
DataFormFacts.v
PresenceCache.v
PresenceCacheFacts.v
CapsHash.v
CapsHashFacts.v
Roster.v
RosterFacts.v
RosterTheorems.v
VCardManager.v
VCardFacts.v
VCardTheorems.v
Disco.v
DiscoFacts.v
DiscoRuns.v
Roomlist.v
RoomlistFacts.v
RoomlistRuns.v
WockyMuc.v
MucChannel.v
MucFacts.v
MucTheorems.v
MucRuns.v
MucFactory.v
MucFactoryFacts.v
MucFactoryTheorems.v
MucFactoryRuns.v
