(* ===== verification/Prelude.v ===== *)
(** * Verification of telepathy-gabble

    Gabble is a Telepathy connection manager for XMPP: it turns stanzas that
    arrive on an XMPP stream into objects on D-Bus and back.  It is a single
    process driven by a main loop: every function runs to its end in answer
    to an input (a stanza, a reply, a timer, an idle source, bytes on a
    socket, a D-Bus call), so an operation is modelled as a function from the
    state before to the state after, and the interleavings the main loop
    allows are the sequences of inputs.

    ** Method

    A handler is a definition in the state-and-abort monad [M] of this file.
    [g_assert] and the use of freed memory are outcomes ([AssertFailed],
    [MemoryFault]), so "this never crashes" is a theorem ([wp] holds only of
    runs that return) and "this input crashes it" is another.  What a handler
    shows the world (stanzas sent, signals emitted, callbacks called, bytes
    written) is appended to an event list of its state.  Integers are [Z]
    with the C truncations written out ([u8], [u16], [u32]).  Code outside
    the repository is a parameter: base64, SHA-1, the handle repository of
    telepathy-glib (a class with its laws and an instance), the success of a
    send, the wall clock, the host's addresses.

    ** Files

    - [Prelude]: outcomes, the monad, [wp], its variant [wpe] for handlers
      that may abort under a condition, [retains] for what a handler leaves
      alone, their rules, machine integers, [strtol] and [strtoul], list
      lemmas.
    - [Node]: the part of lib/ext/wocky/wocky/wocky-node.c that the modelled
      code calls.  A [WockyNode] is a tree of attributes and children.
    - [Namespaces]: the constants of src/namespaces.h.
    - [Capabilities]: src/capabilities.c.  A [GabbleCapabilitySet] is a set of
      handles, [denotes] the strings it stands for; [Globals] is the
      process-wide pool with its reference count.
    - [Presence]: src/presence.c.  The state is the contact's presence and a
      heap of strings, because [status_message] borrows a string that a
      resource or [no_resource_status_message] owns.
    - [RequestPipeline]: src/request-pipeline.c with the idle helpers of
      src/util.c.  The state has the three queues, the items' memory, the
      idle sources, and what the callbacks will enqueue when they are called.
    - [BytestreamIface]: src/bytestream-iface.c.  The GObject interface as a
      class, its contract as [BytestreamLaws].
    - [BytestreamIBB], [BytestreamSocks5]: src/bytestream-ibb.c and
      src/bytestream-socks5.c, two instances of the interface, with the parts
      of src/bytestream-factory.c that act on one stream.
    - [BytestreamMuc]: src/bytestream-muc.c, a third instance: fragments and
      one reassembly buffer per sender.
    - [BytestreamMultiple]: src/bytestream-multiple.c, a stream that runs
      other streams and reacts to their signals; generic in
      [BytestreamObject], instantiated with the in-band and SOCKS5 streams.
    - [StreamInitiation]: the stream initiation of XEP-0095 in
      src/bytestream-factory.c: the offer, its parsing, the answer and the
      stream each side ends up with.
    - [Jid]: the parsing and normalisation of JIDs,
      lib/ext/wocky/wocky/wocky-utils.c and src/util.c.
    - [MediaHold]: src/media-channel-hold.c, the hold and call states of a
      media channel, with what src/media-channel.c and src/media-stream.c do
      to its streams.
    - [Addressing]: src/addressing-util.c, contacts named by URIs and by
      fields of vCards, on top of [Jid].
    - [XmppError]: lib/ext/wocky/wocky/wocky-xmpp-error.c, the errors a stanza
      carries, with [wocky_stanza_extract_errors] of wocky-stanza.c.
    - [MessageUtil]: src/message-util.c, building and parsing messages, on top
      of [XmppError].
    - [ImChannel]: src/im-channel.c and src/im-factory.c, the one-to-one chats:
      the channel objects, the table of the factory, the sends in progress.
      The queue of unread messages belongs to telepathy-glib and is the class
      [TpMessageMixin] with its laws.  [ImChannelFacts] has the invariant, the
      theorems and concrete runs.
    - [DataForm]: lib/ext/wocky/wocky/wocky-data-form.c, the forms of
      XEP-0004; [DataFormFacts] has their round trips.
    - [PresenceCache]: src/presence-cache.c, the table of contacts' presences
      and what the capability nodes they announce stand for, on top of
      [Presence], [Capabilities] and [Jid]; [PresenceCacheFacts] has its
      invariant, its theorems and concrete runs.
    - [CapsHash]: lib/ext/wocky/wocky/wocky-caps-hash.c and src/caps-hash.c,
      the hash of a set of capabilities (XEP-0115), with the parts of
      src/connection.c that announce it and answer disco queries, on top of
      [DataForm] and [PresenceCache]; the digest is a parameter.
      [CapsHashFacts] has the theorems and concrete runs.
    - [Roster]: src/roster.c, the contact list kept on the server, with the
      countdowns of src/util.c, the cached aliases of src/conn-aliasing.c and
      the sending of presences of src/connection.c.  A pointer to an item is
      its contact's handle, so an item that was freed is a handle with no
      item; the requests of users are numbered and their callbacks run in
      idle sources.  [RosterFacts] has the invariant of every input,
      [RosterTheorems] the theorems and concrete runs.
    - [VCardManager]: src/vcard-manager.c, the cache of vCards, the requests
      for them and the edits of our own.  Entries are found by their contact's
      handle and requests by a number, so a pointer that dangles is one that
      finds nothing; of the request pipeline it sees the items it queued and
      their callbacks.  [VCardFacts] has the invariant of every operation,
      [VCardTheorems] the inputs, the theorems and concrete runs.
    - [Disco]: src/disco.c, service discovery.  A request is an address, whose
      memory another request may get when it is freed; pipelines ask about the
      items of a server ten at a time.  What other components do in their
      callbacks is the class [DiscoClient].  [DiscoFacts] has the invariant and
      the theorems, [DiscoRuns] witnesses and runs.
    - [Roomlist]: src/roomlist-channel.c and src/roomlist-manager.c, a client
      of [Disco] with timers of its own; [RoomlistFacts] and [RoomlistRuns] as
      above.
    - [WockyMuc]: lib/ext/wocky/wocky/wocky-muc.c, the occupants of a chat room
      and what its stanzas say.
    - [MucChannel]: src/muc-channel.c, the channel of a chat room, on top of
      [WockyMuc]: its timers, references and operations in flight, so that a
      timer of a freed channel faults.  The members belong to telepathy-glib
      and are the class [TpGroupMixin] with its laws.  [MucFacts] has rules
      for running handlers symbolically and the invariant of every input,
      [MucTheorems] the theorems, [MucRuns] witnesses and runs.
    - [MucFactory]: src/muc-factory.c, the table of rooms, requests and
      invitations, with every channel a world of [MucChannel] whose signals it
      handles, and the sessions of calls it hands on; channels have addresses,
      which are used again.
      [MucFactoryFacts] has what a channel's run looks like from outside and
      the books of the requests, [MucFactoryTheorems] the invariant of the
      table and the theorems, [MucFactoryRuns] witnesses and runs.

    ** What the theorems show

    - Presence: every history of a contact refines a specification without
      pointers ([presence_history_refines]); capabilities are always the
      union of the resources' ([presence_history_caps]); resource choice is
      optimal ([pick_resource_by_caps_best]); capability updates follow the
      serial discipline ([set_capabilities_spec]).
    - Capabilities: parsing, set algebra, bundles and life cycle.
    - Request pipeline: each callback once ([pipeline_callbacks_once]), the
      window and the order ([pipeline_window]), progress and termination
      ([pipeline_handles_every_input]).
    - Bytestreams: the in-band stream sends and delivers in order and two
      of them compose ([ibb_end_to_end]); the SOCKS5 negotiation is safe
      on any bytes in the states that expect some, while writes succeed,
      and aborts on them in the others ([received_data_safe]), cannot be
      completed by a stranger ([no_spoofed_connection]), works under any
      segmentation ([socks5_server_handshake]) and between two Gabbles
      ([socks5_handshake]); a closed stream is dead ([closed_calls_noop],
      against the interface).
    - Composition of streams: messages in a room survive fragmentation and
      interleaving ([muc_round_trip]); a multi-method stream mirrors its
      active stream and falls back in order ([multiple_follows],
      [multiple_falls_back]).
    - Stream initiation: offerer and answerer agree on the method
      ([si_negotiation_agrees]), which is one that was offered
      ([si_offered_methods]).
    - JIDs: exactly which strings decode and to what ([jid_decode_iff]), and
      normalising twice is normalising once ([jid_normalise_idempotent]).
    - Hold: what a channel says is true of its streams and known to whoever
      follows its signals ([hold_state_truthful]), and requests are carried
      out ([request_hold_completes]).
    - Presence cache: no sequence of inputs crashes it
      ([presence_cache_safe]); a capability node has full trust only when it
      is ours or built in, or a hash or five contacts vouch for it
      ([caps_trust_sound]; the on-disk cache of capabilities is believed as it
      is), one contact's lies
      reach no other contact ([foreign_caps_vouched]), and a verified answer
      serves everybody who waits ([verified_reply_serves]); a presence update
      refines the update of a pointer-free table ([cache_update_refines]).
    - Roster: every request is answered exactly once
      ([roster_requests_once]), and is once the server has replied to a
      bounded number of IQs, under the same two conditions
      ([roster_requests_complete]); contacts have one
      IQ in flight at most ([roster_one_edit]); no input aborts unless one of
      two named conditions fails ([roster_safe]), and each of them can fail
      ([unpublish_use_after_free], [invalid_subscription_aborts]); what an
      edit sends is what a push reads ([roster_item_roundtrip]); a push
      announces what it changed ([roster_push_announces]); queued group edits
      amount to the edits in sequence ([roster_group_edits_batch]); presence
      acknowledgements do not loop ([roster_presence_ack]).
    - vCards: no input aborts outside two named conditions ([vcard_safe]) and
      each of them does ([cancelled_leader_use_after_free],
      [failed_fetch_aborts_edit]); no request is forgotten
      ([vcard_request_progress]) or answered twice ([vcard_callbacks_once]),
      and a reply answers all of them ([vcard_reply_serves_all]); edits do
      what their field-by-field specification says ([vcard_edits_refine]) and
      are acknowledged ([vcard_edit_acknowledged]), unless they change nothing
      ([no_op_edit_unanswered]); the cache forgets in time
      ([vcard_cache_expires]).
    - Data forms: what is written is what is read ([data_form_round_trip]);
      setting a value changes one field ([set_value_lookup]).
    - Capability hashes: the hash does not depend on the order of an answer
      ([caps_hash_order]) and determines its parts ([caps_string_parts]); what
      we and our plug-ins announce is what our answers hash to
      ([own_caps_verify], [sidecar_caps_verify]), also when it is announced
      again ([coherent]), except for identities with a language
      ([sidecar_language_unverifiable]).
    - Stanza errors: an error that is written is the one that is read
      ([stanza_error_round_trip]).
    - Chats: no input crashes them, no unread message is lost and
      acknowledging takes one message away ([im_messages_kept]); what is
      sent is received, through the building and the parsing of the stanza
      ([im_end_to_end], [message_round_trip]); messages arrive in the
      right channel ([im_incoming]); nothing is sent that the user or the
      peer did not ask for ([im_discreet]).
    - Service discovery: a request is answered, dropped or waiting with a
      timer, never two of these ([disco_requests_once]); a pipeline refines
      the list of items not heard of ([disco_pipeline_refines]); disposing
      ends ([disco_disposes]); from every state in which a request waits, a
      late reply may go to the wrong request ([stale_reply_misdelivered]).
    - Room lists: no input aborts when rooms are not listed twice at a time
      ([roomlist_safe]), each room found is
      announced once ([rooms_announced_once]), listing ends without the
      server's help ([listing_ends]), and listing twice at a time goes wrong
      ([list_rooms_twice]).
    - Chat rooms: no input aborts under three named conditions and nothing
      outlives the channel ([muc_safe]); the conditions are needed in
      every reachable state of the kind ([close_twice_use_after_free],
      [bare_presence_aborts]); the members are the occupants
      ([muc_members_refine]); a message sent arrives at the others and
      comes back as a delivery report ([muc_end_to_end]); a configuration
      form is filled in completely or not at all
      ([room_config_submitted]).
    - The manager of chat rooms: it and its channels together are safe and
      its table is true ([muc_manager_safe], on top of what is shown of
      one channel); every request is answered, waiting or lost, and once
      ([muc_requests_once]); none is waiting when the connection has ended
      ([disconnection_answers]); until then the request for a room that
      times out goes to whatever room gets the address next
      ([timed_out_request_misdirected]), and one may be lost
      ([request_lost]) or lose its channel to a late farewell
      ([late_farewell_forgets]).
    - Addresses: the URI of a contact names the contact ([uri_round_trip]),
      and so does the number of a Facebook contact ([facebook_round_trip]).
    - The theorems of kind "error" are misbehaviours of the code, from the
      functions as they are written: each is shown of every reachable state of
      the kind it names, and its witness is a concrete run that gets there.

    ** Fuel

    Loops that are not structural take fuel and end in [OutOfFuel], which
    [wp] excludes, so every theorem that a handler returns shows that its
    fuel is enough.  The pipeline's loops have as much fuel as there are
    queued requests plus what callbacks may still enqueue; the in-band
    sending loop sends at most [WINDOW_SIZE] stanzas; the loop that cuts a
    room message sends at least a byte per turn; the SOCKS5 error path
    recurses once into a connection attempt; the loop that consumes the
    SOCKS5 read buffer runs at most once per buffered byte; a multi-method
    stream recurses at most once per method left; the loop that expires
    vCards takes one out of the heap per turn; a disco pipeline is filled in
    at most ten turns and destroyed in one per entry, and disposing of service
    discovery takes at most one turn per request and item not yet asked
    about.  The roster and the chat rooms have no such loop; the server's
    replies that [roster_requests_complete] counts are at most one per IQ in
    flight and two per contact with unsent edits.

    ** Not modelled

    GObject property plumbing and D-Bus glue, logging
    ([gabble_presence_dump], DEBUG), the sockets below a transport,
    enumeration of network interfaces, and re-entrancy of signal handlers
    into the emitting object (a callback of the request pipeline may
    enqueue requests; other signals are recorded and do not call back).
    The base class of the contact list belongs to telepathy-glib; the
    roster's calls into it are events.  The tubes and calls of a chat room
    are one flag, and those that a closing channel closes do not call back
    into it; of their requests there is what they do to the text channel,
    and of sessions of calls how the manager looks for the channel.  The
    following parts are not modelled: tubes and file transfers, calls and
    media channels (D-Bus objects over the Jingle engine of a vendored
    library), the connection object with its D-Bus mixins, the TLS and
    SASL channels, and the registry of bytestreams with its list of
    proxies.

    ** Order of the development

    First the data every other part uses (nodes, capability sets, presence),
    then the protocol machinery with hard state (the pipeline, the
    bytestreams and their negotiation, hold), then the tables kept about
    contacts (the presence cache with data forms and capability hashes, the
    roster, the vCard manager), then what users see (stanza errors, messages,
    chats, addresses), and last what is built on service discovery and rooms
    (disco, room lists, chat rooms). *)

From Stdlib Require Export ZArith Lia Ascii.
From stdpp Require Export prelude gmap strings pretty.


(** ** Outcomes: C code that may abort the process

    [g_assert] aborts the whole connection manager; reading freed memory is
    undefined.  Both are values of [outcome], so that "the handler never
    aborts" is a theorem and "this input aborts it" is another. *)

Inductive abort :=
  | AssertFailed      (* g_assert, g_assert_not_reached *)
  | MemoryFault       (* use of freed, unallocated or uninitialised memory *)
  | OutOfFuel.        (* a loop ran for longer than its bound: excluded by [wp] *)

Inductive outcome (A : Type) :=
  | Ok (a : A)
  | Abort (r : abort).
Arguments Ok {A} a.
Arguments Abort {A} r.

#[global] Instance abort_eq_dec : EqDecision abort.
Proof. solve_decision. Defined.

(** The state-and-abort monad in which the stateful handlers are written. *)
Definition M (S A : Type) : Type := S → outcome (A * S).

#[global] Instance M_ret {S} : MRet (M S) := λ A a s, Ok (a, s).
#[global] Instance M_bind {S} : MBind (M S) := λ A B f m s,
  match m s with
  | Ok (a, s') => f a s'
  | Abort r => Abort r
  end.

Declare Scope gabble_scope.
Delimit Scope gabble_scope with gabble.
Open Scope gabble_scope.

Section prims.
Context {S : Type}.
Definition get : M S S := λ s, Ok (s, s).
Definition modify (f : S → S) : M S unit := λ s, Ok (tt, f s).
Definition fail {A} (r : abort) : M S A := λ _, Abort r.
Definition g_assert (b : bool) : M S unit :=
  if b then mret tt else fail AssertFailed.
Definition when (b : bool) (m : M S unit) : M S unit :=
  if b then m else mret tt.
End prims.

Fixpoint for_each {S A} (l : list A) (body : A → M S unit) : M S unit :=
  match l with
  | [] => mret tt
  | x :: l' => body x ;; for_each l' body
  end.

(** Total correctness: [wp m Q s] says that [m] started in [s] does not abort
    and ends in a value and a state satisfying [Q]. *)
Definition wp {S A} (m : M S A) (Q : A → S → Prop) (s : S) : Prop :=
  match m s with
  | Ok (a, s') => Q a s'
  | Abort _ => False
  end.

Section wp_rules.
Context {S : Type}.
Implicit Types s : S.

Lemma wp_ret {A} (a : A) (Q : A → S → Prop) s : Q a s → wp (mret a) Q s.
Proof. done. Qed.

Lemma wp_bind {A B} (m : M S A) (f : A → M S B) (Q : B → S → Prop) s :
  wp m (λ a, wp (f a) Q) s → wp (m ≫= f) Q s.
Proof.
  unfold wp, mbind, M_bind. destruct (m s) as [[a s']|r]; done.
Qed.

Lemma wp_assoc {A B C} (m : M S A) (f : A → M S B) (g : B → M S C) Q s :
  wp ((m ≫= f) ≫= g) Q s → wp (m ≫= λ a, f a ≫= g) Q s.
Proof.
  unfold wp, mbind, M_bind. by destruct (m s) as [[a s']|r].
Qed.

Lemma bind_Ok {A B} (m : M S A) (f : A → M S B) s b s2 :
  (m ≫= f) s = Ok (b, s2) → ∃ a s1, m s = Ok (a, s1) ∧ f a s1 = Ok (b, s2).
Proof. unfold mbind, M_bind. destruct (m s) as [[a s1]|]; [eauto|done]. Qed.

Lemma bind_eq {A B} (m : M S A) (f : A → M S B) s a s1 :
  m s = Ok (a, s1) → (m ≫= f) s = f a s1.
Proof. unfold mbind, M_bind. by intros ->. Qed.

Lemma assert_Ok b s u s2 : g_assert b s = Ok (u, s2) → s2 = s ∧ b = true.
Proof. by destruct b; [intros [= _ <-]|]. Qed.

Lemma wp_get (Q : S → S → Prop) s : Q s s → wp get Q s.
Proof. done. Qed.

Lemma wp_modify f (Q : unit → S → Prop) s : Q tt (f s) → wp (modify f) Q s.
Proof. done. Qed.

Lemma wp_assert b (Q : unit → S → Prop) s :
  b = true → Q tt s → wp (g_assert b) Q s.
Proof. by intros ->. Qed.

Lemma wp_when b m (Q : unit → S → Prop) s :
  (b = true → wp m Q s) → (b = false → Q tt s) → wp (when b m) Q s.
Proof. intros H1 H2. destruct b; [by apply H1 | by apply H2]. Qed.

Lemma wp_mono {A} (m : M S A) (P Q : A → S → Prop) s :
  (∀ a s', P a s' → Q a s') → wp m P s → wp m Q s.
Proof. unfold wp. destruct (m s) as [[a s']|r]; eauto. Qed.

Lemma wp_for_each {A} (I : list A → S → Prop) (body : A → M S unit) l s :
  (∀ x l' s', I (x :: l') s' → wp (body x) (λ _, I l') s') →
  I l s → wp (for_each l body) (λ _, I []) s.
Proof.
  intros Hbody. revert s. induction l as [|x l IH]; intros s HI; [done|].
  cbn. apply wp_bind. eapply wp_mono; [|by apply Hbody].
  intros [] s' HI'. by apply IH.
Qed.
End wp_rules.

Ltac wp_step :=
  match goal with
  | |- wp (mbind _ _) _ _ => apply wp_bind
  | |- wp (mret _) _ _ => apply wp_ret
  | |- wp get _ _ => apply wp_get
  | |- wp (modify _) _ _ => apply wp_modify
  | |- wp (g_assert _) _ _ => apply wp_assert
  | |- wp (when _ _) _ _ => apply wp_when; intros ?
  | |- wp (if ?b then _ else _) _ _ => let E := fresh "E" in destruct b eqn:E
  | |- wp (match ?x with _ => _ end) _ _ =>
      let E := fresh "E" in destruct x eqn:E
  end.
Ltac wp_steps := repeat wp_step.

Lemma wp_known {S A B} (m : M S A) (k : A → M S B) (Q : B → S → Prop) s a s' :
  m s = Ok (a, s') → wp (k a) Q s' → wp (m ≫= k) Q s.
Proof. intros Hm Hk. unfold wp. by rewrite (bind_eq _ _ _ _ _ Hm). Qed.

Lemma bind_Abort {S A B} (m : M S A) (k : A → M S B) s r :
  m s = Abort r → (m ≫= k) s = Abort r.
Proof. unfold mbind, M_bind. by intros ->. Qed.

(** ** Handlers that may abort only when [G] fails

    With [G] true this is [wp]; with [G] false it says what holds whenever
    the handler returns. *)

Definition wpe {S A} (G : Prop) (m : M S A) (Q : A → S → Prop) (s : S) : Prop :=
  match m s with Ok (a, s') => Q a s' | Abort _ => ¬ G end.

Section wpe_rules.
Context {S : Type} (G : Prop).
Implicit Types s : S.

Lemma wpe_wp {A} (m : M S A) (Q : A → S → Prop) s : G → wpe G m Q s → wp m Q s.
Proof. unfold wpe, wp. destruct (m s) as [[]|]; naive_solver. Qed.

Lemma wp_wpe {A} (m : M S A) (Q : A → S → Prop) s : wp m Q s → wpe G m Q s.
Proof. unfold wpe, wp. by destruct (m s) as [[]|]. Qed.

Lemma wpe_ret {A} (a : A) (Q : A → S → Prop) s : Q a s → wpe G (mret a) Q s.
Proof. done. Qed.

Lemma wpe_bind {A B} (m : M S A) (f : A → M S B) (Q : B → S → Prop) s :
  wpe G m (λ a, wpe G (f a) Q) s → wpe G (m ≫= f) Q s.
Proof. unfold wpe, mbind, M_bind. by destruct (m s) as [[a s']|r]. Qed.

Lemma wpe_get (Q : S → S → Prop) s : Q s s → wpe G get Q s.
Proof. done. Qed.

Lemma wpe_modify f (Q : unit → S → Prop) s : Q tt (f s) → wpe G (modify f) Q s.
Proof. done. Qed.

Lemma wpe_assert b (Q : unit → S → Prop) s :
  (G → b = true) → (b = true → Q tt s) → wpe G (g_assert b) Q s.
Proof. intros Hb HQ. destruct b; [by apply HQ|]. intros g. by apply Hb in g. Qed.

Lemma wpe_fail {A} r (Q : A → S → Prop) s : ¬ G → wpe G (fail r) Q s.
Proof. done. Qed.

Lemma wpe_when b m (Q : unit → S → Prop) s :
  (b = true → wpe G m Q s) → (b = false → Q tt s) → wpe G (when b m) Q s.
Proof. intros H1 H2. destruct b; [by apply H1 | by apply H2]. Qed.

Lemma wpe_mono {A} (m : M S A) (P Q : A → S → Prop) s :
  wpe G m P s → (∀ a s', P a s' → Q a s') → wpe G m Q s.
Proof. unfold wpe. destruct (m s) as [[a s']|r]; eauto. Qed.

Lemma wpe_for_each {A} (I : list A → S → Prop) (body : A → M S unit) l s :
  (∀ x l' s', I (x :: l') s' → wpe G (body x) (λ _, I l') s') →
  I l s → wpe G (for_each l body) (λ _, I []) s.
Proof.
  intros Hbody. revert s. induction l as [|x l IH]; intros s HI; [done|].
  cbn. apply wpe_bind. eapply wpe_mono; [by apply Hbody|].
  intros [] s' HI'. by apply IH.
Qed.

Lemma wpe_and {A} (m : M S A) (P Q : A → S → Prop) s :
  wpe G m P s → wpe False m Q s → wpe G m (λ a s', P a s' ∧ Q a s') s.
Proof. unfold wpe. by destruct (m s) as [[a s']|]. Qed.
End wpe_rules.

(** ** Handlers that leave a part of the state alone *)

Section retains.
Context {S T : Type} (f : S → T).
Implicit Types s : S.

(** [t] is what [f] was at the start. *)
Definition retains (t : T) {A} (m : M S A) s : Prop :=
  f s = t → ∀ a s', m s = Ok (a, s') → f s' = t.

Lemma retains_ret t {A} (a : A) s : retains t (mret a) s.
Proof. by intros Hs b s' [= _ <-]. Qed.

Lemma retains_fail t {A} r s : retains t (fail r : M S A) s.
Proof. done. Qed.

Lemma retains_modify t g s : (f s = t → f (g s) = t) → retains t (modify g) s.
Proof. by intros Hg Hs [] s' [= <-]; apply Hg. Qed.

Lemma retains_get t {B} (k : S → M S B) s : retains t (k s) s → retains t (get ≫= k) s.
Proof. done. Qed.

Lemma retains_bind t {A B} (m : M S A) (k : A → M S B) s :
  retains t m s → (∀ a s', f s' = t → retains t (k a) s') → retains t (m ≫= k) s.
Proof.
  intros Hm Hk Hs b s'. unfold mbind, M_bind. destruct (m s) as [[a s1]|] eqn:E; [|done].
  pose proof (Hm Hs _ _ E) as H1. by apply Hk.
Qed.

Lemma retains_when t b (m : M S unit) s : retains t m s → retains t (when b m) s.
Proof. intros Hm. destruct b; [done|apply retains_ret]. Qed.

Lemma retains_for_each t {A} (l : list A) (body : A → M S unit) s :
  (∀ x s', f s' = t → retains t (body x) s') → retains t (for_each l body) s.
Proof.
  intros Hb. revert s. induction l as [|x l IH]; intros s Hs; [by apply retains_ret|].
  apply retains_bind; auto.
Qed.

Lemma retains_wpe {A} (m : M S A) (Q : A → S → Prop) s :
  retains (f s) m s → (∀ a s', f s' = f s → Q a s') → wpe False m Q s.
Proof.
  intros Hk HQ. unfold wpe. destruct (m s) as [[a s']|] eqn:E; [|by intros []].
  apply HQ. by apply (Hk eq_refl a).
Qed.

Lemma wp_retains t {A} (m : M S A) (Q : A → S → Prop) s :
  wp m Q s → f s = t → retains t m s → wp m (λ a s', Q a s' ∧ f s' = t) s.
Proof. unfold wp, retains. intros Hm Hs Hk. destruct (m s) as [[a s']|]; [|done]. eauto. Qed.
End retains.

Ltac unfold_head m :=
  match m with
  | ?g _ => unfold_head g
  | _ => unfold m
  end.

(** Unfolds the handler down to its state changes, which must leave [f] alone
    by computation; [tac] proves what is left of a step it does not know. *)
Ltac retains_with tac :=
  repeat first
    [ progress intros
    | tac
    | match goal with
      | |- retains _ _ (mret _) _ => apply retains_ret
      | |- retains _ _ (fail _) _ => apply retains_fail
      | |- retains _ _ (if ?b then _ else _) _ => destruct b
      | |- retains _ _ (match ?x with _ => _ end) _ => destruct x
      | |- retains _ _ (let _ := _ in _) _ => cbv zeta
      | |- retains _ _ (get ≫= _) _ => apply retains_get
      | |- retains _ _ (mbind _ _) _ => apply retains_bind
      | |- retains _ _ (when _ _) _ => apply retains_when
      | |- retains _ _ (for_each _ _) _ => apply retains_for_each
      | |- retains _ _ (modify _) _ => apply retains_modify; cbn in *; congruence
      | |- retains _ _ ?m _ => unfold_head m
      end ].

(** ** Machine integers *)

Open Scope Z_scope.

(** [wrap w z]: [z] stored in an unsigned [w]-bit variable. *)
Definition wrap (w z : Z) : Z := z mod 2 ^ w.
(** [swrap w z]: [z] stored in a signed two's complement [w]-bit variable. *)
Definition swrap (w z : Z) : Z := (z + 2 ^ (w - 1)) mod 2 ^ w - 2 ^ (w - 1).

Abbreviation u8 := (wrap 8).
Abbreviation u16 := (wrap 16).
Abbreviation u32 := (wrap 32).
Abbreviation s32 := (swrap 32).

Lemma wrap_bounds w z : 0 <= w → 0 <= wrap w z < 2 ^ w.
Proof. intros. apply Z.mod_pos_bound, Z.pow_pos_nonneg; lia. Qed.

Lemma wrap_id w z : 0 <= z < 2 ^ w → wrap w z = z.
Proof. apply Z.mod_small. Qed.

Lemma wrap_le w z : 0 <= w → 0 <= z → wrap w z <= z.
Proof. intros. apply Z.mod_le; [lia|]. apply Z.pow_pos_nonneg; lia. Qed.

Lemma swrap_id w z : 0 < w → - 2 ^ (w - 1) <= z < 2 ^ (w - 1) → swrap w z = z.
Proof.
  intros Hw Hz. unfold swrap. rewrite Z.mod_small; [lia|].
  assert (2 ^ w = 2 * 2 ^ (w - 1)) as ->; [|lia].
  rewrite <- Z.pow_succ_r by lia. f_equal. lia.
Qed.

Lemma wrap_add w a b : 0 <= w → wrap w (wrap w a + b) = wrap w (a + b).
Proof. intros. unfold wrap. apply Zplus_mod_idemp_l. Qed.

(** ** C strings *)

(** The first character of a NUL-terminated string: [s[0]]. *)
Definition char0 (s : string) : ascii :=
  match s with
  | EmptyString => Ascii.zero
  | String c _ => c
  end.

(** [tp_strdiff a b]: whether two possibly-NULL strings differ. *)
Definition tp_strdiff (a b : option string) : bool := bool_decide (a ≠ b).

Lemma tp_strdiff_false a b : tp_strdiff a b = false ↔ a = b.
Proof.
  unfold tp_strdiff. rewrite bool_decide_eq_false. split; [|naive_solver].
  intros H. destruct (decide (a = b)); naive_solver.
Qed.

(** [isspace] in the C locale. *)
Definition isspace (c : ascii) : bool :=
  let n := nat_of_ascii c in
  (n =? 32)%nat || ((9 <=? n)%nat && (n <=? 13)%nat).

Definition digit (c : ascii) : option Z :=
  let n := nat_of_ascii c in
  if ((48 <=? n) && (n <=? 57))%nat then Some (Z.of_nat n - 48) else None.

Fixpoint skip_spaces (s : string) : string :=
  match s with
  | String c s' => if isspace c then skip_spaces s' else s
  | EmptyString => s
  end.

(** The longest prefix of decimal digits: value, whether it was non-empty,
    and the rest. *)
Fixpoint scan_digits (acc : Z) (seen : bool) (s : string) : Z * bool * string :=
  match s with
  | String c s' =>
      match digit c with
      | Some d => scan_digits (acc * 10 + d) true s'
      | None => (acc, seen, s)
      end
  | EmptyString => (acc, seen, s)
  end.

Definition clamp (lo hi z : Z) : Z := Z.max lo (Z.min hi z).

(** [strtol (s, &end, 10)] of ISO C with a 64-bit [long], which is also
    [g_ascii_strtoll]: the converted value, clamped, and the string at [end]. *)
Definition strtol (s : string) : Z * string :=
  let s1 := skip_spaces s in
  let '(neg, s2) :=
    match s1 with
    | String c s' =>
        if bool_decide (c = "-"%char) then (true, s')
        else if bool_decide (c = "+"%char) then (false, s')
        else (false, s1)
    | EmptyString => (false, s1)
    end in
  let '(v, seen, rest) := scan_digits 0 false s2 in
  if seen then
    (clamp (- 2 ^ 63) (2 ^ 63 - 1) (if neg then - v else v), rest)
  else (0, s).

(** [strtoul (s, NULL, 10)] with a 64-bit [unsigned long]: a minus sign
    negates modulo 2^64, overflow gives the largest value. *)
Definition strtoul (s : string) : Z :=
  let s1 := skip_spaces s in
  let '(neg, s2) :=
    match s1 with
    | String c s' =>
        if bool_decide (c = "-"%char) then (true, s')
        else if bool_decide (c = "+"%char) then (false, s')
        else (false, s1)
    | EmptyString => (false, s1)
    end in
  let '(v, seen, _) := scan_digits 0 false s2 in
  if negb seen then 0
  else if 2 ^ 64 - 1 <? v then 2 ^ 64 - 1
  else if neg then wrap 64 (- v) else v.

Lemma clamp_bounds lo hi z : lo <= hi → lo <= clamp lo hi z <= hi.
Proof. unfold clamp. lia. Qed.

Lemma strtol_bounds s : - 2 ^ 63 <= (strtol s).1 <= 2 ^ 63 - 1.
Proof.
  unfold strtol.
  destruct (match skip_spaces s with String _ _ => _ | _ => _ end) as [neg s2].
  destruct (scan_digits 0 false s2) as [[v seen] rest].
  destruct seen; cbn -[Z.pow clamp]; [apply clamp_bounds|]; lia.
Qed.

(** Decimal printing of a non-negative integer, as [g_strdup_printf ("%u")]. *)
Definition print_u (n : Z) : string := pretty (Z.to_N n).

(** ** Lists *)

(** [g_slist_remove]: removes the first element equal to [x]. *)
Fixpoint g_slist_remove {A} `{EqDecision A} (x : A) (l : list A) : list A :=
  match l with
  | [] => []
  | y :: l' => if decide (x = y) then l' else y :: g_slist_remove x l'
  end.

Section slist.
Context {A : Type} `{EqDecision A}.
Implicit Types (x y : A) (l : list A).

Lemma g_slist_remove_not_in x l : x ∉ l → g_slist_remove x l = l.
Proof.
  induction l as [|y l IH]; intros Hx; [done|].
  apply not_elem_of_cons in Hx as [Hne Hx]. cbn.
  rewrite decide_False by done. by rewrite IH.
Qed.

Lemma elem_of_g_slist_remove x y l : y ∈ g_slist_remove x l → y ∈ l.
Proof.
  induction l as [|z l IH]; cbn; [done|]. case_decide; set_solver.
Qed.

Lemma g_slist_remove_perm x l : x ∈ l → l ≡ₚ x :: g_slist_remove x l.
Proof.
  induction l as [|y l IH]; intros Hx; [by apply not_elem_of_nil in Hx|].
  cbn. case_decide as Heq; [by subst|].
  apply elem_of_cons in Hx as [?|Hx]; [done|].
  rewrite (IH Hx) at 1. apply perm_swap.
Qed.

Lemma g_slist_remove_NoDup x l :
  NoDup l → NoDup (g_slist_remove x l) ∧ x ∉ g_slist_remove x l.
Proof.
  intros Hnd. destruct (decide (x ∈ l)) as [Hx|Hx].
  - rewrite (g_slist_remove_perm x l Hx) in Hnd.
    apply NoDup_cons in Hnd. naive_solver.
  - by rewrite g_slist_remove_not_in.
Qed.

Lemma length_g_slist_remove x l :
  x ∈ l → S (length (g_slist_remove x l)) = length l.
Proof.
  intros Hx. apply g_slist_remove_perm in Hx.
  apply Permutation_length in Hx. done.
Qed.
End slist.

(** A prefix of a concatenation ends in one part or in the other. *)
Lemma prefix_app_short {A} (l a b : list A) :
  l `prefix_of` a ++ b → (length l ≤ length a)%nat → l `prefix_of` a.
Proof.
  revert l. induction a as [|x a IH]; intros [|y l] Hp Hl; cbn in *; try lia.
  - apply prefix_nil.
  - apply prefix_nil.
  - pose proof (prefix_cons_inv_1 _ _ _ _ Hp) as ->. apply prefix_cons, IH; [|lia].
    by eapply prefix_cons_inv_2.
Qed.

Lemma prefix_app_long {A} (l a b : list A) :
  l `prefix_of` a ++ b → (length a ≤ length l)%nat → ∃ r, l = a ++ r ∧ r `prefix_of` b.
Proof.
  revert l. induction a as [|x a IH]; intros l Hp Hl; cbn in *; [eauto|].
  destruct l as [|y l]; cbn in *; [lia|]. pose proof (prefix_cons_inv_1 _ _ _ _ Hp) as ->.
  apply prefix_cons_inv_2 in Hp. destruct (IH l Hp ltac:(lia)) as (r & -> & Hr). eauto.
Qed.

(** ** Reachability: a relation's reflexive transitive closure preserves any
    invariant of its steps. *)
Lemma rtc_invariant {A} (R : relation A) (I : A → Prop) x y :
  (∀ a b, I a → R a b → I b) → I x → rtc R x y → I y.
Proof. intros Hstep HI Hr. induction Hr; eauto. Qed.

Create HintDb gabble.
#[export] Hint Resolve wrap_bounds wrap_id : gabble.

(** ** Strings *)

Lemma str_cons_app a p s : String a p +:+ s = String a (p +:+ s).
Proof. done. Qed.

Lemma str_prefix_app p s : String.prefix p (p +:+ s) = true.
Proof.
  induction p as [|a p IH]; [by destruct s|]. rewrite str_cons_app. cbn.
  by destruct (Ascii.ascii_dec a a).
Qed.

Lemma str_length_app p s : String.length (p +:+ s) = (String.length p + String.length s)%nat.
Proof. induction p as [|a p IH]; [done|]. rewrite str_cons_app. cbn. by rewrite IH. Qed.

Lemma str_substring_all s : String.substring 0 (String.length s) s = s.
Proof. induction s as [|a s IH]; [done|]. cbn. by rewrite IH. Qed.

Lemma str_substring_app p s : String.substring (String.length p) (String.length s) (p +:+ s) = s.
Proof.
  induction p as [|a p IH]; [apply str_substring_all|]. rewrite str_cons_app. cbn. apply IH.
Qed.
