(* ===== verification/Node.v ===== *)
(** * XML nodes (lib/ext/wocky/wocky/wocky-node.c)

    The stanza tree gabble reads and builds.  A [GQuark] namespace is the
    string it was interned from, quark 0 is [None].  Node names, attribute
    values and contents are valid UTF-8, on which [strndup_validated] copies
    the string unchanged. *)

From S2P Require Import Prelude.

Record Attribute := mkAttribute {
  attr_key : string;
  attr_value : string;
  attr_ns : option string
}.

Inductive WockyNode := mkNode {
  name : string;
  content : option string;
  ns : option string;
  attributes : list Attribute;
  children : list WockyNode
}.

(** ** Reading *)

Definition attribute_compare (key : string) (target_ns : option string)
    (a : Attribute) : bool :=
  match target_ns with
  | Some n =>
      bool_decide (attr_ns a = Some n) && bool_decide (attr_key a = key)
  | None => bool_decide (attr_key a = key)
  end.

Definition wocky_node_get_attribute_ns (node : WockyNode) (key : string)
    (target_ns : option string) : option string :=
  attr_value <$> List.find (attribute_compare key target_ns) (attributes node).

Definition wocky_node_get_attribute (node : WockyNode) (key : string) :
    option string :=
  wocky_node_get_attribute_ns node key None.

Definition node_compare_child (key : option string) (target_ns : option string)
    (n : WockyNode) : bool :=
  match target_ns with
  | Some t => bool_decide (ns n = Some t)
  | None => true
  end &&
  match key with
  | None => true
  | Some k => bool_decide (name n = k)
  end.

Definition wocky_node_get_child_ns (node : WockyNode) (key : option string)
    (target_ns : option string) : option WockyNode :=
  List.find (node_compare_child key target_ns) (children node).

Definition wocky_node_get_child (node : WockyNode) (key : string) :
    option WockyNode :=
  wocky_node_get_child_ns node (Some key) None.

Definition wocky_node_get_content_from_child (node : WockyNode) (key : string) :
    option string :=
  wocky_node_get_child node key ≫= content.

(** ** Building

    The C functions mutate the parent in place and return the new child; here
    they return the updated parent. *)

Definition set_children (node : WockyNode) (l : list WockyNode) : WockyNode :=
  mkNode (name node) (content node) (ns node) (attributes node) l.

Definition wocky_node_add_child_with_content_ns (node : WockyNode)
    (nm : string) (txt : option string) (child_ns : option string) : WockyNode :=
  let n := match child_ns with Some _ => child_ns | None => ns node end in
  set_children node (children node ++ [mkNode nm txt n [] []]).

Definition wocky_node_add_child_with_content (node : WockyNode)
    (nm : string) (txt : option string) : WockyNode :=
  wocky_node_add_child_with_content_ns node nm txt None.

(** [wocky_node_set_attribute_n_ns]: the old attribute of that key (in any
    namespace when none is given) is dropped, the new one goes last. *)
Fixpoint delete_first {A} (p : A → bool) (l : list A) : list A :=
  match l with
  | [] => []
  | x :: l' => if p x then l' else x :: delete_first p l'
  end.

Definition wocky_node_set_attribute_n_ns (node : WockyNode)
    (key value : string) (target_ns : option string) : WockyNode :=
  mkNode (name node) (content node) (ns node)
    (delete_first (attribute_compare key target_ns) (attributes node)
      ++ [mkAttribute key value target_ns])
    (children node).

Definition wocky_node_set_attribute (node : WockyNode) (key value : string) :
    WockyNode :=
  wocky_node_set_attribute_n_ns node key value None.

Definition wocky_node_set_content (node : WockyNode) (txt : string) : WockyNode :=
  mkNode (name node) (Some txt) (ns node) (attributes node) (children node).

(** ** Lemmas *)

Lemma find_Some_elem {A} (f : A → bool) l x :
  List.find f l = Some x → x ∈ l ∧ f x = true.
Proof. intros [Hin Hf]%List.find_some. by rewrite list_elem_of_In. Qed.

Lemma get_child_ns_Some node key target c :
  wocky_node_get_child_ns node key target = Some c →
  c ∈ children node ∧ node_compare_child key target c = true.
Proof. apply find_Some_elem. Qed.

Lemma get_attribute_Some node key v :
  wocky_node_get_attribute node key = Some v →
  ∃ a, a ∈ attributes node ∧ attr_key a = key ∧ attr_value a = v.
Proof.
  intros (a & Hf & Ha)%fmap_Some. apply find_Some_elem in Hf as [Hin Hc].
  cbn in Hc. apply bool_decide_eq_true in Hc. eauto.
Qed.

Lemma get_attribute_set_same node key v :
  attribute_compare key None <$> attributes node = (λ _, false) <$> attributes node →
  wocky_node_get_attribute (wocky_node_set_attribute node key v) key = Some v.
Proof.
  unfold wocky_node_get_attribute, wocky_node_get_attribute_ns. cbn -[attribute_compare].
  destruct node as [nm c n l ch]. cbn -[attribute_compare].
  induction l as [|a l IH]; cbn -[attribute_compare]; intros Hl.
  - cbn. by rewrite bool_decide_eq_true_2.
  - injection Hl as Ha Hl. change (attribute_compare key None a = false) in Ha.
    rewrite Ha. cbn -[attribute_compare]. rewrite Ha. by apply IH.
Qed.
