(* ===== verification/Namespaces.v ===== *)
(** * XMPP namespaces (src/namespaces.h, gabble/capabilities.h) *)

From S2P Require Import Prelude.

Module Namespaces.
Local Open Scope string_scope.

Definition NS_AMP : string :=
  "http://jabber.org/protocol/amp".
Definition NS_MUC_BYTESTREAM : string :=
  "http://telepathy.freedesktop.org/xmpp/protocol/muc-bytestream".
Definition NS_BYTESTREAMS : string :=
  "http://jabber.org/protocol/bytestreams".
Definition NS_CHAT_STATES : string :=
  "http://jabber.org/protocol/chatstates".
Definition NS_DISCO_INFO : string :=
  "http://jabber.org/protocol/disco#info".
Definition NS_FILE_TRANSFER : string :=
  "http://jabber.org/protocol/si/profile/file-transfer".
Definition NS_GOOGLE_FEAT_SESSION : string :=
  "http://www.google.com/xmpp/protocol/session".
Definition NS_GOOGLE_FEAT_SHARE : string :=
  "http://google.com/xmpp/protocol/share/v1".
Definition NS_GOOGLE_FEAT_VOICE : string :=
  "http://www.google.com/xmpp/protocol/voice/v1".
Definition NS_GOOGLE_FEAT_VIDEO : string :=
  "http://www.google.com/xmpp/protocol/video/v1".
Definition NS_GOOGLE_FEAT_CAMERA : string :=
  "http://www.google.com/xmpp/protocol/camera/v1".
Definition NS_IBB : string :=
  "http://jabber.org/protocol/ibb".
Definition NS_JINGLE015 : string :=
  "http://jabber.org/protocol/jingle".
Definition NS_JINGLE_DESCRIPTION_AUDIO : string :=
  "http://jabber.org/protocol/jingle/description/audio".
Definition NS_JINGLE_DESCRIPTION_VIDEO : string :=
  "http://jabber.org/protocol/jingle/description/video".
Definition NS_JINGLE032 : string :=
  "urn:xmpp:jingle:1".
Definition NS_JINGLE_RTP : string :=
  "urn:xmpp:jingle:apps:rtp:1".
Definition NS_JINGLE_RTP_AUDIO : string :=
  "urn:xmpp:jingle:apps:rtp:audio".
Definition NS_JINGLE_RTP_VIDEO : string :=
  "urn:xmpp:jingle:apps:rtp:video".
Definition NS_GOOGLE_TRANSPORT_P2P : string :=
  "http://www.google.com/transport/p2p".
Definition NS_JINGLE_TRANSPORT_RAWUDP : string :=
  "urn:xmpp:jingle:transports:raw-udp:1".
Definition NS_JINGLE_TRANSPORT_ICEUDP : string :=
  "urn:xmpp:jingle:transports:ice-udp:1".
Definition NS_LAST : string :=
  "jabber:iq:last".
Definition NS_NICK : string :=
  "http://jabber.org/protocol/nick".
Definition NS_OLPC_BUDDY_PROPS : string :=
  "http://laptop.org/xmpp/buddy-properties".
Definition NS_OLPC_ACTIVITIES : string :=
  "http://laptop.org/xmpp/activities".
Definition NS_OLPC_CURRENT_ACTIVITY : string :=
  "http://laptop.org/xmpp/current-activity".
Definition NS_OLPC_ACTIVITY_PROPS : string :=
  "http://laptop.org/xmpp/activity-properties".
Definition NS_RECEIPTS : string :=
  "urn:xmpp:receipts".
Definition NS_SI : string :=
  "http://jabber.org/protocol/si".
Definition NS_TUBES : string :=
  "http://telepathy.freedesktop.org/xmpp/tubes".
Definition NS_VCARD_TEMP_UPDATE : string :=
  "vcard-temp:x:update".
Definition NS_VERSION : string :=
  "jabber:iq:version".
Definition NS_GEOLOC : string :=
  "http://jabber.org/protocol/geoloc".
Definition NS_TP_FT_METADATA : string :=
  "http://telepathy.freedesktop.org/xmpp/file-transfer-metadata".

Definition NS_FEATURENEG : string :=
  "http://jabber.org/protocol/feature-neg".
Definition NS_SI_MULTIPLE : string :=
  "http://telepathy.freedesktop.org/xmpp/si-multiple".
Definition NS_X_DATA : string :=
  "jabber:x:data".

(** Quirks are pseudo-namespaces starting with a character XML forbids. *)
Definition QUIRK_PREFIX_CHAR : ascii := "007"%char.
Definition QUIRK_OMITS_CONTENT_CREATORS : string :=
  String QUIRK_PREFIX_CHAR "omits-content-creators".

End Namespaces.
Export Namespaces.
