(* ===== verification/Jid.v ===== *)
(** * Jabber IDs (lib/ext/wocky/wocky/wocky-utils.c, src/util.c)

    Taking JIDs apart, putting them together and normalising them.
    [g_utf8_strdown] and [g_utf8_normalize] are arguments. *)

From Stdlib Require String.
From S2P Require Import Prelude.

Module Jid.

(** [strchr (s, c)]: the parts before and after the first [c]. *)
Fixpoint split_first (c : ascii) (s : string) : option (string * string) :=
  match s with
  | EmptyString => None
  | String x s' =>
      if bool_decide (x = c) then Some (EmptyString, s')
      else match split_first c s' with
           | Some (a, b) => Some (String x a, b)
           | None => None
           end
  end.

Fixpoint forall_char (p : ascii → bool) (s : string) : bool :=
  match s with
  | EmptyString => true
  | String x s' => p x && forall_char p s'
  end.

Definition strchr (set : string) (c : ascii) : bool :=
  match split_first c set with
  | Some _ => true
  | None => false
  end.

Definition is_empty (s : string) : bool := bool_decide (s = EmptyString).

(** ** Wocky *)

Definition validate_jid_node (node : string) : bool :=
  forall_char (λ c, negb (strchr (String.String "034"%char "&'/:<>@") c)) node.

Definition g_ascii_isalnum (c : ascii) : bool :=
  let n := nat_of_ascii c in
  ((48 <=? n) && (n <=? 57) || (65 <=? n) && (n <=? 90) || (97 <=? n) && (n <=? 122))%nat.

Definition validate_jid_domain (domain : string) : bool :=
  forall_char (λ c, (127 <=? nat_of_ascii c)%nat || g_ascii_isalnum c || strchr ":-." c) domain.

Section jid.
Context (g_utf8_strdown : string → string) (g_utf8_normalize : string → string).

Definition wocky_decode_jid (jid : string) : option (option string * string * option string) :=
  let '(tmp_jid, tmp_resource) :=
    match split_first "/" jid with
    | Some (a, b) => (a, Some b)
    | None => (jid, None)
    end in
  let '(tmp_node, tmp_domain) :=
    match split_first "@" tmp_jid with
    | Some (a, b) => (Some a, b)
    | None => (None, tmp_jid)
    end in
  if is_empty tmp_domain || negb (validate_jid_domain tmp_domain) ||
     match tmp_node with
     | Some n => is_empty n || negb (validate_jid_node n)
     | None => false
     end ||
     match tmp_resource with
     | Some r => is_empty r
     | None => false
     end
  then None
  else Some (g_utf8_strdown <$> tmp_node, g_utf8_strdown tmp_domain, tmp_resource).

Definition wocky_compose_jid (node : option string) (domain : string)
    (resource : option string) : string :=
  let normal := match node with
                | Some n => if is_empty n then domain else n +:+ "@" +:+ domain
                | None => domain
                end in
  match resource with
  | Some r => if negb (is_empty r) && negb (is_empty normal) then normal +:+ "/" +:+ r else normal
  | None => normal
  end.

Definition wocky_normalise_jid (jid : string) : option string :=
  match wocky_decode_jid jid with
  | Some (node, domain, resource) => Some (wocky_compose_jid node domain resource)
  | None => None
  end.

(** ** Gabble *)

Definition gabble_remove_resource (jid : string) : string :=
  match split_first "/" jid with
  | Some (a, _) => a
  | None => jid
  end.

Definition gabble_encode_jid (node : option string) (domain : string)
    (resource : option string) : string :=
  g_utf8_normalize
    match node, resource with
    | Some n, Some r => n +:+ "@" +:+ domain +:+ "/" +:+ r
    | Some n, None => n +:+ "@" +:+ domain
    | None, Some r => domain +:+ "/" +:+ r
    | None, None => domain
    end.

Inductive GabbleNormalizeContactJIDMode :=
  | GABBLE_JID_ANY
  | GABBLE_JID_GLOBAL
  | GABBLE_JID_ROOM_MEMBER.

#[global] Instance GabbleNormalizeContactJIDMode_eq_dec :
  EqDecision GabbleNormalizeContactJIDMode.
Proof. solve_decision. Defined.

(** [lookup_exact] of the handle repository, when there is one. *)
Definition gabble_normalize_contact (lookup_exact : option (string → bool)) (jid : string)
    (mode : GabbleNormalizeContactJIDMode) : option string :=
  match wocky_decode_jid jid with
  | Some (Some username, server, resource) =>
      if bool_decide (mode = GABBLE_JID_ROOM_MEMBER) && bool_decide (resource = None) then None
      else
        let global := gabble_encode_jid (Some username) server None in
        match resource with
        | Some r =>
            if bool_decide (mode ≠ GABBLE_JID_GLOBAL) then
              let ret := gabble_encode_jid (Some username) server (Some r) in
              if bool_decide (mode = GABBLE_JID_ROOM_MEMBER) ||
                 match lookup_exact with Some f => f ret | None => false end
              then Some ret
              else Some global
            else Some global
        | None => Some global
        end
  | _ => None
  end.

(** [canonical] is [gabble_connection_get_canonical_room_name], when the
    repository belongs to a connection. *)
Definition gabble_normalize_room (canonical : option (string → option string)) (jid : string) :
    option string :=
  match canonical with Some f => f jid | None => Some jid end ≫= λ qualified_name,
  match wocky_decode_jid qualified_name with
  | Some (_, _, None) => Some qualified_name
  | _ => None
  end.

(** [room_lookup]: the handle of a room, 0 when it is not known. *)
Definition gabble_get_room_handle_from_jid (room_lookup : string → Z) (jid : string) : Z :=
  room_lookup (gabble_remove_resource jid).
End jid.

(** ** Strings *)

Lemma string_app_assoc (a b c : string) : (a +:+ b) +:+ c = a +:+ b +:+ c.
Proof. induction a as [|x a IH]; [done|]. change (String x ((a +:+ b) +:+ c) = String x (a +:+ b +:+ c)). by rewrite IH. Qed.

Lemma string_app_nil (a : string) : a +:+ "" = a.
Proof. induction a as [|x a IH]; [done|]. change (String x (a +:+ "") = String x a). by rewrite IH. Qed.

Lemma split_first_app c a b :
  split_first c a = None → split_first c (a +:+ String c b) = Some (a, b).
Proof.
  induction a as [|x a IH]; cbn.
  - change ("" +:+ String c b) with (String c b). cbn. by rewrite bool_decide_eq_true_2.
  - case_bool_decide; [done|]. destruct (split_first c a) as [[]|]; [done|]. intros _.
    change (String x a +:+ String c b) with (String x (a +:+ String c b)). cbn.
    by rewrite bool_decide_eq_false_2, IH.
Qed.

Lemma split_first_app_none c a b :
  split_first c a = None → split_first c b = None → split_first c (a +:+ b) = None.
Proof.
  intros Ha Hb. revert Ha. induction a as [|x a IH]; [done|]. cbn.
  case_bool_decide; [done|]. destruct (split_first c a) as [[]|]; [done|]. intros _.
  change (String x a +:+ b) with (String x (a +:+ b)). cbn. by rewrite bool_decide_eq_false_2, IH.
Qed.

(** A character outside the set never splits. *)
Lemma forall_char_split (p : ascii → bool) c s :
  p c = false → forall_char p s = true → split_first c s = None.
Proof.
  intros Hc. induction s as [|x s IH]; [done|]. cbn. intros [Hx Hs]%andb_true_iff.
  case_bool_decide; [congruence|]. by rewrite IH.
Qed.

Lemma split_first_Some c s a b :
  split_first c s = Some (a, b) → s = a +:+ String c b ∧ split_first c a = None.
Proof.
  revert a. induction s as [|x s IH]; intros a; cbn; [done|].
  case_bool_decide as Hx; [by intros [= <- <-]; subst|].
  destruct (split_first c s) as [[a' b']|] eqn:E; [|done]. intros [= <- <-].
  destruct (IH a' eq_refl) as [-> Ha]. split; [done|]. cbn. by rewrite bool_decide_eq_false_2, Ha.
Qed.

(** ** Round trip *)

(** The parts of a well-formed JID. *)
Record valid_parts (node : option string) (domain : string) (resource : option string) : Prop := {
  valid_domain_ne : domain ≠ "";
  valid_domain : validate_jid_domain domain = true;
  valid_node n : node = Some n → n ≠ "" ∧ validate_jid_node n = true;
  valid_resource r : resource = Some r → r ≠ "";
}.

Lemma is_empty_false s : is_empty s = false ↔ s ≠ "".
Proof. apply bool_decide_eq_false. Qed.

Lemma domain_no_split c d :
  validate_jid_domain d = true → (c = "/" ∨ c = "@")%char → split_first c d = None.
Proof. intros Hd [->| ->]; (eapply forall_char_split; [|exact Hd]); reflexivity. Qed.

Lemma node_no_split c n :
  validate_jid_node n = true → (c = "/" ∨ c = "@")%char → split_first c n = None.
Proof. intros Hd [->| ->]; (eapply forall_char_split; [|exact Hd]); reflexivity. Qed.

(** The part before the resource. *)
Definition bare (node : option string) (domain : string) : string :=
  match node with
  | Some n => n +:+ "@" +:+ domain
  | None => domain
  end.

Lemma app_cons_assoc a c b d : (a +:+ String c b) +:+ d = a +:+ String c (b +:+ d).
Proof. by rewrite string_app_assoc. Qed.

Lemma app_ne a b : b ≠ "" → a +:+ b ≠ "".
Proof. by destruct a. Qed.

Lemma bare_ne node domain : domain ≠ "" → bare node domain ≠ "".
Proof. intros. destruct node; [by apply app_ne|done]. Qed.

Lemma compose_valid node domain resource :
  valid_parts node domain resource →
  wocky_compose_jid node domain resource =
  match resource with
  | Some r => bare node domain +:+ String "/" r
  | None => bare node domain
  end.
Proof.
  intros [Hd Hvd Hn Hr]. unfold wocky_compose_jid.
  assert (match node with Some n => if is_empty n then domain else n +:+ "@" +:+ domain
          | None => domain end = bare node domain) as ->.
  { destruct node as [n|]; [|done]. by rewrite (proj2 (is_empty_false n) (proj1 (Hn n eq_refl))). }
  destruct resource as [r|]; [|done].
  rewrite (proj2 (is_empty_false r) (Hr r eq_refl)).
  by rewrite (proj2 (is_empty_false _) (bare_ne node domain Hd)).
Qed.

Lemma bare_no_slash node domain resource :
  valid_parts node domain resource → split_first "/" (bare node domain) = None.
Proof.
  intros [Hd Hvd Hn Hr]. destruct node as [n|]; [|by apply domain_no_split; auto].
  destruct (Hn n eq_refl). apply split_first_app_none; [by apply node_no_split; auto|].
  change ("@" +:+ domain) with (String "@" domain). cbn. by rewrite domain_no_split by auto.
Qed.

Section laws.
Context (strdown : string → string).
Local Notation decode := (wocky_decode_jid strdown).
Local Notation normalise := (wocky_normalise_jid strdown).

Lemma decode_compose node domain resource :
  valid_parts node domain resource →
  decode (wocky_compose_jid node domain resource) =
  Some (strdown <$> node, strdown domain, resource).
Proof.
  intros Hv. rewrite compose_valid by done. pose proof (bare_no_slash _ _ _ Hv) as Hs.
  assert (match split_first "@" (bare node domain) with
          | Some (a, b) => (Some a, b) | None => (None, bare node domain) end
          = (node, domain)) as Hat.
  { destruct Hv as [Hd Hvd Hn Hr]. destruct node as [n|]; cbn [bare].
    - destruct (Hn n eq_refl). change ("@" +:+ domain) with (String "@" domain).
      by rewrite split_first_app by (apply node_no_split; auto).
    - by rewrite domain_no_split by auto. }
  unfold wocky_decode_jid.
  assert (match split_first "/" (match resource with
            | Some r => bare node domain +:+ String "/" r | None => bare node domain end) with
          | Some (a, b) => (a, Some b)
          | None => (match resource with
              | Some r => bare node domain +:+ String "/" r | None => bare node domain end, None)
          end = (bare node domain, resource)) as ->.
  { destruct resource; [by rewrite split_first_app|by rewrite Hs]. }
  cbv beta iota. rewrite Hat. destruct Hv as [Hd Hvd Hn Hr].
  rewrite (proj2 (is_empty_false domain) Hd), Hvd. cbn.
  destruct node as [n|]; [destruct (Hn n eq_refl) as [Hne ->]; rewrite (proj2 (is_empty_false n) Hne)|];
    (destruct resource as [r|]; [rewrite (proj2 (is_empty_false r) (Hr r eq_refl))|]; done).
Qed.

Lemma decode_inv jid node' domain' resource :
  decode jid = Some (node', domain', resource) →
  ∃ node domain, valid_parts node domain resource ∧
    jid = wocky_compose_jid node domain resource ∧
    node' = strdown <$> node ∧ domain' = strdown domain.
Proof.
  unfold wocky_decode_jid.
  destruct (match split_first "/" jid with Some (a, b) => (a, Some b) | None => (jid, None) end)
    as [tmp res] eqn:Hres.
  destruct (match split_first "@" tmp with Some (a, b) => (Some a, b) | None => (None, tmp) end)
    as [node domain] eqn:Hnode.
  destruct (_ || _) eqn:Hc; [done|]. intros [= <- <- <-].
  rewrite !orb_false_iff, negb_false_iff in Hc. destruct Hc as [[[Hd Hvd] Hn] Hr].
  rewrite is_empty_false in Hd.
  assert (valid_parts node domain res) as Hv.
  { split; [done|done|..].
    - intros n ->. by rewrite orb_false_iff, negb_false_iff, is_empty_false in Hn.
    - intros r ->. by rewrite is_empty_false in Hr. }
  exists node, domain. split_and!; [done| |done|done]. rewrite compose_valid by done.
  assert (tmp = bare node domain) as <-.
  { destruct (split_first "@" tmp) as [[a b]|] eqn:E; injection Hnode as <- <-; [|done].
    by apply split_first_Some in E as [-> _]. }
  destruct (split_first "/" jid) as [[a b]|] eqn:E; injection Hres as <- <-; [|done].
  by apply split_first_Some in E as [-> _].
Qed.

(** Decoding accepts exactly the strings composed of valid
    parts, and gives those parts back with node and domain in lower case; a
    resource may contain anything, slashes and at signs included. *)
Theorem jid_decode_iff jid node' domain' resource :
  decode jid = Some (node', domain', resource) ↔
  ∃ node domain, valid_parts node domain resource ∧
    jid = wocky_compose_jid node domain resource ∧
    node' = strdown <$> node ∧ domain' = strdown domain.
Proof.
  split; [apply decode_inv|].
  intros (node & domain & Hv & -> & -> & ->). by apply decode_compose.
Qed.

Lemma remove_resource_compose node domain resource :
  valid_parts node domain resource →
  gabble_remove_resource (wocky_compose_jid node domain resource) =
  wocky_compose_jid node domain None.
Proof.
  intros Hv. pose proof (bare_no_slash _ _ _ Hv) as Hs. rewrite compose_valid by done.
  assert (valid_parts node domain None) as Hv' by (by destruct Hv; split).
  rewrite (compose_valid _ _ _ Hv'). unfold gabble_remove_resource.
  destruct resource; [by rewrite split_first_app|by rewrite Hs].
Qed.

(** What lower-casing UTF-8 does: it is idempotent, and turns no character
    into one that is not allowed where the original was. *)
Context (strdown_idem : ∀ s, strdown (strdown s) = strdown s).
Context (strdown_ne : ∀ s, s ≠ "" → strdown s ≠ "").
Context (strdown_node : ∀ s, validate_jid_node s = true → validate_jid_node (strdown s) = true).
Context (strdown_domain : ∀ s, validate_jid_domain s = true → validate_jid_domain (strdown s) = true).

Lemma strdown_parts node domain resource :
  valid_parts node domain resource → valid_parts (strdown <$> node) (strdown domain) resource.
Proof.
  intros [Hd Hvd Hn Hr]. split; auto.
  intros n Hs. destruct node as [m|]; [|done]. injection Hs as <-.
  destruct (Hn m eq_refl). auto.
Qed.

(** Normalising is idempotent, and commutes with dropping
    the resource. *)
Theorem jid_normalise_idempotent jid jid' :
  normalise jid = Some jid' →
  normalise jid' = Some jid' ∧
  normalise (gabble_remove_resource jid) = Some (gabble_remove_resource jid').
Proof.
  unfold wocky_normalise_jid at 1. destruct (decode jid) as [[[n' d'] r]|] eqn:Hd; [|done].
  intros [= <-]. apply decode_inv in Hd as (n & d & Hv & -> & -> & ->).
  pose proof (strdown_parts _ _ _ Hv) as Hv'.
  rewrite !remove_resource_compose by done. unfold wocky_normalise_jid.
  assert (valid_parts n d None) as Hv0 by (by destruct Hv; split).
  rewrite (decode_compose _ _ _ Hv'), (decode_compose _ _ _ Hv0), strdown_idem.
  split; [|done]. f_equal. f_equal. destruct n; [cbn; by rewrite strdown_idem|done].
Qed.
End laws.

(** ** Witnesses: ASCII lower case *)

Definition ascii_down (c : ascii) : ascii :=
  let n := nat_of_ascii c in
  if ((65 <=? n) && (n <=? 90))%nat then ascii_of_nat (n + 32) else c.

Fixpoint string_down (s : string) : string :=
  match s with
  | EmptyString => EmptyString
  | String c s' => String (ascii_down c) (string_down s')
  end.

Lemma string_down_forall p s :
  (∀ c, p c = true → p (ascii_down c) = true) →
  forall_char p s = true → forall_char p (string_down s) = true.
Proof.
  intros Hp. induction s as [|c s IH]; [done|]. cbn. intros [Hc Hs]%andb_true_iff.
  by rewrite Hp, IH.
Qed.

(** A fact about all 256 characters. *)
Lemma all_ascii (p : ascii → bool) :
  forallb p (ascii_of_nat <$> List.seq 0 256) = true → ∀ c, p c = true.
Proof.
  rewrite forallb_forall. intros Hall c. apply Hall, list_elem_of_In, list_elem_of_fmap.
  exists (nat_of_ascii c). split; [by rewrite ascii_nat_embedding|].
  apply list_elem_of_In, in_seq. pose proof (nat_ascii_bounded c). lia.
Qed.

Lemma down_closed (p : ascii → bool) :
  forallb (λ c, implb (p c) (p (ascii_down c))) (ascii_of_nat <$> List.seq 0 256) = true →
  ∀ c, p c = true → p (ascii_down c) = true.
Proof.
  intros Hall c Hc. pose proof (all_ascii _ Hall c) as Hi. cbv beta in Hi. by rewrite Hc in Hi.
Qed.

Lemma jid_normalise_idempotent_witness :
  wocky_normalise_jid string_down "juliet@capulet.lit/Balcony/@" =
    Some "juliet@capulet.lit/Balcony/@" ∧
  wocky_normalise_jid string_down "Juliet@Capulet.lit" = Some "juliet@capulet.lit".
Proof.
  apply (jid_normalise_idempotent string_down) with (jid := "Juliet@Capulet.lit/Balcony/@").
  - intros s. induction s as [|c s IH]; [done|]. cbn. f_equal; [|done].
    pose proof (all_ascii (λ c, (ascii_down (ascii_down c) =? ascii_down c)%char)) as Hall.
    apply Ascii.eqb_eq, Hall. by vm_compute.
  - by intros [].
  - intros s. apply string_down_forall, down_closed. by vm_compute.
  - intros s. apply string_down_forall, down_closed. by vm_compute.
  - vm_compute. reflexivity.
Defined.

End Jid.
