(* ===== verification/Capabilities.v ===== *)
(** * Capability sets (src/capabilities.c)

    A capability set is a set of handles into one process-wide string pool,
    [feature_handles].  The pool is telepathy-glib's [TpDynamicHandleRepo],
    code that is not part of this repository: it is the interface
    [HandleRepo], whose documented behaviour is [HandleRepoLaws].  A
    [TpHandleSet] (a [TpIntset] of handles) is a [gset Z]; the order in which
    [TpIntsetFastIter] visits it is left to [elements]. *)

From S2P Require Import Prelude Node Namespaces.

(** ** The string pool *)

Class HandleRepo (R : Type) := {
  repo_new : R;                              (* tp_dynamic_handle_repo_new *)
  tp_handle_ensure : R → string → R * Z;
  tp_handle_lookup : R → string → Z;         (* 0 when unknown *)
  tp_handle_inspect : R → Z → option string;
}.

Class HandleRepoLaws (R : Type) `{HandleRepo R} := {
  lookup_new s : tp_handle_lookup repo_new s = 0;
  ensure_nonzero r s : (tp_handle_ensure r s).2 ≠ 0;
  lookup_ensure r s :
    tp_handle_lookup (tp_handle_ensure r s).1 s = (tp_handle_ensure r s).2;
  lookup_ensure_stable r s s' :
    tp_handle_lookup r s' ≠ 0 →
    tp_handle_lookup (tp_handle_ensure r s).1 s' = tp_handle_lookup r s';
  lookup_ensure_other r s s' :
    s ≠ s' →
    tp_handle_lookup (tp_handle_ensure r s).1 s' = tp_handle_lookup r s';
  inspect_lookup r h s :
    h ≠ 0 → tp_handle_inspect r h = Some s ↔ tp_handle_lookup r s = h;
}.

Module Capabilities.

(** ** Data *)

Inductive feature_type := FEATURE_FIXED | FEATURE_OPTIONAL | FEATURE_OLPC.
#[global] Instance feature_type_eq_dec : EqDecision feature_type.
Proof. solve_decision. Defined.

Record Feature := mkFeature { feat_type : feature_type; feat_ns : string }.

(** [self_advertised_features]; the two flags are the build's ENABLE_VOIP and
    ENABLE_FILE_TRANSFER. *)
Definition self_advertised_features (enable_voip enable_ft : bool) : list Feature :=
  [ mkFeature FEATURE_FIXED NS_GOOGLE_FEAT_SESSION ] ++
  (if enable_voip then
    [ mkFeature FEATURE_FIXED NS_JINGLE_TRANSPORT_RAWUDP;
      mkFeature FEATURE_FIXED NS_JINGLE015;
      mkFeature FEATURE_FIXED NS_JINGLE032 ] else []) ++
  [ mkFeature FEATURE_FIXED NS_DISCO_INFO;
    mkFeature FEATURE_FIXED NS_CHAT_STATES;
    mkFeature FEATURE_FIXED NS_NICK;
    mkFeature FEATURE_FIXED (NS_NICK +:+ "+notify");
    mkFeature FEATURE_FIXED NS_SI;
    mkFeature FEATURE_FIXED NS_IBB;
    mkFeature FEATURE_FIXED NS_TUBES;
    mkFeature FEATURE_FIXED NS_BYTESTREAMS;
    mkFeature FEATURE_FIXED NS_VERSION;
    mkFeature FEATURE_FIXED NS_LAST;
    mkFeature FEATURE_FIXED NS_RECEIPTS ] ++
  (if enable_ft then
    [ mkFeature FEATURE_OPTIONAL NS_FILE_TRANSFER;
      mkFeature FEATURE_OPTIONAL NS_TP_FT_METADATA ] else []) ++
  (if enable_voip then
    [ mkFeature FEATURE_OPTIONAL NS_GOOGLE_TRANSPORT_P2P;
      mkFeature FEATURE_OPTIONAL NS_JINGLE_TRANSPORT_ICEUDP;
      mkFeature FEATURE_OPTIONAL NS_GOOGLE_FEAT_SHARE;
      mkFeature FEATURE_OPTIONAL NS_GOOGLE_FEAT_VOICE;
      mkFeature FEATURE_OPTIONAL NS_GOOGLE_FEAT_VIDEO;
      mkFeature FEATURE_OPTIONAL NS_GOOGLE_FEAT_CAMERA;
      mkFeature FEATURE_OPTIONAL NS_JINGLE_DESCRIPTION_AUDIO;
      mkFeature FEATURE_OPTIONAL NS_JINGLE_DESCRIPTION_VIDEO;
      mkFeature FEATURE_OPTIONAL NS_JINGLE_RTP;
      mkFeature FEATURE_OPTIONAL NS_JINGLE_RTP_AUDIO;
      mkFeature FEATURE_OPTIONAL NS_JINGLE_RTP_VIDEO ] else []) ++
  [ mkFeature FEATURE_OLPC (NS_OLPC_BUDDY_PROPS +:+ "+notify");
    mkFeature FEATURE_OLPC (NS_OLPC_ACTIVITIES +:+ "+notify");
    mkFeature FEATURE_OLPC (NS_OLPC_CURRENT_ACTIVITY +:+ "+notify");
    mkFeature FEATURE_OLPC (NS_OLPC_ACTIVITY_PROPS +:+ "+notify");
    mkFeature FEATURE_OPTIONAL (NS_GEOLOC +:+ "+notify") ].

Record GabbleCapabilitySet := mkCapSet { handles : gset Z }.

(** ** Operations that do not change the pool *)

Definition gabble_capability_set_new : GabbleCapabilitySet := mkCapSet ∅.

Definition gabble_capability_set_clear (_ : GabbleCapabilitySet) :
    GabbleCapabilitySet := mkCapSet ∅.

Definition gabble_capability_set_update (target source : GabbleCapabilitySet) :
    GabbleCapabilitySet := mkCapSet (handles target ∪ handles source).

Definition gabble_capability_set_copy (caps : GabbleCapabilitySet) :
    GabbleCapabilitySet :=
  gabble_capability_set_update gabble_capability_set_new caps.

(** [same]: whether the two arguments are the same pointer. *)
Definition intersect_helper (intersect_with : gset Z) (deleted : list Z) (h : Z) :
    list Z :=
  if decide (h ∈ intersect_with) then deleted else h :: deleted.

Definition gabble_capability_set_intersect (same : bool)
    (target source : GabbleCapabilitySet) : GabbleCapabilitySet :=
  if same then target
  else
    let deleted :=
      foldl (intersect_helper (handles source)) [] (elements (handles target)) in
    mkCapSet (foldl (λ hs h, hs ∖ {[h]}) (handles target) deleted).

Definition gabble_capability_set_exclude (same : bool)
    (caps removed : GabbleCapabilitySet) : GabbleCapabilitySet :=
  if same then gabble_capability_set_clear caps
  else mkCapSet (foldl (λ hs h, hs ∖ {[h]}) (handles caps)
                       (elements (handles removed))).

Definition gabble_capability_set_size (caps : GabbleCapabilitySet) : Z :=
  Z.of_nat (size (handles caps)).

Definition gabble_capability_set_has_one
    (caps alternatives : GabbleCapabilitySet) : bool :=
  existsb (λ h, bool_decide (h ∈ handles caps)) (elements (handles alternatives)).

Definition gabble_capability_set_at_least (caps query : GabbleCapabilitySet) : bool :=
  forallb (λ h, bool_decide (h ∈ handles caps)) (elements (handles query)).

Definition gabble_capability_set_equals (a b : GabbleCapabilitySet) : bool :=
  bool_decide (handles a = handles b).

(** ** Quirk detection *)

Definition omits_content_creators (identity : WockyNode) : bool :=
  match wocky_node_get_attribute identity "name" with
  | None => false
  | Some nm =>
      let PREFIX := "Telepathy Gabble 0.7." in
      if negb (String.prefix PREFIX nm) then false
      else
        let suffix := String.substring (String.length PREFIX)
                        (String.length nm - String.length PREFIX) nm in
        let '(v, rest) := strtol suffix in
        let ver := s32 v in
        if bool_decide (rest = "") then (16 <=? ver) && (ver <? 29) else false
  end.

(** ** Operations on the pool *)

Section with_repo.
Context {R : Type} `{HandleRepo R}.

Definition gabble_capability_set_add (r : R) (caps : GabbleCapabilitySet)
    (cap : string) : R * GabbleCapabilitySet :=
  let '(r', h) := tp_handle_ensure r cap in
  (r', mkCapSet ({[h]} ∪ handles caps)).

Definition gabble_capability_set_remove (r : R) (caps : GabbleCapabilitySet)
    (cap : string) : bool * GabbleCapabilitySet :=
  let h := tp_handle_lookup r cap in
  if h =? 0 then (false, caps)
  else (bool_decide (h ∈ handles caps), mkCapSet (handles caps ∖ {[h]})).

Definition gabble_capability_set_has (r : R) (caps : GabbleCapabilitySet)
    (cap : string) : bool :=
  let h := tp_handle_lookup r cap in
  if h =? 0 then false else bool_decide (h ∈ handles caps).

Fixpoint new_from_children (r : R) (ret : GabbleCapabilitySet)
    (l : list WockyNode) : R * GabbleCapabilitySet :=
  match l with
  | [] => (r, ret)
  | child :: l' =>
      if bool_decide (name child = "identity") then
        if omits_content_creators child then
          let '(r', ret') :=
            gabble_capability_set_add r ret QUIRK_OMITS_CONTENT_CREATORS in
          new_from_children r' ret' l'
        else new_from_children r ret l'
      else if negb (bool_decide (name child = "feature")) then
        new_from_children r ret l'
      else
        match wocky_node_get_attribute child "var" with
        | None => new_from_children r ret l'
        | Some var =>
            if bool_decide (char0 var = QUIRK_PREFIX_CHAR) then
              new_from_children r ret l'
            else
              let '(r', ret') := gabble_capability_set_add r ret var in
              new_from_children r' ret' l'
        end
  end.

Definition gabble_capability_set_new_from_stanza (r : R)
    (query_result : WockyNode) : R * GabbleCapabilitySet :=
  new_from_children r gabble_capability_set_new (children query_result).

(** The strings [func] is called on, in order; a handle the pool does not
    know ends the loop ([g_return_if_fail]). *)
Fixpoint foreach_loop (r : R) (l : list Z) : list string :=
  match l with
  | [] => []
  | h :: l' =>
      match tp_handle_inspect r h with
      | None => []
      | Some var =>
          if bool_decide (char0 var = QUIRK_PREFIX_CHAR) then foreach_loop r l'
          else var :: foreach_loop r l'
      end
  end.

Definition gabble_capability_set_foreach (r : R) (caps : GabbleCapabilitySet) :
    list string := foreach_loop r (elements (handles caps)).

(** ** Debug dumps *)

Definition nl : string := String "010"%char "".

Fixpoint append_intset (r : R) (ret : string) (l : list Z) (indent : string) :
    string :=
  match l with
  | [] => ret
  | h :: l' =>
      match tp_handle_inspect r h with
      | None => ret
      | Some var =>
          match var with
          | String c tl =>
              if bool_decide (c = QUIRK_PREFIX_CHAR) then
                append_intset r (ret +:+ indent +:+ "Quirk:   " +:+ tl +:+ nl) l' indent
              else
                append_intset r (ret +:+ indent +:+ "Feature: " +:+ var +:+ nl) l' indent
          | EmptyString =>
              append_intset r (ret +:+ indent +:+ "Feature: " +:+ nl) l' indent
          end
      end
  end.

Definition gabble_capability_set_dump (r : R) (caps : GabbleCapabilitySet)
    (indent : option string) : string :=
  let indent := default "" indent in
  append_intset r (indent +:+ "--begin--" +:+ nl) (elements (handles caps)) indent
    +:+ indent +:+ "--end--" +:+ nl.

Definition gabble_capability_set_dump_diff (r : R)
    (old_caps new_caps : GabbleCapabilitySet) (indent : string) : string :=
  let old_ints := handles old_caps in
  let new_ints := handles new_caps in
  if bool_decide (old_ints = new_ints) then indent +:+ "--no change--"
  else
    let rem := old_ints ∖ new_ints in
    let add := new_ints ∖ old_ints in
    let ret := "" in
    let ret := if bool_decide (rem = ∅) then ret
      else append_intset r (ret +:+ indent +:+ "--removed--" +:+ nl)
             (elements rem) indent in
    let ret := if bool_decide (add = ∅) then ret
      else append_intset r (ret +:+ indent +:+ "--added--" +:+ nl)
             (elements add) indent in
    ret +:+ indent +:+ "--end--".

(** ** Process-wide state: the pool and the pre-cooked bundles *)

Record Bundles := mkBundles {
  legacy_caps : option GabbleCapabilitySet;
  share_v1_caps : option GabbleCapabilitySet;
  voice_v1_caps : option GabbleCapabilitySet;
  video_v1_caps : option GabbleCapabilitySet;
  camera_v1_caps : option GabbleCapabilitySet;
  any_audio_caps : option GabbleCapabilitySet;
  any_video_caps : option GabbleCapabilitySet;
  any_audio_video_caps : option GabbleCapabilitySet;
  any_google_av_caps : option GabbleCapabilitySet;
  any_jingle_av_caps : option GabbleCapabilitySet;
  any_transport_caps : option GabbleCapabilitySet;
  fixed_caps : option GabbleCapabilitySet;
  geoloc_caps : option GabbleCapabilitySet;
  olpc_caps : option GabbleCapabilitySet;
}.

Definition no_bundles : Bundles :=
  mkBundles None None None None None None None None None None None None None None.

Record Globals := mkGlobals {
  feature_handles_refcount : Z;
  feature_handles : option R;
  bundles : Bundles;
}.

Fixpoint add_list (r : R) (c : GabbleCapabilitySet) (l : list string) :
    R * GabbleCapabilitySet :=
  match l with
  | [] => (r, c)
  | s :: l' =>
      let '(r', c') := gabble_capability_set_add r c s in add_list r' c' l'
  end.

Definition new_with (r : R) (l : list string) : R * GabbleCapabilitySet :=
  add_list r gabble_capability_set_new l.

Definition features_of (ty : feature_type) (l : list Feature) : list string :=
  feat_ns <$> filter (λ f, feat_type f = ty) l.

(** The bundles only built with ENABLE_VOIP, in the order of the code. *)
Definition make_voip_bundles (r : R) :
    R * (list GabbleCapabilitySet) :=
  let '(r, share) := new_with r [NS_GOOGLE_FEAT_SHARE] in
  let '(r, voice) := new_with r [NS_GOOGLE_FEAT_VOICE] in
  let '(r, video) := new_with r [NS_GOOGLE_FEAT_VIDEO] in
  let '(r, camera) := new_with r [NS_GOOGLE_FEAT_CAMERA] in
  let '(r, any_audio) := new_with r
    [NS_JINGLE_RTP_AUDIO; NS_JINGLE_DESCRIPTION_AUDIO; NS_GOOGLE_FEAT_VOICE] in
  let '(r, any_video) := new_with r
    [NS_JINGLE_RTP_VIDEO; NS_JINGLE_DESCRIPTION_VIDEO; NS_GOOGLE_FEAT_VIDEO] in
  let any_audio_video :=
    gabble_capability_set_update (gabble_capability_set_copy any_audio) any_video in
  let '(r, any_google_av) := new_with r
    [NS_GOOGLE_FEAT_VOICE; NS_GOOGLE_FEAT_VIDEO] in
  let any_jingle_av :=
    gabble_capability_set_exclude false
      (gabble_capability_set_update (gabble_capability_set_copy any_audio) any_video)
      any_google_av in
  let '(r, any_transport) := new_with r
    [NS_GOOGLE_TRANSPORT_P2P; NS_JINGLE_TRANSPORT_ICEUDP;
     NS_JINGLE_TRANSPORT_RAWUDP] in
  (r, [share; voice; video; camera; any_audio; any_video; any_audio_video;
       any_google_av; any_jingle_av; any_transport]).

Definition make_bundles (enable_voip enable_ft : bool) (r : R) : R * Bundles :=
  let feats := self_advertised_features enable_voip enable_ft in
  let '(r, legacy) := new_with r (feat_ns <$> feats) in
  let '(r, voip) := if enable_voip then make_voip_bundles r else (r, []) in
  let '(r, fixed) := new_with r (features_of FEATURE_FIXED feats) in
  let '(r, geoloc) := new_with r [NS_GEOLOC +:+ "+notify"] in
  let '(r, olpc) := new_with r (features_of FEATURE_OLPC feats) in
  (r, mkBundles (Some legacy) (voip !! 0%nat) (voip !! 1%nat) (voip !! 2%nat)
        (voip !! 3%nat) (voip !! 4%nat) (voip !! 5%nat) (voip !! 6%nat)
        (voip !! 7%nat) (voip !! 8%nat) (voip !! 9%nat)
        (Some fixed) (Some geoloc) (Some olpc)).

Definition gabble_capabilities_init (enable_voip enable_ft : bool) :
    M Globals unit :=
  g ← get;
  let first := bool_decide (feature_handles_refcount g = 0) in
  modify (λ g, mkGlobals (wrap 64 (feature_handles_refcount g + 1))
                         (feature_handles g) (bundles g)) ;;
  when first
    (g_assert (bool_decide (is_Some (feature_handles g) → False)) ;;
     modify (λ g, let '(r, b) := make_bundles enable_voip enable_ft repo_new in
                  mkGlobals (feature_handles_refcount g) (Some r) b)) ;;
  g ← get;
  g_assert (bool_decide (is_Some (feature_handles g))).

Definition gabble_capabilities_finalize : M Globals unit :=
  g ← get;
  g_assert (0 <? feature_handles_refcount g) ;;
  modify (λ g, mkGlobals (feature_handles_refcount g - 1)
                         (feature_handles g) (bundles g)) ;;
  g ← get;
  when (bool_decide (feature_handles_refcount g = 0))
    (modify (λ g, mkGlobals (feature_handles_refcount g) None no_bundles)).

End with_repo.
Arguments Globals R : clear implicits.

(** ** What a capability set denotes: a set of strings *)

Definition denotes {R} `{HandleRepo R} (r : R) (c : GabbleCapabilitySet)
    (s : string) : Prop :=
  tp_handle_lookup r s ≠ 0 ∧ tp_handle_lookup r s ∈ handles c.

(** Every handle of the set is one the pool knows. *)
Definition wf {R} `{HandleRepo R} (r : R) (c : GabbleCapabilitySet) : Prop :=
  ∀ h, h ∈ handles c → h ≠ 0 ∧ ∃ s, tp_handle_lookup r s = h.

(** The pool only grows. *)
Definition extends {R} `{HandleRepo R} (r r' : R) : Prop :=
  ∀ s, tp_handle_lookup r s ≠ 0 → tp_handle_lookup r' s = tp_handle_lookup r s.

Section facts.
Context {R : Type} `{HL : HandleRepoLaws R}.
Implicit Types (r : R) (c d : GabbleCapabilitySet) (s t : string).

Lemma lookup_inj r s t :
  tp_handle_lookup r s ≠ 0 → tp_handle_lookup r s = tp_handle_lookup r t → s = t.
Proof.
  intros Hne Heq.
  assert (tp_handle_inspect r (tp_handle_lookup r s) = Some s) as H1
    by by apply inspect_lookup.
  assert (tp_handle_inspect r (tp_handle_lookup r s) = Some t) as H2
    by by apply inspect_lookup.
  congruence.
Qed.

Lemma extends_refl r : extends r r.
Proof. done. Qed.

Lemma extends_trans r1 r2 r3 : extends r1 r2 → extends r2 r3 → extends r1 r3.
Proof. intros H1 H2 s Hs. rewrite H2; [|rewrite H1]; auto. Qed.

Lemma wf_new r : wf r gabble_capability_set_new.
Proof. intros h Hh. set_solver. Qed.

Lemma wf_extends r r' c : extends r r' → wf r c → wf r' c.
Proof.
  intros He Hw h Hh. destruct (Hw h Hh) as (Hne & s & <-).
  split; [done|]. exists s. by apply He.
Qed.

(** Growing the pool does not change what an existing set denotes. *)
Lemma denotes_extends r r' c s :
  extends r r' → wf r c → denotes r' c s ↔ denotes r c s.
Proof.
  intros He Hw. unfold denotes. split.
  - intros [Hne Hin]. destruct (Hw _ Hin) as (_ & t & Ht).
    assert (tp_handle_lookup r' t = tp_handle_lookup r' s) as Heq.
    { rewrite He; congruence. }
    apply symmetry, lookup_inj in Heq as <-; [|done]. by rewrite Ht.
  - intros [Hne Hin]. by rewrite He.
Qed.

Lemma has_denotes r c s : gabble_capability_set_has r c s = true ↔ denotes r c s.
Proof.
  unfold gabble_capability_set_has, denotes.
  destruct (Z.eqb_spec (tp_handle_lookup r s) 0); [naive_solver|].
  rewrite bool_decide_eq_true. naive_solver.
Qed.

Lemma denotes_new r s : ¬ denotes r gabble_capability_set_new s.
Proof. intros [_ Hin]. set_solver. Qed.

Lemma add_spec r c s :
  wf r c →
  let '(r', c') := gabble_capability_set_add r c s in
  extends r r' ∧ wf r' c' ∧ ∀ t, denotes r' c' t ↔ t = s ∨ denotes r c t.
Proof.
  intros Hw. unfold gabble_capability_set_add.
  destruct (tp_handle_ensure r s) as [r' h] eqn:E.
  pose proof (lookup_ensure r s) as Hl. rewrite E in Hl. cbn in Hl.
  pose proof (ensure_nonzero r s) as Hnz. rewrite E in Hnz. cbn in Hnz.
  assert (extends r r') as He.
  { intros t Ht. pose proof (lookup_ensure_stable r s t Ht) as Hs.
    by rewrite E in Hs. }
  split_and!; [done| |].
  - intros h'. cbn. rewrite elem_of_union, elem_of_singleton.
    intros [->|Hh]; [naive_solver|]. by apply (wf_extends r r' c).
  - intros t. rewrite <- (denotes_extends r r' c t He Hw).
    unfold denotes. cbn. rewrite elem_of_union, elem_of_singleton. split.
    + intros [Hne [Heq|Hin]]; [|naive_solver]. left.
      apply (lookup_inj r'); congruence.
    + intros [->|[Hne Hin]]; [|naive_solver]. split; [congruence|by left].
Qed.

Lemma add_list_spec r c l :
  wf r c →
  let '(r', c') := add_list r c l in
  extends r r' ∧ wf r' c' ∧ ∀ t, denotes r' c' t ↔ t ∈ l ∨ denotes r c t.
Proof.
  revert r c. induction l as [|s l IH]; intros r c Hw; cbn.
  - split_and!; [done|done|]. set_solver.
  - pose proof (add_spec r c s Hw) as Ha.
    destruct (gabble_capability_set_add r c s) as [r1 c1].
    destruct Ha as (He1 & Hw1 & Hd1). specialize (IH r1 c1 Hw1).
    destruct (add_list r1 c1 l) as [r2 c2].
    destruct IH as (He2 & Hw2 & Hd2). split_and!; [|done|].
    + by eapply extends_trans.
    + intros t. rewrite Hd2, Hd1. set_solver.
Qed.

Lemma new_with_spec r l :
  let '(r', c') := new_with r l in
  extends r r' ∧ wf r' c' ∧ ∀ t, denotes r' c' t ↔ t ∈ l.
Proof.
  pose proof (add_list_spec r _ l (wf_new r)) as Ha. unfold new_with.
  destruct (add_list r gabble_capability_set_new l) as [r' c'].
  destruct Ha as (He & Hw & Hd). split_and!; [done|done|].
  intros t. rewrite Hd. pose proof (denotes_new r t). naive_solver.
Qed.

Lemma update_denotes r c d s :
  denotes r (gabble_capability_set_update c d) s ↔ denotes r c s ∨ denotes r d s.
Proof. unfold denotes. set_solver. Qed.

Lemma copy_denotes r c s : denotes r (gabble_capability_set_copy c) s ↔ denotes r c s.
Proof.
  unfold gabble_capability_set_copy. rewrite update_denotes.
  pose proof (denotes_new r s). naive_solver.
Qed.

Lemma elem_of_foldl_remove (l : list Z) (hs : gset Z) h :
  h ∈ foldl (λ hs h, hs ∖ {[h]}) hs l ↔ h ∈ hs ∧ h ∉ l.
Proof. revert hs. induction l as [|x l IH]; intros hs; cbn; [set_solver|].
  rewrite IH. set_solver. Qed.

Lemma elem_of_intersect_deleted src (l deleted : list Z) h :
  h ∈ foldl (intersect_helper src) deleted l ↔ h ∈ deleted ∨ (h ∈ l ∧ h ∉ src).
Proof.
  revert deleted. induction l as [|x l IH]; intros del; cbn; [set_solver|].
  rewrite IH. unfold intersect_helper. case_decide; set_solver.
Qed.

Lemma intersect_handles same c d :
  (same = true → c = d) →
  handles (gabble_capability_set_intersect same c d) = handles c ∩ handles d.
Proof.
  intros Hs. destruct same; cbn; [rewrite Hs by done; set_solver|].
  apply set_eq. intros h. rewrite elem_of_foldl_remove.
  rewrite elem_of_intersect_deleted, elem_of_elements. 
  destruct (decide (h ∈ handles d)); set_solver.
Qed.

Lemma exclude_handles same c d :
  (same = true → c = d) →
  handles (gabble_capability_set_exclude same c d) = handles c ∖ handles d.
Proof.
  intros Hs. destruct same; cbn; [rewrite Hs by done; set_solver|].
  apply set_eq. intros h. rewrite elem_of_foldl_remove, elem_of_elements.
  set_solver.
Qed.

Lemma intersect_denotes r same c d s :
  (same = true → c = d) →
  denotes r (gabble_capability_set_intersect same c d) s ↔ denotes r c s ∧ denotes r d s.
Proof. intros Hs. unfold denotes. rewrite intersect_handles by done. set_solver. Qed.

Lemma exclude_denotes r same c d s :
  (same = true → c = d) →
  denotes r (gabble_capability_set_exclude same c d) s ↔ denotes r c s ∧ ¬ denotes r d s.
Proof. intros Hs. unfold denotes. rewrite exclude_handles by done. set_solver. Qed.

Lemma wf_denotes r c h :
  wf r c → h ∈ handles c → ∃ s, tp_handle_lookup r s = h ∧ denotes r c s.
Proof. intros Hw Hh. destruct (Hw h Hh) as (? & s & <-). by exists s. Qed.

Lemma at_least_denotes r c d :
  wf r d →
  gabble_capability_set_at_least c d = true ↔ ∀ s, denotes r d s → denotes r c s.
Proof.
  intros Hw. unfold gabble_capability_set_at_least. rewrite forallb_forall.
  setoid_rewrite <- list_elem_of_In. setoid_rewrite elem_of_elements.
  setoid_rewrite bool_decide_eq_true. split.
  - intros Hall s [Hne Hin]. split; auto.
  - intros Hall h Hh. destruct (wf_denotes r d h Hw Hh) as (s & <- & Hd).
    by apply Hall.
Qed.

Lemma has_one_denotes r c d :
  wf r d →
  gabble_capability_set_has_one c d = true ↔ ∃ s, denotes r d s ∧ denotes r c s.
Proof.
  intros Hw. unfold gabble_capability_set_has_one. rewrite existsb_exists.
  setoid_rewrite <- list_elem_of_In. setoid_rewrite elem_of_elements.
  setoid_rewrite bool_decide_eq_true. split.
  - intros (h & Hd & Hc). destruct (wf_denotes r d h Hw Hd) as (s & <- & Hs).
    exists s. split; [done|]. split; [apply Hs|done].
  - intros (s & [_ Hd] & [_ Hc]). eauto.
Qed.

Lemma equals_denotes r c d :
  wf r c → wf r d →
  gabble_capability_set_equals c d = true ↔ ∀ s, denotes r c s ↔ denotes r d s.
Proof.
  intros Hc Hd. unfold gabble_capability_set_equals. rewrite bool_decide_eq_true.
  split; [intros Heq s; unfold denotes; by rewrite Heq|].
  intros Hall. apply set_eq. intros h. split; intros Hh.
  - destruct (wf_denotes r c h Hc Hh) as (s & <- & Hs). by apply Hall.
  - destruct (wf_denotes r d h Hd Hh) as (s & <- & Hs). by apply Hall.
Qed.

(** What one child of a disco reply contributes. *)
Definition child_contributes (child : WockyNode) (s : string) : Prop :=
  (name child = "identity" ∧ omits_content_creators child = true ∧
   s = QUIRK_OMITS_CONTENT_CREATORS) ∨
  (name child = "feature" ∧ wocky_node_get_attribute child "var" = Some s ∧
   char0 s ≠ QUIRK_PREFIX_CHAR).

Lemma contributes_feature child t :
  name child ≠ "identity" → name child = "feature" →
  child_contributes child t ↔
  wocky_node_get_attribute child "var" = Some t ∧ char0 t ≠ QUIRK_PREFIX_CHAR.
Proof. unfold child_contributes. naive_solver. Qed.

Lemma new_from_children_spec r c l :
  wf r c →
  let '(r', c') := new_from_children r c l in
  extends r r' ∧ wf r' c' ∧
  ∀ t, denotes r' c' t ↔ denotes r c t ∨ ∃ x, x ∈ l ∧ child_contributes x t.
Proof.
  revert r c. induction l as [|child l IH]; intros r c Hw; cbn.
  { split_and!; [done|done|]. set_solver. }
  assert (∀ s, (∀ t, child_contributes child t ↔ t = s) →
    let '(r1, c1) := gabble_capability_set_add r c s in
    let '(r', c') := new_from_children r1 c1 l in
    extends r r' ∧ wf r' c' ∧ ∀ t, denotes r' c' t ↔
      denotes r c t ∨ ∃ x, x ∈ child :: l ∧ child_contributes x t) as Hadd.
  { intros s Hs. pose proof (add_spec r c s Hw) as Ha.
    destruct (gabble_capability_set_add r c s) as [r1 c1].
    destruct Ha as (He1 & Hw1 & Hd1). specialize (IH r1 c1 Hw1).
    destruct (new_from_children r1 c1 l) as [r2 c2].
    destruct IH as (He2 & Hw2 & Hd2).
    split_and!; [by eapply extends_trans|done|].
    intros t. rewrite Hd2, Hd1, <- Hs. setoid_rewrite elem_of_cons. naive_solver. }
  assert ((∀ t, ¬ child_contributes child t) →
    let '(r', c') := new_from_children r c l in
    extends r r' ∧ wf r' c' ∧ ∀ t, denotes r' c' t ↔
      denotes r c t ∨ ∃ x, x ∈ child :: l ∧ child_contributes x t) as Hskip.
  { intros Hs. specialize (IH r c Hw).
    destruct (new_from_children r c l) as [r2 c2]. destruct IH as (He2 & Hw2 & Hd2).
    split_and!; [done|done|].
    intros t. rewrite Hd2. setoid_rewrite elem_of_cons. specialize (Hs t).
    naive_solver. }
  case_bool_decide as Hid.
  - destruct (omits_content_creators child) eqn:Ho.
    + specialize (Hadd QUIRK_OMITS_CONTENT_CREATORS).
      destruct (gabble_capability_set_add _ _ _). apply Hadd.
      intros t. split; [|intros ->; left; done].
      intros [(_ & _ & ?)|(? & _)]; congruence.
    + apply Hskip. intros t [(_ & ? & _)|(? & _)]; congruence.
  - case_bool_decide as Hf; cbn; cycle 1.
    { apply Hskip. intros t [(? & _)|(? & _)]; congruence. }
    destruct (wocky_node_get_attribute child "var") as [var|] eqn:Hv; cycle 1.
    { apply Hskip. intros t. rewrite contributes_feature by done. naive_solver. }
    case_bool_decide as Hq.
    { apply Hskip. intros t. rewrite contributes_feature by done. naive_solver. }
    specialize (Hadd var). destruct (gabble_capability_set_add _ _ _).
    apply Hadd. intros t. rewrite contributes_feature by done. naive_solver.
Qed.

Lemma wf_update r c d : wf r c → wf r d → wf r (gabble_capability_set_update c d).
Proof. unfold wf. cbn. set_solver. Qed.

Lemma wf_copy r c : wf r c → wf r (gabble_capability_set_copy c).
Proof. intros. apply wf_update; [apply wf_new|done]. Qed.

Lemma wf_exclude r same c d : wf r c → wf r (gabble_capability_set_exclude same c d).
Proof.
  destruct same; [intros; apply wf_new|]. intros Hw h. cbn.
  rewrite elem_of_foldl_remove. intros [Hh _]. by apply Hw.
Qed.

(** [exactly r c l]: [c] is a well-formed set denoting the strings of [l]. *)
Definition exactly r c (l : list string) : Prop :=
  wf r c ∧ ∀ t, denotes r c t ↔ t ∈ l.

Lemma exactly_extends r r' c l : extends r r' → exactly r c l → exactly r' c l.
Proof.
  intros He [Hw Hd]. split; [by eapply wf_extends|].
  intros t. rewrite denotes_extends by done. apply Hd.
Qed.

Lemma new_with_exactly r l :
  let '(r', c) := new_with r l in extends r r' ∧ exactly r' c l.
Proof.
  pose proof (new_with_spec r l) as Hs. destruct (new_with r l).
  destruct Hs as (He & Hw & Hd). by split.
Qed.

Lemma exactly_update r c d lc ld :
  exactly r c lc → exactly r d ld →
  exactly r (gabble_capability_set_update (gabble_capability_set_copy c) d) (lc ++ ld).
Proof.
  intros [Hc Hdc] [Hd Hdd]. split; [by apply wf_update; [apply wf_copy|]|].
  intros t. by rewrite update_denotes, copy_denotes, elem_of_app, Hdc, Hdd.
Qed.

Lemma exactly_exclude r c d lc ld :
  exactly r c lc → exactly r d ld →
  exactly r (gabble_capability_set_exclude false c d) (filter (λ t, t ∉ ld) lc).
Proof.
  intros [Hc Hdc] [Hd Hdd]. split; [by apply wf_exclude|].
  intros t. rewrite exclude_denotes by done.
  rewrite list_elem_of_filter, Hdc, Hdd. tauto.
Qed.

Lemma exactly_ext r c l l' : (∀ t, t ∈ l ↔ t ∈ l') → exactly r c l → exactly r c l'.
Proof. intros Hl [Hw Hd]. split; [done|]. intros t. by rewrite Hd. Qed.

(** The bundles built one after another against the growing pool. *)
Lemma make_voip_bundles_spec r :
  let '(r', l) := make_voip_bundles r in
  extends r r' ∧
  Forall2 (exactly r') l
    [ [NS_GOOGLE_FEAT_SHARE]; [NS_GOOGLE_FEAT_VOICE]; [NS_GOOGLE_FEAT_VIDEO];
      [NS_GOOGLE_FEAT_CAMERA];
      [NS_JINGLE_RTP_AUDIO; NS_JINGLE_DESCRIPTION_AUDIO; NS_GOOGLE_FEAT_VOICE];
      [NS_JINGLE_RTP_VIDEO; NS_JINGLE_DESCRIPTION_VIDEO; NS_GOOGLE_FEAT_VIDEO];
      [NS_JINGLE_RTP_AUDIO; NS_JINGLE_DESCRIPTION_AUDIO; NS_GOOGLE_FEAT_VOICE;
       NS_JINGLE_RTP_VIDEO; NS_JINGLE_DESCRIPTION_VIDEO; NS_GOOGLE_FEAT_VIDEO];
      [NS_GOOGLE_FEAT_VOICE; NS_GOOGLE_FEAT_VIDEO];
      [NS_JINGLE_RTP_AUDIO; NS_JINGLE_DESCRIPTION_AUDIO;
       NS_JINGLE_RTP_VIDEO; NS_JINGLE_DESCRIPTION_VIDEO];
      [NS_GOOGLE_TRANSPORT_P2P; NS_JINGLE_TRANSPORT_ICEUDP;
       NS_JINGLE_TRANSPORT_RAWUDP] ].
Proof.
  unfold make_voip_bundles.
  repeat match goal with
  | |- context [new_with ?r ?l] =>
      let He := fresh "He" in let Hx := fresh "Hx" in
      pose proof (new_with_exactly r l) as Hx;
      destruct (new_with r l) as [? ?]; destruct Hx as [He Hx]; cbv beta iota zeta
  end.
  assert (∀ a b c : R, extends a b → extends b c → extends a c) as Htr
    by (intros *; apply extends_trans).
  split; [eauto 20|].
  repeat (apply Forall2_cons; split); [..|constructor];
    try (eapply exactly_extends; [|eassumption]; eauto 20 using extends_refl; done).
  - apply (exactly_update _ _ _ [_; _; _] [_; _; _]);
      (eapply exactly_extends; [|eassumption]; eauto 20 using extends_refl).
  - eapply exactly_ext; [|eapply exactly_exclude; [eapply exactly_update|]];
      [..|eapply exactly_extends; [|eassumption]; eauto 20 using extends_refl
         |eapply exactly_extends; [|eassumption]; eauto 20 using extends_refl
         |eapply exactly_extends; [|eassumption]; eauto 20 using extends_refl].
    intros t. vm_compute filter. reflexivity.
Qed.

(** ** Properties *)

(** Parsing a disco#info reply yields exactly the [var]s
    of its <feature/> children that do not start with the quirk character,
    plus the "omits content creators" quirk when some <identity/> is a broken
    Gabble version: a contact cannot claim a quirk by advertising it. *)
Theorem new_from_stanza_denotes r query t :
  let '(r', c) := gabble_capability_set_new_from_stanza r query in
  denotes r' c t ↔ ∃ x, x ∈ children query ∧ child_contributes x t.
Proof.
  pose proof (new_from_children_spec r _ (children query) (wf_new r)) as Hs.
  unfold gabble_capability_set_new_from_stanza.
  destruct (new_from_children _ _ _) as [r' c]. destruct Hs as (_ & _ & Hd).
  rewrite Hd. pose proof (denotes_new r t). naive_solver.
Qed.

(** On sets of known handles, the imperative operations are
    the set operations on the strings they denote, whether or not the two
    arguments are the same object. *)
Theorem capability_set_algebra r same c d :
  wf r c → wf r d → (same = true → c = d) →
  (∀ s, denotes r (gabble_capability_set_update c d) s ↔ denotes r c s ∨ denotes r d s) ∧
  (∀ s, denotes r (gabble_capability_set_intersect same c d) s ↔
        denotes r c s ∧ denotes r d s) ∧
  (∀ s, denotes r (gabble_capability_set_exclude same c d) s ↔
        denotes r c s ∧ ¬ denotes r d s) ∧
  (gabble_capability_set_at_least c d = true ↔ ∀ s, denotes r d s → denotes r c s) ∧
  (gabble_capability_set_has_one c d = true ↔ ∃ s, denotes r d s ∧ denotes r c s) ∧
  (gabble_capability_set_equals c d = true ↔ ∀ s, denotes r c s ↔ denotes r d s).
Proof.
  intros Hc Hd Hs. split_and!; intros.
  - apply update_denotes.
  - by apply intersect_denotes.
  - by apply exclude_denotes.
  - by apply at_least_denotes.
  - by apply has_one_denotes.
  - by apply equals_denotes.
Qed.

(** From whatever pool the process starts, the pre-cooked bundles
    are exactly the namespaces they stand for: "any jingle A/V" is the audio
    and video namespaces without the Google ones, "fixed" and "olpc" are the
    table rows of that type, and a build without VoIP has no VoIP bundle. *)
Theorem make_bundles_exactly voip ft r :
  let '(r', b) := make_bundles voip ft r in
  let feats := self_advertised_features voip ft in
  (∃ c, legacy_caps b = Some c ∧ exactly r' c (feat_ns <$> feats)) ∧
  (∃ c, fixed_caps b = Some c ∧ exactly r' c (features_of FEATURE_FIXED feats)) ∧
  (∃ c, olpc_caps b = Some c ∧ exactly r' c (features_of FEATURE_OLPC feats)) ∧
  (if voip then
     (∃ c, any_jingle_av_caps b = Some c ∧ exactly r' c
        [NS_JINGLE_RTP_AUDIO; NS_JINGLE_DESCRIPTION_AUDIO;
         NS_JINGLE_RTP_VIDEO; NS_JINGLE_DESCRIPTION_VIDEO]) ∧
     (∃ c, any_google_av_caps b = Some c ∧ exactly r' c
        [NS_GOOGLE_FEAT_VOICE; NS_GOOGLE_FEAT_VIDEO])
   else any_jingle_av_caps b = None ∧ any_google_av_caps b = None).
Proof.
  unfold make_bundles.
  set (feats := self_advertised_features voip ft).
  pose proof (new_with_exactly r (feat_ns <$> feats)) as H1.
  destruct (new_with r (feat_ns <$> feats)) as [r1 legacy]. destruct H1 as [He1 H1].
  assert (∃ r2 l, (if voip then make_voip_bundles r1 else (r1, [])) = (r2, l) ∧
    extends r1 r2 ∧ if voip then
      (∃ c, l !! 8%nat = Some c ∧ exactly r2 c
        [NS_JINGLE_RTP_AUDIO; NS_JINGLE_DESCRIPTION_AUDIO;
         NS_JINGLE_RTP_VIDEO; NS_JINGLE_DESCRIPTION_VIDEO]) ∧
      (∃ c, l !! 7%nat = Some c ∧ exactly r2 c
        [NS_GOOGLE_FEAT_VOICE; NS_GOOGLE_FEAT_VIDEO]) else l = [])
    as (r2 & l & -> & He2 & H2).
  { destruct voip; [|by exists r1, []].
    pose proof (make_voip_bundles_spec r1) as Hv.
    destruct (make_voip_bundles r1) as [r2 l]. destruct Hv as [He Hl].
    exists r2, l. split_and!; [done|done| |].
    - eapply Forall2_lookup_r in Hl as (c & Hc & Hx); [|by instantiate (2 := 8%nat)].
      eauto.
    - eapply Forall2_lookup_r in Hl as (c & Hc & Hx); [|by instantiate (2 := 7%nat)].
      eauto. }
  pose proof (new_with_exactly r2 (features_of FEATURE_FIXED feats)) as H3.
  destruct (new_with r2 (features_of FEATURE_FIXED feats)) as [r3 fixed].
  destruct H3 as [He3 H3].
  pose proof (new_with_exactly r3 [NS_GEOLOC +:+ "+notify"]) as H4.
  destruct (new_with r3 [NS_GEOLOC +:+ "+notify"]) as [r4 geoloc].
  destruct H4 as [He4 H4].
  pose proof (new_with_exactly r4 (features_of FEATURE_OLPC feats)) as H5.
  destruct (new_with r4 (features_of FEATURE_OLPC feats)) as [r5 olpc].
  destruct H5 as [He5 H5].
  assert (extends r2 r5) as He25 by (eauto using extends_trans).
  split_and!.
  - exists legacy. split; [done|]. eapply exactly_extends; [|done].
    eauto using extends_trans.
  - exists fixed. split; [done|]. eapply exactly_extends; [|done].
    eauto using extends_trans.
  - by exists olpc.
  - destruct voip; [|by subst l].
    destruct H2 as [(c & Hc & Hx) (c' & Hc' & Hx')].
    split; [exists c | exists c']; (split; [done|by eapply exactly_extends]).
Qed.

(** ** The life of the pool *)

(** The pool exists exactly while some connection holds a reference. *)
Definition globals_ok (g : Globals R) : Prop :=
  0 <= feature_handles_refcount g < 2 ^ 64 ∧
  (is_Some (feature_handles g) ↔ feature_handles_refcount g ≠ 0) ∧
  (feature_handles_refcount g = 0 → bundles g = no_bundles).

Lemma init_ok voip ft g :
  globals_ok g → feature_handles_refcount g < 2 ^ 64 - 1 →
  wp (gabble_capabilities_init voip ft)
    (λ _ g', globals_ok g' ∧
       feature_handles_refcount g' = feature_handles_refcount g + 1 ∧
       (feature_handles_refcount g ≠ 0 → feature_handles g' = feature_handles g ∧
          bundles g' = bundles g)) g.
Proof.
  intros (Hr & Hh & Hb) Hlt. unfold gabble_capabilities_init.
  apply wp_bind, wp_get, wp_bind, wp_modify, wp_bind, wp_when; intros Hz.
  - apply bool_decide_eq_true in Hz. apply wp_bind, wp_assert.
    { apply bool_decide_eq_true. rewrite Hh. lia. }
    apply wp_modify. destruct (make_bundles voip ft repo_new) as [r b].
    apply wp_bind, wp_get, wp_assert; [done|]. cbn.
    rewrite wrap_id by lia. unfold globals_ok; cbn.
    split_and!; try lia. split; [lia|done].
  - apply bool_decide_eq_false in Hz. apply wp_bind, wp_get, wp_assert.
    { apply bool_decide_eq_true. cbn. by apply Hh. }
    cbn. rewrite wrap_id by lia. unfold globals_ok; cbn.
    split_and!; try lia; try done. split; [lia|]. intros _. by apply Hh.
Qed.

Lemma finalize_ok g :
  globals_ok g → 0 < feature_handles_refcount g →
  wp gabble_capabilities_finalize
    (λ _ g', globals_ok g' ∧
       feature_handles_refcount g' = feature_handles_refcount g - 1) g.
Proof.
  intros (Hr & Hh & Hb) Hlt. unfold gabble_capabilities_finalize.
  apply wp_bind, wp_get, wp_bind, wp_assert; [by apply Z.ltb_lt|].
  apply wp_bind, wp_modify, wp_bind, wp_get, wp_when; intros Hz; cbn in Hz.
  - apply bool_decide_eq_true in Hz. apply wp_modify.
    unfold globals_ok; cbn. split_and!; try lia; done.
  - apply bool_decide_eq_false in Hz. unfold globals_ok; cbn.
    split_and!; try lia. split; [lia|]. intros _. apply Hh. lia.
Qed.

(** One connection starting or going away. *)
Inductive lifecycle := Init | Finalize.

Definition lifecycle_step (voip ft : bool) (e : lifecycle) : M (Globals R) unit :=
  match e with
  | Init => gabble_capabilities_init voip ft
  | Finalize => gabble_capabilities_finalize
  end.

(** [balanced n l]: starting from [n] live connections, no prefix of [l] ends
    more connections than were started. *)
Fixpoint balanced (n : Z) (l : list lifecycle) : Prop :=
  match l with
  | [] => True
  | Init :: l' => n + 1 < 2 ^ 64 ∧ balanced (n + 1) l'
  | Finalize :: l' => 0 < n ∧ balanced (n - 1) l'
  end.

Fixpoint live (n : Z) (l : list lifecycle) : Z :=
  match l with
  | [] => n
  | Init :: l' => live (n + 1) l'
  | Finalize :: l' => live (n - 1) l'
  end.

Lemma lifecycle_run voip ft l g :
  globals_ok g → balanced (feature_handles_refcount g) l →
  wp (for_each l (lifecycle_step voip ft))
    (λ _ g', globals_ok g' ∧
       feature_handles_refcount g' = live (feature_handles_refcount g) l) g.
Proof.
  revert g. induction l as [|[] l IH]; intros g Hok Hbal; cbn in *.
  - by apply wp_ret.
  - destruct Hbal as [Hlt Hbal]. apply wp_bind. eapply wp_mono, init_ok; [|done|lia].
    intros [] g' (Hok' & Hr & _). rewrite <- Hr in Hbal |- *. by apply IH.
  - destruct Hbal as [Hlt Hbal]. apply wp_bind. eapply wp_mono, finalize_ok; [|done|lia].
    intros [] g' (Hok' & Hr). rewrite <- Hr in Hbal |- *. by apply IH.
Qed.

(** Over any interleaving of connections starting and ending,
    init and finalize never trip an assertion, the pool is alive exactly while
    a connection is, and when the last one goes the state is back to the
    initial one, so the next start can run the first-time initialisation. *)
Theorem lifecycle_safe voip ft l :
  balanced 0 l →
  wp (for_each l (lifecycle_step voip ft))
    (λ _ g', (is_Some (feature_handles g') ↔ live 0 l ≠ 0) ∧
             (live 0 l = 0 → g' = mkGlobals 0 None no_bundles))
    (mkGlobals 0 (None : option R) no_bundles).
Proof.
  intros Hbal. eapply wp_mono, lifecycle_run; [|split_and!; cbn; try lia|done].
  - cbn. intros [] g' [(Hr & Hh & Hb) Heq]. rewrite <- Heq. split; [done|].
    intros Hz. destruct g' as [rc fh b]; cbn in *. rewrite Hz in *.
    rewrite Hb by done. destruct fh; [|done]. exfalso. naive_solver.
  - split; [by intros [? ?]|done].
  - done.
Qed.

End facts.

(** ** A concrete pool, for examples: the strings in order of first use *)

Definition list_repo_lookup (l : list string) (s : string) : Z :=
  match list_find (λ x, x = s) l with
  | Some (i, _) => Z.of_nat i + 1
  | None => 0
  end.

#[global] Instance list_repo : HandleRepo (list string) := {|
  repo_new := [];
  tp_handle_ensure := λ l s,
    if list_repo_lookup l s =? 0 then (l ++ [s], Z.of_nat (length l) + 1)
    else (l, list_repo_lookup l s);
  tp_handle_lookup := list_repo_lookup;
  tp_handle_inspect := λ l h,
    match l !! Z.to_nat (h - 1) with
    | Some s => if list_repo_lookup l s =? h then Some s else None
    | None => None
    end;
|}.

Lemma list_repo_lookup_app l s t :
  list_repo_lookup l s = 0 →
  list_repo_lookup (l ++ [s]) t =
    if decide (s = t) then Z.of_nat (length l) + 1 else list_repo_lookup l t.
Proof.
  unfold list_repo_lookup. intros Hs.
  destruct (list_find (λ x, x = s) l) as [[i x]|] eqn:Es; [lia|].
  case_decide as Heq.
  - subst t. rewrite list_find_app_r by done. cbn.
    rewrite decide_True by done. cbn. lia.
  - destruct (list_find (λ x, x = t) l) as [[i x]|] eqn:Et.
    + by rewrite (list_find_app_l _ _ _ _ _ Et).
    + rewrite list_find_app_r by done. cbn. by rewrite decide_False.
Qed.

#[global] Instance list_repo_laws : HandleRepoLaws (list string).
Proof.
  split; cbn.
  - done.
  - intros r s. destruct (Z.eqb_spec (list_repo_lookup r s) 0); cbn; lia.
  - intros r s. destruct (Z.eqb_spec (list_repo_lookup r s) 0); cbn; [|done].
    rewrite list_repo_lookup_app by done. by rewrite decide_True.
  - intros r s t Ht. destruct (Z.eqb_spec (list_repo_lookup r s) 0); cbn; [|done].
    rewrite list_repo_lookup_app by done. case_decide; [congruence|done].
  - intros r s t Ht. destruct (Z.eqb_spec (list_repo_lookup r s) 0); cbn; [|done].
    rewrite list_repo_lookup_app by done. by rewrite decide_False.
  - intros r h s Hh. split.
    + destruct (r !! Z.to_nat (h - 1)) as [x|] eqn:Ex; [|done].
      destruct (Z.eqb_spec (list_repo_lookup r x) h); naive_solver.
    + intros <-. unfold list_repo_lookup in *.
      destruct (list_find (λ x, x = s) r) as [[i x]|] eqn:Es; [|done].
      pose proof Es as Es'. apply list_find_Some in Es as (Hl & -> & _).
      replace (Z.to_nat (Z.of_nat i + 1 - 1)) with i by lia.
      rewrite Hl, Es'. by rewrite Z.eqb_refl.
Qed.

(** ** Witnesses *)

Lemma capability_set_algebra_witness :
  let c := mkCapSet {[1]} in let d := mkCapSet {[1; 2]} in
  wf ["a"; "b"] c ∧
  (∀ s, denotes ["a"; "b"] (gabble_capability_set_intersect false c d) s ↔
        denotes ["a"; "b"] c s ∧ denotes ["a"; "b"] d s).
Proof.
  assert (∀ h, h ∈ ({[1; 2]} : gset Z) →
    h ≠ 0 ∧ ∃ s, tp_handle_lookup ["a"; "b"] s = h) as Hwf.
  { intros h. rewrite elem_of_union, !elem_of_singleton.
    intros [->| ->]; (split; [lia|]); [exists "a"|exists "b"]; reflexivity. }
  split; [intros h Hh; apply Hwf; set_solver|].
  eapply (capability_set_algebra ["a"; "b"] false); [|intros h; apply Hwf|done].
  intros h Hh. apply Hwf. set_solver.
Defined.

Lemma lifecycle_safe_witness :
  balanced 0 [Init; Init; Finalize; Finalize] ∧
  wp (for_each [Init; Init; Finalize; Finalize] (lifecycle_step true true))
    (λ _ g', (is_Some (feature_handles g') ↔ 0 ≠ 0) ∧
             (0 = 0 → g' = mkGlobals 0 None no_bundles))
    (mkGlobals 0 (None : option (list string)) no_bundles).
Proof.
  assert (balanced 0 [Init; Init; Finalize; Finalize]) as Hb by (cbn; lia).
  split; [exact Hb|].
  exact (lifecycle_safe true true [Init; Init; Finalize; Finalize] Hb).
Defined.

Lemma new_from_stanza_denotes_witness :
  let query := mkNode "query" None (Some NS_DISCO_INFO) []
    [mkNode "feature" None (Some NS_DISCO_INFO) [mkAttribute "var" "urn:x" None] []] in
  let rc := gabble_capability_set_new_from_stanza ([] : list string) query in
  denotes rc.1 rc.2 "urn:x".
Proof.
  intros query rc.
  pose proof (new_from_stanza_denotes ([] : list string) query "urn:x") as Hd.
  change (gabble_capability_set_new_from_stanza ([] : list string) query) with rc in Hd.
  destruct rc as [r' c]. apply Hd.
  eexists. split; [by left|]. right. split_and!; [reflexivity..|done].
Defined.

Lemma make_bundles_exactly_witness :
  let '(r', b) := make_bundles true true ([] : list string) in
  ∃ c, any_google_av_caps b = Some c ∧ exactly r' c [NS_GOOGLE_FEAT_VOICE; NS_GOOGLE_FEAT_VIDEO].
Proof.
  exact (proj2 (proj2 (proj2 (proj2 (make_bundles_exactly true true ([] : list string)))))).
Defined.

End Capabilities.
