(* ===== verification/Presence.v ===== *)
(** * A contact's presence (src/presence.c, src/presence.h)

    One [GabblePresence] aggregates the resources a contact is connected
    from.  Status messages are C strings with owners: each resource owns its
    message, the presence owns [no_resource_status_message], and
    [status_message] is a borrowed pointer into one of those.  The model keeps
    the heap of these strings, so that freeing a borrowed pointer is visible;
    names, nicknames and the like have a single owner and are values.
    Data forms are opaque objects (their reference counts are not modelled). *)

From S2P Require Import Prelude Node Namespaces Capabilities.
Import Capabilities.

Module Presence.

(** ** Constants *)

Definition GABBLE_PRESENCE_OFFLINE : Z := 0.
Definition GABBLE_PRESENCE_UNKNOWN : Z := 1.
Definition GABBLE_PRESENCE_ERROR : Z := 2.
Definition GABBLE_PRESENCE_LAST_UNAVAILABLE : Z := GABBLE_PRESENCE_ERROR.
Definition GABBLE_PRESENCE_HIDDEN : Z := 3.
Definition GABBLE_PRESENCE_XA : Z := 4.
Definition GABBLE_PRESENCE_AWAY : Z := 5.
Definition GABBLE_PRESENCE_DND : Z := 6.
Definition GABBLE_PRESENCE_AVAILABLE : Z := 7.
Definition GABBLE_PRESENCE_CHAT : Z := 8.

Definition GABBLE_CLIENT_TYPE_BOT : Z := Z.shiftl 1 0.
Definition GABBLE_CLIENT_TYPE_CONSOLE : Z := Z.shiftl 1 1.
Definition GABBLE_CLIENT_TYPE_GAME : Z := Z.shiftl 1 2.
Definition GABBLE_CLIENT_TYPE_HANDHELD : Z := Z.shiftl 1 3.
Definition GABBLE_CLIENT_TYPE_PC : Z := Z.shiftl 1 4.
Definition GABBLE_CLIENT_TYPE_PHONE : Z := Z.shiftl 1 5.
Definition GABBLE_CLIENT_TYPE_WEB : Z := Z.shiftl 1 6.
Definition GABBLE_CLIENT_TYPE_SMS : Z := Z.shiftl 1 7.

(** The values of the GFlags class with their nicks. *)
Definition client_type_values : list (Z * string) :=
  [ (GABBLE_CLIENT_TYPE_BOT, "bot"); (GABBLE_CLIENT_TYPE_CONSOLE, "console");
    (GABBLE_CLIENT_TYPE_GAME, "game"); (GABBLE_CLIENT_TYPE_HANDHELD, "handheld");
    (GABBLE_CLIENT_TYPE_PC, "pc"); (GABBLE_CLIENT_TYPE_PHONE, "phone");
    (GABBLE_CLIENT_TYPE_WEB, "web"); (GABBLE_CLIENT_TYPE_SMS, "sms") ].

(** ** Data

    [P] is what a status message is: a pointer ([loc]) in the code, a string
    in the abstract view. *)

Definition loc := positive.

Record Resource (P F : Type) := mkResource {
  res_name : string;
  client_type : Z;
  res_cap_set : GabbleCapabilitySet;
  res_data_forms : list F;
  caps_serial : Z;
  res_status : Z;
  res_status_message : option P;
  priority : Z;
  last_available : Z;
}.
Arguments mkResource {P F}.
Arguments res_name {P F}.
Arguments client_type {P F}.
Arguments res_cap_set {P F}.
Arguments res_data_forms {P F}.
Arguments caps_serial {P F}.
Arguments res_status {P F}.
Arguments res_status_message {P F}.
Arguments priority {P F}.
Arguments last_available {P F}.

(** [GabblePresence] and its private part. *)
Record GabblePresence (P F : Type) := mkPresence {
  status : Z;
  status_message : option P;
  nickname : option string;
  avatar_sha1 : option string;
  client_types : Z;
  keep_unavailable : bool;
  cap_set : GabbleCapabilitySet;
  data_forms : list F;
  no_resource_status_message : option P;
  resources : list (Resource P F);
  olpc_views : Z;
  active_resource : option string;
}.
Arguments mkPresence {P F}.
Arguments status {P F}.
Arguments status_message {P F}.
Arguments nickname {P F}.
Arguments avatar_sha1 {P F}.
Arguments client_types {P F}.
Arguments keep_unavailable {P F}.
Arguments cap_set {P F}.
Arguments data_forms {P F}.
Arguments no_resource_status_message {P F}.
Arguments resources {P F}.
Arguments olpc_views {P F}.
Arguments active_resource {P F}.

(** ** The string heap *)

Record Mem := mkMem { heap : gmap loc string; next : loc }.

Record World (F : Type) := mkWorld { mem : Mem; pres : GabblePresence loc F }.
Arguments mkWorld {F}.
Arguments mem {F}.
Arguments pres {F}.

(** ** Pure parts *)

Section pure.
Context {P F : Type}.
Implicit Types (r a b : Resource P F) (p : GabblePresence P F).

Definition _resource_new (nm : string) : Resource P F :=
  mkResource nm 0 gabble_capability_set_new [] 0 GABBLE_PRESENCE_OFFLINE None 0 0.

Definition gabble_presence_new : GabblePresence P F :=
  mkPresence GABBLE_PRESENCE_UNKNOWN None None None 0 false
    gabble_capability_set_new [] None [] 0 None.

Definition flag_set (x m : Z) : bool := negb (Z.land x m =? 0).

Definition resource_better_than a (b : option (Resource P F))
    (preferred_client_type : Z) : bool :=
  if priority a <? 0 then false
  else match b with
  | None => true
  | Some b =>
      let rest :=
        if res_status a <? res_status b then false
        else if res_status b <? res_status a then true
        else if last_available a <? last_available b then false
        else if last_available b <? last_available a then true
        else priority b <? priority a in
      if preferred_client_type =? 0 then rest
      else
        let a_p := flag_set (client_type a) preferred_client_type in
        let b_p := flag_set (client_type b) preferred_client_type in
        if a_p && negb b_p then true
        else if negb a_p && b_p then false
        else rest
  end.

Definition pick_step (preferred : Z)
    (predicate : option (GabbleCapabilitySet → bool))
    (chosen : option (Resource P F)) r : option (Resource P F) :=
  let skip := match predicate with
              | Some f => negb (f (res_cap_set r))
              | None => false
              end in
  if skip then chosen
  else if resource_better_than r chosen preferred then Some r else chosen.

Definition gabble_presence_pick_resource_by_caps p (preferred : Z)
    (predicate : option (GabbleCapabilitySet → bool)) : option string :=
  res_name <$> foldl (pick_step preferred predicate) None (resources p).

Definition gabble_presence_resource_has_caps p (resource : string)
    (predicate : GabbleCapabilitySet → bool) : bool :=
  match List.find (λ r, bool_decide (res_name r = resource)) (resources p) with
  | Some r => predicate (res_cap_set r)
  | None => false
  end.

Definition _find_resource p (resource : string) : option (Resource P F) :=
  List.find (λ r, bool_decide (res_name r = resource)) (resources p).

Definition gabble_presence_has_resources p : bool :=
  match resources p with [] => false | _ => true end.

(** A row of a feature table: considered, check_data and result.  The C table
    ends at the first row with a NULL result; here the list ends. *)
Record GabbleFeatureFallback (D T : Type) := mkFallback {
  considered : bool; check_data : D; result : T }.
Arguments considered {D T}.
Arguments check_data {D T}.
Arguments result {D T}.

Fixpoint first_feature {D T} (predicate : GabbleCapabilitySet → D → bool)
    (caps : GabbleCapabilitySet) (table : list (GabbleFeatureFallback D T)) :
    option T :=
  match table with
  | [] => None
  | row :: table' =>
      if considered row && predicate caps (check_data row) then Some (result row)
      else first_feature predicate caps table'
  end.

Definition gabble_presence_resource_pick_best_feature {D T} p (resource : string)
    (table : list (GabbleFeatureFallback D T))
    (predicate : GabbleCapabilitySet → D → bool) : option T :=
  match _find_resource p resource with
  | None => None
  | Some res => first_feature predicate (res_cap_set res) table
  end.

Definition gabble_presence_pick_best_feature {D T} p
    (table : list (GabbleFeatureFallback D T))
    (predicate : GabbleCapabilitySet → D → bool) : option T :=
  first_feature predicate (cap_set p) table.

(** The resource [aggregate_resources] settles on. *)
Definition trumps r (best : option (Resource P F)) : bool :=
  match best with
  | None => true
  | Some best =>
      (res_status best <? res_status r) ||
      ((res_status r =? res_status best) &&
         ((last_available best <? last_available r) ||
          (priority best <? priority r))) ||
      (flag_set (client_type r) GABBLE_CLIENT_TYPE_PC &&
         negb (flag_set (client_type best) GABBLE_CLIENT_TYPE_PC))
  end.

Definition best_step (best : option (Resource P F)) r : option (Resource P F) :=
  if trumps r best then Some r else best.

Definition best_resource (l : list (Resource P F)) : option (Resource P F) :=
  foldl best_step None l.

Definition union_caps (c : GabbleCapabilitySet) (l : list (Resource P F)) :
    GabbleCapabilitySet :=
  foldl (λ c r, gabble_capability_set_update c (res_cap_set r)) c l.

(** In-place update of the first resource called [nm]. *)
Fixpoint alter_first (nm : string) (f : Resource P F → Resource P F)
    (l : list (Resource P F)) : list (Resource P F) :=
  match l with
  | [] => []
  | r :: l' =>
      if bool_decide (res_name r = nm) then f r :: l' else r :: alter_first nm f l'
  end.

Definition set_status (s : Z) r : Resource P F :=
  mkResource (res_name r) (client_type r) (res_cap_set r) (res_data_forms r)
    (caps_serial r) s (res_status_message r) (priority r) (last_available r).
Definition set_message (m : option P) r : Resource P F :=
  mkResource (res_name r) (client_type r) (res_cap_set r) (res_data_forms r)
    (caps_serial r) (res_status r) m (priority r) (last_available r).
Definition set_priority (z : Z) r : Resource P F :=
  mkResource (res_name r) (client_type r) (res_cap_set r) (res_data_forms r)
    (caps_serial r) (res_status r) (res_status_message r) z (last_available r).
Definition set_last_available (z : Z) r : Resource P F :=
  mkResource (res_name r) (client_type r) (res_cap_set r) (res_data_forms r)
    (caps_serial r) (res_status r) (res_status_message r) (priority r) z.
Definition set_client_type (z : Z) r : Resource P F :=
  mkResource (res_name r) z (res_cap_set r) (res_data_forms r)
    (caps_serial r) (res_status r) (res_status_message r) (priority r)
    (last_available r).
Definition set_res_caps (c : GabbleCapabilitySet) (fs : list F) (serial : Z) r :
    Resource P F :=
  mkResource (res_name r) (client_type r) c fs serial (res_status r)
    (res_status_message r) (priority r) (last_available r).

Definition p_set_status (s : Z) p : GabblePresence P F :=
  mkPresence s (status_message p) (nickname p) (avatar_sha1 p) (client_types p)
    (keep_unavailable p) (cap_set p) (data_forms p)
    (no_resource_status_message p) (resources p) (olpc_views p)
    (active_resource p).
Definition p_set_message (m : option P) p : GabblePresence P F :=
  mkPresence (status p) m (nickname p) (avatar_sha1 p) (client_types p)
    (keep_unavailable p) (cap_set p) (data_forms p)
    (no_resource_status_message p) (resources p) (olpc_views p)
    (active_resource p).
Definition p_set_client_types (z : Z) p : GabblePresence P F :=
  mkPresence (status p) (status_message p) (nickname p) (avatar_sha1 p) z
    (keep_unavailable p) (cap_set p) (data_forms p)
    (no_resource_status_message p) (resources p) (olpc_views p)
    (active_resource p).
Definition p_set_caps (c : GabbleCapabilitySet) p : GabblePresence P F :=
  mkPresence (status p) (status_message p) (nickname p) (avatar_sha1 p)
    (client_types p) (keep_unavailable p) c (data_forms p)
    (no_resource_status_message p) (resources p) (olpc_views p)
    (active_resource p).
Definition p_set_forms (fs : list F) p : GabblePresence P F :=
  mkPresence (status p) (status_message p) (nickname p) (avatar_sha1 p)
    (client_types p) (keep_unavailable p) (cap_set p) fs
    (no_resource_status_message p) (resources p) (olpc_views p)
    (active_resource p).
Definition p_set_no_resource (m : option P) p : GabblePresence P F :=
  mkPresence (status p) (status_message p) (nickname p) (avatar_sha1 p)
    (client_types p) (keep_unavailable p) (cap_set p) (data_forms p) m
    (resources p) (olpc_views p) (active_resource p).
Definition p_set_resources (l : list (Resource P F)) p : GabblePresence P F :=
  mkPresence (status p) (status_message p) (nickname p) (avatar_sha1 p)
    (client_types p) (keep_unavailable p) (cap_set p) (data_forms p)
    (no_resource_status_message p) l (olpc_views p) (active_resource p).
Definition p_set_views (z : Z) p : GabblePresence P F :=
  mkPresence (status p) (status_message p) (nickname p) (avatar_sha1 p)
    (client_types p) (keep_unavailable p) (cap_set p) (data_forms p)
    (no_resource_status_message p) (resources p) z (active_resource p).
Definition p_set_active (s : option string) p : GabblePresence P F :=
  mkPresence (status p) (status_message p) (nickname p) (avatar_sha1 p)
    (client_types p) (keep_unavailable p) (cap_set p) (data_forms p)
    (no_resource_status_message p) (resources p) (olpc_views p) s.

(** ** Capabilities of a resource *)

(** The body of the loop for one resource: refresh it if it is the one named,
    then add it to the aggregate. *)
Definition refresh_resource (resource : string) (caps : GabbleCapabilitySet)
    (forms : option (list F)) (serial : Z) r : Resource P F :=
  if bool_decide (res_name r = resource) then
    let r1 :=
      if caps_serial r <? serial
      then set_res_caps (gabble_capability_set_clear (res_cap_set r)) [] serial r
      else r in
    if caps_serial r1 <=? serial
    then set_res_caps (gabble_capability_set_update (res_cap_set r1) caps)
           (res_data_forms r1 ++ default [] forms) (caps_serial r1) r1
    else r1
  else r.

Fixpoint set_caps_loop (resource : string) (caps : GabbleCapabilitySet)
    (forms : option (list F)) (serial : Z) (l : list (Resource P F))
    (agg : GabbleCapabilitySet) (agg_forms : list F) :
    list (Resource P F) * GabbleCapabilitySet * list F :=
  match l with
  | [] => ([], agg, agg_forms)
  | r :: l' =>
      let r' := refresh_resource resource caps forms serial r in
      let '(l'', agg', forms') :=
        set_caps_loop resource caps forms serial l'
          (gabble_capability_set_update agg (res_cap_set r'))
          (agg_forms ++ res_data_forms r') in
      (r' :: l'', agg', forms')
  end.

(** Returns whether "capabilities-changed" is emitted. *)
Definition gabble_presence_set_capabilities p (resource : option string)
    (caps : GabbleCapabilitySet) (forms : option (list F)) (serial : Z) :
    bool * GabblePresence P F :=
  match resource with
  | None =>
      match resources p with
      | _ :: _ => (false, p)
      | [] =>
          (false,
           p_set_forms (default [] forms)
             (p_set_caps (gabble_capability_set_update
                (gabble_capability_set_clear (cap_set p)) caps) p))
      end
  | Some resource =>
      let '(l, agg, agg_forms) :=
        set_caps_loop resource caps forms serial (resources p)
          (gabble_capability_set_clear (cap_set p)) [] in
      (true, p_set_forms agg_forms (p_set_caps agg (p_set_resources l p)))
  end.

Definition gabble_presence_get_client_types_array p : list string * option string :=
  (snd <$> List.filter (λ v, flag_set (client_types p) v.1) client_type_values,
   active_resource p).
End pure.

(** ** Strings: allocation, freeing, reading *)

Section stateful.
Context {F : Type}.
Local Notation MW := (M (World F)).

Definition put_mem (m : Mem) : MW unit := modify (λ w, mkWorld m (pres w)).
Definition put_pres (f : GabblePresence loc F → GabblePresence loc F) : MW unit :=
  modify (λ w, mkWorld (mem w) (f (pres w))).

(** Reading a possibly-NULL string. *)
Definition deref (q : option loc) : MW (option string) :=
  w ← get;
  match q with
  | None => mret None
  | Some l =>
      match heap (mem w) !! l with
      | Some s => mret (Some s)
      | None => fail MemoryFault
      end
  end.

Definition g_free (q : option loc) : MW unit :=
  w ← get;
  match q with
  | None => mret tt
  | Some l =>
      match heap (mem w) !! l with
      | Some _ => put_mem (mkMem (delete l (heap (mem w))) (next (mem w)))
      | None => fail MemoryFault
      end
  end.

Definition g_strdup (s : option string) : MW (option loc) :=
  w ← get;
  match s with
  | None => mret None
  | Some s =>
      put_mem (mkMem (<[next (mem w) := s]> (heap (mem w)))
                     (Pos.succ (next (mem w)))) ;;
      mret (Some (next (mem w)))
  end.

(** [if (tp_strdiff (old, new)) { g_free (old); old = g_strdup (new); }],
    the idiom of [gabble_presence_update]: the new value of [old]. *)
Definition replace_string (old : option loc) (new : option string) : MW (option loc) :=
  s ← deref old;
  if tp_strdiff s new then g_free old ;; g_strdup new else mret old.

Definition _resource_free (r : Resource loc F) : MW unit :=
  g_free (res_status_message r).

(** ** Aggregation *)

Definition aggregate_resources : MW bool :=
  w ← get;
  let old_client_types := client_types (pres w) in
  put_pres (λ p,
    p_set_status GABBLE_PRESENCE_OFFLINE
      (p_set_caps (union_caps (gabble_capability_set_clear (cap_set p)) (resources p)) p)) ;;
  match best_resource (resources (pres w)) with
  | Some best =>
      put_pres (λ p,
        p_set_active (Some (res_name best))
          (p_set_client_types (client_type best)
            (p_set_message (res_status_message best)
              (p_set_status (res_status best) p))))
  | None => mret tt
  end ;;
  w ← get;
  when ((status (pres w) <=? GABBLE_PRESENCE_HIDDEN) && (0 <? olpc_views (pres w)))
    (put_pres (p_set_status GABBLE_PRESENCE_AVAILABLE) ;;
     g_free (status_message (pres w)) ;;
     put_pres (p_set_message None)) ;;
  w ← get;
  mret (negb (old_client_types =? client_types (pres w))).

(** ** Updating from a received presence stanza

    The result is the return value and, when [update_client_types] is not
    NULL and is written, its value. *)

Definition detect_changes (old_status : Z) (old_status_message : option string) :
    MW bool :=
  w ← get;
  msg ← deref (status_message (pres w));
  mret (negb (status (pres w) =? old_status) || tp_strdiff msg old_status_message).

Definition update_no_resource (new_status : Z) (msg : option string) : MW unit :=
  w ← get;
  for_each (resources (pres w)) _resource_free ;;
  put_pres (p_set_resources []) ;;
  q ← replace_string (no_resource_status_message (pres w)) msg;
  put_pres (λ p, p_set_message q (p_set_status new_status (p_set_no_resource q p))).

Definition update_resource (resource : string) (new_status : Z)
    (msg : option string) (prio now : Z) : MW unit :=
  w ← get;
  let res := _find_resource (pres w) resource in
  if new_status <=? GABBLE_PRESENCE_LAST_UNAVAILABLE then
    match res with
    | Some r =>
        put_pres (λ p, p_set_resources
          (delete_first (λ r, bool_decide (res_name r = resource)) (resources p)) p) ;;
        _resource_free r ;;
        put_pres (λ p, p_set_caps
          (union_caps (gabble_capability_set_clear (cap_set p)) (resources p)) p)
    | None => mret tt
    end ;;
    put_pres (λ p, p_set_message None p)
  else
    match res with
    | None => put_pres (λ p, p_set_resources (resources p ++ [_resource_new resource]) p)
    | Some _ => mret tt
    end ;;
    let old := res ≫= res_status_message in
    put_pres (λ p, p_set_resources
      (alter_first resource (set_status new_status) (resources p)) p) ;;
    q ← replace_string old msg;
    put_pres (λ p, p_set_resources
      (alter_first resource (λ r,
         (if GABBLE_PRESENCE_AVAILABLE <=? new_status
          then set_last_available now else id)
         (set_priority prio (set_message q r))) (resources p)) p) ;;
    put_pres (λ p, p_set_message q p).

Definition gabble_presence_update (resource : option string) (new_status : Z)
    (msg : option string) (prio : Z) (update_client_types : bool) (now : Z) :
    MW (bool * option bool) :=
  w ← get;
  let old_status := status (pres w) in
  old_message ← deref (status_message (pres w));
  uct ←
    (match resource with
     | None => update_no_resource new_status msg ;; mret None
     | Some resource =>
         update_resource resource new_status msg prio now ;;
         put_pres (λ p, p_set_status GABBLE_PRESENCE_OFFLINE
           (p_set_caps (gabble_capability_set_clear (cap_set p)) p)) ;;
         changed ← aggregate_resources;
         mret (if update_client_types then Some changed else None)
     end);
  ret ← detect_changes old_status old_message;
  mret (ret, uct).

(** ** OLPC views *)

Definition change_views (f : Z → Z) : MW bool :=
  w ← get;
  let old_status := status (pres w) in
  old_message ← deref (status_message (pres w));
  put_pres (λ p, p_set_views (u32 (f (olpc_views p))) p) ;;
  aggregate_resources ;;
  detect_changes old_status old_message.

Definition gabble_presence_added_to_view : MW bool := change_views (λ n, n + 1).
Definition gabble_presence_removed_from_view : MW bool := change_views (λ n, n - 1).

(** ** Client types *)

Definition gabble_presence_update_client_types (resource : option string)
    (new_types : Z) : MW bool :=
  w ← get;
  match resource with
  | None =>
      match resources (pres w) with
      | _ :: _ => mret false
      | [] =>
          let old := client_types (pres w) in
          put_pres (p_set_client_types new_types) ;;
          mret (negb (old =? new_types))
      end
  | Some resource =>
      match _find_resource (pres w) resource with
      | None => mret false
      | Some _ =>
          put_pres (λ p, p_set_resources
            (alter_first resource (set_client_type new_types) (resources p)) p) ;;
          aggregate_resources
      end
  end.

(** ** Serialising our own presence *)

Inductive presence_type :=
  | PT_AVAILABLE | PT_OFFLINE | PT_HIDDEN | PT_AWAY | PT_BUSY
  | PT_EXTENDED_AWAY | PT_OTHER.

(** The <show/> of a status.  [get_type] is [conn_presence_get_type], the type
    the status table (which plugins extend) gives to a status. *)
Definition show_of_status (get_type : Z → presence_type) (s : Z) : option string :=
  if bool_decide (s ∈ [GABBLE_PRESENCE_AVAILABLE; GABBLE_PRESENCE_OFFLINE;
                       GABBLE_PRESENCE_HIDDEN]) then None
  else if s =? GABBLE_PRESENCE_AWAY then Some "away"
  else if s =? GABBLE_PRESENCE_CHAT then Some "chat"
  else if s =? GABBLE_PRESENCE_DND then Some "dnd"
  else if s =? GABBLE_PRESENCE_XA then Some "xa"
  else match get_type s with
       | PT_AVAILABLE | PT_OFFLINE | PT_HIDDEN => None
       | PT_AWAY => Some "away"
       | PT_BUSY => Some "dnd"
       | PT_EXTENDED_AWAY => Some "xa"
       | PT_OTHER => None
       end.

Definition gabble_presence_add_status_and_vcard (get_type : Z → presence_type)
    (node : WockyNode) : MW WockyNode :=
  w ← get;
  let p := pres w in
  let node :=
    match show_of_status get_type (status p) with
    | Some show => wocky_node_add_child_with_content node "show" (Some show)
    | None => node
    end in
  msg ← deref (status_message p);
  let node :=
    match msg with
    | Some m => wocky_node_add_child_with_content node "status" (Some m)
    | None => node
    end in
  let x := mkNode "x" None (Some NS_VCARD_TEMP_UPDATE) [] [] in
  let x :=
    match avatar_sha1 p with
    | Some sha1 => wocky_node_add_child_with_content x "photo" (Some sha1)
    | None => x
    end in
  mret (set_children node (children node ++ [x])).

Definition print_d (z : Z) : string :=
  if z <? 0 then "-" +:+ print_u (- z) else print_u z.

Definition gabble_presence_as_message (get_type : Z → presence_type)
    (to : option string) : MW WockyNode :=
  w ← get;
  match resources (pres w) with
  | [] => fail MemoryFault      (* priv->resources->data of an empty list *)
  | res :: _ =>
      let ty := if status (pres w) =? GABBLE_PRESENCE_OFFLINE
                then [mkAttribute "type" "unavailable" None] else [] in
      let dest := match to with
                  | Some t => [mkAttribute "to" t None]
                  | None => []
                  end in
      let message := mkNode "presence" None (Some "jabber:client") (ty ++ dest) [] in
      message ← gabble_presence_add_status_and_vcard get_type message;
      mret (if priority res =? 0 then message
            else wocky_node_add_child_with_content message "priority"
                   (Some (print_d (priority res))))
  end.
End stateful.

(** ** Choosing a resource *)

Section choosing.
Context {P F : Type}.
Implicit Types (r a b c : Resource P F).

(** 1 when the resource has the preferred client type, if there is one. *)
Definition preference (preferred : Z) r : Z :=
  if preferred =? 0 then 0
  else if flag_set (client_type r) preferred then 1 else 0.

Lemma better_than_iff a b pref :
  resource_better_than a (Some b) pref = true ↔
  0 <= priority a ∧
  (preference pref b < preference pref a ∨
   preference pref b = preference pref a ∧
   (res_status b < res_status a ∨
    res_status b = res_status a ∧
    (last_available b < last_available a ∨
     last_available b = last_available a ∧ priority b < priority a))).
Proof.
  unfold resource_better_than, preference.
  destruct (flag_set (client_type a) pref), (flag_set (client_type b) pref); cbn;
  repeat match goal with
  | |- context [if ?x <? ?y then _ else _] => destruct (Z.ltb_spec x y)
  | |- context [if ?x =? ?y then _ else _] => destruct (Z.eqb_spec x y)
  end; rewrite ?Z.ltb_lt; intuition (try lia; try congruence).
Qed.

Definition eligible (predicate : option (GabbleCapabilitySet → bool)) r : bool :=
  match predicate with
  | Some f => f (res_cap_set r)
  | None => true
  end && (0 <=? priority r).

Definition best_among pref predicate (l : list (Resource P F))
    (chosen : option (Resource P F)) : Prop :=
  match chosen with
  | None => ∀ r, r ∈ l → eligible predicate r = false
  | Some c =>
      c ∈ l ∧ eligible predicate c = true ∧
      ∀ r, r ∈ l → eligible predicate r = true →
           resource_better_than r (Some c) pref = false
  end.

Lemma pick_step_best pref predicate l chosen r :
  best_among pref predicate l chosen →
  best_among pref predicate (l ++ [r]) (pick_step pref predicate chosen r).
Proof.
  intros Hb. unfold pick_step.
  destruct (match predicate with Some f => _ | None => _ end) eqn:Hskip.
  { assert (eligible predicate r = false) as Hr.
    { unfold eligible. destruct predicate; [|done].
      by rewrite negb_true_iff in Hskip; rewrite Hskip. }
    destruct chosen as [c|]; cbn in *.
    - destruct Hb as (Hc & He & Hbest). split_and!; [set_solver|done|].
      intros x. rewrite elem_of_app, list_elem_of_singleton.
      intros [Hx| ->]; [auto|congruence].
    - intros x. rewrite elem_of_app, list_elem_of_singleton. intros [Hx| ->]; auto. }
  assert (eligible predicate r = (0 <=? priority r)) as Hr.
  { unfold eligible. destruct predicate; [|done].
    by rewrite negb_false_iff in Hskip; rewrite Hskip. }
  destruct (resource_better_than r chosen pref) eqn:Hbt.
  - assert (0 <= priority r) as Hp.
    { unfold resource_better_than in Hbt. destruct (Z.ltb_spec (priority r) 0); [done|lia]. }
    split_and!; [set_solver|rewrite Hr; by apply Z.leb_le|].
    intros x. rewrite elem_of_app, list_elem_of_singleton. intros [Hx| ->] Hex.
    + destruct chosen as [c|]; cbn in Hb; [|rewrite Hb in Hex by done; done].
      destruct Hb as (_ & _ & Hbest). specialize (Hbest x Hx Hex).
      apply not_true_iff_false. apply not_true_iff_false in Hbest.
      rewrite better_than_iff in *. lia.
    + apply not_true_iff_false. rewrite better_than_iff. lia.
  - destruct chosen as [c|]; cbn in *.
    + destruct Hb as (Hc & He & Hbest). split_and!; [set_solver|done|].
      intros x. rewrite elem_of_app, list_elem_of_singleton. intros [Hx| ->]; auto.
    + intros x. rewrite elem_of_app, list_elem_of_singleton. intros [Hx| ->]; [auto|].
      rewrite Hr. apply Z.leb_gt. unfold resource_better_than in Hbt.
      destruct (Z.ltb_spec (priority r) 0); [lia|done].
Qed.

Lemma pick_fold_best pref predicate (l : list (Resource P F)) :
  best_among pref predicate l (foldl (pick_step pref predicate) None l).
Proof.
  induction l as [|r l IH] using rev_ind.
  - intros r Hr. set_solver.
  - rewrite foldl_snoc. by apply pick_step_best.
Qed.

(** A resource is picked exactly when some resource satisfies the
    capability predicate with a non-negative priority, and the one picked is
    such a resource that no other such resource beats (preferred client type,
    then presence, then recency, then priority). *)
Theorem pick_resource_by_caps_best (p : GabblePresence P F) pref predicate :
  match gabble_presence_pick_resource_by_caps p pref predicate with
  | Some nm => ∃ c, res_name c = nm ∧ c ∈ resources p ∧ eligible predicate c = true ∧
      ∀ r, r ∈ resources p → eligible predicate r = true →
           resource_better_than r (Some c) pref = false
  | None => ∀ r, r ∈ resources p → eligible predicate r = false
  end.
Proof.
  unfold gabble_presence_pick_resource_by_caps.
  pose proof (pick_fold_best pref predicate (resources p)) as Hb.
  destruct (foldl _ None (resources p)) as [c|]; cbn in *; [eauto|done].
Qed.

End choosing.

(** ** Capabilities *)

Section caps.
Context {P F : Type}.
Implicit Types (r : Resource P F) (l : list (Resource P F)).

Lemma union_caps_handles c l :
  handles (union_caps c l) = handles c ∪ ⋃ ((handles ∘ res_cap_set) <$> l).
Proof.
  unfold union_caps. revert c. induction l as [|r l IH]; intros c; cbn; [set_solver|].
  rewrite IH. cbn. set_solver.
Qed.

(** The aggregate of a contact that has resources is the union of theirs. *)
Definition caps_aggregated (p : GabblePresence P F) : Prop :=
  resources p ≠ [] →
  handles (cap_set p) = ⋃ ((handles ∘ res_cap_set) <$> resources p).

Lemma set_caps_loop_spec nm caps forms serial l agg fs :
  let l' := refresh_resource nm caps forms serial <$> l in
  set_caps_loop nm caps forms serial l agg fs =
    (l', union_caps agg l', fs ++ concat (res_data_forms <$> l')).
Proof.
  revert agg fs. induction l as [|r l IH]; intros agg fs; cbn.
  - by rewrite app_nil_r.
  - rewrite IH. unfold union_caps. cbn. by rewrite <- app_assoc.
Qed.

(** For a named resource, the named resource keeps its
    capabilities on an older serial, extends them on the same serial and
    starts afresh on a newer one; every other resource is untouched; and the
    contact's aggregates become exactly the union of the resources' sets and
    the concatenation of their data forms. *)
Theorem set_capabilities_spec (p : GabblePresence P F) nm caps forms serial :
  let '(emitted, p') := gabble_presence_set_capabilities p (Some nm) caps forms serial in
  emitted = true ∧
  resources p' = refresh_resource nm caps forms serial <$> resources p ∧
  handles (cap_set p') = ⋃ ((handles ∘ res_cap_set) <$> resources p') ∧
  data_forms p' = concat (res_data_forms <$> resources p') ∧
  (∀ r, r ∈ resources p →
     let r' := refresh_resource nm caps forms serial r in
     if bool_decide (res_name r = nm) then
       caps_serial r' = Z.max serial (caps_serial r) ∧
       handles (res_cap_set r') =
         (if serial <? caps_serial r then handles (res_cap_set r)
          else if serial =? caps_serial r
          then handles (res_cap_set r) ∪ handles caps
          else handles caps)
     else r' = r).
Proof.
  cbn. rewrite set_caps_loop_spec. cbn. split_and!; [done|done| |done|].
  - rewrite union_caps_handles. cbn. set_solver.
  - intros r _. unfold refresh_resource. case_bool_decide; [|done].
    destruct (Z.ltb_spec (caps_serial r) serial); cbn;
      [rewrite Z.leb_refl | destruct (Z.leb_spec (caps_serial r) serial)]; cbn;
      (destruct (Z.ltb_spec serial (caps_serial r));
       [try lia | destruct (Z.eqb_spec serial (caps_serial r)); try lia]);
      (split; [lia|]); set_solver.
Qed.

End caps.

(** ** Memory: who owns which status message *)

Section memory.
Context {F : Type}.
Implicit Types (w : World F) (h : gmap loc string).

Definition rd h (q : option loc) : option string := q ≫= (h !!.).

Definition abs_res h (r : Resource loc F) : Resource string F :=
  mkResource (res_name r) (client_type r) (res_cap_set r) (res_data_forms r)
    (caps_serial r) (res_status r) (rd h (res_status_message r)) (priority r)
    (last_available r).

Definition abs_pres h (p : GabblePresence loc F) : GabblePresence string F :=
  mkPresence (status p) (rd h (status_message p)) (nickname p) (avatar_sha1 p)
    (client_types p) (keep_unavailable p) (cap_set p) (data_forms p)
    (rd h (no_resource_status_message p)) (abs_res h <$> resources p)
    (olpc_views p) (active_resource p).

(** What an observer of the object sees. *)
Definition abs w : GabblePresence string F := abs_pres (heap (mem w)) (pres w).

Definition slots (p : GabblePresence loc F) : list (option loc) :=
  no_resource_status_message p :: (res_status_message <$> resources p).

Definition owned (p : GabblePresence loc F) : list loc := omap id (slots p).

(** Every allocated string has exactly one owner, and the borrowed
    [status_message] points to one of them. *)
Record mem_ok w : Prop := {
  mem_dom : dom (heap (mem w)) =@{gset loc} list_to_set (owned (pres w));
  mem_nodup : NoDup (owned (pres w));
  mem_fresh : ∀ l, l ∈ dom (heap (mem w)) → (l < next (mem w))%positive;
  mem_borrow : ∀ l, status_message (pres w) = Some l → l ∈ owned (pres w);
}.

Definition ptr_set (q : option loc) : gset loc :=
  match q with Some l => {[l]} | None => ∅ end.

Lemma deref_spec w q (Q : option string → World F → Prop) :
  ptr_set q ⊆ dom (heap (mem w)) → Q (rd (heap (mem w)) q) w → wp (deref q) Q w.
Proof.
  intros Hq HQ. unfold deref. apply wp_bind, wp_get. destruct q as [l|]; cbn in *; [|done].
  assert (is_Some (heap (mem w) !! l)) as [s Hs] by (apply elem_of_dom; set_solver).
  rewrite Hs in *. done.
Qed.

Lemma g_free_spec w q (Q : unit → World F → Prop) :
  ptr_set q ⊆ dom (heap (mem w)) →
  (∀ m', dom (heap m') = dom (heap (mem w)) ∖ ptr_set q → next m' = next (mem w) →
     (∀ l, q ≠ Some l → heap m' !! l = heap (mem w) !! l) →
     Q tt (mkWorld m' (pres w))) →
  wp (g_free q) Q w.
Proof.
  intros Hq HQ. unfold g_free. apply wp_bind, wp_get. destruct q as [l|]; cbn in *.
  - assert (is_Some (heap (mem w) !! l)) as [s Hs] by (apply elem_of_dom; set_solver).
    rewrite Hs. apply wp_modify, HQ; [apply dom_delete_L|done|].
    intros l' Hne. cbn. apply lookup_delete_ne. congruence.
  - apply wp_ret. destruct w as [m p]. apply HQ; [set_solver|done|done].
Qed.

Lemma g_strdup_spec w s (Q : option loc → World F → Prop) :
  (∀ l, l ∈ dom (heap (mem w)) → (l < next (mem w))%positive) →
  (∀ q m', dom (heap m') = dom (heap (mem w)) ∪ ptr_set q →
     (∀ l, l ∈ dom (heap m') → (l < next m')%positive) →
     ptr_set q ## dom (heap (mem w)) →
     rd (heap m') q = s →
     (∀ l, l ∈ dom (heap (mem w)) → heap m' !! l = heap (mem w) !! l) →
     Q q (mkWorld m' (pres w))) →
  wp (g_strdup s) Q w.
Proof.
  intros Hf HQ. unfold g_strdup. apply wp_bind, wp_get. destruct s as [s|].
  - apply wp_bind, wp_modify, wp_ret. apply HQ; cbn.
    + rewrite dom_insert_L. set_solver.
    + intros l. rewrite dom_insert_L, elem_of_union, elem_of_singleton.
      intros [->|Hl]; [lia|]. specialize (Hf l Hl). lia.
    + intros l. rewrite elem_of_singleton. intros -> Hl. specialize (Hf _ Hl). lia.
    + apply lookup_insert_eq.
    + intros l Hl. apply lookup_insert_ne. specialize (Hf _ Hl). lia.
  - apply wp_ret. destruct w as [m p]. apply HQ; cbn; set_solver.
Qed.

Lemma replace_string_spec w old new (Q : option loc → World F → Prop) :
  (∀ l, l ∈ dom (heap (mem w)) → (l < next (mem w))%positive) →
  ptr_set old ⊆ dom (heap (mem w)) →
  (∀ q m', dom (heap m') = (dom (heap (mem w)) ∖ ptr_set old) ∪ ptr_set q →
     (∀ l, l ∈ dom (heap m') → (l < next m')%positive) →
     ptr_set q ## (dom (heap (mem w)) ∖ ptr_set old) →
     rd (heap m') q = new →
     (∀ l, l ∈ dom (heap (mem w)) ∖ ptr_set old → heap m' !! l = heap (mem w) !! l) →
     Q q (mkWorld m' (pres w))) →
  wp (replace_string old new) Q w.
Proof.
  intros Hf Hold HQ. unfold replace_string. apply wp_bind, deref_spec; [done|].
  destruct (tp_strdiff (rd (heap (mem w)) old) new) eqn:Hd.
  - apply wp_bind, g_free_spec; [done|]. intros m1 Hdom1 Hnext1 Hsame1.
    apply g_strdup_spec; cbn; [rewrite Hdom1, Hnext1; set_solver|].
    intros q m' Hdom Hfr Hdisj Hrd Hsame. rewrite Hdom1 in Hdom, Hdisj, Hsame.
    apply HQ; try done. intros l Hl. rewrite Hsame by done. apply Hsame1.
    intros ->. cbn in Hl. set_solver.
  - apply tp_strdiff_false in Hd. apply wp_ret. destruct w as [m p].
    apply HQ; cbn in *; try done; [|set_solver].
    apply set_eq. intros l. rewrite elem_of_union, elem_of_difference.
    destruct (decide (l ∈ ptr_set old)); set_solver.
Qed.

Lemma omap_id_cons (q : option loc) (b : list (option loc)) :
  omap id (q :: b) = option_list q ++ omap id b.
Proof. by destruct q. Qed.

Lemma omap_id_none (a b : list (option loc)) : omap id (a ++ None :: b) = omap id (a ++ b).
Proof. by rewrite !omap_app. Qed.

Lemma omap_id_slots_replace (a b : list (option loc)) old q :
  NoDup (omap id (a ++ old :: b)) →
  ptr_set q ## (list_to_set (omap id (a ++ old :: b)) ∖ ptr_set old) →
  NoDup (omap id (a ++ q :: b)) ∧
  list_to_set (omap id (a ++ q :: b)) =@{gset loc}
    (list_to_set (omap id (a ++ old :: b)) ∖ ptr_set old) ∪ ptr_set q.
Proof.
  rewrite !omap_app, !omap_id_cons, !NoDup_app, !list_to_set_app_L.
  generalize (omap id a) (omap id b). clear a b. intros a b Hnd Hq.
  assert (∀ z, z ∈ (list_to_set a : gset loc) ↔ z ∈ a) as Ha
    by (intros; apply elem_of_list_to_set).
  assert (∀ z, z ∈ (list_to_set b : gset loc) ↔ z ∈ b) as Hb
    by (intros; apply elem_of_list_to_set).
  destruct Hnd as (Hnda & Hdisj & Hnd1 & Hd2 & Hndb).
  destruct old as [o|], q as [x|]; cbn in *; (split; [split_and!|]);
    try apply NoDup_singleton; try apply NoDup_nil_2; try done; set_solver.
Qed.

(** ** The abstract behaviour: the same object with its messages as values *)

Definition spec_aggregate (v : GabblePresence string F) : bool * GabblePresence string F :=
  let v1 := p_set_status GABBLE_PRESENCE_OFFLINE
    (p_set_caps (union_caps gabble_capability_set_new (resources v)) v) in
  let v2 := match best_resource (resources v) with
    | Some best =>
        p_set_active (Some (res_name best)) (p_set_client_types (client_type best)
          (p_set_message (res_status_message best) (p_set_status (res_status best) v1)))
    | None => v1
    end in
  (negb (client_types v =? client_types v2), v2).

Definition spec_update_resource (nm : string) (st : Z) (msg : option string)
    (prio now : Z) (v : GabblePresence string F) : GabblePresence string F :=
  if st <=? GABBLE_PRESENCE_LAST_UNAVAILABLE then
    p_set_message None (p_set_resources
      (delete_first (λ r, bool_decide (res_name r = nm)) (resources v)) v)
  else
    let l := match _find_resource v nm with
             | Some _ => resources v
             | None => resources v ++ [_resource_new nm]
             end in
    p_set_message msg (p_set_resources
      (alter_first nm (λ r,
         (if GABBLE_PRESENCE_AVAILABLE <=? st then set_last_available now else id)
         (set_priority prio (set_message msg (set_status st r)))) l) v).

Definition spec_update (resource : option string) (st : Z) (msg : option string)
    (prio : Z) (uct : bool) (now : Z) (v : GabblePresence string F) :
    (bool * option bool) * GabblePresence string F :=
  let '(changed, v') :=
    match resource with
    | None => (None, p_set_message msg (p_set_status st
                       (p_set_no_resource msg (p_set_resources [] v))))
    | Some nm =>
        let '(b, v') := spec_aggregate (spec_update_resource nm st msg prio now v) in
        (if uct then Some b else None, v')
    end in
  ((negb (status v' =? status v) || tp_strdiff (status_message v') (status_message v),
    changed), v').

(** ** Commutation with the abstraction *)

Lemma abs_res_ext h h' (r : Resource loc F) :
  (∀ l, res_status_message r = Some l → h !! l = h' !! l) → abs_res h r = abs_res h' r.
Proof.
  intros Hl. unfold abs_res, rd. f_equal.
  destruct (res_status_message r) as [l|]; cbn; auto.
Qed.

Lemma trumps_abs h (r : Resource loc F) best : trumps (abs_res h r) (abs_res h <$> best) = trumps r best.
Proof. by destruct best. Qed.

Lemma best_resource_abs h (l : list (Resource loc F)) :
  best_resource (abs_res h <$> l) = abs_res h <$> best_resource l.
Proof.
  unfold best_resource. induction l as [|r l IH] using rev_ind; [done|].
  rewrite fmap_app. cbn. rewrite !foldl_snoc, IH. unfold best_step.
  rewrite trumps_abs. by destruct (trumps r _).
Qed.

Lemma union_caps_abs h c (l : list (Resource loc F)) :
  union_caps c (abs_res h <$> l) = union_caps c l.
Proof.
  unfold union_caps. revert c. induction l as [|r l IH]; intros c; cbn; [done|].
  apply IH.
Qed.

Lemma find_abs h nm (l : list (Resource loc F)) :
  List.find (λ r, bool_decide (res_name r = nm)) (abs_res h <$> l) =
  abs_res h <$> List.find (λ r, bool_decide (res_name r = nm)) l.
Proof.
  induction l as [|r l IH]; cbn; [done|]. case_bool_decide; [done|apply IH].
Qed.

Lemma best_resource_elem {P} (l : list (Resource P F)) b : best_resource l = Some b → b ∈ l.
Proof.
  unfold best_resource. revert b. induction l as [|r l IH] using rev_ind; [done|].
  intros b. rewrite foldl_snoc. unfold best_step at 1.
  destruct (trumps r _); intros Hb; [simplify_eq; set_solver|].
  apply IH in Hb. set_solver.
Qed.

(** ** Splitting the resource list at a name *)

Lemma find_split {P} nm (l : list (Resource P F)) r :
  List.find (λ r, bool_decide (res_name r = nm)) l = Some r →
  ∃ l1 l2, l = l1 ++ r :: l2 ∧ res_name r = nm ∧ ∀ x, x ∈ l1 → res_name x ≠ nm.
Proof.
  induction l as [|y l IH]; cbn; [done|]. case_bool_decide as Hn; intros Hf.
  - simplify_eq. exists [], l. split_and!; [done..|set_solver].
  - destruct (IH Hf) as (l1 & l2 & -> & Hr & Hl1). exists (y :: l1), l2.
    split_and!; [done..|]. set_solver.
Qed.

Lemma find_none {P} nm (l : list (Resource P F)) :
  List.find (λ r, bool_decide (res_name r = nm)) l = None →
  ∀ x, x ∈ l → res_name x ≠ nm.
Proof.
  intros Hf x Hx Heq. apply list_elem_of_In in Hx.
  pose proof (List.find_none _ _ Hf x Hx) as Hn. cbn in Hn.
  by rewrite bool_decide_eq_true_2 in Hn.
Qed.

Lemma alter_first_split {P} nm (f : Resource P F → Resource P F) l1 r l2 :
  (∀ x, x ∈ l1 → res_name x ≠ nm) → res_name r = nm →
  alter_first nm f (l1 ++ r :: l2) = l1 ++ f r :: l2.
Proof.
  intros Hl Hr. induction l1 as [|y l1 IH]; cbn.
  - by rewrite bool_decide_eq_true_2.
  - rewrite bool_decide_eq_false_2 by set_solver. rewrite IH by set_solver. done.
Qed.

Lemma delete_first_split {P} nm (l1 : list (Resource P F)) r l2 :
  (∀ x, x ∈ l1 → res_name x ≠ nm) → res_name r = nm →
  delete_first (λ r, bool_decide (res_name r = nm)) (l1 ++ r :: l2) = l1 ++ l2.
Proof.
  intros Hl Hr. induction l1 as [|y l1 IH]; cbn.
  - by rewrite bool_decide_eq_true_2.
  - rewrite bool_decide_eq_false_2 by set_solver. rewrite IH by set_solver. done.
Qed.

Lemma delete_first_none {P} nm (l : list (Resource P F)) :
  (∀ x, x ∈ l → res_name x ≠ nm) →
  delete_first (λ r, bool_decide (res_name r = nm)) l = l.
Proof.
  induction l as [|y l IH]; cbn; intros Hl; [done|].
  rewrite bool_decide_eq_false_2 by set_solver. rewrite IH by set_solver. done.
Qed.

Lemma owned_in_dom w l : mem_ok w → l ∈ owned (pres w) → l ∈ dom (heap (mem w)).
Proof. intros Hok Hl. rewrite (mem_dom w Hok). set_solver. Qed.

Lemma elem_of_owned_resource (p : GabblePresence loc F) r l :
  r ∈ resources p → res_status_message r = Some l → l ∈ owned p.
Proof.
  intros Hr Hm. unfold owned, slots. apply list_elem_of_omap.
  exists (Some l). split; [|done]. right. apply list_elem_of_fmap. eauto.
Qed.

Lemma abs_list_ext h h' (l : list (Resource loc F)) (D : gset loc) :
  (∀ x, x ∈ D → h !! x = h' !! x) →
  (∀ r x, r ∈ l → res_status_message r = Some x → x ∈ D) →
  abs_res h <$> l = abs_res h' <$> l.
Proof.
  intros Hh Hl. apply list_fmap_ext. intros i r Hr.
  apply abs_res_ext. intros x Hx. apply Hh. eapply Hl; [|done].
  by eapply list_elem_of_lookup_2.
Qed.

Lemma abs_pres_ext h h' (p : GabblePresence loc F) :
  rd h (status_message p) = rd h' (status_message p) →
  rd h (no_resource_status_message p) = rd h' (no_resource_status_message p) →
  abs_res h <$> resources p = abs_res h' <$> resources p →
  abs_pres h p = abs_pres h' p.
Proof. unfold abs_pres. by intros -> -> ->. Qed.

(** ** Refinement *)

Lemma aggregate_refines w :
  mem_ok w → olpc_views (pres w) = 0 →
  wp aggregate_resources
    (λ b w', mem_ok w' ∧ olpc_views (pres w') = 0 ∧ (b, abs w') = spec_aggregate (abs w)) w.
Proof.
  intros Hok Hv. unfold aggregate_resources.
  apply wp_bind, wp_get, wp_bind, wp_modify, wp_bind.
  assert (∀ w' : World F, olpc_views (pres w') = 0 → mem_ok w' →
    (negb (client_types (pres w) =? client_types (pres w')), abs w') = spec_aggregate (abs w) →
    wp (w1 ← get;
        when ((status (pres w1) <=? GABBLE_PRESENCE_HIDDEN) && (0 <? olpc_views (pres w1)))
          (put_pres (p_set_status GABBLE_PRESENCE_AVAILABLE);;
           g_free (status_message (pres w1)) ;; put_pres (p_set_message None)) ;;
        w2 ← get; mret (negb (client_types (pres w) =? client_types (pres w2))))
      (λ b w', mem_ok w' ∧ olpc_views (pres w') = 0 ∧ (b, abs w') = spec_aggregate (abs w))
      w') as Hrest.
  { intros w' Hv' Hok' Habs. apply wp_bind, wp_get, wp_bind. rewrite Hv'.
    rewrite andb_false_r. cbn. apply wp_bind, wp_get, wp_ret. done. }
  pose proof (best_resource_abs (heap (mem w)) (resources (pres w))) as Hbest.
  pose proof (union_caps_abs (heap (mem w)) gabble_capability_set_new
    (resources (pres w))) as Hcaps.
  destruct (best_resource (resources (pres w))) as [best|] eqn:Hb.
  - apply wp_modify, Hrest; cbn; [done| |].
    + destruct Hok as [Hdom Hnd Hfr Hbor]. split; cbn; [done..|].
      intros l Hl. apply best_resource_elem in Hb.
      by eapply elem_of_owned_resource.
    + unfold spec_aggregate.
      change (resources (abs w)) with (abs_res (heap (mem w)) <$> resources (pres w)).
      by rewrite Hbest, Hcaps.
  - apply wp_ret, Hrest; cbn; [done| |].
    + destruct Hok as [Hdom Hnd Hfr Hbor]. by split.
    + unfold spec_aggregate.
      change (resources (abs w)) with (abs_res (heap (mem w)) <$> resources (pres w)).
      by rewrite Hbest, Hcaps.
Qed.

Lemma spec_aggregate_reset (v : GabblePresence string F) s c :
  spec_aggregate (p_set_status s (p_set_caps c v)) = spec_aggregate v.
Proof. reflexivity. Qed.

(** Freeing the message of the resource taken out of the list. *)
Lemma drop_resource_refines w l1 r l2 :
  mem_ok w → resources (pres w) = l1 ++ r :: l2 →
  wp (_resource_free r)
    (λ _ w', pres w' = p_set_resources (l1 ++ l2) (pres w) ∧ ∀ c,
       let w'' := mkWorld (mem w') (p_set_message None (p_set_caps c (pres w'))) in
       mem_ok w'' ∧ abs w'' = p_set_message None (p_set_caps c (p_set_resources
         (abs_res (heap (mem w)) <$> (l1 ++ l2)) (abs w))))
    (mkWorld (mem w) (p_set_resources (l1 ++ l2) (pres w))).
Proof.
  intros Hok Hl. unfold _resource_free.
  assert (ptr_set (res_status_message r) ⊆ dom (heap (mem w))) as Hsub.
  { intros x Hx. destruct (res_status_message r) as [y|] eqn:Ey; cbn in Hx; [|set_solver].
    apply elem_of_singleton in Hx as ->. apply owned_in_dom; [done|].
    eapply elem_of_owned_resource; [|done]. rewrite Hl. set_solver. }
  destruct Hok as [Hdom Hnd Hfr Hbor].
  assert (slots (pres w) =
    (no_resource_status_message (pres w) :: (res_status_message <$> l1)) ++
    res_status_message r :: (res_status_message <$> l2)) as Hslots.
  { unfold slots. rewrite Hl, fmap_app. done. }
  unfold owned in *. rewrite Hslots in *.
  pose proof (omap_id_slots_replace _ _ _ None Hnd ltac:(cbn; set_solver)) as [Hnd' Hset].
  rewrite <- Hdom in Hset. rewrite omap_id_none in Hnd', Hset.
  change (ptr_set None) with (∅ : gset loc) in Hset.
  apply g_free_spec; [done|]. cbn. intros m' Hdm Hnext Hsame.
  split; [done|]. intros c. cbn.
  assert (∀ x, x ∈ omap id ((no_resource_status_message (pres w)
      :: (res_status_message <$> l1)) ++ (res_status_message <$> l2)) →
      heap m' !! x = heap (mem w) !! x) as Hrd.
  { intros x Hx. apply Hsame. intros Heq. rewrite Heq in Hset. cbn in Hset.
    assert (x ∈ dom (heap (mem w)) ∖ {[x]}); [|set_solver].
    rewrite union_empty_r_L in Hset. rewrite <- Hset. set_solver. }
  split.
  - split; cbn.
    + unfold owned, slots. cbn -[omap]. rewrite fmap_app. rewrite Hdm.
      rewrite union_empty_r_L in Hset. by rewrite <- Hset.
    + unfold owned, slots. cbn -[omap]. by rewrite fmap_app.
    + rewrite Hdm, Hnext. set_solver.
    + done.
  - apply (abs_pres_ext (heap m') (heap (mem w))
      (p_set_message None (p_set_caps c (p_set_resources (l1 ++ l2) (pres w)))));
      [done| |].
    + cbn. destruct (no_resource_status_message (pres w)) as [x|] eqn:Ex; [|done].
      cbn. apply Hrd. rewrite omap_app, omap_id_cons. cbn. set_solver.
    + apply (abs_list_ext _ _ _ (list_to_set (omap id ((no_resource_status_message (pres w)
        :: (res_status_message <$> l1)) ++ (res_status_message <$> l2))))).
      * intros x Hx. apply Hrd. set_solver.
      * intros r' x Hr' Hx. rewrite elem_of_list_to_set, list_elem_of_omap.
        exists (Some x). split; [|done]. cbn. right. rewrite <- fmap_app.
        apply list_elem_of_fmap. eauto.
Qed.

(** Replacing the message of one resource and borrowing the new one. *)
Lemma replace_message_refines w l1 r l2 msg (g : Resource loc F → Resource loc F)
    (ga : Resource string F → Resource string F) :
  mem_ok w → resources (pres w) = l1 ++ r :: l2 →
  (∀ q x, res_status_message (g (set_message q x)) = q) →
  (∀ h q x, abs_res h (g (set_message q x)) = ga (set_message (rd h q) (abs_res h x))) →
  wp (replace_string (res_status_message r) msg)
    (λ q w', pres w' = pres w ∧
       let w'' := mkWorld (mem w') (p_set_message q (p_set_resources
                    (l1 ++ g (set_message q r) :: l2) (pres w))) in
       mem_ok w'' ∧ abs w'' = p_set_message msg (p_set_resources
         ((abs_res (heap (mem w)) <$> l1) ++
          ga (set_message msg (abs_res (heap (mem w)) r)) ::
          (abs_res (heap (mem w)) <$> l2)) (abs w))) w.
Proof.
  intros Hok Hl Hg Hga.
  assert (ptr_set (res_status_message r) ⊆ dom (heap (mem w))) as Hsub.
  { intros x Hx. destruct (res_status_message r) as [y|] eqn:Ey; cbn in Hx; [|set_solver].
    apply elem_of_singleton in Hx as ->. apply owned_in_dom; [done|].
    eapply elem_of_owned_resource; [|done]. rewrite Hl. set_solver. }
  destruct Hok as [Hdom Hnd Hfr Hbor].
  set (a := no_resource_status_message (pres w) :: (res_status_message <$> l1)).
  set (b := res_status_message <$> l2).
  assert (owned (pres w) = omap id (a ++ res_status_message r :: b)) as Hown.
  { unfold owned, slots. by rewrite Hl, fmap_app. }
  rewrite Hown in *.
  apply replace_string_spec; [done..|]. intros q m' Hdm Hfr' Hdisj Hrd Hsame.
  split; [done|]. cbn. rewrite Hdom in Hdm, Hdisj, Hsame.
  pose proof (omap_id_slots_replace a b _ q Hnd Hdisj) as [Hnd' Hset].
  assert (owned (p_set_message q (p_set_resources (l1 ++ g (set_message q r) :: l2)
    (pres w))) = omap id (a ++ q :: b)) as Hown'.
  { unfold owned, slots. cbn -[omap]. rewrite fmap_app. cbn -[omap]. by rewrite Hg. }
  assert (∀ x, x ∈ omap id (a ++ b) → heap m' !! x = heap (mem w) !! x) as Hkeep.
  { intros x Hx. apply Hsame. pose proof (omap_id_none a b) as En.
    pose proof (omap_id_slots_replace a b _ None Hnd ltac:(cbn; set_solver)) as [_ Hs].
    rewrite En in Hs. change (ptr_set None) with (∅ : gset loc) in Hs.
    rewrite union_empty_r_L in Hs. rewrite <- Hs. set_solver. }
  split.
  - split; cbn -[owned]; rewrite ?Hown'; [by rewrite Hdm, Hset|done|done|].
    intros l ->. rewrite omap_app, omap_id_cons. cbn. set_solver.
  - transitivity (abs_pres (heap m') (p_set_message q (p_set_resources
      (l1 ++ g (set_message q r) :: l2) (pres w)))); [done|].
    unfold abs_pres, abs, abs_pres, p_set_message, p_set_resources. cbn -[fmap rd].
    rewrite Hrd. rewrite fmap_app, fmap_cons, Hga, Hrd.
    assert (rd (heap m') (no_resource_status_message (pres w)) =
            rd (heap (mem w)) (no_resource_status_message (pres w))) as ->.
    { destruct (no_resource_status_message (pres w)) as [x|] eqn:Ex; [|done].
      cbn. apply Hkeep. subst a. rewrite ?Ex, omap_app, omap_id_cons. cbn. set_solver. }
    assert (∀ ll : list (Resource loc F),
      (∀ x, x ∈ (res_status_message <$> ll) → x ∈ a ++ b) →
      abs_res (heap m') <$> ll = abs_res (heap (mem w)) <$> ll) as Hll.
    { intros ll Hin. apply (abs_list_ext _ _ _ (list_to_set (omap id (a ++ b)))).
      - intros x Hx. apply Hkeep. set_solver.
      - intros r' x Hr' Hx. rewrite elem_of_list_to_set, list_elem_of_omap.
        exists (Some x). split; [|done]. apply Hin. apply list_elem_of_fmap. eauto. }
    rewrite !Hll by (subst a b; set_solver). done.
Qed.

Lemma spec_find_abs w nm :
  _find_resource (abs w) nm = abs_res (heap (mem w)) <$> _find_resource (pres w) nm.
Proof. apply find_abs. Qed.

Lemma resources_abs w : resources (abs w) = abs_res (heap (mem w)) <$> resources (pres w).
Proof. done. Qed.

Lemma delete_first_abs h nm (l : list (Resource loc F)) :
  delete_first (λ r, bool_decide (res_name r = nm)) (abs_res h <$> l) =
  abs_res h <$> delete_first (λ r, bool_decide (res_name r = nm)) l.
Proof.
  induction l as [|r l IH]; cbn; [done|]. case_bool_decide; [done|]. cbn. by f_equal.
Qed.

Definition stamp (st prio now : Z) {P} (r : Resource P F) : Resource P F :=
  (if GABBLE_PRESENCE_AVAILABLE <=? st then set_last_available now else id)
    (set_priority prio r).

Lemma update_resource_refines nm st msg prio now w :
  mem_ok w →
  wp (update_resource nm st msg prio now)
    (λ _ w', mem_ok w' ∧ olpc_views (pres w') = olpc_views (pres w) ∧
       ∃ c, abs w' = p_set_caps c (spec_update_resource nm st msg prio now (abs w))) w.
Proof.
  intros Hok. unfold update_resource, spec_update_resource.
  apply wp_bind, wp_get. rewrite spec_find_abs.
  destruct (_find_resource (pres w) nm) as [r|] eqn:Hf; cbn [fmap option_fmap option_map];
    destruct (st <=? GABBLE_PRESENCE_LAST_UNAVAILABLE).
  - (* a known resource goes away *)
    destruct (find_split _ _ _ Hf) as (l1 & l2 & Hl & Hn & Hl1).
    apply wp_bind, wp_bind, wp_modify. rewrite Hl, delete_first_split by done.
    apply wp_bind. eapply wp_mono; [|by eapply drop_resource_refines].
    intros [] w1 [Hp1 Hw1]. apply wp_modify, wp_modify. cbn.
    destruct (Hw1 (union_caps (gabble_capability_set_clear (cap_set (pres w1)))
      (resources (pres w1)))) as [Hok1 Habs1].
    split_and!; [done|by rewrite Hp1|]. eexists. rewrite Habs1.
    by rewrite ?resources_abs, Hl, delete_first_abs, delete_first_split.
  - (* a known resource is updated *)
    destruct (find_split _ _ _ Hf) as (l1 & l2 & Hl & Hn & Hl1).
    apply wp_bind, wp_ret, wp_bind, wp_modify. rewrite Hl, alter_first_split by done.
    apply wp_bind. cbn [mbind option_bind].
    assert (mem_ok (mkWorld (mem w) (p_set_resources (l1 ++ set_status st r :: l2) (pres w))))
      as Hok1.
    { destruct Hok as [Hdom Hnd Hfr Hbor]. unfold owned, slots in *.
      rewrite Hl, fmap_app, fmap_cons in *.
      split; cbn -[omap fmap]; unfold owned, slots; cbn -[omap fmap];
        rewrite ?fmap_app, ?fmap_cons; done. }
    eapply wp_mono; [|apply (replace_message_refines _ l1 (set_status st r) l2 msg
      (stamp st prio now) (stamp st prio now) Hok1); [done| |]].
    + intros q w1 [Hp1 Hw1]. apply wp_bind, wp_modify, wp_modify. cbn -[fmap].
      rewrite Hp1. cbn -[fmap]. rewrite alter_first_split by done.
      destruct Hw1 as [Hok2 Habs2]. split_and!; [done|done|].
      exists (cap_set (pres w)). etransitivity; [apply Habs2|]. cbn -[fmap].
      rewrite ?resources_abs, Hl, fmap_app, fmap_cons, alter_first_split; [done| |done].
      intros x (y & -> & Hy)%list_elem_of_fmap. by apply (Hl1 y).
    + intros q x. unfold stamp. by destruct (_ <=? st).
    + intros h q x. unfold stamp. by destruct (_ <=? st).
  - (* an unknown resource goes away *)
    apply wp_bind, wp_ret, wp_modify. cbn.
    split_and!; [|done|].
    + destruct Hok as [Hdom Hnd Hfr Hbor]. by split.
    + exists (cap_set (pres w)). rewrite ?resources_abs, delete_first_abs.
      by rewrite delete_first_none by apply (find_none _ _ Hf).
  - (* a new resource *)
    apply wp_bind, wp_modify, wp_bind, wp_modify. cbn -[fmap].
    pose proof (find_none _ _ Hf) as Hnone.
    rewrite (alter_first_split nm (set_status st) (resources (pres w))) by done.
    apply wp_bind. set (r := _resource_new nm : Resource loc F).
    assert (mem_ok (mkWorld (mem w)
      (p_set_resources (resources (pres w) ++ [set_status st r]) (pres w)))) as Hok1.
    { destruct Hok as [Hdom Hnd Hfr Hbor]. unfold owned, slots in *.
      assert (omap id (no_resource_status_message (pres w) :: (res_status_message <$>
        resources (pres w) ++ [set_status st r])) = omap id (no_resource_status_message
        (pres w) :: (res_status_message <$> resources (pres w)))) as Heq.
      { rewrite fmap_app, !omap_id_cons, omap_app. cbn. by rewrite app_nil_r. }
      split; cbn -[omap fmap]; unfold owned, slots; cbn -[omap fmap]; rewrite ?Heq; done. }
    eapply wp_mono; [|apply (replace_message_refines _ (resources (pres w))
      (set_status st r) [] msg (stamp st prio now) (stamp st prio now) Hok1); [done| |]].
    + intros q w1 [Hp1 Hw1]. apply wp_bind, wp_modify, wp_modify. cbn -[fmap].
      rewrite Hp1. cbn -[fmap]. rewrite alter_first_split by done.
      destruct Hw1 as [Hok2 Habs2]. split_and!; [done|done|].
      exists (cap_set (pres w)). etransitivity; [apply Habs2|]. cbn -[fmap].
      rewrite ?resources_abs, alter_first_split; [done| |done].
      intros x (y & -> & Hy)%list_elem_of_fmap. by apply (Hnone y).
    + intros q x. unfold stamp. by destruct (_ <=? st).
    + intros h q x. unfold stamp. by destruct (_ <=? st).
Qed.

(** Freeing every resource leaves the presence's own message alone. *)
Lemma free_all_spec w :
  mem_ok w →
  wp (for_each (resources (pres w)) _resource_free)
    (λ _ w', pres w' = pres w ∧ next (mem w') = next (mem w) ∧
       dom (heap (mem w')) = ptr_set (no_resource_status_message (pres w)) ∧
       rd (heap (mem w')) (no_resource_status_message (pres w)) =
         rd (heap (mem w)) (no_resource_status_message (pres w))) w.
Proof.
  intros [Hdom Hnd Hfr Hbor]. set (n := no_resource_status_message (pres w)).
  pose (I := λ (rest : list (Resource loc F)) (w' : World F),
    pres w' = pres w ∧ next (mem w') = next (mem w) ∧
    NoDup (omap id ([n] ++ (res_status_message <$> rest))) ∧
    dom (heap (mem w')) =@{gset loc}
      list_to_set (omap id ([n] ++ (res_status_message <$> rest))) ∧
    rd (heap (mem w')) n = rd (heap (mem w)) n).
  eapply wp_mono; [|apply (wp_for_each I)].
  - intros [] w' (Hp & Hnx & _ & Hd & Hr). split_and!; [done..| |done].
    rewrite Hd. rewrite omap_app, omap_id_cons. destruct n; cbn; set_solver.
  - intros r rest w' (Hp & Hnx & Hnd' & Hd & Hr). rewrite fmap_cons in Hnd', Hd.
    unfold _resource_free. apply g_free_spec.
    { rewrite Hd, omap_app, (omap_id_cons (res_status_message r)).
      destruct (res_status_message r); cbn; set_solver. }
    intros m' Hdm Hnx' Hsame. unfold I. cbn [pres mem].
    pose proof (omap_id_slots_replace [n] _ _ None Hnd' ltac:(cbn; set_solver)) as [Hn Hs].
    rewrite omap_id_none in Hn, Hs. change (ptr_set None) with (∅ : gset loc) in Hs.
    rewrite union_empty_r_L in Hs. split_and!; [done|congruence|done|by rewrite Hdm, Hd, Hs|].
    rewrite <- Hr. destruct n as [x|] eqn:En; [|done]. cbn. apply Hsame. intros Heq.
    rewrite Heq in Hnd'. rewrite omap_app, omap_id_cons in Hnd'. cbn in Hnd'.
    apply NoDup_cons in Hnd' as [Hnot _]. set_solver.
  - unfold I. split_and!; done.
Qed.

Lemma update_no_resource_refines st msg w :
  mem_ok w →
  wp (update_no_resource st msg)
    (λ _ w', mem_ok w' ∧ olpc_views (pres w') = olpc_views (pres w) ∧
       abs w' = p_set_message msg (p_set_status st
                  (p_set_no_resource msg (p_set_resources [] (abs w))))) w.
Proof.
  intros Hok. unfold update_no_resource. apply wp_bind, wp_get, wp_bind.
  eapply wp_mono; [|by apply free_all_spec]. intros [] w1 (Hp & Hnx & Hd & Hr).
  apply wp_bind, wp_modify, wp_bind.
  apply replace_string_spec; cbn -[ptr_set]; [|by rewrite Hd|].
  { intros l Hl. rewrite Hnx. apply (mem_fresh w Hok). rewrite (mem_dom w Hok).
    rewrite Hd in Hl. unfold owned, slots. rewrite omap_id_cons.
    destruct (no_resource_status_message (pres w)); cbn in Hl |- *; set_solver. }
  intros q m' Hdm Hfr' _ Hrd _.  cbn -[ptr_set] in *.
  split_and!; [|by rewrite Hp|].
  - split; unfold owned, slots; cbn.
    + rewrite Hdm, Hd. destruct q; cbn; set_solver.
    + destruct q; cbn; [apply NoDup_singleton|apply NoDup_nil_2].
    + done.
    + intros l ->. set_solver.
  - unfold abs, abs_pres. cbn -[rd]. by rewrite Hrd, Hp.
Qed.

Lemma status_message_in_dom w : mem_ok w → ptr_set (status_message (pres w)) ⊆ dom (heap (mem w)).
Proof.
  intros Hok. destruct (status_message (pres w)) as [l|] eqn:E; cbn; [|set_solver].
  intros x ->%elem_of_singleton. apply owned_in_dom; [done|]. by apply (mem_borrow w Hok).
Qed.

(** While the contact is in no OLPC view, [gabble_presence_update] neither
    reads nor frees a dead string, leaks none and leaves no dangling pointer,
    and its effect, return value and out parameter are those of the abstract
    update. *)
Lemma update_refines resource st msg prio uct now w :
  mem_ok w → olpc_views (pres w) = 0 →
  wp (gabble_presence_update resource st msg prio uct now)
    (λ r w', mem_ok w' ∧ olpc_views (pres w') = 0 ∧
       (r, abs w') = spec_update resource st msg prio uct now (abs w)) w.
Proof.
  intros Hok Hv. unfold gabble_presence_update, spec_update.
  apply wp_bind, wp_get, wp_bind, deref_spec; [by apply status_message_in_dom|].
  apply wp_bind.
  assert (∀ (w' : World F) (ch : option bool) v', mem_ok w' → olpc_views (pres w') = 0 → abs w' = v' →
    wp (ret ← detect_changes (status (pres w)) (rd (heap (mem w)) (status_message (pres w)));
        mret (ret, ch))
      (λ r w'', mem_ok w'' ∧ olpc_views (pres w'') = 0 ∧
        (r, abs w'') = ((negb (status v' =? status (abs w)) ||
           tp_strdiff (status_message v') (status_message (abs w)), ch), v')) w') as Hend.
  { intros w' ch v' Hok' Hv' <-. unfold detect_changes.
    apply wp_bind, wp_bind, wp_get, wp_bind, deref_spec; [by apply status_message_in_dom|].
    apply wp_ret, wp_ret. done. }
  destruct resource as [nm|].
  - apply wp_bind. eapply wp_mono; [|by apply update_resource_refines].
    intros [] w1 (Hok1 & Hv1 & c & Habs1). apply wp_bind, wp_modify, wp_bind.
    assert (mem_ok (mkWorld (mem w1) (p_set_status GABBLE_PRESENCE_OFFLINE
      (p_set_caps (gabble_capability_set_clear (cap_set (pres w1))) (pres w1)))) ) as Hok2
      by (destruct Hok1; by split).
    eapply wp_mono; [|apply aggregate_refines; [done|cbn; congruence]].
    intros b w2 (Hok3 & Hv3 & Habs3). apply wp_ret.
    assert ((b, abs w2) = spec_aggregate (spec_update_resource nm st msg prio now (abs w)))
      as Heq.
    { rewrite Habs3.
      change (abs (mkWorld (mem w1) (p_set_status ?s (p_set_caps ?c' (pres w1)))))
        with (p_set_status s (p_set_caps c' (abs w1))).
      rewrite Habs1, spec_aggregate_reset. reflexivity. }
    rewrite <- Heq. by apply Hend.
  - apply wp_bind. eapply wp_mono; [|by apply update_no_resource_refines].
    intros [] w1 (Hok1 & Hv1 & Habs1). apply wp_ret, Hend; [done|congruence|done].
Qed.

(** ** Histories of a contact *)

Lemma refresh_resource_abs h nm caps forms serial (r : Resource loc F) :
  refresh_resource nm caps forms serial (abs_res h r) =
  abs_res h (refresh_resource nm caps forms serial r).
Proof.
  unfold refresh_resource. cbn. case_bool_decide; [|done].
  destruct (caps_serial r <? serial); cbn; by destruct (_ <=? serial).
Qed.

Lemma refresh_resource_message nm caps forms serial {P} (r : Resource P F) :
  res_status_message (refresh_resource nm caps forms serial r) = res_status_message r.
Proof.
  unfold refresh_resource. case_bool_decide; [|done].
  destruct (caps_serial r <? serial); cbn; by destruct (_ <=? serial).
Qed.

Lemma alter_first_abs h nm (f : Resource loc F → Resource loc F) g l :
  (∀ r, g (abs_res h r) = abs_res h (f r)) →
  alter_first nm g (abs_res h <$> l) = abs_res h <$> alter_first nm f l.
Proof.
  intros Hfg. induction l as [|r l IH]; cbn; [done|]. case_bool_decide; cbn; congruence.
Qed.

(** What can happen to a contact outside OLPC views. *)
Inductive presence_op :=
  | Update (resource : option string) (st : Z) (msg : option string)
      (prio : Z) (uct : bool) (now : Z)
  | SetCapabilities (resource : option string) (caps : GabbleCapabilitySet)
      (forms : option (list F)) (serial : Z)
  | UpdateClientTypes (resource : option string) (types : Z).

Definition run_op (o : presence_op) : M (World F) (bool * option bool) :=
  match o with
  | Update resource st msg prio uct now =>
      gabble_presence_update resource st msg prio uct now
  | SetCapabilities resource caps forms serial =>
      w ← get;
      put_pres (λ p, (gabble_presence_set_capabilities p resource caps forms serial).2) ;;
      mret ((gabble_presence_set_capabilities (pres w) resource caps forms serial).1, None)
  | UpdateClientTypes resource types =>
      b ← gabble_presence_update_client_types resource types; mret (b, None)
  end.

Fixpoint run_ops (l : list presence_op) : M (World F) (list (bool * option bool)) :=
  match l with
  | [] => mret []
  | o :: l' => r ← run_op o; rs ← run_ops l'; mret (r :: rs)
  end.

Definition spec_client_types (resource : option string) (types : Z)
    (v : GabblePresence string F) : bool * GabblePresence string F :=
  match resource with
  | None =>
      match resources v with
      | _ :: _ => (false, v)
      | [] => (negb (client_types v =? types), p_set_client_types types v)
      end
  | Some nm =>
      match _find_resource v nm with
      | None => (false, v)
      | Some _ => spec_aggregate
          (p_set_resources (alter_first nm (set_client_type types) (resources v)) v)
      end
  end.

Definition spec_op (o : presence_op) (v : GabblePresence string F) :
    (bool * option bool) * GabblePresence string F :=
  match o with
  | Update resource st msg prio uct now => spec_update resource st msg prio uct now v
  | SetCapabilities resource caps forms serial =>
      let '(b, v') := gabble_presence_set_capabilities v resource caps forms serial in
      ((b, None), v')
  | UpdateClientTypes resource types =>
      let '(b, v') := spec_client_types resource types v in ((b, None), v')
  end.

Fixpoint spec_ops (l : list presence_op) (v : GabblePresence string F) :
    list (bool * option bool) * GabblePresence string F :=
  match l with
  | [] => ([], v)
  | o :: l' =>
      let '(r, v1) := spec_op o v in
      let '(rs, v2) := spec_ops l' v1 in (r :: rs, v2)
  end.

(** The string heap does not see a change that keeps the message slots. *)
Lemma mem_ok_same_slots (w : World F) p' :
  slots p' = slots (pres w) → status_message p' = status_message (pres w) →
  mem_ok w → mem_ok (mkWorld (mem w) p').
Proof.
  intros Hs Hm []. unfold owned in *.
  split; cbn -[slots]; unfold owned; cbn -[slots]; rewrite ?Hs, ?Hm; done.
Qed.

Lemma set_capabilities_abs h (p : GabblePresence loc F) resource caps forms serial :
  gabble_presence_set_capabilities (abs_pres h p) resource caps forms serial =
  let '(b, p') := gabble_presence_set_capabilities p resource caps forms serial in
  (b, abs_pres h p').
Proof.
  destruct resource as [nm|]; cbn; [|by destruct (resources p)].
  pose proof (set_caps_loop_spec nm caps forms serial (resources p)
    (gabble_capability_set_clear (cap_set p)) []) as H1.
  pose proof (set_caps_loop_spec nm caps forms serial (abs_res h <$> resources p)
    (gabble_capability_set_clear (cap_set p)) []) as H2.
  cbn zeta in H1, H2.
  rewrite H1, H2. cbn -[fmap union_caps].
  assert (refresh_resource nm caps forms serial <$> (abs_res h <$> resources p) =
    abs_res h <$> (refresh_resource nm caps forms serial <$> resources p)) as ->.
  { rewrite <- !list_fmap_compose. apply list_fmap_ext. intros i r _. apply refresh_resource_abs. }
  rewrite union_caps_abs, <- list_fmap_compose. done.
Qed.

Lemma set_capabilities_slots {P} (p : GabblePresence P F) resource caps forms serial :
  let p' := (gabble_presence_set_capabilities p resource caps forms serial).2 in
  no_resource_status_message p' = no_resource_status_message p ∧
  res_status_message <$> resources p' = res_status_message <$> resources p ∧
  status_message p' = status_message p ∧ olpc_views p' = olpc_views p.
Proof.
  destruct resource as [nm|]; cbn; [|destruct (resources p) eqn:E; cbn; rewrite ?E; done].
  pose proof (set_caps_loop_spec nm caps forms serial (resources p)
    (gabble_capability_set_clear (cap_set p)) []) as H1. cbn zeta in H1.
  rewrite H1. cbn -[fmap union_caps]. split_and!; try done.
  rewrite <- list_fmap_compose. apply list_fmap_ext. intros i r _.
  apply refresh_resource_message.
Qed.

Lemma alter_first_messages {P} nm (f : Resource P F → Resource P F) l :
  (∀ r, res_status_message (f r) = res_status_message r) →
  res_status_message <$> alter_first nm f l = res_status_message <$> l.
Proof.
  intros Hf. induction l as [|r l IH]; cbn; [done|]. case_bool_decide; cbn; congruence.
Qed.

Lemma client_types_refines resource types w :
  mem_ok w → olpc_views (pres w) = 0 →
  wp (gabble_presence_update_client_types resource types)
    (λ b w', mem_ok w' ∧ olpc_views (pres w') = 0 ∧
       (b, abs w') = spec_client_types resource types (abs w)) w.
Proof.
  intros Hok Hv. unfold gabble_presence_update_client_types, spec_client_types.
  apply wp_bind, wp_get. destruct resource as [nm|].
  - rewrite spec_find_abs. destruct (_find_resource (pres w) nm) as [r|]; [|done].
    apply wp_bind, wp_modify. eapply wp_mono; [|apply aggregate_refines; [|done]].
    + intros b w' (Hok' & Hv' & Habs). split_and!; [done..|]. rewrite Habs.
      cbn -[spec_aggregate]. f_equal. unfold abs, abs_pres, p_set_resources. cbn -[fmap].
      by rewrite (alter_first_abs _ _ (set_client_type types)) by done.
    + apply mem_ok_same_slots; [|done..]. unfold slots. cbn -[fmap].
      by rewrite alter_first_messages.
  - cbn. destruct (resources (pres w)) as [|r l] eqn:E; cbn; [|done].
    apply wp_bind, wp_modify, wp_ret. split_and!; [|done..].
    by apply mem_ok_same_slots.
Qed.

Lemma op_refines o w :
  mem_ok w → olpc_views (pres w) = 0 →
  wp (run_op o) (λ r w', mem_ok w' ∧ olpc_views (pres w') = 0 ∧
    (r, abs w') = spec_op o (abs w)) w.
Proof.
  intros Hok Hv. destruct o as [resource st msg prio uct now|resource caps forms serial|resource types].
  - by apply update_refines.
  - unfold run_op, spec_op. apply wp_bind, wp_get, wp_bind, wp_modify, wp_ret. cbn -[fmap].
    destruct (set_capabilities_slots (pres w) resource caps forms serial) as (H1 & H2 & H3 & H4).
    split_and!; [|congruence|].
    + apply mem_ok_same_slots; [|done..]. unfold slots. congruence.
    + unfold abs at 2. rewrite set_capabilities_abs.
      by destruct (gabble_presence_set_capabilities _ _ _ _ _).
  - unfold run_op, spec_op. apply wp_bind.
    eapply wp_mono; [|by apply client_types_refines].
    intros b w' (? & ? & H). apply wp_ret. split_and!; [done..|]. by rewrite <- H.
Qed.

(** A fresh contact: no strings, no resources. *)
Definition fresh_world : World F := mkWorld (mkMem ∅ 1%positive) gabble_presence_new.

Lemma fresh_world_ok : mem_ok fresh_world.
Proof. split; cbn; [set_solver|apply NoDup_nil_2|set_solver|done]. Qed.

Lemma run_ops_refines l w :
  mem_ok w → olpc_views (pres w) = 0 →
  wp (run_ops l) (λ rs w', mem_ok w' ∧ (rs, abs w') = spec_ops l (abs w)) w.
Proof.
  revert w. induction l as [|o l IH]; intros w Hok Hv; [done|].
  cbn [run_ops spec_ops]. apply wp_bind. eapply wp_mono; [|by apply op_refines].
  intros r w1 (Hok1 & Hv1 & H1). rewrite <- H1. apply wp_bind.
  eapply wp_mono; [|by apply IH]. intros rs w2 (Hok2 & H2). apply wp_ret.
  by rewrite <- H2.
Qed.

(** C1: whatever sequence of presence stanzas, capability and
    client-type updates a contact outside OLPC views receives, the code
    neither reads nor frees a dead string, ends with every allocated string
    owned exactly once (no leak, no double owner, no dangling
    [status_message]), and its return values and the state an observer sees
    are those of the abstract, pointer-free semantics. *)
Theorem presence_history_refines (l : list presence_op) :
  wp (run_ops l) (λ rs w', mem_ok w' ∧
    (rs, abs w') = spec_ops l gabble_presence_new) fresh_world.
Proof.
  change gabble_presence_new with (abs fresh_world).
  apply run_ops_refines; [apply fresh_world_ok|done].
Qed.

(** *** The aggregate capabilities *)

Lemma spec_aggregate_caps (v : GabblePresence string F) :
  caps_aggregated (spec_aggregate v).2.
Proof.
  unfold caps_aggregated, spec_aggregate. cbn -[fmap].
  destruct (best_resource (resources v)); intros _; cbn -[fmap];
    rewrite union_caps_handles; set_solver.
Qed.

Lemma spec_op_caps o (v : GabblePresence string F) :
  caps_aggregated v → caps_aggregated (spec_op o v).2.
Proof.
  intros Hv. destruct o as [resource st msg prio uct now|resource caps forms serial|resource types].
  - unfold spec_op, spec_update. destruct resource as [nm|]; [|by intros []].
    pose proof (spec_aggregate_caps (spec_update_resource nm st msg prio now v)) as H.
    by destruct (spec_aggregate _).
  - cbn. destruct resource as [nm|]; cbn.
    + rewrite set_caps_loop_spec. cbn -[fmap]. intros _. cbn -[fmap].
      rewrite union_caps_handles. set_solver.
    + destruct (resources v) eqn:E; cbn; [|done]. intros Hne. by destruct Hne.
  - cbn. destruct resource as [nm|]; cbn.
    + destruct (_find_resource v nm); [|done].
      pose proof (spec_aggregate_caps (p_set_resources
        (alter_first nm (set_client_type types) (resources v)) v)) as H.
      by destruct (spec_aggregate _).
    + destruct (resources v) eqn:E; cbn; [|done]. intros Hne. by destruct Hne.
Qed.

(** At every point of such a history, a contact that has
    resources announces exactly the union of the capabilities of the
    resources it has then. *)
Theorem presence_history_caps (l : list presence_op) :
  wp (run_ops l) (λ _ w', caps_aggregated (pres w')) fresh_world.
Proof.
  eapply wp_mono; [|apply run_ops_refines; [apply fresh_world_ok|done]].
  intros rs w' [_ Habs].
  assert (caps_aggregated (spec_ops l (abs fresh_world)).2) as Hc.
  { assert (caps_aggregated (abs fresh_world)) as H0 by done.
    clear Habs. revert H0. generalize (abs fresh_world).
    induction l as [|o l IH]; intros v Hv; [done|]. cbn.
    apply (spec_op_caps o) in Hv. destruct (spec_op o v) as [r v1].
    specialize (IH v1 Hv). by destruct (spec_ops l v1). }
  rewrite <- Habs in Hc. unfold caps_aggregated in *. cbn -[fmap] in Hc.
  rewrite <- list_fmap_compose in Hc. intros Hne. apply Hc.
  by destruct (resources (pres w')).
Qed.

End memory.

(** ** OLPC views and borrowed messages *)

(** [aggregate_resources] frees the borrowed
    [status_message] of a contact that joins an OLPC view: after an
    "unavailable, with message" presence from a bare JID and the contact's
    arrival in a view, the message [no_resource_status_message] still points
    to is gone, and the contact's next presence from a bare JID reads and
    frees it again. *)
Theorem added_to_view_frees_owned_message (F : Type) (s : string) (st now : Z)
    (msg : option string) :
  (gabble_presence_update None GABBLE_PRESENCE_OFFLINE (Some s) 0 false now ;;
   gabble_presence_added_to_view ;;
   gabble_presence_update None st msg 0 false now) (@fresh_world F) = Abort MemoryFault.
Proof.
  unfold mbind, M_bind. reflexivity.
Qed.

(** The data forms of a resource that goes away stay in the
    contact's aggregate, although no resource is left. *)
Lemma departed_resource_forms_remain (F : Type) (f : F) (caps : GabbleCapabilitySet) (now : Z) :
  wp (run_ops [Update (Some "r") GABBLE_PRESENCE_AVAILABLE None 0 false now;
               SetCapabilities (Some "r") caps (Some [f]) 1;
               Update (Some "r") GABBLE_PRESENCE_OFFLINE None 0 false now])
    (λ _ w', resources (pres w') = [] ∧ data_forms (pres w') = [f]) fresh_world.
Proof. vm_compute. auto. Qed.

(** ** The choice of the aggregate resource *)

Section tiebreak.
Context {P F : Type}.

(** In [aggregate_resources] a PC client takes over from a
    non-PC client met before it even when it is less present, while the more
    present non-PC client wins when it is met second: being a PC is not a
    last tiebreak, and the outcome depends on the order in which the
    resources came on line. *)
Lemma pc_resource_trumps (a b : Resource P F) :
  flag_set (client_type a) GABBLE_CLIENT_TYPE_PC = false →
  flag_set (client_type b) GABBLE_CLIENT_TYPE_PC = true →
  res_status b < res_status a →
  best_resource [a; b] = Some b ∧ best_resource [b; a] = Some a.
Proof.
  intros Ha Hb Hs. unfold best_resource, best_step, trumps. cbn.
  rewrite Ha, Hb. cbn. rewrite !orb_true_r, (proj2 (Z.ltb_lt _ _) Hs). done.
Qed.
End tiebreak.

End Presence.
