(* ===== verification/RequestPipeline.v ===== *)
(** * The IQ request pipeline (src/request-pipeline.c)

    At most [REQUEST_PIPELINE_SIZE] IQs are in flight at once; the others
    wait in [pending_items].  Items cancelled or timed out while in flight
    become zombies in [crypt_items].  An item is a heap cell named by a
    number, allocated in increasing order.  A callback's effect on the
    pipeline is the requests it enqueues in turn (a finite tree); every call
    of a callback is logged.  [send_ok n] says whether the [n]-th
    [_gabble_connection_send_with_reply] succeeds. *)

From stdpp Require Import sorting.
From S2P Require Import Prelude Node.

Module RequestPipeline.

Definition DEFAULT_REQUEST_TIMEOUT : Z := 180.
Definition REQUEST_PIPELINE_SIZE : nat := 10.

(** ** Data *)

Inductive Callback :=
  | mkCallback (enqueues : list (WockyNode * Z * Callback)).

(** [timer_id] is whether a timeout source is installed. *)
Record GabbleRequestPipelineItem := mkItem {
  message : WockyNode;
  timer_id : bool;
  timeout : Z;
  in_flight : bool;
  zombie : bool;
  callback : Callback;
}.

(** What a callback is told: a reply (with the error it carries, if any), or
    no reply and an error. *)
Inductive reason :=
  | Reply (error : option string)
  | SendError
  | Cancelled
  | TimedOut
  | Disconnected.

Inductive event :=
  | Sent (id : nat) (ok : bool)
  | Called (id : nat) (r : reason).

Record GabbleRequestPipeline := mkPipeline {
  items : gmap nat GabbleRequestPipelineItem;
  next_id : nat;
  pending_items : list nat;
  items_in_flight : list nat;
  crypt_items : list nat;
  dispose_has_run : bool;
  idle_sources : nat;
  trace : list event;              (* chronological *)
}.

Definition gabble_request_pipeline_new : GabbleRequestPipeline :=
  mkPipeline ∅ 0 [] [] [] false 0 [].

Local Notation MP := (M GabbleRequestPipeline).

Definition set_items f (s : GabbleRequestPipeline) :=
  mkPipeline (f (items s)) (next_id s) (pending_items s) (items_in_flight s)
    (crypt_items s) (dispose_has_run s) (idle_sources s) (trace s).
Definition set_pending f (s : GabbleRequestPipeline) :=
  mkPipeline (items s) (next_id s) (f (pending_items s)) (items_in_flight s)
    (crypt_items s) (dispose_has_run s) (idle_sources s) (trace s).
Definition set_in_flight f (s : GabbleRequestPipeline) :=
  mkPipeline (items s) (next_id s) (pending_items s) (f (items_in_flight s))
    (crypt_items s) (dispose_has_run s) (idle_sources s) (trace s).
Definition set_crypt f (s : GabbleRequestPipeline) :=
  mkPipeline (items s) (next_id s) (pending_items s) (items_in_flight s)
    (f (crypt_items s)) (dispose_has_run s) (idle_sources s) (trace s).
Definition set_idle f (s : GabbleRequestPipeline) :=
  mkPipeline (items s) (next_id s) (pending_items s) (items_in_flight s)
    (crypt_items s) (dispose_has_run s) (f (idle_sources s)) (trace s).
Definition set_disposed (s : GabbleRequestPipeline) :=
  mkPipeline (items s) (next_id s) (pending_items s) (items_in_flight s)
    (crypt_items s) true (idle_sources s) (trace s).
Definition log (e : event) (s : GabbleRequestPipeline) :=
  mkPipeline (items s) (next_id s) (pending_items s) (items_in_flight s)
    (crypt_items s) (dispose_has_run s) (idle_sources s) (trace s ++ [e]).
Definition alloc (it : GabbleRequestPipelineItem) (s : GabbleRequestPipeline) :=
  mkPipeline (<[next_id s := it]> (items s)) (S (next_id s)) (pending_items s)
    (items_in_flight s) (crypt_items s) (dispose_has_run s) (idle_sources s) (trace s).

Definition it_set_timer (b : bool) it : GabbleRequestPipelineItem :=
  mkItem (message it) b (timeout it) (in_flight it) (zombie it) (callback it).
Definition it_set_in_flight it : GabbleRequestPipelineItem :=
  mkItem (message it) true (timeout it) true (zombie it) (callback it).
Definition it_set_zombie it : GabbleRequestPipelineItem :=
  mkItem (message it) (timer_id it) (timeout it) (in_flight it) true (callback it).

(** Dereferencing an item: it must not have been freed. *)
Definition get_item (id : nat) : MP GabbleRequestPipelineItem :=
  s ← get;
  match items s !! id with
  | Some it => mret it
  | None => fail MemoryFault
  end.

Definition put_item (id : nat) (it : GabbleRequestPipelineItem) : MP unit :=
  modify (set_items (insert id it)).

(** ** Operations *)

(** [gabble_idle_add_weak (delayed_run_pipeline, pipeline)]. *)
Definition gabble_idle_add_weak : MP unit := modify (set_idle S).

Definition gabble_request_pipeline_enqueue (msg : WockyNode) (tmout : Z)
    (cb : Callback) : MP nat :=
  s ← get;
  let id := next_id s in
  let tmout := if tmout =? 0 then DEFAULT_REQUEST_TIMEOUT else tmout in
  modify (alloc (mkItem msg false tmout false false cb)) ;;
  modify (set_pending (λ l, l ++ [id])) ;;
  when (bool_decide (length (items_in_flight s) < REQUEST_PIPELINE_SIZE)%nat)
    gabble_idle_add_weak ;;
  mret id.

Definition enqueue_one (r : WockyNode * Z * Callback) : MP unit :=
  let '(msg, tmout, cb) := r in
  gabble_request_pipeline_enqueue msg tmout cb ;; mret tt.

(** Calling an item's callback. *)
Definition call (id : nat) (cb : Callback) (r : reason) : MP unit :=
  modify (log (Called id r)) ;;
  let '(mkCallback l) := cb in for_each l enqueue_one.

Definition delete_item (id : nat) : MP unit :=
  it ← get_item id;
  modify (if zombie it then set_crypt (g_slist_remove id)
          else if in_flight it then set_in_flight (g_slist_remove id)
          else set_pending (g_slist_remove id)) ;;
  modify (set_items (delete id)).

(** The number of requests a callback brings with it, itself included. *)
Fixpoint callback_size (c : Callback) : nat :=
  let '(mkCallback l) := c in
  S ((fix go (l : list (WockyNode * Z * Callback)) : nat :=
        match l with
        | [] => 0%nat
        | (_, c') :: l' => (callback_size c' + go l')%nat
        end) l).

Definition size_of (s : GabbleRequestPipeline) (id : nat) : nat :=
  match items s !! id with
  | Some it => callback_size (callback it)
  | None => 0
  end.

(** The number of requests that are or will ever be queued: the fuel. *)
Definition backlog (s : GabbleRequestPipeline) (l : list nat) : nat :=
  sum_list (size_of s <$> l).

Section sending.
Context (send_ok : nat → bool).

Definition is_sent (e : event) : bool :=
  match e with Sent _ _ => true | Called _ _ => false end.

Definition sends_so_far (s : GabbleRequestPipeline) : nat :=
  length (List.filter is_sent (trace s)).

Definition _gabble_connection_send_with_reply (id : nat) : MP bool :=
  s ← get;
  let ok := send_ok (sends_so_far s) in
  modify (log (Sent id ok)) ;;
  mret ok.

Fixpoint send_next_request (fuel : nat) : MP unit :=
  s ← get;
  match pending_items s with
  | [] => mret tt
  | id :: _ =>
      match fuel with
      | O => fail OutOfFuel
      | S fuel =>
          it ← get_item id;
          g_assert (negb (in_flight it)) ;;
          modify (set_pending (g_slist_remove id)) ;;
          ok ← _gabble_connection_send_with_reply id;
          if negb ok then
            call id (callback it) SendError ;;
            delete_item id ;;
            send_next_request fuel
          else
            modify (set_in_flight (cons id)) ;;
            it ← get_item id;
            put_item id (it_set_in_flight it)
      end
  end.

Fixpoint go_loop (fuel : nat) : MP unit :=
  s ← get;
  if (match pending_items s with [] => false | _ => true end &&
      bool_decide (length (items_in_flight s) < REQUEST_PIPELINE_SIZE)%nat)
  then match fuel with
       | O => fail OutOfFuel
       | S fuel' => send_next_request fuel ;; go_loop fuel'
       end
  else mret tt.

Definition gabble_request_pipeline_go : MP unit :=
  s ← get;
  go_loop (backlog s (pending_items s)).

Definition gabble_request_pipeline_create_zombie (id : nat) (error : reason) : MP unit :=
  it ← get_item id;
  g_assert (negb (zombie it)) ;;
  when (timer_id it) (put_item id (it_set_timer false it)) ;;
  call id (callback it) error ;;
  it ← get_item id;
  if in_flight it then
    put_item id (it_set_zombie it) ;;
    modify (set_in_flight (g_slist_remove id)) ;;
    modify (set_crypt (cons id)) ;;
    gabble_request_pipeline_go
  else delete_item id.

Definition gabble_request_pipeline_item_cancel (id : nat) : MP unit :=
  gabble_request_pipeline_create_zombie id Cancelled.

Definition timeout_cb (id : nat) : MP bool :=
  gabble_request_pipeline_create_zombie id TimedOut ;; mret false.

(** [error] is what [wocky_stanza_extract_errors] finds in the reply. *)
Definition response_cb (id : nat) (error : option string) : MP unit :=
  it ← get_item id;
  s ← get;
  if negb (bool_decide (id ∈ items_in_flight s)) then mret tt
  else
    g_assert (in_flight it) ;;
    modify (set_in_flight (g_slist_remove id)) ;;
    when (negb (zombie it)) (call id (callback it) (Reply error)) ;;
    delete_item id ;;
    gabble_request_pipeline_go.

Definition delayed_run_pipeline : MP bool :=
  gabble_request_pipeline_go ;; mret false.

(** The main loop dispatching the idle source, which is then removed. *)
Definition idle_callback : MP unit :=
  again ← delayed_run_pipeline;
  when (negb again) (modify (set_idle pred)).
End sending.

(** ** Disposal *)

Inductive queue := InFlight | Pending | Crypt.

Definition queue_of (q : queue) (s : GabbleRequestPipeline) : list nat :=
  match q with
  | InFlight => items_in_flight s
  | Pending => pending_items s
  | Crypt => crypt_items s
  end.

Fixpoint flush_loop (fuel : nat) (q : queue) : MP unit :=
  s ← get;
  match queue_of q s with
  | [] => mret tt
  | id :: _ =>
      match fuel with
      | O => fail OutOfFuel
      | S fuel =>
          it ← get_item id;
          when (negb (zombie it)) (call id (callback it) Disconnected) ;;
          delete_item id ;;
          flush_loop fuel q
      end
  end.

Definition gabble_request_pipeline_flush (q : queue) : MP unit :=
  s ← get;
  flush_loop (backlog s (queue_of q s)) q.

(** The parent class's dispose runs the weak references, which remove the
    idle sources. *)
Definition gabble_request_pipeline_dispose : MP unit :=
  s ← get;
  if dispose_has_run s then mret tt
  else
    modify set_disposed ;;
    gabble_request_pipeline_flush InFlight ;;
    gabble_request_pipeline_flush Pending ;;
    gabble_request_pipeline_flush Crypt ;;
    modify (set_idle (λ _, O)).

(** ** The invariant *)

Definition called (s : GabbleRequestPipeline) : list nat :=
  omap (λ e, match e with Called id _ => Some id | Sent _ _ => None end) (trace s).

Definition attempted (s : GabbleRequestPipeline) : list nat :=
  omap (λ e, match e with Sent id _ => Some id | Called _ _ => None end) (trace s).

Definition queued (s : GabbleRequestPipeline) : list nat :=
  pending_items s ++ items_in_flight s ++ crypt_items s.

(** The flags of an item say which list it is on. *)
Definition placed (s : GabbleRequestPipeline) (id : nat) it : Prop :=
  (id ∈ pending_items s → in_flight it = false ∧ zombie it = false) ∧
  (id ∈ items_in_flight s → in_flight it = true ∧ zombie it = false) ∧
  (id ∈ crypt_items s → in_flight it = true ∧ zombie it = true).

(** [X] are the items a handler is in the middle of moving or freeing. *)
Record inv (X : gset nat) (s : GabbleRequestPipeline) : Prop := {
  i_nodup : NoDup (queued s);
  i_alive : ∀ id, is_Some (items s !! id) ↔ id ∈ X ∨ id ∈ queued s;
  i_placed : ∀ id it, items s !! id = Some it → id ∉ X → placed s id it;
  i_timer : ∀ id it, items s !! id = Some it → id ∉ X →
    (timer_id it = true ↔ id ∈ items_in_flight s);
  i_fresh : ∀ id, is_Some (items s !! id) → (id < next_id s)%nat;
  i_log_fresh : ∀ id, id ∈ called s ∨ id ∈ attempted s → (id < next_id s)%nat;
  i_called_nodup : NoDup (called s);
  i_called : ∀ id, id ∉ X → (id < next_id s)%nat →
    (id ∈ called s ↔ id ∉ pending_items s ∧ id ∉ items_in_flight s);
  i_fifo : StronglySorted lt (attempted s ++ pending_items s);
  i_size : (length (items_in_flight s) ≤ REQUEST_PIPELINE_SIZE)%nat;
}.

(** Work is never forgotten: if something is pending, the pipeline is full
    (a reply, a timeout or a cancellation will restart it) or a run is
    scheduled. *)
Definition scheduled (s : GabbleRequestPipeline) : Prop :=
  pending_items s ≠ [] →
  length (items_in_flight s) = REQUEST_PIPELINE_SIZE ∨ (0 < idle_sources s)%nat.

(** What callbacks do to a pipeline: append new requests. *)
Record grown (s s' : GabbleRequestPipeline) (added : nat) : Prop := {
  g_items : ∀ id, (id < next_id s)%nat → items s' !! id = items s !! id;
  g_pending : ∃ new, pending_items s' = pending_items s ++ new ∧
    (∀ id, id ∈ new → (next_id s ≤ id)%nat) ∧ backlog s' new = added;
  g_in_flight : items_in_flight s' = items_in_flight s;
  g_crypt : crypt_items s' = crypt_items s;
  g_disposed : dispose_has_run s' = dispose_has_run s;
  g_next : (next_id s ≤ next_id s')%nat;
  g_scheduled : scheduled s → scheduled s';
}.

Lemma callback_size_eq l :
  callback_size (mkCallback l) = S (sum_list ((callback_size ∘ snd) <$> l)).
Proof.
  cbn. f_equal. induction l as [|[[m t] c] l IH]; [done|]. cbn. by rewrite IH.
Qed.

Lemma callback_size_pos c : (0 < callback_size c)%nat.
Proof. destruct c as [l]. rewrite callback_size_eq. lia. Qed.

Lemma backlog_app s l1 l2 : backlog s (l1 ++ l2) = (backlog s l1 + backlog s l2)%nat.
Proof. unfold backlog. by rewrite fmap_app, sum_list_with_app. Qed.

Lemma backlog_cons s id l : backlog s (id :: l) = (size_of s id + backlog s l)%nat.
Proof. done. Qed.

Lemma backlog_ext s s' l :
  (∀ id, id ∈ l → items s' !! id = items s !! id) → backlog s' l = backlog s l.
Proof.
  intros H. unfold backlog. f_equal. apply list_fmap_ext. intros i id Hi.
  unfold size_of. rewrite H; [done|]. by eapply list_elem_of_lookup_2.
Qed.

Lemma inv_pending_fresh X s id : inv X s → id ∈ queued s → (id < next_id s)%nat.
Proof. intros Hi Hid. apply (i_fresh _ _ Hi), (i_alive _ _ Hi). by right. Qed.

Lemma StronglySorted_snoc (l : list nat) x :
  StronglySorted lt l → (∀ y, y ∈ l → (y < x)%nat) → StronglySorted lt (l ++ [x]).
Proof.
  intros Hl Hx. apply StronglySorted_app_2; [|done|repeat constructor].
  intros y z Hy ->%list_elem_of_singleton. auto.
Qed.

Lemma grown_refl s : grown s s 0.
Proof.
  split; try done. exists []. split_and!; [by rewrite app_nil_r| |done].
  intros id Hid. by apply not_elem_of_nil in Hid.
Qed.

Lemma grown_trans s1 s2 s3 a b :
  grown s1 s2 a → grown s2 s3 b →
  (∀ id, id ∈ pending_items s2 → (id < next_id s2)%nat) → grown s1 s3 (a + b).
Proof.
  intros G1 G2 Hf. destruct (g_pending _ _ _ G1) as (n1 & Hp1 & Hn1 & Hb1).
  destruct (g_pending _ _ _ G2) as (n2 & Hp2 & Hn2 & Hb2).
  pose proof (g_next _ _ _ G1) as Hx1. pose proof (g_next _ _ _ G2) as Hx2.
  split.
  - intros id Hid. rewrite (g_items _ _ _ G2) by lia. by apply (g_items _ _ _ G1).
  - exists (n1 ++ n2). split_and!.
    + by rewrite Hp2, Hp1, app_assoc.
    + intros id [Hid|Hid]%elem_of_app; [by apply Hn1|]. apply Hn2 in Hid. lia.
    + rewrite backlog_app. f_equal; [|done]. rewrite <- Hb1. apply backlog_ext.
      intros id Hid. apply (g_items _ _ _ G2), Hf. rewrite Hp1. set_solver.
  - rewrite (g_in_flight _ _ _ G2). apply (g_in_flight _ _ _ G1).
  - rewrite (g_crypt _ _ _ G2). apply (g_crypt _ _ _ G1).
  - rewrite (g_disposed _ _ _ G2). apply (g_disposed _ _ _ G1).
  - lia.
  - intros Hs. by apply (g_scheduled _ _ _ G2), (g_scheduled _ _ _ G1).
Qed.

Lemma elem_of_queued s id :
  id ∈ queued s ↔ id ∈ pending_items s ∨ id ∈ items_in_flight s ∨ id ∈ crypt_items s.
Proof. unfold queued. by rewrite !elem_of_app. Qed.

(** A new pending item. *)
Lemma inv_push X s s' it :
  inv X s →
  items s' = <[next_id s := it]> (items s) → next_id s' = S (next_id s) →
  pending_items s' = pending_items s ++ [next_id s] →
  items_in_flight s' = items_in_flight s → crypt_items s' = crypt_items s →
  trace s' = trace s →
  in_flight it = false → zombie it = false → timer_id it = false →
  inv X s'.
Proof.
  intros Hi Hit Hnx Hp Hf Hc Ht Hfl Hz Htm.
  assert (next_id s ∉ queued s) as Hnq.
  { intros Hq. apply (inv_pending_fresh X) in Hq; [lia|done]. }
  assert (∀ id, id ∈ queued s' ↔ id = next_id s ∨ id ∈ queued s) as Hqe.
  { intros id. rewrite !elem_of_queued, Hp, Hf, Hc, elem_of_app, list_elem_of_singleton. tauto. }
  assert (∀ id, is_Some (items s !! id) → id ≠ next_id s) as Hold.
  { intros id Hid ->. apply (i_fresh _ _ Hi) in Hid. lia. }
  rewrite elem_of_queued in Hnq.
  assert (called s' = called s ∧ attempted s' = attempted s) as [Hca Hat]
    by (unfold called, attempted; by rewrite Ht).
  split.
  - unfold queued. rewrite Hp, Hf, Hc.
    rewrite <- (assoc_L (++)). cbn. rewrite <- Permutation_middle. apply NoDup_cons.
    split; [rewrite !elem_of_app; tauto|apply (i_nodup _ _ Hi)].
  - intros id. rewrite Hit, lookup_insert_is_Some, (i_alive _ _ Hi), Hqe.
    destruct (decide (next_id s = id)) as [<-|]; intuition congruence.
  - intros id it' Hl HX. rewrite Hit in Hl. unfold placed. rewrite Hp, Hf, Hc.
    apply lookup_insert_Some in Hl as [[<- <-]|[Hne Hl]].
    + tauto.
    + destruct (i_placed _ _ Hi id it' Hl HX) as (?&?&?).
      rewrite elem_of_app, list_elem_of_singleton. intuition congruence.
  - intros id it' Hl HX. rewrite Hit in Hl. rewrite Hf.
    apply lookup_insert_Some in Hl as [[<- <-]|[Hne Hl]].
    + rewrite Htm. intuition congruence.
    + by apply (i_timer _ _ Hi).
  - intros id. rewrite Hit, lookup_insert_is_Some, Hnx. intros [<-|[_ H]]; [lia|].
    apply (i_fresh _ _ Hi) in H. lia.
  - intros id. rewrite Hca, Hat, Hnx. intros H. apply (i_log_fresh _ _ Hi) in H. lia.
  - rewrite Hca. apply (i_called_nodup _ _ Hi).
  - intros id HX Hlt. rewrite Hca, Hp, Hf, elem_of_app, list_elem_of_singleton.
    destruct (decide (id = next_id s)) as [->|Hne].
    + split; [|tauto]. intros H. pose proof (i_log_fresh _ _ Hi (next_id s) (or_introl H)). lia.
    + rewrite (i_called _ _ Hi id HX) by lia. tauto.
  - rewrite Hat, Hp, (assoc_L (++)). apply StronglySorted_snoc; [apply (i_fifo _ _ Hi)|].
    intros y [Hy|Hy]%elem_of_app.
    + apply (i_log_fresh _ _ Hi). by right.
    + apply (inv_pending_fresh X); [done|]. rewrite elem_of_queued. tauto.
  - rewrite Hf. apply (i_size _ _ Hi).
Qed.

Lemma enqueue_spec X s m t c :
  inv X s →
  wp (gabble_request_pipeline_enqueue m t c)
    (λ id s', id = next_id s ∧ inv X s' ∧ grown s s' (callback_size c) ∧ trace s' = trace s) s.
Proof.
  intros Hi. unfold gabble_request_pipeline_enqueue.
  apply wp_bind, wp_get, wp_bind, wp_modify, wp_bind, wp_modify, wp_bind.
  assert (∀ s', items s' = <[next_id s := mkItem m false
        (if t =? 0 then DEFAULT_REQUEST_TIMEOUT else t) false false c]> (items s) →
      next_id s' = S (next_id s) → pending_items s' = pending_items s ++ [next_id s] →
      items_in_flight s' = items_in_flight s → crypt_items s' = crypt_items s →
      dispose_has_run s' = dispose_has_run s → trace s' = trace s → scheduled s' →
      next_id s = next_id s ∧ inv X s' ∧ grown s s' (callback_size c) ∧ trace s' = trace s) as Hend.
  { intros s' Hit Hnx Hp Hf Hc Hd Ht Hs.
    split_and!; [done|by eapply inv_push|split; try done|done].
    - intros id Hid. rewrite Hit. apply lookup_insert_ne. lia.
    - exists [next_id s]. split_and!; [done|set_solver|].
      rewrite backlog_cons. unfold size_of. rewrite Hit, lookup_insert_eq. cbn. lia.
    - lia. }
  pose proof (i_size _ _ Hi) as Hsz.
  apply wp_when; rewrite ?bool_decide_eq_true, ?bool_decide_eq_false; intros Hb.
  - apply wp_modify, wp_ret, Hend; try done. intros _. right. cbn. lia.
  - apply wp_ret, Hend; try done. intros _. left. cbn. lia.
Qed.

Lemma enqueues_spec X l s :
  inv X s →
  wp (for_each l enqueue_one)
    (λ _ s', inv X s' ∧ grown s s' (sum_list ((callback_size ∘ snd) <$> l)) ∧
       trace s' = trace s) s.
Proof.
  revert s. induction l as [|[[m t] c] l IH]; intros s Hi.
  - apply wp_ret. split_and!; [done|apply grown_refl|done].
  - cbn [for_each enqueue_one]. apply wp_bind, wp_bind.
    eapply wp_mono; [|by apply enqueue_spec]. intros id s1 (_ & Hi1 & Hg1 & Ht1).
    apply wp_ret. eapply wp_mono; [|by apply IH]. intros [] s2 (Hi2 & Hg2 & Ht2).
    split_and!; [done| |congruence]. eapply grown_trans; [done..|].
    intros id' Hid. apply (inv_pending_fresh X); [done|]. apply elem_of_queued. tauto.
Qed.

Lemma inv_log_called X s id r :
  inv X s → id ∈ X → id ∉ called s → inv X (log (Called id r) s).
Proof.
  intros Hi HX Hn.
  assert (called (log (Called id r) s) = called s ++ [id]) as Hca
    by (unfold called; cbn; by rewrite omap_app).
  assert (attempted (log (Called id r) s) = attempted s) as Hat
    by (unfold attempted; cbn; by rewrite omap_app, app_nil_r).
  destruct Hi as [Hnd Hal Hpl Htm Hfr Hlf Hcn Hcc Hff Hsz].
  split; try done; rewrite ?Hca, ?Hat; try done.
  - intros id'. rewrite elem_of_app, list_elem_of_singleton. cbn.
    intros [[H| ->]|H]; [auto| |auto]. apply Hfr, Hal. by left.
  - apply NoDup_app. split_and!; [done| |apply NoDup_singleton].
    intros x Hx ->%list_elem_of_singleton. done.
  - intros id' HX' Hlt. rewrite elem_of_app, list_elem_of_singleton. rewrite <- Hcc by done.
    split; [|tauto]. intros [?| ->]; done.
Qed.

Lemma call_spec X s id cb r :
  inv X s → id ∈ X → id ∉ called s →
  wp (call id cb r)
    (λ _ s', inv X s' ∧ grown s s' (pred (callback_size cb)) ∧
       trace s' = trace s ++ [Called id r]) s.
Proof.
  intros Hi HX Hn. unfold call. destruct cb as [l]. rewrite callback_size_eq.
  apply wp_bind, wp_modify. eapply wp_mono; [|apply enqueues_spec, inv_log_called, Hn; done].
  intros [] s' (Hi' & Hg & Ht). split_and!; [done| |done]. by destruct Hg.
Qed.

(** ** Items in limbo *)

Lemma elem_of_remove_iff (x y : nat) l :
  NoDup l → y ∈ g_slist_remove x l ↔ y ∈ l ∧ y ≠ x.
Proof.
  intros Hnd. destruct (decide (x ∈ l)) as [Hx|Hx].
  - rewrite (g_slist_remove_perm x l Hx) at 2.
    pose proof (g_slist_remove_NoDup x l Hnd) as [_ Hn]. set_solver.
  - rewrite g_slist_remove_not_in by done. set_solver.
Qed.

Lemma length_remove_le (x : nat) l : (length (g_slist_remove x l) ≤ length l)%nat.
Proof.
  destruct (decide (x ∈ l)) as [Hx|Hx].
  - apply length_g_slist_remove in Hx. lia.
  - by rewrite g_slist_remove_not_in.
Qed.

Lemma queued_nodups s :
  NoDup (queued s) →
  NoDup (pending_items s) ∧ NoDup (items_in_flight s) ∧ NoDup (crypt_items s) ∧
  (∀ id, id ∈ pending_items s → id ∉ items_in_flight s ∧ id ∉ crypt_items s) ∧
  (∀ id, id ∈ items_in_flight s → id ∉ crypt_items s).
Proof. unfold queued. rewrite !NoDup_app. set_solver. Qed.

Lemma inv_weaken s id : inv ∅ s → is_Some (items s !! id) → inv {[id]} s.
Proof.
  intros [Hnd Hal Hpl Htm Hfr Hlf Hcn Hcc Hff Hsz] Hid. split; try done.
  - intros j. rewrite Hal. set_unfold. split; [tauto|]. intros [->|?]; [|tauto].
    apply Hal in Hid. set_solver.
  - intros j it Hj _. apply Hpl; set_solver.
  - intros j it Hj _. apply Htm; set_solver.
  - intros j _. apply Hcc. set_solver.
Qed.

Lemma inv_put s id it : inv {[id]} s → inv {[id]} (set_items (insert id it) s).
Proof.
  intros [Hnd Hal Hpl Htm Hfr Hlf Hcn Hcc Hff Hsz].
  assert (is_Some (items s !! id)) as Hid by (apply Hal; set_solver).
  split; try done; cbn.
  - intros j. rewrite lookup_insert_is_Some, Hal. unfold queued. cbn. set_unfold.
    destruct (decide (id = j)); naive_solver.
  - intros j it' Hj HX. rewrite lookup_insert_ne in Hj by set_solver. by apply Hpl.
  - intros j it' Hj HX. rewrite lookup_insert_ne in Hj by set_solver. by apply Htm.
  - intros j. rewrite lookup_insert_is_Some. intros [<-|[_ Hj]]; auto.
Qed.

(** The item taken off whatever list it was on. *)
Definition unlisted (id : nat) (s : GabbleRequestPipeline) : GabbleRequestPipeline :=
  set_pending (g_slist_remove id) (set_in_flight (g_slist_remove id)
    (set_crypt (g_slist_remove id) s)).

Definition without (id : nat) (s : GabbleRequestPipeline) : GabbleRequestPipeline :=
  set_items (delete id) (unlisted id s).

Lemma elem_of_unlisted s id j :
  NoDup (queued s) →
  (j ∈ pending_items (unlisted id s) ↔ j ∈ pending_items s ∧ j ≠ id) ∧
  (j ∈ items_in_flight (unlisted id s) ↔ j ∈ items_in_flight s ∧ j ≠ id) ∧
  (j ∈ crypt_items (unlisted id s) ↔ j ∈ crypt_items s ∧ j ≠ id).
Proof.
  intros Hnd. apply queued_nodups in Hnd as (?&?&?&_). cbn.
  by rewrite !elem_of_remove_iff.
Qed.

Lemma unlisted_nodup s id : NoDup (queued s) → NoDup (queued (unlisted id s)).
Proof.
  intros Hnd. pose proof (λ j, elem_of_unlisted s id j Hnd) as He.
  apply queued_nodups in Hnd as (Hp & Hf & Hc & H1 & H2).
  unfold queued. rewrite !NoDup_app. cbn in *. split_and!.
  - by apply g_slist_remove_NoDup.
  - intros j Hj. rewrite elem_of_app. apply He in Hj. destruct (He j) as (?&?&?).
    destruct (H1 j); tauto.
  - by apply g_slist_remove_NoDup.
  - intros j Hj. apply He in Hj. destruct (He j) as (?&?&?). specialize (H2 j). tauto.
  - by apply g_slist_remove_NoDup.
Qed.

Lemma StronglySorted_remove (l1 l2 : list nat) x :
  StronglySorted lt (l1 ++ l2) → StronglySorted lt (l1 ++ g_slist_remove x l2).
Proof.
  rewrite !StronglySorted_app. intros (H & H1 & H2). split_and!; [|done|].
  - intros a b Ha Hb. apply H; [done|]. by eapply elem_of_g_slist_remove.
  - clear H H1. induction l2 as [|y l2 IH]; cbn; [done|].
    apply StronglySorted_cons in H2 as [Hf Hs]. case_decide; [done|].
    apply StronglySorted_cons. split; [|auto].
    rewrite Forall_forall in Hf |- *. intros z Hz. apply Hf. by eapply elem_of_g_slist_remove.
Qed.

Lemma inv_unlist s id : inv {[id]} s → inv {[id]} (unlisted id s).
Proof.
  intros [Hnd Hal Hpl Htm Hfr Hlf Hcn Hcc Hff Hsz].
  pose proof (λ j, elem_of_unlisted s id j Hnd) as He.
  split; try done.
  - by apply unlisted_nodup.
  - intros j. change (items (unlisted id s)) with (items s).
    rewrite Hal, !elem_of_queued, elem_of_singleton.
    destruct (He j) as (->&->&->). destruct (decide (j = id)); tauto.
  - intros j it Hj HX. destruct (Hpl j it Hj HX) as (P1&P2&P3).
    destruct (He j) as (H1&H2&H3). unfold placed. rewrite H1, H2, H3. tauto.
  - intros j it Hj HX. rewrite (Htm j it Hj HX). destruct (He j) as (_&->&_). set_solver.
  - intros j HX Hlt. change (called (unlisted id s)) with (called s).
    rewrite (Hcc j HX Hlt). destruct (He j) as (->&->&_). set_solver.
  - by apply StronglySorted_remove.
  - cbn. pose proof (length_remove_le id (items_in_flight s)). lia.
Qed.

Lemma inv_free s id :
  inv {[id]} s → id ∉ queued s → id ∈ called s → inv ∅ (set_items (delete id) s).
Proof.
  intros [Hnd Hal Hpl Htm Hfr Hlf Hcn Hcc Hff Hsz] Hq Hc. split; try done; cbn.
  - intros j. rewrite lookup_delete_is_Some, Hal, elem_of_singleton, elem_of_empty.
    change (queued (set_items (delete id) s)) with (queued s).
    split; [naive_solver|]. intros [[]|Hj]. split; [|tauto]. intros <-. done.
  - intros j it [Hne Hj]%lookup_delete_Some _. apply Hpl; [done|set_solver].
  - intros j it [Hne Hj]%lookup_delete_Some _. apply Htm; [done|set_solver].
  - intros j [_ Hj]%lookup_delete_is_Some. auto.
  - intros j _ Hlt. destruct (decide (j = id)) as [->|Hne]; [|apply Hcc; set_solver].
    rewrite elem_of_queued in Hq. unfold called in *. cbn. tauto.
Qed.

Lemma inv_launch s id it :
  inv {[id]} s → id ∉ queued s → id ∉ called s → items s !! id = Some it →
  in_flight it = true → zombie it = false → timer_id it = true →
  (length (items_in_flight s) < REQUEST_PIPELINE_SIZE)%nat →
  inv ∅ (set_in_flight (cons id) s).
Proof.
  intros [Hnd Hal Hpl Htm Hfr Hlf Hcn Hcc Hff Hsz] Hq Hc Hit Hf Hz Ht Hlen.
  assert (∀ j, j ∈ queued (set_in_flight (cons id) s) ↔ j = id ∨ j ∈ queued s) as Hqe.
  { intros j. rewrite !elem_of_queued. cbn. set_solver. }
  split; try done.
  - unfold queued. cbn. rewrite <- Permutation_middle. by apply NoDup_cons.
  - intros j. cbn. rewrite Hal, Hqe. set_solver.
  - intros j it' Hj _. cbn in Hj. unfold placed. cbn. rewrite elem_of_queued in Hq.
    destruct (decide (j = id)) as [->|Hne].
    + simplify_eq. set_solver.
    + destruct (Hpl j it' Hj) as (?&?&?); [set_solver|]. set_solver.
  - intros j it' Hj _. cbn in *. destruct (decide (j = id)) as [->|Hne].
    + simplify_eq. set_solver.
    + rewrite (Htm j it' Hj) by set_solver. set_solver.
  - intros j _ Hlt. cbn in *. destruct (decide (j = id)) as [->|Hne].
    + split; [done|]. set_solver.
    + change (called (set_in_flight (cons id) s)) with (called s).
      rewrite (Hcc j) by set_solver. set_solver.
Qed.

Lemma inv_bury s id it :
  inv {[id]} s → id ∉ queued s → id ∈ called s → items s !! id = Some it →
  in_flight it = true → zombie it = true → timer_id it = false →
  inv ∅ (set_crypt (cons id) s).
Proof.
  intros [Hnd Hal Hpl Htm Hfr Hlf Hcn Hcc Hff Hsz] Hq Hc Hit Hf Hz Ht.
  rewrite elem_of_queued in Hq.
  split; try done.
  - unfold queued. cbn. rewrite (assoc_L (++)), <- Permutation_middle, <- (assoc_L (++)).
    apply NoDup_cons. split; [by rewrite !elem_of_app|done].
  - intros j. cbn. rewrite Hal, !elem_of_queued. cbn. set_solver.
  - intros j it' Hj _. cbn in Hj. unfold placed. cbn.
    destruct (decide (j = id)) as [->|Hne].
    + simplify_eq. split_and!; tauto.
    + destruct (Hpl j it' Hj) as (?&?&?); [set_solver|].
      rewrite elem_of_cons. split_and!; tauto.
  - intros j it' Hj _. cbn in *. destruct (decide (j = id)) as [->|Hne].
    + simplify_eq. rewrite Ht. naive_solver.
    + apply (Htm j it' Hj); set_solver.
  - intros j _ Hlt. cbn in *. destruct (decide (j = id)) as [->|Hne]; [|apply Hcc; set_solver].
    unfold called in *. cbn. tauto.
Qed.

(** ** The handlers *)

Lemma get_item_spec s id it (Q : GabbleRequestPipelineItem → GabbleRequestPipeline → Prop) :
  items s !! id = Some it → Q it s → wp (get_item id) Q s.
Proof. intros Hit HQ. unfold wp, get_item, mbind, M_bind. cbn. by rewrite Hit. Qed.

(** Taking an item off the list its flags name takes it off all lists. *)
Lemma unlist_by_flags s id it :
  NoDup (queued s) → placed s id it →
  (if zombie it then set_crypt (g_slist_remove id)
   else if in_flight it then set_in_flight (g_slist_remove id)
   else set_pending (g_slist_remove id)) s = unlisted id s.
Proof.
  intros Hnd (Hp & Hf & Hc). destruct s as [its nx pe fl cr di idl tr].
  unfold unlisted, set_pending, set_in_flight, set_crypt in *. cbn in *.
  destruct (decide (id ∈ pe)), (decide (id ∈ fl)), (decide (id ∈ cr)); 
    destruct (zombie it), (in_flight it); cbn;
    repeat match goal with
    | H : ?P → _, H' : ?P |- _ => specialize (H H') as [??]
    end; try congruence;
    rewrite ?(g_slist_remove_not_in id pe), ?(g_slist_remove_not_in id fl),
      ?(g_slist_remove_not_in id cr) by done; done.
Qed.

Lemma not_queued_unlisted s id : NoDup (queued s) → id ∉ queued (unlisted id s).
Proof.
  intros Hnd. rewrite elem_of_queued.
  destruct (elem_of_unlisted s id id Hnd) as (?&?&?). tauto.
Qed.

Lemma scheduled_without s id :
  id ∉ items_in_flight s → scheduled s → scheduled (without id s).
Proof.
  intros Hf Hs Hne. cbn in *. rewrite (g_slist_remove_not_in _ _ Hf). apply Hs.
  intros Hp. by rewrite Hp in Hne.
Qed.

Lemma delete_item_spec s id it :
  inv {[id]} s → items s !! id = Some it → placed s id it → id ∈ called s →
  wp (delete_item id) (λ _ s', inv ∅ s' ∧ s' = without id s) s.
Proof.
  intros Hi Hit Hpl Hca. unfold delete_item.
  apply wp_bind. eapply get_item_spec; [done|]. apply wp_bind, wp_modify, wp_modify.
  rewrite (unlist_by_flags s id it (i_nodup _ _ Hi) Hpl).
  split; [|done]. apply inv_free; [by apply inv_unlist| |done].
  apply not_queued_unlisted, (i_nodup _ _ Hi).
Qed.

Lemma called_snoc s s' id r :
  trace s' = trace s ++ [Called id r] → called s' = called s ++ [id].
Proof. unfold called. intros ->. by rewrite omap_app. Qed.

Lemma grown_placed s s' n id it :
  grown s s' n → (id < next_id s)%nat → placed s id it → placed s' id it.
Proof.
  intros Hg Hlt. destruct (g_pending _ _ _ Hg) as (new & Hp & Hn & _). unfold placed.
  rewrite Hp, (g_in_flight _ _ _ Hg), (g_crypt _ _ _ Hg), elem_of_app.
  intros (H1 & H2 & H3). split_and!; [|done..]. intros [H|H]; [auto|]. apply Hn in H. lia.
Qed.

(** Reporting to an item's client, then freeing the item. *)
Lemma call_delete_spec s id it r :
  inv {[id]} s → items s !! id = Some it → placed s id it → id ∉ called s →
  wp (call id (callback it) r ;; delete_item id)
    (λ _ s', ∃ s1, inv ∅ s' ∧ s' = without id s1 ∧ inv {[id]} s1 ∧
       grown s s1 (pred (callback_size (callback it))) ∧
       trace s1 = trace s ++ [Called id r]) s.
Proof.
  intros Hi Hit Hpl Hn. apply wp_bind.
  assert (id < next_id s)%nat as Hlt by (apply (i_fresh _ _ Hi); by rewrite Hit).
  eapply wp_mono; [|apply call_spec; [done|set_solver|done]].
  intros [] s1 (Hi1 & Hg & Ht). eapply wp_mono; [|apply (delete_item_spec s1 id it)].
  - intros [] s2 [Hi2 ->]. exists s1. done.
  - done.
  - by rewrite (g_items _ _ _ Hg).
  - by eapply grown_placed.
  - rewrite (called_snoc _ _ _ _ Ht). set_solver.
Qed.

Lemma inv_sent s id rest ok :
  inv ∅ s → pending_items s = id :: rest →
  inv {[id]} (log (Sent id ok) (set_pending (g_slist_remove id) s)) ∧
  g_slist_remove id (id :: rest) = rest ∧ id ∉ rest.
Proof.
  intros Hi Hp.
  pose proof (queued_nodups s (i_nodup _ _ Hi)) as (Hndp & _ & _ & Hd1 & _).
  rewrite Hp in Hndp. apply NoDup_cons in Hndp as [Hnr _].
  assert (g_slist_remove id (id :: rest) = rest) as Hrm by (cbn; by rewrite decide_True).
  split_and!; [|done..].
  assert (id ∈ pending_items s) as Hin by (rewrite Hp; set_solver).
  destruct (Hd1 id Hin) as [Hnf Hnc].
  assert (inv {[id]} (unlisted id s)) as Hu.
  { apply inv_unlist, inv_weaken; [done|]. apply (i_alive _ _ Hi). right.
    rewrite elem_of_queued. tauto. }
  assert (unlisted id s = set_pending (g_slist_remove id) s) as Heq.
  { unfold unlisted, set_in_flight, set_crypt. cbn.
    rewrite !(g_slist_remove_not_in id (items_in_flight s)),
      !(g_slist_remove_not_in id (crypt_items s)) by done. by destruct s. }
  rewrite Heq in Hu. revert Hu. set (s1 := set_pending _ s). intros Hu.
  assert (called (log (Sent id ok) s1) = called s) as Hca
    by (unfold called; cbn; by rewrite omap_app, app_nil_r).
  assert (attempted (log (Sent id ok) s1) = attempted s ++ [id]) as Hat
    by (unfold attempted; cbn; by rewrite omap_app).
  destruct Hu as [Hnd Hal Hpl Htm Hfr Hlf Hcn Hcc Hff Hsz].
  split; try done; rewrite ?Hca, ?Hat; try done.
  - intros j [Hj|Hj]; [apply Hlf; by left|].
    apply elem_of_app in Hj as [Hj| ->%list_elem_of_singleton]; [apply Hlf; by right|].
    apply Hfr, Hal. set_solver.
  - cbn. rewrite Hp, Hrm, <- (assoc_L (++)). cbn. rewrite <- Hp. apply (i_fifo _ _ Hi).
Qed.

Lemma backlog_without s id l : id ∉ l → backlog (without id s) l = backlog s l.
Proof.
  intros Hid. apply backlog_ext. intros j Hj. cbn. apply lookup_delete_ne. set_solver.
Qed.

Lemma live_not_called s id it :
  inv ∅ s → items s !! id = Some it → zombie it = false →
  id ∉ called s ∧ placed s id it ∧ id ∉ crypt_items s.
Proof.
  intros Hi Hit Hz.
  assert (placed s id it) as Hpl by (apply (i_placed _ _ Hi); set_solver).
  assert (id ∉ crypt_items s) as Hc.
  { intros H. apply Hpl in H as [_ H]. congruence. }
  split_and!; [|done..].
  assert (id ∈ queued s) as Hq.
  { destruct (proj1 (i_alive _ _ Hi id) (mk_is_Some _ _ Hit)); [set_solver|done]. }
  rewrite (i_called _ _ Hi) by (set_solver || by eapply inv_pending_fresh).
  apply elem_of_queued in Hq. tauto.
Qed.

(** Nothing left to send, or no room. *)
Definition settled (s : GabbleRequestPipeline) : Prop :=
  pending_items s = [] ∨ length (items_in_flight s) = REQUEST_PIPELINE_SIZE.

Lemma settled_scheduled s : settled s → scheduled s.
Proof. intros [?|?] ?; [done|by left]. Qed.

Section send_proofs.
Context (send_ok : nat → bool).

Lemma send_next_request_spec fuel s :
  inv ∅ s → (backlog s (pending_items s) ≤ fuel)%nat →
  (length (items_in_flight s) < REQUEST_PIPELINE_SIZE)%nat →
  wp (send_next_request send_ok fuel)
    (λ _ s', inv ∅ s' ∧ dispose_has_run s' = dispose_has_run s ∧
       (backlog s' (pending_items s') ≤ pred (backlog s (pending_items s)))%nat) s.
Proof.
  revert s. induction fuel as [|fuel IH]; intros s Hi Hfuel Hlen;
    cbn [send_next_request]; apply wp_bind, wp_get;
    destruct (pending_items s) as [|id rest] eqn:Hp;
    try (by apply wp_ret; split_and!; [..|rewrite Hp]).
  all: assert (is_Some (items s !! id)) as [it Hit]
    by (apply (i_alive _ _ Hi); right; rewrite elem_of_queued, Hp; set_solver).
  all: assert (size_of s id = callback_size (callback it)) as Hsz by (unfold size_of; by rewrite Hit).
  all: pose proof (callback_size_pos (callback it)) as Hpos.
  all: rewrite backlog_cons in Hfuel; try lia.
  assert (id < next_id s)%nat as Hlt by (apply (i_fresh _ _ Hi); by rewrite Hit).
  destruct (i_placed _ _ Hi id it Hit) as (Hpp & _ & _); [set_solver|].
  destruct Hpp as [Hfl Hz]; [rewrite Hp; set_solver|].
  assert (id ∉ called s) as Hnc.
  { rewrite (i_called _ _ Hi id) by set_solver. rewrite Hp. set_solver. }
  assert (id ∉ items_in_flight s ∧ id ∉ crypt_items s) as [Hnfl Hncr].
  { apply (queued_nodups s (i_nodup _ _ Hi)). rewrite Hp. set_solver. }
  apply wp_bind. eapply get_item_spec; [done|].
  apply wp_bind, wp_assert; [by rewrite Hfl|].
  apply wp_bind, wp_modify. apply wp_bind. unfold _gabble_connection_send_with_reply.
  apply wp_bind, wp_get, wp_bind, wp_modify, wp_ret.
  destruct (inv_sent s id rest (send_ok (sends_so_far (set_pending (g_slist_remove id) s))) Hi Hp)
    as (Hi1 & Hrm & Hnr).
  assert (pending_items (set_pending (g_slist_remove id) s) = rest) as Hp1 by (cbn; by rewrite Hp).
  revert Hi1 Hp1. set (s1 := set_pending _ s). set (ok := send_ok _). intros Hi1 Hp1.
  assert (called (log (Sent id ok) s1) = called s) as Hca
    by (unfold called; cbn; by rewrite omap_app, app_nil_r).
  destruct ok; cbn [negb].
  - apply wp_bind, wp_modify, wp_bind. eapply get_item_spec; [done|]. apply wp_modify.
    split_and!; [|done|].
    + change (inv ∅ (set_in_flight (cons id) (set_items (insert id (it_set_in_flight it))
        (log (Sent id true) s1)))).
      eapply (inv_launch _ id (it_set_in_flight it)); try done.
      * by apply inv_put.
      * rewrite elem_of_queued. cbn. rewrite Hp, Hrm. tauto.
      * change (id ∉ called (log (Sent id true) s1)). by rewrite Hca.
      * cbn. by rewrite lookup_insert_eq.
    + rewrite backlog_cons. cbn [pending_items set_items set_in_flight log].
      rewrite Hp1. erewrite (backlog_ext s _ rest); [lia|].
      intros j Hj. cbn. apply lookup_insert_ne. set_solver.
  - apply wp_assoc, wp_bind.
    eapply wp_mono; [|apply (call_delete_spec _ id it); try done].
    + intros [] s3 (s2 & Hi3 & Hs3 & Hi2 & Hg & Ht).
      destruct (g_pending _ _ _ Hg) as (new & Hp2 & Hn2 & Hb2).
      change (pending_items (log (Sent id false) s1)) with (pending_items s1) in Hp2.
      rewrite Hp1 in Hp2.
      assert (pending_items s3 = rest ++ new) as Hp3.
      { rewrite Hs3. cbn. rewrite Hp2. apply g_slist_remove_not_in.
        rewrite elem_of_app. intros [?|Hin]; [done|]. apply Hn2 in Hin. cbn in Hin. lia. }
      assert (backlog s3 (pending_items s3) < backlog s (id :: rest))%nat as Hdec.
      { rewrite Hp3, Hs3, backlog_without, backlog_app, Hb2, backlog_cons, Hsz.
        - rewrite (backlog_ext s s2 rest); [lia|]. intros j Hj.
          rewrite (g_items _ _ _ Hg); [done|]. apply (inv_pending_fresh ∅ s); [done|].
          rewrite elem_of_queued, Hp. set_solver.
        - rewrite elem_of_app. intros [?|Hin]; [done|]. apply Hn2 in Hin. cbn in Hin. lia. }
      rewrite backlog_cons in Hdec.
      assert (items_in_flight s3 = items_in_flight s) as Hf3.
      { rewrite Hs3. cbn. rewrite (g_in_flight _ _ _ Hg). by apply g_slist_remove_not_in. }
      eapply wp_mono; [|apply IH; [done|lia|by rewrite Hf3]].
      intros [] s4 (Hi4 & Hd4 & Hb4). split_and!; [done| |].
      * rewrite Hd4, Hs3. cbn. apply (g_disposed _ _ _ Hg).
      * rewrite backlog_cons. lia.
    + by rewrite Hca.
Qed.

Lemma go_loop_spec fuel s :
  inv ∅ s → (backlog s (pending_items s) ≤ fuel)%nat →
  wp (go_loop send_ok fuel)
    (λ _ s', inv ∅ s' ∧ dispose_has_run s' = dispose_has_run s ∧ settled s') s.
Proof.
  revert s. induction fuel as [|fuel IH]; intros s Hi Hfuel;
    cbn [go_loop]; apply wp_bind, wp_get; pose proof (i_size _ _ Hi) as Hsz;
    destruct (pending_items s) as [|id rest] eqn:Hp; cbn [andb];
    try (apply wp_ret; split_and!; [done..|by left]);
    case_bool_decide as Hlen; try (apply wp_ret; split_and!; [done..|right; lia]).
  - rewrite backlog_cons in Hfuel.
    assert (is_Some (items s !! id)) as [it Hit]
      by (apply (i_alive _ _ Hi); right; rewrite elem_of_queued, Hp; set_solver).
    pose proof (callback_size_pos (callback it)).
    unfold size_of in Hfuel. rewrite Hit in Hfuel. lia.
  - apply wp_bind. eapply wp_mono; [|apply send_next_request_spec; [done|by rewrite Hp|done]].
    intros [] s1 (Hi1 & Hd1 & Hb1). rewrite Hp in Hb1.
    eapply wp_mono; [|apply IH; [done|lia]]. intros [] s2 (? & ? & ?).
    split_and!; [done|congruence|done].
Qed.

Lemma go_spec s :
  inv ∅ s →
  wp (gabble_request_pipeline_go send_ok)
    (λ _ s', inv ∅ s' ∧ dispose_has_run s' = dispose_has_run s ∧ settled s') s.
Proof. intros Hi. apply wp_bind, wp_get. by apply go_loop_spec. Qed.

Lemma create_zombie_spec s id it r :
  inv ∅ s → scheduled s → items s !! id = Some it → zombie it = false →
  wp (gabble_request_pipeline_create_zombie send_ok id r)
    (λ _ s', inv ∅ s' ∧ dispose_has_run s' = dispose_has_run s ∧ scheduled s') s.
Proof.
  intros Hi Hs Hit Hz. destruct (live_not_called s id it Hi Hit Hz) as (Hnc & Hpl & Hncr).
  assert (id < next_id s)%nat as Hlt by (apply (i_fresh _ _ Hi); by rewrite Hit).
  unfold gabble_request_pipeline_create_zombie.
  apply wp_bind. eapply get_item_spec; [done|].
  apply wp_bind, wp_assert; [by rewrite Hz|]. apply wp_bind.
  set (it1 := it_set_timer false it).
  assert (∀ s1, s1 = set_items (insert id it1) s →
    wp (call id (callback it) r ;;
        it ← get_item id;
        if in_flight it then
          put_item id (it_set_zombie it) ;;
          modify (set_in_flight (g_slist_remove id)) ;;
          modify (set_crypt (cons id)) ;;
          gabble_request_pipeline_go send_ok
        else delete_item id)
      (λ _ s', inv ∅ s' ∧ dispose_has_run s' = dispose_has_run s ∧ scheduled s') s1) as Hrest.
  { intros s1 ->. apply wp_bind. eapply wp_mono; [|apply call_spec].
    2: apply inv_put, inv_weaken; [done|by rewrite Hit].
    2: set_solver.
    2: done.
    intros [] s2 (Hi2 & Hg & Ht).
    assert (items s2 !! id = Some it1) as Hit2.
    { rewrite (g_items _ _ _ Hg) by done. cbn. by rewrite lookup_insert_eq. }
    assert (placed s2 id it1) as Hpl2 by (eapply grown_placed; [done..|exact Hpl]).
    assert (id ∈ called s2) as Hca2 by (rewrite (called_snoc _ _ _ _ Ht); set_solver).
    apply wp_bind. eapply get_item_spec; [done|]. destruct (in_flight it1) eqn:Hfl.
    - apply wp_bind, wp_modify, wp_bind, wp_modify, wp_bind, wp_modify.
      eapply wp_mono; [|apply go_spec].
      + intros [] s3 (Hi3 & Hd3 & Hs3). split_and!; [done| |by apply settled_scheduled].
        rewrite Hd3. cbn. apply (g_disposed _ _ _ Hg).
      + set (s3 := set_items (insert id (it_set_zombie it1)) s2).
        pose proof (unlist_by_flags s3 id it1 (i_nodup _ _ Hi2) Hpl2) as Hu.
        replace (zombie it1) with false in Hu by done. rewrite Hfl in Hu. rewrite Hu.
        apply (inv_bury _ id (it_set_zombie it1)); try done.
        * by apply inv_unlist, inv_put.
        * apply not_queued_unlisted, (i_nodup _ _ Hi2).
        * cbn. by rewrite lookup_insert_eq.
    - eapply wp_mono; [|by apply (delete_item_spec _ id it1)].
      intros [] s3 [Hi3 ->]. split_and!; [done|apply (g_disposed _ _ _ Hg)|].
      apply scheduled_without; [|by apply (g_scheduled _ _ _ Hg)].
      intros H. apply Hpl2 in H as [H _]. congruence. }
  apply wp_when; intros Htm.
  - apply wp_modify. by apply Hrest.
  - apply Hrest. destruct s. unfold set_items. cbn in *. f_equal. symmetry. apply insert_id.
    rewrite Hit. unfold it1, it_set_timer. rewrite <- Htm. by destruct it.
Qed.

Lemma response_cb_spec s id it e :
  inv ∅ s → scheduled s → items s !! id = Some it →
  wp (response_cb send_ok id e)
    (λ _ s', inv ∅ s' ∧ dispose_has_run s' = dispose_has_run s ∧ scheduled s') s.
Proof.
  intros Hi Hs Hit. unfold response_cb. apply wp_bind. eapply get_item_spec; [done|].
  apply wp_bind, wp_get. case_bool_decide as Hfl; cbn [negb]; [|done].
  destruct (i_placed _ _ Hi id it Hit) as (Hp1 & Hp2 & Hp3); [set_solver|].
  destruct (Hp2 Hfl) as [Hf Hz]. destruct (live_not_called s id it Hi Hit Hz) as (Hnc & Hpl & _).
  apply wp_bind, wp_assert; [done|]. apply wp_bind, wp_modify.
  pose proof (unlist_by_flags s id it (i_nodup _ _ Hi) Hpl) as Hu.
  rewrite Hz, Hf in Hu. rewrite Hu, Hz. cbn [negb when].
  assert (id ∉ queued (unlisted id s)) as Hnq by apply not_queued_unlisted, (i_nodup _ _ Hi).
  apply wp_assoc, wp_bind. eapply wp_mono; [|apply (call_delete_spec _ id it)]; [| |done| |done].
  - intros [] s2 (s1 & Hi2 & -> & _ & Hg & _).
    eapply wp_mono; [|by apply go_spec]. intros [] s3 (Hi3 & Hd3 & Hs3).
    split_and!; [done| |by apply settled_scheduled].
    rewrite Hd3. cbn. apply (g_disposed _ _ _ Hg).
  - apply inv_unlist, inv_weaken; [done|by rewrite Hit].
  - rewrite elem_of_queued in Hnq. unfold placed. tauto.
Qed.

Lemma idle_callback_spec s :
  inv ∅ s →
  wp (idle_callback send_ok)
    (λ _ s', inv ∅ s' ∧ dispose_has_run s' = dispose_has_run s ∧ settled s') s.
Proof.
  intros Hi. unfold idle_callback, delayed_run_pipeline.
  apply wp_bind, wp_bind. eapply wp_mono; [|by apply go_spec].
  intros [] s' ([] & Hd & Hs). apply wp_ret. cbn. split_and!; [|done..].
  by split.
Qed.
End send_proofs.

(** ** Disposal *)

(** Emptying a list, one item at a time. *)
Lemma flush_step_spec s q id rest it :
  inv ∅ s → queue_of q s = id :: rest → items s !! id = Some it →
  wp (when (negb (zombie it)) (call id (callback it) Disconnected) ;; delete_item id)
    (λ _ s', inv ∅ s' ∧ dispose_has_run s' = dispose_has_run s ∧
       (backlog s' (queue_of q s') < backlog s (queue_of q s))%nat ∧
       (q ≠ InFlight → items_in_flight s' = items_in_flight s) ∧
       (q = Crypt → pending_items s' = pending_items s)) s.
Proof.
  intros Hi Hq Hit.
  assert (id < next_id s)%nat as Hlt by (apply (i_fresh _ _ Hi); by rewrite Hit).
  assert (placed s id it) as Hpl by (apply (i_placed _ _ Hi); set_solver).
  assert (size_of s id = callback_size (callback it)) as Hsz by (unfold size_of; by rewrite Hit).
  pose proof (callback_size_pos (callback it)) as Hpos.
  pose proof (queued_nodups s (i_nodup _ _ Hi)) as (Hndp & Hndf & Hndc & Hd1 & Hd2).
  assert (NoDup (id :: rest)) as [Hnr _]%NoDup_cons by (rewrite <- Hq; by destruct q).
  assert (id ∈ queue_of q s) as Hin by (rewrite Hq; set_solver).
  assert (∀ j, j ∈ queue_of q s → (j < next_id s)%nat) as Hltq.
  { intros j Hj. apply (inv_pending_fresh ∅); [done|]. apply elem_of_queued. destruct q; auto. }
  destruct (zombie it) eqn:Hz; cbn [negb when].
  - (* a zombie's client has been told already *)
    assert (id ∈ called s) as Hca.
    { apply (i_called _ _ Hi); [set_solver|done|]. split; intros H; apply Hpl in H as [_ H]; congruence. }
    apply wp_bind, wp_ret. eapply wp_mono; [|apply (delete_item_spec _ id it); try done].
    2: by apply inv_weaken; [|rewrite Hit].
    intros [] s' [Hi' ->].
    assert (id ∉ items_in_flight s ∧ id ∉ pending_items s) as [Hnf Hnp].
    { split; intros H; apply Hpl in H as [_ H]; congruence. }
    assert (queue_of q (without id s) = rest) as ->.
    { destruct q; cbn in *; rewrite Hq; cbn; by rewrite decide_True. }
    split_and!; [done|done| | |].
    + rewrite backlog_without, Hq, backlog_cons by done. lia.
    + intros _. cbn. by apply g_slist_remove_not_in.
    + intros _. cbn. by apply g_slist_remove_not_in.
  - destruct (live_not_called s id it Hi Hit Hz) as (Hnc & _ & Hncr).
    eapply wp_mono; [|apply (call_delete_spec _ id it); try done].
    2: by apply inv_weaken; [|rewrite Hit].
    intros [] s' (s1 & Hi' & -> & Hi1 & Hg & _).
    destruct (g_pending _ _ _ Hg) as (new & Hp & Hn & Hb).
    assert (∀ l, (∀ j, j ∈ l → (j < next_id s)%nat) → backlog s1 l = backlog s l) as Hbl.
    { intros l Hl. apply backlog_ext. intros j Hj. apply (g_items _ _ _ Hg). auto. }
    assert (id ∉ new) as Hnn by (intros H; apply Hn in H; lia).
    split_and!; [done|apply (g_disposed _ _ _ Hg)| | |].
    + rewrite Hq, backlog_cons, Hsz. rewrite Hq in Hltq, Hin.
      destruct q; cbn [queue_of] in *; [| |by rewrite Hq in Hncr].
      * assert (items_in_flight (without id s1) = rest) as ->.
        { cbn. rewrite (g_in_flight _ _ _ Hg), Hq. cbn. by rewrite decide_True. }
        rewrite backlog_without, Hbl by set_solver. lia.
      * assert (pending_items (without id s1) = rest ++ new) as ->.
        { cbn. rewrite Hp, Hq. cbn. by rewrite decide_True. }
        rewrite backlog_without, backlog_app, Hb, Hbl by set_solver. lia.
    + intros Hne. cbn. rewrite (g_in_flight _ _ _ Hg). apply g_slist_remove_not_in.
      destruct q; [done|by apply Hd1|done].
    + intros ->. done.
Qed.

Lemma flush_loop_spec q fuel s :
  inv ∅ s → (backlog s (queue_of q s) ≤ fuel)%nat →
  wp (flush_loop fuel q)
    (λ _ s', inv ∅ s' ∧ dispose_has_run s' = dispose_has_run s ∧ queue_of q s' = [] ∧
       (q ≠ InFlight → items_in_flight s' = items_in_flight s) ∧
       (q = Crypt → pending_items s' = pending_items s)) s.
Proof.
  revert s. induction fuel as [|fuel IH]; intros s Hi Hfuel;
    cbn [flush_loop]; apply wp_bind, wp_get; destruct (queue_of q s) as [|id rest] eqn:Hq;
    try (by apply wp_ret).
  all: assert (is_Some (items s !! id)) as [it Hit]
    by (apply (i_alive _ _ Hi); right; rewrite elem_of_queued;
        destruct q; cbn in Hq; rewrite Hq; set_solver).
  { rewrite backlog_cons in Hfuel. unfold size_of in Hfuel. rewrite Hit in Hfuel.
    pose proof (callback_size_pos (callback it)). lia. }
  apply wp_bind. eapply get_item_spec; [done|]. apply wp_assoc, wp_bind.
  eapply wp_mono; [|by eapply flush_step_spec]. intros [] s1 (Hi1 & Hd1 & Hb1 & Hf1 & Hp1).
  rewrite Hq in Hb1. eapply wp_mono; [|apply IH; [done|lia]].
  intros [] s2 (Hi2 & Hd2 & Hq2 & Hf2 & Hp2). split_and!; [done|congruence|done| |].
  - intros H. by rewrite Hf2, Hf1.
  - intros H. by rewrite Hp2, Hp1.
Qed.

Lemma dispose_spec s :
  inv ∅ s → dispose_has_run s = false →
  wp gabble_request_pipeline_dispose
    (λ _ s', inv ∅ s' ∧ dispose_has_run s' = true ∧ queued s' = []) s.
Proof.
  intros Hi Hd. unfold gabble_request_pipeline_dispose. apply wp_bind, wp_get. rewrite Hd.
  apply wp_bind, wp_modify. assert (inv ∅ (set_disposed s)) as Hi0 by (destruct Hi; by split).
  apply wp_bind, wp_bind, wp_get. eapply wp_mono; [|by apply flush_loop_spec].
  intros [] s1 (Hi1 & Hd1 & Hq1 & _ & _).
  apply wp_bind, wp_bind, wp_get. eapply wp_mono; [|by apply flush_loop_spec].
  intros [] s2 (Hi2 & Hd2 & Hq2 & Hf2 & _).
  apply wp_bind, wp_bind, wp_get. eapply wp_mono; [|by apply flush_loop_spec].
  intros [] s3 (Hi3 & Hd3 & Hq3 & Hf3 & Hp3). apply wp_modify.
  split_and!; [destruct Hi3; by split|cbn in *; congruence|].
  unfold queued. cbn in *. by rewrite Hq3, (Hp3 eq_refl), Hq2, Hf3, Hf2, Hq1.
Qed.

(** ** The pipeline in its environment *)

Inductive input :=
  | Enqueue (msg : WockyNode) (tmout : Z) (cb : Callback)
  | Cancel (id : nat)
  | TimeOut (id : nat)
  | Response (id : nat) (error : option string)
  | RunIdle
  | Dispose.

(** What the environment may do: clients use a pipeline that is alive and
    cancel requests whose callback has not been called; a timer fires if it
    is installed; a reply comes for a request whose item is still held; an
    idle source runs if there is one. *)
Definition enabled (s : GabbleRequestPipeline) (i : input) : bool :=
  negb (dispose_has_run s) &&
  match i with
  | Enqueue _ _ _ | Dispose => true
  | Cancel id => match items s !! id with Some it => negb (zombie it) | None => false end
  | TimeOut id => match items s !! id with Some it => timer_id it | None => false end
  | Response id _ => match items s !! id with Some it => in_flight it | None => false end
  | RunIdle => (0 <? idle_sources s)%nat
  end.

Section system.
Context (send_ok : nat → bool).

Definition handle (i : input) : MP unit :=
  match i with
  | Enqueue msg tmout cb => gabble_request_pipeline_enqueue msg tmout cb ;; mret tt
  | Cancel id => gabble_request_pipeline_item_cancel send_ok id
  | TimeOut id => timeout_cb send_ok id ;; mret tt
  | Response id error => response_cb send_ok id error
  | RunIdle => idle_callback send_ok
  | Dispose => gabble_request_pipeline_dispose
  end.

Inductive reachable : GabbleRequestPipeline → Prop :=
  | reach_new : reachable gabble_request_pipeline_new
  | reach_step s i s' :
      reachable s → enabled s i = true → handle i s = Ok (tt, s') → reachable s'.

Definition good (s : GabbleRequestPipeline) : Prop :=
  inv ∅ s ∧ scheduled s ∧ (dispose_has_run s = true → queued s = []).

Lemma good_new : good gabble_request_pipeline_new.
Proof.
  split_and!; [|by intros []|done]. split; cbn; try done.
  - apply NoDup_nil_2.
  - intros id. rewrite lookup_empty, <- not_eq_None_Some. set_solver.
  - intros id. rewrite lookup_empty. by intros [].
  - intros id. set_solver.
  - apply NoDup_nil_2.
  - intros id _ Hlt. lia.
  - constructor.
  - unfold REQUEST_PIPELINE_SIZE. lia.
Qed.

Lemma handle_good s i :
  good s → enabled s i = true → wp (handle i) (λ _, good) s.
Proof.
  intros (Hi & Hs & _) He. unfold enabled in He.
  apply andb_prop in He as [Hd He]. apply negb_true_iff in Hd.
  assert (∀ s', inv ∅ s' ∧ dispose_has_run s' = dispose_has_run s ∧ scheduled s' → good s') as Hend.
  { intros s' (? & Hd' & ?). split_and!; [done..|]. congruence. }
  destruct i as [msg tmout cb|id|id|id e| |]; cbn [handle].
  - apply wp_bind. eapply wp_mono; [|by apply enqueue_spec].
    intros id s' (_ & Hi' & Hg & _). apply wp_ret, Hend. split_and!; [done| |].
    + apply (g_disposed _ _ _ Hg).
    + by apply (g_scheduled _ _ _ Hg).
  - destruct (items s !! id) as [it|] eqn:Hit; [|done]. apply negb_true_iff in He.
    eapply wp_mono; [|by eapply create_zombie_spec]. auto.
  - destruct (items s !! id) as [it|] eqn:Hit; [|done].
    assert (zombie it = false) as Hz.
    { destruct (i_placed _ _ Hi id it Hit) as (_ & H & _); [set_solver|].
      apply H, (i_timer _ _ Hi id it); [done|set_solver|done]. }
    apply wp_bind, wp_bind. eapply wp_mono; [|by eapply create_zombie_spec].
    intros [] s' H. apply wp_ret, wp_ret. auto.
  - destruct (items s !! id) as [it|] eqn:Hit; [|done].
    eapply wp_mono; [|by eapply response_cb_spec]. auto.
  - eapply wp_mono; [|by apply idle_callback_spec]. intros [] s' (? & ? & ?).
    apply Hend. split_and!; [done..|by apply settled_scheduled].
  - eapply wp_mono; [|by apply dispose_spec]. intros [] s' (? & ? & Hq).
    split_and!; [done| |done]. intros Hne. unfold queued in Hq.
    by apply app_eq_nil in Hq as [Hq _].
Qed.

Lemma reachable_good s : reachable s → good s.
Proof.
  induction 1 as [|s i s' _ IH He Hh]; [apply good_new|].
  pose proof (handle_good s i IH He) as H. unfold wp in H. by rewrite Hh in H.
Qed.

(** Running a sequence of inputs, each of which must be enabled. *)
Fixpoint run (l : list input) (s : GabbleRequestPipeline) : option GabbleRequestPipeline :=
  match l with
  | [] => Some s
  | i :: l' =>
      if enabled s i
      then match handle i s with
           | Ok (_, s') => run l' s'
           | Abort _ => None
           end
      else None
  end.

Lemma run_reachable l s s' : reachable s → run l s = Some s' → reachable s'.
Proof.
  revert s. induction l as [|i l IH]; intros s Hr; cbn; [by intros [= ->]|].
  destruct (enabled s i) eqn:He; [|done]. destruct (handle i s) as [[[] s1]|] eqn:Hh; [|done].
  apply IH. by eapply reach_step.
Qed.

(** In every reachable state, whatever the
    environment may do is handled to the end: no assertion fails, no freed
    item is touched, and the sending and flushing loops terminate within the
    number of requests that callbacks can ever enqueue. *)
Theorem pipeline_handles_every_input s i :
  reachable s → enabled s i = true → ∃ s', handle i s = Ok (tt, s').
Proof.
  intros Hr He. pose proof (handle_good s i (reachable_good s Hr) He) as H.
  unfold wp in H. destruct (handle i s) as [[[] s']|]; [by exists s'|done].
Qed.

(** At most ten requests are ever in flight, requests
    are handed to the connection in the order in which they were enqueued,
    none twice, and a pending request always has a run of the pipeline
    coming: the window is full, or an idle source is scheduled. *)
Theorem pipeline_window s :
  reachable s →
  (length (items_in_flight s) ≤ 10)%nat ∧
  StronglySorted lt (attempted s ++ pending_items s) ∧
  (pending_items s ≠ [] → length (items_in_flight s) = 10%nat ∨ (0 < idle_sources s)%nat).
Proof.
  intros Hr. destruct (reachable_good s Hr) as (Hi & Hs & _).
  split_and!; [apply (i_size _ _ Hi)|apply (i_fifo _ _ Hi)|done].
Qed.

(** C2: no callback is ever called twice; a request's
    callback has been called exactly when the request is neither pending nor
    in flight; once the pipeline is disposed every request ever enqueued has
    been answered exactly once and every item is freed. *)
Theorem pipeline_callbacks_once s :
  reachable s →
  NoDup (called s) ∧
  (∀ id, id ∈ called s ↔
     (id < next_id s)%nat ∧ id ∉ pending_items s ∧ id ∉ items_in_flight s) ∧
  (dispose_has_run s = true →
     items s = ∅ ∧ ∀ id, id ∈ called s ↔ (id < next_id s)%nat).
Proof.
  intros Hr. destruct (reachable_good s Hr) as (Hi & _ & Hd).
  assert (∀ id, id ∈ called s ↔
    (id < next_id s)%nat ∧ id ∉ pending_items s ∧ id ∉ items_in_flight s) as Hc.
  { intros id. split.
    - intros H. assert (id < next_id s)%nat by (apply (i_log_fresh _ _ Hi); by left).
      split; [done|]. by apply (i_called _ _ Hi); [set_solver| |].
    - intros [Hlt H]. by apply (i_called _ _ Hi); [set_solver| |]. }
  split_and!; [apply (i_called_nodup _ _ Hi)|done|]. intros Hdis. specialize (Hd Hdis).
  split.
  - apply map_empty. intros id. apply eq_None_not_Some. rewrite (i_alive _ _ Hi), Hd. set_solver.
  - intros id. rewrite Hc. unfold queued in Hd.
    apply app_eq_nil in Hd as [-> Hd]. apply app_eq_nil in Hd as [-> _]. set_solver.
Qed.

(** The reply to a request that was cancelled or timed
    out while in flight is ignored without reaching the zombie branch of
    [response_cb]: the zombie stays in [crypt_items]. *)
Lemma zombie_reply_keeps_item s id e :
  reachable s → id ∈ crypt_items s → response_cb send_ok id e s = Ok (tt, s).
Proof.
  intros Hr Hc. destruct (reachable_good s Hr) as (Hi & _ & _).
  assert (is_Some (items s !! id)) as [it Hit].
  { apply (i_alive _ _ Hi). right. apply elem_of_queued. auto. }
  unfold response_cb, get_item, mbind, M_bind, get, mret, M_ret. rewrite Hit.
  rewrite bool_decide_eq_false_2; [done|]. intros Hf.
  by apply (queued_nodups s (i_nodup _ _ Hi)) in Hf.
Qed.
End system.

(** ** A sample run

    Two requests, the first of which enqueues a third when it is answered;
    both are sent, the second is cancelled in flight. *)

Definition sample_inputs : list input :=
  let msg := mkNode "iq" None None [] [] in
  [Enqueue msg 0 (mkCallback [(msg, 5, mkCallback [])]); Enqueue msg 60 (mkCallback []);
   RunIdle; Cancel 1; Response 0 None].

Definition sample_state (l : list input) : GabbleRequestPipeline :=
  default gabble_request_pipeline_new (run (λ _, true) l gabble_request_pipeline_new).

Lemma sample_reachable l :
  is_Some (run (λ _, true) l gabble_request_pipeline_new) →
  reachable (λ _, true) (sample_state l).
Proof.
  intros [s Hs]. unfold sample_state. rewrite Hs. eapply run_reachable; [apply reach_new|done].
Qed.

Lemma pipeline_handles_every_input_witness :
  ∃ s', handle (λ _, true) Dispose (sample_state sample_inputs) = Ok (tt, s').
Proof.
  apply pipeline_handles_every_input; [apply sample_reachable; by vm_compute; eexists|].
  vm_compute. reflexivity.
Defined.

Lemma pipeline_window_witness :
  let s := sample_state sample_inputs in
  items_in_flight s = [2%nat] ∧ crypt_items s = [1%nat] ∧
  ((length (items_in_flight s) ≤ 10)%nat ∧
   StronglySorted lt (attempted s ++ pending_items s) ∧
   (pending_items s ≠ [] → length (items_in_flight s) = 10%nat ∨ (0 < idle_sources s)%nat)).
Proof.
  intros s. split; [by vm_compute|]. split; [by vm_compute|].
  apply (pipeline_window (λ _, true)). apply sample_reachable. by vm_compute; eexists.
Defined.

Lemma pipeline_callbacks_once_witness :
  let s := sample_state (sample_inputs ++ [Dispose]) in
  dispose_has_run s = true ∧ next_id s = 3%nat ∧ NoDup (called s) ∧
  (∀ id, id ∈ called s ↔
     (id < next_id s)%nat ∧ id ∉ pending_items s ∧ id ∉ items_in_flight s) ∧
  (dispose_has_run s = true →
     items s = ∅ ∧ ∀ id, id ∈ called s ↔ (id < next_id s)%nat).
Proof.
  intros s. split; [by vm_compute|]. split; [by vm_compute|].
  apply (pipeline_callbacks_once (λ _, true)). apply sample_reachable. by vm_compute; eexists.
Defined.

End RequestPipeline.
