(* ===== verification/BytestreamIface.v ===== *)
(** * The bytestream interface (src/bytestream-iface.h, src/bytestream-iface.c)

    The states of a bytestream, the virtual methods every implementation
    provides as a class, and the contract its users rely on: a method called
    in a state that does not allow it does nothing. *)

From S2P Require Import Prelude Node Namespaces.

Module BytestreamIface.

Inductive GabbleBytestreamState :=
  | GABBLE_BYTESTREAM_STATE_LOCAL_PENDING
  | GABBLE_BYTESTREAM_STATE_ACCEPTED
  | GABBLE_BYTESTREAM_STATE_INITIATING
  | GABBLE_BYTESTREAM_STATE_OPEN
  | GABBLE_BYTESTREAM_STATE_CLOSING
  | GABBLE_BYTESTREAM_STATE_CLOSED.

#[global] Instance GabbleBytestreamState_eq_dec : EqDecision GabbleBytestreamState.
Proof. solve_decision. Defined.

(** Data on a bytestream: a counted string of bytes. *)
Notation bytes := (list ascii).

(** ** Replies to a stream initiation request *)

(** [gabble_bytestream_factory_make_accept_iq]. *)
Definition gabble_bytestream_factory_make_accept_iq
    (full_jid stream_init_id stream_method : string) : WockyNode :=
  let value := mkNode "value" (Some stream_method) (Some NS_X_DATA) [] [] in
  let field := mkNode "field" None (Some NS_X_DATA)
    [mkAttribute "var" "stream-method" None] [value] in
  let x := mkNode "x" None (Some NS_X_DATA) [mkAttribute "type" "submit" None] [field] in
  let feature := mkNode "feature" None (Some NS_FEATURENEG) [] [x] in
  let si := mkNode "si" None (Some NS_SI) [] [feature] in
  mkNode "iq" None (Some "jabber:client")
    [mkAttribute "type" "result" None; mkAttribute "to" full_jid None;
     mkAttribute "id" stream_init_id None] [si].

(** The error of a declined offer: the caller's, or the fallback. *)
Inductive decline_error :=
  | CallerError (e : string)
  | OfferDeclined.

Definition decline_reason (error : option string) : decline_error :=
  match error with
  | Some e => CallerError e
  | None => OfferDeclined
  end.

(** ** The methods *)

(** [GabbleBytestreamIfaceClass].  The methods that hand a stanza to the
    connection take whether that succeeds; [accept] also takes what its
    caller adds to the <si/> of the reply. *)
Class GabbleBytestreamIfaceClass (S : Type) := {
  state_of : S → GabbleBytestreamState;
  vinitiate : bool → M S bool;
  vsend : bytes → M S bool;
  vclose : option string → M S unit;
  vaccept : bool → (WockyNode → WockyNode) → M S unit;
  vblock_reading : option (bool → M S unit);
}.

Section wrappers.
Context {S : Type} `{GabbleBytestreamIfaceClass S}.

Definition gabble_bytestream_iface_initiate (sent : bool) : M S bool := vinitiate sent.
Definition gabble_bytestream_iface_send (data : bytes) : M S bool := vsend data.
Definition gabble_bytestream_iface_close (error : option string) : M S unit := vclose error.
Definition gabble_bytestream_iface_accept (sent : bool)
    (func : WockyNode → WockyNode) : M S unit := vaccept sent func.
Definition gabble_bytestream_iface_block_reading (block : bool) : M S unit :=
  match vblock_reading with
  | Some f => f block
  | None => mret tt
  end.
End wrappers.

(** The contract. *)
Class BytestreamLaws (S : Type) `{!GabbleBytestreamIfaceClass S} := {
  initiate_only_initiating s b :
    state_of s ≠ GABBLE_BYTESTREAM_STATE_INITIATING → ∃ r, vinitiate b s = Ok (r, s);
  send_only_open s d :
    state_of s ≠ GABBLE_BYTESTREAM_STATE_OPEN → vsend d s = Ok (false, s);
  close_once s e :
    state_of s = GABBLE_BYTESTREAM_STATE_CLOSED → vclose e s = Ok (tt, s);
  accept_only_pending s b f :
    state_of s ≠ GABBLE_BYTESTREAM_STATE_LOCAL_PENDING → vaccept b f s = Ok (tt, s);
}.

(** What a user of the interface may call. *)
Inductive iface_call :=
  | CInitiate (sent : bool)
  | CSend (data : bytes)
  | CClose (error : option string)
  | CAccept (sent : bool) (func : WockyNode → WockyNode).

Section client.
Context {S : Type} `{BytestreamLaws S}.

Definition do_call (c : iface_call) : M S unit :=
  match c with
  | CInitiate b => gabble_bytestream_iface_initiate b ;; mret tt
  | CSend d => gabble_bytestream_iface_send d ;; mret tt
  | CClose e => gabble_bytestream_iface_close e
  | CAccept b f => gabble_bytestream_iface_accept b f
  end.

(** Through the interface, a closed bytestream of any kind is
    dead: no sequence of calls has any effect on it. *)
Theorem closed_calls_noop (l : list iface_call) (s : S) :
  state_of s = GABBLE_BYTESTREAM_STATE_CLOSED → for_each l do_call s = Ok (tt, s).
Proof.
  intros Hc. induction l as [|c l IH]; [done|].
  cbn. unfold mbind, M_bind at 1.
  assert (do_call c s = Ok (tt, s)) as ->; [|done].
  destruct c; cbn; unfold gabble_bytestream_iface_initiate, gabble_bytestream_iface_send,
    gabble_bytestream_iface_close, gabble_bytestream_iface_accept, mbind, M_bind.
  - by destruct (initiate_only_initiating s sent) as [r ->]; [congruence|].
  - by rewrite send_only_open by congruence.
  - by apply close_once.
  - apply accept_only_pending. congruence.
Qed.
End client.

(** ** Signals

    What a bytestream tells the objects connected to it.  [signals] are all
    those emitted so far. *)

Inductive bytestream_signal :=
  | SigStateChanged (st : GabbleBytestreamState)
  | SigDataReceived (data : bytes)
  | SigWriteBlocked (blocked : bool)
  | SigConnectionError.

(** The state a listener that knew [st] believes in after [l]. *)
Definition final_state (st : GabbleBytestreamState) (l : list bytestream_signal) :
    GabbleBytestreamState :=
  foldl (λ acc x, match x with SigStateChanged st' => st' | _ => acc end) st l.

Lemma final_state_app st l1 l2 : final_state st (l1 ++ l2) = final_state (final_state st l1) l2.
Proof. apply foldl_app. Qed.

(** A bytestream that has signals, the settable "state" property, the
    "protocol" property, and inputs of its own (replies, bytes, timers). *)
Class BytestreamObject (S : Type) `{GabbleBytestreamIfaceClass S} := {
  signals : S → list bytestream_signal;
  vset_state : GabbleBytestreamState → M S unit;
  vprotocol : S → string;
  own_input : Type;
  own_handle : own_input → M S unit;
}.
Arguments own_input S {_ _}.

Section tracks.
Context {S : Type} `{BytestreamObject S}.

(** [m] changes the state only by signalling it. *)
Definition tracks {A} (m : M S A) : Prop :=
  ∀ s a s', m s = Ok (a, s') →
    ∃ new, signals s' = signals s ++ new ∧ state_of s' = final_state (state_of s) new.

Lemma tracks_ret {A} (a : A) : tracks (mret a).
Proof. intros s b s' [= <- <-]. exists []. by rewrite app_nil_r. Qed.

Lemma tracks_fail {A} r : tracks (fail r : M S A).
Proof. done. Qed.

Lemma tracks_get : tracks get.
Proof. intros s b s' [= <- <-]. exists []. by rewrite app_nil_r. Qed.

Lemma tracks_bind {A B} (m : M S A) (f : A → M S B) :
  tracks m → (∀ a, tracks (f a)) → tracks (m ≫= f).
Proof.
  intros Hm Hf s b s2 (a & s1 & H1 & H2)%bind_Ok.
  destruct (Hm _ _ _ H1) as (n1 & Hs1 & Ht1), (Hf a _ _ _ H2) as (n2 & Hs2 & Ht2).
  exists (n1 ++ n2). by rewrite Hs2, Hs1, <- (assoc_L (++)), final_state_app, Ht2, Ht1.
Qed.

Lemma tracks_assert b : tracks (g_assert b).
Proof. destruct b; [apply tracks_ret|apply tracks_fail]. Qed.

Lemma tracks_when b m : tracks m → tracks (when b m).
Proof. intros. destruct b; [done|apply tracks_ret]. Qed.

Lemma tracks_for_each {A} (l : list A) f : (∀ x, tracks (f x)) → tracks (for_each l f).
Proof.
  intros Hf. induction l as [|x l IH]; [apply tracks_ret|]. cbn. by apply tracks_bind.
Qed.

(** A change of the representation that neither signals nor moves. *)
Lemma tracks_modify f :
  (∀ s, signals (f s) = signals s ∧ state_of (f s) = state_of s) → tracks (modify f).
Proof.
  intros Hf s a s' [= <- <-]. destruct (Hf s) as [-> ->]. exists []. by rewrite app_nil_r.
Qed.
End tracks.

Create HintDb tracks.
#[export] Hint Resolve tracks_ret tracks_fail tracks_get tracks_assert : tracks.

Ltac solve_tracks :=
  repeat first
    [ assumption
    | solve [auto with tracks nocore]
    | apply tracks_bind; [|intros ?]
    | apply tracks_when
    | apply tracks_for_each; intros ?
    | progress cbv zeta
    | match goal with |- tracks (if ?b then _ else _) => destruct b end
    | match goal with |- tracks (match ?x with _ => _ end) => destruct x end ].

(** What a listener relies on. *)
Class BytestreamTracks (S : Type) `{BytestreamObject S} := {
  tracks_initiate b : tracks (vinitiate b);
  tracks_send d : tracks (vsend d);
  tracks_close e : tracks (vclose e);
  tracks_accept b f : tracks (vaccept b f);
  tracks_block b : tracks (gabble_bytestream_iface_block_reading b);
  tracks_set_state st : tracks (vset_state st);
  tracks_own i : tracks (own_handle i);
  block_keeps_state b s a s' :
    gabble_bytestream_iface_block_reading b s = Ok (a, s') → state_of s' = state_of s;
}.

End BytestreamIface.
Export BytestreamIface.
