(* ===== verification/BytestreamIBB.v ===== *)
(** * In-band bytestreams (src/bytestream-ibb.c)

    Data goes out in <data/> IQs of at most [block_size] bytes with at most
    [WINDOW_SIZE] of them unacknowledged; the rest waits in [write_buffer].
    Incoming data is delivered at once, or buffered while the reader blocks.
    Everything the object does to the outside (stanzas, replies, signals) is
    appended to [events].  A sent stanza is known by a number, which stands
    for the address the code uses as a key; the porter keeps the stanza
    alive, so addresses are distinct.  [g_base64_encode] and
    [g_base64_decode] are arguments. *)

From Stdlib Require String.
From S2P Require Import Prelude Node Namespaces BytestreamIface.

Module BytestreamIBB.

Definition READ_BUFFER_MAX_SIZE : Z := 512 * 1024.
Definition WINDOW_SIZE : nat := 10.

(** ** Data *)

Inductive xmpp_error :=
  | WOCKY_XMPP_ERROR_BAD_REQUEST
  | WOCKY_XMPP_ERROR_NOT_ACCEPTABLE
  | WOCKY_XMPP_ERROR_ITEM_NOT_FOUND.

Inductive ibb_event :=
  | SendData (key : nat) (iq : WockyNode)
  | SendClose (iq : WockyNode)
  | SendOpen (iq : WockyNode)
  | SendAccept (iq : WockyNode)
  | SendDecline (to id : string) (e : decline_error)
  | Acknowledge (iq : WockyNode)        (* a data IQ *)
  | AcknowledgeClose (iq : WockyNode)   (* the peer's close IQ *)
  | IqError (iq : WockyNode) (e : xmpp_error)
  | DataReceived (data : bytes)
  | StateChanged (st : GabbleBytestreamState)
  | WriteBlocked (b : bool).

Record GabbleBytestreamIBB := mkIBB {
  stream_id : string;
  stream_init_id : string;
  state : GabbleBytestreamState;
  peer_jid : string;
  block_size : Z;
  seq : Z;
  close_iq_to_ack : option WockyNode;
  read_blocked : bool;
  read_buffer : option bytes;
  received_stanzas_not_acked : list WockyNode;
  sent_stanzas_not_acked : gset nat;
  next_key : nat;
  write_buffer : option bytes;
  write_blocked : bool;
  dispose_has_run : bool;
  events : list ibb_event;
}.

(** [gabble_bytestream_ibb_init] and the constructor. *)
Definition new_ibb (sid init_id jid : string) (resource : option string)
    (st : GabbleBytestreamState) (bs : Z) : GabbleBytestreamIBB :=
  let peer := match resource with
              | Some r => jid +:+ "/" +:+ r
              | None => jid
              end in
  mkIBB sid init_id st peer bs 0 None false None [] ∅ 0 None false false [].

Local Notation MI := (M GabbleBytestreamIBB).

Definition log (e : ibb_event) (s : GabbleBytestreamIBB) :=
  mkIBB (stream_id s) (stream_init_id s) (state s) (peer_jid s) (block_size s) (seq s) (close_iq_to_ack s)
    (read_blocked s) (read_buffer s) (received_stanzas_not_acked s)
    (sent_stanzas_not_acked s) (next_key s) (write_buffer s) (write_blocked s)
    (dispose_has_run s) (events s ++ [e]).
Definition with_state st (s : GabbleBytestreamIBB) :=
  mkIBB (stream_id s) (stream_init_id s) st (peer_jid s) (block_size s) (seq s) (close_iq_to_ack s)
    (read_blocked s) (read_buffer s) (received_stanzas_not_acked s)
    (sent_stanzas_not_acked s) (next_key s) (write_buffer s) (write_blocked s)
    (dispose_has_run s) (events s).
Definition with_seq q (s : GabbleBytestreamIBB) :=
  mkIBB (stream_id s) (stream_init_id s) (state s) (peer_jid s) (block_size s) q (close_iq_to_ack s)
    (read_blocked s) (read_buffer s) (received_stanzas_not_acked s)
    (sent_stanzas_not_acked s) (next_key s) (write_buffer s) (write_blocked s)
    (dispose_has_run s) (events s).
Definition with_close_iq i (s : GabbleBytestreamIBB) :=
  mkIBB (stream_id s) (stream_init_id s) (state s) (peer_jid s) (block_size s) (seq s) i
    (read_blocked s) (read_buffer s) (received_stanzas_not_acked s)
    (sent_stanzas_not_acked s) (next_key s) (write_buffer s) (write_blocked s)
    (dispose_has_run s) (events s).
Definition with_read_blocked b (s : GabbleBytestreamIBB) :=
  mkIBB (stream_id s) (stream_init_id s) (state s) (peer_jid s) (block_size s) (seq s) (close_iq_to_ack s)
    b (read_buffer s) (received_stanzas_not_acked s)
    (sent_stanzas_not_acked s) (next_key s) (write_buffer s) (write_blocked s)
    (dispose_has_run s) (events s).
Definition with_read_buffer b (s : GabbleBytestreamIBB) :=
  mkIBB (stream_id s) (stream_init_id s) (state s) (peer_jid s) (block_size s) (seq s) (close_iq_to_ack s)
    (read_blocked s) b (received_stanzas_not_acked s)
    (sent_stanzas_not_acked s) (next_key s) (write_buffer s) (write_blocked s)
    (dispose_has_run s) (events s).
Definition with_received l (s : GabbleBytestreamIBB) :=
  mkIBB (stream_id s) (stream_init_id s) (state s) (peer_jid s) (block_size s) (seq s) (close_iq_to_ack s)
    (read_blocked s) (read_buffer s) l
    (sent_stanzas_not_acked s) (next_key s) (write_buffer s) (write_blocked s)
    (dispose_has_run s) (events s).
Definition with_sent k (s : GabbleBytestreamIBB) :=
  mkIBB (stream_id s) (stream_init_id s) (state s) (peer_jid s) (block_size s) (seq s) (close_iq_to_ack s)
    (read_blocked s) (read_buffer s) (received_stanzas_not_acked s)
    k (next_key s) (write_buffer s) (write_blocked s)
    (dispose_has_run s) (events s).
Definition with_next_key n (s : GabbleBytestreamIBB) :=
  mkIBB (stream_id s) (stream_init_id s) (state s) (peer_jid s) (block_size s) (seq s) (close_iq_to_ack s)
    (read_blocked s) (read_buffer s) (received_stanzas_not_acked s)
    (sent_stanzas_not_acked s) n (write_buffer s) (write_blocked s)
    (dispose_has_run s) (events s).
Definition with_write_buffer b (s : GabbleBytestreamIBB) :=
  mkIBB (stream_id s) (stream_init_id s) (state s) (peer_jid s) (block_size s) (seq s) (close_iq_to_ack s)
    (read_blocked s) (read_buffer s) (received_stanzas_not_acked s)
    (sent_stanzas_not_acked s) (next_key s) b (write_blocked s)
    (dispose_has_run s) (events s).
Definition with_write_blocked b (s : GabbleBytestreamIBB) :=
  mkIBB (stream_id s) (stream_init_id s) (state s) (peer_jid s) (block_size s) (seq s) (close_iq_to_ack s)
    (read_blocked s) (read_buffer s) (received_stanzas_not_acked s)
    (sent_stanzas_not_acked s) (next_key s) (write_buffer s) b
    (dispose_has_run s) (events s).
Definition with_disposed (s : GabbleBytestreamIBB) :=
  mkIBB (stream_id s) (stream_init_id s) (state s) (peer_jid s) (block_size s) (seq s) (close_iq_to_ack s)
    (read_blocked s) (read_buffer s) (received_stanzas_not_acked s)
    (sent_stanzas_not_acked s) (next_key s) (write_buffer s) (write_blocked s)
    true (events s).

Definition with_block_size n (s : GabbleBytestreamIBB) :=
  mkIBB (stream_id s) (stream_init_id s) (state s) (peer_jid s) n (seq s) (close_iq_to_ack s)
    (read_blocked s) (read_buffer s) (received_stanzas_not_acked s)
    (sent_stanzas_not_acked s) (next_key s) (write_buffer s) (write_blocked s)
    (dispose_has_run s) (events s).

Definition emit (e : ibb_event) : MI unit := modify (log e).

(** The "state" property. *)
Definition set_state (st : GabbleBytestreamState) : MI unit :=
  s ← get;
  when (bool_decide (state s ≠ st)) (modify (with_state st) ;; emit (StateChanged st)).

(** [wocky_stanza_build (IQ, SET, NULL, to, '(' ... ')')]. *)
Definition iq_set (to : string) (child : WockyNode) : WockyNode :=
  mkNode "iq" None (Some "jabber:client")
    [mkAttribute "type" "set" None; mkAttribute "to" to None] [child].

Definition data_iq (to sid encoded : string) (q : Z) : WockyNode :=
  iq_set to (mkNode "data" (Some encoded) (Some NS_IBB)
    [mkAttribute "sid" sid None; mkAttribute "seq" (print_u q) None] []).

Definition close_iq (to sid : string) : WockyNode :=
  iq_set to (mkNode "close" None (Some NS_IBB) [mkAttribute "sid" sid None] []).

Definition open_iq (to sid : string) (bs : Z) : WockyNode :=
  iq_set to (mkNode "open" None (Some NS_IBB)
    [mkAttribute "sid" sid None; mkAttribute "block-size" (print_u bs) None] []).

(** ** Operations *)

Section ops.
Context (g_base64_encode : bytes → string) (g_base64_decode : string → bytes).

Definition change_write_blocked_state (blocked : bool) : MI unit :=
  s ← get;
  if bool_decide (write_blocked s = blocked) then mret tt
  else modify (with_write_blocked blocked) ;; emit (WriteBlocked blocked).

Definition send_close_stanza : MI unit :=
  s ← get;
  match close_iq_to_ack s with
  | Some iq => emit (AcknowledgeClose iq) ;; modify (with_close_iq None)
  | None => mret tt
  end ;;
  emit (SendClose (close_iq (peer_jid s) (stream_id s))).

(** The loop of [send_data] from [sent] bytes on; returns the final [sent]. *)
Fixpoint send_data_loop (fuel : nat) (str : bytes) (len sent : Z) : MI Z :=
  if sent <? len then
    s ← get;
    let remaining := len - sent in
    if (WINDOW_SIZE <=? size (sent_stanzas_not_acked s))%nat then mret sent
    else
      match fuel with
      | O => fail OutOfFuel
      | S fuel =>
          let send_now := if block_size s <? remaining then block_size s else remaining in
          let encoded :=
            g_base64_encode (take (Z.to_nat send_now) (drop (Z.to_nat sent) str)) in
          let iq := data_iq (peer_jid s) (stream_id s) encoded (seq s) in
          let key := next_key s in
          modify (with_seq (u16 (seq s + 1))) ;;
          modify (with_next_key (S key)) ;;
          emit (SendData key iq) ;;
          modify (λ s, with_sent ({[key]} ∪ sent_stanzas_not_acked s) s) ;;
          send_data_loop fuel str len (sent + send_now)
      end
  else mret sent.

Definition send_data (str : bytes) (len : Z) : MI Z :=
  send_data_loop WINDOW_SIZE str len 0.

Definition gabble_bytestream_ibb_send (str : bytes) : MI bool :=
  s ← get;
  let len := Z.of_nat (length str) in
  if bool_decide (state s ≠ GABBLE_BYTESTREAM_STATE_OPEN) then mret false
  else
    match write_buffer s with
    | Some b => modify (with_write_buffer (Some (b ++ str))) ;; mret true
    | None =>
        sent ← send_data str len;
        when (sent <? len)
          (s ← get;
           let rest := drop (Z.to_nat sent) str in
           match write_buffer s with
           | None => modify (with_write_buffer (Some rest))
           | Some b => modify (with_write_buffer (Some (b ++ rest)))
           end ;;
           change_write_blocked_state true) ;;
        mret true
    end.

(** [decline] and [close]; [error] is the caller's GError, if any. *)
Definition gabble_bytestream_ibb_decline (error : option string) : MI unit :=
  s ← get;
  if bool_decide (state s = GABBLE_BYTESTREAM_STATE_LOCAL_PENDING) then
    emit (SendDecline (peer_jid s) (stream_init_id s) (decline_reason error)) ;;
    set_state GABBLE_BYTESTREAM_STATE_CLOSED
  else mret tt.

Definition gabble_bytestream_ibb_close (error : option string) : MI unit :=
  s ← get;
  if bool_decide (state s = GABBLE_BYTESTREAM_STATE_CLOSED) then mret tt
  else
    for_each (reverse (received_stanzas_not_acked s))
      (λ iq, emit (IqError iq WOCKY_XMPP_ERROR_ITEM_NOT_FOUND)) ;;
    modify (with_received []) ;;
    if bool_decide (state s = GABBLE_BYTESTREAM_STATE_LOCAL_PENDING) then
      gabble_bytestream_ibb_decline error
    else
      match write_buffer s with
      | Some _ => set_state GABBLE_BYTESTREAM_STATE_CLOSING
      | None => send_close_stanza ;; set_state GABBLE_BYTESTREAM_STATE_CLOSED
      end.

(** The reply to a data stanza; [ok] is [conn_util_send_iq_finish]. *)
Definition iq_reply_cb (key : nat) (ok : bool) : MI unit :=
  modify (λ s, with_sent (sent_stanzas_not_acked s ∖ {[key]}) s) ;;
  s ← get;
  if negb ok then gabble_bytestream_ibb_close None
  else
    match write_buffer s with
    | None => mret tt
    | Some b =>
        sent ← send_data b (u32 (Z.of_nat (length b)));
        if sent =? Z.of_nat (length b) then
          modify (with_write_buffer None) ;;
          change_write_blocked_state false ;;
          s ← get;
          when (bool_decide (state s = GABBLE_BYTESTREAM_STATE_CLOSING))
            (send_close_stanza ;; set_state GABBLE_BYTESTREAM_STATE_CLOSED)
        else modify (with_write_buffer (Some (drop (Z.to_nat sent) b)))
    end.

Definition gabble_bytestream_ibb_receive (msg : WockyNode) (is_iq : bool) : MI unit :=
  match wocky_node_get_child_ns msg (Some "data") (Some NS_IBB) with
  | None => fail AssertFailed
  | Some data =>
      s ← get;
      if bool_decide (state s ≠ GABBLE_BYTESTREAM_STATE_OPEN) then
        when is_iq (emit (IqError msg WOCKY_XMPP_ERROR_BAD_REQUEST))
      else
        match content data with
        | None => fail MemoryFault   (* g_base64_decode (NULL) leaves outlen unset *)
        | Some text =>
            let str := g_base64_decode text in
            if read_blocked s then
              let current := Z.of_nat (length (default [] (read_buffer s))) in
              if READ_BUFFER_MAX_SIZE <? current + Z.of_nat (length str) then
                when is_iq (emit (IqError msg WOCKY_XMPP_ERROR_NOT_ACCEPTABLE)) ;;
                gabble_bytestream_ibb_close None
              else
                modify (with_read_buffer (Some (default [] (read_buffer s) ++ str))) ;;
                when is_iq (modify (λ s, with_received (msg :: received_stanzas_not_acked s) s))
            else
              emit (DataReceived str) ;;
              when is_iq (emit (Acknowledge msg))
        end
  end.

(** [func] adds the caller's data to the <si/> node; [sent] is the result of
    [_gabble_connection_send]. *)
Definition gabble_bytestream_ibb_accept (sent : bool) (func : WockyNode → WockyNode) :
    MI unit :=
  s ← get;
  if bool_decide (state s ≠ GABBLE_BYTESTREAM_STATE_LOCAL_PENDING) then mret tt
  else
    let msg := gabble_bytestream_factory_make_accept_iq (peer_jid s) (stream_init_id s) NS_IBB in
    match wocky_node_get_child_ns msg (Some "si") (Some NS_SI) with
    | None => fail AssertFailed
    | Some si =>
        when sent
          (emit (SendAccept (set_children msg [func si])) ;;
           set_state GABBLE_BYTESTREAM_STATE_ACCEPTED)
    end.

(** [error]: whether [wocky_stanza_extract_errors] finds an error. *)
Definition ibb_init_reply_cb (error : bool) : MI unit :=
  if negb error then set_state GABBLE_BYTESTREAM_STATE_OPEN
  else set_state GABBLE_BYTESTREAM_STATE_CLOSED.

Definition gabble_bytestream_ibb_initiate (sent : bool) : MI bool :=
  s ← get;
  if bool_decide (state s ≠ GABBLE_BYTESTREAM_STATE_INITIATING) then mret false
  else
    when sent (emit (SendOpen (open_iq (peer_jid s) (stream_id s) (block_size s)))) ;;
    mret sent.

Definition gabble_bytestream_ibb_block_reading (block : bool) : MI unit :=
  s ← get;
  if bool_decide (read_blocked s = block) then mret tt
  else
    modify (with_read_blocked block) ;;
    match read_buffer s, block with
    | Some b, false =>
        emit (DataReceived b) ;;
        modify (with_read_buffer None) ;;
        for_each (reverse (received_stanzas_not_acked s)) (λ iq, emit (Acknowledge iq)) ;;
        modify (with_received [])
    | _, _ => mret tt
    end.

Definition gabble_bytestream_ibb_close_received (iq : WockyNode) : MI unit :=
  modify (with_close_iq (Some iq)) ;;
  gabble_bytestream_ibb_close None.

Definition gabble_bytestream_ibb_dispose : MI unit :=
  s ← get;
  if dispose_has_run s then mret tt
  else
    modify with_disposed ;;
    when (bool_decide (state s ≠ GABBLE_BYTESTREAM_STATE_CLOSED))
      (gabble_bytestream_ibb_close None) ;;
    s ← get;
    match close_iq_to_ack s with
    | Some iq => emit (AcknowledgeClose iq) ;; modify (with_close_iq None)
    | None => mret tt
    end.

(** What [handle_ibb_open_iq] of the factory does to the bytestream an <open/>
    is for: [size] is its block-size attribute.  The result is whether the
    IQ is acknowledged rather than refused. *)
Definition open_received (bsize : option string) : MI bool :=
  s ← get;
  if bool_decide (state s ≠ GABBLE_BYTESTREAM_STATE_ACCEPTED) then mret false
  else
    match bsize with
    | Some tmp =>
        let n := u32 (strtoul tmp) in
        when (0 <? n) (modify (with_block_size n))
    | None => mret tt
    end ;;
    set_state GABBLE_BYTESTREAM_STATE_OPEN ;;
    mret true.

#[global] Instance ibb_iface : GabbleBytestreamIfaceClass GabbleBytestreamIBB := {
  state_of := state;
  vinitiate := gabble_bytestream_ibb_initiate;
  vsend := gabble_bytestream_ibb_send;
  vclose := gabble_bytestream_ibb_close;
  vaccept := gabble_bytestream_ibb_accept;
  vblock_reading := Some gabble_bytestream_ibb_block_reading;
}.

End ops.

(** ** The contract of the interface *)

Section contract.
Context (enc : bytes → string).

#[global] Instance ibb_laws : @BytestreamLaws GabbleBytestreamIBB (ibb_iface enc).
Proof.
  split; cbn; intros s.
  - intros b H. exists false. unfold gabble_bytestream_ibb_initiate, mbind, M_bind, get.
    by rewrite bool_decide_eq_true_2.
  - intros d H. unfold gabble_bytestream_ibb_send, mbind, M_bind, get.
    by rewrite bool_decide_eq_true_2.
  - intros e H. unfold gabble_bytestream_ibb_close, mbind, M_bind, get.
    by rewrite bool_decide_eq_true_2.
  - intros b f H. unfold gabble_bytestream_ibb_accept, mbind, M_bind, get.
    by rewrite bool_decide_eq_true_2.
Qed.
End contract.

(** ** Invariants

    Each is a predicate of the fields it is about. *)

Definition early (st : GabbleBytestreamState) : Prop :=
  st = GABBLE_BYTESTREAM_STATE_LOCAL_PENDING ∨
  st = GABBLE_BYTESTREAM_STATE_ACCEPTED ∨
  st = GABBLE_BYTESTREAM_STATE_INITIATING.

Definition sent_iqs (l : list ibb_event) : list WockyNode :=
  omap (λ e, match e with SendData _ iq => Some iq | _ => None end) l.

Definition delivered (l : list ibb_event) : bytes :=
  concat (omap (λ e, match e with DataReceived d => Some d | _ => None end) l).

Definition answered (l : list ibb_event) : list WockyNode :=
  omap (λ e, match e with
             | Acknowledge iq => Some iq
             | IqError iq _ => Some iq
             | _ => None
             end) l.

Lemma sent_iqs_app l l' : sent_iqs (l ++ l') = sent_iqs l ++ sent_iqs l'.
Proof. apply omap_app. Qed.
Lemma delivered_app l l' : delivered (l ++ l') = delivered l ++ delivered l'.
Proof. unfold delivered. by rewrite omap_app, concat_app. Qed.
Lemma answered_app l l' : answered (l ++ l') = answered l ++ answered l'.
Proof. apply omap_app. Qed.

Arguments sent_iqs l : simpl never.
Arguments delivered l : simpl never.
Arguments answered l : simpl never.

Section invariants.
Context (enc : bytes → string) (dec : string → bytes).

(** The [i]-th data stanza. *)
Definition chunk_iq (peer sid : string) (i : nat) (c : bytes) : WockyNode :=
  data_iq peer sid (enc c) (u16 (Z.of_nat i)).

(** Sending: the stanzas that went out carry the chunks [cs], numbered
    modulo 2^16 and no longer than a block; at most [WINDOW_SIZE] are not
    acknowledged. *)
Record sent_inv (cs : list bytes) (peer sid : string) (bs sq : Z)
    (sent : gset nat) (nk : nat) (iqs : list WockyNode) : Prop := {
  w_bs : 0 <= bs;
  w_window : (size sent ≤ WINDOW_SIZE)%nat;
  w_keys : ∀ k, k ∈ sent → (k < nk)%nat;
  w_chunks : iqs = imap (chunk_iq peer sid) cs;
  w_seq : sq = u16 (Z.of_nat (length cs));
  w_blocks : Forall (λ c, Z.of_nat (length c) <= bs) cs;
}.

Definition sent_ok cs (s : GabbleBytestreamIBB) : Prop :=
  sent_inv cs (peer_jid s) (stream_id s) (block_size s) (seq s)
    (sent_stanzas_not_acked s) (next_key s) (sent_iqs (events s)).

(** What was accepted for sending is what went out followed by what is
    buffered. *)
Definition write_ok (acc : bytes) (s : GabbleBytestreamIBB) : Prop :=
  ∃ cs, sent_ok cs s ∧ acc = concat cs ++ default [] (write_buffer s) ∧
    (early (state s) → cs = [] ∧ write_buffer s = None).

(** Receiving: what was delivered and what is buffered is a prefix of what
    arrived, all of it while the stream is open; the buffer is bounded. *)
Definition read_ok (inc : bytes) (s : GabbleBytestreamIBB) : Prop :=
  Z.of_nat (length (default [] (read_buffer s))) <= READ_BUFFER_MAX_SIZE ∧
  (read_blocked s = false → read_buffer s = None) ∧
  ∃ rest, inc = delivered (events s) ++ default [] (read_buffer s) ++ rest ∧
    (state s = GABBLE_BYTESTREAM_STATE_OPEN ∨ early (state s) → rest = []).

(** Every data IQ is answered once, or held until the reader unblocks. *)
Definition iqs_ok (iqs : list WockyNode) (s : GabbleBytestreamIBB) : Prop :=
  answered (events s) ++ received_stanzas_not_acked s ≡ₚ iqs.

Definition inv (acc inc : bytes) (iqs : list WockyNode) (s : GabbleBytestreamIBB) : Prop :=
  write_ok acc s ∧ read_ok inc s ∧ iqs_ok iqs s.

(** *** Sending *)

(** One turn of the loop of [send_data]. *)
Definition push_chunk (c : bytes) (s : GabbleBytestreamIBB) : GabbleBytestreamIBB :=
  let s1 := log (SendData (next_key s) (data_iq (peer_jid s) (stream_id s) (enc c) (seq s)))
    (with_next_key (S (next_key s)) (with_seq (u16 (seq s + 1)) s)) in
  with_sent ({[next_key s]} ∪ sent_stanzas_not_acked s1) s1.

Definition push_chunks (cs : list bytes) (s : GabbleBytestreamIBB) : GabbleBytestreamIBB :=
  foldl (λ s c, push_chunk c s) s cs.

Definition fresh_keys (s : GabbleBytestreamIBB) : Prop :=
  ∀ k, k ∈ sent_stanzas_not_acked s → (k < next_key s)%nat.

Lemma size_push_chunk c s :
  fresh_keys s →
  size (sent_stanzas_not_acked (push_chunk c s)) = S (size (sent_stanzas_not_acked s)).
Proof.
  intros Hf. cbn. rewrite size_union; [by rewrite size_singleton|].
  intros k ->%elem_of_singleton Hk. apply Hf in Hk. lia.
Qed.

Lemma fresh_push_chunk c s : fresh_keys s → fresh_keys (push_chunk c s).
Proof.
  intros Hf k. cbn. intros [->%elem_of_singleton|Hk]%elem_of_union; [lia|].
  apply Hf in Hk. lia.
Qed.

(** What the loop does from [sent] on: some chunks go out, their
    concatenation is the next part of the string, and it stops at the end or
    when the window is full. *)
Definition loop_post (str : bytes) (len sent : Z) (s : GabbleBytestreamIBB) (r : Z)
    (s' : GabbleBytestreamIBB) : Prop :=
  ∃ cs, s' = push_chunks cs s ∧ sent <= r <= len ∧
    concat cs = take (Z.to_nat (r - sent)) (drop (Z.to_nat sent) str) ∧
    Forall (λ c, Z.of_nat (length c) <= block_size s) cs ∧
    (size (sent_stanzas_not_acked s') ≤ WINDOW_SIZE)%nat ∧
    (r = len ∨ size (sent_stanzas_not_acked s') = WINDOW_SIZE).

Lemma loop_post_stop str len sent s :
  sent <= len → (size (sent_stanzas_not_acked s) ≤ WINDOW_SIZE)%nat →
  sent = len ∨ size (sent_stanzas_not_acked s) = WINDOW_SIZE →
  loop_post str len sent s sent s.
Proof.
  intros. exists []. split_and!; try done. by rewrite Z.sub_diag.
Qed.

Lemma loop_post_push str len sent now s r s' :
  0 <= sent → 0 <= now <= len - sent → now <= block_size s → len <= Z.of_nat (length str) →
  loop_post str len (sent + now)
    (push_chunk (take (Z.to_nat now) (drop (Z.to_nat sent) str)) s) r s' →
  loop_post str len sent s r s'.
Proof.
  intros Hs Hn Hb Hl (cs & -> & Hr & Hcs & Hbl & Hsz & Hend).
  exists (take (Z.to_nat now) (drop (Z.to_nat sent) str) :: cs).
  split_and!; [done|lia|lia| | |done|done].
  - cbn. rewrite Hcs. replace (Z.to_nat (r - sent)) with
      (Z.to_nat now + Z.to_nat (r - (sent + now)))%nat by lia.
    replace (Z.to_nat (sent + now)) with (Z.to_nat sent + Z.to_nat now)%nat by lia.
    rewrite <- drop_drop. apply take_take_drop.
  - constructor; [rewrite length_take, length_drop; lia|done].
Qed.

Lemma send_data_loop_spec fuel str len sent s :
  0 <= block_size s → fresh_keys s → 0 <= sent <= len → len <= Z.of_nat (length str) →
  (WINDOW_SIZE ≤ fuel + size (sent_stanzas_not_acked s))%nat →
  (size (sent_stanzas_not_acked s) ≤ WINDOW_SIZE)%nat →
  wp (send_data_loop enc fuel str len sent) (loop_post str len sent s) s.
Proof.
  revert sent s. induction fuel as [|fuel IH]; intros sent s Hbs Hf Hsent Hlen Hfuel Hwin;
    cbn [send_data_loop]; (destruct (Z.ltb_spec sent len) as [Hlt|Hge];
      [|apply wp_ret, loop_post_stop; [lia|done|left; lia]]);
    apply wp_bind, wp_get; (destruct (Nat.leb_spec WINDOW_SIZE
      (size (sent_stanzas_not_acked s))) as [Hfull|Hroom];
      [apply wp_ret, loop_post_stop; [lia|done|right; lia]|]).
  { lia. }
  set (now := if block_size s <? len - sent then block_size s else len - sent).
  assert (0 <= now <= len - sent ∧ now <= block_size s) as [Hnow Hnowb].
  { unfold now. destruct (Z.ltb_spec (block_size s) (len - sent)); lia. }
  apply wp_bind, wp_modify, wp_bind, wp_modify, wp_bind, wp_modify, wp_bind, wp_modify.
  set (c := take (Z.to_nat now) (drop (Z.to_nat sent) str)).
  eapply (wp_mono _ (loop_post str len (sent + now) (push_chunk c s))).
  - intros r s' H. apply (loop_post_push str len sent now s); lia || done.
  - apply (IH (sent + now) (push_chunk c s)); rewrite ?size_push_chunk by done; try lia; try done.
    by apply fresh_push_chunk.
Qed.

Lemma sent_ok_push cs c s :
  sent_ok cs s → Z.of_nat (length c) <= block_size s →
  (size (sent_stanzas_not_acked s) < WINDOW_SIZE)%nat →
  sent_ok (cs ++ [c]) (push_chunk c s).
Proof.
  intros [Hbs Hw Hk Hc Hs Hb] Hlen Hroom. split; try done.
  - rewrite size_push_chunk by done. lia.
  - by apply fresh_push_chunk.
  - cbn. rewrite sent_iqs_app, Hc, imap_app. cbn. do 2 f_equal.
    unfold chunk_iq. by rewrite Hs, Nat.add_0_r.
  - cbn. rewrite Hs, wrap_add by done. f_equal. rewrite length_app. cbn. lia.
  - apply Forall_app. split; [done|]. by constructor.
Qed.

Lemma push_chunks_cons c l s : push_chunks (c :: l) s = push_chunks l (push_chunk c s).
Proof. done. Qed.

Lemma size_push_chunks l s :
  fresh_keys s →
  (size (sent_stanzas_not_acked s) ≤ size (sent_stanzas_not_acked (push_chunks l s)))%nat.
Proof.
  revert s. induction l as [|c l IH]; intros s Hf; [done|]. rewrite push_chunks_cons.
  pose proof (IH (push_chunk c s) (fresh_push_chunk c s Hf)) as H.
  rewrite size_push_chunk in H by done. lia.
Qed.

Lemma sent_ok_pushes cs new s :
  sent_ok cs s → Forall (λ c, Z.of_nat (length c) <= block_size s) new →
  (size (sent_stanzas_not_acked (push_chunks new s)) ≤ WINDOW_SIZE)%nat →
  sent_ok (cs ++ new) (push_chunks new s).
Proof.
  revert cs s. induction new as [|c new IH]; intros cs s Hs Hf Hsz.
  - by rewrite app_nil_r.
  - apply Forall_cons in Hf as [Hc Hf].
    pose proof (size_push_chunks new (push_chunk c s) (fresh_push_chunk c s (w_keys _ _ _ _ _ _ _ _ Hs))) as H.
    rewrite size_push_chunk in H by exact (w_keys _ _ _ _ _ _ _ _ Hs).
    rewrite push_chunks_cons in *.
    replace (cs ++ c :: new) with ((cs ++ [c]) ++ new) by (by rewrite <- (assoc_L (++))).
    apply IH; [|done..]. apply sent_ok_push; [done..|lia].
Qed.

(** What sending leaves alone. *)
Lemma push_chunks_frame cs s :
  state (push_chunks cs s) = state s ∧ write_buffer (push_chunks cs s) = write_buffer s ∧
  read_buffer (push_chunks cs s) = read_buffer s ∧
  read_blocked (push_chunks cs s) = read_blocked s ∧
  close_iq_to_ack (push_chunks cs s) = close_iq_to_ack s ∧
  received_stanzas_not_acked (push_chunks cs s) = received_stanzas_not_acked s ∧
  delivered (events (push_chunks cs s)) = delivered (events s) ∧
  answered (events (push_chunks cs s)) = answered (events s).
Proof.
  revert s. induction cs as [|c cs IH]; intros s; [done|]. rewrite push_chunks_cons.
  destruct (IH (push_chunk c s)) as (->&->&->&->&->&->&->&->). cbn.
  rewrite delivered_app, answered_app, !app_nil_r. done.
Qed.

Lemma send_data_spec cs str len s :
  sent_ok cs s → 0 <= len <= Z.of_nat (length str) →
  wp (send_data enc str len)
    (λ r s', ∃ new, s' = push_chunks new s ∧ sent_ok (cs ++ new) s' ∧ 0 <= r <= len ∧
       concat new = take (Z.to_nat r) str ∧
       (r = len ∨ size (sent_stanzas_not_acked s') = WINDOW_SIZE)) s.
Proof.
  intros Hs Hlen. pose proof Hs as [Hbs Hw Hk _ _ _]. unfold send_data.
  eapply wp_mono; [|apply send_data_loop_spec; lia || done].
  intros r s' (new & -> & Hr & Hcs & Hf & Hsz & Hend). exists new.
  rewrite Z.sub_0_r, drop_0 in Hcs. split_and!; try done; try lia.
  by apply sent_ok_pushes.
Qed.

Lemma inv_send acc inc iqs s str :
  inv acc inc iqs s →
  wp (gabble_bytestream_ibb_send enc str)
    (λ r s', inv (if r : bool then acc ++ str else acc) inc iqs s' ∧
       (r = false → s' = s) ∧ (r = true ↔ state s = GABBLE_BYTESTREAM_STATE_OPEN)) s.
Proof.
  intros (Hw & Hr & Hq). unfold gabble_bytestream_ibb_send.
  apply wp_bind, wp_get. case_bool_decide as Hst.
  { apply wp_ret. done. }
  destruct Hw as (cs & Hs & Hacc & _).
  assert (¬ early (state s)) as Hne by (rewrite Hst; intros [?|[?|?]]; done).
  destruct (write_buffer s) as [b|] eqn:Hwb.
  - apply wp_bind, wp_modify, wp_ret. split_and!; [|done..].
    split_and!; [|done..]. exists cs. split_and!; [done| |done].
    cbn in *. by rewrite Hacc, <- (assoc_L (++)).
  - apply wp_bind. eapply wp_mono; [|apply (send_data_spec cs); [done|lia]].
    intros r s1 (new & -> & Hs1 & Hr1 & Hnew & Hend). apply wp_bind.
    destruct (push_chunks_frame new s) as (F1&F2&F3&F4&F5&F6&F7&F8).
    assert (∀ s', sent_ok (cs ++ new) s' → state s' = state s → read_blocked s' = read_blocked s →
      read_buffer s' = read_buffer s → received_stanzas_not_acked s' = received_stanzas_not_acked s →
      delivered (events s') = delivered (events s) → answered (events s') = answered (events s) →
      default [] (write_buffer s') = drop (Z.to_nat r) str →
      inv (acc ++ str) inc iqs s' ∧ (true = false → s' = s) ∧
        (true = true ↔ state s = GABBLE_BYTESTREAM_STATE_OPEN)) as Hfin.
    { intros s' H1 H2 H3 H4 H5 H6 H7 H8. split_and!; [|done..].
      split_and!; [|by unfold read_ok; rewrite H2, H3, H4, H6|by unfold iqs_ok; rewrite H5, H7].
      exists (cs ++ new). split_and!; [done| |by rewrite H2].
      rewrite H8, Hacc, concat_app, Hnew. cbn. rewrite app_nil_r, <- (assoc_L (++)).
      by rewrite take_drop. }
    apply wp_when; rewrite ?Z.ltb_lt, ?Z.ltb_ge; intros Hlt.
    + apply wp_bind, wp_get. rewrite F2, Hwb. apply wp_bind, wp_modify.
      unfold change_write_blocked_state. apply wp_bind, wp_get.
      case_bool_decide; [apply wp_ret, wp_ret, Hfin; done|].
      apply wp_bind, wp_modify, wp_modify, wp_ret, Hfin; try done; cbn.
      * unfold sent_ok. cbn. by rewrite sent_iqs_app, app_nil_r.
      * by rewrite delivered_app, app_nil_r.
      * by rewrite answered_app, app_nil_r.
    + apply wp_ret, Hfin; try done. rewrite F2, Hwb. cbn.
      rewrite drop_ge; [done|]. lia.
Qed.

(** *** Steps that move no data *)

Definition may_become (st st' : GabbleBytestreamState) : Prop :=
  (early st' → early st) ∧
  (st' = GABBLE_BYTESTREAM_STATE_OPEN → st = GABBLE_BYTESTREAM_STATE_OPEN ∨ early st).

Lemma may_become_refl st : may_become st st.
Proof. split; auto. Qed.

Lemma may_become_end st st' :
  st' = GABBLE_BYTESTREAM_STATE_CLOSING ∨ st' = GABBLE_BYTESTREAM_STATE_CLOSED →
  may_become st st'.
Proof. intros [->| ->]; split; try done; intros [?|[?|?]]; done. Qed.

Record quiet (s s' : GabbleBytestreamIBB) : Prop := {
  q_peer : peer_jid s' = peer_jid s;
  q_sid : stream_id s' = stream_id s;
  q_bs : block_size s' = block_size s;
  q_seq : seq s' = seq s;
  q_sent : sent_stanzas_not_acked s' ⊆ sent_stanzas_not_acked s;
  q_key : next_key s' = next_key s;
  q_wb : write_buffer s' = write_buffer s;
  q_iqs : sent_iqs (events s') = sent_iqs (events s);
  q_rb : read_buffer s' = read_buffer s;
  q_rblocked : read_blocked s' = read_blocked s;
  q_data : delivered (events s') = delivered (events s);
  q_answers : answered (events s') ++ received_stanzas_not_acked s' ≡ₚ
              answered (events s) ++ received_stanzas_not_acked s;
  q_state : may_become (state s) (state s');
}.

Lemma quiet_inv acc inc iqs s s' : quiet s s' → inv acc inc iqs s → inv acc inc iqs s'.
Proof.
  intros [Q1 Q2 Q3 Q4 Q5 Q6 Q7 Q8 Q9 Qb Q10 Q11 [Q12 Q13]]
    ((cs & [H1 H2 H3 H4 H5 H6] & Hacc & He) & (Hr & Hrb & rest & Hinc & Hrest) & Hq).
  split_and!.
  - exists cs. split_and!; [split|by rewrite Q7|rewrite Q7; auto].
    + by rewrite Q3.
    + apply subseteq_size in Q5. lia.
    + intros k Hk. rewrite Q6. auto.
    + by rewrite Q1, Q2, Q8.
    + by rewrite Q4.
    + by rewrite Q3.
  - split_and!; [by rewrite Q9|by rewrite Q9, Qb|]. exists rest. split; [by rewrite Q9, Q10|].
    intros H. apply Hrest. naive_solver.
  - unfold iqs_ok in *. by rewrite Q11.
Qed.

Lemma quiet_refl s : quiet s s.
Proof. split; try done. apply may_become_refl. Qed.

(** Proves [quiet] when the new state is written out. *)
Ltac solve_quiet :=
  split; cbn; rewrite ?sent_iqs_app, ?delivered_app, ?answered_app; cbn;
  rewrite ?app_nil_r; try done; auto using may_become_refl, may_become_end.

Definition log_all (es : list ibb_event) (s : GabbleBytestreamIBB) : GabbleBytestreamIBB :=
  foldl (λ s e, log e s) s es.

Lemma log_all_eq es s :
  log_all es s =
  mkIBB (stream_id s) (stream_init_id s) (state s) (peer_jid s) (block_size s) (seq s)
    (close_iq_to_ack s) (read_blocked s) (read_buffer s) (received_stanzas_not_acked s)
    (sent_stanzas_not_acked s) (next_key s) (write_buffer s) (write_blocked s)
    (dispose_has_run s) (events s ++ es).
Proof.
  revert s. induction es as [|e es IH]; intros s; cbn.
  - rewrite app_nil_r. by destruct s.
  - unfold log_all in IH. rewrite IH. cbn. by rewrite <- (assoc_L (++)).
Qed.

Lemma emit_all_spec {A} (f : A → ibb_event) (l : list A) (Q : unit → GabbleBytestreamIBB → Prop) s :
  Q tt (log_all (f <$> l) s) → wp (for_each l (λ x, emit (f x))) Q s.
Proof.
  revert s. induction l as [|x l IH]; intros s HQ; [done|].
  cbn [for_each]. apply wp_bind, wp_modify. by apply IH.
Qed.

Lemma set_state_quiet st s :
  may_become (state s) st →
  wp (set_state st) (λ _ s', quiet s s' ∧ state s' = st ∧
    close_iq_to_ack s' = close_iq_to_ack s ∧ read_blocked s' = read_blocked s) s.
Proof.
  intros Hm. unfold set_state. apply wp_bind, wp_get. apply wp_when; intros Hb.
  - apply wp_bind, wp_modify, wp_modify. split_and!; try done. solve_quiet.
  - apply bool_decide_eq_false, dec_stable in Hb.
    split_and!; [apply quiet_refl|done..].
Qed.

Lemma answered_errors e l : answered ((λ iq, IqError iq e) <$> l) = l.
Proof. unfold answered. induction l as [|x l IH]; cbn; [done|]. by rewrite IH. Qed.
Lemma answered_acks l : answered (Acknowledge <$> l) = l.
Proof. unfold answered. induction l as [|x l IH]; cbn; [done|]. by rewrite IH. Qed.
Lemma no_data_events (f : WockyNode → ibb_event) l :
  (∀ iq, sent_iqs [f iq] = [] ∧ delivered [f iq] = []) →
  sent_iqs (f <$> l) = [] ∧ delivered (f <$> l) = [].
Proof.
  intros Hf. induction l as [|x l IH]; [done|]. rewrite fmap_cons.
  change (f x :: (f <$> l)) with ([f x] ++ (f <$> l)).
  rewrite sent_iqs_app, delivered_app. destruct (Hf x) as [-> ->]. done.
Qed.

Lemma quiet_trans s1 s2 s3 : quiet s1 s2 → quiet s2 s3 → quiet s1 s3.
Proof.
  intros [A1 A2 A3 A4 A5 A6 A7 A8 A9 Ab A10 A11 [A12 A13]]
    [B1 B2 B3 B4 B5 B6 B7 B8 B9 Bb B10 B11 [B12 B13]].
  split; try congruence; [set_solver|by rewrite B11|split; naive_solver].
Qed.

Lemma send_close_quiet s :
  wp send_close_stanza (λ _ s', quiet s s' ∧ state s' = state s ∧
    close_iq_to_ack s' = None ∧ read_blocked s' = read_blocked s) s.
Proof.
  unfold send_close_stanza. apply wp_bind, wp_get, wp_bind.
  destruct (close_iq_to_ack s) as [iq|] eqn:E.
  - apply wp_bind, wp_modify, wp_modify, wp_modify. split_and!; try done. solve_quiet.
  - apply wp_ret, wp_modify. split_and!; try done. solve_quiet.
Qed.

(** Closing: at once, or when the buffer has been sent. *)
Lemma close_quiet e s :
  wp (gabble_bytestream_ibb_close e) (λ _ s', quiet s s' ∧
    state s' = (if decide (state s = GABBLE_BYTESTREAM_STATE_CLOSED ∨
                          state s = GABBLE_BYTESTREAM_STATE_LOCAL_PENDING ∨
                          write_buffer s = None)
                then GABBLE_BYTESTREAM_STATE_CLOSED else GABBLE_BYTESTREAM_STATE_CLOSING) ∧
    read_blocked s' = read_blocked s) s.
Proof.
  unfold gabble_bytestream_ibb_close. apply wp_bind, wp_get. case_bool_decide as Hc.
  { apply wp_ret. rewrite decide_True by auto. split_and!; [apply quiet_refl|done..]. }
  apply wp_bind, emit_all_spec, wp_bind, wp_modify. rewrite log_all_eq.
  set (s1 := with_received [] _).
  assert (quiet s s1) as Hq1.
  { destruct (no_data_events (λ iq, IqError iq WOCKY_XMPP_ERROR_ITEM_NOT_FOUND)
      (reverse (received_stanzas_not_acked s))) as [H1 H2]; [done|].
    solve_quiet; rewrite ?H1, ?H2, ?app_nil_r; try done.
    by rewrite answered_errors, reverse_Permutation. }
  case_bool_decide as Hp.
  - rewrite decide_True by auto. unfold gabble_bytestream_ibb_decline.
    apply wp_bind, wp_get. rewrite bool_decide_eq_true_2 by done. apply wp_bind, wp_modify.
    eapply wp_mono; [|apply set_state_quiet; by apply may_become_end; right].
    intros [] s' (Hq & Hst & _ & Hrb). split_and!; [|done|done].
    eapply quiet_trans; [done|]. eapply quiet_trans; [|done]. solve_quiet.
  - destruct (write_buffer s) as [b|] eqn:Hwb.
    + rewrite decide_False by naive_solver.
      eapply wp_mono; [|apply set_state_quiet; by apply may_become_end; left].
      intros [] s' (Hq & Hst & _ & Hrb). split_and!; [|done|done]. by eapply quiet_trans.
    + rewrite decide_True by auto. apply wp_bind.
      eapply wp_mono; [|apply send_close_quiet]. intros [] s2 (Hq2 & Hst2 & _ & Hrb2).
      eapply wp_mono; [|apply set_state_quiet; by apply may_become_end; right].
      intros [] s' (Hq & Hst & _ & Hrb). split_and!; [|done|by rewrite Hrb, Hrb2].
      eapply quiet_trans; [done|]. by eapply quiet_trans.
Qed.

(** *** The handlers *)

Lemma inv_reply acc inc iqs s key ok :
  inv acc inc iqs s → wp (iq_reply_cb enc key ok) (λ _ s', inv acc inc iqs s') s.
Proof.
  intros Hinv. unfold iq_reply_cb. apply wp_bind, wp_modify, wp_bind, wp_get.
  set (s1 := with_sent _ s).
  assert (quiet s s1) as Hq1 by (solve_quiet; set_solver).
  pose proof (quiet_inv _ _ _ _ _ Hq1 Hinv) as Hinv1.
  destruct ok; cbn [negb].
  2: { eapply wp_mono; [|apply close_quiet]. intros [] s' (Hq & _). by eapply quiet_inv. }
  destruct (write_buffer s1) as [b|] eqn:Hwb; [|done].
  destruct Hinv1 as ((cs & Hs & Hacc & He) & Hr & Hq). rewrite Hwb in Hacc, He. cbn in Hacc.
  assert (¬ early (state s1)) as Hne by (intros H; by apply He in H as [_ ?]).
  apply wp_bind. eapply wp_mono; [|apply (send_data_spec cs b); [done|]].
  2: { split; [by apply wrap_bounds|]. apply wrap_le; lia. }
  intros r s2 (new & -> & Hs2 & Hr2 & Hnew & _).
  destruct (push_chunks_frame new s1) as (F1&F2&F3&F4&F5&F6&F7&F8).
  assert (∀ s', sent_ok (cs ++ new) s' → default [] (write_buffer s') = drop (Z.to_nat r) b →
    state s' = state s1 → read_buffer s' = read_buffer s1 →
    received_stanzas_not_acked s' = received_stanzas_not_acked s1 →
    delivered (events s') = delivered (events s1) → answered (events s') = answered (events s1) →
    read_blocked s' = read_blocked s1 → inv acc inc iqs s') as Hfin.
  { intros s' H1 H2 H3 H4 H5 H6 H7 H8.
    split_and!; [|by unfold read_ok; rewrite H3, H4, H6, H8|by unfold iqs_ok; rewrite H5, H7].
    exists (cs ++ new). split_and!; [done| |by rewrite H3].
    rewrite H2, Hacc, concat_app, Hnew, <- (assoc_L (++)). by rewrite take_drop. }
  destruct (Z.eqb_spec r (Z.of_nat (length b))) as [->|Hne2].
  - assert (inv acc inc iqs (with_write_buffer None (push_chunks new s1))) as Hinv2.
    { apply Hfin; try done. cbn. rewrite drop_ge; [done|lia]. }
    apply wp_bind, wp_modify, wp_bind. revert Hinv2. set (s3 := with_write_buffer _ _). intros Hinv2.
    assert (wp (change_write_blocked_state false) (λ _ s', inv acc inc iqs s') s3) as Hcw.
    { unfold change_write_blocked_state. apply wp_bind, wp_get.
      case_bool_decide; [done|]. apply wp_bind, wp_modify, wp_modify.
      eapply quiet_inv; [|exact Hinv2]. solve_quiet. }
    eapply wp_mono; [|exact Hcw]. intros [] s4 Hinv4. apply wp_bind, wp_get.
    apply wp_when; intros _; [|done]. apply wp_bind.
    eapply wp_mono; [|apply send_close_quiet]. intros [] s5 (Hq5 & _).
    eapply wp_mono; [|apply set_state_quiet, may_become_end; by right].
    intros [] s6 (Hq6 & _). by eapply quiet_inv, quiet_inv.
  - apply wp_modify, Hfin; done.
Qed.

(** The bytes a data stanza carries. *)
Definition payload (msg : WockyNode) : bytes :=
  match wocky_node_get_child_ns msg (Some "data") (Some NS_IBB) with
  | Some data => default [] (dec <$> content data)
  | None => []
  end.

(** The stanza has a <data/> child with some text. *)
Definition has_data (msg : WockyNode) : Prop :=
  is_Some (wocky_node_get_child_ns msg (Some "data") (Some NS_IBB) ≫= content).

Lemma has_data_Some msg : has_data msg →
  ∃ data text, wocky_node_get_child_ns msg (Some "data") (Some NS_IBB) = Some data ∧
    content data = Some text.
Proof. intros [text (data & ? & ?)%bind_Some]. eauto. Qed.

(** Data that arrives on a stream that is closed or closing is dropped. *)
Lemma inv_ignored acc inc iqs s x :
  state s = GABBLE_BYTESTREAM_STATE_CLOSED ∨ state s = GABBLE_BYTESTREAM_STATE_CLOSING →
  inv acc inc iqs s → inv acc (inc ++ x) iqs s.
Proof.
  intros Hst (Hw & (Hsz & Hb & rest & Hinc & _) & Hq). split_and!; [done| |done].
  split_and!; [done..|]. exists (rest ++ x). split; [by rewrite Hinc, !(assoc_L (++))|].
  unfold early. destruct Hst as [-> | ->]; intros [?|[?|[?|?]]]; done.
Qed.

Lemma inv_receive acc inc iqs s msg is_iq :
  inv acc inc iqs s → has_data msg →
  wp (gabble_bytestream_ibb_receive dec msg is_iq)
    (λ _ s', inv acc
       (if decide (state s = GABBLE_BYTESTREAM_STATE_OPEN) then inc ++ payload msg else inc)
       (if is_iq : bool then msg :: iqs else iqs) s') s.
Proof.
  intros (Hw & (Hsz & Hnb & rest & Hinc & Hrest) & Hq) (data & text & Hd & Ht)%has_data_Some. unfold payload.
  unfold gabble_bytestream_ibb_receive. rewrite Hd, Ht. cbn [fmap option_fmap option_map default].
  apply wp_bind, wp_get.
  assert (∀ s' e, quiet s s' → inv acc inc (if is_iq then msg :: iqs else iqs)
    (if is_iq then log (IqError msg e) s' else s')) as Herr.
  { intros s' e Hqs. assert (inv acc inc iqs s') as (Hw' & Hr' & Hq')
      by (eapply quiet_inv; [done|]; split_and!; try done; split_and!; eauto).
    destruct is_iq; [|done]. split_and!.
    - destruct Hw' as (cs & Hs & ? & ?). exists cs. split_and!; try done.
      unfold sent_ok. cbn. by rewrite sent_iqs_app, app_nil_r.
    - destruct Hr' as (? & ? & r' & ? & ?). split_and!; [done..|]. exists r'. cbn.
      by rewrite delivered_app, app_nil_r.
    - unfold iqs_ok in *. cbn. rewrite answered_app, <- Hq', <- (assoc_L (++)).
      symmetry. apply Permutation_middle. }
  case_bool_decide as Hst.
  { rewrite decide_False by done. specialize (Herr s WOCKY_XMPP_ERROR_BAD_REQUEST (quiet_refl s)).
    by destruct is_iq. }
  rewrite decide_True by done. rewrite Hrest, app_nil_r in Hinc by auto.
  set (str := dec _). destruct (read_blocked s) eqn:Hrb.
  - destruct (Z.ltb_spec READ_BUFFER_MAX_SIZE
      (Z.of_nat (length (default [] (read_buffer s))) + Z.of_nat (length str))) as [Hof|Hfit].
    + apply wp_bind.
      assert (wp (when is_iq (emit (IqError msg WOCKY_XMPP_ERROR_NOT_ACCEPTABLE)))
        (λ _ s', inv acc inc (if is_iq then msg :: iqs else iqs) s' ∧ state s' = state s) s) as Hs1.
      { specialize (Herr s WOCKY_XMPP_ERROR_NOT_ACCEPTABLE (quiet_refl s)). by destruct is_iq. }
      eapply wp_mono; [|exact Hs1]. intros [] s1 [Hi1 Hst1].
      eapply wp_mono; [|apply close_quiet]. intros [] s2 (Hq2 & Hst2 & _).
      apply inv_ignored; [|by eapply quiet_inv].
      rewrite Hst2. case_decide; tauto.
    + apply wp_bind, wp_modify.
      assert (inv acc (inc ++ str) iqs
        (with_read_buffer (Some (default [] (read_buffer s) ++ str)) s)) as Hi1.
      { split_and!; [done| |done]. split_and!; cbn; [rewrite length_app; lia|congruence|].
        exists []. rewrite app_nil_r, Hinc, <- (assoc_L (++)). done. }
      apply wp_when; intros ->; [|done]. apply wp_modify.
      destruct Hi1 as (Hw1 & Hr1 & Hq1). split_and!; [done..|].
      unfold iqs_ok in *. cbn in *. rewrite <- Hq1. symmetry. apply Permutation_middle.
  - rewrite Hnb in Hinc by done. cbn in Hinc. rewrite app_nil_r in Hinc.
    apply wp_bind, wp_modify.
    assert (inv acc (inc ++ str) iqs (log (DataReceived str) s)) as (Hw1 & Hr1 & Hq1).
    { split_and!.
      - destruct Hw as (cs & Hs & ? & ?). exists cs. split_and!; try done.
        unfold sent_ok. cbn. by rewrite sent_iqs_app, app_nil_r.
      - split_and!; [done|by intros _; apply Hnb|]. exists [].
        cbn. rewrite delivered_app, Hnb, Hinc by done.
        unfold delivered at 3. cbn. by rewrite !app_nil_r.
      - unfold iqs_ok in *. cbn. by rewrite answered_app, app_nil_r. }
    apply wp_when; intros ->; [|done]. apply wp_modify. split_and!.
    + destruct Hw1 as (cs & Hs & ? & ?). exists cs. split_and!; try done.
      unfold sent_ok. cbn. by rewrite sent_iqs_app, app_nil_r.
    + destruct Hr1 as (? & ? & r' & ? & ?). split_and!; [done..|]. exists r'. cbn.
      by rewrite (delivered_app (events s ++ _)), app_nil_r.
    + unfold iqs_ok in *. cbn in *. rewrite (answered_app (events s ++ _)), <- Hq1, <- (assoc_L (++)).
      symmetry. apply Permutation_middle.
Qed.

Lemma inv_block_reading acc inc iqs s b :
  inv acc inc iqs s → wp (gabble_bytestream_ibb_block_reading b) (λ _ s', inv acc inc iqs s') s.
Proof.
  intros (Hw & (Hsz & Hnb & rest & Hinc & Hrest) & Hq).
  unfold gabble_bytestream_ibb_block_reading. apply wp_bind, wp_get.
  case_bool_decide as Hb; [by split_and!; try done; split_and!; eauto|].
  apply wp_bind, wp_modify. destruct (read_buffer s) as [buf|] eqn:Hrb.
  2: { split_and!; [done| |done]. split_and!; cbn; rewrite ?Hrb; eauto. }
  destruct b.
  { split_and!; [done| |done]. split_and!; cbn; rewrite ?Hrb; eauto; done. }
  apply wp_bind, wp_modify, wp_bind, wp_modify, wp_bind, emit_all_spec, wp_modify.
  rewrite log_all_eq.
  destruct (no_data_events Acknowledge (reverse (received_stanzas_not_acked s))) as [H1 H2]; [done|].
  split_and!.
  - destruct Hw as (cs & Hs & ? & ?). exists cs. split_and!; try done.
    unfold sent_ok. cbn. by rewrite !sent_iqs_app, H1, !app_nil_r.
  - split_and!; cbn; [unfold READ_BUFFER_MAX_SIZE; lia|done|]. exists rest.
    rewrite !delivered_app, H2, app_nil_r, Hinc, <- (assoc_L (++)).
    unfold delivered at 3. cbn. by rewrite app_nil_r.
  - unfold iqs_ok in *. cbn. rewrite !answered_app, answered_acks, <- Hq, !app_nil_r.
    by rewrite reverse_Permutation.
Qed.

(** ** The bytestream in its environment *)

Inductive input :=
  | Send (str : bytes)
  | DataReply (key : nat) (ok : bool)
  | Receive (msg : WockyNode) (is_iq : bool)
  | Accept (sent : bool) (func : WockyNode → WockyNode)
  | Initiate (sent : bool)
  | InitReply (error : bool)
  | PeerOpen (bsize : option string)
  | PeerClose (iq : WockyNode)
  | Close (error : option string)
  | BlockReading (block : bool)
  | Dispose.

(** A data stanza is answered once; the factory dispatches only stanzas with
    a <data/> child, which has some text here (see [ibb_empty_data_faults]);
    the answer to <open/> comes while initiating. *)
Definition enabled (s : GabbleBytestreamIBB) (i : input) : Prop :=
  match i with
  | DataReply key _ => key ∈ sent_stanzas_not_acked s
  | Receive msg _ => has_data msg
  | InitReply _ => state s = GABBLE_BYTESTREAM_STATE_INITIATING
  | _ => True
  end.

Definition handle (i : input) : MI bool :=
  match i with
  | Send str => gabble_bytestream_ibb_send enc str
  | DataReply key ok => iq_reply_cb enc key ok ;; mret true
  | Receive msg is_iq => gabble_bytestream_ibb_receive dec msg is_iq ;; mret true
  | Accept sent func => gabble_bytestream_ibb_accept sent func ;; mret true
  | Initiate sent => gabble_bytestream_ibb_initiate sent
  | InitReply error => ibb_init_reply_cb error ;; mret true
  | PeerOpen bsize => open_received bsize
  | PeerClose iq => gabble_bytestream_ibb_close_received iq ;; mret true
  | Close error => gabble_bytestream_ibb_close error ;; mret true
  | BlockReading block => gabble_bytestream_ibb_block_reading block ;; mret true
  | Dispose => gabble_bytestream_ibb_dispose ;; mret true
  end.

(** What the environment has seen: the data accepted for sending, the data
    that arrived while the stream was open, the data IQs received. *)
Record history := mkHistory { accepted : bytes; arrived : bytes; data_iqs : list WockyNode }.

Definition record_input (s : GabbleBytestreamIBB) (i : input) (r : bool) (h : history) : history :=
  match i with
  | Send str => mkHistory (if r then accepted h ++ str else accepted h) (arrived h) (data_iqs h)
  | Receive msg is_iq =>
      mkHistory (accepted h)
        (if decide (state s = GABBLE_BYTESTREAM_STATE_OPEN)
         then arrived h ++ payload msg else arrived h)
        (if is_iq then msg :: data_iqs h else data_iqs h)
  | _ => h
  end.

Inductive reachable (s0 : GabbleBytestreamIBB) : GabbleBytestreamIBB → history → Prop :=
  | reach_start : reachable s0 s0 (mkHistory [] [] [])
  | reach_step s h i r s' :
      reachable s0 s h → enabled s i → handle i s = Ok (r, s') →
      reachable s0 s' (record_input s i r h).

Definition inv_h (h : history) (s : GabbleBytestreamIBB) : Prop :=
  inv (accepted h) (arrived h) (data_iqs h) s.

Lemma inv_new sid init_id jid resource st bs :
  0 <= bs → inv [] [] [] (new_ibb sid init_id jid resource st bs).
Proof.
  intros Hbs. split_and!; [|split_and!|exact (Permutation_refl [])].
  - exists []. split_and!; [split; cbn; try done|done|done].
    + rewrite size_empty. unfold WINDOW_SIZE. lia.
  - cbn. unfold READ_BUFFER_MAX_SIZE. lia.
  - done.
  - by exists [].
Qed.

Lemma inv_open acc inc iqs s bsize :
  inv acc inc iqs s → wp (open_received bsize) (λ _ s', inv acc inc iqs s') s.
Proof.
  intros Hinv. unfold open_received. apply wp_bind, wp_get.
  case_bool_decide as Hst; [done|].
  assert (early (state s)) as He by (rewrite Hst; by right; left).
  assert (wp (match bsize with
    | Some tmp => when (0 <? u32 (strtoul tmp)) (modify (with_block_size (u32 (strtoul tmp))))
    | None => mret tt end) (λ _ s', inv acc inc iqs s' ∧ state s' = state s) s) as H1.
  { destruct bsize as [tmp|]; [|done]. apply wp_when; intros _; [|done].
    apply wp_modify. split; [|done]. destruct Hinv as ((cs & [] & Hacc & Hearly) & Hr & Hq).
    split_and!; [|done..]. exists cs. destruct (Hearly He) as [-> Hwb].
    split_and!; [split; try done|done|done]. by apply wrap_bounds. }
  apply wp_bind. eapply wp_mono; [|exact H1]. intros [] s1 [Hi1 Hst1]. apply wp_bind.
  eapply wp_mono; [|apply set_state_quiet].
  - intros [] s2 (Hq & _). apply wp_ret. by eapply quiet_inv.
  - rewrite Hst1. split; [by intros [?|[?|?]]|auto].
Qed.

Lemma handle_inv s h i :
  inv_h h s → enabled s i → wp (handle i) (λ r s', inv_h (record_input s i r h) s') s.
Proof.
  unfold inv_h. intros Hinv He.
  assert (∀ m : MI unit, wp m (λ _ s', inv (accepted h) (arrived h) (data_iqs h) s') s →
    wp (m ;; mret true) (λ _ s', inv (accepted h) (arrived h) (data_iqs h) s') s) as Hret.
  { intros m Hm. apply wp_bind. eapply wp_mono; [|exact Hm]. by intros [] s' H. }
  destruct i as [str|key ok|msg is_iq|sent func|sent|error|bsize|iq|error|b|]; cbn in *.
  - eapply wp_mono; [|by apply inv_send]. intros r s' (H & _). by destruct r.
  - by apply Hret, inv_reply.
  - apply wp_bind. eapply wp_mono; [|by apply inv_receive]. intros [] s' H. by apply wp_ret.
  - apply Hret. unfold gabble_bytestream_ibb_accept. apply wp_bind, wp_get.
    case_bool_decide as Hst; [done|]. cbn -[set_state].
    apply wp_when; intros _; [|done]. apply wp_bind, wp_modify.
    eapply wp_mono; [|apply set_state_quiet].
    + intros [] s' (Hq & _). eapply quiet_inv; [done|]. eapply quiet_inv; [|exact Hinv]. solve_quiet.
    + split; [intros _; by left|done].
  - unfold gabble_bytestream_ibb_initiate. apply wp_bind, wp_get. case_bool_decide; [done|].
    apply wp_bind, wp_when; intros _; [|done]. apply wp_modify, wp_ret.
    eapply quiet_inv; [|exact Hinv]. solve_quiet.
  - apply Hret. unfold ibb_init_reply_cb. destruct error; cbn [negb];
      (eapply wp_mono; [|apply set_state_quiet]);
      [intros [] s' (Hq & _); by eapply quiet_inv|apply may_become_end; by right
      |intros [] s' (Hq & _); by eapply quiet_inv|].
    split; [by intros [?|[?|?]]|]. intros _. right. rewrite He. by right; right.
  - by apply inv_open.
  - apply Hret, wp_bind, wp_modify. eapply wp_mono; [|apply close_quiet].
    intros [] s' (Hq & _). eapply quiet_inv; [done|]. eapply quiet_inv; [|exact Hinv]. solve_quiet.
  - apply Hret. eapply wp_mono; [|apply close_quiet].
    intros [] s' (Hq & _). by eapply quiet_inv.
  - by apply Hret, inv_block_reading.
  - apply Hret. unfold gabble_bytestream_ibb_dispose. apply wp_bind, wp_get.
    destruct (dispose_has_run s); [done|]. apply wp_bind, wp_modify, wp_bind.
    assert (inv (accepted h) (arrived h) (data_iqs h) (with_disposed s)) as H1
      by (eapply quiet_inv; [|exact Hinv]; solve_quiet).
    assert (∀ s', inv (accepted h) (arrived h) (data_iqs h) s' →
      wp (s ← get; match close_iq_to_ack s with
          | Some iq => emit (AcknowledgeClose iq) ;; modify (with_close_iq None)
          | None => mret tt end) (λ _ s', inv (accepted h) (arrived h) (data_iqs h) s') s') as H2.
    { intros s' Hs'. apply wp_bind, wp_get. destruct (close_iq_to_ack s'); [|done].
      apply wp_bind, wp_modify, wp_modify. eapply quiet_inv; [|exact Hs']. solve_quiet. }
    apply wp_when; intros _; [|by apply H2].
    eapply wp_mono; [|apply close_quiet]. intros [] s' (Hq & _). by eapply H2, quiet_inv.
Qed.

#[global] Instance enabled_dec s i : Decision (enabled s i).
Proof. destruct i; cbn; apply _. Defined.

(** Running a sequence of enabled inputs. *)
Fixpoint run (l : list input) (s : GabbleBytestreamIBB) (h : history) :
    option (GabbleBytestreamIBB * history) :=
  match l with
  | [] => Some (s, h)
  | i :: l' =>
      if decide (enabled s i)
      then match handle i s with
           | Ok (r, s') => run l' s' (record_input s i r h)
           | Abort _ => None
           end
      else None
  end.

Lemma ibb_run_reachable s0 l s h s' h' :
  reachable s0 s h → run l s h = Some (s', h') → reachable s0 s' h'.
Proof.
  revert s h. induction l as [|i l IH]; intros s h Hr; cbn; [by intros [= -> ->]|].
  case_decide as He; [|done]. destruct (handle i s) as [[r s1]|] eqn:Hh; [|done].
  apply IH. by eapply reach_step.
Qed.

Lemma reachable_inv s0 s h : inv [] [] [] s0 → reachable s0 s h → inv_h h s.
Proof.
  intros H0. induction 1 as [|s h i r s' _ IH He Hh]; [done|].
  pose proof (handle_inv s h i IH He) as H. unfold wp in H. by rewrite Hh in H.
Qed.

(** An in-band bytestream handles every input to the end: no
    assertion fails, and the sending loop stops within one window even when
    the block size is 0. *)
Theorem ibb_handles_every_input sid init_id jid resource st bs s h i :
  0 <= bs → reachable (new_ibb sid init_id jid resource st bs) s h → enabled s i →
  ∃ r s', handle i s = Ok (r, s').
Proof.
  intros Hbs Hr He. pose proof (handle_inv s h i (reachable_inv _ _ _ (inv_new _ _ _ _ _ _ Hbs) Hr) He) as H.
  unfold wp in H. destruct (handle i s) as [[r s']|]; [by exists r, s'|done].
Qed.

(** At any time, the data accepted for sending is the
    concatenation of what the <data/> stanzas sent so far carry, in order,
    followed by the write buffer; each stanza carries at most a block and is
    numbered one more than the one before it, modulo 2^16; at most ten are
    not acknowledged. *)
Theorem ibb_sends_in_order sid init_id jid resource st bs s h :
  0 <= bs → reachable (new_ibb sid init_id jid resource st bs) s h →
  ∃ cs, sent_iqs (events s) = imap (chunk_iq (peer_jid s) (stream_id s)) cs ∧
    accepted h = concat cs ++ default [] (write_buffer s) ∧
    Forall (λ c, Z.of_nat (length c) <= block_size s) cs ∧
    (size (sent_stanzas_not_acked s) ≤ 10)%nat.
Proof.
  intros Hbs Hr.
  destruct (reachable_inv _ _ _ (inv_new _ _ _ _ _ _ Hbs) Hr) as ((cs & [] & Hacc & _) & _ & _).
  by exists cs.
Qed.

(** The data delivered to the user followed by what is
    buffered for a blocked reader is a prefix of the data that arrived on
    the open stream, and all of it as long as the stream is open; the buffer
    never exceeds 512 KiB; and every data IQ has been answered exactly once
    or is held until the reader unblocks. *)
Theorem ibb_delivers_in_order sid init_id jid resource st bs s h :
  0 <= bs → reachable (new_ibb sid init_id jid resource st bs) s h →
  (∃ rest, arrived h = delivered (events s) ++ default [] (read_buffer s) ++ rest ∧
     (state s = GABBLE_BYTESTREAM_STATE_OPEN → rest = [])) ∧
  Z.of_nat (length (default [] (read_buffer s))) <= 512 * 1024 ∧
  answered (events s) ++ received_stanzas_not_acked s ≡ₚ data_iqs h.
Proof.
  intros Hbs Hr.
  destruct (reachable_inv _ _ _ (inv_new _ _ _ _ _ _ Hbs) Hr)
    as (_ & (Hsz & _ & rest & Hinc & Hrest) & Hq).
  split_and!; [|done|done]. exists rest. auto.
Qed.

(** *** Both ends *)

Lemma receive_open_spec msg r :
  has_data msg →
  state r = GABBLE_BYTESTREAM_STATE_OPEN → read_blocked r = false →
  wp (gabble_bytestream_ibb_receive dec msg true)
    (λ _ r', state r' = GABBLE_BYTESTREAM_STATE_OPEN ∧ read_blocked r' = false ∧
       delivered (events r') = delivered (events r) ++ payload msg) r.
Proof.
  intros (d & text & Hd & Ht)%has_data_Some Hst Hrb.
  unfold gabble_bytestream_ibb_receive, payload. rewrite Hd, Ht.
  apply wp_bind, wp_get. rewrite bool_decide_eq_false_2 by congruence. rewrite Hrb.
  apply wp_bind, wp_modify, wp_modify. split_and!; [done..|]. cbn.
  rewrite !delivered_app. unfold delivered. cbn. by rewrite !app_nil_r.
Qed.

Lemma receive_all_spec (f : nat → bytes → WockyNode) cs r :
  (∀ i c, has_data (f i c) ∧
     payload (f i c) = c) →
  state r = GABBLE_BYTESTREAM_STATE_OPEN → read_blocked r = false →
  ∀ tail,
  wp (for_each (imap f cs) (λ iq, gabble_bytestream_ibb_receive dec iq true))
    (λ _ r', delivered (events r') ++ tail =
       (delivered (events r) ++ concat cs) ++ tail) r.
Proof.
  intros Hf Hst Hrb tail. revert f Hf r Hst Hrb.
  induction cs as [|c cs IH]; intros f Hf r Hst Hrb.
  { cbn. by rewrite app_nil_r. }
  destruct (Hf 0%nat c) as [Hd Hp]. cbn [imap for_each]. apply wp_bind.
  eapply wp_mono; [|by apply receive_open_spec]. intros [] r1 (Hst1 & Hrb1 & Hd1).
  eapply wp_mono; [|apply (IH (f ∘ S)); [intros; apply Hf|done..]].
  intros [] r2 ->. rewrite Hd1, Hp. cbn. by rewrite <- !(assoc_L (++)).
Qed.

(** C32: When decoding undoes encoding and the block size is
    not negative, feeding the <data/> stanzas that one in-band bytestream has
    sent, in any state it can reach, to a stream that is open and whose reader
    is not blocked delivers exactly the data the sender accepted, less what it
    still holds in its write buffer. *)
Theorem ibb_end_to_end sid init_id jid resource st bs s h r :
  (∀ x, dec (enc x) = x) →
  0 <= bs → reachable (new_ibb sid init_id jid resource st bs) s h →
  state r = GABBLE_BYTESTREAM_STATE_OPEN → read_blocked r = false →
  wp (for_each (sent_iqs (events s)) (λ iq, gabble_bytestream_ibb_receive dec iq true))
    (λ _ r', delivered (events r') ++ default [] (write_buffer s) =
             delivered (events r) ++ accepted h) r.
Proof.
  intros Hdec Hbs Hr Hst Hrb.
  destruct (reachable_inv _ _ _ (inv_new _ _ _ _ _ _ Hbs) Hr) as ((cs & Hs & Hacc & _) & _ & _).
  destruct Hs as [_ _ _ Hiqs _ _]. rewrite Hiqs, Hacc, (assoc_L (++)). clear Hiqs Hacc.
  apply (receive_all_spec (chunk_iq (peer_jid s) (stream_id s))); [|done..].
  intros i c. split; [by eexists|]. cbn. apply Hdec.
Qed.

(** ** Closing with data in the buffer *)

(** Closing, with data left to send and nothing in flight whose
    acknowledgement would send it. *)
Definition stuck (b : bytes) (s : GabbleBytestreamIBB) : Prop :=
  state s = GABBLE_BYTESTREAM_STATE_CLOSING ∧ write_buffer s = Some b ∧
  sent_stanzas_not_acked s = ∅.

Lemma close_stuck b e s : stuck b s → wp (gabble_bytestream_ibb_close e) (λ _, stuck b) s.
Proof.
  intros (Hst & Hwb & Hs). eapply wp_mono; [|apply close_quiet].
  intros [] s' ([] & Hst' & _). unfold stuck. rewrite Hst', q_wb0, Hwb; rewrite decide_False by (rewrite Hst; intros [?|[?|?]]; congruence).
  split_and!; [done..|set_solver].
Qed.

(** Once every stanza in flight has been answered with an
    error while data is left in the write buffer, the stream stays in the
    closing state whatever happens: the close stanza is never sent and the
    stream never becomes closed, not even when it is disposed of. *)
Theorem ibb_stuck_closing b s i :
  stuck b s → enabled s i → wp (handle i) (λ _, stuck b) s.
Proof.
  intros Hstuck He. pose proof Hstuck as (Hst & Hwb & Hs).
  assert (∀ m : MI unit, wp m (λ _, stuck b) s → wp (m ;; mret true) (λ _, stuck b) s) as Hret.
  { intros m Hm. apply wp_bind. eapply wp_mono; [|exact Hm]. by intros [] s' H. }
  destruct i as [str|key ok|msg is_iq|sent func|sent|error|bsize|iq|error|blk|];
    cbn [handle enabled] in *; try (rewrite Hst in He; done).
  - apply wp_bind, wp_get. rewrite bool_decide_eq_true_2 by congruence. by apply wp_ret.
  - set_solver.
  - apply Hret. unfold gabble_bytestream_ibb_receive. destruct (has_data_Some _ He) as (d & ? & -> & _).
    apply wp_bind, wp_get. rewrite bool_decide_eq_true_2 by congruence.
    by apply wp_when; intros _; [apply wp_modify|].
  - apply Hret, wp_bind, wp_get. rewrite bool_decide_eq_true_2 by congruence. by apply wp_ret.
  - apply wp_bind, wp_get. rewrite bool_decide_eq_true_2 by congruence. by apply wp_ret.
  - apply wp_bind, wp_get. rewrite bool_decide_eq_true_2 by congruence. by apply wp_ret.
  - apply Hret, wp_bind, wp_modify. by apply close_stuck.
  - apply Hret. by apply close_stuck.
  - apply Hret, wp_bind, wp_get. case_bool_decide; [done|]. apply wp_bind, wp_modify.
    destruct (read_buffer s), blk; try done.
    apply wp_bind, wp_modify, wp_bind, wp_modify, wp_bind, emit_all_spec, wp_modify.
    by rewrite log_all_eq.
  - apply Hret, wp_bind, wp_get. destruct (dispose_has_run s); [done|].
    apply wp_bind, wp_modify, wp_bind, wp_when; rewrite Hst; [|done]. intros _.
    eapply wp_mono; [|by apply (close_stuck b None (with_disposed s))].
    intros [] s' Hs'. apply wp_bind, wp_get. destruct (close_iq_to_ack s'); [|done].
    by apply wp_bind, wp_modify, wp_modify.
Qed.

(** A <data/> stanza without text on an open stream makes
    the code use an uninitialised length. *)
Lemma ibb_empty_data_faults msg data is_iq s :
  wocky_node_get_child_ns msg (Some "data") (Some NS_IBB) = Some data →
  content data = None → state s = GABBLE_BYTESTREAM_STATE_OPEN →
  gabble_bytestream_ibb_receive dec msg is_iq s = Abort MemoryFault.
Proof.
  intros Hd Hc Hs. unfold gabble_bytestream_ibb_receive. rewrite Hd, Hc.
  erewrite bind_eq by done. cbv beta. by rewrite bool_decide_eq_false_2 by congruence.
Qed.

(** Closing a stream while the answer to <open/> is on its
    way closes it, and a positive answer opens it again. *)
Theorem ibb_reply_after_close_reopens sid init_id jid resource bs e :
  wp (gabble_bytestream_ibb_initiate true ;;
      gabble_bytestream_ibb_close e ;;
      s ← get;
      ibb_init_reply_cb false ;;
      mret (state s))
    (λ st s', st = GABBLE_BYTESTREAM_STATE_CLOSED ∧ state s' = GABBLE_BYTESTREAM_STATE_OPEN)
    (new_ibb sid init_id jid resource GABBLE_BYTESTREAM_STATE_INITIATING bs).
Proof. by unfold wp, mbind, M_bind. Qed.
End invariants.

(** ** The stream as an object with signals *)

Definition to_signal (e : ibb_event) : option bytestream_signal :=
  match e with
  | DataReceived d => Some (SigDataReceived d)
  | StateChanged st => Some (SigStateChanged st)
  | WriteBlocked b => Some (SigWriteBlocked b)
  | _ => None
  end.

Section object.
Context (enc : bytes → string) (dec : string → bytes).

#[global] Instance ibb_object : @BytestreamObject GabbleBytestreamIBB (ibb_iface enc) := {
  signals := λ s, omap to_signal (events s);
  vset_state := set_state;
  vprotocol := λ _, NS_IBB;
  own_input := input;
  own_handle := λ i, handle enc dec i ;; mret tt;
}.

Local Notation tracks := (@tracks GabbleBytestreamIBB (ibb_iface enc) ibb_object _).

Lemma tracks_ibb_emit e :
  match e with StateChanged _ => False | _ => True end → tracks (emit e).
Proof.
  intros He s a s' [= <- <-]. exists (omap to_signal [e]). cbn [signals ibb_object].
  split; [apply omap_app|]. by destruct e.
Qed.

Lemma tracks_set_state_ibb st : tracks (set_state st).
Proof.
  intros s a s'. unfold set_state, mbind, M_bind, get. case_bool_decide as Hst; cbn.
  - intros [= <- <-]. exists [SigStateChanged st]. cbn. by rewrite omap_app.
  - intros [= <- <-]. exists []. by rewrite app_nil_r.
Qed.
Local Hint Resolve tracks_set_state_ibb : tracks.
Local Hint Extern 1 (BytestreamIface.tracks (emit _)) => apply tracks_ibb_emit; exact I : tracks.
Local Hint Extern 1 (BytestreamIface.tracks (modify _)) =>
  apply tracks_modify; intros ?; by split : tracks.

Lemma tracks_send_loop fuel str len sent : tracks (send_data_loop enc fuel str len sent).
Proof. revert sent. induction fuel; intros sent; cbn; solve_tracks. Qed.
Local Hint Resolve tracks_send_loop : tracks.

Lemma tracks_ibb_close e : tracks (gabble_bytestream_ibb_close e).
Proof.
  unfold gabble_bytestream_ibb_close, gabble_bytestream_ibb_decline, send_close_stanza. solve_tracks.
Qed.
Local Hint Resolve tracks_ibb_close : tracks.

Lemma tracks_ibb_send d : tracks (gabble_bytestream_ibb_send enc d).
Proof.
  unfold gabble_bytestream_ibb_send, send_data, change_write_blocked_state. solve_tracks.
Qed.

Lemma tracks_ibb_block b : tracks (gabble_bytestream_ibb_block_reading b).
Proof. unfold gabble_bytestream_ibb_block_reading. solve_tracks. Qed.

Lemma tracks_ibb_initiate b : tracks (gabble_bytestream_ibb_initiate b).
Proof. unfold gabble_bytestream_ibb_initiate. solve_tracks. Qed.

Lemma tracks_ibb_accept b f : tracks (gabble_bytestream_ibb_accept b f).
Proof. unfold gabble_bytestream_ibb_accept. solve_tracks. Qed.
Local Hint Resolve tracks_ibb_send tracks_ibb_block tracks_ibb_initiate tracks_ibb_accept : tracks.

Lemma tracks_ibb_handle i : tracks (handle enc dec i).
Proof.
  destruct i; cbn [handle]; solve_tracks; unfold iq_reply_cb, send_data, change_write_blocked_state,
    send_close_stanza, gabble_bytestream_ibb_receive, ibb_init_reply_cb, open_received,
    gabble_bytestream_ibb_close_received, gabble_bytestream_ibb_dispose; solve_tracks.
Qed.

#[global] Instance ibb_tracks : @BytestreamTracks GabbleBytestreamIBB (ibb_iface enc) ibb_object.
Proof.
  split; cbn; intros; auto with tracks nocore.
  - apply tracks_bind; [apply tracks_ibb_handle|]. intros. apply tracks_ret.
  - assert (wp (gabble_bytestream_ibb_block_reading b) (λ _ s'', state s'' = state s) s) as Hw.
    { apply wp_bind, wp_get. case_bool_decide; [done|]. apply wp_bind, wp_modify.
      destruct (read_buffer s), b; try done.
      apply wp_bind, wp_modify, wp_bind, wp_modify, wp_bind, emit_all_spec, wp_modify.
      by rewrite log_all_eq. }
    unfold wp in Hw. change (gabble_bytestream_ibb_block_reading b s = Ok (a, s')) in H.
    by rewrite H in Hw.
Qed.

End object.

(** ** A sample run

    The identity stands for base64.  A stream with one-byte blocks sends
    twelve bytes: ten go out, two are buffered. *)

Definition id_encode : bytes → string := String.string_of_list_ascii.
Definition id_decode : string → bytes := String.list_ascii_of_string.

Definition sample_start : GabbleBytestreamIBB :=
  new_ibb "sid" "init" "peer@example.com" (Some "res") GABBLE_BYTESTREAM_STATE_INITIATING 1.

Definition sample_inputs : list input :=
  [Initiate true; InitReply false; BlockReading true; Send (String.list_ascii_of_string "hello, world");
   Receive (data_iq "me" "sid" "hi" 0) true].

Definition sample (l : list input) : GabbleBytestreamIBB * history :=
  default (sample_start, mkHistory [] [] [])
    (run id_encode id_decode l sample_start (mkHistory [] [] [])).

Lemma ibb_sample_reachable l :
  is_Some (run id_encode id_decode l sample_start (mkHistory [] [] [])) →
  reachable id_encode id_decode sample_start (sample l).1 (sample l).2.
Proof.
  intros [[s h] Hs]. unfold sample. rewrite Hs. cbn.
  eapply ibb_run_reachable; [apply reach_start|done].
Qed.

Lemma ibb_handles_every_input_witness :
  ∃ r s', handle id_encode id_decode (DataReply 0 true) (sample sample_inputs).1 = Ok (r, s').
Proof.
  eapply (ibb_handles_every_input id_encode id_decode "sid" "init" "peer@example.com" (Some "res")
    GABBLE_BYTESTREAM_STATE_INITIATING 1); [done|apply ibb_sample_reachable; by vm_compute; eexists|].
  apply (bool_decide_unpack _). by vm_compute.
Defined.

Lemma ibb_sends_in_order_witness :
  let s := (sample sample_inputs).1 in
  let h := (sample sample_inputs).2 in
  write_buffer s = Some (String.list_ascii_of_string "ld") ∧
  ∃ cs, sent_iqs (events s) = imap (chunk_iq id_encode (peer_jid s) (stream_id s)) cs ∧
    accepted h = concat cs ++ default [] (write_buffer s) ∧
    Forall (λ c, Z.of_nat (length c) <= block_size s) cs ∧
    (size (sent_stanzas_not_acked s) ≤ 10)%nat.
Proof.
  intros s h. split; [by vm_compute|].
  eapply (ibb_sends_in_order id_encode id_decode "sid" "init" "peer@example.com" (Some "res")
    GABBLE_BYTESTREAM_STATE_INITIATING 1); [done|apply ibb_sample_reachable; by vm_compute; eexists].
Defined.

Lemma ibb_delivers_in_order_witness :
  let s := (sample sample_inputs).1 in
  let h := (sample sample_inputs).2 in
  read_buffer s = Some (String.list_ascii_of_string "hi") ∧
  (∃ rest, arrived h = delivered (events s) ++ default [] (read_buffer s) ++ rest ∧
     (state s = GABBLE_BYTESTREAM_STATE_OPEN → rest = [])) ∧
  Z.of_nat (length (default [] (read_buffer s))) <= 512 * 1024 ∧
  answered (events s) ++ received_stanzas_not_acked s ≡ₚ data_iqs h.
Proof.
  intros s h. split; [by vm_compute|].
  eapply (ibb_delivers_in_order id_encode id_decode "sid" "init" "peer@example.com" (Some "res")
    GABBLE_BYTESTREAM_STATE_INITIATING 1); [done|apply ibb_sample_reachable; by vm_compute; eexists].
Defined.

Lemma ibb_end_to_end_witness :
  let s := (sample sample_inputs).1 in
  let h := (sample sample_inputs).2 in
  let r := new_ibb "sid" "init" "a@example.com" None GABBLE_BYTESTREAM_STATE_OPEN 4096 in
  wp (for_each (sent_iqs (events s)) (λ iq, gabble_bytestream_ibb_receive id_decode iq true))
    (λ _ r', delivered (events r') ++ default [] (write_buffer s) =
             delivered (events r) ++ accepted h) r.
Proof.
  intros s h r.
  refine (ibb_end_to_end id_encode id_decode "sid" "init" "peer@example.com" (Some "res")
    GABBLE_BYTESTREAM_STATE_INITIATING 1 s h r _ _ _ _ _); [|done| |done|done].
  - exact String.list_ascii_of_string_of_list_ascii.
  - apply ibb_sample_reachable. by vm_compute; eexists.
Defined.

(** The ten stanzas in flight are all refused. *)
Definition refused : GabbleBytestreamIBB :=
  (sample (sample_inputs ++ ((λ k, DataReply k false) <$> List.seq 0 10))).1.

Lemma ibb_stuck_closing_witness :
  wp (handle id_encode id_decode Dispose)
    (λ _, stuck (String.list_ascii_of_string "ld")) refused.
Proof.
  apply ibb_stuck_closing; [|done]. split_and!; vm_compute; reflexivity.
Defined.

Lemma closed_calls_noop_witness :
  let s := new_ibb "sid" "init" "a@example.com" None GABBLE_BYTESTREAM_STATE_CLOSED 4096 in
  for_each [CInitiate true; CSend []; CClose None]
    (@do_call _ (ibb_iface id_encode)) s = Ok (tt, s).
Proof. apply (@closed_calls_noop _ (ibb_iface id_encode) (ibb_laws id_encode)). reflexivity. Defined.

End BytestreamIBB.
