(* ===== verification/BytestreamSocks5.v ===== *)
(** * SOCKS5 bytestreams (src/bytestream-socks5.c)

    The SOCKS5 negotiation of both ends, over a TCP transport (gibber).  The
    transport's answers (whether the next write fails, in which case it
    disconnects synchronously; whether its output buffer is empty), the local
    interfaces, the listener and the known proxies are the environment, held
    in [env].  [sha1_hex] is an argument.  Reading the received bytes out of
    bounds, or using a NULL transport, is a [MemoryFault]. *)

From stdpp Require Import list.
From S2P Require Import Prelude Node Namespaces BytestreamIface.

Module BytestreamSocks5.

(** ** Data *)

Inductive Socks5State :=
  | SOCKS5_STATE_INVALID
  | SOCKS5_STATE_TARGET_TRYING_CONNECT
  | SOCKS5_STATE_TARGET_AUTH_REQUEST_SENT
  | SOCKS5_STATE_TARGET_CONNECT_REQUESTED
  | SOCKS5_STATE_CONNECTED
  | SOCKS5_STATE_INITIATOR_OFFER_SENT
  | SOCKS5_STATE_INITIATOR_AWAITING_AUTH_REQUEST
  | SOCKS5_STATE_INITIATOR_AWAITING_COMMAND
  | SOCKS5_STATE_INITIATOR_TRYING_CONNECT
  | SOCKS5_STATE_INITIATOR_AUTH_REQUEST_SENT
  | SOCKS5_STATE_INITIATOR_CONNECT_REQUESTED
  | SOCKS5_STATE_INITIATOR_ACTIVATION_SENT
  | SOCKS5_STATE_ERROR.

#[global] Instance Socks5State_eq_dec : EqDecision Socks5State.
Proof. solve_decision. Defined.

Definition SOCKS5_VERSION : Z := 5.
Definition SOCKS5_CMD_CONNECT : Z := 1.
Definition SOCKS5_RESERVED : Z := 0.
Definition SOCKS5_ATYP_DOMAIN : Z := 3.
Definition SOCKS5_STATUS_OK : Z := 0.
Definition SOCKS5_AUTH_NONE : Z := 0.
Definition SHA1_LENGTH : Z := 40.
Definition SOCKS5_CONNECT_LENGTH : Z := 7 + SHA1_LENGTH.
Definition SOCKS5_MIN_LENGTH : Z := 6.

Record Streamhost := mkStreamhost { sh_jid : string; sh_host : string; sh_port : Z }.

Inductive transport_state := TConnecting | TConnected | TDisconnected.

#[global] Instance transport_state_eq_dec : EqDecision transport_state.
Proof. solve_decision. Defined.

Record Transport := mkTransport { t_state : transport_state; t_rx_blocked : bool }.

Record Env := mkEnv {
  tx_fails : bool;
  tx_empty : bool;
  local_ips : list string;
  listen_ok : bool;
  listen_port : Z;
  proxies : list Streamhost;
}.

Inductive s5_event :=
  | Wrote (data : bytes)
  | ConnectTo (host : string) (port : Z)
  | DataReceived (data : bytes)
  | StateChanged (st : GabbleBytestreamState)
  | WriteBlocked (b : bool)
  | ConnectionError
  | AckStreamhost (iq : WockyNode) (jid : string)
  | NoStreamhost (iq : WockyNode)
  | SendActivate (iq : WockyNode)
  | SendOffer (iq : WockyNode)
  | SendAccept (iq : WockyNode)
  | SendDecline (to id : string) (e : decline_error).

Record GabbleBytestreamSocks5 := mkS5 {
  stream_id : string;
  stream_init_id : string;
  bytestream_state : GabbleBytestreamState;
  peer_jid : string;
  self_full_jid : string;
  proxy_jid : option string;
  muc_contact : bool;
  streamhosts : list Streamhost;
  msg_for_acknowledge_connection : option WockyNode;
  socks5_state : Socks5State;
  transport : option Transport;
  write_blocked : bool;
  read_blocked : bool;
  listener : bool;
  timer_id : bool;
  read_buffer : option bytes;
  dispose_has_run : bool;
  env : Env;
  events : list s5_event;
}.

Local Notation M5 := (M GabbleBytestreamSocks5).

Definition new_socks5 (sid init_id peer self : string) (muc : bool)
    (st : GabbleBytestreamState) (e : Env) : GabbleBytestreamSocks5 :=
  mkS5 sid init_id st peer self None muc [] None SOCKS5_STATE_INVALID None
    false false false false None false e [].

Definition with_bstate x (s : GabbleBytestreamSocks5) :=
  mkS5 (stream_id s) (stream_init_id s) x (peer_jid s) (self_full_jid s) (proxy_jid s)
    (muc_contact s) (streamhosts s) (msg_for_acknowledge_connection s) (socks5_state s)
    (transport s) (write_blocked s) (read_blocked s) (listener s) (timer_id s)
    (read_buffer s) (dispose_has_run s) (env s) (events s).
Definition with_proxy_jid x (s : GabbleBytestreamSocks5) :=
  mkS5 (stream_id s) (stream_init_id s) (bytestream_state s) (peer_jid s) (self_full_jid s) x
    (muc_contact s) (streamhosts s) (msg_for_acknowledge_connection s) (socks5_state s)
    (transport s) (write_blocked s) (read_blocked s) (listener s) (timer_id s)
    (read_buffer s) (dispose_has_run s) (env s) (events s).
Definition with_streamhosts x (s : GabbleBytestreamSocks5) :=
  mkS5 (stream_id s) (stream_init_id s) (bytestream_state s) (peer_jid s) (self_full_jid s)
    (proxy_jid s) (muc_contact s) x (msg_for_acknowledge_connection s) (socks5_state s)
    (transport s) (write_blocked s) (read_blocked s) (listener s) (timer_id s)
    (read_buffer s) (dispose_has_run s) (env s) (events s).
Definition with_msg x (s : GabbleBytestreamSocks5) :=
  mkS5 (stream_id s) (stream_init_id s) (bytestream_state s) (peer_jid s) (self_full_jid s)
    (proxy_jid s) (muc_contact s) (streamhosts s) x (socks5_state s)
    (transport s) (write_blocked s) (read_blocked s) (listener s) (timer_id s)
    (read_buffer s) (dispose_has_run s) (env s) (events s).
Definition with_s5 x (s : GabbleBytestreamSocks5) :=
  mkS5 (stream_id s) (stream_init_id s) (bytestream_state s) (peer_jid s) (self_full_jid s)
    (proxy_jid s) (muc_contact s) (streamhosts s) (msg_for_acknowledge_connection s) x
    (transport s) (write_blocked s) (read_blocked s) (listener s) (timer_id s)
    (read_buffer s) (dispose_has_run s) (env s) (events s).
Definition with_transport x (s : GabbleBytestreamSocks5) :=
  mkS5 (stream_id s) (stream_init_id s) (bytestream_state s) (peer_jid s) (self_full_jid s)
    (proxy_jid s) (muc_contact s) (streamhosts s) (msg_for_acknowledge_connection s)
    (socks5_state s) x (write_blocked s) (read_blocked s) (listener s) (timer_id s)
    (read_buffer s) (dispose_has_run s) (env s) (events s).
Definition with_write_blocked x (s : GabbleBytestreamSocks5) :=
  mkS5 (stream_id s) (stream_init_id s) (bytestream_state s) (peer_jid s) (self_full_jid s)
    (proxy_jid s) (muc_contact s) (streamhosts s) (msg_for_acknowledge_connection s)
    (socks5_state s) (transport s) x (read_blocked s) (listener s) (timer_id s)
    (read_buffer s) (dispose_has_run s) (env s) (events s).
Definition with_read_blocked x (s : GabbleBytestreamSocks5) :=
  mkS5 (stream_id s) (stream_init_id s) (bytestream_state s) (peer_jid s) (self_full_jid s)
    (proxy_jid s) (muc_contact s) (streamhosts s) (msg_for_acknowledge_connection s)
    (socks5_state s) (transport s) (write_blocked s) x (listener s) (timer_id s)
    (read_buffer s) (dispose_has_run s) (env s) (events s).
Definition with_listener x (s : GabbleBytestreamSocks5) :=
  mkS5 (stream_id s) (stream_init_id s) (bytestream_state s) (peer_jid s) (self_full_jid s)
    (proxy_jid s) (muc_contact s) (streamhosts s) (msg_for_acknowledge_connection s)
    (socks5_state s) (transport s) (write_blocked s) (read_blocked s) x (timer_id s)
    (read_buffer s) (dispose_has_run s) (env s) (events s).
Definition with_timer x (s : GabbleBytestreamSocks5) :=
  mkS5 (stream_id s) (stream_init_id s) (bytestream_state s) (peer_jid s) (self_full_jid s)
    (proxy_jid s) (muc_contact s) (streamhosts s) (msg_for_acknowledge_connection s)
    (socks5_state s) (transport s) (write_blocked s) (read_blocked s) (listener s) x
    (read_buffer s) (dispose_has_run s) (env s) (events s).
Definition with_read_buffer x (s : GabbleBytestreamSocks5) :=
  mkS5 (stream_id s) (stream_init_id s) (bytestream_state s) (peer_jid s) (self_full_jid s)
    (proxy_jid s) (muc_contact s) (streamhosts s) (msg_for_acknowledge_connection s)
    (socks5_state s) (transport s) (write_blocked s) (read_blocked s) (listener s) (timer_id s)
    x (dispose_has_run s) (env s) (events s).
Definition with_disposed (s : GabbleBytestreamSocks5) :=
  mkS5 (stream_id s) (stream_init_id s) (bytestream_state s) (peer_jid s) (self_full_jid s)
    (proxy_jid s) (muc_contact s) (streamhosts s) (msg_for_acknowledge_connection s)
    (socks5_state s) (transport s) (write_blocked s) (read_blocked s) (listener s) (timer_id s)
    (read_buffer s) true (env s) (events s).
Definition log (e : s5_event) (s : GabbleBytestreamSocks5) :=
  mkS5 (stream_id s) (stream_init_id s) (bytestream_state s) (peer_jid s) (self_full_jid s)
    (proxy_jid s) (muc_contact s) (streamhosts s) (msg_for_acknowledge_connection s)
    (socks5_state s) (transport s) (write_blocked s) (read_blocked s) (listener s) (timer_id s)
    (read_buffer s) (dispose_has_run s) (env s) (events s ++ [e]).

Definition emit (e : s5_event) : M5 unit := modify (log e).

(** The "state" property. *)
Definition set_state (st : GabbleBytestreamState) : M5 unit :=
  s ← get;
  when (bool_decide (bytestream_state s ≠ st)) (modify (with_bstate st) ;; emit (StateChanged st)).

(** ** Timer, transport *)

Definition stop_timer : M5 unit := modify (with_timer false).

Definition start_timer : M5 unit :=
  s ← get; g_assert (negb (timer_id s)) ;; modify (with_timer true).

Definition change_write_blocked_state (blocked : bool) : M5 unit :=
  s ← get;
  if bool_decide (write_blocked s = blocked) then mret tt
  else modify (with_write_blocked blocked) ;; emit (WriteBlocked blocked).

Definition socks5_close_transport : M5 unit :=
  modify (with_read_buffer None) ;; modify (with_transport None).

Definition bytestream_closed : M5 unit :=
  socks5_close_transport ;; set_state GABBLE_BYTESTREAM_STATE_CLOSED.

Definition transport_buffer_empty_cb : M5 unit :=
  s ← get;
  if bool_decide (bytestream_state s = GABBLE_BYTESTREAM_STATE_CLOSING) then bytestream_closed
  else when (write_blocked s) (change_write_blocked_state false).

Definition set_transport (t : transport_state) : M5 unit :=
  modify (with_transport (Some (mkTransport t false))) ;;
  s ← get;
  g_assert (match read_buffer s with None => true | Some _ => false end) ;;
  modify (with_read_buffer (Some [])).

Definition gibber_transport_block_receiving (block : bool) : M5 unit :=
  s ← get;
  match transport s with
  | Some t => modify (with_transport (Some (mkTransport (t_state t) block)))
  | None => fail MemoryFault
  end.

(** ** Closing *)

Definition gabble_bytestream_socks5_decline (error : option string) : M5 unit :=
  s ← get;
  if bool_decide (bytestream_state s = GABBLE_BYTESTREAM_STATE_LOCAL_PENDING) then
    emit (SendDecline (peer_jid s) (stream_init_id s) (decline_reason error)) ;;
    set_state GABBLE_BYTESTREAM_STATE_CLOSED
  else mret tt.

Definition gabble_bytestream_socks5_close (error : option string) : M5 unit :=
  s ← get;
  if bool_decide (bytestream_state s = GABBLE_BYTESTREAM_STATE_CLOSED) then mret tt
  else if bool_decide (bytestream_state s = GABBLE_BYTESTREAM_STATE_LOCAL_PENDING) then
    gabble_bytestream_socks5_decline error
  else
    set_state GABBLE_BYTESTREAM_STATE_CLOSING ;;
    match transport s with
    | Some _ => if negb (tx_empty (env s)) then mret tt else bytestream_closed
    | None => bytestream_closed
    end.

(** ** Errors and the next streamhost

    [socks5_error] and [socks5_connect] call each other; two levels are
    always enough (see [error_connect_depth]). *)

Fixpoint socks5_error_fuel (fuel : nat) : M5 unit :=
  match fuel with
  | O => fail OutOfFuel
  | S fuel =>
      stop_timer ;;
      s ← get;
      let previous_state := socks5_state s in
      modify (with_s5 SOCKS5_STATE_ERROR) ;;
      match previous_state with
      | SOCKS5_STATE_TARGET_TRYING_CONNECT
      | SOCKS5_STATE_TARGET_AUTH_REQUEST_SENT
      | SOCKS5_STATE_TARGET_CONNECT_REQUESTED =>
          socks5_close_transport ;;
          modify (λ s, with_streamhosts (tail (streamhosts s)) s) ;;
          s ← get;
          match streamhosts s with
          | _ :: _ => socks5_connect_fuel fuel
          | [] =>
              emit ConnectionError ;;
              match msg_for_acknowledge_connection s with
              | None => fail AssertFailed
              | Some msg => emit (NoStreamhost msg) ;; modify (with_msg None)
              end
          end
      | SOCKS5_STATE_INITIATOR_AWAITING_AUTH_REQUEST
      | SOCKS5_STATE_INITIATOR_AWAITING_COMMAND => mret tt
      | _ => gabble_bytestream_socks5_close None
      end
  end
with socks5_connect_fuel (fuel : nat) : M5 unit :=
  match fuel with
  | O => fail OutOfFuel
  | S fuel =>
      modify (with_s5 SOCKS5_STATE_TARGET_TRYING_CONNECT) ;;
      s ← get;
      match streamhosts s with
      | streamhost :: _ =>
          set_transport TConnecting ;;
          start_timer ;;
          emit (ConnectTo (sh_host streamhost) (sh_port streamhost))
      | [] => socks5_error_fuel fuel
      end
  end.

Definition socks5_error : M5 unit := socks5_error_fuel 2.
Definition socks5_connect : M5 unit := socks5_connect_fuel 2.

Definition transport_disconnected_cb : M5 unit := stop_timer ;; socks5_error.

Definition socks5_timer_cb : M5 bool := socks5_error ;; mret false.

(** Writing: a failed write disconnects the transport at once, a complete one
    signals that the output buffer is empty. *)
Definition write_to_transport (data : bytes) : M5 bool :=
  s ← get;
  match transport s with
  | None => fail MemoryFault
  | Some t =>
      g_assert (bool_decide (t_state t = TConnected)) ;;
      if tx_fails (env s) then
        modify (with_transport (Some (mkTransport TDisconnected (t_rx_blocked t)))) ;;
        transport_disconnected_cb ;;
        mret false
      else
        emit (Wrote data) ;;
        when (tx_empty (env s)) transport_buffer_empty_cb ;;
        mret true
  end.

(** ** Bytes *)

Definition byte (c : ascii) : Z := Z.of_nat (nat_of_ascii c).
Definition chr (z : Z) : ascii := ascii_of_nat (Z.to_nat z).

(** [string->str[i]], a signed char. *)
Definition str_at (str : bytes) (i : Z) : M5 Z :=
  match (if i <? 0 then None else str !! Z.to_nat i) with
  | Some c => mret (swrap 8 (byte c))
  | None => fail MemoryFault
  end.

Definition str_len (str : bytes) : Z := Z.of_nat (length str).

(** [strncmp (a, b, n) == 0] on NUL-terminated strings. *)
Fixpoint strncmp_eq (n : nat) (a b : bytes) : bool :=
  match n with
  | O => true
  | S n' =>
      let ca := default Ascii.zero (head a) in
      let cb := default Ascii.zero (head b) in
      if bool_decide (ca ≠ cb) then false
      else if bool_decide (ca = Ascii.zero) then true
      else strncmp_eq n' (tail a) (tail b)
  end.

Definition check_domain (domain : bytes) (len : Z) (expected : bytes) : bool :=
  negb (negb (len =? SHA1_LENGTH) || negb (strncmp_eq (Z.to_nat SHA1_LENGTH) domain expected)).

Fixpoint chars (s : string) : bytes :=
  match s with
  | EmptyString => []
  | String c s' => c :: chars s'
  end.

(** ** Negotiation *)

Definition transport_connected_cb : M5 unit :=
  modify (λ s, match transport s with
               | Some t => with_transport (Some (mkTransport TConnected (t_rx_blocked t))) s
               | None => s
               end) ;;
  stop_timer ;;
  s ← get;
  when (bool_decide (socks5_state s = SOCKS5_STATE_TARGET_TRYING_CONNECT) ||
        bool_decide (socks5_state s = SOCKS5_STATE_INITIATOR_TRYING_CONNECT))
    (write_to_transport [chr SOCKS5_VERSION; chr 1; chr SOCKS5_AUTH_NONE] ;;
     s ← get;
     modify (with_s5
       (if bool_decide (socks5_state s = SOCKS5_STATE_TARGET_TRYING_CONNECT)
        then SOCKS5_STATE_TARGET_AUTH_REQUEST_SENT
        else SOCKS5_STATE_INITIATOR_AUTH_REQUEST_SENT))).

Definition target_got_connect_reply : M5 unit :=
  modify (with_s5 SOCKS5_STATE_CONNECTED) ;;
  set_state GABBLE_BYTESTREAM_STATE_OPEN ;;
  s ← get;
  match streamhosts s, msg_for_acknowledge_connection s with
  | current_streamhost :: _, Some msg =>
      emit (AckStreamhost msg (sh_jid current_streamhost)) ;;
      when (read_blocked s) (gibber_transport_block_receiving true)
  | _, _ => fail MemoryFault
  end.

Definition activate_iq (to sid peer : string) : WockyNode :=
  mkNode "iq" None (Some "jabber:client")
    [mkAttribute "type" "set" None; mkAttribute "to" to None]
    [mkNode "query" None (Some NS_BYTESTREAMS) [mkAttribute "sid" sid None]
       [mkNode "activate" (Some peer) (Some NS_BYTESTREAMS) [] []]].

Definition initiator_got_connect_reply : M5 unit :=
  s ← get;
  modify (with_s5 SOCKS5_STATE_INITIATOR_ACTIVATION_SENT) ;;
  gibber_transport_block_receiving true ;;
  emit (SendActivate (activate_iq (default "" (proxy_jid s)) (stream_id s) (peer_jid s))).

(** [ok]: [conn_util_send_iq_finish]. *)
Definition socks5_activation_reply_cb (ok : bool) : M5 unit :=
  s ← get;
  if ok && bool_decide (socks5_state s = SOCKS5_STATE_INITIATOR_ACTIVATION_SENT) then
    modify (with_s5 SOCKS5_STATE_CONNECTED) ;;
    set_state GABBLE_BYTESTREAM_STATE_OPEN ;;
    gibber_transport_block_receiving false
  else
    emit ConnectionError ;; set_state GABBLE_BYTESTREAM_STATE_CLOSED.

Section negotiation.
Context (sha1_hex : string → string).

Definition compute_domain (sid initiator target : string) : bytes :=
  chars (sha1_hex (sid +:+ initiator +:+ target)).

(** The message of 47 bytes with [code] as CMD or REP; [memcpy] takes the
    first 40 bytes of the domain. *)
Definition connect_msg (code : Z) (domain : bytes) : bytes :=
  [chr SOCKS5_VERSION; chr code; chr SOCKS5_RESERVED; chr SOCKS5_ATYP_DOMAIN; chr SHA1_LENGTH]
  ++ take 40 domain ++ [chr 0; chr 0].

(** SOCKS5_STATE_*_AUTH_REQUEST_SENT *)
Definition handle_auth_reply (str : bytes) : M5 Z :=
  if str_len str <? 2 then mret 0
  else
    c0 ← str_at str 0;
    c1 ← str_at str 1;
    if negb (c0 =? SOCKS5_VERSION) || negb (c1 =? SOCKS5_STATUS_OK) then
      socks5_error ;; mret (-1)
    else
      s ← get;
      let domain :=
        if bool_decide (socks5_state s = SOCKS5_STATE_TARGET_AUTH_REQUEST_SENT)
        then compute_domain (stream_id s) (peer_jid s) (self_full_jid s)
        else compute_domain (stream_id s) (self_full_jid s) (peer_jid s) in
      write_to_transport (connect_msg SOCKS5_CMD_CONNECT domain) ;;
      s ← get;
      modify (with_s5
        (if bool_decide (socks5_state s = SOCKS5_STATE_TARGET_AUTH_REQUEST_SENT)
         then SOCKS5_STATE_TARGET_CONNECT_REQUESTED
         else SOCKS5_STATE_INITIATOR_CONNECT_REQUESTED)) ;;
      start_timer ;;
      mret 2.

(** SOCKS5_STATE_*_CONNECT_REQUESTED *)
Definition handle_connect_reply (str : bytes) : M5 Z :=
  if str_len str <? SOCKS5_MIN_LENGTH then mret 0
  else
    c0 ← str_at str 0;
    c1 ← str_at str 1;
    c2 ← str_at str 2;
    if negb (c0 =? SOCKS5_VERSION) || negb (c1 =? SOCKS5_STATUS_OK) ||
       negb (c2 =? SOCKS5_RESERVED)
    then socks5_error ;; mret (-1)
    else
      c3 ← str_at str 3;
      c4 ← str_at str 4;
      if negb ((c3 =? SOCKS5_ATYP_DOMAIN) || (c3 =? 0)) then socks5_error ;; mret (-1)
      else
        let addr_len := if c3 =? SOCKS5_ATYP_DOMAIN then u8 (u8 c4 + 1) else 0 in
        if u8 (str_len str) <? SOCKS5_MIN_LENGTH + addr_len then mret 0
        else
          stop_timer ;;
          p0 ← str_at str (4 + addr_len);
          p1 ← str_at str (5 + addr_len);
          if negb (p0 =? 0) || negb (p1 =? 0) then socks5_error ;; mret (-1)
          else
            (* a wrong domain is only reported *)
            s ← get;
            (if bool_decide (socks5_state s = SOCKS5_STATE_TARGET_CONNECT_REQUESTED)
             then target_got_connect_reply
             else initiator_got_connect_reply) ;;
            mret (SOCKS5_MIN_LENGTH + addr_len).

(** SOCKS5_STATE_INITIATOR_AWAITING_AUTH_REQUEST *)
Definition handle_auth_request (str : bytes) : M5 Z :=
  if str_len str <? 2 then mret 0
  else
    c0 ← str_at str 0;
    if negb (c0 =? SOCKS5_VERSION) then socks5_error ;; mret (-1)
    else
      c1 ← str_at str 1;
      let auth_len := u32 (c1 + 2) in
      if str_len str <? auth_len then mret 0
      else
        if existsb (λ c, swrap 8 (byte c) =? SOCKS5_AUTH_NONE)
             (take (Z.to_nat (auth_len - 2)) (drop 2 str))
        then
          write_to_transport [chr SOCKS5_VERSION; chr SOCKS5_AUTH_NONE] ;;
          modify (with_s5 SOCKS5_STATE_INITIATOR_AWAITING_COMMAND) ;;
          mret auth_len
        else socks5_error ;; mret (-1).

(** SOCKS5_STATE_INITIATOR_AWAITING_COMMAND *)
Definition handle_command (str : bytes) : M5 Z :=
  if str_len str <? SOCKS5_MIN_LENGTH then mret 0
  else
    c4 ← str_at str 4;
    let addr_len := u8 (u8 c4 + 1) in
    if u8 (str_len str) <? SOCKS5_MIN_LENGTH + addr_len then mret 0
    else
      c0 ← str_at str 0;
      c1 ← str_at str 1;
      c2 ← str_at str 2;
      c3 ← str_at str 3;
      p0 ← str_at str (4 + addr_len);
      p1 ← str_at str (5 + addr_len);
      if negb (c0 =? SOCKS5_VERSION) || negb (c1 =? SOCKS5_CMD_CONNECT) ||
         negb (c2 =? SOCKS5_RESERVED) || negb (c3 =? SOCKS5_ATYP_DOMAIN) ||
         negb (p0 =? 0) || negb (p1 =? 0)
      then socks5_error ;; mret (-1)
      else
        s ← get;
        let domain := compute_domain (stream_id s) (self_full_jid s) (peer_jid s) in
        if negb (check_domain (drop 5 str) (u8 (addr_len - 1)) domain) then
          socks5_close_transport ;; socks5_error ;; mret (-1)
        else
          write_to_transport (connect_msg SOCKS5_STATUS_OK domain) ;;
          modify (with_s5 SOCKS5_STATE_CONNECTED) ;;
          gibber_transport_block_receiving true ;;
          s ← get;
          g_assert (listener s) ;;
          modify (with_listener false) ;;
          mret (SOCKS5_MIN_LENGTH + addr_len).

(** The number of bytes used, or -1. *)
Definition socks5_handle_received_data (str : bytes) : M5 Z :=
  s ← get;
  match socks5_state s with
  | SOCKS5_STATE_TARGET_AUTH_REQUEST_SENT
  | SOCKS5_STATE_INITIATOR_AUTH_REQUEST_SENT => handle_auth_reply str
  | SOCKS5_STATE_TARGET_CONNECT_REQUESTED
  | SOCKS5_STATE_INITIATOR_CONNECT_REQUESTED => handle_connect_reply str
  | SOCKS5_STATE_INITIATOR_AWAITING_AUTH_REQUEST => handle_auth_request str
  | SOCKS5_STATE_INITIATOR_AWAITING_COMMAND => handle_command str
  | SOCKS5_STATE_CONNECTED => emit (DataReceived str) ;; mret (str_len str)
  | SOCKS5_STATE_ERROR => mret (str_len str)
  | SOCKS5_STATE_TARGET_TRYING_CONNECT
  | SOCKS5_STATE_INITIATOR_TRYING_CONNECT
  | SOCKS5_STATE_INITIATOR_OFFER_SENT
  | SOCKS5_STATE_INITIATOR_ACTIVATION_SENT
  | SOCKS5_STATE_INVALID => fail AssertFailed
  end.

(** [g_string_erase (buffer, 0, n)]: a negative [n] erases everything. *)
Definition g_string_erase (n : Z) (b : bytes) : bytes :=
  if n <? 0 then [] else drop (Z.to_nat n) b.

Fixpoint handler_loop (fuel : nat) : M5 unit :=
  s ← get;
  match read_buffer s with
  | None => fail MemoryFault
  | Some str =>
      used ← socks5_handle_received_data str;
      s ← get;
      match read_buffer s with
      | None => mret tt
      | Some b =>
          let b' := g_string_erase used b in
          modify (with_read_buffer (Some b')) ;;
          if (0 <? used) && (0 <? str_len b') then
            match fuel with
            | O => fail OutOfFuel
            | S fuel => handler_loop fuel
            end
          else mret tt
      end
  end.

Definition transport_handler (data : bytes) : M5 unit :=
  s ← get;
  match read_buffer s with
  | None => fail AssertFailed
  | Some b =>
      modify (with_read_buffer (Some (b ++ data))) ;;
      handler_loop (length (b ++ data))
  end.
End negotiation.

(** ** Streamhosts *)

Definition gabble_bytestream_socks5_add_streamhost (node : WockyNode) : M5 unit :=
  if negb (bool_decide (name node = "streamhost")) then mret tt
  else
    match wocky_node_get_attribute node "zeroconf" with
    | Some _ => mret tt
    | None =>
        match wocky_node_get_attribute node "jid", wocky_node_get_attribute node "host",
              wocky_node_get_attribute node "port" with
        | Some jid, Some host, Some portstr =>
            let port := (strtol portstr).1 in
            if (port <=? 0) || (65535 <? port) then mret tt
            else
              s ← get;
              if tp_strdiff (Some jid) (Some (peer_jid s)) && muc_contact s then mret tt
              else modify (with_streamhosts (streamhosts s ++ [mkStreamhost jid host (u16 port)]))
        | _, _, _ => mret tt
        end
    end.

Definition gabble_bytestream_socks5_connect_to_streamhost (msg : WockyNode) : M5 unit :=
  modify (with_msg (Some msg)) ;; socks5_connect.

(** What [handle_socks5_query_iq] of the factory does to the bytestream the
    query is for. *)
Definition query_received (msg query : WockyNode) : M5 unit :=
  for_each (List.filter (λ n, bool_decide (name n = "streamhost")) (children query))
    gabble_bytestream_socks5_add_streamhost ;;
  gabble_bytestream_socks5_connect_to_streamhost msg.

Definition initiator_connected_to_proxy : M5 unit :=
  s ← get;
  match List.find (λ p, negb (tp_strdiff (Some (sh_jid p)) (proxy_jid s))) (proxies (env s)) with
  | None => emit ConnectionError ;; set_state GABBLE_BYTESTREAM_STATE_CLOSED
  | Some proxy =>
      modify (with_s5 SOCKS5_STATE_INITIATOR_TRYING_CONNECT) ;;
      set_transport TConnecting ;;
      emit (ConnectTo (sh_host proxy) (sh_port proxy))
  end.

(** [reply] is the answer to the offer, when it is not an error. *)
Definition socks5_init_reply_cb (reply : option WockyNode) : M5 unit :=
  s ← get;
  let init_error := emit ConnectionError ;; set_state GABBLE_BYTESTREAM_STATE_CLOSED in
  let used_jid :=
    reply ≫= λ msg,
    wocky_node_get_child_ns msg (Some "query") (Some NS_BYTESTREAMS) ≫= λ query,
    wocky_node_get_child query "streamhost-used" ≫= λ streamhost,
    wocky_node_get_attribute streamhost "jid" in
  match used_jid with
  | None => init_error
  | Some jid =>
      if tp_strdiff (Some jid) (Some (self_full_jid s)) then
        if bool_decide (socks5_state s ≠ SOCKS5_STATE_INITIATOR_OFFER_SENT) then init_error
        else modify (with_proxy_jid (Some jid)) ;; initiator_connected_to_proxy
      else if bool_decide (socks5_state s ≠ SOCKS5_STATE_CONNECTED) then init_error
      else
        set_state GABBLE_BYTESTREAM_STATE_OPEN ;;
        gibber_transport_block_receiving false
  end.

Definition new_connection_cb : M5 unit :=
  modify (with_s5 SOCKS5_STATE_INITIATOR_AWAITING_AUTH_REQUEST) ;;
  set_transport TConnected.

Definition streamhost_node (jid host port : string) : WockyNode :=
  mkNode "streamhost" None (Some NS_BYTESTREAMS)
    [mkAttribute "jid" jid None; mkAttribute "host" host None; mkAttribute "port" port None] [].

Definition send_streamhosts (ips : list string) (port_num : Z) : M5 unit :=
  s ← get;
  let direct :=
    if port_num =? 0 then []
    else (λ ip, streamhost_node (self_full_jid s) ip (print_u port_num)) <$> ips in
  let relays :=
    if negb (muc_contact s)
    then (λ p, streamhost_node (sh_jid p) (sh_host p) (print_u (sh_port p))) <$> proxies (env s)
    else [] in
  modify (with_s5 SOCKS5_STATE_INITIATOR_OFFER_SENT) ;;
  emit (SendOffer (mkNode "iq" None (Some "jabber:client")
    [mkAttribute "type" "set" None; mkAttribute "to" (peer_jid s) None]
    [mkNode "query" None (Some NS_BYTESTREAMS)
       [mkAttribute "sid" (stream_id s) None; mkAttribute "mode" "tcp" None]
       (direct ++ relays)])).

(** ** The interface *)

Definition gabble_bytestream_socks5_initiate (sent : bool) : M5 bool :=
  s ← get;
  if bool_decide (bytestream_state s ≠ GABBLE_BYTESTREAM_STATE_INITIATING) then mret false
  else
    match local_ips (env s) with
    | [] => send_streamhosts [] 0
    | ips =>
        g_assert (negb (listener s)) ;;
        modify (with_listener true) ;;
        send_streamhosts (if listen_ok (env s) then ips else []) (listen_port (env s))
    end ;;
    mret true.

Definition gabble_bytestream_socks5_send (str : bytes) : M5 bool :=
  s ← get;
  if bool_decide (bytestream_state s ≠ GABBLE_BYTESTREAM_STATE_OPEN) then mret false
  else
    ok ← write_to_transport str;
    if negb ok then gabble_bytestream_socks5_close None ;; mret false
    else
      s ← get;
      match transport s with
      | None => mret false
      | Some _ => when (negb (tx_empty (env s))) (change_write_blocked_state true) ;; mret true
      end.

Definition gabble_bytestream_socks5_accept (sent : bool) (func : WockyNode → WockyNode) :
    M5 unit :=
  s ← get;
  if bool_decide (bytestream_state s ≠ GABBLE_BYTESTREAM_STATE_LOCAL_PENDING) then mret tt
  else
    let msg := gabble_bytestream_factory_make_accept_iq (peer_jid s) (stream_init_id s)
                 NS_BYTESTREAMS in
    match wocky_node_get_child_ns msg (Some "si") (Some NS_SI) with
    | None => fail AssertFailed
    | Some si =>
        when sent
          (emit (SendAccept (set_children msg [func si])) ;;
           set_state GABBLE_BYTESTREAM_STATE_ACCEPTED)
    end.

Definition gabble_bytestream_socks5_block_reading (block : bool) : M5 unit :=
  s ← get;
  if bool_decide (read_blocked s = block) then mret tt
  else
    modify (with_read_blocked block) ;;
    match transport s with
    | Some _ => gibber_transport_block_receiving block
    | None => mret tt
    end.

Definition gabble_bytestream_socks5_dispose : M5 unit :=
  s ← get;
  if dispose_has_run s then mret tt
  else
    modify with_disposed ;;
    stop_timer ;;
    when (bool_decide (bytestream_state s ≠ GABBLE_BYTESTREAM_STATE_CLOSED))
      (gabble_bytestream_socks5_close None) ;;
    modify (with_transport None) ;;
    modify (with_listener false).

#[global] Instance socks5_iface : GabbleBytestreamIfaceClass GabbleBytestreamSocks5 := {
  state_of := bytestream_state;
  vinitiate := gabble_bytestream_socks5_initiate;
  vsend := gabble_bytestream_socks5_send;
  vclose := gabble_bytestream_socks5_close;
  vaccept := gabble_bytestream_socks5_accept;
  vblock_reading := Some gabble_bytestream_socks5_block_reading;
}.

#[global] Instance socks5_laws : BytestreamLaws GabbleBytestreamSocks5.
Proof.
  split; cbn; intros s.
  - intros b H. exists false. unfold gabble_bytestream_socks5_initiate, mbind, M_bind, get.
    by rewrite bool_decide_eq_true_2.
  - intros d H. unfold gabble_bytestream_socks5_send, mbind, M_bind, get.
    by rewrite bool_decide_eq_true_2.
  - intros e H. unfold gabble_bytestream_socks5_close, mbind, M_bind, get.
    by rewrite bool_decide_eq_true_2.
  - intros b f H. unfold gabble_bytestream_socks5_accept, mbind, M_bind, get.
    by rewrite bool_decide_eq_true_2.
Qed.

(** ** Reading bytes *)

Lemma str_at_spec str i (Q : Z → GabbleBytestreamSocks5 → Prop) s :
  0 <= i < str_len str →
  (∀ c, str !! Z.to_nat i = Some c → Q (swrap 8 (byte c)) s) → wp (str_at str i) Q s.
Proof.
  intros Hi HQ. unfold str_at. rewrite (proj2 (Z.ltb_ge i 0)) by lia.
  destruct (str !! Z.to_nat i) as [c|] eqn:E; [by apply wp_ret, HQ|].
  apply lookup_ge_None_1 in E. unfold str_len in Hi. lia.
Qed.

Lemma str_at_Ok str i s z s' :
  str_at str i s = Ok (z, s') →
  s' = s ∧ 0 <= i ∧ ∃ c, str !! Z.to_nat i = Some c ∧ z = swrap 8 (byte c).
Proof.
  unfold str_at. destruct (Z.ltb_spec i 0); [done|].
  destruct (str !! Z.to_nat i) as [c|]; [|done]. intros [= <- <-]. eauto.
Qed.

Lemma byte_bounds c : 0 <= byte c < 256.
Proof. unfold byte. pose proof (nat_ascii_bounded c). lia. Qed.

Lemma u8_swrap z : u8 (swrap 8 z) = u8 z.
Proof.
  unfold wrap, swrap. change (2 ^ 8) with 256. change (2 ^ (8 - 1)) with 128.
  rewrite Zminus_mod_idemp_l. f_equal. lia.
Qed.

Lemma u8_le n : 0 <= n → u8 n <= n.
Proof. intros. by apply wrap_le. Qed.

(** ** The negotiation never aborts on received data *)

(** What holds when data may be received. *)
Definition negotiating (s : GabbleBytestreamSocks5) : Prop :=
  (∃ b, transport s = Some (mkTransport TConnected b)) ∧
  match socks5_state s with
  | SOCKS5_STATE_TARGET_AUTH_REQUEST_SENT =>
      streamhosts s ≠ [] ∧ is_Some (msg_for_acknowledge_connection s) ∧ timer_id s = false
  | SOCKS5_STATE_TARGET_CONNECT_REQUESTED =>
      streamhosts s ≠ [] ∧ is_Some (msg_for_acknowledge_connection s)
  | SOCKS5_STATE_INITIATOR_AUTH_REQUEST_SENT => timer_id s = false
  | SOCKS5_STATE_INITIATOR_AWAITING_AUTH_REQUEST
  | SOCKS5_STATE_INITIATOR_AWAITING_COMMAND => listener s = true
  | SOCKS5_STATE_INITIATOR_CONNECT_REQUESTED
  | SOCKS5_STATE_CONNECTED
  | SOCKS5_STATE_ERROR => True
  | _ => False
  end.

(** Writes go through, and the stream is not about to be torn down when the
    output buffer drains. *)
Definition calm (s : GabbleBytestreamSocks5) : Prop :=
  tx_fails (env s) = false ∧ bytestream_state s ≠ GABBLE_BYTESTREAM_STATE_CLOSING.

Lemma set_state_returns st s : wp (set_state st) (λ _ _, True) s.
Proof. unfold set_state. apply wp_bind, wp_get. by apply wp_when; intros _. Qed.

Lemma close_returns e s : wp (gabble_bytestream_socks5_close e) (λ _ _, True) s.
Proof.
  unfold gabble_bytestream_socks5_close. apply wp_bind, wp_get.
  case_bool_decide; [done|]. case_bool_decide as Hp.
  - unfold gabble_bytestream_socks5_decline. apply wp_bind, wp_get.
    case_bool_decide; [|done]. apply wp_bind, wp_modify, set_state_returns.
  - apply wp_bind. eapply wp_mono; [|apply set_state_returns]. intros [] s1 _.
    assert (∀ s2, wp bytestream_closed (λ _ _, True) s2) as Hc.
    { intros s2. apply wp_bind, wp_bind, wp_modify, wp_modify, set_state_returns. }
    destruct (transport s); [|apply Hc]. destruct (negb _); [done|apply Hc].
Qed.

(** [socks5_error] returns when the target's bookkeeping is in order. *)
Lemma error_connect_depth s :
  match socks5_state s with
  | SOCKS5_STATE_TARGET_TRYING_CONNECT
  | SOCKS5_STATE_TARGET_AUTH_REQUEST_SENT
  | SOCKS5_STATE_TARGET_CONNECT_REQUESTED => is_Some (msg_for_acknowledge_connection s)
  | _ => True
  end → wp socks5_error (λ _ _, True) s.
Proof.
  intros Hmsg. unfold socks5_error. cbn [socks5_error_fuel].
  apply wp_bind, wp_modify, wp_bind, wp_get, wp_bind, wp_modify.
  assert (∀ s1, read_buffer s1 = None → timer_id s1 = false →
    is_Some (msg_for_acknowledge_connection s1) →
    wp (modify (λ s, with_streamhosts (tail (streamhosts s)) s) ;;
        s ← get;
        match streamhosts s with
        | _ :: _ => socks5_connect_fuel 1
        | [] =>
            emit ConnectionError ;;
            match msg_for_acknowledge_connection s with
            | None => fail AssertFailed
            | Some msg => emit (NoStreamhost msg) ;; modify (with_msg None)
            end
        end) (λ _ _, True) s1) as Hnext.
  { intros s1 Hrb Htm [msg Hm]. apply wp_bind, wp_modify, wp_bind, wp_get.
    destruct (streamhosts (with_streamhosts (tail (streamhosts s1)) s1)) as [|h l] eqn:Hh.
    - apply wp_bind, wp_modify. cbn. rewrite Hm. by apply wp_bind, wp_modify, wp_modify.
    - cbn [socks5_connect_fuel]. apply wp_bind, wp_modify, wp_bind, wp_get.
      cbn [streamhosts with_s5] in *. rewrite Hh.
      apply wp_bind, wp_bind, wp_modify, wp_bind, wp_get, wp_bind, wp_assert; [cbn; by rewrite Hrb|].
      apply wp_modify, wp_bind, wp_bind, wp_get, wp_bind, wp_assert; [cbn; by rewrite Htm|].
      by apply wp_modify, wp_modify. }
  cbn [socks5_state with_timer].
  destruct (socks5_state s); try apply close_returns; try done;
    by apply wp_bind, wp_bind, wp_modify, wp_modify, Hnext.
Qed.

Lemma write_spec data s b (Q : bool → GabbleBytestreamSocks5 → Prop) :
  calm s → transport s = Some (mkTransport TConnected b) →
  (∀ s', (s' = log (Wrote data) s ∨
          s' = log (WriteBlocked false) (with_write_blocked false (log (Wrote data) s))) →
     Q true s') →
  wp (write_to_transport data) Q s.
Proof.
  intros [Htx Hcl] Ht HQ. unfold write_to_transport. apply wp_bind, wp_get. rewrite Ht.
  apply wp_bind, wp_assert; [done|]. rewrite Htx. apply wp_bind, wp_modify, wp_bind.
  apply wp_when; intros _; [|by apply wp_ret, HQ; left].
  unfold transport_buffer_empty_cb. apply wp_bind, wp_get.
  rewrite bool_decide_eq_false_2 by done. apply wp_when; intros Hwb; [|by apply wp_ret, HQ; left].
  unfold change_write_blocked_state. apply wp_bind, wp_get. cbn in Hwb |- *.
  rewrite bool_decide_eq_false_2 by (cbn; congruence).
  apply wp_bind, wp_modify, wp_modify, wp_ret, HQ. by right.
Qed.

Lemma block_receiving_spec blk s t (Q : unit → GabbleBytestreamSocks5 → Prop) :
  transport s = Some t →
  Q tt (with_transport (Some (mkTransport (t_state t) blk)) s) →
  wp (gibber_transport_block_receiving blk) Q s.
Proof.
  intros Ht HQ. unfold gibber_transport_block_receiving. apply wp_bind, wp_get.
  by rewrite Ht.
Qed.

Lemma error_minus_one s (len : Z) :
  0 <= len →
  match socks5_state s with
  | SOCKS5_STATE_TARGET_TRYING_CONNECT
  | SOCKS5_STATE_TARGET_AUTH_REQUEST_SENT
  | SOCKS5_STATE_TARGET_CONNECT_REQUESTED => is_Some (msg_for_acknowledge_connection s)
  | _ => True
  end →
  wp (socks5_error ;; mret (-1)) (λ used _, -1 <= used <= len) s.
Proof.
  intros Hlen Hm. apply wp_bind. eapply wp_mono; [|by apply error_connect_depth].
  intros [] s' _. apply wp_ret. lia.
Qed.

Section safety.
Context (sha1_hex : string → string).

Lemma auth_reply_safe str s :
  negotiating s → calm s →
  (socks5_state s = SOCKS5_STATE_TARGET_AUTH_REQUEST_SENT ∨
   socks5_state s = SOCKS5_STATE_INITIATOR_AUTH_REQUEST_SENT) →
  wp (handle_auth_reply sha1_hex str) (λ used _, -1 <= used <= str_len str) s.
Proof.
  intros [[b Ht] Hn] Hc Hst. unfold handle_auth_reply.
  destruct (Z.ltb_spec (str_len str) 2); [apply wp_ret; unfold str_len; lia|].
  apply wp_bind, str_at_spec; [lia|]. intros c0 _. apply wp_bind, str_at_spec; [lia|].
  intros c1 _. destruct (negb _ || negb _).
  { apply error_minus_one; [unfold str_len in *; lia|]. destruct Hst as [Hst|Hst]; rewrite Hst in *; tauto. }
  apply wp_bind, wp_get, wp_bind. eapply write_spec; [done..|]. intros s1 Hs1.
  apply wp_bind, wp_get, wp_bind, wp_modify, wp_bind, wp_bind, wp_get, wp_bind, wp_assert.
  - destruct Hs1 as [->| ->]; cbn; destruct Hst as [Hst|Hst]; rewrite Hst in Hn;
      apply negb_true_iff; tauto.
  - apply wp_modify, wp_ret. unfold str_len in *. lia.
Qed.

Lemma auth_request_safe str s :
  negotiating s → calm s →
  socks5_state s = SOCKS5_STATE_INITIATOR_AWAITING_AUTH_REQUEST →
  wp (handle_auth_request str) (λ used _, -1 <= used <= str_len str) s.
Proof.
  intros [[b Ht] Hn] Hc Hst. unfold handle_auth_request.
  destruct (Z.ltb_spec (str_len str) 2); [apply wp_ret; unfold str_len; lia|].
  apply wp_bind, str_at_spec; [lia|]. intros c0 _. destruct (negb _).
  { apply error_minus_one; [lia|by rewrite Hst]. }
  apply wp_bind, str_at_spec; [lia|]. intros c1 _.
  destruct (Z.ltb_spec (str_len str) (u32 (swrap 8 (byte c1) + 2))) as [|Hlen];
    [apply wp_ret; lia|].
  destruct (existsb _ _).
  - apply wp_bind. eapply write_spec; [done..|]. intros s1 _.
    apply wp_bind, wp_modify, wp_ret.
    pose proof (wrap_bounds 32 (swrap 8 (byte c1) + 2)). lia.
  - apply error_minus_one; [lia|by rewrite Hst].
Qed.

Lemma addr_len_bounds z : 0 <= u8 z < 256.
Proof. by apply wrap_bounds. Qed.

Lemma str_len_nonneg str : 0 <= str_len str.
Proof. unfold str_len. lia. Qed.

Lemma command_safe str s :
  negotiating s → calm s → socks5_state s = SOCKS5_STATE_INITIATOR_AWAITING_COMMAND →
  wp (handle_command sha1_hex str) (λ used _, -1 <= used <= str_len str) s.
Proof.
  intros [[b Ht] Hn] Hc Hst. rewrite Hst in Hn. unfold handle_command, SOCKS5_MIN_LENGTH.
  pose proof (str_len_nonneg str).
  destruct (Z.ltb_spec (str_len str) 6); [apply wp_ret; lia|].
  apply wp_bind, str_at_spec; [lia|]. intros c4 _.
  set (al := u8 (u8 (swrap 8 (byte c4)) + 1)). pose proof (addr_len_bounds (u8 (swrap 8 (byte c4)) + 1)).
  pose proof (u8_le (str_len str)).
  destruct (Z.ltb_spec (u8 (str_len str)) (6 + al)) as [|Hlen]; [apply wp_ret; lia|].
  do 6 (apply wp_bind, str_at_spec; [lia|]; intros ? _).
  destruct (_ || _ || _ || _ || _ || _).
  { apply error_minus_one; [lia|by rewrite Hst]. }
  apply wp_bind, wp_get. destruct (negb (check_domain _ _ _)).
  { apply wp_bind, wp_bind, wp_modify, wp_modify. apply error_minus_one; [lia|].
    cbn. by rewrite Hst. }
  apply wp_bind. eapply write_spec; [done..|]. intros s1 Hs1. apply wp_bind, wp_modify, wp_bind.
  assert (transport s1 = Some (mkTransport TConnected b) ∧ listener s1 = true) as [Ht1 Hl1]
    by (destruct Hs1 as [->| ->]; done).
  eapply block_receiving_spec; [done|]. apply wp_bind, wp_get, wp_bind, wp_assert; [done|].
  apply wp_bind, wp_modify, wp_ret. lia.
Qed.

Lemma connect_reply_safe str s :
  negotiating s → calm s →
  (socks5_state s = SOCKS5_STATE_TARGET_CONNECT_REQUESTED ∨
   socks5_state s = SOCKS5_STATE_INITIATOR_CONNECT_REQUESTED) →
  wp (handle_connect_reply str) (λ used _, -1 <= used <= str_len str) s.
Proof.
  intros [[b Ht] Hn] Hc Hst. unfold handle_connect_reply, SOCKS5_MIN_LENGTH.
  assert (∀ s' : GabbleBytestreamSocks5, socks5_state s' = socks5_state s →
    msg_for_acknowledge_connection s' = msg_for_acknowledge_connection s →
    wp (socks5_error ;; mret (-1)) (λ used _, -1 <= used <= str_len str) s') as Herr.
  { intros s' H1 H2. apply error_minus_one; [unfold str_len; lia|].
    rewrite H1, H2. destruct Hst as [Hst|Hst]; rewrite Hst in *; tauto. }
  destruct (Z.ltb_spec (str_len str) 6); [apply wp_ret; unfold str_len; lia|].
  do 3 (apply wp_bind, str_at_spec; [lia|]; intros ? _).
  destruct (_ || _ || _); [by apply Herr|].
  apply wp_bind, str_at_spec; [lia|]. intros c3 _. apply wp_bind, str_at_spec; [lia|]. intros c4 _.
  destruct (negb _); [by apply Herr|].
  set (al := if _ =? _ then u8 _ else 0).
  assert (0 <= al < 256) as Hal.
  { unfold al. destruct (_ =? _); [apply addr_len_bounds|lia]. }
  pose proof (u8_le (str_len str)).
  destruct (Z.ltb_spec (u8 (str_len str)) (6 + al)) as [|Hlen]; [apply wp_ret; lia|].
  apply wp_bind, wp_modify. do 2 (apply wp_bind, str_at_spec; [lia|]; intros ? _).
  destruct (negb _ || negb _); [by apply Herr|].
  apply wp_bind, wp_get, wp_bind. destruct Hst as [Hst|Hst]; rewrite Hst in Hn; cbn [socks5_state with_timer];
    rewrite Hst; cbn -[SOCKS5_MIN_LENGTH].
  - destruct Hn as (Hh & [msg Hm]). destruct (streamhosts s) as [|h l] eqn:Hsh; [done|].
    unfold target_got_connect_reply, set_state.
    apply wp_bind, wp_modify, wp_bind, wp_bind, wp_get. apply wp_when; intros _;
      [apply wp_bind, wp_modify, wp_modify|]; apply wp_bind, wp_get; cbn; rewrite Hsh, Hm;
      apply wp_bind, wp_modify; apply wp_when; intros _; try (apply wp_ret; lia);
      (eapply block_receiving_spec; [done|]); apply wp_ret; lia.
  - unfold initiator_got_connect_reply.
    apply wp_bind, wp_get, wp_bind, wp_modify, wp_bind. eapply block_receiving_spec; [done|].
    apply wp_modify, wp_ret. lia.
Qed.

(** The states in which the code has something to do with data. *)
Definition expects_data (st : Socks5State) : bool :=
  match st with
  | SOCKS5_STATE_TARGET_TRYING_CONNECT | SOCKS5_STATE_INITIATOR_TRYING_CONNECT
  | SOCKS5_STATE_INITIATOR_OFFER_SENT | SOCKS5_STATE_INITIATOR_ACTIVATION_SENT
  | SOCKS5_STATE_INVALID => false
  | _ => true
  end.

(** C34: whatever bytes arrive in a state of the negotiation in which data is
    expected, on a connected transport, with the books of that state in order
    ([negotiating]), when the writes they cause succeed and the stream is not
    being closed ([calm]), the code reads them within bounds, fails no
    assertion, and reports a number of used bytes between -1 and what there
    is.  In the other states (connecting, the offer or the activation of the
    proxy sent) any data at all fails an assertion. *)
Theorem received_data_safe str s :
  (negotiating s → calm s →
   wp (socks5_handle_received_data sha1_hex str) (λ used _, -1 <= used <= str_len str) s) ∧
  (expects_data (socks5_state s) = false →
   socks5_handle_received_data sha1_hex str s = Abort AssertFailed).
Proof.
  split.
  2: { intros He. unfold socks5_handle_received_data. erewrite bind_eq by done.
       by destruct (socks5_state s). }
  intros Hn Hc. unfold socks5_handle_received_data. apply wp_bind, wp_get.
  pose proof Hn as [_ Hst].
  destruct (socks5_state s) eqn:E; try done.
  - apply auth_reply_safe; auto.
  - apply connect_reply_safe; auto.
  - apply wp_bind, wp_modify, wp_ret. unfold str_len. lia.
  - apply auth_request_safe; auto.
  - apply command_safe; auto.
  - apply auth_reply_safe; auto.
  - apply connect_reply_safe; auto.
  - apply wp_ret. unfold str_len. lia.
Qed.
End safety.

(** ** Spoofing *)

(** A hexadecimal SHA-1: forty characters, none of them NUL. *)
Definition hex_digest (f : string → string) : Prop :=
  ∀ x, length (chars (f x)) = 40%nat ∧ Ascii.zero ∉ chars (f x).

Lemma chr_byte c : chr (byte c) = c.
Proof. unfold chr, byte. rewrite Nat2Z.id. apply ascii_nat_embedding. Qed.

Lemma byte_chr z : 0 <= z < 256 → byte (chr z) = z.
Proof. intros Hz. unfold byte, chr. rewrite nat_ascii_embedding by lia. lia. Qed.

Lemma schar_chr z : 0 <= z < 128 → swrap 8 (byte (chr z)) = z.
Proof.
  intros Hz. rewrite byte_chr by lia. apply swrap_id; [lia|].
  change (2 ^ (8 - 1)) with 128. lia.
Qed.

Lemma schar_eq c k : swrap 8 (byte c) = k → 0 <= k < 128 → c = chr k.
Proof.
  intros Hc Hk. rewrite <- (chr_byte c). f_equal. pose proof (byte_bounds c) as Hb.
  assert (u8 (swrap 8 (byte c)) = k) as H by (rewrite Hc; apply wrap_id; lia).
  rewrite u8_swrap, wrap_id in H by (change (2 ^ 8) with 256; lia). done.
Qed.

Lemma strncmp_eq_take n a b :
  strncmp_eq n a b = true → length b = n → Ascii.zero ∉ b → take n a = b.
Proof.
  revert a b. induction n as [|n IH]; intros a b; cbn; intros He Hl Hz.
  - by destruct b.
  - destruct b as [|y b]; [done|]. destruct a as [|x a]; cbn in *.
    + rewrite bool_decide_eq_true_2 in He; [done|]. set_solver.
    + case_bool_decide as Hxy; [done|]. subst y.
      rewrite bool_decide_eq_false_2 in He by set_solver. f_equal.
      apply IH; [done|lia|set_solver].
Qed.

Lemma strncmp_eq_take_refl n a : strncmp_eq n a (take n a) = true.
Proof.
  revert a. induction n as [|n IH]; intros [|x a]; cbn; try done.
  rewrite bool_decide_eq_false_2 by tauto. case_bool_decide; auto.
Qed.

Lemma error_awaiting s :
  (socks5_state s = SOCKS5_STATE_INITIATOR_AWAITING_COMMAND ∨
   socks5_state s = SOCKS5_STATE_INITIATOR_AWAITING_AUTH_REQUEST) →
  socks5_error s = Ok (tt, with_s5 SOCKS5_STATE_ERROR (with_timer false s)).
Proof.
  intros Hs. unfold socks5_error. cbn [socks5_error_fuel].
  unfold stop_timer, modify, get, mbind, M_bind. cbn. by destruct Hs as [-> | ->].
Qed.

Lemma lookup_drop_cons (l : bytes) (i : nat) c : l !! i = Some c → drop i l = c :: drop (S i) l.
Proof. intros H. by apply drop_S in H. Qed.

Section spoofing.
Context (sha1_hex : string → string) (Hsha : hex_digest sha1_hex).

(** The expected CONNECT request, byte for byte. *)
Lemma command_is_connect str c0 c1 c2 c3 c4 p0 p1 domain :
  str !! 0%nat = Some c0 → str !! 1%nat = Some c1 → str !! 2%nat = Some c2 →
  str !! 3%nat = Some c3 → str !! 4%nat = Some c4 → str !! 45%nat = Some p0 →
  str !! 46%nat = Some p1 →
  c0 = chr SOCKS5_VERSION → c1 = chr SOCKS5_CMD_CONNECT → c2 = chr SOCKS5_RESERVED →
  c3 = chr SOCKS5_ATYP_DOMAIN → c4 = chr SHA1_LENGTH → p0 = chr 0 → p1 = chr 0 →
  length domain = 40%nat → take 40 (drop 5 str) = domain →
  take 47 str = connect_msg SOCKS5_CMD_CONNECT domain.
Proof.
  intros H0 H1 H2 H3 H4 H45 H46 -> -> -> -> -> -> -> Hl Hd.
  rewrite <- (take_drop 5 str). rewrite take_app, take_take.
  assert (length (take 5 str) = 5%nat) as Hl5.
  { rewrite length_take. apply lookup_lt_Some in H46. lia. }
  rewrite Hl5. cbn [Nat.sub Nat.min].
  assert (take 5 str = [chr SOCKS5_VERSION; chr SOCKS5_CMD_CONNECT; chr SOCKS5_RESERVED;
    chr SOCKS5_ATYP_DOMAIN; chr SHA1_LENGTH]) as ->.
  { do 5 (destruct str as [|? str]; [done|]). cbn in *. by simplify_eq. }
  unfold connect_msg. rewrite (take_ge domain) by lia. f_equal.
  change 42%nat with (40 + 2)%nat. rewrite <- take_take_drop, Hd. f_equal.
  rewrite drop_drop. cbn. apply lookup_drop_cons in H45, H46. by rewrite H45, H46.
Qed.

(** C33: a client that connects to our streamhost is taken for
    connected only if it sent, byte for byte, the CONNECT request for the
    hash of this stream's id and the two parties' JIDs. *)
Theorem no_spoofed_connection str s used s' :
  socks5_state s = SOCKS5_STATE_INITIATOR_AWAITING_COMMAND →
  handle_command sha1_hex str s = Ok (used, s') →
  socks5_state s' = SOCKS5_STATE_CONNECTED →
  used = SOCKS5_CONNECT_LENGTH ∧
  take 47 str = connect_msg SOCKS5_CMD_CONNECT
    (compute_domain sha1_hex (stream_id s) (self_full_jid s) (peer_jid s)).
Proof.
  intros Hst. set (domain := compute_domain _ _ _ _).
  assert (length domain = 40%nat ∧ Ascii.zero ∉ domain) as [Hdl Hdz] by apply Hsha.
  unfold handle_command. destruct (Z.ltb_spec (str_len str) SOCKS5_MIN_LENGTH).
  { intros [= <- <-]. congruence. }
  intros (? & ? & (-> & _ & c4 & E4 & ->)%str_at_Ok & H1)%bind_Ok. revert H1.
  set (al := u8 (u8 (swrap 8 (byte c4)) + 1)).
  pose proof (addr_len_bounds (u8 (swrap 8 (byte c4)) + 1)) as Hal. fold al in Hal.
  destruct (Z.ltb_spec (u8 (str_len str)) (SOCKS5_MIN_LENGTH + al)) as [|Hlen].
  { intros [= <- <-]. congruence. }
  intros (? & ? & (-> & _ & c0 & E0 & ->)%str_at_Ok & H1)%bind_Ok.
  apply bind_Ok in H1 as (? & ? & (-> & _ & c1 & E1 & ->)%str_at_Ok & H1).
  apply bind_Ok in H1 as (? & ? & (-> & _ & c2 & E2 & ->)%str_at_Ok & H1).
  apply bind_Ok in H1 as (? & ? & (-> & _ & c3 & E3 & ->)%str_at_Ok & H1).
  apply bind_Ok in H1 as (? & ? & (-> & _ & p0 & Ep0 & ->)%str_at_Ok & H1).
  apply bind_Ok in H1 as (? & ? & (-> & _ & p1 & Ep1 & ->)%str_at_Ok & H1).
  destruct (_ || _ || _ || _ || _ || _) eqn:Hor.
  { apply bind_Ok in H1 as (? & ? & He & H1). rewrite error_awaiting in He by auto.
    injection He as _ <-. by injection H1 as _ <-. }
  repeat (apply orb_false_iff in Hor as [Hor ?]).
  repeat match goal with H : negb (_ =? _) = false |- _ =>
    apply negb_false_iff, Z.eqb_eq in H; apply schar_eq in H; [|by vm_compute] end.
  apply bind_Ok in H1 as (? & ? & [= <- <-] & H1). fold domain in H1.
  destruct (negb (check_domain (drop 5 str) (u8 (al - 1)) domain)) eqn:Hcd.
  { apply bind_Ok in H1 as (? & ? & [= _ <-] & H1).
    apply bind_Ok in H1 as (? & ? & He & H1). rewrite error_awaiting in He by auto.
    injection He as _ <-. by injection H1 as _ <-. }
  intros _. unfold check_domain in Hcd. rewrite negb_involutive in Hcd.
  apply orb_false_iff in Hcd as [Hl Hcmp]. apply negb_false_iff in Hl, Hcmp.
  apply Z.eqb_eq in Hl. apply strncmp_eq_take in Hcmp; [|done..].
  assert (al = 41) as Hal41.
  { unfold wrap in Hl. change (2 ^ 8) with 256 in Hl. unfold SHA1_LENGTH in Hl.
    destruct (decide (al = 0)) as [->|]; [done|]. rewrite Z.mod_small in Hl by lia. lia. }
  split.
  - apply bind_Ok in H1 as (? & ? & _ & H1). do 5 apply bind_Ok in H1 as (? & ? & _ & H1).
    injection H1 as <- _. by rewrite Hal41.
  - rewrite Hal41 in Ep0, Ep1. eapply (command_is_connect str c0 c1 c2 c3 c4 p0 p1); try done.
    assert (byte c4 = 40) as Hb4; [|by rewrite <- (chr_byte c4), Hb4].
    unfold al in Hal41. rewrite u8_swrap, wrap_add in Hal41 by lia.
    pose proof (byte_bounds c4). unfold wrap in Hal41. change (2 ^ 8) with 256 in Hal41.
    destruct (decide (byte c4 = 255)) as [Hb|]; [by rewrite Hb in Hal41|].
    rewrite Z.mod_small in Hal41 by lia. lia.
Qed.
End spoofing.

(** ** The handshake as the initiator sees it *)

(** Writing succeeds silently. *)
Definition quiet (s : GabbleBytestreamSocks5) : Prop :=
  calm s ∧ write_blocked s = false ∧ ∃ b, transport s = Some (mkTransport TConnected b).

Lemma buffer_empty_eq s :
  bytestream_state s ≠ GABBLE_BYTESTREAM_STATE_CLOSING → write_blocked s = false →
  transport_buffer_empty_cb s = Ok (tt, s).
Proof.
  intros Hcl Hwb. unfold transport_buffer_empty_cb, mbind, M_bind, get.
  rewrite bool_decide_eq_false_2 by done. by rewrite Hwb.
Qed.

Lemma write_eq data s :
  quiet s → write_to_transport data s = Ok (true, log (Wrote data) s).
Proof.
  intros ([Htx Hcl] & Hwb & b & Ht).
  unfold write_to_transport, mbind, M_bind, get, emit, modify. rewrite Ht. cbn [t_state].
  change (g_assert (bool_decide (TConnected = TConnected)) s) with
    (Ok (tt, s) : outcome (unit * GabbleBytestreamSocks5)).
  cbv iota beta. rewrite Htx. destruct (tx_empty (env s)); cbn [when]; [|done].
  by rewrite buffer_empty_eq.
Qed.

Lemma str_at_eq str i c s :
  0 <= i → str !! Z.to_nat i = Some c → str_at str i s = Ok (swrap 8 (byte c), s).
Proof. intros Hi Hc. unfold str_at. by rewrite (proj2 (Z.ltb_ge i 0)), Hc by lia. Qed.

(** Runs a read of the byte [c] at the head of a sequence. *)
Ltac read_byte c :=
  erewrite bind_eq; [|apply (str_at_eq _ _ c); [lia|done]]; cbv beta.

Definition auth_request : bytes := [chr SOCKS5_VERSION; chr 1; chr SOCKS5_AUTH_NONE].
Definition auth_reply : bytes := [chr SOCKS5_VERSION; chr SOCKS5_AUTH_NONE].

Definition authorized (s : GabbleBytestreamSocks5) : GabbleBytestreamSocks5 :=
  with_s5 SOCKS5_STATE_INITIATOR_AWAITING_COMMAND (log (Wrote auth_reply) s).

Lemma auth_request_short str s :
  str `prefix_of` auth_request → (length str < 3)%nat →
  handle_auth_request str s = Ok (0, s).
Proof.
  intros [r Hr] Hl. unfold auth_request in Hr.
  destruct str as [|a [|b [|c str]]]; cbn in Hr, Hl; [done|done| |lia].
  by injection Hr as <- <- _.
Qed.

Lemma auth_request_full rest s :
  quiet s → handle_auth_request (auth_request ++ rest) s = Ok (3, authorized s).
Proof.
  intros Hq. unfold handle_auth_request.
  assert (str_len (auth_request ++ rest) = 3 + str_len rest) as Hl.
  { unfold str_len, auth_request. rewrite length_app. cbn. lia. }
  pose proof (str_len_nonneg rest). rewrite Hl, (proj2 (Z.ltb_ge _ _)) by lia.
  read_byte (chr SOCKS5_VERSION).
  change (negb (swrap 8 (byte (chr SOCKS5_VERSION)) =? SOCKS5_VERSION)) with false. cbv iota.
  read_byte (chr 1). change (u32 (swrap 8 (byte (chr 1)) + 2)) with 3.
  rewrite (proj2 (Z.ltb_ge _ _)) by lia.
  change (existsb _ (take (Z.to_nat (3 - 2)) (drop 2 (auth_request ++ rest)))) with true.
  cbv iota. erewrite bind_eq; [|by apply write_eq]. done.
Qed.

Section handshake.
Context (sha1_hex : string → string) (Hsha : hex_digest sha1_hex).

Definition connected (domain : bytes) (s : GabbleBytestreamSocks5) : GabbleBytestreamSocks5 :=
  with_listener false (with_transport (Some (mkTransport TConnected true))
    (with_s5 SOCKS5_STATE_CONNECTED
      (log (Wrote (connect_msg SOCKS5_STATUS_OK domain)) s))).

Lemma length_connect_msg code domain :
  length domain = 40%nat → length (connect_msg code domain) = 47%nat.
Proof. intros H. unfold connect_msg. rewrite !length_app, length_take, H. done. Qed.

Lemma connect_msg_lookups code domain :
  length domain = 40%nat →
  let m := connect_msg code domain in
  m !! 0%nat = Some (chr SOCKS5_VERSION) ∧ m !! 1%nat = Some (chr code) ∧
  m !! 2%nat = Some (chr SOCKS5_RESERVED) ∧ m !! 3%nat = Some (chr SOCKS5_ATYP_DOMAIN) ∧
  m !! 4%nat = Some (chr SHA1_LENGTH) ∧ m !! 45%nat = Some (chr 0) ∧
  m !! 46%nat = Some (chr 0) ∧ take 40 (drop 5 m) = domain.
Proof.
  intros Hl. cbn zeta. unfold connect_msg.
  split_and!; try done.
  - change ((take 40 domain ++ [chr 0; chr 0]) !! 40%nat = Some (chr 0)).
    rewrite lookup_app_r by (rewrite length_take; lia). by rewrite length_take, Hl.
  - change ((take 40 domain ++ [chr 0; chr 0]) !! 41%nat = Some (chr 0)).
    rewrite lookup_app_r by (rewrite length_take; lia). by rewrite length_take, Hl.
  - change (take 40 (take 40 domain ++ [chr 0; chr 0]) = domain).
    rewrite take_app_le by (rewrite length_take; lia).
    by rewrite take_take, take_ge by lia.
Qed.

Lemma command_short str domain s :
  length domain = 40%nat → str `prefix_of` connect_msg SOCKS5_CMD_CONNECT domain →
  (length str < 47)%nat → handle_command sha1_hex str s = Ok (0, s).
Proof.
  intros Hd [r Hr] Hl. unfold handle_command, SOCKS5_MIN_LENGTH.
  destruct (Z.ltb_spec (str_len str) 6) as [|H6]; [done|].
  unfold str_len in *.
  assert (str !! 4%nat = Some (chr SHA1_LENGTH)) as H4.
  { destruct (connect_msg_lookups SOCKS5_CMD_CONNECT domain Hd) as (_&_&_&_&H4&_).
    rewrite Hr, lookup_app_l in H4 by lia. done. }
  read_byte (chr SHA1_LENGTH).
  change (u8 (u8 (swrap 8 (byte (chr SHA1_LENGTH))) + 1)) with 41.
  rewrite wrap_id by (change (2 ^ 8) with 256; lia).
  by rewrite (proj2 (Z.ltb_lt _ _)) by lia.
Qed.

Lemma command_full s :
  quiet s → listener s = true →
  let domain := compute_domain sha1_hex (stream_id s) (self_full_jid s) (peer_jid s) in
  handle_command sha1_hex (connect_msg SOCKS5_CMD_CONNECT domain) s = Ok (47, connected domain s).
Proof.
  intros Hq Hlis domain. assert (length domain = 40%nat) as Hd by apply Hsha.
  pose proof (length_connect_msg SOCKS5_CMD_CONNECT domain Hd) as Hl.
  destruct (connect_msg_lookups SOCKS5_CMD_CONNECT domain Hd) as (H0&H1&H2&H3&H4&H45&H46&Hdom).
  revert Hl H0 H1 H2 H3 H4 H45 H46 Hdom.
  generalize (connect_msg SOCKS5_CMD_CONNECT domain) as str. intros str Hl H0 H1 H2 H3 H4 H45 H46 Hdom.
  unfold handle_command, SOCKS5_MIN_LENGTH, str_len. rewrite Hl.
  change (Z.of_nat 47 <? 6) with false. cbv iota.
  read_byte (chr SHA1_LENGTH).
  change (u8 (u8 (swrap 8 (byte (chr SHA1_LENGTH))) + 1)) with 41.
  change (u8 (Z.of_nat 47) <? 6 + 41) with false. cbv iota.
  read_byte (chr SOCKS5_VERSION). read_byte (chr SOCKS5_CMD_CONNECT).
  read_byte (chr SOCKS5_RESERVED). read_byte (chr SOCKS5_ATYP_DOMAIN).
  read_byte (chr 0). read_byte (chr 0).
  change (negb (swrap 8 (byte (chr SOCKS5_VERSION)) =? SOCKS5_VERSION)
    || negb (swrap 8 (byte (chr SOCKS5_CMD_CONNECT)) =? SOCKS5_CMD_CONNECT)
    || negb (swrap 8 (byte (chr SOCKS5_RESERVED)) =? SOCKS5_RESERVED)
    || negb (swrap 8 (byte (chr SOCKS5_ATYP_DOMAIN)) =? SOCKS5_ATYP_DOMAIN)
    || negb (swrap 8 (byte (chr 0)) =? 0) || negb (swrap 8 (byte (chr 0)) =? 0)) with false.
  cbv iota. erewrite bind_eq by done. cbv beta zeta. fold domain.
  assert (check_domain (drop 5 str) (u8 (41 - 1)) domain = true) as ->.
  { unfold check_domain. change (u8 (41 - 1) =? SHA1_LENGTH) with true.
    rewrite <- Hdom. cbn [negb orb]. rewrite negb_involutive. apply strncmp_eq_take_refl. }
  cbn [negb]. cbv iota. erewrite bind_eq; [|by apply write_eq]. erewrite bind_eq by done.
  destruct Hq as (_ & _ & b & Ht). erewrite bind_eq.
  2: { unfold gibber_transport_block_receiving. erewrite bind_eq by done. cbn. by rewrite Ht. }
  erewrite bind_eq by done. cbn [listener with_transport with_s5 log]. rewrite Hlis. done.
Qed.

(** Received data, one piece at a time. *)

Lemma handle_data_eq st str s (m : M5 Z) :
  socks5_state s = st →
  match st with
  | SOCKS5_STATE_INITIATOR_AWAITING_AUTH_REQUEST => m = handle_auth_request str
  | SOCKS5_STATE_INITIATOR_AWAITING_COMMAND => m = handle_command sha1_hex str
  | _ => False
  end → socks5_handle_received_data sha1_hex str s = m s.
Proof.
  intros Hst Hm. unfold socks5_handle_received_data. erewrite bind_eq by done.
  cbv beta. rewrite Hst. by destruct st; try done; subst m.
Qed.

(** One turn of the loop of [transport_handler]. *)
Lemma handler_loop_eq fuel str s used s1 :
  read_buffer s = Some str → socks5_handle_received_data sha1_hex str s = Ok (used, s1) →
  read_buffer s1 = Some str →
  handler_loop sha1_hex fuel s =
    let b' := g_string_erase used str in
    let s2 := with_read_buffer (Some b') s1 in
    if (0 <? used) && (0 <? str_len b')
    then match fuel with O => Abort OutOfFuel | S n => handler_loop sha1_hex n s2 end
    else Ok (tt, s2).
Proof.
  intros Hb Hh Hb1. destruct fuel; cbn [handler_loop]; erewrite bind_eq by done; cbv beta;
    rewrite Hb; (erewrite bind_eq; [|exact Hh]); cbv beta; erewrite bind_eq by done; cbv beta;
    rewrite Hb1; erewrite bind_eq by done; cbv beta zeta; by destruct (_ && _).
Qed.

Section fragments.
Context (s0 : GabbleBytestreamSocks5).
Context (Hq : quiet s0) (Hlis : listener s0 = true)
  (Hst : socks5_state s0 = SOCKS5_STATE_INITIATOR_AWAITING_AUTH_REQUEST).

Definition our_domain : bytes :=
  compute_domain sha1_hex (stream_id s0) (self_full_jid s0) (peer_jid s0).
Definition connect_request : bytes := connect_msg SOCKS5_CMD_CONNECT our_domain.

(** The state after the prefix [p] of what a client sends. *)
Definition after (p : bytes) : GabbleBytestreamSocks5 :=
  if (length p <? 3)%nat then with_read_buffer (Some p) s0
  else if (length p <? 50)%nat then with_read_buffer (Some (drop 3 p)) (authorized s0)
  else with_read_buffer (Some []) (connected our_domain (authorized s0)).

Lemma length_request : length connect_request = 47%nat.
Proof. apply length_connect_msg, Hsha. Qed.

(** The loop once the client is authorized. *)
Lemma command_loop fuel r :
  r `prefix_of` connect_request →
  handler_loop sha1_hex fuel (with_read_buffer (Some r) (authorized s0)) =
    Ok (tt, if (length r <? 47)%nat then with_read_buffer (Some r) (authorized s0)
            else with_read_buffer (Some []) (connected our_domain (authorized s0))).
Proof.
  intros Hr. destruct (Nat.ltb_spec (length r) 47) as [Hl|Hl].
  - erewrite handler_loop_eq; [|done| |].
    2: { erewrite handle_data_eq; [|done|done]. apply (command_short r our_domain); [|done|done].
         apply Hsha. }
    2: done.
    done.
  - assert (r = connect_request) as ->.
    { apply prefix_length_eq; [done|]. by rewrite length_request. }
    erewrite handler_loop_eq; [|done| |].
    2: { erewrite handle_data_eq; [|done|done]. apply (command_full (with_read_buffer (Some connect_request) (authorized s0)));
         [|exact Hlis]. destruct Hq as ([] & ? & ?). by split_and!; [split|..]. }
    2: done.
    unfold g_string_erase. change (47 <? 0) with false. cbv iota zeta.
    rewrite drop_ge by (rewrite length_request; lia). done.
Qed.

Lemma transport_handler_step p d :
  d ≠ [] → (p ++ d) `prefix_of` (auth_request ++ connect_request) →
  transport_handler sha1_hex d (after p) = Ok (tt, after (p ++ d)).
Proof.
  intros Hd Hpre. pose proof (prefix_length _ _ Hpre) as Hlen.
  rewrite !length_app, length_request in Hlen. cbn in Hlen.
  assert (0 < length d)%nat as Hd0 by (destruct d; [done|cbn; lia]).
  unfold after at 1. destruct (Nat.ltb_spec (length p) 3) as [Hp|Hp].
  - unfold transport_handler. erewrite bind_eq by done. cbv beta. cbn [read_buffer with_read_buffer].
    erewrite bind_eq by done. cbv beta.
    change (with_read_buffer (Some (p ++ d)) (with_read_buffer (Some p) s0))
      with (with_read_buffer (Some (p ++ d)) s0).
    unfold after. rewrite length_app.
    destruct (Nat.ltb_spec (length p + length d) 3) as [H3|H3].
    + erewrite handler_loop_eq; [|done| |].
      2: { erewrite handle_data_eq; [|exact Hst|done]. apply auth_request_short.
           - apply (prefix_app_short _ _ connect_request); [done|]. rewrite length_app. cbn. lia.
           - rewrite length_app. lia. }
      2: done.
      done.
    + destruct (prefix_app_long (p ++ d) auth_request connect_request Hpre) as (r & Hr & Hrp);
        [rewrite length_app; cbn; lia|].
      assert (length r = length p + length d - 3)%nat as Hlr.
      { apply (f_equal length) in Hr. rewrite !length_app in Hr. cbn in Hr. lia. }
      rewrite Hr. erewrite handler_loop_eq; [|done| |].
      2: { erewrite handle_data_eq; [|exact Hst|done]. apply auth_request_full.
           destruct Hq as ([] & ? & ?). by split_and!; [split|..]. }
      2: done.
      change (g_string_erase 3 (auth_request ++ r)) with r. cbv zeta.
      change (drop 3 (auth_request ++ r)) with r.
      change (with_read_buffer (Some r) (authorized (with_read_buffer (Some (auth_request ++ r)) s0)))
        with (with_read_buffer (Some r) (authorized s0)).
      change (0 <? 3) with true. cbn [andb]. unfold str_len.
      destruct (Z.ltb_spec 0 (Z.of_nat (length r))) as [Hr0|Hr0].
      * destruct (length p + length d)%nat as [|n] eqn:En; [lia|]. rewrite command_loop by done.
        rewrite <- En in *.
        do 2 f_equal. destruct (Nat.ltb_spec (length r) 47), (Nat.ltb_spec (length p + length d) 50);
          done || lia.
      * by rewrite (proj2 (Nat.ltb_lt (length p + length d) 50)) by lia.
  - rewrite (proj2 (Nat.ltb_lt (length p) 50)) by lia.
    destruct (prefix_app_long (p ++ d) auth_request connect_request Hpre) as (r & Hr & Hrp);
      [rewrite length_app; cbn; lia|].
    assert (drop 3 p ++ d = r) as Hdr.
    { apply (f_equal (drop 3)) in Hr. rewrite drop_app_le in Hr by lia. done. }
    assert (length r = length p + length d - 3)%nat as Hlr.
    { apply (f_equal length) in Hr. rewrite !length_app in Hr. cbn in Hr. lia. }
    unfold transport_handler. erewrite bind_eq by done. cbv beta. cbn [read_buffer with_read_buffer].
    erewrite bind_eq by done. cbv beta. rewrite Hdr.
    change (with_read_buffer (Some r) (with_read_buffer (Some (drop 3 p)) (authorized s0)))
      with (with_read_buffer (Some r) (authorized s0)).
    rewrite command_loop by done. unfold after. rewrite length_app, Hr.
    change (drop 3 (auth_request ++ r)) with r.
    rewrite (proj2 (Nat.ltb_ge (length p + length d) 3)) by lia. do 2 f_equal.
    destruct (Nat.ltb_spec (length r) 47), (Nat.ltb_spec (length p + length d) 50); done || lia.
Qed.

Lemma fragments_from p chunks :
  Forall (λ d, d ≠ []) chunks → p ++ concat chunks = auth_request ++ connect_request →
  for_each chunks (transport_handler sha1_hex) (after p) =
    Ok (tt, after (auth_request ++ connect_request)).
Proof.
  intros Hne. revert p. induction Hne as [|d chunks Hd _ IH]; intros p Hp.
  - cbn in *. rewrite app_nil_r in Hp. by rewrite Hp.
  - cbn [for_each]. cbn in Hp. rewrite (assoc_L (++)) in Hp. erewrite bind_eq.
    2: { apply transport_handler_step; [done|]. exists (concat chunks). by rewrite Hp. }
    by apply IH.
Qed.
End fragments.

(** However TCP cuts up what a well-behaved client sends
    (the authentication request and the CONNECT request for this stream),
    the negotiation goes through: the two replies are written, the stream is
    connected, nothing is left in the buffer, reading is blocked until the
    bytestream is open, and the listener is closed. *)
Theorem socks5_server_handshake s chunks :
  quiet s → listener s = true → read_buffer s = Some [] →
  socks5_state s = SOCKS5_STATE_INITIATOR_AWAITING_AUTH_REQUEST →
  Forall (λ d, d ≠ []) chunks → concat chunks = auth_request ++ connect_request s →
  wp (for_each chunks (transport_handler sha1_hex))
    (λ _ s', socks5_state s' = SOCKS5_STATE_CONNECTED ∧ read_buffer s' = Some [] ∧
       transport s' = Some (mkTransport TConnected true) ∧ listener s' = false ∧
       events s' = events s ++ [Wrote auth_reply;
         Wrote (connect_msg SOCKS5_STATUS_OK (our_domain s))]) s.
Proof.
  intros Hq Hlis Hrb Hst Hne Hc. unfold wp.
  assert (after s [] = s) as Hs.
  { unfold after. cbn. destruct s. cbn in *. by rewrite <- Hrb. }
  pose proof (fragments_from s Hq Hlis Hst [] chunks Hne Hc) as Hf. rewrite Hs in Hf.
  rewrite Hf. unfold after. rewrite length_app, length_request.
  cbn. rewrite <- (assoc_L (++)). done.
Qed.

(** *** The other end *)

Lemma target_connected s b :
  calm s → write_blocked s = false → transport s = Some (mkTransport TConnecting b) →
  socks5_state s = SOCKS5_STATE_TARGET_TRYING_CONNECT →
  transport_connected_cb s = Ok (tt,
    with_s5 SOCKS5_STATE_TARGET_AUTH_REQUEST_SENT (log (Wrote auth_request)
      (with_timer false (with_transport (Some (mkTransport TConnected b)) s)))).
Proof.
  intros Hc Hwb Ht Hst. unfold transport_connected_cb.
  erewrite bind_eq by done. cbv beta. rewrite Ht. cbn [t_rx_blocked].
  erewrite bind_eq by done. erewrite bind_eq by done.
  change (socks5_state (with_timer false (with_transport (Some (mkTransport TConnected b)) s)))
    with (socks5_state s).
  rewrite Hst, bool_decide_eq_true_2 by done. cbn [orb when]. erewrite bind_eq.
  2: { apply write_eq. split; [done|]. split; [done|]. by exists b. }
  erewrite bind_eq by done. unfold modify. cbn [socks5_state log with_timer with_transport].
  by rewrite Hst.
Qed.

Lemma target_auth_reply s :
  quiet s → timer_id s = false → read_buffer s = Some [] →
  socks5_state s = SOCKS5_STATE_TARGET_AUTH_REQUEST_SENT →
  transport_handler sha1_hex auth_reply s = Ok (tt,
    with_timer true (with_s5 SOCKS5_STATE_TARGET_CONNECT_REQUESTED
      (log (Wrote (connect_msg SOCKS5_CMD_CONNECT
        (compute_domain sha1_hex (stream_id s) (peer_jid s) (self_full_jid s)))) s))).
Proof.
  intros Hq Htm Hrb Hst. unfold transport_handler. erewrite bind_eq by done. cbv beta. rewrite Hrb.
  erewrite bind_eq by done. cbv beta.
  assert (quiet (with_read_buffer (Some ([] ++ auth_reply)) s)) as Hq1
    by (destruct Hq as ([] & ? & ?); by split_and!; [split|..]).
  erewrite handler_loop_eq; [|done| |].
  2: { unfold socks5_handle_received_data. erewrite bind_eq by done. cbv beta.
       cbn [socks5_state with_read_buffer]. rewrite Hst. unfold handle_auth_reply.
       change (str_len ([] ++ auth_reply) <? 2) with false. cbv iota.
       read_byte (chr SOCKS5_VERSION). read_byte (chr SOCKS5_AUTH_NONE).
       change (negb (swrap 8 (byte (chr SOCKS5_VERSION)) =? SOCKS5_VERSION) ||
         negb (swrap 8 (byte (chr SOCKS5_AUTH_NONE)) =? SOCKS5_STATUS_OK)) with false. cbv iota.
       erewrite bind_eq by done. cbv beta zeta. cbn [socks5_state with_read_buffer]. rewrite Hst.
       rewrite bool_decide_eq_true_2 by done.
       erewrite bind_eq; [|by apply write_eq]. erewrite bind_eq by done.
       cbn [socks5_state with_read_buffer log]. rewrite Hst, bool_decide_eq_true_2 by done.
       erewrite bind_eq by done. erewrite bind_eq.
       2: { unfold start_timer. erewrite bind_eq by done.
            cbn [timer_id with_s5 log with_read_buffer]. rewrite Htm. done. }
       done. }
  2: done.
  change (g_string_erase 2 ([] ++ auth_reply)) with (@nil ascii). cbn [andb str_len Z.ltb].
  destruct s. cbn in *. by rewrite Hrb.
Qed.

(** A positive CONNECT reply, whatever its 40-byte domain and whatever follows
    it within the same 255 bytes. *)
Lemma connect_reply_eq d rest s :
  length d = 40%nat → (length rest < 209)%nat →
  handle_connect_reply (connect_msg SOCKS5_STATUS_OK d ++ rest) s =
  ((if bool_decide (socks5_state s = SOCKS5_STATE_TARGET_CONNECT_REQUESTED)
    then target_got_connect_reply else initiator_got_connect_reply) ;; mret 47)
    (with_timer false s).
Proof.
  intros Hd Hr.
  destruct (connect_msg_lookups SOCKS5_STATUS_OK d Hd) as (H0&H1&H2&H3&H4&H45&H46&_).
  pose proof (length_connect_msg SOCKS5_STATUS_OK d Hd) as Hl.
  revert Hl H0 H1 H2 H3 H4 H45 H46. generalize (connect_msg SOCKS5_STATUS_OK d) as m.
  intros m Hl H0 H1 H2 H3 H4 H45 H46.
  assert (∀ i c, m !! i = Some c → (m ++ rest) !! i = Some c) as Hlk.
  { intros i c Hi. rewrite lookup_app_l; [done|]. by eapply lookup_lt_Some. }
  apply Hlk in H0, H1, H2, H3, H4, H45, H46.
  assert (str_len (m ++ rest) = 47 + Z.of_nat (length rest)) as Hlen
    by (unfold str_len; rewrite length_app, Hl; lia).
  revert Hlen H0 H1 H2 H3 H4 H45 H46. generalize (m ++ rest) as str. clear Hlk Hl m.
  intros str Hlen H0 H1 H2 H3 H4 H45 H46.
  unfold handle_connect_reply, SOCKS5_MIN_LENGTH. rewrite Hlen, (proj2 (Z.ltb_ge _ 6)) by lia.
  read_byte (chr SOCKS5_VERSION). read_byte (chr SOCKS5_STATUS_OK). read_byte (chr SOCKS5_RESERVED).
  change (negb (swrap 8 (byte (chr SOCKS5_VERSION)) =? SOCKS5_VERSION)
    || negb (swrap 8 (byte (chr SOCKS5_STATUS_OK)) =? SOCKS5_STATUS_OK)
    || negb (swrap 8 (byte (chr SOCKS5_RESERVED)) =? SOCKS5_RESERVED)) with false. cbv iota.
  read_byte (chr SOCKS5_ATYP_DOMAIN). read_byte (chr SHA1_LENGTH).
  change (swrap 8 (byte (chr SOCKS5_ATYP_DOMAIN)) =? SOCKS5_ATYP_DOMAIN) with true.
  cbn [orb negb]. cbv iota. change (u8 (u8 (swrap 8 (byte (chr SHA1_LENGTH))) + 1)) with 41.
  rewrite wrap_id by (change (2 ^ 8) with 256; lia).
  rewrite (proj2 (Z.ltb_ge _ (6 + 41))) by lia. erewrite bind_eq by done.
  read_byte (chr 0). read_byte (chr 0).
  change (negb (swrap 8 (byte (chr 0)) =? 0) || negb (swrap 8 (byte (chr 0)) =? 0)) with false.
  cbv iota. erewrite bind_eq by done. done.
Qed.

Lemma target_got_reply_spec s h l msg t :
  transport s = Some t → streamhosts s = h :: l →
  msg_for_acknowledge_connection s = Some msg →
  wp target_got_connect_reply
    (λ _ s', socks5_state s' = SOCKS5_STATE_CONNECTED ∧
       bytestream_state s' = GABBLE_BYTESTREAM_STATE_OPEN ∧ timer_id s' = timer_id s ∧
       read_buffer s' = read_buffer s ∧ AckStreamhost msg (sh_jid h) ∈ events s') s.
Proof.
  intros Ht Hsh Hmsg. unfold target_got_connect_reply, set_state.
  apply wp_bind, wp_modify, wp_bind, wp_bind, wp_get. apply wp_when; intros Hb;
    [apply wp_bind, wp_modify, wp_modify|]; apply wp_bind, wp_get;
    cbn [streamhosts msg_for_acknowledge_connection log with_bstate with_s5];
    rewrite Hsh, Hmsg; apply wp_bind, wp_modify; apply wp_when; intros _;
    try (eapply block_receiving_spec; [exact Ht|]);
    split_and!; try done; try (cbn; set_solver);
    by apply bool_decide_eq_false, dec_stable in Hb.
Qed.

Lemma target_connect_reply s d h l msg :
  quiet s → read_buffer s = Some [] → length d = 40%nat →
  socks5_state s = SOCKS5_STATE_TARGET_CONNECT_REQUESTED →
  streamhosts s = h :: l → msg_for_acknowledge_connection s = Some msg →
  wp (transport_handler sha1_hex (connect_msg SOCKS5_STATUS_OK d))
    (λ _ s', socks5_state s' = SOCKS5_STATE_CONNECTED ∧
       bytestream_state s' = GABBLE_BYTESTREAM_STATE_OPEN ∧ timer_id s' = false ∧
       read_buffer s' = Some [] ∧ AckStreamhost msg (sh_jid h) ∈ events s') s.
Proof.
  intros (_ & _ & b & Ht) Hrb Hd Hst Hsh Hmsg.
  pose proof (length_connect_msg SOCKS5_STATUS_OK d Hd) as Hl.
  unfold wp, transport_handler. erewrite bind_eq by done. cbv beta. rewrite Hrb.
  erewrite bind_eq by done. cbv beta. set (m := [] ++ connect_msg SOCKS5_STATUS_OK d).
  set (s1 := with_read_buffer (Some m) s).
  assert (∃ s2, socks5_handle_received_data sha1_hex m s1 = Ok (47, s2) ∧
    socks5_state s2 = SOCKS5_STATE_CONNECTED ∧ bytestream_state s2 = GABBLE_BYTESTREAM_STATE_OPEN ∧
    timer_id s2 = false ∧ read_buffer s2 = Some m ∧ AckStreamhost msg (sh_jid h) ∈ events s2)
    as (s2 & Heq & H1 & H2 & H3 & H4 & H5).
  { unfold socks5_handle_received_data. erewrite bind_eq by done. cbv beta.
    cbn [socks5_state s1 with_read_buffer]. rewrite Hst. unfold m. cbn [app].
    rewrite <- (app_nil_r (connect_msg SOCKS5_STATUS_OK d)).
    rewrite connect_reply_eq by (done || cbn; lia). rewrite app_nil_r.
    cbn [socks5_state s1 with_read_buffer]. rewrite Hst, bool_decide_eq_true_2 by done.
    pose proof (target_got_reply_spec (with_timer false s1) h l msg _ Ht Hsh Hmsg) as Hw.
    unfold wp in Hw. destruct (target_got_connect_reply (with_timer false s1)) as [[[] s2]|] eqn:E; [|done].
    exists s2. erewrite bind_eq by exact E. done. }
  erewrite handler_loop_eq; [|done|exact Heq|done].
  unfold g_string_erase. change (47 <? 0) with false. cbv iota zeta.
  rewrite (drop_ge m) by (unfold m; cbn [app]; lia). cbn. done.
Qed.

(** C31: two Gabbles that agree on the stream id and on each
    other's JIDs complete the negotiation: what the target writes is what
    the initiator expects and conversely, both end up connected, and the
    target opens the bytestream and reports the streamhost it used. *)
Theorem socks5_handshake t i b h l msg :
  stream_id t = stream_id i → peer_jid t = self_full_jid i → self_full_jid t = peer_jid i →
  calm t → write_blocked t = false → transport t = Some (mkTransport TConnecting b) →
  read_buffer t = Some [] → socks5_state t = SOCKS5_STATE_TARGET_TRYING_CONNECT →
  streamhosts t = h :: l → msg_for_acknowledge_connection t = Some msg →
  quiet i → listener i = true → read_buffer i = Some [] →
  socks5_state i = SOCKS5_STATE_INITIATOR_AWAITING_AUTH_REQUEST →
  ∃ t1 t2 t3 i1 i2,
    transport_connected_cb t = Ok (tt, t1) ∧
    events t1 = events t ++ [Wrote auth_request] ∧
    transport_handler sha1_hex auth_request i = Ok (tt, i1) ∧
    events i1 = events i ++ [Wrote auth_reply] ∧
    transport_handler sha1_hex auth_reply t1 = Ok (tt, t2) ∧
    events t2 = events t1 ++ [Wrote (connect_request i)] ∧
    transport_handler sha1_hex (connect_request i) i1 = Ok (tt, i2) ∧
    events i2 = events i1 ++ [Wrote (connect_msg SOCKS5_STATUS_OK (our_domain i))] ∧
    transport_handler sha1_hex (connect_msg SOCKS5_STATUS_OK (our_domain i)) t2 = Ok (tt, t3) ∧
    socks5_state i2 = SOCKS5_STATE_CONNECTED ∧ socks5_state t3 = SOCKS5_STATE_CONNECTED ∧
    bytestream_state t3 = GABBLE_BYTESTREAM_STATE_OPEN ∧
    AckStreamhost msg (sh_jid h) ∈ events t3.
Proof.
  intros Hsid Hpeer Hself Hct Hwt Htt Hrt Hst Hsh Hmsg Hqi Hli Hri Hsi.
  assert (after i [] = i) as Hi0 by (unfold after; cbn; destruct i; cbn in *; by rewrite <- Hri).
  pose proof (transport_handler_step i Hqi Hli Hsi [] auth_request ltac:(done) (prefix_app_r _ _ _ (reflexivity _))) as Hi1.
  pose proof (transport_handler_step i Hqi Hli Hsi auth_request (connect_request i)) as Hi2.
  rewrite Hi0 in Hi1. cbn [app] in Hi1.
  assert (connect_request i ≠ []) as Hne by done. specialize (Hi2 Hne (reflexivity _)).
  pose proof (target_connected t b Hct Hwt Htt Hst) as Ht1.
  revert Ht1. set (t1 := with_s5 _ _). intros Ht1.
  assert (quiet t1) as Hq1 by (destruct Hct; split_and!; [by split|done|by exists b]).
  pose proof (target_auth_reply t1 Hq1 eq_refl Hrt eq_refl) as Ht2. revert Ht2.
  change (compute_domain sha1_hex (stream_id t1) (peer_jid t1) (self_full_jid t1))
    with (compute_domain sha1_hex (stream_id t) (peer_jid t) (self_full_jid t)).
  rewrite Hsid, Hpeer, Hself. fold (our_domain i). fold (connect_request i).
  set (t2 := with_timer true _). intros Ht2.
  assert (quiet t2) as Hq2 by (destruct Hq1 as ([] & ? & ?); by split_and!; [split|..]).
  assert (length (our_domain i) = 40%nat) as Hdl by apply Hsha.
  pose proof (target_connect_reply t2 (our_domain i) h l msg Hq2 Hrt Hdl eq_refl Hsh Hmsg) as Ht3.
  unfold wp in Ht3. destruct (transport_handler sha1_hex _ t2) as [[[] t3]|] eqn:E3; [|done].
  destruct Ht3 as (H1 & H2 & _ & _ & H5).
  exists t1, t2, t3, (after i auth_request), (after i (auth_request ++ connect_request i)).
  split_and!; try done.
  - unfold after. rewrite length_app, length_request. done.
  - unfold after. rewrite length_app, length_request. done.
Qed.
End handshake.

(** ** Streamhosts *)

(** A <streamhost/> is added, last, exactly when it has
    no zeroconf attribute, has a JID, a host and a port between 1 and 65535
    in decimal, and is the peer itself if the peer is a MUC contact; the
    port stored is the one announced. *)
Theorem add_streamhost_spec node s :
  name node = "streamhost" →
  ∃ l, gabble_bytestream_socks5_add_streamhost node s =
         Ok (tt, with_streamhosts (streamhosts s ++ l) s) ∧
    ∀ h, h ∈ l ↔
      l = [h] ∧ wocky_node_get_attribute node "zeroconf" = None ∧
      wocky_node_get_attribute node "jid" = Some (sh_jid h) ∧
      wocky_node_get_attribute node "host" = Some (sh_host h) ∧
      (∃ p, wocky_node_get_attribute node "port" = Some p ∧ (strtol p).1 = sh_port h) ∧
      1 <= sh_port h <= 65535 ∧ (muc_contact s = true → sh_jid h = peer_jid s).
Proof.
  intros Hname. unfold gabble_bytestream_socks5_add_streamhost.
  rewrite bool_decide_eq_true_2 by done. cbn [negb].
  assert (with_streamhosts (streamhosts s ++ []) s = s) as Hnil
    by (rewrite app_nil_r; by destruct s).
  assert (∀ h : Streamhost, h ∉ []) as Hno by (intros; apply not_elem_of_nil).
  destruct (wocky_node_get_attribute node "zeroconf") as [z|] eqn:Ez.
  { exists []. rewrite Hnil. split; [done|]. intros h. split; [by intros ?%Hno|naive_solver]. }
  destruct (wocky_node_get_attribute node "jid") as [jid|] eqn:Ej.
  2: { exists []. rewrite Hnil. split; [done|]. intros h. split; [by intros ?%Hno|naive_solver]. }
  destruct (wocky_node_get_attribute node "host") as [host|] eqn:Eh.
  2: { exists []. rewrite Hnil. split; [done|]. intros h. split; [by intros ?%Hno|naive_solver]. }
  destruct (wocky_node_get_attribute node "port") as [p|] eqn:Ep.
  2: { exists []. rewrite Hnil. split; [done|]. intros h. split; [by intros ?%Hno|naive_solver]. }
  destruct ((_ <=? 0) || (65535 <? _)) eqn:Hrange.
  { exists []. rewrite Hnil. split; [done|]. intros h. split; [by intros ?%Hno|].
    intros (_ & _ & _ & _ & (q & [= <-] & Hq) & Hb & _). rewrite Hq in Hrange.
    apply orb_true_iff in Hrange as [H|H]; lia. }
  apply orb_false_iff in Hrange as [H1 H2]. apply Z.leb_gt in H1. apply Z.ltb_ge in H2.
  unfold mbind, M_bind, get. destruct (_ && muc_contact s) eqn:Hmuc.
  { exists []. rewrite Hnil. split; [done|]. intros h. split; [by intros ?%Hno|].
    intros (_ & _ & [= Hj] & _ & _ & _ & Hm). apply andb_prop in Hmuc as [Hd Hmu].
    specialize (Hm Hmu). subst. rewrite Hm in Hd. unfold tp_strdiff in Hd.
    by apply bool_decide_eq_true in Hd. }
  exists [mkStreamhost jid host (u16 (strtol p).1)]. split; [done|].
  intros h. rewrite list_elem_of_singleton.
  rewrite wrap_id by (change (2 ^ 16) with 65536; lia). split.
  - intros ->. cbn. split_and!; try done; try lia; [by exists p|]. intros Hm. rewrite Hm in Hmuc.
    rewrite andb_true_r in Hmuc. apply tp_strdiff_false in Hmuc. by injection Hmuc.
  - intros ([= <-] & _). done.
Qed.

(** ** Aborts a peer or a stranger can cause *)

(** A second TCP connection to our listener while
    it is open aborts the process, whatever the state. *)
Theorem second_connection_aborts s :
  (new_connection_cb ;; new_connection_cb) s = Abort AssertFailed.
Proof.
  unfold new_connection_cb, set_transport, mbind, M_bind, modify, get, g_assert. cbn.
  by destruct (read_buffer s).
Qed.

(** A second <query/> for a stream that already has a
    streamhost to try aborts the process. *)
Theorem second_query_aborts s m1 m2 :
  streamhosts s ≠ [] →
  (gabble_bytestream_socks5_connect_to_streamhost m1 ;;
   gabble_bytestream_socks5_connect_to_streamhost m2) s = Abort AssertFailed.
Proof.
  intros Hh. unfold gabble_bytestream_socks5_connect_to_streamhost, socks5_connect.
  cbn [socks5_connect_fuel]. unfold mbind, M_bind, modify, get. cbn.
  destruct (streamhosts s) as [|h l] eqn:E; [done|].
  unfold set_transport, start_timer, mbind, M_bind, modify, get, g_assert, emit. cbn.
  destruct (read_buffer s); cbn; [done|]. destruct (timer_id s); cbn; [done|].
  rewrite E. cbn. done.
Qed.

(** A proxy that sends anything right after its CONNECT
    reply, in the same segment, aborts the process of the initiator. *)
Theorem data_after_proxy_reply_aborts sha1_hex s d x rest t :
  socks5_state s = SOCKS5_STATE_INITIATOR_CONNECT_REQUESTED →
  read_buffer s = Some [] → transport s = Some t →
  length d = 40%nat → (length rest < 200)%nat →
  transport_handler sha1_hex (connect_msg SOCKS5_STATUS_OK d ++ x :: rest) s = Abort AssertFailed.
Proof.
  intros Hst Hrb Ht Hd Hr. unfold transport_handler. erewrite bind_eq by done. cbv beta.
  rewrite Hrb. erewrite bind_eq by done. cbv beta. cbn [app].
  set (m := connect_msg SOCKS5_STATUS_OK d ++ x :: rest).
  assert (length m = 48 + length rest)%nat as Hl.
  { unfold m. rewrite length_app, (length_connect_msg _ _ Hd). cbn. lia. }
  set (s1 := with_read_buffer (Some m) s).
  erewrite (handler_loop_eq sha1_hex _ m s1 47); [|done| |].
  2: { unfold socks5_handle_received_data. erewrite bind_eq by done. cbv beta.
       cbn [socks5_state s1 with_read_buffer]. rewrite Hst. unfold m.
       rewrite connect_reply_eq by (done || cbn; lia).
       cbn [socks5_state s1 with_read_buffer]. rewrite Hst, bool_decide_eq_false_2 by done.
       unfold initiator_got_connect_reply. erewrite bind_eq; [done|].
       erewrite bind_eq by done. erewrite bind_eq by done. erewrite bind_eq.
       2: { unfold gibber_transport_block_receiving. erewrite bind_eq by done. cbn. by rewrite Ht. }
       done. }
  2: done.
  assert (g_string_erase 47 m = x :: rest) as ->.
  { unfold g_string_erase. change (47 <? 0) with false. cbv iota. unfold m.
    rewrite drop_app_ge by (rewrite (length_connect_msg _ _ Hd); lia).
    by rewrite (length_connect_msg _ _ Hd). }
  cbv zeta. unfold str_len. cbn [length].
  rewrite (proj2 (Z.ltb_lt 0 (Z.of_nat (S (length rest))))) by lia. change (0 <? 47) with true.
  cbn [andb]. rewrite Hl. cbn [Nat.add]. by destruct (length rest).
Qed.

(** ** Long buffers *)

(** The length of the buffer is truncated to eight bits
    before it is compared: with 256 to 261 bytes buffered (or as much above
    any multiple of 256), a complete CONNECT request is left unprocessed. *)
Lemma long_buffer_ignored sha1_hex str s :
  6 <= str_len str → u8 (str_len str) < 6 →
  handle_command sha1_hex str s = Ok (0, s).
Proof.
  intros H1 H2. unfold handle_command, SOCKS5_MIN_LENGTH.
  rewrite (proj2 (Z.ltb_ge _ _)) by lia.
  destruct (str !! Z.to_nat 4) as [c4|] eqn:E4.
  2: { apply lookup_ge_None_1 in E4. unfold str_len in H1. lia. }
  erewrite bind_eq; [|by apply (str_at_eq _ _ c4); [lia|]]. cbv beta.
  pose proof (addr_len_bounds (u8 (swrap 8 (byte c4)) + 1)).
  by rewrite (proj2 (Z.ltb_lt _ _)) by lia.
Qed.

Lemma set_state_eq st s :
  bytestream_state s ≠ st → set_state st s = Ok (tt, log (StateChanged st) (with_bstate st s)).
Proof.
  intros H. unfold set_state. erewrite bind_eq by done. cbv beta.
  by rewrite bool_decide_eq_true_2.
Qed.

(** ** The answer to the offer after the user closed the stream *)

Definition streamhost_used (jid : string) : WockyNode :=
  mkNode "iq" None (Some "jabber:client") []
    [mkNode "query" None (Some NS_BYTESTREAMS) []
       [mkNode "streamhost-used" None (Some NS_BYTESTREAMS) [mkAttribute "jid" jid None] []]].

(** If the initiator closes the stream between the
    target's CONNECT and its answer to the offer, that answer marks the
    stream open and dereferences the transport that was released. *)
Theorem init_reply_after_close_faults s e :
  bytestream_state s = GABBLE_BYTESTREAM_STATE_INITIATING →
  socks5_state s = SOCKS5_STATE_CONNECTED → tx_empty (env s) = true →
  (gabble_bytestream_socks5_close e ;;
   socks5_init_reply_cb (Some (streamhost_used (self_full_jid s)))) s = Abort MemoryFault.
Proof.
  intros Hst H5 Htx.
  assert (∃ s1, gabble_bytestream_socks5_close e s = Ok (tt, s1) ∧
    bytestream_state s1 = GABBLE_BYTESTREAM_STATE_CLOSED ∧ transport s1 = None ∧
    socks5_state s1 = SOCKS5_STATE_CONNECTED ∧ self_full_jid s1 = self_full_jid s)
    as (s1 & Hc & Hb & Ht & H51 & Hj).
  { unfold gabble_bytestream_socks5_close. erewrite bind_eq by done. rewrite Hst.
    rewrite !bool_decide_eq_false_2 by done. erewrite bind_eq.
    2: { apply set_state_eq. by rewrite Hst. }
    cbv beta.
    assert (∀ s2, bytestream_state s2 = GABBLE_BYTESTREAM_STATE_CLOSING →
      bytestream_closed s2 = Ok (tt, log (StateChanged GABBLE_BYTESTREAM_STATE_CLOSED)
        (with_bstate GABBLE_BYTESTREAM_STATE_CLOSED
          (with_transport None (with_read_buffer None s2))))) as Hbc.
    { intros s2 H2. unfold bytestream_closed, socks5_close_transport.
      erewrite bind_eq by done. apply set_state_eq. cbn. by rewrite H2. }
    destruct (transport s); rewrite ?Htx; cbn [negb]; rewrite Hbc by done; by eexists. }
  erewrite bind_eq by exact Hc. unfold socks5_init_reply_cb. erewrite bind_eq by done.
  cbv beta zeta. change (Some (streamhost_used (self_full_jid s)) ≫= _) with
    (Some (self_full_jid s)). cbv iota beta.
  rewrite Hj, (proj2 (tp_strdiff_false _ _)) by done. rewrite H51, bool_decide_eq_false_2 by tauto.
  erewrite bind_eq.
  2: { apply set_state_eq. by rewrite Hb. }
  unfold gibber_transport_block_receiving. erewrite bind_eq by done. cbn. by rewrite Ht.
Qed.

(** ** Sample states

    A constant stands for the hash. *)

Definition sample_sha1 (x : string) : string := "0123456789abcdef0123456789abcdef01234567".

Lemma sample_sha1_hex : hex_digest sample_sha1.
Proof. intros x. split; [done|]. apply (bool_decide_unpack _). by vm_compute. Qed.

Definition sample_env : Env := mkEnv false true ["192.0.2.1"] true 5086 [].

Definition sample_initiator : GabbleBytestreamSocks5 :=
  with_read_buffer (Some []) (with_listener true
    (with_transport (Some (mkTransport TConnected false))
      (with_s5 SOCKS5_STATE_INITIATOR_AWAITING_AUTH_REQUEST
        (new_socks5 "sid" "init" "target@example.com/a" "initiator@example.com/b" false
           GABBLE_BYTESTREAM_STATE_INITIATING sample_env)))).

Definition sample_msg : WockyNode := mkNode "iq" None None [] [].
Definition sample_host : Streamhost := mkStreamhost "initiator@example.com/b" "192.0.2.1" 5086.

Definition sample_target : GabbleBytestreamSocks5 :=
  with_read_buffer (Some []) (with_streamhosts [sample_host] (with_msg (Some sample_msg)
    (with_transport (Some (mkTransport TConnecting false)) (with_timer true
      (with_s5 SOCKS5_STATE_TARGET_TRYING_CONNECT
        (new_socks5 "sid" "init" "initiator@example.com/b" "target@example.com/a" false
           GABBLE_BYTESTREAM_STATE_ACCEPTED sample_env)))))).

Lemma sample_calm : calm sample_initiator.
Proof. by split. Qed.

Lemma sample_quiet : quiet sample_initiator.
Proof. split_and!; [apply sample_calm|done|by exists false]. Qed.

Lemma received_data_safe_witness :
  wp (socks5_handle_received_data sample_sha1 [chr 5; chr 200; chr 0])
    (λ used _, -1 <= used <= 3) sample_initiator ∧
  socks5_handle_received_data sample_sha1 [chr 5]
    (with_s5 SOCKS5_STATE_INITIATOR_ACTIVATION_SENT sample_initiator) = Abort AssertFailed.
Proof.
  split.
  - apply (received_data_safe sample_sha1 [chr 5; chr 200; chr 0]); [|apply sample_calm].
    split; [by exists false|done].
  - by apply (received_data_safe sample_sha1 [chr 5]).
Defined.

Lemma no_spoofed_connection_witness :
  let s := authorized sample_initiator in
  let str := connect_request sample_sha1 s ++ [chr 7] in
  47 = SOCKS5_CONNECT_LENGTH ∧
  take 47 str = connect_msg SOCKS5_CMD_CONNECT
    (compute_domain sample_sha1 (stream_id s) (self_full_jid s) (peer_jid s)).
Proof.
  intros s str.
  eapply (no_spoofed_connection sample_sha1 sample_sha1_hex str s 47
    (connected (our_domain sample_sha1 s) s)); [done|vm_compute; reflexivity|done].
Defined.

Lemma socks5_server_handshake_witness :
  let s := sample_initiator in
  let chunks := [[chr 5]; [chr 1; chr 0; chr 5];
                 drop 1 (connect_request sample_sha1 s)] in
  wp (for_each chunks (transport_handler sample_sha1))
    (λ _ s', socks5_state s' = SOCKS5_STATE_CONNECTED ∧ read_buffer s' = Some [] ∧
       transport s' = Some (mkTransport TConnected true) ∧ listener s' = false ∧
       events s' = events s ++ [Wrote auth_reply;
         Wrote (connect_msg SOCKS5_STATUS_OK (our_domain sample_sha1 s))]) s.
Proof.
  intros s chunks.
  apply (socks5_server_handshake sample_sha1 sample_sha1_hex s chunks);
    [apply sample_quiet|done|done|done|by repeat constructor|vm_compute; reflexivity].
Defined.

Lemma socks5_handshake_witness :
  ∃ t3, bytestream_state t3 = GABBLE_BYTESTREAM_STATE_OPEN ∧
    AckStreamhost sample_msg (sh_jid sample_host) ∈ events t3.
Proof.
  destruct (socks5_handshake sample_sha1 sample_sha1_hex sample_target sample_initiator false
    sample_host [] sample_msg) as (t1 & t2 & t3 & i1 & i2 & H); try reflexivity.
  - by split.
  - apply sample_quiet.
  - exists t3. tauto.
Defined.

Lemma add_streamhost_spec_witness :
  let node := streamhost_node "proxy.example.com" "198.51.100.7" "7777" in
  ∃ l, gabble_bytestream_socks5_add_streamhost node sample_target =
         Ok (tt, with_streamhosts (streamhosts sample_target ++ l) sample_target) ∧
    ∀ h, h ∈ l ↔
      l = [h] ∧ wocky_node_get_attribute node "zeroconf" = None ∧
      wocky_node_get_attribute node "jid" = Some (sh_jid h) ∧
      wocky_node_get_attribute node "host" = Some (sh_host h) ∧
      (∃ p, wocky_node_get_attribute node "port" = Some p ∧ (strtol p).1 = sh_port h) ∧
      1 <= sh_port h <= 65535 ∧
      (muc_contact sample_target = true → sh_jid h = peer_jid sample_target).
Proof. intros node. apply add_streamhost_spec. reflexivity. Defined.

Lemma second_query_aborts_witness :
  (gabble_bytestream_socks5_connect_to_streamhost sample_msg ;;
   gabble_bytestream_socks5_connect_to_streamhost sample_msg)
    (with_streamhosts [sample_host] (new_socks5 "sid" "init" "a" "b" false
       GABBLE_BYTESTREAM_STATE_ACCEPTED sample_env)) = Abort AssertFailed.
Proof. apply second_query_aborts. done. Defined.

Lemma data_after_proxy_reply_aborts_witness :
  transport_handler sample_sha1
    (connect_msg SOCKS5_STATUS_OK (chars (sample_sha1 "x")) ++ [chr 0])
    (with_s5 SOCKS5_STATE_INITIATOR_CONNECT_REQUESTED sample_initiator) = Abort AssertFailed.
Proof.
  eapply (data_after_proxy_reply_aborts sample_sha1 _ (chars (sample_sha1 "x")) (chr 0) []);
    [reflexivity|reflexivity|reflexivity|reflexivity|cbn; lia].
Defined.

Lemma init_reply_after_close_faults_witness :
  (gabble_bytestream_socks5_close None ;;
   socks5_init_reply_cb (Some (streamhost_used "initiator@example.com/b")))
    (with_s5 SOCKS5_STATE_CONNECTED sample_initiator) = Abort MemoryFault.
Proof.
  apply (init_reply_after_close_faults (with_s5 SOCKS5_STATE_CONNECTED sample_initiator));
    reflexivity.
Defined.

(** ** The stream as an object with signals *)

(** What reaches the stream other than through the interface. *)
Inductive own_event :=
  | QueryReceived (msg query : WockyNode)
  | InitReply (reply : option WockyNode)
  | ActivationReply (ok : bool)
  | NewConnection
  | TransportConnected
  | TransportDisconnected
  | TransportBufferEmpty
  | TransportData (data : bytes)
  | Timer
  | Dispose.

Definition to_signal (e : s5_event) : option bytestream_signal :=
  match e with
  | DataReceived d => Some (SigDataReceived d)
  | StateChanged st => Some (SigStateChanged st)
  | WriteBlocked b => Some (SigWriteBlocked b)
  | ConnectionError => Some SigConnectionError
  | _ => None
  end.

Section object.
Context (sha1_hex : string → string).

Definition handle_own (i : own_event) : M5 unit :=
  match i with
  | QueryReceived msg query => query_received msg query
  | InitReply reply => socks5_init_reply_cb reply
  | ActivationReply ok => socks5_activation_reply_cb ok
  | NewConnection => new_connection_cb
  | TransportConnected => transport_connected_cb
  | TransportDisconnected => transport_disconnected_cb
  | TransportBufferEmpty => transport_buffer_empty_cb
  | TransportData data => transport_handler sha1_hex data
  | Timer => socks5_timer_cb ;; mret tt
  | Dispose => gabble_bytestream_socks5_dispose
  end.

#[global] Instance socks5_object : BytestreamObject GabbleBytestreamSocks5 := {
  signals := λ s, omap to_signal (events s);
  vset_state := set_state;
  vprotocol := λ _, NS_BYTESTREAMS;
  own_input := own_event;
  own_handle := handle_own;
}.

Lemma tracks_s5_emit e :
  match e with StateChanged _ => False | _ => True end → tracks (emit e).
Proof.
  intros He s a s' [= <- <-]. exists (omap to_signal [e]). cbn [signals socks5_object].
  split; [apply omap_app|]. by destruct e.
Qed.

Lemma tracks_set_state_s5 st : tracks (set_state st).
Proof.
  intros s a s'. unfold set_state, mbind, M_bind, get. case_bool_decide as Hst; cbn.
  - intros [= <- <-]. exists [SigStateChanged st]. cbn. by rewrite omap_app.
  - intros [= <- <-]. exists []. by rewrite app_nil_r.
Qed.
Local Hint Resolve tracks_set_state_s5 : tracks.
Local Hint Extern 1 (tracks (emit _)) => apply tracks_s5_emit; exact I : tracks.
Local Hint Extern 1 (tracks (modify _)) =>
  apply tracks_modify; intros ?; by split : tracks.

Lemma tracks_s5_close e : tracks (gabble_bytestream_socks5_close e).
Proof.
  unfold gabble_bytestream_socks5_close, gabble_bytestream_socks5_decline, bytestream_closed,
    socks5_close_transport. solve_tracks.
Qed.
Local Hint Resolve tracks_s5_close : tracks.

Lemma tracks_set_transport t : tracks (set_transport t).
Proof. unfold set_transport. solve_tracks. Qed.
Lemma tracks_start_timer : tracks start_timer.
Proof. unfold start_timer. solve_tracks. Qed.
Lemma tracks_stop_timer : tracks stop_timer.
Proof. unfold stop_timer. solve_tracks. Qed.
Lemma tracks_block_receiving b : tracks (gibber_transport_block_receiving b).
Proof. unfold gibber_transport_block_receiving. solve_tracks. Qed.
Lemma tracks_change_write_blocked b : tracks (change_write_blocked_state b).
Proof. unfold change_write_blocked_state. solve_tracks. Qed.
Lemma tracks_close_transport : tracks socks5_close_transport.
Proof. unfold socks5_close_transport. solve_tracks. Qed.
Local Hint Resolve tracks_set_transport tracks_start_timer tracks_stop_timer
  tracks_block_receiving tracks_change_write_blocked tracks_close_transport : tracks.

Lemma tracks_error_connect fuel :
  tracks (socks5_error_fuel fuel) ∧ tracks (socks5_connect_fuel fuel).
Proof.
  induction fuel as [|fuel [IH1 IH2]]; [split; apply tracks_fail|].
  split; cbn; solve_tracks.
Qed.
Lemma tracks_error : tracks socks5_error.
Proof. apply tracks_error_connect. Qed.
Lemma tracks_connect : tracks socks5_connect.
Proof. apply tracks_error_connect. Qed.
Local Hint Resolve tracks_error tracks_connect : tracks.

Lemma tracks_buffer_empty : tracks transport_buffer_empty_cb.
Proof. unfold transport_buffer_empty_cb, bytestream_closed. solve_tracks. Qed.
Local Hint Resolve tracks_buffer_empty : tracks.

Lemma tracks_write data : tracks (write_to_transport data).
Proof. unfold write_to_transport, transport_disconnected_cb. solve_tracks. Qed.
Local Hint Resolve tracks_write : tracks.

Lemma tracks_str_at str i : tracks (str_at str i).
Proof. unfold str_at. solve_tracks. Qed.
Local Hint Resolve tracks_str_at : tracks.

Lemma tracks_received str : tracks (socks5_handle_received_data sha1_hex str).
Proof.
  unfold socks5_handle_received_data, handle_auth_reply, handle_connect_reply,
    handle_auth_request, handle_command, target_got_connect_reply, initiator_got_connect_reply.
  solve_tracks.
Qed.
Local Hint Resolve tracks_received : tracks.

Lemma tracks_handler_loop fuel : tracks (handler_loop sha1_hex fuel).
Proof. induction fuel; cbn [handler_loop]; solve_tracks. Qed.
Local Hint Resolve tracks_handler_loop : tracks.

Lemma tracks_add_streamhost n : tracks (gabble_bytestream_socks5_add_streamhost n).
Proof. unfold gabble_bytestream_socks5_add_streamhost. solve_tracks. Qed.
Local Hint Resolve tracks_add_streamhost : tracks.

Lemma tracks_handle_own i : tracks (handle_own i).
Proof.
  destruct i; cbn [handle_own]; unfold query_received, gabble_bytestream_socks5_connect_to_streamhost,
    socks5_init_reply_cb, initiator_connected_to_proxy, socks5_activation_reply_cb, new_connection_cb,
    transport_connected_cb, transport_disconnected_cb, transport_handler, socks5_timer_cb,
    gabble_bytestream_socks5_dispose; solve_tracks.
  apply tracks_modify. intros s. by destruct (transport s).
Qed.

#[global] Instance socks5_tracks : BytestreamTracks GabbleBytestreamSocks5.
Proof.
  split; cbn; intros; auto using tracks_handle_own with tracks nocore;
    unfold gabble_bytestream_socks5_initiate, send_streamhosts, gabble_bytestream_socks5_send,
      gabble_bytestream_socks5_accept, gabble_bytestream_socks5_block_reading; solve_tracks.
  revert H. cbn. unfold gabble_bytestream_socks5_block_reading, gibber_transport_block_receiving,
    mbind, M_bind, get, modify. case_bool_decide; [by intros [= <- <-]|].
  destruct (transport s) eqn:Ht; cbn; rewrite ?Ht; by intros [= <- <-].
Qed.
End object.

End BytestreamSocks5.
