(* ===== verification/BytestreamMuc.v ===== *)
(** * Pseudo-bytestreams in chat rooms (src/bytestream-muc.c)

    A message is cut into <data/> fragments labelled "first", "middle",
    "last" (or not labelled when there is only one) and sent to the whole
    room or to one of its members; a receiver keeps one buffer per sender.
    [g_base64_encode], [g_base64_decode], the lookup of a room member's
    handle (0 when unknown) and the outcome of the n-th
    [_gabble_connection_send] are arguments. *)

From Stdlib Require String.
From S2P Require Import Prelude Node Namespaces BytestreamIface.

Module BytestreamMuc.

Definition MAX_BLOCK_SIZE : Z := 1024 * 45.

Inductive muc_event :=
  | SendMessage (msg : WockyNode)
  | DataReceived (sender : Z) (data : bytes)
  | StateChanged (st : GabbleBytestreamState).

Record GabbleBytestreamMuc := mkMuc {
  stream_id : string;
  state : GabbleBytestreamState;
  peer_jid : string;
  buffers : gmap string bytes;
  attempts : nat;                 (* calls of _gabble_connection_send so far *)
  dispose_has_run : bool;
  events : list muc_event;
}.

Local Notation MM := (M GabbleBytestreamMuc).

Definition new_muc (sid room : string) (st : GabbleBytestreamState) : GabbleBytestreamMuc :=
  mkMuc sid st room ∅ 0 false [].

Definition with_state st (s : GabbleBytestreamMuc) :=
  mkMuc (stream_id s) st (peer_jid s) (buffers s) (attempts s) (dispose_has_run s) (events s).
Definition with_buffers b (s : GabbleBytestreamMuc) :=
  mkMuc (stream_id s) (state s) (peer_jid s) b (attempts s) (dispose_has_run s) (events s).
Definition with_attempts n (s : GabbleBytestreamMuc) :=
  mkMuc (stream_id s) (state s) (peer_jid s) (buffers s) n (dispose_has_run s) (events s).
Definition with_disposed (s : GabbleBytestreamMuc) :=
  mkMuc (stream_id s) (state s) (peer_jid s) (buffers s) (attempts s) true (events s).
Definition log e (s : GabbleBytestreamMuc) :=
  mkMuc (stream_id s) (state s) (peer_jid s) (buffers s) (attempts s) (dispose_has_run s)
    (events s ++ [e]).

Definition emit (e : muc_event) : MM unit := modify (log e).

(** The "state" property. *)
Definition set_state (st : GabbleBytestreamState) : MM unit :=
  s ← get;
  when (bool_decide (state s ≠ st)) (modify (with_state st) ;; emit (StateChanged st)).

Inductive fragment := FRAG_COMPLETE | FRAG_FIRST | FRAG_MIDDLE | FRAG_LAST.

#[global] Instance fragment_eq_dec : EqDecision fragment.
Proof. solve_decision. Defined.

(** ** Stanzas *)

Definition amp_rule (condition value : string) : WockyNode :=
  mkNode "rule" None (Some NS_AMP)
    [mkAttribute "condition" condition None; mkAttribute "value" value None;
     mkAttribute "action" "error" None] [].

Definition GABBLE_AMP_DO_NOT_STORE_SPEC : WockyNode :=
  mkNode "amp" None (Some NS_AMP) []
    [amp_rule "deliver-at" "stored"; amp_rule "match-resource" "exact"].

(** The "frag" attribute written for a fragment; none when it is complete. *)
Definition set_frag (frag : fragment) (data : WockyNode) : WockyNode :=
  match frag with
  | FRAG_FIRST => wocky_node_set_attribute data "frag" "first"
  | FRAG_MIDDLE => wocky_node_set_attribute data "frag" "middle"
  | FRAG_LAST => wocky_node_set_attribute data "frag" "last"
  | FRAG_COMPLETE => data
  end.

Definition data_message (sid to : string) (groupchat : bool) (encoded : string)
    (frag : fragment) : WockyNode :=
  let data := mkNode "data" None (Some NS_MUC_BYTESTREAM) [mkAttribute "sid" sid None] [] in
  let data := set_frag frag (wocky_node_set_content data encoded) in
  let msg := mkNode "message" None (Some "jabber:client") [mkAttribute "to" to None]
    [data; GABBLE_AMP_DO_NOT_STORE_SPEC] in
  if groupchat then wocky_node_set_attribute msg "type" "groupchat" else msg.

(** ** Operations *)

Section ops.
Context (g_base64_encode : bytes → string) (g_base64_decode : string → bytes)
  (tp_handle_lookup : string → Z) (connection_send : nat → bool).

(** The loop of [send_data_to]; it sends at least a byte per turn, so the
    length of the data is enough fuel. *)
Fixpoint send_loop (fuel : nat) (to : string) (groupchat : bool) (str : bytes)
    (sent : Z) (stanza_count : nat) : MM bool :=
  let len := Z.of_nat (length str) in
  if sent <? len then
    match fuel with
    | O => fail OutOfFuel
    | S fuel =>
        s ← get;
        let '(send_now, frag) :=
          if MAX_BLOCK_SIZE <? len - sent
          then (MAX_BLOCK_SIZE, if (stanza_count =? 0)%nat then FRAG_FIRST else FRAG_MIDDLE)
          else (len - sent, if (stanza_count =? 0)%nat then FRAG_COMPLETE else FRAG_LAST) in
        let encoded :=
          g_base64_encode (take (Z.to_nat send_now) (drop (Z.to_nat sent) str)) in
        let msg := data_message (stream_id s) to groupchat encoded frag in
        modify (with_attempts (S (attempts s))) ;;
        if negb (connection_send (attempts s)) then mret false
        else
          emit (SendMessage msg) ;;
          send_loop fuel to groupchat str (sent + send_now) (S stanza_count)
    end
  else mret true.

Definition send_data_to (to : string) (groupchat : bool) (str : bytes) : MM bool :=
  s ← get;
  if bool_decide (state s ≠ GABBLE_BYTESTREAM_STATE_OPEN) then mret false
  else send_loop (length str) to groupchat str 0 0.

Definition gabble_bytestream_muc_send (str : bytes) : MM bool :=
  s ← get;
  send_data_to (peer_jid s) true str.

(** [to] is the identifier of the contact's handle. *)
Definition gabble_bytestream_muc_send_to (to : string) (str : bytes) : MM bool :=
  s ← get;
  if negb (String.prefix (peer_jid s) to) then mret false
  else if negb (bool_decide (String.get (String.length (peer_jid s)) to = Some "/"%char))
  then mret false
  else send_data_to to false str.

(** What the "frag" attribute says, if it is valid. *)
Definition parse_frag (frag_val : option string) : option fragment :=
  match frag_val with
  | None => Some FRAG_COMPLETE
  | Some _ =>
      if negb (tp_strdiff frag_val (Some "first")) then Some FRAG_FIRST
      else if negb (tp_strdiff frag_val (Some "middle")) then Some FRAG_MIDDLE
      else if negb (tp_strdiff frag_val (Some "last")) then Some FRAG_LAST
      else if negb (tp_strdiff frag_val (Some "complete")) then Some FRAG_COMPLETE
      else None
  end.

Definition gabble_bytestream_muc_receive (msg : WockyNode) : MM unit :=
  match wocky_node_get_child_ns msg (Some "data") (Some NS_MUC_BYTESTREAM) with
  | None => fail AssertFailed
  | Some data =>
      s ← get;
      if bool_decide (state s ≠ GABBLE_BYTESTREAM_STATE_OPEN) then mret tt
      else
        match wocky_node_get_attribute msg "from" with
        | None => mret tt
        | Some from =>
            let sender := tp_handle_lookup from in
            if sender =? 0 then mret tt
            else
              match parse_frag (wocky_node_get_attribute data "frag") with
              | None => mret tt
              | Some frag =>
                  match content data with
                  | None => fail MemoryFault   (* g_base64_decode (NULL) leaves outlen unset *)
                  | Some text =>
                      let str := g_base64_decode text in
                      match frag, buffers s !! from with
                      | FRAG_COMPLETE, _ =>
                          modify (with_buffers (delete from (buffers s))) ;;
                          emit (DataReceived sender str)
                      | FRAG_FIRST, _ => modify (with_buffers (<[from := str]> (buffers s)))
                      | FRAG_MIDDLE, None => mret tt
                      | FRAG_MIDDLE, Some buffer =>
                          modify (with_buffers (<[from := buffer ++ str]> (buffers s)))
                      | FRAG_LAST, None => mret tt
                      | FRAG_LAST, Some buffer =>
                          modify (with_buffers (delete from (buffers s))) ;;
                          emit (DataReceived sender (buffer ++ str))
                      end
                  end
              end
        end
  end.

Definition gabble_bytestream_muc_accept (sent : bool) (func : WockyNode → WockyNode) : MM unit :=
  mret tt.

Definition gabble_bytestream_muc_close (error : option string) : MM unit :=
  s ← get;
  if bool_decide (state s = GABBLE_BYTESTREAM_STATE_CLOSED) then mret tt
  else set_state GABBLE_BYTESTREAM_STATE_CLOSED.

Definition gabble_bytestream_muc_initiate (sent : bool) : MM bool := mret true.

#[global] Instance muc_iface : GabbleBytestreamIfaceClass GabbleBytestreamMuc := {
  state_of := state;
  vinitiate := gabble_bytestream_muc_initiate;
  vsend := gabble_bytestream_muc_send;
  vclose := gabble_bytestream_muc_close;
  vaccept := gabble_bytestream_muc_accept;
  vblock_reading := None;
}.

#[global] Instance muc_laws : @BytestreamLaws GabbleBytestreamMuc muc_iface.
Proof.
  split; cbn; intros s.
  - intros b H. by exists true.
  - intros d H. unfold gabble_bytestream_muc_send, send_data_to, mbind, M_bind, get.
    by rewrite bool_decide_eq_true_2.
  - intros e H. unfold gabble_bytestream_muc_close, mbind, M_bind, get.
    by rewrite bool_decide_eq_true_2.
  - done.
Qed.

Definition gabble_bytestream_muc_dispose : MM unit :=
  s ← get;
  if dispose_has_run s then mret tt
  else
    modify with_disposed ;;
    when (bool_decide (state s ≠ GABBLE_BYTESTREAM_STATE_CLOSED))
      (gabble_bytestream_iface_close None).
End ops.

(** ** Sending *)

(** The label of the i-th of n fragments. *)
Definition label (n i : nat) : fragment :=
  if (n =? 1)%nat then FRAG_COMPLETE
  else if (i =? 0)%nat then FRAG_FIRST
  else if (S i =? n)%nat then FRAG_LAST
  else FRAG_MIDDLE.

Section facts.
Context (enc : bytes → string) (dec : string → bytes).
Context (lookup : string → Z) (csend : nat → bool).

Definition messages (sid to : string) (groupchat : bool) (n k : nat) (cs : list bytes) :
    list WockyNode :=
  imap (λ i c, data_message sid to groupchat (enc c) (label n (k + i))) cs.

Lemma messages_cons sid to gc n k c cs :
  messages sid to gc n k (c :: cs) =
  data_message sid to gc (enc c) (label n k) :: messages sid to gc n (S k) cs.
Proof.
  unfold messages. cbn. rewrite Nat.add_0_r. f_equal.
  apply imap_ext. intros i x _. cbn. by rewrite <- plus_n_Sm.
Qed.

Lemma length_messages sid to gc n k cs : length (messages sid to gc n k cs) = length cs.
Proof. apply length_imap. Qed.

(** [cs] cuts [str] into blocks, all of the maximal size but the last. *)
Inductive blocks : list bytes → bytes → Prop :=
  | blocks_nil : blocks [] []
  | blocks_last c : 0 < Z.of_nat (length c) <= MAX_BLOCK_SIZE → blocks [c] c
  | blocks_cons c cs str :
      Z.of_nat (length c) = MAX_BLOCK_SIZE → str ≠ [] → blocks cs str →
      blocks (c :: cs) (c ++ str).

Lemma blocks_spec cs str :
  blocks cs str →
  concat cs = str ∧ Forall (λ c, 0 < Z.of_nat (length c) <= MAX_BLOCK_SIZE) cs.
Proof.
  induction 1 as [|c Hc|c cs str Hc _ _ [<- IH]]; cbn; rewrite ?app_nil_r; split; auto.
  constructor; [unfold MAX_BLOCK_SIZE in *; lia|done].
Qed.

(** The first block of what is left of a message. *)
Lemma blocks_step cs c str :
  0 < Z.of_nat (length c) → blocks cs str →
  Z.of_nat (length c) = Z.min MAX_BLOCK_SIZE (Z.of_nat (length (c ++ str))) →
  blocks (c :: cs) (c ++ str).
Proof.
  intros Hc Hb Hl. rewrite length_app in Hl. destruct str as [|x str].
  - inversion Hb; subst; [|cbn in *; lia|].
    + rewrite app_nil_r. constructor. cbn in Hl. lia.
    + destruct c0; cbn in *; [unfold MAX_BLOCK_SIZE in *; lia|done].
  - constructor; [|done..]. cbn in Hl. lia.
Qed.

Lemma blocks_empty cs str : blocks cs str → cs = [] ↔ str = [].
Proof.
  destruct 1 as [|c Hc|c cs str Hc _ _]; [done|..]; (split; [done|]).
  - intros ->. cbn in Hc. lia.
  - intros [-> _]%app_eq_nil. cbn in Hc. unfold MAX_BLOCK_SIZE in Hc. lia.
Qed.

Lemma blocks_exist str : ∃ cs, blocks cs str.
Proof.
  remember (length str) as n eqn:Hn. revert str Hn.
  induction n as [n IH] using lt_wf_ind. intros str ->.
  destruct (decide (str = [])) as [->|Hne]; [by exists []; constructor|].
  assert (0 < length str)%nat by (destruct str; [done|cbn; lia]).
  pose (m := Z.to_nat (Z.min MAX_BLOCK_SIZE (Z.of_nat (length str)))).
  assert (0 < m ≤ length str)%nat as Hm by (unfold m, MAX_BLOCK_SIZE; lia).
  assert (Z.of_nat m = Z.min MAX_BLOCK_SIZE (Z.of_nat (length str))) as Hm'
    by (unfold m, MAX_BLOCK_SIZE in *; lia).
  destruct (IH (length (drop m str)) ltac:(rewrite length_drop; lia) (drop m str) eq_refl) as [cs Hb].
  exists (take m str :: cs). rewrite <- (take_drop m str) at 2.
  apply blocks_step; [rewrite length_take; lia|done|].
  rewrite take_drop, length_take. lia.
Qed.

(** What the sending loop does from a given point on: of the fragments of
    the rest, it sends the first [j]; all of them if it succeeds, those
    before the first refused by the connection otherwise. *)
Definition sends_blocks (to : string) (gc : bool) (cnt : nat) (str : bytes)
    (s : GabbleBytestreamMuc) (r : bool) (s' : GabbleBytestreamMuc) : Prop :=
  ∃ cs j, blocks cs str ∧ (j ≤ length cs)%nat ∧
    events s' = events s ++ (SendMessage <$>
      take j (messages (stream_id s) to gc (cnt + length cs) cnt cs)) ∧
    (∀ i, (i < j)%nat → csend (attempts s + i) = true) ∧
    (if r then j = length cs else (j < length cs)%nat ∧ csend (attempts s + j) = false) ∧
    state s' = state s ∧ buffers s' = buffers s.

Lemma sends_nothing to gc cnt s : sends_blocks to gc cnt [] s true s.
Proof.
  exists [], O. cbn. rewrite app_nil_r. split_and!; try done; [constructor|lia..].
Qed.

(** One turn of the loop cuts off the next block and labels it. *)
Lemma next_block str sent cnt :
  0 <= sent < Z.of_nat (length str) → (cnt = O ↔ sent = 0) →
  ∃ send_now frag,
    (if MAX_BLOCK_SIZE <? Z.of_nat (length str) - sent
     then (MAX_BLOCK_SIZE, if (cnt =? 0)%nat then FRAG_FIRST else FRAG_MIDDLE)
     else (Z.of_nat (length str) - sent, if (cnt =? 0)%nat then FRAG_COMPLETE else FRAG_LAST))
    = (send_now, frag) ∧
    0 < send_now <= Z.of_nat (length str) - sent ∧
    (∀ cs, blocks cs (drop (Z.to_nat (sent + send_now)) str) →
       frag = label (cnt + S (length cs)) cnt) ∧
    (∀ cs, blocks cs (drop (Z.to_nat (sent + send_now)) str) →
       blocks (take (Z.to_nat send_now) (drop (Z.to_nat sent) str) :: cs)
         (drop (Z.to_nat sent) str)).
Proof.
  intros Hs Hc. exists (Z.min MAX_BLOCK_SIZE (Z.of_nat (length str) - sent)).
  set (send_now := Z.min _ _).
  assert (0 < send_now <= Z.of_nat (length str) - sent) as Hnow
    by (unfold send_now, MAX_BLOCK_SIZE; lia).
  assert (∀ cs, blocks cs (drop (Z.to_nat (sent + send_now)) str) →
    blocks (take (Z.to_nat send_now) (drop (Z.to_nat sent) str) :: cs)
      (drop (Z.to_nat sent) str)) as Hb.
  { intros cs Hcs. rewrite Z2Nat.inj_add, <- drop_drop in Hcs by lia.
    rewrite <- (take_drop (Z.to_nat send_now) (drop (Z.to_nat sent) str)) at 2.
    apply blocks_step; rewrite ?take_drop, ?length_take, ?length_drop; [lia|done|].
    unfold send_now in *; lia. }
  assert (∀ cs, blocks cs (drop (Z.to_nat (sent + send_now)) str) →
    cs = [] ↔ Z.of_nat (length str) = sent + send_now) as Hlast.
  { intros cs ->%blocks_empty. split.
    - intros Hd%(f_equal length). rewrite length_drop in Hd. cbn in Hd. lia.
    - intros. apply drop_ge. lia. }
  assert (∀ cs, blocks cs (drop (Z.to_nat (sent + send_now)) str) →
    length cs = O ↔ Z.of_nat (length str) - sent <= MAX_BLOCK_SIZE) as Hlen.
  { intros cs Hcs. rewrite length_zero_iff_nil, (Hlast cs Hcs). unfold send_now. lia. }
  destruct (Z.ltb_spec MAX_BLOCK_SIZE (Z.of_nat (length str) - sent)) as [Hgt|Hle];
    eexists; (split; [f_equal; unfold send_now; lia|]); (split; [exact Hnow|]);
    (split; [|exact Hb]); intros cs Hcs;
    specialize (Hlen cs Hcs); unfold label; repeat case_match; try done;
    rewrite ?Nat.eqb_eq, ?Nat.eqb_neq in *; lia.
Qed.

Lemma send_loop_spec fuel to gc str sent cnt s :
  (Z.of_nat (length str) - sent <= Z.of_nat fuel) → 0 <= sent <= Z.of_nat (length str) →
  (cnt = O ↔ sent = 0) →
  wp (send_loop enc csend fuel to gc str sent cnt)
    (sends_blocks to gc cnt (drop (Z.to_nat sent) str) s) s.
Proof.
  revert sent cnt s. induction fuel as [|fuel IH]; intros sent cnt s Hf Hs Hc; cbn [send_loop].
  all: destruct (Z.ltb_spec sent (Z.of_nat (length str))) as [Hlt|Hge].
  all: try (apply wp_ret; rewrite drop_ge by lia; apply sends_nothing).
  { lia. }
  apply wp_bind, wp_get.
  destruct (next_block str sent cnt) as (send_now & frag & -> & Hnow & Hfrag & Hb); [lia|done|].
  set (c := take (Z.to_nat send_now) (drop (Z.to_nat sent) str)) in *.
  apply wp_bind, wp_modify. destruct (csend (attempts s)) eqn:Hsend; cbn [negb].
  - apply wp_bind, wp_modify. eapply wp_mono; [|apply IH; lia].
    intros r s' (cs & j & Hcs & Hj & Hev & Hok & Hr & Hst & Hbuf). cbn in Hok, Hr, Hst, Hbuf, Hev.
    exists (c :: cs), (S j). rewrite messages_cons. cbn [length]. rewrite <- (Hfrag cs Hcs).
    split_and!; [by apply Hb|lia| | | |done|done].
    + rewrite Hev. cbn. rewrite <- plus_n_Sm. by rewrite <- (assoc_L (++)).
    + intros [|i] Hi; [by rewrite Nat.add_0_r|]. rewrite <- plus_n_Sm. apply Hok. lia.
    + destruct r; [by f_equal|]. rewrite <- plus_n_Sm. destruct Hr. split; [lia|done].
  - apply wp_ret. destruct (blocks_exist (drop (Z.to_nat (sent + send_now)) str)) as [cs Hcs].
    exists (c :: cs), O. cbn. rewrite app_nil_r, Nat.add_0_r.
    split_and!; try done; [by apply Hb|lia..].
Qed.
(** Sending a message on an open stream hands the connection
    the message cut into blocks of 45 KiB (the last may be shorter), labelled
    so that a receiver can put them together; it stops at the first stanza
    the connection refuses, and reports success exactly when none is
    refused. *)
Theorem muc_send_fragments str s :
  state s = GABBLE_BYTESTREAM_STATE_OPEN →
  wp (gabble_bytestream_muc_send enc csend str) (sends_blocks (peer_jid s) true 0 str s) s.
Proof.
  intros Hst. apply wp_bind, wp_get, wp_bind, wp_get.
  rewrite bool_decide_eq_false_2 by congruence.
  by apply send_loop_spec; [lia..|].
Qed.

(** ** Receiving *)

Definition deliveries (h : Z) (evs : list muc_event) : list bytes :=
  omap (λ e, match e with
             | DataReceived sender d => if sender =? h then Some d else None
             | _ => None
             end) evs.

Definition from_of (msg : WockyNode) : option string := wocky_node_get_attribute msg "from".

Definition has_data (msg : WockyNode) : Prop :=
  is_Some (wocky_node_get_child_ns msg (Some "data") (Some NS_MUC_BYTESTREAM) ≫= content).

(** What a receiver holds of one sender: the incomplete message, and the
    messages delivered. *)
Definition view : Type := option bytes * list bytes.

Definition view_of (f : string) (s : GabbleBytestreamMuc) : view :=
  (buffers s !! f, deliveries (lookup f) (events s)).

Definition view_step (v : view) (x : fragment * bytes) : view :=
  let '(b, ds) := v in
  let '(frag, d) := x in
  match frag, b with
  | FRAG_COMPLETE, _ => (None, ds ++ [d])
  | FRAG_FIRST, _ => (Some d, ds)
  | FRAG_MIDDLE, _ => ((λ x, x ++ d) <$> b, ds)
  | FRAG_LAST, None => (None, ds)
  | FRAG_LAST, Some x => (None, ds ++ [x ++ d])
  end.

(** The fragment a stanza carries. *)
Definition parse (msg : WockyNode) : option (fragment * bytes) :=
  data ← wocky_node_get_child_ns msg (Some "data") (Some NS_MUC_BYTESTREAM);
  frag ← parse_frag (wocky_node_get_attribute data "frag");
  text ← content data;
  Some (frag, dec text).

Definition view_message (v : view) (msg : WockyNode) : view :=
  match parse msg with
  | Some x => view_step v x
  | None => v
  end.

Lemma deliveries_app h l1 l2 : deliveries h (l1 ++ l2) = deliveries h l1 ++ deliveries h l2.
Proof. apply omap_app. Qed.

(** A stanza acts on its sender's view as [view_step] says, and on nobody
    else's. *)
Lemma receive_view f msg r :
  has_data msg → state r = GABBLE_BYTESTREAM_STATE_OPEN → lookup f ≠ 0 →
  (∀ g, from_of msg = Some g → lookup g = lookup f → g = f) →
  wp (gabble_bytestream_muc_receive dec lookup msg)
    (λ _ r', state r' = GABBLE_BYTESTREAM_STATE_OPEN ∧
       view_of f r' = (if decide (from_of msg = Some f)
                       then view_message (view_of f r) msg else view_of f r)) r.
Proof.
  intros (text & (data & Hd & Ht)%bind_Some) Hst Hf Hinj.
  unfold gabble_bytestream_muc_receive, view_message, parse. rewrite Hd. cbn [mbind option_bind].
  apply wp_bind, wp_get. rewrite bool_decide_eq_false_2 by congruence.
  fold (from_of msg). destruct (from_of msg) as [g|] eqn:Hg; [|by rewrite decide_False].
  rewrite Ht. cbn [mbind option_bind].
  destruct (Z.eqb_spec (lookup g) 0) as [Hz|Hz].
  { rewrite decide_False by congruence. done. }
  destruct (parse_frag _) as [frag|]; [|by case_decide].
  assert (∀ d h, deliveries h [DataReceived (lookup g) d] =
    if decide (lookup g = h) then [d] else []) as Hdel.
  { intros d h. unfold deliveries. cbn. destruct (Z.eqb_spec (lookup g) h); by case_decide. }
  destruct (decide (g = f)) as [->|Hne].
  - rewrite decide_True by done. unfold view_of, view_step.
    destruct frag, (buffers r !! f) as [b|] eqn:Hb;
      repeat first [apply wp_bind|apply wp_modify|apply wp_ret]; (split; [done|]); cbn -[deliveries];
      rewrite ?deliveries_app, ?Hdel, ?decide_True, ?lookup_delete_eq, ?lookup_insert_eq, ?Hb by done; done.
  - assert (lookup g ≠ lookup f) as Hne' by (intros ?; apply Hne; eauto).
    rewrite decide_False by congruence. unfold view_of, view_step.
    destruct frag, (buffers r !! g) as [b|];
      repeat first [apply wp_bind|apply wp_modify|apply wp_ret]; (split; [done|]); cbn -[deliveries];
      rewrite ?deliveries_app, ?Hdel, ?decide_False, ?lookup_delete_ne, ?lookup_insert_ne, ?app_nil_r by done; done.
Qed.

Lemma receive_all_view f l r :
  Forall has_data l → state r = GABBLE_BYTESTREAM_STATE_OPEN → lookup f ≠ 0 →
  (∀ m g, m ∈ l → from_of m = Some g → lookup g = lookup f → g = f) →
  wp (for_each l (gabble_bytestream_muc_receive dec lookup))
    (λ _ r', view_of f r' =
       foldl view_message (view_of f r) (filter (λ m, from_of m = Some f) l)) r.
Proof.
  intros Hl Hst Hf Hinj. revert r Hst. induction Hl as [|m l Hm Hl IH]; intros r Hst; [done|].
  cbn [for_each]. apply wp_bind. eapply wp_mono; [|apply (receive_view f); try done].
  2: { intros g. apply Hinj. by left. }
  intros [] r1 [Hst1 Hv]. eapply wp_mono; [|apply IH; [|done]].
  2: { intros m' g Hin. apply Hinj. by right. }
  intros [] r2 ->. rewrite Hv, filter_cons. by destruct (decide (from_of m = Some f)).
Qed.

(** ** Round trip *)

(** The room relays a message under the name of its sender. *)
Definition relayed (f : string) (msg : WockyNode) : WockyNode :=
  wocky_node_set_attribute msg "from" f.

Lemma relayed_view f sid to gc c frag v :
  (∀ x, dec (enc x) = x) →
  view_message v (relayed f (data_message sid to gc (enc c) frag)) = view_step v (frag, c).
Proof.
  intros Hdec. unfold view_message.
  assert (parse (relayed f (data_message sid to gc (enc c) frag)) = Some (frag, c)) as ->; [|done].
  rewrite <- (Hdec c) at 2. by destruct gc, frag.
Qed.

Lemma messages_view f sid to gc cs str k b ds x :
  (∀ x, dec (enc x) = x) → blocks cs str → str ≠ [] →
  (if decide (k = O) then x = [] else b = Some x) →
  foldl view_message (b, ds) (relayed f <$> messages sid to gc (k + length cs) k cs) =
  (None, ds ++ [x ++ str]).
Proof.
  intros Hdec Hb. revert k b x. induction Hb as [|c Hc|c cs str Hc Hne Hb IH]; intros k b x Hstr Hx;
    [done|..]; rewrite messages_cons; cbn [fmap list_fmap foldl]; rewrite relayed_view by done.
  - cbn. unfold label. rewrite Nat.add_1_r. destruct (decide (k = O)) as [->|Hk]; [by subst|].
    destruct (Nat.eqb_spec (S k) 1); [lia|]. destruct (Nat.eqb_spec k 0); [lia|].
    rewrite Nat.eqb_refl. by subst.
  - assert (length cs ≠ O) as Hcs.
    { rewrite length_zero_iff_nil. by rewrite (blocks_empty _ _ Hb). }
    cbn [length]. rewrite <- plus_n_Sm. change (S (k + length cs)) with (S k + length cs)%nat.
    rewrite (assoc_L (++) x c str).
    assert (view_step (b, ds) (label (S k + length cs) k, c) = (Some (x ++ c), ds)) as ->.
    { unfold label. destruct (Nat.eqb_spec (S k + length cs) 1); [lia|].
      destruct (Nat.eqb_spec k 0) as [->|Hk]; [rewrite decide_True in Hx by done; by subst|].
      rewrite decide_False in Hx by done.
      destruct (Nat.eqb_spec (S k) (S k + length cs)); [lia|]. by subst. }
    by apply IH.
Qed.

Definition sent_messages (evs : list muc_event) : list WockyNode :=
  omap (λ e, match e with SendMessage m => Some m | _ => None end) evs.

Lemma sent_messages_app evs ms :
  sent_messages (evs ++ (SendMessage <$> ms)) = sent_messages evs ++ ms.
Proof.
  unfold sent_messages. rewrite omap_app. f_equal. induction ms; [done|]. cbn. by f_equal.
Qed.

Definition send_all (l : list bytes) : MM unit :=
  for_each l (λ d, gabble_bytestream_muc_send enc csend d ;; mret tt).

Lemma send_all_view f l s b ds :
  (∀ x, dec (enc x) = x) → (∀ n, csend n = true) → state s = GABBLE_BYTESTREAM_STATE_OPEN →
  wp (send_all l) (λ _ s', ∃ ms, sent_messages (events s') = sent_messages (events s) ++ ms ∧
    (foldl view_message (b, ds) (relayed f <$> ms)).2 = ds ++ filter (λ d, d ≠ []) l) s.
Proof.
  intros Hdec Hsend. revert s b ds. induction l as [|d l IH]; intros s b ds Hst.
  { exists []. cbn. by rewrite !app_nil_r. }
  unfold send_all. cbn [for_each]. apply wp_bind, wp_bind.
  apply wp_bind, wp_get, wp_bind, wp_get. rewrite bool_decide_eq_false_2 by congruence.
  eapply wp_mono; [|by apply send_loop_spec; [lia..|]].
  intros r s1 (cs & j & Hb & _ & Hev & _ & Hr & Hst1 & _). cbn [drop] in Hb.
  assert (j = length cs) as -> by (destruct r; [done|]; destruct Hr as [_ Hr]; by rewrite Hsend in Hr).
  apply wp_ret. rewrite Nat.add_0_l in Hev. rewrite take_ge in Hev by (rewrite length_messages; lia).
  set (ms := messages _ _ _ _ _ cs) in Hev.
  assert (∃ b', foldl view_message (b, ds) (relayed f <$> ms) = (b', ds ++ filter (λ d, d ≠ []) [d])) as [b' Hv].
  { destruct (decide (d = [])) as [->|Hne].
    - apply blocks_empty in Hb as Hcs. unfold ms. rewrite (proj2 Hcs) by done.
      exists b. cbn. by rewrite app_nil_r.
    - exists None. unfold ms. rewrite (messages_view f _ _ _ cs d 0 b ds []) by done.
      by rewrite filter_cons_True. }
  eapply wp_mono; [|apply (IH s1 b' (ds ++ filter (λ d, d ≠ []) [d])); congruence].
  intros [] s2 (ms2 & Hm2 & Hv2). exists (ms ++ ms2). split.
  - rewrite Hm2, Hev, sent_messages_app. by rewrite (assoc_L (++)).
  - rewrite fmap_app, foldl_app, Hv, Hv2. rewrite <- (assoc_L (++)). f_equal.
    change (d :: l) with ([d] ++ l). by rewrite filter_app.
Qed.

(** C35: whatever the stanzas of other members and the
    members' unfinished messages it is interleaved with, a member's traffic is
    put together by an open receiver to exactly the non-empty messages the
    member sent, in order, each delivered once. *)
Theorem muc_round_trip f l r s s' ms sent :
  (∀ x, dec (enc x) = x) → (∀ n, csend n = true) →
  state s = GABBLE_BYTESTREAM_STATE_OPEN → send_all sent s = Ok (tt, s') →
  sent_messages (events s') = sent_messages (events s) ++ ms →
  state r = GABBLE_BYTESTREAM_STATE_OPEN → lookup f ≠ 0 → Forall has_data l →
  (∀ m g, m ∈ l → from_of m = Some g → lookup g = lookup f → g = f) →
  filter (λ m, from_of m = Some f) l = relayed f <$> ms →
  wp (for_each l (gabble_bytestream_muc_receive dec lookup))
    (λ _ r', deliveries (lookup f) (events r') =
       deliveries (lookup f) (events r) ++ filter (λ d, d ≠ []) sent) r.
Proof.
  intros Hdec Hsend Hs Hrun Hms Hr Hf Hl Hinj Hfl.
  eapply wp_mono; [|by apply (receive_all_view f)]. intros [] r' Hv.
  pose proof (send_all_view f sent s (buffers r !! f) (deliveries (lookup f) (events r))
    Hdec Hsend Hs) as Hw.
  unfold wp in Hw. rewrite Hrun in Hw. destruct Hw as (ms' & Hms' & Hd).
  rewrite Hms in Hms'. apply app_inv_head in Hms' as <-.
  rewrite Hfl in Hv. unfold view_of in Hv. by rewrite <- Hd, <- Hv.
Qed.

End facts.

(** ** Witnesses: the identity stands for base64; two members of a room *)

Definition id_encode : bytes → string := String.string_of_list_ascii.
Definition id_decode : string → bytes := String.list_ascii_of_string.
Definition members (jid : string) : Z :=
  if decide (jid = "room/alice") then 1 else if decide (jid = "room/bob") then 2 else 0.

Definition sample_stream : GabbleBytestreamMuc :=
  new_muc "sid" "room" GABBLE_BYTESTREAM_STATE_OPEN.

Lemma muc_send_fragments_witness :
  wp (gabble_bytestream_muc_send id_encode (λ _, true) (id_decode "hello"))
    (sends_blocks id_encode (λ _, true) "room" true 0 (id_decode "hello") sample_stream)
    sample_stream.
Proof. apply (muc_send_fragments id_encode (λ _, true)). reflexivity. Defined.

(** Alice's two messages around one of Bob's, who had begun another one. *)
Lemma muc_round_trip_witness :
  let msg who text frag := relayed who (data_message "sid" "room" true text frag) in
  let r := with_buffers {["room/bob" := id_decode "unfinished"]} sample_stream in
  wp (for_each [msg "room/alice" "one" FRAG_COMPLETE; msg "room/bob" "x" FRAG_FIRST;
                msg "room/alice" "two" FRAG_COMPLETE]
       (gabble_bytestream_muc_receive id_decode members))
    (λ _ r', deliveries 1 (events r') =
       [] ++ filter (λ d, d ≠ []) [id_decode "one"; []; id_decode "two"]) r.
Proof.
  intros msg r.
  refine (muc_round_trip id_encode id_decode members (λ _, true) "room/alice" _ r sample_stream _
    [data_message "sid" "room" true "one" FRAG_COMPLETE;
     data_message "sid" "room" true "two" FRAG_COMPLETE]
    [id_decode "one"; []; id_decode "two"] _ _ _ _ _ _ _ _ _ _); try done.
  - exact String.list_ascii_of_string_of_list_ascii.
  - repeat constructor; by eexists.
  - intros m g Hin Hg. rewrite !elem_of_cons in Hin.
    destruct Hin as [-> |[-> |[-> |Hin]]]; [..|by apply not_elem_of_nil in Hin];
      vm_compute in Hg; injection Hg as <-; vm_compute; congruence.
Defined.

End BytestreamMuc.
