(* ===== verification/MediaHold.v ===== *)
(** * Call hold and call state (src/media-channel-hold.c)

    The Hold and CallState interfaces of a media channel, with the parts of
    src/media-channel.c that add and remove streams, of src/media-stream.c
    that talk to the streaming client, and the "local-hold" property of
    lib/ext/wocky/wocky/wocky-jingle-session.c, which tells the peer. *)

From S2P Require Import Prelude.

Module MediaHold.

Inductive TpLocalHoldState :=
  | TP_LOCAL_HOLD_STATE_UNHELD
  | TP_LOCAL_HOLD_STATE_HELD
  | TP_LOCAL_HOLD_STATE_PENDING_HOLD
  | TP_LOCAL_HOLD_STATE_PENDING_UNHOLD.

Inductive TpLocalHoldStateReason :=
  | TP_LOCAL_HOLD_STATE_REASON_NONE
  | TP_LOCAL_HOLD_STATE_REASON_REQUESTED
  | TP_LOCAL_HOLD_STATE_REASON_RESOURCE_NOT_AVAILABLE.

#[global] Instance TpLocalHoldState_eq_dec : EqDecision TpLocalHoldState.
Proof. solve_decision. Defined.
#[global] Instance TpLocalHoldStateReason_eq_dec : EqDecision TpLocalHoldStateReason.
Proof. solve_decision. Defined.

Definition TP_CHANNEL_CALL_STATE_RINGING : Z := 1.
Definition TP_CHANNEL_CALL_STATE_HELD : Z := 4.

(** The peer knows about a change only while the session is between
    PENDING_INITIATED and ENDED ([sess_active]). *)
Record WockyJingleSession := mkSession { sess_local_hold : bool; sess_active : bool }.

Inductive hold_event :=
  | HoldStateChanged (st : TpLocalHoldState) (reason : TpLocalHoldStateReason)
  | SetStreamHeld (id : nat) (held : bool)
  | SendHeld (held : bool)                       (* to the peer *)
  | CallStateChanged (peer flags : Z).

(** A stream is its number and its "local-hold". *)
Record GabbleMediaChannel := mkChannel {
  hold_state : TpLocalHoldState;
  hold_state_reason : TpLocalHoldStateReason;
  streams : list (nat * bool);
  next_stream_id : nat;
  session : option WockyJingleSession;
  peer : Z;
  call_state : Z;
  events : list hold_event;
}.

Definition new_channel (p : Z) : GabbleMediaChannel :=
  mkChannel TP_LOCAL_HOLD_STATE_UNHELD TP_LOCAL_HOLD_STATE_REASON_NONE [] 1 None p 0 [].

Definition with_hold st (c : GabbleMediaChannel) :=
  mkChannel st (hold_state_reason c) (streams c) (next_stream_id c) (session c) (peer c)
    (call_state c) (events c).
Definition with_reason r (c : GabbleMediaChannel) :=
  mkChannel (hold_state c) r (streams c) (next_stream_id c) (session c) (peer c)
    (call_state c) (events c).
Definition with_streams l (c : GabbleMediaChannel) :=
  mkChannel (hold_state c) (hold_state_reason c) l (next_stream_id c) (session c) (peer c)
    (call_state c) (events c).
Definition with_next_id n (c : GabbleMediaChannel) :=
  mkChannel (hold_state c) (hold_state_reason c) (streams c) n (session c) (peer c)
    (call_state c) (events c).
Definition with_session s (c : GabbleMediaChannel) :=
  mkChannel (hold_state c) (hold_state_reason c) (streams c) (next_stream_id c) s (peer c)
    (call_state c) (events c).
Definition with_call_state f (c : GabbleMediaChannel) :=
  mkChannel (hold_state c) (hold_state_reason c) (streams c) (next_stream_id c) (session c) (peer c)
    f (events c).
Definition log e (c : GabbleMediaChannel) :=
  mkChannel (hold_state c) (hold_state_reason c) (streams c) (next_stream_id c) (session c) (peer c)
    (call_state c) (events c ++ [e]).

Local Notation MC := (M GabbleMediaChannel).

Definition emit (e : hold_event) : MC unit := modify (log e).

(** ** Operations *)

(** [wocky_jingle_session_set_local_hold] on the channel's session. *)
Definition set_local_hold (held : bool) : MC unit :=
  c ← get;
  match session c with
  | None => mret tt
  | Some s =>
      if bool_decide (sess_local_hold s = held) then mret tt
      else
        modify (with_session (Some (mkSession held (sess_active s)))) ;;
        when (sess_active s) (emit (SendHeld held))
  end.

Definition emit_hold_state_changed : MC unit :=
  c ← get;
  emit (HoldStateChanged (hold_state c) (hold_state_reason c)).

Definition gabble_media_stream_hold (held : bool) (stream : nat * bool) : MC unit :=
  emit (SetStreamHeld stream.1 held).

Definition stream_hold_state_changed : MC unit :=
  c ← get;
  let all_held := forallb snd (streams c) in
  let any_held := existsb snd (streams c) in
  let set st := modify (with_hold st) in
  let set_none st := modify (with_hold st) ;; modify (with_reason TP_LOCAL_HOLD_STATE_REASON_NONE) in
  if all_held && negb any_held then
    match hold_state c with
    | TP_LOCAL_HOLD_STATE_PENDING_HOLD =>
        set TP_LOCAL_HOLD_STATE_HELD ;; emit_hold_state_changed
    | TP_LOCAL_HOLD_STATE_PENDING_UNHOLD =>
        set TP_LOCAL_HOLD_STATE_UNHELD ;; set_local_hold false ;; emit_hold_state_changed
    | _ => mret tt
    end
  else if all_held then
    match hold_state c with
    | TP_LOCAL_HOLD_STATE_HELD => mret tt
    | TP_LOCAL_HOLD_STATE_PENDING_UNHOLD => mret tt
    | TP_LOCAL_HOLD_STATE_PENDING_HOLD =>
        set TP_LOCAL_HOLD_STATE_HELD ;; emit_hold_state_changed
    | TP_LOCAL_HOLD_STATE_UNHELD =>
        set_none TP_LOCAL_HOLD_STATE_HELD ;; emit_hold_state_changed
    end
  else if any_held then
    match hold_state c with
    | TP_LOCAL_HOLD_STATE_UNHELD =>
        set_none TP_LOCAL_HOLD_STATE_PENDING_UNHOLD ;; emit_hold_state_changed
    | TP_LOCAL_HOLD_STATE_HELD =>
        set_none TP_LOCAL_HOLD_STATE_PENDING_HOLD ;; emit_hold_state_changed
    | _ => mret tt
    end
  else
    match hold_state c with
    | TP_LOCAL_HOLD_STATE_UNHELD => mret tt
    | TP_LOCAL_HOLD_STATE_PENDING_HOLD => mret tt
    | TP_LOCAL_HOLD_STATE_PENDING_UNHOLD =>
        set TP_LOCAL_HOLD_STATE_UNHELD ;; set_local_hold false ;; emit_hold_state_changed
    | TP_LOCAL_HOLD_STATE_HELD =>
        set_none TP_LOCAL_HOLD_STATE_UNHELD ;; set_local_hold false ;; emit_hold_state_changed
    end.

Definition stream_unhold_failed : MC unit :=
  modify (with_hold TP_LOCAL_HOLD_STATE_PENDING_HOLD) ;;
  modify (with_reason TP_LOCAL_HOLD_STATE_REASON_RESOURCE_NOT_AVAILABLE) ;;
  emit_hold_state_changed ;;
  stream_hold_state_changed ;;
  c ← get;
  if bool_decide (hold_state c = TP_LOCAL_HOLD_STATE_HELD) then mret tt
  else for_each (streams c) (gabble_media_stream_hold true).

Definition gabble_media_channel_hold_stream_closed : MC unit := stream_hold_state_changed.

Definition gabble_media_channel_hold_new_stream : MC unit := stream_hold_state_changed.

Definition gabble_media_channel_request_hold (hold : bool) : MC unit :=
  c ← get;
  let old_state := hold_state c in
  let go :=
    c ← get;
    when (bool_decide (old_state ≠ hold_state c) ||
          bool_decide (hold_state_reason c ≠ TP_LOCAL_HOLD_STATE_REASON_REQUESTED))
      (emit (HoldStateChanged (hold_state c) TP_LOCAL_HOLD_STATE_REASON_REQUESTED) ;;
       modify (with_reason TP_LOCAL_HOLD_STATE_REASON_REQUESTED)) ;;
    match streams c with
    | [] => stream_hold_state_changed
    | l => for_each l (gabble_media_stream_hold hold)
    end in
  if hold then
    if bool_decide (old_state = TP_LOCAL_HOLD_STATE_HELD) then mret tt
    else
      when (bool_decide (old_state = TP_LOCAL_HOLD_STATE_UNHELD)) (set_local_hold true) ;;
      modify (with_hold TP_LOCAL_HOLD_STATE_PENDING_HOLD) ;;
      go
  else
    if bool_decide (old_state = TP_LOCAL_HOLD_STATE_UNHELD) then mret tt
    else
      modify (with_hold TP_LOCAL_HOLD_STATE_PENDING_UNHOLD) ;;
      go.

Definition gabble_media_channel_get_hold_state (c : GabbleMediaChannel) :
    TpLocalHoldState * TpLocalHoldStateReason :=
  (hold_state c, hold_state_reason c).

(** The streaming client's answers to SetStreamHeld; a stream that has been
    removed is no longer connected. *)
Definition set_stream (id : nat) (held : bool) (l : list (nat * bool)) : list (nat * bool) :=
  (λ s, if (s.1 =? id)%nat then (s.1, held) else s) <$> l.

Definition has_stream (id : nat) (l : list (nat * bool)) : bool :=
  existsb (λ s, (s.1 =? id)%nat) l.

Definition gabble_media_stream_hold_state (id : nat) (held : bool) : MC unit :=
  c ← get;
  when (has_stream id (streams c))
    (modify (with_streams (set_stream id held (streams c))) ;;
     stream_hold_state_changed).

Definition gabble_media_stream_unhold_failure (id : nat) : MC unit :=
  c ← get;
  when (has_stream id (streams c))
    (modify (with_streams (set_stream id true (streams c))) ;;
     stream_unhold_failed ;;
     stream_hold_state_changed).

(** What [construct_stream] and [stream_close_cb] of media-channel.c do to
    the streams. *)
Definition construct_stream : MC unit :=
  c ← get;
  let local_hold :=
    bool_decide (hold_state c = TP_LOCAL_HOLD_STATE_HELD) ||
    bool_decide (hold_state c = TP_LOCAL_HOLD_STATE_PENDING_HOLD) in
  modify (with_next_id (S (next_stream_id c))) ;;
  modify (with_streams (streams c ++ [(next_stream_id c, local_hold)])) ;;
  gabble_media_channel_hold_new_stream.

Definition stream_close_cb (id : nat) : MC unit :=
  c ← get;
  modify (with_streams (List.filter (λ s, negb (s.1 =? id)%nat) (streams c))) ;;
  gabble_media_channel_hold_stream_closed.

(** An outgoing session. *)
Definition create_session : MC unit :=
  c ← get;
  g_assert (bool_decide (session c = None)) ;;
  modify (with_session (Some (mkSession
    (negb (bool_decide (hold_state c = TP_LOCAL_HOLD_STATE_UNHELD))) false))).

(** The session leaves the pending states: the peer is told when on hold. *)
Definition session_state_raised : MC unit :=
  c ← get;
  match session c with
  | None => mret tt
  | Some s =>
      modify (with_session (Some (mkSession (sess_local_hold s) true))) ;;
      when (sess_local_hold s) (emit (SendHeld true))
  end.

(** ** Call state *)

Definition remote_state_changed_cb (remote_hold remote_ringing : bool) : MC unit :=
  c ← get;
  let f := if remote_hold then Z.lor 0 TP_CHANNEL_CALL_STATE_HELD else 0 in
  let f := if remote_ringing then Z.lor f TP_CHANNEL_CALL_STATE_RINGING else f in
  if f =? call_state c then mret tt
  else modify (with_call_state f) ;; emit (CallStateChanged (peer c) f).

Definition gabble_media_channel_get_call_states (c : GabbleMediaChannel) : gmap Z Z :=
  if peer c =? 0 then ∅ else {[peer c := call_state c]}.

(** ** The channel in its environment *)

Inductive input :=
  | RequestHold (hold : bool)               (* the user *)
  | HoldState (id : nat) (held : bool)      (* the streaming client *)
  | UnholdFailure (id : nat)
  | NewStream
  | StreamClosed (id : nat)
  | CreateSession
  | SessionStateRaised
  | RemoteState (remote_hold remote_ringing : bool).

Definition handle (i : input) : MC unit :=
  match i with
  | RequestHold hold => gabble_media_channel_request_hold hold
  | HoldState id held => gabble_media_stream_hold_state id held
  | UnholdFailure id => gabble_media_stream_unhold_failure id
  | NewStream => construct_stream
  | StreamClosed id => stream_close_cb id
  | CreateSession => create_session
  | SessionStateRaised => session_state_raised
  | RemoteState h r => remote_state_changed_cb h r
  end.

Definition enabled (c : GabbleMediaChannel) (i : input) : Prop :=
  match i with
  | CreateSession => session c = None
  | _ => True
  end.

Inductive step (c : GabbleMediaChannel) : GabbleMediaChannel → Prop :=
  | step_input i c' : enabled c i → handle i c = Ok (tt, c') → step c c'.

Definition reachable (p : Z) (c : GabbleMediaChannel) : Prop := rtc step (new_channel p) c.

(** What a client that follows the signals believes. *)
Definition hold_signal (evs : list hold_event) : TpLocalHoldState * TpLocalHoldStateReason :=
  foldl (λ acc e, match e with HoldStateChanged st r => (st, r) | _ => acc end)
    (TP_LOCAL_HOLD_STATE_UNHELD, TP_LOCAL_HOLD_STATE_REASON_NONE) evs.

Definition call_signal (evs : list hold_event) : Z :=
  foldl (λ acc e, match e with CallStateChanged _ f => f | _ => acc end) 0 evs.

(** The peer has not been told, and will not be told, that it is on hold. *)
Definition peer_unheld (c : GabbleMediaChannel) : Prop :=
  match session c with
  | Some s => sess_local_hold s = false
  | None => True
  end.

(** What holds before the streams are polled, and after. *)
Record signalled (c : GabbleMediaChannel) : Prop := {
  sig_hold : hold_signal (events c) = (hold_state c, hold_state_reason c);
  sig_call : call_signal (events c) = call_state c;
  sig_peer : hold_state c = TP_LOCAL_HOLD_STATE_UNHELD → peer_unheld c;
}.

Record inv (c : GabbleMediaChannel) : Prop := {
  inv_sig : signalled c;
  inv_held : hold_state c = TP_LOCAL_HOLD_STATE_HELD → forallb snd (streams c) = true;
  inv_unheld : hold_state c = TP_LOCAL_HOLD_STATE_UNHELD → existsb snd (streams c) = false;
}.

Lemma hold_signal_snoc evs e :
  hold_signal (evs ++ [e]) =
  match e with HoldStateChanged st r => (st, r) | _ => hold_signal evs end.
Proof. unfold hold_signal. by rewrite foldl_app. Qed.

Lemma call_signal_snoc evs e :
  call_signal (evs ++ [e]) = match e with CallStateChanged _ f => f | _ => call_signal evs end.
Proof. unfold call_signal. by rewrite foldl_app. Qed.

(** Where a poll of the streams takes a channel. *)
Definition poll (st : TpLocalHoldState) (l : list (nat * bool)) : TpLocalHoldState :=
  let all_held := forallb snd l in
  let any_held := existsb snd l in
  match st with
  | TP_LOCAL_HOLD_STATE_PENDING_HOLD =>
      if all_held then TP_LOCAL_HOLD_STATE_HELD else st
  | TP_LOCAL_HOLD_STATE_PENDING_UNHOLD =>
      if any_held then st else TP_LOCAL_HOLD_STATE_UNHELD
  | TP_LOCAL_HOLD_STATE_HELD =>
      if all_held then st
      else if any_held then TP_LOCAL_HOLD_STATE_PENDING_HOLD else TP_LOCAL_HOLD_STATE_UNHELD
  | TP_LOCAL_HOLD_STATE_UNHELD =>
      if negb any_held then st
      else if all_held then TP_LOCAL_HOLD_STATE_HELD else TP_LOCAL_HOLD_STATE_PENDING_UNHOLD
  end.

Ltac solve_signalled :=
  split; cbn -[hold_signal call_signal];
  rewrite ?hold_signal_snoc, ?call_signal_snoc; cbn -[hold_signal call_signal];
  unfold peer_unheld in *; cbn in *; try done; auto.

Lemma poll_spec c :
  signalled c →
  wp stream_hold_state_changed
    (λ _ c', inv c' ∧ streams c' = streams c ∧ hold_state c' = poll (hold_state c) (streams c)) c.
Proof.
  intros [Hh Hc Hp].
  unfold wp, stream_hold_state_changed, emit_hold_state_changed, set_local_hold, poll.
  unfold mbind, M_bind, get, emit, modify, mret, M_ret, when.
  destruct (forallb snd (streams c)) eqn:Hall, (existsb snd (streams c)) eqn:Hany;
    destruct (hold_state c) eqn:Hst; cbn -[hold_signal call_signal];
    try (destruct (session c) as [[[] []]|] eqn:Hses; cbn -[hold_signal call_signal]).
  all: split_and!; try done; try (by rewrite Hst).
  all: split; cbn -[hold_signal call_signal]; rewrite ?Hst; try done.
  all: split; cbn -[hold_signal call_signal]; unfold peer_unheld in *;
    rewrite ?hold_signal_snoc, ?call_signal_snoc, ?Hst, ?Hses; cbn -[hold_signal call_signal];
    rewrite ?Hses; try done; try (intros _; specialize (Hp eq_refl)); try done;
    by rewrite Hses in Hp.
Qed.

(** Telling the peer. *)
Lemma set_local_hold_spec b c :
  hold_signal (events c) = (hold_state c, hold_state_reason c) →
  call_signal (events c) = call_state c →
  wp (set_local_hold b)
    (λ _ c', hold_signal (events c') = (hold_state c', hold_state_reason c') ∧
       call_signal (events c') = call_state c' ∧
       hold_state c' = hold_state c ∧ hold_state_reason c' = hold_state_reason c ∧
       streams c' = streams c) c.
Proof.
  intros Hh Hc. apply wp_bind, wp_get. destruct (session c) as [s|]; [|done].
  case_bool_decide; [done|]. apply wp_bind, wp_modify, wp_when; intros _; [|done].
  apply wp_modify. cbn -[hold_signal call_signal]. by rewrite hold_signal_snoc, call_signal_snoc.
Qed.

Lemma tell_streams_spec b l c :
  inv c → wp (for_each l (gabble_media_stream_hold b))
    (λ _ c', inv c' ∧ streams c' = streams c ∧ hold_state c' = hold_state c) c.
Proof.
  revert c. induction l as [|s l IH]; intros c Hinv; [done|].
  cbn [for_each]. apply wp_bind, wp_modify. eapply wp_mono; [|apply IH].
  - intros [] c' (? & ? & ?). by split_and!.
  - destruct Hinv as [[Hh Hc Hp] H1 H2]. split; [|done..]. solve_signalled.
Qed.

Definition pending (hold : bool) : TpLocalHoldState :=
  if hold then TP_LOCAL_HOLD_STATE_PENDING_HOLD else TP_LOCAL_HOLD_STATE_PENDING_UNHOLD.
Definition settled (hold : bool) : TpLocalHoldState :=
  if hold then TP_LOCAL_HOLD_STATE_HELD else TP_LOCAL_HOLD_STATE_UNHELD.

(** A request: nothing to do, settled at once, or every stream is asked. *)
Lemma request_hold_spec hold c :
  inv c →
  wp (gabble_media_channel_request_hold hold)
    (λ _ c', inv c' ∧ streams c' = streams c ∧
       (hold_state c' = settled hold ∧ (hold_state c = settled hold ∨ streams c = []) ∨
        hold_state c' = pending hold ∧ streams c ≠ [])) c.
Proof.
  intros Hinv. pose proof Hinv as [[Hh Hc Hp] H1 H2].
  unfold gabble_media_channel_request_hold. apply wp_bind, wp_get.
  set (go := (c0 ← get; _) : MC unit).
  assert (∀ c1, hold_signal (events c1) = (hold_state c, hold_state_reason c1) →
    call_signal (events c1) = call_state c1 → hold_state c1 = pending hold →
    streams c1 = streams c →
    wp go (λ _ c', inv c' ∧ streams c' = streams c ∧
       (hold_state c' = settled hold ∧ (hold_state c = settled hold ∨ streams c = []) ∨
        hold_state c' = pending hold ∧ streams c ≠ [])) c1) as Hgo.
  { intros c1 Hh1 Hc1 Hst1 Hl1. unfold go. apply wp_bind, wp_get, wp_bind.
    eapply (wp_mono _ (λ _ c2, inv c2 ∧ hold_state c2 = pending hold ∧ streams c2 = streams c)).
    2: { apply wp_when; intros Hdiff.
      - apply wp_bind, wp_modify, wp_modify. cbn -[hold_signal call_signal].
        split_and!; [|done..]. split; cbn; rewrite ?Hst1; [|by destruct hold..].
        split; cbn -[hold_signal call_signal];
          rewrite ?hold_signal_snoc, ?call_signal_snoc, ?Hst1; [done..|by destruct hold].
      - apply orb_false_iff in Hdiff as [Hd1%bool_decide_eq_false Hd2%bool_decide_eq_false].
        assert (hold_state c = hold_state c1) as Heq by (destruct (decide (hold_state c = hold_state c1)); tauto).
        split_and!; [|done..]. split; rewrite ?Hst1; [|by destruct hold..].
        split; [by rewrite Hh1, Heq|done|rewrite Hst1; by destruct hold]. }
    intros [] c2 (Hi2 & Hst2 & Hl2). rewrite Hl1. destruct (streams c) as [|x l] eqn:Hl.
    - eapply wp_mono; [|apply poll_spec, Hi2]. intros [] c3 (Hi3 & Hl3 & Hst3).
      split_and!; [done|congruence|]. left. rewrite Hst3, Hst2, Hl2. split; [by destruct hold|by right].
    - eapply wp_mono; [|by apply tell_streams_spec]. intros [] c3 (Hi3 & Hl3 & Hst3).
      split_and!; [done|congruence|]. right. split; [congruence|done]. }
  clearbody go. destruct hold; cbn [settled pending] in *.
  - case_bool_decide as Hheld; [apply wp_ret; split_and!; auto|].
    apply wp_bind. eapply (wp_mono _ (λ _ c1, hold_signal (events c1) = (hold_state c1, hold_state_reason c1) ∧
       call_signal (events c1) = call_state c1 ∧
       hold_state c1 = hold_state c ∧ hold_state_reason c1 = hold_state_reason c ∧
       streams c1 = streams c)).
    2: { apply wp_when; intros _; [by apply set_local_hold_spec|done]. }
    intros [] c1 (Hh1 & Hc1 & Hst1 & Hr1 & Hl1). apply wp_bind, wp_modify, Hgo; try done.
    cbn -[hold_signal]. by rewrite Hh1, Hst1.
  - case_bool_decide as Hheld; [apply wp_ret; split_and!; auto|].
    by apply wp_bind, wp_modify, Hgo.
Qed.

(** *** Every handler keeps the invariant *)

Lemma inv_with_streams c l : inv c → signalled (with_streams l c).
Proof. by intros [[] _ _]. Qed.

Lemma unhold_failed_spec c : signalled c → wp stream_unhold_failed (λ _ c', inv c') c.
Proof.
  intros [Hh Hc Hp]. apply wp_bind, wp_modify, wp_bind, wp_modify, wp_bind, wp_bind, wp_get, wp_modify, wp_bind.
  eapply wp_mono; [|apply poll_spec; solve_signalled]. intros [] c2 (Hi & _ & _).
  apply wp_bind, wp_get. case_bool_decide; [done|].
  eapply wp_mono; [|by apply tell_streams_spec]. by intros [] c3 (? & _).
Qed.

Lemma hold_handle_inv i c : inv c → enabled c i → wp (handle i) (λ _ c', inv c') c.
Proof.
  intros Hinv He. pose proof Hinv as [[Hh Hc Hp] H1 H2].
  assert (∀ l, wp stream_hold_state_changed (λ _ c', inv c') (with_streams l c)) as Hpoll.
  { intros l. eapply wp_mono; [|apply poll_spec, inv_with_streams, Hinv]. by intros [] c' (? & _). }
  destruct i as [hold|id held|id| |id| | |h r]; cbn [handle].
  - eapply wp_mono; [|by apply request_hold_spec]. by intros [] c' (? & _).
  - apply wp_bind, wp_get, wp_when; intros _; [|done]. by apply wp_bind, wp_modify.
  - apply wp_bind, wp_get, wp_when; intros _; [|done]. apply wp_bind, wp_modify, wp_bind.
    eapply wp_mono; [|by apply unhold_failed_spec, inv_with_streams].
    intros [] c1 Hi1. eapply wp_mono; [|apply poll_spec, Hi1]. by intros [] c' (? & _).
  - apply wp_bind, wp_get, wp_bind, wp_modify, wp_bind, wp_modify.
    eapply wp_mono; [|apply poll_spec; solve_signalled]. by intros [] c' (? & _).
  - by apply wp_bind, wp_get, wp_bind, wp_modify.
  - apply wp_bind, wp_get, wp_bind, wp_assert; [by apply bool_decide_eq_true_2|].
    apply wp_modify. split; [|done..]. split; cbn; [done..|]. intros ->. cbn. done.
  - apply wp_bind, wp_get. destruct (session c) as [s|] eqn:Hs; [|done].
    apply wp_bind, wp_modify, wp_when; intros Hl; try apply wp_modify.
    all: split; [|done..]; split; cbn -[hold_signal call_signal];
      rewrite ?hold_signal_snoc, ?call_signal_snoc; try done;
      intros Hu; specialize (Hp Hu); unfold peer_unheld in *; cbn; by rewrite Hs in Hp.
  - apply wp_bind, wp_get. cbv zeta. wp_step; [done|]. apply wp_bind, wp_modify, wp_modify.
    split; [|done..]. solve_signalled.
Qed.

Lemma hold_reachable_inv p c : reachable p c → inv c.
Proof.
  apply rtc_invariant; [|by split].
  intros a b Ha [i c' He Hh]. pose proof (hold_handle_inv i a Ha He) as Hw.
  unfold wp in Hw. by rewrite Hh in Hw.
Qed.

(** A channel that says it is held has every stream
    held; one that says it is not held has none held and has not told the
    peer otherwise; and whoever follows the signals knows the hold state, its
    reason and the call state exactly. *)
Theorem hold_state_truthful p c :
  reachable p c →
  (hold_state c = TP_LOCAL_HOLD_STATE_HELD → Forall (λ s, s.2 = true) (streams c)) ∧
  (hold_state c = TP_LOCAL_HOLD_STATE_UNHELD →
     Forall (λ s, s.2 = false) (streams c) ∧ peer_unheld c) ∧
  hold_signal (events c) = gabble_media_channel_get_hold_state c ∧
  call_signal (events c) = call_state c.
Proof.
  intros [[Hh Hc Hp] H1 H2]%hold_reachable_inv. split_and!; [| |done|done].
  - intros Hst. apply Forall_forall. intros s Hs. specialize (H1 Hst).
    rewrite forallb_forall in H1. by apply H1, list_elem_of_In.
  - intros Hst. split; [|by apply Hp]. apply Forall_forall. intros s Hs. specialize (H2 Hst).
    apply not_true_is_false. intros Ht. apply not_true_iff_false in H2. apply H2.
    apply existsb_exists. exists s. by rewrite <- list_elem_of_In.
Qed.

(** *** Requests are carried out *)

Definition all_are (hold : bool) (l : list (nat * bool)) : Prop := ∀ s, s ∈ l → s.2 = hold.

Lemma poll_agree hold st l :
  st = pending hold ∨ st = settled hold ∧ all_are hold l →
  (poll st l = pending hold ∨ poll st l = settled hold) ∧
  (all_are hold l → poll st l = settled hold) ∧ (poll st l = settled hold → all_are hold l).
Proof.
  intros Hst.
  assert (if hold then forallb snd l = true ↔ all_are true l
          else existsb snd l = false ↔ all_are false l) as Hall.
  { destruct hold.
    - rewrite forallb_forall. unfold all_are. by setoid_rewrite list_elem_of_In.
    - rewrite <- not_true_iff_false, existsb_exists. unfold all_are.
      setoid_rewrite <- list_elem_of_In. split.
      + intros H s Hs. destruct (s.2) eqn:E; [|done]. exfalso. eauto.
      + intros H (s & Hs & Ht). by rewrite (H s Hs) in Ht. }
  destruct hold; cbn in *; destruct Hst as [-> |[-> Hl]]; cbn;
    destruct (forallb snd l) eqn:E1, (existsb snd l) eqn:E2; cbn; intuition congruence.
Qed.

Lemma all_are_set hold id l : all_are hold l → all_are hold (set_stream id hold l).
Proof.
  unfold all_are, set_stream. intros H s (s' & -> & Hs')%list_elem_of_fmap. case_match; naive_solver.
Qed.

Lemma has_stream_true id l : has_stream id l = true ↔ ∃ s, s ∈ l ∧ s.1 = id.
Proof.
  unfold has_stream. rewrite existsb_exists. setoid_rewrite <- list_elem_of_In.
  by setoid_rewrite Nat.eqb_eq.
Qed.

Lemma set_stream_absent id hold l : has_stream id l = false → set_stream id hold l = l.
Proof.
  unfold set_stream. induction l as [|s l IH]; [done|]. cbn. intros [Hs Hl]%orb_false_iff.
  by rewrite Hs, IH.
Qed.

(** On its way: pending, or arrived. *)
Definition agree (hold : bool) (c : GabbleMediaChannel) : Prop :=
  inv c ∧ (hold_state c = pending hold ∨
           hold_state c = settled hold ∧ all_are hold (streams c)).

Lemma report_spec hold id c :
  agree hold c →
  wp (gabble_media_stream_hold_state id hold)
    (λ _ c', agree hold c' ∧ streams c' = set_stream id hold (streams c) ∧
       (has_stream id (streams c) = true → all_are hold (streams c') →
        hold_state c' = settled hold) ∧
       (has_stream id (streams c) = false → hold_state c' = hold_state c)) c.
Proof.
  intros [Hinv Hst]. apply wp_bind, wp_get, wp_when; intros Hs.
  - apply wp_bind, wp_modify. eapply wp_mono; [|by apply poll_spec, inv_with_streams].
    intros [] c' (Hi & Hl & Hst'). cbn in Hl, Hst'.
    destruct (poll_agree hold (hold_state c) (set_stream id hold (streams c))) as (H1 & H2 & H3).
    { destruct Hst as [?|[? ?]]; [by left|right]. split; [done|by apply all_are_set]. }
    rewrite <- Hst' in *. rewrite <- Hl in H2, H3. split_and!; [|done|auto|congruence].
    split; [done|]. destruct H1; auto.
  - rewrite set_stream_absent by done.
    split_and!; [done|done|congruence|done].
Qed.

Lemma reports_spec hold ids c :
  agree hold c → (∀ s, s ∈ streams c → s.2 = hold ∨ s.1 ∈ ids) →
  hold_state c = settled hold ∨ (∃ s, s ∈ streams c ∧ s.1 ∈ ids) →
  wp (for_each ids (λ id, gabble_media_stream_hold_state id hold))
    (λ _ c', hold_state c' = settled hold ∧ all_are hold (streams c')) c.
Proof.
  revert c. induction ids as [|id ids IH]; intros c Ha Hcov Hsome.
  { cbn. destruct Hsome as [Hs|(s & _ & []%not_elem_of_nil)]. split; [done|].
    intros s Hin. by destruct (Hcov s Hin) as [?|[]%not_elem_of_nil]. }
  cbn [for_each]. apply wp_bind. eapply wp_mono; [|by apply report_spec].
  intros [] c' (Ha' & Hl & Hset & Hsame). apply IH; [done|..].
  - rewrite Hl. intros s (s' & -> & Hs')%list_elem_of_fmap.
    destruct (Nat.eqb_spec s'.1 id); [by left|].
    destruct (Hcov s' Hs') as [?|[?|?]%elem_of_cons]; auto. done.
  - destruct (has_stream id (streams c)) eqn:Hhas.
    + destruct (decide (Forall (λ s, s.2 = hold) (streams c'))) as [Hall|Hnot].
      * left. apply Hset; [done|]. rewrite Forall_forall in Hall. exact Hall.
      * right. apply not_Forall_Exists, Exists_exists in Hnot as (s & Hs & Hne); [|apply _].
        exists s. split; [done|]. rewrite Hl in Hs.
        apply list_elem_of_fmap in Hs as (s' & -> & Hs').
        destruct (Nat.eqb_spec s'.1 id); [by destruct Hne|].
        by destruct (Hcov s' Hs') as [?|[?|?]%elem_of_cons]; [destruct Hne|..].
    + rewrite Hsame by done. rewrite Hl, set_stream_absent by done.
      destruct Hsome as [?|(s & Hs & [Hid|Hin]%elem_of_cons)]; [by left| |right; eauto].
      exfalso. apply not_true_iff_false in Hhas. apply Hhas, has_stream_true. eauto.
Qed.

(** In any state the channel can be in, a hold or
    unhold request is carried out once every stream has reported it, in any
    order and with any repetitions: the channel then is in the state asked
    for, and so is every stream. *)
Theorem request_hold_completes p c hold ids :
  reachable p c → (∀ s, s ∈ streams c → s.1 ∈ ids) →
  wp (gabble_media_channel_request_hold hold ;;
      for_each ids (λ id, gabble_media_stream_hold_state id hold))
    (λ _ c', hold_state c' = settled hold ∧ Forall (λ s, s.2 = hold) (streams c')) c.
Proof.
  intros Hinv%hold_reachable_inv Hcov. apply wp_bind.
  eapply wp_mono; [|by apply request_hold_spec]. intros [] c1 (Hi1 & Hl1 & Hst1).
  eapply (wp_mono _ (λ _ c', hold_state c' = settled hold ∧ all_are hold (streams c'))).
  { intros [] c' [? Hall]. split; [done|]. by apply Forall_forall. }
  assert (hold_state c1 = settled hold → all_are hold (streams c1)) as Hset.
  { intros Hs. destruct (poll_agree hold (pending hold) (streams c1)) as (_ & _ & H3); [by left|].
    apply H3. destruct Hi1 as [_ H1 H2].
    destruct hold; cbn in *; [by rewrite H1|by rewrite H2]. }
  apply reports_spec.
  - split; [done|]. destruct Hst1 as [[? _]|[? _]]; auto.
  - rewrite Hl1. eauto.
  - destruct Hst1 as [[? _]|[_ Hne]]; [by left|right].
    rewrite Hl1. destruct (streams c) as [|s l] eqn:E; [done|].
    exists s. split; [by left|]. apply Hcov. by left.
Qed.

(** What the peer has been told. *)
Definition told (evs : list hold_event) : list bool :=
  omap (λ e, match e with SendHeld b => Some b | _ => None end) evs.

(** When a stream goes on hold by itself and the
    user then asks for hold, the call ends up held without the peer ever
    being told. *)
Theorem hold_not_told_to_peer p :
  wp (for_each [NewStream; NewStream; CreateSession; SessionStateRaised;
                HoldState 1 true; RequestHold true; HoldState 2 true] handle)
    (λ _ c, hold_state c = TP_LOCAL_HOLD_STATE_HELD ∧
       hold_state_reason c = TP_LOCAL_HOLD_STATE_REASON_REQUESTED ∧
       session c = Some (mkSession false true) ∧
       told (events c) = []) (new_channel p).
Proof. vm_compute. repeat split. Qed.

(** ** Witnesses *)

Lemma hold_run_reachable p l c' :
  for_each l handle (new_channel p) = Ok (tt, c') → CreateSession ∉ l → reachable p c'.
Proof.
  unfold reachable. generalize (new_channel p). induction l as [|i l IH]; intros c Hrun Hn.
  { injection Hrun as <-. constructor. }
  apply bind_Ok in Hrun as ([] & c1 & H1 & H2). apply not_elem_of_cons in Hn as [Hi Hn].
  eapply rtc_l; [|by apply IH]. eapply step_input; [|done]. by destruct i.
Qed.

Definition two_streams : list input := [NewStream; NewStream; HoldState 2 true].

Lemma two_streams_fine : CreateSession ∉ two_streams.
Proof. unfold two_streams. rewrite !not_elem_of_cons. split_and!; [done..|]. apply not_elem_of_nil. Qed.

Lemma hold_state_truthful_witness :
  match for_each two_streams handle (new_channel 1) with
  | Ok (_, c) => hold_signal (events c) = gabble_media_channel_get_hold_state c ∧
                 hold_state c = TP_LOCAL_HOLD_STATE_PENDING_UNHOLD
  | Abort _ => False
  end.
Proof.
  destruct (for_each two_streams handle (new_channel 1)) as [[[] c]|] eqn:E; [|done].
  split; [|by vm_compute in E; injection E as <-].
  apply (hold_state_truthful 1), (hold_run_reachable 1 two_streams); [done|].
  exact two_streams_fine.
Defined.

Lemma request_hold_completes_witness :
  wp (gabble_media_channel_request_hold true ;;
      for_each [1%nat; 2%nat] (λ id, gabble_media_stream_hold_state id true))
    (λ _ c', hold_state c' = TP_LOCAL_HOLD_STATE_HELD ∧ Forall (λ s, s.2 = true) (streams c'))
    (match for_each two_streams handle (new_channel 1) with
     | Ok (_, c) => c
     | Abort _ => new_channel 1
     end).
Proof.
  destruct (for_each two_streams handle (new_channel 1)) as [[[] c]|] eqn:E; [|done].
  apply (request_hold_completes 1 c true [1%nat; 2%nat]).
  - apply (hold_run_reachable 1 two_streams); [done|].
    exact two_streams_fine.
  - vm_compute in E. injection E as <-. intros s Hs. cbn in Hs.
    rewrite !elem_of_cons in Hs. destruct Hs as [->|[->|[]%not_elem_of_nil]]; set_solver.
Defined.

End MediaHold.
