(* ===== verification/BytestreamMultiple.v ===== *)
(** * Bytestreams with fallback methods (src/bytestream-multiple.c)

    A multi-method bytestream owns an ordered list of stream methods and
    runs one bytestream at a time, the active one; when that one signals a
    connection error the next method takes over.  The development is generic
    in the type of the active streams, which enters only through
    [BytestreamObject]; at the end it is instantiated with in-band and SOCKS5
    streams.

    Signals of the active stream are delivered when the call that emitted
    them returns: the handlers never call back into the emitting stream, so
    the moment does not matter.  The active stream is referenced by the
    factory only, which drops it when it becomes closed: from then on
    [active] dangles ([freed]). *)

From S2P Require Import Prelude Node Namespaces BytestreamIface BytestreamIBB BytestreamSocks5.

Module BytestreamMultiple.

(** ** The reply that accepts several methods *)

Definition gabble_bytestream_factory_make_multi_accept_iq
    (full_jid stream_init_id : string) (stream_methods : list string) : WockyNode :=
  let multi_node := mkNode "si-multiple" None (Some NS_SI_MULTIPLE) [] [] in
  let multi_node := foldl (λ n m, wocky_node_add_child_with_content n "value" (Some m))
    multi_node stream_methods in
  mkNode "iq" None (Some "jabber:client")
    [mkAttribute "type" "result" None; mkAttribute "to" full_jid None;
     mkAttribute "id" stream_init_id None]
    [mkNode "si" None (Some NS_SI) [] [multi_node]].

(** ** The object *)

Inductive multiple_event :=
  | SendAccept (iq : WockyNode)
  | Forwarded (sig : bytestream_signal)
  | StateChanged (st : GabbleBytestreamState).

Section multiple.
Context {S : Type} `{BytestreamObject S}.

Record GabbleBytestreamMultiple := mkMulti {
  stream_id : string;
  stream_init_id : string;
  state : GabbleBytestreamState;
  peer_jid : string;
  fallback_stream_methods : list string;
  active_bytestream : option S;
  freed : bool;
  read_blocked : bool;
  dispose_has_run : bool;
  tried : list string;              (* the methods activated so far *)
  events : list multiple_event;
}.

Local Notation MM := (M GabbleBytestreamMultiple).

Definition new_multiple (sid init_id jid : string) (resource : option string)
    (st : GabbleBytestreamState) : GabbleBytestreamMultiple :=
  let peer := match resource with
              | Some r => jid +:+ "/" +:+ r
              | None => jid
              end in
  mkMulti sid init_id st peer [] None false false false [] [].

Definition with_state x (s : GabbleBytestreamMultiple) :=
  mkMulti (stream_id s) (stream_init_id s) x (peer_jid s) (fallback_stream_methods s)
    (active_bytestream s) (freed s) (read_blocked s) (dispose_has_run s) (tried s) (events s).
Definition with_fallback x (s : GabbleBytestreamMultiple) :=
  mkMulti (stream_id s) (stream_init_id s) (state s) (peer_jid s) x
    (active_bytestream s) (freed s) (read_blocked s) (dispose_has_run s) (tried s) (events s).
Definition with_active x (s : GabbleBytestreamMultiple) :=
  mkMulti (stream_id s) (stream_init_id s) (state s) (peer_jid s) (fallback_stream_methods s)
    x (freed s) (read_blocked s) (dispose_has_run s) (tried s) (events s).
Definition with_freed x (s : GabbleBytestreamMultiple) :=
  mkMulti (stream_id s) (stream_init_id s) (state s) (peer_jid s) (fallback_stream_methods s)
    (active_bytestream s) x (read_blocked s) (dispose_has_run s) (tried s) (events s).
Definition with_read_blocked x (s : GabbleBytestreamMultiple) :=
  mkMulti (stream_id s) (stream_init_id s) (state s) (peer_jid s) (fallback_stream_methods s)
    (active_bytestream s) (freed s) x (dispose_has_run s) (tried s) (events s).
Definition with_disposed (s : GabbleBytestreamMultiple) :=
  mkMulti (stream_id s) (stream_init_id s) (state s) (peer_jid s) (fallback_stream_methods s)
    (active_bytestream s) (freed s) (read_blocked s) true (tried s) (events s).
Definition with_tried x (s : GabbleBytestreamMultiple) :=
  mkMulti (stream_id s) (stream_init_id s) (state s) (peer_jid s) (fallback_stream_methods s)
    (active_bytestream s) (freed s) (read_blocked s) (dispose_has_run s) x (events s).
Definition log e (s : GabbleBytestreamMultiple) :=
  mkMulti (stream_id s) (stream_init_id s) (state s) (peer_jid s) (fallback_stream_methods s)
    (active_bytestream s) (freed s) (read_blocked s) (dispose_has_run s) (tried s)
    (events s ++ [e]).

Definition emit (e : multiple_event) : MM unit := modify (log e).

(** The "state" property. *)
Definition set_state (st : GabbleBytestreamState) : MM unit :=
  s ← get;
  when (bool_decide (state s ≠ st)) (modify (with_state st) ;; emit (StateChanged st)).

(** [gabble_bytestream_factory_create_from_method], and the result of
    [_gabble_connection_send] while the input at hand is processed. *)
Context (create : string → GabbleBytestreamState → option S) (sent : bool).

(** *** Calling the active stream *)

(** The signals up to the first connection error, and whether there is one;
    the handlers are disconnected then. *)
Fixpoint until_error (l : list bytestream_signal) : list bytestream_signal * bool :=
  match l with
  | [] => ([], false)
  | SigConnectionError :: _ => ([], true)
  | x :: l' => let '(pre, err) := until_error l' in (x :: pre, err)
  end.

(** [bytestream_state_changed_cb], [bytestream_data_received_cb] and
    [bytestream_write_blocked_cb]. *)
Definition forward (sig : bytestream_signal) : MM unit :=
  match sig with
  | SigStateChanged st =>
      set_state st ;;
      when (bool_decide (st = GABBLE_BYTESTREAM_STATE_CLOSED)) (modify (with_freed true))
  | _ => emit (Forwarded sig)
  end.

(** Run [m] on the active stream and hand its new signals to [k]. *)
Definition call_active {A} (k : list bytestream_signal → MM unit) (m : M S A) : MM A :=
  c ← get;
  match active_bytestream c with
  | None => fail MemoryFault
  | Some s =>
      if freed c then fail MemoryFault
      else
        match m s with
        | Abort r => fail r
        | Ok (a, s') =>
            modify (with_active (Some s')) ;;
            k (drop (length (signals s)) (signals s')) ;;
            mret a
        end
  end.

Definition bytestream_activate_next : MM unit :=
  c ← get;
  match active_bytestream c, fallback_stream_methods c with
  | Some _, _ | None, [] => mret tt
  | None, stream_method :: rest =>
      modify (with_fallback rest) ;;
      modify (with_tried (tried c ++ [stream_method])) ;;
      match create stream_method (state c) with
      | None => fail AssertFailed
      | Some s =>
          (* the new stream's signals are connected after this call *)
          match gabble_bytestream_iface_block_reading (read_blocked c) s with
          | Abort r => fail r
          | Ok (_, s') => modify (with_active (Some s')) ;; modify (with_freed false)
          end
      end
  end.

(** [bytestream_connection_error_cb]; a method that fails while it is
    initiated recurses on the rest of the list. *)
Fixpoint deliver (fuel : nat) (l : list bytestream_signal) : MM unit :=
  let '(pre, err) := until_error l in
  for_each pre forward ;;
  when err
    (c ← get;
     g_assert (bool_decide (state c = GABBLE_BYTESTREAM_STATE_INITIATING) ||
               bool_decide (state c = GABBLE_BYTESTREAM_STATE_ACCEPTED)) ;;
     modify (with_active None) ;;
     match fallback_stream_methods c with
     | [] => mret tt
     | _ =>
         bytestream_activate_next ;;
         when (bool_decide (state c = GABBLE_BYTESTREAM_STATE_INITIATING))
           (match fuel with
            | O => fail OutOfFuel
            | Datatypes.S fuel =>
                call_active (deliver fuel) (gabble_bytestream_iface_initiate sent) ;; mret tt
            end)
     end).

(** As many turns as there are methods left. *)
Definition on_active {A} (m : M S A) : MM A :=
  c ← get;
  call_active (deliver (length (fallback_stream_methods c))) m.

(** *** The interface *)

Definition gabble_bytestream_multiple_send (str : bytes) : MM bool :=
  c ← get;
  if bool_decide (state c ≠ GABBLE_BYTESTREAM_STATE_OPEN) then mret false
  else
    g_assert (bool_decide (is_Some (active_bytestream c))) ;;
    on_active (gabble_bytestream_iface_send str).

Definition gabble_bytestream_multiple_accept (func : WockyNode → WockyNode) : MM unit :=
  c ← get;
  if bool_decide (state c ≠ GABBLE_BYTESTREAM_STATE_LOCAL_PENDING) then mret tt
  else
    match active_bytestream c with
    | None => mret tt
    | Some s =>
        let msg := gabble_bytestream_factory_make_multi_accept_iq (peer_jid c) (stream_init_id c)
                     (vprotocol s :: fallback_stream_methods c) in
        match wocky_node_get_child_ns msg (Some "si") (Some NS_SI) with
        | None => fail AssertFailed
        | Some si =>
            when sent
              (emit (SendAccept (set_children msg [func si])) ;;
               on_active (vset_state GABBLE_BYTESTREAM_STATE_ACCEPTED))
        end
    end.

Definition gabble_bytestream_multiple_close (error : option string) : MM unit :=
  c ← get;
  if bool_decide (state c = GABBLE_BYTESTREAM_STATE_CLOSED) then mret tt
  else
    match active_bytestream c with
    | Some _ => on_active (gabble_bytestream_iface_close error)
    | None => set_state GABBLE_BYTESTREAM_STATE_CLOSED
    end.

Definition gabble_bytestream_multiple_initiate : MM bool :=
  c ← get;
  if bool_decide (state c ≠ GABBLE_BYTESTREAM_STATE_INITIATING) then mret false
  else
    match active_bytestream c with
    | None => mret false
    | Some _ => on_active (gabble_bytestream_iface_initiate sent)
    end.

Definition gabble_bytestream_multiple_add_stream_method (method : string) : MM unit :=
  modify (λ c, with_fallback (fallback_stream_methods c ++ [method]) c) ;;
  c ← get;
  match active_bytestream c with
  | None => bytestream_activate_next
  | Some _ => mret tt
  end.

Definition gabble_bytestream_multiple_has_stream_method (c : GabbleBytestreamMultiple) : bool :=
  match active_bytestream c with
  | Some _ => true
  | None => negb (length (fallback_stream_methods c) =? 0)%nat
  end.

Definition gabble_bytestream_multiple_block_reading (block : bool) : MM unit :=
  c ← get;
  if bool_decide (read_blocked c = block) then mret tt
  else
    modify (with_read_blocked block) ;;
    g_assert (bool_decide (is_Some (active_bytestream c))) ;;
    on_active (gabble_bytestream_iface_block_reading block).

Definition gabble_bytestream_multiple_dispose : MM unit :=
  c ← get;
  if dispose_has_run c then mret tt
  else
    modify with_disposed ;;
    when (bool_decide (state c ≠ GABBLE_BYTESTREAM_STATE_CLOSED))
      (gabble_bytestream_multiple_close None).

End multiple.
Arguments GabbleBytestreamMultiple S : clear implicits.

(** ** Invariant: the object follows its active stream *)

Section facts.
Context {S : Type} `{HT : BytestreamTracks S}.
Context (create : string → GabbleBytestreamState → option S).
Context (create_state : ∀ m st s, create m st = Some s → state_of s = st).

Local Notation Multi := (GabbleBytestreamMultiple S).
Local Notation MM := (M Multi).
Implicit Types (c : Multi).

(** The state is that of the active stream, and the methods tried, in order,
    followed by those left, are [added]. *)
Definition follows (added : list string) (c : Multi) : Prop :=
  (∀ s, active_bytestream c = Some s → state c = state_of s) ∧
  tried c ++ fallback_stream_methods c = added.

Definition keeps {A} (P Q : Multi → Prop) (m : MM A) : Prop :=
  ∀ c a c', P c → m c = Ok (a, c') → Q c'.

Lemma keeps_bind {A B} (P Q R : Multi → Prop) (m : MM A) (f : A → MM B) :
  keeps P Q m → (∀ a, keeps Q R (f a)) → keeps P R (m ≫= f).
Proof. intros Hm Hf c b c2 HP (a & c1 & H1 & H2)%bind_Ok. eapply Hf; [|done]. by eapply Hm. Qed.

Lemma until_error_none l pre : until_error l = (pre, false) → pre = l.
Proof.
  revert pre. induction l as [|x l IH]; intros pre; cbn; [by intros [= <-]|].
  destruct x; try (destruct (until_error l) as [p e]; intros [= <- ->]; by rewrite (IH p)).
Qed.

(** Forwarding signals sets the state they say, and nothing else that
    [follows] is about. *)
Lemma forward_all_spec l c :
  ∃ c' : Multi, for_each l forward c = Ok (tt, c') ∧ state c' = final_state (state c) l ∧
    active_bytestream c' = active_bytestream c ∧ tried c' = tried c ∧
    fallback_stream_methods c' = fallback_stream_methods c.
Proof.
  revert c. induction l as [|x l IH]; intros c; [by exists c|].
  assert (∃ c1 : Multi, forward x c = Ok (tt, c1) ∧ state c1 = final_state (state c) [x] ∧
    active_bytestream c1 = active_bytestream c ∧ tried c1 = tried c ∧
    fallback_stream_methods c1 = fallback_stream_methods c) as (c1 & H1 & Hs1 & Ha1 & Ht1 & Hf1).
  { destruct x; cbn; try (by eexists).
    unfold set_state, mbind, M_bind, get, when, modify, emit.
    case_bool_decide as Hst; cbn; case_bool_decide; (eexists; split; [reflexivity|]); cbn;
      split_and!; try done; destruct (decide (state c = st)); tauto. }
  destruct (IH c1) as (c2 & H2 & Hs2 & Ha2 & Ht2 & Hf2). exists c2.
  cbn [for_each]. rewrite (bind_eq _ _ _ _ _ H1), H2. split; [done|].
  split_and!; try congruence. by rewrite Hs2, Hs1.
Qed.

Lemma activate_next_spec L c c' :
  active_bytestream c = None → tried c ++ fallback_stream_methods c = L →
  bytestream_activate_next create c = Ok (tt, c') →
  follows L c' ∧ state c' = state c.
Proof.
  intros Ha HL. unfold bytestream_activate_next. rewrite (bind_eq _ _ _ c c) by done.
  cbv beta. rewrite Ha. destruct (fallback_stream_methods c) as [|m rest] eqn:Hf.
  { intros [= <-]. split; [|done]. split; [by rewrite Ha|]. by rewrite Hf. }
  do 2 (erewrite bind_eq by done). destruct (create m (state c)) as [s|] eqn:Hc; [|done].
  destruct (gabble_bytestream_iface_block_reading _ s) as [[a s']|] eqn:Hb; [|done].
  intros [= <-]. split; [|done]. split; cbn.
  - intros s2 [= <-]. by rewrite (block_keeps_state _ _ _ _ Hb), (create_state _ _ _ Hc).
  - rewrite <- HL, <- (assoc_L (++)). done.
Qed.

Lemma call_active_spec {A} L k (m : M S A) :
  tracks m →
  (∀ l c c', active_bytestream c ≠ None →
     (∀ s, active_bytestream c = Some s → state_of s = final_state (state c) l) →
     tried c ++ fallback_stream_methods c = L → k l c = Ok (tt, c') → follows L c') →
  keeps (follows L) (follows L) (call_active k m).
Proof.
  intros Hm Hk c a c' [Hs HL] Hrun. unfold call_active in Hrun.
  rewrite (bind_eq _ _ _ c c) in Hrun by done. cbv beta in Hrun.
  destruct (active_bytestream c) as [s|] eqn:Ha; [|done]. destruct (freed c); [done|].
  destruct (m s) as [[b s']|] eqn:Hms; [|done].
  destruct (Hm _ _ _ Hms) as (new & Hsig & Hst). rewrite Hsig, drop_app_length in Hrun.
  erewrite bind_eq in Hrun by done. apply bind_Ok in Hrun as ([] & c2 & Hk2 & [= _ <-]).
  eapply Hk; [| | |exact Hk2]; [done| |done].
  intros s2 [= <-]. cbn. by rewrite Hst, (Hs s).
Qed.

Lemma deliver_spec sent fuel L l c c' :
  active_bytestream c ≠ None →
  (∀ s, active_bytestream c = Some s → state_of s = final_state (state c) l) →
  tried c ++ fallback_stream_methods c = L →
  deliver create sent fuel l c = Ok (tt, c') → follows L c'.
Proof.
  revert l c c'. induction fuel as [|fuel IH]; intros l c c' Hne Hs HL.
  all: cbn [deliver]; destruct (until_error l) as [pre err] eqn:Hu;
    destruct (forward_all_spec pre c) as (c1 & H1 & Hs1 & Ha1 & Ht1 & Hf1);
    rewrite (bind_eq _ _ _ _ _ H1); destruct err; cbn [when].
  all: try (intros [= <-]; apply until_error_none in Hu as ->; split; [|by rewrite Ht1, Hf1];
    intros s Hs'; rewrite Ha1 in Hs'; by rewrite Hs1, (Hs s)).
  all: rewrite (bind_eq _ _ _ c1 c1) by done; cbv beta;
    intros ([] & c2 & (-> & _)%assert_Ok & Hrun)%bind_Ok; erewrite bind_eq in Hrun by done;
    rewrite Hf1 in Hrun; destruct (fallback_stream_methods c) as [|m rest] eqn:Hfb.
  all: try (injection Hrun as <-; split; cbn; [done|]; rewrite Ht1, Hf1; exact HL).
  all: apply bind_Ok in Hrun as ([] & c3 & Hact & Hrun);
    destruct (activate_next_spec L (with_active None c1) c3) as [Hfol Hst3]; try done;
    try (cbn; rewrite Ht1, Hf1; exact HL); cbn in Hst3;
    unfold when in Hrun; case_bool_decide; try (injection Hrun as <-; done).
  - done.
  - apply bind_Ok in Hrun as (b & c4 & Hcall & [= <-]).
    eapply call_active_spec; [apply tracks_initiate| |exact Hfol|exact Hcall].
    intros; eapply IH; eauto.
Qed.

Lemma on_active_spec {A} sent L (m : M S A) :
  tracks m → keeps (follows L) (follows L) (on_active create sent m).
Proof.
  intros Hm c a c' Hc Hrun. unfold on_active in Hrun.
  rewrite (bind_eq _ _ _ c c) in Hrun by done. cbv beta in Hrun.
  eapply call_active_spec; [exact Hm| |exact Hc|exact Hrun].
  intros; eapply deliver_spec; eauto.
Qed.

Lemma follows_local L c c' :
  follows L c → state c' = state c → active_bytestream c' = active_bytestream c →
  tried c' = tried c → fallback_stream_methods c' = fallback_stream_methods c → follows L c'.
Proof. unfold follows. by intros [H1 H2] -> -> -> ->. Qed.

(** *** In its environment *)

Inductive input :=
  | Add (method : string)
  | Send (str : bytes)
  | Accept (func : WockyNode → WockyNode)
  | Close (error : option string)
  | Initiate
  | BlockReading (block : bool)
  | Dispose
  | ActiveInput (i : own_input S).      (* something reaches the active stream *)

(** [sent]: whether the connection takes stanzas at that moment. *)
Definition handle (sent : bool) (i : input) : MM unit :=
  match i with
  | Add m => gabble_bytestream_multiple_add_stream_method create m
  | Send d => gabble_bytestream_multiple_send create sent d ;; mret tt
  | Accept f => gabble_bytestream_multiple_accept create sent f
  | Close e => gabble_bytestream_multiple_close create sent e
  | Initiate => gabble_bytestream_multiple_initiate create sent ;; mret tt
  | BlockReading b => gabble_bytestream_multiple_block_reading create sent b
  | Dispose => gabble_bytestream_multiple_dispose create sent
  | ActiveInput i => on_active create sent (own_handle i)
  end.

Definition record_input (i : input) (added : list string) : list string :=
  match i with
  | Add m => added ++ [m]
  | _ => added
  end.

Inductive reachable (c0 : Multi) : list string → Multi → Prop :=
  | reach_start : reachable c0 [] c0
  | reach_step added c sent i c' :
      reachable c0 added c → handle sent i c = Ok (tt, c') →
      reachable c0 (record_input i added) c'.

Lemma close_spec sent e L :
  keeps (follows L) (follows L) (gabble_bytestream_multiple_close create sent e).
Proof.
  intros c a c' Hc Hrun. unfold gabble_bytestream_multiple_close in Hrun.
  rewrite (bind_eq _ _ _ c c) in Hrun by done. cbv beta in Hrun.
  case_bool_decide; [by injection Hrun as _ <-|].
  destruct (active_bytestream c) as [s|] eqn:Ha.
  - eapply on_active_spec; [apply tracks_close|exact Hc|exact Hrun].
  - unfold set_state, mbind, M_bind, get in Hrun. rewrite bool_decide_eq_true_2 in Hrun by done.
    injection Hrun as _ <-. destruct Hc as [_ HL]. split; [|done]. cbn. by rewrite Ha.
Qed.

Lemma handle_follows L sent i : keeps (follows L) (follows (record_input i L)) (handle sent i).
Proof.
  intros c [] c' Hc Hrun. destruct i as [m|d|f|e| |b| |i]; cbn [handle record_input] in *.
  - unfold gabble_bytestream_multiple_add_stream_method in Hrun.
    erewrite bind_eq in Hrun by done. erewrite bind_eq in Hrun by done. cbn in Hrun.
    destruct (active_bytestream c) as [s|] eqn:Ha.
    + injection Hrun as <-. destruct Hc as [Hs <-].
      split; cbn; [by rewrite Ha in *; apply Hs|by rewrite (assoc_L (++))].
    + eapply activate_next_spec; [| |exact Hrun]; cbn; [done|].
      destruct Hc as [_ <-]. by rewrite (assoc_L (++)).
  - apply bind_Ok in Hrun as (b & c1 & Hrun & [= <-]).
    unfold gabble_bytestream_multiple_send in Hrun. rewrite (bind_eq _ _ _ c c) in Hrun by done.
    cbv beta in Hrun. case_bool_decide; [by injection Hrun as _ <-|].
    apply bind_Ok in Hrun as ([] & c2 & (-> & _)%assert_Ok & Hrun).
    eapply on_active_spec; [apply tracks_send|exact Hc|exact Hrun].
  - unfold gabble_bytestream_multiple_accept in Hrun. rewrite (bind_eq _ _ _ c c) in Hrun by done.
    cbv beta in Hrun. case_bool_decide; [by injection Hrun as <-|].
    destruct (active_bytestream c) as [s|] eqn:Ha; [|by injection Hrun as <-].
    destruct (wocky_node_get_child_ns _ _ _); [|done]. destruct sent; [|by injection Hrun as <-].
    cbn [when] in Hrun. erewrite bind_eq in Hrun by done.
    eapply on_active_spec; [apply tracks_set_state| |exact Hrun]. by eapply follows_local.
  - by eapply close_spec.
  - apply bind_Ok in Hrun as (b & c1 & Hrun & [= <-]).
    unfold gabble_bytestream_multiple_initiate in Hrun. rewrite (bind_eq _ _ _ c c) in Hrun by done.
    cbv beta in Hrun. case_bool_decide; [by injection Hrun as _ <-|].
    destruct (active_bytestream c) eqn:Ha; [|by injection Hrun as _ <-].
    eapply on_active_spec; [apply tracks_initiate|exact Hc|exact Hrun].
  - unfold gabble_bytestream_multiple_block_reading in Hrun.
    rewrite (bind_eq _ _ _ c c) in Hrun by done. cbv beta in Hrun.
    case_bool_decide; [by injection Hrun as <-|]. erewrite bind_eq in Hrun by done.
    apply bind_Ok in Hrun as ([] & c2 & (-> & _)%assert_Ok & Hrun).
    eapply on_active_spec; [apply tracks_block| |exact Hrun]. by eapply follows_local.
  - unfold gabble_bytestream_multiple_dispose in Hrun. rewrite (bind_eq _ _ _ c c) in Hrun by done.
    cbv beta in Hrun. destruct (dispose_has_run c); [by injection Hrun as <-|].
    erewrite bind_eq in Hrun by done. unfold when in Hrun.
    case_bool_decide; [|injection Hrun as <-; by eapply follows_local].
    eapply close_spec; [|exact Hrun]. by eapply follows_local.
  - eapply on_active_spec; [apply tracks_own|exact Hc|exact Hrun].
Qed.

(** At any time, a multi-method bytestream is in the
    state its active stream is in, and its methods are tried one after the
    other in the order in which they were added, none twice. *)
Theorem multiple_follows sid init_id jid resource st added c :
  reachable (new_multiple sid init_id jid resource st) added c →
  (∀ s, active_bytestream c = Some s → state c = state_of s) ∧
  tried c ++ fallback_stream_methods c = added.
Proof.
  change (reachable (new_multiple sid init_id jid resource st) added c → follows added c).
  induction 1 as [|added c sent i c' _ IH Hrun]; [done|]. by eapply handle_follows.
Qed.

End facts.

(** ** In-band and SOCKS5 streams *)

Inductive AnyBytestream :=
  | AnIBB (s : BytestreamIBB.GabbleBytestreamIBB)
  | ASocks5 (s : BytestreamSocks5.GabbleBytestreamSocks5).

Section any.
Context (enc : bytes → string) (dec : string → bytes) (sha1_hex : string → string).

Definition lift_any {A} (mi : M BytestreamIBB.GabbleBytestreamIBB A)
    (m5 : M BytestreamSocks5.GabbleBytestreamSocks5 A) : M AnyBytestream A :=
  λ s, match s with
       | AnIBB s => match mi s with Ok (a, s') => Ok (a, AnIBB s') | Abort r => Abort r end
       | ASocks5 s => match m5 s with Ok (a, s') => Ok (a, ASocks5 s') | Abort r => Abort r end
       end.

Local Existing Instance BytestreamIBB.ibb_iface.

#[global] Instance any_iface : GabbleBytestreamIfaceClass AnyBytestream := {
  state_of := λ s, match s with
                   | AnIBB s => @state_of _ (BytestreamIBB.ibb_iface enc) s
                   | ASocks5 s => state_of s
                   end;
  vinitiate := λ b, lift_any (@vinitiate _ (BytestreamIBB.ibb_iface enc) b) (vinitiate b);
  vsend := λ d, lift_any (@vsend _ (BytestreamIBB.ibb_iface enc) d) (vsend d);
  vclose := λ e, lift_any (@vclose _ (BytestreamIBB.ibb_iface enc) e) (vclose e);
  vaccept := λ b f, lift_any (@vaccept _ (BytestreamIBB.ibb_iface enc) b f) (vaccept b f);
  vblock_reading := Some (λ b,
    lift_any (@gabble_bytestream_iface_block_reading _ (BytestreamIBB.ibb_iface enc) b)
      (gabble_bytestream_iface_block_reading b));
}.

(** An input for the other kind of stream does not concern this one. *)
#[global] Instance any_object : @BytestreamObject AnyBytestream any_iface := {
  signals := λ s, match s with
                  | AnIBB s => @signals _ _ (BytestreamIBB.ibb_object enc dec) s
                  | ASocks5 s => @signals _ _ (BytestreamSocks5.socks5_object sha1_hex) s
                  end;
  vset_state := λ st, lift_any (BytestreamIBB.set_state st) (BytestreamSocks5.set_state st);
  vprotocol := λ s, match s with AnIBB _ => NS_IBB | ASocks5 _ => NS_BYTESTREAMS end;
  own_input := BytestreamIBB.input + BytestreamSocks5.own_event;
  own_handle := λ i,
    match i with
    | inl i => lift_any (BytestreamIBB.handle enc dec i ;; mret tt) (mret tt)
    | inr i => lift_any (mret tt) (BytestreamSocks5.handle_own sha1_hex i)
    end;
}.

Lemma tracks_lift {A} (mi : M _ A) (m5 : M _ A) :
  @tracks _ _ (BytestreamIBB.ibb_object enc dec) _ mi →
  @tracks _ _ (BytestreamSocks5.socks5_object sha1_hex) _ m5 →
  @tracks _ _ any_object _ (lift_any mi m5).
Proof.
  intros Hi H5 [s|s] a s'; cbn.
  - destruct (mi s) as [[b s1]|] eqn:E; [|done]. intros [= <- <-]. exact (Hi _ _ _ E).
  - destruct (m5 s) as [[b s1]|] eqn:E; [|done]. intros [= <- <-]. exact (H5 _ _ _ E).
Qed.

#[global] Instance any_tracks : @BytestreamTracks AnyBytestream any_iface any_object.
Proof.
  pose proof (BytestreamIBB.ibb_tracks enc dec) as Hi.
  pose proof (BytestreamSocks5.socks5_tracks sha1_hex) as H5.
  split.
  - intros b. apply tracks_lift; [apply Hi|apply H5].
  - intros b. apply tracks_lift; [apply Hi|apply H5].
  - intros b. apply tracks_lift; [apply Hi|apply H5].
  - intros b f. apply tracks_lift; [apply Hi|apply H5].
  - intros b. apply tracks_lift; [apply Hi|apply H5].
  - intros b. apply tracks_lift; [apply Hi|apply H5].
  - intros [i|i]; (apply tracks_lift; [|]); try apply tracks_ret; [apply Hi|apply H5].
  - intros b [s|s] a s'; cbn.
    + destruct (BytestreamIBB.gabble_bytestream_ibb_block_reading b s) as [[u s1]|] eqn:E; [|done].
      intros [= _ <-]. exact (@block_keeps_state _ _ _ Hi b s u s1 E).
    + destruct (BytestreamSocks5.gabble_bytestream_socks5_block_reading b s) as [[u s1]|] eqn:E; [|done].
      intros [= _ <-]. exact (@block_keeps_state _ _ _ H5 b s u s1 E).
Qed.

(** The streams a multi-method stream creates differ in their method and
    state only. *)
Definition gabble_bytestream_factory_create_from_method
    (sid init_id jid : string) (resource : option string) (peer self_jid : string) (muc : bool)
    (e : BytestreamSocks5.Env) (stream_method : string) (st : GabbleBytestreamState) :
    option AnyBytestream :=
  if negb (tp_strdiff (Some stream_method) (Some NS_IBB)) then
    Some (AnIBB (BytestreamIBB.new_ibb sid init_id jid resource st 4096))
  else if negb (tp_strdiff (Some stream_method) (Some NS_BYTESTREAMS)) then
    Some (ASocks5 (BytestreamSocks5.new_socks5 sid init_id peer self_jid muc st e))
  else None.

Lemma create_from_method_state sid init_id jid resource peer self_jid muc e m st s :
  gabble_bytestream_factory_create_from_method sid init_id jid resource peer self_jid muc e m st
    = Some s → state_of s = st.
Proof.
  unfold gabble_bytestream_factory_create_from_method.
  destruct (negb _); [by intros [= <-]|]. destruct (negb _); by intros [= <-].
Qed.

(** *** From the offer to an open stream *)

Section runs.
Context (sid init_id jid : string) (resource : option string) (peer self_jid : string) (muc : bool).

Definition run_inputs (e : BytestreamSocks5.Env) (l : list (@input _ _ any_object)) :
    M (GabbleBytestreamMultiple AnyBytestream) unit :=
  for_each l (handle (gabble_bytestream_factory_create_from_method sid init_id jid resource peer
    self_jid muc e) true).

Definition offer_refused : list (@input _ _ any_object) :=
  [Initiate; ActiveInput (inr (BytestreamSocks5.InitReply None) : own_input AnyBytestream)].

(** When the peer refuses the SOCKS5 offer of an
    initiator that may also use in-band data, the in-band <open/> is sent at
    once, under the same stream id, and the stream is open when the peer
    accepts it. *)
Theorem multiple_falls_back e :
  wp (run_inputs e ([Add NS_BYTESTREAMS; Add NS_IBB] ++ offer_refused ++
        [ActiveInput (inl (BytestreamIBB.InitReply false) : own_input AnyBytestream)]))
    (λ _ c, state c = GABBLE_BYTESTREAM_STATE_OPEN ∧
       tried c = [NS_BYTESTREAMS; NS_IBB] ∧ fallback_stream_methods c = [] ∧
       ∃ s, active_bytestream c = Some (AnIBB s) ∧
         BytestreamIBB.events s =
           [BytestreamIBB.SendOpen (BytestreamIBB.open_iq (BytestreamIBB.peer_jid s) sid 4096);
            BytestreamIBB.StateChanged GABBLE_BYTESTREAM_STATE_OPEN])
    (new_multiple sid init_id jid resource GABBLE_BYTESTREAM_STATE_INITIATING).
Proof.
  destruct e as [tf te ips lo lp px]. unfold wp. destruct ips as [|ip ips].
  all: vm_compute; split_and!; [done..|]; eexists; split; reflexivity.
Qed.

(** When the last method fails nothing says so: the stream stays in the
    initiating state without an active stream, and the next attempt to block
    it aborts. *)
Lemma multiple_exhausted e b :
  wp (run_inputs e ([Add NS_BYTESTREAMS] ++ offer_refused))
    (λ _ c, state c = GABBLE_BYTESTREAM_STATE_INITIATING ∧ active_bytestream c = None ∧
       events c = [] ∧
       (read_blocked c ≠ b → run_inputs e [BlockReading b] c = Abort AssertFailed))
    (new_multiple sid init_id jid resource GABBLE_BYTESTREAM_STATE_INITIATING).
Proof.
  destruct e as [tf te ips lo lp px]. unfold wp. destruct ips as [|ip ips], b.
  all: vm_compute; split_and!; try done.
Qed.
End runs.
End any.

(** ** Witness *)

Definition sample_created : string → GabbleBytestreamState → option AnyBytestream :=
  gabble_bytestream_factory_create_from_method "sid" "init" "a@example.com" (Some "r")
    "a@example.com/r" "me@example.com/b" false (BytestreamSocks5.mkEnv false true [] true 5086 []).

Definition sample_enc : bytes → string := BytestreamIBB.id_encode.
Definition sample_dec : string → bytes := BytestreamIBB.id_decode.

#[local] Existing Instance any_object.
#[local] Existing Instance any_tracks.

Lemma multiple_follows_witness :
  let run := run_inputs sample_enc sample_dec (λ x, x) "sid" "init" "a@example.com" (Some "r")
    "a@example.com/r" "me@example.com/b" false (BytestreamSocks5.mkEnv false true [] true 5086 [])
    [Add NS_BYTESTREAMS; Add NS_IBB] in
  match run (new_multiple "sid" "init" "a@example.com" (Some "r")
               GABBLE_BYTESTREAM_STATE_INITIATING) with
  | Ok (_, c) => tried c ++ fallback_stream_methods c = [NS_BYTESTREAMS; NS_IBB]
  | Abort _ => False
  end.
Proof.
  intros run. subst run. unfold run_inputs.
  destruct (for_each _ _ _) as [[[] c]|] eqn:E; [|by vm_compute in E].
  apply bind_Ok in E as ([] & c1 & E1 & E). apply bind_Ok in E as ([] & c2 & E2 & [= <-]).
  refine (proj2 (@multiple_follows AnyBytestream (any_iface sample_enc)
    (any_object sample_enc sample_dec (λ x, x)) (any_tracks sample_enc sample_dec (λ x, x))
    sample_created _ "sid" "init" "a@example.com" (Some "r")
    GABBLE_BYTESTREAM_STATE_INITIATING [NS_BYTESTREAMS; NS_IBB] c2 _)).
  - intros m st s. apply create_from_method_state.
  - refine (reach_step _ _ [NS_BYTESTREAMS] c1 true (Add NS_IBB) c2 _ E2).
    exact (reach_step _ _ [] _ true (Add NS_BYTESTREAMS) c1 (reach_start _ _) E1).
Defined.

End BytestreamMultiple.
