(* ===== verification/StreamInitiation.v ===== *)
(** * Stream initiation (src/bytestream-factory.c, XEP-0095)

    Offering a stream, reading an offer, choosing among the methods, and
    reading the answer.  The streams that come out are those of
    [BytestreamMultiple].  Handles stand for the identifiers they were made
    from; the handle repositories and the rooms we are in are arguments. *)

From S2P Require Import Prelude Node Namespaces Jid BytestreamIface.
From S2P Require Import BytestreamIBB BytestreamSocks5 BytestreamMultiple.

Module StreamInitiation.
Import Jid BytestreamMultiple.

(** ** The offer *)

Definition gabble_bytestream_factory_make_stream_init_iq
    (full_jid stream_id profile : string) : WockyNode :=
  let option_node m := mkNode "option" None (Some NS_X_DATA) []
    [mkNode "value" (Some m) (Some NS_X_DATA) [] []] in
  let field := mkNode "field" None (Some NS_X_DATA)
    [mkAttribute "var" "stream-method" None; mkAttribute "type" "list-single" None]
    [option_node NS_BYTESTREAMS; option_node NS_IBB] in
  let x := mkNode "x" None (Some NS_X_DATA) [mkAttribute "type" "form" None] [field] in
  let feature := mkNode "feature" None (Some NS_FEATURENEG) [] [x] in
  let si := mkNode "si" None (Some NS_SI)
    [mkAttribute "id" stream_id None; mkAttribute "profile" profile None]
    [feature; mkNode "si-multiple" None (Some NS_SI_MULTIPLE) [] []] in
  mkNode "iq" None (Some "jabber:client")
    [mkAttribute "type" "set" None; mkAttribute "to" full_jid None] [si].

(** What [streaminit_parse_request] stores through its pointers.  A method
    is NULL when its <value/> is empty. *)
Record si_request := mkRequest {
  profile : string;
  from : string;
  stream_id : string;
  stream_init_id : option string;
  mime_type : option string;
  stream_methods : list (option string);
  multiple : bool;
}.

(** The stream methods of a <field/>. *)
Definition field_methods (field : WockyNode) : list (option string) :=
  omap (λ stream_method,
    match wocky_node_get_child stream_method "value" with
    | None => None
    | Some value =>
        if negb (tp_strdiff (content value) (Some "")) then None else Some (content value)
    end) (children field).

(** The fields up to the first one for "stream-method"; [None] when its type
    is wrong. *)
Fixpoint find_methods (fields : list WockyNode) : option (list (option string)) :=
  match fields with
  | [] => Some []
  | field :: rest =>
      if tp_strdiff (wocky_node_get_attribute field "var") (Some "stream-method")
      then find_methods rest
      else if tp_strdiff (wocky_node_get_attribute field "type") (Some "list-single") then None
      else Some (field_methods field)
  end.

Definition streaminit_parse_request (iq si : WockyNode) : option si_request :=
  from ← wocky_node_get_attribute iq "from";
  stream_id ← wocky_node_get_attribute si "id";
  profile ← wocky_node_get_attribute si "profile";
  feature ← wocky_node_get_child_ns si (Some "feature") (Some NS_FEATURENEG);
  x ← wocky_node_get_child_ns feature (Some "x") (Some NS_X_DATA);
  methods ← find_methods (children x);
  if bool_decide (methods = []) then None
  else Some (mkRequest profile from stream_id (wocky_node_get_attribute iq "id")
    (wocky_node_get_attribute si "mime-type") methods
    (bool_decide (is_Some (wocky_node_get_child_ns si (Some "si-multiple") (Some NS_SI_MULTIPLE))))).

Definition stream_method_supported (stream_method : option string) : bool :=
  negb (tp_strdiff stream_method (Some NS_IBB)) ||
  negb (tp_strdiff stream_method (Some NS_BYTESTREAMS)).

(** ** The streams *)

Inductive Bytestream :=
  | Single (s : AnyBytestream)
  | Multi (c : GabbleBytestreamMultiple AnyBytestream).

Inductive si_error :=
  | WOCKY_XMPP_ERROR_BAD_REQUEST
  | WOCKY_XMPP_ERROR_JID_MALFORMED
  | WOCKY_SI_ERROR_NO_VALID_STREAMS
  | WOCKY_SI_ERROR_BAD_PROFILE.

Definition si_error_name (e : si_error) : string :=
  match e with
  | WOCKY_XMPP_ERROR_BAD_REQUEST => "bad-request"
  | WOCKY_XMPP_ERROR_JID_MALFORMED => "jid-malformed"
  | WOCKY_SI_ERROR_NO_VALID_STREAMS => "no-valid-streams"
  | WOCKY_SI_ERROR_BAD_PROFILE => "bad-profile"
  end.

(** Who is told about a new stream. *)
Inductive si_target :=
  | NewTube | TubeStream | MucTubeStream | FileTransfer.

Inductive si_result :=
  | IqError (e : si_error)                         (* an error reply *)
  | Ignored                                        (* no reply *)
  | ClosedWith (e : si_error) (b : Bytestream)     (* the stream was closed *)
  | Dispatched (t : si_target) (b : Bytestream).

Section factory.
Context (enc : bytes → string) (dec : string → bytes) (sha1_hex : string → string).
Context (g_utf8_strdown : string → string).
Context (room_lookup : string → Z).                (* handle of a known room, or 0 *)
Context (ensure_contact : string → bool → option string).
Context (muc_self_jid : Z → option string).        (* our JID in a room we are in *)
Context (socks5_env : BytestreamSocks5.Env) (enable_file_transfer : bool).

Local Existing Instance any_iface.
Local Existing Instance any_object.

Definition peer_jid_of (jid : string) (resource : option string) : string :=
  match resource with
  | Some r => jid +:+ "/" +:+ r
  | None => jid
  end.

(** [gabble_bytestream_factory_create_from_method] with the arguments the
    negotiation fixes. *)
Definition create (sid init_id jid : string) (resource : option string) (self_jid : string) :
    string → GabbleBytestreamState → option AnyBytestream :=
  let peer := peer_jid_of jid resource in
  gabble_bytestream_factory_create_from_method sid init_id jid resource peer self_jid
    (negb (gabble_get_room_handle_from_jid room_lookup peer =? 0)) socks5_env.

(** Adding the supported methods, in order. *)
Definition add_methods (cr : string → GabbleBytestreamState → option AnyBytestream)
    (l : list (option string)) : M (GabbleBytestreamMultiple AnyBytestream) unit :=
  for_each l (λ m,
    match m with
    | Some m => when (stream_method_supported (Some m))
                  (gabble_bytestream_multiple_add_stream_method (H := any_iface enc) cr m)
    | None => mret tt
    end).

(** A stream of one method.  The constructors assert that there is a peer,
    and those of SOCKS5 and multi-method streams that our own JID is known. *)
Definition create_single (sid init_id : string) (jid resource self_jid : option string)
    (st : GabbleBytestreamState) (m : option string) : outcome (option AnyBytestream) :=
  match m with
  | None => Ok None
  | Some m =>
      match jid, self_jid with
      | None, _ => if stream_method_supported (Some m) then Abort AssertFailed else Ok None
      | Some jid, None =>
          if negb (tp_strdiff (Some m) (Some NS_BYTESTREAMS)) then Abort AssertFailed
          else Ok (create sid init_id jid resource "" m st)
      | Some jid, Some self_jid => Ok (create sid init_id jid resource self_jid m st)
      end
  end.

(** The first method for which a stream can be created. *)
Fixpoint first_created (cr : option string → outcome (option AnyBytestream))
    (l : list (option string)) : outcome (option AnyBytestream) :=
  match l with
  | [] => Ok None
  | m :: l' =>
      match cr m with
      | Ok None => first_created cr l'
      | x => x
      end
  end.

(** A multi-method stream with the supported ones among [l]. *)
Definition create_multiple (sid init_id : string) (jid resource self_jid : option string)
    (st : GabbleBytestreamState) (l : list (option string)) : outcome Bytestream :=
  match jid, self_jid with
  | Some jid, Some self_jid =>
      match add_methods (create sid init_id jid resource self_jid) l
              (new_multiple sid init_id jid resource st) with
      | Ok (_, c) => Ok (Multi c)
      | Abort e => Abort e
      end
  | _, _ => Abort AssertFailed
  end.

(** [gabble_bytestream_iface_close] on either kind. *)
Definition close_stream (cr : string → GabbleBytestreamState → option AnyBytestream)
    (e : si_error) (b : Bytestream) : outcome Bytestream :=
  match b with
  | Single s =>
      match @vclose _ (any_iface enc) (Some (si_error_name e)) s with
      | Ok (_, s') => Ok (Single s')
      | Abort r => Abort r
      end
  | Multi c =>
      match gabble_bytestream_multiple_close (H0 := any_object enc dec sha1_hex) cr true
              (Some (si_error_name e)) c with
      | Ok (_, c') => Ok (Multi c')
      | Abort r => Abort r
      end
  end.

Definition closed_with cr (e : si_error) (b : Bytestream) : outcome si_result :=
  match close_stream cr e b with
  | Ok b' => Ok (ClosedWith e b')
  | Abort r => Abort r
  end.

Definition si_tube_received cr (si : WockyNode) (b : Bytestream) (in_room : bool) :
    outcome si_result :=
  let has k := bool_decide (is_Some (wocky_node_get_child_ns si (Some k) (Some NS_TUBES))) in
  if has "tube" then Ok (Dispatched NewTube b)
  else if has "stream" then Ok (Dispatched TubeStream b)
  else if has "muc-stream" then
    if negb in_room then closed_with cr WOCKY_XMPP_ERROR_BAD_REQUEST b
    else Ok (Dispatched MucTubeStream b)
  else closed_with cr WOCKY_XMPP_ERROR_BAD_REQUEST b.

(** Who offers: the contact's identifier, its resource and our own JID. *)
Inductive sender :=
  | Ignore
  | Malformed
  | Sender (jid : string) (resource : option string) (self_jid : option string).

Definition resolve_sender (iq : WockyNode) (from : string) : sender :=
  let room_handle := gabble_get_room_handle_from_jid room_lookup from in
  if room_handle =? 0 then
    match wocky_decode_jid g_utf8_strdown from with
    | None | Some (_, _, None) => Ignore
    | Some (_, _, Some r) =>
        match ensure_contact from false with
        | None => Malformed
        | Some jid => Sender jid (Some r) (wocky_node_get_attribute iq "to")
        end
    end
  else
    match muc_self_jid room_handle with
    | None => Ignore
    | Some self_jid =>
        match ensure_contact from true with
        | None => Malformed
        | Some jid => Sender jid None (Some self_jid)
        end
    end.

(** The stream for an offer. *)
Definition offered_stream (r : si_request) (jid : string) (resource self_jid : option string) :
    outcome (option Bytestream) :=
  let init_id := default "" (stream_init_id r) in
  if multiple r then
    match create_multiple (stream_id r) init_id (Some jid) resource self_jid
            GABBLE_BYTESTREAM_STATE_LOCAL_PENDING (stream_methods r) with
    | Ok b => Ok (Some b)
    | Abort e => Abort e
    end
  else
    match first_created (create_single (stream_id r) init_id (Some jid) resource self_jid
            GABBLE_BYTESTREAM_STATE_LOCAL_PENDING) (stream_methods r) with
    | Ok s => Ok (Single <$> s)
    | Abort e => Abort e
    end.

(** [None]: not for us. *)
Definition bytestream_factory_iq_si_cb (iq : WockyNode) : outcome (option si_result) :=
  match wocky_node_get_child_ns iq (Some "si") (Some NS_SI) with
  | None => Ok None
  | Some si =>
      match streaminit_parse_request iq si with
      | None => Ok (Some (IqError WOCKY_XMPP_ERROR_BAD_REQUEST))
      | Some r =>
          match resolve_sender iq (from r) with
          | Ignore => Ok (Some Ignored)
          | Malformed => Ok (Some (IqError WOCKY_XMPP_ERROR_JID_MALFORMED))
          | Sender jid resource self_jid =>
              let cr := create (stream_id r) (default "" (stream_init_id r)) jid resource
                          (default "" self_jid) in
              let some x := match x with Ok a => Ok (Some a) | Abort e => Abort e end in
              match offered_stream r jid resource self_jid with
              | Abort e => Abort e
              | Ok None => Ok (Some (IqError WOCKY_SI_ERROR_NO_VALID_STREAMS))
              | Ok (Some b) =>
                  let empty := match b with
                               | Multi c => negb (gabble_bytestream_multiple_has_stream_method c)
                               | Single _ => false
                               end in
                  if empty then some (closed_with cr WOCKY_SI_ERROR_NO_VALID_STREAMS b)
                  else if negb (tp_strdiff (Some (profile r)) (Some NS_TUBES)) then
                    some (si_tube_received cr si b
                      (negb (gabble_get_room_handle_from_jid room_lookup (from r) =? 0)))
                  else if enable_file_transfer &&
                          negb (tp_strdiff (Some (profile r)) (Some NS_FILE_TRANSFER)) then
                    Ok (Some (Dispatched FileTransfer b))
                  else some (closed_with cr WOCKY_SI_ERROR_BAD_PROFILE b)
              end
          end
      end
  end.

(** ** The answer *)

Definition streaminit_get_multiple_bytestream (si : WockyNode) (sid : string)
    (jid resource self_jid : option string) : outcome (option Bytestream) :=
  match wocky_node_get_child_ns si (Some "si-multiple") (Some NS_SI_MULTIPLE) with
  | None => Ok None
  | Some si_multi =>
      let values := List.filter (λ n, bool_decide (name n = "value")) (children si_multi) in
      match create_multiple sid "" jid resource self_jid
              GABBLE_BYTESTREAM_STATE_INITIATING (content <$> values) with
      | Ok b => Ok (Some b)
      | Abort e => Abort e
      end
  end.

(** The <value/> of the first field for "stream-method". *)
Fixpoint chosen_method (fields : list WockyNode) : option string :=
  match fields with
  | [] => None
  | field :: rest =>
      if tp_strdiff (wocky_node_get_attribute field "var") (Some "stream-method")
      then chosen_method rest
      else wocky_node_get_child field "value" ≫= content
  end.

Definition streaminit_get_bytestream (si : WockyNode) (sid : string)
    (jid resource self_jid : option string) : outcome (option Bytestream) :=
  let stream_method :=
    feature ← wocky_node_get_child_ns si (Some "feature") (Some NS_FEATURENEG);
    x ← wocky_node_get_child_ns feature (Some "x") (Some NS_X_DATA);
    chosen_method (children x) in
  match create_single sid "" jid resource self_jid GABBLE_BYTESTREAM_STATE_INITIATING
          stream_method with
  | Ok s => Ok (Single <$> s)
  | Abort e => Abort e
  end.

(** The stream a positive answer gives, before it is initiated. *)
Definition answered_stream (reply : WockyNode) (sid : string)
    (jid resource self_jid : option string) : outcome (option Bytestream) :=
  match wocky_node_get_child_ns reply (Some "si") (Some NS_SI) with
  | None => Ok None
  | Some si =>
      match streaminit_get_multiple_bytestream si sid jid resource self_jid with
      | Abort e => Abort e
      | Ok (Some b) => Ok (Some b)
      | Ok None => streaminit_get_bytestream si sid jid resource self_jid
      end
  end.

(** [gabble_bytestream_iface_initiate] on either kind. *)
Definition initiate_stream (cr : string → GabbleBytestreamState → option AnyBytestream)
    (sent : bool) (b : Bytestream) : outcome (bool * Bytestream) :=
  match b with
  | Single s =>
      match @vinitiate _ (any_iface enc) sent s with
      | Ok (ok, s') => Ok (ok, Single s')
      | Abort r => Abort r
      end
  | Multi c =>
      match gabble_bytestream_multiple_initiate (H0 := any_object enc dec sha1_hex) cr sent c with
      | Ok (ok, c') => Ok (ok, Multi c')
      | Abort r => Abort r
      end
  end.

(** [reply]: the answer, unless it is an error; the result is what the
    caller's function gets. *)
Definition streaminit_reply_cb (sent : bool) (sid : string) (reply : option WockyNode) :
    outcome (option Bytestream) :=
  match reply ≫= λ msg, from ← wocky_node_get_attribute msg "from"; Some (msg, from) with
  | None => Ok None
  | Some (msg, from) =>
      let jid := ensure_contact from false in
      let room_handle := gabble_get_room_handle_from_jid room_lookup from in
      let who :=
        if room_handle =? 0 then
          match wocky_decode_jid g_utf8_strdown from with
          | None | Some (_, _, None) => None
          | Some (_, _, Some r) => Some (Some r, wocky_node_get_attribute msg "to")
          end
        else (λ j, (None, Some j)) <$> muc_self_jid room_handle in
      match who with
      | None => Ok None
      | Some (resource, self_jid) =>
          match answered_stream msg sid jid resource self_jid with
          | Abort e => Abort e
          | Ok None => Ok None
          | Ok (Some b) =>
              let cr := create sid "" (default "" jid) resource (default "" self_jid) in
              match initiate_stream cr sent b with
              | Abort e => Abort e
              | Ok (true, b') => Ok (Some b')
              | Ok (false, _) => Ok None
              end
          end
      end
  end.
End factory.

(** ** Which methods are taken *)

Definition supported (l : list (option string)) : list string :=
  omap (λ m, if stream_method_supported m then m else None) l.

Lemma supported_cons m l :
  supported (m :: l) = (if stream_method_supported m then option_list m else []) ++ supported l.
Proof. unfold supported. cbn. destruct m as [m|]; cbn; by destruct (stream_method_supported _). Qed.

Lemma stream_method_supported_spec m :
  stream_method_supported m = true ↔ m = Some NS_IBB ∨ m = Some NS_BYTESTREAMS.
Proof.
  unfold stream_method_supported. rewrite orb_true_iff, !negb_true_iff.
  by rewrite !tp_strdiff_false.
Qed.

Section facts.
Context (enc : bytes → string) (dec : string → bytes) (sha1_hex : string → string).
Context (strdown : string → string) (room_lookup : string → Z).
Context (ensure_contact : string → bool → option string) (muc_self_jid : Z → option string).
Context (socks5_env : BytestreamSocks5.Env) (enable_ft : bool).

Local Notation create := (create room_lookup socks5_env).
Local Notation offered := (offered_stream enc room_lookup socks5_env).
Local Notation create_multiple := (create_multiple enc room_lookup socks5_env).
Local Notation create_single := (create_single room_lookup socks5_env).

(** The stream that has been given the methods [l]. *)
Definition multi_with (sid init_id jid : string) (resource : option string) (self_jid : string)
    (st : GabbleBytestreamState) (l : list string) : GabbleBytestreamMultiple AnyBytestream :=
  mkMulti sid init_id st (peer_jid_of jid resource) (drop 1 l)
    (head l ≫= λ m, create sid init_id jid resource self_jid m st) false false false (take 1 l) [].

Lemma create_supported sid init_id jid resource self_jid st m :
  stream_method_supported (Some m) = true →
  ∃ s, create sid init_id jid resource self_jid m st = Some s ∧
    gabble_bytestream_iface_block_reading (H := any_iface enc) false s = Ok (tt, s) ∧
    @vprotocol _ _ (any_object enc dec sha1_hex) s = m.
Proof.
  intros [[= ->]|[= ->]]%stream_method_supported_spec; by eexists.
Qed.

Lemma add_methods_spec sid init_id jid resource self_jid st l0 l :
  Forall (λ m, stream_method_supported (Some m) = true) l0 →
  add_methods enc (create sid init_id jid resource self_jid) l
    (multi_with sid init_id jid resource self_jid st l0) =
  Ok (tt, multi_with sid init_id jid resource self_jid st (l0 ++ supported l)).
Proof.
  revert l0. induction l as [|m l IH]; intros l0 Hl0.
  { cbn. by rewrite app_nil_r. }
  unfold add_methods in *. cbn [for_each]. rewrite supported_cons.
  destruct m as [m|]; [|erewrite bind_eq by done; by apply IH].
  destruct (stream_method_supported (Some m)) eqn:Hm; cbn [when option_list];
    [|erewrite bind_eq by done; by apply IH].
  destruct (create_supported sid init_id jid resource self_jid st m Hm) as (s & Hs & Hb & _).
  erewrite bind_eq; [rewrite (assoc_L (++)); apply IH, Forall_app; by repeat constructor|].
  unfold gabble_bytestream_multiple_add_stream_method. erewrite bind_eq by done.
  erewrite bind_eq by done. cbv beta. destruct l0 as [|m0 l0].
  - cbn [multi_with active_bytestream head mbind option_bind with_fallback].
    unfold bytestream_activate_next. erewrite bind_eq by done. cbn -[StreamInitiation.create gabble_bytestream_iface_block_reading].
    do 2 (erewrite bind_eq by done). cbn -[StreamInitiation.create gabble_bytestream_iface_block_reading]. rewrite Hs.
    rewrite Hb. unfold mbind, M_bind, modify, multi_with, with_freed, with_active, with_tried,
      with_fallback. cbn -[StreamInitiation.create gabble_bytestream_iface_block_reading]. by rewrite Hs.
  - apply Forall_cons in Hl0 as [Hm0 _].
    destruct (create_supported sid init_id jid resource self_jid st m0 Hm0) as (s0 & Hs0 & _).
    unfold multi_with. cbn -[StreamInitiation.create]. rewrite Hs0. reflexivity.
Qed.

(** A multi-method offer gives a pending stream whose
    active method is the first supported one of the offer and whose fallback
    methods are the other supported ones, in order; a plain offer gives a
    stream of the first supported method; unsupported and empty methods are
    skipped; and no stream comes of an offer without a supported one. *)
Theorem si_offered_methods r jid resource self_jid :
  let S := supported (stream_methods r) in
  let init_id := default "" (stream_init_id r) in
  let cr := create (stream_id r) init_id jid resource self_jid in
  let pending := GABBLE_BYTESTREAM_STATE_LOCAL_PENDING in
  if multiple r then
    ∃ c, offered r jid resource (Some self_jid) = Ok (Some (Multi c)) ∧
      state c = pending ∧ tried c = take 1 S ∧ fallback_stream_methods c = drop 1 S ∧
      active_bytestream c = head S ≫= λ m, cr m pending
  else
    offered r jid resource (Some self_jid) = Ok (Single <$> (head S ≫= λ m, cr m pending)).
Proof.
  intros S init_id cr pending. unfold offered_stream. destruct (multiple r).
  - exists (multi_with (stream_id r) init_id jid resource self_jid pending S).
    split; [|done]. unfold StreamInitiation.create_multiple.
    change (new_multiple (stream_id r) (default "" (stream_init_id r)) jid resource
      GABBLE_BYTESTREAM_STATE_LOCAL_PENDING) with
      (multi_with (stream_id r) init_id jid resource self_jid pending []).
    by rewrite add_methods_spec.
  - subst S. induction (stream_methods r) as [|m l IH]; [done|].
    cbn [first_created]. rewrite supported_cons.
    assert (StreamInitiation.create_single room_lookup socks5_env (stream_id r) init_id (Some jid)
      resource (Some self_jid) pending m =
      Ok (if stream_method_supported m then m ≫= λ m, cr m pending else None)) as Hc.
    { destruct m as [m|]; [|done]. cbn. destruct (stream_method_supported (Some m)) eqn:Hm; [done|].
      f_equal. unfold StreamInitiation.create, gabble_bytestream_factory_create_from_method.
      apply orb_false_iff in Hm as [-> ->]. done. }
    change (StreamInitiation.create_single room_lookup socks5_env (stream_id r)
      (default "" (stream_init_id r)) (Some jid) resource (Some self_jid)
      GABBLE_BYTESTREAM_STATE_LOCAL_PENDING m) with
      (StreamInitiation.create_single room_lookup socks5_env (stream_id r) init_id (Some jid)
        resource (Some self_jid) pending m).
    rewrite Hc. destruct (stream_method_supported m) eqn:Hm; [|exact IH].
    destruct m as [m|]; [|done].
    destruct (create_supported (stream_id r) init_id jid resource self_jid pending m Hm)
      as (s & Hs & _). cbn -[StreamInitiation.create]. subst cr. by rewrite Hs.
Qed.


(** An offer made by Gabble, relayed under the sender's
    JID, is understood by Gabble; the reply by which the responder accepts it
    is understood by the initiator; and both end up with the same methods in
    the same order, whatever the profile adds to the reply. *)
Theorem si_negotiation_agrees to sid prof f extra jid resource self_jid jid' resource' self_jid' :
  let iq := wocky_node_set_attribute
    (gabble_bytestream_factory_make_stream_init_iq to sid prof) "from" f in
  ∃ si r c c' msg d,
    wocky_node_get_child_ns iq (Some "si") (Some NS_SI) = Some si ∧
    streaminit_parse_request iq si = Some r ∧
    (profile r, from r, stream_id r) = (prof, f, sid) ∧
    offered r jid resource (Some self_jid) = Ok (Some (Multi c)) ∧
    gabble_bytestream_multiple_accept (H0 := any_object enc dec sha1_hex)
      (create sid "" jid resource self_jid) true
      (λ si, set_children si (children si ++ extra)) c = Ok (tt, c') ∧
    state c' = GABBLE_BYTESTREAM_STATE_ACCEPTED ∧
    events c' = [SendAccept msg; StateChanged GABBLE_BYTESTREAM_STATE_ACCEPTED] ∧
    answered_stream enc room_lookup socks5_env msg sid (Some jid') resource' (Some self_jid') =
      Ok (Some (Multi d)) ∧
    state d = GABBLE_BYTESTREAM_STATE_INITIATING ∧
    tried c' ++ fallback_stream_methods c' = [NS_BYTESTREAMS; NS_IBB] ∧
    tried d ++ fallback_stream_methods d = [NS_BYTESTREAMS; NS_IBB].
Proof.
  intros iq.
  pose (r := mkRequest prof f sid None None [Some NS_BYTESTREAMS; Some NS_IBB] true).
  pose (c := multi_with sid "" jid resource self_jid GABBLE_BYTESTREAM_STATE_LOCAL_PENDING
               [NS_BYTESTREAMS; NS_IBB]).
  pose (d := multi_with sid "" jid' resource' self_jid' GABBLE_BYTESTREAM_STATE_INITIATING
               [NS_BYTESTREAMS; NS_IBB]).
  pose (augment si := set_children si (children si ++ extra)).
  pose (c' := match gabble_bytestream_multiple_accept (H0 := any_object enc dec sha1_hex)
                      (create sid "" jid resource self_jid) true augment c with
              | Ok (_, c') => c'
              | Abort _ => c
              end).
  pose (msg := let m := gabble_bytestream_factory_make_multi_accept_iq
                          (peer_jid_of jid resource) "" [NS_BYTESTREAMS; NS_IBB] in
               set_children m (augment <$> children m)).
  eexists _, r, c, c', msg, d. split_and!; try reflexivity; vm_compute; reflexivity.
Qed.

(** A multi-method offer without a supported method is dropped without a
    reply: closing a stream that has no method yet sends nothing. *)
Lemma si_multiple_without_methods iq si r jid resource self_jid :
  wocky_node_get_child_ns iq (Some "si") (Some NS_SI) = Some si →
  streaminit_parse_request iq si = Some r → multiple r = true →
  supported (stream_methods r) = [] →
  resolve_sender strdown room_lookup ensure_contact muc_self_jid iq (from r) =
    Sender jid resource (Some self_jid) →
  ∃ c, bytestream_factory_iq_si_cb enc dec sha1_hex strdown room_lookup ensure_contact muc_self_jid
         socks5_env enable_ft iq = Ok (Some (ClosedWith WOCKY_SI_ERROR_NO_VALID_STREAMS (Multi c))) ∧
    events c = [StateChanged GABBLE_BYTESTREAM_STATE_CLOSED].
Proof.
  intros Hsi Hr Hm Hsup Hw. unfold bytestream_factory_iq_si_cb. rewrite Hsi, Hr, Hw.
  unfold offered_stream, StreamInitiation.create_multiple. rewrite Hm.
  change (new_multiple (stream_id r) (default "" (stream_init_id r)) jid resource
      GABBLE_BYTESTREAM_STATE_LOCAL_PENDING) with
    (multi_with (stream_id r) (default "" (stream_init_id r)) jid resource self_jid
      GABBLE_BYTESTREAM_STATE_LOCAL_PENDING []).
  rewrite add_methods_spec, Hsup by done. eexists. split; reflexivity.
Qed.

End facts.

(** ** Example *)

Example si_offered_methods_example :
  supported [Some "urn:unknown"; Some NS_IBB; None; Some NS_BYTESTREAMS] = [NS_IBB; NS_BYTESTREAMS].
Proof. vm_compute. reflexivity. Qed.

End StreamInitiation.
