(* ===== verification/Addressing.v ===== *)
(** * Addresses (src/addressing-util.c)

    Contacts named by an xmpp: URI or by a field of a vCard, and the URI and
    the fields that name a contact.  A function returns what it returns and
    the error it sets: both may be there.  GLib's functions on URIs are the
    operations of a class; the round trip is proved from the laws they are
    documented to have, and [Rfc3986] is an implementation of them. *)

From S2P Require Import Prelude Jid Capabilities.

Module Addressing.
Import Jid.

(** ** GLib *)

Definition code (c : ascii) : nat := nat_of_ascii c.

Definition g_ascii_isdigit (c : ascii) : bool := ((48 <=? code c) && (code c <=? 57))%nat.
Definition g_ascii_isalpha (c : ascii) : bool :=
  ((65 <=? code c) && (code c <=? 90) || (97 <=? code c) && (code c <=? 122))%nat.

(** [g_ascii_strdown] and [g_ascii_strcasecmp () == 0]. *)
Definition g_ascii_strdown (s : string) : string := string_down s.
Definition strcaseeq (a b : string) : bool :=
  bool_decide (g_ascii_strdown a = g_ascii_strdown b).

Definition unreserved (c : ascii) : bool := g_ascii_isalnum c || strchr "-._~" c.

(** A C string, and one that is read the same after percent signs are. *)
Definition no_nul (s : string) : bool := forall_char (λ c, negb (code c =? 0)%nat) s.
Definition kept (c : ascii) : bool := unreserved c || (128 <=? code c)%nat.
Definition escaped_char (c : ascii) : bool := kept c || bool_decide (c = "%"%char).

(** [g_uri_escape_string (s, NULL, TRUE)] and [g_uri_unescape_string (s, NULL)]. *)
Class GUri := {
  g_uri_parse_scheme : string → option string;
  g_uri_escape_string : string → string;
  g_uri_unescape_string : string → option string;
}.

(** What is documented: a URI starts with a scheme and a colon; everything
    but the unreserved characters and UTF-8 is escaped by a percent sign and
    two digits; unescaping undoes it. *)
Class GUriLaws `{GUri} := {
  parse_scheme_xmpp s : g_uri_parse_scheme ("xmpp:" +:+ s) = Some "xmpp";
  escape_chars s : forall_char escaped_char (g_uri_escape_string s) = true;
  escape_kept s : forall_char kept s = true → g_uri_escape_string s = s;
  escape_ne s : s ≠ "" → g_uri_escape_string s ≠ "";
  unescape_kept s : forall_char kept s = true → g_uri_unescape_string s = Some s;
}.

(** ** Gabble *)

Inductive TpError := INVALID_ARGUMENT | NOT_IMPLEMENTED.

Definition addressable_uri_schemes : list string := ["xmpp"].
Definition addressable_vcard_fields : list string := ["x-jabber"; "x-facebook-id"].

Definition gabble_get_addressable_uri_schemes : list string := addressable_uri_schemes.
Definition gabble_get_addressable_vcard_fields : list string := addressable_vcard_fields.

(** The string at the first '@', for [g_str_has_suffix]. *)
Definition has_suffix (s suffix : string) : bool :=
  let n := String.length s in
  let k := String.length suffix in
  (k <=? n)%nat && bool_decide (String.substring (n - k) k s = suffix).

Definition all_digits (s : string) : bool := forall_char g_ascii_isdigit s.

Definition FACEBOOK : string := "@chat.facebook.com".

Section addressing.
Context `{GUri} (g_utf8_strdown g_utf8_normalize : string → string).

Local Abbreviation wocky_decode_jid := (wocky_decode_jid g_utf8_strdown).
Local Abbreviation gabble_encode_jid := (gabble_encode_jid g_utf8_normalize).
(** [gabble_normalize_contact (NULL, jid, GABBLE_JID_GLOBAL)]. *)
Local Abbreviation normalize_global jid :=
  (gabble_normalize_contact g_utf8_strdown g_utf8_normalize None jid GABBLE_JID_GLOBAL).

(** Unescaping a part that may be absent; [None]: it cannot be. *)
Definition unescape_opt (p : option string) : option (option string) :=
  match p with
  | None => Some None
  | Some x => y ← g_uri_unescape_string x; Some (Some y)
  end.

(** [uri + strlen (scheme) + 1]. *)
Definition strip_scheme (uri scheme : string) : string :=
  let n := (String.length scheme + 1)%nat in
  String.substring n (String.length uri - n) uri.

(** The error is always INVALID_ARGUMENT. *)
Definition gabble_parse_xmpp_uri (uri : string) : option (option string * string * option string) :=
  scheme ← g_uri_parse_scheme uri;
  let jid := strip_scheme uri scheme in
  '(tmp_node, tmp_domain, tmp_resource) ← wocky_decode_jid jid;
  unescaped_node ← unescape_opt tmp_node;
  unescaped_domain ← g_uri_unescape_string tmp_domain;
  unescaped_resource ← unescape_opt tmp_resource;
  normalized_jid ← normalize_global
    (gabble_encode_jid unescaped_node unescaped_domain unescaped_resource);
  wocky_decode_jid normalized_jid.

Definition gabble_uri_to_jid (uri : string) : option string * option TpError :=
  match g_uri_parse_scheme uri with
  | None => (None, Some INVALID_ARGUMENT)
  | Some scheme =>
      if strcaseeq scheme "xmpp" then
        match gabble_parse_xmpp_uri uri with
        | Some (node, domain, resource) => (Some (gabble_encode_jid node domain resource), None)
        | None => (None, Some INVALID_ARGUMENT)
        end
      else (None, Some NOT_IMPLEMENTED)
  end.

Definition gabble_jid_to_uri (scheme jid : string) : option string * option TpError :=
  match wocky_decode_jid jid with
  | None => (None, Some INVALID_ARGUMENT)
  | Some (node, domain, resource) =>
      let escaped_jid := gabble_encode_jid (g_uri_escape_string <$> node)
        (g_uri_escape_string domain) (g_uri_escape_string <$> resource) in
      (Some (g_ascii_strdown scheme +:+ ":" +:+ escaped_jid), None)
  end.

Definition gabble_normalize_contact_uri (uri : string) : option string * option TpError :=
  match gabble_uri_to_jid uri with
  | (None, e) => (None, e)
  | (Some normalized_jid, _) =>
      match g_uri_parse_scheme uri with
      | Some scheme => gabble_jid_to_uri scheme normalized_jid
      | None => (None, None)
      end
  end.

Definition gabble_vcard_address_to_jid (vcard_field vcard_address : string) :
    option string * option TpError :=
  if strcaseeq vcard_field "x-jabber" then
    match normalize_global vcard_address with
    | Some j => (Some j, None)
    | None => (None, Some INVALID_ARGUMENT)
    end
  else if strcaseeq vcard_field "x-facebook-id" then
    if all_digits vcard_address then (Some ("-" +:+ vcard_address +:+ FACEBOOK), None)
    else (None, Some INVALID_ARGUMENT)
  else (None, Some NOT_IMPLEMENTED).

(** The part of a Facebook address that should be a number: it is returned
    even when it is not one. *)
Definition facebook_number (address : string) : option string :=
  match address with
  | String c rest =>
      if bool_decide (c = "-"%char) && has_suffix address FACEBOOK
      then fst <$> split_first "@" rest else None
  | EmptyString => None
  end.

Definition gabble_jid_to_vcard_address (vcard_field jid : string) : option string * option TpError :=
  if strcaseeq vcard_field "x-jabber" then
    match normalize_global jid with
    | Some j => (Some j, None)
    | None => (None, Some INVALID_ARGUMENT)
    end
  else if strcaseeq vcard_field "x-facebook-id" then
    match facebook_number (g_ascii_strdown jid) with
    | Some number =>
        (Some number, if all_digits number then None else Some INVALID_ARGUMENT)
    | None => (None, Some INVALID_ARGUMENT)
    end
  else (None, Some NOT_IMPLEMENTED).

Definition gabble_normalize_vcard_address (vcard_field vcard_address : string) :
    option string * option TpError :=
  match gabble_vcard_address_to_jid vcard_field vcard_address with
  | (Some normalized_jid, _) => gabble_jid_to_vcard_address vcard_field normalized_jid
  | (None, e) => (None, e)
  end.

(** *** Handles *)

Context {R : Type} `{!HandleRepo R}.

(** [tp_handle_ensure] of the contact repository, 0 when the JID is refused. *)
Definition ensure_contact (repo : R) (jid : string) : R * Z :=
  match gabble_normalize_contact g_utf8_strdown g_utf8_normalize
          (Some (λ n, negb (tp_handle_lookup repo n =? 0))) jid GABBLE_JID_ANY with
  | None => (repo, 0)
  | Some n => tp_handle_ensure repo n
  end.

Definition gabble_ensure_handle_from_uri (repo : R) (uri : string) : R * Z :=
  match (gabble_uri_to_jid uri).1 with
  | None => (repo, 0)
  | Some jid => ensure_contact repo jid
  end.

Definition gabble_ensure_handle_from_vcard_address (repo : R) (vcard_field vcard_address : string) :
    R * Z :=
  match (gabble_vcard_address_to_jid vcard_field vcard_address).1 with
  | None => (repo, 0)
  | Some jid => ensure_contact repo jid
  end.

Definition gabble_vcard_address_for_handle (repo : R) (vcard_field : string) (contact : Z) :
    option string :=
  identifier ← tp_handle_inspect repo contact;
  (gabble_jid_to_vcard_address vcard_field identifier).1.

Definition gabble_uri_for_handle (repo : R) (scheme : string) (contact : Z) : option string :=
  identifier ← tp_handle_inspect repo contact; (gabble_jid_to_uri scheme identifier).1.

Definition gabble_uris_for_handle (repo : R) (contact : Z) : list string :=
  omap (λ scheme, gabble_uri_for_handle repo scheme contact) addressable_uri_schemes.

Definition gabble_vcard_addresses_for_handle (repo : R) (contact : Z) : gmap string string :=
  foldl (λ m field, match gabble_vcard_address_for_handle repo field contact with
                    | Some a => <[field := a]> m
                    | None => m
                    end) ∅ addressable_vcard_fields.

End addressing.

(** Domains that need no escaping: no port, no address literal. *)
Definition plain_char (c : ascii) : bool := g_ascii_isalnum c || strchr "-." c || (128 <=? code c)%nat.
Definition plain_domain (d : string) : bool := forall_char plain_char d.

Lemma forall_char_impl (p q : ascii → bool) s :
  (∀ c, p c = true → q c = true) → forall_char p s = true → forall_char q s = true.
Proof.
  intros Hpq. induction s as [|c s IH]; [done|]. cbn. intros [Hc Hs]%andb_true_iff.
  by rewrite (Hpq c Hc), IH.
Qed.

(** An implication between sets of characters, checked on all of them. *)
Lemma ascii_impl (p q : ascii → bool) :
  forallb (λ c, implb (p c) (q c)) (ascii_of_nat <$> List.seq 0 256) = true →
  ∀ c, p c = true → q c = true.
Proof. intros Hall c Hc. pose proof (all_ascii _ Hall c) as Hi. cbv beta in Hi. by rewrite Hc in Hi. Qed.

Lemma plain_domain_valid d : plain_domain d = true → validate_jid_domain d = true.
Proof. apply forall_char_impl, ascii_impl. by vm_compute. Qed.

Lemma plain_domain_kept d : plain_domain d = true → forall_char kept d = true.
Proof. apply forall_char_impl, ascii_impl. by vm_compute. Qed.

Section round_trips.
Context `{GUriLaws} (strdown norm : string → string).

(** Lower-casing a string in lower case that is escaped changes only the
    hexadecimal digits, whose case does not matter. *)
Context (unescape_down : ∀ s, strdown s = s → no_nul s = true →
  g_uri_unescape_string (strdown (g_uri_escape_string s)) = Some s).

Lemma escape_valid_node s : validate_jid_node (g_uri_escape_string s) = true.
Proof.
  eapply forall_char_impl; [|apply escape_chars]. apply ascii_impl. by vm_compute.
Qed.

Lemma strip_xmpp s : strip_scheme ("xmpp:" +:+ s) "xmpp" = s.
Proof.
  unfold strip_scheme. cbv zeta. rewrite str_length_app.
  change (String.length "xmpp" + 1)%nat with (String.length "xmpp:").
  replace (String.length "xmpp:" + String.length s - String.length "xmpp:")%nat
    with (String.length s) by lia.
  apply str_substring_app.
Qed.

Lemma global_normal n d :
  n ≠ "" → validate_jid_node n = true → d ≠ "" → validate_jid_domain d = true →
  strdown n = n → strdown d = d → norm (n +:+ "@" +:+ d) = n +:+ "@" +:+ d →
  wocky_decode_jid strdown (n +:+ "@" +:+ d) = Some (Some n, d, None) ∧
  gabble_normalize_contact strdown norm None (n +:+ "@" +:+ d) GABBLE_JID_GLOBAL =
    Some (n +:+ "@" +:+ d).
Proof.
  intros Hn Hvn Hd Hvd Hsn Hsd Hnorm.
  assert (Hv : valid_parts (Some n) d None).
  { split; [done|done| |done]. intros x [= <-]. done. }
  pose proof (decode_compose strdown _ _ _ Hv) as Hdec. rewrite compose_valid in Hdec by done.
  cbn [bare fmap option_fmap option_map] in Hdec. rewrite Hsn, Hsd in Hdec.
  split; [done|]. unfold gabble_normalize_contact. rewrite Hdec. cbn.
  unfold gabble_encode_jid. by rewrite Hnorm.
Qed.

(** The URI made for a contact names that contact: turned back it gives the
    contact's JID, and it is already in normal form.  It holds of every
    contact in normal form whose server's name has no port and is not an
    address, whatever characters are in the node. *)
Theorem uri_round_trip n d :
  n ≠ "" → validate_jid_node n = true → no_nul n = true → d ≠ "" → plain_domain d = true →
  strdown n = n → strdown d = d →
  norm (n +:+ "@" +:+ d) = n +:+ "@" +:+ d →
  norm (g_uri_escape_string n +:+ "@" +:+ d) = g_uri_escape_string n +:+ "@" +:+ d →
  ∃ uri, gabble_jid_to_uri strdown norm "xmpp" (n +:+ "@" +:+ d) = (Some uri, None) ∧
    gabble_uri_to_jid strdown norm uri = (Some (n +:+ "@" +:+ d), None) ∧
    gabble_normalize_contact_uri strdown norm uri = (Some uri, None).
Proof.
  intros Hn Hvn Hnul Hd Hpd Hsn Hsd Hnorm Hnorm'. pose proof (plain_domain_valid d Hpd) as Hvd.
  destruct (global_normal n d Hn Hvn Hd Hvd Hsn Hsd Hnorm) as [Hdec Hglob].
  set (uri := "xmpp:" +:+ g_uri_escape_string n +:+ "@" +:+ d).
  assert (Hto : ∀ sch, g_ascii_strdown sch = "xmpp" →
    gabble_jid_to_uri strdown norm sch (n +:+ "@" +:+ d) = (Some uri, None)).
  { intros sch Hsch. unfold gabble_jid_to_uri. rewrite Hdec. cbn.
    unfold gabble_encode_jid. by rewrite (escape_kept d (plain_domain_kept d Hpd)), Hnorm', Hsch. }
  assert (Hfrom : gabble_uri_to_jid strdown norm uri = (Some (n +:+ "@" +:+ d), None)).
  { unfold gabble_uri_to_jid, gabble_parse_xmpp_uri.
    unfold uri. rewrite parse_scheme_xmpp. cbn [mbind option_bind]. cbv zeta. rewrite strip_xmpp.
    assert (Hv : valid_parts (Some (g_uri_escape_string n)) d None).
    { split; [done|done| |done]. intros x [= <-]. split; [by apply escape_ne|by apply escape_valid_node]. }
    pose proof (decode_compose strdown _ _ _ Hv) as Hdec'. rewrite compose_valid in Hdec' by done.
    cbn [bare fmap option_fmap option_map] in Hdec'. rewrite Hdec', Hsd.
    change (strcaseeq "xmpp" "xmpp") with true. cbn [mbind option_bind unescape_opt].
    rewrite (unescape_down n Hsn Hnul), (unescape_kept d (plain_domain_kept d Hpd)). cbn [mbind option_bind].
    unfold gabble_encode_jid. rewrite Hnorm, Hglob. cbn [mbind option_bind].
    by rewrite Hdec, Hnorm. }
  exists uri. split; [by apply Hto|]. split; [done|].
  unfold gabble_normalize_contact_uri. rewrite Hfrom.
  unfold uri at 1. rewrite parse_scheme_xmpp. by apply Hto.
Qed.
End round_trips.

(** ** An implementation (RFC 3986) *)
Module Rfc3986.

(** The characters of a scheme after the first, up to the colon. *)
Fixpoint scheme_rest (s : string) : option string :=
  match s with
  | EmptyString => None
  | String c s' =>
      if bool_decide (c = ":"%char) then Some EmptyString
      else if g_ascii_isalnum c || strchr "+-." c then
        a ← scheme_rest s'; Some (String c a)
      else None
  end.

Definition parse_scheme (uri : string) : option string :=
  match uri with
  | EmptyString => None
  | String c s => if g_ascii_isalpha c then a ← scheme_rest s; Some (String c a) else None
  end.

Definition hex_digit (n : nat) : ascii :=
  if (n <? 10)%nat then ascii_of_nat (48 + n) else ascii_of_nat (55 + n).

Fixpoint escape (s : string) : string :=
  match s with
  | EmptyString => EmptyString
  | String c s' =>
      if kept c then String c (escape s')
      else String "%" (String (hex_digit (code c / 16))
             (String (hex_digit (code c mod 16)) (escape s')))
  end.

Definition g_ascii_xdigit_value (c : ascii) : option nat :=
  let n := code c in
  if ((48 <=? n) && (n <=? 57))%nat then Some (n - 48)%nat
  else if ((65 <=? n) && (n <=? 70))%nat then Some (n - 55)%nat
  else if ((97 <=? n) && (n <=? 102))%nat then Some (n - 87)%nat
  else None.

(** [None]: a percent sign not followed by two hexadecimal digits, or %00. *)
Fixpoint unescape (s : string) : option string :=
  match s with
  | EmptyString => Some EmptyString
  | String c s' =>
      if bool_decide (c = "%"%char) then
        match s' with
        | String a (String b s'') =>
            x ← g_ascii_xdigit_value a;
            y ← g_ascii_xdigit_value b;
            if (16 * x + y =? 0)%nat then None
            else r ← unescape s''; Some (String (ascii_of_nat (16 * x + y)) r)
        | _ => None
        end
      else r ← unescape s'; Some (String c r)
  end.

Definition lower_hex_digit (n : nat) : ascii := ascii_down (hex_digit n).

(** What is left of an escaped string after lower-casing it. *)
Fixpoint escape_lower (s : string) : string :=
  match s with
  | EmptyString => EmptyString
  | String c s' =>
      if kept c then String c (escape_lower s')
      else String "%" (String (lower_hex_digit (code c / 16))
             (String (lower_hex_digit (code c mod 16)) (escape_lower s')))
  end.

Lemma hex_read c :
  g_ascii_xdigit_value (lower_hex_digit (code c / 16)) = Some (code c / 16)%nat ∧
  g_ascii_xdigit_value (lower_hex_digit (code c mod 16)) = Some (code c mod 16)%nat.
Proof.
  pose proof (all_ascii (λ c,
    bool_decide (g_ascii_xdigit_value (lower_hex_digit (code c / 16)) = Some (code c / 16)%nat) &&
    bool_decide (g_ascii_xdigit_value (lower_hex_digit (code c mod 16)) = Some (code c mod 16)%nat)))
    as Hall.
  specialize (Hall ltac:(by vm_compute) c). cbv beta in Hall.
  apply andb_true_iff in Hall as [H1 H2]. by apply bool_decide_eq_true in H1, H2.
Qed.

Lemma plain_not_percent c : kept c = true → c ≠ "%"%char.
Proof. by intros Hc ->. Qed.

Lemma unescape_other c s : c ≠ "%"%char →
  unescape (String c s) = String c <$> unescape s.
Proof.
  intros Hc. cbn [unescape]. rewrite bool_decide_eq_false_2 by done.
  by destruct (unescape s).
Qed.

Lemma unescape_escape s : no_nul s = true → unescape (escape_lower s) = Some s.
Proof.
  induction s as [|c s IH]; [done|]. cbn [no_nul forall_char escape_lower].
  unfold no_nul. cbn [forall_char]. intros [Hc Hs]%andb_true_iff.
  destruct (kept c) eqn:E.
  - apply plain_not_percent in E. rewrite unescape_other by done. by rewrite IH.
  - cbn [unescape]. rewrite bool_decide_eq_true_2 by done.
    destruct (hex_read c) as [-> ->]. cbn [mbind option_bind].
    rewrite <-(Nat.div_mod_eq (code c) 16). apply negb_true_iff in Hc. rewrite Hc.
    rewrite IH by done. cbn [mbind option_bind]. unfold code. by rewrite ascii_nat_embedding.
Qed.

Lemma escape_same s : forall_char kept s = true → escape s = s.
Proof.
  induction s as [|c s IH]; [done|]. cbn [forall_char escape]. intros [-> Hs]%andb_true_iff.
  by rewrite IH.
Qed.

Lemma unescape_same s : forall_char kept s = true → unescape s = Some s.
Proof.
  induction s as [|c s IH]; [done|]. cbn [forall_char]. intros [Hc Hs]%andb_true_iff.
  rewrite unescape_other by (by apply plain_not_percent). by rewrite IH.
Qed.

Lemma escape_escaped s : forall_char escaped_char (escape s) = true.
Proof.
  induction s as [|c s IH]; [done|]. cbn [escape].
  destruct (kept c) eqn:E; cbn [forall_char]; rewrite IH.
  - unfold escaped_char. by rewrite E.
  - pose proof (all_ascii (λ c, escaped_char (hex_digit (code c / 16)) &&
      escaped_char (hex_digit (code c mod 16))) ltac:(by vm_compute) c) as Hh.
    cbv beta in Hh. by apply andb_true_iff in Hh as [-> ->].
Qed.

#[global] Instance rfc3986 : GUri := {|
  g_uri_parse_scheme := parse_scheme;
  g_uri_escape_string := escape;
  g_uri_unescape_string := unescape |}.

#[global] Instance rfc3986_laws : GUriLaws.
Proof.
  split.
  - done.
  - exact escape_escaped.
  - exact escape_same.
  - intros [|c s]; [done|]. cbn [g_uri_escape_string rfc3986 escape]. by destruct (kept c).
  - exact unescape_same.
Qed.

Lemma string_down_escape s : string_down s = s → string_down (escape s) = escape_lower s.
Proof.
  induction s as [|c s IH]; [done|]. cbn [string_down]. intros [= Hc Hs].
  cbn [escape escape_lower]. destruct (kept c); cbn [string_down].
  - by rewrite Hc, IH.
  - by rewrite IH.
Qed.

Lemma unescape_string_down s : string_down s = s → no_nul s = true →
  g_uri_unescape_string (string_down (g_uri_escape_string s)) = Some s.
Proof. intros Hs Hn. cbn. rewrite string_down_escape by done. by apply unescape_escape. Qed.
End Rfc3986.
Import Rfc3986.

Lemma uri_round_trip_witness :
  ∃ uri, gabble_jid_to_uri string_down id "xmpp" "50%.off?@shop.lit" = (Some uri, None) ∧
    gabble_uri_to_jid string_down id uri = (Some "50%.off?@shop.lit", None) ∧
    gabble_normalize_contact_uri string_down id uri = (Some uri, None).
Proof.
  apply (uri_round_trip string_down id unescape_string_down "50%.off?" "shop.lit"); by vm_compute.
Defined.

(** ** Facebook contacts *)

Lemma down_digits x : all_digits x = true → string_down x = x.
Proof.
  induction x as [|c x IH]; [done|]. unfold all_digits. cbn [forall_char string_down].
  intros [Hc Hx]%andb_true_iff. rewrite IH by done.
  pose proof (ascii_impl g_ascii_isdigit (λ c, bool_decide (ascii_down c = c)) ltac:(by vm_compute) c Hc)
    as Hd. cbv beta in Hd. apply bool_decide_eq_true in Hd. by rewrite Hd.
Qed.

Lemma string_down_app a b : string_down (a +:+ b) = string_down a +:+ string_down b.
Proof.
  induction a as [|c a IH]; [done|]. rewrite str_cons_app. cbn [string_down].
  by rewrite IH, str_cons_app.
Qed.

Lemma has_suffix_app a b : has_suffix (a +:+ b) b = true.
Proof.
  unfold has_suffix. rewrite str_length_app.
  replace (String.length a + String.length b - String.length b)%nat with (String.length a) by lia.
  rewrite str_substring_app. rewrite bool_decide_eq_true_2 by done.
  rewrite andb_true_r. apply Nat.leb_le. lia.
Qed.

Lemma facebook_number_digits x : all_digits x = true → facebook_number ("-" +:+ x +:+ FACEBOOK) = Some x.
Proof.
  intros Hx. unfold facebook_number.
  change ("-" +:+ x +:+ FACEBOOK) with (String "-" (x +:+ FACEBOOK)).
  cbv beta iota. change (String "-" (x +:+ FACEBOOK)) with (String "-" x +:+ FACEBOOK).
  rewrite has_suffix_app, bool_decide_eq_true_2 by done. cbn [andb].
  change FACEBOOK with (String "@" "chat.facebook.com").
  rewrite split_first_app; [done|].
  eapply forall_char_split; [|exact Hx]. done.
Qed.

(** The number of a Facebook contact comes back from its JID, and every
    address that is a number is in normal form. *)
Theorem facebook_round_trip strdown norm x : all_digits x = true →
  gabble_vcard_address_to_jid strdown norm "x-facebook-id" x = (Some ("-" +:+ x +:+ FACEBOOK), None) ∧
  gabble_normalize_vcard_address strdown norm "X-Facebook-ID" x = (Some x, None).
Proof.
  intros Hx. unfold gabble_normalize_vcard_address, gabble_vcard_address_to_jid.
  rewrite Hx. split; [done|]. unfold gabble_jid_to_vcard_address.
  change (strcaseeq "X-Facebook-ID" "x-jabber") with false.
  change (strcaseeq "X-Facebook-ID" "x-facebook-id") with true. cbv iota.
  unfold g_ascii_strdown. rewrite string_down_app, string_down_app, (down_digits x Hx).
  change (string_down "-") with "-". change (string_down FACEBOOK) with FACEBOOK.
  by rewrite (facebook_number_digits x Hx), Hx.
Qed.

(** ** Where it does not hold *)

(** The unescaped parts are pasted together and parsed again: an escaped
    '@' or '/' in a node moves the boundary between the parts, and the URI
    names a contact on another server. *)
Lemma uri_names_other_contact :
  gabble_uri_to_jid string_down id "xmpp:romeo%40evil.lit%2F@montague.lit" =
    (Some "romeo@evil.lit", None).
Proof. by vm_compute. Qed.

(** A server with a port: its colon is escaped, and the URI is refused. *)
Lemma uri_with_port_refused :
  gabble_jid_to_uri string_down id "xmpp" "romeo@montague.lit:5222" =
    (Some "xmpp:romeo@montague.lit%3A5222", None) ∧
  gabble_uri_to_jid string_down id "xmpp:romeo@montague.lit%3A5222" = (None, Some INVALID_ARGUMENT).
Proof. by vm_compute. Qed.

(** An address that is not a number is returned together with an error. *)
Lemma facebook_result_and_error :
  gabble_jid_to_vcard_address string_down id "x-facebook-id" "-romeo@chat.facebook.com" =
    (Some "romeo", Some INVALID_ARGUMENT).
Proof. by vm_compute. Qed.
End Addressing.
