(* ===== verification/XmppError.v ===== *)
(** * Stanza errors (lib/ext/wocky/wocky/wocky-xmpp-error.c)

    The errors a stanza can carry: writing one to an <error/> node and reading
    one back, with the numeric codes of older peers and the conditions other
    protocols add.  [error_domains] is the list of registered domains, an
    argument of the functions that look in it; an enumeration type is the list
    of its nicks, a code is the position in it. *)

From S2P Require Import Prelude Node.

Module XmppError.

(** ** Data *)

Inductive WockyXmppErrorType :=
  | TYPE_CANCEL | TYPE_CONTINUE | TYPE_MODIFY | TYPE_AUTH | TYPE_WAIT.
#[global] Instance WockyXmppErrorType_eq_dec : EqDecision WockyXmppErrorType.
Proof. solve_decision. Defined.

(** WOCKY_XMPP_ERROR_... *)
Inductive WockyXmppError :=
  | UNDEFINED_CONDITION | REDIRECT | GONE | BAD_REQUEST | UNEXPECTED_REQUEST | JID_MALFORMED
  | NOT_AUTHORIZED | PAYMENT_REQUIRED | FORBIDDEN | ITEM_NOT_FOUND | RECIPIENT_UNAVAILABLE
  | REMOTE_SERVER_NOT_FOUND | NOT_ALLOWED | NOT_ACCEPTABLE | REGISTRATION_REQUIRED
  | SUBSCRIPTION_REQUIRED | REMOTE_SERVER_TIMEOUT | CONFLICT | INTERNAL_SERVER_ERROR
  | RESOURCE_CONSTRAINT | FEATURE_NOT_IMPLEMENTED | SERVICE_UNAVAILABLE | POLICY_VIOLATION.
#[global] Instance WockyXmppError_eq_dec : EqDecision WockyXmppError.
Proof. solve_decision. Defined.

Definition NS_STANZAS : string := "urn:ietf:params:xml:ns:xmpp-stanzas".
Definition NS_JINGLE_ERRORS : string := "urn:xmpp:jingle:errors:1".
Definition NS_SI : string := "http://jabber.org/protocol/si".

(** The enumeration, in its order, with the nicks of its values. *)
Definition xmpp_error_nicks : list (WockyXmppError * string) :=
  [(UNDEFINED_CONDITION, "undefined-condition"); (REDIRECT, "redirect"); (GONE, "gone");
   (BAD_REQUEST, "bad-request"); (UNEXPECTED_REQUEST, "unexpected-request");
   (JID_MALFORMED, "jid-malformed"); (NOT_AUTHORIZED, "not-authorized");
   (PAYMENT_REQUIRED, "payment-required"); (FORBIDDEN, "forbidden");
   (ITEM_NOT_FOUND, "item-not-found"); (RECIPIENT_UNAVAILABLE, "recipient-unavailable");
   (REMOTE_SERVER_NOT_FOUND, "remote-server-not-found"); (NOT_ALLOWED, "not-allowed");
   (NOT_ACCEPTABLE, "not-acceptable"); (REGISTRATION_REQUIRED, "registration-required");
   (SUBSCRIPTION_REQUIRED, "subscription-required");
   (REMOTE_SERVER_TIMEOUT, "remote-server-timeout"); (CONFLICT, "conflict");
   (INTERNAL_SERVER_ERROR, "internal-server-error"); (RESOURCE_CONSTRAINT, "resource-constraint");
   (FEATURE_NOT_IMPLEMENTED, "feature-not-implemented");
   (SERVICE_UNAVAILABLE, "service-unavailable"); (POLICY_VIOLATION, "policy-violation")].

Definition error_type_nicks : list (WockyXmppErrorType * string) :=
  [(TYPE_CANCEL, "cancel"); (TYPE_CONTINUE, "continue"); (TYPE_MODIFY, "modify");
   (TYPE_AUTH, "auth"); (TYPE_WAIT, "wait")].

(** [wocky_enum_to_nick] and [wocky_enum_from_nick]. *)
Definition to_nick {A} `{EqDecision A} (l : list (A * string)) (v : A) : option string :=
  snd <$> List.find (λ p, bool_decide (fst p = v)) l.
Definition from_nick {A} (l : list (A * string)) (nick : string) : option A :=
  fst <$> List.find (λ p, bool_decide (snd p = nick)) l.

Record XmppErrorSpec := mkSpec { spec_type : WockyXmppErrorType; legacy_errors : list Z }.

(** The table, up to the zeros the arrays are filled with. *)
Definition xmpp_errors (e : WockyXmppError) : XmppErrorSpec :=
  match e with
  | UNDEFINED_CONDITION => mkSpec TYPE_CANCEL [500]
  | REDIRECT => mkSpec TYPE_MODIFY [302]
  | GONE => mkSpec TYPE_MODIFY [302]
  | BAD_REQUEST => mkSpec TYPE_MODIFY [400]
  | UNEXPECTED_REQUEST => mkSpec TYPE_WAIT [400]
  | JID_MALFORMED => mkSpec TYPE_MODIFY [400]
  | NOT_AUTHORIZED => mkSpec TYPE_AUTH [401]
  | PAYMENT_REQUIRED => mkSpec TYPE_AUTH [402]
  | FORBIDDEN => mkSpec TYPE_AUTH [403]
  | ITEM_NOT_FOUND => mkSpec TYPE_CANCEL [404]
  | RECIPIENT_UNAVAILABLE => mkSpec TYPE_WAIT [404]
  | REMOTE_SERVER_NOT_FOUND => mkSpec TYPE_CANCEL [404]
  | NOT_ALLOWED => mkSpec TYPE_CANCEL [405]
  | NOT_ACCEPTABLE => mkSpec TYPE_MODIFY [406]
  | REGISTRATION_REQUIRED => mkSpec TYPE_AUTH [407]
  | SUBSCRIPTION_REQUIRED => mkSpec TYPE_AUTH [407]
  | REMOTE_SERVER_TIMEOUT => mkSpec TYPE_WAIT [504; 408]
  | CONFLICT => mkSpec TYPE_CANCEL [409]
  | INTERNAL_SERVER_ERROR => mkSpec TYPE_WAIT [500]
  | RESOURCE_CONSTRAINT => mkSpec TYPE_WAIT [500]
  | FEATURE_NOT_IMPLEMENTED => mkSpec TYPE_CANCEL [501]
  | SERVICE_UNAVAILABLE => mkSpec TYPE_CANCEL [503; 502; 510]
  | POLICY_VIOLATION => mkSpec TYPE_MODIFY [406]
  end.

(** [specialized_type]: the type it overrides the other one's with. *)
Record WockyXmppErrorSpecialization := mkSpecialization {
  specializes : WockyXmppError;
  specialized_type : option WockyXmppErrorType;
}.

Record WockyXmppErrorDomain := mkDomain {
  domain : string;
  enum_type : list string;
  codes : list WockyXmppErrorSpecialization;
}.

(** A [GError]: of the domain WOCKY_XMPP_ERROR, or of another. *)
Inductive GError :=
  | CoreError (code : WockyXmppError) (message : string)
  | DomainError (d : string) (code : nat) (message : string).

(** ** The registered domains *)

Definition jingle_error_get_domain : WockyXmppErrorDomain :=
  mkDomain NS_JINGLE_ERRORS ["out-of-order"; "tie-break"; "unknown-session"; "unsupported-info"]
    [mkSpecialization UNEXPECTED_REQUEST None; mkSpecialization CONFLICT None;
     mkSpecialization ITEM_NOT_FOUND None; mkSpecialization FEATURE_NOT_IMPLEMENTED None].

Definition si_error_get_domain : WockyXmppErrorDomain :=
  mkDomain NS_SI ["no-valid-streams"; "bad-profile"]
    [mkSpecialization BAD_REQUEST (Some TYPE_CANCEL);
     mkSpecialization BAD_REQUEST (Some TYPE_MODIFY)].

Definition wocky_xmpp_error_register_domain (error_domains : list WockyXmppErrorDomain)
    (d : WockyXmppErrorDomain) : list WockyXmppErrorDomain := d :: error_domains.

Definition wocky_xmpp_error_init (error_domains : list WockyXmppErrorDomain) :
    list WockyXmppErrorDomain :=
  match error_domains with
  | [] => wocky_xmpp_error_register_domain
            (wocky_xmpp_error_register_domain [] jingle_error_get_domain) si_error_get_domain
  | _ => error_domains
  end.

Definition xmpp_error_find_domain (error_domains : list WockyXmppErrorDomain) (d : string) :
    option WockyXmppErrorDomain :=
  List.find (λ x, bool_decide (domain x = d)) error_domains.

Fixpoint index_of (nick : string) (l : list string) : option nat :=
  match l with
  | [] => None
  | n :: l' => if bool_decide (n = nick) then Some O else S <$> index_of nick l'
  end.

(** ** Reading *)

Definition atoi (s : string) : Z := swrap 32 (strtol s).1.

(** Every value but the first has a chance. *)
Definition xmpp_error_from_code (error_node : WockyNode) : WockyXmppError * WockyXmppErrorType :=
  match wocky_node_get_attribute error_node "code" with
  | None => (UNDEFINED_CONDITION, TYPE_CANCEL)
  | Some code =>
      match List.find (λ p, bool_decide (atoi code ∈ legacy_errors (xmpp_errors (fst p))))
              (tail xmpp_error_nicks) with
      | Some (e, _) => (e, spec_type (xmpp_errors e))
      | None => (UNDEFINED_CONDITION, TYPE_CANCEL)
      end
  end.

(** What the loop over the children has found. *)
Record Scan := mkScan {
  core_code : option WockyXmppError;
  text : option string;
  special : option (WockyNode * option (string * nat));
}.

Definition scan_child (error_domains : list WockyXmppErrorDomain) (s : Scan) (child : WockyNode) :
    Scan :=
  if bool_decide (ns child = Some NS_STANZAS) then
    if bool_decide (name child = "text") then mkScan (core_code s) (content child) (special s)
    else
      match core_code s with
      | Some _ => s
      | None => mkScan (from_nick xmpp_error_nicks (name child)) (text s) (special s)
      end
  else
    match special s with
    | Some _ => s
    | None =>
        mkScan (core_code s) (text s)
          (Some (child,
             d ← ns child ≫= xmpp_error_find_domain error_domains;
             c ← index_of (name child) (enum_type d);
             Some (domain d, c)))
    end.

Record Extracted := mkExtracted {
  x_type : WockyXmppErrorType;
  x_core : WockyXmppError * string;
  x_specialized : option (string * nat * string);
  x_node : option WockyNode;
}.

Definition wocky_xmpp_error_extract (error_domains : list WockyXmppErrorDomain)
    (error : WockyNode) : Extracted :=
  let ty := wocky_node_get_attribute error "type" ≫= from_nick error_type_nicks in
  let s := foldl (scan_child error_domains) (mkScan None None None) (children error) in
  let message := default EmptyString (text s) in
  let '(code, ty) :=
    match core_code s with
    | Some e => (e, default TYPE_CANCEL ty)
    | None => let '(e, t) := xmpp_error_from_code error in (e, default t ty)
    end in
  mkExtracted ty (code, message)
    ('(_, c) ← special s; '(d, n) ← c; Some (d, n, message)) (fst <$> special s).

(** [wocky_stanza_extract_errors]: [None] when the stanza is no error. *)
Definition wocky_stanza_extract_errors (error_domains : list WockyXmppErrorDomain)
    (stanza : WockyNode) : option Extracted :=
  if bool_decide (wocky_node_get_attribute stanza "type" = Some "error") then
    Some (match wocky_node_get_child stanza "error" with
          | None =>
              mkExtracted TYPE_CANCEL
                (UNDEFINED_CONDITION, "stanza had type='error' but no <error/> node") None None
          | Some error => wocky_xmpp_error_extract error_domains error
          end)
  else None.

(** ** Writing *)

(** What is written of an error: the core condition, the type, and the
    condition it specializes it to.  [None]: the domain is not registered;
    [MemoryFault]: the code is not one of the domain's. *)
Definition error_parts (error_domains : list WockyXmppErrorDomain) (error : GError) :
    outcome (option (WockyXmppError * WockyXmppErrorType * option (string * string) * string)) :=
  match error with
  | CoreError e m => Ok (Some (e, spec_type (xmpp_errors e), None, m))
  | DomainError d code m =>
      match xmpp_error_find_domain error_domains d with
      | None => Ok None
      | Some dom =>
          match codes dom !! code, enum_type dom !! code with
          | Some s, Some nick =>
              Ok (Some (specializes s,
                        default (spec_type (xmpp_errors (specializes s))) (specialized_type s),
                        Some (nick, domain dom), m))
          | _, _ => Abort MemoryFault
          end
      end
  end.

Definition child_ns (n : WockyNode) (nm : string) (s : string) : WockyNode :=
  set_children n (children n ++ [mkNode nm None (Some s) [] []]).

(** The parent with its new <error/>. *)
Definition wocky_stanza_error_to_node (error_domains : list WockyXmppErrorDomain)
    (error : GError) (parent_node : WockyNode) : outcome WockyNode :=
  let n := mkNode "error" None (ns parent_node) [] [] in
  match error_parts error_domains error with
  | Abort r => Abort r
  | Ok None => Ok (set_children parent_node (children parent_node ++ [n]))
  | Ok (Some (core_error, ty, specialized, message)) =>
      let n := wocky_node_set_attribute n "code"
                 (pretty (default 0 (head (legacy_errors (xmpp_errors core_error))))) in
      let n := wocky_node_set_attribute n "type" (default EmptyString (to_nick error_type_nicks ty)) in
      let n := child_ns n (default EmptyString (to_nick xmpp_error_nicks core_error)) NS_STANZAS in
      let n := match specialized with Some (nick, d) => child_ns n nick d | None => n end in
      let n := if bool_decide (message = EmptyString) then n
               else wocky_node_add_child_with_content_ns n "text" (Some message) (Some NS_STANZAS) in
      Ok (set_children parent_node (children parent_node ++ [n]))
  end.

(** ** Round trip *)

Lemma error_nick_read e : ∃ n, to_nick xmpp_error_nicks e = Some n ∧
  from_nick xmpp_error_nicks n = Some e ∧ n ≠ "text".
Proof. destruct e; eexists; (split; [reflexivity|]); done. Qed.

Lemma type_nick_read t : ∃ n, to_nick error_type_nicks t = Some n ∧
  from_nick error_type_nicks n = Some t.
Proof. destruct t; eexists; (split; [reflexivity|]); done. Qed.

Lemma index_of_lookup l n k : NoDup l → l !! k = Some n → index_of n l = Some k.
Proof.
  intros Hnd. revert k. induction Hnd as [|x l Hx Hnd IH]; intros [|k] Hk; try done; cbn in *.
  - injection Hk as ->. by rewrite bool_decide_eq_true_2.
  - rewrite bool_decide_eq_false_2, (IH k Hk); [done|]. intros ->.
    apply Hx. by apply list_elem_of_lookup_2 in Hk.
Qed.

(** A domain other than that of the core errors, whose nicks are distinct. *)
Definition domain_ok (d : WockyXmppErrorDomain) : Prop :=
  domain d ≠ NS_STANZAS ∧ NoDup (enum_type d).

Lemma find_domain_inv ds n d :
  xmpp_error_find_domain ds n = Some d → d ∈ ds ∧ domain d = n.
Proof. intros [Hin Hn]%find_Some_elem. split; [done|]. by apply bool_decide_eq_true in Hn. Qed.

(** What an error says: the condition, how to go on, and the condition of its
    own domain. *)
Definition error_says (error_domains : list WockyXmppErrorDomain) (error : GError) (x : Extracted) :
    Prop :=
  match error with
  | CoreError e m =>
      x_core x = (e, m) ∧ x_type x = spec_type (xmpp_errors e) ∧ x_specialized x = None
  | DomainError d code m =>
      ∃ dom s, xmpp_error_find_domain error_domains d = Some dom ∧ codes dom !! code = Some s ∧
        x_core x = (specializes s, m) ∧
        x_type x = default (spec_type (xmpp_errors (specializes s))) (specialized_type s) ∧
        x_specialized x = Some (d, code, m)
  end.

(** An error that can be sent: its domain is registered and has the code. *)
Definition error_known (error_domains : list WockyXmppErrorDomain) (error : GError) : Prop :=
  match error with
  | CoreError _ _ => True
  | DomainError d code _ =>
      ∃ dom, xmpp_error_find_domain error_domains d = Some dom ∧
        is_Some (codes dom !! code) ∧ is_Some (enum_type dom !! code)
  end.

(** Reading a node with these children. *)
Lemma extract_written ds code ty tn en e (specialized : option (string * string * nat)) m :
  from_nick error_type_nicks tn = Some ty → from_nick xmpp_error_nicks en = Some e → en ≠ "text" →
  (∀ nick d k, specialized = Some (nick, d, k) →
    d ≠ NS_STANZAS ∧ ∃ dom, xmpp_error_find_domain ds d = Some dom ∧ domain dom = d ∧
                           index_of nick (enum_type dom) = Some k) →
  let x := wocky_xmpp_error_extract ds
    (mkNode "error" None code [mkAttribute "code" m.1 None; mkAttribute "type" tn None]
       ([mkNode en None (Some NS_STANZAS) [] []] ++
        match specialized with Some (nick, d, _) => [mkNode nick None (Some d) [] []] | None => [] end ++
        if bool_decide (m.2 = EmptyString) then []
        else [mkNode "text" (Some m.2) (Some NS_STANZAS) [] []])) in
  x_type x = ty ∧ x_core x = (e, m.2) ∧
  x_specialized x = (λ p, (p.1.2, p.2, m.2)) <$> specialized.
Proof.
  intros Hty He Hne Hs. unfold wocky_xmpp_error_extract. cbn [children].
  change (wocky_node_get_attribute _ "type") with (Some tn). cbn [mbind option_bind]. rewrite Hty.
  assert (H1 : ∀ l, foldl (scan_child ds) (mkScan None None None)
      (mkNode en None (Some NS_STANZAS) [] [] :: l) =
      foldl (scan_child ds) (mkScan (Some e) None None) l).
  { intros l. cbn [foldl]. unfold scan_child at 2. cbn [ns name].
    rewrite bool_decide_eq_true_2, bool_decide_eq_false_2, He by done. done. }
  cbn [app]. rewrite H1.
  destruct specialized as [[[nick d] k]|].
  - destruct (Hs nick d k eq_refl) as (Hd & dom & Hf & Hdom & Hk).
    assert (H2 : scan_child ds (mkScan (Some e) None None) (mkNode nick None (Some d) [] []) =
      mkScan (Some e) None (Some (mkNode nick None (Some d) [] [], Some (d, k)))).
    { unfold scan_child. cbn [ns name special core_code text].
      rewrite bool_decide_eq_false_2 by congruence. cbn [mbind option_bind]. rewrite Hf.
      cbn [mbind option_bind]. by rewrite Hk, Hdom. }
    cbn [app foldl]. rewrite H2. case_bool_decide as Hm; cbn; rewrite ?Hm; done.
  - case_bool_decide as Hm; cbn; rewrite ?Hm; done.
Qed.

(** An error that is written to a stanza and read back is the same error: the
    condition, how to go on, the text, and for errors of other registered
    domains (Jingle, stream initiation and those of applications) the domain
    and the code in it. *)
Theorem stanza_error_round_trip ds error parent :
  Forall domain_ok ds → error_known ds error →
  ∃ n, wocky_stanza_error_to_node ds error parent =
         Ok (set_children parent (children parent ++ [n])) ∧
       name n = "error" ∧ error_says ds error (wocky_xmpp_error_extract ds n).
Proof.
  intros Hok Hk. unfold wocky_stanza_error_to_node.
  destruct error as [e m|d code m]; cbn [error_parts error_says].
  - destruct (error_nick_read e) as (en & -> & He & Hne).
    destruct (type_nick_read (spec_type (xmpp_errors e))) as (tn & -> & Ht).
    set (c := pretty _). destruct (extract_written ds (ns parent) _ tn en e None (c, m) Ht He Hne)
      as (H1 & H2 & H3); [done|].
    eexists. split; [reflexivity|]. cbn in H1, H2, H3. case_bool_decide; done.
  - destruct Hk as (dom & Hf & [s Hs] & [nick Hn]). rewrite Hf, Hs, Hn.
    destruct (find_domain_inv _ _ _ Hf) as [Hin Hd]. subst d.
    rewrite Forall_forall in Hok. destruct (Hok dom Hin) as [Hns Hnd].
    set (ty := default _ (specialized_type s)).
    destruct (error_nick_read (specializes s)) as (en & -> & He & Hne).
    destruct (type_nick_read ty) as (tn & -> & Ht).
    set (c := pretty _).
    destruct (extract_written ds (ns parent) _ tn en (specializes s) (Some (nick, domain dom, code))
      (c, m) Ht He Hne) as (H1 & H2 & H3).
    { intros ? ? ? [= <- <- <-]. split; [done|]. exists dom.
      split_and!; [done|done|]. by apply index_of_lookup. }
    eexists. split; [reflexivity|]. cbn in H1, H2, H3.
    case_bool_decide; (split; [done|]; exists dom, s; done).
Qed.

Lemma stanza_error_round_trip_witness :
  let ds := wocky_xmpp_error_init [] in
  ∃ n, wocky_stanza_error_to_node ds (DomainError NS_SI 0 "no") (mkNode "iq" None None [] []) =
         Ok (set_children (mkNode "iq" None None [] []) ([] ++ [n])) ∧
       name n = "error" ∧ error_says ds (DomainError NS_SI 0 "no") (wocky_xmpp_error_extract ds n).
Proof.
  apply stanza_error_round_trip.
  - repeat (constructor; [split; [done|]|]); [..|constructor]; apply (bool_decide_unpack _); vm_compute; done.
  - exists si_error_get_domain. split_and!; [done|by eexists|by eexists].
Defined.

End XmppError.
