(* ===== verification/MessageUtil.v ===== *)
(** * Messages (src/message-util.c)

    Building the stanza of an outgoing message and taking an incoming one
    apart.  Of a TpMessage the code looks at: the header's "message-type",
    which may be absent ([None]) or no 32-bit unsigned integer ([Some None]),
    and of each body part "content-type" and "content" when they are strings.
    The nickname to send, the fresh id and the reading of ISO 8601 dates are
    arguments. *)

From S2P Require Import Prelude Node Namespaces XmppError.

Module MessageUtil.
Import XmppError.

(** ** Data *)

(** TP_CHANNEL_TEXT_MESSAGE_TYPE_..., in the order of their numbers. *)
Inductive TpChannelTextMessageType :=
  | TYPE_NORMAL | TYPE_ACTION | TYPE_NOTICE | TYPE_AUTO_REPLY | TYPE_DELIVERY_REPORT.
#[global] Instance TpChannelTextMessageType_eq_dec : EqDecision TpChannelTextMessageType.
Proof. solve_decision. Defined.

Definition message_type_of (n : Z) : option TpChannelTextMessageType :=
  if n =? 0 then Some TYPE_NORMAL else if n =? 1 then Some TYPE_ACTION
  else if n =? 2 then Some TYPE_NOTICE else if n =? 3 then Some TYPE_AUTO_REPLY
  else if n =? 4 then Some TYPE_DELIVERY_REPORT else None.

(** TP_CHANNEL_CHAT_STATE_...; [None] is -1. *)
Inductive TpChannelChatState :=
  | STATE_GONE | STATE_INACTIVE | STATE_ACTIVE | STATE_PAUSED | STATE_COMPOSING.
#[global] Instance TpChannelChatState_eq_dec : EqDecision TpChannelChatState.
Proof. solve_decision. Defined.

(** The sub-types a message can have. *)
Inductive WockyStanzaSubType := SUB_NONE | SUB_NORMAL | SUB_CHAT | SUB_GROUPCHAT | SUB_HEADLINE.
#[global] Instance WockyStanzaSubType_eq_dec : EqDecision WockyStanzaSubType.
Proof. solve_decision. Defined.

Definition get_sub_type_name (t : WockyStanzaSubType) : option string :=
  match t with
  | SUB_NONE => None
  | SUB_NORMAL => Some "normal"
  | SUB_CHAT => Some "chat"
  | SUB_GROUPCHAT => Some "groupchat"
  | SUB_HEADLINE => Some "headline"
  end.

(** TP_CHANNEL_TEXT_SEND_ERROR_...; [None] is GABBLE_TEXT_CHANNEL_SEND_NO_ERROR. *)
Inductive TpChannelTextSendError :=
  | SEND_UNKNOWN | SEND_OFFLINE | SEND_INVALID_CONTACT | SEND_PERMISSION_DENIED | SEND_TOO_LONG
  | SEND_NOT_IMPLEMENTED.
#[global] Instance TpChannelTextSendError_eq_dec : EqDecision TpChannelTextSendError.
Proof. solve_decision. Defined.

Inductive TpDeliveryStatus :=
  | DELIVERY_UNKNOWN | DELIVERY_DELIVERED | DELIVERY_TEMPORARILY_FAILED
  | DELIVERY_PERMANENTLY_FAILED | DELIVERY_ACCEPTED.
#[global] Instance TpDeliveryStatus_eq_dec : EqDecision TpDeliveryStatus.
Proof. solve_decision. Defined.

Record MessagePart := mkPart { content_type : option string; part_content : option string }.
Record TpMessage := mkMessage { header_type : option (option Z); parts : list MessagePart }.

Definition NS_X_DELAY : string := "jabber:x:delay".

(** ** Building *)

Definition chat_state_name (state : TpChannelChatState) : string :=
  match state with
  | STATE_GONE => "gone"
  | STATE_INACTIVE => "inactive"
  | STATE_ACTIVE => "active"
  | STATE_PAUSED => "paused"
  | STATE_COMPOSING => "composing"
  end.

Definition gabble_message_util_add_chat_state (stanza : WockyNode)
    (state : option TpChannelChatState) : WockyNode :=
  match state with
  | Some st => set_children stanza
                 (children stanza ++ [mkNode (chat_state_name st) None (Some NS_CHAT_STATES) [] []])
  | None => stanza
  end.

(** [wocky_stanza_build] of a message: the type, the recipient, and the id
    when there is one. *)
Definition build_message_stanza (subtype : WockyStanzaSubType) (recipient : string)
    (id : option string) : WockyNode :=
  let n := mkNode "message" None (Some "jabber:client") [] [] in
  let n := match get_sub_type_name subtype with
           | Some t => wocky_node_set_attribute n "type" t
           | None => n
           end in
  let n := wocky_node_set_attribute n "to" recipient in
  match id with Some i => wocky_node_set_attribute n "id" i | None => n end.

(** [nick]: what [lm_message_node_add_own_nick] adds, if anything. *)
Definition add_own_nick (nick : option string) (node : WockyNode) : WockyNode :=
  match nick with
  | Some _ => wocky_node_add_child_with_content_ns node "nick" nick (Some NS_NICK)
  | None => node
  end.

(** The sub-type when the caller gives none. *)
Definition default_subtype (ty : TpChannelTextMessageType) : WockyStanzaSubType :=
  match ty with
  | TYPE_NORMAL | TYPE_ACTION => SUB_CHAT
  | TYPE_NOTICE => SUB_NORMAL
  | _ => SUB_NONE
  end.

Definition body_text (ty : TpChannelTextMessageType) (text : string) : string :=
  match ty with TYPE_ACTION => "/me " +:+ text | _ => text end.

(** What the checks of the message let through: its type and its text; the
    error is always TP_ERROR_INVALID_ARGUMENT. *)
Definition check_message (message : TpMessage) : option (TpChannelTextMessageType * string) :=
  ty ← match header_type message with
       | None => Some TYPE_NORMAL
       | Some None => None
       | Some (Some n) => message_type_of n
       end;
  match parts message with
  | [part] =>
      if bool_decide (content_type part = Some "text/plain") then
        text ← part_content part; Some (ty, text)
      else None
  | _ => None
  end.

(** [id] is the fresh id, which is also the message's token from then on. *)
Definition gabble_message_util_build_stanza (message : TpMessage) (id : string)
    (own_nick : option string) (subtype : WockyStanzaSubType)
    (state : option TpChannelChatState) (recipient : string) (send_nick : bool) :
    option WockyNode :=
  '(ty, text) ← check_message message;
  let subtype := if bool_decide (subtype = SUB_NONE) then default_subtype ty else subtype in
  let node := build_message_stanza subtype recipient (Some id) in
  let node := if send_nick then add_own_nick own_nick node else node in
  let node := wocky_node_add_child_with_content node "body" (Some (body_text ty text)) in
  Some (gabble_message_util_add_chat_state node state).

(** The stanza [gabble_message_util_send_chat_state] sends. *)
Definition gabble_message_util_send_chat_state (subtype : WockyStanzaSubType)
    (state : TpChannelChatState) (recipient : string) : WockyNode :=
  gabble_message_util_add_chat_state (build_message_stanza subtype recipient None) (Some state).

(** ** Errors *)

Definition gabble_tp_send_error_from_wocky_xmpp_error (err : WockyXmppError) :
    TpChannelTextSendError :=
  match err with
  | SERVICE_UNAVAILABLE | RECIPIENT_UNAVAILABLE => SEND_OFFLINE
  | ITEM_NOT_FOUND | JID_MALFORMED | REMOTE_SERVER_TIMEOUT => SEND_INVALID_CONTACT
  | FORBIDDEN | NOT_AUTHORIZED | POLICY_VIOLATION => SEND_PERMISSION_DENIED
  | RESOURCE_CONSTRAINT => SEND_TOO_LONG
  | FEATURE_NOT_IMPLEMENTED => SEND_NOT_IMPLEMENTED
  | _ => SEND_UNKNOWN
  end.

Definition _tp_send_error_from_xmpp_error (error_type : WockyXmppErrorType)
    (code : WockyXmppError) : TpChannelTextSendError * TpDeliveryStatus :=
  (match code with
   | SERVICE_UNAVAILABLE | RECIPIENT_UNAVAILABLE => SEND_OFFLINE
   | ITEM_NOT_FOUND | JID_MALFORMED | REMOTE_SERVER_TIMEOUT => SEND_INVALID_CONTACT
   | FORBIDDEN | NOT_AUTHORIZED => SEND_PERMISSION_DENIED
   | RESOURCE_CONSTRAINT => SEND_TOO_LONG
   | FEATURE_NOT_IMPLEMENTED => SEND_NOT_IMPLEMENTED
   | _ => SEND_UNKNOWN
   end,
   if bool_decide (error_type = TYPE_WAIT) then DELIVERY_TEMPORARILY_FAILED
   else DELIVERY_PERMANENTLY_FAILED).

(** ** Parsing *)

Definition has_state (message : WockyNode) (state : TpChannelChatState) : bool :=
  bool_decide (is_Some (wocky_node_get_child_ns message (Some (chat_state_name state))
                          (Some NS_CHAT_STATES))).

Definition _tp_chat_state_from_message (message : WockyNode) : option TpChannelChatState :=
  List.find (has_state message)
    [STATE_ACTIVE; STATE_COMPOSING; STATE_INACTIVE; STATE_PAUSED; STATE_GONE].

Record Incoming := mkIncoming {
  i_from : string;
  i_stamp : Z;
  i_msgtype : TpChannelTextMessageType;
  i_id : option string;
  i_body : option string;
  i_state : option TpChannelChatState;
  i_send_error : option TpChannelTextSendError;
  i_delivery_status : TpDeliveryStatus;
}.

Definition has_child (message : WockyNode) (nm s : string) : bool :=
  bool_decide (is_Some (wocky_node_get_child_ns message (Some nm) (Some s))).

(** The type of a message with that body, and the body that is shown. *)
Definition classify (message : WockyNode) (ty : option string) (body : string) :
    TpChannelTextMessageType * string :=
  if bool_decide (ty = None) && has_child message "time" "google:timestamp" &&
     has_child message "x" "jabber:x:delay"
  then (TYPE_NORMAL, body)
  else if String.prefix "/me " body
  then (TYPE_ACTION, String.substring 4 (String.length body - 4) body)
  else if bool_decide (ty = Some "chat") || bool_decide (ty = Some "groupchat")
  then (TYPE_NORMAL, body)
  else (TYPE_NOTICE, body).

Section parse.
(** [g_time_val_from_iso8601]: the seconds, when the date can be read. *)
Context (from_iso8601 : string → option Z).
Context (error_domains : list WockyXmppErrorDomain).

Definition delay_stamp (message : WockyNode) : Z :=
  default 0 (
    node ← wocky_node_get_child_ns message (Some "x") (Some NS_X_DELAY);
    stamp_str ← wocky_node_get_attribute node "stamp";
    from_iso8601 (stamp_str +:+ "Z")).

(** [None]: FALSE is returned. *)
Definition gabble_message_util_parse_incoming_message (message : WockyNode) : option Incoming :=
  let '(send_error, delivery_status) :=
    match wocky_stanza_extract_errors error_domains message with
    | Some x =>
        let '(e, d) := _tp_send_error_from_xmpp_error (x_type x) (x_core x).1 in (Some e, d)
    | None => (None, DELIVERY_UNKNOWN)
    end in
  from ← wocky_node_get_attribute message "from";
  let body := wocky_node_get_child message "body" ≫= content in
  '(msgtype, body_ret) ←
    match body with
    | None => Some (TYPE_NOTICE, None)
    | Some b =>
        if has_child message "google-rbc-announcement" "google:metadata" then None
        else let '(t, b') := classify message (wocky_node_get_attribute message "type") b in
             Some (t, Some b')
    end;
  Some (mkIncoming from (delay_stamp message) msgtype (wocky_node_get_attribute message "id")
          body_ret (_tp_chat_state_from_message message) send_error delivery_status).
End parse.

(** ** Round trip *)

(** A stanza as the recipient gets it: the server says whom it is from. *)
Definition delivered (from : string) (stanza : WockyNode) : WockyNode :=
  wocky_node_set_attribute stanza "from" from.

(** The request for a receipt that may have been added. *)
Definition requesting (receipt : bool) (stanza : WockyNode) : WockyNode :=
  if receipt then set_children stanza
    (children stanza ++ [mkNode "request" None (Some NS_RECEIPTS) [] []]) else stanza.

(** The kinds of messages a user can send. *)
Definition sendable (ty : TpChannelTextMessageType) (text : string) : Prop :=
  match ty with
  | TYPE_ACTION => True
  | TYPE_NORMAL | TYPE_NOTICE => String.prefix "/me " text = false
  | _ => False
  end.

Lemma classify_sent m ty text :
  sendable ty text → has_child m "time" "google:timestamp" = false →
  classify m (get_sub_type_name (default_subtype ty)) (body_text ty text) = (ty, text).
Proof.
  intros Hs Ht. unfold classify. rewrite Ht, andb_false_r. cbn [andb].
  destruct ty; cbn [sendable] in Hs; try done; cbn [body_text].
  - by rewrite Hs.
  - rewrite str_prefix_app, str_length_app.
    change (String.length "/me ") with 4%nat.
    replace (4 + String.length text - 4)%nat with (String.length text) by lia.
    pose proof (str_substring_app "/me " text) as E. change (String.length "/me ") with 4%nat in E.
    by rewrite E.
  - by rewrite Hs.
Qed.

Lemma built_message_parsed from_iso8601 ds message id own_nick state recipient send_nick receipt
    from ty text :
  check_message message = Some (ty, text) → sendable ty text →
  ∃ stanza,
    gabble_message_util_build_stanza message id own_nick SUB_NONE state recipient send_nick =
      Some stanza ∧
    gabble_message_util_parse_incoming_message from_iso8601 ds
      (delivered from (requesting receipt stanza)) =
    Some (mkIncoming from 0 ty (Some id) (Some text) state None DELIVERY_UNKNOWN).
Proof.
  intros Hc Hs. unfold gabble_message_util_build_stanza. rewrite Hc. cbn [mbind option_bind].
  rewrite bool_decide_eq_true_2 by done. eexists. split; [reflexivity|].
  set (m := delivered _ _).
  assert (Hty : wocky_node_get_attribute m "type" = get_sub_type_name (default_subtype ty) ∧
    wocky_node_get_attribute m "from" = Some from ∧ wocky_node_get_attribute m "id" = Some id ∧
    wocky_node_get_child m "body" ≫= content = Some (body_text ty text) ∧
    has_child m "google-rbc-announcement" "google:metadata" = false ∧
    has_child m "time" "google:timestamp" = false ∧
    wocky_node_get_child_ns m (Some "x") (Some NS_X_DELAY) = None ∧
    _tp_chat_state_from_message m = state).
  { subst m. clear Hc Hs. generalize (body_text ty text). intros b.
    destruct ty, send_nick, own_nick, receipt, state as [[]|]; vm_compute; done. }
  clearbody m. destruct Hty as (Hty & Hf & Hid & Hb & Hr & Ht & Hx & Hst).
  unfold gabble_message_util_parse_incoming_message, wocky_stanza_extract_errors.
  rewrite Hty, Hf, Hid, Hb, Hr, Hst. unfold delay_stamp. rewrite Hx.
  rewrite bool_decide_eq_false_2 by (by destruct ty). cbn [mbind option_bind].
  by rewrite classify_sent.
Qed.

(** A message that is sent in a one-to-one chat arrives as it was: its
    type, its text, its id and the chat state that goes with it, with or
    without a nickname and a request for a receipt.  A text of type normal or
    notice must not start like an action. *)
Theorem message_round_trip from_iso8601 ds message id own_nick state recipient send_nick receipt
    from ty text :
  check_message message = Some (ty, text) → sendable ty text →
  ∃ stanza,
    gabble_message_util_build_stanza message id own_nick SUB_NONE state recipient send_nick =
      Some stanza ∧
    gabble_message_util_parse_incoming_message from_iso8601 ds
      (delivered from (requesting receipt stanza)) =
    Some (mkIncoming from 0 ty (Some id) (Some text) state None DELIVERY_UNKNOWN).
Proof. apply built_message_parsed. Qed.

Lemma message_round_trip_witness :
  let message := mkMessage (Some (Some 1)) [mkPart (Some "text/plain") (Some "waves")] in
  ∃ stanza,
    gabble_message_util_build_stanza message "id1" (Some "Bob") SUB_NONE (Some STATE_ACTIVE)
      "a@x" true = Some stanza ∧
    gabble_message_util_parse_incoming_message (λ _, None) []
      (delivered "b@x/r" (requesting true stanza)) =
    Some (mkIncoming "b@x/r" 0 TYPE_ACTION (Some "id1") (Some "waves") (Some STATE_ACTIVE) None
            DELIVERY_UNKNOWN).
Proof. by apply message_round_trip. Defined.

(** The two tables of send errors agree but on one condition. *)
Lemma send_error_tables t e :
  (_tp_send_error_from_xmpp_error t e).1 = gabble_tp_send_error_from_wocky_xmpp_error e ↔
  e ≠ POLICY_VIOLATION.
Proof. by destruct e. Qed.

End MessageUtil.
