(* ===== verification/ImChannel.v ===== *)
(** * One-to-one chats (src/im-channel.c, src/im-factory.c)

    The text channels to contacts and the factory that keeps one per contact.
    A channel object is a number in [objects]; it lives for as long as the
    factory's table or a message being sent refers to it, and a pointer to it
    that dangles is one that finds nothing.  The message queue of a channel is
    telepathy-glib's TpMessageMixin, a class with its laws.  What the code
    reads of the rest of the connection in one call is an [Env]. *)

From S2P Require Import Prelude Node Namespaces Jid Capabilities XmppError MessageUtil.

(** ** The message queue *)

(** A text with its sender, its type, the time it was sent if that is known,
    and its token. *)
Record Text := mkText {
  t_sender : Z;
  t_type : MessageUtil.TpChannelTextMessageType;
  t_stamp : Z;
  t_text : string;
  t_token : option string;
}.

(** What is put in the queue. *)
Inductive QueuedMessage :=
  | Plain (t : Text) (received : Z)
  | DeliveryReport (sender received : Z) (token : string)
      (status : MessageUtil.TpDeliveryStatus)
      (error : option MessageUtil.TpChannelTextSendError) (delivery_token : option string)
      (echo : option Text).

Class TpMessageMixin (X : Type) := {
  tp_message_mixin_init : X;
  tp_message_mixin_take_received : X → QueuedMessage → X;
  pending_messages : X → list QueuedMessage;
  tp_message_mixin_clear : X → X;
  acknowledge_pending : X → nat → X;
  tp_message_mixin_set_rescued : X → X;
  (** whether the state "gone" is to be sent, and the queue after that *)
  tp_message_mixin_maybe_send_gone : X → bool * X;
}.

Class TpMessageMixinLaws (X : Type) `{TpMessageMixin X} := {
  pending_init : pending_messages tp_message_mixin_init = [];
  pending_take x m :
    pending_messages (tp_message_mixin_take_received x m) = pending_messages x ++ [m];
  pending_clear x : pending_messages (tp_message_mixin_clear x) = [];
  pending_acknowledge x i :
    pending_messages (acknowledge_pending x i) = delete i (pending_messages x);
  pending_rescued x :
    pending_messages (tp_message_mixin_set_rescued x) = pending_messages x;
  pending_gone x :
    pending_messages (tp_message_mixin_maybe_send_gone x).2 = pending_messages x;
}.

Module ImChannel.
Import Jid MessageUtil.

(** ** Data *)

Inductive ChatStateSupport := CHAT_STATES_UNKNOWN | CHAT_STATES_SUPPORTED | CHAT_STATES_NOT_SUPPORTED.

Record GabbleIMChannel (X : Type) := mkChannel {
  target : Z;
  peer_jid : string;
  send_nick : bool;
  chat_states : ChatStateSupport;
  mixin : X;
}.
Arguments mkChannel {X}.
Arguments target {X}.
Arguments peer_jid {X}.
Arguments send_nick {X}.
Arguments chat_states {X}.
Arguments mixin {X}.

(** [_GabbleIMSendMessageCtx]. *)
Record SendMessageCtx := mkCtx {
  c_channel : nat;
  c_message : TpMessage;
  c_token : string;
  c_report_delivery : bool;
}.

Inductive im_event :=
  | NewChannel (obj : nat) (handle : Z) (requests : list Z)
  | ChannelClosed (obj : nat)
  | SendAsync (serial : nat) (stanza : WockyNode)
  | SendStanza (stanza : WockyNode)
  | MessageSent (obj : nat) (message : TpMessage) (report_delivery : bool) (token : option string)
      (success : bool)
  | ChatStateChanged (obj : nat) (contact : Z) (state : TpChannelChatState)
  | MessageReceived (obj : nat) (message : QueuedMessage)
  | RequestAlreadySatisfied (request : Z) (obj : nat)
  | RequestFailed (request : Z)
  | PresenceReleased (handle : Z)     (* keep_unavailable = FALSE, and maybe removed *)
  | UpdateLastUse
  | IqAcknowledged.

(** [channels]: [None] once the connection is gone. *)
Record GabbleImFactory (X R : Type) := mkFactory {
  objects : gmap nat (GabbleIMChannel X);
  next_object : nat;
  channels : option (gmap Z nat);
  sends : gmap nat SendMessageCtx;
  next_send : nat;
  contact_repo : R;
  events : list im_event;
}.
Arguments mkFactory {X R}.
Arguments objects {X R}.
Arguments next_object {X R}.
Arguments channels {X R}.
Arguments sends {X R}.
Arguments next_send {X R}.
Arguments contact_repo {X R}.
Arguments events {X R}.

(** The presence cache ([None]: no presence), the roster, ourselves. *)
Record Env := mkEnv {
  self_handle : Z;
  presence_has_cap : Z → option (string → bool);
  handle_gets_presence_from_us : Z → bool;
  handle_sends_presence_to_us : Z → bool;
  self_hidden : bool;
  own_nick : option string;
  has_porter : bool;
  time_NULL : Z;
  generated_id : string;
}.

Section im.
Context {X R : Type} `{TpMessageMixin X} `{HandleRepo R}.
Context (g_utf8_strdown g_utf8_normalize : string → string).
Context (from_iso8601 : string → option Z) (error_domains : list XmppError.WockyXmppErrorDomain).

Local Notation Factory := (GabbleImFactory X R).
Local Notation MF := (M Factory).
Local Notation Channel := (GabbleIMChannel X).

(** *** State *)

Definition put_objects (m : gmap nat Channel) (n : nat) : MF unit := modify (λ s,
  mkFactory m n (channels s) (sends s) (next_send s) (contact_repo s) (events s)).
Definition put_channels (m : option (gmap Z nat)) : MF unit := modify (λ s,
  mkFactory (objects s) (next_object s) m (sends s) (next_send s) (contact_repo s) (events s)).
Definition put_sends (m : gmap nat SendMessageCtx) (n : nat) : MF unit := modify (λ s,
  mkFactory (objects s) (next_object s) (channels s) m n (contact_repo s) (events s)).
Definition put_repo (r : R) : MF unit := modify (λ s,
  mkFactory (objects s) (next_object s) (channels s) (sends s) (next_send s) r (events s)).
Definition emit (e : im_event) : MF unit := modify (λ s,
  mkFactory (objects s) (next_object s) (channels s) (sends s) (next_send s) (contact_repo s)
    (events s ++ [e])).

Definition get_channel (obj : nat) : MF Channel :=
  s ← get;
  match objects s !! obj with Some ch => mret ch | None => fail MemoryFault end.
Definition put_channel (obj : nat) (ch : Channel) : MF unit :=
  s ← get; put_objects (<[obj := ch]> (objects s)) (next_object s).

Definition with_peer (ch : Channel) (j : string) : Channel :=
  mkChannel (target ch) j (send_nick ch) (chat_states ch) (mixin ch).
Definition with_nick (ch : Channel) (b : bool) : Channel :=
  mkChannel (target ch) (peer_jid ch) b (chat_states ch) (mixin ch).
Definition with_support (ch : Channel) (c : ChatStateSupport) : Channel :=
  mkChannel (target ch) (peer_jid ch) (send_nick ch) c (mixin ch).
Definition with_mixin (ch : Channel) (x : X) : Channel :=
  mkChannel (target ch) (peer_jid ch) (send_nick ch) (chat_states ch) x.

(** *** The channel *)

Definition gabble_im_channel_constructed (env : Env) (repo : R) (handle : Z) : Channel :=
  mkChannel handle (default EmptyString (tp_handle_inspect repo handle))
    (negb (handle_gets_presence_from_us env handle)) CHAT_STATES_UNKNOWN tp_message_mixin_init.

Definition chat_states_supported (env : Env) (ch : Channel) (include_unknown : bool) : bool :=
  match presence_has_cap env (target ch) with
  | Some f => f NS_CHAT_STATES
  | None => false
  end ||
  match chat_states ch with
  | CHAT_STATES_UNKNOWN => include_unknown
  | CHAT_STATES_SUPPORTED => true
  | CHAT_STATES_NOT_SUPPORTED => false
  end.

Definition receipts_conceivably_supported (env : Env) (ch : Channel) : bool :=
  match presence_has_cap env (target ch) with
  | Some f => f NS_RECEIPTS
  | None => true
  end.

Definition _gabble_connection_send (env : Env) (stanza : WockyNode) : MF bool :=
  if has_porter env then emit (SendStanza stanza) ;; mret true else mret false.

Definition _gabble_im_channel_send_chat_state (env : Env) (obj : nat) (state : TpChannelChatState) :
    MF bool :=
  ch ← get_channel obj;
  if negb (chat_states_supported env ch false) then mret true
  else _gabble_connection_send env
         (gabble_message_util_send_chat_state SUB_CHAT state (peer_jid ch)).

Definition maybe_send_gone (env : Env) (obj : nat) : MF unit :=
  ch ← get_channel obj;
  let '(gone, x) := tp_message_mixin_maybe_send_gone (mixin ch) in
  put_channel obj (with_mixin ch x) ;;
  when gone (_gabble_im_channel_send_chat_state env obj STATE_GONE ;; mret tt).

Definition gabble_im_channel_dispose (env : Env) (obj : nat) : MF unit :=
  ch ← get_channel obj;
  when (negb (handle_sends_presence_to_us env (target ch)))
    (when (bool_decide (is_Some (presence_has_cap env (target ch))))
       (emit (PresenceReleased (target ch)))) ;;
  maybe_send_gone env obj.

(** Whether anything refers to the object. *)
Definition referenced (s : Factory) (obj : nat) : bool :=
  match channels s with
  | Some m => bool_decide (obj ∈ (map_to_list m).*2)
  | None => false
  end || bool_decide (obj ∈ (c_channel ∘ snd) <$> map_to_list (sends s)).

(** [g_object_unref], after a reference was dropped. *)
Definition unref_channel (env : Env) (obj : nat) : MF unit :=
  s ← get;
  if referenced s obj then mret tt
  else
    gabble_im_channel_dispose env obj ;;
    s ← get; put_objects (delete obj (objects s)) (next_object s).

Definition _gabble_im_channel_message_sent_cb (env : Env) (serial : nat) (success : bool) :
    MF unit :=
  s ← get;
  match sends s !! serial with
  | None => fail MemoryFault
  | Some c =>
      get_channel (c_channel c) ;;
      emit (if success
            then MessageSent (c_channel c) (c_message c) (c_report_delivery c) (Some (c_token c)) true
            else MessageSent (c_channel c) (c_message c) false None false) ;;
      s ← get;
      put_sends (delete serial (sends s)) (next_send s) ;;
      unref_channel env (c_channel c)
  end.

(** [report]: TP_MESSAGE_SENDING_FLAG_REPORT_DELIVERY is among the flags. *)
Definition _gabble_im_channel_send_message (env : Env) (obj : nat) (message : TpMessage)
    (report : bool) : MF unit :=
  ch ← get_channel obj;
  let state := if chat_states_supported env ch true then Some STATE_ACTIVE else None in
  when (bool_decide (is_Some state)) (emit (ChatStateChanged obj (self_handle env) STATE_ACTIVE)) ;;
  match gabble_message_util_build_stanza message (generated_id env) (own_nick env) SUB_NONE state
          (peer_jid ch) (send_nick ch) with
  | Some stanza =>
      emit UpdateLastUse ;;
      let receipt := report && receipts_conceivably_supported env ch in
      let stanza := if receipt
                    then set_children stanza
                           (children stanza ++ [mkNode "request" None (Some NS_RECEIPTS) [] []])
                    else stanza in
      s ← get;
      put_sends (<[next_send s := mkCtx obj message (generated_id env) receipt]> (sends s))
        (S (next_send s)) ;;
      emit (SendAsync (next_send s) stanza)
  | None => emit (MessageSent obj message false None false)
  end ;;
  put_channel obj (with_nick ch false).

(** *** Receiving *)

Definition maybe_send_delivery_report (env : Env) (obj : nat) (message : WockyNode) (jid : string)
    (id : option string) : MF unit :=
  ch ← get_channel obj;
  match id with
  | None => mret tt
  | Some i =>
      if negb (has_child message "request" NS_RECEIPTS) then mret tt
      else if self_hidden env || negb (handle_gets_presence_from_us env (target ch)) then mret tt
      else
        let report := build_message_stanza SUB_NONE jid None in
        _gabble_connection_send env
          (set_children report
             [mkNode "received" None (Some NS_RECEIPTS) [mkAttribute "id" i None] []]) ;;
        mret tt
  end.

Definition take_received (obj : nat) (m : QueuedMessage) : MF unit :=
  ch ← get_channel obj;
  put_channel obj (with_mixin ch (tp_message_mixin_take_received (mixin ch) m)) ;;
  emit (MessageReceived obj m).

Definition _gabble_im_channel_state_receive (obj : nat) (state : TpChannelChatState) : MF unit :=
  ch ← get_channel obj;
  put_channel obj (with_support ch CHAT_STATES_SUPPORTED) ;;
  emit (ChatStateChanged obj (target ch) state).

Definition _gabble_im_channel_receive (env : Env) (obj : nat) (message : WockyNode)
    (ty : TpChannelTextMessageType) (from : string) (timestamp : Z) (id : option string)
    (text : string) (state : option TpChannelChatState) : MF unit :=
  ch ← get_channel obj;
  put_channel obj (with_peer ch from) ;;
  match state with
  | None => ch ← get_channel obj; put_channel obj (with_support ch CHAT_STATES_NOT_SUPPORTED)
  | Some st => _gabble_im_channel_state_receive obj st
  end ;;
  take_received obj (Plain (mkText (target ch) ty timestamp text id) (time_NULL env)) ;;
  maybe_send_delivery_report env obj message from id.

Definition _gabble_im_channel_report_delivery (env : Env) (obj : nat)
    (ty : TpChannelTextMessageType) (timestamp : Z) (id text : option string)
    (send_error : option TpChannelTextSendError) (delivery_status : TpDeliveryStatus) : MF unit :=
  ch ← get_channel obj;
  when (bool_decide (is_Some send_error))
    (put_channel obj (with_support (with_peer ch (gabble_remove_resource (peer_jid ch)))
                        CHAT_STATES_UNKNOWN)) ;;
  take_received obj (DeliveryReport (target ch) (time_NULL env) (generated_id env) delivery_status
    send_error id ((λ t, mkText (self_handle env) ty timestamp t id) <$> text)).

Definition gabble_im_channel_receive_receipt (env : Env) (obj : nat) (receipt_id : string) : MF unit :=
  _gabble_im_channel_report_delivery env obj TYPE_NORMAL 0 (Some receipt_id) None None
    DELIVERY_DELIVERED.

(** *** Closing *)

(** What became of a channel that emits "closed". *)
Inductive closing := Destroyed | Respawning.

Definition im_channel_closed_cb (env : Env) (obj : nat) (c : closing) : MF unit :=
  ch ← get_channel obj;
  emit (ChannelClosed obj) ;;
  s ← get;
  match channels s with
  | None => mret tt
  | Some m =>
      match c with
      | Destroyed => put_channels (Some (delete (target ch) m)) ;; unref_channel env obj
      | Respawning => emit (NewChannel obj (target ch) [])
      end
  end.

Definition gabble_im_channel_close (env : Env) (obj : nat) : MF unit :=
  maybe_send_gone env obj ;;
  ch ← get_channel obj;
  match pending_messages (mixin ch) with
  | _ :: _ =>
      put_channel obj (with_mixin ch (tp_message_mixin_set_rescued (mixin ch))) ;;
      im_channel_closed_cb env obj Respawning
  | [] => im_channel_closed_cb env obj Destroyed
  end.

Definition gabble_im_channel_destroy (env : Env) (obj : nat) : MF unit :=
  ch ← get_channel obj;
  put_channel obj (with_mixin ch (tp_message_mixin_clear (mixin ch))) ;;
  gabble_im_channel_close env obj.

(** *** The factory *)

(** [tp_handle_ensure (contact_repo, jid, NULL, NULL)]. *)
Definition ensure_contact (jid : string) : MF Z :=
  s ← get;
  match gabble_normalize_contact g_utf8_strdown g_utf8_normalize
          (Some (λ n, negb (tp_handle_lookup (contact_repo s) n =? 0))) jid GABBLE_JID_ANY with
  | None => mret 0
  | Some n =>
      let '(r, h) := tp_handle_ensure (contact_repo s) n in
      put_repo r ;; mret h
  end.

(** A table that is gone finds nothing and takes nothing. *)
Definition new_im_channel (env : Env) (handle : Z) (request_token : option Z) : MF nat :=
  s ← get;
  let obj := next_object s in
  put_objects (<[obj := gabble_im_channel_constructed env (contact_repo s) handle]> (objects s))
    (S obj) ;;
  put_channels (<[handle := obj]> <$> channels s) ;;
  emit (NewChannel obj handle (option_list request_token)) ;;
  mret obj.

Definition lookup_channel (s : Factory) (handle : Z) : option nat :=
  channels s ≫= λ m, m !! handle.

Definition get_channel_for_incoming_message (env : Env) (jid : string) (create_if_missing : bool) :
    MF (option nat) :=
  handle ← ensure_contact jid;
  if handle =? 0 then mret None
  else
    s ← get;
    match lookup_channel s handle with
    | Some obj => mret (Some obj)
    | None =>
        if create_if_missing then obj ← new_im_channel env handle None; mret (Some obj)
        else mret None
    end.

Definition im_factory_message_cb (env : Env) (message : WockyNode) : MF bool :=
  match gabble_message_util_parse_incoming_message from_iso8601 error_domains message with
  | None => mret true
  | Some i =>
      if bool_decide (i_body i = None) && bool_decide (i_state i = None) then mret false
      else
        let create_if_missing :=
          bool_decide (i_send_error i = None) && bool_decide (is_Some (i_body i)) in
        chan ← get_channel_for_incoming_message env (i_from i) create_if_missing;
        match chan with
        | None => mret true
        | Some obj =>
            match i_send_error i, i_body i, i_state i with
            | Some _, None, _ => mret tt
            | Some e, Some body, _ =>
                _gabble_im_channel_report_delivery env obj (i_msgtype i) (i_stamp i) (i_id i)
                  (Some body) (Some e) (i_delivery_status i)
            | None, Some body, st =>
                _gabble_im_channel_receive env obj message (i_msgtype i) (i_from i) (i_stamp i)
                  (i_id i) body st
            | None, None, Some st => _gabble_im_channel_state_receive obj st
            | None, None, None => mret tt
            end ;;
            mret true
        end
  end.

(** The porter calls it with a stanza that has a <received/>. *)
Definition im_factory_receipt_cb (env : Env) (message : WockyNode) : MF bool :=
  match wocky_node_get_child_ns message (Some "received") (Some NS_RECEIPTS) with
  | None => mret false
  | Some received =>
      match wocky_node_get_attribute received "id", wocky_node_get_attribute message "from" with
      | Some received_id, Some from =>
          channel ← get_channel_for_incoming_message env from false;
          match channel with
          | None => mret true
          | Some obj => gabble_im_channel_receive_receipt env obj received_id ;; mret true
          end
      | _, _ => mret true
      end
  end.

Definition im_factory_own_message_cb (env : Env) (stanza : WockyNode) : MF bool :=
  match wocky_node_get_child stanza "own-message" with
  | None => mret false
  | Some own_message =>
      match wocky_node_get_child own_message "body", wocky_node_get_attribute own_message "to" with
      | Some body, Some to =>
          chan ← get_channel_for_incoming_message env to false;
          match chan with
          | Some obj =>
              _gabble_im_channel_report_delivery env obj TYPE_NORMAL 0 None (content body) None
                DELIVERY_ACCEPTED
          | None => mret tt
          end ;;
          emit IqAcknowledged ;;
          mret true
      | _, _ => mret false
      end
  end.

(** The table is let go of, and with it the channels. *)
Definition gabble_im_factory_close_all (env : Env) : MF unit :=
  s ← get;
  put_channels None ;;
  match channels s with
  | None => mret tt
  | Some m => for_each (map_to_list m).*2 (unref_channel env)
  end.

(** A request with known properties for a text channel to [handle]. *)
Definition gabble_im_factory_requestotron (env : Env) (request_token handle : Z)
    (require_new : bool) : MF bool :=
  g_assert (negb (handle =? 0)) ;;
  s ← get;
  match lookup_channel s handle with
  | None => new_im_channel env handle (Some request_token) ;; mret true
  | Some obj =>
      (if require_new then emit (RequestFailed request_token)
       else emit (RequestAlreadySatisfied request_token obj)) ;;
      mret true
  end.

Definition gabble_im_factory_init (repo : R) : Factory :=
  mkFactory ∅ 0 (Some ∅) ∅ 0 repo [].

End im.
End ImChannel.
