(* ===== verification/ImChannelFacts.v ===== *)
(** * One-to-one chats: what holds of them

    The invariant of the factory and its channels under every input, what an
    incoming message does, and a message's way from one user to another. *)

From S2P Require Import Prelude Node Namespaces Jid Capabilities XmppError MessageUtil ImChannel.

(** A queue: the messages and whether "gone" is still to be sent. *)
#[global] Instance list_mixin : TpMessageMixin (list QueuedMessage * bool) := {|
  tp_message_mixin_init := ([], false);
  tp_message_mixin_take_received x m := (x.1 ++ [m], x.2);
  pending_messages x := x.1;
  tp_message_mixin_clear x := ([], x.2);
  acknowledge_pending x i := (delete i x.1, true);
  tp_message_mixin_set_rescued x := x;
  tp_message_mixin_maybe_send_gone x := (x.2, (x.1, false));
|}.
#[global] Instance list_mixin_laws : TpMessageMixinLaws (list QueuedMessage * bool).
Proof. done. Qed.

Module ImChannelFacts.
Import Jid MessageUtil ImChannel.

Section im.
Context {X R : Type} `{TpMessageMixinLaws X} `{HandleRepoLaws R}.
Context (g_utf8_strdown g_utf8_normalize : string → string).
Context (from_iso8601 : string → option Z) (error_domains : list XmppError.WockyXmppErrorDomain).
Local Abbreviation Factory := (GabbleImFactory X R).
Local Abbreviation Channel := (GabbleIMChannel X).
Implicit Types s : Factory.

(** ** The invariant *)

Record im_ok s : Prop := {
  ok_objects o : is_Some (objects s !! o) → (o < next_object s)%nat;
  ok_table m h o : channels s = Some m → m !! h = Some o →
    ∃ ch, objects s !! o = Some ch ∧ target ch = h;
  ok_sends n c : sends s !! n = Some c → is_Some (objects s !! c_channel c);
  ok_next_send n : is_Some (sends s !! n) → (n < next_send s)%nat;
}.

(** A receipt for the message [i] of [jid]. *)
Definition receipt_stanza (jid i : string) : WockyNode :=
  set_children (build_message_stanza SUB_NONE jid None)
    [mkNode "received" None (Some NS_RECEIPTS) [mkAttribute "id" i None] []].

(** What may be sent without the user asking for it: chat states to peers that
    support them, receipts to contacts who see our presence anyway. *)
Definition discreet (env : Env) (e : im_event) : Prop :=
  match e with
  | SendStanza r =>
      (∃ (ch : Channel) st, chat_states_supported env ch false = true ∧
         r = gabble_message_util_send_chat_state SUB_CHAT st (peer_jid ch)) ∨
      (∃ h j i, handle_gets_presence_from_us env h = true ∧ self_hidden env = false ∧
         r = receipt_stanza j i)
  | _ => True
  end.

(** A channel with messages the user has not acknowledged stays, and so do the
    messages; [P]: of the objects this is said of. *)
Definition kept (P : nat → Prop) (s s' : Factory) : Prop :=
  ∀ h o ch, P o → lookup_channel s h = Some o → objects s !! o = Some ch →
    pending_messages (mixin ch) ≠ [] →
    lookup_channel s' h = Some o ∧
    ∃ ch', objects s' !! o = Some ch' ∧
           pending_messages (mixin ch) `prefix_of` pending_messages (mixin ch').

Record good (env : Env) (P : nat → Prop) (s0 s : Factory) : Prop := {
  good_ok : im_ok s;
  good_events : ∃ new, events s = events s0 ++ new ∧ Forall (discreet env) new;
  good_kept : kept P s0 s;
}.

Lemma good_refl env P s : im_ok s → good env P s s.
Proof.
  intros Hok. split; [done|by exists []; rewrite app_nil_r|].
  intros h o ch _ Hl Ho _. split; [done|]. by exists ch.
Qed.

Lemma good_emit env P s0 s e :
  discreet env e → good env P s0 s →
  good env P s0 (mkFactory (objects s) (next_object s) (channels s) (sends s) (next_send s)
                   (contact_repo s) (events s ++ [e])).
Proof.
  intros He [[] (new & Hn & Hd) Hk]. split; [by split| |done].
  exists (new ++ [e]). cbn. rewrite Hn, app_assoc. split; [done|].
  apply Forall_app. by repeat constructor.
Qed.

(** A channel is changed: to the same contact, keeping what is queued. *)
Lemma good_put env P s0 s obj ch ch' :
  good env P s0 s → objects s !! obj = Some ch → target ch' = target ch →
  (P obj → pending_messages (mixin ch) `prefix_of` pending_messages (mixin ch')) →
  good env P s0 (mkFactory (<[obj := ch']> (objects s)) (next_object s) (channels s) (sends s)
                   (next_send s) (contact_repo s) (events s)).
Proof.
  intros [[Ho Ht Hs Hn] He Hk] Hch Htg Hp. split; [split; cbn| done|].
  - intros o [->|[_ Hx]]%lookup_insert_is_Some; [apply Ho; by eexists|by apply Ho].
  - intros m h o Hm Hh. destruct (Ht m h o Hm Hh) as (c & Hc & Hh').
    destruct (decide (o = obj)) as [->|Hne].
    + exists ch'. rewrite lookup_insert_eq. split; [done|]. congruence.
    + exists c. by rewrite lookup_insert_ne.
  - intros n c Hc. apply lookup_insert_is_Some'. right. by apply (Hs n).
  - done.
  - intros h o c HP Hl Hc Hne. destruct (Hk h o c HP Hl Hc Hne) as (Hl' & c' & Hc' & Hpre).
    split; [done|]. cbn. destruct (decide (o = obj)) as [->|Hno].
    + exists ch'. rewrite lookup_insert_eq. split; [done|].
      rewrite Hch in Hc'. injection Hc' as <-. etrans; [exact Hpre|by apply Hp].
    + exists c'. by rewrite lookup_insert_ne.
Qed.

(** ** The operations on a channel *)

Lemma get_channel_known s obj ch : objects s !! obj = Some ch → get_channel obj s = Ok (ch, s).
Proof. intros Ho. unfold get_channel, mbind, M_bind, get. by rewrite Ho. Qed.

Lemma wp_channel {A} s obj ch (k : Channel → M Factory A) Q :
  objects s !! obj = Some ch → wp (k ch) Q s → wp (get_channel obj ≫= k) Q s.
Proof. intros Ho. apply wp_known. by apply get_channel_known. Qed.

(** After an operation on [obj]: all is well, and its channel is to the same
    contact and has [l] queued. *)
Definition after (env : Env) (P : nat → Prop) (s0 s : Factory) (obj : nat) (h : Z)
    (l : list QueuedMessage) (s' : Factory) : Prop :=
  good env P s0 s' ∧ channels s' = channels s ∧ sends s' = sends s ∧
  (∀ o, is_Some (objects s !! o) → is_Some (objects s' !! o)) ∧
  ∃ ch', objects s' !! obj = Some ch' ∧ target ch' = h ∧ pending_messages (mixin ch') = l.

Lemma after_emit env P s0 s obj h l e s' :
  discreet env e → after env P s0 s obj h l s' →
  after env P s0 s obj h l (mkFactory (objects s') (next_object s') (channels s') (sends s')
                              (next_send s') (contact_repo s') (events s' ++ [e])).
Proof. intros He (Hg & Hc & Hs & Ho). split; [by apply good_emit|done]. Qed.

(** A change of the channel that keeps the contact and at least the queue. *)
Lemma after_put env P s0 s obj ch ch' :
  good env P s0 s → objects s !! obj = Some ch → target ch' = target ch →
  pending_messages (mixin ch) `prefix_of` pending_messages (mixin ch') →
  wp (put_channel obj ch')
    (λ _, after env P s0 s obj (target ch) (pending_messages (mixin ch'))) s.
Proof.
  intros Hg Ho Ht Hp. unfold put_channel. wp_step. wp_step. unfold put_objects. wp_step.
  split; [by eapply good_put|]. split; [done|]. split; [done|]. split.
  - intros o Ho'. cbn. apply lookup_insert_is_Some'. by right.
  - exists ch'. cbn. by rewrite lookup_insert_eq.
Qed.

Lemma after_trans env P s0 s1 s obj h h' l l' s' :
  after env P s0 s obj h l s1 → after env P s0 s1 obj h' l' s' → after env P s0 s obj h' l' s'.
Proof.
  intros (_ & Hc & Hs & Ho & _) (Hg & Hc' & Hs' & Ho' & Hch). split; [done|].
  rewrite Hc', Hs', Hc, Hs. split; [done|]. split; [done|]. split; [|done]. intros o Hx. by apply Ho', Ho.
Qed.

Lemma after_here env P s0 s obj ch :
  good env P s0 s → objects s !! obj = Some ch →
  after env P s0 s obj (target ch) (pending_messages (mixin ch)) s.
Proof. intros Hg Ho. split; [done|]. split; [done|]. split; [done|]. split; [done|]. by exists ch. Qed.

Lemma send_chat_state_good env P s0 s obj ch st :
  good env P s0 s → objects s !! obj = Some ch →
  wp (_gabble_im_channel_send_chat_state env obj st)
    (λ _, after env P s0 s obj (target ch) (pending_messages (mixin ch))) s.
Proof.
  intros Hg Ho. unfold _gabble_im_channel_send_chat_state. eapply wp_channel; [exact Ho|].
  pose proof (after_here _ _ _ _ _ _ Hg Ho) as Hs.
  wp_step; [by wp_step|]. unfold _gabble_connection_send. wp_step; [|by wp_step].
  wp_step. unfold emit. wp_step. wp_step. apply after_emit; [|done].
  cbn. left. exists ch, st. split; [|done]. by destruct (chat_states_supported env ch false).
Qed.

Lemma maybe_send_gone_good env P s0 s obj ch :
  good env P s0 s → objects s !! obj = Some ch →
  wp (maybe_send_gone env obj)
    (λ _, after env P s0 s obj (target ch) (pending_messages (mixin ch))) s.
Proof.
  intros Hg Ho. unfold maybe_send_gone. eapply wp_channel; [exact Ho|].
  pose proof (pending_gone (mixin ch)) as Hp.
  destruct (tp_message_mixin_maybe_send_gone (mixin ch)) as [gone x]. cbn in Hp.
  apply wp_bind. eapply wp_mono; [|apply (after_put env P s0 s obj ch (with_mixin ch x)); [done|done|done|]].
  2: { cbn. by rewrite Hp. }
  cbn. rewrite Hp. intros ? s1 Ha. wp_step; [|done]. pose proof Ha as Ha'.
  destruct Ha' as (Hg1 & Hc1 & Hs1 & _ & ch1 & Ho1 & Ht1 & Hp1).
  apply wp_bind. eapply wp_mono; [|by apply (send_chat_state_good env P s0 s1 obj ch1)].
  intros ? s2 Ha2. wp_step. rewrite Ht1, Hp1 in Ha2.
  by eapply after_trans.
Qed.

Lemma dispose_good env P s0 s obj ch :
  good env P s0 s → objects s !! obj = Some ch →
  wp (gabble_im_channel_dispose env obj)
    (λ _, after env P s0 s obj (target ch) (pending_messages (mixin ch))) s.
Proof.
  intros Hg Ho. unfold gabble_im_channel_dispose. eapply wp_channel; [exact Ho|].
  assert (Hm : ∀ s1, after env P s0 s obj (target ch) (pending_messages (mixin ch)) s1 →
    wp (maybe_send_gone env obj)
      (λ _, after env P s0 s obj (target ch) (pending_messages (mixin ch))) s1).
  { intros s1 Ha. pose proof Ha as (Hg1 & _ & _ & _ & ch1 & Ho1 & Ht1 & Hp1).
    eapply wp_mono; [|by apply (maybe_send_gone_good env P s0 s1 obj ch1)].
    intros ? s2 Ha2. rewrite Ht1, Hp1 in Ha2. by eapply after_trans. }
  pose proof (after_here _ _ _ _ _ _ Hg Ho) as Hs.
  wp_step. wp_step; [wp_step|]; [unfold emit; wp_step| |]; apply Hm; [by apply after_emit|done|done].
Qed.

Lemma not_referenced s obj :
  referenced s obj = false →
  (∀ h, lookup_channel s h ≠ Some obj) ∧ (∀ n c, sends s !! n = Some c → c_channel c ≠ obj).
Proof.
  unfold referenced. intros [Hc Hs]%orb_false_iff. split.
  - unfold lookup_channel. intros h Hl. destruct (channels s) as [m|]; [|done]. cbn in Hl.
    apply bool_decide_eq_false in Hc. apply Hc, list_elem_of_fmap.
    exists (h, obj). split; [done|]. by apply elem_of_map_to_list.
  - intros n c Hn <-. apply bool_decide_eq_false in Hs. apply Hs, list_elem_of_fmap.
    exists (n, c). split; [done|]. by apply elem_of_map_to_list.
Qed.

Lemma unref_good env P s0 s obj :
  good env P s0 s → is_Some (objects s !! obj) →
  wp (unref_channel env obj)
    (λ _ s', good env P s0 s' ∧ channels s' = channels s ∧ sends s' = sends s ∧
      ∀ o, o ≠ obj → is_Some (objects s !! o) → is_Some (objects s' !! o)) s.
Proof.
  intros Hg [ch Ho]. unfold unref_channel. wp_step. wp_step. wp_step; [by wp_step|].
  apply not_referenced in E as [Hnt Hns].
  apply wp_bind. eapply wp_mono; [|by apply (dispose_good env P s0 s obj ch)].
  intros ? s1 ([[Hob Ht Hse Hn] Hev Hk] & Hc1 & Hs1 & Hdom & ch1 & Ho1 & _).
  wp_step. wp_step. unfold put_objects. wp_step. split.
  2: { split; [done|]. split; [done|]. intros o Hne Hx%Hdom. cbn. by rewrite lookup_delete_ne. }
  split; [split; cbn|done|].
  - intros o [_ Hx]%lookup_delete_is_Some. by apply Hob.
  - intros m h o Hm Hh. destruct (Ht m h o Hm Hh) as (c & Hc & Hth). exists c.
    rewrite lookup_delete_ne; [done|]. intros <-. apply (Hnt h).
    unfold lookup_channel. by rewrite <-Hc1, Hm.
  - intros n c Hc. apply lookup_delete_is_Some. split; [|by apply (Hse n)].
    rewrite Hs1 in Hc. intros Heq. by apply (Hns n c Hc).
  - done.
  - intros h o c HP Hl Hoc Hne. destruct (Hk h o c HP Hl Hoc Hne) as (Hl' & c' & Hc' & Hpre).
    split; [done|]. exists c'. cbn. rewrite lookup_delete_ne; [done|].
    intros <-. apply (Hnt h). unfold lookup_channel in *. by rewrite <-Hc1.
Qed.

(** The table of messages being sent changes. *)
Lemma good_sends env P s0 s m n :
  good env P s0 s → (∀ k c, m !! k = Some c → is_Some (objects s !! c_channel c)) →
  (∀ k, is_Some (m !! k) → (k < n)%nat) →
  good env P s0 (mkFactory (objects s) (next_object s) (channels s) m n (contact_repo s) (events s)).
Proof. intros [[] He Hk] Hm Hn. split; [by split|done|done]. Qed.

Lemma good_repo env P s0 s r :
  good env P s0 s →
  good env P s0 (mkFactory (objects s) (next_object s) (channels s) (sends s) (next_send s) r (events s)).
Proof. intros [[] He Hk]. split; [by split|done|done]. Qed.

Lemma message_sent_good env P s0 s serial ok :
  good env P s0 s → is_Some (sends s !! serial) →
  wp (_gabble_im_channel_message_sent_cb env serial ok) (λ _ s', good env P s0 s') s.
Proof.
  intros Hg [c Hc]. destruct (ok_sends _ (good_ok _ _ _ _ Hg) _ _ Hc) as [ch Ho].
  unfold _gabble_im_channel_message_sent_cb. wp_step. wp_step. rewrite Hc.
  eapply wp_channel; [exact Ho|]. wp_step. unfold emit. wp_step. wp_step. wp_step. cbn [sends next_send].
  unfold put_sends. wp_step. wp_step. eapply wp_mono; [|apply (unref_good env P s0)].
  - by intros ? s1 (? & _).
  - apply (good_sends _ _ _ (mkFactory (objects s) (next_object s) (channels s) (sends s) (next_send s)
      (contact_repo s) (events s ++ _))).
    + apply good_emit; [by destruct ok|done].
    + intros k c' [_ Hk]%lookup_delete_Some. by apply (ok_sends _ (good_ok _ _ _ _ Hg) k).
    + intros k [_ Hk]%lookup_delete_is_Some. by apply (ok_next_send _ (good_ok _ _ _ _ Hg)).
  - by exists ch.
Qed.

Lemma send_message_good env P s0 s obj ch message report :
  good env P s0 s → objects s !! obj = Some ch →
  wp (_gabble_im_channel_send_message env obj message report) (λ _ s', good env P s0 s') s.
Proof.
  intros Hg Ho. unfold _gabble_im_channel_send_message. eapply wp_channel; [exact Ho|].
  assert (Hend : ∀ s1, good env P s0 s1 → objects s1 = objects s →
    wp (put_channel obj (with_nick ch false)) (λ _ s', good env P s0 s') s1).
  { intros s1 Hg1 Ho1. rewrite <-Ho1 in Ho.
    eapply wp_mono; [|by apply (after_put env P s0 s1 obj ch)]. by intros ? s2 [Hg2 _]. }
  apply wp_bind. apply (wp_mono _ (λ _ s1, good env P s0 s1 ∧ objects s1 = objects s)).
  2: { wp_step; [|done]. unfold emit. wp_step. split; [by apply good_emit|done]. }
  intros ? s1 [Hg1 Ho1]. apply wp_bind.
  destruct (gabble_message_util_build_stanza _ _ _ _ _ _ _) as [stanza|].
  - wp_step. unfold emit. wp_step. wp_step. wp_step. cbn [sends next_send]. unfold put_sends.
    wp_step. wp_step. wp_step. apply Hend; [|done].
    apply good_emit; [done|].
    apply (good_sends _ _ _ (mkFactory (objects s1) (next_object s1) (channels s1) (sends s1)
      (next_send s1) (contact_repo s1) (events s1 ++ [UpdateLastUse]))).
    + by apply good_emit.
    + intros k c [[<- <-]|[_ Hk]]%lookup_insert_Some; [cbn; rewrite Ho1; by exists ch|].
      by apply (ok_sends _ (good_ok _ _ _ _ Hg1) k).
    + intros k [->|[_ Hk]]%lookup_insert_is_Some; [lia|].
      apply (ok_next_send _ (good_ok _ _ _ _ Hg1)) in Hk. lia.
  - unfold emit. wp_step. apply Hend; [by apply good_emit|done].
Qed.

Lemma take_received_good env P s0 s obj ch m :
  good env P s0 s → objects s !! obj = Some ch →
  wp (take_received obj m)
    (λ _, after env P s0 s obj (target ch) (pending_messages (mixin ch) ++ [m])) s.
Proof.
  intros Hg Ho. unfold take_received. eapply wp_channel; [exact Ho|]. apply wp_bind.
  eapply wp_mono; [|apply (after_put env P s0 s obj ch); [done|done|done|]].
  2: { cbn. rewrite pending_take. by apply prefix_app_r. }
  intros ? s1 Ha. cbn [mixin with_mixin] in Ha. rewrite pending_take in Ha.
  unfold emit. wp_step. by apply after_emit.
Qed.

Lemma state_receive_good env P s0 s obj ch st :
  good env P s0 s → objects s !! obj = Some ch →
  wp (_gabble_im_channel_state_receive obj st)
    (λ _, after env P s0 s obj (target ch) (pending_messages (mixin ch))) s.
Proof.
  intros Hg Ho. unfold _gabble_im_channel_state_receive. eapply wp_channel; [exact Ho|]. apply wp_bind.
  eapply wp_mono; [|by apply (after_put env P s0 s obj ch (with_support ch CHAT_STATES_SUPPORTED))].
  intros ? s1 Ha. unfold emit. wp_step. by apply after_emit.
Qed.

Lemma delivery_report_good env P s0 s obj ch message jid id :
  good env P s0 s → objects s !! obj = Some ch →
  wp (maybe_send_delivery_report env obj message jid id)
    (λ _, after env P s0 s obj (target ch) (pending_messages (mixin ch))) s.
Proof.
  intros Hg Ho. pose proof (after_here _ _ _ _ _ _ Hg Ho) as Hs.
  unfold maybe_send_delivery_report. eapply wp_channel; [exact Ho|].
  destruct id as [i|]; [|by wp_step]. wp_step; [by wp_step|]. wp_step; [by wp_step|].
  wp_step. unfold _gabble_connection_send. wp_step; [|by wp_steps].
  unfold emit. wp_steps. apply after_emit; [|done]. cbn. right.
  apply orb_false_iff in E0 as [Hh Hp%negb_false_iff]. by exists (target ch), jid, i.
Qed.

Lemma receive_good env P s0 s obj ch message ty from stamp id text st :
  good env P s0 s → objects s !! obj = Some ch →
  wp (_gabble_im_channel_receive env obj message ty from stamp id text st)
    (λ _ s', good env P s0 s') s.
Proof.
  intros Hg Ho. unfold _gabble_im_channel_receive. eapply wp_channel; [exact Ho|]. apply wp_bind.
  eapply wp_mono; [|by apply (after_put env P s0 s obj ch (with_peer ch from))].
  intros ? s1 (Hg1 & _ & _ & _ & ch1 & Ho1 & Ht1 & Hp1). apply wp_bind.
  assert (Hst : wp (match st with
      | None => ch ← get_channel obj; put_channel obj (with_support ch CHAT_STATES_NOT_SUPPORTED)
      | Some st => _gabble_im_channel_state_receive obj st end)
      (λ _, after env P s0 s1 obj (target ch1) (pending_messages (mixin ch1))) s1).
  { destruct st as [st|]; [by apply state_receive_good|]. eapply wp_channel; [exact Ho1|].
    by apply (after_put env P s0 s1 obj ch1 (with_support ch1 CHAT_STATES_NOT_SUPPORTED)). }
  eapply wp_mono; [|exact Hst]. intros ? s2 (Hg2 & _ & _ & _ & ch2 & Ho2 & _). apply wp_bind.
  eapply wp_mono; [|by apply (take_received_good env P s0 s2 obj ch2)].
  intros ? s3 (Hg3 & _ & _ & _ & ch3 & Ho3 & _).
  eapply wp_mono; [|by apply (delivery_report_good env P s0 s3 obj ch3)]. by intros ? s4 [Hg4 _].
Qed.

Lemma report_delivery_good env P s0 s obj ch ty stamp id text e ds :
  good env P s0 s → objects s !! obj = Some ch →
  wp (_gabble_im_channel_report_delivery env obj ty stamp id text e ds) (λ _ s', good env P s0 s') s.
Proof.
  intros Hg Ho. unfold _gabble_im_channel_report_delivery. eapply wp_channel; [exact Ho|].
  set (m := DeliveryReport _ _ _ _ _ _ _).
  assert (Ht : ∀ s1, good env P s0 s1 → is_Some (objects s1 !! obj) →
    wp (take_received obj m) (λ _ s', good env P s0 s') s1).
  { intros s1 Hg1 [ch1 Ho1]. eapply wp_mono; [|by apply (take_received_good env P s0 s1 obj ch1)].
    by intros ? s2 [Hg2 _]. }
  wp_step. wp_step; [|apply Ht; [done|by exists ch]].
  eapply wp_mono; [|by apply (after_put env P s0 s obj ch (with_support
    (with_peer ch (gabble_remove_resource (peer_jid ch))) CHAT_STATES_UNKNOWN))].
  intros ? s1 (Hg1 & _ & _ & _ & ch1 & Ho1 & _). apply Ht; [done|by exists ch1].
Qed.

(** A channel leaves the table: it has no messages, or may lose them. *)
Lemma good_remove env P s0 s m obj ch :
  good env P s0 s → channels s = Some m → m !! target ch = Some obj → objects s !! obj = Some ch →
  (P obj → pending_messages (mixin ch) = []) →
  good env P s0 (mkFactory (objects s) (next_object s) (Some (delete (target ch) m)) (sends s)
                   (next_send s) (contact_repo s) (events s)).
Proof.
  intros [[Ho Ht Hs Hn] He Hk] Hm Hl Hch Hp. split; [split; cbn; [done| |done|done]|done|].
  - intros m' h o [= <-] [_ Hh]%lookup_delete_Some. by apply (Ht m).
  - intros h o c HP Hl0 Hc Hne. destruct (Hk h o c HP Hl0 Hc Hne) as (Hl' & c' & Hc' & Hpre).
    split; [|by exists c']. unfold lookup_channel in *. cbn. rewrite Hm in Hl'. cbn in Hl'.
    destruct (decide (h = target ch)) as [->|Hno]; [|by rewrite lookup_delete_ne].
    assert (o = obj) as -> by congruence. rewrite Hch in Hc'. injection Hc' as <-.
    rewrite (Hp HP) in Hpre. by apply prefix_nil_inv in Hpre.
Qed.

Lemma closed_good env P s0 s m obj ch c :
  good env P s0 s → channels s = Some m → m !! target ch = Some obj → objects s !! obj = Some ch →
  (c = Destroyed → P obj → pending_messages (mixin ch) = []) →
  wp (im_channel_closed_cb env obj c) (λ _ s', good env P s0 s') s.
Proof.
  intros Hg Hm Hl Ho Hp. unfold im_channel_closed_cb. eapply wp_channel; [exact Ho|].
  wp_step. unfold emit at 1. wp_step. wp_step. wp_step. cbn [channels]. rewrite Hm.
  destruct c.
  - wp_step. unfold put_channels. wp_step. cbn. eapply wp_mono; [|apply (unref_good env P s0)].
    + by intros ? s1 [Hg1 _].
    + apply (good_remove env P s0 (mkFactory (objects s) (next_object s) (channels s) (sends s)
        (next_send s) (contact_repo s) (events s ++ [ChannelClosed obj])) m obj ch); [|done..|].
      * by apply good_emit.
      * by apply Hp.
    + by exists ch.
  - unfold emit. wp_step. rewrite <-Hm.
    apply (good_emit env P s0 (mkFactory (objects s) (next_object s) (channels s) (sends s)
      (next_send s) (contact_repo s) (events s ++ [ChannelClosed obj]))); [done|].
    by apply good_emit.
Qed.

Lemma close_good env P s0 s m obj ch :
  good env P s0 s → channels s = Some m → m !! target ch = Some obj → objects s !! obj = Some ch →
  wp (gabble_im_channel_close env obj) (λ _ s', good env P s0 s') s.
Proof.
  intros Hg Hm Hl Ho. unfold gabble_im_channel_close. apply wp_bind.
  eapply wp_mono; [|by apply (maybe_send_gone_good env P s0 s obj ch)].
  intros ? s1 (Hg1 & Hc1 & _ & _ & ch1 & Ho1 & Ht1 & Hp1). eapply wp_channel; [exact Ho1|].
  rewrite Hm in Hc1. rewrite <-Ht1 in Hl.
  destruct (pending_messages (mixin ch1)) as [|q l] eqn:Eq.
  - apply (closed_good env P s0 s1 m obj ch1); done.
  - apply wp_bind. eapply wp_mono; [|apply (after_put env P s0 s1 obj ch1
      (with_mixin ch1 (tp_message_mixin_set_rescued (mixin ch1)))); [done|done|done|]].
    2: { cbn. by rewrite pending_rescued. }
    intros ? s2 (Hg2 & Hc2 & _ & _ & ch2 & Ho2 & Ht2 & _). rewrite Hc1 in Hc2. rewrite <-Ht2 in Hl.
    by apply (closed_good env P s0 s2 m obj ch2).
Qed.

(** The queue of [obj] may lose messages. *)
Lemma put_losing env (P : nat → Prop) s0 s obj ch ch' :
  good env P s0 s → objects s !! obj = Some ch → target ch' = target ch → ¬ P obj →
  wp (put_channel obj ch') (λ _ s', good env P s0 s' ∧ channels s' = channels s ∧
                                    objects s' !! obj = Some ch') s.
Proof.
  intros Hg Ho Ht HP. unfold put_channel. wp_step. wp_step. unfold put_objects. wp_step.
  split; [by eapply good_put|]. split; [done|]. cbn. by rewrite lookup_insert_eq.
Qed.

Lemma destroy_good env (P : nat → Prop) s0 s m obj ch :
  good env P s0 s → channels s = Some m → m !! target ch = Some obj → objects s !! obj = Some ch →
  ¬ P obj → wp (gabble_im_channel_destroy env obj) (λ _ s', good env P s0 s') s.
Proof.
  intros Hg Hm Hl Ho HP. unfold gabble_im_channel_destroy. eapply wp_channel; [exact Ho|].
  apply wp_bind. eapply wp_mono; [|by apply (put_losing env P s0 s obj ch)].
  intros ? s1 (Hg1 & Hc1 & Ho1). rewrite Hm in Hc1.
  by apply (close_good env P s0 s1 m obj (with_mixin ch (tp_message_mixin_clear (mixin ch)))).
Qed.

(** ** The factory *)

Lemma ensure_contact_good env P s0 s jid :
  good env P s0 s →
  wp (ensure_contact g_utf8_strdown g_utf8_normalize jid)
    (λ _ s', good env P s0 s' ∧ objects s' = objects s ∧ channels s' = channels s) s.
Proof.
  intros Hg. unfold ensure_contact. wp_step. wp_step. wp_step; [|by wp_step].
  destruct (tp_handle_ensure (contact_repo s) s1) as [r h]. wp_step. unfold put_repo. wp_step. wp_step.
  split; [by apply good_repo|done].
Qed.

Lemma new_channel_good env P s0 s handle token :
  good env P s0 s → lookup_channel s handle = None →
  wp (new_im_channel env handle token)
    (λ obj s', good env P s0 s' ∧ is_Some (objects s' !! obj)) s.
Proof.
  intros Hg Hl. unfold new_im_channel. wp_step. wp_step. wp_step. unfold put_objects. wp_step.
  wp_step. unfold put_channels. wp_step. wp_step. unfold emit. wp_step. wp_step. cbn.
  split; [|rewrite lookup_insert_eq; by eexists].
  set (ch := gabble_im_channel_constructed env (contact_repo s) handle).
  destruct Hg as [[Ho Ht Hs Hn] (new & Hnew & Hd) Hk].
  assert (Hfresh : objects s !! next_object s = None).
  { destruct (objects s !! next_object s) eqn:E; [|done].
    assert (next_object s < next_object s)%nat by (apply Ho; by eexists). lia. }
  split; [split; cbn| |].
  - intros o [->|[_ Hx%Ho]]%lookup_insert_is_Some; lia.
  - intros m' h o Hm'. destruct (channels s) as [m|] eqn:Em; [|done]. injection Hm' as <-.
    intros [[<- <-]|[Hne Hh]]%lookup_insert_Some.
    + exists ch. by rewrite lookup_insert_eq.
    + destruct (Ht m h o eq_refl Hh) as (c & Hc & Hth). exists c. split; [|done].
      rewrite lookup_insert_ne; [done|]. congruence.
  - intros n c Hc. apply lookup_insert_is_Some'. right. by apply (Hs n).
  - done.
  - exists (new ++ [NewChannel (next_object s) handle (option_list token)]). cbn.
    rewrite Hnew, app_assoc. split; [done|]. apply Forall_app. by repeat constructor.
  - intros h o c HP Hl0 Hc Hne. destruct (Hk h o c HP Hl0 Hc Hne) as (Hl' & c' & Hc' & Hpre).
    unfold lookup_channel in *. cbn. destruct (channels s) as [m|]; [|done]. cbn in *.
    rewrite !lookup_insert_ne by congruence. split; [done|]. by exists c'.
Qed.

Lemma incoming_channel_good env P s0 s jid create :
  good env P s0 s →
  wp (get_channel_for_incoming_message g_utf8_strdown g_utf8_normalize env jid create)
    (λ o s', good env P s0 s' ∧ ∀ obj, o = Some obj → is_Some (objects s' !! obj)) s.
Proof.
  intros Hg. unfold get_channel_for_incoming_message. apply wp_bind.
  eapply wp_mono; [|by apply (ensure_contact_good env P s0 s)].
  intros h s1 (Hg1 & _). cbv beta. wp_step; [by wp_step|]. wp_step. wp_step. cbv beta.
  destruct (lookup_channel s1 h) as [obj|] eqn:El.
  - wp_step. split; [done|]. intros o [= <-]. unfold lookup_channel in El.
    destruct (channels s1) as [m|] eqn:Em; [|done]. cbn in El.
    destruct (ok_table _ (good_ok _ _ _ _ Hg1) _ _ _ Em El) as (ch & Hch & _). by exists ch.
  - destruct create; [|by wp_step]. apply wp_bind.
    eapply wp_mono; [|by apply (new_channel_good env P s0 s1)].
    intros obj s2 [Hg2 Ho2]. wp_step. split; [done|]. by intros o [= <-].
Qed.

Lemma message_cb_good env P s0 s message :
  good env P s0 s →
  wp (im_factory_message_cb g_utf8_strdown g_utf8_normalize from_iso8601 error_domains env message)
    (λ _ s', good env P s0 s') s.
Proof.
  intros Hg. unfold im_factory_message_cb.
  destruct (gabble_message_util_parse_incoming_message _ _ _) as [i|]; [|by wp_step].
  wp_step; [by wp_step|]. apply wp_bind.
  eapply wp_mono; [|by apply (incoming_channel_good env P s0 s)].
  intros o s1 [Hg1 Ho1]. cbv beta. destruct o as [obj|]; [|by wp_step].
  destruct (Ho1 obj eq_refl) as [ch Ho]. apply wp_bind.
  apply (wp_mono _ (λ _ s', good env P s0 s')); [intros; by wp_step|].
  destruct (i_send_error i), (i_body i), (i_state i); try (by wp_step).
  - by apply (report_delivery_good env P s0 s1 obj ch).
  - by apply (report_delivery_good env P s0 s1 obj ch).
  - by apply (receive_good env P s0 s1 obj ch).
  - by apply (receive_good env P s0 s1 obj ch).
  - eapply wp_mono; [|by apply (state_receive_good env P s0 s1 obj ch)]. by intros ? s2 [Hg2 _].
Qed.

Lemma receipt_cb_good env P s0 s message :
  good env P s0 s →
  wp (im_factory_receipt_cb g_utf8_strdown g_utf8_normalize env message)
    (λ _ s', good env P s0 s') s.
Proof.
  intros Hg. unfold im_factory_receipt_cb. wp_step; [|by wp_step]. wp_step; [|by wp_step].
  wp_step; [|by wp_step]. apply wp_bind. eapply wp_mono; [|by apply (incoming_channel_good env P s0 s)].
  intros o t1 [Hg1 Ho1]. cbv beta. destruct o as [obj|]; [|by wp_step].
  destruct (Ho1 obj eq_refl) as [ch Ho]. apply wp_bind.
  eapply wp_mono; [|by apply (report_delivery_good env P s0 t1 obj ch)]. intros. by wp_step.
Qed.

Lemma own_message_cb_good env P s0 s stanza :
  good env P s0 s →
  wp (im_factory_own_message_cb g_utf8_strdown g_utf8_normalize env stanza)
    (λ _ s', good env P s0 s') s.
Proof.
  intros Hg. unfold im_factory_own_message_cb. wp_step; [|by wp_step]. wp_step; [|by wp_step].
  wp_step; [|by wp_step]. apply wp_bind. eapply wp_mono; [|by apply (incoming_channel_good env P s0 s)].
  intros o t1 [Hg1 Ho1]. cbv beta. apply wp_bind.
  apply (wp_mono _ (λ _ s', good env P s0 s')).
  { intros ? t2 Hg2. wp_step. unfold emit. wp_step. wp_step. by apply good_emit. }
  destruct o as [obj|]; [|by wp_step]. destruct (Ho1 obj eq_refl) as [ch Ho].
  by apply (report_delivery_good env P s0 t1 obj ch).
Qed.

Lemma table_values_distinct s m : im_ok s → channels s = Some m → NoDup (map_to_list m).*2.
Proof.
  intros Hok Hm. apply NoDup_fmap_2_strong; [|apply NoDup_map_to_list].
  intros [h o] [h' o'] Ha%elem_of_map_to_list Hb%elem_of_map_to_list. cbn. intros ->.
  destruct (ok_table _ Hok _ _ _ Hm Ha) as (c & Hc & <-).
  destruct (ok_table _ Hok _ _ _ Hm Hb) as (c' & Hc' & <-). congruence.
Qed.

Lemma close_all_good env s :
  im_ok s → wp (gabble_im_factory_close_all env) (λ _ s', good env (λ _, False) s s') s.
Proof.
  intros Hok. unfold gabble_im_factory_close_all. wp_step. wp_step. wp_step. unfold put_channels. wp_step.
  assert (Hg : good env (λ _, False) s (mkFactory (objects s) (next_object s) None (sends s)
    (next_send s) (contact_repo s) (events s))).
  { destruct (good_refl env (λ _, False) s Hok) as [[] He _]. split; [by split|done|].
    by intros h o ch []. }
  destruct (channels s) as [m|] eqn:Em; [|by wp_step].
  eapply (wp_mono _ (λ _ s', good env (λ _, False) s s' ∧ NoDup (@nil nat) ∧ ∀ o, o ∈ @nil nat → _));
    [by intros ? s' [? _]|].
  apply (wp_for_each (λ l s', good env (λ _, False) s s' ∧ NoDup l ∧
    ∀ o, o ∈ l → is_Some (objects s' !! o))).
  - intros o l s1 (Hg1 & Hnd & Hin). inversion Hnd as [|? ? Hnin Hnd']; subst.
    eapply wp_mono; [|apply (unref_good env (λ _, False) s s1 o); [done|apply Hin; left]].
    intros ? s2 (Hg2 & _ & _ & Hdom). split; [done|]. split; [done|].
    intros o' Ho'. apply Hdom; [congruence|]. apply Hin. by right.
  - split; [done|]. split; [by eapply table_values_distinct|].
    intros o ([h o'] & -> & Ho%elem_of_map_to_list)%list_elem_of_fmap. cbn.
    destruct (ok_table _ Hok _ _ _ Em Ho) as (c & Hc & _). by exists c.
Qed.

(** ** Inputs *)

Inductive im_input :=
  | Message (stanza : WockyNode)
  | Receipt (stanza : WockyNode)
  | OwnMessage (stanza : WockyNode)
  | Send (obj : nat) (message : TpMessage) (report : bool)
  | SendFinished (serial : nat) (success : bool)
  | SetChatState (obj : nat) (state : TpChannelChatState)
  | Acknowledge (obj : nat) (i : nat)
  | Close (obj : nat)
  | Destroy (obj : nat)
  | Request (token handle : Z) (require_new : bool)
  | Disconnected.

(** The user acknowledges a message: the queue is told. *)
Definition acknowledge (obj i : nat) : M Factory unit :=
  ch ← get_channel obj;
  put_channel obj (with_mixin ch (acknowledge_pending (mixin ch) i)).

Definition run_input (env : Env) (i : im_input) : M Factory unit :=
  match i with
  | Message m =>
      im_factory_message_cb g_utf8_strdown g_utf8_normalize from_iso8601 error_domains env m ;; mret tt
  | Receipt m => im_factory_receipt_cb g_utf8_strdown g_utf8_normalize env m ;; mret tt
  | OwnMessage m => im_factory_own_message_cb g_utf8_strdown g_utf8_normalize env m ;; mret tt
  | Send obj m report => _gabble_im_channel_send_message env obj m report
  | SendFinished serial ok => _gabble_im_channel_message_sent_cb env serial ok
  | SetChatState obj st => _gabble_im_channel_send_chat_state env obj st ;; mret tt
  | Acknowledge obj k => acknowledge obj k
  | Close obj => gabble_im_channel_close env obj
  | Destroy obj => gabble_im_channel_destroy env obj
  | Request token handle new => gabble_im_factory_requestotron env token handle new ;; mret tt
  | Disconnected => gabble_im_factory_close_all env
  end.

(** The user calls methods of channels that are on the bus; a send finishes
    once; a request is for a contact. *)
Definition input_ok s (i : im_input) : Prop :=
  match i with
  | Send obj _ _ | SetChatState obj _ | Acknowledge obj _ | Close obj | Destroy obj =>
      ∃ h, lookup_channel s h = Some obj
  | SendFinished serial _ => is_Some (sends s !! serial)
  | Request _ handle _ => handle ≠ 0
  | _ => True
  end.

(** The channels whose messages the input does not drop. *)
Definition spares (i : im_input) (o : nat) : Prop :=
  match i with
  | Acknowledge obj _ | Destroy obj => o ≠ obj
  | Disconnected => False
  | _ => True
  end.

Lemma on_bus s h obj :
  im_ok s → lookup_channel s h = Some obj →
  ∃ m ch, channels s = Some m ∧ m !! target ch = Some obj ∧ objects s !! obj = Some ch.
Proof.
  intros Hok Hl. unfold lookup_channel in Hl. destruct (channels s) as [m|] eqn:Em; [|done].
  cbn in Hl. destruct (ok_table _ Hok _ _ _ Em Hl) as (ch & Hch & <-). by exists m, ch.
Qed.

Lemma im_input_good env s i :
  im_ok s → input_ok s i → wp (run_input env i) (λ _ s', good env (spares i) s s') s.
Proof.
  intros Hok Hi. pose proof (good_refl env (spares i) s Hok) as Hg.
  assert (Hret : ∀ {A} (m : M Factory A), wp m (λ _ s', good env (spares i) s s') s →
    wp (m ;; mret tt) (λ _ s', good env (spares i) s s') s).
  { intros A m Hm. apply wp_bind. eapply wp_mono; [|exact Hm]. intros. by wp_step. }
  destruct i as [m|m|m|obj m r|n b|obj st|obj k|obj|obj|t h b|]; cbn [run_input input_ok] in *.
  - apply Hret. by apply message_cb_good.
  - apply Hret. by apply receipt_cb_good.
  - apply Hret. by apply own_message_cb_good.
  - destruct Hi as [h Hl]. destruct (on_bus _ _ _ Hok Hl) as (tab & ch & _ & _ & Ho).
    by apply (send_message_good env _ s s obj ch).
  - by apply message_sent_good.
  - destruct Hi as [h Hl]. destruct (on_bus _ _ _ Hok Hl) as (tab & ch & _ & _ & Ho). apply Hret.
    eapply wp_mono; [|by apply (send_chat_state_good env (spares (SetChatState obj st)) s s obj ch)]. by intros ? s1 [? _].
  - destruct Hi as [h Hl]. destruct (on_bus _ _ _ Hok Hl) as (tab & ch & _ & _ & Ho).
    unfold acknowledge. eapply wp_channel; [exact Ho|].
    eapply wp_mono; [|apply (put_losing env (spares (Acknowledge obj k)) s s obj ch); [done|done|done|]].
    + by intros ? s1 [? _].
    + cbn. by intros Hne.
  - destruct Hi as [h Hl]. destruct (on_bus _ _ _ Hok Hl) as (tab & ch & Hc & Ht & Ho).
    by apply (close_good env _ s s tab obj ch).
  - destruct Hi as [h Hl]. destruct (on_bus _ _ _ Hok Hl) as (tab & ch & Hc & Ht & Ho).
    apply (destroy_good env _ s s tab obj ch); [done..|]. cbn. by intros Hne.
  - apply Hret. unfold gabble_im_factory_requestotron. wp_step.
    wp_step; [by apply negb_true_iff, Z.eqb_neq|]. wp_step. wp_step. cbv beta.
    destruct (lookup_channel s h) as [o|] eqn:El.
    + wp_step. destruct b; unfold emit; wp_step; wp_step; by apply good_emit.
    + apply wp_bind. eapply wp_mono; [|by apply (new_channel_good env (spares (Request t h b)) s s)].
      intros ? s1 [? _]. by wp_step.
  - by apply close_all_good.
Qed.

(** ** Theorems *)

Inductive reachable : Factory → Prop :=
  | reach_init repo : reachable (gabble_im_factory_init repo)
  | reach_step env i s s' :
      reachable s → input_ok s i → run_input env i s = Ok (tt, s') → reachable s'.

Lemma im_init_ok repo : im_ok (gabble_im_factory_init repo).
Proof. split; cbn; [by intros o [? ?]|by intros m h o [= <-]|done|by intros n [? ?]]. Qed.

Lemma wp_Ok {A} (m : M Factory A) Q s a s' : wp m Q s → m s = Ok (a, s') → Q a s'.
Proof. intros Hw Hm. unfold wp in Hw. by rewrite Hm in Hw. Qed.

Lemma reachable_ok s : reachable s → im_ok s.
Proof.
  induction 1 as [repo|env i s s' _ IH Hi Hr]; [apply im_init_ok|].
  pose proof (wp_Ok _ _ _ _ _ (im_input_good env s i IH Hi) Hr) as Hg. apply Hg.
Qed.

(** Acknowledging a message takes that one message out of its channel's
    queue, and leaves the channel where it is. *)
Definition takes_only (i : im_input) s s' : Prop :=
  match i with
  | Acknowledge obj k => ∀ h ch, lookup_channel s h = Some obj → objects s !! obj = Some ch →
      lookup_channel s' h = Some obj ∧
      ∃ ch', objects s' !! obj = Some ch' ∧
             pending_messages (mixin ch') = delete k (pending_messages (mixin ch))
  | _ => True
  end.

Lemma takes_only_run env s i s' : input_ok s i → run_input env i s = Ok (tt, s') → takes_only i s s'.
Proof.
  intros Hi Hrun. destruct i; try done. intros h ch Hl Ho.
  cbn [run_input] in Hrun. unfold acknowledge in Hrun.
  apply bind_Ok in Hrun as (ch1 & s1 & Hg & Hrun).
  unfold get_channel in Hg. apply bind_Ok in Hg as (s2 & s3 & [= <- <-] & Hg).
  rewrite Ho in Hg. injection Hg as <- <-. unfold put_channel in Hrun.
  injection Hrun as <-. split; [done|]. cbn. rewrite lookup_insert_eq. eexists. split; [done|].
  apply pending_acknowledge.
Qed.

(** C29: in whatever order things happen (messages, errors and receipts from the
    network, the user's messages and requests, sends that finish or fail,
    channels that are closed while messages are under way), when methods are
    called of channels on the bus, a send finishes once and requests are for a
    contact ([input_ok]), the factory handles it without touching freed memory;
    a channel is that of one contact; a channel with messages the user has not
    acknowledged stays on the bus with all of them, unless the user
    acknowledges one of them, destroys it or the connection is gone; and
    acknowledging takes that one message out. *)
Theorem im_messages_kept env s i :
  reachable s → input_ok s i →
  ∃ s', run_input env i s = Ok (tt, s') ∧ kept (spares i) s s' ∧ takes_only i s s' ∧
    ∀ h h' o, lookup_channel s' h = Some o → lookup_channel s' h' = Some o → h = h'.
Proof.
  intros Hr%reachable_ok Hi. pose proof (im_input_good env s i Hr Hi) as Hw. unfold wp in Hw.
  destruct (run_input env i s) as [[[] s']|] eqn:E; [|done]. exists s'.
  split_and!; [done|apply Hw|by eapply takes_only_run|].
  intros h h' o Hl Hl'. pose proof (good_ok _ _ _ _ Hw) as Hok. unfold lookup_channel in *.
  destruct (channels s') as [m|] eqn:Em; [|done].
  destruct (ok_table _ Hok _ _ _ Em Hl) as (ch & Ho & <-).
  destruct (ok_table _ Hok _ _ _ Em Hl') as (ch' & Ho' & <-). by simplify_eq.
Qed.

(** Nothing is sent behind the user's back but chat states to peers known to
    support them, and receipts, which only contacts get who see our presence
    and only while we are not invisible. *)
Theorem im_discreet env s i s' :
  reachable s → input_ok s i → run_input env i s = Ok (tt, s') →
  ∃ new, events s' = events s ++ new ∧ Forall (discreet env) new.
Proof.
  intros Hr%reachable_ok Hi Hrun.
  exact (good_events _ _ _ _ (wp_Ok _ _ _ _ _ (im_input_good env s i Hr Hi) Hrun)).
Qed.

(** The receipt that a message calls for. *)
Definition receipt_due (env : Env) (message : WockyNode) (h : Z) (from : string) (id : option string) :
    list im_event :=
  match id with
  | Some i =>
      if has_child message "request" NS_RECEIPTS && negb (self_hidden env) &&
         handle_gets_presence_from_us env h && has_porter env
      then [SendStanza (receipt_stanza from i)] else []
  | None => []
  end.

Lemma delivery_report_exact env s obj ch message jid id :
  objects s !! obj = Some ch →
  maybe_send_delivery_report env obj message jid id s =
  Ok (tt, mkFactory (objects s) (next_object s) (channels s) (sends s) (next_send s) (contact_repo s)
            (events s ++ receipt_due env message (target ch) jid id)).
Proof.
  intros Ho. unfold maybe_send_delivery_report, receipt_due.
  rewrite (bind_eq _ _ _ _ _ (get_channel_known _ _ _ Ho)).
  assert (Hs : s = mkFactory (objects s) (next_object s) (channels s) (sends s) (next_send s)
    (contact_repo s) (events s ++ [])) by (destruct s; cbn; by rewrite app_nil_r).
  destruct id as [i|]; [|by rewrite <-Hs].
  destruct (has_child message "request" NS_RECEIPTS); cbn [negb andb]; [|by rewrite <-Hs].
  destruct (self_hidden env); cbn [negb andb orb]; [by rewrite <-Hs|].
  destruct (handle_gets_presence_from_us env (target ch)); cbn [negb andb]; [|by rewrite <-Hs].
  unfold _gabble_connection_send. destruct (has_porter env); [done|by rewrite <-Hs].
Qed.

Lemma receive_exact env s obj ch message ty from stamp id text st :
  objects s !! obj = Some ch →
  let q := Plain (mkText (target ch) ty stamp text id) (time_NULL env) in
  ∃ ch', _gabble_im_channel_receive env obj message ty from stamp id text st s =
    Ok (tt, mkFactory (<[obj := ch']> (objects s)) (next_object s) (channels s) (sends s) (next_send s)
      (contact_repo s)
      (events s ++ match st with Some x => [ChatStateChanged obj (target ch) x] | None => [] end ++
       [MessageReceived obj q] ++ receipt_due env message (target ch) from id)) ∧
    peer_jid ch' = from ∧ pending_messages (mixin ch') = pending_messages (mixin ch) ++ [q].
Proof.
  intros Ho q. unfold _gabble_im_channel_receive.
  rewrite (bind_eq _ _ _ _ _ (get_channel_known _ _ _ Ho)).
  set (sup := match st with Some _ => CHAT_STATES_SUPPORTED | None => CHAT_STATES_NOT_SUPPORTED end).
  exists (with_mixin (with_support (with_peer ch from) sup) (tp_message_mixin_take_received (mixin ch) q)).
  split; [|split; [done|apply pending_take]].
  set (s1 := mkFactory (<[obj := with_peer ch from]> (objects s)) (next_object s) (channels s)
    (sends s) (next_send s) (contact_repo s) (events s)).
  rewrite (bind_eq _ _ _ tt s1) by done.
  assert (Ho1 : objects s1 !! obj = Some (with_peer ch from)) by apply lookup_insert_eq.
  set (s2 := mkFactory (<[obj := with_support (with_peer ch from) sup]> (objects s)) (next_object s)
    (channels s) (sends s) (next_send s) (contact_repo s)
    (events s ++ match st with Some x => [ChatStateChanged obj (target ch) x] | None => [] end)).
  rewrite (bind_eq _ _ _ tt s2).
  2: { destruct st as [x|].
       - unfold _gabble_im_channel_state_receive.
         rewrite (bind_eq _ _ _ _ _ (get_channel_known _ _ _ Ho1)).
         unfold put_channel, put_objects, emit, modify, mbind, M_bind, get. cbn.
         by rewrite insert_insert_eq.
       - rewrite (bind_eq _ _ _ _ _ (get_channel_known _ _ _ Ho1)).
         unfold put_channel, put_objects, modify, mbind, M_bind, get. cbn.
         subst s2. by rewrite insert_insert_eq, app_nil_r. }
  assert (Ho2 : objects s2 !! obj = Some (with_support (with_peer ch from) sup)) by apply lookup_insert_eq.
  set (ch' := with_mixin _ _).
  set (s3 := mkFactory (<[obj := ch']> (objects s)) (next_object s) (channels s) (sends s) (next_send s)
    (contact_repo s) (events s2 ++ [MessageReceived obj q])).
  rewrite (bind_eq _ _ _ tt s3).
  2: { unfold take_received. rewrite (bind_eq _ _ _ _ _ (get_channel_known _ _ _ Ho2)).
       unfold put_channel, put_objects, emit, modify, mbind, M_bind, get. cbn [objects s2].
       by rewrite insert_insert_eq. }
  rewrite (delivery_report_exact env s3 obj ch') by apply lookup_insert_eq.
  subst s3 s2. cbn. by rewrite <-!app_assoc.
Qed.

(** The name under which the repository knows a sender. *)
Definition contact_name s (jid : string) : option string :=
  gabble_normalize_contact g_utf8_strdown g_utf8_normalize
    (Some (λ n, negb (tp_handle_lookup (contact_repo s) n =? 0))) jid GABBLE_JID_ANY.

(** What is queued on a channel. *)
Definition queued s (obj : nat) : list QueuedMessage :=
  match objects s !! obj with Some ch => pending_messages (mixin ch) | None => [] end.

Lemma incoming_channel_exact env s m jid n :
  im_ok s → channels s = Some m → contact_name s jid = Some n →
  let h := (tp_handle_ensure (contact_repo s) n).2 in
  let obj := default (next_object s) (m !! h) in
  ∃ s1 ch, get_channel_for_incoming_message g_utf8_strdown g_utf8_normalize env jid true s =
      Ok (Some obj, s1) ∧
    objects s1 !! obj = Some ch ∧ target ch = h ∧ pending_messages (mixin ch) = queued s obj ∧
    lookup_channel s1 h = Some obj ∧ (∀ o, o ≠ obj → objects s1 !! o = objects s !! o) ∧
    events s1 = events s ++ match m !! h with Some _ => [] | None => [NewChannel obj h []] end.
Proof.
  intros Hok Hm Hn h obj. unfold get_channel_for_incoming_message.
  pose proof (ensure_nonzero (contact_repo s) n) as Hnz. fold h in Hnz.
  set (r := (tp_handle_ensure (contact_repo s) n).1).
  set (s0 := mkFactory (objects s) (next_object s) (channels s) (sends s) (next_send s) r (events s)).
  rewrite (bind_eq _ _ _ h s0).
  2: { unfold ensure_contact. rewrite (bind_eq _ _ s s s) by done.
       change (match contact_name s jid with None => mret 0 | Some n =>
         let '(r, h) := tp_handle_ensure (contact_repo s) n in put_repo r ;; mret h end s = Ok (h, s0)).
       rewrite Hn. subst h r s0. by destruct (tp_handle_ensure (contact_repo s) n). }
  apply Z.eqb_neq in Hnz. rewrite Hnz. rewrite (bind_eq _ _ s0 s0 s0) by done.
  unfold lookup_channel. cbn [channels s0]. rewrite Hm. cbn [mbind option_bind].
  subst obj. destruct (m !! h) as [o|] eqn:Eo; cbn [default from_option id].
  - destruct (ok_table _ Hok _ _ _ Hm Eo) as (ch & Hch & Ht).
    exists s0, ch. split; [done|]. split; [done|]. split; [done|].
    split; [unfold queued; by rewrite Hch|]. split; [|split; [done|by rewrite app_nil_r]].
    cbn [channels s0]. by rewrite Hm.
  - assert (Hfresh : objects s !! next_object s = None).
    { destruct (objects s !! next_object s) eqn:E; [|done].
      assert (next_object s < next_object s)%nat by (apply (ok_objects _ Hok); by eexists). lia. }
    set (ch := gabble_im_channel_constructed env r h).
    set (s1 := mkFactory (<[next_object s := ch]> (objects s)) (S (next_object s))
      (Some (<[h := next_object s]> m)) (sends s) (next_send s) r
      (events s ++ [NewChannel (next_object s) h []])).
    rewrite (bind_eq _ _ _ (next_object s) s1).
    2: { unfold new_im_channel, put_objects, put_channels, emit, modify, mbind, M_bind, get.
         cbn [channels s0 next_object objects sends next_send contact_repo events]. by rewrite Hm. }
    exists s1, ch. split; [done|]. cbn. split; [apply lookup_insert_eq|]. split; [done|].
    split; [unfold queued; rewrite Hfresh; apply pending_init|].
    split; [by rewrite lookup_insert_eq|]. split; [|done].
    intros o Hne. by rewrite lookup_insert_ne.
Qed.

Lemma incoming_text env s m message i body n :
  im_ok s → channels s = Some m →
  gabble_message_util_parse_incoming_message from_iso8601 error_domains message = Some i →
  i_send_error i = None → i_body i = Some body → contact_name s (i_from i) = Some n →
  let h := (tp_handle_ensure (contact_repo s) n).2 in
  let obj := default (next_object s) (m !! h) in
  let q := Plain (mkText h (i_msgtype i) (i_stamp i) body (i_id i)) (time_NULL env) in
  ∃ s' ch,
    im_factory_message_cb g_utf8_strdown g_utf8_normalize from_iso8601 error_domains env message s =
      Ok (true, s') ∧
    lookup_channel s' h = Some obj ∧ objects s' !! obj = Some ch ∧
    pending_messages (mixin ch) = queued s obj ++ [q] ∧ peer_jid ch = i_from i ∧
    (∀ o, o ≠ obj → objects s' !! o = objects s !! o) ∧
    events s' = events s ++ match m !! h with Some _ => [] | None => [NewChannel obj h []] end ++
      match i_state i with Some st => [ChatStateChanged obj h st] | None => [] end ++
      [MessageReceived obj q] ++ receipt_due env message h (i_from i) (i_id i).
Proof.
  intros Hr Hm Hparse He Hb Hn h obj q. unfold im_factory_message_cb.
  rewrite Hparse, Hb, He. cbn [andb]. rewrite bool_decide_eq_false_2 by done. cbn [andb].
  rewrite !bool_decide_eq_true_2 by done. cbn [andb].
  destruct (incoming_channel_exact env s m (i_from i) n Hr Hm Hn)
    as (s1 & ch1 & Hget & Ho1 & Ht1 & Hp1 & Hl1 & Hoth & Hev).
  rewrite (bind_eq _ _ _ _ _ Hget). fold h in Ht1, Hl1, Hev |- *. fold obj in Ho1, Hp1, Hl1, Hoth, Hev |- *.
  destruct (receive_exact env s1 obj ch1 message (i_msgtype i) (i_from i) (i_stamp i) (i_id i) body
    (i_state i) Ho1) as (ch & Hrun & Hpeer & Hpend).
  rewrite Ht1 in Hrun, Hpend. fold q in Hrun, Hpend.
  eexists _, ch. rewrite (bind_eq _ _ _ _ _ Hrun). split; [reflexivity|]. cbn.
  split; [exact Hl1|]. split; [apply lookup_insert_eq|]. split; [by rewrite Hpend, Hp1|].
  split; [done|]. split.
  - intros o Hne. rewrite lookup_insert_ne by done. by apply Hoth.
  - rewrite Hev. by rewrite <-app_assoc.
Qed.

(** A message with a text arrives in the channel to its sender, which is made
    if there is none: it is queued behind what is there, answered at the JID
    it came from, announced with the chat state that came with it, and
    receipted if it asks for that and the sender sees our presence.  Nothing
    else changes. *)
Theorem im_incoming env s m message i body n :
  reachable s → channels s = Some m →
  gabble_message_util_parse_incoming_message from_iso8601 error_domains message = Some i →
  i_send_error i = None → i_body i = Some body → contact_name s (i_from i) = Some n →
  let h := (tp_handle_ensure (contact_repo s) n).2 in
  let obj := default (next_object s) (m !! h) in
  let q := Plain (mkText h (i_msgtype i) (i_stamp i) body (i_id i)) (time_NULL env) in
  ∃ s' ch,
    im_factory_message_cb g_utf8_strdown g_utf8_normalize from_iso8601 error_domains env message s =
      Ok (true, s') ∧
    lookup_channel s' h = Some obj ∧ objects s' !! obj = Some ch ∧
    pending_messages (mixin ch) = queued s obj ++ [q] ∧ peer_jid ch = i_from i ∧
    (∀ o, o ≠ obj → objects s' !! o = objects s !! o) ∧
    events s' = events s ++ match m !! h with Some _ => [] | None => [NewChannel obj h []] end ++
      match i_state i with Some st => [ChatStateChanged obj h st] | None => [] end ++
      [MessageReceived obj q] ++ receipt_due env message h (i_from i) (i_id i).
Proof. intros Hr%reachable_ok. by apply incoming_text. Qed.

Lemma send_message_exact env s obj ch message report ty text :
  objects s !! obj = Some ch → check_message message = Some (ty, text) →
  ∃ s' stanza st,
    gabble_message_util_build_stanza message (generated_id env) (own_nick env) SUB_NONE st (peer_jid ch)
      (send_nick ch) = Some stanza ∧
    _gabble_im_channel_send_message env obj message report s = Ok (tt, s') ∧
    last (events s') = Some (SendAsync (next_send s)
      (requesting (report && receipts_conceivably_supported env ch) stanza)).
Proof.
  intros Ho Hc. unfold _gabble_im_channel_send_message.
  rewrite (bind_eq _ _ _ _ _ (get_channel_known _ _ _ Ho)).
  set (st := if chat_states_supported env ch true then Some STATE_ACTIVE else None).
  assert (∃ stanza, gabble_message_util_build_stanza message (generated_id env) (own_nick env) SUB_NONE
    st (peer_jid ch) (send_nick ch) = Some stanza) as [stanza Hb].
  { unfold gabble_message_util_build_stanza. rewrite Hc. by eexists. }
  set (s1 := mkFactory (objects s) (next_object s) (channels s) (sends s) (next_send s) (contact_repo s)
    (events s ++ if bool_decide (is_Some st)
                 then [ChatStateChanged obj (self_handle env) STATE_ACTIVE] else [])).
  rewrite (bind_eq _ _ _ tt s1).
  2: { unfold when. subst s1. destruct (bool_decide (is_Some st)); [done|].
       destruct s; unfold mret, M_ret; cbn. by rewrite app_nil_r. }
  rewrite Hb. eexists _, stanza, st. split; [done|]. split; [reflexivity|]. cbn [events].
  by rewrite last_snoc.
Qed.

(** C30: What one user sends the other gets: take a message
    that passes the checks of the sender's channel (one text/plain part) and
    is an action, or a normal message or notice whose text does not begin with
    /me and a space; a reachable sender with a channel on the bus; and a
    reachable receiver that is connected and for whom the sender's address is
    that of a contact. Sending it succeeds, and its stanza, carried to the
    other, is queued last in the other's channel to the sender, which is made
    if need be, with that type and text and the sender's id as its token. *)
Theorem im_end_to_end env s h obj message report ty text env' s' m' from n :
  reachable s → lookup_channel s h = Some obj →
  check_message message = Some (ty, text) → sendable ty text →
  reachable s' → channels s' = Some m' → contact_name s' from = Some n →
  ∃ s1 serial stanza,
    _gabble_im_channel_send_message env obj message report s = Ok (tt, s1) ∧
    last (events s1) = Some (SendAsync serial stanza) ∧
    let h' := (tp_handle_ensure (contact_repo s') n).2 in
    let obj' := default (next_object s') (m' !! h') in
    ∃ s2 ch,
      im_factory_message_cb g_utf8_strdown g_utf8_normalize from_iso8601 error_domains env'
        (delivered from stanza) s' = Ok (true, s2) ∧
      lookup_channel s2 h' = Some obj' ∧ objects s2 !! obj' = Some ch ∧
      pending_messages (mixin ch) =
        queued s' obj' ++ [Plain (mkText h' ty 0 text (Some (generated_id env))) (time_NULL env')].
Proof.
  intros Hr Hl Hc Hs Hr' Hm' Hn. destruct (on_bus _ _ _ (reachable_ok _ Hr) Hl) as (tab & ch & _ & _ & Ho).
  destruct (send_message_exact env s obj ch message report ty text Ho Hc) as (s1 & stanza & st & Hb & Hrun & Hlast).
  eexists s1, _, _. split; [exact Hrun|]. split; [exact Hlast|]. intros h' obj'.
  destruct (built_message_parsed from_iso8601 error_domains message (generated_id env) (own_nick env) st
    (peer_jid ch) (send_nick ch) (report && receipts_conceivably_supported env ch) from ty text Hc Hs)
    as (stanza' & Hb' & Hparse).
  rewrite Hb in Hb'. injection Hb' as <-.
  destruct (incoming_text env' s' m' _ _ text n (reachable_ok _ Hr') Hm' Hparse eq_refl eq_refl Hn)
    as (s2 & ch2 & Hrun2 & Hl2 & Ho2 & Hp2 & _). by exists s2, ch2.
Qed.
End im.

(** ** Witnesses *)

Module Runs.
Abbreviation RunFactory := (GabbleImFactory (list QueuedMessage * bool) (list string)).

Definition env : Env :=
  mkEnv 9 (λ _, None) (λ _, true) (λ _, true) false (Some "Me") true 100 "id1".
Definition start : RunFactory := gabble_im_factory_init ["me@x"].
Definition hello : TpMessage := mkMessage None [mkPart (Some "text/plain") (Some "hello")].
Definition greeting : WockyNode :=
  delivered "bob@x/home" (requesting true
    (default (mkNode "" None None [] [])
       (gabble_message_util_build_stanza hello "t1" None SUB_NONE (Some STATE_ACTIVE) "me@x" false))).

Definition step_on (i : im_input) (s : RunFactory) : RunFactory :=
  match run_input (λ x, x) (λ x, x) (λ _, None) [] env i s with Ok (_, s') => s' | Abort _ => s end.

Abbreviation reachable' := (reachable (X := list QueuedMessage * bool) (R := list string)
  (λ x, x) (λ x, x) (λ _, None) []).

(** Bob has greeted us. *)
Definition greeted : RunFactory := step_on (Message greeting) start.

Lemma greeted_reachable : reachable' greeted.
Proof.
  apply (reach_step _ _ _ _ env (Message greeting) start); [apply reach_init|done|].
  vm_compute. reflexivity.
Qed.

Lemma im_messages_kept_witness :
  (∃ s', run_input (λ x, x) (λ x, x) (λ _, None) [] env (Close 0) greeted = Ok (tt, s') ∧
     kept (spares (Close 0)) greeted s' ∧ takes_only (Close 0) greeted s' ∧
     ∀ h h' o, lookup_channel s' h = Some o → lookup_channel s' h' = Some o → h = h') ∧
  (∃ s', run_input (λ x, x) (λ x, x) (λ _, None) [] env (Acknowledge 0 0) greeted = Ok (tt, s') ∧
     kept (spares (Acknowledge 0 0)) greeted s' ∧ takes_only (Acknowledge 0 0) greeted s' ∧
     ∀ h h' o, lookup_channel s' h = Some o → lookup_channel s' h' = Some o → h = h').
Proof.
  split; apply im_messages_kept; try apply greeted_reachable; exists 2; vm_compute; reflexivity.
Defined.

Lemma im_discreet_witness :
  ∃ new, events greeted = events start ++ new ∧ Forall (discreet (X := list QueuedMessage * bool) env) new.
Proof.
  apply (im_discreet (λ x, x) (λ x, x) (λ _, None) [] env start (Message greeting));
    [apply reach_init|done|vm_compute; reflexivity].
Defined.

(** A message that is refused was not sent, and neither was our nickname; it
    will not be sent with the next message either. *)
Lemma refused_message_loses_nick :
  let unknown := mkEnv 9 (λ _, None) (λ _, false) (λ _, true) false (Some "Me") true 100 "id1" in
  let s := match run_input (λ x, x) (λ x, x) (λ _, None) [] unknown (Message greeting) start with
           | Ok (_, s) => s | Abort _ => start end in
  (send_nick <$> objects s !! 0%nat) = Some true ∧
  ∃ s', run_input (λ x, x) (λ x, x) (λ _, None) [] unknown (Send 0 (mkMessage None []) false) s =
          Ok (tt, s') ∧
        (send_nick <$> objects s' !! 0%nat) = Some false ∧ sends s' = ∅.
Proof.
  intros unknown s. split; [vm_compute; reflexivity|].
  eexists. split; [vm_compute; reflexivity|]. split; vm_compute; reflexivity.
Qed.

(** An error that does not repeat the text of the message is not reported. *)
Lemma bare_error_ignored :
  let error := mkNode "message" None (Some "jabber:client")
    [mkAttribute "from" "bob@x/home" None; mkAttribute "type" "error" None; mkAttribute "id" "id1" None]
    [mkNode "error" None (Some "jabber:client") [mkAttribute "type" "cancel" None]
       [mkNode "service-unavailable" None (Some XmppError.NS_STANZAS) [] []]] in
  im_factory_message_cb (λ x, x) (λ x, x) (λ _, None) [] env error greeted = Ok (false, greeted).
Proof. vm_compute. reflexivity. Qed.

(** A second message of Bob's. *)
Lemma im_incoming_witness :
  ∃ s' ch,
    im_factory_message_cb (λ x, x) (λ x, x) (λ _, None) [] env greeting greeted = Ok (true, s') ∧
    lookup_channel s' 2 = Some 0%nat ∧ objects s' !! 0%nat = Some ch ∧
    pending_messages (mixin ch) =
      queued greeted 0 ++ [Plain (mkText 2 TYPE_NORMAL 0 "hello" (Some "t1")) 100] ∧
    peer_jid ch = "bob@x/home" ∧
    (∀ o, o ≠ 0%nat → objects s' !! o = objects greeted !! o) ∧
    events s' = events greeted ++ [] ++ [ChatStateChanged 0 2 STATE_ACTIVE] ++
      [MessageReceived 0 (Plain (mkText 2 TYPE_NORMAL 0 "hello" (Some "t1")) 100)] ++
      receipt_due env greeting 2 "bob@x/home" (Some "t1").
Proof.
  assert (Eh : (tp_handle_ensure (contact_repo greeted) "bob@x").2 = 2) by (vm_compute; reflexivity).
  pose proof (im_incoming (λ x, x) (λ x, x) (λ _, None) [] env greeted {[2 := 0%nat]} greeting
    (mkIncoming "bob@x/home" 0 TYPE_NORMAL (Some "t1") (Some "hello") (Some STATE_ACTIVE) None
       DELIVERY_UNKNOWN) "hello" "bob@x" greeted_reachable) as W. cbv zeta in W.
  rewrite Eh, lookup_singleton_eq in W. apply W; vm_compute; reflexivity.
Defined.

(** We answer Bob, who has not heard from us. *)
Lemma im_end_to_end_witness :
  ∃ s1 serial stanza,
    _gabble_im_channel_send_message env 0 hello true greeted = Ok (tt, s1) ∧
    last (events s1) = Some (SendAsync serial stanza) ∧
    ∃ s2 ch,
      im_factory_message_cb (λ x, x) (λ x, x) (λ _, None) [] env (delivered "me@x/here" stanza)
        (gabble_im_factory_init ["bob@x"] : RunFactory) = Ok (true, s2) ∧
      lookup_channel s2 2 = Some 0%nat ∧ objects s2 !! 0%nat = Some ch ∧
      pending_messages (mixin ch) =
        [] ++ [Plain (mkText 2 TYPE_NORMAL 0 "hello" (Some "id1")) 100].
Proof.
  pose proof (im_end_to_end (λ x, x) (λ x, x) (λ _, None) [] env greeted 2 0 hello true TYPE_NORMAL
    "hello" env (gabble_im_factory_init ["bob@x"] : RunFactory) ∅ "me@x/here" "me@x"
    greeted_reachable) as W. cbv zeta in W.
  change (tp_handle_ensure (contact_repo (gabble_im_factory_init ["bob@x"] : RunFactory)) "me@x").2
    with 2 in W. rewrite lookup_empty in W.
  apply W; [vm_compute; reflexivity|reflexivity|vm_compute; reflexivity|apply reach_init|reflexivity|
            vm_compute; reflexivity].
Defined.
End Runs.
End ImChannelFacts.
