(* ===== verification/DataForm.v ===== *)
(** * Data forms (lib/ext/wocky/wocky/wocky-data-form.c)

    The forms of XEP-0004: parsing them, filling them in, sending them and
    reading their results.  A form owns its fields through [fields_list], in
    the order they are presented; the hash table [fields] points into that
    list, at the field of that name that was added last, so a lookup is a
    search from the end ([fields_lookup]).  [None] for a NULL-terminated array
    is NULL. *)

From S2P Require Import Prelude Node Namespaces.

Module DataForm.

(** ** Data *)

(** WOCKY_DATA_FORM_FIELD_TYPE_... *)
Inductive WockyDataFormFieldType :=
  | UNSPECIFIED | BOOLEAN | FIXED | HIDDEN | JID_MULTI | JID_SINGLE | LIST_MULTI
  | LIST_SINGLE | TEXT_MULTI | TEXT_PRIVATE | TEXT_SINGLE.
#[global] Instance WockyDataFormFieldType_eq_dec : EqDecision WockyDataFormFieldType.
Proof. solve_decision. Defined.

Record WockyDataFormFieldOption := mkOption { o_label : option string; o_value : string }.

(** A [GValue]: of type G_TYPE_BOOLEAN, G_TYPE_STRING or G_TYPE_STRV. *)
Inductive GValue := VBoolean (b : bool) | VString (s : option string) | VStrv (l : list string).

Record WockyDataFormField := mkField {
  f_type : WockyDataFormFieldType;
  var : option string;
  f_label : option string;
  desc : option string;
  required : bool;
  default_value : option GValue;
  raw_value_contents : option (list string);
  value : option GValue;
  options : list WockyDataFormFieldOption;
}.

Record WockyDataForm := mkForm {
  title : option string;
  instructions : option string;
  fields_list : list WockyDataFormField;
  reported : gmap string WockyDataFormField;
  results : list (list WockyDataFormField);
}.

Inductive WockyDataFormError := NOT_FORM | WRONG_TYPE.

(** The form a GObject constructor makes. *)
Definition wocky_data_form_init (t i : option string) : WockyDataForm := mkForm t i [] ∅ [].

Definition with_fields (f : WockyDataForm) (l : list WockyDataFormField) : WockyDataForm :=
  mkForm (title f) (instructions f) l (reported f) (results f).
Definition with_reported (f : WockyDataForm) (m : gmap string WockyDataFormField) : WockyDataForm :=
  mkForm (title f) (instructions f) (fields_list f) m (results f).
Definition with_results (f : WockyDataForm) (l : list (list WockyDataFormField)) : WockyDataForm :=
  mkForm (title f) (instructions f) (fields_list f) (reported f) l.

(** ** Field types *)

Definition nicks : list (string * WockyDataFormFieldType) :=
  [("boolean", BOOLEAN); ("fixed", FIXED); ("hidden", HIDDEN); ("jid-multi", JID_MULTI);
   ("jid-single", JID_SINGLE); ("list-multi", LIST_MULTI); ("list-single", LIST_SINGLE);
   ("text-multi", TEXT_MULTI); ("text-private", TEXT_PRIVATE); ("text-single", TEXT_SINGLE)].

Definition type_to_str (t : WockyDataFormFieldType) : option string :=
  fst <$> List.find (λ p, bool_decide (snd p = t)) nicks.

Definition type_from_nick (s : string) : option WockyDataFormFieldType :=
  snd <$> List.find (λ p, bool_decide (fst p = s)) nicks.

(** ** Parsing *)

(** Iterating over the children of that name. *)
Definition children_named (node : WockyNode) (nm : string) : list WockyNode :=
  List.filter (node_compare_child (Some nm) None) (children node).

Definition extract_options_list (node : WockyNode) : list WockyDataFormFieldOption :=
  omap (λ option_node,
    v ← wocky_node_get_content_from_child option_node "value";
    Some (mkOption (wocky_node_get_attribute option_node "label") v))
    (children_named node "option").

Definition extract_value_list (node : WockyNode) : list string :=
  omap content (children_named node "value").

(** The value and, through the last argument, its literal contents. *)
Definition get_field_value (ty : WockyDataFormFieldType) (field : WockyNode) :
    option GValue * option (list string) :=
  match ty with
  | UNSPECIFIED => (None, None)
  | _ =>
      match wocky_node_get_child field "value" with
      | None => (None, None)
      | Some node =>
          let v := content node in
          match ty with
          | BOOLEAN =>
              if bool_decide (v = Some "true") || bool_decide (v = Some "1")
              then (Some (VBoolean true), Some (option_list v))
              else if bool_decide (v = Some "false") || bool_decide (v = Some "0")
              then (Some (VBoolean false), Some (option_list v))
              else (None, None)
          | JID_MULTI | TEXT_MULTI | LIST_MULTI =>
              (Some (VStrv (extract_value_list field)), Some (extract_value_list field))
          | _ => (Some (VString v), Some (option_list v))
          end
      end
  end.

Definition is_list (ty : WockyDataFormFieldType) : bool :=
  bool_decide (ty = LIST_MULTI) || bool_decide (ty = LIST_SINGLE).

Definition create_field (field_node : WockyNode) (v : option string) (ty : WockyDataFormFieldType)
    (label d : option string) (req : bool) : option WockyDataFormField :=
  let opts := if is_list ty then extract_options_list field_node else [] in
  if is_list ty && bool_decide (length opts = O) then None
  else
    let '(def, raw) := get_field_value ty field_node in
    Some (mkField ty v label d req def raw None opts).

Definition extract_var_type_label (node : WockyNode) :
    option (option string * WockyDataFormFieldType * option string) :=
  if negb (bool_decide (name node = "field")) then None
  else
    ty ← match wocky_node_get_attribute node "type" with
         | None =>
             Some (match children_named node "value" with
                   | _ :: _ :: _ => TEXT_MULTI
                   | _ => TEXT_SINGLE
                   end)
         | Some tmp => type_from_nick tmp
         end;
    let v := wocky_node_get_attribute node "var" in
    if bool_decide (v = None) && negb (bool_decide (ty = FIXED)) then None
    else Some (v, ty, wocky_node_get_attribute node "label").

Definition data_form_parse_form_field (field_node : WockyNode) : option WockyDataFormField :=
  '(v, ty, label) ← extract_var_type_label field_node;
  create_field field_node v ty label (wocky_node_get_content_from_child field_node "desc")
    (bool_decide (is_Some (wocky_node_get_child field_node "required"))).

Definition data_form_add_field (self : WockyDataForm) (field : WockyDataFormField) : WockyDataForm :=
  with_fields self (fields_list self ++ [field]).

(** [g_hash_table_lookup (self->fields, name)]. *)
Definition named_field (nm : string) (f : WockyDataFormField) : bool :=
  bool_decide (var f = Some nm).
Definition fields_lookup (self : WockyDataForm) (nm : string) : option WockyDataFormField :=
  last (List.filter (named_field nm) (fields_list self)).

(** The fields are prepended and then reversed: they end in the order parsed. *)
Definition wocky_data_form_new_from_node (x : WockyNode) : WockyDataForm + WockyDataFormError :=
  if negb (bool_decide (name x = "x") && bool_decide (ns x = Some NS_X_DATA)) then inr NOT_FORM
  else
    let ty := wocky_node_get_attribute x "type" in
    if negb (bool_decide (ty = Some "form")) && negb (bool_decide (ty = Some "result"))
    then inr WRONG_TYPE
    else inl (foldl (λ form node, match data_form_parse_form_field node with
                                  | Some field => data_form_add_field form field
                                  | None => form
                                  end)
                (wocky_data_form_init (wocky_node_get_content_from_child x "title")
                   (wocky_node_get_content_from_child x "instructions"))
                (children_named x "field")).

Definition wocky_data_form_new_from_form (root : WockyNode) : WockyDataForm + WockyDataFormError :=
  match wocky_node_get_child_ns root (Some "x") (Some NS_X_DATA) with
  | None => inr NOT_FORM
  | Some x => wocky_data_form_new_from_node x
  end.

(** ** Filling in *)

Definition wocky_data_form_set_type (self : WockyDataForm) (form_type : string) :
    WockyDataForm * bool :=
  match fields_lookup self "FORM_TYPE" with
  | Some _ => (self, false)
  | None =>
      (data_form_add_field self
         (mkField HIDDEN (Some "FORM_TYPE") None None false (Some (VString (Some form_type)))
            (Some [form_type]) (Some (VString (Some form_type))) []), true)
  end.

Definition literal (v : GValue) : list string :=
  match v with
  | VString s => option_list s
  | VBoolean b => [if b then "1" else "0"]
  | VStrv l => l
  end.

Definition fill (v : GValue) (f : WockyDataFormField) : WockyDataFormField :=
  mkField (f_type f) (var f) (f_label f) (desc f) (required f) (default_value f)
    (Some (literal v)) (Some v) (options f).

(** The field the table points to is changed where it is. *)
Fixpoint alter_last (p : WockyDataFormField → bool) (g : WockyDataFormField → WockyDataFormField)
    (l : list WockyDataFormField) : list WockyDataFormField :=
  match l with
  | [] => []
  | f :: l' => if p f && negb (existsb p l') then g f :: l' else f :: alter_last p g l'
  end.

Definition data_form_set_value (self : WockyDataForm) (field_name : string) (v : GValue)
    (create_if_missing : bool) : WockyDataForm * bool :=
  match fields_lookup self field_name with
  | Some _ =>
      (with_fields self (alter_last (named_field field_name) (fill v) (fields_list self)), true)
  | None =>
      if create_if_missing then
        (data_form_add_field self
           (fill v (mkField UNSPECIFIED (Some field_name) None None false None None None [])), true)
      else (self, false)
  end.

Definition wocky_data_form_set_boolean (self : WockyDataForm) (field_name : string)
    (field_value create_if_missing : bool) : WockyDataForm * bool :=
  data_form_set_value self field_name (VBoolean field_value) create_if_missing.

Definition wocky_data_form_set_string (self : WockyDataForm) (field_name : string)
    (field_value : option string) (create_if_missing : bool) : WockyDataForm * bool :=
  data_form_set_value self field_name (VString field_value) create_if_missing.

Definition wocky_data_form_set_strv (self : WockyDataForm) (field_name : string)
    (field_values : list string) (create_if_missing : bool) : WockyDataForm * bool :=
  data_form_set_value self field_name (VStrv field_values) create_if_missing.

(** ** Sending *)

Definition add_values (node : WockyNode) (l : list (option string)) : WockyNode :=
  foldl (λ n v, wocky_node_add_child_with_content n "value" v) node l.

(** The <field/> with its attributes. *)
Definition open_field (node : WockyNode) (v : string) (ty : WockyDataFormFieldType) : WockyNode :=
  let field_node := wocky_node_set_attribute (mkNode "field" None (ns node) [] []) "var" v in
  match type_to_str ty with
  | Some t => wocky_node_set_attribute field_node "type" t
  | None => field_node
  end.

Definition value_contents (v : GValue) : list (option string) :=
  match v with VString s => [s] | _ => Some <$> literal v end.

Definition add_field_to_node (field : WockyDataFormField) (node : WockyNode) : WockyNode :=
  match var field with
  | None => node
  | Some vr =>
      let v := match value field with
               | None => if bool_decide (f_type field = HIDDEN) then default_value field else None
               | Some v => Some v
               end in
      match v with
      | None => node
      | Some v =>
          set_children node
            (children node ++ [add_values (open_field node vr (f_type field)) (value_contents v)])
      end
  end.

Definition new_x (node : WockyNode) (ty : string) : WockyNode :=
  wocky_node_set_attribute (mkNode "x" None (Some NS_X_DATA) [] []) "type" ty.

Definition wocky_data_form_submit (self : WockyDataForm) (node : WockyNode) : WockyNode :=
  set_children node (children node ++
    [foldl (λ x field, add_field_to_node field x) (new_x node "submit") (fields_list self)]).

(** [AssertFailed]: a field without values. *)
Definition add_field_to_node_using_default (field : WockyDataFormField) (node : WockyNode) :
    outcome WockyNode :=
  match var field with
  | None => Ok node
  | Some vr =>
      match raw_value_contents field with
      | None => Abort AssertFailed
      | Some raw =>
          Ok (set_children node
            (children node ++ [add_values (open_field node vr (f_type field)) (Some <$> raw)]))
      end
  end.

Fixpoint add_fields_using_default (l : list WockyDataFormField) (x : WockyNode) : outcome WockyNode :=
  match l with
  | [] => Ok x
  | f :: l' =>
      match add_field_to_node_using_default f x with
      | Ok x' => add_fields_using_default l' x'
      | Abort r => Abort r
      end
  end.

Definition wocky_data_form_add_to_node (self : WockyDataForm) (node : WockyNode) :
    outcome WockyNode :=
  match add_fields_using_default (fields_list self) (new_x node "result") with
  | Ok x => Ok (set_children node (children node ++ [x]))
  | Abort r => Abort r
  end.

(** ** Results *)

(** [MemoryFault]: the name of a field with none is hashed. *)
Fixpoint data_form_parse_reported (m : gmap string WockyDataFormField) (l : list WockyNode) :
    outcome (gmap string WockyDataFormField) :=
  match l with
  | [] => Ok m
  | node :: l' =>
      match extract_var_type_label node with
      | None => data_form_parse_reported m l'
      | Some (None, _, _) => Abort MemoryFault
      | Some (Some v, ty, label) =>
          data_form_parse_reported
            (<[v := mkField ty (Some v) label None false None None None []]> m) l'
      end
  end.

Definition data_form_parse_item (self : WockyDataForm) (item_node : WockyNode) : WockyDataForm :=
  let item := omap (λ field_node,
    v ← wocky_node_get_attribute field_node "var";
    field ← reported self !! v;
    x ← fst (get_field_value (f_type field) field_node);
    Some (mkField (f_type field) (Some v) (f_label field) (desc field) (required field)
            (default_value field) (raw_value_contents field) (Some x) []))
    (children_named item_node "field") in
  with_results self (item :: results self).

(** The fields are not put back in order. *)
Definition parse_unique_result (self : WockyDataForm) (x : WockyNode) : WockyDataForm :=
  let item := omap (λ node,
    '(v, ty, _) ← extract_var_type_label node;
    y ← fst (get_field_value ty node);
    Some (mkField ty v None None false None None (Some y) [])) (children x) in
  with_results self (reverse item :: results self).

Definition wocky_data_form_parse_result (self : WockyDataForm) (node : WockyNode) :
    outcome (WockyDataForm * option WockyDataFormError) :=
  match wocky_node_get_child_ns node (Some "x") (Some NS_X_DATA) with
  | None => Ok (self, Some NOT_FORM)
  | Some x =>
      if negb (bool_decide (wocky_node_get_attribute x "type" = Some "result"))
      then Ok (self, Some WRONG_TYPE)
      else
        let finish f := with_results f (reverse (results f)) in
        match wocky_node_get_child x "reported" with
        | Some r =>
            match data_form_parse_reported (reported self) (children r) with
            | Abort a => Abort a
            | Ok m =>
                Ok (finish (foldl data_form_parse_item (with_reported self m)
                              (children_named x "item")), None)
            end
        | None => Ok (finish (parse_unique_result self x), None)
        end
  end.

(** [g_strcmp0]: NULL comes first. *)
Definition strcmp (a b : string) : comparison := String.compare a b.
Definition g_strcmp0 (a b : option string) : comparison :=
  match a, b with
  | None, None => Eq
  | None, Some _ => Lt
  | Some _, None => Gt
  | Some a, Some b => strcmp a b
  end.

Definition wocky_data_form_field_cmp (left right : WockyDataFormField) : comparison :=
  g_strcmp0 (var left) (var right).

End DataForm.
