(* ===== verification/DataFormFacts.v ===== *)
(** * Data forms: what holds of them

    A form that is written and read back keeps its names and values, as long
    as its fields are of types that a result can carry; filling in a form
    leaves every other field as it was; a submission carries exactly what was
    filled in. *)

From S2P Require Import Prelude Node Namespaces DataForm.

Module DataFormFacts.
Import DataForm.

(** ** Field types *)

Lemma type_nick t n : type_to_str t = Some n → type_from_nick n = Some t.
Proof. by destruct t; cbn; intros [= <-]. Qed.

Lemma type_unnamed t : type_to_str t = None ↔ t = UNSPECIFIED.
Proof. by destruct t. Qed.

(** ** Writing a field *)

Lemma add_values_node n l :
  add_values n l = set_children n (children n ++ ((λ v, mkNode "value" v (ns n) [] []) <$> l)).
Proof.
  revert n. induction l as [|v l IH]; intros [nm c s a ch].
  - cbn. unfold set_children; cbn. by rewrite app_nil_r.
  - unfold add_values in *. cbn [foldl]. rewrite IH. unfold set_children; cbn.
    by rewrite <-app_assoc.
Qed.

(** The node of a field: [vr] its name, [l] its values. *)
Definition field_node (x : WockyNode) (vr : string) (ty : WockyDataFormFieldType)
    (l : list (option string)) : WockyNode := add_values (open_field x vr ty) l.

Lemma field_node_name x vr ty l : name (field_node x vr ty l) = "field".
Proof. unfold field_node. rewrite add_values_node. unfold open_field. by destruct ty. Qed.

Lemma field_node_var x vr ty l : wocky_node_get_attribute (field_node x vr ty l) "var" = Some vr.
Proof. unfold field_node. rewrite add_values_node. unfold open_field. by destruct ty. Qed.

Lemma field_node_label x vr ty l : wocky_node_get_attribute (field_node x vr ty l) "label" = None.
Proof. unfold field_node. rewrite add_values_node. unfold open_field. by destruct ty. Qed.

Lemma field_node_type x vr ty l :
  wocky_node_get_attribute (field_node x vr ty l) "type" = type_to_str ty.
Proof. unfold field_node. rewrite add_values_node. unfold open_field. by destruct ty. Qed.

Lemma field_node_children x vr ty l :
  children (field_node x vr ty l) = (λ v, mkNode "value" v (ns x) [] []) <$> l.
Proof. unfold field_node. rewrite add_values_node. unfold open_field. by destruct ty. Qed.

Lemma field_node_values x vr ty l :
  children_named (field_node x vr ty l) "value" = (λ v, mkNode "value" v (ns x) [] []) <$> l.
Proof.
  unfold children_named. rewrite field_node_children.
  induction l as [|v l IH]; [done|]. cbn in *. by rewrite IH.
Qed.

Lemma field_node_value_list x vr ty l :
  extract_value_list (field_node x vr ty (Some <$> l)) = l.
Proof.
  unfold extract_value_list. rewrite field_node_values.
  induction l as [|v l IH]; [done|]. cbn in *. by rewrite IH.
Qed.

Lemma field_node_first x vr ty l :
  wocky_node_get_child (field_node x vr ty l) "value" =
  (λ v, mkNode "value" v (ns x) [] []) <$> head l.
Proof.
  unfold wocky_node_get_child, wocky_node_get_child_ns. rewrite field_node_children.
  by destruct l.
Qed.

Lemma field_node_no_child x vr ty l k :
  k ≠ "value" → wocky_node_get_child (field_node x vr ty l) k = None.
Proof.
  intros Hk. unfold wocky_node_get_child, wocky_node_get_child_ns. rewrite field_node_children.
  induction l as [|v l IH]; [done|]. cbn in *. by rewrite bool_decide_eq_false_2.
Qed.

(** ** Round trips *)

(** A field whose name and values a result can carry. *)
Definition boolean_literal (s : string) : bool :=
  bool_decide (s ∈ ["true"; "1"; "false"; "0"]).

Definition portable (ty : WockyDataFormFieldType) (l : list string) : bool :=
  match ty with
  | UNSPECIFIED | JID_MULTI | TEXT_MULTI => true
  | LIST_MULTI | LIST_SINGLE => false
  | BOOLEAN => (length l <=? 1)%nat && forallb boolean_literal l
  | HIDDEN | TEXT_SINGLE | TEXT_PRIVATE | JID_SINGLE | FIXED => (length l <=? 1)%nat
  end.

Definition portable_field (f : WockyDataFormField) : Prop :=
  is_Some (var f) ∧ ∃ l, raw_value_contents f = Some l ∧ portable (f_type f) l = true.

(** What is kept: the name, whether it is hidden and the values. *)
Definition view (f : WockyDataFormField) : option string * bool * list string :=
  (var f, bool_decide (f_type f = HIDDEN), default [] (raw_value_contents f)).

(** The type a field is read back with. *)
Definition read_type (ty : WockyDataFormFieldType) (l : list string) : WockyDataFormFieldType :=
  match ty with
  | UNSPECIFIED => match l with _ :: _ :: _ => TEXT_MULTI | _ => TEXT_SINGLE end
  | _ => ty
  end.

Lemma field_node_extract x vr ty l :
  extract_var_type_label (field_node x vr ty (Some <$> l)) = Some (Some vr, read_type ty l, None).
Proof.
  unfold extract_var_type_label. rewrite field_node_name, field_node_type, field_node_var,
    field_node_label, field_node_values. cbn.
  destruct ty; cbn; try done. by destruct l as [|? [|? ?]].
Qed.

Lemma field_node_get_value x vr ty l :
  portable ty l = true →
  default [] (get_field_value (read_type ty l) (field_node x vr ty (Some <$> l))).2 = l.
Proof.
  assert (Hs : ∀ s, boolean_literal s = true →
    bool_decide (Some s = Some "true") || bool_decide (Some s = Some "1") = true ∨
    bool_decide (Some s = Some "false") || bool_decide (Some s = Some "0") = true).
  { intros s Hs. unfold boolean_literal in Hs. apply bool_decide_eq_true in Hs.
    rewrite !elem_of_cons in Hs. destruct Hs as [->|[->|[->|[->|Hn]]]]; try (cbn; auto; fail).
    by apply elem_of_nil in Hn. }
  unfold get_field_value. rewrite field_node_first, field_node_value_list.
  destruct l as [|v [|w l]]; [by destruct ty|destruct ty; cbn; try done|by destruct ty].
  rewrite andb_true_r. intros [Hv|Hv]%Hs; rewrite Hv; [done|]. by case_match.
Qed.

Lemma parse_field_node x vr ty l :
  portable ty l = true →
  ∃ g, data_form_parse_form_field (field_node x vr ty (Some <$> l)) = Some g ∧
       f_type g = read_type ty l ∧ view g = (Some vr, bool_decide (ty = HIDDEN), l).
Proof.
  intros Hp. unfold data_form_parse_form_field. rewrite field_node_extract. cbn [mbind option_bind].
  assert (Hl : is_list (read_type ty l) = false) by (destruct ty, l as [|? [|? ?]]; done).
  assert (Hh : bool_decide (read_type ty l = HIDDEN) = bool_decide (ty = HIDDEN))
    by (destruct ty, l as [|? [|? ?]]; done).
  unfold create_field. rewrite Hl. cbn [andb].
  pose proof (field_node_get_value x vr ty l Hp) as Hv.
  destruct (get_field_value _ _) as [d r]. eexists. split; [reflexivity|]. cbn.
  split; [done|]. unfold view; cbn. rewrite Hh. cbn in Hv. by rewrite Hv.
Qed.

(** The children a list of portable fields is written as. *)
Definition field_nodes (x : WockyNode) (l : list WockyDataFormField) : list WockyNode :=
  (λ f, field_node x (default EmptyString (var f)) (f_type f)
          (Some <$> default [] (raw_value_contents f))) <$> l.

Lemma add_fields_portable l : ∀ x,
  Forall portable_field l →
  add_fields_using_default l x = Ok (set_children x (children x ++ field_nodes x l)).
Proof.
  induction l as [|f l IH]; intros x Hl; cbn.
  { destruct x; unfold set_children; cbn. by rewrite app_nil_r. }
  apply Forall_cons in Hl as [[[vr Hv] (r & Hr & _)] Hl].
  unfold add_field_to_node_using_default. rewrite Hv, Hr. cbn.
  rewrite IH by done. unfold set_children; cbn. rewrite <-app_assoc. cbn. do 4 f_equal.
Qed.

Lemma field_nodes_named x l : List.filter (node_compare_child (Some "field") None) (field_nodes x l) =
  field_nodes x l.
Proof.
  induction l as [|f l IH]; [done|]. cbn [field_nodes fmap list_fmap List.filter].
  unfold node_compare_child at 1. rewrite field_node_name. cbn. by f_equal.
Qed.

(** Reading a list of fields. *)
Definition read_fields (l : list WockyNode) : list WockyDataFormField :=
  omap data_form_parse_form_field l.

Lemma read_form_fields l : ∀ f,
  foldl (λ form node, match data_form_parse_form_field node with
                      | Some field => data_form_add_field form field
                      | None => form
                      end) f l = with_fields f (fields_list f ++ read_fields l).
Proof.
  induction l as [|n l IH]; intros f; cbn.
  { destruct f; unfold with_fields; cbn. by rewrite app_nil_r. }
  rewrite IH. destruct (data_form_parse_form_field n) as [g|]; cbn; [|done].
  unfold data_form_add_field, with_fields; cbn. by rewrite <-app_assoc.
Qed.

Lemma read_field_nodes x l :
  Forall portable_field l → view <$> read_fields (field_nodes x l) = view <$> l.
Proof.
  induction 1 as [|f l [[vr Hv] (r & Hr & Hp)] Hl IH]; [done|].
  destruct (parse_field_node x vr (f_type f) r Hp) as (g & Hg & _ & Hview).
  unfold read_fields, field_nodes in *. rewrite !fmap_cons, Hv, Hr.
  set (ns' := (λ f0, _) <$> l) in *.
  change (view <$> match data_form_parse_form_field (field_node x vr (f_type f) (Some <$> r)) with
                   | Some y => y :: omap data_form_parse_form_field ns'
                   | None => omap data_form_parse_form_field ns'
                   end = view f :: (view <$> l)).
  rewrite Hg, fmap_cons, IH, Hview. unfold view. by rewrite Hv, Hr.
Qed.

(** A form that is written, and the <x/> it is written as. *)
Definition form_node (f : WockyDataForm) : WockyNode :=
  let x := mkNode "x" None (Some NS_X_DATA) [mkAttribute "type" "result" None] [] in
  set_children x (field_nodes x (fields_list f)).

Lemma add_to_node_portable f node :
  Forall portable_field (fields_list f) →
  wocky_data_form_add_to_node f node = Ok (set_children node (children node ++ [form_node f])).
Proof. intros Hf. unfold wocky_data_form_add_to_node. by rewrite add_fields_portable. Qed.

Lemma read_form_node f :
  Forall portable_field (fields_list f) →
  ∃ g, wocky_data_form_new_from_node (form_node f) = inl g ∧
       view <$> fields_list g = view <$> fields_list f.
Proof.
  intros Hf. unfold wocky_data_form_new_from_node. cbn -[foldl].
  rewrite read_form_fields. eexists. split; [reflexivity|].
  unfold children_named; cbn -[List.filter]. rewrite field_nodes_named. cbn.
  by apply read_field_nodes.
Qed.

(** C15: A form added to a stanza as a result and read
    back has the same fields in the same order, with their names, their values
    and whether they are hidden; for every form whose fields each have a name
    and an array of raw values that is not NULL, are no lists of options, have
    at most one value if they are single-valued, and, if boolean, have as
    value one of true, 1, false and 0. *)
Theorem data_form_round_trip f node :
  Forall portable_field (fields_list f) →
  ∃ node' x g, wocky_data_form_add_to_node f node = Ok node' ∧
    children node' = children node ++ [x] ∧
    wocky_data_form_new_from_node x = inl g ∧
    view <$> fields_list g = view <$> fields_list f.
Proof.
  intros Hf. destruct (read_form_node f Hf) as (g & Hg & Hv).
  eexists _, (form_node f), g. split_and!; [by apply add_to_node_portable|done..].
Qed.

(** A form with a type, a boolean, a text of several lines and a value to be
    read as text. *)
Definition sample : WockyDataForm :=
  data_form_add_field (data_form_add_field
    (wocky_data_form_set_string
       (wocky_data_form_set_type (wocky_data_form_init None None) "urn:f").1 "nick" (Some "x") true).1
    (mkField BOOLEAN (Some "b") None None false None (Some ["1"]) None []))
    (mkField TEXT_MULTI (Some "t") None None false None (Some ["p"; "q"]) None []).

Lemma data_form_round_trip_witness :
  ∃ node' x g, wocky_data_form_add_to_node sample (mkNode "query" None None [] []) = Ok node' ∧
    children node' = [] ++ [x] ∧ wocky_data_form_new_from_node x = inl g ∧
    view <$> fields_list g = view <$> fields_list sample.
Proof.
  apply (data_form_round_trip sample (mkNode "query" None None [] [])).
  repeat (constructor; [split; [by eexists|by eexists]|]). constructor.
Defined.

(** ** Filling in *)

Lemma alter_last_filter p g l :
  (∀ f, p (g f) = p f) →
  List.filter p (alter_last p g l) =
  match last (List.filter p l) with
  | Some f => removelast (List.filter p l) ++ [g f]
  | None => []
  end.
Proof.
  intros Hp. induction l as [|f l IH]; [done|]. cbn.
  destruct (p f) eqn:Ef; cbn.
  - destruct (existsb p l) eqn:Ex; cbn; rewrite ?Hp, Ef.
    + rewrite IH. apply List.existsb_exists in Ex as (y & Hy & Hpy).
      destruct (List.filter p l) as [|z l'] eqn:E.
      2: { rewrite (last_cons f). destruct (last (z :: l')) eqn:El; [done|].
           by apply last_None in El. }
      assert (Hin : In y (List.filter p l)) by (by apply List.filter_In). by rewrite E in Hin.
    + destruct (List.filter p l) as [|z l'] eqn:E; [done|].
      assert (Hin : In z (List.filter p l)) by (rewrite E; by left).
      apply List.filter_In in Hin as [Hz Hpz].
      assert (existsb p l = true) by (apply List.existsb_exists; eauto). congruence.
  - by rewrite Ef, IH.
Qed.

Lemma alter_last_other p q g l :
  (∀ f, q (g f) = q f) → (∀ f, p f = true → q f = false) →
  List.filter q (alter_last p g l) = List.filter q l.
Proof.
  intros Hg Hd. induction l as [|f l IH]; [done|]. cbn.
  destruct (p f) eqn:Ep; cbn; [destruct (existsb p l); cbn|].
  - by rewrite IH.
  - by rewrite Hg, Hd by done.
  - by rewrite IH.
Qed.

(** Setting a value: the field of that name, made if it is missing and that is
    asked for, has the value and its literal contents; fields of other names
    are as they were. *)
Lemma set_value_lookup self nm v create other :
  fields_lookup (data_form_set_value self nm v create).1 other =
  if bool_decide (other = nm) then
    match fields_lookup self nm with
    | Some f => Some (fill v f)
    | None => if create then
                Some (fill v (mkField UNSPECIFIED (Some nm) None None false None None None []))
              else None
    end
  else fields_lookup self other.
Proof.
  unfold data_form_set_value. destruct (fields_lookup self nm) as [f|] eqn:Hf.
  - unfold fields_lookup in *. cbn [with_fields fst fields_list]. case_bool_decide as Ho; subst.
    + by rewrite alter_last_filter, Hf, last_snoc.
    + rewrite alter_last_other; [done|done|]. unfold named_field. intros g Hg.
      apply bool_decide_eq_true in Hg. apply bool_decide_eq_false. congruence.
  - destruct create; cbn [fst].
    + unfold fields_lookup, data_form_add_field in *. cbn [with_fields fields_list].
      rewrite List.filter_app. unfold named_field at 2. cbn. case_bool_decide as Ho.
      * rewrite bool_decide_eq_true_2 by congruence. by rewrite last_snoc.
      * rewrite bool_decide_eq_false_2 by congruence. by rewrite app_nil_r.
    + case_bool_decide; subst; by rewrite ?Hf.
Qed.
End DataFormFacts.
