(* ===== verification/PresenceCache.v ===== *)
(** * The presence cache (src/presence-cache.c)

    What Gabble knows about its contacts: a [GabblePresence] per contact, and
    what the capability nodes of XEP-0115 that contacts announce stand for.
    A node is looked up with service discovery, one answer being enough when
    it can be checked against a SHA-1 hash and several contacts having to
    agree when it cannot.

    The connection is an argument [Conn] of every operation, so that it may
    change between any two of them.  The repository of contacts and the pool
    of features are states of telepathy-glib's handle repository.  The hash of
    a disco answer, the parser of data forms, the error of a stanza and the
    persistent cache of answers are arguments; so are the Unicode functions
    of the JID code.  The "capabilities-changed" signal of a
    [GabblePresence] is not recorded. *)

From Stdlib Require String.
From S2P Require Import Prelude Node Namespaces Jid Capabilities Presence.

(** ** The persistent cache of disco answers (wocky-caps-cache.c over SQLite) *)

Class CapsCache (C : Type) := {
  wocky_caps_cache_lookup : C → string → option WockyNode;
  wocky_caps_cache_insert : C → string → WockyNode → C;
}.

(** It may forget, and it invents nothing. *)
Class CapsCacheLaws (C : Type) `{CapsCache C} := {
  cache_lookup_insert c k q k' q' :
    wocky_caps_cache_lookup (wocky_caps_cache_insert c k q) k' = Some q' →
    (k' = k ∧ q' = q) ∨ wocky_caps_cache_lookup c k' = Some q';
}.

#[global] Instance gmap_caps_cache : CapsCache (gmap string WockyNode) := {
  wocky_caps_cache_lookup c k := c !! k;
  wocky_caps_cache_insert c k q := <[k := q]> c;
}.
#[global] Instance gmap_caps_cache_laws : CapsCacheLaws (gmap string WockyNode).
Proof. split. intros c k q k' q'. cbn. rewrite lookup_insert_Some. naive_solver. Qed.

Module PresenceCache.
Import Jid Capabilities Presence.

(** ** Constants *)

Definition CAPABILITY_BUNDLE_ENOUGH_TRUST : Z := 5.

Definition NS_CAPS : string := "http://jabber.org/protocol/caps".
Definition NS_GABBLE_CAPS : string := "http://telepathy.freedesktop.org/caps".
Definition NS_TEMPPRES : string := "urn:xmpp:temppres:0".

Definition BUNDLE_SHARE_V1 : string := "share-v1".
Definition BUNDLE_VOICE_V1 : string := "voice-v1".
Definition BUNDLE_VIDEO_V1 : string := "video-v1".
Definition BUNDLE_CAMERA_V1 : string := "camera-v1".

Definition QUIRK_GOOGLE_WEBMAIL_CLIENT : string :=
  String QUIRK_PREFIX_CHAR "google-webmail-client".
Definition QUIRK_ANDROID_GTALK_CLIENT : string :=
  String QUIRK_PREFIX_CHAR "android-gtalk-client".

(** ** Data *)

Inductive TpConnectionStatus := CONNECTED | CONNECTING | DISCONNECTED.
#[global] Instance TpConnectionStatus_eq_dec : EqDecision TpConnectionStatus.
Proof. solve_decision. Defined.

(** What the operations ask the connection and the roster. *)
Record Conn := mkConn {
  conn_status : TpConnectionStatus;
  self_handle : Z;
  full_jid : string;
  decloak_automatically : bool;
  handle_sends_presence_to_us : Z → bool;
  time_NULL : Z;
}.

Record DiscoWaiter := mkWaiter {
  w_handle : Z;
  w_resource : option string;
  w_serial : Z;
  disco_requested : bool;
  w_hash : option string;
  w_ver : option string;
}.

Record WockyDiscoIdentity := mkIdentity {
  category : string; itype : string; lang : option string; iname : option string }.

Record GabbleCapabilityInfo (F : Type) := mkInfo {
  info_cap_set : option GabbleCapabilitySet;
  info_identities : option (list WockyDiscoIdentity);
  info_data_forms : option (list F);
  guys : gset Z;
  trust : Z;
  info_client_types : Z;
  complete : bool;
}.
Arguments mkInfo {F}.
Arguments info_cap_set {F}.
Arguments info_identities {F}.
Arguments info_data_forms {F}.
Arguments guys {F}.
Arguments trust {F}.
Arguments info_client_types {F}.
Arguments complete {F}.

(** Signals of the cache and calls into other components. *)
Inductive cache_event :=
  | PresencesUpdated (handles : list Z)
  | NicknameUpdate (handle : Z)
  | CapabilitiesUpdate (handle : Z) (old new : GabbleCapabilitySet)
  | AvatarUpdate (handle : Z) (sha1 : option string)
  | CapabilitiesDiscovered (handle : Z)
  | LocationUpdated (handle : Z)
  | UnsurePeriodEnded
  | ClientTypesUpdated (handle : Z)
  | DiscoRequest (jid node : string)
  | SignalOwnPresence
  | InvalidateVCard (handle : Z)
  | RequestVCard (handle : Z)
  | DecloakRequested (handle : Z) (reason : string) (decloak : bool)
  | SendCapabilities (jid : string)
  | RequestDecloak (jid reason : string).

(** [F] is a data form, [L] a location, [R] a handle repository and [C] the
    persistent cache.  A DecloakContext is its reason; its timer lives as
    long as it does. *)
Record GabblePresenceCache (F L R C : Type) := mkCache {
  presence : gmap Z (World F);
  presence_handles : gset Z;
  capabilities : gmap string (GabbleCapabilityInfo F);
  disco_pending : gmap string (list DiscoWaiter);
  next_serial : Z;                                  (* priv->caps_serial *)
  unsure_id : bool;
  decloak_requests : gmap Z string;
  decloak_handles : gset Z;
  location : gmap Z L;
  avatar_reset_pending : bool;
  self_avatar_sha1 : option string;       (* conn->self_presence->avatar_sha1 *)
  feature_pool : R;
  contact_repo : R;
  caps_cache : C;
  events : list cache_event;
}.
Arguments mkCache {F L R C}.
Arguments presence {F L R C}.
Arguments presence_handles {F L R C}.
Arguments capabilities {F L R C}.
Arguments disco_pending {F L R C}.
Arguments next_serial {F L R C}.
Arguments unsure_id {F L R C}.
Arguments decloak_requests {F L R C}.
Arguments decloak_handles {F L R C}.
Arguments location {F L R C}.
Arguments avatar_reset_pending {F L R C}.
Arguments self_avatar_sha1 {F L R C}.
Arguments feature_pool {F L R C}.
Arguments contact_repo {F L R C}.
Arguments caps_cache {F L R C}.
Arguments events {F L R C}.

(** ** Pure parts *)

Definition disco_waiter_new (handle : Z) (resource hash ver : option string)
    (serial : Z) : DiscoWaiter := mkWaiter handle resource serial false hash ver.

Definition set_serial (serial : Z) (w : DiscoWaiter) : DiscoWaiter :=
  mkWaiter (w_handle w) (w_resource w) serial (disco_requested w) (w_hash w) (w_ver w).
Definition set_requested (w : DiscoWaiter) : DiscoWaiter :=
  mkWaiter (w_handle w) (w_resource w) (w_serial w) true (w_hash w) (w_ver w).

Definition request_weight (w : DiscoWaiter) : Z :=
  if disco_requested w then
    if tp_strdiff (w_hash w) (Some "sha-1") then 1 else CAPABILITY_BUNDLE_ENOUGH_TRUST
  else 0.

Definition disco_waiter_list_get_request_count (l : list DiscoWaiter) : Z :=
  foldl (λ c w, u32 (c + request_weight w)) 0 l.

Definition waiter_matches (godot : Z) (resource : option string) (w : DiscoWaiter) : bool :=
  (w_handle w =? godot) && negb (tp_strdiff (w_resource w) resource).

Definition find_matching_waiter (waiters : list DiscoWaiter) (godot : Z)
    (resource : option string) : option DiscoWaiter :=
  List.find (waiter_matches godot resource) waiters.

(** The first waiter with [p], changed in place. *)
Fixpoint alter_waiter (p : DiscoWaiter → bool) (f : DiscoWaiter → DiscoWaiter)
    (l : list DiscoWaiter) : list DiscoWaiter :=
  match l with
  | [] => []
  | w :: l' => if p w then f w :: l' else w :: alter_waiter p f l'
  end.

Definition _presence_node_get_status (pres_node : WockyNode) : Z :=
  match wocky_node_get_content_from_child pres_node "show" with
  | None => GABBLE_PRESENCE_AVAILABLE
  | Some presence_show =>
      if bool_decide (presence_show = "away") then GABBLE_PRESENCE_AWAY
      else if bool_decide (presence_show = "chat") then GABBLE_PRESENCE_CHAT
      else if bool_decide (presence_show = "dnd") then GABBLE_PRESENCE_DND
      else if bool_decide (presence_show = "xa") then GABBLE_PRESENCE_XA
      else GABBLE_PRESENCE_AVAILABLE
  end.

(** [g_strsplit (s, " ", 0)] of a string that is not empty. *)
Fixpoint split_spaces (cur : string) (s : string) : list string :=
  match s with
  | EmptyString => [cur]
  | String c s' =>
      if bool_decide (c = " "%char) then cur :: split_spaces EmptyString s'
      else split_spaces (cur +:+ String c EmptyString) s'
  end.

Definition g_strsplit (s : string) : list string :=
  match s with EmptyString => [] | _ => split_spaces EmptyString s end.

Record CapBundles := mkCapBundles {
  uris : list string; cb_hash : option string; cb_ver : option string; cb_node : string }.

(** When there is no list, [*node] is not read. *)
Definition _parse_cap_bundles (lm_node : WockyNode) : CapBundles :=
  match wocky_node_get_child_ns lm_node (Some "c") (Some NS_CAPS) with
  | None => mkCapBundles [] None None EmptyString
  | Some cap_node =>
      let hash := wocky_node_get_attribute cap_node "hash" in
      match wocky_node_get_attribute cap_node "node" with
      | None => mkCapBundles [] hash None EmptyString
      | Some node =>
          let ver := wocky_node_get_attribute cap_node "ver" in
          let uris := match ver with Some v => [v] | None => [] end in
          match hash with
          | Some _ => mkCapBundles uris hash ver node
          | None =>
              match wocky_node_get_attribute cap_node "ext" with
              | Some ext => mkCapBundles (foldl (λ l e, e :: l) uris (g_strsplit ext)) hash ver node
              | None => mkCapBundles uris hash ver node
              end
          end
      end
  end.

(** [gabble_flag_from_nick (GABBLE_TYPE_CLIENT_TYPE, ...)]. *)
Definition client_type_from_nick (nick : string) : option Z :=
  fst <$> List.find (λ v, bool_decide (v.2 = nick)) client_type_values.

Definition identity_types (resource : option string) (identity : WockyNode) : Z :=
  match wocky_node_get_attribute identity "category", wocky_node_get_attribute identity "type" with
  | Some category, Some type =>
      if bool_decide (category = "account") &&
         match resource with Some r => String.prefix "android" r | None => false end &&
         bool_decide (type = "registered")
      then GABBLE_CLIENT_TYPE_PHONE
      else if bool_decide (category = "client")
      then default 0 (client_type_from_nick type)
      else 0
  | _, _ => 0
  end.

Definition client_types_from_message (lm_node : WockyNode) (resource : option string) : Z :=
  foldl (λ types identity, Z.lor types (identity_types resource identity)) 0
    (List.filter (node_compare_child (Some "identity") (Some NS_DISCO_INFO)) (children lm_node)).

(** [None]: not a fragment of Google's; [Some ns] otherwise. *)
Definition get_google_cap (fragment : string) : option (option string) :=
  if bool_decide (fragment = "voice-v1") then Some (Some NS_GOOGLE_FEAT_VOICE)
  else if bool_decide (fragment = "video-v1") then Some (Some NS_GOOGLE_FEAT_VIDEO)
  else if bool_decide (fragment = "share-v1") then Some (Some NS_GOOGLE_FEAT_SHARE)
  else if bool_decide (fragment = "sms-v1") then Some None
  else if bool_decide (fragment = "pmuc-v1") then Some None
  else if bool_decide (fragment = "camera-v1") then Some None
  else None.

Definition resource_of (from : string) : option string := snd <$> split_first "/" from.

Section fields.
Context {F : Type}.

Definition p_set_nickname (s : option string) (p : GabblePresence loc F) : GabblePresence loc F :=
  mkPresence (status p) (status_message p) s (avatar_sha1 p) (client_types p)
    (keep_unavailable p) (cap_set p) (data_forms p) (no_resource_status_message p)
    (resources p) (olpc_views p) (active_resource p).
Definition p_set_avatar (s : option string) (p : GabblePresence loc F) : GabblePresence loc F :=
  mkPresence (status p) (status_message p) (nickname p) s (client_types p)
    (keep_unavailable p) (cap_set p) (data_forms p) (no_resource_status_message p)
    (resources p) (olpc_views p) (active_resource p).
Definition p_set_keep (b : bool) (p : GabblePresence loc F) : GabblePresence loc F :=
  mkPresence (status p) (status_message p) (nickname p) (avatar_sha1 p) (client_types p)
    b (cap_set p) (data_forms p) (no_resource_status_message p)
    (resources p) (olpc_views p) (active_resource p).
End fields.

(** ** Operations *)

Section cache.
Context {F L R C : Type} `{HandleRepo R} `{CapsCache C}.
Context (g_utf8_strdown g_utf8_normalize : string → string).
Context (wocky_caps_hash_compute_from_node : WockyNode → option string).
Context (wocky_data_form_new_from_node : WockyNode → option F).
(** The text and the condition of an error stanza. *)
Context (wocky_stanza_extract_errors : WockyNode → string * string).

Local Notation Cache := (GabblePresenceCache F L R C).
Local Notation MC := (M Cache).

Definition put_presence (m : gmap Z (World F)) : MC unit := modify (λ s,
  mkCache m (presence_handles s) (capabilities s) (disco_pending s) (next_serial s)
    (unsure_id s) (decloak_requests s) (decloak_handles s) (location s)
    (avatar_reset_pending s) (self_avatar_sha1 s) (feature_pool s) (contact_repo s)
    (caps_cache s) (events s)).
Definition put_presence_handles (m : gset Z) : MC unit := modify (λ s,
  mkCache (presence s) m (capabilities s) (disco_pending s) (next_serial s)
    (unsure_id s) (decloak_requests s) (decloak_handles s) (location s)
    (avatar_reset_pending s) (self_avatar_sha1 s) (feature_pool s) (contact_repo s)
    (caps_cache s) (events s)).
Definition put_info (uri : string) (i : GabbleCapabilityInfo F) : MC unit := modify (λ s,
  mkCache (presence s) (presence_handles s) (<[uri := i]> (capabilities s)) (disco_pending s)
    (next_serial s) (unsure_id s) (decloak_requests s) (decloak_handles s) (location s)
    (avatar_reset_pending s) (self_avatar_sha1 s) (feature_pool s) (contact_repo s)
    (caps_cache s) (events s)).
Definition put_pending (m : gmap string (list DiscoWaiter)) : MC unit := modify (λ s,
  mkCache (presence s) (presence_handles s) (capabilities s) m
    (next_serial s) (unsure_id s) (decloak_requests s) (decloak_handles s) (location s)
    (avatar_reset_pending s) (self_avatar_sha1 s) (feature_pool s) (contact_repo s)
    (caps_cache s) (events s)).
Definition put_serial (n : Z) : MC unit := modify (λ s,
  mkCache (presence s) (presence_handles s) (capabilities s) (disco_pending s)
    n (unsure_id s) (decloak_requests s) (decloak_handles s) (location s)
    (avatar_reset_pending s) (self_avatar_sha1 s) (feature_pool s) (contact_repo s)
    (caps_cache s) (events s)).
Definition put_unsure (b : bool) : MC unit := modify (λ s,
  mkCache (presence s) (presence_handles s) (capabilities s) (disco_pending s)
    (next_serial s) b (decloak_requests s) (decloak_handles s) (location s)
    (avatar_reset_pending s) (self_avatar_sha1 s) (feature_pool s) (contact_repo s)
    (caps_cache s) (events s)).
Definition put_decloak (m : gmap Z string) (hs : gset Z) : MC unit := modify (λ s,
  mkCache (presence s) (presence_handles s) (capabilities s) (disco_pending s)
    (next_serial s) (unsure_id s) m hs (location s)
    (avatar_reset_pending s) (self_avatar_sha1 s) (feature_pool s) (contact_repo s)
    (caps_cache s) (events s)).
Definition put_location (m : gmap Z L) : MC unit := modify (λ s,
  mkCache (presence s) (presence_handles s) (capabilities s) (disco_pending s)
    (next_serial s) (unsure_id s) (decloak_requests s) (decloak_handles s) m
    (avatar_reset_pending s) (self_avatar_sha1 s) (feature_pool s) (contact_repo s)
    (caps_cache s) (events s)).
Definition put_reset (b : bool) (self_avatar : option string) : MC unit := modify (λ s,
  mkCache (presence s) (presence_handles s) (capabilities s) (disco_pending s)
    (next_serial s) (unsure_id s) (decloak_requests s) (decloak_handles s) (location s)
    b self_avatar (feature_pool s) (contact_repo s) (caps_cache s) (events s)).
Definition put_pool (r : R) : MC unit := modify (λ s,
  mkCache (presence s) (presence_handles s) (capabilities s) (disco_pending s)
    (next_serial s) (unsure_id s) (decloak_requests s) (decloak_handles s) (location s)
    (avatar_reset_pending s) (self_avatar_sha1 s) r (contact_repo s) (caps_cache s) (events s)).
Definition put_contacts (r : R) : MC unit := modify (λ s,
  mkCache (presence s) (presence_handles s) (capabilities s) (disco_pending s)
    (next_serial s) (unsure_id s) (decloak_requests s) (decloak_handles s) (location s)
    (avatar_reset_pending s) (self_avatar_sha1 s) (feature_pool s) r (caps_cache s) (events s)).
Definition put_cache (c : C) : MC unit := modify (λ s,
  mkCache (presence s) (presence_handles s) (capabilities s) (disco_pending s)
    (next_serial s) (unsure_id s) (decloak_requests s) (decloak_handles s) (location s)
    (avatar_reset_pending s) (self_avatar_sha1 s) (feature_pool s) (contact_repo s) c (events s)).
Definition emit (e : cache_event) : MC unit := modify (λ s,
  mkCache (presence s) (presence_handles s) (capabilities s) (disco_pending s)
    (next_serial s) (unsure_id s) (decloak_requests s) (decloak_handles s) (location s)
    (avatar_reset_pending s) (self_avatar_sha1 s) (feature_pool s) (contact_repo s)
    (caps_cache s) (events s ++ [e])).

(** *** Handles *)

(** [tp_handle_ensure (contact_repo, jid, NULL, NULL)]: the repository
    normalises with [gabble_normalize_contact]; 0 when that fails. *)
Definition ensure_contact (jid : string) : MC Z :=
  s ← get;
  match gabble_normalize_contact g_utf8_strdown g_utf8_normalize
          (Some (λ n, negb (tp_handle_lookup (contact_repo s) n =? 0))) jid GABBLE_JID_ANY with
  | None => mret 0
  | Some n =>
      let '(r, h) := tp_handle_ensure (contact_repo s) n in
      put_contacts r ;; mret h
  end.

(** [tp_handle_is_valid]. *)
Definition handle_is_valid (r : R) (h : Z) : bool :=
  negb (h =? 0) && match tp_handle_inspect r h with Some _ => true | None => false end.

(** *** Presences *)

(** A call on the presence object of a contact. *)
Definition on_presence {A} (h : Z) (m : M (World F) A) : MC A :=
  s ← get;
  match presence s !! h with
  | None => fail MemoryFault
  | Some w =>
      match m w with
      | Ok (a, w') => put_presence (<[h := w']> (presence s)) ;; mret a
      | Abort r => fail r
      end
  end.

Definition gabble_presence_cache_get (handle : Z) : MC (option (World F)) :=
  s ← get;
  g_assert (handle_is_valid (contact_repo s) handle) ;;
  mret (presence s !! handle).

Definition _cache_insert (handle : Z) : MC unit :=
  s ← get;
  put_presence (<[handle := fresh_world]> (presence s)) ;;
  put_presence_handles ({[handle]} ∪ presence_handles s).

Definition gabble_presence_cache_really_remove (handle : Z) : MC unit :=
  s ← get;
  put_presence (delete handle (presence s)) ;;
  put_presence_handles (presence_handles s ∖ {[handle]}).

Definition removable (p : GabblePresence loc F) : bool :=
  ((status p =? GABBLE_PRESENCE_OFFLINE) || (status p =? GABBLE_PRESENCE_UNKNOWN)) &&
  bool_decide (status_message p = None) && negb (keep_unavailable p).

Definition gabble_presence_cache_maybe_remove (handle : Z) : MC unit :=
  p ← gabble_presence_cache_get handle;
  match p with
  | None => mret tt
  | Some w => when (removable (pres w)) (gabble_presence_cache_really_remove handle)
  end.

Definition emit_capabilities_update (handle : Z) (old new : GabbleCapabilitySet) : MC unit :=
  when (negb (gabble_capability_set_equals old new)) (emit (CapabilitiesUpdate handle old new)).

(** The capabilities of a presence object, read through its pointer. *)
Definition peek_caps (handle : Z) : MC GabbleCapabilitySet :=
  on_presence handle (w ← get; mret (cap_set (pres w))).

Definition set_capabilities (handle : Z) (resource : option string)
    (caps : GabbleCapabilitySet) (forms : option (list F)) (serial : Z) : MC unit :=
  on_presence handle
    (put_pres (λ p, (gabble_presence_set_capabilities p resource caps forms serial).2)).

Definition gabble_presence_cache_do_update (c : Conn) (handle : Z) (resource : option string)
    (presence_id : Z) (msg : option string) (prio : Z) (uct : bool) :
    MC (bool * option bool) :=
  p ← gabble_presence_cache_get handle;
  when (bool_decide (p = None)) (_cache_insert handle) ;;
  old_cap_set ← peek_caps handle;
  ret ← on_presence handle
    (gabble_presence_update resource presence_id msg prio uct (time_NULL c));
  new_cap_set ← peek_caps handle;
  emit_capabilities_update handle old_cap_set new_cap_set ;;
  mret ret.

Definition gabble_presence_cache_update (c : Conn) (handle : Z) (resource : option string)
    (presence_id : Z) (msg : option string) (prio : Z) : MC unit :=
  ret ← gabble_presence_cache_do_update c handle resource presence_id msg prio true;
  when ret.1 (emit (PresencesUpdated [handle])) ;;
  when (default false ret.2) (emit (ClientTypesUpdated handle)) ;;
  gabble_presence_cache_maybe_remove handle.

Fixpoint update_loop (c : Conn) (l : list Z) (resource : option string)
    (presence_id : Z) (msg : option string) (prio : Z) : MC (list Z) :=
  match l with
  | [] => mret []
  | h :: l' =>
      ret ← gabble_presence_cache_do_update c h resource presence_id msg prio false;
      updated ← update_loop c l' resource presence_id msg prio;
      mret (if (ret.1 : bool) then h :: updated else updated)
  end.

Definition gabble_presence_cache_update_many (c : Conn) (contact_handles : list Z)
    (resource : option string) (presence_id : Z) (msg : option string) (prio : Z) : MC unit :=
  updated ← update_loop c contact_handles resource presence_id msg prio;
  when (bool_decide (updated ≠ [])) (emit (PresencesUpdated updated)) ;;
  for_each contact_handles gabble_presence_cache_maybe_remove.

(** *** OLPC views; the order of the handle set is that of [elements]. *)

Fixpoint added_loop (l : list Z) : MC (list Z) :=
  match l with
  | [] => mret []
  | h :: l' =>
      p ← gabble_presence_cache_get h;
      when (bool_decide (p = None)) (_cache_insert h) ;;
      b ← on_presence h gabble_presence_added_to_view;
      changed ← added_loop l';
      mret (if (b : bool) then h :: changed else changed)
  end.

Definition gabble_presence_cache_contacts_added_to_olpc_view (hs : gset Z) : MC unit :=
  changed ← added_loop (elements hs);
  when (bool_decide (changed ≠ [])) (emit (PresencesUpdated changed)).

Fixpoint removed_loop (l : list Z) : MC (list Z) :=
  match l with
  | [] => mret []
  | h :: l' =>
      p ← gabble_presence_cache_get h;
      when (bool_decide (p = None)) (_cache_insert h) ;;
      b ← on_presence h gabble_presence_removed_from_view;
      when b (gabble_presence_cache_maybe_remove h) ;;
      changed ← removed_loop l';
      mret (if (b : bool) then h :: changed else changed)
  end.

Definition gabble_presence_cache_contacts_removed_from_olpc_view (hs : gset Z) : MC unit :=
  changed ← removed_loop (elements hs);
  when (bool_decide (changed ≠ [])) (emit (PresencesUpdated changed)).

(** *** What a capability node stands for *)

Definition no_info : GabbleCapabilityInfo F := mkInfo None None None ∅ 0 0 false.

Definition capability_info_get (node : string) : MC (GabbleCapabilityInfo F) :=
  s ← get;
  match capabilities s !! node with
  | Some info => mret info
  | None => put_info node no_info ;; mret no_info
  end.

(** The entry after an answer of [handle], which says [caps]. *)
Definition info_recvd (info : GabbleCapabilityInfo F) (handle : Z)
    (caps : GabbleCapabilitySet) (trust_inc types : Z) (forms : option (list F)) :
    GabbleCapabilityInfo F :=
  let '(set, gs, t) :=
    match info_cap_set info with
    | Some old =>
        if gabble_capability_set_equals caps old then (old, guys info, trust info)
        else (gabble_capability_set_update (gabble_capability_set_clear old) caps, ∅, 0)
    | None => (gabble_capability_set_update gabble_capability_set_new caps, ∅, 0)
    end in
  let '(gs, t) :=
    if bool_decide (handle ∈ gs) then (gs, t) else ({[handle]} ∪ gs, u32 (t + trust_inc)) in
  mkInfo (Some set) (info_identities info) forms gs t types (complete info).

Definition capability_info_recvd (node : string) (handle : Z) (caps : GabbleCapabilitySet)
    (trust_inc types : Z) (forms : option (list F)) : MC Z :=
  info ← capability_info_get node;
  let info' := info_recvd info handle caps trust_inc types forms in
  put_info node info' ;;
  mret (trust info').

Definition gabble_presence_cache_add_bundle_caps (node : string) (namespace : option string) :
    MC unit :=
  info ← capability_info_get node;
  s ← get;
  let set := default gabble_capability_set_new (info_cap_set info) in
  let '(r, set) :=
    match namespace with
    | Some n => gabble_capability_set_add (feature_pool s) set n
    | None => (feature_pool s, set)
    end in
  put_pool r ;;
  put_info node (mkInfo (Some set) (info_identities info) (info_data_forms info) (guys info)
    CAPABILITY_BUNDLE_ENOUGH_TRUST (info_client_types info) (complete info)).

Definition gabble_presence_cache_add_bundles : MC unit :=
  gabble_presence_cache_add_bundle_caps (NS_GABBLE_CAPS +:+ "#" +:+ BUNDLE_VOICE_V1)
    (Some NS_GOOGLE_FEAT_VOICE) ;;
  gabble_presence_cache_add_bundle_caps (NS_GABBLE_CAPS +:+ "#" +:+ BUNDLE_VIDEO_V1)
    (Some NS_GOOGLE_FEAT_VIDEO) ;;
  gabble_presence_cache_add_bundle_caps (NS_GABBLE_CAPS +:+ "#" +:+ BUNDLE_SHARE_V1)
    (Some NS_GOOGLE_FEAT_SHARE) ;;
  gabble_presence_cache_add_bundle_caps (NS_GABBLE_CAPS +:+ "#" +:+ BUNDLE_CAMERA_V1)
    (Some NS_GOOGLE_FEAT_CAMERA).

Definition gabble_presence_cache_add_own_caps (c : Conn) (ver : string)
    (caps : GabbleCapabilitySet) (identities : option (list WockyDiscoIdentity))
    (forms : option (list F)) : MC unit :=
  let uri := NS_GABBLE_CAPS +:+ "#" +:+ ver in
  info ← capability_info_get uri;
  if complete info then mret tt
  else
    let set := match info_cap_set info with
               | None => gabble_capability_set_copy caps
               | Some old => gabble_capability_set_update (gabble_capability_set_clear old) caps
               end in
    put_info uri (mkInfo (Some set) identities forms ({[self_handle c]} ∪ guys info)
      CAPABILITY_BUNDLE_ENOUGH_TRUST (info_client_types info) true).

Definition gabble_presence_cache_peek_own_caps (ver : string) :
    MC (option (GabbleCapabilityInfo F)) :=
  info ← capability_info_get (NS_GABBLE_CAPS +:+ "#" +:+ ver);
  if complete info
  then g_assert (bool_decide (is_Some (info_cap_set info))) ;; mret (Some info)
  else mret None.

(** *** Asking *)

Definition redisco (waiter : DiscoWaiter) (node : string) : MC DiscoWaiter :=
  s ← get;
  let waiter_jid := default EmptyString (tp_handle_inspect (contact_repo s) (w_handle waiter)) in
  let jid := match w_resource waiter with
             | Some r => waiter_jid +:+ "/" +:+ r
             | None => waiter_jid
             end in
  emit (DiscoRequest jid node) ;;
  mret (set_requested waiter).

Definition unrequested (w : DiscoWaiter) : bool := negb (disco_requested w).

Definition disco_failed (node : string) (waiters : list DiscoWaiter) : MC unit :=
  match List.find unrequested waiters with
  | Some waiter =>
      redisco waiter node ;;
      s ← get;
      put_pending (<[node := alter_waiter unrequested set_requested waiters]> (disco_pending s))
  | None => s ← get; put_pending (delete node (disco_pending s))
  end.

Definition set_caps_for (waiter : DiscoWaiter) (caps : GabbleCapabilitySet) (types : Z)
    (forms : option (list F)) : MC unit :=
  p ← gabble_presence_cache_get (w_handle waiter);
  match p with
  | None => mret tt
  | Some _ =>
      old_cap_set ← peek_caps (w_handle waiter);
      set_capabilities (w_handle waiter) (w_resource waiter) caps forms (w_serial waiter) ;;
      new_cap_set ← peek_caps (w_handle waiter);
      emit_capabilities_update (w_handle waiter) old_cap_set new_cap_set ;;
      b ← on_presence (w_handle waiter)
            (gabble_presence_update_client_types (w_resource waiter) types);
      when b (emit (ClientTypesUpdated (w_handle waiter)))
  end.

(** The loop that asks further waiters: [done] are behind it. *)
Fixpoint redisco_loop (node : string) (t : Z) (done rest : list DiscoWaiter) :
    MC (list DiscoWaiter) :=
  match rest with
  | [] => mret done
  | w :: rest' =>
      if CAPABILITY_BUNDLE_ENOUGH_TRUST <=?
           u32 (t + disco_waiter_list_get_request_count (done ++ rest))
      then mret (done ++ rest)
      else
        w' ← (if disco_requested w then mret w else redisco w node);
        redisco_loop node t (done ++ [w']) rest'
  end.

Definition data_forms_from_message (node : WockyNode) : list F :=
  omap wocky_data_form_new_from_node
    (List.filter (node_compare_child (Some "x") (Some NS_X_DATA)) (children node)).

(** The trust an answer earns, and whether its hash is wrong. *)
Definition judge_reply (waiter_self : DiscoWaiter) (node : string) (handle : Z)
    (query_result : WockyNode) (caps : GabbleCapabilitySet) (types : Z)
    (forms : option (list F)) : MC (Z * bool) :=
  if tp_strdiff (w_hash waiter_self) (Some "sha-1") then
    t ← capability_info_recvd node handle caps 1 types forms;
    mret (t, false)
  else
    match wocky_caps_hash_compute_from_node query_result with
    | None => mret (0, true)
    | Some computed_hash =>
        match w_ver waiter_self with
        | None => fail MemoryFault                      (* g_str_equal (NULL, ...) *)
        | Some ver =>
            if bool_decide (ver = computed_hash) then
              t ← capability_info_recvd node handle caps CAPABILITY_BUNDLE_ENOUGH_TRUST
                    types forms;
              mret (t, false)
            else mret (0, true)
        end
    end.

(** The end of [_caps_disco_cb] when the node is trusted. *)
Definition trusted_reply (node : string) (query_result : WockyNode) (waiters : list DiscoWaiter)
    (caps : GabbleCapabilitySet) (types : Z) (forms : option (list F)) : MC unit :=
  s ← get;
  put_cache (wocky_caps_cache_insert (caps_cache s) node query_result) ;;
  for_each waiters (λ waiter,
    set_caps_for waiter caps types forms ;;
    emit (CapabilitiesDiscovered (w_handle waiter))).

(** And when it is not; [waiters] no longer has [waiter_self]. *)
Definition untrusted_reply (node : string) (t : Z) (bad_hash : bool) (waiter_self : DiscoWaiter)
    (waiters : list DiscoWaiter) (caps : GabbleCapabilitySet) (types : Z)
    (forms : option (list F)) : MC unit :=
  when (negb bad_hash) (set_caps_for waiter_self caps types forms) ;;
  s ← get;
  put_pending (<[node := waiters]> (disco_pending s)) ;;
  emit (CapabilitiesDiscovered (w_handle waiter_self)) ;;
  waiters ← redisco_loop node t [] waiters;
  s ← get;
  put_pending (<[node := waiters]> (disco_pending s)).

(** [_caps_disco_cb]; [reply] is the <query/>, or [None] for an error. *)
Definition _caps_disco_cb (jid : string) (node : option string) (reply : option WockyNode) :
    MC unit :=
  match node with
  | None => mret tt
  | Some node =>
      s ← get;
      let waiters := default [] (disco_pending s !! node) in
      match reply with
      | None => disco_failed node waiters
      | Some query_result =>
          handle ← ensure_contact jid;
          if handle =? 0 then mret tt
          else
            let decoded := wocky_decode_jid g_utf8_strdown jid in
            g_assert (bool_decide (is_Some decoded)) ;;
            match find_matching_waiter waiters handle (decoded ≫= snd) with
            | None => mret tt
            | Some waiter_self =>
                s ← get;
                let '(r, caps) := gabble_capability_set_new_from_stanza (feature_pool s)
                                    query_result in
                put_pool r ;;
                let types := client_types_from_message query_result (w_resource waiter_self) in
                let forms := Some (data_forms_from_message query_result) in
                '(t, bad_hash) ← judge_reply waiter_self node handle query_result caps types forms;
                s ← get;
                g_assert (bool_decide (is_Some (disco_pending s !! node))) ;;
                put_pending (delete node (disco_pending s)) ;;
                if CAPABILITY_BUNDLE_ENOUGH_TRUST <=? t
                then trusted_reply node query_result waiters caps types forms
                else untrusted_reply node t bad_hash waiter_self
                       (delete_first (waiter_matches handle (decoded ≫= snd)) waiters)
                       caps types forms
            end
      end
  end.

(** *** A capability node in a presence stanza *)

Definition client_types_emit (handle : Z) (resource : option string) (types : Z) : MC unit :=
  b ← on_presence handle (gabble_presence_update_client_types resource types);
  when b (emit (ClientTypesUpdated handle)).

(** The last branch: nothing is known about the node yet. *)
Definition wait_for_caps (info : GabbleCapabilityInfo F) (from uri : string)
    (hash ver : option string) (handle : Z) (resource : option string) (serial : Z) : MC unit :=
  s ← get;
  let waiters := default [] (disco_pending s !! uri) in
  match find_matching_waiter waiters handle resource with
  | Some _ =>
      put_pending (<[uri := alter_waiter (waiter_matches handle resource)
                              (set_serial serial) waiters]> (disco_pending s))
  | None =>
      let waiter := disco_waiter_new handle resource hash ver serial in
      let ask := u32 (trust info + disco_waiter_list_get_request_count (waiter :: waiters))
                 <? CAPABILITY_BUNDLE_ENOUGH_TRUST in
      when ask (emit (DiscoRequest from uri)) ;;
      put_pending (<[uri := (if ask then set_requested waiter else waiter) :: waiters]>
        (disco_pending s))
  end.

Definition _process_caps_uri (from node fragment : string) (hash ver : option string)
    (handle : Z) (resource : option string) (serial : Z) : MC unit :=
  let uri := node +:+ "#" +:+ fragment in
  info ← capability_info_get uri;
  s ← get;
  let cached_query_reply := wocky_caps_cache_lookup (caps_cache s) uri in
  cached_caps ←
    (match cached_query_reply with
     | Some query =>
         let '(r, caps) := gabble_capability_set_new_from_stanza (feature_pool s) query in
         put_pool r ;; mret (Some caps)
     | None => mret None
     end);
  if bool_decide (is_Some cached_caps) ||
     (CAPABILITY_BUNDLE_ENOUGH_TRUST <=? trust info) || bool_decide (handle ∈ guys info)
  then
    p ← gabble_presence_cache_get handle;
    match p with
    | None => mret tt
    | Some _ =>
        match (match cached_caps with Some caps => Some caps | None => info_cap_set info end) with
        | None => fail MemoryFault
        | Some caps =>
            set_capabilities handle resource caps (info_data_forms info) serial ;;
            client_types_emit handle resource
              (match cached_query_reply with
               | Some query => client_types_from_message query resource
               | None => info_client_types info
               end)
        end
    end
  else
    match hash, get_google_cap fragment with
    | None, Some google_ns =>
        p ← gabble_presence_cache_get handle;
        match p with
        | None => mret tt
        | Some _ =>
            s ← get;
            let '(r, caps) :=
              match google_ns with
              | Some n => gabble_capability_set_add (feature_pool s) gabble_capability_set_new n
              | None => (feature_pool s, gabble_capability_set_new)
              end in
            put_pool r ;;
            set_capabilities handle resource caps None serial
        end
    | _, _ => wait_for_caps info from uri hash ver handle resource serial
    end.

Definition quirks_of (handle : Z) (resource : option string) (serial : Z) (l : list string) :
    MC unit :=
  s ← get;
  let '(r, caps) := new_with (feature_pool s) l in
  put_pool r ;;
  set_capabilities handle resource caps None serial.

Definition _parse_node (handle : Z) (lm_node : WockyNode) (resource : option string)
    (serial : Z) : MC unit :=
  match wocky_node_get_child_ns lm_node (Some "c") (Some NS_CAPS) with
  | None => mret tt
  | Some cap_node =>
      let node := wocky_node_get_attribute cap_node "node" in
      when (negb (tp_strdiff node (Some "http://mail.google.com/xmpp/client/caps")))
        (quirks_of handle resource serial
           [QUIRK_GOOGLE_WEBMAIL_CLIENT; QUIRK_OMITS_CONTENT_CREATORS]) ;;
      when (negb (tp_strdiff node (Some "http://www.android.com/gtalk/client/caps")) ||
            negb (tp_strdiff node (Some "http://www.android.com/gtalk/client/caps2")))
        (quirks_of handle resource serial [QUIRK_ANDROID_GTALK_CLIENT])
  end.

(** [has_presence]: whether the pointer [presence] is not NULL; it is then the
    object of [handle]. *)
Definition _process_caps (has_presence : bool) (handle : Z) (from : string)
    (lm_node : WockyNode) : MC unit :=
  s ← get;
  let serial := next_serial s in
  put_serial (u32 (serial + 1)) ;;
  let resource := resource_of from in
  let b := _parse_cap_bundles lm_node in
  let each := for_each (uris b) (λ uri,
    _process_caps_uri from (cb_node b) uri (cb_hash b) (cb_ver b) handle resource serial) in
  if has_presence then
    old_cap_set ← peek_caps handle;
    _parse_node handle lm_node resource serial ;;
    each ;;
    new_cap_set ← peek_caps handle;
    emit_capabilities_update handle old_cap_set new_cap_set
  else each.

(** *** Nicknames and avatars *)

Definition _grab_nickname (handle : Z) (node : WockyNode) : MC unit :=
  match wocky_node_get_child_ns node (Some "nick") (Some NS_NICK) with
  | None => mret tt
  | Some nick =>
      p ← gabble_presence_cache_get handle;
      match p with
      | None => mret tt
      | Some w =>
          when (tp_strdiff (nickname (pres w)) (content nick))
            (on_presence handle (put_pres (p_set_nickname (content nick))) ;;
             emit (NicknameUpdate handle))
      end
  end.

Definition self_avatar_resolve_conflict (c : Conn) : MC unit :=
  s ← get;
  if bool_decide (conn_status c ≠ CONNECTED) then mret tt
  else if avatar_reset_pending s then mret tt
  else
    put_reset true None ;;
    emit SignalOwnPresence ;;
    emit (InvalidateVCard (self_handle c)) ;;
    emit (RequestVCard (self_handle c)).

(** [vcard]: the hash of the photo in the vCard that came, if one came. *)
Definition self_vcard_request_cb (handle : Z) (vcard : option (option string)) : MC unit :=
  s ← get;
  put_reset false (self_avatar_sha1 s) ;;
  match vcard with
  | Some sha1 => emit (AvatarUpdate handle sha1)
  | None => mret tt
  end.

Definition _grab_avatar_sha1 (c : Conn) (handle : Z) (node : WockyNode) : MC unit :=
  let own := handle =? self_handle c in
  s ← get;
  avatar ← (if own then mret (Some (self_avatar_sha1 s))
            else p ← gabble_presence_cache_get handle;
                 mret ((λ w, avatar_sha1 (pres w)) <$> p));
  match avatar, (x ← wocky_node_get_child_ns node (Some "x") (Some NS_VCARD_TEMP_UPDATE);
                 wocky_node_get_child x "photo") with
  | Some avatar, Some photo_node =>
      let sha1 := default EmptyString (content photo_node) in
      when (tp_strdiff avatar (Some sha1))
        (if own then self_avatar_resolve_conflict c
         else when (bool_decide (conn_status c = CONNECTED))
           (on_presence handle (put_pres (p_set_avatar (Some sha1))) ;;
            emit (InvalidateVCard handle) ;;
            emit (AvatarUpdate handle (Some sha1))))
  | _, _ => mret tt
  end.

(** *** Cloaking *)

(** [g_hash_table_remove (decloak_requests, handle)]: freeing the context
    takes the handle out of the set and its timer with it. *)
Definition decloak_remove (handle : Z) : MC unit :=
  s ← get;
  match decloak_requests s !! handle with
  | None => mret tt
  | Some _ => put_decloak (delete handle (decloak_requests s)) (decloak_handles s ∖ {[handle]})
  end.

Definition presence_cache_check_for_decloak_request (c : Conn) (stanza : WockyNode)
    (handle : Z) (from : string) : MC unit :=
  decloak_remove handle ;;
  match wocky_node_get_child_ns stanza (Some "temppres") (Some NS_TEMPPRES) with
  | None => mret tt
  | Some child_node =>
      let decloak := decloak_automatically c in
      let reason := default EmptyString (wocky_node_get_attribute child_node "reason") in
      emit (DecloakRequested handle reason decloak) ;;
      when decloak (emit (SendCapabilities from))
  end.

(** The timer of a context; there is none without a context. *)
Definition gabble_presence_cache_decloak_timeout_cb (handle : Z) : MC unit :=
  decloak_remove handle ;;
  s ← get;
  g_assert (bool_decide (handle ∉ decloak_handles s)) ;;
  emit (CapabilitiesDiscovered handle).

Definition online (p : GabblePresence loc F) : bool :=
  negb (status p =? GABBLE_PRESENCE_OFFLINE) && negb (status p =? GABBLE_PRESENCE_UNKNOWN).

Definition gabble_presence_cache_request_decloaking (handle : Z) (reason : string) : MC bool :=
  p ← gabble_presence_cache_get handle;
  s ← get;
  if match p with Some w => online (pres w) | None => false end then mret false
  else if bool_decide (handle ∈ decloak_handles s) &&
          bool_decide (decloak_requests s !! handle = Some reason) then mret true
  else
    (* inserting frees the context it replaces *)
    decloak_remove handle ;;
    s ← get;
    put_decloak (<[handle := reason]> (decloak_requests s)) ({[handle]} ∪ decloak_handles s) ;;
    emit (RequestDecloak (default EmptyString (tp_handle_inspect (contact_repo s) handle)) reason) ;;
    mret true.

(** *** Stanzas *)

Definition G_MININT8 : Z := -128.
Definition G_MAXINT8 : Z := 127.

Definition parse_priority (presence_node : WockyNode) : Z :=
  match wocky_node_get_content_from_child presence_node "priority" with
  | None => 0
  | Some prio => clamp G_MININT8 G_MAXINT8 (s32 (strtol prio).1)
  end.

Definition gabble_presence_parse_presence_message (c : Conn) (handle : Z) (from : string)
    (presence_node : WockyNode) : MC bool :=
  if bool_decide (from = full_jid c) then mret true
  else
    g_assert (bool_decide (name presence_node = "presence")) ;;
    let resource := resource_of from in
    p ← gabble_presence_cache_get handle;
    when (bool_decide (is_Some p)) (on_presence handle (put_pres (p_set_keep false))) ;;
    let msg := wocky_node_get_content_from_child presence_node "status" in
    let prio := parse_priority presence_node in
    presence_cache_check_for_decloak_request c presence_node handle from ;;
    match wocky_node_get_attribute presence_node "type" with
    | None =>
        gabble_presence_cache_update c handle resource
          (_presence_node_get_status presence_node) msg prio ;;
        has_presence ← (match p with
                        | Some _ => mret true
                        | None => p ← gabble_presence_cache_get handle;
                                  mret (bool_decide (is_Some p))
                        end);
        _grab_nickname handle presence_node ;;
        _grab_avatar_sha1 c handle presence_node ;;
        _process_caps has_presence handle from presence_node ;;
        mret true
    | Some ty =>
        if bool_decide (ty = "error") then
          let '(text, condition) := wocky_stanza_extract_errors presence_node in
          gabble_presence_cache_update c handle resource GABBLE_PRESENCE_ERROR
            (Some (if bool_decide (text = EmptyString) then condition else text)) prio ;;
          mret true
        else if bool_decide (ty = "unavailable") then
          gabble_presence_cache_update c handle resource
            (if handle_sends_presence_to_us c handle
             then GABBLE_PRESENCE_OFFLINE else GABBLE_PRESENCE_UNKNOWN) msg prio ;;
          mret true
        else mret false
    end.

Definition gabble_presence_cache_presence_cb (c : Conn) (message : WockyNode) : MC bool :=
  match wocky_node_get_attribute message "from" with
  | None => mret false
  | Some from =>
      handle ← ensure_contact from;
      if handle =? 0 then mret false
      else gabble_presence_parse_presence_message c handle from message
  end.

(** The types of a <message/> that are looked at. *)
Definition message_type_ok (message : WockyNode) : bool :=
  match wocky_node_get_attribute message "type" with
  | None => true
  | Some ty => bool_decide (ty ∈ ["normal"; "chat"; "groupchat"])
  end.

Definition _parse_message_message (message : WockyNode) : MC bool :=
  match wocky_node_get_attribute message "from" with
  | None => mret false
  | Some from =>
      handle ← ensure_contact from;
      if handle =? 0 then mret false
      else if negb (message_type_ok message) then mret false
      else
        p ← gabble_presence_cache_get handle;
        when (bool_decide (p = None))
          (_cache_insert handle ;; on_presence handle (put_pres (p_set_keep true))) ;;
        _grab_nickname handle message ;;
        mret false
  end.

(** *** The unsure period, locations and queries *)

Definition gabble_presence_cache_status_changed_cb (st : TpConnectionStatus) : MC unit :=
  match st with
  | CONNECTED => put_unsure true
  | CONNECTING | DISCONNECTED => mret tt
  end.

Definition gabble_presence_cache_end_unsure_period : MC unit :=
  put_unsure false ;; emit UnsurePeriodEnded.

Definition gabble_presence_cache_update_location (handle : Z) (new_location : L) : MC unit :=
  s ← get;
  put_location (<[handle := new_location]> (location s)) ;;
  emit (LocationUpdated handle).

Definition gabble_presence_cache_get_location (handle : Z) : MC (option L) :=
  s ← get; mret (location s !! handle).

Definition all_waiters (s : Cache) : list DiscoWaiter :=
  concat (snd <$> map_to_list (disco_pending s)).

Definition gabble_presence_cache_caps_pending (s : Cache) (handle : Z) : bool :=
  existsb (λ w, w_handle w =? handle) (all_waiters s).

Definition gabble_presence_cache_disco_in_progress (s : Cache) (handle : Z)
    (resource : option string) : bool :=
  existsb (waiter_matches handle resource) (all_waiters s).

Definition gabble_presence_cache_is_unsure (c : Conn) (handle : Z) : MC bool :=
  s ← get;
  early ←
    (if bool_decide (conn_status c ≠ CONNECTED) || unsure_id s then
       p ← gabble_presence_cache_get handle;
       mret (match p with None => true | Some w => keep_unavailable (pres w) end)
     else mret false);
  if early : bool then mret true
  else if gabble_presence_cache_caps_pending s handle then mret true
  else mret (bool_decide (handle ∈ decloak_handles s)).

(** *** Construction *)

(** [gabble_presence_cache_init] and the properties set at construction. *)
Definition gabble_presence_cache_init (pool contacts : R) (cache : C)
    (self_avatar : option string) : Cache :=
  mkCache ∅ ∅ ∅ ∅ 1 false ∅ ∅ ∅ false self_avatar pool contacts cache [].

Definition gabble_presence_cache_constructor : MC unit := gabble_presence_cache_add_bundles.

End cache.
End PresenceCache.
