(* ===== verification/PresenceCacheFacts.v ===== *)
(** * The presence cache: safety and trust

    Every input of the cache is a constructor of [cache_input]; the theorems
    are about every sequence of them.  [good] is the invariant: the memory of
    every contact is sound, and every capability node is believed for a
    reason that can be found in the answers received so far. *)

From Stdlib Require String.
From S2P Require Import Prelude Node Namespaces Jid Capabilities Presence PresenceCache.

Module PresenceCacheFacts.
Import Jid Capabilities Presence PresenceCache.

(** An answer to a disco request: who was asked, about which node, and the
    <query/>. *)
Definition reply : Type := string * string * WockyNode.

Section facts.
Context {F L R C : Type} `{HL : HandleRepoLaws R} `{CL : CapsCacheLaws C}.
Context (down norm : string → string).
Context (caps_hash : WockyNode → option string).
Context (parse_form : WockyNode → option F).
Context (extract : WockyNode → string * string).

Local Notation Cache := (GabblePresenceCache F L R C).
Local Notation MC := (M Cache).
Implicit Types (s : Cache) (hist : list reply).

(** ** Reasons to believe *)

(** [n] is the name under which the contact with JID [jid] is known. *)
Definition speaks_for (jid n : string) : Prop :=
  ∃ f, gabble_normalize_contact down norm f jid GABBLE_JID_ANY = Some n.

(** The set stands for exactly the features of the answer. *)
Definition says (pool : R) (caps : GabbleCapabilitySet) (q : WockyNode) : Prop :=
  wf pool caps ∧ ∀ f, denotes pool caps f ↔ ∃ x, x ∈ children q ∧ child_contributes x f.

(** The contact [h] answered that [node] means [caps]. *)
Definition heard hist (pool contacts : R) (node : string) (caps : GabbleCapabilitySet)
    (h : Z) : Prop :=
  h ≠ 0 ∧ ∃ n jid q, tp_handle_lookup contacts n = h ∧ speaks_for jid n ∧
    (jid, node, q) ∈ hist ∧ says pool caps q.

(** Somebody's answer hashes to the verification string in [node]. *)
Definition verified hist (pool : R) (node : string) (caps : GabbleCapabilitySet) : Prop :=
  ∃ prefix ver jid q, node = prefix +:+ "#" +:+ ver ∧ (jid, node, q) ∈ hist ∧
    caps_hash q = Some ver ∧ says pool caps q.

Definition bundle_nodes : list string :=
  (λ b, NS_GABBLE_CAPS +:+ "#" +:+ b) <$>
    [BUNDLE_VOICE_V1; BUNDLE_VIDEO_V1; BUNDLE_SHARE_V1; BUNDLE_CAMERA_V1].

Definition supported hist (pool contacts : R) (node : string) (caps : GabbleCapabilitySet)
    (gs : gset Z) (t : Z) : Prop :=
  (∀ h, h ∈ gs → heard hist pool contacts node caps h) ∧
  (t <= Z.of_nat (size gs) ∨ verified hist pool node caps).

Record info_ok hist (pool contacts : R) (node : string) (i : GabbleCapabilityInfo F) : Prop := {
  info_set : is_Some (info_cap_set i) ∨ guys i = ∅ ∧ trust i = 0 ∧ complete i = false;
  info_pos : 0 <= trust i;
  info_why : complete i = true ∨ node ∈ bundle_nodes ∨
    ∀ caps, info_cap_set i = Some caps → supported hist pool contacts node caps (guys i) (trust i);
}.

Record waiter_ok (contacts : R) (node : string) (w : DiscoWaiter) : Prop := {
  waiter_valid : handle_is_valid contacts (w_handle w) = true;
  waiter_ver : w_hash w = Some "sha-1" → ∃ prefix ver,
    w_ver w = Some ver ∧ node = prefix +:+ "#" +:+ ver;
}.

(** A contact is sound: its strings are, and its resources are on line. *)
Definition all_online {P} (p : GabblePresence P F) : Prop :=
  Forall (λ r, GABBLE_PRESENCE_LAST_UNAVAILABLE < res_status r) (resources p).

Definition world_ok (w : World F) : Prop :=
  mem_ok w ∧ olpc_views (pres w) = 0 ∧ all_online (abs w).

Record pres_ok s : Prop := {
  pres_mem : ∀ h w, presence s !! h = Some w → world_ok w;
  pres_dom : presence_handles s = dom (presence s);
}.

Record good hist s : Prop := {
  good_pres : pres_ok s;
  good_infos : ∀ node i, capabilities s !! node = Some i →
    info_ok hist (feature_pool s) (contact_repo s) node i;
  good_waiters : ∀ node l w, disco_pending s !! node = Some l → w ∈ l →
    waiter_ok (contact_repo s) node w;
  good_decloak : decloak_handles s = dom (decloak_requests s);
}.

(** ** Monotonicity *)

Lemma says_extends pool pool' caps q : extends pool pool' → says pool caps q → says pool' caps q.
Proof.
  intros He [Hw Hd]. split; [by eapply wf_extends|].
  intros f. by rewrite (denotes_extends pool pool').
Qed.

Lemma says_handles pool caps caps' q :
  handles caps = handles caps' → says pool caps q → says pool caps' q.
Proof. destruct caps, caps'. cbn. by intros ->. Qed.

Lemma heard_mono hist hist' pool pool' contacts contacts' node caps h :
  hist ⊆ hist' → extends pool pool' → extends contacts contacts' →
  heard hist pool contacts node caps h → heard hist' pool' contacts' node caps h.
Proof.
  intros Hh Hp Hc (Hne & n & jid & q & Hl & Hs & Hin & Hsay). split; [done|].
  exists n, jid, q. split_and!; [|done|by apply Hh|by eapply says_extends].
  rewrite Hc; congruence.
Qed.

Lemma verified_mono hist hist' pool pool' node caps :
  hist ⊆ hist' → extends pool pool' →
  verified hist pool node caps → verified hist' pool' node caps.
Proof.
  intros Hh Hp (p & v & jid & q & Hn & Hin & Hc & Hsay). exists p, v, jid, q.
  split_and!; [done|by apply Hh|done|by eapply says_extends].
Qed.

Lemma info_ok_mono hist hist' pool pool' contacts contacts' node i :
  hist ⊆ hist' → extends pool pool' → extends contacts contacts' →
  info_ok hist pool contacts node i → info_ok hist' pool' contacts' node i.
Proof.
  intros Hh Hp Hc [H1 H2 H3]. split; [done|done|].
  destruct H3 as [H3|[H3|H3]]; [by left|by right; left|]. right; right.
  intros caps Hcaps. destruct (H3 caps Hcaps) as [Hg Ht]. split.
  - intros h Hin. eapply heard_mono; eauto.
  - destruct Ht; [by left|]. right. eapply verified_mono; eauto.
Qed.

Lemma valid_lookup (r : R) n : tp_handle_lookup r n ≠ 0 → handle_is_valid r (tp_handle_lookup r n) = true.
Proof.
  intros Hne. unfold handle_is_valid. apply andb_true_iff. split.
  - apply negb_true_iff, Z.eqb_neq. done.
  - assert (tp_handle_inspect r (tp_handle_lookup r n) = Some n) as -> by by apply inspect_lookup.
    done.
Qed.

Lemma valid_extends (r r' : R) h :
  extends r r' → handle_is_valid r h = true → handle_is_valid r' h = true.
Proof.
  intros He. unfold handle_is_valid at 1. rewrite andb_true_iff, negb_true_iff, Z.eqb_neq.
  intros [Hne Hi]. destruct (tp_handle_inspect r h) as [n|] eqn:E; [|done].
  apply inspect_lookup in E; [|done]. subst h. rewrite <- He by done.
  apply valid_lookup. by rewrite He.
Qed.

Lemma waiter_ok_extends (r r' : R) node w :
  extends r r' → waiter_ok r node w → waiter_ok r' node w.
Proof. intros He []. split; [by eapply valid_extends|done]. Qed.

(** ** What presence operations leave alone *)

Definition discovered (l : list cache_event) : list Z :=
  omap (λ e, match e with CapabilitiesDiscovered h => Some h | _ => None end) l.

(** Nothing but contacts in [P] and the log has changed. *)
Record touches (P : Z → Prop) s s' : Prop := {
  t_caps : capabilities s' = capabilities s;
  t_pending : disco_pending s' = disco_pending s;
  t_requests : decloak_requests s' = decloak_requests s;
  t_handles : decloak_handles s' = decloak_handles s;
  t_contacts : contact_repo s' = contact_repo s;
  t_pool : feature_pool s' = feature_pool s;
  t_cache : caps_cache s' = caps_cache s;
  t_serial : next_serial s' = next_serial s;
  t_unsure : unsure_id s' = unsure_id s;
  t_discovered : discovered (events s') = discovered (events s);
  t_presence : ∀ h, ¬ P h → presence s' !! h = presence s !! h;
}.

#[global] Instance touches_refl P : Reflexive (touches P).
Proof. by split. Qed.

#[global] Instance touches_trans P : Transitive (touches P).
Proof.
  intros s1 s2 s3 [] []. split; try congruence. intros h Hh. rewrite t_presence1; auto.
Qed.

Lemma touches_mono (P Q : Z → Prop) s s' : (∀ h, P h → Q h) → touches P s s' → touches Q s s'.
Proof. intros HPQ []. split; try done. auto. Qed.

Lemma good_touches hist P s s' : good hist s → touches P s s' → pres_ok s' → good hist s'.
Proof.
  intros [_ Hi Hw Hd] [] Hp. split; [done| | |congruence].
  - intros node i. rewrite t_caps0, t_pool0, t_contacts0. apply Hi.
  - intros node l w. rewrite t_pending0, t_contacts0. apply Hw.
Qed.

(** ** Operations on one contact *)

Definition with_presence (m : gmap Z (World F)) s : Cache :=
  mkCache m (presence_handles s) (capabilities s) (disco_pending s) (next_serial s)
    (unsure_id s) (decloak_requests s) (decloak_handles s) (location s)
    (avatar_reset_pending s) (self_avatar_sha1 s) (feature_pool s) (contact_repo s)
    (caps_cache s) (events s).

Lemma wp_on_presence {A} h (m : M (World F) A) (Q : A → Cache → Prop) s w :
  presence s !! h = Some w →
  wp m (λ a w', Q a (with_presence (<[h := w']> (presence s)) s)) w →
  wp (on_presence h m) Q s.
Proof.
  intros Hw Hm. unfold on_presence. apply wp_bind, wp_get. rewrite Hw.
  unfold wp in Hm. destruct (m w) as [[a w']|] eqn:Em; [|done]. exact Hm.
Qed.

Lemma with_presence_spec h w w' s :
  pres_ok s → presence s !! h = Some w → world_ok w' →
  pres_ok (with_presence (<[h := w']> (presence s)) s) ∧
  touches (eq h) s (with_presence (<[h := w']> (presence s)) s).
Proof.
  intros [Hm Hd] Hw Hok. split; [split|split]; cbn; try done.
  - intros h' x. rewrite lookup_insert_Some. intros [[_ <-]|[_ ?]]; [done|by eapply Hm].
  - rewrite dom_insert_L, Hd. apply elem_of_dom_2 in Hw. set_solver.
  - intros h' Hne. by rewrite lookup_insert_ne.
Qed.

(** A call on a contact keeps the cache sound when it keeps the contact sound;
    [Q] says more about the contact. *)
Lemma on_presence_spec {A} h (m : M (World F) A) (Q : A → World F → Prop) s w :
  pres_ok s → presence s !! h = Some w →
  wp m (λ a w', world_ok w' ∧ Q a w') w →
  wp (on_presence h m) (λ a s', pres_ok s' ∧ touches (eq h) s s' ∧ dom (presence s') = dom (presence s) ∧
    ∃ w', presence s' = <[h := w']> (presence s) ∧ Q a w') s.
Proof.
  intros Hok Hw Hm. eapply wp_on_presence; [done|]. eapply wp_mono; [|exact Hm].
  intros a w' [Hok' HQ]. destruct (with_presence_spec h w w' s) as [H1 H2]; [done..|].
  split_and!; [done|done| |by exists w'].
  cbn. rewrite dom_insert_L. apply elem_of_dom_2 in Hw. set_solver.
Qed.

Lemma alter_first_online {P} nm (f : Resource P F → Resource P F) l :
  (∀ r, GABBLE_PRESENCE_LAST_UNAVAILABLE < res_status r →
        GABBLE_PRESENCE_LAST_UNAVAILABLE < res_status (f r)) →
  Forall (λ r, GABBLE_PRESENCE_LAST_UNAVAILABLE < res_status r) l →
  Forall (λ r, GABBLE_PRESENCE_LAST_UNAVAILABLE < res_status r) (alter_first nm f l).
Proof.
  intros Hf. induction 1 as [|r l Hr Hl IH]; cbn; [done|]. case_bool_decide; constructor; auto.
Qed.

(** A new resource at the end of the list is the one that is changed. *)
Lemma alter_new_online {P} nm (f : Resource P F → Resource P F) l :
  (∀ r, GABBLE_PRESENCE_LAST_UNAVAILABLE < res_status (f r)) →
  List.find (λ r, bool_decide (res_name r = nm)) l = None →
  Forall (λ r, GABBLE_PRESENCE_LAST_UNAVAILABLE < res_status r) l →
  Forall (λ r, GABBLE_PRESENCE_LAST_UNAVAILABLE < res_status r)
    (alter_first nm f (l ++ [_resource_new nm])).
Proof.
  intros Hf Hnone. induction 1 as [|r l Hr Hl IH]; cbn.
  - rewrite bool_decide_eq_true_2 by done. constructor; [apply Hf|constructor].
  - cbn in Hnone. destruct (bool_decide (res_name r = nm)) eqn:E; [done|].
    constructor; [done|by apply IH].
Qed.

Lemma spec_aggregate_resources (v : GabblePresence string F) :
  resources (spec_aggregate v).2 = resources v.
Proof. unfold spec_aggregate. cbn. by destruct (best_resource _). Qed.

Lemma spec_op_online (o : presence_op) (v : GabblePresence string F) :
  all_online v → all_online (spec_op o v).2.
Proof.
  unfold all_online. intros Hv.
  destruct o as [resource st msg prio uct now|resource caps forms serial|resource types].
  - unfold spec_op, spec_update. destruct resource as [nm|]; [|cbn; constructor].
    pose proof (spec_aggregate_resources (spec_update_resource nm st msg prio now v)) as Hr.
    destruct (spec_aggregate _) as [b v']. cbn in Hr |- *. rewrite Hr.
    unfold spec_update_resource. destruct (Z.leb_spec st GABBLE_PRESENCE_LAST_UNAVAILABLE) as [?|Hst]; cbn.
    + rewrite Forall_forall in Hv |- *. intros r Hin. apply Hv.
      revert Hin. induction (resources v) as [|x l IH]; cbn; [done|].
      case_bool_decide; [by right|]. intros [->|?]%elem_of_cons; [by left|]. right. apply IH; [|done].
      intros y Hy. apply Hv. by right.
    + assert (∀ r : Resource string F, GABBLE_PRESENCE_LAST_UNAVAILABLE <
        res_status ((if GABBLE_PRESENCE_AVAILABLE <=? st then set_last_available now else id)
          (set_priority prio (set_message msg (set_status st r))))) as Hf
        by (intros r; by destruct (_ <=? _)).
      destruct (_find_resource v nm) eqn:Ef; [by apply alter_first_online|by apply alter_new_online].
  - cbn. destruct resource as [nm|]; cbn.
    + rewrite set_caps_loop_spec. cbn. apply Forall_fmap. eapply Forall_impl; [exact Hv|].
      intros r Hr. cbn. unfold refresh_resource. repeat case_match; done.
    + destruct (resources v) eqn:E; cbn; rewrite E; done.
  - cbn. destruct resource as [nm|]; cbn.
    + destruct (_find_resource v nm); [|done].
      pose proof (spec_aggregate_resources (p_set_resources
        (alter_first nm (set_client_type types) (resources v)) v)) as Hr.
      destruct (spec_aggregate _) as [b v']. cbn in Hr |- *. rewrite Hr.
      by apply alter_first_online.
    + by destruct (resources v) eqn:E; cbn; rewrite E.
Qed.

Lemma op_spec (o : presence_op) w :
  world_ok w → wp (run_op o) (λ r w', world_ok w' ∧ (r, abs w') = spec_op o (abs w)) w.
Proof.
  intros (Hm & Hv & Ho). eapply wp_mono; [|by apply op_refines].
  intros r w' (? & ? & Heq). split; [|done]. split_and!; [done|done|].
  apply (spec_op_online o) in Ho. by rewrite <- Heq in Ho.
Qed.

(** A contact updated to a status that is on line is on line. *)
Lemma best_resource_None {P} (l : list (Resource P F)) : best_resource l = None → l = [].
Proof.
  unfold best_resource. destruct l as [|r l]; [done|]. cbn.
  assert (∀ (l : list (Resource P F)) b, ∃ b', foldl best_step (Some b) l = Some b') as Hs.
  { clear. induction l as [|r l IH]; intros b; cbn; [by eauto|].
    unfold best_step at 2. destruct (trumps r (Some b)); apply IH. }
  destruct (Hs l r) as [b' ->]. done.
Qed.

Lemma update_online resource st msg prio uct now (v : GabblePresence string F) :
  all_online v → GABBLE_PRESENCE_LAST_UNAVAILABLE < st →
  GABBLE_PRESENCE_LAST_UNAVAILABLE <
    status (spec_op (Update resource st msg prio uct now) v).2.
Proof.
  intros Hv Hst. pose proof (spec_op_online (Update resource st msg prio uct now) v Hv) as Ho.
  revert Ho. unfold spec_op, spec_update, all_online. destruct resource as [nm|]; [|done].
  set (u := spec_update_resource nm st msg prio now v).
  pose proof (spec_aggregate_resources u) as Hr.
  destruct (spec_aggregate u) as [b v'] eqn:Ea. cbn in Hr |- *. rewrite Hr. intros Ho.
  unfold spec_aggregate in Ea. destruct (best_resource (resources u)) as [best|] eqn:Eb.
  - apply best_resource_elem in Eb. rewrite Forall_forall in Ho. specialize (Ho best Eb).
    injection Ea as _ <-. exact Ho.
  - apply best_resource_None in Eb. unfold u, spec_update_resource in Eb.
    destruct (Z.leb_spec st GABBLE_PRESENCE_LAST_UNAVAILABLE) as [?|_]; [lia|]. cbn in Eb.
    destruct (_find_resource v nm) eqn:Ef; destruct (resources v) as [|x l] eqn:El; cbn in Eb;
      repeat case_bool_decide; try done.
    unfold _find_resource in Ef. by rewrite El in Ef.
Qed.

Lemma set_pres_spec (f : GabblePresence loc F → GabblePresence loc F) w :
  (∀ p, slots (f p) = slots p ∧ status_message (f p) = status_message p ∧
        olpc_views (f p) = olpc_views p ∧ resources (f p) = resources p) →
  world_ok w →
  wp (put_pres f) (λ _ w', world_ok w' ∧ pres w' = f (pres w) ∧ mem w' = mem w) w.
Proof.
  intros Hf (Hm & Hv & Ho). destruct (Hf (pres w)) as (H1 & H2 & H3 & H4).
  unfold put_pres. apply wp_modify. cbn. split_and!; [|done|done].
  split_and!; [by apply mem_ok_same_slots|cbn; congruence|].
  unfold all_online in *. cbn in *. by rewrite H4.
Qed.

Lemma set_capabilities_wp h resource caps forms serial s w :
  pres_ok s → presence s !! h = Some w →
  wp (set_capabilities (R := R) (C := C) (L := L) h resource caps forms serial)
    (λ _ s', pres_ok s' ∧ touches (eq h) s s' ∧ dom (presence s') = dom (presence s) ∧
     ∃ w', presence s' = <[h := w']> (presence s) ∧
       abs w' = (spec_op (SetCapabilities resource caps forms serial) (abs w)).2) s.
Proof.
  intros Hok Hw. unfold set_capabilities. eapply on_presence_spec; [done|exact Hw|].
  pose proof (op_spec (SetCapabilities resource caps forms serial) w (pres_mem _ Hok _ _ Hw)) as Ho.
  cbn -[spec_op] in Ho. unfold wp, mbind, M_bind, get in Ho. cbn -[spec_op] in Ho.
  unfold put_pres. apply wp_modify. destruct Ho as [H1 H2].
  split; [exact H1|]. by rewrite <- H2.
Qed.

Lemma peek_caps_wp h s w :
  presence s !! h = Some w →
  wp (peek_caps (R := R) (C := C) (L := L) h)
    (λ c s', c = cap_set (pres w) ∧ s' = s) s.
Proof.
  intros Hw. unfold peek_caps. eapply wp_on_presence; [done|]. wp_steps. split; [done|].
  unfold with_presence. rewrite insert_id by done. by destruct s.
Qed.

Lemma emit_touches (Q : unit → Cache → Prop) e s :
  (match e with CapabilitiesDiscovered _ => False | _ => True end) →
  (∀ s', touches (λ _, False) s s' → presence s' = presence s → pres_ok s → pres_ok s' → Q tt s') →
  pres_ok s → wp (emit e) Q s.
Proof.
  intros He HQ Hok. unfold emit. apply wp_modify. apply HQ; [|done|done|].
  - split; cbn; try done. unfold discovered. rewrite omap_app. cbn.
    destruct e; try done; by rewrite app_nil_r.
  - destruct Hok. by split.
Qed.

Lemma cache_get_wp h (Q : option (World F) → Cache → Prop) s :
  handle_is_valid (contact_repo s) h = true → Q (presence s !! h) s →
  wp (gabble_presence_cache_get h) Q s.
Proof. intros Hv HQ. unfold gabble_presence_cache_get. wp_steps; done. Qed.

Lemma caps_update_wp h old new s :
  pres_ok s →
  wp (emit_capabilities_update (F := F) (L := L) (R := R) (C := C) h old new)
    (λ _ s', pres_ok s' ∧ touches (λ _, False) s s' ∧ presence s' = presence s) s.
Proof.
  intros Hok. unfold emit_capabilities_update. apply wp_when; intros _; [|by split_and!].
  by apply emit_touches.
Qed.

Lemma client_types_wp h resource types s w :
  pres_ok s → presence s !! h = Some w →
  wp (client_types_emit (R := R) (C := C) (L := L) h resource types)
    (λ _ s', pres_ok s' ∧ touches (eq h) s s' ∧ dom (presence s') = dom (presence s) ∧
     ∃ w', presence s' = <[h := w']> (presence s) ∧
       abs w' = (spec_op (UpdateClientTypes resource types) (abs w)).2) s.
Proof.
  intros Hok Hw. unfold client_types_emit. apply wp_bind. eapply wp_mono; cycle 1.
  { eapply (on_presence_spec h _ (λ _ w', abs w' = (spec_op (UpdateClientTypes resource types) (abs w)).2));
      [done|exact Hw|].
    destruct (pres_mem _ Hok _ _ Hw) as (Hm & Hv & Ho).
    eapply wp_mono; [|by apply client_types_refines].
    intros b w' (? & ? & Heq). apply (spec_op_online (UpdateClientTypes resource types)) in Ho.
    cbn in Ho |- *. rewrite <- Heq in Ho |- *. by split. }
  intros b s1 (Hok1 & Ht1 & Hd1 & w' & Hp1 & Ha1). apply wp_when; intros _.
  - apply emit_touches; [done| |done]. intros s2 Ht2 Hp2 _ Hok2. split_and!; [done| |congruence|].
    + etransitivity; [done|]. by eapply touches_mono; [|done].
    + exists w'. split; congruence.
  - split_and!; [done..|]. eauto.
Qed.

(** What serving a waiter does to the contact it is about, and to no other. *)
Definition serve_one (w : DiscoWaiter) (caps : GabbleCapabilitySet) (types : Z)
    (forms : option (list F)) (v : GabblePresence string F) : GabblePresence string F :=
  (spec_op (UpdateClientTypes (w_resource w) types)
    (spec_op (SetCapabilities (w_resource w) caps forms (w_serial w)) v).2).2.

Definition serve caps types forms (m : gmap Z (GabblePresence string F)) (w : DiscoWaiter) :
    gmap Z (GabblePresence string F) :=
  alter (serve_one w caps types forms) (w_handle w) m.

Lemma set_caps_for_wp w caps types forms s :
  pres_ok s → handle_is_valid (contact_repo s) (w_handle w) = true →
  wp (set_caps_for (R := R) (C := C) (L := L) w caps types forms)
    (λ _ s', pres_ok s' ∧ touches (eq (w_handle w)) s s' ∧
      abs <$> presence s' = serve caps types forms (abs <$> presence s) w) s.
Proof.
  intros Hok Hv. unfold set_caps_for. apply wp_bind, cache_get_wp; [done|].
  unfold serve. destruct (presence s !! w_handle w) as [x|] eqn:Hx; cycle 1.
  { apply wp_ret. split_and!; [done|done|].
    rewrite alter_id; [done|]. intros v. by rewrite lookup_fmap, Hx. }
  apply wp_bind. eapply wp_mono; [|by apply peek_caps_wp]. intros old s0 [-> ->].
  apply wp_bind. eapply wp_mono; [|by eapply set_capabilities_wp].
  intros [] s1 (Hok1 & Ht1 & Hd1 & x1 & Hp1 & Ha1). apply wp_bind.
  eapply wp_mono; [|apply (peek_caps_wp _ _ x1); rewrite Hp1; apply lookup_insert_eq].
  intros new s0 [-> ->]. apply wp_bind. eapply wp_mono; [|by apply caps_update_wp].
  intros [] s2 (Hok2 & Ht2 & Hp2).
  eapply wp_mono; [|apply (client_types_wp _ _ _ s2 x1); [done|]]; cycle 1.
  { rewrite Hp2, Hp1. apply lookup_insert_eq. }
  intros [] s3 (Hok3 & Ht3 & Hd3 & x3 & Hp3 & Ha3). split_and!; [done| |].
  - etransitivity; [done|]. etransitivity; [|done]. by eapply touches_mono; [|done].
  - rewrite Hp3, Hp2, Hp1, insert_insert_eq, fmap_insert.
    apply map_eq. intros h. destruct (decide (h = w_handle w)) as [->|Hne].
    + rewrite lookup_insert_eq, lookup_alter_eq, lookup_fmap, Hx. cbn -[spec_op].
      unfold serve_one. congruence.
    + by rewrite lookup_insert_ne, lookup_alter_ne by done.
Qed.

(** ** Updates from presence stanzas *)

Lemma cache_insert_wp h s :
  pres_ok s →
  wp (_cache_insert (F := F) (L := L) (R := R) (C := C) h)
    (λ _ s', pres_ok s' ∧ touches (eq h) s s' ∧ presence s' = <[h := fresh_world]> (presence s)) s.
Proof.
  intros [Hm Hd]. unfold _cache_insert. wp_steps. cbn. split_and!; [split|split|]; cbn; try done.
  - intros h' w. rewrite lookup_insert_Some. intros [[_ <-]|[_ ?]]; [|by eapply Hm].
    split_and!; [apply fresh_world_ok|done|constructor].
  - rewrite dom_insert_L, Hd. done.
  - intros h' Hne. by rewrite lookup_insert_ne.
Qed.

Lemma really_remove_wp h s :
  pres_ok s →
  wp (gabble_presence_cache_really_remove (F := F) (L := L) (R := R) (C := C) h)
    (λ _ s', pres_ok s' ∧ touches (eq h) s s' ∧ presence s' = delete h (presence s)) s.
Proof.
  intros [Hm Hd]. unfold gabble_presence_cache_really_remove. wp_steps. cbn.
  split_and!; [split|split|]; cbn; try done.
  - intros h' w. rewrite lookup_delete_Some. intros [_ ?]. by eapply Hm.
  - rewrite dom_delete_L, Hd. done.
  - intros h' Hne. by rewrite lookup_delete_ne.
Qed.

(** [removable], seen from outside. *)
Definition spec_removable (v : GabblePresence string F) : bool :=
  ((status v =? GABBLE_PRESENCE_OFFLINE) || (status v =? GABBLE_PRESENCE_UNKNOWN)) &&
  bool_decide (status_message v = None) && negb (keep_unavailable v).

Lemma removable_abs w : world_ok w → removable (pres w) = spec_removable (abs w).
Proof.
  intros [Hm _]. unfold removable, spec_removable. cbn. f_equal. f_equal.
  apply bool_decide_ext. unfold rd. destruct (status_message (pres w)) as [l|] eqn:E; [|done].
  cbn. apply (mem_borrow _ Hm) in E. apply (owned_in_dom _ _ Hm), elem_of_dom in E as [x ->]. done.
Qed.

Definition spec_purge (h : Z) (m : gmap Z (GabblePresence string F)) :
    gmap Z (GabblePresence string F) :=
  match m !! h with
  | Some v => if spec_removable v then delete h m else m
  | None => m
  end.

Lemma maybe_remove_wp h s :
  pres_ok s → handle_is_valid (contact_repo s) h = true →
  wp (gabble_presence_cache_maybe_remove (F := F) (L := L) (R := R) (C := C) h)
    (λ _ s', pres_ok s' ∧ touches (eq h) s s' ∧
      abs <$> presence s' = spec_purge h (abs <$> presence s)) s.
Proof.
  intros Hok Hv. unfold gabble_presence_cache_maybe_remove, spec_purge.
  apply wp_bind, cache_get_wp; [done|]. rewrite lookup_fmap.
  destruct (presence s !! h) as [w|] eqn:Hw; cbn [fmap option_fmap option_map]; [|by apply wp_ret].
  rewrite removable_abs by by eapply pres_mem. apply wp_when; intros E; rewrite E; [|done].
  eapply wp_mono; [|by apply really_remove_wp]. intros [] s' (? & ? & ->).
  split_and!; [done|done|]. by rewrite fmap_delete.
Qed.

(** The effect of an update on the table of contacts. *)
Definition spec_do_update (h : Z) (resource : option string) (st : Z) (msg : option string)
    (prio : Z) (uct : bool) (now : Z) (m : gmap Z (GabblePresence string F)) :
    (bool * option bool) * gmap Z (GabblePresence string F) :=
  let '(r, v) := spec_op (Update resource st msg prio uct now) (default gabble_presence_new (m !! h)) in
  (r, <[h := v]> m).

Lemma do_update_wp c h resource st msg prio uct s :
  pres_ok s → handle_is_valid (contact_repo s) h = true →
  wp (gabble_presence_cache_do_update (F := F) (L := L) (R := R) (C := C) c h resource st msg prio uct)
    (λ r s', pres_ok s' ∧ touches (eq h) s s' ∧ is_Some (presence s' !! h) ∧
      (r, abs <$> presence s') =
        spec_do_update h resource st msg prio uct (time_NULL c) (abs <$> presence s)) s.
Proof.
  intros Hok Hv. unfold gabble_presence_cache_do_update, spec_do_update.
  apply wp_bind, cache_get_wp; [done|].
  apply wp_bind. apply (wp_mono _ (λ _ s1, pres_ok s1 ∧ touches (eq h) s s1 ∧
    presence s1 = <[h := default fresh_world (presence s !! h)]> (presence s))).
  2: { apply wp_when; case_bool_decide as E; try done; intros _.
       - rewrite E. by apply cache_insert_wp.
       - destruct (presence s !! h) as [w|] eqn:Hw; [|done]. cbn.
         rewrite insert_id by done. done. }
  intros [] s1 (Hok1 & Ht1 & Hp1). set (w := default fresh_world (presence s !! h)) in *.
  assert (presence s1 !! h = Some w) as Hw by (rewrite Hp1; apply lookup_insert_eq).
  apply wp_bind. eapply wp_mono; [|by apply peek_caps_wp]. intros old s0 [-> ->].
  apply wp_bind. eapply wp_mono; cycle 1.
  { eapply (on_presence_spec h _ (λ r w', (r, abs w') =
      spec_op (Update resource st msg prio uct (time_NULL c)) (abs w))); [done|exact Hw|].
    apply (op_spec (Update _ _ _ _ _ _)). by eapply pres_mem. }
  intros r s2 (Hok2 & Ht2 & Hd2 & w2 & Hp2 & Ha2).
  apply wp_bind. eapply wp_mono; [|apply (peek_caps_wp _ _ w2); rewrite Hp2; apply lookup_insert_eq].
  intros new s0 [-> ->]. apply wp_bind. eapply wp_mono; [|by apply caps_update_wp].
  intros [] s3 (Hok3 & Ht3 & Hp3). apply wp_ret. split_and!; [done| | |].
  - etransitivity; [done|]. etransitivity; [done|]. by eapply touches_mono; [|done].
  - rewrite Hp3, Hp2, lookup_insert_eq. eauto.
  - assert (default gabble_presence_new ((abs <$> presence s) !! h) = abs w) as ->.
    { rewrite lookup_fmap. unfold w. by destruct (presence s !! h). }
    rewrite <- Ha2, Hp3, Hp2, Hp1, insert_insert_eq, fmap_insert. done.
Qed.

Lemma update_wp c h resource st msg prio s :
  pres_ok s → handle_is_valid (contact_repo s) h = true →
  wp (gabble_presence_cache_update (F := F) (L := L) (R := R) (C := C) c h resource st msg prio)
    (λ _ s', pres_ok s' ∧ touches (eq h) s s' ∧
      abs <$> presence s' = spec_purge h
        (spec_do_update h resource st msg prio true (time_NULL c) (abs <$> presence s)).2) s.
Proof.
  intros Hok Hv. unfold gabble_presence_cache_update. apply wp_bind.
  eapply wp_mono; [|by apply do_update_wp]. intros r s1 (Hok1 & Ht1 & _ & Ha1).
  rewrite <- Ha1. cbn [snd].
  assert (∀ b e s2, (match e with CapabilitiesDiscovered _ => False | _ => True end) →
    pres_ok s2 → wp (when b (emit e)) (λ _ s3, pres_ok s3 ∧ touches (λ _, False) s2 s3 ∧
      presence s3 = presence s2) s2) as Hemit.
  { intros b e s2 He Hok2. apply wp_when; intros _; [|done]. by apply emit_touches. }
  apply wp_bind. eapply wp_mono; [|by apply Hemit]. intros [] s2 (Hok2 & Ht2 & Hp2).
  apply wp_bind. eapply wp_mono; [|by apply Hemit]. intros [] s3 (Hok3 & Ht3 & Hp3).
  eapply wp_mono; [|apply maybe_remove_wp; [done|]]; cycle 1.
  { by rewrite (t_contacts _ _ _ Ht3), (t_contacts _ _ _ Ht2), (t_contacts _ _ _ Ht1). }
  intros [] s4 (Hok4 & Ht4 & Ha4). split_and!; [done| |by rewrite Ha4, Hp3, Hp2].
  etransitivity; [done|]. etransitivity; [by eapply touches_mono; [|done]|].
  etransitivity; [by eapply touches_mono; [|done]|]. done.
Qed.

Lemma update_many_wp c l resource st msg prio s :
  pres_ok s → (∀ h, h ∈ l → handle_is_valid (contact_repo s) h = true) →
  wp (gabble_presence_cache_update_many (F := F) (L := L) (R := R) (C := C) c l resource st msg prio)
    (λ _ s', pres_ok s' ∧ touches (λ h, h ∈ l) s s') s.
Proof.
  intros Hok Hv. unfold gabble_presence_cache_update_many.
  assert (∀ l' s1, (∀ h, h ∈ l' → handle_is_valid (contact_repo s1) h = true) → pres_ok s1 →
    wp (update_loop c l' resource st msg prio)
      (λ _ s2, pres_ok s2 ∧ touches (λ h, h ∈ l') s1 s2) s1) as Hloop.
  { induction l' as [|h l' IH]; intros s1 Hv1 Hok1; [by apply wp_ret|]. cbn [update_loop].
    apply wp_bind. eapply wp_mono; [|apply do_update_wp; [done|apply Hv1; by left]].
    intros r s2 (Hok2 & Ht2 & _). apply wp_bind. eapply wp_mono; [|apply IH; [|done]].
    - intros u s3 (Hok3 & Ht3). apply wp_ret. split; [done|].
      etransitivity; (eapply touches_mono; [|done]); cbn; intros; subst; [by left|by right].
    - intros h' Hin. rewrite (t_contacts _ _ _ Ht2). apply Hv1. by right. }
  apply wp_bind. eapply wp_mono; [|by apply (Hloop l)]. intros u s1 (Hok1 & Ht1).
  apply wp_bind. apply (wp_mono _ (λ _ s2, pres_ok s2 ∧ touches (λ h, h ∈ l) s s2)).
  2: { apply wp_when; intros _; [|done]. apply emit_touches; [done| |done].
       intros s2 Ht2 _ _ Hok2. split; [done|]. etransitivity; [done|].
       by eapply touches_mono; [|done]. }
  intros [] s2 (Hok2 & Ht2).
  eapply wp_mono; [|apply (wp_for_each (λ l' s', pres_ok s' ∧ touches (λ h, h ∈ l) s s' ∧ l' ⊆ l))].
  - by intros [] s' (? & ? & _).
  - intros h l' s' (Hok' & Ht' & Hsub). eapply wp_mono; [|apply maybe_remove_wp; [done|]].
    + intros [] s3 (Hok3 & Ht3 & _). split_and!; [done| |set_solver].
      etransitivity; [done|]. eapply touches_mono; [|done]. cbn. intros ? <-. set_solver.
    + rewrite (t_contacts _ _ _ Ht'). apply Hv. set_solver.
  - done.
Qed.

(** ** Pools that grow *)

(** Contacts and features only become known, and no contact outside [P] has
    changed. *)
Record grows (P : Z → Prop) s s' : Prop := {
  gr_contacts : extends (contact_repo s) (contact_repo s');
  gr_pool : extends (feature_pool s) (feature_pool s');
  gr_presence : ∀ h, ¬ P h → presence s' !! h = presence s !! h;
  gr_dom : dom (presence s') = dom (presence s);
}.

#[global] Instance grows_refl P : Reflexive (grows P).
Proof. by split. Qed.

#[global] Instance grows_trans P : Transitive (grows P).
Proof.
  intros s1 s2 s3 [] []. split; [by eapply extends_trans..| |congruence].
  intros h Hh. rewrite gr_presence1; auto.
Qed.

Lemma grows_mono (P Q : Z → Prop) s s' : (∀ h, P h → Q h) → grows P s s' → grows Q s s'.
Proof. intros HPQ []. split; auto. Qed.

Lemma touches_grows P s s' :
  touches P s s' → dom (presence s') = dom (presence s) → grows P s s'.
Proof. intros [] Hd. split; [by rewrite t_contacts0|by rewrite t_pool0|done|done]. Qed.

Lemma grows_valid P s s' h :
  grows P s s' → handle_is_valid (contact_repo s) h = true →
  handle_is_valid (contact_repo s') h = true.
Proof. intros [] ?. by eapply valid_extends. Qed.

Lemma good_hist hist hist' s : hist ⊆ hist' → good hist s → good hist' s.
Proof.
  intros Hh [Hp Hi Hw Hd]. split; [done| |done|done].
  intros node i Hn. eapply info_ok_mono; [done|done|done|]. by apply Hi.
Qed.

Lemma put_pool_wp hist r s (Q : unit → Cache → Prop) :
  good hist s → extends (feature_pool s) r →
  (∀ s', good hist s' → grows (λ _, False) s s' → presence s' = presence s →
     disco_pending s' = disco_pending s → capabilities s' = capabilities s →
     contact_repo s' = contact_repo s → caps_cache s' = caps_cache s →
     events s' = events s → feature_pool s' = r → Q tt s') →
  wp (put_pool r) Q s.
Proof.
  intros [Hp Hi Hw Hd] He HQ. unfold put_pool. apply wp_modify, HQ; try done.
  split; cbn; [by destruct Hp| |done|done].
  intros node i Hn. eapply info_ok_mono; [done|done|done|]. by apply Hi.
Qed.

Lemma put_info_wp hist node i s (Q : unit → Cache → Prop) :
  good hist s → info_ok hist (feature_pool s) (contact_repo s) node i →
  (∀ s', good hist s' → grows (λ _, False) s s' → presence s' = presence s →
     disco_pending s' = disco_pending s → capabilities s' = <[node := i]> (capabilities s) →
     contact_repo s' = contact_repo s → caps_cache s' = caps_cache s →
     events s' = events s → feature_pool s' = feature_pool s → Q tt s') →
  wp (put_info node i) Q s.
Proof.
  intros [Hp Hi Hw Hd] Hok HQ. unfold put_info. apply wp_modify, HQ; try done.
  split; cbn; [by destruct Hp| |done|done].
  intros node' i'. rewrite lookup_insert_Some. intros [[<- <-]|[_ Hn]]; [done|by apply Hi].
Qed.

Lemma put_pending_wp hist m s (Q : unit → Cache → Prop) :
  good hist s →
  (∀ node l w, m !! node = Some l → w ∈ l → waiter_ok (contact_repo s) node w) →
  (∀ s', good hist s' → grows (λ _, False) s s' → presence s' = presence s →
     disco_pending s' = m → capabilities s' = capabilities s →
     contact_repo s' = contact_repo s → caps_cache s' = caps_cache s →
     events s' = events s → feature_pool s' = feature_pool s → Q tt s') →
  wp (put_pending m) Q s.
Proof.
  intros [Hp Hi Hw Hd] Hm HQ. unfold put_pending. apply wp_modify, HQ; try done.
  split; cbn; [by destruct Hp|done|done|done].
Qed.

Lemma emit_good hist e s (Q : unit → Cache → Prop) :
  good hist s →
  (∀ s', good hist s' → grows (λ _, False) s s' → presence s' = presence s →
     disco_pending s' = disco_pending s → capabilities s' = capabilities s →
     contact_repo s' = contact_repo s → caps_cache s' = caps_cache s →
     events s' = events s ++ [e] → feature_pool s' = feature_pool s → Q tt s') →
  wp (emit e) Q s.
Proof.
  intros [Hp Hi Hw Hd] HQ. unfold emit. apply wp_modify, HQ; try done.
  split; cbn; [by destruct Hp|done|done|done].
Qed.

Lemma no_info_ok hist pool contacts node : info_ok hist pool contacts node (no_info (F := F)).
Proof. split; [by right|done|]. by right; right. Qed.

Lemma info_get_wp hist node s :
  good hist s →
  wp (capability_info_get (F := F) (L := L) (R := R) (C := C) node)
    (λ i s', good hist s' ∧ grows (λ _, False) s s' ∧ presence s' = presence s ∧
      disco_pending s' = disco_pending s ∧ contact_repo s' = contact_repo s ∧
      feature_pool s' = feature_pool s ∧ caps_cache s' = caps_cache s ∧ events s' = events s ∧
      i = default no_info (capabilities s !! node) ∧
      capabilities s' = <[node := i]> (capabilities s) ∧
      info_ok hist (feature_pool s') (contact_repo s') node i) s.
Proof.
  intros Hg. unfold capability_info_get. apply wp_bind, wp_get.
  destruct (capabilities s !! node) as [i|] eqn:Hi.
  - apply wp_ret. split_and!; try done; [by rewrite insert_id|]. by eapply good_infos.
  - apply wp_bind. eapply put_info_wp; [done|apply no_info_ok|].
    intros s' Hg' Hgr Hp Hd Hc Hr Hcc He Hf. apply wp_ret. split_and!; try done. apply no_info_ok.
Qed.

(** ** Hearing an answer *)

Lemma union_empty_handles a c : handles (gabble_capability_set_update (gabble_capability_set_clear a) c) = handles c.
Proof. cbn. set_solver. Qed.

Lemma info_recvd_ok hist pool contacts node i h caps inc types forms :
  info_ok hist pool contacts node i → 0 <= inc →
  heard hist pool contacts node caps h →
  (inc <= 1 ∨ verified hist pool node caps) →
  info_ok hist pool contacts node (info_recvd i h caps inc types forms).
Proof.
  intros [Hset Hpos Hwhy] Hinc Hheard Hver. unfold info_recvd.
  set (start := match info_cap_set i with
    | Some old => if gabble_capability_set_equals caps old then (old, guys i, trust i)
        else (gabble_capability_set_update (gabble_capability_set_clear old) caps, ∅, 0)
    | None => (gabble_capability_set_update gabble_capability_set_new caps, ∅, 0)
    end).
  destruct start as [[set gs] t] eqn:Es.
  assert (handles set = handles caps ∧ 0 <= t ∧
    (complete i = true ∨ node ∈ bundle_nodes ∨ supported hist pool contacts node set gs t))
    as (Hset' & Ht & Hsup).
  { assert (∀ c', handles c' = handles caps → supported hist pool contacts node c' ∅ 0) as Hempty.
    { intros c' _. split; [set_solver|]. left. lia. }
    unfold start in Es. destruct (info_cap_set i) as [old|] eqn:Eo;
      [destruct (gabble_capability_set_equals caps old) eqn:Eq|]; simplify_eq.
    - unfold gabble_capability_set_equals in Eq. apply bool_decide_eq_true in Eq.
      split_and!; [done|done|]. destruct Hwhy as [?|[?|Hs]]; [by left|by right; left|].
      right; right. by apply Hs.
    - split_and!; [apply union_empty_handles|done|]. right; right. apply Hempty, union_empty_handles.
    - split_and!; [cbn; set_solver|done|]. right; right. apply Hempty. cbn. set_solver. }
  assert (heard hist pool contacts node set h) as Hh.
  { destruct Hheard as (Hne & n & jid & q & ? & ? & ? & Hs). split; [done|].
    exists n, jid, q. split_and!; try done. by eapply says_handles; [symmetry|]. }
  assert (inc <= 1 ∨ verified hist pool node set) as Hv.
  { destruct Hver as [?|(p & v & jid & q & ? & ? & ? & Hs)]; [by left|]. right.
    exists p, v, jid, q. split_and!; try done. by eapply says_handles; [symmetry|]. }
  pose proof (wrap_bounds 32 (t + inc) ltac:(lia)) as Hb.
  pose proof (wrap_le 32 (t + inc) ltac:(lia) ltac:(lia)) as Hle.
  case_bool_decide as Hin; split; cbn; eauto; try lia;
    (destruct Hsup as [?|[?|[Hg Hs]]]; [by left|by right; left|]); right; right;
    intros c' [= <-]; split; try done.
  - intros h'. rewrite elem_of_union, elem_of_singleton. intros [->|?]; auto.
  - destruct Hs as [Hs|Hs]; [|by right]. destruct Hv as [Hv|Hv]; [|by right].
    left. rewrite size_union by set_solver. rewrite size_singleton. lia.
Qed.

(** Nothing but the repository of contacts and the infos has changed. *)
Record quiet s s' : Prop := {
  q_presence : presence s' = presence s;
  q_pending : disco_pending s' = disco_pending s;
  q_pool : feature_pool s' = feature_pool s;
  q_cache : caps_cache s' = caps_cache s;
  q_events : events s' = events s;
}.

(** The name the repository gives to [jid] now. *)
Definition known_as s (jid n : string) : Prop :=
  gabble_normalize_contact down norm
    (Some (λ n, negb (tp_handle_lookup (contact_repo s) n =? 0))) jid GABBLE_JID_ANY = Some n.

#[global] Instance known_as_dec s jid n : Decision (known_as s jid n).
Proof. unfold known_as. apply _. Defined.

Lemma ensure_contact_wp hist jid s :
  good hist s →
  wp (ensure_contact (F := F) (L := L) (C := C) down norm jid)
    (λ h s', good hist s' ∧ grows (λ _, False) s s' ∧ quiet s s' ∧ capabilities s' = capabilities s ∧
      (h ≠ 0 → handle_is_valid (contact_repo s') h = true ∧
         is_Some (wocky_decode_jid down jid) ∧
         ∃ n, speaks_for jid n ∧ tp_handle_lookup (contact_repo s') n = h) ∧
      (∀ n, known_as s jid n → tp_handle_lookup (contact_repo s') n = h)) s.
Proof.
  intros Hg. unfold ensure_contact, known_as. apply wp_bind, wp_get.
  destruct (gabble_normalize_contact _ _ _ _ _) as [n|] eqn:En; [|by apply wp_ret].
  destruct (tp_handle_ensure (contact_repo s) n) as [r h] eqn:Ee.
  pose proof (lookup_ensure (contact_repo s) n) as Hl. rewrite Ee in Hl. cbn in Hl.
  assert (extends (contact_repo s) r) as He.
  { intros t Ht. pose proof (lookup_ensure_stable (contact_repo s) n t Ht) as Hs. by rewrite Ee in Hs. }
  apply wp_bind. unfold put_contacts. apply wp_modify, wp_ret. destruct Hg as [Hp Hi Hw Hd].
  split_and!; [| |by split|done| |by intros ? [= <-]].
  - split; cbn; [by destruct Hp| | |done].
    + intros node i Hn. eapply info_ok_mono; [done|done|exact He|]. by apply Hi.
    + intros node l w Hl' Hin. eapply waiter_ok_extends; [exact He|]. by eapply Hw.
  - by split.
  - intros Hne. cbn. split_and!.
    + rewrite <- Hl in Hne |- *. by apply valid_lookup.
    + unfold gabble_normalize_contact in En. by destruct (wocky_decode_jid down jid).
    + exists n. split; [|done]. by eexists.
Qed.

(** What judging an answer establishes. *)
Definition judged hist s w q node h caps types forms (r : Z * bool) s' : Prop :=
  good hist s' ∧ grows (λ _, False) s s' ∧ quiet s s' ∧ contact_repo s' = contact_repo s ∧
  (r.2 = true ∧ r.1 = 0 ∧ capabilities s' = capabilities s ∧
     (w_ver w = None ∨ w_ver w ≠ caps_hash q) ∨
   r.2 = false ∧ ∃ inc, inc ∈ [1; CAPABILITY_BUNDLE_ENOUGH_TRUST] ∧
     (w_hash w = Some "sha-1" → inc = CAPABILITY_BUNDLE_ENOUGH_TRUST) ∧
     let i := info_recvd (default no_info (capabilities s !! node)) h caps inc types forms in
     capabilities s' = <[node := i]> (capabilities s) ∧ trust i = r.1).

Lemma judge_reply_wp hist jid w node h q caps types forms s :
  good hist s → waiter_ok (contact_repo s) node w → (jid, node, q) ∈ hist →
  says (feature_pool s) caps q →
  heard hist (feature_pool s) (contact_repo s) node caps h →
  wp (judge_reply (F := F) (L := L) (R := R) (C := C) caps_hash w node h q caps types forms)
    (judged hist s w q node h caps types forms) s.
Proof.
  intros Hg [_ Hver] Hin Hsays Hheard. unfold judge_reply.
  assert (∀ inc, inc ∈ [1; CAPABILITY_BUNDLE_ENOUGH_TRUST] →
    (inc <= 1 ∨ verified hist (feature_pool s) node caps) →
    (w_hash w = Some "sha-1" → inc = CAPABILITY_BUNDLE_ENOUGH_TRUST) →
    wp (t ← capability_info_recvd (F := F) (L := L) (R := R) (C := C) node h caps inc types forms; mret (t, false))
      (judged hist s w q node h caps types forms) s) as Hrecvd.
  { intros inc Hinc Hv Hsha. unfold capability_info_recvd. apply wp_bind, wp_bind.
    eapply wp_mono; [|by apply info_get_wp].
    intros i s1 (Hg1 & Hgr1 & Hp1 & Hd1 & Hc1 & Hf1 & Hcc1 & He1 & -> & Hcap1 & Hok1).
    cbv zeta. apply wp_bind. eapply put_info_wp; [done| |].
    - apply info_recvd_ok; [done| |by rewrite Hf1, Hc1|by rewrite Hf1].
      unfold CAPABILITY_BUNDLE_ENOUGH_TRUST in Hinc. set_solver by lia.
    - intros s2 Hg2 Hgr2 Hp2 Hd2 Hcap2 Hc2 Hcc2 He2 Hf2. do 2 apply wp_ret. split_and!; [done| | |congruence|].
      + etransitivity; [done|]. done.
      + split; congruence.
      + right. split; [done|]. exists inc. cbn. split_and!; [done|done| |done].
        by rewrite Hcap2, Hcap1, insert_insert_eq. }
  assert (w_ver w ≠ caps_hash q →
    wp (mret (0, true)) (judged hist s w q node h caps types forms) s) as Hbad.
  { intros Hne. apply wp_ret. split_and!; try done. left. eauto. }
  destruct (tp_strdiff (w_hash w) (Some "sha-1")) eqn:Eh.
  { apply Hrecvd; [set_solver|left; lia|]. intros Hsha. by rewrite Hsha in Eh. }
  apply tp_strdiff_false in Eh. destruct (Hver Eh) as (p & v & Hwv & Hnode). rewrite Hwv in Hbad |- *.
  destruct (caps_hash q) as [computed|] eqn:Ec; [|by apply Hbad].
  case_bool_decide as Hvc; [|apply Hbad; congruence]. subst computed.
  apply Hrecvd; [set_solver| |done]. right. exists p, v, jid, q. by split_and!.
Qed.

(** ** Asking further waiters *)

Lemma waiter_ok_requested contacts node w :
  waiter_ok contacts node w → waiter_ok contacts node (set_requested w).
Proof. by intros []. Qed.

Lemma alter_waiter_ok contacts node p f l :
  (∀ w, waiter_ok contacts node w → waiter_ok contacts node (f w)) →
  (∀ w, w ∈ l → waiter_ok contacts node w) →
  ∀ w, w ∈ alter_waiter p f l → waiter_ok contacts node w.
Proof.
  intros Hf. induction l as [|x l IH]; intros Hl w; cbn; [set_solver|].
  destruct (p x); rewrite elem_of_cons; intros [->|Hin].
  - apply Hf, Hl. by left.
  - apply Hl. by right.
  - apply Hl. by left.
  - apply IH; [|done]. intros w' ?. apply Hl. by right.
Qed.

Lemma delete_first_subset {A} (p : A → bool) l : delete_first p l ⊆ l.
Proof. induction l as [|x l IH]; cbn; [done|]. destruct (p x); set_solver. Qed.

Lemma redisco_wp hist w node s :
  good hist s →
  wp (redisco (F := F) (L := L) (R := R) (C := C) w node)
    (λ w' s', w' = set_requested w ∧ good hist s' ∧ grows (λ _, False) s s' ∧
      presence s' = presence s ∧ disco_pending s' = disco_pending s ∧
      capabilities s' = capabilities s ∧ contact_repo s' = contact_repo s) s.
Proof.
  intros Hg. unfold redisco. apply wp_bind, wp_get. cbv zeta. apply wp_bind.
  eapply emit_good; [done|]. intros s' ? ? ? ? ? ? ? ? ?. by apply wp_ret.
Qed.

Lemma redisco_loop_wp hist node t done_ rest s :
  good hist s → (∀ w, w ∈ done_ ++ rest → waiter_ok (contact_repo s) node w) →
  wp (redisco_loop (F := F) (L := L) (R := R) (C := C) node t done_ rest)
    (λ l s', (∀ w, w ∈ l → waiter_ok (contact_repo s) node w) ∧ good hist s' ∧
      grows (λ _, False) s s' ∧ presence s' = presence s ∧ disco_pending s' = disco_pending s ∧
      capabilities s' = capabilities s ∧ contact_repo s' = contact_repo s) s.
Proof.
  revert done_ s. induction rest as [|w rest IH]; intros done_ s Hg Hw; cbn [redisco_loop].
  { rewrite app_nil_r in Hw. by apply wp_ret. }
  case_match; [by apply wp_ret|]. apply wp_bind.
  eapply (wp_mono _ (λ w' s', waiter_ok (contact_repo s) node w' ∧ good hist s' ∧
    grows (λ _, False) s s' ∧ presence s' = presence s ∧ disco_pending s' = disco_pending s ∧
    capabilities s' = capabilities s ∧ contact_repo s' = contact_repo s)).
  - intros w' s1 (Hw' & Hg1 & Hgr1 & Hp1 & Hd1 & Hc1 & Hr1).
    eapply wp_mono; [|apply IH; [done|]].
    + cbn beta. intros l s2 (Hl & Hg2 & Hgr2 & Hp2 & Hd2 & Hc2 & Hr2). rewrite Hr1 in Hl.
      split_and!; [done|done|etransitivity; done|congruence..].
    + rewrite Hr1. intros x. rewrite <- app_assoc. set_solver.
  - destruct (disco_requested w); [apply wp_ret; split_and!; try done; apply Hw; set_solver|].
    eapply wp_mono; [|by apply redisco_wp]. intros w' s1 (-> & ?). split; [|done].
    apply waiter_ok_requested, Hw. set_solver.
Qed.

Lemma disco_failed_wp hist node s :
  good hist s →
  wp (disco_failed (F := F) (L := L) (R := R) (C := C) node (default [] (disco_pending s !! node)))
    (λ _ s', good hist s' ∧ grows (λ _, False) s s' ∧ presence s' = presence s) s.
Proof.
  intros Hg. unfold disco_failed.
  assert (∀ w, w ∈ default [] (disco_pending s !! node) → waiter_ok (contact_repo s) node w) as Hws.
  { intros w. destruct (disco_pending s !! node) as [l|] eqn:El; cbn; [|set_solver].
    intros Hin. by eapply good_waiters. }
  destruct (List.find unrequested _) as [w|] eqn:Ef.
  - apply wp_bind. eapply wp_mono; [|by apply redisco_wp].
    intros w' s1 (-> & Hg1 & Hgr1 & Hp1 & Hd1 & Hc1 & Hr1). apply wp_bind, wp_get.
    eapply put_pending_wp; [done| |].
    + intros node' l w'. rewrite lookup_insert_Some, Hr1. intros [[<- <-]|[_ Hn]].
      * apply alter_waiter_ok; [apply waiter_ok_requested|done].
      * intros Hin. rewrite Hd1 in Hn. by eapply good_waiters.
    + intros s2 Hg2 Hgr2 Hp2 _ _ _ _ _ _. split_and!; [done|etransitivity; done|congruence].
  - apply wp_bind, wp_get. eapply put_pending_wp; [done| |].
    + intros node' l w. rewrite lookup_delete_Some. intros [_ ?] ?. by eapply good_waiters.
    + by intros s2 Hg2 Hgr2 Hp2 _ _ _ _ _ _.
Qed.


(** ** Serving every waiter *)

Definition with_events (l : list cache_event) s : Cache :=
  mkCache (presence s) (presence_handles s) (capabilities s) (disco_pending s) (next_serial s)
    (unsure_id s) (decloak_requests s) (decloak_handles s) (location s)
    (avatar_reset_pending s) (self_avatar_sha1 s) (feature_pool s) (contact_repo s)
    (caps_cache s) l.

Lemma touches_events P s s1 s2 :
  touches P (with_events (events s1) s) s1 → touches P (with_events (events s2) s1) s2 →
  touches P (with_events (events s2) s) s2.
Proof.
  intros [] []. cbn in *. split; cbn in *; try congruence.
  intros h Hh. rewrite t_presence1; auto.
Qed.

Lemma touches_forget P s s' : touches P s s' → touches P (with_events (events s') s) s'.
Proof. intros []. by split. Qed.

Lemma serve_loop_wp caps types forms l s :
  pres_ok s → (∀ w, w ∈ l → handle_is_valid (contact_repo s) (w_handle w) = true) →
  wp (for_each l (λ waiter, set_caps_for (R := R) (C := C) (L := L) waiter caps types forms ;;
        emit (CapabilitiesDiscovered (w_handle waiter))))
    (λ _ s', pres_ok s' ∧ touches (λ h, h ∈ w_handle <$> l) (with_events (events s') s) s' ∧
      discovered (events s') = discovered (events s) ++ (w_handle <$> l) ∧
      abs <$> presence s' = foldl (serve caps types forms) (abs <$> presence s) l) s.
Proof.
  revert s. induction l as [|w l IH]; intros s Hok Hv; cbn [for_each].
  { apply wp_ret. split_and!; [done|by apply touches_forget| |done]. by rewrite app_nil_r. }
  apply wp_bind, wp_bind. eapply wp_mono; [|apply set_caps_for_wp; [done|apply Hv; by left]].
  intros [] s1 (Hok1 & Ht1 & Ha1). unfold emit. apply wp_modify.
  eapply wp_mono; [|apply IH].
  - intros [] s2 (Hok2 & Ht2 & He2 & Ha2). split_and!; [done| | |].
    + eapply touches_events; [eapply touches_mono; [|by apply touches_forget]|].
      * intros h <-. by left.
      * apply (touches_mono (λ h, h ∈ w_handle <$> l)); [intros h Hh; by right|].
        destruct Ht2. by split.
    + rewrite He2. cbn. unfold discovered at 1. rewrite omap_app. cbn.
      change (omap _ (events s1)) with (discovered (events s1)).
      rewrite (t_discovered _ _ _ Ht1), <- app_assoc. done.
    + rewrite Ha2. cbn [foldl presence]. by rewrite Ha1.
  - by destruct Hok1.
  - intros w' Hin. cbn. rewrite (t_contacts _ _ _ Ht1). apply Hv. by right.
Qed.

Lemma dom_abs (m : gmap Z (World F)) : dom (abs <$> m) =@{gset Z} dom m.
Proof. apply dom_fmap_L. Qed.

Lemma dom_serve caps types forms m w : dom (serve caps types forms m w) =@{gset Z} dom m.
Proof. apply dom_alter_L. Qed.

Lemma dom_serve_all caps types forms l m :
  dom (foldl (serve caps types forms) m l) =@{gset Z} dom m.
Proof. revert m. induction l as [|w l IH]; intros m; cbn [foldl]; [done|]. by rewrite IH, dom_serve. Qed.

Lemma find_matching_waiter_Some l h r w :
  find_matching_waiter l h r = Some w → w ∈ l ∧ w_handle w = h ∧ w_resource w = r.
Proof.
  intros [Hin Hm]%find_Some_elem. unfold waiter_matches in Hm.
  apply andb_true_iff in Hm as [H1%Z.eqb_eq H2%negb_true_iff]. by apply tp_strdiff_false in H2.
Qed.

(** ** Answers *)

(** [h] is the contact that was asked. *)
Definition answers jid s h : Prop :=
  h ≠ 0 ∧ ∃ n, speaks_for jid n ∧ tp_handle_lookup (contact_repo s) n = h.

Definition trusted s node : Prop :=
  ∃ i, capabilities s !! node = Some i ∧ CAPABILITY_BUNDLE_ENOUGH_TRUST <= trust i.

(** The state after an answer about [node] that made it trusted. *)
Definition all_served s node q s' : Prop :=
  let waiters := default [] (disco_pending s !! node) in
  ∃ caps, says (feature_pool s') caps q ∧
    let forms := Some (data_forms_from_message parse_form q) in
    (∃ w, w ∈ waiters ∧
      abs <$> presence s' = foldl (serve caps (client_types_from_message q (w_resource w)) forms)
        (abs <$> presence s) waiters) ∧
    disco_pending s' = delete node (disco_pending s) ∧
    caps_cache s' = wocky_caps_cache_insert (caps_cache s) node q ∧
    discovered (events s') = discovered (events s) ++ (w_handle <$> waiters).

Lemma answers_grows P jid s s' h : grows P s s' → answers jid s h → answers jid s' h.
Proof.
  intros [He _ _ _] (Hne & n & Hs & Hl). split; [done|]. exists n. split; [done|].
  rewrite He; congruence.
Qed.

Lemma trusted_reply_wp hist node q waiters caps types forms s :
  good hist s → (∀ x, x ∈ waiters → handle_is_valid (contact_repo s) (w_handle x) = true) →
  wp (trusted_reply (F := F) (L := L) (R := R) (C := C) node q waiters caps types forms)
    (λ _ s', good hist s' ∧ grows (λ _, True) s s' ∧ capabilities s' = capabilities s ∧
      feature_pool s' = feature_pool s ∧ contact_repo s' = contact_repo s ∧
      disco_pending s' = disco_pending s ∧
      caps_cache s' = wocky_caps_cache_insert (caps_cache s) node q ∧
      discovered (events s') = discovered (events s) ++ (w_handle <$> waiters) ∧
      abs <$> presence s' = foldl (serve caps types forms) (abs <$> presence s) waiters) s.
Proof.
  intros Hg Hv. unfold trusted_reply. apply wp_bind, wp_get, wp_bind. unfold put_cache.
  apply wp_modify. eapply wp_mono; [|apply serve_loop_wp; [by destruct (good_pres _ _ Hg)|exact Hv]].
  intros [] s' (Hok & [] & He & Ha). cbn in *. split_and!; try done.
  - destruct Hg. split; [done| | |congruence].
    + rewrite t_caps0, t_pool0, t_contacts0. done.
    + rewrite t_pending0, t_contacts0. done.
  - split; [by rewrite t_contacts0|by rewrite t_pool0|by intros ? []|].
    by rewrite <- !dom_abs, Ha, dom_serve_all.
Qed.

Lemma untrusted_reply_wp hist node t bad w waiters caps types forms s :
  good hist s → handle_is_valid (contact_repo s) (w_handle w) = true →
  (∀ x, x ∈ waiters → waiter_ok (contact_repo s) node x) →
  wp (untrusted_reply (F := F) (L := L) (R := R) (C := C) node t bad w waiters caps types forms)
    (λ _ s', good hist s' ∧ grows (eq (w_handle w)) s s' ∧ capabilities s' = capabilities s) s.
Proof.
  intros Hg Hv Hws. unfold untrusted_reply. apply wp_bind.
  apply (wp_mono _ (λ _ s1, pres_ok s1 ∧ touches (eq (w_handle w)) s s1 ∧
    dom (presence s1) = dom (presence s))).
  2: { apply wp_when; intros _; [|by destruct (good_pres _ _ Hg)].
       eapply wp_mono; [|apply set_caps_for_wp; [apply Hg|done]].
       intros [] s1 (? & Ht & Ha). split_and!; [done..|].
       by rewrite <- !dom_abs, Ha, dom_serve. }
  intros [] s1 (Hok1 & Ht1 & Hdom1). pose proof (good_touches _ _ _ _ Hg Ht1 Hok1) as Hg1.
  rewrite <- (t_contacts _ _ _ Ht1) in Hws. apply wp_bind, wp_get, wp_bind.
  eapply put_pending_wp; [exact Hg1| |].
  { intros node' l x. rewrite lookup_insert_Some. intros [[<- <-]|[_ ?]] ?; [by apply Hws|].
    by eapply good_waiters. }
  intros s2 Hg2 Hgr2 Hp2 Hd2 Hc2 Hr2 _ _ Hf2. apply wp_bind. eapply emit_good; [exact Hg2|].
  intros s3 Hg3 Hgr3 Hp3 Hd3 Hc3 Hr3 _ _ Hf3. apply wp_bind.
  eapply wp_mono; [|apply (redisco_loop_wp hist); [exact Hg3|cbn; by rewrite Hr3, Hr2]].
  intros l s4 (Hl & Hg4 & Hgr4 & Hp4 & Hd4 & Hc4 & Hr4). apply wp_bind, wp_get.
  eapply put_pending_wp; [exact Hg4| |].
  { intros node' l' x. rewrite lookup_insert_Some, Hr4. intros [[<- <-]|[_ Hn]] ?; [by apply Hl|].
    rewrite Hd4 in Hn. by eapply good_waiters. }
  intros s5 Hg5 Hgr5 Hp5 Hd5 Hc5 Hr5 _ _ Hf5.
  assert (grows (λ _, False) s1 s5) as Hgr15 by (do 3 (etransitivity; [eassumption|]); done).
  split_and!; [done| |rewrite Hc5, Hc4, Hc3, Hc2; apply Ht1].
  etransitivity; [by apply touches_grows|]. by eapply grows_mono; [|exact Hgr15].
Qed.

(** The answer is one that was waited for, and its hash is the announced one. *)
Definition verified_answer s jid node q : Prop :=
  ∃ n decoded w, known_as s jid n ∧ wocky_decode_jid down jid = Some decoded ∧
    find_matching_waiter (default [] (disco_pending s !! node))
      (tp_handle_lookup (contact_repo s) n) (snd decoded) = Some w ∧
    w_hash w = Some "sha-1" ∧ is_Some (w_ver w) ∧ w_ver w = caps_hash q.

Lemma caps_disco_reply_wp hist jid node q s :
  good hist s →
  wp (_caps_disco_cb (L := L) down norm caps_hash parse_form jid (Some node) (Some q))
    (λ _ s', good (hist ++ [(jid, node, q)]) s' ∧
      grows (λ h, answers jid s' h ∨ trusted s' node) s s' ∧
      (capabilities s' = capabilities s ∨
       ∃ h caps inc types forms, answers jid s' h ∧ inc ∈ [1; CAPABILITY_BUNDLE_ENOUGH_TRUST] ∧
        says (feature_pool s') caps q ∧
        let i := info_recvd (default no_info (capabilities s !! node)) h caps inc types forms in
        capabilities s' = <[node := i]> (capabilities s) ∧
        (CAPABILITY_BUNDLE_ENOUGH_TRUST <= trust i → all_served s node q s')) ∧
      (verified_answer s jid node q →
       info_cap_set (default no_info (capabilities s !! node)) = None →
       all_served s node q s' ∧ trusted s' node)) s.
Proof.
  intros Hg0. set (hist' := hist ++ [(jid, node, q)]).
  assert (good hist' s) as Hg by (eapply good_hist; [|exact Hg0]; unfold hist'; set_solver).
  assert ((jid, node, q) ∈ hist') as Hin by (unfold hist'; set_solver).
  unfold _caps_disco_cb. apply wp_bind, wp_get. cbv zeta. apply wp_bind.
  eapply wp_mono; [|by apply ensure_contact_wp].
  intros h s1 (Hg1 & Hgr1 & Hq1 & Hc1 & Hh & Hknown).
  set (waiters := default [] (disco_pending s !! node)).
  assert (∀ n0, handle_is_valid (contact_repo s) (tp_handle_lookup (contact_repo s) n0) = true →
    known_as s jid n0 → tp_handle_lookup (contact_repo s) n0 = h ∧ h ≠ 0) as Hself.
  { intros n0 Hv0 Hk. unfold handle_is_valid in Hv0.
    apply andb_true_iff in Hv0 as [Hz%negb_true_iff%Z.eqb_neq _].
    rewrite <- (Hknown n0 Hk). rewrite (gr_contacts _ _ _ Hgr1) by done. done. }
  assert (∀ x, x ∈ waiters → waiter_ok (contact_repo s) node x) as Hws0.
  { intros x. unfold waiters. destruct (disco_pending s !! node) as [l|] eqn:El; cbn; [|set_solver].
    intros Hx. by eapply good_waiters. }
  assert (verified_answer s jid node q → h ≠ 0 ∧ ∃ w decoded,
    wocky_decode_jid down jid = Some decoded ∧
    find_matching_waiter waiters h (snd decoded) = Some w ∧
    w_hash w = Some "sha-1" ∧ is_Some (w_ver w) ∧ w_ver w = caps_hash q) as Hanswer.
  { intros (n0 & d & w0 & Hk & Hd & Hf & ?). fold waiters in Hf.
    pose proof Hf as (Hin0 & Hh0 & _)%find_matching_waiter_Some.
    destruct (Hself n0) as [E Hne0]; [rewrite <- Hh0; by apply Hws0|done|].
    rewrite E in Hf. split; [done|]. by exists w0, d. }
  destruct (Z.eqb_spec h 0) as [->|Hne].
  { apply wp_ret. split_and!; [done|by eapply grows_mono; [|done]|by left|].
    intros Hva. by destruct (Hanswer Hva). }
  destruct (Hh Hne) as (Hv1 & Hdec & n & Hsp & Hlk). apply wp_bind, wp_assert.
  { by rewrite bool_decide_eq_true. }
  destruct (find_matching_waiter waiters h _) as [w|] eqn:Hfind; cycle 1.
  { apply wp_ret. split_and!; [done|by eapply grows_mono; [|done]|by left|].
    intros Hva. destruct (Hanswer Hva) as (_ & w0 & d & Hd & Hf & _).
    rewrite Hd in Hfind. cbn in Hfind. congruence. }
  assert (verified_answer s jid node q →
    w_hash w = Some "sha-1" ∧ is_Some (w_ver w) ∧ w_ver w = caps_hash q) as Hverified.
  { intros Hva. destruct (Hanswer Hva) as (_ & w0 & d & Hd & Hf & ?).
    rewrite Hd in Hfind. cbn in Hfind. congruence. }
  apply find_matching_waiter_Some in Hfind as (Hinw & Hwh & Hwr).
  apply wp_bind, wp_get.
  pose proof (new_from_children_spec (feature_pool s1) _ (children q) (wf_new _)) as Hnew.
  unfold gabble_capability_set_new_from_stanza.
  destruct (new_from_children _ _ _) as [pool caps] eqn:Enew.
  destruct Hnew as (Hext & Hwf & Hden).
  assert (says pool caps q) as Hsays.
  { split; [done|]. intros f. rewrite Hden. pose proof (denotes_new (feature_pool s1) f). naive_solver. }
  apply wp_bind. eapply put_pool_wp; [exact Hg1|exact Hext|].
  intros s2 Hg2 Hgr2 Hp2 Hd2 Hc2 Hr2 Hcc2 He2 Hf2.
  assert (∀ x, x ∈ waiters → waiter_ok (contact_repo s2) node x) as Hws.
  { intros x Hx. unfold waiters in Hx. rewrite <- (q_pending _ _ Hq1), <- Hd2 in Hx.
    destruct (disco_pending s2 !! node) as [l|] eqn:El; [|set_solver]. by eapply good_waiters. }
  assert (heard hist' (feature_pool s2) (contact_repo s2) node caps h) as Hheard.
  { split; [done|]. exists n, jid, q. rewrite Hf2, Hr2. by split_and!. }
  set (types := client_types_from_message q (w_resource w)).
  set (forms := Some (data_forms_from_message parse_form q)).
  apply wp_bind. eapply wp_mono; [|eapply (judge_reply_wp hist' jid w node h q caps types forms); eauto; by rewrite Hf2].
  intros [t bad] s3 (Hg3 & Hgr3 & Hq3 & Hr3 & Hj). cbn [fst snd] in Hj.
  apply wp_bind, wp_get, wp_bind, wp_assert.
  { rewrite bool_decide_eq_true, (q_pending _ _ Hq3), Hd2, (q_pending _ _ Hq1).
    unfold waiters in Hinw. destruct (disco_pending s !! node); [eauto|set_solver]. }
  apply wp_bind. eapply put_pending_wp; [exact Hg3| |].
  { intros node' l x. rewrite lookup_delete_Some. intros [_ ?] ?. by eapply good_waiters. }
  intros s4 Hg4 Hgr4 Hp4 Hd4 Hc4 Hr4 Hcc4 He4 Hf4.
  assert (grows (λ _, False) s s4) as Hgr04 by (do 3 (etransitivity; [eassumption|]); done).
  assert (presence s4 = presence s) as Hp04
    by (rewrite Hp4, (q_presence _ _ Hq3), Hp2; apply Hq1).
  assert (answers jid s4 h) as Hans.
  { split; [done|]. exists n. split; [done|]. by rewrite Hr4, Hr3, Hr2. }
  assert (∀ x, x ∈ waiters → handle_is_valid (contact_repo s4) (w_handle x) = true) as Hvalid.
  { intros x Hx. rewrite Hr4, Hr3. apply (Hws x Hx). }
  assert (says (feature_pool s4) caps q) as Hsays4 by by rewrite Hf4, (q_pool _ _ Hq3), Hf2.
  assert (events s4 = events s) as He04 by (rewrite He4, (q_events _ _ Hq3), He2; apply Hq1).
  assert (caps_cache s4 = caps_cache s) as Hcc04 by (rewrite Hcc4, (q_cache _ _ Hq3), Hcc2; apply Hq1).
  assert (disco_pending s4 = delete node (disco_pending s)) as Hd04
    by (rewrite Hd4, (q_pending _ _ Hq3), Hd2, (q_pending _ _ Hq1); done).
  rewrite Hc2, Hc1, <- Hc4 in Hj. cbv zeta in Hj.
  destruct (Z.leb_spec CAPABILITY_BUNDLE_ENOUGH_TRUST t) as [Ht|Ht].
  - destruct Hj as [(_ & -> & _)|(_ & inc & Hinc & _ & Hcap & Htr)]; [done|].
    eapply wp_mono; [|apply (trusted_reply_wp hist'); [exact Hg4|exact Hvalid]].
    intros [] s5 (Hg5 & Hgr5 & Hc5 & Hf5 & Hr5 & Hd5 & Hcc5 & He5 & Ha5).
    assert (trusted s5 node) as Htrust.
    { eexists. rewrite Hc5, Hcap, lookup_insert_eq. split; [done|]. lia. }
    assert (all_served s node q s5) as Hserved.
    { exists caps. rewrite Hf5, Hd5, Hcc5, He5, Ha5, Hp04, Hd04, Hcc04, He04.
      split; [done|]. split_and!; try done. exists w; by split. }
    split_and!; [done| | |done].
    + etransitivity; [by eapply grows_mono; [|exact Hgr04]|].
      eapply grows_mono; [|exact Hgr5]. intros x _. by right.
    + right. exists h, caps, inc, types, forms. unfold answers. rewrite Hf5, Hc5, Hr5.
      split_and!; try done; apply Hans.
  - eapply wp_mono; [|apply (untrusted_reply_wp hist'); [exact Hg4|by apply Hvalid|]].
    2: { intros x Hx%delete_first_subset. rewrite Hr4, Hr3. by apply Hws. }
    intros [] s5 (Hg5 & Hgr5 & Hc5). rewrite Hwh in Hgr5.
    assert (answers jid s5 h) as Hans5 by (by eapply answers_grows).
    split_and!; [done| | |].
    + etransitivity; [by eapply grows_mono; [|exact Hgr04]|].
      eapply grows_mono; [|exact Hgr5]. intros x <-. by left.
    + rewrite Hc5. destruct Hj as [(_ & _ & Hcap & _)|(_ & inc & Hinc & _ & Hcap & Htr)]; [by left|].
      right. exists h, caps, inc, types, forms. split_and!; [done|done| |done|lia].
      eapply says_extends; [exact (gr_pool _ _ _ Hgr5)|done].
    + intros Hva Hnone. destruct (Hverified Hva) as (Hsha & [ver Hver] & Hhash). exfalso.
      destruct Hj as [(_ & _ & _ & [?|?])|(_ & inc & _ & Hinc & _ & Htr)]; [congruence..|].
      specialize (Hinc Hsha). subst inc. unfold info_recvd in Htr. rewrite Hnone in Htr.
      rewrite bool_decide_eq_false_2 in Htr by set_solver. cbn in Htr.
      unfold CAPABILITY_BUNDLE_ENOUGH_TRUST in *. vm_compute in Htr. lia.
Qed.

(** ** Capabilities in a presence stanza *)

(** An operation that keeps the cache good and touches at most [h]. *)
Definition keeps hist (h : Z) {A} (m : MC A) s : Prop :=
  wp m (λ _ s', good hist s' ∧ grows (eq h) s s') s.

Lemma cache_keeps_bind hist h {A B} (m : MC A) (f : A → MC B) s :
  keeps hist h m s →
  (∀ a s1, good hist s1 → grows (eq h) s s1 → keeps hist h (f a) s1) →
  keeps hist h (m ≫= f) s.
Proof.
  intros Hm Hf. apply wp_bind. eapply wp_mono; [|exact Hm]. intros a s1 [Hg1 Hgr1].
  eapply wp_mono; [|by apply (Hf a)]. intros b s2 [Hg2 Hgr2]. split; [done|by etransitivity].
Qed.

Lemma keeps_ret hist h {A} (a : A) s : good hist s → keeps hist h (mret a) s.
Proof. intros. by apply wp_ret. Qed.

Lemma keeps_when hist h b (m : MC unit) s :
  good hist s → keeps hist h m s → keeps hist h (when b m) s.
Proof. intros Hg Hm. destruct b; [exact Hm|by apply keeps_ret]. Qed.

Lemma keeps_emit hist h e s : good hist s → keeps hist h (emit e) s.
Proof.
  intros Hg. eapply emit_good; [exact Hg|]. intros s' ? ? _ _ _ _ _ _ _. split; [done|].
  by eapply grows_mono; [|done].
Qed.

Lemma keeps_get hist h h' s :
  good hist s → handle_is_valid (contact_repo s) h' = true →
  keeps hist h (gabble_presence_cache_get h') s.
Proof. intros Hg Hv. by apply cache_get_wp. Qed.

Lemma keeps_for_each hist h {A} (l : list A) (body : A → MC unit) s :
  good hist s →
  (∀ x s1, x ∈ l → good hist s1 → grows (eq h) s s1 → keeps hist h (body x) s1) →
  keeps hist h (for_each l body) s.
Proof.
  revert s. induction l as [|x l IH]; intros s Hg Hb; cbn [for_each]; [by apply keeps_ret|].
  apply cache_keeps_bind; [apply Hb; [by left|done|done]|]. intros [] s1 Hg1 Hgr1. apply IH; [done|].
  intros y s2 Hy Hg2 Hgr2. apply Hb; [by right|done|by etransitivity].
Qed.

Lemma keeps_touch hist h {A} (m : MC A) s :
  good hist s →
  wp m (λ _ s', pres_ok s' ∧ touches (eq h) s s' ∧ dom (presence s') = dom (presence s)) s →
  keeps hist h m s.
Proof.
  intros Hg Hm. eapply wp_mono; [|exact Hm]. intros a s' (Hok & Ht & Hd).
  split; [by eapply good_touches|by apply touches_grows].
Qed.

Lemma grows_present P s s' h :
  grows P s s' → is_Some (presence s !! h) → is_Some (presence s' !! h).
Proof. intros [] [w Hw]. rewrite <- elem_of_dom, gr_dom0. by eapply elem_of_dom_2. Qed.

Lemma keeps_set_capabilities hist h resource caps forms serial s :
  good hist s → is_Some (presence s !! h) →
  keeps hist h (set_capabilities h resource caps forms serial) s.
Proof.
  intros Hg [w Hw]. apply keeps_touch; [done|].
  eapply wp_mono; [|eapply set_capabilities_wp; [apply Hg|exact Hw]]. naive_solver.
Qed.

Lemma keeps_client_types hist h resource types s :
  good hist s → is_Some (presence s !! h) →
  keeps hist h (client_types_emit h resource types) s.
Proof.
  intros Hg [w Hw]. apply keeps_touch; [done|].
  eapply wp_mono; [|eapply client_types_wp; [apply Hg|exact Hw]]. naive_solver.
Qed.

Lemma keeps_peek hist h s :
  good hist s → is_Some (presence s !! h) → keeps hist h (peek_caps h) s.
Proof.
  intros Hg [w Hw]. eapply wp_mono; [|eapply peek_caps_wp; exact Hw]. intros c s' [_ ->]. by split.
Qed.

Lemma keeps_pool hist h r s :
  good hist s → extends (feature_pool s) r → keeps hist h (put_pool r) s.
Proof.
  intros Hg He. eapply put_pool_wp; [exact Hg|exact He|]. intros s' ? ? _ _ _ _ _ _ _.
  split; [done|]. by eapply grows_mono; [|done].
Qed.

Lemma keeps_wait hist h info from uri hash ver resource serial s :
  good hist s → handle_is_valid (contact_repo s) h = true →
  (hash = Some "sha-1" → ∃ prefix v, ver = Some v ∧ uri = prefix +:+ "#" +:+ v) →
  keeps hist h (wait_for_caps info from uri hash ver h resource serial) s.
Proof.
  intros Hg Hv Hver. unfold wait_for_caps. apply wp_bind, wp_get. cbv zeta.
  set (waiters := default [] (disco_pending s !! uri)).
  assert (∀ w, w ∈ waiters → waiter_ok (contact_repo s) uri w) as Hws.
  { intros w. unfold waiters. destruct (disco_pending s !! uri) as [l|] eqn:El; cbn; [|set_solver].
    intros Hin. by eapply good_waiters. }
  assert (∀ l s1, good hist s1 → grows (eq h) s s1 → contact_repo s1 = contact_repo s →
    (∀ w, w ∈ l → waiter_ok (contact_repo s) uri w) →
    wp (put_pending (<[uri := l]> (disco_pending s)))
      (λ _ s', good hist s' ∧ grows (eq h) s s') s1) as Hput.
  { intros l s1 Hg1 Hgr1 Hr1 Hl. eapply put_pending_wp; [exact Hg1| |].
    - intros node l' w. rewrite Hr1, lookup_insert_Some. intros [[<- <-]|[_ ?]] ?; [by apply Hl|].
      by eapply good_waiters.
    - intros s2 Hg2 Hgr2 _ _ _ _ _ _ _. split; [done|]. etransitivity; [done|].
      by eapply grows_mono; [|done]. }
  destruct (find_matching_waiter waiters h resource) as [w|].
  - apply Hput; [done..|]. by apply alter_waiter_ok; [by intros ? []|].
  - set (ask := _ <? _). set (w := disco_waiter_new h resource hash ver serial).
    assert (waiter_ok (contact_repo s) uri w) as Hw by by split.
    assert (∀ x, x ∈ (if ask then set_requested w else w) :: waiters → waiter_ok (contact_repo s) uri x) as Hl.
    { intros x [->|?]%elem_of_cons; [|by apply Hws]. destruct ask; [by apply waiter_ok_requested|done]. }
    apply wp_bind. destruct ask; cbn [when]; [|apply wp_ret; by apply Hput].
    eapply emit_good; [exact Hg|]. intros s1 Hg1 Hgr1 _ _ _ Hr1 _ _ _. apply Hput; [done| |done|done].
    by eapply grows_mono; [|done].
Qed.

Lemma keeps_from_stanza hist h q s :
  good hist s →
  keeps hist h (let '(r, caps) := gabble_capability_set_new_from_stanza (feature_pool s) q in
                put_pool r ;; mret (Some caps)) s.
Proof.
  intros Hg. unfold gabble_capability_set_new_from_stanza.
  pose proof (new_from_children_spec (feature_pool s) _ (children q) (wf_new _)) as Hn.
  destruct (new_from_children _ _ _) as [r caps]. destruct Hn as [He _].
  apply cache_keeps_bind; [by apply keeps_pool|]. intros [] s1 Hg1 _. by apply keeps_ret.
Qed.

Lemma keeps_process_uri hist h from node fragment hash ver resource serial s :
  good hist s → handle_is_valid (contact_repo s) h = true →
  (is_Some hash → ver = Some fragment) →
  keeps hist h (_process_caps_uri from node fragment hash ver h resource serial) s.
Proof.
  intros Hg Hv Hver. unfold _process_caps_uri. set (uri := node +:+ "#" +:+ fragment).
  cbv zeta. apply wp_bind. eapply wp_mono; [|by apply info_get_wp].
  intros info s1 (Hg1 & Hgr1 & Hp1 & Hd1 & Hr1 & Hf1 & Hcc1 & He1 & _ & Hc1 & Hinfo).
  assert (∀ {A} (m : MC A), keeps hist h m s1 → wp m (λ _ s', good hist s' ∧ grows (eq h) s s') s1) as Hk.
  { intros A m Hm. eapply wp_mono; [|exact Hm]. intros a s2 [? ?]. split; [done|].
    etransitivity; [|done]. by eapply grows_mono; [|done]. }
  apply Hk. clear Hk. apply wp_bind, wp_get.
  set (cached := wocky_caps_cache_lookup (caps_cache s1) uri).
  assert (handle_is_valid (contact_repo s1) h = true) as Hv1 by by rewrite Hr1.
  apply cache_keeps_bind.
  { destruct cached; [by apply keeps_from_stanza|by apply keeps_ret]. }
  intros cached_caps s2 Hg2 Hgr2.
  assert (handle_is_valid (contact_repo s2) h = true) as Hv2 by by eapply grows_valid.
  destruct (_ || _ || _) eqn:Econd.
  - assert (is_Some (match cached_caps with Some caps => Some caps | None => info_cap_set info end)) as Hcaps.
    { destruct cached_caps as [caps|]; [by eauto|]. cbn in Econd.
      destruct (info_set _ _ _ _ _ Hinfo) as [?|(Hgs & Htr & _)]; [done|].
      rewrite Hgs, Htr in Econd. case_bool_decide; set_solver. }
    destruct Hcaps as [caps ->].
    apply wp_bind, cache_get_wp; [done|]. destruct (presence s2 !! h) as [w|] eqn:Hw; [|by apply wp_ret].
    apply cache_keeps_bind; [apply keeps_set_capabilities; [done|by rewrite Hw]|]. intros [] s3 Hg3 Hgr3.
    apply keeps_client_types; [done|]. eapply grows_present; [exact Hgr3|by rewrite Hw].
  - assert (keeps hist h (wait_for_caps info from uri hash ver h resource serial) s2) as Hwait.
    { apply keeps_wait; [done|done|]. intros ->. exists node, fragment. split; [by apply Hver|done]. }
    destruct hash; [exact Hwait|]. destruct (get_google_cap fragment) as [google|]; [|exact Hwait].
    apply wp_bind, cache_get_wp; [done|]. destruct (presence s2 !! h) as [w|] eqn:Hw; [|by apply wp_ret].
    apply wp_bind, wp_get.
    assert (let '(r, _) := match google with
              | Some n => gabble_capability_set_add (feature_pool s2) gabble_capability_set_new n
              | None => (feature_pool s2, gabble_capability_set_new)
              end in extends (feature_pool s2) r) as He.
    { destruct google as [n|]; [|done]. pose proof (add_spec (feature_pool s2) _ n (wf_new _)) as Ha.
      destruct (gabble_capability_set_add _ _ _). apply Ha. }
    destruct (match google with Some _ => _ | None => _ end) as [r caps].
    apply cache_keeps_bind; [by apply keeps_pool|]. intros [] s3 Hg3 Hgr3.
    apply keeps_set_capabilities; [done|]. eapply grows_present; [exact Hgr3|by rewrite Hw].
Qed.

Lemma parse_cap_bundles_hash node u :
  let b := _parse_cap_bundles node in
  is_Some (cb_hash b) → u ∈ uris b → cb_ver b = Some u.
Proof.
  unfold _parse_cap_bundles. cbv zeta.
  destruct (wocky_node_get_child_ns _ _ _) as [c|]; [|by intros [? ?]].
  destruct (wocky_node_get_attribute c "node"); [|cbn; set_solver].
  destruct (wocky_node_get_attribute c "hash") as [hash|]; cbn.
  - intros _. destruct (wocky_node_get_attribute c "ver"); set_solver.
  - destruct (wocky_node_get_attribute c "ext"); by intros [? ?].
Qed.

Lemma keeps_quirks hist h resource serial l s :
  good hist s → is_Some (presence s !! h) → keeps hist h (quirks_of h resource serial l) s.
Proof.
  intros Hg Hp. unfold quirks_of. apply wp_bind, wp_get.
  pose proof (new_with_spec (feature_pool s) l) as Hn. destruct (new_with _ _) as [r caps].
  destruct Hn as [He _]. apply cache_keeps_bind; [by apply keeps_pool|]. intros [] s1 Hg1 Hgr1.
  apply keeps_set_capabilities; [done|]. by eapply grows_present.
Qed.

Lemma keeps_parse_node hist h node resource serial s :
  good hist s → is_Some (presence s !! h) → keeps hist h (_parse_node h node resource serial) s.
Proof.
  intros Hg Hp. unfold _parse_node. case_match; [|by apply keeps_ret]. cbv zeta.
  apply cache_keeps_bind; [apply keeps_when; [done|by apply keeps_quirks]|]. intros [] s1 Hg1 Hgr1.
  apply keeps_when; [done|]. apply keeps_quirks; [done|]. by eapply grows_present.
Qed.

Lemma keeps_process_caps hist b h from node s :
  good hist s → handle_is_valid (contact_repo s) h = true →
  (b = true → is_Some (presence s !! h)) →
  keeps hist h (_process_caps b h from node) s.
Proof.
  intros Hg Hv Hb. unfold _process_caps. apply wp_bind, wp_get. cbv zeta.
  apply cache_keeps_bind.
  { unfold put_serial. apply wp_modify. destruct Hg as [[] ? ? ?]. by split. }
  intros [] s1 Hg1 Hgr1. set (cb := _parse_cap_bundles node).
  assert (∀ s2, good hist s2 → grows (eq h) s s2 →
    keeps hist h (for_each (uris cb) (λ uri, _process_caps_uri from (cb_node cb) uri (cb_hash cb)
      (cb_ver cb) h (resource_of from) (next_serial s))) s2) as Heach.
  { intros s2 Hg2 Hgr2. apply keeps_for_each; [done|]. intros u s3 Hu Hg3 Hgr3.
    apply keeps_process_uri; [done| |by intros; apply parse_cap_bundles_hash].
    eapply grows_valid; [exact Hgr3|]. by eapply grows_valid. }
  destruct b; [|by apply Heach]. specialize (Hb eq_refl).
  apply cache_keeps_bind; [apply keeps_peek; [done|by eapply grows_present]|]. intros old s2 Hg2 Hgr2.
  assert (grows (eq h) s s2) as H02 by by etransitivity.
  apply cache_keeps_bind; [apply keeps_parse_node; [done|by eapply grows_present]|]. intros [] s3 Hg3 Hgr3.
  assert (grows (eq h) s s3) as H03 by by etransitivity.
  apply cache_keeps_bind; [by apply Heach|]. intros [] s4 Hg4 Hgr4.
  assert (grows (eq h) s s4) as H04 by by etransitivity.
  apply cache_keeps_bind; [apply keeps_peek; [done|by eapply grows_present]|]. intros new s5 Hg5 Hgr5.
  apply keeps_when; [done|by apply keeps_emit].
Qed.

(** ** Stanzas *)

(** As [grows], when contacts may come and go. *)
Record evolves (P : Z → Prop) s s' : Prop := {
  ev_contacts : extends (contact_repo s) (contact_repo s');
  ev_presence : ∀ h, ¬ P h → presence s' !! h = presence s !! h;
}.

#[global] Instance evolves_refl P : Reflexive (evolves P).
Proof. by split. Qed.

#[global] Instance evolves_trans P : Transitive (evolves P).
Proof.
  intros s1 s2 s3 [] []. split; [by eapply extends_trans|].
  intros h Hh. rewrite ev_presence1; auto.
Qed.

Lemma grows_evolves P s s' : grows P s s' → evolves P s s'.
Proof. by intros []. Qed.

Lemma touches_evolves P s s' : touches P s s' → evolves P s s'.
Proof. intros []. split; [by rewrite t_contacts0|done]. Qed.

Lemma evolves_valid P s s' h :
  evolves P s s' → handle_is_valid (contact_repo s) h = true →
  handle_is_valid (contact_repo s') h = true.
Proof. intros [] ?. by eapply valid_extends. Qed.

Definition moves hist (h : Z) {A} (m : MC A) s : Prop :=
  wp m (λ _ s', good hist s' ∧ evolves (eq h) s s') s.

Lemma keeps_moves hist h {A} (m : MC A) s : keeps hist h m s → moves hist h m s.
Proof. apply wp_mono. intros a s' [? ?]. split; [done|by apply grows_evolves]. Qed.

Lemma moves_bind hist h {A B} (m : MC A) (f : A → MC B) s :
  moves hist h m s →
  (∀ a s1, good hist s1 → evolves (eq h) s s1 → moves hist h (f a) s1) →
  moves hist h (m ≫= f) s.
Proof.
  intros Hm Hf. apply wp_bind. eapply wp_mono; [|exact Hm]. intros a s1 [Hg1 He1].
  eapply wp_mono; [|by apply (Hf a)]. intros b s2 [Hg2 He2]. split; [done|by etransitivity].
Qed.

Lemma moves_ret hist h {A} (a : A) s : good hist s → moves hist h (mret a) s.
Proof. intros. by apply wp_ret. Qed.

Lemma moves_update hist c h resource st msg prio s :
  good hist s → handle_is_valid (contact_repo s) h = true →
  moves hist h (gabble_presence_cache_update c h resource st msg prio) s.
Proof.
  intros Hg Hv. eapply wp_mono; [|apply update_wp; [apply Hg|done]]. intros [] s' (? & ? & _).
  split; [by eapply good_touches|by apply touches_evolves].
Qed.

Lemma keeps_put_pres hist h f s :
  (∀ p, slots (f p) = slots p ∧ status_message (f p) = status_message p ∧
        olpc_views (f p) = olpc_views p ∧ resources (f p) = resources p) →
  good hist s → is_Some (presence s !! h) →
  keeps hist h (on_presence h (put_pres f)) s.
Proof.
  intros Hf Hg [w Hw]. apply keeps_touch; [done|].
  eapply wp_mono; [|eapply (on_presence_spec h _ (λ _ _, True)); [apply Hg|exact Hw|]].
  - naive_solver.
  - eapply wp_mono; [|apply set_pres_spec; [exact Hf|by eapply pres_mem; [apply Hg|]]]. naive_solver.
Qed.

Lemma keeps_nickname hist h node s :
  good hist s → handle_is_valid (contact_repo s) h = true →
  keeps hist h (_grab_nickname h node) s.
Proof.
  intros Hg Hv. unfold _grab_nickname. case_match; [|by apply keeps_ret].
  apply wp_bind, cache_get_wp; [done|]. destruct (presence s !! h) as [x|] eqn:Hw; [|by apply wp_ret].
  apply keeps_when; [done|]. apply cache_keeps_bind; [apply keeps_put_pres; [done|done|by rewrite Hw]|].
  intros [] s1 Hg1 _. by apply keeps_emit.
Qed.

Lemma keeps_reset hist h b a s : good hist s → keeps hist h (put_reset b a) s.
Proof. intros [[] ? ? ?]. unfold put_reset. apply wp_modify. by split. Qed.

Lemma keeps_avatar hist c h node s :
  good hist s → handle_is_valid (contact_repo s) h = true →
  keeps hist h (_grab_avatar_sha1 c h node) s.
Proof.
  intros Hg Hv. unfold _grab_avatar_sha1. apply wp_bind, wp_get, wp_bind.
  destruct (Z.eqb_spec h (self_handle c)) as [->|Hne].
  - apply wp_ret. destruct (mbind _ _) as [photo|]; [|by apply keeps_ret]. cbv zeta.
    apply keeps_when; [done|]. unfold self_avatar_resolve_conflict. apply wp_bind, wp_get.
    repeat (case_match; [by apply keeps_ret|]).
    apply cache_keeps_bind; [by apply keeps_reset|]. intros [] s1 Hg1 _.
    apply cache_keeps_bind; [by apply keeps_emit|]. intros [] s2 Hg2 _.
    apply cache_keeps_bind; [by apply keeps_emit|]. intros [] s3 Hg3 _. by apply keeps_emit.
  - apply wp_bind, cache_get_wp; [done|]. apply wp_ret.
    destruct (presence s !! h) as [w|] eqn:Hw; cbn [fmap option_fmap option_map]; [|by apply keeps_ret].
    destruct (mbind _ _) as [photo|]; [|by apply keeps_ret]. cbv zeta.
    apply keeps_when; [done|]. apply keeps_when; [done|].
    apply cache_keeps_bind; [apply keeps_put_pres; [done|done|by rewrite Hw]|]. intros [] s1 Hg1 _.
    apply cache_keeps_bind; [by apply keeps_emit|]. intros [] s2 Hg2 _. by apply keeps_emit.
Qed.

Lemma decloak_remove_wp hist h s :
  good hist s →
  wp (decloak_remove (F := F) (L := L) (R := R) (C := C) h)
    (λ _ s', good hist s' ∧ grows (eq h) s s' ∧ presence s' = presence s ∧
      contact_repo s' = contact_repo s ∧ h ∉ decloak_handles s') s.
Proof.
  intros Hg. unfold decloak_remove. apply wp_bind, wp_get.
  destruct (decloak_requests s !! h) as [reason|] eqn:Hr.
  - unfold put_decloak. apply wp_modify. cbn. split_and!; [|done|done|done|set_solver].
    destruct Hg as [[] ? ? Hd]. split; cbn; [done|done|done|]. rewrite Hd, dom_delete_L. done.
  - apply wp_ret. split_and!; try done. rewrite (good_decloak _ _ Hg). by apply not_elem_of_dom.
Qed.

Lemma keeps_decloak_remove hist h s : good hist s → keeps hist h (decloak_remove h) s.
Proof. intros Hg. eapply wp_mono; [|by apply decloak_remove_wp]. naive_solver. Qed.

Lemma keeps_check_decloak hist c node h from s :
  good hist s → keeps hist h (presence_cache_check_for_decloak_request c node h from) s.
Proof.
  intros Hg. unfold presence_cache_check_for_decloak_request.
  apply cache_keeps_bind; [by apply keeps_decloak_remove|]. intros [] s1 Hg1 _.
  case_match; [|by apply keeps_ret]. cbv zeta.
  apply cache_keeps_bind; [by apply keeps_emit|]. intros [] s2 Hg2 _.
  apply keeps_when; [done|by apply keeps_emit].
Qed.

Lemma presence_node_online node :
  GABBLE_PRESENCE_LAST_UNAVAILABLE < _presence_node_get_status node.
Proof. unfold _presence_node_get_status. repeat case_match; done. Qed.

(** A contact whose stanza says that it is available stays in the cache. *)
Lemma update_available_wp hist c h resource st msg prio s :
  good hist s → handle_is_valid (contact_repo s) h = true →
  GABBLE_PRESENCE_LAST_UNAVAILABLE < st →
  wp (gabble_presence_cache_update (F := F) (L := L) (R := R) (C := C) c h resource st msg prio)
    (λ _ s', good hist s' ∧ evolves (eq h) s s' ∧ is_Some (presence s' !! h)) s.
Proof.
  intros Hg Hv Hst. eapply wp_mono; [|apply update_wp; [apply Hg|done]].
  intros [] s' (Hok & Ht & Ha). split_and!; [by eapply good_touches|by apply touches_evolves|].
  rewrite <- elem_of_dom, <- dom_abs, Ha. unfold spec_do_update.
  set (v0 := default gabble_presence_new _).
  assert (all_online v0) as Hon.
  { unfold v0. rewrite lookup_fmap. destruct (presence s !! h) as [w|] eqn:Hw; cbn; [|constructor].
    apply (pres_mem _ (good_pres _ _ Hg) _ _ Hw). }
  pose proof (update_online resource st msg prio true (time_NULL c) v0 Hon Hst) as Hs.
  destruct (spec_op _ v0) as [r v]. cbn [snd] in *. unfold spec_purge. rewrite lookup_insert_eq.
  assert (spec_removable v = false) as ->.
  { unfold spec_removable, GABBLE_PRESENCE_OFFLINE, GABBLE_PRESENCE_UNKNOWN,
      GABBLE_PRESENCE_LAST_UNAVAILABLE, GABBLE_PRESENCE_ERROR in *.
    rewrite (proj2 (Z.eqb_neq _ _)), (proj2 (Z.eqb_neq _ _)) by lia. done. }
  rewrite dom_insert. set_solver.
Qed.

Lemma moves_presence hist c h from node s :
  good hist s → handle_is_valid (contact_repo s) h = true → name node = "presence" →
  moves hist h (gabble_presence_parse_presence_message extract c h from node) s.
Proof.
  intros Hg Hv Hn. unfold gabble_presence_parse_presence_message.
  destruct (bool_decide (from = full_jid c)); [by apply moves_ret|].
  apply wp_bind, wp_assert; [by rewrite bool_decide_eq_true|].
  apply wp_bind, cache_get_wp; [done|]. apply moves_bind.
  { apply keeps_moves. case_bool_decide as Hp; [|by apply keeps_ret]. by apply keeps_put_pres. }
  intros [] s1 Hg1 He1. cbv zeta. apply moves_bind; [by apply keeps_moves, keeps_check_decloak|].
  intros [] s2 Hg2 He2.
  assert (handle_is_valid (contact_repo s2) h = true) as Hv2.
  { eapply evolves_valid; [exact He2|]. by eapply evolves_valid. }
  assert (∀ st msg prio, moves hist h
    (gabble_presence_cache_update c h (resource_of from) st msg prio ;; mret true) s2) as Hup.
  { intros. apply moves_bind; [by apply moves_update|]. intros [] s3 Hg3 _. by apply moves_ret. }
  destruct (wocky_node_get_attribute node "type") as [ty|].
  { repeat case_match; try by apply moves_ret. all: apply Hup. }
  apply wp_bind. eapply wp_mono; [|apply (update_available_wp hist); [done|done|apply presence_node_online]].
  intros [] s3 (Hg3 & He3 & Hp3).
  assert (handle_is_valid (contact_repo s3) h = true) as Hv3 by by eapply evolves_valid.
  assert (moves hist h
    (has_presence ← match presence s !! h with
       | Some _ => mret true
       | None => p ← gabble_presence_cache_get h; mret (bool_decide (is_Some p))
       end;
     _grab_nickname h node ;; _grab_avatar_sha1 c h node ;;
     _process_caps has_presence h from node ;; mret true) s3) as Hrest.
  { apply wp_bind. apply (wp_mono _ (λ b s4, s4 = s3)).
    2: { destruct (presence s !! h); [by apply wp_ret|]. by apply wp_bind, cache_get_wp. }
    intros b s4 ->. apply keeps_moves.
    apply cache_keeps_bind; [by apply keeps_nickname|]. intros [] s4 Hg4 Hgr4.
    apply cache_keeps_bind; [apply keeps_avatar; [done|by eapply grows_valid]|]. intros [] s5 Hg5 Hgr5.
    apply cache_keeps_bind.
    - apply keeps_process_caps; [done| |].
      + eapply grows_valid; [exact Hgr5|]. by eapply grows_valid.
      + intros _. eapply grows_present; [exact Hgr5|]. by eapply grows_present.
    - intros [] s6 Hg6 _. by apply keeps_ret. }
  eapply wp_mono; [|exact Hrest]. intros r s4 [? ?]. split; [done|by etransitivity].
Qed.

Lemma moves_presence_cb hist c node s :
  good hist s → name node = "presence" →
  wp (gabble_presence_cache_presence_cb down norm extract c node)
    (λ _ s', good hist s') s.
Proof.
  intros Hg Hn. unfold gabble_presence_cache_presence_cb. case_match; [|done].
  apply wp_bind. eapply wp_mono; [|by apply ensure_contact_wp].
  intros h s1 (Hg1 & _ & _ & _ & Hh & _). destruct (Z.eqb_spec h 0); [done|].
  destruct (Hh n) as [Hv _]. eapply wp_mono; [|by apply moves_presence]. naive_solver.
Qed.

Lemma message_wp hist node s :
  good hist s →
  wp (_parse_message_message down norm node) (λ _ s', good hist s') s.
Proof.
  intros Hg. unfold _parse_message_message. case_match; [|done].
  apply wp_bind. eapply wp_mono; [|by apply ensure_contact_wp].
  intros h s1 (Hg1 & _ & _ & _ & Hh & _). destruct (Z.eqb_spec h 0); [done|].
  destruct (Hh n) as [Hv _]. case_match; [done|]. clear H1 H2.
  apply wp_bind, cache_get_wp; [done|]. apply wp_bind.
  apply (wp_mono _ (λ _ s2, good hist s2 ∧ contact_repo s2 = contact_repo s1)).
  - intros [] s2 [Hg2 Hr2]. apply wp_bind. eapply wp_mono; [|apply keeps_nickname; [done|by rewrite Hr2]].
    intros [] s3 [? _]. by apply wp_ret.
  - case_bool_decide as Hp; [|done]. cbn [when]. apply wp_bind.
    eapply wp_mono; [|apply cache_insert_wp, Hg1]. intros [] s2 (Hok2 & Ht2 & Hp2).
    pose proof (good_touches _ _ _ _ Hg1 Ht2 Hok2) as Hg2.
    eapply wp_mono; [|eapply (on_presence_spec h _ (λ _ _, True)); [exact Hok2|by rewrite Hp2, lookup_insert_eq|]].
    + intros [] s3 (Hok3 & Ht3 & _). split; [by eapply good_touches|].
      by rewrite (t_contacts _ _ _ Ht3), (t_contacts _ _ _ Ht2).
    + eapply wp_mono; [|apply set_pres_spec; [done|]]; [naive_solver|].
      split_and!; [apply fresh_world_ok|done|constructor].
Qed.

Lemma own_caps_wp hist c ver caps ids forms s :
  good hist s →
  wp (gabble_presence_cache_add_own_caps (L := L) c ver caps ids forms) (λ _ s', good hist s') s.
Proof.
  intros Hg. unfold gabble_presence_cache_add_own_caps. cbv zeta. apply wp_bind.
  eapply wp_mono; [|by apply info_get_wp].
  intros i s1 (Hg1 & _ & _ & _ & _ & _ & _ & _ & _ & _ & _). case_match; [done|].
  eapply put_info_wp; [exact Hg1| |by intros].
  split; cbn; [by eauto|done|by left].
Qed.

Lemma bundle_caps_wp hist b ns s :
  good hist s → b ∈ bundle_nodes →
  wp (gabble_presence_cache_add_bundle_caps (F := F) (L := L) b ns) (λ _ s', good hist s') s.
Proof.
  intros Hg Hb. unfold gabble_presence_cache_add_bundle_caps. apply wp_bind.
  eapply wp_mono; [|by apply info_get_wp].
  intros i s1 (Hg1 & _ & _ & _ & _ & _ & _ & _ & _ & _ & _). apply wp_bind, wp_get. cbv zeta.
  set (set0 := default _ _).
  assert (let '(r, _) := match ns with
            | Some n => gabble_capability_set_add (feature_pool s1) set0 n
            | None => (feature_pool s1, set0)
            end in extends (feature_pool s1) r) as He.
  { destruct ns as [n|]; [|done]. unfold gabble_capability_set_add.
    destruct (tp_handle_ensure (feature_pool s1) n) as [r h] eqn:E. intros t Ht.
    pose proof (lookup_ensure_stable (feature_pool s1) n t Ht) as Hs. by rewrite E in Hs. }
  destruct (match ns with Some _ => _ | None => _ end) as [r set1]. apply wp_bind.
  eapply put_pool_wp; [exact Hg1|exact He|]. intros s2 Hg2 _ _ _ _ _ _ _ _.
  eapply put_info_wp; [exact Hg2| |by intros].
  split; cbn; [by eauto|done|by right; left].
Qed.

(** ** Every input *)

Inductive cache_input :=
  | PresenceStanza (c : Conn) (stanza : WockyNode)
  | RoomPresence (c : Conn) (handle : Z) (from : string) (stanza : WockyNode)
  | MessageStanza (stanza : WockyNode)
  | DiscoResult (jid : string) (node : option string) (reply : option WockyNode)
  | UpdateContact (c : Conn) (handle : Z) (resource : option string) (st : Z)
      (msg : option string) (prio : Z)
  | UpdateMany (c : Conn) (handles : list Z) (resource : option string) (st : Z)
      (msg : option string) (prio : Z)
  | MaybeRemove (handle : Z)
  | ReallyRemove (handle : Z)
  | AddOwnCaps (c : Conn) (ver : string) (caps : GabbleCapabilitySet)
      (ids : option (list WockyDiscoIdentity)) (forms : option (list F))
  | PeekOwnCaps (ver : string)
  | RequestDecloaking (handle : Z) (reason : string)
  | DecloakTimeout (handle : Z)
  | SelfVCard (handle : Z) (vcard : option (option string))
  | StatusChanged (st : TpConnectionStatus)
  | EndUnsurePeriod
  | UpdateLocation (handle : Z) (l : L)
  | IsUnsure (c : Conn) (handle : Z)
  | NewContact (nm : string)       (* another component names a contact *)
  | NewFeature (nm : string).      (* another component names a feature *)

Definition run_input (i : cache_input) : MC unit :=
  match i with
  | PresenceStanza c st => gabble_presence_cache_presence_cb down norm extract c st ;; mret tt
  | RoomPresence c h from st => gabble_presence_parse_presence_message extract c h from st ;; mret tt
  | MessageStanza st => _parse_message_message down norm st ;; mret tt
  | DiscoResult jid node r => _caps_disco_cb down norm caps_hash parse_form jid node r
  | UpdateContact c h res st msg prio => gabble_presence_cache_update c h res st msg prio
  | UpdateMany c l res st msg prio => gabble_presence_cache_update_many c l res st msg prio
  | MaybeRemove h => gabble_presence_cache_maybe_remove h
  | ReallyRemove h => gabble_presence_cache_really_remove h
  | AddOwnCaps c ver caps ids forms => gabble_presence_cache_add_own_caps c ver caps ids forms
  | PeekOwnCaps ver => gabble_presence_cache_peek_own_caps ver ;; mret tt
  | RequestDecloaking h reason => gabble_presence_cache_request_decloaking h reason ;; mret tt
  | DecloakTimeout h => gabble_presence_cache_decloak_timeout_cb h
  | SelfVCard h v => self_vcard_request_cb h v
  | StatusChanged st => gabble_presence_cache_status_changed_cb st
  | EndUnsurePeriod => gabble_presence_cache_end_unsure_period
  | UpdateLocation h l => gabble_presence_cache_update_location h l
  | IsUnsure c h => gabble_presence_cache_is_unsure c h ;; mret tt
  | NewContact n => s ← get; put_contacts (tp_handle_ensure (contact_repo s) n).1
  | NewFeature n => s ← get; put_pool (tp_handle_ensure (feature_pool s) n).1
  end.

(** What the callers see to: handles are of the repository, and the porter
    hands over stanzas of the right kind. *)
Definition input_ok s (i : cache_input) : Prop :=
  let valid h := handle_is_valid (contact_repo s) h = true in
  match i with
  | PresenceStanza _ st => name st = "presence"
  | RoomPresence _ h _ st => valid h ∧ name st = "presence"
  | UpdateContact _ h _ _ _ _ | MaybeRemove h | RequestDecloaking h _ | IsUnsure _ h => valid h
  | UpdateMany _ l _ _ _ _ => ∀ h, h ∈ l → valid h
  | _ => True
  end.

Definition replies_of (i : cache_input) : list reply :=
  match i with
  | DiscoResult jid (Some node) (Some q) => [(jid, node, q)]
  | _ => []
  end.

(** The states the cache goes through, with the answers it was given. *)
Inductive reachable : list reply → Cache → Prop :=
  | reach_new pool contacts cache avatar s :
      gabble_presence_cache_constructor
        (gabble_presence_cache_init pool contacts cache avatar) = Ok (tt, s) →
      reachable [] s
  | reach_step hist s i s' :
      reachable hist s → input_ok s i → run_input i s = Ok (tt, s') →
      reachable (hist ++ replies_of i) s'.

Lemma constructor_wp pool contacts cache avatar :
  wp gabble_presence_cache_constructor (λ _ s, good [] s)
    (gabble_presence_cache_init pool contacts cache avatar).
Proof.
  assert (good [] (gabble_presence_cache_init (F := F) (L := L) pool contacts cache avatar)) as Hg.
  { split; cbn; [split; cbn; [done|by rewrite dom_empty_L]|done|done|by rewrite dom_empty_L]. }
  unfold gabble_presence_cache_constructor, gabble_presence_cache_add_bundles.
  do 3 (apply wp_bind; eapply wp_mono; [|apply bundle_caps_wp; [exact Hg|set_solver]];
        clear Hg; intros [] ? Hg).
  apply bundle_caps_wp; [exact Hg|]. set_solver.
Qed.

Lemma wp_then_ret {A} (m : MC A) (Q : Cache → Prop) s :
  wp m (λ _ s', Q s') s → wp (m ;; mret tt) (λ _ s', Q s') s.
Proof. intros Hm. apply wp_bind. by eapply wp_mono; [|exact Hm]. Qed.

Lemma keeps_good hist h {A} (m : MC A) s : keeps hist h m s → wp m (λ _ s', good hist s') s.
Proof. apply wp_mono. naive_solver. Qed.

Lemma ensure_extends (r : R) n : extends r (tp_handle_ensure r n).1.
Proof. intros t Ht. by apply lookup_ensure_stable. Qed.

Lemma put_decloak_wp hist m hs s :
  good hist s → hs = dom m →
  wp (put_decloak (F := F) (L := L) (R := R) (C := C) m hs) (λ _ s', good hist s') s.
Proof. intros [[] ? ? ?] ->. unfold put_decloak. apply wp_modify. by split. Qed.

Lemma decloak_wp hist h reason s :
  good hist s → handle_is_valid (contact_repo s) h = true →
  wp (gabble_presence_cache_request_decloaking h reason) (λ _ s', good hist s') s.
Proof.
  intros Hg Hv. unfold gabble_presence_cache_request_decloaking.
  apply wp_bind, cache_get_wp; [done|]. apply wp_bind, wp_get.
  destruct (match presence s !! h with Some _ => _ | None => _ end); [by apply wp_ret|].
  destruct (_ && _); [by apply wp_ret|].
  apply wp_bind. eapply wp_mono; [|by apply (decloak_remove_wp hist)]. intros [] s1 (Hg1 & _).
  apply wp_bind, wp_get, wp_bind. eapply wp_mono; [|apply (put_decloak_wp hist); [done|]].
  - intros [] s2 Hg2. apply wp_bind. eapply emit_good; [exact Hg2|]. intros. by apply wp_ret.
  - rewrite dom_insert_L. by rewrite (good_decloak _ _ Hg1).
Qed.

(** An input keeps the cache good and does not abort. *)
Lemma input_good hist i s :
  good hist s → input_ok s i →
  wp (run_input i) (λ _ s', good (hist ++ replies_of i) s') s.
Proof.
  intros Hg Hi. destruct i; cbn [run_input input_ok] in *;
    try (cbn [replies_of]; rewrite app_nil_r).
  - apply wp_then_ret. by apply moves_presence_cb.
  - apply wp_then_ret. destruct Hi. eapply wp_mono; [|by apply moves_presence]. naive_solver.
  - apply wp_then_ret. by apply message_wp.
  - destruct node as [node|]; [|cbn [replies_of]; rewrite app_nil_r; by apply wp_ret].
    destruct reply0 as [q|]; cbn [replies_of].
    + eapply wp_mono; [|by apply caps_disco_reply_wp]. naive_solver.
    + rewrite app_nil_r. cbn [_caps_disco_cb]. apply wp_bind, wp_get.
      eapply wp_mono; [|by apply disco_failed_wp]. naive_solver.
  - eapply wp_mono; [|by apply moves_update]. naive_solver.
  - eapply wp_mono; [|apply update_many_wp; [apply Hg|done]]. intros [] s' [? ?].
    by eapply good_touches.
  - eapply wp_mono; [|apply maybe_remove_wp; [apply Hg|done]]. intros [] s' (? & ? & _).
    by eapply good_touches.
  - eapply wp_mono; [|apply really_remove_wp, Hg]. intros [] s' (? & ? & _).
    by eapply good_touches.
  - by apply own_caps_wp.
  - apply wp_then_ret. unfold gabble_presence_cache_peek_own_caps. apply wp_bind.
    eapply wp_mono; [|by apply info_get_wp].
    intros i s1 (Hg1 & _ & _ & _ & _ & _ & _ & _ & _ & _ & Hinfo). case_match; [|by apply wp_ret].
    apply wp_bind, wp_assert; [|by apply wp_ret]. rewrite bool_decide_eq_true.
    destruct (info_set _ _ _ _ _ Hinfo) as [?|(_ & _ & ?)]; [done|congruence].
  - apply wp_then_ret. by apply decloak_wp.
  - unfold gabble_presence_cache_decloak_timeout_cb. apply wp_bind.
    eapply wp_mono; [|by apply (decloak_remove_wp hist)]. intros [] s1 (Hg1 & _ & _ & _ & Hn).
    apply wp_bind, wp_get, wp_bind, wp_assert; [by rewrite bool_decide_eq_true|].
    by eapply keeps_good, (keeps_emit hist 0).
  - unfold self_vcard_request_cb. apply wp_bind, wp_get. eapply keeps_good, (cache_keeps_bind hist 0).
    + by apply keeps_reset.
    + intros [] s1 Hg1 _. case_match; [by apply keeps_emit|by apply keeps_ret].
  - destruct st; try done. unfold gabble_presence_cache_status_changed_cb, put_unsure.
    apply wp_modify. by destruct Hg as [[] ? ? ?].
  - unfold gabble_presence_cache_end_unsure_period, put_unsure. apply wp_bind, wp_modify.
    eapply keeps_good, (keeps_emit hist 0). by destruct Hg as [[] ? ? ?].
  - unfold gabble_presence_cache_update_location, put_location. apply wp_bind, wp_get, wp_bind, wp_modify.
    eapply keeps_good, (keeps_emit hist 0). by destruct Hg as [[] ? ? ?].
  - apply wp_then_ret. unfold gabble_presence_cache_is_unsure. apply wp_bind, wp_get, wp_bind.
    apply (wp_mono _ (λ _ s1, s1 = s)).
    + intros b s1 ->. repeat case_match; by apply wp_ret.
    + case_match; [|by apply wp_ret]. by apply wp_bind, cache_get_wp.
  - apply wp_bind, wp_get. unfold put_contacts. apply wp_modify. destruct Hg as [[] Hinf Hw ?].
    pose proof (ensure_extends (contact_repo s) nm) as He. split; cbn; [done| | |done].
    + intros node i Hn. eapply info_ok_mono; [done|done|exact He|]. by apply Hinf.
    + intros node l w Hl Hin. eapply waiter_ok_extends; [exact He|]. by eapply Hw.
  - apply wp_bind, wp_get. eapply keeps_good, (keeps_pool hist 0); [done|]. apply ensure_extends.
Qed.

Lemma cache_reachable_good hist s : reachable hist s → good hist s.
Proof.
  induction 1 as [pool contacts cache avatar s Hs|hist s i s' _ IH Hi Hs].
  - pose proof (constructor_wp pool contacts cache avatar) as Hc. unfold wp in Hc. by rewrite Hs in Hc.
  - pose proof (input_good hist i s IH Hi) as Hw. unfold wp in Hw. by rewrite Hs in Hw.
Qed.

(** ** The theorems *)

(** [node] is believed to mean [caps] for a reason: an answer checked against
    the hash, or five contacts that gave the same answer. *)
Definition vouched hist (pool : R) (node : string) (caps : GabbleCapabilitySet) : Prop :=
  verified hist pool node caps ∨
  ∃ names, NoDup names ∧ (5 <= length names)%nat ∧ ∀ n, n ∈ names →
    ∃ jid q, speaks_for jid n ∧ (jid, node, q) ∈ hist ∧ says pool caps q.

Lemma heard_names hist pool contacts node caps (gs : list Z) :
  NoDup gs → (∀ h, h ∈ gs → heard hist pool contacts node caps h) →
  ∃ names, NoDup names ∧ length names = length gs ∧
    (∀ n, n ∈ names → tp_handle_lookup contacts n ∈ gs) ∧
    ∀ n, n ∈ names → ∃ jid q, speaks_for jid n ∧ (jid, node, q) ∈ hist ∧ says pool caps q.
Proof.
  induction 1 as [|h gs Hh Hnd IH]; intros Hall.
  { exists []. split_and!; try done; [apply NoDup_nil_2|set_solver..]. }
  destruct IH as (names & Hn & Hlen & Hin & Hwhy); [intros; apply Hall; by right|].
  destruct (Hall h) as (_ & n & jid & q & Hl & Hs & Hr & Hq); [by left|].
  exists (n :: names). split_and!.
  - constructor; [|done]. intros Hc. apply Hin in Hc. congruence.
  - cbn. by rewrite Hlen.
  - intros n' [->|?]%elem_of_cons; [rewrite Hl; by left|right; by apply Hin].
  - intros n' [->|?]%elem_of_cons; [by exists jid, q|by apply Hwhy].
Qed.

Lemma good_vouched hist s node i :
  good hist s → capabilities s !! node = Some i → CAPABILITY_BUNDLE_ENOUGH_TRUST <= trust i →
  complete i = true ∨ node ∈ bundle_nodes ∨
  ∃ caps, info_cap_set i = Some caps ∧ vouched hist (feature_pool s) node caps.
Proof.
  intros Hg Hi Ht. destruct (good_infos _ _ Hg _ _ Hi) as [Hset _ Hwhy].
  unfold CAPABILITY_BUNDLE_ENOUGH_TRUST in Ht.
  destruct Hwhy as [?|[?|Hwhy]]; [by left|by right; left|]. right; right.
  destruct Hset as [[caps Hcaps]|(_ & ? & _)]; [|lia]. exists caps. split; [done|].
  destruct (Hwhy caps Hcaps) as [Hheard [Hn|Hv]]; [|by left]. right.
  destruct (heard_names hist (feature_pool s) (contact_repo s) node caps (elements (guys i)))
    as (names & Hnd & Hlen & _ & Hall); [apply NoDup_elements|set_solver|].
  exists names. split_and!; [done| |done]. rewrite Hlen. unfold size, set_size in Hn. cbn in Hn. lia.
Qed.

(** C3: in whatever order presences, messages, disco
    answers and timeouts come, the cache trips no assertion, dereferences no
    NULL capability set and no dead string, and stays consistent. *)
Theorem presence_cache_safe hist s i :
  reachable hist s → input_ok s i →
  wp (run_input i) (λ _ s', reachable (hist ++ replies_of i) s' ∧ pres_ok s' ∧
    decloak_handles s' = dom (decloak_requests s')) s.
Proof.
  intros Hr Hi. pose proof (input_good hist i s (cache_reachable_good _ _ Hr) Hi) as Hw.
  unfold wp in *. destruct (run_input i s) as [[[] s']|] eqn:E; [|done].
  split_and!; [by eapply reach_step|apply Hw..].
Qed.

(** C4: In every state of the presence cache reached from
    its construction by inputs whose handles are valid and whose stanzas
    handed over by the porter are presences: a capability node whose recorded
    trust has reached CAPABILITY_BUNDLE_ENOUGH_TRUST is marked as one of our
    own, is the node of a built-in bundle, or has been vouched for, in that
    some contact's answer hashes to the verification string in its name or
    five different contacts gave the same answer. Nothing is said of a node
    that _process_caps_uri finds in the on-disk cache of capabilities, which
    is believed whatever its recorded trust. *)
Theorem caps_trust_sound hist s node i :
  reachable hist s → capabilities s !! node = Some i →
  CAPABILITY_BUNDLE_ENOUGH_TRUST <= trust i →
  complete i = true ∨ node ∈ bundle_nodes ∨
  ∃ caps, info_cap_set i = Some caps ∧ vouched hist (feature_pool s) node caps.
Proof. intros Hr. by apply good_vouched, cache_reachable_good. Qed.

(** C5: unless the node is one of ours or vouched for,
    an answer about it changes what is known of the contact that gave it and
    of no other contact. *)
Theorem foreign_caps_vouched hist s jid node q :
  reachable hist s →
  wp (_caps_disco_cb down norm caps_hash parse_form jid (Some node) (Some q)) (λ _ s',
    (∃ i, capabilities s' !! node = Some i ∧
      (complete i = true ∨ node ∈ bundle_nodes ∨
       ∃ caps, info_cap_set i = Some caps ∧
         vouched (hist ++ [(jid, node, q)]) (feature_pool s') node caps)) ∨
    ∀ h, ¬ answers jid s' h → presence s' !! h = presence s !! h) s.
Proof.
  intros Hr%cache_reachable_good. eapply wp_mono; [|by apply caps_disco_reply_wp].
  intros [] s' (Hg & Hgr & _).
  destruct (capabilities s' !! node) as [i|] eqn:Hi.
  - destruct (Z.le_gt_cases CAPABILITY_BUNDLE_ENOUGH_TRUST (trust i)) as [Ht|Ht].
    + left. exists i. split; [done|]. by eapply good_vouched.
    + right. intros h Hn. apply Hgr. intros [?|(i' & Hi' & ?)]; [done|].
      simplify_eq. lia.
  - right. intros h Hn. apply Hgr. intros [?|(i' & ? & _)]; [done|congruence].
Qed.

(** The first answer that matches the announced
    hash settles the node: every contact waiting for it, and no other, gets
    the capabilities and client types of the answer, is announced once, in
    order, and the answer goes to the persistent cache. *)
Theorem verified_reply_serves hist s jid node q :
  reachable hist s → verified_answer s jid node q →
  info_cap_set (default no_info (capabilities s !! node)) = None →
  wp (_caps_disco_cb down norm caps_hash parse_form jid (Some node) (Some q))
    (λ _ s', all_served s node q s' ∧ trusted s' node) s.
Proof.
  intros Hr%cache_reachable_good Hva Hnone. eapply wp_mono; [|by apply caps_disco_reply_wp].
  intros [] s' (_ & _ & _ & Hs). by apply Hs.
Qed.

(** A presence update is, on the table of contacts
    seen without pointers, the update of that contact (created if need be)
    followed by its removal if it went away silently; nothing else changes. *)
Theorem cache_update_refines hist s c h resource st msg prio :
  reachable hist s → handle_is_valid (contact_repo s) h = true →
  wp (gabble_presence_cache_update c h resource st msg prio) (λ _ s',
    abs <$> presence s' = spec_purge h
      (spec_do_update h resource st msg prio true (time_NULL c) (abs <$> presence s)).2 ∧
    capabilities s' = capabilities s ∧ disco_pending s' = disco_pending s) s.
Proof.
  intros Hr%cache_reachable_good Hv. eapply wp_mono; [|apply update_wp; [apply Hr|done]].
  intros [] s' (_ & [] & Ha). done.
Qed.

Lemma reach_run (l : list cache_input) hist s s' :
  reachable hist s → (∀ i s1, i ∈ l → input_ok s1 i) →
  for_each l run_input s = Ok (tt, s') →
  reachable (hist ++ concat (replies_of <$> l)) s'.
Proof.
  revert hist s. induction l as [|i l IH]; intros hist s Hr Hok Hrun; cbn in *.
  { injection Hrun as <-. by rewrite app_nil_r. }
  apply bind_Ok in Hrun as ([] & s1 & H1' & H2'). rewrite app_assoc. eapply IH; [| |exact H2'].
  - eapply reach_step; [done| |done]. apply Hok. by left.
  - intros j s2 Hj. apply Hok. by right.
Qed.

End facts.

(** ** Concrete runs

    Handles are numbered in order of first use, the hash of an answer is an
    attribute of it, there are no data forms. *)

Module Runs.
Abbreviation RunCache := (GabblePresenceCache unit unit (list string) (gmap string WockyNode)).

Definition hash_of (q : WockyNode) : option string := wocky_node_get_attribute q "hash".
Definition no_form (q : WockyNode) : option unit := None.
Definition no_error (q : WockyNode) : string * string := (EmptyString, EmptyString).

Definition input : Type := @cache_input unit unit.

Definition run (l : list input) : M RunCache unit :=
  gabble_presence_cache_constructor ;;
  for_each l (run_input (λ x, x) (λ x, x) hash_of no_form no_error).

Definition start : RunCache := gabble_presence_cache_init [] [] ∅ None.

Definition conn : Conn := mkConn CONNECTED 0 "me@x/here" false (λ _, true) 100.

(** A presence announcing [ver] of [node]. *)
Definition announces (from node ver : string) (hash : option string) : WockyNode :=
  mkNode "presence" None (Some "jabber:client") [mkAttribute "from" from None]
    [mkNode "c" None (Some NS_CAPS)
      ([mkAttribute "node" node None; mkAttribute "ver" ver None] ++
       match hash with Some h => [mkAttribute "hash" h None] | None => [] end) []].

Definition answer (hash feature : string) : WockyNode :=
  mkNode "query" None (Some NS_DISCO_INFO) [mkAttribute "hash" hash None]
    [mkNode "feature" None (Some NS_DISCO_INFO) [mkAttribute "var" feature None] []].

Definition requests (s : RunCache) : list string :=
  omap (λ e, match e with DiscoRequest jid _ => Some jid | _ => None end) (events s).

(** What the contact [nm] is thought capable of. *)
Definition capable (s : RunCache) (nm feature : string) : option bool :=
  (λ w, gabble_capability_set_has (feature_pool s) (cap_set (pres w)) feature) <$>
    presence s !! tp_handle_lookup (contact_repo s) nm.

(** Three contacts announce the same client; the first to be asked answers. *)
Definition three : list input :=
  [PresenceStanza conn (announces "a@x/1" "http://c" "V" (Some "sha-1"));
   PresenceStanza conn (announces "b@x/1" "http://c" "V" (Some "sha-1"));
   PresenceStanza conn (announces "c@x/1" "http://c" "V" (Some "sha-1"))].

Definition after (l : list input) : option RunCache :=
  match run l start with Ok (_, s) => Some s | Abort _ => None end.

Lemma cache_run_reachable l s :
  run l start = Ok (tt, s) → (∀ i (s1 : RunCache), i ∈ l → input_ok s1 i) →
  reachable (λ x, x) (λ x, x) hash_of no_form no_error (concat (replies_of <$> l)) s.
Proof.
  intros Hrun Hok. unfold run in Hrun. apply bind_Ok in Hrun as ([] & s0 & H0 & Hl).
  apply (reach_run _ _ _ _ _ l [] s0 s); [by eapply reach_new|done|done].
Qed.

(** Testing the state at the end of a run. *)
Definition ends_with (l : list input) (P : RunCache → bool) : bool :=
  match run l start with Ok (_, s) => P s | Abort _ => false end.

Lemma run_ends_with l P : ends_with l P = true → ∃ s, run l start = Ok (tt, s) ∧ P s = true.
Proof. unfold ends_with. destruct (run l start) as [[[] s]|]; [by eauto|done]. Qed.

(** ** Reachable misbehaviour *)

Definition unsure_about (s : RunCache) (h : Z) : bool :=
  match gabble_presence_cache_is_unsure conn h s with Ok (b, _) => b | Abort _ => false end.

(** A contact whose disco request failed still
    counts as one that will answer.  Here [a] fails, [c] is asked in its
    place and gives a wrong answer; nobody is outstanding, yet [b] is not
    asked, not even when it announces the same client again, and the cache
    stays unsure about it. *)
Theorem failed_waiter_blocks :
  let uri := "http://c#V" in
  let l := three ++
    [DiscoResult "a@x/1" (Some uri) None;
     DiscoResult "c@x/1" (Some uri) (Some (answer "wrong" "f"));
     PresenceStanza conn (announces "b@x/1" "http://c" "V" (Some "sha-1"))] in
  ∃ s, run l start = Ok (tt, s) ∧ requests s = ["a@x/1"; "c@x/1"] ∧
    disco_requested <$> find_matching_waiter (default [] (disco_pending s !! uri)) 2 (Some "1")
      = Some false ∧
    unsure_about s 2 = true.
Proof.
  intros uri l. destruct (run_ends_with l (λ s, bool_decide (requests s = ["a@x/1"; "c@x/1"] ∧
    disco_requested <$> find_matching_waiter (default [] (disco_pending s !! uri)) 2 (Some "1")
      = Some false ∧ unsure_about s 2 = true))) as (s & Hr & Ht); [vm_compute; reflexivity|].
  exists s. split; [exact Hr|]. by apply bool_decide_eq_true in Ht.
Qed.

(** What [gabble_presence_cache_peek_own_caps] says we are capable of. *)
Definition own_capable (s : RunCache) (ver feature : string) : option bool :=
  match gabble_presence_cache_peek_own_caps ver s with
  | Ok (Some info, s') =>
      (λ caps, gabble_capability_set_has (feature_pool s') caps feature) <$> info_cap_set info
  | _ => None
  end.

(** An answer to a question asked before the node
    became one of ours replaces what we say our own capabilities are: the
    entry stays marked as ours and complete. *)
Theorem own_caps_poisoned :
  let l := [PresenceStanza conn (announces "m@x/1" NS_GABBLE_CAPS "V" None);
            AddOwnCaps conn "V" gabble_capability_set_new None None;
            DiscoResult "m@x/1" (Some (NS_GABBLE_CAPS +:+ "#V")) (Some (answer "" "evil"))] in
  ∃ s, run l start = Ok (tt, s) ∧ own_capable s "V" "evil" = Some true.
Proof.
  intros l. destruct (run_ends_with l (λ s, bool_decide (own_capable s "V" "evil" = Some true)))
    as (s & Hr & Ht); [vm_compute; reflexivity|].
  exists s. split; [exact Hr|]. by apply bool_decide_eq_true in Ht.
Qed.

(** One failure forgets every contact that has been asked: [b], asked at the
    same time as [a], answers in vain. *)
Lemma failure_drops_others :
  let uri := "http://c#V" in
  let l := [PresenceStanza conn (announces "a@x/1" "http://c" "V" None);
            PresenceStanza conn (announces "b@x/1" "http://c" "V" None);
            DiscoResult "a@x/1" (Some uri) None;
            DiscoResult "b@x/1" (Some uri) (Some (answer "" "f"))] in
  ∃ s, run l start = Ok (tt, s) ∧ requests s = ["a@x/1"; "b@x/1"] ∧
    capable s "b@x" "f" = Some false.
Proof.
  intros uri l. destruct (run_ends_with l (λ s, bool_decide (requests s = ["a@x/1"; "b@x/1"] ∧
    capable s "b@x" "f" = Some false))) as (s & Hr & Ht); [vm_compute; reflexivity|].
  exists s. split; [exact Hr|]. by apply bool_decide_eq_true in Ht.
Qed.

(** ** Witnesses *)

Lemma three_ok (i : input) (s1 : RunCache) : i ∈ three → input_ok s1 i.
Proof.
  unfold three. rewrite !elem_of_cons, elem_of_nil. intros [->|[->|[->|[]]]]; reflexivity.
Qed.

(** What the witnesses need to know of the state after [three]. *)
Definition three_test (s : RunCache) : bool :=
  bool_decide (known_as (λ x, x) (λ x, x) s "a@x/1" "a@x") &&
  bool_decide (tp_handle_lookup (contact_repo s) "a@x" = 1) &&
  handle_is_valid (contact_repo s) 1 &&
  bool_decide (((λ w, (w_hash w, w_ver w)) <$>
      find_matching_waiter (default [] (disco_pending s !! "http://c#V")) 1 (Some "1"))
    = Some (Some "sha-1", Some "V")) &&
  bool_decide (info_cap_set (default no_info (capabilities s !! "http://c#V")) = None).

Lemma three_runs : ∃ s, run three start = Ok (tt, s) ∧ three_test s = true.
Proof. apply run_ends_with. vm_compute. reflexivity. Qed.

Lemma presence_cache_safe_witness :
  ∃ s, run three start = Ok (tt, s) ∧
    wp (run_input (λ x, x) (λ x, x) hash_of no_form no_error
          (DiscoResult "a@x/1" (Some "http://c#V") (Some (answer "V" "f"))))
      (λ _ s', reachable (λ x, x) (λ x, x) hash_of no_form no_error
         ([] ++ [("a@x/1", "http://c#V", answer "V" "f")]) s' ∧ pres_ok s' ∧
         decloak_handles s' = dom (decloak_requests s')) s.
Proof.
  destruct three_runs as (s & E & _). exists s. split; [exact E|].
  exact (presence_cache_safe (λ x, x) (λ x, x) hash_of no_form no_error [] s
    (DiscoResult "a@x/1" (Some "http://c#V") (Some (answer "V" "f")))
    (cache_run_reachable three s E three_ok) I).
Defined.

Lemma foreign_caps_vouched_witness :
  ∃ s, run three start = Ok (tt, s) ∧
    wp (_caps_disco_cb (λ x, x) (λ x, x) hash_of no_form "b@x/1" (Some "http://c#V")
          (Some (answer "V" "f"))) (λ _ s',
      (∃ i, capabilities s' !! "http://c#V" = Some i ∧
        (complete i = true ∨ "http://c#V" ∈ bundle_nodes ∨
         ∃ caps, info_cap_set i = Some caps ∧
           vouched (λ x, x) (λ x, x) hash_of
             ([] ++ [("b@x/1", "http://c#V", answer "V" "f")]) (feature_pool s') "http://c#V" caps)) ∨
      ∀ h, ¬ answers (λ x, x) (λ x, x) "b@x/1" s' h → presence s' !! h = presence s !! h) s.
Proof.
  destruct three_runs as (s & E & _). exists s. split; [exact E|].
  exact (foreign_caps_vouched (λ x, x) (λ x, x) hash_of no_form no_error [] s "b@x/1" "http://c#V"
    (answer "V" "f") (cache_run_reachable three s E three_ok)).
Defined.

Lemma cache_update_refines_witness :
  ∃ s, run three start = Ok (tt, s) ∧
    wp (gabble_presence_cache_update conn 1 (Some "1") GABBLE_PRESENCE_OFFLINE None 0) (λ _ s',
      abs <$> presence s' = spec_purge 1
        (spec_do_update 1 (Some "1") GABBLE_PRESENCE_OFFLINE None 0 true 100 (abs <$> presence s)).2 ∧
      capabilities s' = capabilities s ∧ disco_pending s' = disco_pending s) s.
Proof.
  destruct three_runs as (s & E & Ht). exists s. split; [exact E|].
  apply (cache_update_refines (λ x, x) (λ x, x) hash_of no_form no_error []).
  - exact (cache_run_reachable three s E three_ok).
  - unfold three_test in Ht. rewrite !andb_true_iff in Ht. apply Ht.
Defined.

Lemma verified_reply_serves_witness :
  ∃ s, run three start = Ok (tt, s) ∧
    wp (_caps_disco_cb (λ x, x) (λ x, x) hash_of no_form "a@x/1" (Some "http://c#V")
          (Some (answer "V" "f")))
      (λ _ s', all_served no_form s "http://c#V" (answer "V" "f") s' ∧ trusted s' "http://c#V") s.
Proof.
  destruct three_runs as (s & E & Ht). exists s. split; [exact E|].
  unfold three_test in Ht. rewrite !andb_true_iff, !bool_decide_eq_true in Ht.
  destruct Ht as ((((Hk & Hl) & _) & Hw) & Hn).
  apply (verified_reply_serves (λ x, x) (λ x, x) hash_of no_form no_error [] s).
  - exact (cache_run_reachable three s E three_ok).
  - apply fmap_Some in Hw as (w & Hw & [= Hh Hv]).
    exists "a@x", (Some "a", "x", Some "1"), w. rewrite Hl, <- Hh, <- Hv.
    split_and!; [exact Hk|reflexivity|exact Hw|reflexivity|by eexists|reflexivity].
  - exact Hn.
Defined.

(** The node after a verified answer. *)
Definition answered : list input :=
  three ++ [DiscoResult "a@x/1" (Some "http://c#V") (Some (answer "V" "f"))].

Lemma caps_trust_sound_witness :
  ∃ s i, run answered start = Ok (tt, s) ∧ capabilities s !! "http://c#V" = Some i ∧
    CAPABILITY_BUNDLE_ENOUGH_TRUST <= trust i ∧
    (complete i = true ∨ "http://c#V" ∈ bundle_nodes ∨
     ∃ caps, info_cap_set i = Some caps ∧
       vouched (λ x, x) (λ x, x) hash_of [("a@x/1", "http://c#V", answer "V" "f")]
         (feature_pool s) "http://c#V" caps).
Proof.
  destruct (run_ends_with answered (λ s, bool_decide (trust <$> capabilities s !! "http://c#V" = Some 5)))
    as (s & E & Ht); [vm_compute; reflexivity|].
  apply bool_decide_eq_true, fmap_Some in Ht as (i & Hi & Ht).
  assert (CAPABILITY_BUNDLE_ENOUGH_TRUST <= trust i) as Hle
    by (rewrite <- Ht; unfold CAPABILITY_BUNDLE_ENOUGH_TRUST; lia).
  exists s, i. split_and!; [exact E|exact Hi|exact Hle|].
  refine (caps_trust_sound (λ x, x) (λ x, x) hash_of no_form no_error _ s "http://c#V" i
    (cache_run_reachable answered s E _) Hi Hle).
  intros j s1. unfold answered. rewrite elem_of_app, list_elem_of_singleton.
  intros [Hj| ->]; [exact (three_ok j s1 Hj)|exact I].
Defined.

End Runs.
End PresenceCacheFacts.
