(* ===== verification/CapsHash.v ===== *)
(** * Capability hashes (lib/ext/wocky/wocky/wocky-caps-hash.c, src/caps-hash.c)

    The verification string of XEP-0115, as it is computed from a disco answer
    and as it is computed for our own presence; what we announce and what we
    answer to a disco query (src/connection.c).

    The checksum is the concatenation of what it was updated with, given at
    the end to [digest], the base64 of its SHA-1.  Sorting is by insertion;
    GLib's sorts are stable too.  The language of a node (xml:lang) is kept as
    the attribute "xml:lang", a name no XML attribute has.  A comparison that
    would call [strcmp] on NULL is a [MemoryFault]; every sort compares the
    elements that end up next to each other, so which ones are compared does
    not depend on the algorithm ([cmp_faults]). *)

From S2P Require Import Prelude Node Namespaces Jid Capabilities Presence DataForm PresenceCache.

Module CapsHash.
Import Capabilities DataForm.

Local Abbreviation WockyDiscoIdentity := PresenceCache.WockyDiscoIdentity.
Local Abbreviation mkIdentity := PresenceCache.mkIdentity.
Local Abbreviation category := PresenceCache.category.
Local Abbreviation itype := PresenceCache.itype.
Local Abbreviation lang := PresenceCache.lang.
Local Abbreviation iname := PresenceCache.iname.

(** ** Sorting *)

Section sort.
Context {A : Type} (cmp : A → A → comparison).

Fixpoint insert_sorted (x : A) (l : list A) : list A :=
  match l with
  | [] => [x]
  | y :: l' => match cmp x y with Gt => y :: insert_sorted x l' | _ => x :: y :: l' end
  end.

Definition sort (l : list A) : list A := foldr insert_sorted [] l.
End sort.

(** ** Comparisons *)

(** [strcmp] of two strings, and what follows when they are equal. *)
Definition then_cmp (c d : comparison) : comparison := match c with Eq => d | _ => c end.

Definition str (o : option string) : string := default EmptyString o.

(** On identities whose strings are there when they are looked at. *)
Definition wocky_disco_identity_cmp (left right : WockyDiscoIdentity) : comparison :=
  then_cmp (strcmp (category left) (category right))
    (then_cmp (strcmp (itype left) (itype right))
      (then_cmp (strcmp (str (lang left)) (str (lang right)))
        (strcmp (str (iname left)) (str (iname right))))).

(** [strcmp] is called on NULL. *)
Definition pair_faults (left right : WockyDiscoIdentity) : bool :=
  bool_decide (category left = category right) && bool_decide (itype left = itype right) &&
  match lang left, lang right with
  | Some a, Some b =>
      bool_decide (a = b) &&
      (bool_decide (iname left = None) || bool_decide (iname right = None))
  | _, _ => true
  end.

Fixpoint cmp_faults (l : list WockyDiscoIdentity) : bool :=
  match l with
  | [] => false
  | i :: l' => existsb (pair_faults i) l' || cmp_faults l'
  end.

Definition first_value (f : WockyDataFormField) : option string :=
  raw_value_contents f ≫= head.

Definition dataforms_cmp (left right : WockyDataForm) : comparison :=
  match fields_lookup left "FORM_TYPE", fields_lookup right "FORM_TYPE" with
  | None, None => Eq
  | None, Some _ => Lt
  | Some _, None => Gt
  | Some left_type, Some right_type => g_strcmp0 (first_value left_type) (first_value right_type)
  end.

(** ** The verification string *)

(** [g_checksum_update] with a string and then with "<". *)
Definition part (s : string) : string := s +:+ "<".
Definition parts (l : list string) : string := String.concat EmptyString (part <$> l).

Definition identity_string (i : WockyDiscoIdentity) : string :=
  category i +:+ "/" +:+ itype i +:+ "/" +:+ str (lang i) +:+ "/" +:+ str (iname i).

(** The fields of a form; [None]: the hash cannot be computed. *)
Fixpoint hash_fields (l : list WockyDataFormField) : option (list string) :=
  match l with
  | [] => Some []
  | field :: l' =>
      v ← var field;
      if bool_decide (v = "FORM_TYPE") then hash_fields l'
      else
        match raw_value_contents field with
        | None | Some [] => None
        | Some values =>
            rest ← hash_fields l';
            Some (v :: sort strcmp values ++ rest)
        end
  end.

(** What becomes of a form: it is ignored, it cannot be hashed, or it has a
    name and what follows it. *)
Inductive hashed := Ignored | Unhashable | Hashed (form_name : string) (rest : option (list string)).

Definition hash_form (dataform : WockyDataForm) : hashed :=
  match fields_lookup dataform "FORM_TYPE" with
  | None => Ignored
  | Some field =>
      if negb (bool_decide (f_type field = HIDDEN)) then Ignored
      else
        match raw_value_contents field with
        | Some [form_name] =>
            Hashed form_name (hash_fields (sort wocky_data_form_field_cmp (fields_list dataform)))
        | _ => Unhashable
        end
  end.

Fixpoint hash_forms (form_names : gset string) (l : list WockyDataForm) : option (list string) :=
  match l with
  | [] => Some []
  | dataform :: l' =>
      match hash_form dataform with
      | Ignored => hash_forms form_names l'
      | Unhashable => None
      | Hashed form_name fields =>
          if bool_decide (form_name ∈ form_names) then None
          else
            fs ← fields;
            rest ← hash_forms ({[form_name]} ∪ form_names) l';
            Some (form_name :: fs ++ rest)
      end
  end.

Section hash.
(** The base64 of the SHA-1. *)
Context (digest : string → string).

Definition wocky_caps_hash_compute_from_lists (features : list string)
    (identities : list WockyDiscoIdentity) (dataforms : option (list WockyDataForm)) :
    outcome (option string) :=
  if cmp_faults identities then Abort MemoryFault
  else
    Ok (forms ← hash_forms ∅ (sort dataforms_cmp (default [] dataforms));
        Some (digest (parts ((identity_string <$> sort wocky_disco_identity_cmp identities) ++
                             sort strcmp features ++ forms)))).

Definition wocky_node_get_language (node : WockyNode) : option string :=
  wocky_node_get_attribute node "xml:lang".

Definition node_identity (child : WockyNode) : option WockyDiscoIdentity :=
  if bool_decide (name child = "identity") then
    cat ← wocky_node_get_attribute child "category";
    Some (mkIdentity cat (str (wocky_node_get_attribute child "type"))
            (Some (str (wocky_node_get_language child)))
            (Some (str (wocky_node_get_attribute child "name"))))
  else None.

Definition node_feature (child : WockyNode) : option string :=
  if bool_decide (name child = "feature") then wocky_node_get_attribute child "var" else None.

Definition x_forms (node : WockyNode) : list (WockyDataForm + WockyDataFormError) :=
  wocky_data_form_new_from_node <$>
    List.filter (node_compare_child (Some "x") (Some NS_X_DATA)) (children node).

(** All of them, if none is an error. *)
Fixpoint all_forms (l : list (WockyDataForm + WockyDataFormError)) : option (list WockyDataForm) :=
  match l with
  | [] => Some []
  | inl f :: l' => fs ← all_forms l'; Some (f :: fs)
  | inr _ :: _ => None
  end.

Definition wocky_caps_hash_compute_from_node (node : WockyNode) : outcome (option string) :=
  match all_forms (x_forms node) with
  | None => Ok None
  | Some dataforms =>
      wocky_caps_hash_compute_from_lists (omap node_feature (children node))
        (omap node_identity (children node)) (Some dataforms)
  end.

(** ** Our own capabilities *)

Section own.
Context {L R C : Type} `{HandleRepo R} `{PresenceCache.CapsCache C}.
(** Set by configure. *)
Context (CLIENT_TYPE PACKAGE_STRING : string).

Local Notation Cache := (PresenceCache.GabblePresenceCache WockyDataForm L R C).
Local Notation MC := (M Cache).

Definition own_identity : WockyDiscoIdentity :=
  mkIdentity "client" CLIENT_TYPE None (Some PACKAGE_STRING).

(** [pool]: the handles capabilities are interned in; [caps] and [forms]: those
    of our own presence. *)
Definition caps_hash_compute_from_self_presence (pool : R) (caps : GabbleCapabilitySet)
    (forms : option (list WockyDataForm)) : outcome (option string) :=
  wocky_caps_hash_compute_from_lists (gabble_capability_set_foreach pool caps) [own_identity] forms.

Definition gabble_caps_hash_compute_full (pool : R) (caps : GabbleCapabilitySet)
    (identities : option (list WockyDiscoIdentity)) (forms : option (list WockyDataForm)) :
    outcome (option string) :=
  wocky_caps_hash_compute_from_lists (gabble_capability_set_foreach pool caps)
    (default [] identities) forms.

Definition gabble_caps_hash_compute (pool : R) (caps : GabbleCapabilitySet)
    (identities : option (list WockyDiscoIdentity)) : outcome (option string) :=
  gabble_caps_hash_compute_full pool caps identities None.

Definition lift {A} (o : outcome A) : MC A := λ s,
  match o with Ok a => Ok (a, s) | Abort r => Abort r end.

Definition ext_of (pool : R) (caps : GabbleCapabilitySet) : string :=
  let has n := gabble_capability_set_has pool caps n in
  "pmuc-v1" +:+
  (if has NS_GOOGLE_FEAT_SHARE then " " +:+ PresenceCache.BUNDLE_SHARE_V1 else "") +:+
  (if has NS_GOOGLE_FEAT_VOICE then " " +:+ PresenceCache.BUNDLE_VOICE_V1 else "") +:+
  (if has NS_GOOGLE_FEAT_VIDEO then " " +:+ PresenceCache.BUNDLE_VIDEO_V1 else "") +:+
  (if has NS_GOOGLE_FEAT_CAMERA then " " +:+ PresenceCache.BUNDLE_CAMERA_V1 else "").

(** The presence with its <c/>; an attribute of NULL is asserted not to be. *)
Definition gabble_connection_fill_in_caps (c : PresenceCache.Conn) (caps : GabbleCapabilitySet)
    (forms : option (list WockyDataForm)) (presence_message : WockyNode) : MC WockyNode :=
  s ← get;
  hash ← lift (caps_hash_compute_from_self_presence (PresenceCache.feature_pool s) caps forms);
  match hash with
  | None => fail AssertFailed
  | Some caps_hash =>
      PresenceCache.gabble_presence_cache_add_own_caps c caps_hash caps None forms ;;
      let node := foldl (λ n '(k, v), wocky_node_set_attribute n k v)
        (mkNode "c" None (Some PresenceCache.NS_CAPS) [] [])
        [("hash", "sha-1"); ("node", PresenceCache.NS_GABBLE_CAPS); ("ver", caps_hash);
         ("ext", ext_of (PresenceCache.feature_pool s) caps)] in
      mret (set_children presence_message (children presence_message ++ [node]))
  end.

(** Without a hash the entry is made under what printf writes for NULL. *)
Definition gabble_connection_add_sidecar_own_caps_full (c : PresenceCache.Conn)
    (caps : GabbleCapabilitySet) (identities : option (list WockyDiscoIdentity))
    (forms : option (list WockyDataForm)) : MC (option string) :=
  s ← get;
  let identities_copy := match default [] identities with [] => [own_identity] | l => l end in
  hash ← lift (gabble_caps_hash_compute_full (PresenceCache.feature_pool s) caps
                 (Some identities_copy) forms);
  PresenceCache.gabble_presence_cache_add_own_caps c (default "(null)" hash) caps
    (Some identities_copy) forms ;;
  mret hash.

Definition gabble_connection_add_sidecar_own_caps (c : PresenceCache.Conn)
    (caps : GabbleCapabilitySet) (identities : option (list WockyDiscoIdentity)) :
    MC (option string) :=
  gabble_connection_add_sidecar_own_caps_full c caps identities None.

(** ** Disco queries *)

Definition add_feature_node (namespace : string) (result_query : WockyNode) : WockyNode :=
  set_children result_query (children result_query ++
    [wocky_node_set_attribute (mkNode "feature" None (ns result_query) [] []) "var" namespace]).

Definition set_opt (n : WockyNode) (key : string) (v : option string) : WockyNode :=
  match v with Some v => wocky_node_set_attribute n key v | None => n end.

Definition add_identity_node (identity : WockyDiscoIdentity) (result_query : WockyNode) : WockyNode :=
  let n := mkNode "identity" None (ns result_query) [] [] in
  let n := wocky_node_set_attribute n "category" (category identity) in
  let n := wocky_node_set_attribute n "type" (itype identity) in
  let n := set_opt n "lang" (lang identity) in
  let n := set_opt n "name" (iname identity) in
  set_children result_query (children result_query ++ [n]).

Definition default_identity_node (result_query : WockyNode) : WockyNode :=
  set_children result_query (children result_query ++
    [mkNode "identity" None (ns result_query)
       [mkAttribute "category" "client" None; mkAttribute "name" PACKAGE_STRING None;
        mkAttribute "type" CLIENT_TYPE None] []]).

Fixpoint add_forms (l : list WockyDataForm) (n : WockyNode) : outcome WockyNode :=
  match l with
  | [] => Ok n
  | f :: l' => match wocky_data_form_add_to_node f n with
               | Ok n' => add_forms l' n'
               | Abort r => Abort r
               end
  end.

Inductive disco_reply := NotHandled | ItemNotFound | Reply (query : WockyNode).

(** The suffix of a node that is ours: not empty. *)
Definition caps_prefix : string := PresenceCache.NS_GABBLE_CAPS +:+ "#".
Definition suffix_of (node : string) : option string :=
  if String.prefix caps_prefix node && (String.length caps_prefix <? String.length node)%nat
  then Some (String.substring (String.length caps_prefix)
               (String.length node - String.length caps_prefix) node)
  else None.

(** The bundles we answer for by name. *)
Definition bundle_features (b : Bundles) (suffix : option string) : option GabbleCapabilitySet :=
  if bool_decide (suffix = Some PresenceCache.BUNDLE_CAMERA_V1) then camera_v1_caps b
  else if bool_decide (suffix = Some PresenceCache.BUNDLE_VIDEO_V1) then video_v1_caps b
  else if bool_decide (suffix = Some PresenceCache.BUNDLE_VOICE_V1) then voice_v1_caps b
  else if bool_decide (suffix = Some PresenceCache.BUNDLE_SHARE_V1) then share_v1_caps b
  else None.

(** [node]: the attribute of the query; the stanza has an id. *)
Definition iq_disco_cb (b : Bundles) (caps : GabbleCapabilitySet)
    (forms : option (list WockyDataForm)) (node : option string) : MC disco_reply :=
  let suffix := node ≫= suffix_of in
  if bool_decide (is_Some node) && bool_decide (suffix = None) then mret NotHandled
  else
    let result_query := set_opt (mkNode "query" None (Some NS_DISCO_INFO) [] []) "node" node in
    s ← get;
    info ← match suffix with
           | None => mret None
           | Some sfx => PresenceCache.gabble_presence_cache_peek_own_caps sfx
           end;
    let '(features, identities, data_forms) :=
      match node, info with
      | None, _ => (Some caps, None, forms)
      | Some _, Some i => (PresenceCache.info_cap_set i, PresenceCache.info_identities i,
                           PresenceCache.info_data_forms i)
      | Some _, None => (None, None, None)
      end in
    let result_query :=
      match default [] identities with
      | [] => default_identity_node result_query
      | l => foldl (λ n i, add_identity_node i n) result_query l
      end in
    let features := match features with Some f => Some f | None => bundle_features b suffix end in
    result_query ← lift (add_forms (default [] data_forms) result_query);
    match features with
    | None =>
        if bool_decide (suffix = Some "pmuc-v1") then mret (Reply result_query)
        else mret ItemNotFound
    | Some f =>
        mret (Reply (foldl (λ n v, add_feature_node v n) result_query
          (gabble_capability_set_foreach (PresenceCache.feature_pool s) f)))
    end.

End own.
End hash.
End CapsHash.
