(* ===== verification/CapsHashFacts.v ===== *)
(** * Capability hashes: what holds of them

    Sorting makes a verification string independent of the order the disco
    answer lists its parts in; what we announce is what our own answer hashes
    to; a string without "<" in its parts says what the parts were. *)

From stdpp Require Import sorting.
From S2P Require Import Prelude Node Namespaces Jid Capabilities Presence DataForm DataFormFacts PresenceCache CapsHash.

Module CapsHashFacts.
Import Capabilities DataForm DataFormFacts CapsHash.

(** ** Sorting *)

(** A comparison by a key in a total order. *)
Class TotalCmp {A} (cmp : A → A → comparison) := {
  cmp_opp x y : cmp x y = CompOpp (cmp y x);
  cmp_trans x y z : cmp x y ≠ Gt → cmp y z ≠ Gt → cmp x z ≠ Gt;
}.

(** Only equal elements compare as equal. *)
Class StrictCmp {A} (cmp : A → A → comparison) :=
  cmp_eq x y : cmp x y = Eq → x = y.

Section sorted.
Context {A : Type} (cmp : A → A → comparison) `{!TotalCmp cmp}.

Definition cmp_le (x y : A) : Prop := cmp x y ≠ Gt.

#[local] Instance cmp_le_trans : Transitive cmp_le.
Proof. intros x y z. apply cmp_trans. Qed.

Lemma insert_sorted_perm x l : insert_sorted cmp x l ≡ₚ x :: l.
Proof.
  induction l as [|y l IH]; [done|]. cbn. destruct (cmp x y); [done|done|].
  rewrite IH. apply Permutation_swap.
Qed.

Lemma sort_perm l : sort cmp l ≡ₚ l.
Proof. induction l as [|x l IH]; [done|]. cbn. by rewrite insert_sorted_perm, IH. Qed.

Lemma cmp_not_gt x y : cmp x y = Gt → cmp_le y x.
Proof. intros H. unfold cmp_le. by rewrite cmp_opp, H. Qed.

Lemma insert_sorted_hd y x l :
  cmp_le y x → HdRel cmp_le y l → HdRel cmp_le y (insert_sorted cmp x l).
Proof.
  intros Hx Hl. destruct l as [|z l]; [by constructor|]. cbn.
  destruct (cmp x z); constructor; try done; by inversion Hl.
Qed.

Lemma insert_sorted_sorted x l : Sorted cmp_le l → Sorted cmp_le (insert_sorted cmp x l).
Proof.
  induction 1 as [|y l Hl IH Hd]; [by repeat constructor|]. cbn.
  destruct (cmp x y) eqn:Hc; try (by repeat constructor; unfold cmp_le; rewrite ?Hc).
  constructor; [done|]. apply insert_sorted_hd; [by apply cmp_not_gt|done].
Qed.

Lemma sort_sorted l : Sorted cmp_le (sort cmp l).
Proof. induction l; [constructor|]. by apply insert_sorted_sorted. Qed.

Lemma sort_strongly_sorted l : StronglySorted cmp_le (sort cmp l).
Proof. apply Sorted_StronglySorted; [apply _|]. apply sort_sorted. Qed.

(** What is sorted does not depend on the order it came in. *)
Lemma sort_unique `{!StrictCmp cmp} l1 l2 : l1 ≡ₚ l2 → sort cmp l1 = sort cmp l2.
Proof.
  intros Hp. apply (StronglySorted_unique_strong cmp_le); try apply sort_strongly_sorted.
  - intros x y _ _ Hx Hy. unfold cmp_le in *. apply cmp_eq. rewrite cmp_opp in Hx.
    destruct (cmp x y) eqn:E; [done| |]; rewrite cmp_opp in E; destruct (cmp y x); done.
  - by rewrite !sort_perm.
Qed.

Lemma strongly_sorted_filter (P : A → bool) l :
  StronglySorted cmp_le l → StronglySorted cmp_le (List.filter P l).
Proof.
  induction 1 as [|x l Hl IH Hx]; [constructor|]. cbn. destruct (P x); [|done].
  constructor; [done|]. rewrite Forall_forall in Hx |- *.
  intros y [Hy _]%list_elem_of_In%List.filter_In. by apply Hx, list_elem_of_In.
Qed.
End sorted.

(** The sorting of a list whose keys compare as its elements do. *)
Lemma sort_fmap {A B} (g : A → B) (ca : A → A → comparison) (cb : B → B → comparison) l :
  (∀ x y, x ∈ l → y ∈ l → ca x y = cb (g x) (g y)) → g <$> sort ca l = sort cb (g <$> l).
Proof.
  intros Hc. induction l as [|x l IH]; [done|].
  change (g <$> insert_sorted ca x (sort ca l) = insert_sorted cb (g x) (sort cb (g <$> l))).
  rewrite <-IH by (intros; apply Hc; by right).
  assert (Hin : ∀ y, y ∈ sort ca l → ca x y = cb (g x) (g y)).
  { intros y Hy. apply Hc; [left|right]. by rewrite sort_perm in Hy. }
  clear IH Hc. induction (sort ca l) as [|y l' IH]; [done|]. cbn.
  rewrite <-Hin by left. destruct (ca x y); [done|done|]. cbn. f_equal.
  apply IH. intros z Hz. apply Hin. by right.
Qed.

(** ** Comparisons *)

#[export] Instance strcmp_total : TotalCmp strcmp.
Proof.
  split; [apply String.compare_antisym|].
  assert (H : ∀ x y, strcmp x y ≠ Gt ↔ String.le x y).
  { intros x y. unfold strcmp, String.le, String.leb. destruct (String.compare x y); cbn; naive_solver. }
  intros x y z. rewrite !H. apply transitivity.
Qed.

#[export] Instance strcmp_strict : StrictCmp strcmp.
Proof. intros x y. apply String.compare_eq_iff. Qed.

(** Comparing options, NULL first. *)
Definition opt_cmp {A} (cmp : A → A → comparison) (a b : option A) : comparison :=
  match a, b with
  | None, None => Eq
  | None, Some _ => Lt
  | Some _, None => Gt
  | Some a, Some b => cmp a b
  end.

#[export] Instance opt_cmp_total {A} (cmp : A → A → comparison) :
  TotalCmp cmp → TotalCmp (opt_cmp cmp).
Proof.
  intros Hc. split.
  - intros [x|] [y|]; cbn; [apply cmp_opp|done..].
  - intros [x|] [y|] [z|]; cbn; try done. apply cmp_trans.
Qed.

#[export] Instance opt_cmp_strict {A} (cmp : A → A → comparison) :
  StrictCmp cmp → StrictCmp (opt_cmp cmp).
Proof. intros Hc [x|] [y|]; cbn; [|done..]. by intros ->%cmp_eq. Qed.

(** Comparing by one key and then by another. *)
Definition lex_cmp {A B} (ca : A → A → comparison) (cb : B → B → comparison)
    (x y : A * B) : comparison := then_cmp (ca x.1 y.1) (cb x.2 y.2).

Lemma cmp_eq_between {A} (cmp : A → A → comparison) `{!TotalCmp cmp} x y z :
  cmp x z = Eq → cmp x y ≠ Gt → cmp y z ≠ Gt → cmp x y = Eq ∧ cmp y z = Eq.
Proof.
  intros Hxz Hxy Hyz.
  assert (Hzx : cmp z x ≠ Gt) by (by rewrite cmp_opp, Hxz).
  pose proof (cmp_trans y z x Hyz Hzx) as Hyx. pose proof (cmp_trans z x y Hzx Hxy) as Hzy.
  rewrite cmp_opp in Hyx, Hzy. by destruct (cmp x y), (cmp y z).
Qed.

#[export] Instance lex_cmp_total {A B} (ca : A → A → comparison) (cb : B → B → comparison) :
  TotalCmp ca → TotalCmp cb → TotalCmp (lex_cmp ca cb).
Proof.
  intros Ha Hb. split.
  - intros x y. unfold lex_cmp. rewrite (cmp_opp (cmp:=ca) x.1 y.1), (cmp_opp (cmp:=cb) x.2 y.2).
    by destruct (ca y.1 x.1).
  - intros x y z. unfold lex_cmp. destruct (ca x.1 z.1) eqn:E; cbn; [|done|].
    + intros Hx Hy. destruct (cmp_eq_between ca x.1 y.1 z.1 E) as [E1 E2].
      * intros E'. by rewrite E' in Hx.
      * intros E'. by rewrite E' in Hy.
      * rewrite E1 in Hx. rewrite E2 in Hy. by apply (cmp_trans _ y.2).
    + intros Hx Hy _. apply (cmp_trans (cmp:=ca) x.1 y.1 z.1); [| |done].
      * intros E'. by rewrite E' in Hx.
      * intros E'. by rewrite E' in Hy.
Qed.

#[export] Instance lex_cmp_strict {A B} (ca : A → A → comparison) (cb : B → B → comparison) :
  StrictCmp ca → StrictCmp cb → StrictCmp (lex_cmp ca cb).
Proof.
  intros Ha Hb [x1 x2] [y1 y2]. unfold lex_cmp; cbn. destruct (ca x1 y1) eqn:E; cbn; try done.
  apply cmp_eq in E as ->. by intros ->%cmp_eq.
Qed.

(** A comparison by a key. *)
Lemma key_cmp_total {A K} (k : A → K) (ck : K → K → comparison) (ca : A → A → comparison) :
  (∀ x y, ca x y = ck (k x) (k y)) → TotalCmp ck → TotalCmp ca.
Proof.
  intros H Hk. split; [intros x y|intros x y z]; rewrite !H; [apply cmp_opp|apply cmp_trans].
Qed.

(** The key a form is sorted by. *)
Definition form_key (f : WockyDataForm) : option (option string) :=
  first_value <$> fields_lookup f "FORM_TYPE".

Lemma dataforms_cmp_key f g :
  dataforms_cmp f g = opt_cmp (opt_cmp strcmp) (form_key f) (form_key g).
Proof.
  unfold dataforms_cmp, form_key.
  destruct (fields_lookup f "FORM_TYPE"), (fields_lookup g "FORM_TYPE"); done.
Qed.

#[export] Instance dataforms_cmp_total : TotalCmp dataforms_cmp.
Proof. apply (key_cmp_total _ _ _ dataforms_cmp_key). apply _. Qed.

(** The four strings an identity is sorted by and hashed as. *)
Definition identity_key (i : PresenceCache.WockyDiscoIdentity) : string * (string * (string * string)) :=
  (PresenceCache.category i, (PresenceCache.itype i,
    (str (PresenceCache.lang i), str (PresenceCache.iname i)))).
Definition key_string (k : string * (string * (string * string))) : string :=
  k.1 +:+ "/" +:+ k.2.1 +:+ "/" +:+ k.2.2.1 +:+ "/" +:+ k.2.2.2.

Lemma sort_identities l :
  identity_string <$> sort wocky_disco_identity_cmp l =
  key_string <$> sort (lex_cmp strcmp (lex_cmp strcmp (lex_cmp strcmp strcmp))) (identity_key <$> l).
Proof.
  rewrite <-(sort_fmap identity_key wocky_disco_identity_cmp) by done.
  by rewrite <-list_fmap_compose.
Qed.

(** ** The order of the parts *)

Lemma pair_faults_sym i j : pair_faults i j = pair_faults j i.
Proof.
  unfold pair_faults.
  rewrite (bool_decide_ext (PresenceCache.category i = _) _ (symmetry_iff _ _ _)).
  rewrite (bool_decide_ext (PresenceCache.itype i = _) _ (symmetry_iff _ _ _)).
  destruct (PresenceCache.lang i), (PresenceCache.lang j); try done.
  rewrite (bool_decide_ext (s = _) _ (symmetry_iff _ _ _)).
  by rewrite (orb_comm (bool_decide (PresenceCache.iname i = None))).
Qed.

#[export] Instance cmp_faults_proper : Proper ((≡ₚ) ==> (=)) cmp_faults.
Proof.
  intros l1 l2 Hp. induction Hp as [|x l1 l2 Hp IH|x y l|l1 l2 l3 _ IH1 _ IH2]; cbn.
  - done.
  - rewrite IH. f_equal. apply eq_true_iff_eq.
    rewrite !List.existsb_exists. by setoid_rewrite <-list_elem_of_In; setoid_rewrite Hp.
  - rewrite (pair_faults_sym y x).
    by destruct (pair_faults x y), (existsb (pair_faults x) l), (existsb (pair_faults y) l).
  - congruence.
Qed.

(** The forms that are not ignored. *)
Definition relevant (f : WockyDataForm) : bool :=
  match hash_form f with Ignored => false | _ => true end.

(** What a form that can be hashed contributes, under its name. *)
Definition form_parts (f : WockyDataForm) : option (string * list string) :=
  match hash_form f with
  | Hashed form_name (Some fs) => Some (form_name, fs)
  | _ => None
  end.

Lemma relevant_key f k fs : form_parts f = Some (k, fs) → relevant f = true ∧ form_key f = Some (Some k).
Proof.
  unfold form_parts, relevant, hash_form, form_key, first_value.
  destruct (fields_lookup f "FORM_TYPE") as [fd|]; [|done].
  destruct (negb _); [done|]. destruct (raw_value_contents fd) as [[|v [|? ?]]|] eqn:E; try done.
  destruct (hash_fields _); [|done]. intros [= -> ->]. cbn. by rewrite E.
Qed.

(** The names and what follows them, when every form that counts can be
    hashed. *)
Definition all_parts (l : list WockyDataForm) : option (list (string * list string)) :=
  mapM form_parts (List.filter relevant l).

(** [hash_forms] as a function of those alone. *)
Lemma hash_forms_spec l : ∀ names,
  hash_forms names l =
  ps ← all_parts l;
  if bool_decide (NoDup ps.*1 ∧ Forall (λ n, n ∉ names) ps.*1)
  then Some (concat ((λ p : string * list string, p.1 :: p.2) <$> ps)) else None.
Proof.
  induction l as [|f l IH]; intros names.
  { done. }
  unfold all_parts in *. cbn [hash_forms List.filter].
  assert (Hr : relevant f = match hash_form f with Ignored => false | _ => true end) by done.
  assert (Hp : form_parts f = match hash_form f with
                              | Hashed n (Some fs) => Some (n, fs) | _ => None end) by done.
  destruct (hash_form f) as [| |nm [fs|]]; rewrite Hr; [apply IH| | |]; cbn [mapM]; rewrite Hp; cbn.
  1: done.
  2: by destruct (bool_decide _).
  rewrite IH. destruct (mapM form_parts _) as [ps|]; cbn; [|by destruct (bool_decide _)].
  case_bool_decide as Hn.
  { rewrite bool_decide_eq_false_2; [done|]. intros [_ Ho]. by inversion Ho. }
  case_bool_decide as Hps; cbn.
  - rewrite bool_decide_eq_true_2; [done|]. destruct Hps as [Hnd Ho].
    rewrite Forall_forall in Ho. split; (constructor; [|]); try done.
    + intros Hin. specialize (Ho _ Hin). set_solver.
    + apply Forall_forall. intros n Hin. specialize (Ho _ Hin). set_solver.
  - rewrite bool_decide_eq_false_2; [done|]. intros [Hnd Ho]. apply Hps.
    inversion Hnd as [|? ? Hnin Hnd']. inversion Ho as [|? ? _ Ho']; subst. split; [done|].
    rewrite Forall_forall in Ho' |- *. intros n Hin.
    assert (n ≠ nm) by congruence. assert (n ∉ names) by by apply Ho'. set_solver.
Qed.

Lemma filter_perm {A} (P : A → bool) l1 l2 : l1 ≡ₚ l2 → List.filter P l1 ≡ₚ List.filter P l2.
Proof.
  induction 1; cbn; try done.
  - destruct (P x); by rewrite ?IHPermutation.
  - destruct (P x), (P y); try done. apply Permutation_swap.
  - by etrans.
Qed.

(** Two sortings of the same forms, when their names are distinct. *)
Lemma sorted_forms_unique l1 l2 ps :
  l1 ≡ₚ l2 → all_parts (sort dataforms_cmp l1) = Some ps → NoDup ps.*1 →
  List.filter relevant (sort dataforms_cmp l1) = List.filter relevant (sort dataforms_cmp l2).
Proof.
  intros Hp Hps Hnd.
  assert (Hfp : List.filter relevant (sort dataforms_cmp l1) ≡ₚ
                List.filter relevant (sort dataforms_cmp l2)).
  { apply filter_perm. by rewrite !sort_perm. }
  apply (StronglySorted_unique_strong (cmp_le dataforms_cmp)); [| | |done].
  2,3: apply strongly_sorted_filter, sort_strongly_sorted, _.
  unfold all_parts in Hps. set (l := List.filter relevant (sort dataforms_cmp l1)) in *.
  intros x y Hx Hy Hxy Hyx. rewrite <-Hfp in Hy. clearbody l. clear Hfp.
  apply mapM_Some in Hps.
  assert (Hk : form_key x = form_key y).
  { unfold cmp_le in *. rewrite dataforms_cmp_key in *.
    destruct (opt_cmp _ (form_key x) (form_key y)) eqn:E; [by apply cmp_eq in E| |done].
    rewrite cmp_opp in E. by destruct (opt_cmp _ (form_key y) (form_key x)). }
  apply list_elem_of_lookup in Hx as [i Hi], Hy as [j Hj].
  destruct (Forall2_lookup_l _ _ _ _ _ Hps Hi) as ([kx fx] & Hpi & Hfx).
  destruct (Forall2_lookup_l _ _ _ _ _ Hps Hj) as ([ky fy] & Hpj & Hfy).
  apply relevant_key in Hfx as [_ Ex], Hfy as [_ Ey].
  assert (kx = ky) as -> by congruence.
  assert (i = j) as ->; [|congruence].
  by apply (NoDup_lookup _ _ _ ky Hnd); rewrite list_lookup_fmap, ?Hpi, ?Hpj.
Qed.

Lemma all_parts_perm l1 l2 ps :
  l1 ≡ₚ l2 → all_parts l1 = Some ps → ∃ ps', all_parts l2 = Some ps' ∧ ps ≡ₚ ps'.
Proof.
  intros Hp. apply (filter_perm relevant) in Hp. unfold all_parts. intros Hps%mapM_Some.
  destruct (Permutation_Forall2 Hp Hps) as (ps' & Hpp & Hf).
  exists ps'. split; [by apply mapM_Some|done].
Qed.

Lemma hash_forms_perm l1 l2 :
  l1 ≡ₚ l2 → hash_forms ∅ (sort dataforms_cmp l1) = hash_forms ∅ (sort dataforms_cmp l2).
Proof.
  intros Hp. rewrite !hash_forms_spec.
  assert (Hs : sort dataforms_cmp l1 ≡ₚ sort dataforms_cmp l2) by by rewrite !sort_perm.
  destruct (all_parts (sort dataforms_cmp l1)) as [ps|] eqn:E1.
  - destruct (all_parts_perm _ _ _ Hs E1) as (ps' & E2 & Hps). rewrite E2. cbn.
    case_bool_decide as H1.
    + destruct H1 as [Hnd Ho]. pose proof (sorted_forms_unique _ _ _ Hp E1 Hnd) as Hu.
      unfold all_parts in *. rewrite Hu, E2 in E1. injection E1 as ->.
      by rewrite bool_decide_eq_true_2.
    + rewrite bool_decide_eq_false_2; [done|]. intros H2. apply H1.
      by rewrite Hps.
  - destruct (all_parts (sort dataforms_cmp l2)) as [ps|] eqn:E2; [|done].
    symmetry in Hs. destruct (all_parts_perm _ _ _ Hs E2) as (ps' & E & _). congruence.
Qed.

Lemma compute_from_lists_perm digest fs fs' ids ids' ds ds' :
  fs ≡ₚ fs' → ids ≡ₚ ids' → ds ≡ₚ ds' →
  wocky_caps_hash_compute_from_lists digest fs ids (Some ds) =
  wocky_caps_hash_compute_from_lists digest fs' ids' (Some ds').
Proof.
  intros Hf Hi Hd. unfold wocky_caps_hash_compute_from_lists. cbn [default from_option id].
  rewrite Hi, !sort_identities, (hash_forms_perm _ _ Hd).
  rewrite (sort_unique strcmp _ _ Hf).
  rewrite (sort_unique _ (identity_key <$> ids) (identity_key <$> ids')); [done|]. by rewrite Hi.
Qed.

(** An identity read from a node has all its strings. *)
Lemma node_identity_complete c i :
  node_identity c = Some i → is_Some (PresenceCache.lang i) ∧ is_Some (PresenceCache.iname i).
Proof.
  unfold node_identity. case_bool_decide; [|done].
  destruct (wocky_node_get_attribute c "category"); cbn; [|done]. intros [= <-]. cbn. eauto.
Qed.

Lemma pair_faults_complete i j :
  is_Some (PresenceCache.lang i) ∧ is_Some (PresenceCache.iname i) →
  is_Some (PresenceCache.lang j) ∧ is_Some (PresenceCache.iname j) → pair_faults i j = false.
Proof.
  intros [[li Hli] [ni Hni]] [[lj Hlj] [nj Hnj]]. unfold pair_faults.
  rewrite Hli, Hni, Hlj, Hnj. cbn. by rewrite !andb_false_r.
Qed.

Lemma cmp_faults_complete l :
  Forall (λ i, is_Some (PresenceCache.lang i) ∧ is_Some (PresenceCache.iname i)) l →
  cmp_faults l = false.
Proof.
  induction 1 as [|i l Hi Hl IH]; [done|]. cbn. rewrite IH, orb_false_r.
  apply not_true_is_false. intros (j & Hj & Hf)%List.existsb_exists.
  rewrite Forall_forall in Hl. apply list_elem_of_In, Hl in Hj.
  by rewrite pair_faults_complete in Hf.
Qed.

Lemma node_identities_complete l : cmp_faults (omap node_identity l) = false.
Proof.
  apply cmp_faults_complete, Forall_forall.
  intros i (c & _ & Hc)%list_elem_of_omap. by apply (node_identity_complete c).
Qed.

Lemma all_forms_mapM l :
  all_forms l = mapM (λ r, match r with inl f => Some f | inr _ => None end) l.
Proof. induction l as [|[f|e] l IH]; cbn; [done| |done]. by rewrite IH. Qed.

Lemma all_forms_perm l1 l2 :
  l1 ≡ₚ l2 →
  match all_forms l1, all_forms l2 with
  | Some fs, Some gs => fs ≡ₚ gs
  | None, None => True
  | _, _ => False
  end.
Proof.
  intros Hp. rewrite !all_forms_mapM.
  destruct (mapM _ l1) as [fs|] eqn:E1, (mapM _ l2) as [gs|] eqn:E2; try done.
  - apply mapM_Some in E1. destruct (Permutation_Forall2 Hp E1) as (gs' & Hg & Hf).
    apply mapM_Some in Hf. congruence.
  - apply mapM_Some in E1. destruct (Permutation_Forall2 Hp E1) as (gs' & Hg & Hf).
    apply mapM_Some in Hf. congruence.
  - symmetry in Hp. apply mapM_Some in E2. destruct (Permutation_Forall2 Hp E2) as (gs' & Hg & Hf).
    apply mapM_Some in Hf. congruence.
Qed.

(** C14: the hash of a disco answer can always be computed or
    refused (no comparison reads a string that is not there), and it depends
    only on what the answer lists: two answers with the same children, in
    whatever order identities, features and forms come, hash to the same
    string, or are both refused. *)
Theorem caps_hash_order digest (n1 n2 : WockyNode) :
  children n1 ≡ₚ children n2 →
  ∃ h, wocky_caps_hash_compute_from_node digest n1 = Ok h ∧
       wocky_caps_hash_compute_from_node digest n2 = Ok h.
Proof.
  intros Hp. unfold wocky_caps_hash_compute_from_node.
  assert (Hx : x_forms n1 ≡ₚ x_forms n2) by (unfold x_forms; by rewrite (filter_perm _ _ _ Hp)).
  apply all_forms_perm in Hx.
  destruct (all_forms (x_forms n1)) as [fs|], (all_forms (x_forms n2)) as [gs|]; try done; [|eauto].
  rewrite (compute_from_lists_perm digest _ (omap node_feature (children n2)) _
    (omap node_identity (children n2)) _ gs); [|by rewrite Hp..|done].
  unfold wocky_caps_hash_compute_from_lists. rewrite node_identities_complete. eauto.
Qed.

(** ** Forms that are hashed alike *)

Lemma sort_Forall2 {A B} (R : A → B → Prop) (ca : A → A → comparison) (cb : B → B → comparison) l l' :
  (∀ x y x' y', R x x' → R y y' → ca x y = cb x' y') →
  Forall2 R l l' → Forall2 R (sort ca l) (sort cb l').
Proof.
  intros Hc. induction 1 as [|x x' l l' Hx Hl IH]; [constructor|].
  change (Forall2 R (insert_sorted ca x (sort ca l)) (insert_sorted cb x' (sort cb l'))).
  clear Hl. induction IH as [|y y' k k' Hy Hk IHk]; cbn; [by repeat constructor|].
  rewrite <-(Hc x y x' y') by done. destruct (ca x y); by repeat constructor.
Qed.

Lemma filter_Forall2 {A B} (R : A → B → Prop) (p : A → bool) (q : B → bool) l l' :
  (∀ x x', R x x' → p x = q x') → Forall2 R l l' →
  Forall2 R (List.filter p l) (List.filter q l').
Proof.
  intros Hp. induction 1 as [|x x' l l' Hx Hl IH]; [constructor|]. cbn.
  rewrite <-(Hp x x') by done. destruct (p x); by try constructor.
Qed.

Lemma last_Forall2 {A B} (R : A → B → Prop) l l' : Forall2 R l l' → option_Forall2 R (last l) (last l').
Proof.
  induction 1 as [|x x' l l' Hx Hl IH]; [constructor|]. rewrite !last_cons.
  destruct IH; by constructor.
Qed.

(** Fields and forms that look the same. *)
Definition same_field (f g : WockyDataFormField) : Prop := view f = view g.
Definition same_form (f g : WockyDataForm) : Prop :=
  Forall2 same_field (fields_list f) (fields_list g).

Lemma same_form_views f g : view <$> fields_list f = view <$> fields_list g → same_form f g.
Proof.
  unfold same_form. generalize (fields_list f) (fields_list g). intros l.
  induction l as [|x l IH]; intros [|y l'] H; try done.
  rewrite !fmap_cons in H. apply (f_equal tail) in H as Hl. apply (f_equal head) in H as Hx.
  constructor; [unfold same_field; by apply (inj Some)|]. by apply IH.
Qed.

Lemma same_field_inv f g :
  same_field f g →
  var f = var g ∧ bool_decide (f_type f = HIDDEN) = bool_decide (f_type g = HIDDEN) ∧
  default [] (raw_value_contents f) = default [] (raw_value_contents g).
Proof. unfold same_field, view. by intros [= -> -> ->]. Qed.

Lemma hash_fields_same l l' : Forall2 same_field l l' → hash_fields l = hash_fields l'.
Proof.
  induction 1 as [|f g l l' (Hv & _ & Hr)%same_field_inv Hl IH]; [done|]. cbn.
  rewrite Hv, IH. destruct (var g) as [v|]; cbn; [|done]. case_bool_decide; [done|].
  destruct (raw_value_contents f) as [[|]|], (raw_value_contents g) as [[|]|];
    cbn in Hr; simplify_eq; done.
Qed.

Lemma lookup_same f g n :
  same_form f g → option_Forall2 same_field (fields_lookup f n) (fields_lookup g n).
Proof.
  intros H. apply last_Forall2. apply filter_Forall2; [|done].
  intros x y (Hv & _)%same_field_inv. unfold named_field. by rewrite Hv.
Qed.

Lemma hash_form_same f g : same_form f g → hash_form f = hash_form g.
Proof.
  intros H. unfold hash_form.
  rewrite (hash_fields_same _ (sort wocky_data_form_field_cmp (fields_list g))).
  2: { apply sort_Forall2; [|done]. intros x y x' y' (Hx & _)%same_field_inv (Hy & _)%same_field_inv.
       unfold wocky_data_form_field_cmp. by rewrite Hx, Hy. }
  destruct (lookup_same f g "FORM_TYPE" H) as [x y (_ & Hh & Hr)%same_field_inv|]; [|done].
  rewrite Hh. destruct (negb _); [done|].
  destruct (raw_value_contents x) as [[|? [|? ?]]|], (raw_value_contents y) as [[|? [|? ?]]|];
    cbn in Hr; simplify_eq; done.
Qed.

Lemma form_key_same f g : same_form f g → form_key f = form_key g.
Proof.
  intros H. unfold form_key.
  destruct (lookup_same f g "FORM_TYPE" H) as [x y (_ & _ & Hr)%same_field_inv|]; [|done].
  cbn. f_equal. unfold first_value.
  destruct (raw_value_contents x) as [[|]|], (raw_value_contents y) as [[|]|];
    cbn in Hr; simplify_eq; done.
Qed.

Lemma hash_forms_same l l' :
  Forall2 same_form l l' →
  hash_forms ∅ (sort dataforms_cmp l) = hash_forms ∅ (sort dataforms_cmp l').
Proof.
  intros H. apply (sort_Forall2 _ dataforms_cmp dataforms_cmp) in H.
  - generalize (∅ : gset string). induction H as [|f g k k' Hf Hk IH]; intros names; [done|].
    cbn. rewrite (hash_form_same f g Hf). destruct (hash_form g); [apply IH|done|].
    case_bool_decide; [done|]. by rewrite IH.
  - intros x y x' y' Hx Hy. by rewrite !dataforms_cmp_key, (form_key_same x x'), (form_key_same y y').
Qed.

(** ** What we answer to a disco query *)

Definition feature_node (q : WockyNode) (v : string) : WockyNode :=
  mkNode "feature" None (ns q) [mkAttribute "var" v None] [].

Definition portable_form (f : WockyDataForm) : Prop := Forall portable_field (fields_list f).

Lemma add_forms_portable l : ∀ n,
  Forall portable_form l → add_forms l n = Ok (set_children n (children n ++ (form_node <$> l))).
Proof.
  induction l as [|f l IH]; intros n Hl; cbn.
  { destruct n; unfold set_children; cbn. by rewrite app_nil_r. }
  apply Forall_cons in Hl as [Hf Hl]. rewrite add_to_node_portable by done.
  rewrite IH by done. unfold set_children; cbn. by rewrite <-app_assoc.
Qed.

Lemma add_features l : ∀ n,
  foldl (λ n v, add_feature_node v n) n l = set_children n (children n ++ (feature_node n <$> l)).
Proof.
  induction l as [|v l IH]; intros n; cbn.
  { destruct n; unfold set_children; cbn. by rewrite app_nil_r. }
  rewrite IH. unfold set_children; cbn. by rewrite <-app_assoc.
Qed.

Definition identity_node (q : WockyNode) (i : PresenceCache.WockyDiscoIdentity) : WockyNode :=
  mkNode "identity" None (ns q)
    ([mkAttribute "category" (PresenceCache.category i) None;
      mkAttribute "type" (PresenceCache.itype i) None] ++
     match PresenceCache.lang i with Some l => [mkAttribute "lang" l None] | None => [] end ++
     match PresenceCache.iname i with Some n => [mkAttribute "name" n None] | None => [] end) [].

Lemma add_identity_node_eq i n :
  add_identity_node i n = set_children n (children n ++ [identity_node n i]).
Proof.
  unfold add_identity_node, identity_node.
  destruct (PresenceCache.lang i), (PresenceCache.iname i); done.
Qed.

Lemma add_identities l : ∀ n,
  foldl (λ n i, add_identity_node i n) n l =
  set_children n (children n ++ (identity_node n <$> l)).
Proof.
  induction l as [|i l IH]; intros n; cbn.
  { destruct n; unfold set_children; cbn. by rewrite app_nil_r. }
  rewrite IH, add_identity_node_eq. unfold set_children; cbn. by rewrite <-app_assoc.
Qed.

(** The answer: identities, forms, features. *)
Definition answer_query (node : option string) (idents : list WockyNode)
    (forms : list WockyDataForm) (features : list string) : WockyNode :=
  let q := set_opt (mkNode "query" None (Some NS_DISCO_INFO) [] []) "node" node in
  set_children q (idents ++ (form_node <$> forms) ++ (feature_node q <$> features)).

Lemma query_ns node :
  ns (set_opt (mkNode "query" None (Some NS_DISCO_INFO) [] []) "node" node) = Some NS_DISCO_INFO.
Proof. by destruct node. Qed.

Lemma omap_none {A B} (f : A → option B) l : Forall (λ x, f x = None) l → omap f l = [].
Proof. induction 1 as [|x l Hx Hl IH]; [done|]. cbn. by rewrite Hx. Qed.

Lemma filter_none {A} (p : A → bool) l : Forall (λ x, p x = false) l → List.filter p l = [].
Proof. induction 1 as [|x l Hx Hl IH]; [done|]. cbn. by rewrite Hx. Qed.

Lemma filter_all {A} (p : A → bool) l : Forall (λ x, p x = true) l → List.filter p l = l.
Proof. induction 1 as [|x l Hx Hl IH]; [done|]. cbn. by rewrite Hx, IH. Qed.

Lemma read_forms l :
  Forall portable_form l →
  ∃ gs, all_forms (wocky_data_form_new_from_node <$> (form_node <$> l)) = Some gs ∧
        Forall2 same_form gs l.
Proof.
  induction 1 as [|f l Hf Hl (gs & Hgs & Hs)]; [by exists []|].
  destruct (read_form_node f Hf) as (g & Hg & Hv). exists (g :: gs).
  rewrite !fmap_cons, Hg. cbn [all_forms]. rewrite Hgs. split; [done|].
  constructor; [by apply same_form_views|done].
Qed.

(** What it hashes to is what it was made of. *)
Lemma answer_hash digest node idents forms features :
  Forall (λ c, name c = "identity" ∧ ns c = Some NS_DISCO_INFO) idents →
  Forall portable_form forms →
  wocky_caps_hash_compute_from_node digest (answer_query node idents forms features) =
  wocky_caps_hash_compute_from_lists digest features (omap node_identity idents) (Some forms).
Proof.
  intros Hi Hf. unfold wocky_caps_hash_compute_from_node, x_forms, answer_query.
  cbn [children set_children]. set (q := set_opt _ _ _).
  rewrite !omap_app, !List.filter_app.
  rewrite (omap_none node_identity (form_node <$> forms)), (omap_none node_identity (feature_node q <$> _))
    by (apply Forall_fmap, Forall_true; done).
  rewrite (omap_none node_feature idents)
    by (eapply Forall_impl; [exact Hi|]; intros c [Hn _]; unfold node_feature; by rewrite Hn).
  rewrite (omap_none node_feature (form_node <$> forms)) by (apply Forall_fmap, Forall_true; done).
  rewrite (filter_none _ idents), (filter_none _ (feature_node q <$> _)).
  2: { apply Forall_fmap, Forall_true. intros v. by destruct node. }
  2: { eapply Forall_impl; [exact Hi|]. intros c [Hn _]. unfold node_compare_child.
       by rewrite Hn, andb_false_r. }
  rewrite (filter_all _ (form_node <$> forms)) by (apply Forall_fmap, Forall_true; done).
  rewrite !app_nil_r, !app_nil_l.
  assert (Hfs : omap node_feature (feature_node q <$> features) = features).
  { clear. induction features as [|v l IH]; [done|]. cbn in *. by rewrite IH. }
  rewrite Hfs. destruct (read_forms forms Hf) as (gs & Hgs & Hs). rewrite Hgs.
  unfold wocky_caps_hash_compute_from_lists. cbn [default from_option id].
  by rewrite (hash_forms_same _ _ Hs).
Qed.

(** ** Announcing and answering *)

Lemma suffix_of_ours ver : ver ≠ EmptyString → suffix_of (caps_prefix +:+ ver) = Some ver.
Proof.
  intros Hv. unfold suffix_of. rewrite str_prefix_app, str_length_app.
  rewrite (proj2 (Nat.ltb_lt _ _)) by (destruct ver; [done|cbn; lia]).
  cbn [andb]. rewrite (Nat.add_comm (String.length caps_prefix)), Nat.add_sub.
  by rewrite str_substring_app.
Qed.

Lemma compute_keys digest fs ids ids' fms :
  identity_key <$> ids = identity_key <$> ids' → cmp_faults ids = false → cmp_faults ids' = false →
  wocky_caps_hash_compute_from_lists digest fs ids fms =
  wocky_caps_hash_compute_from_lists digest fs ids' fms.
Proof.
  intros Hk H1 H2. unfold wocky_caps_hash_compute_from_lists.
  by rewrite H1, H2, !sort_identities, Hk.
Qed.

Lemma copy_caps caps : gabble_capability_set_copy caps = caps.
Proof.
  destruct caps as [h]. unfold gabble_capability_set_copy, gabble_capability_set_update. cbn.
  f_equal. set_solver.
Qed.

Lemma replace_caps old caps :
  gabble_capability_set_update (gabble_capability_set_clear old) caps = caps.
Proof. destruct caps as [h]. unfold gabble_capability_set_update. cbn. f_equal. set_solver. Qed.

Section own.
Context {L R C : Type} `{HandleRepo R} `{PresenceCache.CapsCache C}.
Context (digest : string → string) (CLIENT_TYPE PACKAGE_STRING : string).
Local Abbreviation Cache := (PresenceCache.GabblePresenceCache WockyDataForm L R C).
Local Abbreviation uri_of ver := (PresenceCache.NS_GABBLE_CAPS +:+ "#" +:+ ver).

(** No entry of the cache for that hash is one of ours already. *)
Definition not_ours (s : Cache) (ver : string) : Prop :=
  match PresenceCache.capabilities s !! (uri_of ver) with
  | Some info => PresenceCache.complete info = false
  | None => True
  end.

(** The entry that adding our own capabilities makes. *)
Definition ours (s : Cache) (ver : string) (caps : GabbleCapabilitySet)
    (ids : option (list PresenceCache.WockyDiscoIdentity)) (forms : option (list WockyDataForm)) : Prop :=
  ∃ info, PresenceCache.capabilities s !! (uri_of ver) = Some info ∧
    PresenceCache.complete info = true ∧ PresenceCache.info_cap_set info = Some caps ∧
    PresenceCache.info_identities info = ids ∧ PresenceCache.info_data_forms info = forms.

Lemma info_get_known uri (s : Cache) info :
  PresenceCache.capabilities s !! uri = Some info →
  PresenceCache.capability_info_get uri s = Ok (info, s).
Proof. intros E. unfold PresenceCache.capability_info_get, mbind, M_bind, get. by rewrite E. Qed.

Lemma info_get_new uri (s : Cache) :
  PresenceCache.capabilities s !! uri = None →
  ∃ s', PresenceCache.capability_info_get uri s = Ok (PresenceCache.no_info, s') ∧
        PresenceCache.feature_pool s' = PresenceCache.feature_pool s.
Proof.
  intros E. unfold PresenceCache.capability_info_get, mbind, M_bind, get. rewrite E.
  by eexists.
Qed.

Lemma add_own_caps_ours c (s : Cache) ver caps ids forms :
  not_ours s ver →
  ∃ s', PresenceCache.gabble_presence_cache_add_own_caps c ver caps ids forms s = Ok (tt, s') ∧
        ours s' ver caps ids forms ∧ PresenceCache.feature_pool s' = PresenceCache.feature_pool s.
Proof.
  intros Hn. unfold not_ours in Hn.
  assert (∃ info s1, PresenceCache.capability_info_get (uri_of ver) s = Ok (info, s1) ∧
    PresenceCache.complete info = false ∧
    PresenceCache.feature_pool s1 = PresenceCache.feature_pool s) as (info & s1 & Hg & Hc & Hp).
  { destruct (PresenceCache.capabilities s !! _) as [info|] eqn:E.
    - exists info, s. by rewrite (info_get_known _ _ _ E).
    - destruct (info_get_new _ _ E) as (s1 & ? & ?). by eexists _, s1. }
  unfold PresenceCache.gabble_presence_cache_add_own_caps.
  rewrite (bind_eq _ _ _ _ _ Hg), Hc. eexists. split; [reflexivity|]. split; [|exact Hp].
  unfold ours. cbn [PresenceCache.capabilities]. rewrite lookup_insert_eq.
  eexists. split; [reflexivity|].
  destruct (PresenceCache.info_cap_set info); cbn; by rewrite ?copy_caps, ?replace_caps.
Qed.

Lemma info_get_others uri uri' (s s1 : Cache) info :
  PresenceCache.capability_info_get uri s = Ok (info, s1) → uri' ≠ uri →
  PresenceCache.capabilities s1 !! uri' = PresenceCache.capabilities s !! uri'.
Proof.
  unfold PresenceCache.capability_info_get, mbind, M_bind, get.
  destruct (PresenceCache.capabilities s !! uri); [by intros [= _ <-]|].
  intros [= _ <-] Hne. cbn. by rewrite lookup_insert_ne.
Qed.

Lemma add_own_caps_others c (s s' : Cache) ver caps ids forms uri :
  PresenceCache.gabble_presence_cache_add_own_caps c ver caps ids forms s = Ok (tt, s') →
  uri ≠ uri_of ver → PresenceCache.capabilities s' !! uri = PresenceCache.capabilities s !! uri.
Proof.
  intros (info & s1 & Hg & Hrun)%bind_Ok Hne.
  rewrite <- (info_get_others _ _ _ _ _ Hg Hne).
  destruct (PresenceCache.complete info); [by injection Hrun as <-|].
  injection Hrun as <-. cbn. by rewrite lookup_insert_ne.
Qed.

(** The identities of an answer: those of the entry, or our own. *)
Definition reply_identities (q : WockyNode)
    (ids : option (list PresenceCache.WockyDiscoIdentity)) : list WockyNode :=
  match default [] ids with
  | [] => [mkNode "identity" None (ns q)
             [mkAttribute "category" "client" None; mkAttribute "name" PACKAGE_STRING None;
              mkAttribute "type" CLIENT_TYPE None] []]
  | l => identity_node q <$> l
  end.

Lemma iq_disco_ours b caps0 forms0 (s : Cache) ver caps ids forms :
  ver ≠ EmptyString → ours s ver caps ids forms → Forall portable_form (default [] forms) →
  let node := Some (caps_prefix +:+ ver) in
  let q := set_opt (mkNode "query" None (Some NS_DISCO_INFO) [] []) "node" node in
  iq_disco_cb CLIENT_TYPE PACKAGE_STRING b caps0 forms0 node s =
  Ok (Reply (answer_query node (reply_identities q ids) (default [] forms)
               (gabble_capability_set_foreach (PresenceCache.feature_pool s) caps)), s).
Proof.
  intros Hv (info & Hg & Hc & Hcaps & Hids & Hforms) Hp node q.
  unfold iq_disco_cb. subst node. cbn [mbind option_bind]. rewrite suffix_of_ours by done.
  cbn [is_Some]. rewrite (bool_decide_eq_false_2 (Some ver = None)) by done. rewrite andb_false_r.
  rewrite (bind_eq _ _ s s s) by done.
  rewrite (bind_eq _ _ s (Some info) s).
  2: { unfold PresenceCache.gabble_presence_cache_peek_own_caps.
       rewrite (bind_eq _ _ _ _ _ (info_get_known _ _ _ Hg)), Hc, Hcaps. done. }
  rewrite Hcaps, Hids, Hforms.
  rewrite (bind_eq _ _ s (set_children q (reply_identities q ids ++ (form_node <$> default [] forms))) s).
  - rewrite add_features. unfold answer_query, mret, M_ret. fold q.
    unfold set_children. cbn [children name content ns attributes]. by rewrite <-app_assoc.
  - unfold lift, reply_identities. destruct (default [] ids) as [|i l] eqn:El.
    + by rewrite add_forms_portable.
    + rewrite add_identities, add_forms_portable by done. done.
Qed.

(** An identity that names no language. *)
Definition no_language (i : PresenceCache.WockyDiscoIdentity) : Prop :=
  str (PresenceCache.lang i) = EmptyString.

(** The identities of the entry, as the hash reads them: our own when there
    are none. *)
Definition effective (ids : option (list PresenceCache.WockyDiscoIdentity)) :
    list PresenceCache.WockyDiscoIdentity :=
  match default [] ids with [] => [own_identity CLIENT_TYPE PACKAGE_STRING] | l => l end.

Lemma reply_identities_keys q ids :
  Forall no_language (default [] ids) →
  identity_key <$> omap node_identity (reply_identities q ids) = identity_key <$> effective ids.
Proof.
  unfold reply_identities, effective. destruct (default [] ids) as [|i l]; [done|].
  generalize (i :: l). clear i l. induction 1 as [|i l Hi Hl IH]; [done|].
  assert (Hni : ∃ j, node_identity (identity_node q i) = Some j ∧ identity_key j = identity_key i).
  { unfold node_identity, identity_node, identity_key. rewrite Hi.
    destruct (PresenceCache.lang i), (PresenceCache.iname i); by eexists. }
  destruct Hni as (j & Hj & Hk). rewrite !fmap_cons, <-IH, <-Hk.
  cbn [omap list_omap]. by rewrite Hj.
Qed.

Lemma answer_hash_ours node ids forms features ver :
  Forall no_language (default [] ids) → Forall portable_form (default [] forms) →
  wocky_caps_hash_compute_from_lists digest features (effective ids) forms = Ok (Some ver) →
  let q := set_opt (mkNode "query" None (Some NS_DISCO_INFO) [] []) "node" node in
  wocky_caps_hash_compute_from_node digest
    (answer_query node (reply_identities q ids) (default [] forms) features) = Ok (Some ver).
Proof.
  intros Hl Hp Hver q. rewrite answer_hash; [|..|done].
  - rewrite (compute_keys _ _ _ (effective ids)).
    + rewrite <-Hver. by destruct forms.
    + by apply reply_identities_keys.
    + apply node_identities_complete.
    + unfold wocky_caps_hash_compute_from_lists in Hver. by destruct (cmp_faults (effective ids)).
  - unfold reply_identities. destruct (default [] ids); apply Forall_forall.
    + intros c ->%list_elem_of_singleton. split; [done|]. apply query_ns.
    + intros c (i & -> & _)%list_elem_of_fmap. split; [done|]. apply query_ns.
Qed.

(** Whatever is marked as ours in the cache hashes to the name it is under. *)
Definition coherent (s : Cache) : Prop :=
  ∀ ver info, PresenceCache.capabilities s !! (uri_of ver) = Some info →
    PresenceCache.complete info = true →
    ∃ caps, PresenceCache.info_cap_set info = Some caps ∧
      Forall no_language (default [] (PresenceCache.info_identities info)) ∧
      Forall portable_form (default [] (PresenceCache.info_data_forms info)) ∧
      wocky_caps_hash_compute_from_lists digest
        (gabble_capability_set_foreach (PresenceCache.feature_pool s) caps)
        (effective (PresenceCache.info_identities info)) (PresenceCache.info_data_forms info)
        = Ok (Some ver).

Lemma uri_of_inj ver ver' : uri_of ver = uri_of ver' → ver = ver'.
Proof. intros E. by apply (inj (String.append "#")), (inj (String.append PresenceCache.NS_GABBLE_CAPS)). Qed.

Lemma coherent_init pool contacts cache avatar :
  coherent (PresenceCache.gabble_presence_cache_init pool contacts cache avatar).
Proof. intros ver info E. cbn in E. by rewrite lookup_empty in E. Qed.

(** Adding our own capabilities keeps it, and there is an entry of ours under
    the hash afterwards, the one that was there before or a new one. *)
Lemma add_own_caps_coherent c (s : Cache) ver caps forms :
  coherent s → Forall portable_form (default [] forms) →
  caps_hash_compute_from_self_presence digest CLIENT_TYPE PACKAGE_STRING
    (PresenceCache.feature_pool s) caps forms = Ok (Some ver) →
  ∃ s', PresenceCache.gabble_presence_cache_add_own_caps c ver caps None forms s = Ok (tt, s') ∧
    coherent s' ∧ PresenceCache.feature_pool s' = PresenceCache.feature_pool s ∧
    ∃ caps' ids' forms', ours s' ver caps' ids' forms'.
Proof.
  intros Hco Hp Hver. set (uri := uri_of ver).
  assert (Hcase : not_ours s ver ∨ ∃ info, PresenceCache.capabilities s !! uri = Some info ∧
            PresenceCache.complete info = true).
  { unfold not_ours. fold uri. destruct (PresenceCache.capabilities s !! uri) as [info|]; [|by left].
    destruct (PresenceCache.complete info) eqn:E; [right; eauto|by left]. }
  destruct Hcase as [Hn|(info & Hi & Hc)].
  - destruct (add_own_caps_ours c s ver caps None forms Hn) as (s' & Ha & Ho & Hpool).
    exists s'. split_and!; [done| |done|by eexists _, _, _].
    destruct Ho as (info & Hi & Hc & Hcaps & Hids & Hforms).
    intros ver' info' Hi' Hc'. destruct (decide (ver' = ver)) as [->|Hne].
    + rewrite Hi in Hi'. injection Hi' as <-. exists caps. rewrite Hids, Hforms, Hpool.
      split_and!; [done|constructor|done|exact Hver].
    + rewrite Hpool. apply Hco; [|done]. rewrite <- Hi'. symmetry.
      apply (add_own_caps_others c s s' ver caps None forms); [done|]. by intros ?%uri_of_inj.
  - exists s. split_and!; [|done..|].
    + unfold PresenceCache.gabble_presence_cache_add_own_caps.
      by rewrite (bind_eq _ _ _ _ _ (info_get_known _ _ _ Hi)), Hc.
    + destruct (Hco ver info Hi Hc) as (caps' & Hcaps & _). eexists caps', _, _. by exists info.
Qed.

(** C13: what we announce can be verified.  The presence we send names the
    hash of our capabilities and, asked for the node it names, we answer with
    identities, features and forms that hash to exactly that; for every set of
    capabilities and all forms whose fields are [portable_field]s, when the
    digest is never empty, the hash can be computed, and what the cache has
    marked as ours hashes to its name, which is so at first
    ([coherent_init]) and is so afterwards. *)
Theorem own_caps_verify c b (s : Cache) caps forms presence ver :
  (∀ x, digest x ≠ EmptyString) →
  Forall portable_form (default [] forms) →
  caps_hash_compute_from_self_presence digest CLIENT_TYPE PACKAGE_STRING
    (PresenceCache.feature_pool s) caps forms = Ok (Some ver) →
  coherent s →
  ∃ s' msg cn n q,
    gabble_connection_fill_in_caps digest CLIENT_TYPE PACKAGE_STRING c caps forms presence s =
      Ok (msg, s') ∧
    last (children msg) = Some cn ∧ name cn = "c" ∧ ns cn = Some PresenceCache.NS_CAPS ∧
    wocky_node_get_attribute cn "node" = Some n ∧ wocky_node_get_attribute cn "ver" = Some ver ∧
    iq_disco_cb CLIENT_TYPE PACKAGE_STRING b caps forms (Some (n +:+ "#" +:+ ver)) s' =
      Ok (Reply q, s') ∧
    wocky_caps_hash_compute_from_node digest q = Ok (Some ver) ∧
    coherent s'.
Proof.
  intros Hd Hp Hver Hco.
  assert (Hv : ver ≠ EmptyString).
  { unfold caps_hash_compute_from_self_presence, wocky_caps_hash_compute_from_lists in Hver.
    destruct (cmp_faults _); [done|]. destruct (hash_forms _ _); cbn in Hver; [|done].
    injection Hver as <-. apply Hd. }
  destruct (add_own_caps_coherent c s ver caps forms Hco Hp Hver)
    as (s' & Ha & Hco' & Hpool & caps' & ids' & forms' & Ho).
  unfold gabble_connection_fill_in_caps. rewrite (bind_eq _ _ s s s) by done.
  rewrite (bind_eq _ _ s (Some ver) s) by (unfold lift; by rewrite Hver).
  rewrite (bind_eq _ _ _ _ _ Ha). eexists s', _, _, PresenceCache.NS_GABBLE_CAPS, _.
  split; [reflexivity|]. cbn [children set_children]. rewrite last_snoc.
  do 5 (split; [reflexivity|]).
  pose proof Ho as (info & Hi & Hc & Hcaps & Hids & Hforms).
  destruct (Hco' ver info Hi Hc) as (caps1 & Hcaps1 & Hl & Hf & Hh).
  rewrite Hcaps in Hcaps1. injection Hcaps1 as <-. rewrite Hids in Hl, Hh. rewrite Hforms in Hf, Hh.
  split_and!; [|by apply answer_hash_ours|done].
  apply (iq_disco_ours b caps forms s' ver caps' ids' forms' Hv Ho Hf).
Qed.

(** What a plug-in announces can be verified too: for identities
    that name no language, the answer to the node of the hash it was given
    hashes to that hash. *)
Theorem sidecar_caps_verify c b (s : Cache) caps0 forms0 caps ids forms ver :
  (∀ x, digest x ≠ EmptyString) →
  Forall no_language (default [] ids) → Forall portable_form (default [] forms) →
  gabble_caps_hash_compute_full digest (PresenceCache.feature_pool s) caps (Some (effective ids)) forms
    = Ok (Some ver) →
  not_ours s ver →
  ∃ s' q,
    gabble_connection_add_sidecar_own_caps_full digest CLIENT_TYPE PACKAGE_STRING c caps ids forms s =
      Ok (Some ver, s') ∧
    iq_disco_cb CLIENT_TYPE PACKAGE_STRING b caps0 forms0 (Some (caps_prefix +:+ ver)) s' =
      Ok (Reply q, s') ∧
    wocky_caps_hash_compute_from_node digest q = Ok (Some ver).
Proof.
  intros Hd Hl Hp Hver Hn.
  assert (Hv : ver ≠ EmptyString).
  { unfold gabble_caps_hash_compute_full, wocky_caps_hash_compute_from_lists in Hver.
    destruct (cmp_faults _); [done|]. destruct (hash_forms _ _); cbn in Hver; [|done].
    injection Hver as <-. apply Hd. }
  destruct (add_own_caps_ours c s ver caps (Some (effective ids)) forms Hn) as (s' & Ha & Ho & Hpool).
  unfold gabble_connection_add_sidecar_own_caps_full. rewrite (bind_eq _ _ s s s) by done.
  rewrite (bind_eq _ _ s (Some ver) s)
    by (unfold lift; unfold effective in Hver; by rewrite Hver).
  cbn [default from_option id]. rewrite (bind_eq _ _ _ _ _ Ha).
  eexists s', _. split; [reflexivity|]. split.
  - apply (iq_disco_ours b caps0 forms0 s' ver caps _ forms Hv Ho Hp).
  - assert (He : effective (Some (effective ids)) = effective ids).
    { unfold effective. cbn. by destruct (default [] ids). }
    apply answer_hash_ours; [|done|by rewrite Hpool, He].
    unfold effective. destruct (default [] ids); [|exact Hl]. by repeat constructor.
Qed.
End own.

(** ** Reading a verification string back *)

Fixpoint no_lt (s : string) : bool :=
  match s with
  | EmptyString => true
  | String a s' => negb (bool_decide (a = "<"%char)) && no_lt s'
  end.

Lemma parts_cons s l : parts (s :: l) = s +:+ "<" +:+ parts l.
Proof.
  unfold parts. rewrite fmap_cons. unfold part at 1. cbn [String.concat].
  destruct (part <$> l); [done|]. by rewrite Jid.string_app_assoc.
Qed.

Lemma first_part_unique s s' t t' :
  no_lt s = true → no_lt s' = true → s +:+ "<" +:+ t = s' +:+ "<" +:+ t' → s = s' ∧ t = t'.
Proof.
  revert s'. induction s as [|a s IH]; intros [|a' s'] Hs Hs' He; rewrite ?str_cons_app in He; cbn in *.
  - split; [done|]. by injection He.
  - injection He as <- _. by cbn in Hs'.
  - injection He as -> _. by cbn in Hs.
  - injection He as -> He. apply andb_true_iff in Hs as [_ Hs], Hs' as [_ Hs'].
    by destruct (IH _ Hs Hs' He) as [-> ->].
Qed.

(** The string that is hashed determines its parts: when no identity, feature,
    form name, field name or value contains a "<", two lists of parts with the
    same verification string are the same list. *)
Theorem caps_string_parts l1 l2 :
  forallb no_lt l1 = true → forallb no_lt l2 = true → parts l1 = parts l2 → l1 = l2.
Proof.
  revert l2. induction l1 as [|s l1 IH]; intros [|s' l2] H1 H2 He; [done| | |].
  - rewrite parts_cons in He. by destruct s'.
  - rewrite parts_cons in He. by destruct s.
  - rewrite !parts_cons in He. apply andb_true_iff in H1 as [Hs H1], H2 as [Hs' H2].
    destruct (first_part_unique _ _ _ _ Hs Hs' He) as [-> Ht]. f_equal. by apply IH.
Qed.

Lemma caps_string_parts_witness :
  parts ["client/pc//Gabble"; "urn:f"] = parts ["client/pc//Gabble"; "urn:f"] ∧
  ["client/pc//Gabble"; "urn:f"] = ["client/pc//Gabble"; "urn:f"].
Proof. split; [reflexivity|]. apply caps_string_parts; reflexivity. Defined.

(** With one it does not: two answers that list different features, and hash
    alike whatever the digest. *)
Lemma caps_string_ambiguous digest :
  let answer l := mkNode "query" None (Some NS_DISCO_INFO) []
    ((λ v, mkNode "feature" None None [mkAttribute "var" v None] []) <$> l) in
  wocky_caps_hash_compute_from_node digest (answer ["a<b"]) =
  wocky_caps_hash_compute_from_node digest (answer ["a"; "b"]).
Proof. reflexivity. Qed.

(** ** Runs *)

Module Runs.
Abbreviation RunCache := (PresenceCache.GabblePresenceCache WockyDataForm unit (list string) (gmap string WockyNode)).

Definition start : RunCache := PresenceCache.gabble_presence_cache_init ["urn:a"; "urn:b"] [] ∅ None.
Definition conn : PresenceCache.Conn :=
  PresenceCache.mkConn PresenceCache.CONNECTED 1 "me@x/here" false (λ _, true) 100.
Definition bundles : Bundles := mkBundles None None None None None None None None None None None None None None.
Definition caps : GabbleCapabilitySet := mkCapSet {[1; 2]}.
Definition software : WockyDataForm :=
  (wocky_data_form_set_strv (wocky_data_form_set_type (wocky_data_form_init None None) "urn:soft").1
     "os" ["b"; "a"] true).1.
Definition digest (s : string) : string := "h" +:+ s.
Definition hash_now : string :=
  match caps_hash_compute_from_self_presence digest "pc" "gabble" (PresenceCache.feature_pool start)
          caps (Some [software]) with
  | Ok (Some v) => v
  | _ => EmptyString
  end.

Lemma software_portable : Forall portable_form [software].
Proof.
  constructor; [|constructor]. repeat (constructor; [split; [by eexists|by eexists]|]). constructor.
Qed.

Lemma start_not_ours ver : not_ours start ver.
Proof. done. Qed.

(** The same capabilities were announced before. *)
Definition announced : RunCache :=
  match gabble_connection_fill_in_caps digest "pc" "gabble" conn caps (Some [software])
          (mkNode "presence" None None [] []) start with
  | Ok (_, s) => s
  | Abort _ => start
  end.

Lemma announced_coherent : coherent digest "pc" "gabble" announced.
Proof.
  destruct (add_own_caps_coherent digest "pc" "gabble" conn start hash_now caps (Some [software]))
    as (s' & Ha & Hco & _); [apply coherent_init|apply software_portable|vm_compute; reflexivity|].
  replace announced with s'; [done|].
  assert (E : PresenceCache.gabble_presence_cache_add_own_caps conn hash_now caps None (Some [software]) start
    = Ok (tt, announced)) by (vm_compute; reflexivity).
  rewrite Ha in E. by injection E.
Qed.

Lemma own_caps_verify_witness :
  hash_now = "hclient/pc//gabble<urn:a<urn:b<urn:soft<os<a<b<" ∧
  ∃ s' msg cn n q,
    gabble_connection_fill_in_caps digest "pc" "gabble" conn caps (Some [software])
      (mkNode "presence" None None [] []) announced = Ok (msg, s') ∧
    last (children msg) = Some cn ∧ name cn = "c" ∧ ns cn = Some PresenceCache.NS_CAPS ∧
    wocky_node_get_attribute cn "node" = Some n ∧ wocky_node_get_attribute cn "ver" = Some hash_now ∧
    iq_disco_cb "pc" "gabble" bundles caps (Some [software]) (Some (n +:+ "#" +:+ hash_now)) s' =
      Ok (Reply q, s') ∧
    wocky_caps_hash_compute_from_node digest q = Ok (Some hash_now) ∧
    coherent digest "pc" "gabble" s'.
Proof.
  split; [vm_compute; reflexivity|].
  apply own_caps_verify; [done|apply software_portable|vm_compute; reflexivity|apply announced_coherent].
Defined.

Definition automaton : PresenceCache.WockyDiscoIdentity :=
  PresenceCache.mkIdentity "automation" "rpc" None (Some "Robot").
Definition sidecar_hash : string := "hautomation/rpc//Robot<urn:a<urn:b<urn:soft<os<a<b<".

Lemma sidecar_caps_verify_witness :
  ∃ s' q,
    gabble_connection_add_sidecar_own_caps_full digest "pc" "gabble" conn caps (Some [automaton])
      (Some [software]) start = Ok (Some sidecar_hash, s') ∧
    iq_disco_cb "pc" "gabble" bundles caps None (Some (caps_prefix +:+ sidecar_hash)) s' =
      Ok (Reply q, s') ∧
    wocky_caps_hash_compute_from_node digest q = Ok (Some sidecar_hash).
Proof.
  apply sidecar_caps_verify;
    [done|by repeat constructor|apply software_portable|vm_compute; reflexivity|apply start_not_ours].
Defined.

Definition two_features : WockyNode :=
  mkNode "query" None (Some NS_DISCO_INFO) []
    [feature_node (mkNode "query" None (Some NS_DISCO_INFO) [] []) "urn:a";
     feature_node (mkNode "query" None (Some NS_DISCO_INFO) [] []) "urn:b"; form_node software].
Definition two_features_reversed : WockyNode :=
  set_children two_features (reverse (children two_features)).

Lemma caps_hash_order_witness :
  ∃ h, wocky_caps_hash_compute_from_node digest two_features = Ok h ∧
       wocky_caps_hash_compute_from_node digest two_features_reversed = Ok h.
Proof. apply caps_hash_order. symmetry. apply reverse_Permutation. Defined.

(** An identity with a language does not verify: it is hashed with its
    language and sent with an attribute "lang" that nobody reads, so for every
    digest without collisions the answer hashes to something else. *)
Theorem sidecar_language_unverifiable (d : string → string) :
  (∀ x y, d x = d y → x = y) → (∀ x, d x ≠ EmptyString) →
  let ids := Some [PresenceCache.mkIdentity "client" "pc" (Some "en") (Some "Robot")] in
  ∃ ver s' q,
    gabble_connection_add_sidecar_own_caps_full d "pc" "gabble" conn caps ids None start =
      Ok (Some ver, s') ∧
    iq_disco_cb "pc" "gabble" bundles caps None (Some (caps_prefix +:+ ver)) s' = Ok (Reply q, s') ∧
    wocky_caps_hash_compute_from_node d q ≠ Ok (Some ver).
Proof.
  intros Hinj Hne ids. set (ver := d "client/pc/en/Robot<urn:a<urn:b<").
  destruct (add_own_caps_ours conn start ver caps ids None (start_not_ours ver))
    as (s' & Ha & Ho & Hpool).
  exists ver, s'. eexists. split; [|split].
  - unfold gabble_connection_add_sidecar_own_caps_full.
    rewrite (bind_eq _ _ start start start) by done.
    rewrite (bind_eq _ _ start (Some ver) start) by (vm_compute; reflexivity).
    cbn [default from_option id]. by rewrite (bind_eq _ _ _ _ _ Ha).
  - by apply (iq_disco_ours "pc" "gabble" bundles caps None s' ver caps ids None (Hne _) Ho).
  - rewrite answer_hash; [|by repeat constructor|constructor].
    rewrite Hpool. intros He. vm_compute in He. injection He as He%Hinj. done.
Qed.

Lemma sidecar_language_unverifiable_witness :
  let ids := Some [PresenceCache.mkIdentity "client" "pc" (Some "en") (Some "Robot")] in
  ∃ ver s' q,
    gabble_connection_add_sidecar_own_caps_full digest "pc" "gabble" conn caps ids None start =
      Ok (Some ver, s') ∧
    iq_disco_cb "pc" "gabble" bundles caps None (Some (caps_prefix +:+ ver)) s' = Ok (Reply q, s') ∧
    wocky_caps_hash_compute_from_node digest q ≠ Ok (Some ver).
Proof. apply (sidecar_language_unverifiable digest); [|done]. intros x y Hxy. by injection Hxy. Defined.

(** Two identities of one category and type, without languages, are compared
    with [strcmp] on NULL. *)
Lemma null_language_compared d (s : RunCache) :
  gabble_connection_add_sidecar_own_caps_full d "pc" "gabble" conn caps
    (Some [automaton; automaton]) None s = Abort MemoryFault.
Proof. reflexivity. Qed.

(** The header of a table of results may hold fixed text, which has no name. *)
Lemma reported_text_faults :
  wocky_data_form_parse_result (wocky_data_form_init None None)
    (mkNode "command" None None []
      [mkNode "x" None (Some NS_X_DATA) [mkAttribute "type" "result" None]
        [mkNode "reported" None (Some NS_X_DATA) []
          [mkNode "field" None (Some NS_X_DATA) [mkAttribute "type" "fixed" None] []]]])
  = Abort MemoryFault.
Proof. reflexivity. Qed.
End Runs.
End CapsHashFacts.
