(* ===== verification/Roster.v ===== *)
(** * The roster (src/roster.c)

    The contact list kept on the server: items, the edits queued for each,
    subscription states and groups.  An item that is not on the server's
    roster has subscription "remove"; it is kept for as long as it has a
    reason to be.

    The connection is an argument [Conn] of every operation, so that it may
    change between any two of them.  An item is found through the handle of
    its contact; a pointer to an item that was freed is a handle with no item,
    and reading it is a [MemoryFault].  [TpBaseContactList] is telepathy-glib's:
    the calls made into it are events, and [list_success] is whether its state
    is TP_CONTACT_LIST_STATE_SUCCESS.  Tables and handle sets are visited in the
    order of [map_to_list] and [elements].  A request of a user is a
    [GSimpleAsyncResult]; its callback runs in an idle source. *)

From S2P Require Import Prelude Node Namespaces Jid Capabilities Presence PresenceCache.

Module Roster.
Import Jid.

(** ** Data *)

Definition NS_ROSTER : string := "jabber:iq:roster".
Definition NS_GOOGLE_ROSTER : string := "google:roster".
Definition GOOGLE_ROSTER_VERSION : string := "2".

Inductive GoogleItemType :=
  | GOOGLE_ITEM_TYPE_INVALID
  | GOOGLE_ITEM_TYPE_NORMAL
  | GOOGLE_ITEM_TYPE_BLOCKED
  | GOOGLE_ITEM_TYPE_HIDDEN
  | GOOGLE_ITEM_TYPE_PINNED.
#[global] Instance GoogleItemType_eq_dec : EqDecision GoogleItemType.
Proof. solve_decision. Defined.

(** GABBLE_ROSTER_SUBSCRIPTION_... *)
Inductive GabbleRosterSubscription :=
  | SUBSCRIPTION_NONE
  | SUBSCRIPTION_FROM
  | SUBSCRIPTION_TO
  | SUBSCRIPTION_BOTH
  | SUBSCRIPTION_REMOVE
  | SUBSCRIPTION_INVALID.
#[global] Instance GabbleRosterSubscription_eq_dec : EqDecision GabbleRosterSubscription.
Proof. solve_decision. Defined.

(** TP_SUBSCRIPTION_STATE_..., of telepathy-glib. *)
Inductive TpSubscriptionState :=
  | STATE_NO
  | STATE_REMOVED_REMOTELY
  | STATE_ASK
  | STATE_YES.
#[global] Instance TpSubscriptionState_eq_dec : EqDecision TpSubscriptionState.
Proof. solve_decision. Defined.

(** [e_results]: the asynchronous results to count down, latest first. *)
Record GabbleRosterItemEdit := mkEdit {
  e_handle : Z;
  create : bool;
  e_results : list Z;
  new_subscription : GabbleRosterSubscription;
  new_google_type : GoogleItemType;
  new_name : option string;
  remove_name : bool;
  add_to_groups : option (gset Z);
  remove_from_groups : option (gset Z);
  remove_from_all_other_groups : bool;
}.

Record GabbleRosterItem := mkItem {
  subscription : GabbleRosterSubscription;
  ask_subscribe : bool;
  google_type : GoogleItemType;
  item_name : option string;
  alias_for : option string;
  item_groups : gset Z;
  edits_in_flight : bool;
  unsent_edits : option GabbleRosterItemEdit;
  subscribe : TpSubscriptionState;
  publish : TpSubscriptionState;
  publish_request : option string;
  stored : bool;
  blocked : bool;
  flicker_prevention_id : bool;
}.

(** What a countdown does when it reaches zero: call the user back, or one of
    the two internal callbacks with its context. *)
Inductive continuation :=
  | CallUser
  | SubscribeContext (contacts : gset Z) (message : option string)
  | RemoveGroupContext (group_handle : Z) (contacts : gset Z).

Record AsyncResult := mkResult {
  todo : Z;
  failed : bool;
  callback : continuation;
}.

Inductive idle_source :=
  | CompleteResult (result : Z)
  | ReportResult (call : Z) (ok : bool).

Inductive roster_event :=
  | SendIq (iq : Z) (stanza : WockyNode)
  | SendRosterGet (stanza : WockyNode)
  | SendStanza (stanza : WockyNode)
  | AcknowledgeIq (stanza : WockyNode)
  | ContactsChanged (changed removed : gset Z)
  | BlockingChanged (contacts : gset Z)
  | GroupsCreated (names : list string)
  | GroupsChanged (contact : Z) (added removed : list string)
  | GroupsRemoved (names : list string)
  | NicknamesUpdate (contacts : list Z)
  | MarkOffline (contact : Z)
  | PresenceUpdate (contacts : list Z)
  | ForgetPresence (contact : Z)
  | ListReceived
  | Done (call : Z) (ok : bool).

(** [results], [in_flight], [idles]: the asynchronous results that exist, the
    roster IQs that wait for their reply and the idle sources. *)
Record GabbleRoster (R : Type) := mkRoster {
  items : gmap Z GabbleRosterItem;
  groups : option (gset Z);
  pre_authorized : option (gset Z);
  received : bool;
  list_success : bool;
  results : gmap Z AsyncResult;
  next_result : Z;
  in_flight : gmap Z GabbleRosterItemEdit;
  next_iq : Z;
  idles : list idle_source;
  contact_repo : R;
  group_repo : R;
  events : list roster_event;
}.
Arguments mkRoster {R}.
Arguments items {R}.
Arguments groups {R}.
Arguments pre_authorized {R}.
Arguments received {R}.
Arguments list_success {R}.
Arguments results {R}.
Arguments next_result {R}.
Arguments in_flight {R}.
Arguments next_iq {R}.
Arguments idles {R}.
Arguments contact_repo {R}.
Arguments group_repo {R}.
Arguments events {R}.

(** What conn-aliasing.c knows of a contact. *)
Record AliasInfo := mkAliases {
  pep_alias : option string;
  presence_nickname : option string;
  vcard_alias : option string;
}.

Record Conn := mkConn {
  google_roster_feature : bool;        (* GABBLE_CONNECTION_FEATURES_GOOGLE_ROSTER *)
  has_porter : bool;
  self_handle : Z;
  cm_alias : option string;
  alias_info : Z → AliasInfo;
  presence_status : Z → option Z;      (* of the presence cache *)
  download_at_connection : bool;
}.

(** *** Field updates *)

Definition e_set_results (l : list Z) (e : GabbleRosterItemEdit) : GabbleRosterItemEdit :=
  mkEdit (e_handle e) (create e) l (new_subscription e) (new_google_type e) (new_name e)
    (remove_name e) (add_to_groups e) (remove_from_groups e) (remove_from_all_other_groups e).
Definition e_set_create (b : bool) (e : GabbleRosterItemEdit) : GabbleRosterItemEdit :=
  mkEdit (e_handle e) b (e_results e) (new_subscription e) (new_google_type e) (new_name e)
    (remove_name e) (add_to_groups e) (remove_from_groups e) (remove_from_all_other_groups e).
Definition e_set_subscription (x : GabbleRosterSubscription) (e : GabbleRosterItemEdit) :
    GabbleRosterItemEdit :=
  mkEdit (e_handle e) (create e) (e_results e) x (new_google_type e) (new_name e)
    (remove_name e) (add_to_groups e) (remove_from_groups e) (remove_from_all_other_groups e).
Definition e_set_google_type (x : GoogleItemType) (e : GabbleRosterItemEdit) :
    GabbleRosterItemEdit :=
  mkEdit (e_handle e) (create e) (e_results e) (new_subscription e) x (new_name e)
    (remove_name e) (add_to_groups e) (remove_from_groups e) (remove_from_all_other_groups e).
Definition e_set_name (n : option string) (b : bool) (e : GabbleRosterItemEdit) :
    GabbleRosterItemEdit :=
  mkEdit (e_handle e) (create e) (e_results e) (new_subscription e) (new_google_type e) n
    b (add_to_groups e) (remove_from_groups e) (remove_from_all_other_groups e).
Definition e_set_groups (add rem : option (gset Z)) (b : bool) (e : GabbleRosterItemEdit) :
    GabbleRosterItemEdit :=
  mkEdit (e_handle e) (create e) (e_results e) (new_subscription e) (new_google_type e)
    (new_name e) (remove_name e) add rem b.

Definition i_set_subscription (x : GabbleRosterSubscription) (i : GabbleRosterItem) :
    GabbleRosterItem :=
  mkItem x (ask_subscribe i) (google_type i) (item_name i) (alias_for i) (item_groups i)
    (edits_in_flight i) (unsent_edits i) (subscribe i) (publish i) (publish_request i)
    (stored i) (blocked i) (flicker_prevention_id i).
Definition i_set_ask (b : bool) (i : GabbleRosterItem) : GabbleRosterItem :=
  mkItem (subscription i) b (google_type i) (item_name i) (alias_for i) (item_groups i)
    (edits_in_flight i) (unsent_edits i) (subscribe i) (publish i) (publish_request i)
    (stored i) (blocked i) (flicker_prevention_id i).
Definition i_set_google (t : GoogleItemType) (a : option string) (i : GabbleRosterItem) :
    GabbleRosterItem :=
  mkItem (subscription i) (ask_subscribe i) t (item_name i) a (item_groups i)
    (edits_in_flight i) (unsent_edits i) (subscribe i) (publish i) (publish_request i)
    (stored i) (blocked i) (flicker_prevention_id i).
Definition i_set_name (n : option string) (i : GabbleRosterItem) : GabbleRosterItem :=
  mkItem (subscription i) (ask_subscribe i) (google_type i) n (alias_for i) (item_groups i)
    (edits_in_flight i) (unsent_edits i) (subscribe i) (publish i) (publish_request i)
    (stored i) (blocked i) (flicker_prevention_id i).
Definition i_set_groups (g : gset Z) (i : GabbleRosterItem) : GabbleRosterItem :=
  mkItem (subscription i) (ask_subscribe i) (google_type i) (item_name i) (alias_for i) g
    (edits_in_flight i) (unsent_edits i) (subscribe i) (publish i) (publish_request i)
    (stored i) (blocked i) (flicker_prevention_id i).
Definition i_set_edits (b : bool) (e : option GabbleRosterItemEdit) (i : GabbleRosterItem) :
    GabbleRosterItem :=
  mkItem (subscription i) (ask_subscribe i) (google_type i) (item_name i) (alias_for i)
    (item_groups i) b e (subscribe i) (publish i) (publish_request i)
    (stored i) (blocked i) (flicker_prevention_id i).
Definition i_set_subscribe (x : TpSubscriptionState) (i : GabbleRosterItem) : GabbleRosterItem :=
  mkItem (subscription i) (ask_subscribe i) (google_type i) (item_name i) (alias_for i)
    (item_groups i) (edits_in_flight i) (unsent_edits i) x (publish i) (publish_request i)
    (stored i) (blocked i) (flicker_prevention_id i).
Definition i_set_publish (x : TpSubscriptionState) (r : option string) (i : GabbleRosterItem) :
    GabbleRosterItem :=
  mkItem (subscription i) (ask_subscribe i) (google_type i) (item_name i) (alias_for i)
    (item_groups i) (edits_in_flight i) (unsent_edits i) (subscribe i) x r
    (stored i) (blocked i) (flicker_prevention_id i).
Definition i_set_stored (b : bool) (i : GabbleRosterItem) : GabbleRosterItem :=
  mkItem (subscription i) (ask_subscribe i) (google_type i) (item_name i) (alias_for i)
    (item_groups i) (edits_in_flight i) (unsent_edits i) (subscribe i) (publish i)
    (publish_request i) b (blocked i) (flicker_prevention_id i).
Definition i_set_blocked (b : bool) (i : GabbleRosterItem) : GabbleRosterItem :=
  mkItem (subscription i) (ask_subscribe i) (google_type i) (item_name i) (alias_for i)
    (item_groups i) (edits_in_flight i) (unsent_edits i) (subscribe i) (publish i)
    (publish_request i) (stored i) b (flicker_prevention_id i).
Definition i_set_flicker (b : bool) (i : GabbleRosterItem) : GabbleRosterItem :=
  mkItem (subscription i) (ask_subscribe i) (google_type i) (item_name i) (alias_for i)
    (item_groups i) (edits_in_flight i) (unsent_edits i) (subscribe i) (publish i)
    (publish_request i) (stored i) (blocked i) b.

(** ** Parsing and printing *)

(** [None]: g_assert_not_reached. *)
Definition _subscription_to_string (subscription : GabbleRosterSubscription) : option string :=
  match subscription with
  | SUBSCRIPTION_NONE => Some "none"
  | SUBSCRIPTION_FROM => Some "from"
  | SUBSCRIPTION_TO => Some "to"
  | SUBSCRIPTION_BOTH => Some "both"
  | SUBSCRIPTION_REMOVE => Some "remove"
  | SUBSCRIPTION_INVALID => None
  end.

Definition _parse_item_subscription (item_node : WockyNode) : GabbleRosterSubscription :=
  match wocky_node_get_attribute item_node "subscription" with
  | None => SUBSCRIPTION_NONE
  | Some s =>
      if bool_decide (s = "none") then SUBSCRIPTION_NONE
      else if bool_decide (s = "from") then SUBSCRIPTION_FROM
      else if bool_decide (s = "to") then SUBSCRIPTION_TO
      else if bool_decide (s = "both") then SUBSCRIPTION_BOTH
      else if bool_decide (s = "remove") then SUBSCRIPTION_REMOVE
      else SUBSCRIPTION_NONE
  end.

(** [None]: g_assert_not_reached; [Some None]: NULL. *)
Definition _google_item_type_to_string (google_type : GoogleItemType) : option (option string) :=
  match google_type with
  | GOOGLE_ITEM_TYPE_NORMAL => Some None
  | GOOGLE_ITEM_TYPE_BLOCKED => Some (Some "B")
  | GOOGLE_ITEM_TYPE_HIDDEN => Some (Some "H")
  | GOOGLE_ITEM_TYPE_PINNED => Some (Some "P")
  | GOOGLE_ITEM_TYPE_INVALID => None
  end.

Definition _parse_google_item_type (item_node : WockyNode) : GoogleItemType :=
  match wocky_node_get_attribute_ns item_node "t" (Some NS_GOOGLE_ROSTER) with
  | None => GOOGLE_ITEM_TYPE_NORMAL
  | Some t =>
      if bool_decide (t = "B") then GOOGLE_ITEM_TYPE_BLOCKED
      else if bool_decide (t = "H") then GOOGLE_ITEM_TYPE_HIDDEN
      else if bool_decide (t = "P") then GOOGLE_ITEM_TYPE_PINNED
      else GOOGLE_ITEM_TYPE_NORMAL
  end.

Definition _extract_google_alias_for (item_node : WockyNode) : option string :=
  wocky_node_get_attribute_ns item_node "alias-for" (Some NS_GOOGLE_ROSTER).

Definition _google_roster_item_should_keep (item : GabbleRosterItem) : bool :=
  if bool_decide (google_type item = GOOGLE_ITEM_TYPE_HIDDEN) then false
  else if ask_subscribe item then true
  else negb (bool_decide (subscription item = SUBSCRIPTION_NONE)) &&
       negb (bool_decide (subscription item = SUBSCRIPTION_REMOVE)).

Definition item_edit_new (handle : Z) : GabbleRosterItemEdit :=
  mkEdit handle false [] SUBSCRIPTION_INVALID GOOGLE_ITEM_TYPE_INVALID None false None None false.

(** ** State changes of an item *)

(** [None]: an assertion failed; otherwise the item and whether it changed. *)
Definition roster_item_set_publish (item : GabbleRosterItem) (p : TpSubscriptionState)
    (request : option string) : option (GabbleRosterItem * bool) :=
  if bool_decide (p = STATE_ASK) || bool_decide (request = None) then
    Some (i_set_publish p request item,
          bool_decide (publish item ≠ p) || tp_strdiff (publish_request item) request)
  else None.

Definition roster_item_set_subscribe (item : GabbleRosterItem) (x : TpSubscriptionState) :
    GabbleRosterItem * bool :=
  if bool_decide (subscribe item = x) then (item, false) else (i_set_subscribe x item, true).

(** The four switches of [process_roster] on one item; [google] is whether
    this is a push of a Google roster.  Each gives the item and whether it
    changed; [None] is g_assert_not_reached. *)
Definition push_publish (google : bool) (item : GabbleRosterItem) :
    option (GabbleRosterItem * bool) :=
  match subscription item with
  | SUBSCRIPTION_FROM | SUBSCRIPTION_BOTH =>
      roster_item_set_publish item
        (if google && negb (_google_roster_item_should_keep item) then STATE_NO else STATE_YES) None
  | SUBSCRIPTION_NONE | SUBSCRIPTION_TO | SUBSCRIPTION_REMOVE =>
      if bool_decide (publish item = STATE_YES)
      then '(item, _) ← roster_item_set_publish item STATE_NO None; Some (item, true)
      else Some (item, false)
  | SUBSCRIPTION_INVALID => None
  end.

Definition push_subscribe (google : bool) (item : GabbleRosterItem) :
    option (GabbleRosterItem * bool) :=
  match subscription item with
  | SUBSCRIPTION_TO | SUBSCRIPTION_BOTH =>
      let '(item, b) := roster_item_set_subscribe item
        (if google && negb (_google_roster_item_should_keep item) then STATE_NO else STATE_YES) in
      Some (i_set_flicker false item, b)
  | SUBSCRIPTION_NONE | SUBSCRIPTION_FROM =>
      if ask_subscribe item then
        if bool_decide (subscribe item = STATE_YES) then Some (item, false)
        else Some (roster_item_set_subscribe
                     (i_set_flicker (negb (flicker_prevention_id item)) item) STATE_ASK)
      else if flicker_prevention_id item then Some (item, false)
      else Some (roster_item_set_subscribe item STATE_NO)
  | SUBSCRIPTION_REMOVE => Some (roster_item_set_subscribe item STATE_NO)
  | SUBSCRIPTION_INVALID => None
  end.

(** What becomes of the contact in the sets [changed] and [removed]. *)
Inductive stored_change := Keep | AddChanged | MoveToRemoved | DropChanged.

Definition push_stored (google : bool) (item : GabbleRosterItem) :
    option (GabbleRosterItem * stored_change) :=
  match subscription item with
  | SUBSCRIPTION_NONE | SUBSCRIPTION_TO | SUBSCRIPTION_FROM | SUBSCRIPTION_BOTH =>
      if google && bool_decide (subscribe item ≠ STATE_ASK) &&
         bool_decide (publish item ≠ STATE_ASK) && negb (_google_roster_item_should_keep item)
      then Some (i_set_stored false item, MoveToRemoved)
      else Some (i_set_stored true item, if stored item then Keep else AddChanged)
  | SUBSCRIPTION_REMOVE =>
      Some (i_set_stored false item, if stored item then MoveToRemoved else DropChanged)
  | SUBSCRIPTION_INVALID => None
  end.

Definition push_blocked (google : bool) (item : GabbleRosterItem) :
    option (GabbleRosterItem * bool) :=
  if google then
    match subscription item with
    | SUBSCRIPTION_NONE | SUBSCRIPTION_TO | SUBSCRIPTION_FROM | SUBSCRIPTION_BOTH =>
        let b := bool_decide (google_type item = GOOGLE_ITEM_TYPE_BLOCKED) in
        Some (i_set_blocked b item, negb (Bool.eqb (blocked item) b))
    | SUBSCRIPTION_REMOVE => Some (i_set_blocked false item, blocked item)
    | SUBSCRIPTION_INVALID => None
    end
  else Some (item, false).

(** The sets [process_roster] collects. *)
Record PushSets := mkPush {
  changed : gset Z; removed : gset Z; blocking_changed : gset Z; updated_nicknames : list Z }.

Definition change_stored (h : Z) (x : stored_change) (ch rm : gset Z) : gset Z * gset Z :=
  match x with
  | Keep => (ch, rm)
  | AddChanged => ({[h]} ∪ ch, rm)
  | MoveToRemoved => (ch ∖ {[h]}, {[h]} ∪ rm)
  | DropChanged => (ch ∖ {[h]}, rm)
  end.

(** One item of a push: the switches, in order. *)
Definition push_item (google : bool) (h : Z) (nickname_updated : bool) (item : GabbleRosterItem)
    (p : PushSets) : option (GabbleRosterItem * PushSets) :=
  '(item, b1) ← push_publish google item;
  '(item, b2) ← push_subscribe google item;
  '(item, x) ← push_stored google item;
  '(item, b4) ← push_blocked google item;
  let ch := if b1 || b2 then {[h]} ∪ changed p else changed p in
  let '(ch, rm) := change_stored h x ch (removed p) in
  Some (item, mkPush ch rm
    (if (b4 : bool) then {[h]} ∪ blocking_changed p else blocking_changed p)
    (if nickname_updated then updated_nicknames p ++ [h] else updated_nicknames p)).

(** ** Aliases (src/conn-aliasing.c) *)

Definition GABBLE_CONNECTION_ALIAS_NONE : Z := 0.
Definition GABBLE_CONNECTION_ALIAS_FROM_JID : Z := 1.
Definition GABBLE_CONNECTION_ALIAS_FROM_VCARD : Z := 2.
Definition GABBLE_CONNECTION_ALIAS_FROM_MUC_RESOURCE : Z := 3.
Definition GABBLE_CONNECTION_ALIAS_FROM_CONNMGR : Z := 4.
Definition GABBLE_CONNECTION_ALIAS_FROM_PRESENCE : Z := 5.
Definition GABBLE_CONNECTION_ALIAS_FROM_ROSTER : Z := 6.

Definition get_cached_remote_alias (g_utf8_strdown : string → string) (c : Conn)
    (handle : Z) (jid : string) : Z * option string :=
  let info := alias_info c handle in
  match pep_alias info with
  | Some a => (GABBLE_CONNECTION_ALIAS_FROM_PRESENCE, Some a)
  | None =>
  match presence_nickname info with
  | Some a => (GABBLE_CONNECTION_ALIAS_FROM_PRESENCE, Some a)
  | None =>
  match (if handle =? self_handle c then cm_alias c else None) with
  | Some a => (GABBLE_CONNECTION_ALIAS_FROM_CONNMGR, Some a)
  | None =>
  match wocky_decode_jid g_utf8_strdown jid ≫= snd with
  | Some a => (GABBLE_CONNECTION_ALIAS_FROM_MUC_RESOURCE, Some a)
  | None =>
  match vcard_alias info with
  | Some a => (GABBLE_CONNECTION_ALIAS_FROM_VCARD, Some a)
  | None => (GABBLE_CONNECTION_ALIAS_NONE, None)
  end end end end end.

(** ** Operations *)

Section roster.
Context {R : Type} `{HandleRepo R}.
Context (g_utf8_strdown g_utf8_normalize : string → string).

Local Notation MR := (M (GabbleRoster R)).

Definition put_items (m : gmap Z GabbleRosterItem) : MR unit := modify (λ s,
  mkRoster m (groups s) (pre_authorized s) (received s) (list_success s) (results s)
    (next_result s) (in_flight s) (next_iq s) (idles s) (contact_repo s) (group_repo s)
    (events s)).
Definition put_groups (g : option (gset Z)) : MR unit := modify (λ s,
  mkRoster (items s) g (pre_authorized s) (received s) (list_success s) (results s)
    (next_result s) (in_flight s) (next_iq s) (idles s) (contact_repo s) (group_repo s)
    (events s)).
Definition put_pre_authorized (g : option (gset Z)) : MR unit := modify (λ s,
  mkRoster (items s) (groups s) g (received s) (list_success s) (results s)
    (next_result s) (in_flight s) (next_iq s) (idles s) (contact_repo s) (group_repo s)
    (events s)).
Definition put_received (r l : bool) : MR unit := modify (λ s,
  mkRoster (items s) (groups s) (pre_authorized s) r l (results s)
    (next_result s) (in_flight s) (next_iq s) (idles s) (contact_repo s) (group_repo s)
    (events s)).
Definition put_results (m : gmap Z AsyncResult) (n : Z) : MR unit := modify (λ s,
  mkRoster (items s) (groups s) (pre_authorized s) (received s) (list_success s) m
    n (in_flight s) (next_iq s) (idles s) (contact_repo s) (group_repo s) (events s)).
Definition put_in_flight (m : gmap Z GabbleRosterItemEdit) (n : Z) : MR unit := modify (λ s,
  mkRoster (items s) (groups s) (pre_authorized s) (received s) (list_success s) (results s)
    (next_result s) m n (idles s) (contact_repo s) (group_repo s) (events s)).
Definition put_idles (l : list idle_source) : MR unit := modify (λ s,
  mkRoster (items s) (groups s) (pre_authorized s) (received s) (list_success s) (results s)
    (next_result s) (in_flight s) (next_iq s) l (contact_repo s) (group_repo s) (events s)).
Definition put_repos (c g : R) : MR unit := modify (λ s,
  mkRoster (items s) (groups s) (pre_authorized s) (received s) (list_success s) (results s)
    (next_result s) (in_flight s) (next_iq s) (idles s) c g (events s)).
Definition emit (e : roster_event) : MR unit := modify (λ s,
  mkRoster (items s) (groups s) (pre_authorized s) (received s) (list_success s) (results s)
    (next_result s) (in_flight s) (next_iq s) (idles s) (contact_repo s) (group_repo s)
    (events s ++ [e])).

(** [None] is an assertion that failed. *)
Definition asserted {A} (o : option A) : MR A :=
  match o with Some a => mret a | None => fail AssertFailed end.

(** *** Handles *)

(** [tp_handle_ensure] on contacts normalises; 0 when that fails. *)
Definition ensure_contact (jid : string) : MR Z :=
  s ← get;
  match gabble_normalize_contact g_utf8_strdown g_utf8_normalize
          (Some (λ n, negb (tp_handle_lookup (contact_repo s) n =? 0))) jid GABBLE_JID_ANY with
  | None => mret 0
  | Some n =>
      let '(r, h) := tp_handle_ensure (contact_repo s) n in
      put_repos r (group_repo s) ;; mret h
  end.

Definition ensure_group (name : string) : MR Z :=
  s ← get;
  let '(r, h) := tp_handle_ensure (group_repo s) name in
  put_repos (contact_repo s) r ;; mret h.

Definition valid_contact (h : Z) : MR bool :=
  s ← get; mret (PresenceCache.handle_is_valid (contact_repo s) h).

Definition assert_valid_contact (h : Z) : MR unit :=
  b ← valid_contact h; g_assert b.

(** [tp_handle_inspect]; a NULL name is not printed, it is "". *)
Definition group_names (s : GabbleRoster R) (g : gset Z) : list string :=
  (λ h, default EmptyString (tp_handle_inspect (group_repo s) h)) <$> elements g.

Definition contact_id (h : Z) : MR string :=
  s ← get; mret (default EmptyString (tp_handle_inspect (contact_repo s) h)).

(** *** Asynchronous results (src/util.c) *)

Definition gabble_simple_async_countdown_new (k : continuation) : MR Z :=
  s ← get;
  put_results (<[next_result s := mkResult 1 false k]> (results s)) (next_result s + 1) ;;
  mret (next_result s).

Definition gabble_simple_async_countdown_inc (simple : Z) : MR unit :=
  s ← get;
  match results s !! simple with
  | None => fail MemoryFault
  | Some r =>
      when (1 <=? todo r)
        (put_results (<[simple := mkResult (todo r + 1) (failed r) (callback r)]> (results s))
           (next_result s))
  end.

Definition gabble_simple_async_countdown_dec (simple : Z) : MR unit :=
  s ← get;
  match results s !! simple with
  | None => fail MemoryFault
  | Some r =>
      put_results (<[simple := mkResult (todo r - 1) (failed r) (callback r)]> (results s))
        (next_result s) ;;
      when (todo r - 1 <=? 0) (put_idles (idles s ++ [CompleteResult simple]))
  end.

(** [g_simple_async_result_set_from_error]. *)
Definition set_from_error (simple : Z) : MR unit :=
  s ← get;
  match results s !! simple with
  | None => fail MemoryFault
  | Some r => put_results (<[simple := mkResult (todo r) true (callback r)]> (results s))
                (next_result s)
  end.

Definition gabble_simple_async_succeed_or_fail_in_idle (call : Z) (ok : bool) : MR unit :=
  s ← get; put_idles (idles s ++ [ReportResult call ok]).

(** A call whose result is reported in an idle gets its number here. *)
Definition new_call : MR Z :=
  s ← get; put_results (results s) (next_result s + 1) ;; mret (next_result s).

(** *** Aliases *)

Definition gabble_roster_handle_get_name (handle : Z) : MR (option string) :=
  s ← get;
  mret (if PresenceCache.handle_is_valid (contact_repo s) handle
        then items s !! handle ≫= item_name else None).

Definition _gabble_connection_get_cached_alias (c : Conn) (handle : Z) :
    MR (Z * option string) :=
  valid ← valid_contact handle;
  if negb valid then mret (GABBLE_CONNECTION_ALIAS_NONE, None)
  else
    jid ← contact_id handle;
    tmp ← gabble_roster_handle_get_name handle;
    let roster_alias_was_jid := bool_decide (tmp = Some jid) in
    if negb roster_alias_was_jid && negb (bool_decide (default EmptyString tmp = EmptyString))
    then mret (GABBLE_CONNECTION_ALIAS_FROM_ROSTER, tmp)
    else
      let '(source, alias) := get_cached_remote_alias g_utf8_strdown c handle jid in
      if negb (source =? GABBLE_CONNECTION_ALIAS_NONE) then mret (source, alias)
      else mret (if roster_alias_was_jid then GABBLE_CONNECTION_ALIAS_FROM_ROSTER
                 else GABBLE_CONNECTION_ALIAS_FROM_JID, Some jid).

(** [lm_message_node_add_own_nick]. *)
Definition lm_message_node_add_own_nick (c : Conn) (node : WockyNode) : MR WockyNode :=
  '(source, nick) ← _gabble_connection_get_cached_alias c (self_handle c);
  mret (if GABBLE_CONNECTION_ALIAS_FROM_JID <? source
        then wocky_node_add_child_with_content_ns node "nick" nick (Some NS_NICK) else node).

(** [gabble_connection_send_presence] and [_gabble_connection_send] of
    src/connection.c. *)
Definition _gabble_connection_send (c : Conn) (msg : WockyNode) : MR bool :=
  if has_porter c then emit (SendStanza msg) ;; mret true else mret false.

Definition gabble_connection_send_presence (c : Conn) (sub_type contact : string)
    (status : option string) : MR bool :=
  let message := mkNode "presence" None (Some "jabber:client")
                   [mkAttribute "type" sub_type None; mkAttribute "to" contact None] [] in
  message ← (if bool_decide (sub_type = "subscribe")
             then lm_message_node_add_own_nick c message else mret message);
  _gabble_connection_send c
    (if bool_decide (default EmptyString status = EmptyString) then message
     else wocky_node_add_child_with_content message "status" status).

(** *** Items *)

Definition _gabble_roster_item_lookup (handle : Z) : MR (option GabbleRosterItem) :=
  s ← get; mret (items s !! handle).

(** An item read and written through its pointer. *)
Definition get_item (handle : Z) : MR GabbleRosterItem :=
  s ← get;
  match items s !! handle with Some i => mret i | None => fail MemoryFault end.

Definition put_item (handle : Z) (i : GabbleRosterItem) : MR unit :=
  s ← get; put_items (<[handle := i]> (items s)).

Definition _gabble_roster_item_ensure (c : Conn) (handle : Z) : MR unit :=
  item ← _gabble_roster_item_lookup handle;
  assert_valid_contact handle ;;
  match item with
  | Some _ => mret tt
  | None =>
      '(source, alias) ← _gabble_connection_get_cached_alias c handle;
      g_assert (source <? GABBLE_CONNECTION_ALIAS_FROM_ROSTER) ;;
      let alias := if source <=? GABBLE_CONNECTION_ALIAS_FROM_JID then None else alias in
      put_item handle (mkItem SUBSCRIPTION_REMOVE false GOOGLE_ITEM_TYPE_NORMAL alias None ∅
        false None STATE_NO STATE_NO None false false false)
  end.

Definition item_edit_free (edits : option GabbleRosterItemEdit) : MR unit :=
  match edits with
  | None => mret tt
  | Some e => for_each (reverse (e_results e)) gabble_simple_async_countdown_dec
  end.

(** [_gabble_roster_item_free] through the table. *)
Definition remove_item (handle : Z) (item : GabbleRosterItem) : MR unit :=
  s ← get;
  put_items (delete handle (items s)) ;;
  item_edit_free (unsent_edits item).

Definition _gabble_roster_item_maybe_remove (handle : Z) : MR bool :=
  assert_valid_contact handle ;;
  item ← _gabble_roster_item_lookup handle;
  match item with
  | None => mret false
  | Some item =>
      if bool_decide (subscription item ≠ SUBSCRIPTION_REMOVE) then mret false
      else if edits_in_flight item then mret false
      else if bool_decide (publish item ≠ STATE_NO) then mret false
      else if bool_decide (subscribe item ≠ STATE_NO) then mret false
      else remove_item handle item ;; mret true
  end.

Fixpoint parse_groups (l : list WockyNode) (acc : gset Z) : MR (gset Z) :=
  match l with
  | [] => mret acc
  | group_node :: l' =>
      match content group_node with
      | None => parse_groups l' acc
      | Some value =>
          h ← ensure_group value;
          if h =? 0 then parse_groups l' acc else parse_groups l' ({[h]} ∪ acc)
      end
  end.

Definition _parse_item_groups (item_node : WockyNode) : MR (gset Z) :=
  parse_groups (List.filter (node_compare_child (Some "group") None) (children item_node)) ∅.

(** Announcing a contact's new groups, and groups that are new. *)
Definition announce_groups (contact : Z) (new_groups added_to removed_from : gset Z) : MR unit :=
  s ← get;
  match groups s with
  | None => mret tt
  | Some g =>
      let created_groups := new_groups ∖ g in
      put_groups (Some (g ∪ new_groups)) ;;
      when (list_success s && negb (bool_decide (created_groups = ∅)))
        (emit (GroupsCreated (group_names s created_groups)))
  end ;;
  when (list_success s &&
        (negb (bool_decide (added_to = ∅)) || negb (bool_decide (removed_from = ∅))))
    (emit (GroupsChanged contact (group_names s added_to) (group_names s removed_from))).

(** Returns whether the nickname changed. *)
Definition _gabble_roster_item_update (c : Conn) (contact_handle : Z) (node : WockyNode)
    (google_roster_mode : bool) : MR bool :=
  assert_valid_contact contact_handle ;;
  _gabble_roster_item_ensure c contact_handle ;;
  item ← get_item contact_handle;
  let item := i_set_subscription (_parse_item_subscription node) item in
  let item := i_set_ask (negb (tp_strdiff (wocky_node_get_attribute node "ask")
                                 (Some "subscribe"))) item in
  let item := if google_roster_mode
              then i_set_google (_parse_google_item_type node) (_extract_google_alias_for node) item
              else item in
  let name := if bool_decide (subscription item = SUBSCRIPTION_REMOVE) then None
              else wocky_node_get_attribute node "name" in
  let nickname_updated := tp_strdiff (item_name item) name in
  let item := i_set_name name item in
  new_groups ← _parse_item_groups node;
  let removed_from := item_groups item ∖ new_groups in
  let added_to := new_groups ∖ item_groups item in
  put_item contact_handle
    (i_set_groups ((item_groups item ∪ new_groups) ∖ removed_from) item) ;;
  announce_groups contact_handle new_groups added_to removed_from ;;
  mret nickname_updated.

(** *** Messages *)

Definition _gabble_roster_message_new (c : Conn) (sub_type : string)
    (items : list WockyNode) : WockyNode :=
  let query_node := mkNode "query" None (Some NS_ROSTER) [] items in
  let query_node :=
    if google_roster_feature c then
      wocky_node_set_attribute_n_ns
        (wocky_node_set_attribute_n_ns query_node "ext" GOOGLE_ROSTER_VERSION
           (Some NS_GOOGLE_ROSTER))
        "include" "all" (Some NS_GOOGLE_ROSTER)
    else query_node in
  mkNode "iq" None (Some "jabber:client") [mkAttribute "type" sub_type None] [query_node].

(** The <item/>; [None] is g_assert_not_reached. *)
Definition item_to_node (google : bool) (jid : string) (names : list (option string))
    (item : GabbleRosterItem) : option WockyNode :=
  let item_node := wocky_node_set_attribute
                     (mkNode "item" None (Some NS_ROSTER) [] []) "jid" jid in
  item_node ←
    (if bool_decide (subscription item = SUBSCRIPTION_NONE) then Some item_node
     else wocky_node_set_attribute item_node "subscription" <$>
            _subscription_to_string (subscription item));
  if bool_decide (subscription item = SUBSCRIPTION_REMOVE) then Some item_node
  else
    item_node ←
      (if google && negb (bool_decide (google_type item = GOOGLE_ITEM_TYPE_NORMAL)) then
         t ← _google_item_type_to_string (google_type item);
         Some (wocky_node_set_attribute_n_ns item_node "t" (default EmptyString t)
                 (Some NS_GOOGLE_ROSTER))
       else Some item_node);
    let item_node := if ask_subscribe item
                     then wocky_node_set_attribute item_node "ask" "subscribe" else item_node in
    let item_node := match item_name item with
                     | Some n => wocky_node_set_attribute item_node "name" n
                     | None => item_node
                     end in
    Some (foldl (λ n g, wocky_node_add_child_with_content n "group" g) item_node names).

Definition _gabble_roster_item_to_message (c : Conn) (handle : Z) (item : GabbleRosterItem) :
    MR WockyNode :=
  assert_valid_contact handle ;;
  jid ← contact_id handle;
  s ← get;
  item_node ← asserted (item_to_node (google_roster_feature c) jid
                (tp_handle_inspect (group_repo s) <$> elements (item_groups item)) item);
  mret (_gabble_roster_message_new c "set" [item_node]).

(** *** The flicker timeout; there is one while [flicker_prevention_id] is set *)

Definition flicker_prevention_timeout (handle : Z) : MR unit :=
  item ← get_item handle;
  if (bool_decide (subscription item = SUBSCRIPTION_REMOVE) ||
      bool_decide (subscription item = SUBSCRIPTION_NONE)) && negb (ask_subscribe item)
  then
    put_item handle (i_set_flicker false (i_set_subscribe STATE_NO item)) ;;
    emit (ContactsChanged {[handle]} ∅)
  else put_item handle (i_set_flicker false item).

(** *** Edits *)

(** Whether the edit says something about groups, and the groups it wants. *)
Definition edits_groups (edits : GabbleRosterItemEdit) : bool :=
  bool_decide (is_Some (add_to_groups edits)) || bool_decide (is_Some (remove_from_groups edits))
  || remove_from_all_other_groups edits.

Definition edited_groups (item : GabbleRosterItem) (edits : GabbleRosterItemEdit) : gset Z :=
  ((if remove_from_all_other_groups edits then ∅ else item_groups item) ∪
   default ∅ (add_to_groups edits)) ∖ default ∅ (remove_from_groups edits).

(** Removing a contact that is (going to be) blocked would unblock it. *)
Definition cancels_instead (item : GabbleRosterItem) (edits : GabbleRosterItemEdit) : bool :=
  let google_type' := if bool_decide (new_google_type edits = GOOGLE_ITEM_TYPE_INVALID)
                      then google_type item else new_google_type edits in
  bool_decide (new_subscription edits = SUBSCRIPTION_REMOVE) &&
  negb (bool_decide (subscription item = SUBSCRIPTION_REMOVE)) &&
  bool_decide (google_type' = GOOGLE_ITEM_TYPE_BLOCKED).

(** The copy of the item that takes the edits, and whether it is altered; one
    definition per kind of edit. *)
Definition edit_google (item : GabbleRosterItem) (edits : GabbleRosterItemEdit)
    (x : GabbleRosterItem * bool) : GabbleRosterItem * bool :=
  if negb (bool_decide (new_google_type edits = GOOGLE_ITEM_TYPE_INVALID)) &&
     negb (bool_decide (new_google_type edits = google_type item))
  then (i_set_google (new_google_type edits) (alias_for item) x.1, true)
  else x.

Definition edit_subscription (item : GabbleRosterItem) (edits : GabbleRosterItemEdit)
    (x : GabbleRosterItem * bool) : GabbleRosterItem * bool :=
  if negb (bool_decide (new_subscription edits = SUBSCRIPTION_INVALID)) &&
     negb (bool_decide (new_subscription edits = subscription item)) &&
     negb (cancels_instead item edits)
  then (i_set_subscription (new_subscription edits) x.1, true)
  else x.

Definition edit_name (item : GabbleRosterItem) (edits : GabbleRosterItemEdit)
    (x : GabbleRosterItem * bool) : GabbleRosterItem * bool :=
  if remove_name edits then (i_set_name None x.1, true)
  else if bool_decide (is_Some (new_name edits)) && tp_strdiff (item_name item) (new_name edits)
  then (i_set_name (new_name edits) x.1, true)
  else x.

Definition edit_groups (item : GabbleRosterItem) (edits : GabbleRosterItemEdit)
    (x : GabbleRosterItem * bool) : GabbleRosterItem * bool :=
  if edits_groups edits then
    (i_set_groups (edited_groups item edits) x.1,
     x.2 || negb (bool_decide (edited_groups item edits = item_groups item)))
  else x.

(** With the subscription the edit ends up asking for: something altered on an
    item that is not on the server's roster creates it. *)
Definition edited_item (item : GabbleRosterItem) (edits : GabbleRosterItemEdit) :
    GabbleRosterItem * bool * GabbleRosterSubscription :=
  let '(edited, altered) :=
    edit_groups item edits (edit_name item edits
      (edit_subscription item edits (edit_google item edits (item, create edits)))) in
  if altered && negb (bool_decide (new_subscription edits = SUBSCRIPTION_REMOVE)) &&
     bool_decide (subscription edited = SUBSCRIPTION_REMOVE)
  then (i_set_subscription SUBSCRIPTION_NONE edited, altered, SUBSCRIPTION_NONE)
  else (edited, altered, new_subscription edits).

Definition roster_item_cancel_subscriptions (c : Conn) (contact : Z) (item : GabbleRosterItem) :
    MR bool :=
  id ← contact_id contact;
  ret ← (if bool_decide (subscription item = SUBSCRIPTION_FROM) ||
            bool_decide (subscription item = SUBSCRIPTION_BOTH)
         then gabble_connection_send_presence c "unsubscribed" id None else mret true);
  if ret && (bool_decide (subscription item = SUBSCRIPTION_TO) ||
             bool_decide (subscription item = SUBSCRIPTION_BOTH))
  then gabble_connection_send_presence c "unsubscribe" id None else mret ret.

Definition roster_item_apply_edits (c : Conn) (contact : Z) : MR unit :=
  item ← get_item contact;
  s ← get;
  if negb (received s) then mret tt
  else if edits_in_flight item then mret tt
  else
    match unsent_edits item with
    | None => mret tt
    | Some edits =>
        (if cancels_instead item edits then
           ok ← roster_item_cancel_subscriptions c contact item;
           when (negb ok) (for_each (e_results edits) set_from_error)
         else mret tt) ;;
        let '(edited, altered, subscription') := edited_item item edits in
        let edits := e_set_subscription subscription' edits in
        if negb altered then
          item_edit_free (Some edits) ;;
          put_item contact (i_set_edits (edits_in_flight item) None item)
        else
          message ← _gabble_roster_item_to_message c contact edited;
          put_item contact (i_set_edits true None item) ;;
          s ← get;
          put_in_flight (<[next_iq s := edits]> (in_flight s)) (next_iq s + 1) ;;
          emit (SendIq (next_iq s) message) ;;
          when (bool_decide (new_google_type edits = GOOGLE_ITEM_TYPE_BLOCKED))
            (emit (ForgetPresence contact))
    end.

(** The reply to a roster IQ; [ok] is whether it succeeded. *)
Definition roster_edited_cb (c : Conn) (iq : Z) (ok : bool) : MR unit :=
  s ← get;
  match in_flight s !! iq with
  | None => mret tt
  | Some edit =>
      when (negb ok) (for_each (e_results edit) set_from_error) ;;
      put_in_flight (delete iq (in_flight s)) (next_iq s) ;;
      item ← _gabble_roster_item_lookup (e_handle edit);
      match item with
      | None => mret tt
      | Some item =>
          put_item (e_handle edit) (i_set_edits false (unsent_edits item) item) ;;
          roster_item_apply_edits c (e_handle edit) ;;
          item ← get_item (e_handle edit);
          when (bool_decide (subscription item = SUBSCRIPTION_REMOVE) &&
                negb (bool_decide (new_subscription edit = SUBSCRIPTION_REMOVE)))
            (put_item (e_handle edit) (i_set_subscription (new_subscription edit) item)) ;;
          _gabble_roster_item_maybe_remove (e_handle edit) ;;
          mret tt
      end ;;
      item_edit_free (Some edit)
  end.

(** Changing the edit that waits to be sent, created if need be, with a
    result to count down. *)
Definition queue_edit (handle : Z) (result : option Z)
    (f : GabbleRosterItemEdit → GabbleRosterItemEdit) : MR unit :=
  item ← get_item handle;
  match result with
  | Some r => gabble_simple_async_countdown_inc r
  | None => mret tt
  end ;;
  let e := f (default (item_edit_new handle) (unsent_edits item)) in
  put_item handle (i_set_edits (edits_in_flight item)
    (Some (e_set_results (option_list result ++ e_results e) e)) item).

Definition gabble_roster_handle_set_blocked (c : Conn) (handle : Z) (blocked : bool)
    (result : Z) : MR unit :=
  valid ← valid_contact handle;
  when (valid && google_roster_feature c)
    (_gabble_roster_item_ensure c handle ;;
     queue_edit handle (Some result) (e_set_google_type
       (if blocked then GOOGLE_ITEM_TYPE_BLOCKED else GOOGLE_ITEM_TYPE_NORMAL)) ;;
     roster_item_apply_edits c handle).

Definition gabble_roster_handle_has_entry (handle : Z) : MR bool :=
  valid ← valid_contact handle;
  s ← get;
  mret (valid && bool_decide (is_Some (items s !! handle))).

Definition gabble_roster_handle_set_name (c : Conn) (handle : Z) (name : option string) :
    MR bool :=
  valid ← valid_contact handle;
  if negb valid then mret false
  else
    _gabble_roster_item_ensure c handle ;;
    queue_edit handle None (e_set_name name (bool_decide (name = None))) ;;
    roster_item_apply_edits c handle ;;
    mret true.

Definition gabble_roster_handle_remove (c : Conn) (handle : Z) (result : Z) : MR unit :=
  valid ← valid_contact handle;
  item ← _gabble_roster_item_lookup handle;
  match item with
  | Some item =>
      when valid
        (gone ←
           (if bool_decide (subscription item = SUBSCRIPTION_REMOVE) then
              '(item, _) ← asserted (roster_item_set_publish item STATE_NO None);
              put_item handle (fst (roster_item_set_subscribe item STATE_NO)) ;;
              _gabble_roster_item_maybe_remove handle
            else mret false);
         if gone : bool then emit (ContactsChanged ∅ {[handle]})
         else
           queue_edit handle (Some result) (e_set_subscription SUBSCRIPTION_REMOVE) ;;
           roster_item_apply_edits c handle)
  | None => mret tt
  end.

Definition gabble_roster_handle_add (c : Conn) (handle : Z) (result : option Z) : MR unit :=
  valid ← valid_contact handle;
  when valid
    (has ← gabble_roster_handle_has_entry handle;
     _gabble_roster_item_ensure c handle ;;
     item ← get_item handle;
     let do_add := negb has || bool_decide (google_type item = GOOGLE_ITEM_TYPE_HIDDEN) ||
                   bool_decide (subscription item = SUBSCRIPTION_REMOVE) in
     when do_add
       (queue_edit handle result (λ e, e_set_create true
          (e_set_google_type GOOGLE_ITEM_TYPE_NORMAL e)) ;;
        roster_item_apply_edits c handle)).

Definition valid_group (h : Z) : MR bool :=
  s ← get; mret (PresenceCache.handle_is_valid (group_repo s) h).

Definition gabble_roster_handle_add_to_group (c : Conn) (handle group : Z) (result : Z) : MR unit :=
  valid ← valid_contact handle;
  validg ← valid_group group;
  when (valid && validg)
    (_gabble_roster_item_ensure c handle ;;
     queue_edit handle (Some result) (λ e, e_set_groups
       (Some ({[group]} ∪ default ∅ (add_to_groups e)))
       ((λ g, g ∖ {[group]}) <$> remove_from_groups e) (remove_from_all_other_groups e) e) ;;
     roster_item_apply_edits c handle).

Definition gabble_roster_handle_remove_from_group (c : Conn) (handle group : Z) (result : Z) :
    MR unit :=
  valid ← valid_contact handle;
  validg ← valid_group group;
  when (valid && validg)
    (_gabble_roster_item_ensure c handle ;;
     queue_edit handle (Some result) (λ e, e_set_groups
       ((λ g, g ∖ {[group]}) <$> add_to_groups e)
       (Some ({[group]} ∪ default ∅ (remove_from_groups e))) (remove_from_all_other_groups e) e) ;;
     roster_item_apply_edits c handle).

Definition gabble_roster_handle_subscribed (c : Conn) (handle : Z) (message : string) : MR bool :=
  id ← contact_id handle;
  gabble_connection_send_presence c "subscribed" id (Some message).

(** *** Roster pushes *)

Definition is_google_roster_push (c : Conn) (query_node : WockyNode) : bool :=
  google_roster_feature c &&
  negb (tp_strdiff (wocky_node_get_attribute_ns query_node "ext" (Some NS_GOOGLE_ROSTER))
          (Some GOOGLE_ROSTER_VERSION)).

Definition validate_roster_item (item_node : WockyNode) : MR Z :=
  match wocky_node_get_attribute item_node "jid" with
  | None => mret 0
  | Some jid =>
      match split_first "/" jid with
      | Some _ => mret 0
      | None => ensure_contact jid
      end
  end.

Definition process_item (c : Conn) (google : bool) (item_node : WockyNode) (p : PushSets) :
    MR PushSets :=
  handle ← validate_roster_item item_node;
  if handle =? 0 then mret p
  else
    nickname_updated ← _gabble_roster_item_update c handle item_node google;
    item ← get_item handle;
    '(item, p) ← asserted (push_item google handle nickname_updated item p);
    put_item handle item ;;
    _gabble_roster_item_maybe_remove handle ;;
    mret p.

Fixpoint process_items (c : Conn) (google : bool) (l : list WockyNode) (p : PushSets) :
    MR PushSets :=
  match l with
  | [] => mret p
  | item_node :: l' => p ← process_item c google item_node p; process_items c google l' p
  end.

Definition process_roster (c : Conn) (query_node : WockyNode) : MR unit :=
  let google := is_google_roster_push c query_node in
  p ← process_items c google
        (List.filter (node_compare_child (Some "item") None) (children query_node))
        (mkPush ∅ ∅ ∅ []);
  when (bool_decide (updated_nicknames p ≠ [])) (emit (NicknamesUpdate (updated_nicknames p))) ;;
  emit (ContactsChanged (changed p) (removed p)) ;;
  when google (emit (BlockingChanged (blocking_changed p))).

(** The contacts we are subscribed to and know nothing of: offline. *)
Definition unknown_presence (c : Conn) (contact : Z) : bool :=
  match presence_status c contact with
  | None => true
  | Some st => st =? Presence.GABBLE_PRESENCE_UNKNOWN
  end.

Definition roster_complete (c : Conn) : MR unit :=
  s ← get;
  let members := fst <$> List.filter (λ '(contact, item),
        bool_decide (subscribe item = STATE_YES) && unknown_presence c contact)
      (map_to_list (items s)) in
  let edited := fst <$> List.filter (λ '(contact, item),
        bool_decide (is_Some (unsent_edits item))) (map_to_list (items s)) in
  for_each (fst <$> map_to_list (items s)) assert_valid_contact ;;
  for_each members (λ contact,
    when (bool_decide (is_Some (presence_status c contact))) (emit (MarkOffline contact))) ;;
  emit (PresenceUpdate members) ;;
  put_received (received s) true ;;
  emit ListReceived ;;
  put_received true true ;;
  for_each (reverse edited) (λ contact,
    item ← get_item contact;
    match unsent_edits item with
    | None => fail MemoryFault
    | Some edits => roster_item_apply_edits c (e_handle edits)
    end).

Definition got_roster_iq (c : Conn) (message : WockyNode) : MR bool :=
  match wocky_node_get_child_ns message (Some "query") (Some NS_ROSTER) with
  | None => mret false
  | Some query_node =>
      let sub_type := default EmptyString (wocky_node_get_attribute message "type") in
      let result := bool_decide (sub_type = "result") in
      s ← get;
      if negb result && negb (bool_decide (sub_type = "set")) then mret false
      else if result && received s then mret false
      else
        process_roster c query_node ;;
        (if result then roster_complete c else emit (AcknowledgeIq message)) ;;
        mret true
  end.

(** *** Subscription stanzas *)

Definition _gabble_roster_send_presence_ack (c : Conn) (from sub_type : string) (changed : bool) :
    MR unit :=
  if negb changed then mret tt
  else
    reply ← asserted
      (if bool_decide (sub_type = "unsubscribe") then Some "unsubscribed"
       else if bool_decide (sub_type = "subscribed") then Some "subscribe"
       else if bool_decide (sub_type = "unsubscribed") then Some "unsubscribe"
       else None);
    _gabble_connection_send c (mkNode "presence" None (Some "jabber:client")
      [mkAttribute "type" reply None; mkAttribute "to" from None] []) ;;
    mret tt.

Definition in_set (o : option (gset Z)) (h : Z) : bool :=
  match o with Some g => bool_decide (h ∈ g) | None => false end.

Definition gabble_roster_presence_cb (c : Conn) (message : WockyNode) : MR bool :=
  match wocky_node_get_attribute message "from" with
  | None => mret false
  | Some from =>
      handle ← ensure_contact from;
      if (handle =? 0) || (handle =? self_handle c) then mret false
      else
        let status_message := wocky_node_get_content_from_child message "status" in
        _gabble_roster_item_ensure c handle ;;
        item ← get_item handle;
        let sub_type := default EmptyString (wocky_node_get_attribute message "type") in
        if bool_decide (sub_type = "subscribe") then
          '(item, _) ← asserted (roster_item_set_publish item STATE_ASK status_message);
          put_item handle item ;;
          emit (ContactsChanged {[handle]} ∅) ;;
          s ← get;
          (if in_set (pre_authorized s) handle
           then gabble_roster_handle_subscribed c handle EmptyString ;; mret tt else mret tt) ;;
          mret true
        else if bool_decide (sub_type = "unsubscribe") then
          (if bool_decide (publish item = STATE_YES) || bool_decide (publish item = STATE_ASK) then
             '(item, _) ← asserted (roster_item_set_publish item STATE_REMOVED_REMOTELY None);
             put_item handle item ;;
             emit (ContactsChanged {[handle]} ∅) ;;
             _gabble_roster_send_presence_ack c from sub_type true
           else _gabble_roster_send_presence_ack c from sub_type false) ;;
          mret true
        else if bool_decide (sub_type = "subscribed") then
          (if bool_decide (subscribe item ≠ STATE_YES) then
             put_item handle (i_set_subscribe STATE_YES item) ;;
             emit (ContactsChanged {[handle]} ∅) ;;
             _gabble_roster_send_presence_ack c from sub_type true
           else _gabble_roster_send_presence_ack c from sub_type false) ;;
          mret true
        else if bool_decide (sub_type = "unsubscribed") then
          (if bool_decide (subscribe item = STATE_YES) || bool_decide (subscribe item = STATE_ASK)
           then
             put_item handle (i_set_subscribe STATE_REMOVED_REMOTELY item) ;;
             emit (ContactsChanged {[handle]} ∅) ;;
             _gabble_roster_send_presence_ack c from sub_type true
           else _gabble_roster_send_presence_ack c from sub_type false) ;;
          mret true
        else mret false
  end.

(** *** The user's requests *)

Definition gabble_roster_dup_contacts (s : GabbleRoster R) : gset Z :=
  list_to_set (fst <$> List.filter (λ '(_, item), stored item ||
    bool_decide (subscribe item ≠ STATE_NO) || bool_decide (publish item ≠ STATE_NO))
    (map_to_list (items s))).

Definition gabble_roster_dup_states (s : GabbleRoster R) (contact : Z) :
    TpSubscriptionState * TpSubscriptionState * option string :=
  match items s !! contact with
  | None => (STATE_NO, STATE_NO, None)
  | Some item => (subscribe item, publish item, publish_request item)
  end.

Definition gabble_roster_dup_blocked_contacts (s : GabbleRoster R) : gset Z :=
  list_to_set (fst <$> List.filter (λ '(_, item), blocked item) (map_to_list (items s))).

Definition gabble_roster_can_block (c : Conn) : bool := google_roster_feature c.

Definition gabble_roster_dup_groups (s : GabbleRoster R) : list string :=
  match groups s with Some g => group_names s g | None => [] end.

Definition gabble_roster_dup_contact_groups (s : GabbleRoster R) (contact : Z) : list string :=
  match items s !! contact with Some item => group_names s (item_groups item) | None => [] end.

Definition gabble_roster_dup_group_members (s : GabbleRoster R) (group : string) : gset Z :=
  let group_handle := tp_handle_lookup (group_repo s) group in
  if group_handle =? 0 then ∅
  else list_to_set (fst <$> List.filter
    (λ '(_, item), bool_decide (group_handle ∈ item_groups item)) (map_to_list (items s))).

Definition gabble_roster_handle_sends_presence_to_us (s : GabbleRoster R) (handle : Z) : bool :=
  PresenceCache.handle_is_valid (contact_repo s) handle &&
  match items s !! handle with
  | None => false
  | Some item => bool_decide (subscription item = SUBSCRIPTION_TO) ||
                 bool_decide (subscription item = SUBSCRIPTION_BOTH)
  end.

Definition gabble_roster_handle_gets_presence_from_us (s : GabbleRoster R) (handle : Z) : bool :=
  PresenceCache.handle_is_valid (contact_repo s) handle &&
  match items s !! handle with
  | None => false
  | Some item => negb (blocked item) &&
                 (bool_decide (subscription item = SUBSCRIPTION_FROM) ||
                  bool_decide (subscription item = SUBSCRIPTION_BOTH))
  end.

(** Sending to each contact, up to the first failure: whether there was none. *)
Fixpoint until_error (l : list Z) (body : Z → MR bool) : MR bool :=
  match l with
  | [] => mret true
  | x :: l' => ok ← body x; if ok : bool then until_error l' body else mret false
  end.

Definition gabble_roster_request_subscription_added_cb (c : Conn) (call : Z)
    (contacts : gset Z) (message : option string) : MR unit :=
  ok ← until_error (elements contacts) (λ contact,
    item ← _gabble_roster_item_lookup contact;
    id ← contact_id contact;
    if match item with
       | Some i => bool_decide (subscription i = SUBSCRIPTION_TO) ||
                   bool_decide (subscription i = SUBSCRIPTION_BOTH)
       | None => false
       end
    then mret true
    else gabble_connection_send_presence c "subscribe" id message);
  gabble_simple_async_succeed_or_fail_in_idle call ok.

(** A countdown around a loop over contacts. *)
Definition countdown (k : continuation) (body : Z → MR unit) : MR Z :=
  result ← gabble_simple_async_countdown_new k;
  body result ;;
  gabble_simple_async_countdown_dec result ;;
  mret result.

Definition gabble_roster_request_subscription_async (c : Conn) (contacts : gset Z)
    (message : option string) : MR Z :=
  countdown (SubscribeContext contacts message) (λ result,
    for_each (elements contacts) (λ contact, gabble_roster_handle_add c contact (Some result))).

Definition gabble_roster_authorize_publication_async (c : Conn) (contacts : gset Z) : MR Z :=
  call ← new_call;
  ok ← until_error (elements contacts) (λ contact,
    item ← _gabble_roster_item_lookup contact;
    let p := default STATE_NO (publish <$> item) in
    if bool_decide (p = STATE_NO) || bool_decide (p = STATE_REMOVED_REMOTELY) then
      s ← get;
      put_pre_authorized ((λ g, {[contact]} ∪ g) <$> pre_authorized s) ;; mret true
    else if bool_decide (p = STATE_ASK) then gabble_roster_handle_subscribed c contact EmptyString
    else mret true);
  gabble_simple_async_succeed_or_fail_in_idle call ok ;;
  mret call.

Definition gabble_roster_store_contacts_async (c : Conn) (contacts : gset Z) : MR Z :=
  countdown CallUser (λ result,
    for_each (elements contacts) (λ contact, gabble_roster_handle_add c contact (Some result))).

Definition gabble_roster_remove_contacts_async (c : Conn) (contacts : gset Z) : MR Z :=
  countdown CallUser (λ result,
    for_each (elements contacts) (λ contact, gabble_roster_handle_remove c contact result)).

(** One contact of [gabble_roster_unsubscribe_async]: the sets so far, and
    whether to go on. *)
Definition unsubscribe_one (c : Conn) (contact : Z) (ch rm : gset Z) :
    MR (gset Z * gset Z * bool) :=
  id ← contact_id contact;
  item ← _gabble_roster_item_lookup contact;
  match item with
  | None => mret (ch, rm, true)
  | Some item =>
      if bool_decide (subscribe item = STATE_NO) then mret (ch, rm, true)
      else if bool_decide (subscribe item = STATE_REMOVED_REMOTELY) then
        put_item contact (fst (roster_item_set_subscribe item STATE_NO)) ;;
        gone ← _gabble_roster_item_maybe_remove contact;
        mret (if (gone : bool) then (ch, {[contact]} ∪ rm, true) else ({[contact]} ∪ ch, rm, true))
      else
        ok ← gabble_connection_send_presence c "unsubscribe" id (Some EmptyString);
        mret (ch, rm, ok)
  end.

Definition unpublish_one (c : Conn) (contact : Z) (ch rm : gset Z) :
    MR (gset Z * gset Z * bool) :=
  id ← contact_id contact;
  item ← _gabble_roster_item_lookup contact;
  match item with
  | None => mret (ch, rm, true)
  | Some item =>
      '(ch, rm) ←
        (if bool_decide (publish item = STATE_ASK) ||
            bool_decide (publish item = STATE_REMOVED_REMOTELY) then
           '(item, _) ← asserted (roster_item_set_publish item STATE_NO None);
           put_item contact item ;;
           gone ← _gabble_roster_item_maybe_remove contact;
           mret (if (gone : bool) then (ch, {[contact]} ∪ rm) else ({[contact]} ∪ ch, rm))
         else mret (ch, rm));
      item ← get_item contact;                       (* item->publish, item possibly freed *)
      if bool_decide (publish item = STATE_NO) then mret (ch, rm, true)
      else
        ok ← gabble_connection_send_presence c "unsubscribed" id (Some EmptyString);
        mret (ch, rm, ok)
  end.

Fixpoint each_contact (l : list Z) (body : Z → gset Z → gset Z → MR (gset Z * gset Z * bool))
    (ch rm : gset Z) : MR (gset Z * gset Z * bool) :=
  match l with
  | [] => mret (ch, rm, true)
  | x :: l' =>
      '(ch, rm, ok) ← body x ch rm;
      if ok : bool then each_contact l' body ch rm else mret (ch, rm, false)
  end.

Definition gabble_roster_unsubscribe_async (c : Conn) (contacts : gset Z) : MR Z :=
  call ← new_call;
  '(ch, rm, ok) ← each_contact (elements contacts) (unsubscribe_one c) ∅ ∅;
  emit (ContactsChanged ch rm) ;;
  gabble_simple_async_succeed_or_fail_in_idle call ok ;;
  mret call.

Definition gabble_roster_unpublish_async (c : Conn) (contacts : gset Z) : MR Z :=
  call ← new_call;
  '(ch, rm, ok) ← each_contact (elements contacts) (unpublish_one c) ∅ ∅;
  emit (ContactsChanged ch rm) ;;
  gabble_simple_async_succeed_or_fail_in_idle call ok ;;
  mret call.

Definition gabble_roster_download_async (c : Conn) : MR Z :=
  call ← new_call;
  when (negb (download_at_connection c))
    (emit (SendRosterGet (_gabble_roster_message_new c "get" []))) ;;
  gabble_simple_async_succeed_or_fail_in_idle call true ;;
  mret call.

Definition gabble_roster_block_contacts_async (c : Conn) (contacts : gset Z) (b : bool) : MR Z :=
  countdown CallUser (λ result,
    for_each (elements contacts) (λ contact,
      gabble_roster_handle_set_blocked c contact b result)).

(** *** Groups *)

(** Adding to [priv->groups], which is NULL after disconnection: whether the
    group is new. *)
Definition create_group (group_handle : Z) : MR bool :=
  s ← get;
  if in_set (groups s) group_handle then mret false
  else put_groups ((λ g, {[group_handle]} ∪ g) <$> groups s) ;; mret true.

Fixpoint ensure_groups (l : list string) (set : gset Z) (created : list string) :
    MR (gset Z * list string) :=
  match l with
  | [] => mret (set, created)
  | g :: l' =>
      group_handle ← ensure_group g;
      if group_handle =? 0 then ensure_groups l' set created
      else
        b ← create_group group_handle;
        ensure_groups l' ({[group_handle]} ∪ set) (if (b : bool) then created ++ [g] else created)
  end.

Definition gabble_roster_set_contact_groups_async (c : Conn) (contact : Z) (names : list string) :
    MR Z :=
  _gabble_roster_item_ensure c contact ;;
  countdown CallUser (λ result,
    '(groups_set, groups_created) ← ensure_groups names ∅ [];
    when (bool_decide (groups_created ≠ [])) (emit (GroupsCreated groups_created)) ;;
    queue_edit contact (Some result) (e_set_groups (Some groups_set) None true) ;;
    roster_item_apply_edits c contact).

Definition gabble_roster_set_group_members_async (c : Conn) (group : string) (contacts : gset Z) :
    MR Z :=
  group_handle ← ensure_group group;
  countdown CallUser (λ result,
    if group_handle =? 0 then set_from_error result
    else
      b ← create_group group_handle;
      when b (emit (GroupsCreated [group])) ;;
      s ← get;
      for_each (fst <$> map_to_list (items s)) (λ contact,
        if bool_decide (contact ∈ contacts)
        then gabble_roster_handle_add_to_group c contact group_handle result
        else gabble_roster_handle_remove_from_group c contact group_handle result)).

Definition gabble_roster_add_to_group_async (c : Conn) (group : string) (contacts : gset Z) :
    MR Z :=
  group_handle ← ensure_group group;
  countdown CallUser (λ result,
    if group_handle =? 0 then set_from_error result
    else
      b ← create_group group_handle;
      when b (emit (GroupsCreated [group])) ;;
      for_each (elements contacts) (λ contact,
        gabble_roster_handle_add_to_group c contact group_handle result)).

Definition gabble_roster_remove_from_group_async (c : Conn) (group : string) (contacts : gset Z) :
    MR Z :=
  s ← get;
  let group_handle := tp_handle_lookup (group_repo s) group in
  countdown CallUser (λ result,
    if group_handle =? 0 then mret tt
    else for_each (elements contacts) (λ contact,
      gabble_roster_handle_remove_from_group c contact group_handle result)).

Definition members_of (s : GabbleRoster R) (group_handle : Z) : list Z :=
  fst <$> List.filter (λ '(_, item), bool_decide (group_handle ∈ item_groups item))
            (map_to_list (items s)).

Definition gabble_roster_remove_group_removed_cb (group_handle : Z) (contacts : gset Z) : MR unit :=
  s ← get;
  when (negb (group_handle =? 0) &&
        forallb (λ m, bool_decide (m ∈ contacts)) (members_of s group_handle))
    (put_groups ((λ g, g ∖ {[group_handle]}) <$> groups s) ;;
     emit (GroupsRemoved [default EmptyString (tp_handle_inspect (group_repo s) group_handle)]) ;;
     put_items ((λ i, i_set_groups (item_groups i ∖ {[group_handle]}) i) <$> items s)).

Definition gabble_roster_remove_group_async (c : Conn) (group : string) : MR Z :=
  s ← get;
  let group_handle := tp_handle_lookup (group_repo s) group in
  let exists_group := negb (group_handle =? 0) && in_set (groups s) group_handle in
  let contacts := if exists_group then members_of s group_handle else [] in
  countdown (RemoveGroupContext group_handle (list_to_set contacts)) (λ result,
    for_each contacts (λ contact,
      gabble_roster_handle_remove_from_group c contact group_handle result)).

(** *** Idle sources *)

(** The callback of an idle source; a result is freed with its idle source. *)
Definition run_idle (c : Conn) (i : idle_source) : MR unit :=
  match i with
  | ReportResult call ok => emit (Done call ok)
  | CompleteResult simple =>
      s ← get;
      match results s !! simple with
      | None => fail MemoryFault
      | Some r =>
          put_results (delete simple (results s)) (next_result s) ;;
          match callback r with
          | CallUser => emit (Done simple (negb (failed r)))
          | SubscribeContext contacts message =>
              gabble_roster_request_subscription_added_cb c simple contacts message
          | RemoveGroupContext group_handle contacts =>
              gabble_roster_remove_group_removed_cb group_handle contacts ;;
              emit (Done simple (negb (failed r)))
          end
      end
  end.

(** The main loop runs the [n]th of the idle sources. *)
Definition dispatch_idle (c : Conn) (n : nat) : MR unit :=
  s ← get;
  match idles s !! n with
  | None => mret tt
  | Some i => put_idles (take n (idles s) ++ drop (S n) (idles s)) ;; run_idle c i
  end.

(** *** The connection *)

Definition gabble_roster_close_all : MR unit :=
  put_groups None ;; put_pre_authorized None.

Definition connection_status_changed_cb (c : Conn) (st : PresenceCache.TpConnectionStatus) :
    MR unit :=
  match st with
  | PresenceCache.CONNECTED =>
      when (download_at_connection c)
        (emit (SendRosterGet (_gabble_roster_message_new c "get" [])))
  | PresenceCache.CONNECTING => mret tt
  | PresenceCache.DISCONNECTED =>
      gabble_roster_close_all ;;
      s ← get;
      put_received (received s) false              (* the base class has no connection *)
  end.

(** [reply]: the stanza, or [None] for an error. *)
Definition roster_received_cb (c : Conn) (reply : option WockyNode) : MR unit :=
  match reply with
  | Some response => got_roster_iq c response ;; mret tt
  | None => mret tt
  end.

Definition gabble_roster_constructed (contacts group_names : R) : GabbleRoster R :=
  mkRoster ∅ (Some ∅) (Some ∅) false false ∅ 0 ∅ 0 [] contacts group_names [].

End roster.
End Roster.
