(* ===== verification/RosterFacts.v ===== *)
(** * The roster: requests, edits and announcements

    Every input of the roster is a constructor of [roster_input]; the theorems
    are about every sequence of them.  [inv] is the invariant: which edits
    exist and which asynchronous results they hold, and that every request of
    the user is either held by an edit or answered once. *)

From S2P Require Import Prelude Node Namespaces Jid Capabilities Presence PresenceCache PresenceCacheFacts Roster.

Module RosterFacts.
Import Jid Capabilities Roster.

(** ** Sums over tables *)

Definition msum {A} (f : A → nat) (m : gmap Z A) : nat :=
  map_fold (λ _ a n, (f a + n)%nat) O m.

Section sums.
Context {A : Type} (f : A → nat).
Implicit Types m : gmap Z A.

Lemma msum_empty : msum f ∅ = 0%nat.
Proof. apply map_fold_empty. Qed.

Lemma msum_insert m k a : m !! k = None → msum f (<[k := a]> m) = (f a + msum f m)%nat.
Proof. intros Hk. unfold msum. rewrite map_fold_insert_L; [done|intros; lia|done]. Qed.

Lemma msum_delete m k a : m !! k = Some a → msum f m = (f a + msum f (delete k m))%nat.
Proof. intros Hk. unfold msum. by rewrite (map_fold_delete_L _ _ k a m) by (done || intros; lia). Qed.

Lemma msum_update m k a b :
  m !! k = Some a → (msum f (<[k := b]> m) + f a = msum f m + f b)%nat.
Proof.
  intros Hk. rewrite (msum_delete m k a Hk), <- insert_delete_eq.
  rewrite msum_insert by apply lookup_delete_eq. lia.
Qed.

Lemma msum_pos m : (0 < msum f m)%nat → ∃ k a, m !! k = Some a ∧ (0 < f a)%nat.
Proof.
  induction m as [|k a m Hk IH] using map_ind; [rewrite msum_empty; lia|].
  rewrite msum_insert by done. intros Hp.
  destruct (decide (0 < f a)%nat); [exists k, a; by rewrite lookup_insert_eq|].
  destruct IH as (k' & a' & Hk' & ?); [lia|]. exists k', a'.
  rewrite lookup_insert_ne by naive_solver. done.
Qed.
End sums.

Lemma msum_fmap {A B} (f : B → nat) (g : A → B) (m : gmap Z A) :
  msum f (g <$> m) = msum (λ a, f (g a)) m.
Proof.
  induction m as [|k a m Hk IH] using map_ind; [by rewrite fmap_empty, !msum_empty|].
  rewrite fmap_insert, !msum_insert; [by rewrite IH|done|by rewrite lookup_fmap, Hk].
Qed.

Lemma msum_ext {A} (f g : A → nat) (m : gmap Z A) :
  (∀ a, f a = g a) → msum f m = msum g m.
Proof.
  intros He. induction m as [|k a m Hk IH] using map_ind; [by rewrite !msum_empty|].
  by rewrite !msum_insert, IH, He.
Qed.

Ltac wpe_step :=
  match goal with
  | |- wpe _ (mbind _ _) _ _ => apply wpe_bind
  | |- wpe _ (mret _) _ _ => apply wpe_ret; cbv beta
  | |- wpe _ get _ _ => apply wpe_get
  | |- wpe _ (modify _) _ _ => apply wpe_modify; cbv beta
  | |- wpe _ (put_items _) _ _ => apply wpe_modify; cbv beta
  | |- wpe _ (put_in_flight _ _) _ _ => apply wpe_modify; cbv beta
  | |- wpe _ (put_received _ _) _ _ => apply wpe_modify; cbv beta
  | |- wpe _ (put_results _ _) _ _ => apply wpe_modify; cbv beta
  | |- wpe _ (put_idles _) _ _ => apply wpe_modify; cbv beta
  | |- wpe _ (when _ _) _ _ => apply wpe_when; intros ?
  end.

(** ** The invariant *)

Abbreviation occ l r := (count_occ Z.eq_dec l r).

Section facts.
Context {R : Type} `{HL : HandleRepoLaws R}.
Context (down norm : string → string).

Local Notation Roster := (GabbleRoster R).
Local Notation MR := (M Roster).
Local Notation valid := PresenceCache.handle_is_valid.
Implicit Types (s : Roster) (i : GabbleRosterItem) (e : GabbleRosterItemEdit).

Definition edit_refs (r : Z) (o : option GabbleRosterItemEdit) : nat :=
  match o with Some e => occ (e_results e) r | None => 0 end.

(** How many times edits, unsent or in flight, hold a result. *)
Definition refs s (r : Z) : nat :=
  (msum (λ i, edit_refs r (unsent_edits i)) (items s) +
   msum (λ e, occ (e_results e) r) (in_flight s))%nat.

Definition answers_in (r : Z) (x : idle_source) : bool :=
  match x with CompleteResult y => y =? r | ReportResult y _ => y =? r end.
Definition answers (r : Z) (x : roster_event) : bool :=
  match x with Done y _ => y =? r | _ => false end.

(** How many times a call was or is about to be answered. *)
Definition answered s (r : Z) : nat :=
  (length (List.filter (answers_in r) (idles s)) + length (List.filter (answers r) (events s)))%nat.

(** [ex] and [calls] are the countdowns and the calls that are being set up. *)
Record accounts (ex calls : list Z) s : Prop := {
  acc_todo r x : results s !! r = Some x → todo x = Z.of_nat (refs s r + occ ex r);
  acc_none r : results s !! r = None → (refs s r + occ ex r = 0)%nat;
  acc_answered r : answered s r =
    if bool_decide (0 <= r < next_result s ∧ (refs s r + occ ex r + occ calls r = 0)%nat)
    then 1%nat else 0%nat;
  acc_idle r : CompleteResult r ∈ idles s → is_Some (results s !! r);
  acc_fresh r : ¬ (0 <= r < next_result s) → results s !! r = None ∧ occ calls r = 0%nat;
  acc_next : 0 <= next_result s;
  acc_calls r x : results s !! r = Some x → occ calls r = 0%nat;
  acc_report r ok : ReportResult r ok ∈ idles s → results s !! r = None;
}.

(** [D]: the contacts whose edits are about to be applied. *)
Record shape (D : list Z) s : Prop := {
  sh_valid h i : items s !! h = Some i → valid (contact_repo s) h = true;
  sh_google h i : items s !! h = Some i → google_type i ≠ GOOGLE_ITEM_TYPE_INVALID;
  sh_edit h i e : items s !! h = Some i → unsent_edits i = Some e → e_handle e = h;
  sh_busy h i : items s !! h = Some i →
    edits_in_flight i = true ↔ ∃ iq e, in_flight s !! iq = Some e ∧ e_handle e = h;
  sh_sent iq e : in_flight s !! iq = Some e → is_Some (items s !! e_handle e);
  sh_one iq iq' e e' : in_flight s !! iq = Some e → in_flight s !! iq' = Some e' →
    e_handle e = e_handle e' → iq = iq';
  sh_iq iq : next_iq s <= iq → in_flight s !! iq = None;
  sh_waiting h i : items s !! h = Some i → is_Some (unsent_edits i) →
    edits_in_flight i = true ∨ received s = false ∨ h ∈ D;
}.

(** No item has the subscription that stands for "no edit". *)
Definition sane s : Prop :=
  ∀ h i, items s !! h = Some i → subscription i ≠ SUBSCRIPTION_INVALID.

(** No contact was removed by the server while an edit that leaves the
    subscription alone is in flight. *)
Definition benign s : Prop :=
  ∀ iq e i, in_flight s !! iq = Some e → items s !! e_handle e = Some i →
    new_subscription e = SUBSCRIPTION_INVALID → subscription i ≠ SUBSCRIPTION_REMOVE.

Record inv (G B : Prop) (D ex calls : list Z) s : Prop := {
  inv_shape : shape D s;
  inv_accounts : accounts ex calls s;
  inv_sane : G → sane s;
  inv_benign : B → benign s;
}.

(** *** What the bookkeeping does not see *)

Definition core s s' : Prop :=
  items s' = items s ∧ received s' = received s ∧ results s' = results s ∧
  next_result s' = next_result s ∧ in_flight s' = in_flight s ∧ next_iq s' = next_iq s ∧
  idles s' = idles s ∧ extends (contact_repo s) (contact_repo s') ∧
  ∀ r, answered s' r = answered s r.

Lemma core_refl s : core s s.
Proof. unfold core. split_and!; done. Qed.

Lemma core_trans s1 s2 s3 : core s1 s2 → core s2 s3 → core s1 s3.
Proof.
  intros (?&?&?&?&?&?&?&?&Ha) (?&?&?&?&?&?&?&?&Hb). unfold core.
  split_and!; try congruence. by eapply extends_trans.
Qed.

(** Operations that return and touch nothing of it. *)
Definition quiet {A} (m : MR A) : Prop := ∀ s, wp m (λ _ s', core s s') s.

Lemma quiet_ret {A} (a : A) : quiet (mret a).
Proof. intros s. apply wp_ret, core_refl. Qed.

Lemma quiet_get : quiet get.
Proof. intros s. apply wp_get, core_refl. Qed.

Lemma quiet_bind {A B} (m : MR A) (f : A → MR B) :
  quiet m → (∀ a, quiet (f a)) → quiet (m ≫= f).
Proof.
  intros Hm Hf s. apply wp_bind. eapply wp_mono; [|apply Hm]. intros a s1 H1.
  eapply wp_mono; [|apply Hf]. intros b s2 H2. exact (core_trans _ _ _ H1 H2).
Qed.

Lemma quiet_when b (m : MR unit) : quiet m → quiet (when b m).
Proof. intros Hm. destruct b; [done|apply quiet_ret]. Qed.

Lemma quiet_for_each {A} (l : list A) (body : A → MR unit) :
  (∀ x, quiet (body x)) → quiet (for_each l body).
Proof.
  intros Hb. induction l as [|x l IH]; [apply quiet_ret|]. by apply quiet_bind.
Qed.

Lemma quiet_emit ev : (∀ r, answers r ev = false) → quiet (emit ev).
Proof.
  intros He s. apply wp_modify. unfold core, answered. cbn. split_and!; try done.
  intros r. rewrite List.filter_app. cbn. by rewrite He, app_nil_r.
Qed.

Lemma quiet_put_groups g : quiet (put_groups g).
Proof. intros s. apply wp_modify. unfold core. by split_and!. Qed.

Lemma quiet_put_pre_authorized g : quiet (put_pre_authorized g).
Proof. intros s. apply wp_modify. unfold core. by split_and!. Qed.

Lemma quiet_ensure_group g : quiet (ensure_group g).
Proof.
  intros s. unfold ensure_group. apply wp_bind, wp_get.
  destruct (tp_handle_ensure _ _). apply wp_bind, wp_modify, wp_ret. unfold core. by split_and!.
Qed.

Lemma quiet_valid_contact h : quiet (valid_contact h).
Proof. apply quiet_bind; [apply quiet_get|intros; apply quiet_ret]. Qed.

Lemma quiet_contact_id h : quiet (contact_id h).
Proof. apply quiet_bind; [apply quiet_get|intros; apply quiet_ret]. Qed.

Create HintDb quiet.
Hint Resolve quiet_ret quiet_get quiet_bind quiet_when quiet_for_each quiet_emit
  quiet_put_groups quiet_put_pre_authorized quiet_ensure_group quiet_valid_contact
  quiet_contact_id : quiet.
Ltac quiet :=
  repeat first
    [ progress intros
    | solve [auto 2 with quiet]
    | match goal with
      | |- quiet (if ?b then _ else _) => destruct b
      | |- quiet (match ?x with _ => _ end) => destruct x
      | |- quiet (mbind _ _) => apply quiet_bind
      | |- quiet (when _ _) => apply quiet_when
      | |- quiet (emit _) => apply quiet_emit
      | |- quiet (for_each _ _) => apply quiet_for_each
      end ].

Lemma quiet_cached_alias c h : quiet (_gabble_connection_get_cached_alias down c h).
Proof. unfold _gabble_connection_get_cached_alias, gabble_roster_handle_get_name. quiet. Qed.
Hint Resolve quiet_cached_alias : quiet.

Lemma quiet_send c n : quiet (_gabble_connection_send c n).
Proof. unfold _gabble_connection_send. quiet. Qed.
Hint Resolve quiet_send : quiet.

Lemma quiet_send_presence c ty to st : quiet (gabble_connection_send_presence down c ty to st).
Proof. unfold gabble_connection_send_presence, lm_message_node_add_own_nick. quiet. Qed.
Hint Resolve quiet_send_presence : quiet.

Lemma quiet_cancel c h i : quiet (roster_item_cancel_subscriptions down c h i).
Proof. unfold roster_item_cancel_subscriptions. quiet. Qed.

Lemma quiet_subscribed c h m : quiet (gabble_roster_handle_subscribed down c h m).
Proof. unfold gabble_roster_handle_subscribed. quiet. Qed.

Lemma quiet_announce h a b d : quiet (announce_groups (R := R) h a b d).
Proof. unfold announce_groups. quiet. Qed.

Lemma quiet_parse_groups l acc : quiet (parse_groups l acc).
Proof. revert acc. induction l as [|n l IH]; intros acc; cbn; quiet. Qed.

Lemma quiet_item_groups n : quiet (_parse_item_groups (R := R) n).
Proof. apply quiet_parse_groups. Qed.

Lemma quiet_create_group g : quiet (create_group (R := R) g).
Proof. unfold create_group. quiet. Qed.
Hint Resolve quiet_cancel quiet_subscribed quiet_announce quiet_item_groups quiet_create_group : quiet.

Lemma quiet_ensure_groups l a b : quiet (ensure_groups (R := R) l a b).
Proof. revert a b. induction l as [|g l IH]; intros a b; cbn; quiet. Qed.
Hint Resolve quiet_ensure_groups : quiet.

Lemma inv_core G B D ex calls s s' : inv G B D ex calls s → core s s' → inv G B D ex calls s'.
Proof.
  intros [[] [] Hs Hb] (Hi & Hr & Hre & Hn & Hf & Hq & Hd & He & Ha).
  assert (∀ r, refs s' r = refs s r) as Hrefs by (intros r; unfold refs; by rewrite Hi, Hf).
  split; [split|split| |].
  all: rewrite ?Hi, ?Hr, ?Hre, ?Hn, ?Hf, ?Hq, ?Hd; try done.
  - intros h i Hl. eapply PresenceCacheFacts.valid_extends; eauto.
  - intros r x. rewrite Hrefs. auto.
  - intros r. rewrite Hrefs. auto.
  - intros r. rewrite Ha, Hrefs. auto.
  - intros g h i. rewrite Hi. by apply Hs.
  - intros b iq e i. rewrite Hi, Hf. by apply Hb.
Qed.

Lemma quiet_wpe {A} G B D ex calls (m : MR A) (Q : A → Roster → Prop) s :
  quiet m → inv G B D ex calls s →
  (∀ a s', inv G B D ex calls s' → core s s' → Q a s') → wpe G m Q s.
Proof.
  intros Hm Hi HQ. apply wp_wpe. eapply wp_mono; [|apply Hm]. intros a s' Hc.
  apply HQ; [by eapply inv_core|done].
Qed.

(** *** Asynchronous results *)

Definition with_results (m : gmap Z AsyncResult) (n : Z) (l : list idle_source) s : Roster :=
  mkRoster (items s) (groups s) (pre_authorized s) (received s) (list_success s) m
    n (in_flight s) (next_iq s) l (contact_repo s) (group_repo s) (events s).

Lemma inv_with_results G B D ex ex' calls calls' s m n l :
  inv G B D ex calls s → accounts ex' calls' (with_results m n l s) →
  inv G B D ex' calls' (with_results m n l s).
Proof. intros [[] _ ? ?] Ha. split; [by split|done..]. Qed.

Lemma occ_app l l' r : occ (l ++ l') r = (occ l r + occ l' r)%nat.
Proof. apply count_occ_app. Qed.

Lemma occ_cons x l r : occ (x :: l) r = ((if bool_decide (x = r) then 1 else 0) + occ l r)%nat.
Proof. cbn. destruct (Z.eq_dec x r); [by rewrite bool_decide_eq_true_2|by rewrite bool_decide_eq_false_2]. Qed.

Lemma occ_perm l l' r : l ≡ₚ l' → occ l r = occ l' r.
Proof. intros Hp. by apply (proj1 (Permutation_count_occ Z.eq_dec _ _)). Qed.

Lemma result_exists ex calls s r :
  accounts ex calls s → (0 < refs s r + occ ex r)%nat → is_Some (results s !! r).
Proof.
  intros Ha Hp. destruct (results s !! r) eqn:E; [done|]. apply (acc_none _ _ _ Ha) in E. lia.
Qed.

Lemma result_in_range ex calls s r x :
  accounts ex calls s → results s !! r = Some x → 0 <= r < next_result s.
Proof.
  intros Ha Hr. destruct (decide (0 <= r < next_result s)) as [|Hn]; [done|].
  apply (acc_fresh _ _ _ Ha) in Hn as [Hn _]. congruence.
Qed.

(** What an operation on results leaves alone. *)
Definition same_items s s' : Prop :=
  items s' = items s ∧ received s' = received s ∧ in_flight s' = in_flight s ∧
  next_iq s' = next_iq s ∧ contact_repo s' = contact_repo s.

Lemma same_items_refl s : same_items s s.
Proof. unfold same_items. by split_and!. Qed.

Lemma same_items_trans s1 s2 s3 : same_items s1 s2 → same_items s2 s3 → same_items s1 s3.
Proof. unfold same_items. intros (?&?&?&?&?) (?&?&?&?&?). split_and!; congruence. Qed.

Lemma countdown_new_wpe G B D ex calls k s :
  inv G B D ex calls s →
  wpe G (gabble_simple_async_countdown_new k)
    (λ r s', inv G B D (r :: ex) calls s' ∧ same_items s s') s.
Proof.
  intros Hi. unfold gabble_simple_async_countdown_new. repeat wpe_step.
  split; [|unfold same_items; by split_and!].
  eapply (inv_with_results _ _ _ _ _ _ _ s _ _ (idles s)); [done|].
  destruct Hi as [_ [Ht Hn Ha Hd Hf Hx Hcl Hrp] _ _].
  assert (results s !! next_result s = None ∧ occ calls (next_result s) = 0%nat) as [Hnone Hc].
  { apply Hf. lia. }
  assert (refs s (next_result s) + occ ex (next_result s) = 0)%nat as Hz by by apply Hn.
  split; cbn; try done.
  - intros r x. rewrite lookup_insert_Some. intros [[<- <-]|[Hne Hl]]; cbn.
    + destruct (Z.eq_dec _ _); [|done]. unfold refs in *. cbn. lia.
    + destruct (Z.eq_dec _ _); [done|]. by apply Ht.
  - intros r. rewrite lookup_insert_None. intros [Hl Hne].
    destruct (Z.eq_dec _ _); [congruence|]. by apply Hn.
  - intros r. transitivity (answered s r); [done|]. rewrite Ha. cbn.
    destruct (Z.eq_dec (next_result s) r) as [<-|Hne].
    + rewrite !bool_decide_eq_false_2; [done| |]; unfold refs in *; cbn in *; lia.
    + apply (f_equal (λ b : bool, if b then 1%nat else 0%nat)).
      apply bool_decide_ext. unfold refs in *. cbn. lia.
  - intros r Hr%Hd. destruct Hr as [x Hr]. rewrite lookup_insert_is_Some.
    destruct (decide (next_result s = r)); eauto.
  - intros r Hr. destruct (Hf r) as [? ?]; [lia|]. split; [|done].
    rewrite lookup_insert_ne; [done|lia].
  - lia.
  - intros r x. rewrite lookup_insert_Some. intros [[<- _]|[_ ?]]; [done|by eapply Hcl].
  - intros r ok Hr. rewrite lookup_insert_ne; [by eapply Hrp|]. intros <-.
    assert (0 < answered s (next_result s))%nat as Hpos.
    { unfold answered. apply list_elem_of_split in Hr as (l1 & l2 & ->).
      rewrite List.filter_app, length_app. cbn. rewrite Z.eqb_refl. cbn. lia. }
    rewrite Ha, bool_decide_eq_false_2 in Hpos; lia.
Qed.

Lemma countdown_inc_wpe G B D ex calls r s :
  inv G B D ex calls s → r ∈ ex →
  wpe G (gabble_simple_async_countdown_inc r)
    (λ _ s', inv G B D (r :: ex) calls s' ∧ same_items s s') s.
Proof.
  intros Hi Hr. unfold gabble_simple_async_countdown_inc. repeat wpe_step.
  pose proof Hi as [_ Hacc _ _]. pose proof Hacc as [Ht Hn Ha Hd Hf Hx Hcl Hrp].
  assert (0 < occ ex r)%nat as Hpos by (apply count_occ_In; by apply list_elem_of_In).
  destruct (result_exists _ _ _ r Hacc) as [x Hl]; [lia|]. rewrite Hl.
  pose proof (Ht r x Hl) as Hto. apply wpe_when; [intros _|intros ?%Z.leb_gt; lia].
  apply wpe_modify. split; [|unfold same_items; by split_and!].
  eapply (inv_with_results _ _ _ _ _ _ _ s _ _ (idles s)); [done|].
  split; cbn; try done.
  - intros r' x'. rewrite lookup_insert_Some. intros [[<- <-]|[Hne Hl']]; cbn.
    + destruct (Z.eq_dec r r); [|done]. unfold refs in *. cbn in *. lia.
    + destruct (Z.eq_dec _ _); [done|]. by apply Ht.
  - intros r'. rewrite lookup_insert_None. intros [Hl' Hne].
    destruct (Z.eq_dec _ _); [congruence|]. by apply Hn.
  - intros r'. transitivity (answered s r'); [done|]. rewrite Ha.
    apply (f_equal (λ b : bool, if b then 1%nat else 0%nat)).
    apply bool_decide_ext. unfold refs in *. cbn. destruct (Z.eq_dec _ _); [subst; lia|done].
  - intros r' Hr'%Hd. rewrite lookup_insert_is_Some. destruct (decide (r = r')); eauto.
  - intros r' Hr'. destruct (Hf r') as [? ?]; [lia|]. split; [|done].
    rewrite lookup_insert_ne; [done|congruence].
  - intros r' x'. rewrite lookup_insert_Some. intros [[<- _]|[_ ?]]; by eapply Hcl.
  - intros r' ok Hr'%Hrp. rewrite lookup_insert_ne; [done|congruence].
Qed.

Lemma countdown_dec_wpe G B D ex calls r s :
  inv G B D (r :: ex) calls s →
  wpe G (gabble_simple_async_countdown_dec r)
    (λ _ s', inv G B D ex calls s' ∧ same_items s s') s.
Proof.
  intros Hi. unfold gabble_simple_async_countdown_dec. repeat wpe_step.
  pose proof Hi as [_ Hacc _ _]. pose proof Hacc as [Ht Hn Ha Hd Hf Hx Hcl Hrp].
  destruct (result_exists _ _ _ r Hacc) as [x Hl]; [rewrite occ_cons, bool_decide_eq_true_2 by done; lia|].
  rewrite Hl. pose proof (Ht r x Hl) as Hto. rewrite occ_cons, bool_decide_eq_true_2 in Hto by done.
  pose proof (result_in_range _ _ _ _ _ Hacc Hl) as Hrange.
  set (m := <[r := mkResult (todo x - 1) (failed x) (callback x)]> (results s)).
  set (l := if todo x - 1 <=? 0 then idles s ++ [CompleteResult r] else idles s).
  assert (accounts ex calls (with_results m (next_result s) l s)) as Hacc'.
  { split; cbn; try done.
    - intros r' x'. unfold m. rewrite lookup_insert_Some. intros [[<- <-]|[Hne Hl']]; cbn.
      + unfold refs in *. cbn in *. lia.
      + rewrite (Ht _ _ Hl'), occ_cons, bool_decide_eq_false_2 by done. done.
    - intros r'. unfold m. rewrite lookup_insert_None. intros [Hl' Hne].
      apply Hn in Hl'. rewrite occ_cons, bool_decide_eq_false_2 in Hl' by done. done.
    - intros r'. specialize (Ha r'). rewrite occ_cons in Ha. unfold l, answered in *. cbn in *.
      change (refs (with_results m (next_result s) _ s) r') with (refs s r').
      destruct (decide (r = r')) as [<-|Hne].
      + rewrite (bool_decide_eq_true_2 (r = r)), bool_decide_eq_false_2 in Ha by (done || lia).
        destruct (todo x - 1 <=? 0) eqn:Ez.
        * rewrite List.filter_app, length_app. cbn. rewrite Z.eqb_refl, bool_decide_eq_true_2; cbn;
            [lia|]. pose proof (Hcl _ _ Hl). lia.
        * rewrite bool_decide_eq_false_2; [done|lia].
      + rewrite (bool_decide_eq_false_2 (r = r')) in Ha by done. rewrite Nat.add_0_l in Ha. rewrite <- Ha.
        destruct (todo x - 1 <=? 0); [|done]. rewrite List.filter_app, length_app. cbn.
        rewrite (proj2 (Z.eqb_neq r r')) by done. cbn. lia.
    - intros r' Hr'. unfold m. rewrite lookup_insert_is_Some.
      destruct (decide (r = r')); [by left|right; split; [done|]]. apply Hd. unfold l in Hr'.
      destruct (todo x - 1 <=? 0); [|done]. apply elem_of_app in Hr' as [?|Hr']; [done|].
      apply list_elem_of_singleton in Hr'. congruence.
    - intros r' Hr'. destruct (Hf r' Hr') as [? ?]. split; [|done].
      unfold m. rewrite lookup_insert_ne; [done|congruence].
    - intros r' x'. unfold m. rewrite lookup_insert_Some. intros [[<- _]|[_ ?]]; by eapply Hcl.
    - intros r' ok Hr'. assert (results s !! r' = None) as Hnone.
      { apply (Hrp r' ok). unfold l in Hr'. destruct (todo x - 1 <=? 0); [|done].
        apply elem_of_app in Hr' as [?|Hr']; [done|]. by apply list_elem_of_singleton in Hr'. }
      unfold m. rewrite lookup_insert_ne; [done|congruence]. }
  apply wpe_bind, wpe_modify. apply wpe_when; intros Hz; [apply wpe_modify|];
    (split; [|unfold same_items; by split_and!]);
    pose proof (inv_with_results _ _ _ _ _ _ _ s m (next_result s) l Hi Hacc') as Hi';
    unfold l in Hi'; by rewrite Hz in Hi'.
Qed.

Lemma accounts_refs ex ex' calls s s' :
  accounts ex calls s → results s' = results s → next_result s' = next_result s →
  idles s' = idles s → (∀ r, answered s' r = answered s r) →
  (∀ r, refs s' r + occ ex' r = refs s r + occ ex r)%nat → accounts ex' calls s'.
Proof.
  intros [Ht Hn Ha Hd Hf Hx Hcl Hrp] Hr Hnx Hi Han He. split; rewrite ?Hr, ?Hnx, ?Hi; try done.
  - intros r x. rewrite He. apply Ht.
  - intros r. rewrite He. apply Hn.
  - intros r. rewrite Han, He. apply Ha.
Qed.

Lemma inv_ex G B D ex ex' calls s :
  (∀ r, occ ex r = occ ex' r) → inv G B D ex calls s → inv G B D ex' calls s.
Proof.
  intros He [? Ha ? ?]. split; try done. eapply accounts_refs; eauto.
Qed.

Lemma set_from_error_wpe G B D ex calls r s :
  inv G B D ex calls s → is_Some (results s !! r) →
  wpe G (set_from_error r) (λ _ s', inv G B D ex calls s' ∧ same_items s s' ∧
    ∀ r', is_Some (results s' !! r') ↔ is_Some (results s !! r')) s.
Proof.
  intros Hi [x Hl]. unfold set_from_error. repeat wpe_step. rewrite Hl.
  pose proof Hi as [_ [Ht Hn Ha Hd Hf Hx Hcl Hrp] _ _]. apply wpe_modify.
  split_and!; [|unfold same_items; by split_and!|].
  2: { intros r'. cbn. rewrite lookup_insert_is_Some. destruct (decide (r = r')); subst;
       rewrite ?Hl; naive_solver. }
  eapply (inv_with_results _ _ _ _ _ _ _ s _ _ (idles s)); [done|].
  split; cbn; try done.
  - intros r' x'. rewrite lookup_insert_Some. intros [[<- <-]|[Hne Hl']];
    [exact (Ht _ _ Hl)|exact (Ht _ _ Hl')].
  - intros r'. rewrite lookup_insert_None. intros [Hl' Hne]. by apply Hn.
  - intros r' Hr'%Hd. rewrite lookup_insert_is_Some. destruct (decide (r = r')); eauto.
  - intros r' Hr'. destruct (Hf r') as [? ?]; [lia|]. split; [|done].
    rewrite lookup_insert_ne; [done|congruence].
  - intros r' x'. rewrite lookup_insert_Some. intros [[<- _]|[_ ?]]; by eapply Hcl.
  - intros r' ok Hr'%Hrp. rewrite lookup_insert_ne; [done|congruence].
Qed.

Lemma set_errors_wpe G B D ex calls l s :
  inv G B D ex calls s → (∀ r, r ∈ l → is_Some (results s !! r)) →
  wpe G (for_each l set_from_error) (λ _ s', inv G B D ex calls s' ∧ same_items s s') s.
Proof.
  intros Hi Hl. apply (wpe_mono _ _ (λ _ s', inv G B D ex calls s' ∧ same_items s s' ∧
    ∀ r, r ∈ ([] : list Z) → is_Some (results s' !! r))); [|naive_solver].
  apply (wpe_for_each _ (λ l s', inv G B D ex calls s' ∧ same_items s s' ∧
    ∀ r, r ∈ l → is_Some (results s' !! r))); [|split_and!; [done|apply same_items_refl|done]].
  intros x l' s' (Hi' & Hs' & Hl'). eapply wpe_mono.
  - apply set_from_error_wpe; [exact Hi'|]. apply Hl'. by left.
  - intros [] s2 (Hi2 & Hs2 & Hr). split_and!; [done|by eapply same_items_trans|].
    intros r Hrl. apply Hr, Hl'. by right.
Qed.

Lemma edit_free_wpe G B D ex calls e s :
  inv G B D (e_results e ++ ex) calls s →
  wpe G (item_edit_free (Some e)) (λ _ s', inv G B D ex calls s' ∧ same_items s s') s.
Proof.
  intros Hi. unfold item_edit_free.
  apply (wpe_mono _ _ (λ _ s', inv G B D ([] ++ ex) calls s' ∧ same_items s s')); [|done].
  apply (wpe_for_each _ (λ l s', inv G B D (l ++ ex) calls s' ∧ same_items s s')).
  - intros x l s' [Hi' Hs']. eapply wpe_mono; [by apply countdown_dec_wpe|].
    intros [] s2 [Hi2 Hs2]. split; [done|by eapply same_items_trans].
  - split; [|apply same_items_refl]. eapply inv_ex; [|exact Hi]. intros r.
    rewrite !occ_app. f_equal. apply occ_perm. by rewrite reverse_Permutation.
Qed.

Lemma new_call_wpe G B D ex calls s :
  inv G B D ex calls s →
  wpe G new_call (λ r s', inv G B D ex (r :: calls) s' ∧ same_items s s') s.
Proof.
  intros Hi. unfold new_call. repeat wpe_step. split; [|unfold same_items; by split_and!].
  eapply (inv_with_results _ _ _ _ _ _ _ s _ _ (idles s)); [done|].
  destruct Hi as [_ [Ht Hn Ha Hd Hf Hx Hcl Hrp] _ _].
  assert (results s !! next_result s = None ∧ occ calls (next_result s) = 0%nat) as [Hnone Hc]
    by (apply Hf; lia).
  split; try done.
  - intros r. change (answered (with_results (results s) (next_result s + 1) (idles s) s) r)
      with (answered s r). rewrite Ha, occ_cons. cbn.
    change (refs (with_results (results s) (next_result s + 1) (idles s) s) r) with (refs s r).
    apply (f_equal (λ b : bool, if b then 1%nat else 0%nat)), bool_decide_ext.
    destruct (decide (next_result s = r)); [rewrite bool_decide_eq_true_2 by done; lia|].
    rewrite bool_decide_eq_false_2 by done. lia.
  - cbn. intros r Hr. destruct (Hf r) as [? ?]; [lia|]. split; [done|].
    destruct (Z.eq_dec _ _); [lia|done].
  - cbn. lia.
  - cbn. intros r x Hl. destruct (Z.eq_dec _ _); [congruence|by eapply Hcl].
Qed.

Lemma answered_idle s m n l x r :
  answered (with_results m n (l ++ [x]) s) r =
  (answered (with_results m n l s) r + if answers_in r x then 1 else 0)%nat.
Proof.
  unfold answered. cbn. rewrite List.filter_app, length_app. cbn.
  destruct (answers_in r x); cbn; lia.
Qed.

Lemma report_wpe G B D ex calls call ok s :
  inv G B D ex (call :: calls) s → 0 <= call < next_result s →
  refs s call = 0%nat → occ ex call = 0%nat → occ calls call = 0%nat →
  wpe G (gabble_simple_async_succeed_or_fail_in_idle call ok)
    (λ _ s', inv G B D ex calls s' ∧ same_items s s') s.
Proof.
  intros Hi Hrange Hrefs Hex Hcalls. unfold gabble_simple_async_succeed_or_fail_in_idle.
  repeat wpe_step. split; [|unfold same_items; by split_and!].
  apply (inv_with_results _ _ _ _ _ _ _ s (results s) (next_result s)
           (idles s ++ [ReportResult call ok]) Hi).
  destruct Hi as [_ [Ht Hn Ha Hd Hf Hx Hcl Hrp] _ _]. split; try done.
  - intros r. rewrite answered_idle.
    change (answered (with_results (results s) (next_result s) (idles s) s) r)
      with (answered s r).
    change (refs _ r) with (refs s r). rewrite Ha, occ_cons. cbn.
    destruct (decide (call = r)) as [<-|Hne].
    + rewrite Z.eqb_refl, (bool_decide_eq_true_2 (call = call)) by done.
      rewrite bool_decide_eq_false_2, bool_decide_eq_true_2; [done|lia|lia].
    + rewrite (proj2 (Z.eqb_neq call r)), (bool_decide_eq_false_2 (call = r)) by done.
      rewrite Nat.add_0_r. done.
  - cbn. intros r [Hr|Hr]%elem_of_app; [by apply Hd|]. by apply list_elem_of_singleton in Hr.
  - intros r Hr. destruct (Hf r Hr) as [? Ho]. rewrite occ_cons in Ho. split; [done|lia].
  - intros r x Hl. pose proof (Hcl r x Hl) as Ho. rewrite occ_cons in Ho. lia.
  - cbn. intros r ok' [Hr|Hr]%elem_of_app; [by eapply Hrp|].
    apply list_elem_of_singleton in Hr as [= -> _]. destruct (results s !! call) eqn:El; [|done].
    apply Hcl in El. rewrite occ_cons, bool_decide_eq_true_2 in El by done. lia.
Qed.

(** *** Items *)

Definition with_items (m : gmap Z GabbleRosterItem) s : Roster :=
  mkRoster m (groups s) (pre_authorized s) (received s) (list_success s) (results s)
    (next_result s) (in_flight s) (next_iq s) (idles s) (contact_repo s) (group_repo s)
    (events s).

Lemma refs_update s h i i' r :
  items s !! h = Some i →
  (refs (with_items (<[h := i']> (items s)) s) r + edit_refs r (unsent_edits i) =
   refs s r + edit_refs r (unsent_edits i'))%nat.
Proof.
  intros Hl. unfold refs. cbn.
  pose proof (msum_update (λ i, edit_refs r (unsent_edits i)) (items s) h i i' Hl). cbn in *. lia.
Qed.

(** Changing an item: what it holds moves between its edit and [ex]. *)
Lemma inv_update_item G B D D' ex ex' calls s h i i' :
  inv G B D ex calls s → items s !! h = Some i →
  edits_in_flight i' = edits_in_flight i →
  (∀ e, unsent_edits i' = Some e → e_handle e = h) →
  google_type i' ≠ GOOGLE_ITEM_TYPE_INVALID →
  (∀ r, occ ex' r + edit_refs r (unsent_edits i') = occ ex r + edit_refs r (unsent_edits i))%nat →
  (is_Some (unsent_edits i') → edits_in_flight i = true ∨ received s = false ∨ h ∈ D') →
  (∀ h', h' ≠ h → h' ∈ D → h' ∈ D') →
  (G → subscription i' ≠ SUBSCRIPTION_INVALID) →
  (B → subscription i' = subscription i ∨ subscription i' ≠ SUBSCRIPTION_REMOVE) →
  inv G B D' ex' calls (with_items (<[h := i']> (items s)) s).
Proof.
  intros [[Hv Hg Hed Hbu Hse Hon Hiq Hwa] Ha Hsane Hben] Hl Hfl He' Hg' Hoc Hw' HD HG HB.
  split; [split| | |]; unfold sane, benign; cbn.
  - intros h' i1 [[<- <-]|[_ ?]]%lookup_insert_Some; eauto.
  - intros h' i1 [[<- <-]|[_ ?]]%lookup_insert_Some; eauto.
  - intros h' i1 e [[<- <-]|[_ ?]]%lookup_insert_Some; eauto.
  - intros h' i1 [[<- <-]|[_ ?]]%lookup_insert_Some; [rewrite Hfl|]; eauto.
  - intros iq e Hf. rewrite lookup_insert_is_Some. destruct (decide (h = e_handle e)); eauto.
  - done.
  - done.
  - intros h' i1 [[<- <-]|[Hne Hl1]]%lookup_insert_Some Hs; [rewrite Hfl; eauto|].
    destruct (Hwa h' i1 Hl1 Hs) as [?|[?|?]]; eauto.
  - eapply accounts_refs; [exact Ha|done..|]. intros r.
    pose proof (refs_update s h i i' r Hl). specialize (Hoc r). cbn in *. lia.
  - intros g h' i1 [[<- <-]|[_ ?]]%lookup_insert_Some; [by apply HG|by eapply Hsane].
  - intros b iq e i1 Hf [[Heq <-]|[_ ?]]%lookup_insert_Some Hn; [|by eapply Hben].
    destruct (HB b) as [->|?]; [|done]. rewrite Heq in Hl. by eapply Hben.
Qed.

Lemma inv_new_item G B D ex calls s h alias :
  inv G B D ex calls s → items s !! h = None → valid (contact_repo s) h = true →
  inv G B D ex calls (with_items (<[h := mkItem SUBSCRIPTION_REMOVE false GOOGLE_ITEM_TYPE_NORMAL
    alias None ∅ false None STATE_NO STATE_NO None false false false]> (items s)) s).
Proof.
  intros [[Hv Hg Hed Hbu Hse Hon Hiq Hwa] Ha Hsane Hben] Hl Hvh.
  assert (∀ iq e, in_flight s !! iq = Some e → e_handle e ≠ h) as Hnone.
  { intros iq e Hf <-. apply Hse in Hf as [i Hi]. congruence. }
  split; [split| | |]; unfold sane, benign; cbn.
  - intros h' i1 [[<- <-]|[_ ?]]%lookup_insert_Some; eauto.
  - intros h' i1 [[<- <-]|[_ ?]]%lookup_insert_Some; [done|eauto].
  - intros h' i1 e [[<- <-]|[_ ?]]%lookup_insert_Some; [done|eauto].
  - intros h' i1 [[<- <-]|[_ ?]]%lookup_insert_Some; [|eauto]. cbn. split; [done|].
    intros (iq & e & Hf & He). by apply Hnone in Hf.
  - intros iq e Hf. rewrite lookup_insert_is_Some. right. split; [|eauto].
    intros Heq. by apply Hnone in Hf.
  - done.
  - done.
  - intros h' i1 [[<- <-]|[Hne Hl1]]%lookup_insert_Some Hs; [by destruct Hs|eauto].
  - eapply accounts_refs; [exact Ha|done..|]. intros r. unfold refs. cbn.
    by rewrite msum_insert by done.
  - intros g h' i1 [[<- <-]|[_ ?]]%lookup_insert_Some; [done|by eapply Hsane].
  - intros b iq e i1 Hf [[Heq <-]|[_ ?]]%lookup_insert_Some Hn; [|by eapply Hben].
    by apply Hnone in Hf.
Qed.

Definition held (o : option GabbleRosterItemEdit) : list Z :=
  match o with Some e => e_results e | None => [] end.

Lemma inv_delete_item G B D ex calls s h i :
  inv G B D ex calls s → items s !! h = Some i → edits_in_flight i = false →
  inv G B D (held (unsent_edits i) ++ ex) calls (with_items (delete h (items s)) s).
Proof.
  intros [[Hv Hg Hed Hbu Hse Hon Hiq Hwa] Ha Hsane Hben] Hl Hfl.
  assert (∀ iq e, in_flight s !! iq = Some e → e_handle e ≠ h) as Hnone.
  { intros iq e Hf He. assert (edits_in_flight i = true) by (apply (Hbu h i Hl); eauto). congruence. }
  split; [split| | |]; unfold sane, benign; cbn.
  - intros h' i1 [_ ?]%lookup_delete_Some. eauto.
  - intros h' i1 [_ ?]%lookup_delete_Some. eauto.
  - intros h' i1 e [_ ?]%lookup_delete_Some. eauto.
  - intros h' i1 [_ ?]%lookup_delete_Some. eauto.
  - intros iq e Hf. rewrite lookup_delete_ne; [eauto|]. intros Heq. by apply Hnone in Hf.
  - done.
  - done.
  - intros h' i1 [_ ?]%lookup_delete_Some ?. eauto.
  - eapply accounts_refs; [exact Ha|done..|]. intros r. unfold refs. cbn.
    rewrite (msum_delete (λ i, edit_refs r (unsent_edits i)) (items s) h i Hl), occ_app.
    replace (occ (held (unsent_edits i)) r) with (edit_refs r (unsent_edits i))
      by by destruct (unsent_edits i). lia.
  - intros g h' i1 [_ ?]%lookup_delete_Some. by eapply Hsane.
  - intros b iq e i1 Hf [_ ?]%lookup_delete_Some. by eapply Hben.
Qed.

Definition with_flight (m : gmap Z GabbleRosterItem) (f : gmap Z GabbleRosterItemEdit) (n : Z) s :
    Roster :=
  mkRoster m (groups s) (pre_authorized s) (received s) (list_success s) (results s)
    (next_result s) f n (idles s) (contact_repo s) (group_repo s) (events s).

(** An edit leaves its item for the network. *)
Lemma inv_edit_send G B D ex calls s h i e0 e :
  inv G B (h :: D) ex calls s → items s !! h = Some i → edits_in_flight i = false →
  unsent_edits i = Some e0 → e_handle e = h → e_results e = e_results e0 →
  (new_subscription e = SUBSCRIPTION_INVALID → subscription i ≠ SUBSCRIPTION_REMOVE) →
  inv G B D ex calls (with_flight (<[h := i_set_edits true None i]> (items s))
    (<[next_iq s := e]> (in_flight s)) (next_iq s + 1) s).
Proof.
  intros [[Hv Hg Hed Hbu Hse Hon Hiq Hwa] Ha Hsane Hben] Hl Hfl Hun Heh Her Hb.
  assert (in_flight s !! next_iq s = None) as Hfresh by (apply Hiq; lia).
  assert (∀ iq e, in_flight s !! iq = Some e → e_handle e ≠ h) as Hnone.
  { intros iq e' Hf He. assert (edits_in_flight i = true) by (apply (Hbu h i Hl); eauto). congruence. }
  split; [split| | |]; unfold sane, benign; cbn.
  - intros h' i1 [[<- <-]|[_ ?]]%lookup_insert_Some; eauto.
  - intros h' i1 [[<- <-]|[_ ?]]%lookup_insert_Some; [exact (Hg _ _ Hl)|eauto].
  - intros h' i1 e1 [[<- <-]|[_ ?]]%lookup_insert_Some; [done|eauto].
  - intros h' i1 [[<- <-]|[Hne Hl1]]%lookup_insert_Some; cbn.
    + split; [|done]. intros _. exists (next_iq s), e. by rewrite lookup_insert_eq.
    + rewrite (Hbu h' i1 Hl1). split; intros (iq & e1 & Hf & He1); exists iq, e1.
      * rewrite lookup_insert_ne by congruence. done.
      * apply lookup_insert_Some in Hf as [[_ <-]|[_ ?]]; [congruence|done].
  - intros iq e1 Hf. rewrite lookup_insert_is_Some.
    apply lookup_insert_Some in Hf as [[_ <-]|[_ ?%Hse]]; [by left|].
    destruct (decide (h = e_handle e1)); eauto.
  - intros iq iq' e1 e2 [[<- <-]|[? H1]]%lookup_insert_Some [[<- <-]|[? H2]]%lookup_insert_Some Heq;
      [done| | |by eapply Hon]; exfalso.
    + apply Hnone in H2. congruence.
    + apply Hnone in H1. congruence.
  - intros iq Hge. rewrite lookup_insert_ne by lia. apply Hiq. lia.
  - intros h' i1 [[<- <-]|[Hne Hl1]]%lookup_insert_Some Hs; [by destruct Hs|].
    destruct (Hwa h' i1 Hl1 Hs) as [?|[?|[?|?]%elem_of_cons]]; eauto.
  - eapply accounts_refs; [exact Ha|done..|]. intros r. unfold refs. cbn.
    pose proof (msum_update (λ i, edit_refs r (unsent_edits i)) (items s) h i
                  (i_set_edits true None i) Hl) as Hm.
    cbn in Hm. rewrite Hun in Hm. cbn in Hm. 
    rewrite (msum_insert _ (in_flight s) (next_iq s) e Hfresh), Her. lia.
  - intros g h' i1 [[<- <-]|[_ ?]]%lookup_insert_Some; [exact (Hsane g _ _ Hl)|by eapply Hsane].
  - intros b iq e1 i1 [[<- <-]|[_ Hf]]%lookup_insert_Some Hi1 Hn.
    + rewrite Heh, lookup_insert_eq in Hi1. injection Hi1 as <-. by apply Hb.
    + rewrite lookup_insert_ne in Hi1 by (intros Heq; by apply Hnone in Hf). by eapply Hben.
Qed.

(** The reply to an edit: its item may send the next one. *)
Lemma inv_edit_reply G B D ex calls s iq e i :
  inv G B D ex calls s → in_flight s !! iq = Some e → items s !! e_handle e = Some i →
  inv G B (e_handle e :: D) (e_results e ++ ex) calls
    (with_flight (<[e_handle e := i_set_edits false (unsent_edits i) i]> (items s))
       (delete iq (in_flight s)) (next_iq s) s).
Proof.
  intros [[Hv Hg Hed Hbu Hse Hon Hiq Hwa] Ha Hsane Hben] Hf Hl.
  split; [split| | |]; unfold sane, benign; cbn.
  - intros h' i1 [[<- <-]|[_ ?]]%lookup_insert_Some; eauto.
  - intros h' i1 [[<- <-]|[_ ?]]%lookup_insert_Some; [exact (Hg _ _ Hl)|eauto].
  - intros h' i1 e1 [[<- <-]|[_ ?]]%lookup_insert_Some; [exact (Hed _ _ e1 Hl)|eauto].
  - intros h' i1 [[<- <-]|[Hne Hl1]]%lookup_insert_Some; cbn.
    + split; [done|]. intros (iq' & e1 & [? Hf1]%lookup_delete_Some & He1).
      by rewrite (Hon _ _ _ _ Hf Hf1) in * by done.
    + rewrite (Hbu h' i1 Hl1). split; intros (iq' & e1 & Hf1 & He1); exists iq', e1.
      * split; [|done]. rewrite lookup_delete_ne; [done|]. intros <-. congruence.
      * by apply lookup_delete_Some in Hf1 as [_ ?].
  - intros iq' e1 [_ Hf1]%lookup_delete_Some. rewrite lookup_insert_is_Some.
    destruct (decide (e_handle e = e_handle e1)); eauto.
  - intros iq1 iq2 e1 e2 [_ ?]%lookup_delete_Some [_ ?]%lookup_delete_Some. by eapply Hon.
  - intros iq' Hge. rewrite lookup_delete_None. right. by apply Hiq.
  - intros h' i1 [[<- <-]|[Hne Hl1]]%lookup_insert_Some Hs; [right; right; by left|].
    destruct (Hwa h' i1 Hl1 Hs) as [?|[?|?]]; eauto. right. right. by right.
  - eapply accounts_refs; [exact Ha|done..|]. intros r. unfold refs. cbn.
    pose proof (msum_update (λ i, edit_refs r (unsent_edits i)) (items s) (e_handle e) i
                  (i_set_edits false (unsent_edits i) i) Hl) as Hm. cbn in Hm.
    rewrite (msum_delete (λ e, occ (e_results e) r) (in_flight s) iq e Hf), occ_app. lia.
  - intros g h' i1 [[<- <-]|[_ ?]]%lookup_insert_Some; [exact (Hsane g _ _ Hl)|by eapply Hsane].
  - intros b iq' e1 i1 [_ Hf1]%lookup_delete_Some [[Heq <-]|[_ Hi1]]%lookup_insert_Some Hn;
      [|by eapply Hben]. cbn. rewrite Heq in Hl. by eapply Hben.
Qed.

(** *** Operations on one item *)

(** The IQs that are to be answered before all edits are gone: one for each
    in flight, at most one more for each item with unsent edits. *)
Definition load s : nat :=
  (msum (λ _, 1) (in_flight s) +
   msum (λ i, match unsent_edits i with Some _ => 2 | None => 0 end) (items s))%nat.

Lemma load_same s s' : items s' = items s → in_flight s' = in_flight s → load s' = load s.
Proof. intros Hi Hf. unfold load. by rewrite Hi, Hf. Qed.

Definition new_item (alias : option string) : GabbleRosterItem :=
  mkItem SUBSCRIPTION_REMOVE false GOOGLE_ITEM_TYPE_NORMAL alias None ∅
    false None STATE_NO STATE_NO None false false false.

Lemma cached_alias_fresh c h s :
  items s !! h = None →
  wp (_gabble_connection_get_cached_alias down c h)
    (λ p s', p.1 < GABBLE_CONNECTION_ALIAS_FROM_ROSTER ∧ s' = s) s.
Proof.
  intros Hn. unfold _gabble_connection_get_cached_alias, valid_contact, contact_id,
    gabble_roster_handle_get_name. wp_steps; try done.
  - rewrite Hn in E0. destruct (PresenceCache.handle_is_valid _ _); cbn in E0; by rewrite andb_false_r in E0.
  - split; [|done]. revert E1. unfold get_cached_remote_alias. repeat case_match; intros [= <- <-]; done.
  - split; [|done]. cbn. destruct (bool_decide _) eqn:Eb; [|done]. apply bool_decide_eq_true in Eb.
    rewrite Hn in Eb. by destruct (PresenceCache.handle_is_valid _ _).
Qed.

Lemma ensure_wpe G B D ex calls c h s :
  inv G B D ex calls s → (G → valid (contact_repo s) h = true) →
  wpe G (_gabble_roster_item_ensure down c h) (λ _ s', inv G B D ex calls s' ∧
    (s' = s ∧ is_Some (items s !! h) ∨
     items s !! h = None ∧ ∃ alias, s' = with_items (<[h := new_item alias]> (items s)) s)) s.
Proof.
  intros Hi Hv. unfold _gabble_roster_item_ensure, assert_valid_contact, valid_contact,
    _gabble_roster_item_lookup. repeat wpe_step. apply wpe_assert; [done|]. intros Hvalid.
  destruct (items s !! h) as [i|] eqn:Hl; [apply wpe_ret; eauto|].
  apply wpe_bind, wp_wpe. eapply wp_mono; [|by apply cached_alias_fresh].
  intros [source alias] s1 [Hs ->]. cbn in Hs.
  repeat wpe_step. apply wpe_assert; [intros _; by apply Z.ltb_lt|]. intros _.
  unfold put_item. repeat wpe_step. split; [by apply inv_new_item|]. right. eauto.
Qed.

Lemma get_item_wpe G (Q : GabbleRosterItem → Roster → Prop) h s :
  (G → is_Some (items s !! h)) → (∀ i, items s !! h = Some i → Q i s) → wpe G (get_item h) Q s.
Proof.
  intros Hs HQ. unfold get_item. repeat wpe_step.
  destruct (items s !! h) eqn:E; [by apply wpe_ret, HQ|]. apply wpe_fail. intros [? ?]%Hs. done.
Qed.

Definition removable (i : GabbleRosterItem) : bool :=
  bool_decide (subscription i = SUBSCRIPTION_REMOVE) && negb (edits_in_flight i) &&
  bool_decide (publish i = STATE_NO) && bool_decide (subscribe i = STATE_NO).

Lemma load_delete s s' h i :
  items s !! h = Some i → items s' = delete h (items s) → in_flight s' = in_flight s →
  (load s' ≤ load s)%nat.
Proof.
  intros Hl Hi Hf. unfold load. rewrite Hi, Hf.
  rewrite (msum_delete _ (items s) h i Hl). lia.
Qed.

Lemma maybe_remove_wpe G B D ex calls h i s :
  inv G B D ex calls s → items s !! h = Some i →
  wpe G (_gabble_roster_item_maybe_remove h) (λ b s', inv G B D ex calls s' ∧
    b = removable i ∧ received s' = received s ∧ in_flight s' = in_flight s ∧
    contact_repo s' = contact_repo s ∧
    (if b then items s' = delete h (items s) else s' = s)) s.
Proof.
  intros Hi Hl. pose proof (sh_valid _ _ (inv_shape _ _ _ _ _ _ Hi) h i Hl) as Hv.
  unfold _gabble_roster_item_maybe_remove, assert_valid_contact, valid_contact,
    _gabble_roster_item_lookup, removable, remove_item.
  repeat wpe_step. apply wpe_assert; [done|]. intros _. repeat wpe_step. rewrite Hl.
  destruct (decide (subscription i = SUBSCRIPTION_REMOVE)) as [Hs|Hs].
  2: { rewrite bool_decide_eq_true_2, bool_decide_eq_false_2 by done. apply wpe_ret. by split_and!. }
  rewrite bool_decide_eq_false_2, (bool_decide_eq_true_2 (subscription i = _)) by (done || naive_solver).
  destruct (edits_in_flight i) eqn:Hf; [apply wpe_ret; by split_and!|].
  destruct (decide (publish i = STATE_NO)) as [Hp|Hp].
  2: { rewrite bool_decide_eq_true_2, bool_decide_eq_false_2 by done. apply wpe_ret. by split_and!. }
  rewrite bool_decide_eq_false_2, (bool_decide_eq_true_2 (publish i = _)) by (done || naive_solver).
  destruct (decide (subscribe i = STATE_NO)) as [Hu|Hu].
  2: { rewrite bool_decide_eq_true_2, bool_decide_eq_false_2 by done. apply wpe_ret. by split_and!. }
  rewrite bool_decide_eq_false_2, (bool_decide_eq_true_2 (subscribe i = _)) by (done || naive_solver).
  pose proof (inv_delete_item _ _ _ _ _ s h i Hi Hl Hf) as Hd. repeat wpe_step.
  destruct (unsent_edits i) as [e|] eqn:Hun.
  - eapply wpe_mono; [by apply edit_free_wpe|].
    intros [] s2 [Hi2 (Hit & Hre & Hfl & _ & Hco)]. apply wpe_ret. by split_and!.
  - apply wpe_ret, wpe_ret. by split_and!.
Qed.

(** *** Sending edits *)

(** What every stage of editing does to the two fields that may be invalid. *)
Definition fields_ok (item : GabbleRosterItem) (edits : GabbleRosterItemEdit)
    (x : GabbleRosterItem) : Prop :=
  google_type x ≠ GOOGLE_ITEM_TYPE_INVALID ∧
  (subscription x = subscription item ∨
   subscription x = new_subscription edits ∧ new_subscription edits ≠ SUBSCRIPTION_INVALID).

Lemma edited_item_ok item edits edited altered sub :
  edited_item item edits = (edited, altered, sub) →
  google_type item ≠ GOOGLE_ITEM_TYPE_INVALID →
  google_type edited ≠ GOOGLE_ITEM_TYPE_INVALID ∧
  (subscription item ≠ SUBSCRIPTION_INVALID → subscription edited ≠ SUBSCRIPTION_INVALID) ∧
  (altered = true → sub = SUBSCRIPTION_INVALID → subscription item ≠ SUBSCRIPTION_REMOVE).
Proof.
  intros He Hg.
  assert (fields_ok item edits (edit_groups item edits (edit_name item edits
    (edit_subscription item edits (edit_google item edits (item, create edits))))).1) as [H1 H2].
  { assert (∀ x, fields_ok item edits x.1 → fields_ok item edits (edit_groups item edits x).1) as A1
      by (intros x; unfold edit_groups; by destruct (edits_groups edits)).
    assert (∀ x, fields_ok item edits x.1 → fields_ok item edits (edit_name item edits x).1) as A2
      by (intros x; unfold edit_name; by repeat case_match).
    apply A1, A2. unfold edit_subscription, edit_google, fields_ok.
    destruct (bool_decide_reflect (new_google_type edits = GOOGLE_ITEM_TYPE_INVALID));
      destruct (bool_decide (new_google_type edits = google_type item));
      destruct (bool_decide_reflect (new_subscription edits = SUBSCRIPTION_INVALID));
      destruct (bool_decide (new_subscription edits = subscription item));
      destruct (cancels_instead item edits); cbn; eauto. }
  revert He. unfold edited_item. destruct (edit_groups _ _ _) as [x b]. cbn in *.
  destruct (b && _ && _) eqn:E; intros [= <- <- <-]; cbn.
  - naive_solver.
  - split_and!; [done|destruct H2 as [->|[-> ?]]; done|].
    intros -> Hn Hr. cbn in E. destruct H2 as [Heq|[? ?]]; [|done].
    rewrite Heq, Hr, Hn in E. done.
Qed.

Lemma item_to_node_some google jid names i :
  subscription i ≠ SUBSCRIPTION_INVALID → google_type i ≠ GOOGLE_ITEM_TYPE_INVALID →
  is_Some (item_to_node google jid names i).
Proof.
  intros Hs Hg. unfold item_to_node.
  destruct (subscription i); try done; destruct (google_type i); try done; destruct google; cbn; eauto.
Qed.

Lemma load_put s s' h i i' :
  items s !! h = Some i → items s' = <[h := i']> (items s) → in_flight s' = in_flight s →
  (unsent_edits i = None → unsent_edits i' = None) → (load s' ≤ load s)%nat.
Proof.
  intros Hl Hi Hf Hu. unfold load. rewrite Hi, Hf.
  pose proof (msum_update (λ i, match unsent_edits i with Some _ => 2%nat | None => 0%nat end)
                (items s) h i i' Hl) as Hm. cbn in Hm.
  destruct (unsent_edits i), (unsent_edits i'); try lia. by specialize (Hu eq_refl).
Qed.

(** The only fields of an item that sending its edits changes. *)
Definition same_but_edits (h : Z) (i : GabbleRosterItem) s s' : Prop :=
  received s' = received s ∧ extends (contact_repo s) (contact_repo s') ∧
  ∃ b o, items s' = <[h := i_set_edits b o i]> (items s).

Lemma same_but_edits_refl h i s : items s !! h = Some i → same_but_edits h i s s.
Proof.
  intros Hl. split_and!; [done|apply extends_refl|].
  exists (edits_in_flight i), (unsent_edits i). rewrite insert_id; [done|].
  rewrite Hl. by destruct i.
Qed.

Lemma inv_settled G B D ex calls h i s :
  inv G B (h :: D) ex calls s → items s !! h = Some i →
  (is_Some (unsent_edits i) → edits_in_flight i = true ∨ received s = false) →
  inv G B D ex calls s.
Proof.
  intros [[] ? ? ?] Hl Hw. split; try done. split; try done.
  intros h' i' Hl' Hs. destruct (sh_waiting0 h' i' Hl' Hs) as [?|[?|[->|?]%elem_of_cons]]; eauto.
  rewrite Hl in Hl'. injection Hl' as <-. naive_solver.
Qed.

(** Results are counted down whatever the table of items is, so an item may be
    changed before or after. *)
Lemma countdowns_with_items l m s :
  for_each l gabble_simple_async_countdown_dec (with_items m s) =
  match for_each l gabble_simple_async_countdown_dec s with
  | Ok (u, s') => Ok (u, with_items m s')
  | Abort x => Abort x
  end.
Proof.
  revert s. induction l as [|r l IH]; intros s; [done|]. cbn. unfold mbind, M_bind.
  unfold gabble_simple_async_countdown_dec at 1 3, mbind, M_bind, get. cbn.
  destruct (results s !! r) as [x|]; [|done].
  set (res := <[r := mkResult (todo x - 1) (failed x) (callback x)]> (results s)).
  cbn. fold res. destruct (todo x - 1 <=? 0);
    [exact (IH (with_results res (next_result s) (idles s ++ [CompleteResult r]) s))
    |exact (IH (with_results res (next_result s) (idles s) s))].
Qed.

Lemma countdowns_items l s u s' :
  for_each l gabble_simple_async_countdown_dec s = Ok (u, s') → items s' = items s.
Proof.
  revert s. induction l as [|r l IH]; intros s; [by intros [= _ <-]|].
  intros ([] & s1 & H1 & H2)%bind_Ok. rewrite (IH _ H2). revert H1.
  unfold gabble_simple_async_countdown_dec, mbind, M_bind, get, when. cbn.
  destruct (results s !! r) as [x|]; [|done]. cbn. by destruct (todo x - 1 <=? 0); intros [= <-].
Qed.

Lemma free_put_wpe G e h i (Q : unit → Roster → Prop) s :
  wpe G (item_edit_free (Some e)) Q (with_items (<[h := i]> (items s)) s) →
  wpe G (item_edit_free (Some e)) (λ _, wpe G (put_item h i) Q) s.
Proof.
  unfold wpe, item_edit_free. rewrite countdowns_with_items.
  destruct (for_each _ _ s) as [[[] s']|] eqn:E; [|done].
  apply countdowns_items in E. unfold put_item, mbind, M_bind, get. cbn. by rewrite E.
Qed.

(** The part of sending an edit that may send presence stanzas instead. *)
Lemma cancel_wpe G B D ex calls c h i e s :
  inv G B D ex calls s → items s !! h = Some i → unsent_edits i = Some e →
  wpe G (if cancels_instead i e then
           ok ← roster_item_cancel_subscriptions down c h i;
           when (negb ok) (for_each (e_results e) set_from_error)
         else mret tt)
    (λ _ s', inv G B D ex calls s' ∧ items s' = items s ∧ received s' = received s ∧
      in_flight s' = in_flight s ∧ next_iq s' = next_iq s ∧
      extends (contact_repo s) (contact_repo s')) s.
Proof.
  intros Hi Hl Hu. destruct (cancels_instead i e); [|apply wpe_ret; by split_and!].
  apply wpe_bind. eapply quiet_wpe; [by auto with quiet|done|].
  intros ok s1 Hi1 (Hit & Hre & _ & _ & Hf & Hq & _ & Hx & _).
  apply wpe_when; intros _; [|by split_and!].
  eapply wpe_mono; [apply set_errors_wpe; [exact Hi1|]|].
  - intros r Hr. eapply result_exists; [apply Hi1|]. unfold refs. rewrite Hit.
    rewrite (msum_delete _ (items s) h i Hl), Hu. cbn.
    assert (0 < occ (e_results e) r)%nat by (apply count_occ_In; by apply list_elem_of_In). lia.
  - intros [] s2 [Hi2 (H1 & H2 & H3 & H4 & H5)].
    rewrite H1, H2, H3, H4, H5. by split_and!.
Qed.

Lemma apply_edits_wpe G B D ex calls c h i s :
  inv G B (h :: D) ex calls s → items s !! h = Some i →
  wpe G (roster_item_apply_edits down c h) (λ _ s', inv G B D ex calls s' ∧
    same_but_edits h i s s' ∧ (load s' ≤ load s)%nat) s.
Proof.
  intros Hi Hl. unfold roster_item_apply_edits. apply wpe_bind, get_item_wpe; [eauto|].
  intros i0 Hl0. rewrite Hl in Hl0. injection Hl0 as <-. apply wpe_bind, wpe_get.
  assert (∀ b, (is_Some (unsent_edits i) → edits_in_flight i = true ∨ received s = false) →
    wpe G (mret b) (λ (_ : unit) s', inv G B D ex calls s' ∧
      same_but_edits h i s s' ∧ (load s' ≤ load s)%nat) s) as Hstay.
  { intros b Hw. apply wpe_ret. split_and!; [by eapply inv_settled|by apply same_but_edits_refl|lia]. }
  destruct (received s) eqn:Hrec; cbn [negb]; [|apply Hstay; eauto].
  destruct (edits_in_flight i) eqn:Hfl; [apply Hstay; eauto|].
  destruct (unsent_edits i) as [e|] eqn:Hu; [|apply Hstay; by intros []]. clear Hstay.
  apply wpe_bind. eapply wpe_mono; [by apply cancel_wpe|].
  intros [] s1 (Hi1 & Hit & Hre & Hf & Hq & Hx).
  rewrite <- Hit in Hl. pose proof Hi1 as [Hsh Hacc Hsane _].
  pose proof (sh_edit _ _ Hsh h i e Hl Hu) as Heh.
  destruct (edited_item i e) as [[edited altered] sub] eqn:Hed.
  destruct (edited_item_ok i e edited altered sub Hed) as (Hgo & Hsub & Hinv);
    [by eapply (sh_google _ _ Hsh)|].
  destruct altered; cbn [negb].
  - apply wpe_bind. unfold _gabble_roster_item_to_message, assert_valid_contact, valid_contact, contact_id.
    repeat wpe_step. apply wpe_assert; [intros _; by eapply (sh_valid _ _ Hsh)|]. intros _.
    repeat wpe_step.
    destruct (item_to_node _ _ _ edited) as [n|] eqn:En.
    2: { apply wpe_fail. intros g.
         assert (subscription edited ≠ SUBSCRIPTION_INVALID) as Hns by (apply Hsub; by eapply (Hsane g)).
         destruct (item_to_node_some (google_roster_feature c)
           (default EmptyString (tp_handle_inspect (contact_repo s1) h))
           (tp_handle_inspect (group_repo s1) <$> elements (item_groups edited)) edited Hns Hgo).
         congruence. }
    unfold asserted, put_item. repeat wpe_step. cbn [in_flight next_iq items].
    assert (inv G B D ex calls (with_flight (<[h := i_set_edits true None i]> (items s1))
      (<[next_iq s1 := e_set_subscription sub e]> (in_flight s1)) (next_iq s1 + 1) s1)) as Hi2.
    { eapply inv_edit_send; eauto. }
    eapply quiet_wpe; [by auto with quiet|exact Hi2|]. intros [] s3 Hi3 Hc3.
    eapply quiet_wpe; [by auto with quiet|exact Hi3|]. intros [] s4 Hi4 Hc4.
    destruct (core_trans _ _ _ Hc3 Hc4) as (Hit4 & Hre4 & _ & _ & Hf4 & _ & _ & Hx4 & _). cbn in *.
    split_and!; [done| |].
    + split_and!; [congruence|by eapply extends_trans|]. exists true, None. by rewrite Hit4, Hit.
    + unfold load. rewrite Hit4, Hf4.
      pose proof (msum_update (λ i, match unsent_edits i with Some _ => 2%nat | None => 0%nat end)
                    (items s1) h i (i_set_edits true None i) Hl) as Hm.
      cbn in Hm. rewrite Hu in Hm.
      rewrite (msum_insert _ (in_flight s1)) by (apply (sh_iq _ _ Hsh); lia). rewrite <- Hit, <- Hf. lia.
  - apply wpe_bind.
    assert (inv G B D (e_results e ++ ex) calls
      (with_items (<[h := i_set_edits false None i]> (items s1)) s1)) as Hi2.
    { eapply (inv_update_item _ _ (h :: D) D ex _ _ s1 h i); [exact Hi1|exact Hl|done|done|..].
      - exact (sh_google _ _ Hsh _ _ Hl).
      - intros r. rewrite occ_app, Hu. cbn. lia.
      - by intros [].
      - by intros h' Hne [?|?]%elem_of_cons.
      - intros g. exact (Hsane g _ _ Hl).
      - by left. }
    apply free_put_wpe. eapply wpe_mono; [apply edit_free_wpe; exact Hi2|].
    intros [] s3 [Hi3 (Hit3 & Hre3 & Hf3 & _ & Hco3)]. cbn in *.
    split_and!; [done| |].
    + split_and!; [congruence|by rewrite Hco3|]. exists false, None. by rewrite Hit3, Hit.
    + rewrite (load_same s1 s) by done. eapply load_put; [exact Hl|exact Hit3|done|done].
Qed.

(** *** Queueing edits *)

Definition keeps_owner (f : GabbleRosterItemEdit → GabbleRosterItemEdit) : Prop :=
  ∀ e, e_handle (f e) = e_handle e ∧ e_results (f e) = e_results e.

Lemma queue_edit_wpe G B D ex calls h i result f s :
  inv G B D ex calls s → items s !! h = Some i → (∀ r, result = Some r → r ∈ ex) →
  keeps_owner f →
  wpe G (queue_edit h result f) (λ _ s', inv G B (h :: D) ex calls s' ∧
    is_Some (items s' !! h)) s.
Proof.
  intros Hi Hl Hr Hf. unfold queue_edit. apply wpe_bind, get_item_wpe; [eauto|].
  intros i0 Hl0. rewrite Hl in Hl0. injection Hl0 as <-. apply wpe_bind.
  apply (wpe_mono _ _ (λ _ s', inv G B D (option_list result ++ ex) calls s' ∧ same_items s s')).
  { destruct result as [r|]; [apply countdown_inc_wpe; [done|by apply Hr]|].
    apply wpe_ret. split; [done|apply same_items_refl]. }
  intros [] s1 [Hi1 (Hit & _)]. rewrite <- Hit in Hl. unfold put_item. repeat wpe_step.
  split; [|cbn; rewrite lookup_insert_eq; eauto].
  pose proof Hi1 as [Hsh _ Hsane _].
  set (e := default (item_edit_new h) (unsent_edits i)).
  assert (e_handle e = h) as Heh.
  { unfold e. destruct (unsent_edits i) eqn:Hu; [by eapply (sh_edit _ _ Hsh)|done]. }
  eapply (inv_update_item _ _ D (h :: D) _ ex _ s1 h i); [exact Hi1|exact Hl|done|..].
  - cbn. intros e' [= <-]. cbn. destruct (Hf e) as [-> _]. done.
  - exact (sh_google _ _ Hsh _ _ Hl).
  - intros r. cbn. rewrite !occ_app. destruct (Hf e) as [_ ->]. unfold e.
    destruct (unsent_edits i); cbn; lia.
  - intros _. right. right. by left.
  - intros h' _ ?. by right.
  - intros g. exact (Hsane g _ _ Hl).
  - by left.
Qed.

Lemma queue_apply_wpe G B D ex calls c h result f s :
  inv G B D ex calls s → is_Some (items s !! h) → (∀ r, result = Some r → r ∈ ex) →
  keeps_owner f →
  wpe G (queue_edit h result f ;; roster_item_apply_edits down c h)
    (λ _ s', inv G B D ex calls s') s.
Proof.
  intros Hi [i Hl] Hr Hf. apply wpe_bind. eapply wpe_mono; [by eapply queue_edit_wpe|].
  intros [] s1 [Hi1 [i1 Hl1]]. eapply wpe_mono; [by apply apply_edits_wpe|]. by intros [] s2 [? _].
Qed.

Lemma ensured_is_some s s' h :
  (s' = s ∧ is_Some (items s !! h) ∨
   items s !! h = None ∧ ∃ alias, s' = with_items (<[h := new_item alias]> (items s)) s) →
  is_Some (items s' !! h).
Proof. intros [[-> ?]|(_ & alias & ->)]; [done|]. cbn. rewrite lookup_insert_eq. eauto. Qed.

(** The common shape of the requests about one contact. *)
Lemma edit_contact_wpe G B D ex calls c h result f s :
  inv G B D ex calls s → (G → valid (contact_repo s) h = true) →
  (∀ r, result = Some r → r ∈ ex) → keeps_owner f →
  wpe G (_gabble_roster_item_ensure down c h ;;
         queue_edit h result f ;; roster_item_apply_edits down c h)
    (λ _ s', inv G B D ex calls s') s.
Proof.
  intros Hi Hv Hr Hf. apply wpe_bind. eapply wpe_mono; [by apply ensure_wpe|].
  intros [] s1 [Hi1 He%ensured_is_some]. by apply queue_apply_wpe.
Qed.

Lemma keeps_owner_google t : keeps_owner (e_set_google_type t).
Proof. done. Qed.
Lemma keeps_owner_name n b : keeps_owner (e_set_name n b).
Proof. done. Qed.
Lemma keeps_owner_subscription x : keeps_owner (e_set_subscription x).
Proof. done. Qed.
Hint Resolve keeps_owner_google keeps_owner_name keeps_owner_subscription : roster.

Lemma valid_contact_wpe G (Q : bool → Roster → Prop) h s :
  Q (valid (contact_repo s) h) s → wpe G (valid_contact h) Q s.
Proof. done. Qed.

Lemma set_blocked_wpe G B D ex calls c h b r s :
  inv G B D ex calls s → r ∈ ex →
  wpe G (gabble_roster_handle_set_blocked down c h b r) (λ _ s', inv G B D ex calls s') s.
Proof.
  intros Hi Hr. apply wpe_bind, valid_contact_wpe.
  apply wpe_when; [intros [Hv _]%andb_true_iff|done].
  apply edit_contact_wpe; [done|done|by intros ? [= <-]|apply keeps_owner_google].
Qed.

Lemma set_name_wpe G B D ex calls c h n s :
  inv G B D ex calls s →
  wpe G (gabble_roster_handle_set_name down c h n) (λ _ s', inv G B D ex calls s') s.
Proof.
  intros Hi. apply wpe_bind, valid_contact_wpe.
  destruct (valid (contact_repo s) h) eqn:Hv; [|by apply wpe_ret]. cbn [negb].
  apply wpe_bind. eapply wpe_mono; [by apply ensure_wpe|].
  intros [] s1 [Hi1 [i1 Hl1]%ensured_is_some]. apply wpe_bind.
  eapply wpe_mono; [by eapply queue_edit_wpe; [|exact Hl1|done|apply keeps_owner_name]|].
  intros [] s2 [Hi2 [i2 Hl2]]. apply wpe_bind. eapply wpe_mono; [by apply apply_edits_wpe|].
  by intros [] s3 [? _].
Qed.

Lemma handle_remove_wpe G B D ex calls c h r s :
  inv G B D ex calls s → r ∈ ex →
  wpe G (gabble_roster_handle_remove down c h r) (λ _ s', inv G B D ex calls s') s.
Proof.
  intros Hi Hr. apply wpe_bind, valid_contact_wpe. apply wpe_bind, wpe_bind, wpe_get, wpe_ret.
  destruct (items s !! h) as [i|] eqn:Hl; [|by apply wpe_ret].
  apply wpe_when; [intros Hv|done]. apply wpe_bind.
  apply (wpe_mono _ _ (λ b s', inv G B D ex calls s' ∧ (b = false → is_Some (items s' !! h)))).
  { destruct (bool_decide _); [|apply wpe_ret; eauto]. unfold roster_item_set_publish, asserted. cbn.
    apply wpe_bind, wpe_ret. unfold put_item. apply wpe_bind. repeat wpe_step.
    set (i' := fst _). pose proof Hi as [Hsh _ Hsane _].
    assert (subscription i' = subscription i ∧ google_type i' = google_type i ∧
      unsent_edits i' = unsent_edits i ∧ edits_in_flight i' = edits_in_flight i) as (H1 & H2 & H3 & H4).
    { unfold i', roster_item_set_subscribe. by case_bool_decide. }
    assert (inv G B D ex calls (with_items (<[h := i']> (items s)) s)) as Hi1.
    { eapply (inv_update_item _ _ D D ex _ _ s h i); [exact Hi|exact Hl|done|..].
      - rewrite H3. intros e. by apply (sh_edit _ _ Hsh).
      - rewrite H2. by eapply (sh_google _ _ Hsh).
      - intros r'. by rewrite H3.
      - rewrite H3. by apply (sh_waiting _ _ Hsh).
      - done.
      - rewrite H1. intros g. exact (Hsane g _ _ Hl).
      - by left. }
    eapply wpe_mono; [eapply maybe_remove_wpe; [exact Hi1|apply lookup_insert_eq]|].
    intros b s2 (Hi2 & _ & _ & _ & _ & Hs2). split; [done|]. intros ->. subst s2.
    cbn. rewrite lookup_insert_eq. eauto. }
  intros [] s1 [Hi1 Hs1]; [eapply quiet_wpe; [by auto with quiet|done|done]|].
  apply queue_apply_wpe; [done|by apply Hs1|by intros ? [= <-]|apply keeps_owner_subscription].
Qed.

Lemma handle_add_wpe G B D ex calls c h result s :
  inv G B D ex calls s → (∀ r, result = Some r → r ∈ ex) →
  wpe G (gabble_roster_handle_add down c h result) (λ _ s', inv G B D ex calls s') s.
Proof.
  intros Hi Hr. apply wpe_bind, valid_contact_wpe. apply wpe_when; [intros Hv|done].
  apply wpe_bind. unfold gabble_roster_handle_has_entry, valid_contact. repeat wpe_step.
  eapply wpe_mono; [by apply ensure_wpe|]. intros [] s1 [Hi1 He%ensured_is_some].
  apply wpe_bind, get_item_wpe; [done|]. intros i Hl. apply wpe_when; [intros _|done].
  by apply queue_apply_wpe.
Qed.

Lemma add_to_group_wpe G B D ex calls c h g r s :
  inv G B D ex calls s → r ∈ ex →
  wpe G (gabble_roster_handle_add_to_group down c h g r) (λ _ s', inv G B D ex calls s') s.
Proof.
  intros Hi Hr. apply wpe_bind, valid_contact_wpe. apply wpe_bind.
  unfold valid_group. apply wpe_bind, wpe_get, wpe_ret.
  apply wpe_when; [intros [Hv _]%andb_true_iff|done].
  apply edit_contact_wpe; [done|done|by intros ? [= <-]|done].
Qed.

Lemma remove_from_group_wpe G B D ex calls c h g r s :
  inv G B D ex calls s → r ∈ ex →
  wpe G (gabble_roster_handle_remove_from_group down c h g r) (λ _ s', inv G B D ex calls s') s.
Proof.
  intros Hi Hr. apply wpe_bind, valid_contact_wpe. apply wpe_bind.
  unfold valid_group. apply wpe_bind, wpe_get, wpe_ret.
  apply wpe_when; [intros [Hv _]%andb_true_iff|done].
  apply edit_contact_wpe; [done|done|by intros ? [= <-]|done].
Qed.

(** *** Replies *)

Lemma maybe_remove_load s s' h i (b : bool) :
  items s !! h = Some i → in_flight s' = in_flight s →
  (if b then items s' = delete h (items s) else s' = s) → (load s' ≤ load s)%nat.
Proof. intros Hl Hf Hb. destruct b; [by eapply load_delete|by subst]. Qed.

(** After the reply [e] the item may have to be believed to exist. *)
Lemma believe_wpe G B D ex calls h i e s :
  inv G B D ex calls s → items s !! h = Some i →
  (G → subscription i = SUBSCRIPTION_REMOVE → new_subscription e ≠ SUBSCRIPTION_INVALID) →
  wpe G (when (bool_decide (subscription i = SUBSCRIPTION_REMOVE) &&
               negb (bool_decide (new_subscription e = SUBSCRIPTION_REMOVE)))
           (put_item h (i_set_subscription (new_subscription e) i)))
    (λ _ s', inv G B D ex calls s' ∧ load s' = load s ∧ is_Some (items s' !! h)) s.
Proof.
  intros Hi Hl Hg. pose proof Hi as [Hsh _ Hsane _].
  apply wpe_when; [intros [Hs Hn]%andb_true_iff|by eauto].
  apply bool_decide_eq_true in Hs. apply negb_true_iff, bool_decide_eq_false in Hn.
  unfold put_item. repeat wpe_step. split_and!; [| |cbn; rewrite lookup_insert_eq; eauto].
  - eapply (inv_update_item _ _ D D ex ex _ s h i); [exact Hi|exact Hl|done|..]; cbn.
    + intros e'. by apply (sh_edit _ _ Hsh).
    + by eapply (sh_google _ _ Hsh).
    + done.
    + by apply (sh_waiting _ _ Hsh).
    + done.
    + intros g. by apply Hg.
    + by right.
  - unfold load. cbn.
    pose proof (msum_update (λ i, match unsent_edits i with Some _ => 2%nat | None => 0%nat end)
      (items s) h i (i_set_subscription (new_subscription e) i) Hl) as Hm. cbn in Hm. lia.
Qed.

Lemma edited_cb_wpe G B c iq ok s :
  inv G B [] [] [] s → (G → B) →
  wpe G (roster_edited_cb down c iq ok) (λ _ s', inv G B [] [] [] s' ∧
    (is_Some (in_flight s !! iq) → (load s' < load s)%nat)) s.
Proof.
  intros Hi HGB. unfold roster_edited_cb. apply wpe_bind, wpe_get.
  destruct (in_flight s !! iq) as [e|] eqn:Hf; [|apply wpe_ret; split; [done|by intros []]].
  apply wpe_bind. apply (wpe_mono _ _ (λ _ s', inv G B [] [] [] s' ∧ same_items s s')).
  { apply wpe_when; intros _; [|split; [done|apply same_items_refl]].
    apply set_errors_wpe; [done|]. intros r Hr. eapply result_exists; [apply Hi|]. unfold refs.
    rewrite (msum_delete (λ e, occ (e_results e) r) (in_flight s) iq e Hf).
    assert (0 < occ (e_results e) r)%nat by (apply count_occ_In; by apply list_elem_of_In). lia. }
  intros [] s1 [Hi1 (Hit & Hre & Hfl & Hnq & Hco)].
  assert (load s1 = load s) as Hload by by apply load_same.
  rewrite <- Hfl in Hf |- *. rewrite <- Hnq. clear Hit Hre Hfl Hnq Hco Hi.
  destruct (sh_sent _ _ (inv_shape _ _ _ _ _ _ Hi1) iq e Hf) as [i Hl].
  unfold _gabble_roster_item_lookup. repeat wpe_step. cbn [items]. rewrite Hl. unfold put_item.
  repeat wpe_step. cbn [items].
  pose proof (inv_edit_reply _ _ _ _ _ s1 iq e i Hi1 Hf Hl) as Hi2. rewrite app_nil_r in Hi2.
  set (s2 := with_flight _ _ _ s1) in Hi2.
  assert (items s2 !! e_handle e = Some (i_set_edits false (unsent_edits i) i)) as Hl2
    by apply lookup_insert_eq.
  assert (load s1 = S (load s2)) as Hload2.
  { unfold load, s2. cbn. rewrite (msum_delete _ (in_flight s1) iq e Hf).
    pose proof (msum_update (λ i, match unsent_edits i with Some _ => 2%nat | None => 0%nat end)
      (items s1) (e_handle e) i (i_set_edits false (unsent_edits i) i) Hl) as Hm. cbn in Hm. lia. }
  eapply wpe_mono; [exact (apply_edits_wpe _ _ _ _ _ c _ _ s2 Hi2 Hl2)|].
  intros [] s3 (Hi3 & (_ & _ & b & o & Hit3) & Hload3).
  assert (items s3 !! e_handle e = Some (i_set_edits b o (i_set_edits false (unsent_edits i) i))) as Hl3.
  { by rewrite Hit3, lookup_insert_eq. }
  apply wpe_bind, get_item_wpe; [eauto|]. intros i3 Hl3'. rewrite Hl3 in Hl3'. injection Hl3' as <-.
  apply wpe_bind. eapply wpe_mono; [eapply believe_wpe; [exact Hi3|exact Hl3|]|].
  { cbn. intros g Hs Hn. pose proof (inv_benign _ _ _ _ _ _ Hi1 (HGB g) iq e i Hf Hl Hn). done. }
  intros [] s4 (Hi4 & Hload4 & [i4 Hl4]).
  apply wpe_bind. eapply wpe_mono; [eapply maybe_remove_wpe; [exact Hi4|exact Hl4]|].
  intros b5 s5 (Hi5 & _ & _ & Hf5 & _ & Hb5). apply wpe_ret.
  pose proof (maybe_remove_load _ _ _ _ _ Hl4 Hf5 Hb5) as Hload5.
  eapply wpe_mono; [apply edit_free_wpe; by rewrite app_nil_r|].
  intros [] s6 [Hi6 (Hit6 & _ & Hf6 & _)]. split; [done|]. intros _.
  rewrite (load_same s5 s6) by done. lia.
Qed.

(** *** Pushes *)

Lemma ensure_sender_wp jid s :
  wp (ensure_contact down norm jid) (λ h s', core s s' ∧
    (h ≠ 0 → valid (contact_repo s') h = true)) s.
Proof.
  unfold ensure_contact. apply wp_bind, wp_get.
  destruct (gabble_normalize_contact _ _ _ _ _) as [n|]; [|apply wp_ret; split; [apply core_refl|done]].
  destruct (tp_handle_ensure (contact_repo s) n) as [r h] eqn:Ee.
  apply wp_bind, wp_modify, wp_ret. cbn.
  pose proof (PresenceCacheFacts.ensure_extends (contact_repo s) n) as Hx.
  pose proof (lookup_ensure (contact_repo s) n) as Hl. rewrite Ee in Hx, Hl. cbn in *.
  split; [unfold core; by split_and!|]. intros Hne. rewrite <- Hl.
  apply PresenceCacheFacts.valid_lookup. congruence.
Qed.

Lemma parse_subscription_valid n : _parse_item_subscription n ≠ SUBSCRIPTION_INVALID.
Proof. unfold _parse_item_subscription. by repeat case_match. Qed.

Lemma parse_google_valid n : _parse_google_item_type n ≠ GOOGLE_ITEM_TYPE_INVALID.
Proof. unfold _parse_google_item_type. by repeat case_match. Qed.

(** The item after the attributes of the <item/> are read. *)
Definition read_item (google : bool) (n : WockyNode) (i : GabbleRosterItem) : GabbleRosterItem :=
  let i := i_set_ask (negb (tp_strdiff (wocky_node_get_attribute n "ask") (Some "subscribe")))
             (i_set_subscription (_parse_item_subscription n) i) in
  let i := if google
           then i_set_google (_parse_google_item_type n) (_extract_google_alias_for n) i else i in
  i_set_name (if bool_decide (_parse_item_subscription n = SUBSCRIPTION_REMOVE) then None
              else wocky_node_get_attribute n "name") i.

Lemma inv_unbenign (G B : Prop) D ex calls s : inv G B D ex calls s → inv G False D ex calls s.
Proof. by intros []. Qed.

Lemma item_update_wpe G B D ex calls c h n google s :
  inv G B D ex calls s → (G → valid (contact_repo s) h = true) →
  wpe G (_gabble_roster_item_update down c h n google) (λ _ s', inv G False D ex calls s' ∧
    received s' = received s ∧ ∃ i, items s' !! h = Some i ∧
      subscription i = _parse_item_subscription n) s.
Proof.
  intros Hi Hv. unfold _gabble_roster_item_update, assert_valid_contact.
  apply wpe_bind, wpe_bind, valid_contact_wpe, wpe_assert; [done|]. intros Hvalid.
  apply wpe_bind. eapply wpe_mono; [by apply ensure_wpe|]. intros [] s1 [Hi1 He].
  assert (received s1 = received s) as Hre by (destruct He as [[-> _]|(_ & a & ->)]; done).
  apply ensured_is_some in He. apply wpe_bind, get_item_wpe; [done|]. intros i Hl. clear He.
  apply wpe_bind. eapply quiet_wpe; [by auto with quiet|exact Hi1|].
  intros gs s2 Hi2 (Hit & Hre2 & _). rewrite <- Hit in Hl. apply wpe_bind.
  unfold put_item. repeat wpe_step.
  set (i' := i_set_groups _ _).
  assert (i' = i_set_groups (item_groups i') (read_item google n i)) as Hi'.
  { unfold i', read_item. by destruct google, i. }
  assert (inv G False D ex calls (with_items (<[h := i']> (items s2)) s2)) as Hi3.
  { pose proof Hi2 as [Hsh _ _ _]. apply inv_unbenign in Hi2.
    eapply (inv_update_item _ _ D D ex ex _ s2 h i); [exact Hi2|exact Hl|..].
    - rewrite Hi'. unfold read_item. by destruct google.
    - rewrite Hi'. intros e Hu. apply (sh_edit _ _ Hsh h i e Hl). revert Hu.
      unfold read_item. by destruct google.
    - rewrite Hi'. unfold read_item. destruct google; cbn; [apply parse_google_valid|].
      by eapply (sh_google _ _ Hsh).
    - intros r. rewrite Hi'. unfold read_item. by destruct google.
    - intros Hu. apply (sh_waiting _ _ Hsh h i Hl). revert Hu. rewrite Hi'. unfold read_item.
      by destruct google.
    - done.
    - intros _. rewrite Hi'. unfold read_item. destruct google; apply parse_subscription_valid.
    - done. }
  eapply quiet_wpe; [by auto with quiet|exact Hi3|]. intros [] s4 Hi4 (Hit4 & Hre4 & _).
  apply wpe_ret. split_and!; [done|rewrite Hre4; cbn; congruence|].
  exists i'. rewrite Hit4. cbn. rewrite lookup_insert_eq. split; [done|].
  by destruct google.
Qed.

(** The switches leave alone what the bookkeeping sees. *)
Definition same_core i i' : Prop :=
  subscription i' = subscription i ∧ google_type i' = google_type i ∧
  unsent_edits i' = unsent_edits i ∧ edits_in_flight i' = edits_in_flight i.

Lemma same_core_trans i1 i2 i3 : same_core i1 i2 → same_core i2 i3 → same_core i1 i3.
Proof. intros (?&?&?&?) (?&?&?&?). split_and!; congruence. Qed.

Lemma set_subscribe_same i x : same_core i (roster_item_set_subscribe i x).1.
Proof. unfold roster_item_set_subscribe. by case_bool_decide. Qed.

Lemma set_publish_same i x r i' b :
  roster_item_set_publish i x r = Some (i', b) → same_core i i'.
Proof. unfold roster_item_set_publish. destruct (_ || _); [|done]. by intros [= <- _]. Qed.

Lemma push_publish_same google i i' b : push_publish google i = Some (i', b) → same_core i i'.
Proof.
  unfold push_publish. destruct (subscription i) eqn:Es; try done; try apply set_publish_same.
  all: destruct (bool_decide (publish i = STATE_YES)); [|by intros [= <- _]].
  all: cbn; by intros [= <- _].
Qed.

Lemma push_subscribe_same google i i' b : push_subscribe google i = Some (i', b) → same_core i i'.
Proof.
  unfold push_subscribe, roster_item_set_subscribe.
  repeat case_match; intros [= <- <-]; simplify_eq; by repeat split.
Qed.

Lemma push_stored_same google i i' b : push_stored google i = Some (i', b) → same_core i i'.
Proof. unfold push_stored. repeat case_match; intros [= <- _]; by repeat split. Qed.

Lemma push_blocked_same google i i' b : push_blocked google i = Some (i', b) → same_core i i'.
Proof. unfold push_blocked. repeat case_match; intros [= <- _]; by repeat split. Qed.

Lemma push_item_same google h b i p i' p' :
  push_item google h b i p = Some (i', p') → same_core i i'.
Proof.
  unfold push_item.
  destruct (push_publish google i) as [[i1 b1]|] eqn:E1; [|done]. cbn.
  destruct (push_subscribe google i1) as [[i2 b2]|] eqn:E2; [|done]. cbn.
  destruct (push_stored google i2) as [[i3 x]|] eqn:E3; [|done]. cbn.
  destruct (push_blocked google i3) as [[i4 b4]|] eqn:E4; [|done]. cbn.
  destruct (change_stored _ _ _ _). intros [= <- _].
  eapply same_core_trans; [by eapply push_publish_same|].
  eapply same_core_trans; [by eapply push_subscribe_same|].
  eapply same_core_trans; [by eapply push_stored_same|by eapply push_blocked_same].
Qed.

Lemma push_item_some google h b i p :
  subscription i ≠ SUBSCRIPTION_INVALID → is_Some (push_item google h b i p).
Proof.
  intros Hs. unfold push_item.
  destruct (push_publish google i) as [[i1 b1]|] eqn:E1.
  2: { exfalso. revert E1. unfold push_publish, roster_item_set_publish. by repeat case_match. }
  pose proof (proj1 (push_publish_same _ _ _ _ E1)) as H1. cbn.
  destruct (push_subscribe google i1) as [[i2 b2]|] eqn:E2.
  2: { exfalso. revert E2. unfold push_subscribe, roster_item_set_subscribe. repeat case_match; congruence. }
  pose proof (proj1 (push_subscribe_same _ _ _ _ E2)) as H2. cbn.
  destruct (push_stored google i2) as [[i3 x]|] eqn:E3.
  2: { exfalso. revert E3. unfold push_stored. repeat case_match; congruence. }
  pose proof (proj1 (push_stored_same _ _ _ _ E3)) as H3. cbn.
  destruct (push_blocked google i3) as [[i4 b4]|] eqn:E4.
  2: { exfalso. revert E4. unfold push_blocked. repeat case_match; congruence. }
  cbn. destruct (change_stored _ _ _ _). eauto.
Qed.

Lemma inv_same_core G B D ex calls s h i i' :
  inv G B D ex calls s → items s !! h = Some i → same_core i i' →
  inv G B D ex calls (with_items (<[h := i']> (items s)) s).
Proof.
  intros Hi Hl (H1 & H2 & H3 & H4). pose proof Hi as [Hsh _ Hsane _].
  eapply (inv_update_item _ _ D D ex _ _ s h i); [exact Hi|exact Hl|done|..].
  - rewrite H3. intros e. by apply (sh_edit _ _ Hsh).
  - rewrite H2. by eapply (sh_google _ _ Hsh).
  - intros r'. by rewrite H3.
  - rewrite H3. by apply (sh_waiting _ _ Hsh).
  - done.
  - rewrite H1. intros g. exact (Hsane g _ _ Hl).
  - by left.
Qed.

Lemma process_item_wpe G D ex calls c google n p s :
  inv G False D ex calls s →
  wpe G (process_item down norm c google n p) (λ _ s', inv G False D ex calls s' ∧
    received s' = received s) s.
Proof.
  intros Hi. unfold process_item. apply wpe_bind.
  apply (wpe_mono _ _ (λ h s', inv G False D ex calls s' ∧ received s' = received s ∧
    (h ≠ 0 → valid (contact_repo s') h = true))).
  { unfold validate_roster_item.
    destruct (wocky_node_get_attribute n "jid") as [jid|]; [|by apply wpe_ret].
    destruct (split_first "/" jid); [by apply wpe_ret|]. apply wp_wpe.
    eapply wp_mono; [|apply ensure_sender_wp]. intros h s' [Hc Hv].
    split_and!; [by eapply inv_core|apply Hc|done]. }
  intros h s1 (Hi1 & Hre1 & Hv). destruct (h =? 0) eqn:Eh; [by apply wpe_ret|].
  apply Z.eqb_neq in Eh. apply wpe_bind. eapply wpe_mono; [eapply item_update_wpe; [exact Hi1|auto]|].
  intros b s2 (Hi2 & Hre2 & i & Hl & Hs). apply wpe_bind, get_item_wpe; [eauto|].
  intros i' Hl'. rewrite Hl in Hl'. injection Hl' as <-.
  destruct (push_item_some google h b i p) as [[i' p'] Hp]; [rewrite Hs; apply parse_subscription_valid|].
  rewrite Hp. unfold asserted, put_item. repeat wpe_step.
  pose proof (inv_same_core _ _ _ _ _ s2 h i i' Hi2 Hl (push_item_same _ _ _ _ _ _ _ Hp)) as Hi3.
  eapply wpe_mono; [eapply maybe_remove_wpe; [exact Hi3|apply lookup_insert_eq]|].
  intros b3 s3 (Hi4 & _ & Hre3 & _). apply wpe_ret. split; [done|]. cbn in Hre3. congruence.
Qed.

Lemma process_items_wpe G D ex calls c google l p s :
  inv G False D ex calls s →
  wpe G (process_items down norm c google l p) (λ _ s', inv G False D ex calls s' ∧
    received s' = received s) s.
Proof.
  revert p s. induction l as [|n l IH]; intros p s Hi; [by apply wpe_ret|]. cbn.
  apply wpe_bind. eapply wpe_mono; [by apply process_item_wpe|]. intros p' s1 [Hi1 Hre].
  eapply wpe_mono; [by apply IH|]. intros p2 s2 [? ?]. split; [done|congruence].
Qed.

Lemma process_roster_wpe G D ex calls c q s :
  inv G False D ex calls s →
  wpe G (process_roster down norm c q) (λ _ s', inv G False D ex calls s' ∧
    received s' = received s) s.
Proof.
  intros Hi. unfold process_roster. apply wpe_bind. eapply wpe_mono; [by apply process_items_wpe|].
  intros p s1 [Hi1 Hre]. eapply quiet_wpe; [quiet|exact Hi1|].
  intros [] s2 Hi2 (_ & Hre2 & _). split; [done|congruence].
Qed.

Definition edited_keys (m : gmap Z GabbleRosterItem) : list Z :=
  fst <$> List.filter (λ '(contact, item), bool_decide (is_Some (unsent_edits item)))
            (map_to_list m).

Lemma elem_of_edited_keys m h :
  h ∈ edited_keys m ↔ ∃ i, m !! h = Some i ∧ is_Some (unsent_edits i).
Proof.
  unfold edited_keys. rewrite list_elem_of_fmap. split.
  - intros ([h' i] & -> & [Hin Hs]%list_elem_of_In%List.filter_In). cbn.
    apply list_elem_of_In, elem_of_map_to_list in Hin. apply bool_decide_eq_true in Hs. eauto.
  - intros (i & Hl & Hs). exists (h, i). split; [done|]. apply list_elem_of_In, List.filter_In.
    split; [apply list_elem_of_In; by apply elem_of_map_to_list|by apply bool_decide_eq_true].
Qed.

Lemma NoDup_filter_fst (l : list (Z * GabbleRosterItem)) f :
  NoDup (fst <$> l) → NoDup (fst <$> List.filter f l).
Proof.
  induction l as [|x l IH]; [done|]. cbn. intros [Hx Hn]%NoDup_cons.
  destruct (f x); [|by apply IH]. cbn. apply NoDup_cons. split; [|by apply IH].
  rewrite list_elem_of_fmap in Hx |- *. intros (y & Heq & [Hy _]%list_elem_of_In%List.filter_In).
  apply Hx. exists y. split; [done|]. by apply list_elem_of_In.
Qed.

Lemma inv_received G B ex calls s :
  inv G B [] ex calls s →
  inv G B (reverse (edited_keys (items s))) ex calls
    (mkRoster (items s) (groups s) (pre_authorized s) true true (results s)
      (next_result s) (in_flight s) (next_iq s) (idles s) (contact_repo s) (group_repo s)
      (events s)).
Proof.
  intros [[] [] ? ?]. split; try done. split; try done.
  cbn. intros h i Hl Hs. right. right. apply elem_of_reverse, elem_of_edited_keys. eauto.
Qed.

Lemma assert_valid_items G B D ex calls l (m : gmap Z GabbleRosterItem) s :
  inv G B D ex calls s → (∀ h, h ∈ l → is_Some (items s !! h)) →
  wpe G (for_each l assert_valid_contact) (λ _ s', s' = s) s.
Proof.
  intros Hi Hl. apply (wpe_mono _ _ (λ _ s', s' = s ∧ [] ⊆ l)); [|by intros [] s' [? _]].
  apply (wpe_for_each _ (λ l' s', s' = s ∧ l' ⊆ l)); [|done].
  intros h l' s' [-> Hsub]. unfold assert_valid_contact. apply wpe_bind, valid_contact_wpe.
  destruct (Hl h) as [i Hlh]; [apply Hsub; by left|].
  apply wpe_assert; [intros _; by eapply (sh_valid _ _ (inv_shape _ _ _ _ _ _ Hi))|].
  intros _. split; [done|]. intros x Hx. apply Hsub. by right.
Qed.

Lemma apply_all_wpe G B ex calls c l s :
  inv G B l ex calls s → NoDup l →
  (∀ h, h ∈ l → ∃ i, items s !! h = Some i ∧ is_Some (unsent_edits i)) →
  wpe G (for_each l (λ contact,
    item ← get_item contact;
    match unsent_edits item with
    | None => fail MemoryFault
    | Some edits => roster_item_apply_edits down c (e_handle edits)
    end)) (λ _ s', inv G B [] ex calls s') s.
Proof.
  intros Hi Hnd Hun. eapply (wpe_mono _ _ (λ _ s', inv G B [] ex calls s' ∧ NoDup ([] : list Z) ∧
    ∀ h, h ∈ [] → ∃ i, items s' !! h = Some i ∧ is_Some (unsent_edits i))); [|by intros [] s' [? _]].
  apply (wpe_for_each _ (λ l s', inv G B l ex calls s' ∧ NoDup l ∧
    ∀ h, h ∈ l → ∃ i, items s' !! h = Some i ∧ is_Some (unsent_edits i))); [|done].
  clear Hi Hnd Hun s l. intros h l s (Hi & [Hh Hnd]%NoDup_cons & Hun).
  destruct (Hun h) as (i & Hl & [e He]); [by left|].
  apply wpe_bind, get_item_wpe; [eauto|]. intros i' Hl'. rewrite Hl in Hl'. injection Hl' as <-.
  rewrite He, (sh_edit _ _ (inv_shape _ _ _ _ _ _ Hi) h i e Hl He).
  eapply wpe_mono; [by apply apply_edits_wpe|].
  intros [] s1 (Hi1 & (_ & _ & b & o & Hit) & _). split_and!; [done|done|].
  intros h' Hh'. destruct (Hun h') as (i' & Hl' & He'); [by right|]. exists i'.
  rewrite Hit, lookup_insert_ne by (intros ->; done). done.
Qed.

Lemma roster_complete_wpe G B ex calls c s :
  inv G B [] ex calls s →
  wpe G (roster_complete down c) (λ _ s', inv G B [] ex calls s') s.
Proof.
  intros Hi. unfold roster_complete. apply wpe_bind, wpe_get.
  apply wpe_bind. eapply wpe_mono; [eapply assert_valid_items; [exact ∅|exact Hi|]|].
  { intros h ([h' i] & -> & Hin%elem_of_map_to_list)%list_elem_of_fmap. eauto. }
  intros [] s' ->. apply wpe_bind. eapply quiet_wpe; [quiet|exact Hi|]. intros [] s1 Hi1 Hc1.
  apply wpe_bind. eapply quiet_wpe; [quiet|exact Hi1|]. intros [] s2 Hi2 Hc2.
  repeat wpe_step.
  assert (core s2 (mkRoster (items s2) (groups s2) (pre_authorized s2) (received s) true (results s2)
      (next_result s2) (in_flight s2) (next_iq s2) (idles s2) (contact_repo s2) (group_repo s2)
      (events s2))) as Hc3.
  { unfold core. cbn. split_and!; try done. destruct (core_trans _ _ _ Hc1 Hc2) as (_ & Hre & _).
    congruence. }
  eapply quiet_wpe; [quiet|exact (inv_core _ _ _ _ _ _ _ Hi2 Hc3)|]. intros [] s4 Hi4 Hc4.
  repeat wpe_step.
  assert (items s4 = items s) as Hit.
  { destruct Hc1 as [<- _], Hc2 as [<- _], Hc3 as [<- _], Hc4 as [<- _]. done. }
  pose proof (inv_received _ _ _ _ _ Hi4) as Hi5. rewrite Hit in Hi5.
  apply (apply_all_wpe G B ex calls c (reverse (edited_keys (items s)))).
  - rewrite Hit. exact Hi5.
  - rewrite reverse_Permutation. apply NoDup_filter_fst, NoDup_fst_map_to_list.
  - intros h Hh%elem_of_reverse%elem_of_edited_keys. cbn. by rewrite Hit.
Qed.

Lemma got_roster_iq_wpe G B c m s :
  inv G B [] [] [] s →
  wpe G (got_roster_iq down norm c m) (λ _ s', inv G False [] [] [] s') s.
Proof.
  intros Hi%inv_unbenign. unfold got_roster_iq.
  destruct (wocky_node_get_child_ns m _ _) as [q|]; [|by apply wpe_ret].
  apply wpe_bind, wpe_get. destruct (_ && _); [by apply wpe_ret|].
  destruct (_ && _); [by apply wpe_ret|]. apply wpe_bind.
  eapply wpe_mono; [by apply process_roster_wpe|]. intros [] s1 [Hi1 _]. apply wpe_bind.
  apply (wpe_mono _ _ (λ _ s', inv G False [] [] [] s')); [|by intros [] s2 ?; apply wpe_ret].
  destruct (bool_decide _); [by apply roster_complete_wpe|].
  eapply quiet_wpe; [quiet|exact Hi1|done].
Qed.

(** *** Answering *)

(** A call that is being set up is held by nothing. *)
Lemma call_free G B D ex calls call s :
  inv G B D ex (call :: calls) s →
  0 <= call < next_result s ∧ results s !! call = None ∧ (refs s call + occ ex call = 0)%nat.
Proof.
  intros [_ [Ht Hn Ha Hd Hf Hx Hcl Hrp] _ _].
  assert (occ (call :: calls) call ≠ 0%nat) as Ho
    by (rewrite occ_cons, bool_decide_eq_true_2 by done; lia).
  assert (results s !! call = None) as Hr.
  { destruct (results s !! call) eqn:E; [by apply Hcl in E|done]. }
  split_and!; [..|done|by apply Hn].
  all: destruct (decide (0 <= call < next_result s)) as [|Hn']; [lia|].
  all: by apply Hf in Hn' as [_ ?].
Qed.

Lemma answer_wpe G B D ex call ok s :
  inv G B D ex [call] s →
  wpe G (gabble_simple_async_succeed_or_fail_in_idle call ok)
    (λ _ s', inv G B D ex [] s' ∧ same_items s s') s.
Proof.
  intros Hi. destruct (call_free _ _ _ _ _ _ _ Hi) as (? & ? & ?).
  apply report_wpe; [done|done|lia|lia|done].
Qed.

Lemma done_wpe G B D ex call ok s :
  inv G B D ex [call] s → wpe G (emit (Done call ok)) (λ _ s', inv G B D ex [] s') s.
Proof.
  intros Hi. destruct (call_free _ _ _ _ _ _ _ Hi) as (Hr & Hn & Hz).
  destruct Hi as [[] [Ht' Hn' Ha Hd Hf Hx Hcl Hrp] ? ?]. apply wpe_modify.
  split; [by split| |done|done]. split; try done; cbn.
  - intros r. transitivity (answered s r + if answers r (Done call ok) then 1 else 0)%nat.
    { unfold answered. cbn. rewrite List.filter_app, length_app. cbn.
      destruct (call =? r); cbn; lia. }
    rewrite Ha, occ_cons. cbn. change (refs _ r) with (refs s r).
    destruct (decide (call = r)) as [<-|Hne].
    + rewrite Z.eqb_refl, (bool_decide_eq_true_2 (call = call)) by done.
      rewrite bool_decide_eq_false_2, bool_decide_eq_true_2; [done|lia|lia].
    + rewrite (proj2 (Z.eqb_neq call r)), (bool_decide_eq_false_2 (call = r)) by done.
      by rewrite Nat.add_0_r.
  - intros r Hnr. destruct (Hf r Hnr). by split.
Qed.

Lemma filter_take_drop {A} (f : A → bool) (l : list A) n x :
  l !! n = Some x →
  length (List.filter f l) =
  (length (List.filter f (take n l ++ drop (S n) l)) + if f x then 1 else 0)%nat.
Proof.
  intros Hl. rewrite <- (take_drop_middle l n x Hl) at 1.
  rewrite !List.filter_app, !length_app. cbn. destruct (f x); cbn; lia.
Qed.

Definition owner (x : idle_source) : Z :=
  match x with CompleteResult r => r | ReportResult r _ => r end.

(** An idle source is taken from the queue, its result with it. *)
Lemma inv_pop G B n x s :
  inv G B [] [] [] s → idles s !! n = Some x →
  inv G B [] [] [owner x]
    (with_results (delete (owner x) (results s)) (next_result s)
       (take n (idles s) ++ drop (S n) (idles s)) s).
Proof.
  intros Hi Hl. apply (inv_with_results _ _ _ [] [] [] [owner x] s _ _ _ Hi).
  destruct Hi as [_ [Ht Hn Ha Hd Hf Hx Hcl Hrp] _ _]. set (r0 := owner x).
  set (l := take n (idles s) ++ drop (S n) (idles s)).
  assert (∀ r, answered s r = (answered (with_results (delete r0 (results s)) (next_result s) l s) r +
    if answers_in r x then 1 else 0)%nat) as Hpop.
  { intros r. unfold answered. cbn. rewrite (filter_take_drop _ _ _ _ Hl). fold l. lia. }
  assert (∀ r, answers_in r x = bool_decide (r0 = r)) as Hin.
  { intros r. unfold r0. destruct x as [y|y ok]; cbn; destruct (Z.eqb_spec y r);
      [by rewrite bool_decide_eq_true_2|by rewrite bool_decide_eq_false_2
      |by rewrite bool_decide_eq_true_2|by rewrite bool_decide_eq_false_2]. }
  assert (0 <= r0 < next_result s ∧ (refs s r0 = 0)%nat) as [Hrange Hrefs].
  { specialize (Ha r0). specialize (Hpop r0). rewrite Hin, bool_decide_eq_true_2 in Hpop by done.
    destruct (bool_decide_reflect (0 <= r0 < next_result s ∧
      (refs s r0 + occ [] r0 + occ [] r0 = 0)%nat)) as [[? Hz]|]; [|lia]. cbn in Hz. split; [done|lia]. }
  assert (∀ y, y ∈ l → y ∈ idles s) as Hsub.
  { intros y [Hy|Hy]%elem_of_app;
      [rewrite <- (take_drop n (idles s))|rewrite <- (take_drop (S n) (idles s))];
      apply elem_of_app; eauto. }
  assert (∀ y, y ∈ l → owner y ≠ r0) as Hother.
  { intros y Hy Heq. specialize (Ha r0). rewrite Hpop, Hin, bool_decide_eq_true_2 in Ha by done.
    assert (0 < answered (with_results (delete r0 (results s)) (next_result s) l s) r0)%nat; [|
      case_bool_decide; lia].
    unfold answered. cbn. apply list_elem_of_split in Hy as (l1 & l2 & ->).
    rewrite List.filter_app, length_app. cbn.
    assert (answers_in r0 y = true) as -> by (destruct y; cbn in *; subst; apply Z.eqb_refl). cbn. lia. }
  split; cbn.
  - intros r y [Hne Hly]%lookup_delete_Some. by apply Ht.
  - intros r [->|Hnr]%lookup_delete_None; [change (refs _ r) with (refs s r); lia|by apply Hn].
  - intros r. specialize (Ha r). rewrite Hpop, Hin in Ha. change (refs _ r) with (refs s r).
    cbn in Ha. destruct (decide (r0 = r)) as [<-|Hne].
    + rewrite (bool_decide_eq_true_2 (r0 = r0)) in Ha by done.
      rewrite bool_decide_eq_true_2 in Ha by lia. destruct (Z.eq_dec r0 r0); [|done].
      rewrite bool_decide_eq_false_2; lia.
    + rewrite (bool_decide_eq_false_2 (r0 = r)) in Ha by done. rewrite Nat.add_0_r in Ha.
      destruct (Z.eq_dec r0 r); [done|]. done.
  - intros r Hr. pose proof (Hother _ Hr). cbn in *. rewrite lookup_delete_ne by done. by apply Hd, Hsub.
  - intros r Hnr. rewrite lookup_delete_None. destruct (Hf r Hnr) as [? _]. split; [by right|].
    destruct (Z.eq_dec r0 r); [lia|done].
  - done.
  - intros r y [Hne Hly]%lookup_delete_Some. destruct (Z.eq_dec r0 r); [done|done].
  - intros r ok Hr. rewrite lookup_delete_None. right. by eapply Hrp, Hsub.
Qed.

(** *** Requests of the user *)

Definition preserves (G B : Prop) (ex calls : list Z) {A} (m : MR A) : Prop :=
  ∀ s, inv G B [] ex calls s → wpe G m (λ _ s', inv G B [] ex calls s') s.

Lemma quiet_preserves G B ex calls {A} (m : MR A) : quiet m → preserves G B ex calls m.
Proof. intros Hm s Hi. by eapply quiet_wpe. Qed.

Lemma preserves_bind G B ex calls {A C} (m : MR A) (f : A → MR C) :
  preserves G B ex calls m → (∀ a, preserves G B ex calls (f a)) → preserves G B ex calls (m ≫= f).
Proof.
  intros Hm Hf s Hi. apply wpe_bind. eapply wpe_mono; [by apply Hm|]. intros a s1 Hi1.
  by apply Hf.
Qed.

Lemma preserves_for_each G B ex calls {A} (l : list A) (body : A → MR unit) :
  (∀ x, preserves G B ex calls (body x)) → preserves G B ex calls (for_each l body).
Proof.
  intros Hb. induction l as [|x l IH]; [by intros s Hi; apply wpe_ret|]. by apply preserves_bind.
Qed.

Lemma countdown_wpe G B k (body : Z → MR unit) :
  (∀ r, preserves G B [r] [] (body r)) → preserves G B [] [] (countdown k body).
Proof.
  intros Hb s Hi. unfold countdown. apply wpe_bind.
  eapply wpe_mono; [by apply countdown_new_wpe|]. intros r s1 [Hi1 _].
  apply wpe_bind. eapply wpe_mono; [by apply Hb|]. intros [] s2 Hi2.
  apply wpe_bind. eapply wpe_mono; [by apply countdown_dec_wpe|]. intros [] s3 [Hi3 _]. by apply wpe_ret.
Qed.

Lemma quiet_until_error l body : (∀ x, quiet (body x)) → quiet (until_error (R := R) l body).
Proof. intros Hb. induction l as [|x l IH]; cbn; quiet. Qed.
Hint Resolve quiet_until_error : quiet.

Lemma subscribe_preserves G B c contacts m :
  preserves G B [] [] (gabble_roster_request_subscription_async down c contacts m).
Proof.
  apply countdown_wpe. intros r. apply preserves_for_each. intros x s Hi.
  apply handle_add_wpe; [done|]. intros ? [= <-]. by left.
Qed.

Lemma store_preserves G B c contacts :
  preserves G B [] [] (gabble_roster_store_contacts_async down c contacts).
Proof.
  apply countdown_wpe. intros r. apply preserves_for_each. intros x s Hi.
  apply handle_add_wpe; [done|]. intros ? [= <-]. by left.
Qed.

Lemma remove_preserves G B c contacts :
  preserves G B [] [] (gabble_roster_remove_contacts_async down c contacts).
Proof.
  apply countdown_wpe. intros r. apply preserves_for_each. intros x s Hi.
  apply handle_remove_wpe; [done|by left].
Qed.

Lemma block_preserves G B c contacts b :
  preserves G B [] [] (gabble_roster_block_contacts_async down c contacts b).
Proof.
  apply countdown_wpe. intros r. apply preserves_for_each. intros x s Hi.
  apply set_blocked_wpe; [done|by left].
Qed.

Lemma added_cb_wpe G B c call contacts m s :
  inv G B [] [] [call] s →
  wpe G (gabble_roster_request_subscription_added_cb down c call contacts m)
    (λ _ s', inv G B [] [] [] s') s.
Proof.
  intros Hi. unfold gabble_roster_request_subscription_added_cb. apply wpe_bind.
  eapply quiet_wpe; [|exact Hi|].
  { apply quiet_until_error. intros x. unfold _gabble_roster_item_lookup. quiet. }
  intros ok s1 Hi1 _. eapply wpe_mono; [by apply answer_wpe|]. by intros [] s2 [? _].
Qed.

Lemma authorize_preserves G B c contacts :
  preserves G B [] [] (gabble_roster_authorize_publication_async down c contacts).
Proof.
  intros s Hi. unfold gabble_roster_authorize_publication_async. apply wpe_bind.
  eapply wpe_mono; [by apply new_call_wpe|]. intros call s1 [Hi1 _]. apply wpe_bind.
  eapply quiet_wpe; [|exact Hi1|].
  { apply quiet_until_error. intros x. unfold _gabble_roster_item_lookup. quiet. }
  intros ok s2 Hi2 _. apply wpe_bind. eapply wpe_mono; [by apply answer_wpe|].
  intros [] s3 [? _]. by apply wpe_ret.
Qed.

Lemma download_preserves G B c : preserves G B [] [] (gabble_roster_download_async c).
Proof.
  intros s Hi. unfold gabble_roster_download_async. apply wpe_bind.
  eapply wpe_mono; [by apply new_call_wpe|]. intros call s1 [Hi1 _]. apply wpe_bind.
  eapply quiet_wpe; [quiet|exact Hi1|].
  intros ok s2 Hi2 _. apply wpe_bind. eapply wpe_mono; [by apply answer_wpe|].
  intros [] s3 [? _]. by apply wpe_ret.
Qed.

(** The two requests that go through contacts and collect sets: [P] is what
    must hold of a contact's item when its turn comes. *)
Lemma each_contact_wpe G B (P : Z → Roster → Prop) calls
    (body : Z → gset Z → gset Z → MR (gset Z * gset Z * bool)) l ch rm s :
  (∀ x ch rm s, inv G B [] [] calls s → P x s →
     wpe G (body x ch rm) (λ _ s', inv G B [] [] calls s' ∧ ∀ y, y ≠ x → P y s → P y s') s) →
  inv G B [] [] calls s → NoDup l → (∀ x, x ∈ l → P x s) →
  wpe G (each_contact l body ch rm) (λ _ s', inv G B [] [] calls s') s.
Proof.
  intros Hb. revert ch rm s. induction l as [|x l IH]; intros ch rm s Hi Hnd HP; [by apply wpe_ret|].
  apply NoDup_cons in Hnd as [Hx Hnd]. cbn. apply wpe_bind.
  eapply wpe_mono; [apply Hb; [done|apply HP; by left]|].
  intros [[ch' rm'] ok] s1 [Hi1 HP1]. destruct ok; [|by apply wpe_ret].
  apply IH; [done|done|]. intros y Hy. apply HP1; [by intros ->|]. apply HP. by right.
Qed.

Lemma unsubscribe_preserves G B c contacts :
  preserves G B [] [] (gabble_roster_unsubscribe_async down c contacts).
Proof.
  intros s Hi. unfold gabble_roster_unsubscribe_async. apply wpe_bind.
  eapply wpe_mono; [by apply new_call_wpe|]. intros call s1 [Hi1 _]. apply wpe_bind.
  eapply wpe_mono; [eapply (each_contact_wpe G B (λ _ _, True) [call]);
    [|done|apply NoDup_elements|done]|].
  - intros x ch rm s2 Hi2 _. unfold unsubscribe_one. apply wpe_bind.
    eapply quiet_wpe; [quiet|exact Hi2|]. intros id s3 Hi3 _. clear s2 Hi2.
    apply wpe_bind, wpe_bind, wpe_get, wpe_ret.
    destruct (items s3 !! x) as [i|] eqn:Hl; [|by apply wpe_ret].
    destruct (bool_decide _); [by apply wpe_ret|]. destruct (bool_decide _).
    + unfold put_item. repeat wpe_step.
      pose proof (inv_same_core _ _ _ _ _ s3 x i _ Hi3 Hl (set_subscribe_same i STATE_NO)) as Hi4.
      eapply wpe_mono; [eapply maybe_remove_wpe; [exact Hi4|apply lookup_insert_eq]|].
      intros b s4 [Hi5 _]. by apply wpe_ret.
    + apply wpe_bind. eapply quiet_wpe; [quiet|exact Hi3|]. intros ok s4 Hi4 _. by apply wpe_ret.
  - intros [[ch rm] ok] s2 Hi2. apply wpe_bind. eapply quiet_wpe; [quiet|exact Hi2|].
    intros [] s3 Hi3 _. apply wpe_bind. eapply wpe_mono; [by apply answer_wpe|].
    intros [] s4 [? _]. by apply wpe_ret.
Qed.

(** Taking back what a contact asked for does not free its item. *)
Definition survives_unpublish (contact : Z) s : Prop :=
  ∀ i, items s !! contact = Some i →
    publish i = STATE_ASK ∨ publish i = STATE_REMOVED_REMOTELY →
    removable (i_set_publish STATE_NO None i) = false.

Lemma unpublish_one_wpe (G B : Prop) calls c x ch rm s :
  inv G B [] [] calls s → (G → survives_unpublish x s) →
  wpe G (unpublish_one down c x ch rm) (λ _ s', inv G B [] [] calls s' ∧
    ∀ y, y ≠ x → items s' !! y = items s !! y) s.
Proof.
  intros Hi HP. unfold unpublish_one, contact_id.
  apply wpe_bind, wpe_bind, wpe_get, wpe_ret. apply wpe_bind, wpe_bind, wpe_get, wpe_ret.
  destruct (items s !! x) as [i|] eqn:Hl; [|by apply wpe_ret]. apply wpe_bind.
  apply (wpe_mono _ _ (λ _ s', inv G B [] [] calls s' ∧ (G → is_Some (items s' !! x)) ∧
    ∀ y, y ≠ x → items s' !! y = items s !! y)).
  { destruct (_ || _) eqn:Ep; [|apply wpe_ret; eauto].
    cbn. apply wpe_bind, wpe_ret. unfold put_item. repeat wpe_step.
    pose proof (inv_same_core _ _ _ _ _ s x i (i_set_publish STATE_NO None i) Hi Hl) as Hi1.
    eapply wpe_mono; [eapply maybe_remove_wpe; [by apply Hi1|apply lookup_insert_eq]|].
    intros b s1 (Hi2 & Hb & _ & _ & _ & Hs1). apply wpe_ret. split_and!; [done| |].
    - intros g. rewrite (HP g i Hl) in Hb; [subst b s1; cbn; rewrite lookup_insert_eq; eauto|].
      apply orb_true_iff in Ep as [?%bool_decide_eq_true|?%bool_decide_eq_true]; eauto.
    - intros y Hy. destruct b; [rewrite Hs1|subst s1]; cbn;
        rewrite ?lookup_delete_ne, lookup_insert_ne; done. }
  intros [ch' rm'] s1 (Hi1 & Hs1 & Hy). apply wpe_bind, get_item_wpe; [done|]. intros i1 _.
  destruct (bool_decide _); [by apply wpe_ret|]. apply wpe_bind.
  eapply quiet_wpe; [quiet|exact Hi1|]. intros ok s2 Hi2 (Hit & _). apply wpe_ret.
  split; [done|]. by rewrite Hit.
Qed.

Lemma unpublish_wpe (G B : Prop) c contacts s :
  inv G B [] [] [] s → (G → ∀ x, x ∈ contacts → survives_unpublish x s) →
  wpe G (gabble_roster_unpublish_async down c contacts) (λ _ s', inv G B [] [] [] s') s.
Proof.
  intros Hi HP. unfold gabble_roster_unpublish_async. apply wpe_bind.
  eapply wpe_mono; [by apply new_call_wpe|]. intros call s1 [Hi1 (Hit & _)]. apply wpe_bind.
  eapply wpe_mono; [eapply (each_contact_wpe G B (λ x s, G → survives_unpublish x s) [call]);
    [|done|apply NoDup_elements|]|].
  - intros x ch rm s2 Hi2 HP2. eapply wpe_mono; [by apply unpublish_one_wpe|].
    intros [[ch' rm'] ok] s3 [Hi3 Hy]. split; [done|]. intros y Hne HPy g i. rewrite Hy by done.
    by apply HPy.
  - intros x Hx%elem_of_elements g i. rewrite Hit. by apply HP.
  - intros [[ch rm] ok] s2 Hi2. apply wpe_bind. eapply quiet_wpe; [quiet|exact Hi2|].
    intros [] s3 Hi3 _. apply wpe_bind. eapply wpe_mono; [by apply answer_wpe|].
    intros [] s4 [? _]. by apply wpe_ret.
Qed.

(** *** Groups *)

Lemma contact_groups_wpe G B c h l s :
  inv G B [] [] [] s → (G → valid (contact_repo s) h = true) →
  wpe G (gabble_roster_set_contact_groups_async down c h l) (λ _ s', inv G B [] [] [] s') s.
Proof.
  intros Hi Hv. unfold gabble_roster_set_contact_groups_async. apply wpe_bind.
  eapply wpe_mono; [by apply ensure_wpe|]. intros [] s1 [Hi1 He%ensured_is_some].
  unfold countdown. apply wpe_bind. eapply wpe_mono; [by apply countdown_new_wpe|].
  intros r s2 [Hi2 (Hit2 & _)]. rewrite <- Hit2 in He. apply wpe_bind, wpe_bind.
  eapply quiet_wpe; [quiet|exact Hi2|]. intros [gs created] s3 Hi3 (Hit3 & _). rewrite <- Hit3 in He.
  apply wpe_bind. eapply quiet_wpe; [quiet|exact Hi3|]. intros [] s4 Hi4 (Hit4 & _). rewrite <- Hit4 in He.
  eapply wpe_mono; [apply queue_apply_wpe; [done|done| |done]|].
  { intros ? [= <-]. by left. }
  intros [] s5 Hi5. apply wpe_bind. eapply wpe_mono; [by apply countdown_dec_wpe|].
  intros [] s6 [? _]. by apply wpe_ret.
Qed.

Lemma group_op_preserves G B c g (l : list Z) (test : Z → bool) :
  ∀ r, preserves G B [r] [] (
    for_each l (λ contact,
      if test contact then gabble_roster_handle_add_to_group down c contact g r
      else gabble_roster_handle_remove_from_group down c contact g r)).
Proof.
  intros r. apply preserves_for_each. intros x s Hi.
  destruct (test x); [apply add_to_group_wpe|apply remove_from_group_wpe]; try done; by left.
Qed.

Lemma set_error_preserves G B r : preserves G B [r] [] (set_from_error (R := R) r).
Proof.
  intros s Hi. eapply wpe_mono; [apply set_from_error_wpe; [exact Hi|]|by intros [] s' [? _]].
  eapply result_exists; [apply Hi|]. rewrite occ_cons, bool_decide_eq_true_2 by done. lia.
Qed.

Lemma group_members_preserves G B c group contacts :
  preserves G B [] [] (gabble_roster_set_group_members_async down c group contacts).
Proof.
  apply preserves_bind; [apply quiet_preserves; quiet|]. intros g.
  apply countdown_wpe. intros r. destruct (g =? 0); [apply set_error_preserves|].
  apply preserves_bind; [apply quiet_preserves; quiet|]. intros b.
  apply preserves_bind; [apply quiet_preserves; quiet|]. intros _.
  apply preserves_bind; [apply quiet_preserves; quiet|]. intros s.
  apply (group_op_preserves G B c g _ (λ contact, bool_decide (contact ∈ contacts))).
Qed.

Lemma add_to_group_preserves G B c group contacts :
  preserves G B [] [] (gabble_roster_add_to_group_async down c group contacts).
Proof.
  apply preserves_bind; [apply quiet_preserves; quiet|]. intros g.
  apply countdown_wpe. intros r. destruct (g =? 0); [apply set_error_preserves|].
  apply preserves_bind; [apply quiet_preserves; quiet|]. intros b.
  apply preserves_bind; [apply quiet_preserves; quiet|]. intros _.
  apply (group_op_preserves G B c g _ (λ _, true)).
Qed.

Lemma remove_from_group_preserves G B c group contacts :
  preserves G B [] [] (gabble_roster_remove_from_group_async down c group contacts).
Proof.
  apply preserves_bind; [apply quiet_preserves; quiet|]. intros s.
  apply countdown_wpe. intros r. destruct (_ =? 0); [by intros s' Hi; apply wpe_ret|].
  apply (group_op_preserves G B c _ _ (λ _, false)).
Qed.

Lemma remove_group_preserves G B c group :
  preserves G B [] [] (gabble_roster_remove_group_async down c group).
Proof.
  apply preserves_bind; [apply quiet_preserves; quiet|]. intros s.
  apply countdown_wpe. intros r. apply (group_op_preserves G B c _ _ (λ _, false)).
Qed.

Lemma inv_fmap_groups G B D ex calls (f : GabbleRosterItem → gset Z) s :
  inv G B D ex calls s →
  inv G B D ex calls (with_items ((λ i, i_set_groups (f i) i) <$> items s) s).
Proof.
  intros [[Hv Hg Hed Hbu Hse Hon Hiq Hwa] Ha Hsane Hben].
  split; [split| | |]; unfold sane, benign; cbn; try done.
  1-2, 4: intros h i; rewrite lookup_fmap_Some; intros (i' & <- & Hl); cbn; eauto.
  - intros h i e. rewrite lookup_fmap_Some. intros (i' & <- & Hl). by apply (Hed h i').
  - intros iq e Hf%Hse. rewrite lookup_fmap, fmap_is_Some. done.
  - intros h i. rewrite lookup_fmap_Some. intros (i' & <- & Hl). by apply (Hwa h i').
  - eapply accounts_refs; [exact Ha|done..|]. intros r. unfold refs. cbn. by rewrite msum_fmap.
  - intros g h i. rewrite lookup_fmap_Some. intros (i' & <- & Hl). by apply (Hsane g h i').
  - intros b iq e i Hf. rewrite lookup_fmap_Some. intros (i' & <- & Hl). by apply (Hben b iq e i').
Qed.

Lemma group_removed_wpe G B ex calls g contacts :
  preserves G B ex calls (gabble_roster_remove_group_removed_cb (R := R) g contacts).
Proof.
  intros s Hi. unfold gabble_roster_remove_group_removed_cb. apply wpe_bind, wpe_get.
  apply wpe_when; [intros _|done]. apply wpe_bind. eapply quiet_wpe; [quiet|exact Hi|].
  intros [] s1 Hi1 (Hit1 & _). apply wpe_bind. eapply quiet_wpe; [quiet|exact Hi1|].
  intros [] s2 Hi2 (Hit2 & _). apply wpe_modify. rewrite <- Hit1, <- Hit2.
  by apply (inv_fmap_groups _ _ _ _ _ (λ i, item_groups i ∖ {[g]}) s2).
Qed.

Lemma dispatch_idle_preserves G B c n : preserves G B [] [] (dispatch_idle down c n).
Proof.
  intros s Hi. unfold dispatch_idle. apply wpe_bind, wpe_get.
  destruct (idles s !! n) as [x|] eqn:Hl; [|by apply wpe_ret].
  pose proof (inv_pop _ _ n x s Hi Hl) as Hp. repeat wpe_step.
  destruct x as [r|call ok]; cbn [run_idle owner] in *.
  - repeat wpe_step. cbn [results].
    destruct (acc_idle _ _ _ (inv_accounts _ _ _ _ _ _ Hi) r) as [x Hx].
    { apply list_elem_of_lookup. eauto. }
    rewrite Hx. repeat wpe_step. destruct (callback x) as [|contacts m|g contacts].
    + by apply done_wpe.
    + by apply added_cb_wpe.
    + apply wpe_bind. eapply wpe_mono; [by apply group_removed_wpe|]. intros [] s1 Hi1. by apply done_wpe.
  - assert (results s !! call = None) as Hn.
    { eapply (acc_report _ _ _ (inv_accounts _ _ _ _ _ _ Hi)). apply list_elem_of_lookup. eauto. }
    rewrite delete_id in Hp by done. by apply done_wpe.
Qed.

(** *** Stanzas, timers and the connection *)

Lemma quiet_ack c from ty b :
  ty ∈ ["unsubscribe"; "subscribed"; "unsubscribed"] →
  quiet (_gabble_roster_send_presence_ack (R := R) c from ty b).
Proof.
  intros Hty. unfold _gabble_roster_send_presence_ack.
  repeat (apply elem_of_cons in Hty as [->|Hty]; [cbn; quiet|]). by apply elem_of_nil in Hty.
Qed.

Lemma asserted_wpe {A} G (o : option A) a (Q : A → Roster → Prop) s :
  o = Some a → Q a s → wpe G (asserted o) Q s.
Proof. by intros ->. Qed.

(** A contact changes state, D-Bus is told and perhaps the contact. *)
Lemma transition_wpe G B h i i' (m : MR unit) s :
  inv G B [] [] [] s → items s !! h = Some i → same_core i i' → quiet m →
  wpe G (put_item h i' ;; emit (ContactsChanged {[h]} ∅) ;; m) (λ _ s', inv G B [] [] [] s') s.
Proof.
  intros Hi Hl Hs Hm. apply wpe_bind. unfold put_item. repeat wpe_step.
  eapply quiet_wpe; [quiet|exact (inv_same_core _ _ _ _ _ s h i i' Hi Hl Hs)|].
  intros [] s1 Hi1 _. by eapply quiet_wpe.
Qed.

Lemma presence_preserves G B c m : preserves G B [] [] (gabble_roster_presence_cb down norm c m).
Proof.
  intros s Hi. unfold gabble_roster_presence_cb.
  destruct (wocky_node_get_attribute m "from") as [from|]; [|by apply wpe_ret].
  apply wpe_bind, wp_wpe. eapply wp_mono; [|apply ensure_sender_wp].
  intros h s1 [Hc Hv]. pose proof (inv_core _ _ _ _ _ _ _ Hi Hc) as Hi1.
  destruct ((h =? 0) || (h =? self_handle c)) eqn:Eh; [by apply wpe_ret|].
  apply orb_false_iff in Eh as [Eh%Z.eqb_neq _]. apply wpe_bind.
  eapply wpe_mono; [apply ensure_wpe; [exact Hi1|auto]|]. intros [] s2 [Hi2 He%ensured_is_some].
  apply wpe_bind, get_item_wpe; [done|]. intros i Hl. clear s s1 Hi Hc Hv Hi1.
  assert (∀ m' : MR unit, wpe G m' (λ _ s', inv G B [] [] [] s') s2 →
    wpe G (m' ;; mret true) (λ _ s', inv G B [] [] [] s') s2) as Hthen.
  { intros m' Hm'. apply wpe_bind. eapply wpe_mono; [exact Hm'|]. intros [] s3 Hi3. by apply wpe_ret. }
  destruct (bool_decide _) eqn:E1; [|clear E1; destruct (bool_decide _) eqn:E2].
  - apply wpe_bind. eapply asserted_wpe; [done|]. apply wpe_bind. unfold put_item. repeat wpe_step.
    eapply quiet_wpe; [quiet|by apply (inv_same_core _ _ _ _ _ s2 h i)|].
    intros [] s3 Hi3 _. repeat wpe_step. destruct (in_set _ _).
    + apply wpe_bind. eapply quiet_wpe; [quiet|exact Hi3|]. intros b s4 Hi4 _. repeat wpe_step. done.
    + repeat wpe_step. done.
  - apply bool_decide_eq_true in E2. apply Hthen. destruct (_ || _).
    + apply wpe_bind. eapply asserted_wpe; [done|]. eapply transition_wpe; [exact Hi2|exact Hl|done|].
      apply quiet_ack. rewrite E2. by left.
    + eapply quiet_wpe; [apply quiet_ack; rewrite E2; by left|exact Hi2|done].
  - clear E2. destruct (bool_decide _) eqn:E3; [|clear E3; destruct (bool_decide _) eqn:E4].
    + apply bool_decide_eq_true in E3. apply Hthen. destruct (bool_decide _).
      * eapply transition_wpe; [exact Hi2|exact Hl|done|]. apply quiet_ack. rewrite E3. set_solver.
      * eapply quiet_wpe; [apply quiet_ack; rewrite E3; set_solver|exact Hi2|done].
    + apply bool_decide_eq_true in E4. apply Hthen. destruct (_ || _).
      * eapply transition_wpe; [exact Hi2|exact Hl|done|]. apply quiet_ack. rewrite E4. set_solver.
      * eapply quiet_wpe; [apply quiet_ack; rewrite E4; set_solver|exact Hi2|done].
    + by apply wpe_ret.
Qed.

Lemma flicker_wpe G B h s :
  inv G B [] [] [] s → is_Some (items s !! h) →
  wpe G (flicker_prevention_timeout h) (λ _ s', inv G B [] [] [] s') s.
Proof.
  intros Hi [i Hl]. unfold flicker_prevention_timeout. apply wpe_bind, get_item_wpe; [eauto|].
  intros i' Hl'. rewrite Hl in Hl'. injection Hl' as <-. unfold put_item. destruct (_ && _).
  - repeat wpe_step. eapply quiet_wpe; [quiet| |by intros; eassumption].
    by apply (inv_same_core _ _ _ _ _ s h i).
  - repeat wpe_step. by apply (inv_same_core _ _ _ _ _ s h i).
Qed.

Lemma status_preserves G B c st : preserves G B [] [] (connection_status_changed_cb c st).
Proof.
  apply quiet_preserves. unfold connection_status_changed_cb, gabble_roster_close_all.
  destruct st; [quiet|quiet|]. apply quiet_bind; [quiet|]. intros _ s.
  apply wp_bind, wp_get, wp_modify. unfold core. by split_and!.
Qed.

(** ** Every input *)

Inductive roster_input :=
  | RosterPush (c : Conn) (message : WockyNode)
  | RosterReply (c : Conn) (reply : option WockyNode)
  | PresenceStanza (c : Conn) (message : WockyNode)
  | EditReply (c : Conn) (iq : Z) (ok : bool)
  | FlickerTimeout (contact : Z)
  | IdleSource (c : Conn) (n : nat)
  | StatusChanged (c : Conn) (st : PresenceCache.TpConnectionStatus)
  | SetName (c : Conn) (contact : Z) (name : option string)
  | RequestSubscription (c : Conn) (contacts : gset Z) (message : option string)
  | AuthorizePublication (c : Conn) (contacts : gset Z)
  | StoreContacts (c : Conn) (contacts : gset Z)
  | RemoveContacts (c : Conn) (contacts : gset Z)
  | Unsubscribe (c : Conn) (contacts : gset Z)
  | Unpublish (c : Conn) (contacts : gset Z)
  | Download (c : Conn)
  | BlockContacts (c : Conn) (contacts : gset Z) (b : bool)
  | SetContactGroups (c : Conn) (contact : Z) (names : list string)
  | SetGroupMembers (c : Conn) (group : string) (contacts : gset Z)
  | AddToGroup (c : Conn) (group : string) (contacts : gset Z)
  | RemoveFromGroup (c : Conn) (group : string) (contacts : gset Z)
  | RemoveGroup (c : Conn) (group : string).

Definition ignore {A} (m : MR A) : MR unit := m ≫= λ _, mret tt.

Definition run_input (i : roster_input) : MR unit :=
  match i with
  | RosterPush c m => ignore (got_roster_iq down norm c m)
  | RosterReply c r => roster_received_cb down norm c r
  | PresenceStanza c m => ignore (gabble_roster_presence_cb down norm c m)
  | EditReply c iq ok => roster_edited_cb down c iq ok
  | FlickerTimeout h => flicker_prevention_timeout h
  | IdleSource c n => dispatch_idle down c n
  | StatusChanged c st => connection_status_changed_cb c st
  | SetName c h n => ignore (gabble_roster_handle_set_name down c h n)
  | RequestSubscription c hs m => ignore (gabble_roster_request_subscription_async down c hs m)
  | AuthorizePublication c hs => ignore (gabble_roster_authorize_publication_async down c hs)
  | StoreContacts c hs => ignore (gabble_roster_store_contacts_async down c hs)
  | RemoveContacts c hs => ignore (gabble_roster_remove_contacts_async down c hs)
  | Unsubscribe c hs => ignore (gabble_roster_unsubscribe_async down c hs)
  | Unpublish c hs => ignore (gabble_roster_unpublish_async down c hs)
  | Download c => ignore (gabble_roster_download_async c)
  | BlockContacts c hs b => ignore (gabble_roster_block_contacts_async down c hs b)
  | SetContactGroups c h l => ignore (gabble_roster_set_contact_groups_async down c h l)
  | SetGroupMembers c g hs => ignore (gabble_roster_set_group_members_async down c g hs)
  | AddToGroup c g hs => ignore (gabble_roster_add_to_group_async down c g hs)
  | RemoveFromGroup c g hs => ignore (gabble_roster_remove_from_group_async down c g hs)
  | RemoveGroup c g => ignore (gabble_roster_remove_group_async down c g)
  end.

(** A timer fires only while it is set; the handles of a request are checked
    before they get here. *)
Definition enabled s (i : roster_input) : Prop :=
  match i with
  | FlickerTimeout h => ∃ i, items s !! h = Some i ∧ flicker_prevention_id i = true
  | SetContactGroups _ h _ => valid (contact_repo s) h = true
  | _ => True
  end.

Inductive reachable : Roster → Prop :=
  | reach_init : reachable (gabble_roster_constructed repo_new repo_new)
  | reach_step s (i : roster_input) s' :
      reachable s → enabled s i → run_input i s = Ok (tt, s') → reachable s'.

Lemma preserves_ignore G B {A} (m : MR A) :
  preserves G B [] [] m → preserves G B [] [] (ignore m).
Proof.
  intros Hm. apply preserves_bind; [done|]. intros a s Hi. by apply wpe_ret.
Qed.

(** The inputs that come from the server's copy of the roster. *)
Definition is_push (i : roster_input) : Prop :=
  match i with RosterPush _ _ | RosterReply _ _ => True | _ => False end.

Lemma input_wpe (G B : Prop) (i : roster_input) s :
  inv G B [] [] [] s → (G → B) → enabled s i →
  (G → ∀ c hs x, i = Unpublish c hs → x ∈ hs → survives_unpublish x s) →
  wpe G (run_input i) (λ _ s', inv G False [] [] [] s' ∧ (¬ is_push i → inv G B [] [] [] s')) s.
Proof.
  intros Hi HGB Hen Hup.
  assert (preserves G B [] [] (run_input i) → wpe G (run_input i) (λ _ s', inv G False [] [] [] s' ∧
    (¬ is_push i → inv G B [] [] [] s')) s) as Hp.
  { intros Hp. eapply wpe_mono; [by apply Hp|]. intros [] s' Hi'. split; [by eapply inv_unbenign|done]. }
  destruct i; cbn [run_input enabled is_push] in *; unfold ignore, roster_received_cb.
  - apply wpe_bind. eapply wpe_mono; [by eapply got_roster_iq_wpe|]. intros b s1 Hi1. apply wpe_ret.
    split; [done|tauto].
  - destruct reply as [m|]; [|apply wpe_ret; split; [by eapply inv_unbenign|tauto]].
    apply wpe_bind. eapply wpe_mono; [by eapply got_roster_iq_wpe|]. intros b s1 Hi1. apply wpe_ret.
    split; [done|tauto].
  - apply Hp, preserves_ignore, presence_preserves.
  - eapply wpe_mono; [by apply edited_cb_wpe|]. intros [] s' [Hi' _]. split; [by eapply inv_unbenign|done].
  - destruct Hen as (i & Hl & _). eapply wpe_mono; [apply flicker_wpe; eauto|].
    intros [] s' Hi'. split; [by eapply inv_unbenign|done].
  - apply Hp, dispatch_idle_preserves.
  - apply Hp, status_preserves.
  - apply Hp, preserves_ignore. intros s' Hi'. by apply set_name_wpe.
  - apply Hp, preserves_ignore, subscribe_preserves.
  - apply Hp, preserves_ignore, authorize_preserves.
  - apply Hp, preserves_ignore, store_preserves.
  - apply Hp, preserves_ignore, remove_preserves.
  - apply Hp, preserves_ignore, unsubscribe_preserves.
  - apply wpe_bind. eapply wpe_mono; [apply unpublish_wpe; [exact Hi|]|].
    { intros g x Hx. by eapply Hup. }
    cbv beta. intros b s' Hi'. apply wpe_ret. split; [by eapply inv_unbenign|done].
  - apply Hp, preserves_ignore, download_preserves.
  - apply Hp, preserves_ignore, block_preserves.
  - apply wpe_bind. eapply wpe_mono; [apply contact_groups_wpe; [exact Hi|done]|].
    cbv beta. intros b s' Hi'. apply wpe_ret. split; [by eapply inv_unbenign|done].
  - apply Hp, preserves_ignore, group_members_preserves.
  - apply Hp, preserves_ignore, add_to_group_preserves.
  - apply Hp, preserves_ignore, remove_from_group_preserves.
  - apply Hp, preserves_ignore, remove_group_preserves.
Qed.

Lemma inv_init G B : inv G B [] [] [] (gabble_roster_constructed (R := R) repo_new repo_new).
Proof.
  split; [split|split|by intros _ h i|by intros _ iq e i]; cbn; try done.
  - intros r. rewrite bool_decide_eq_false_2; [done|lia].
  - by intros r ?%elem_of_nil.
Qed.

Lemma roster_reachable_inv s : reachable s → inv False False [] [] [] s.
Proof.
  induction 1 as [|s i s' _ IH Hen Hrun]; [apply inv_init|].
  pose proof (input_wpe False False i s IH ltac:(done) Hen ltac:(done)) as Hw.
  unfold wpe in Hw. rewrite Hrun in Hw. by destruct Hw.
Qed.

End facts.
End RosterFacts.
