(* ===== verification/RosterTheorems.v ===== *)
(** * The roster: the theorems

    What holds of every sequence of inputs of the roster ([reachable]), of one
    push and of one item written and read back. *)

From S2P Require Import Prelude Node Namespaces Jid Capabilities Presence PresenceCache PresenceCacheFacts Roster RosterFacts.

Module RosterTheorems.
Import Jid Capabilities Roster RosterFacts.

Lemma retains_until_error {R T} (f : GabbleRoster R → T) t (l : list Z)
    (body : Z → M (GabbleRoster R) bool) s :
  (∀ x s', f s' = t → retains f t (body x) s') → retains f t (until_error l body) s.
Proof.
  intros Hb. revert s. induction l as [|x l IH]; intros s Hs; [by apply retains_ret|].
  apply retains_bind; [by apply Hb|auto|done]. intros [] s' Hs'; [apply IH|apply retains_ret].
Qed.

Ltac retains :=
  retains_with ltac:(idtac; match goal with
    | |- retains _ _ (until_error _ _) _ => apply retains_until_error end).

(** ** What a push announces *)

(** What D-Bus clients see of a contact. *)
Definition visible (i : GabbleRosterItem) :
    bool * TpSubscriptionState * TpSubscriptionState * option string :=
  (stored i, subscribe i, publish i, publish_request i).

Lemma strdiff_spec a b : tp_strdiff a b = true ↔ a ≠ b.
Proof. unfold tp_strdiff. destruct a, b; cbn; try case_bool_decide; naive_solver. Qed.

Lemma pair_ne {A B} `{EqDecision A} (a a' : A) (b b' : B) : (a, b) ≠ (a', b') ↔ a ≠ a' ∨ b ≠ b'.
Proof.
  destruct (decide (a = a')) as [->|Hne].
  - split; [intros Hp; right; congruence|intros [?|?]; congruence].
  - split; [by left|congruence].
Qed.

(** Each switch tells the truth about the fields it sets and leaves the others alone. *)
Lemma push_publish_truth google i i' b :
  push_publish google i = Some (i', b) →
  (b = true ↔ (publish i', publish_request i') ≠ (publish i, publish_request i)) ∧
  subscription i' = subscription i ∧ stored i' = stored i ∧ subscribe i' = subscribe i ∧
  blocked i' = blocked i.
Proof.
  destruct i as [sub ? ? ? ? ? ? ? ? pub req ? ? ?]. unfold push_publish, roster_item_set_publish. cbn.
  destruct sub; cbn; try destruct (google && _); try case_bool_decide; intros; simplify_eq/=;
    rewrite ?orb_true_iff, ?bool_decide_eq_true, ?strdiff_spec, ?pair_ne;
    (split; [split; intros; destruct_or?; solve [done|congruence|by left|by right|left; congruence|right; congruence]|done]).
Qed.

Lemma push_subscribe_truth google i i' b :
  push_subscribe google i = Some (i', b) →
  (b = true ↔ subscribe i' ≠ subscribe i) ∧
  subscription i' = subscription i ∧ stored i' = stored i ∧ publish i' = publish i ∧
  publish_request i' = publish_request i ∧ blocked i' = blocked i.
Proof.
  destruct i as [sub ask ? ? ? ? ? ? sb ? ? ? ? fl].
  unfold push_subscribe, roster_item_set_subscribe. cbn.
  destruct sub, ask, fl; cbn; try destruct (google && _); repeat case_bool_decide; intros;
    simplify_eq/=; (split; [split; intros; try done; try congruence|done]).
Qed.

Lemma push_stored_truth google i i' x :
  push_stored google i = Some (i', x) →
  subscription i' = subscription i ∧ subscribe i' = subscribe i ∧ publish i' = publish i ∧
  publish_request i' = publish_request i ∧ blocked i' = blocked i ∧
  match x with
  | Keep => stored i' = true ∧ stored i = true
  | AddChanged => stored i' = true ∧ stored i = false
  | MoveToRemoved => stored i' = false ∧ (stored i = true ∨ subscription i ≠ SUBSCRIPTION_REMOVE)
  | DropChanged => stored i' = false ∧ stored i = false ∧ subscription i = SUBSCRIPTION_REMOVE
  end.
Proof.
  destruct i as [sub ? ? ? ? ? ? ? ? ? ? st ? ?]. unfold push_stored. cbn.
  destruct sub; try destruct (_ && _); destruct st; intros; simplify_eq/=; split_and!; auto.
Qed.

Lemma push_blocked_truth google i i' b :
  push_blocked google i = Some (i', b) →
  (b = true ↔ blocked i' ≠ blocked i) ∧ subscription i' = subscription i ∧ visible i' = visible i.
Proof.
  destruct i as [sub ? ? ? ? ? ? ? ? ? ? ? bl ?]. unfold push_blocked, visible.
  destruct google; [|intros; simplify_eq/=; by split_and!]. cbn.
  destruct sub, bl; cbn; repeat case_bool_decide; intros; simplify_eq/=; by split_and!.
Qed.

(** What the sets say of [h], and of nobody else. *)
Definition announces (h : Z) (i i' : GabbleRosterItem) (p p' : PushSets) : Prop :=
  (h ∈ changed p' ↔ stored i' = true ∧ visible i' ≠ visible i) ∧
  (h ∈ removed p' ↔ stored i' = false ∧
    (stored i = true ∨ subscription i' ≠ SUBSCRIPTION_REMOVE)) ∧
  (h ∈ blocking_changed p' ↔ blocked i' ≠ blocked i) ∧
  ∀ h', h' ≠ h → (h' ∈ changed p' ↔ h' ∈ changed p) ∧ (h' ∈ removed p' ↔ h' ∈ removed p) ∧
    (h' ∈ blocking_changed p' ↔ h' ∈ blocking_changed p).

Lemma push_item_announces google h b i p i' p' :
  push_item google h b i p = Some (i', p') →
  h ∉ changed p → h ∉ removed p → h ∉ blocking_changed p → announces h i i' p p'.
Proof.
  unfold push_item. intros Hp Hc Hr Hb.
  apply bind_Some in Hp as ([i1 b1] & H1 & Hp). apply bind_Some in Hp as ([i2 b2] & H2 & Hp).
  apply bind_Some in Hp as ([i3 x] & H3 & Hp). apply bind_Some in Hp as ([i4 b4] & H4 & Hp).
  apply push_publish_truth in H1 as (T1 & ? & ? & ? & ?).
  apply push_subscribe_truth in H2 as (T2 & ? & ? & ? & ? & ?).
  apply push_stored_truth in H3 as (? & ? & ? & ? & ? & T3).
  apply push_blocked_truth in H4 as (T4 & ? & [= ? ? ? ?]).
  assert (b1 || b2 = true ↔ (subscribe i4, publish i4, publish_request i4) ≠
    (subscribe i, publish i, publish_request i)) as T12.
  { rewrite orb_true_iff, T1, T2. rewrite !pair_ne. intuition congruence. }
  assert (visible i4 ≠ visible i ↔ stored i4 ≠ stored i ∨ b1 || b2 = true) as TV.
  { rewrite T12. clear. unfold visible. rewrite !pair_ne. tauto. }
  assert (b4 = true ↔ blocked i4 ≠ blocked i) as TB by (rewrite T4; intuition congruence).
  clear T1 T2 T4 T12. unfold announces.
  destruct (b1 || b2), x; cbn in Hp; injection Hp as <- <-; cbn; rewrite TV, <- TB;
    (split_and!; [| |destruct b4; set_solver|destruct b4; set_solver]);
    set_unfold; intuition congruence.
Qed.

Lemma push_item_removed google h b i p i' p' :
  push_item google h b i p = Some (i', p') → subscription i' = SUBSCRIPTION_REMOVE →
  stored i' = false.
Proof.
  unfold push_item. intros Hp Hs.
  apply bind_Some in Hp as ([i1 b1] & H1 & Hp). apply bind_Some in Hp as ([i2 b2] & H2 & Hp).
  apply bind_Some in Hp as ([i3 x] & H3 & Hp). apply bind_Some in Hp as ([i4 b4] & H4 & Hp).
  apply push_blocked_truth in H4 as (_ & Hsub & [= Hst _ _ _]).
  assert (i4 = i') as -> by (destruct (change_stored _ _ _ _); by injection Hp).
  rewrite Hst. rewrite Hs in Hsub. unfold push_stored in H3.
  destruct (subscription i2) eqn:E2; try destruct (_ && _); simplify_eq/=; congruence.
Qed.

Lemma update_groups (g new : gset Z) : (g ∪ new) ∖ (g ∖ new) = new.
Proof. apply set_eq. intros x. destruct (decide (x ∈ new)); set_solver. Qed.

Section theorems.
Context {R : Type} `{HL : HandleRepoLaws R}.
Context (down norm : string → string).

Local Notation Roster := (GabbleRoster R).
Local Notation MR := (M Roster).
Local Notation valid := PresenceCache.handle_is_valid.
Implicit Types (s : Roster).

Lemma edited_cb_retains c iq ok t s :
  retains (λ s, (received s, next_result s)) t (roster_edited_cb (R := R) down c iq ok) s.
Proof. retains. Qed.

(** ** Requests *)

Lemma reachable_answered s r :
  reachable down norm s → 0 <= r < next_result s →
  answered s r = if bool_decide (refs s r = 0%nat) then 1%nat else 0%nat.
Proof.
  intros Hr%roster_reachable_inv Hrange. rewrite (acc_answered _ _ _ (inv_accounts _ _ _ _ _ _ Hr)).
  cbn. apply (f_equal (λ b : bool, if b then 1%nat else 0%nat)), bool_decide_ext. lia.
Qed.

(** C6: Every request made of the roster is answered
    exactly once: at any time it is either held by an edit that is not sent or
    not acknowledged, and then no answer was given or is queued, or no edit
    holds it and there is exactly one answer, queued or given. *)
Theorem roster_requests_once s r :
  reachable down norm s → 0 <= r < next_result s →
  ((∃ h i e, items s !! h = Some i ∧ unsent_edits i = Some e ∧ r ∈ e_results e) ∨
   (∃ iq e, in_flight s !! iq = Some e ∧ r ∈ e_results e)) ∧ answered s r = 0%nat ∨
  (∀ h i e, items s !! h = Some i → unsent_edits i = Some e → r ∉ e_results e) ∧
  (∀ iq e, in_flight s !! iq = Some e → r ∉ e_results e) ∧ answered s r = 1%nat.
Proof.
  intros Hr Hrange. rewrite (reachable_answered s r Hr Hrange).
  case_bool_decide as Hz; [right|left]; unfold refs in Hz.
  - split_and!; [intros h i e Hl Hu|intros iq e Hl|done]; intros Hin%list_elem_of_In%(count_occ_In Z.eq_dec).
    + rewrite (msum_delete _ _ h i Hl), Hu in Hz. cbn in Hz. lia.
    + rewrite (msum_delete _ (in_flight s) iq e Hl) in Hz. lia.
  - split; [|done].
    destruct (decide (0 < msum (λ i, edit_refs r (unsent_edits i)) (items s))%nat) as [Hp|Hp].
    + apply msum_pos in Hp as (h & i & Hl & Hp). left. exists h, i.
      destruct (unsent_edits i) as [e|] eqn:Hu; cbn in Hp; [|lia]. exists e.
      split_and!; [done..|]. by apply list_elem_of_In, (count_occ_In Z.eq_dec).
    + destruct (msum_pos (λ e, occ (e_results e) r) (in_flight s)) as (iq & e & Hl & Hq); [lia|].
      right. exists iq, e. split; [done|]. by apply list_elem_of_In, (count_occ_In Z.eq_dec).
Qed.

(** C9: The roster never has two IQs in flight about one
    contact, the flag of an item says whether there is one, every IQ in flight
    is about a contact whose item still exists, and once the roster is there
    an edit only waits behind an IQ in flight. *)
Theorem roster_one_edit s :
  reachable down norm s →
  (∀ iq iq' e e', in_flight s !! iq = Some e → in_flight s !! iq' = Some e' →
    e_handle e = e_handle e' → iq = iq') ∧
  (∀ iq e, in_flight s !! iq = Some e → is_Some (items s !! e_handle e)) ∧
  (∀ h i, items s !! h = Some i →
    valid (contact_repo s) h = true ∧ google_type i ≠ GOOGLE_ITEM_TYPE_INVALID ∧
    (edits_in_flight i = true ↔ ∃ iq e, in_flight s !! iq = Some e ∧ e_handle e = h) ∧
    (∀ e, unsent_edits i = Some e →
      e_handle e = h ∧ (edits_in_flight i = true ∨ received s = false))).
Proof.
  intros [[Hv Hg He Hb Hs Ho _ Hw] _ _ _]%roster_reachable_inv.
  split_and!; [exact Ho|exact Hs|]. intros h i Hl. split_and!; [eauto|eauto|by apply Hb|].
  intros e Hu. split; [by eapply He|].
  destruct (Hw h i Hl ltac:(eauto)) as [|[|Hn%elem_of_nil]]; auto.
Qed.

(** ** Progress *)

Lemma reachable_sane_inv s :
  reachable down norm s → sane s → benign s → inv True True [] [] [] s.
Proof. by intros [Hsh Hac _ _]%roster_reachable_inv Hs Hb. Qed.

(** The server answers what is in flight, in any order and as it likes:
    [order] picks the next one to answer, [ok] is the answer. *)
Definition next_reply (order : list Z → nat) s : option Z :=
  let l := fst <$> map_to_list (in_flight s) in l !! (order l mod length l)%nat.

Fixpoint answer_all (c : Conn) (order : list Z → nat) (ok : Z → bool) (fuel : nat) : MR unit :=
  match fuel with
  | O => mret tt
  | S n =>
      s ← get;
      match next_reply order s with
      | None => mret tt
      | Some iq => roster_edited_cb down c iq (ok iq) ;; answer_all c order ok n
      end
  end.

Lemma next_reply_spec order s :
  match next_reply order s with
  | Some iq => is_Some (in_flight s !! iq)
  | None => in_flight s = ∅
  end.
Proof.
  unfold next_reply. set (l := fst <$> map_to_list (in_flight s)).
  destruct (l !! _) as [iq|] eqn:E.
  - apply list_elem_of_lookup_2, list_elem_of_fmap in E as ([iq' e] & -> & He).
    exists e. by apply elem_of_map_to_list.
  - apply lookup_ge_None in E. apply map_to_list_empty_iff.
    apply (fmap_nil_inv fst). fold l. destruct l as [|x l]; [done|].
    pose proof (Nat.mod_upper_bound (order (x :: l)) (length (x :: l)) ltac:(done)). lia.
Qed.

(** The main loop runs what is queued. *)
Fixpoint run_idles (c : Conn) (fuel : nat) : MR unit :=
  match fuel with O => mret tt | S n => dispatch_idle down c 0 ;; run_idles c n end.

Lemma answer_all_wp c order ok n s :
  inv True True [] [] [] s → (load s ≤ n)%nat → received s = true →
  wp (answer_all c order ok n) (λ _ s', inv True True [] [] [] s' ∧ in_flight s' = ∅ ∧
    received s' = true ∧ next_result s' = next_result s) s.
Proof.
  revert s. induction n as [|n IH]; intros s Hi Hload Hrec; cbn [answer_all].
  - apply wp_ret. split_and!; try done. apply map_eq. intros iq. rewrite lookup_empty.
    destruct (in_flight s !! iq) as [e|] eqn:Hf; [|done]. unfold load in Hload.
    rewrite (msum_delete _ (in_flight s) iq e Hf) in Hload. lia.
  - apply wp_bind, wp_get. pose proof (next_reply_spec order s) as Hnext.
    destruct (next_reply order s) as [iq|]; [|by apply wp_ret].
    apply wp_bind. pose proof (edited_cb_wpe down True True c iq (ok iq) s Hi ltac:(done)) as Hw.
    unfold wpe in Hw. unfold wp.
    destruct (roster_edited_cb down c iq (ok iq) s) as [[[] s1]|] eqn:E; [|by apply Hw].
    pose proof (edited_cb_retains c iq (ok iq) _ s eq_refl tt s1 E) as [= Hr1 Hn1].
    destruct Hw as [Hi1 Hlt]. specialize (Hlt Hnext).
    eapply wp_mono; [|apply IH; [done|lia|congruence]].
    intros [] s2 (H1 & H2 & H3 & H4). split_and!; [done..|congruence].
Qed.

(** How often the main loop has to run: a request to subscribe is answered in
    a second idle source. *)
Definition idle_cost (x : idle_source) : nat :=
  match x with CompleteResult _ => 2 | ReportResult _ _ => 1 end.
Definition idle_work s : nat := sum_list_with idle_cost (idles s).

Lemma run_idle_retains c x t s :
  retains (λ s, (received s, next_result s, in_flight s)) t (run_idle (R := R) down c x) s.
Proof. retains. Qed.

Lemma run_idle_work c x s :
  wpe False (run_idle down c x) (λ _ s', idle_work s' < idle_work s + idle_cost x)%nat s.
Proof.
  unfold idle_work. destruct x as [r|call ok]; cbn [run_idle idle_cost].
  2: { apply wpe_modify. cbn. lia. }
  apply wpe_bind, wpe_get. destruct (results s !! r) as [x|]; [|by intros []].
  apply wpe_bind, wpe_modify. destruct (callback x) as [|contacts m|g contacts].
  - apply wpe_modify. cbn. lia.
  - unfold gabble_roster_request_subscription_added_cb. apply wpe_bind.
    apply (retains_wpe idles); [retains|]. intros ok s1 Hid.
    apply wpe_bind, wpe_get, wpe_modify. cbn. rewrite Hid, sum_list_with_app. cbn. lia.
  - apply wpe_bind. apply (retains_wpe idles); [retains|]. intros [] s1 Hid.
    apply wpe_modify. cbn. rewrite Hid. cbn. lia.
Qed.

Lemma dispatch_idle_effect c s :
  wpe False (dispatch_idle down c 0) (λ _ s',
    (received s', next_result s', in_flight s') = (received s, next_result s, in_flight s) ∧
    (idle_work s' ≤ pred (idle_work s))%nat) s.
Proof.
  unfold dispatch_idle. apply wpe_bind, wpe_get.
  destruct (idles s) as [|x l] eqn:El; cbn [lookup list_lookup take drop app].
  - apply wpe_ret. unfold idle_work. by rewrite El.
  - apply wpe_bind, wpe_modify.
    eapply wpe_mono; [apply wpe_and; [apply run_idle_work|]|].
    + apply (retains_wpe (λ s, (received s, next_result s, in_flight s)) _ (λ _ s',
        (received s', next_result s', in_flight s') = (received s, next_result s, in_flight s)));
        [apply run_idle_retains|done].
    + intros [] s' [Hw Hk]. split; [done|]. revert Hw. unfold idle_work. rewrite El. cbn [idles sum_list_with]. rewrite drop_0. lia.
Qed.

Lemma run_idles_wp c n s :
  inv True True [] [] [] s → (idle_work s ≤ n)%nat →
  wp (run_idles c n) (λ _ s', inv True True [] [] [] s' ∧ idles s' = [] ∧
    (received s', next_result s', in_flight s') = (received s, next_result s, in_flight s)) s.
Proof.
  revert s. induction n as [|n IH]; intros s Hi Hw; cbn [run_idles].
  - apply wp_ret. split_and!; [done| |done]. unfold idle_work in Hw.
    destruct (idles s) as [|[] l]; [done|cbn in Hw; lia..].
  - apply wp_bind. apply (wpe_wp True); [done|]. eapply wpe_mono.
    { apply wpe_and; [by apply dispatch_idle_preserves|apply dispatch_idle_effect]. }
    intros [] s1 (Hi1 & Hk & Hw1). rewrite <- Hk. apply IH; [done|lia].
Qed.

Lemma msum_all_zero {A} (f : A → nat) (m : gmap Z A) :
  (∀ k a, m !! k = Some a → f a = 0%nat) → msum f m = 0%nat.
Proof.
  intros Hz. destruct (decide (0 < msum f m)%nat) as [(k & a & Hl & Hp)%msum_pos|]; [|lia].
  specialize (Hz k a Hl). lia.
Qed.

Lemma refs_idle s r :
  (∀ h i, items s !! h = Some i → unsent_edits i = None) → in_flight s = ∅ → refs s r = 0%nat.
Proof.
  intros Hu Hf. unfold refs. rewrite Hf, msum_empty, msum_all_zero; [done|].
  intros h i Hl. by rewrite (Hu h i Hl).
Qed.

(** Everything the server and the main loop still owe. *)
Definition finish (c : Conn) (order : list Z → nat) (ok : Z → bool) : MR unit :=
  s ← get; answer_all c order ok (load s) ;; s ← get; run_idles c (idle_work s).

Definition done_count s (r : Z) : nat := length (List.filter (answers r) (events s)).

(** C7: Once the roster has arrived, take any
    reachable state in which no contact has the subscription that stands for
    no edit (sane) and in which the server has not removed a contact while an
    edit that leaves its subscription alone is in flight (benign); the server
    can break both, and the code can then fail an assertion. Then at most
    [load s] replies of the server, in any order and successful or not, leave
    no edit unsent and no IQ in flight, and running what the main loop has
    queued then has called every request's user back exactly once. *)
Theorem roster_requests_complete c order ok s :
  reachable down norm s → received s = true → sane s → benign s →
  wp (finish c order ok) (λ _ s', in_flight s' = ∅ ∧ idles s' = [] ∧
    (∀ h i, items s' !! h = Some i → unsent_edits i = None) ∧
    next_result s' = next_result s ∧ ∀ r, 0 <= r < next_result s → done_count s' r = 1%nat) s.
Proof.
  intros Hr Hrec Hs Hb. pose proof (reachable_sane_inv s Hr Hs Hb) as Hi.
  apply wp_bind, wp_get, wp_bind. eapply wp_mono; [|by apply answer_all_wp].
  intros [] s1 (Hi1 & Hf1 & Hr1 & Hn1). apply wp_bind, wp_get.
  eapply wp_mono; [|by apply run_idles_wp]. intros [] s2 (Hi2 & Hid & [= Hr2 Hn2 Hf2]).
  assert (∀ h i, items s2 !! h = Some i → unsent_edits i = None) as Hnone.
  { intros h i Hl. destruct (unsent_edits i) as [e|] eqn:Hu; [|done]. exfalso.
    destruct Hi2 as [[] _ _ _].
    destruct (sh_waiting0 h i Hl ltac:(eauto)) as [Hb2|[|?%elem_of_nil]]; [|congruence|done].
    apply (sh_busy0 h i Hl) in Hb2 as (iq & e' & Hf & _). rewrite Hf2, Hf1 in Hf. done. }
  split_and!; [congruence|done|done|congruence|]. intros r Hrange.
  pose proof (acc_answered _ _ _ (inv_accounts _ _ _ _ _ _ Hi2) r) as Ha.
  unfold answered in Ha. rewrite Hid in Ha. unfold done_count. cbn in Ha. rewrite Ha.
  rewrite bool_decide_eq_true_2; [done|]. split; [lia|]. cbn.
  rewrite (refs_idle s2 r Hnone) by congruence. done.
Qed.

(** ** Safety *)

(** C8: No input aborts the process as long as the server did
    not remove a contact behind an edit in flight ([benign]) and the user does
    not take back a request that alone keeps its contact in the list: the
    handler returns, no item has an impossible subscription, and only what the
    server says of its roster can make [benign] fail. *)
Theorem roster_safe (i : roster_input) s :
  reachable down norm s → sane s → benign s → enabled s i →
  (∀ c hs x, i = Unpublish c hs → x ∈ hs → survives_unpublish x s) →
  wp (run_input down norm i) (λ _ s', sane s' ∧ (¬ is_push i → benign s')) s.
Proof.
  intros Hr Hs Hb Hen Hup. apply (wpe_wp True); [done|].
  eapply wpe_mono; [apply input_wpe; [by apply reachable_sane_inv|done|done|done]|].
  intros [] s' [H1 H2]. split; [by apply (inv_sane _ _ _ _ _ _ H1)|].
  intros Hp. by apply (inv_benign _ _ _ _ _ _ (H2 Hp)).
Qed.

(** ** An item written and read back *)

Lemma add_children_spec nm l n :
  foldl (λ n g, wocky_node_add_child_with_content n nm g) n l =
  set_children n (children n ++ ((λ g, mkNode nm g (ns n) [] []) <$> l)).
Proof.
  revert n. induction l as [|g l IH]; intros n; cbn; [rewrite app_nil_r; by destruct n|].
  rewrite IH. cbn. by rewrite <- app_assoc.
Qed.

Definition opt_attribute (b : bool) (key value : string) (a_ns : option string) : list Attribute :=
  if b then [mkAttribute key value a_ns] else [].

Definition google_letter (x : GoogleItemType) : string :=
  default EmptyString (default None (_google_item_type_to_string x)).

(** The attributes of the <item/>, in order. *)
Definition item_attributes (google : bool) (jid : string) (x : GabbleRosterItem) : list Attribute :=
  let removed := bool_decide (subscription x = SUBSCRIPTION_REMOVE) in
  mkAttribute "jid" jid None ::
  opt_attribute (negb (bool_decide (subscription x = SUBSCRIPTION_NONE))) "subscription"
    (default EmptyString (_subscription_to_string (subscription x))) None ++
  opt_attribute (negb removed && google && negb (bool_decide (google_type x = GOOGLE_ITEM_TYPE_NORMAL)))
    "t" (google_letter (google_type x)) (Some NS_GOOGLE_ROSTER) ++
  opt_attribute (negb removed && ask_subscribe x) "ask" "subscribe" None ++
  opt_attribute (negb removed && bool_decide (is_Some (item_name x))) "name"
    (default EmptyString (item_name x)) None.

Lemma item_to_node_spec google jid names x n :
  item_to_node google jid names x = Some n →
  n = mkNode "item" None (Some NS_ROSTER) (item_attributes google jid x)
        (if bool_decide (subscription x = SUBSCRIPTION_REMOVE) then []
         else (λ g, mkNode "group" g (Some NS_ROSTER) [] []) <$> names) ∧
  subscription x ≠ SUBSCRIPTION_INVALID ∧
  (google = true → subscription x ≠ SUBSCRIPTION_REMOVE → google_type x ≠ GOOGLE_ITEM_TYPE_INVALID).
Proof.
  destruct x as [sub ask ty nm ? ? ? ? ? ? ? ? ? ?]. unfold item_to_node, item_attributes.
  cbn [subscription google_type ask_subscribe item_name].
  destruct sub; try discriminate.
  5: { intros [= <-]. by split_and!. }
  all: destruct google, ty; try discriminate; intros Hn; cbn in Hn.
  all: injection Hn as <-; rewrite add_children_spec; split; [|done].
  all: destruct ask, nm; reflexivity.
Qed.

Lemma parse_item_attributes google jid x names n :
  item_to_node google jid names x = Some n →
  wocky_node_get_attribute n "jid" = Some jid ∧
  _parse_item_subscription n = subscription x ∧
  (subscription x ≠ SUBSCRIPTION_REMOVE →
    wocky_node_get_attribute n "ask" = (if ask_subscribe x then Some "subscribe" else None) ∧
    wocky_node_get_attribute n "name" = item_name x ∧
    (google = true → _parse_google_item_type n = google_type x)).
Proof.
  intros (-> & Hs & Hg)%item_to_node_spec. revert Hs Hg.
  destruct x as [sub ask ty nm ? ? ? ? ? ? ? ? ? ?]. unfold item_attributes.
  cbn [subscription google_type ask_subscribe item_name].
  destruct sub; intros Hs Hg; try done.
  all: destruct google, ty; try (exfalso; by apply Hg); destruct ask, nm; by split_and!.
Qed.

Lemma known_group (r : R) g :
  valid r g = true → ∃ n, tp_handle_inspect r g = Some n ∧ tp_handle_lookup r n = g ∧ g ≠ 0.
Proof.
  unfold PresenceCache.handle_is_valid. rewrite andb_true_iff, negb_true_iff, Z.eqb_neq.
  intros [Hne Hi]. destruct (tp_handle_inspect r g) as [n|] eqn:E; [|done].
  exists n. split_and!; [done|by apply inspect_lookup|done].
Qed.

(** Names of groups that are known are read back as their handles. *)
Lemma parse_groups_wp l (nodes : list WockyNode) acc s :
  Forall2 (λ g n, ∃ nm, content n = Some nm ∧ tp_handle_lookup (group_repo s) nm = g ∧ g ≠ 0) l nodes →
  wp (parse_groups nodes acc) (λ gs s', gs = list_to_set l ∪ acc ∧ core s s') s.
Proof.
  clear down norm. revert nodes acc s. induction l as [|g l IH]; intros nodes acc s Hl.
  - apply Forall2_nil_inv_l in Hl as ->. apply wp_ret. split; [set_solver|apply core_refl].
  - apply Forall2_cons_inv_l in Hl as (n & nodes' & (nm & Hc & Hg & Hne) & Hl & ->).
    cbn [parse_groups]. rewrite Hc. apply wp_bind. unfold ensure_group. apply wp_bind, wp_get.
    pose proof (lookup_ensure (group_repo s) nm) as He.
    pose proof (lookup_ensure_stable (group_repo s) nm) as Hst.
    destruct (tp_handle_ensure (group_repo s) nm) as [r h]. cbn in He, Hst.
    apply wp_bind, wp_modify, wp_ret.
    assert (h = g) as -> by (rewrite <- He, Hst; congruence).
    rewrite (proj2 (Z.eqb_neq g 0) Hne).
    eapply wp_mono; [|apply IH].
    + intros gs s' [-> Hcore]. split; [set_solver|]. revert Hcore. unfold core. cbn. done.
    + cbn. eapply Forall2_impl; [exact Hl|]. intros g' n' (nm' & Hc' & Hg' & Hne').
      exists nm'. split_and!; [done| |done]. rewrite Hst; [done|congruence].
Qed.

Lemma to_message_inv c h x msg s s1 :
  _gabble_roster_item_to_message c h x s = Ok (msg, s1) →
  ∃ jid n, valid (contact_repo s) h = true ∧ tp_handle_inspect (contact_repo s) h = Some jid ∧
    item_to_node (google_roster_feature c) jid
      (tp_handle_inspect (group_repo s) <$> elements (item_groups x)) x = Some n ∧
    msg = _gabble_roster_message_new c "set" [n].
Proof.
  intros ([] & s2 & (v & s3 & [= <- <-] & [-> Hv]%assert_Ok)%bind_Ok & Hm)%bind_Ok.
  destruct (known_group _ _ Hv) as (jid & Hj & _). revert Hm.
  unfold contact_id, asserted, mbind, M_bind, get. cbn. rewrite Hj. cbn.
  destruct (item_to_node _ _ _ _) as [n|] eqn:En; [|done]. intros [= <- _]. eauto 6.
Qed.

Lemma message_query c n :
  name n = "item" →
  ∃ q, wocky_node_get_child_ns (_gabble_roster_message_new c "set" [n]) (Some "query") (Some NS_ROSTER)
      = Some q ∧
    List.filter (node_compare_child (Some "item") None) (children q) = [n] ∧
    is_google_roster_push c q = google_roster_feature c.
Proof.
  intros Hn. unfold _gabble_roster_message_new, is_google_roster_push, node_compare_child.
  destruct (google_roster_feature c); eexists; (split; [reflexivity|]); cbn;
    by rewrite Hn, bool_decide_eq_true_2.
Qed.

Lemma assert_known h s :
  valid (contact_repo s) h = true → assert_valid_contact h s = Ok (tt, s).
Proof. intros Hv. unfold assert_valid_contact, valid_contact, mbind, M_bind, get. cbn. by rewrite Hv. Qed.

Lemma ensure_known c h i s :
  items s !! h = Some i → valid (contact_repo s) h = true →
  _gabble_roster_item_ensure down c h s = Ok (tt, s).
Proof.
  intros Hl Hv. unfold _gabble_roster_item_ensure, _gabble_roster_item_lookup.
  erewrite bind_eq by reflexivity. rewrite (bind_eq _ _ _ _ _ (assert_known h s Hv)). by rewrite Hl.
Qed.

Lemma get_known h i s : items s !! h = Some i → get_item h s = Ok (i, s).
Proof. intros Hl. unfold get_item, mbind, M_bind, get. by rewrite Hl. Qed.

(** A push about a known item whose groups [l] are known. *)
Lemma item_update_known c h n google old l s :
  items s !! h = Some old → valid (contact_repo s) h = true →
  Forall2 (λ g n, ∃ nm, content n = Some nm ∧ tp_handle_lookup (group_repo s) nm = g ∧ g ≠ 0) l
    (List.filter (node_compare_child (Some "group") None) (children n)) →
  wp (_gabble_roster_item_update down c h n google) (λ _ s',
    items s' !! h = Some (i_set_groups (list_to_set l) (read_item google n old))) s.
Proof.
  intros Hl Hv Hg. unfold _gabble_roster_item_update.
  eapply wp_known; [by apply assert_known|]. eapply wp_known; [by eapply ensure_known|].
  eapply wp_known; [by apply get_known|].
  apply wp_bind. eapply wp_mono; [|by apply parse_groups_wp].
  rewrite union_empty_r_L. intros gs s1 [-> Hcore]. apply wp_bind. unfold put_item. apply wp_bind, wp_get, wp_modify, wp_bind.
  eapply wp_mono; [|apply quiet_announce]. intros [] s2 (Hit & _). apply wp_ret.
  rewrite Hit. cbn [items]. rewrite lookup_insert_eq. f_equal. unfold read_item.
  destruct google, old; cbn; by rewrite update_groups.
Qed.

Lemma group_nodes_known s (l : list Z) :
  (∀ g, g ∈ l → valid (group_repo s) g = true) →
  Forall2 (λ g n, ∃ nm, content n = Some nm ∧ tp_handle_lookup (group_repo s) nm = g ∧ g ≠ 0) l
    (List.filter (node_compare_child (Some "group") None)
      ((λ g, mkNode "group" g (Some NS_ROSTER) [] []) <$> (tp_handle_inspect (group_repo s) <$> l))).
Proof.
  induction l as [|g l IH]; intros Hl; [by constructor|]. cbn. constructor.
  - destruct (known_group (group_repo s) g (Hl g ltac:(by left))) as (nm & Hi & Hk & Hne). eauto.
  - apply IH. intros g' Hg'. apply Hl. by right.
Qed.

(** What an edit sends to the server says all of
    the edited item: read back from a roster push, the item has the same
    subscription and, unless it was removed, the same pending request, name,
    groups and Google type; a removed one has no name and no groups. *)
Theorem roster_item_roundtrip c h x old msg s s1 :
  _gabble_roster_item_to_message c h x s = Ok (msg, s1) → items s !! h = Some old →
  (∀ g, g ∈ item_groups x → valid (group_repo s) g = true) →
  ∃ q n jid, wocky_node_get_child_ns msg (Some "query") (Some NS_ROSTER) = Some q ∧
    List.filter (node_compare_child (Some "item") None) (children q) = [n] ∧
    tp_handle_inspect (contact_repo s) h = Some jid ∧
    wocky_node_get_attribute n "jid" = Some jid ∧
    wp (_gabble_roster_item_update down c h n (is_google_roster_push c q)) (λ _ s', ∃ i,
      items s' !! h = Some i ∧ subscription i = subscription x ∧
      if bool_decide (subscription x = SUBSCRIPTION_REMOVE)
      then item_name i = None ∧ item_groups i = ∅
      else ask_subscribe i = ask_subscribe x ∧ item_name i = item_name x ∧
           item_groups i = item_groups x ∧
           google_type i = if google_roster_feature c then google_type x else google_type old) s.
Proof.
  intros (jid & n & Hv & Hj & Hn & ->)%to_message_inv Hl Hgroups.
  destruct (message_query c n) as (q & Hq & Hitem & Hgoogle).
  { by apply item_to_node_spec in Hn as [-> _]. }
  pose proof (parse_item_attributes _ _ _ _ _ Hn) as (Hjid & Hsub & Hrest).
  pose proof (item_to_node_spec _ _ _ _ _ Hn) as (Hnode & _).
  exists q, n, jid. split_and!; [done..|]. rewrite Hgoogle.
  case_bool_decide as Hrm.
  - eapply wp_mono; [|apply (item_update_known _ _ _ _ old []); [exact Hl|exact Hv|by rewrite Hnode]].
    intros b s' Hs'. eexists. split; [exact Hs'|]. unfold read_item. rewrite Hsub, Hrm.
    by destruct (google_roster_feature c).
  - specialize (Hrest Hrm) as (Hask & Hname & Hty).
    eapply wp_mono; [|apply (item_update_known _ _ _ _ old (elements (item_groups x)));
      [exact Hl|exact Hv|rewrite Hnode; apply group_nodes_known; intros g Hg%elem_of_elements; auto]].
    intros b s' Hs'. eexists. split; [exact Hs'|]. unfold read_item.
    rewrite Hsub, Hask, Hname. rewrite list_to_set_elements_L.
    destruct (google_roster_feature c), (ask_subscribe x); cbn; rewrite ?bool_decide_eq_false_2 by done;
      split_and!; auto.
Qed.

(** ** What a push announces, on the wire *)

Lemma item_update_reads c h n google old s :
  items s !! h = Some old → valid (contact_repo s) h = true →
  wp (_gabble_roster_item_update down c h n google) (λ _ s',
    valid (contact_repo s') h = true ∧
    ∃ g, items s' !! h = Some (i_set_groups g (read_item google n old))) s.
Proof.
  intros Hl Hv. unfold _gabble_roster_item_update.
  eapply wp_known; [by apply assert_known|]. eapply wp_known; [by eapply ensure_known|].
  eapply wp_known; [by apply get_known|]. apply wp_bind.
  eapply wp_mono; [|apply quiet_item_groups]. intros gs s1 (_ & _ & _ & _ & _ & _ & _ & Hx & _).
  apply wp_bind. unfold put_item. apply wp_bind, wp_get, wp_modify, wp_bind.
  eapply wp_mono; [|apply quiet_announce]. intros [] s2 (Hit & _ & _ & _ & _ & _ & _ & Hx2 & _).
  apply wp_ret. rewrite Hit. cbn [items] in *. rewrite lookup_insert_eq. split.
  - eapply PresenceCacheFacts.valid_extends; [exact Hx2|].
    by eapply PresenceCacheFacts.valid_extends; [exact Hx|].
  - eexists. f_equal. unfold read_item. by destruct google, old.
Qed.

Lemma maybe_remove_effect h i s :
  items s !! h = Some i →
  wpe False (_gabble_roster_item_maybe_remove h) (λ _ s',
    if removable i then items s' !! h = None else items s' !! h = Some i) s.
Proof.
  intros Hl. unfold _gabble_roster_item_maybe_remove, assert_valid_contact, removable,
    _gabble_roster_item_lookup, remove_item.
  apply wpe_bind, wpe_bind, valid_contact_wpe, wpe_assert; [by intros []|]. intros _.
  repeat wpe_step. rewrite Hl. rewrite !bool_decide_not.
  destruct (bool_decide (subscription i = _)); [|by apply wpe_ret].
  destruct (edits_in_flight i); [by apply wpe_ret|].
  destruct (bool_decide (publish i = _)); [|by apply wpe_ret].
  destruct (bool_decide (subscribe i = _)); [|by apply wpe_ret].
  cbn [negb andb]. repeat wpe_step. apply (retains_wpe items); [retains|]. intros [] s1 Hit. apply wpe_ret.
  rewrite Hit. apply lookup_delete_eq.
Qed.

Lemma process_item_effect c google n h old p s :
  validate_roster_item down norm n s = Ok (h, s) → valid (contact_repo s) h = true →
  items s !! h = Some old →
  h ∉ changed p → h ∉ removed p → h ∉ blocking_changed p →
  wpe False (process_item down norm c google n p) (λ p' s', ∃ i', announces h old i' p p' ∧
    (items s' !! h = Some i' ∨
     items s' !! h = None ∧ stored i' = false ∧ subscribe i' = STATE_NO ∧ publish i' = STATE_NO)) s.
Proof.
  intros Hn Hv Hl Hc Hrm Hb. destruct (known_group _ _ Hv) as (_ & _ & _ & Hne).
  unfold process_item, wpe at 1. rewrite (bind_eq _ _ _ _ _ Hn), (proj2 (Z.eqb_neq h 0) Hne).
  apply wpe_bind. eapply wpe_mono; [by apply wp_wpe, item_update_reads|].
  intros b s1 (_ & g & Hl1). apply wpe_bind, get_item_wpe; [eauto|]. intros i1 Hl1'.
  rewrite Hl1 in Hl1'. injection Hl1' as <-. apply wpe_bind.
  destruct (push_item google h b _ p) as [[i' p']|] eqn:Ep; [|by intros []].
  apply wpe_ret. unfold put_item. apply wpe_bind. repeat wpe_step.
  eapply wpe_mono; [apply (maybe_remove_effect h i'), lookup_insert_eq|].
  intros b2 s2 Hb2. apply wpe_ret. exists i'. split.
  - apply push_item_announces in Ep; [|done..]. revert Ep. unfold announces, visible, read_item.
    by destruct google.
  - destruct (removable i') eqn:Er; [right|by left]. unfold removable in Er.
    rewrite !andb_true_iff, !bool_decide_eq_true in Er. destruct Er as (((Hs & _) & Hp) & Hsb).
    split_and!; [done| |done|done]. by eapply push_item_removed.
Qed.

(** One item of a roster push announces to D-Bus
    what it changed and nothing else: the contact is among the changed ones
    exactly when it is still in the list and its visible state is another one,
    among the removed ones exactly when it left the list (or is a Google item
    that is to be hidden), among those whose blocking changed exactly when it
    did, and no other contact is announced. *)
Theorem roster_push_announces c google n h old p s :
  reachable down norm s → sane s →
  validate_roster_item down norm n s = Ok (h, s) → items s !! h = Some old →
  h ∉ changed p → h ∉ removed p → h ∉ blocking_changed p →
  wp (process_item down norm c google n p) (λ p' s', ∃ i', announces h old i' p p' ∧
    (items s' !! h = Some i' ∨
     items s' !! h = None ∧ stored i' = false ∧ subscribe i' = STATE_NO ∧ publish i' = STATE_NO)) s.
Proof.
  intros Hr Hs Hn Hl Hc Hrm Hb.
  assert (inv True False [] [] [] s) as Hi by (by destruct (roster_reachable_inv _ _ _ Hr)).
  pose proof (sh_valid _ _ (inv_shape _ _ _ _ _ _ Hi) h old Hl) as Hv.
  apply (wpe_wp True); [done|].
  apply (wpe_mono _ _ _ _ _ (wpe_and _ _ _ _ _ (process_item_wpe down norm True [] [] [] c google n p s Hi)
    (process_item_effect c google n h old p s Hn Hv Hl Hc Hrm Hb))).
  by intros p' s' [_ ?].
Qed.

(** ** Subscription stanzas *)

(** What a stanza of that type makes of the contact: [None] when it says
    nothing new. *)
Definition told (ty : string) (i : GabbleRosterItem) : option GabbleRosterItem :=
  if bool_decide (ty = "unsubscribe") then
    if bool_decide (publish i = STATE_YES) || bool_decide (publish i = STATE_ASK)
    then Some (i_set_publish STATE_REMOVED_REMOTELY None i) else None
  else if bool_decide (ty = "subscribed") then
    if bool_decide (subscribe i ≠ STATE_YES) then Some (i_set_subscribe STATE_YES i) else None
  else if bool_decide (subscribe i = STATE_YES) || bool_decide (subscribe i = STATE_ASK)
  then Some (i_set_subscribe STATE_REMOVED_REMOTELY i) else None.

Definition ack_type (ty : string) : string :=
  if bool_decide (ty = "unsubscribe") then "unsubscribed"
  else if bool_decide (ty = "subscribed") then "subscribe" else "unsubscribe".

Definition ack (c : Conn) (from ty : string) : list roster_event :=
  if has_porter c then
    [SendStanza (mkNode "presence" None (Some "jabber:client")
       [mkAttribute "type" (ack_type ty) None; mkAttribute "to" from None] [])]
  else [].

Definition with_told (c : Conn) (from ty : string) (h : Z) (i' : option GabbleRosterItem) s : Roster :=
  match i' with
  | None => s
  | Some i' =>
      mkRoster (<[h := i']> (items s)) (groups s) (pre_authorized s) (received s) (list_success s)
        (results s) (next_result s) (in_flight s) (next_iq s) (idles s) (contact_repo s)
        (group_repo s) (events s ++ [ContactsChanged {[h]} ∅] ++ ack c from ty)
  end.

(** Comparisons of string literals. *)
Ltac eval_literals :=
  repeat match goal with
  | |- context [bool_decide (String ?a ?x = String ?b ?y)] =>
      let e := constr:(bool_decide (String a x = String b y)) in
      let r := eval vm_compute in e in
      lazymatch r with true => idtac | false => idtac end;
      change e with r; cbv iota
  end.

Lemma presence_cb_spec c m from ty h i s :
  wocky_node_get_attribute m "from" = Some from → wocky_node_get_attribute m "type" = Some ty →
  ty ∈ ["unsubscribe"; "subscribed"; "unsubscribed"] →
  ensure_contact down norm from s = Ok (h, s) → h ≠ self_handle c →
  valid (contact_repo s) h = true → items s !! h = Some i →
  gabble_roster_presence_cb down norm c m s = Ok (true, with_told c from ty h (told ty i) s).
Proof.
  intros Hfrom Hty Hin Hen Hself Hv Hl. destruct (known_group _ _ Hv) as (_ & _ & _ & Hne).
  unfold gabble_roster_presence_cb. rewrite Hfrom, Hty, (bind_eq _ _ _ _ _ Hen).
  rewrite (proj2 (Z.eqb_neq h 0) Hne), (proj2 (Z.eqb_neq h _) Hself). cbn [orb].
  rewrite (bind_eq _ _ _ _ _ (ensure_known c h i s Hl Hv)), (bind_eq _ _ _ _ _ (get_known h i s Hl)).
  cbn [default]. repeat (apply elem_of_cons in Hin as [->|Hin]); [..|by apply elem_of_nil in Hin].
  all: unfold told, with_told, ack, ack_type, _gabble_roster_send_presence_ack, _gabble_connection_send.
  all: unfold put_item, asserted, roster_item_set_publish, mbind, M_bind; eval_literals.
  - destruct (bool_decide (publish i = _) || _); [destruct (has_porter c)|];
      cbn; eval_literals; rewrite ?orb_true_r; cbn; by rewrite <- ?app_assoc.
  - destruct (bool_decide (subscribe i ≠ _)); [destruct (has_porter c)|];
      cbn; eval_literals; cbn; by rewrite <- ?app_assoc.
  - destruct (bool_decide (subscribe i = _) || _); [destruct (has_porter c)|];
      cbn; eval_literals; cbn; by rewrite <- ?app_assoc.
Qed.

Lemma told_twice ty i i' : told ty i = Some i' → told ty i' = None.
Proof.
  unfold told. intros Ht. destruct (bool_decide (ty = "unsubscribe")).
  - destruct (_ || _); [|done]. by injection Ht as <-.
  - destruct (bool_decide (ty = "subscribed")).
    + destruct (bool_decide _); [|done]. by injection Ht as <-.
    + destruct (_ || _); [|done]. by injection Ht as <-.
Qed.

Lemma ensure_contact_again from h s s' :
  ensure_contact down norm from s = Ok (h, s) → contact_repo s' = contact_repo s →
  ensure_contact down norm from s' = Ok (h, s').
Proof.
  intros He Hc. revert He. unfold ensure_contact, put_repos, mbind, M_bind, get. rewrite Hc.
  destruct (gabble_normalize_contact _ _ _ _ _) as [n|]; [|by intros [= <-]].
  destruct (tp_handle_ensure _ n) as [r h']. cbn. intros [= <- Hs].
  assert (r = contact_repo s) as -> by (rewrite <- Hs; done). rewrite <- Hc. by destruct s'.
Qed.

(** An incoming "subscribed", "unsubscribe" or
    "unsubscribed" is acted on, announced and acknowledged exactly when it says
    something new of its sender; the same stanza again changes nothing and is
    not answered, so two clients cannot acknowledge each other for ever. *)
Theorem roster_presence_ack c m from ty h i s :
  wocky_node_get_attribute m "from" = Some from → wocky_node_get_attribute m "type" = Some ty →
  ty ∈ ["unsubscribe"; "subscribed"; "unsubscribed"] →
  ensure_contact down norm from s = Ok (h, s) → h ≠ self_handle c →
  reachable down norm s → items s !! h = Some i →
  let s1 := with_told c from ty h (told ty i) s in
  gabble_roster_presence_cb down norm c m s = Ok (true, s1) ∧
  gabble_roster_presence_cb down norm c m s1 = Ok (true, s1).
Proof.
  intros Hfrom Hty Hin Hen Hself Hr Hl.
  pose proof (sh_valid _ _ (inv_shape _ _ _ _ _ _ (roster_reachable_inv _ _ _ Hr)) h i Hl) as Hv.
  pose proof (presence_cb_spec c m from ty h i s Hfrom Hty Hin Hen Hself Hv Hl) as H1.
  cbv zeta. split; [done|]. destruct (told ty i) as [i'|] eqn:Et; [|by rewrite <- Et at 1; rewrite Et].
  set (s1 := with_told _ _ _ _ _ _) in *.
  assert (ensure_contact down norm from s1 = Ok (h, s1)) as Hen1 by by eapply ensure_contact_again.
  assert (items s1 !! h = Some i') as Hl1 by apply lookup_insert_eq.
  pose proof (presence_cb_spec c m from ty h i' s1 Hfrom Hty Hin Hen1 Hself Hv Hl1) as H2.
  by rewrite (told_twice _ _ _ Et) in H2.
Qed.

(** ** Group edits that wait *)

(** The groups a contact is to be in once what waits is sent. *)
Definition target (i : GabbleRosterItem) : gset Z :=
  match unsent_edits i with
  | None => item_groups i
  | Some e => item_groups (edited_item i e).1.1
  end.

Inductive group_op := AddTo (g : Z) | RemoveFrom (g : Z).

Definition apply_op (gs : gset Z) (o : group_op) : gset Z :=
  match o with AddTo g => {[g]} ∪ gs | RemoveFrom g => gs ∖ {[g]} end.

Definition op_group (o : group_op) : Z := match o with AddTo g | RemoveFrom g => g end.

Definition run_op (c : Conn) (h r : Z) (o : group_op) : MR unit :=
  match o with
  | AddTo g => gabble_roster_handle_add_to_group down c h g r
  | RemoveFrom g => gabble_roster_handle_remove_from_group down c h g r
  end.

Lemma edited_item_groups i e :
  item_groups (edited_item i e).1.1 = if edits_groups e then edited_groups i e else item_groups i.
Proof.
  unfold edited_item.
  set (x := edit_name i e _).
  assert (item_groups x.1 = item_groups i) as Hx.
  { unfold x, edit_name, edit_subscription, edit_google. by repeat (case_match; cbn). }
  unfold edit_groups. destruct (edits_groups e), x as [y b]; cbn in *; by destruct (_ && _).
Qed.

(** The edit an operation makes of the one that waits. *)
Definition op_edit (o : group_op) (e : GabbleRosterItemEdit) : GabbleRosterItemEdit :=
  match o with
  | AddTo g => e_set_groups (Some ({[g]} ∪ default ∅ (add_to_groups e)))
      ((λ x, x ∖ {[g]}) <$> remove_from_groups e) (remove_from_all_other_groups e) e
  | RemoveFrom g => e_set_groups ((λ x, x ∖ {[g]}) <$> add_to_groups e)
      (Some ({[g]} ∪ default ∅ (remove_from_groups e))) (remove_from_all_other_groups e) e
  end.

Lemma op_edit_target i e o l :
  item_groups (edited_item i (e_set_results l (op_edit o e))).1.1 =
  apply_op (item_groups (edited_item i e).1.1) o.
Proof.
  rewrite !edited_item_groups.
  assert (edits_groups (e_set_results l (op_edit o e)) = true) as ->
    by (destruct o; cbn; [done|by destruct (add_to_groups e)]).
  unfold edits_groups, edited_groups. apply set_eq. intros x.
  destruct o as [g|g], e as [? ? ? ? ? ? ? [a|] [b|] []]; cbn; destruct (decide (x = g)); set_solver.
Qed.

Lemma target_queued h i o l b :
  target (i_set_edits b (Some (e_set_results l
    (op_edit o (default (item_edit_new h) (unsent_edits i))))) i) = apply_op (target i) o.
Proof.
  unfold target at 1. cbn [i_set_edits unsent_edits]. set (e := default _ _).
  transitivity (item_groups (edited_item i (e_set_results l (op_edit o e))).1.1).
  { by rewrite !edited_item_groups. }
  rewrite op_edit_target. f_equal. unfold target, e. destruct (unsent_edits i); [done|].
  cbn. by rewrite edited_item_groups.
Qed.

(** What matters of a contact with an IQ in flight. *)
Definition waiting (h r : Z) (gs : gset Z) s0 s : Prop :=
  valid (contact_repo s) h = true ∧ group_repo s = group_repo s0 ∧ is_Some (results s !! r) ∧
  in_flight s = in_flight s0 ∧ events s = events s0 ∧
  ∃ i, items s !! h = Some i ∧ edits_in_flight i = true ∧ target i = gs.

Lemma run_op_queues c h r o i s :
  valid (contact_repo s) h = true → valid (group_repo s) (op_group o) = true →
  items s !! h = Some i →
  run_op c h r o s = (queue_edit h (Some r) (op_edit o) ;; roster_item_apply_edits down c h) s.
Proof.
  intros Hvh Hvg Hl. destruct o; cbn [run_op op_group] in *;
    unfold gabble_roster_handle_add_to_group, gabble_roster_handle_remove_from_group,
      valid_contact, valid_group;
    do 2 (erewrite bind_eq by reflexivity); rewrite Hvh, Hvg; cbn [when andb];
    by rewrite (bind_eq _ _ _ _ _ (ensure_known c h i s Hl Hvh)).
Qed.

Lemma run_op_wp c h r o gs s0 s :
  waiting h r gs s0 s → valid (group_repo s0) (op_group o) = true →
  wp (run_op c h r o) (λ _ s', waiting h r (apply_op gs o) s0 s') s.
Proof.
  intros (Hvh & Hg & [x Hres] & Hf & He & i & Hl & Hb & Ht) Hvg. rewrite <- Hg in Hvg.
  unfold wp. rewrite (run_op_queues c h r o i s Hvh Hvg Hl).
  change (wp (queue_edit h (Some r) (op_edit o) ;; roster_item_apply_edits down c h)
    (λ _ s', waiting h r (apply_op gs o) s0 s') s).
  unfold queue_edit. rewrite <- Ht. clear gs Ht. apply wp_bind.
  eapply wp_known; [by apply get_known|].
  assert (wp (gabble_simple_async_countdown_inc r) (λ _ s', is_Some (results s' !! r) ∧
    items s' = items s ∧ contact_repo s' = contact_repo s ∧ group_repo s' = group_repo s ∧
    in_flight s' = in_flight s ∧ events s' = events s) s) as Hinc.
  { unfold gabble_simple_async_countdown_inc. apply wp_bind, wp_get. rewrite Hres.
    apply wp_when; intros _; [|by eauto 7]. apply wp_modify. cbn. rewrite lookup_insert_eq. by eauto 7. }
  apply wp_bind. eapply wp_mono; [|exact Hinc].
  intros [] s1 (Hres1 & Hit & Hc & Hg1 & Hf1 & He1). unfold put_item. apply wp_bind, wp_get, wp_modify.
  unfold roster_item_apply_edits, get_item. do 2 apply wp_bind. apply wp_get. cbn [items].
  rewrite lookup_insert_eq. apply wp_ret, wp_bind, wp_get. cbn [edits_in_flight i_set_edits received].
  rewrite Hb. destruct (negb (received s1)); apply wp_ret.
  all: unfold waiting; cbn; rewrite lookup_insert_eq, Hc, Hg1, Hf1, He1.
  all: split_and!; try done; eexists; split_and!; [done|done|apply target_queued].
Qed.

Lemma run_ops_wp c h r ops gs s0 s :
  waiting h r gs s0 s → (∀ o, o ∈ ops → valid (group_repo s0) (op_group o) = true) →
  wp (for_each ops (run_op c h r)) (λ _ s', waiting h r (foldl apply_op gs ops) s0 s') s.
Proof.
  revert gs s. induction ops as [|o ops IH]; intros gs s Hw Hv; [done|]. cbn [for_each foldl].
  apply wp_bind. eapply wp_mono; [|apply run_op_wp; [done|apply Hv; by left]].
  intros [] s1 Hw1. apply IH; [done|]. intros o' Ho'. apply Hv. by right.
Qed.

(** While an IQ about a contact is in flight,
    group edits are only collected, nothing is sent and nobody is told; the one
    edit they end up in asks for exactly the groups that doing them one after
    the other would give. *)
Theorem roster_group_edits_batch c h r i ops s :
  reachable down norm s → items s !! h = Some i → edits_in_flight i = true →
  is_Some (results s !! r) → (∀ o, o ∈ ops → valid (group_repo s) (op_group o) = true) →
  wp (for_each ops (run_op c h r)) (λ _ s', in_flight s' = in_flight s ∧ events s' = events s ∧
    ∃ i', items s' !! h = Some i' ∧ target i' = foldl apply_op (target i) ops) s.
Proof.
  intros Hr Hl Hb Hres Hv.
  pose proof (sh_valid _ _ (inv_shape _ _ _ _ _ _ (roster_reachable_inv _ _ _ Hr)) h i Hl) as Hvh.
  assert (waiting h r (target i) s s) as Hw by (split_and!; eauto).
  eapply wp_mono; [|by apply (run_ops_wp c h r ops (target i) s s)].
  intros [] s' (_ & _ & _ & Hf & He & i' & Hl' & _ & Ht). eauto 6.
Qed.

(** ** What goes wrong *)

Lemma maybe_remove_gone h i s :
  valid (contact_repo s) h = true → items s !! h = Some i → removable i = true →
  unsent_edits i = None →
  _gabble_roster_item_maybe_remove h s = Ok (true, with_items (delete h (items s)) s).
Proof.
  intros Hv Hl Hr Hu. unfold _gabble_roster_item_maybe_remove.
  rewrite (bind_eq _ _ _ _ _ (assert_known h s Hv)). unfold _gabble_roster_item_lookup, mbind, M_bind, get.
  cbn. rewrite Hl. unfold removable in Hr. rewrite !andb_true_iff, !bool_decide_eq_true, negb_true_iff in Hr.
  destruct Hr as (((-> & ->) & ->) & ->). rewrite !bool_decide_eq_false_2 by tauto.
  unfold remove_item, mbind, M_bind, get. cbn. by rewrite Hu.
Qed.

Lemma unpublish_one_frees c h i ch rm s :
  valid (contact_repo s) h = true → items s !! h = Some i →
  subscription i = SUBSCRIPTION_REMOVE → publish i = STATE_ASK ∨ publish i = STATE_REMOVED_REMOTELY →
  subscribe i = STATE_NO → edits_in_flight i = false → unsent_edits i = None →
  unpublish_one down c h ch rm s = Abort MemoryFault.
Proof.
  intros Hv Hl Hs Hp Hsb Hf Hu. unfold unpublish_one, contact_id, _gabble_roster_item_lookup.
  do 2 (erewrite bind_eq by reflexivity). rewrite Hl.
  assert (bool_decide (publish i = STATE_ASK) || bool_decide (publish i = STATE_REMOVED_REMOTELY) = true) as ->.
  { rewrite orb_true_iff, !bool_decide_eq_true. done. }
  set (i' := i_set_publish STATE_NO None i).
  set (s1 := with_items (<[h := i']> (items s)) s).
  assert (_gabble_roster_item_maybe_remove h s1 = Ok (true, with_items (delete h (items s1)) s1)) as Hm.
  { apply (maybe_remove_gone h i'); [done|apply lookup_insert_eq| |done].
    unfold removable, i'. cbn. rewrite Hs, Hsb, Hf. done. }
  set (s2 := with_items (delete h (items s1)) s1) in *.
  rewrite (bind_eq _ _ s (ch, {[h]} ∪ rm) s2).
  - apply bind_Abort. unfold get_item, mbind, M_bind, get. cbn. by rewrite lookup_delete_eq.
  - rewrite (bind_eq (asserted _) _ s (i', bool_decide (publish i ≠ STATE_NO) ||
      tp_strdiff (publish_request i) None) s) by reflexivity.
    rewrite (bind_eq (put_item h i') _ s tt s1) by reflexivity.
    by rewrite (bind_eq _ _ _ _ _ Hm).
Qed.

(** Rejecting the request of a contact that is
    not on the roster and has nothing else to keep it there reads the item
    that was just freed: the request is what kept the item, and
    gabble_roster_unpublish_async looks at item->publish after removing it. *)
Theorem unpublish_use_after_free c h i s :
  valid (contact_repo s) h = true → items s !! h = Some i →
  subscription i = SUBSCRIPTION_REMOVE → publish i = STATE_ASK ∨ publish i = STATE_REMOVED_REMOTELY →
  subscribe i = STATE_NO → edits_in_flight i = false → unsent_edits i = None →
  gabble_roster_unpublish_async down c {[h]} s = Abort MemoryFault.
Proof.
  intros Hv Hl Hs Hp Hsb Hf Hu. unfold gabble_roster_unpublish_async, new_call.
  rewrite elements_singleton. erewrite bind_eq by reflexivity. apply bind_Abort.
  cbn [each_contact]. apply bind_Abort. by apply (unpublish_one_frees c h i).
Qed.

End theorems.
(** ** Runs *)

Definition run_all : list roster_input → M (GabbleRoster (list string)) unit :=
  λ l, for_each l (run_input (λ x, x) (λ x, x)).

Definition start : GabbleRoster (list string) := gabble_roster_constructed repo_new repo_new.

Definition always_enabled (i : roster_input) : bool :=
  match i with FlickerTimeout _ | SetContactGroups _ _ _ => false | _ => true end.

Lemma run_all_reachable l s s' :
  reachable (λ x, x) (λ x, x) s → forallb always_enabled l = true → run_all l s = Ok (tt, s') →
  reachable (λ x, x) (λ x, x) s'.
Proof.
  revert s. induction l as [|i l IH]; intros s Hr Hen; [by intros [= <-]|].
  cbn in Hen. apply andb_true_iff in Hen as [Hi Hen].
  unfold run_all. cbn. intros ([] & s1 & H1 & H2)%bind_Ok. apply (IH s1); [|done|done].
  eapply reach_step; [exact Hr| |exact H1]. by destruct i.
Qed.

Lemma roster_run_ends l (test : GabbleRoster (list string) → bool) :
  match run_all l start with Ok (_, s) => test s | Abort _ => false end = true →
  forallb always_enabled l = true →
  ∃ s, run_all l start = Ok (tt, s) ∧ reachable (λ x, x) (λ x, x) s ∧ test s = true.
Proof.
  destruct (run_all l start) as [[[] s]|] eqn:E; [|done]. intros Ht Hen. exists s.
  split_and!; [done| |done]. eapply run_all_reachable; [apply reach_init|done|exact E].
Qed.

Definition is_sane (s : GabbleRoster (list string)) : bool :=
  forallb (λ x, negb (bool_decide (subscription x.2 = SUBSCRIPTION_INVALID))) (map_to_list (items s)).

Definition is_benign (s : GabbleRoster (list string)) : bool :=
  forallb (λ x, match items s !! e_handle x.2 with
                | Some i => negb (bool_decide (new_subscription x.2 = SUBSCRIPTION_INVALID)) ||
                            negb (bool_decide (subscription i = SUBSCRIPTION_REMOVE))
                | None => true
                end) (map_to_list (in_flight s)).

Lemma is_sane_spec s : is_sane s = true → sane s.
Proof.
  unfold is_sane. rewrite forallb_forall. intros Hf h i Hl.
  specialize (Hf (h, i)). cbn in Hf. rewrite negb_true_iff, bool_decide_eq_false in Hf.
  apply Hf. by apply list_elem_of_In, elem_of_map_to_list.
Qed.

Lemma is_benign_spec s : is_benign s = true → benign s.
Proof.
  unfold is_benign. rewrite forallb_forall. intros Hf iq e i Hl Hi Hn Hs.
  specialize (Hf (iq, e)). cbn in Hf. rewrite Hi, Hn, Hs in Hf.
  assert (false = true) by (apply Hf; by apply list_elem_of_In, elem_of_map_to_list). done.
Qed.

Definition conn : Conn := mkConn false true 99 None (λ _, mkAliases None None None) (λ _, None) true.
Definition presence_stanza (ty from : string) : WockyNode :=
  mkNode "presence" None (Some "jabber:client")
    [mkAttribute "type" ty None; mkAttribute "from" from None] [].
Definition item_stanza (jid sub : string) : WockyNode :=
  mkNode "item" None (Some NS_ROSTER)
    [mkAttribute "jid" jid None; mkAttribute "subscription" sub None] [].
Definition roster_iq (ty : string) (l : list WockyNode) : WockyNode :=
  mkNode "iq" None (Some "jabber:client") [mkAttribute "type" ty None]
    [mkNode "query" None (Some NS_ROSTER) [] l].

(** The roster arrives, a contact is put in a group and its name set behind. *)
Definition busy : list roster_input :=
  [RosterReply conn (Some (roster_iq "result" [item_stanza "a@x" "both"; item_stanza "b@x" "to"]));
   AddToGroup conn "friends" {[1]}; SetName conn 1 (Some "Al");
   PresenceStanza conn (presence_stanza "subscribe" "c@x")].

(** If the server removes a contact from
    another client while an edit of its name is in flight, the reply to the
    edit gives the item the subscription that stands for "unchanged", and the
    next edit of the contact aborts the process. *)
Theorem invalid_subscription_aborts :
  run_all [RosterReply conn (Some (roster_iq "result" [item_stanza "a@x" "both"]));
           SetName conn 1 (Some "Al"); RosterPush conn (roster_iq "set" [item_stanza "a@x" "remove"]);
           EditReply conn 0 true; SetName conn 1 (Some "Bo")] start = Abort AssertFailed.
Proof. vm_compute. reflexivity. Qed.

(** When the server refuses to add a contact, the
    request fails but the item keeps the subscription it was to get; adding the
    contact again sends nothing and is reported to have succeeded. *)
Theorem failed_add_is_believed :
  ∃ s, run_all [RosterReply conn (Some (roster_iq "result" []));
           PresenceStanza conn (presence_stanza "unavailable" "b@x");
           StoreContacts conn {[1]}; EditReply conn 0 false; IdleSource conn 0;
           StoreContacts conn {[1]}; IdleSource conn 0] start = Ok (tt, s) ∧
    next_iq s = 1 ∧ in_flight s = ∅ ∧
    List.filter (λ e, match e with Done _ _ => true | _ => false end) (events s) =
      [Done 0 false; Done 1 true] ∧
    gabble_roster_dup_contacts s = ∅.
Proof. eexists. split; [vm_compute; reflexivity|]. by vm_compute. Qed.

(** A contact that sees our presence and turns our own request down within the
    second goes on being shown as asked: the timer only looks at items with
    subscription "remove" or "none". *)
Lemma rejected_request_stays_pending :
  ∃ s, run_all [RosterReply conn (Some (roster_iq "result" [item_stanza "a@x" "from"]));
           RosterPush conn (roster_iq "set"
             [wocky_node_set_attribute (item_stanza "a@x" "from") "ask" "subscribe"]);
           RosterPush conn (roster_iq "set" [item_stanza "a@x" "from"]);
           FlickerTimeout 1] start = Ok (tt, s) ∧
    gabble_roster_dup_states s 1 = (STATE_ASK, STATE_YES, None) ∧
    (flicker_prevention_id <$> items s !! 1) = Some false.
Proof. eexists. split; [vm_compute; reflexivity|]. by vm_compute. Qed.

(** A contact that is not on the roster, granted us its presence and is then
    removed by a push goes from subscribed to not without an announcement. *)
Lemma removal_not_announced :
  ∃ s, run_all [RosterReply conn (Some (roster_iq "result" []));
           PresenceStanza conn (presence_stanza "subscribed" "a@x");
           RosterPush conn (roster_iq "set" [item_stanza "a@x" "remove"])] start = Ok (tt, s) ∧
    gabble_roster_dup_states s 1 = (STATE_NO, STATE_NO, None) ∧
    List.filter (λ e, match e with ContactsChanged _ _ => true | _ => false end) (events s) =
      [ContactsChanged ∅ ∅; ContactsChanged {[1]} ∅; ContactsChanged ∅ ∅].
Proof. eexists. split; [vm_compute; reflexivity|]. by vm_compute. Qed.

(** ** The theorems on that run *)

Definition busy_test (s : GabbleRoster (list string)) : bool :=
  is_sane s && is_benign s && received s && bool_decide (next_result s = 1) &&
  bool_decide (item_groups <$> items s !! 1 = Some ∅) &&
  bool_decide (edits_in_flight <$> items s !! 1 = Some true) &&
  bool_decide (is_Some (results s !! 0)) &&
  PresenceCache.handle_is_valid (group_repo s) 1 &&
  bool_decide (is_Some (items s !! 3)).

Lemma busy_runs : ∃ s, run_all busy start = Ok (tt, s) ∧ reachable (λ x, x) (λ x, x) s ∧
  busy_test s = true.
Proof. apply roster_run_ends; vm_compute; reflexivity. Qed.

Lemma busy_facts s : busy_test s = true →
  sane s ∧ benign s ∧ received s = true ∧ next_result s = 1 ∧
  (∃ i, items s !! 1 = Some i ∧ edits_in_flight i = true) ∧ is_Some (results s !! 0) ∧
  PresenceCache.handle_is_valid (group_repo s) 1 = true ∧ is_Some (items s !! 3).
Proof.
  unfold busy_test. rewrite !andb_true_iff, !bool_decide_eq_true.
  intros ((((((((Hs & Hb) & Hr) & Hn) & Hg) & Hf) & Hres) & Hv) & H3).
  apply fmap_Some in Hf as (i & Hi & Hf).
  split_and!; [by apply is_sane_spec|by apply is_benign_spec|done|done|eauto|done|done|done].
Qed.

Lemma roster_requests_once_witness :
  ∃ s, run_all busy start = Ok (tt, s) ∧
  (((∃ h i e, items s !! h = Some i ∧ unsent_edits i = Some e ∧ 0 ∈ e_results e) ∨
    (∃ iq e, in_flight s !! iq = Some e ∧ 0 ∈ e_results e)) ∧ answered s 0 = 0%nat ∨
   (∀ h i e, items s !! h = Some i → unsent_edits i = Some e → 0 ∉ e_results e) ∧
   (∀ iq e, in_flight s !! iq = Some e → 0 ∉ e_results e) ∧ answered s 0 = 1%nat).
Proof.
  destruct busy_runs as (s & E & Hr & Ht). exists s. split; [exact E|].
  apply busy_facts in Ht as (_ & _ & _ & Hn & _).
  apply (roster_requests_once (λ x, x) (λ x, x) s 0 Hr). rewrite Hn. lia.
Defined.

Lemma roster_one_edit_witness :
  ∃ s, run_all busy start = Ok (tt, s) ∧
    ∀ iq iq' e e', in_flight s !! iq = Some e → in_flight s !! iq' = Some e' →
      e_handle e = e_handle e' → iq = iq'.
Proof.
  destruct busy_runs as (s & E & Hr & _). exists s. split; [exact E|].
  exact (proj1 (roster_one_edit (λ x, x) (λ x, x) s Hr)).
Defined.

Lemma roster_requests_complete_witness :
  ∃ s, run_all busy start = Ok (tt, s) ∧
    wp (finish (λ x, x) conn (λ _, 0%nat) (λ _, true)) (λ _ s', done_count s' 0 = 1%nat) s.
Proof.
  destruct busy_runs as (s & E & Hr & Ht). exists s. split; [exact E|].
  apply busy_facts in Ht as (Hs & Hb & Hrec & Hn & _).
  eapply wp_mono; [|exact (roster_requests_complete (λ x, x) (λ x, x) conn (λ _, 0%nat) (λ _, true) s Hr Hrec Hs Hb)].
  intros [] s' (_ & _ & _ & _ & Hd). apply Hd. rewrite Hn. lia.
Defined.

Lemma roster_safe_witness :
  ∃ s, run_all busy start = Ok (tt, s) ∧
    wp (run_input (λ x, x) (λ x, x) (SetName conn 1 (Some "Bo"))) (λ _ s', sane s' ∧ benign s') s.
Proof.
  destruct busy_runs as (s & E & Hr & Ht). exists s. split; [exact E|].
  apply busy_facts in Ht as (Hs & Hb & _).
  eapply wp_mono; [|exact (roster_safe (λ x, x) (λ x, x) (SetName conn 1 (Some "Bo")) s Hr Hs Hb I
    ltac:(discriminate))].
  intros [] s' [H1 H2]. split; [exact H1|]. apply H2. intros [].
Defined.

Lemma roster_group_edits_batch_witness :
  ∃ s i, run_all busy start = Ok (tt, s) ∧ items s !! 1 = Some i ∧
    wp (for_each [AddTo 1; RemoveFrom 1] (run_op (λ x, x) conn 1 0)) (λ _ s',
      in_flight s' = in_flight s ∧ events s' = events s ∧
      ∃ i', items s' !! 1 = Some i' ∧ target i' = ({[1]} ∪ target i) ∖ {[1]}) s.
Proof.
  destruct busy_runs as (s & E & Hr & Ht).
  apply busy_facts in Ht as (_ & _ & _ & _ & (i & Hl & Hf) & Hres & Hv & _).
  exists s, i. split_and!; [exact E|exact Hl|].
  apply (roster_group_edits_batch (λ x, x) (λ x, x) conn 1 0 i [AddTo 1; RemoveFrom 1] s Hr Hl Hf Hres).
  intros o Ho. rewrite !elem_of_cons in Ho. destruct Ho as [->|[->|Ho]]; [exact Hv|exact Hv|].
  inversion Ho.
Defined.

(** A roster with a name and groups, and a stranger who asks. *)
Definition grouped : list roster_input :=
  [RosterReply conn (Some (roster_iq "result"
     [wocky_node_add_child_with_content (wocky_node_add_child_with_content
        (wocky_node_set_attribute (item_stanza "a@x" "both") "name" "Al")
        "group" (Some "friends")) "group" (Some "work")]));
   PresenceStanza conn (presence_stanza "subscribe" "c@x")].

Definition state_after (l : list roster_input) : GabbleRoster (list string) :=
  match run_all l start with Ok (_, s) => s | Abort _ => start end.

Lemma grouped_runs : run_all grouped start = Ok (tt, state_after grouped).
Proof. vm_compute. reflexivity. Qed.

Lemma grouped_reachable : reachable (λ x, x) (λ x, x) (state_after grouped).
Proof. eapply run_all_reachable; [apply reach_init| |exact grouped_runs]. reflexivity. Qed.

Lemma grouped_sane : sane (state_after grouped).
Proof. apply is_sane_spec. vm_compute. reflexivity. Qed.

Lemma roster_item_roundtrip_witness :
  let s := state_after grouped in
  ∃ x msg s1, items s !! 1 = Some x ∧ _gabble_roster_item_to_message conn 1 x s = Ok (msg, s1) ∧
    ∃ q, wocky_node_get_child_ns msg (Some "query") (Some NS_ROSTER) = Some q.
Proof.
  cbv zeta.
  destruct (items (state_after grouped) !! 1) as [x|] eqn:Hl; [|exfalso; vm_compute in Hl; discriminate].
  destruct (_gabble_roster_item_to_message conn 1 x (state_after grouped)) as [[msg s1]|] eqn:Hm.
  - exists x, msg, s1. split_and!; [reflexivity|exact Hm|].
    edestruct (roster_item_roundtrip (λ x, x) conn 1 x x msg (state_after grouped) s1 Hm Hl)
      as (q & n & jid & Hq & _); [|by exists q].
    assert (forallb (PresenceCache.handle_is_valid (group_repo (state_after grouped)))
      (elements (from_option item_groups ∅ (items (state_after grouped) !! 1))) = true) as Hf
      by (vm_compute; reflexivity).
    rewrite Hl in Hf. intros g Hg%elem_of_elements. apply (proj1 (forallb_forall _ _) Hf).
    by apply list_elem_of_In.
  - exfalso. assert (match items (state_after grouped) !! 1 with
      | Some x => match _gabble_roster_item_to_message conn 1 x (state_after grouped) with
                  | Ok _ => true | Abort _ => false end
      | None => false end = true) as Hok by (vm_compute; reflexivity).
    by rewrite Hl, Hm in Hok.
Defined.

Lemma roster_push_announces_witness :
  let s := state_after grouped in
  ∃ old, items s !! 1 = Some old ∧
  wp (process_item (λ x, x) (λ x, x) conn false (item_stanza "a@x" "to") (mkPush ∅ ∅ ∅ []))
    (λ p' s', ∃ i', announces 1 old i' (mkPush ∅ ∅ ∅ []) p' ∧
      (items s' !! 1 = Some i' ∨
       items s' !! 1 = None ∧ stored i' = false ∧ subscribe i' = STATE_NO ∧ publish i' = STATE_NO)) s.
Proof.
  cbv zeta.
  destruct (items (state_after grouped) !! 1) as [old|] eqn:Hl; [|exfalso; vm_compute in Hl; discriminate].
  exists old. split; [reflexivity|].
  apply (roster_push_announces (λ x, x) (λ x, x) conn false (item_stanza "a@x" "to") 1 old _ _
    grouped_reachable grouped_sane); [vm_compute; reflexivity|exact Hl|apply not_elem_of_empty..].
Defined.

Lemma roster_presence_ack_witness :
  let s := state_after grouped in
  ∃ i, items s !! 1 = Some i ∧
    let s1 := with_told conn "a@x" "unsubscribed" 1 (told "unsubscribed" i) s in
    gabble_roster_presence_cb (λ x, x) (λ x, x) conn (presence_stanza "unsubscribed" "a@x") s = Ok (true, s1) ∧
    gabble_roster_presence_cb (λ x, x) (λ x, x) conn (presence_stanza "unsubscribed" "a@x") s1 = Ok (true, s1).
Proof.
  cbv zeta.
  destruct (items (state_after grouped) !! 1) as [i|] eqn:Hl; [|exfalso; vm_compute in Hl; discriminate].
  exists i. split; [reflexivity|].
  apply (roster_presence_ack (λ x, x) (λ x, x) conn (presence_stanza "unsubscribed" "a@x") "a@x"
    "unsubscribed" 1 i (state_after grouped)); [reflexivity|reflexivity| |vm_compute; reflexivity|
    discriminate|exact grouped_reachable|exact Hl]. do 2 right. by left.
Defined.

Lemma unpublish_use_after_free_witness :
  gabble_roster_unpublish_async (λ x, x) conn {[2]} (state_after grouped) = Abort MemoryFault.
Proof.
  destruct (items (state_after grouped) !! 2) as [i|] eqn:Hl; [|exfalso; vm_compute in Hl; discriminate].
  pose proof Hl as Hc. vm_compute in Hc. injection Hc as <-.
  apply (unpublish_use_after_free (λ x, x) conn 2 _ (state_after grouped)) with (2 := Hl);
    [vm_compute; reflexivity|reflexivity|by left|reflexivity..].
Defined.

End RosterTheorems.
