(* ===== verification/VCardManager.v ===== *)
(** * vCards (src/vcard-manager.c)

    The cache of contacts' vCards, the requests for them and the edits of our
    own.  Requests go through the request pipeline, of which the manager sees
    the items it has queued and a callback for each: [pipeline] has the items
    whose callback is still to come, and a callback is an input.  The pipeline
    calls every callback once ([RequestPipeline.pipeline_callbacks_once]);
    cancelling an item calls its callback at once.

    A request and an edit request are found through a number that is used
    once, so a pointer to one that was freed is a number with no request and
    following it is a [MemoryFault]; an entry is found through its contact's
    handle.  [timed_cache] is telepathy-glib's heap: the handles in it, the
    first to expire found by search.  A user's callback is an event; the
    manager's own [initial_request_cb] is carried out.  The clock, our cached
    alias and the server's features are those of the [Conn] given to each
    operation.  The language of a node is not modelled. *)

From S2P Require Import Prelude Node Namespaces Jid Capabilities Presence PresenceCache Roster.

(** ** Nodes (lib/ext/wocky/wocky/wocky-node.c) *)

Fixpoint wocky_node_equal (node0 node1 : WockyNode) : bool :=
  bool_decide (name node0 = name node1) &&
  bool_decide (content node0 = content node1) &&
  bool_decide (ns node0 = ns node1) &&
  bool_decide (length (attributes node0) = length (attributes node1)) &&
  forallb (λ a, bool_decide
    (wocky_node_get_attribute_ns node1 (attr_key a) (attr_ns a) = Some (attr_value a)))
    (attributes node0) &&
  (fix children_equal (l0 l1 : list WockyNode) : bool :=
     match l0, l1 with
     | [], [] => true
     | c0 :: l0', c1 :: l1' => wocky_node_equal c0 c1 && children_equal l0' l1'
     | _, _ => false
     end) (children node0) (children node1).

(** [wocky_node_add_node_tree]: a copy goes last. *)
Definition wocky_node_add_node_tree (node tree : WockyNode) : WockyNode :=
  set_children node (children node ++ [tree]).

Module VCardManager.
Import Jid.

(** ** Data *)

Definition default_request_timeout : Z := 180.
Definition VCARD_CACHE_ENTRY_TTL : Z := 60.
Definition request_wait_delay : Z := 5 * 60.
Definition NS_VCARD_TEMP : string := "vcard-temp".

(** GABBLE_VCARD_EDIT_... *)
Inductive GabbleVCardEditType := REPLACE | APPEND | DELETE | CLEAR | SET_ALIAS.
#[global] Instance GabbleVCardEditType_eq_dec : EqDecision GabbleVCardEditType.
Proof. solve_decision. Defined.

Record GabbleVCardManagerEditInfo := mkInfo {
  element_name : option string;
  edit_type : GabbleVCardEditType;
  element : option WockyNode;
  new_alias : option string;
}.

(** The callback of a request: NULL, [initial_request_cb] or a user's. *)
Inductive request_callback := NoCallback | InitialRequestCb | UserCb.
#[global] Instance request_callback_eq_dec : EqDecision request_callback.
Proof. solve_decision. Defined.

(** [r_entry]: the handle of its entry; [timer_id]: whether a timer is set. *)
Record GabbleVCardManagerRequest := mkRequest {
  r_entry : Z;
  timer_id : bool;
  r_timeout : Z;
  r_callback : request_callback;
}.

Record GabbleVCardManagerEditRequest := mkEditRequest {
  edit_id : Z;
  has_callback : bool;
  set_in_pipeline : bool;
}.

(** [suspended_timer_id]: the request the timer will send again. *)
Record GabbleVCardCacheEntry := mkEntry {
  pipeline_item : option Z;
  pending_requests : list Z;
  suspended_timer_id : option Z;
  vcard_node : option WockyNode;
  expires : Z;
}.

(** What an item of the pipeline calls: [pipeline_reply_cb] with its request
    or [replace_reply_cb]. *)
Inductive pipeline_callback := PipelineReplyCb (request : Z) | ReplaceReplyCb.

(** The error of a reply: whether it is <item-not-found/>, and whether the
    stanza's error is of type "wait". *)
Record reply_error := mkError { item_not_found : bool; type_wait : bool }.

Inductive vcard_event :=
  | SendIq (item : Z) (stanza : WockyNode)
  | Callback (request : Z) (handle : Z) (vcard : option WockyNode)
  | EditCallback (request : Z) (ok : bool)
  | GotSelfInitialAvatar (sha1 : string)
  | VCardUpdate (handle : Z)
  | NicknameUpdate (handle : Z).

(** [qdata]: the alias kept with the handle; [None] inside is NO_ALIAS. *)
Record GabbleVCardManager (R : Type) := mkManager {
  cache : gmap Z GabbleVCardCacheEntry;
  timed_cache : list Z;
  cache_timer : bool;
  have_self_avatar : bool;
  edits : list GabbleVCardManagerEditInfo;
  edit_pipeline_item : option Z;
  edit_requests : list GabbleVCardManagerEditRequest;
  patched_vcard : option WockyNode;
  requests : gmap Z GabbleVCardManagerRequest;
  next_id : Z;
  pipeline : gmap Z pipeline_callback;
  next_item : Z;
  qdata : gmap Z (option string);
  contact_repo : R;
  events : list vcard_event;
}.
Arguments mkManager {R}.
Arguments cache {R}.
Arguments timed_cache {R}.
Arguments cache_timer {R}.
Arguments have_self_avatar {R}.
Arguments edits {R}.
Arguments edit_pipeline_item {R}.
Arguments edit_requests {R}.
Arguments patched_vcard {R}.
Arguments requests {R}.
Arguments next_id {R}.
Arguments pipeline {R}.
Arguments next_item {R}.
Arguments qdata {R}.
Arguments contact_repo {R}.
Arguments events {R}.

(** [cached_alias]: what [_gabble_connection_get_cached_alias] gives for our
    own handle. *)
Record Conn := mkConn {
  connected : bool;
  google_roster_feature : bool;
  cached_alias : Z * option string;
  time : Z;
}.

Definition with_item (x : option Z) (e : GabbleVCardCacheEntry) : GabbleVCardCacheEntry :=
  mkEntry x (pending_requests e) (suspended_timer_id e) (vcard_node e) (expires e).
Definition with_pending (x : list Z) (e : GabbleVCardCacheEntry) : GabbleVCardCacheEntry :=
  mkEntry (pipeline_item e) x (suspended_timer_id e) (vcard_node e) (expires e).
Definition with_suspended (x : option Z) (e : GabbleVCardCacheEntry) : GabbleVCardCacheEntry :=
  mkEntry (pipeline_item e) (pending_requests e) x (vcard_node e) (expires e).
Definition with_vcard (x : option WockyNode) (e : GabbleVCardCacheEntry) : GabbleVCardCacheEntry :=
  mkEntry (pipeline_item e) (pending_requests e) (suspended_timer_id e) x (expires e).
Definition with_expires (x : Z) (e : GabbleVCardCacheEntry) : GabbleVCardCacheEntry :=
  mkEntry (pipeline_item e) (pending_requests e) (suspended_timer_id e) (vcard_node e) x.
Definition with_timer (b : bool) (r : GabbleVCardManagerRequest) : GabbleVCardManagerRequest :=
  mkRequest (r_entry r) b (r_timeout r) (r_callback r).

(** ** Editing a vCard *)

Definition gabble_vcard_manager_has_limited_vcard_fields (c : Conn) : bool :=
  google_roster_feature c.

Definition gabble_vcard_manager_can_use_vcard_field (c : Conn) (field_name : option string) : bool :=
  negb (google_roster_feature c) ||
  bool_decide (field_name ∈ [Some "N"; Some "FN"; Some "PHOTO"; Some "URL"]).

(** Iterating over the children of that name, or over all. *)
Definition named (nm : option string) (n : WockyNode) : bool := node_compare_child nm None n.

Fixpoint significant (replacement_node : WockyNode) (seen : bool) (l : list WockyNode) : bool :=
  match l with
  | [] => negb seen
  | node :: l' =>
      if seen then true
      else if negb (wocky_node_equal node replacement_node) then true
      else significant replacement_node true l'
  end.

Definition gabble_vcard_manager_replace_is_significant (info : GabbleVCardManagerEditInfo)
    (old_vcard : WockyNode) : bool :=
  match element info with
  | None => false
  | Some replacement_node =>
      significant replacement_node false
        (List.filter (named (element_name info)) (children old_vcard))
  end.

Definition remove_all_children_named (node : WockyNode) (nm : option string) : WockyNode * bool :=
  (set_children node (List.filter (λ n, negb (named nm n)) (children node)),
   existsb (named nm) (children node)).

Definition add_element (node : WockyNode) (info : GabbleVCardManagerEditInfo) : WockyNode :=
  match element info with Some e => wocky_node_add_node_tree node e | None => node end.

Definition gabble_vcard_manager_edit_info_apply_replace (c : Conn)
    (info : GabbleVCardManagerEditInfo) (vcard : WockyNode) : WockyNode * bool :=
  if negb (gabble_vcard_manager_can_use_vcard_field c (element_name info)) then (vcard, false)
  else if negb (gabble_vcard_manager_replace_is_significant info vcard) then (vcard, false)
  else (add_element (fst (remove_all_children_named vcard (element_name info))) info, true).

Definition gabble_vcard_manager_edit_info_apply_append (c : Conn)
    (info : GabbleVCardManagerEditInfo) (vcard : WockyNode) : WockyNode * bool :=
  if negb (gabble_vcard_manager_can_use_vcard_field c (element_name info)) then (vcard, false)
  else (add_element vcard info, true).

Definition gabble_vcard_manager_edit_info_apply_delete (info : GabbleVCardManagerEditInfo)
    (vcard : WockyNode) : WockyNode * bool :=
  remove_all_children_named vcard (element_name info).

Definition gabble_vcard_manager_edit_info_apply_clear (vcard : WockyNode) : WockyNode * bool :=
  (set_children vcard (List.filter (named (Some "PHOTO")) (children vcard)),
   existsb (λ n, negb (named (Some "PHOTO") n)) (children vcard)).

(** [None]: an assertion failed. *)
Definition gabble_vcard_manager_edit_info_apply_set_alias (c : Conn)
    (info : GabbleVCardManagerEditInfo) (old_vcard : WockyNode) : option (WockyNode * bool) :=
  if bool_decide (element_name info ≠ None) then None
  else
    let nm := if gabble_vcard_manager_can_use_vcard_field c (Some "NICKNAME")
              then "NICKNAME" else "FN" in
    let replace alias :=
      gabble_vcard_manager_edit_info_apply_replace c
        (mkInfo (Some nm) REPLACE (Some (mkNode nm alias (Some NS_VCARD_TEMP) [] [])) alias) old_vcard in
    match new_alias info with
    | Some _ => Some (replace (new_alias info))
    | None =>
        if bool_decide (is_Some (wocky_node_get_child old_vcard nm)) then Some (old_vcard, false)
        else
          let '(source, alias) := cached_alias c in
          if source <? Roster.GABBLE_CONNECTION_ALIAS_FROM_VCARD then Some (old_vcard, false)
          else Some (replace alias)
    end.

Definition gabble_vcard_manager_edit_info_apply (c : Conn) (info : GabbleVCardManagerEditInfo)
    (vcard : WockyNode) : option (WockyNode * bool) :=
  match edit_type info with
  | REPLACE => Some (gabble_vcard_manager_edit_info_apply_replace c info vcard)
  | APPEND => Some (gabble_vcard_manager_edit_info_apply_append c info vcard)
  | DELETE => Some (gabble_vcard_manager_edit_info_apply_delete info vcard)
  | CLEAR => Some (gabble_vcard_manager_edit_info_apply_clear vcard)
  | SET_ALIAS => gabble_vcard_manager_edit_info_apply_set_alias c info vcard
  end.

(** The loop of [manager_patch_vcard]. *)
Fixpoint apply_edits (c : Conn) (l : list GabbleVCardManagerEditInfo) (vcard : WockyNode)
    (changed : bool) : option (WockyNode * bool) :=
  match l with
  | [] => Some (vcard, changed)
  | info :: l' =>
      '(vcard, b) ← gabble_vcard_manager_edit_info_apply c info vcard;
      apply_edits c l' vcard (changed || b)
  end.

(** [None]: NULL is returned. *)
Definition gabble_vcard_manager_edit_info_new (nm value : option string)
    (ty : GabbleVCardEditType) : option GabbleVCardManagerEditInfo :=
  match ty with
  | REPLACE | APPEND =>
      n ← nm;
      Some (mkInfo nm ty (Some (mkNode n value (Some NS_VCARD_TEMP) [] [])) None)
  | SET_ALIAS =>
      match nm with Some _ => None | None => Some (mkInfo None ty None value) end
  | DELETE | CLEAR =>
      match value with Some _ => None | None => Some (mkInfo nm ty None None) end
  end.

Definition gabble_vcard_manager_edit_info_add_child (info : GabbleVCardManagerEditInfo)
    (key : string) (value : option string) : GabbleVCardManagerEditInfo :=
  match element info with
  | None => info
  | Some e => mkInfo (element_name info) (edit_type info)
                (Some (wocky_node_add_child_with_content e key value)) (new_alias info)
  end.

Definition extract_nickname (vcard : WockyNode) : option string :=
  wocky_node_get_child vcard "NICKNAME" ≫= content.

(** The alias of a vCard: its NICKNAME, or its FN when there is none. *)
Definition vcard_alias (vcard : WockyNode) : option string :=
  match extract_nickname vcard with
  | Some alias => Some alias
  | None =>
      fn ← wocky_node_get_child vcard "FN" ≫= content;
      if bool_decide (fn = EmptyString) then None else Some fn
  end.

(** ** Operations *)

Section manager.
Context {R : Type} `{HandleRepo R}.
(** [g_base64_decode], whose result may be NULL, and [sha1_hex]. *)
Context (g_base64_decode : string → option string) (sha1_hex : string → string).
(** Our own handle. *)
Context (self_handle : Z).

Local Notation MV := (M (GabbleVCardManager R)).

Definition put_cache (x : gmap Z GabbleVCardCacheEntry) : MV unit := modify (λ s,
  mkManager x (timed_cache s) (cache_timer s) (have_self_avatar s) (edits s)
    (edit_pipeline_item s) (edit_requests s) (patched_vcard s) (requests s) (next_id s)
    (pipeline s) (next_item s) (qdata s) (contact_repo s) (events s)).
Definition put_timed_cache (l : list Z) (t : bool) : MV unit := modify (λ s,
  mkManager (cache s) l t (have_self_avatar s) (edits s)
    (edit_pipeline_item s) (edit_requests s) (patched_vcard s) (requests s) (next_id s)
    (pipeline s) (next_item s) (qdata s) (contact_repo s) (events s)).
Definition put_have_self_avatar (b : bool) : MV unit := modify (λ s,
  mkManager (cache s) (timed_cache s) (cache_timer s) b (edits s)
    (edit_pipeline_item s) (edit_requests s) (patched_vcard s) (requests s) (next_id s)
    (pipeline s) (next_item s) (qdata s) (contact_repo s) (events s)).
Definition put_edits (l : list GabbleVCardManagerEditInfo) : MV unit := modify (λ s,
  mkManager (cache s) (timed_cache s) (cache_timer s) (have_self_avatar s) l
    (edit_pipeline_item s) (edit_requests s) (patched_vcard s) (requests s) (next_id s)
    (pipeline s) (next_item s) (qdata s) (contact_repo s) (events s)).
Definition put_edit_item (i : option Z) (p : option WockyNode) : MV unit := modify (λ s,
  mkManager (cache s) (timed_cache s) (cache_timer s) (have_self_avatar s) (edits s)
    i (edit_requests s) p (requests s) (next_id s)
    (pipeline s) (next_item s) (qdata s) (contact_repo s) (events s)).
Definition put_edit_requests (l : list GabbleVCardManagerEditRequest) : MV unit := modify (λ s,
  mkManager (cache s) (timed_cache s) (cache_timer s) (have_self_avatar s) (edits s)
    (edit_pipeline_item s) l (patched_vcard s) (requests s) (next_id s)
    (pipeline s) (next_item s) (qdata s) (contact_repo s) (events s)).
Definition put_requests (m : gmap Z GabbleVCardManagerRequest) (n : Z) : MV unit := modify (λ s,
  mkManager (cache s) (timed_cache s) (cache_timer s) (have_self_avatar s) (edits s)
    (edit_pipeline_item s) (edit_requests s) (patched_vcard s) m n
    (pipeline s) (next_item s) (qdata s) (contact_repo s) (events s)).
Definition put_pipeline (m : gmap Z pipeline_callback) (n : Z) : MV unit := modify (λ s,
  mkManager (cache s) (timed_cache s) (cache_timer s) (have_self_avatar s) (edits s)
    (edit_pipeline_item s) (edit_requests s) (patched_vcard s) (requests s) (next_id s)
    m n (qdata s) (contact_repo s) (events s)).
Definition put_qdata (m : gmap Z (option string)) : MV unit := modify (λ s,
  mkManager (cache s) (timed_cache s) (cache_timer s) (have_self_avatar s) (edits s)
    (edit_pipeline_item s) (edit_requests s) (patched_vcard s) (requests s) (next_id s)
    (pipeline s) (next_item s) m (contact_repo s) (events s)).
Definition emit (e : vcard_event) : MV unit := modify (λ s,
  mkManager (cache s) (timed_cache s) (cache_timer s) (have_self_avatar s) (edits s)
    (edit_pipeline_item s) (edit_requests s) (patched_vcard s) (requests s) (next_id s)
    (pipeline s) (next_item s) (qdata s) (contact_repo s) (events s ++ [e])).

Definition handle_is_valid (h : Z) : MV bool :=
  s ← get; mret (PresenceCache.handle_is_valid (contact_repo s) h).

(** Following a pointer to an entry or to a request. *)
Definition get_entry (h : Z) : MV GabbleVCardCacheEntry :=
  s ← get; match cache s !! h with Some e => mret e | None => fail MemoryFault end.
Definition put_entry (h : Z) (e : GabbleVCardCacheEntry) : MV unit :=
  s ← get; put_cache (<[h := e]> (cache s)).
Definition get_request (id : Z) : MV GabbleVCardManagerRequest :=
  s ← get; match requests s !! id with Some r => mret r | None => fail MemoryFault end.
Definition put_request (id : Z) (r : GabbleVCardManagerRequest) : MV unit :=
  s ← get; put_requests (<[id := r]> (requests s)) (next_id s).

(** *** The request pipeline *)

Definition gabble_request_pipeline_enqueue (msg : WockyNode) (cb : pipeline_callback) : MV Z :=
  s ← get;
  put_pipeline (<[next_item s := cb]> (pipeline s)) (next_item s + 1) ;;
  emit (SendIq (next_item s) msg) ;;
  mret (next_item s).

(** *** Entries *)

Definition empty_entry : GabbleVCardCacheEntry := mkEntry None [] None None 0.

Definition cache_entry_get (h : Z) : MV GabbleVCardCacheEntry :=
  s ← get;
  match cache s !! h with
  | Some e => mret e
  | None => put_entry h empty_entry ;; mret empty_entry
  end.

(** [tp_heap_peek_first]: by [cache_entry_compare]. *)
Definition expiry (s : GabbleVCardManager R) (h : Z) : Z := from_option expires 0 (cache s !! h).

Fixpoint first_to_expire (s : GabbleVCardManager R) (l : list Z) : option Z :=
  match l with
  | [] => None
  | h :: l' =>
      match first_to_expire s l' with
      | None => Some h
      | Some h' => if expiry s h <=? expiry s h' then Some h else Some h'
      end
  end.

(** [tp_heap_remove]: one occurrence, if there is one. *)
Definition tp_heap_remove (h : Z) : MV unit :=
  s ← get; put_timed_cache (delete_first (λ x, x =? h) (timed_cache s)) (cache_timer s).

(** [cache_entry_free] has nothing to cancel here: there is no pipeline item
    and no request. *)
Definition cache_entry_attempt_to_free (h : Z) : MV unit :=
  e ← get_entry h;
  if bool_decide (vcard_node e ≠ None) then mret tt
  else if bool_decide (pipeline_item e ≠ None) then mret tt
  else if bool_decide (pending_requests e ≠ []) then mret tt
  else
    g_assert (bool_decide (suspended_timer_id e = None)) ;;
    s ← get;
    when (h =? self_handle)
      (g_assert (bool_decide (edit_pipeline_item s ≠ None) || bool_decide (length (edits s) = O))) ;;
    tp_heap_remove h ;;
    s ← get;
    put_cache (delete h (cache s)).

Definition gabble_vcard_manager_invalidate_cache (h : Z) : MV unit :=
  valid ← handle_is_valid h;
  s ← get;
  if negb valid then mret tt
  else
    match cache s !! h with
    | None => mret tt
    | Some _ =>
        tp_heap_remove h ;;
        e ← get_entry h;
        put_entry h (with_vcard None e) ;;
        cache_entry_attempt_to_free h
    end.

(** The timer: entries that have expired are dropped.  Each turn takes one out
    of the heap. *)
Fixpoint expire_loop (c : Conn) (fuel : nat) : MV unit :=
  match fuel with
  | O => fail OutOfFuel
  | S n =>
      s ← get;
      match first_to_expire s (timed_cache s) with
      | None => mret tt
      | Some h =>
          e ← get_entry h;
          if time c <? expires e then mret tt
          else
            g_assert (bool_decide (pipeline_item e = None)) ;;
            gabble_vcard_manager_invalidate_cache h ;;
            expire_loop c n
      end
  end.

Definition cache_entry_timeout (c : Conn) : MV unit :=
  s ← get;
  expire_loop c (S (length (timed_cache s))) ;;
  s ← get;
  put_timed_cache (timed_cache s) (bool_decide (timed_cache s ≠ [])).

(** *** Requests *)

Definition delete_request (id : Z) : MV unit :=
  r ← get_request id;
  e ← get_entry (r_entry r);
  put_entry (r_entry r) (with_pending (delete_first (λ x, x =? id) (pending_requests e)) e) ;;
  cache_entry_attempt_to_free (r_entry r) ;;
  s ← get;
  put_requests (delete id (requests s)) (next_id s).

Definition vcard_get_avatar_sha1 (vcard : WockyNode) : string :=
  match wocky_node_get_child vcard "PHOTO" with
  | None => EmptyString
  | Some node =>
      match wocky_node_get_child node "BINVAL" ≫= content with
      | None => EmptyString
      | Some binval_value =>
          match g_base64_decode binval_value with
          | Some avatar => sha1_hex avatar
          | None => EmptyString
          end
      end
  end.

Definition initial_request_cb (vcard : option WockyNode) : MV unit :=
  match vcard with
  | None => mret tt
  | Some v => put_have_self_avatar true ;; emit (GotSelfInitialAvatar (vcard_get_avatar_sha1 v))
  end.

(** [vcard]: [None] when the request failed. *)
Definition complete_one_request (id : Z) (vcard : option WockyNode) : MV unit :=
  r ← get_request id;
  match r_callback r with
  | NoCallback => mret tt
  | InitialRequestCb => emit (Callback id (r_entry r) vcard) ;; initial_request_cb vcard
  | UserCb => emit (Callback id (r_entry r) vcard)
  end ;;
  delete_request id.

Definition cache_entry_complete_requests (h : Z) (error : bool) : MV unit :=
  e ← get_entry h;
  for_each (pending_requests e) (λ id,
    complete_one_request id (if error then None else vcard_node e)).

Definition cancel_request (id : Z) : MV unit := complete_one_request id None.

(** *** What a vCard says *)

Definition gabble_vcard_manager_get_cached_alias (s : GabbleVCardManager R) (h : Z) :
    option string :=
  if PresenceCache.handle_is_valid (contact_repo s) h then qdata s !! h ≫= id else None.

Definition gabble_vcard_manager_has_cached_alias (s : GabbleVCardManager R) (h : Z) : bool :=
  PresenceCache.handle_is_valid (contact_repo s) h && bool_decide (is_Some (qdata s !! h)).

Definition gabble_vcard_manager_get_cached (s : GabbleVCardManager R) (h : Z) : option WockyNode :=
  if PresenceCache.handle_is_valid (contact_repo s) h then cache s !! h ≫= vcard_node else None.

Definition observe_vcard (h : Z) (vcard : WockyNode) : MV unit :=
  let alias := vcard_alias vcard in
  emit (VCardUpdate h) ;;
  s ← get;
  let old_alias := gabble_vcard_manager_get_cached_alias s h in
  if bool_decide (old_alias ≠ None) && bool_decide (old_alias = alias) then mret tt
  else
    put_qdata (<[h := alias]> (qdata s)) ;;
    when (bool_decide (old_alias ≠ None) || bool_decide (alias ≠ None)) (emit (NicknameUpdate h)).

(** *** Edits *)

Definition manager_patch_vcard (c : Conn) (old_vcard_node : WockyNode) : MV unit :=
  s ← get;
  if bool_decide (length (edits s) = O) || bool_decide (edit_pipeline_item s ≠ None) then mret tt
  else
    match apply_edits c (edits s) old_vcard_node false with
    | None => fail AssertFailed
    | Some (vcard, changed) =>
        (if changed : bool then
           item ← gabble_request_pipeline_enqueue
             (mkNode "iq" None (Some "jabber:client") [mkAttribute "type" "set" None] [vcard])
             ReplaceReplyCb;
           put_edit_item (Some item) (Some vcard)
         else mret tt) ;;
        put_edits [] ;;
        s ← get;
        put_edit_requests
          ((λ r, mkEditRequest (edit_id r) (has_callback r) true) <$> edit_requests s)
    end.

(** The edit requests the reply is for: [error] is for all of them. *)
Definition answered_by (error : bool) (r : GabbleVCardManagerEditRequest) : bool :=
  set_in_pipeline r || error.

Definition replace_reply_cb (c : Conn) (error : bool) : MV unit :=
  s ← get;
  put_edit_item None (patched_vcard s) ;;
  node ←
    (if error then put_edit_item None None ;; mret None
     else
       e ← cache_entry_get self_handle;
       g_assert (bool_decide (is_Some (patched_vcard s))) ;;
       put_entry self_handle (with_vcard (patched_vcard s) e) ;;
       put_edit_item None None ;;
       match patched_vcard s with
       | Some node => observe_vcard self_handle node ;; mret (Some node)
       | None => mret None
       end);
  s ← get;
  for_each (List.filter (answered_by error) (edit_requests s)) (λ r,
    when (has_callback r) (emit (EditCallback (edit_id r) (negb error)))) ;;
  put_edit_requests (List.filter (λ r, negb (answered_by error r)) (edit_requests s)) ;;
  match node with
  | None => put_edits []
  | Some node => manager_patch_vcard c node
  end.

(** *** Sending requests *)

Definition request_send (id : Z) : MV unit :=
  r ← get_request id;
  e ← get_entry (r_entry r);
  g_assert (negb (timer_id r)) ;;
  if bool_decide (pipeline_item e ≠ None) then mret tt
  else if bool_decide (suspended_timer_id e ≠ None) then mret tt
  else
    put_request id (with_timer true r) ;;
    s ← get;
    let to := if r_entry r =? self_handle then []
              else [mkAttribute "to"
                      (default EmptyString (tp_handle_inspect (contact_repo s) (r_entry r))) None] in
    item ← gabble_request_pipeline_enqueue
      (mkNode "iq" None (Some "jabber:client") (mkAttribute "type" "get" None :: to)
         [mkNode "vCard" None (Some NS_VCARD_TEMP) [] []]) (PipelineReplyCb id);
    put_entry (r_entry r) (with_item (Some item) e).

Definition suspended_request_timeout_cb (id : Z) : MV unit :=
  r ← get_request id;
  e ← get_entry (r_entry r);
  put_entry (r_entry r) (with_suspended None e) ;;
  request_send id.

(** The reply to a vCard request: [error] is [None] for success. *)
Definition pipeline_reply_cb (c : Conn) (id : Z) (reply_msg : option WockyNode)
    (error : option reply_error) : MV unit :=
  r ← get_request id;
  let h := r_entry r in
  e ← get_entry h;
  valid ← handle_is_valid h;
  g_assert valid ;;
  g_assert (bool_decide (pipeline_item e ≠ None)) ;;
  g_assert (bool_decide (suspended_timer_id e = None)) ;;
  let e := with_item None e in
  put_entry h e ;;
  match error with
  | Some (mkError false wait) =>
      if bool_decide (is_Some reply_msg) && wait then
        put_request id (with_timer false r) ;;
        put_entry h (with_suspended (Some id) e)
      else
        s ← get;
        when ((h =? self_handle) && bool_decide (length (edits s) ≠ O))
          (put_edits [] ;; replace_reply_cb c true) ;;
        cache_entry_complete_requests h true
  | _ =>
      match reply_msg with
      | None => fail AssertFailed
      | Some msg =>
          let vcard := default (mkNode "vCard" None (Some NS_VCARD_TEMP) [] [])
                         (wocky_node_get_child msg "vCard") in
          put_entry h (with_expires (time c + VCARD_CACHE_ENTRY_TTL) (with_vcard (Some vcard) e)) ;;
          s ← get;
          put_timed_cache (timed_cache s ++ [h]) true ;;
          when (h =? self_handle) (manager_patch_vcard c vcard) ;;
          observe_vcard h vcard ;;
          cache_entry_complete_requests h false
      end
  end.

(** A callback of the pipeline. *)
Definition pipeline_answers (c : Conn) (item : Z) (reply_msg : option WockyNode)
    (error : option reply_error) : MV unit :=
  s ← get;
  match pipeline s !! item with
  | None => mret tt
  | Some cb =>
      put_pipeline (delete item (pipeline s)) (next_item s) ;;
      match cb with
      | PipelineReplyCb id => pipeline_reply_cb c id reply_msg error
      | ReplaceReplyCb => replace_reply_cb c (bool_decide (is_Some error))
      end
  end.

(** [gabble_request_pipeline_item_cancel]. *)
Definition gabble_request_pipeline_item_cancel (c : Conn) (item : Z) : MV unit :=
  s ← get;
  match pipeline s !! item with
  | None => fail MemoryFault
  | Some _ => pipeline_answers c item None (Some (mkError false false))
  end.

Definition timeout_request (c : Conn) (id : Z) : MV unit :=
  r ← get_request id;
  put_request id (with_timer false r) ;;
  e ← get_entry (r_entry r);
  match pipeline_item e with
  | None => fail MemoryFault
  | Some item => gabble_request_pipeline_item_cancel c item
  end.

(** [None]: NULL is returned. *)
Definition gabble_vcard_manager_request (c : Conn) (handle timeout : Z) (cb : request_callback) :
    MV (option Z) :=
  e ← cache_entry_get handle;
  valid ← handle_is_valid handle;
  if negb (connected c && valid) then mret None
  else
    g_assert (bool_decide (vcard_node e = None)) ;;
    s ← get;
    let id := next_id s in
    put_requests (<[id := mkRequest handle false
        (if timeout =? 0 then default_request_timeout else timeout) cb]> (requests s)) (id + 1) ;;
    put_entry handle (with_pending (id :: pending_requests e) e) ;;
    request_send id ;;
    mret (Some id).

Definition gabble_vcard_manager_edit (c : Conn) (callback : bool)
    (new_edits : list GabbleVCardManagerEditInfo) : MV (option Z) :=
  if negb (connected c) then mret None
  else
    gabble_vcard_manager_invalidate_cache self_handle ;;
    e ← cache_entry_get self_handle;
    s ← get;
    when (bool_decide (edit_pipeline_item s = None) && bool_decide (pending_requests e = []))
      (gabble_vcard_manager_request c self_handle 0 NoCallback ;; mret tt) ;;
    s ← get;
    put_edits (edits s ++ new_edits) ;;
    put_requests (requests s) (next_id s + 1) ;;
    put_edit_requests (edit_requests s ++ [mkEditRequest (next_id s) callback false]) ;;
    mret (Some (next_id s)).

(** [request] is one that exists: the caller's pointer. *)
Definition gabble_vcard_manager_remove_edit_request (id : Z) : MV unit :=
  s ← get;
  if existsb (λ r, edit_id r =? id) (edit_requests s) then
    put_edit_requests (delete_first (λ r, edit_id r =? id) (edit_requests s))
  else fail MemoryFault.

Definition gabble_vcard_manager_cancel_request (id : Z) : MV unit :=
  get_request id ;; cancel_request id.

(** The object a request is bound to dies. *)
Definition notify_delete_request (id : Z) : MV unit := delete_request id.
Definition notify_delete_edit_request (id : Z) : MV unit := gabble_vcard_manager_remove_edit_request id.

Definition status_changed_cb (c : Conn) : MV unit :=
  when (connected c)
    (let '(alias_src, alias) := cached_alias c in
     s ← get;
     when (Roster.GABBLE_CONNECTION_ALIAS_FROM_VCARD <=? alias_src)
       (put_edits (edits s ++ option_list (gabble_vcard_manager_edit_info_new None alias SET_ALIAS))) ;;
     gabble_vcard_manager_request c self_handle 0 InitialRequestCb ;;
     mret tt).

(** *** The end *)

Definition cancel_all_edit_requests : MV unit :=
  s ← get;
  for_each (edit_requests s) (λ r, when (has_callback r) (emit (EditCallback (edit_id r) false))) ;;
  put_edit_requests [].

(** An entry is visited as the table was when the visit began. *)
Definition disconnect_entry_foreach (c : Conn) (h : Z) : MV unit :=
  e ← get_entry h;
  put_entry h (with_suspended None e) ;;
  cache_entry_complete_requests h true ;;
  e ← get_entry h;
  match pipeline_item e with
  | None => mret tt
  | Some item =>
      gabble_request_pipeline_item_cancel c item ;;
      e ← get_entry h;
      put_entry h (with_item None e)
  end.

Definition gabble_vcard_manager_dispose (c : Conn) : MV unit :=
  put_edits [] ;;
  s ← get;
  put_timed_cache (timed_cache s) false ;;
  for_each (fst <$> map_to_list (cache s)) (disconnect_entry_foreach c) ;;
  put_timed_cache [] false ;;
  put_cache ∅ ;;
  s ← get;
  match edit_pipeline_item s with
  | None => mret tt
  | Some item => gabble_request_pipeline_item_cancel c item
  end ;;
  cancel_all_edit_requests.

Definition gabble_vcard_manager_init (repo : R) : GabbleVCardManager R :=
  mkManager ∅ [] false false [] None [] None ∅ 0 ∅ 0 ∅ repo [].

End manager.
End VCardManager.
