(* ===== verification/VCardFacts.v ===== *)
(** * vCards: requests, edits and the cache

    [vinv] is the invariant of every input of the vCard manager, with the
    inputs that break it named by [guarded]; then the theorems about reachable
    states, about single operations, and concrete runs. *)

From S2P Require Import Prelude Node Namespaces Jid Capabilities Presence PresenceCache PresenceCacheFacts Roster VCardManager.

Module VCardFacts.
Import Jid Capabilities VCardManager.

(** ** Lists *)

Abbreviation drop_id id l := (delete_first (λ x, x =? id) l).

Lemma elem_of_drop_id id x l : NoDup l → x ∈ drop_id id l ↔ x ∈ l ∧ x ≠ id.
Proof.
  induction l as [|y l IH]; intros Hn; cbn [delete_first]; [by rewrite elem_of_nil; tauto|].
  apply NoDup_cons in Hn as [Hy Hn]. destruct (Z.eqb_spec y id) as [->|Hne].
  - rewrite elem_of_cons. split; [|naive_solver]. intros Hx. split; [by right|]. by intros ->.
  - rewrite !elem_of_cons, IH by done. naive_solver.
Qed.

Lemma drop_id_subseteq id x l : x ∈ drop_id id l → x ∈ l.
Proof.
  induction l as [|y l IH]; cbn [delete_first]; [done|].
  destruct (y =? id); rewrite !elem_of_cons; [by right|]. intros [->|?]; auto.
Qed.

Lemma NoDup_drop_id id l : NoDup l → NoDup (drop_id id l).
Proof.
  induction l as [|y l IH]; intros Hn; cbn [delete_first]; [done|].
  apply NoDup_cons in Hn as [Hy Hn]. destruct (y =? id); [done|].
  apply NoDup_cons. split; [|by apply IH]. by intros Hx%drop_id_subseteq.
Qed.

Lemma drop_id_absent id l : id ∉ l → drop_id id l = l.
Proof.
  induction l as [|y l IH]; intros Hn; cbn [delete_first]; [done|].
  apply not_elem_of_cons in Hn as [Hne Hn]. destruct (Z.eqb_spec y id); [congruence|].
  by rewrite IH.
Qed.

Lemma length_drop_id id l : id ∈ l → length l = S (length (drop_id id l)).
Proof.
  induction l as [|y l IH]; cbn [delete_first]; [by intros ?%elem_of_nil|].
  destruct (Z.eqb_spec y id) as [->|Hne]; [done|].
  rewrite elem_of_cons. intros [->|Hin]; [done|]. cbn. by rewrite <- IH.
Qed.

(** ** The invariant *)

(** An edit that edit_info_new made. *)
Definition well_formed (info : GabbleVCardManagerEditInfo) : Prop :=
  edit_type info = SET_ALIAS → element_name info = None.

Section facts.
Context {R : Type} `{HL : HandleRepoLaws R}.
Context (b64 : string → option string) (sha1 : string → string) (self : Z).

Local Notation Manager := (GabbleVCardManager R).
Local Notation MV := (M Manager).
Local Notation valid := PresenceCache.handle_is_valid.
Implicit Types (s : Manager) (e : GabbleVCardCacheEntry).

(** What every entry promises: its requests exist and are its own, the item
    it waits for is the request of one of them, and so is the timer; [D] is an
    entry whose requests are not being seen to for the moment. *)
Record entry_ok (D : option Z) s (h : Z) e : Prop := {
  eo_nodup : NoDup (pending_requests e);
  eo_pending id : id ∈ pending_requests e → ∃ r, requests s !! id = Some r ∧ r_entry r = h;
  eo_item it : pipeline_item e = Some it →
    ∃ id, pipeline s !! it = Some (PipelineReplyCb id) ∧ id ∈ pending_requests e;
  eo_susp id : suspended_timer_id e = Some id →
    pipeline_item e = None ∧ id ∈ pending_requests e ∧
    ∀ r, requests s !! id = Some r → timer_id r = false;
  eo_valid : pending_requests e ≠ [] → valid (contact_repo s) h = true;
  eo_answer : pending_requests e ≠ [] → D ≠ Some h →
    pipeline_item e ≠ None ∨ suspended_timer_id e ≠ None;
}.

Definition request_ok (D : option Z) s (id : Z) (r : GabbleVCardManagerRequest) : Prop :=
  ∃ e, cache s !! r_entry r = Some e ∧ id ∈ pending_requests e ∧
    (timer_id r = true → D ≠ Some (r_entry r) → ∃ it, pipeline_item e = Some it ∧
      pipeline s !! it = Some (PipelineReplyCb id)).

Definition item_ok s (it : Z) (cb : pipeline_callback) : Prop :=
  match cb with
  | PipelineReplyCb id => ∃ r e, requests s !! id = Some r ∧ cache s !! r_entry r = Some e ∧
      pipeline_item e = Some it ∧ id ∈ pending_requests e
  | ReplaceReplyCb => edit_pipeline_item s = Some it
  end.

(** [X]: a request that is being deleted. *)
Record vinv (D X : option Z) s : Prop := {
  v_entries h e : cache s !! h = Some e → entry_ok D s h e;
  v_requests id r : requests s !! id = Some r → X ≠ Some id → request_ok D s id r;
  v_gone id h e : X = Some id → cache s !! h = Some e → id ∉ pending_requests e;
  v_items it cb : pipeline s !! it = Some cb → item_ok s it cb;
  v_set it : edit_pipeline_item s = Some it → pipeline s !! it = Some ReplaceReplyCb;
  v_patched : is_Some (edit_pipeline_item s) → is_Some (patched_vcard s);
  v_heap h : h ∈ timed_cache s → valid (contact_repo s) h = true ∧
    ∃ e, cache s !! h = Some e ∧ vcard_node e ≠ None ∧ pipeline_item e = None ∧
      suspended_timer_id e = None;
  v_heap_nodup : NoDup (timed_cache s);
  v_heap_timer : cache_timer s = false → timed_cache s = [];
  v_wf : Forall well_formed (edits s);
  v_fresh id : next_id s <= id → requests s !! id = None;
  v_fresh_item it : next_item s <= it → pipeline s !! it = None;
}.

(** Edits that wait will be seen to. *)
Definition edits_ok s : Prop :=
  edits s ≠ [] → edit_pipeline_item s ≠ None ∨
    ∃ e, cache s !! self = Some e ∧ pending_requests e ≠ [].

(** What the invariant does not see. *)
Definition same s s' : Prop :=
  cache s' = cache s ∧ timed_cache s' = timed_cache s ∧ cache_timer s' = cache_timer s ∧
  edits s' = edits s ∧ edit_pipeline_item s' = edit_pipeline_item s ∧
  patched_vcard s' = patched_vcard s ∧ requests s' = requests s ∧ next_id s' = next_id s ∧
  pipeline s' = pipeline s ∧ next_item s' = next_item s ∧ contact_repo s' = contact_repo s.

Lemma same_refl s : same s s.
Proof. unfold same. by split_and!. Qed.

Lemma entry_ok_ext D D' s s' h e :
  entry_ok D s h e → (D' ≠ Some h → D ≠ Some h) →
  (∀ id r, id ∈ pending_requests e → requests s !! id = Some r → requests s' !! id = Some r) →
  (∀ it id, pipeline_item e = Some it → pipeline s !! it = Some (PipelineReplyCb id) →
    pipeline s' !! it = Some (PipelineReplyCb id)) →
  contact_repo s' = contact_repo s → entry_ok D' s' h e.
Proof.
  intros [Hn Hp Hi Hs Hv Ha] HD Hr Hpi Hc. split; try done.
  - intros id Hin. destruct (Hp id Hin) as (r & Hl & He). eauto.
  - intros it Hit. destruct (Hi it Hit) as (id & Hl & Hin). eauto.
  - intros id Hid. destruct (Hs id Hid) as (H1 & Hin & Ht). split_and!; [done|done|].
    intros r Hl. destruct (Hp id Hin) as (r' & Hl' & _). rewrite (Hr id r' Hin Hl') in Hl.
    injection Hl as <-. auto.
  - by rewrite Hc.
  - auto.
Qed.

Lemma vinv_same D X s s' : vinv D X s → same s s' → vinv D X s'.
Proof.
  intros [He Hr Hg Hi] (H1 & H2 & H3 & H4 & H5 & H6 & H7 & H8 & H9 & H10 & H11).
  split; rewrite ?H1, ?H2, ?H3, ?H4, ?H5, ?H6, ?H7, ?H8, ?H9, ?H10, ?H11; try assumption.
  - intros h e Hl. eapply entry_ok_ext; [by apply He|done|..]; rewrite ?H7, ?H9; auto.
  - intros id r Hl HX. destruct (Hr id r Hl HX) as (e & ? & ? & ?). exists e.
    rewrite H1, H9. done.
  - intros it cb Hl. specialize (Hi it cb Hl). destruct cb; cbn in *; rewrite ?H1, ?H5, ?H7; done.
Qed.

(** A handler that changes nothing of it. *)
Definition unseen {A} (m : MV A) : Prop := ∀ s, wp m (λ _ s', same s s') s.

Lemma unseen_ret {A} (a : A) : unseen (mret a).
Proof. intros s. apply wp_ret, same_refl. Qed.

Lemma unseen_bind {A B} (m : MV A) (k : A → MV B) :
  unseen m → (∀ a, unseen (k a)) → unseen (m ≫= k).
Proof.
  intros Hm Hk s. apply wp_bind. eapply wp_mono; [|apply Hm]. intros a s1 H1.
  eapply wp_mono; [|apply Hk]. intros b s2 H2. unfold same in *. destruct_and!. split_and!; congruence.
Qed.

Lemma unseen_get : unseen get.
Proof. intros s. apply wp_get, same_refl. Qed.

Lemma unseen_emit ev : unseen (emit ev).
Proof. intros s. apply wp_modify. unfold same. by split_and!. Qed.

Lemma unseen_when b (m : MV unit) : unseen m → unseen (when b m).
Proof. intros Hm. destruct b; [done|apply unseen_ret]. Qed.

Lemma unseen_observe h v : unseen (observe_vcard h v).
Proof.
  apply unseen_bind; [apply unseen_emit|]. intros _. apply unseen_bind; [apply unseen_get|].
  intros s. cbv zeta. destruct (_ && _); [apply unseen_ret|]. apply unseen_bind.
  - intros s'. apply wp_modify. unfold same. by split_and!.
  - intros _. apply unseen_when, unseen_emit.
Qed.

Lemma unseen_initial v : unseen (initial_request_cb b64 sha1 v).
Proof.
  destruct v as [v|]; [|apply unseen_ret]. apply unseen_bind; [|intros _; apply unseen_emit].
  intros s. apply wp_modify. unfold same. by split_and!.
Qed.

(** *** Freeing entries *)

(** The state with other tables. *)
Definition with_tables s (ca : gmap Z GabbleVCardCacheEntry) (tc : list Z)
    (re : gmap Z GabbleVCardManagerRequest) : Manager :=
  mkManager ca tc (cache_timer s) (have_self_avatar s) (edits s) (edit_pipeline_item s)
    (edit_requests s) (patched_vcard s) re (next_id s) (pipeline s) (next_item s) (qdata s)
    (contact_repo s) (events s).

(** Nothing is lost with an entry that has neither item nor request. *)
Lemma vinv_delete_entry D X s h e :
  vinv D X s → cache s !! h = Some e → vcard_node e = None → pipeline_item e = None →
  pending_requests e = [] →
  vinv D X (with_tables s (delete h (cache s)) (timed_cache s) (requests s)).
Proof.
  intros [He Hr Hg Hi Hs Hpa Hh Hn Ht Hw Hf Hfi] Hl Hv Hit Hp. split; cbn; try assumption.
  - intros h' e'. rewrite lookup_delete_Some. intros [_ Hl'].
    by eapply entry_ok_ext; [exact (He h' e' Hl')|..].
  - intros id r Hlr HX. destruct (Hr id r Hlr HX) as (e' & Hl' & Hin & Htm). exists e'. cbn.
    split; [|done]. apply lookup_delete_Some. split; [|done]. intros Heq.
    rewrite <- Heq, Hl in Hl'. injection Hl' as <-. rewrite Hp in Hin. by apply elem_of_nil in Hin.
  - intros id h' e' HX. rewrite lookup_delete_Some. intros [_ Hl']. eauto.
  - intros it cb Hc. specialize (Hi it cb Hc). destruct cb as [id|]; cbn in *; [|done].
    destruct Hi as (r & e' & Hlr & Hl' & Hit' & Hin). exists r, e'. split_and!; [done| |done|done].
    apply lookup_delete_Some. split; [|done]. intros Heq. rewrite <- Heq, Hl in Hl'. congruence.
  - intros h' Hin. destruct (Hh h' Hin) as (Hva & e' & Hl' & Hv' & H1 & H2). split; [done|].
    exists e'. split_and!; try done. apply lookup_delete_Some. split; [|done]. intros <-. congruence.
Qed.

Definition frees e : bool :=
  bool_decide (vcard_node e = None) && bool_decide (pipeline_item e = None) &&
  bool_decide (pending_requests e = []).

Lemma attempt_to_free_spec D X s h e :
  vinv D X s → cache s !! h = Some e →
  (h = self → pending_requests e = [] → edits s = [] ∨ edit_pipeline_item s ≠ None) →
  cache_entry_attempt_to_free self h s =
    Ok (tt, if frees e then with_tables s (delete h (cache s)) (timed_cache s) (requests s) else s).
Proof.
  intros Hinv Hl Hself. unfold cache_entry_attempt_to_free, get_entry, frees.
  rewrite (bind_eq _ _ s e s) by (unfold mbind, M_bind, get; by rewrite Hl).
  rewrite !bool_decide_not.
  destruct (bool_decide (vcard_node e = None)) eqn:E1; cbn [negb andb]; [|done].
  destruct (bool_decide (pipeline_item e = None)) eqn:E2; cbn [negb andb]; [|done].
  destruct (bool_decide (pending_requests e = [])) eqn:E3; cbn [negb andb]; [|done].
  apply bool_decide_eq_true in E1, E2, E3.
  assert (suspended_timer_id e = None) as ->.
  { destruct (suspended_timer_id e) as [id|] eqn:Es; [|done].
    destruct (eo_susp _ _ _ _ (v_entries _ _ _ Hinv h e Hl) id Es) as (_ & Hin & _).
    rewrite E3 in Hin. by apply elem_of_nil in Hin. }
  rewrite (bind_eq _ _ s tt s) by reflexivity. rewrite (bind_eq _ _ s s s) by reflexivity.
  rewrite (bind_eq _ _ s tt s).
  2: { destruct (Z.eqb_spec h self) as [->|]; [|done].
       destruct (Hself eq_refl E3) as [Hed|Hit]; cbn [when]; unfold g_assert.
       - rewrite Hed. cbn. by rewrite orb_true_r.
       - by rewrite bool_decide_eq_true_2. }
  assert (h ∉ timed_cache s) as Hnot.
  { intros Hin. destruct (v_heap _ _ _ Hinv h Hin) as (_ & e' & Hl' & Hv & _). congruence. }
  unfold tp_heap_remove, put_timed_cache, put_cache, mbind, M_bind, get, modify. cbn.
  by rewrite drop_id_absent.
Qed.

Lemma attempt_to_free_vinv D X s h e :
  vinv D X s → cache s !! h = Some e →
  vinv D X (if frees e then with_tables s (delete h (cache s)) (timed_cache s) (requests s) else s).
Proof.
  intros Hinv Hl. destruct (frees e) eqn:Ef; [|done]. unfold frees in Ef.
  rewrite !andb_true_iff, !bool_decide_eq_true in Ef. destruct Ef as ((? & ?) & ?).
  by eapply vinv_delete_entry.
Qed.

(** *** Deleting requests *)

(** The request is not the one an IQ or a timer was set up for. *)
Definition leads s (id : Z) : Prop :=
  (∃ it, pipeline s !! it = Some (PipelineReplyCb id)) ∨
  ∃ h e, cache s !! h = Some e ∧ suspended_timer_id e = Some id.

Lemma vinv_drop_pending D s h e id r :
  vinv D None s → cache s !! h = Some e → requests s !! id = Some r → r_entry r = h →
  ¬ leads s id →
  vinv D (Some id) (with_tables s
    (<[h := with_pending (drop_id id (pending_requests e)) e]> (cache s)) (timed_cache s) (requests s)).
Proof.
  intros Hinv Hl Hlr Hrh Hlead. pose proof Hinv as [He Hr Hg Hi Hs Hpa Hh Hn Ht Hw Hf Hfi].
  pose proof (He h e Hl) as Heo. pose proof Heo as [Hnd Hpd Hit Hsu Hva Han].
  assert (∀ x, x ∈ drop_id id (pending_requests e) ↔ x ∈ pending_requests e ∧ x ≠ id) as Hdrop
    by (intros x; by apply elem_of_drop_id).
  assert (drop_id id (pending_requests e) ≠ [] → pending_requests e ≠ []) as Hne
    by (intros Hd Hz; rewrite Hz in Hd; done).
  split; cbn; try assumption.
  - intros h' e'. rewrite lookup_insert_Some. intros [[<- <-]|[Hneq Hl']].
    2: { by eapply entry_ok_ext; [exact (He h' e' Hl')|..]. }
    split; cbn; try by auto.
    + by apply NoDup_drop_id.
    + intros x [Hx _]%Hdrop. by apply Hpd.
    + intros it Hx. destruct (Hit it Hx) as (id' & Hp & Hin). exists id'. split; [done|].
      apply Hdrop. split; [done|]. intros ->. apply Hlead. left. eauto.
    + intros id' Hx. destruct (Hsu id' Hx) as (H1 & Hin & H2). split_and!; [done| |done].
      apply Hdrop. split; [done|]. intros ->. apply Hlead. right. eauto.
  - intros id' r' Hl' HX. destruct (Hr id' r' Hl' ltac:(done)) as (e' & Hl2 & Hin & Htm).
    destruct (decide (r_entry r' = h)) as [Heq|Hneq].
    + rewrite Heq in Hl2. rewrite Hl in Hl2. injection Hl2 as <-.
      exists (with_pending (drop_id id (pending_requests e)) e). cbn. rewrite Heq, lookup_insert_eq.
      split_and!; [done| |by rewrite <- Heq]. apply Hdrop. split; [done|]. intros ->. done.
    + exists e'. cbn. by rewrite lookup_insert_ne by done.
  - intros id' h' e' [= <-]. rewrite lookup_insert_Some. intros [[<- <-]|[Hneq Hl']].
    + cbn. intros [_ Hd]%Hdrop. done.
    + intros Hin. destruct (eo_pending _ _ _ _ (He h' e' Hl') id Hin) as (r' & Hl2 & Hr2).
      congruence.
  - intros it cb Hc. specialize (Hi it cb Hc). destruct cb as [id'|]; cbn in *; [|done].
    destruct Hi as (r' & e' & Hl1 & Hl2 & Hit' & Hin).
    destruct (decide (r_entry r' = h)) as [Heq|Hneq].
    + rewrite Heq in Hl2. rewrite Hl in Hl2. injection Hl2 as <-.
      exists r', (with_pending (drop_id id (pending_requests e)) e). rewrite Heq, lookup_insert_eq.
      split_and!; [done|done|done|]. apply Hdrop. split; [done|]. intros ->. apply Hlead. left. eauto.
    + exists r', e'. by rewrite lookup_insert_ne by done.
  - intros h' Hin. destruct (Hh h' Hin) as (Hv & e' & Hl' & H1 & H2 & H3). split; [done|].
    destruct (decide (h' = h)) as [->|Hneq].
    + rewrite Hl in Hl'. injection Hl' as <-. eexists. rewrite lookup_insert_eq. by split_and!.
    + exists e'. by rewrite lookup_insert_ne by done.
Qed.

Lemma vinv_delete_request D s id :
  vinv D (Some id) s → (∀ it, pipeline s !! it ≠ Some (PipelineReplyCb id)) →
  vinv D None (with_tables s (cache s) (timed_cache s) (delete id (requests s))).
Proof.
  intros [He Hr Hg Hi Hs Hpa Hh Hn Ht Hw Hf Hfi] Hlead. split; cbn; try done.
  - intros h e Hl. eapply entry_ok_ext; [exact (He h e Hl)|done| |done|done].
    cbn. intros id' r Hin Hl'. rewrite lookup_delete_ne; [done|]. intros <-. by apply (Hg id h e).
  - intros id' r. rewrite lookup_delete_Some. intros [Hne Hl] _.
    destruct (Hr id' r Hl) as (e & ? & ? & ?); [congruence|]. by exists e.
  - intros it cb Hc. specialize (Hi it cb Hc). destruct cb as [id'|]; cbn in *; [|done].
    destruct Hi as (r & e & Hl1 & Hl2 & H1 & H2). exists r, e. split_and!; [|done..].
    rewrite lookup_delete_ne; [done|]. intros <-. by apply (Hlead it).
  - intros id' Hid. rewrite lookup_delete_None. auto.
Qed.

Definition after_delete s (id : Z) (r : GabbleVCardManagerRequest) e : Manager :=
  let e1 := with_pending (drop_id id (pending_requests e)) e in
  with_tables s (if frees e1 then delete (r_entry r) (cache s) else <[r_entry r := e1]> (cache s))
    (timed_cache s) (delete id (requests s)).

(** When the last request of our own vCard goes no edit is forgotten. *)
Definition may_go s (id : Z) (r : GabbleVCardManagerRequest) e : Prop :=
  r_entry r = self → drop_id id (pending_requests e) = [] →
  edits s = [] ∨ edit_pipeline_item s ≠ None.

Lemma delete_request_spec D s id r e :
  vinv D None s → requests s !! id = Some r → cache s !! r_entry r = Some e →
  ¬ leads s id → may_go s id r e →
  delete_request self id s = Ok (tt, after_delete s id r e) ∧ vinv D None (after_delete s id r e).
Proof.
  intros Hinv Hr Hl Hlead Hgo. unfold delete_request, after_delete.
  pose proof (vinv_drop_pending D s _ e id r Hinv Hl Hr eq_refl Hlead) as H1.
  set (e1 := with_pending (drop_id id (pending_requests e)) e) in *.
  set (s1 := with_tables s (<[r_entry r := e1]> (cache s)) (timed_cache s) (requests s)) in *.
  assert (cache s1 !! r_entry r = Some e1) as Hl1 by apply lookup_insert_eq.
  pose proof (attempt_to_free_spec _ _ s1 (r_entry r) e1 H1 Hl1 Hgo) as Hfree.
  pose proof (attempt_to_free_vinv _ _ s1 (r_entry r) e1 H1 Hl1) as H2.
  set (s2 := if frees e1 then _ else s1) in *.
  assert (vinv D None (with_tables s2 (cache s2) (timed_cache s2) (delete id (requests s2)))) as H3.
  { apply vinv_delete_request; [done|]. intros it Hp. apply Hlead. left. exists it.
    unfold s2, s1 in Hp. by destruct (frees e1). }
  assert (with_tables s2 (cache s2) (timed_cache s2) (delete id (requests s2)) =
    with_tables s (if frees e1 then delete (r_entry r) (cache s) else <[r_entry r := e1]> (cache s))
      (timed_cache s) (delete id (requests s))) as Heq.
  { unfold s2, s1, with_tables. destruct (frees e1); cbn; [by rewrite delete_insert_eq|done]. }
  rewrite <- Heq. split; [|done].
  rewrite (bind_eq _ _ s r s) by (unfold get_request, mbind, M_bind, get; by rewrite Hr).
  rewrite (bind_eq _ _ s e s) by (unfold get_entry, mbind, M_bind, get; by rewrite Hl).
  rewrite (bind_eq _ _ s tt s1) by reflexivity. by rewrite (bind_eq _ _ _ _ _ Hfree).
Qed.

(** What its callback shows. *)
Definition completion (id : Z) (r : GabbleVCardManagerRequest) (v : option WockyNode) :
    list vcard_event :=
  match r_callback r with
  | NoCallback => []
  | InitialRequestCb => Callback id (r_entry r) v ::
      match v with Some v => [GotSelfInitialAvatar (vcard_get_avatar_sha1 b64 sha1 v)] | None => [] end
  | UserCb => [Callback id (r_entry r) v]
  end.

Definition with_events s (a : bool) (l : list vcard_event) : Manager :=
  mkManager (cache s) (timed_cache s) (cache_timer s) a (edits s) (edit_pipeline_item s)
    (edit_requests s) (patched_vcard s) (requests s) (next_id s) (pipeline s) (next_item s) (qdata s)
    (contact_repo s) l.

Lemma complete_one_spec D s id r e v :
  vinv D None s → requests s !! id = Some r → cache s !! r_entry r = Some e →
  ¬ leads s id → may_go s id r e →
  ∃ a, let s1 := with_events s a (events s ++ completion id r v) in
    complete_one_request b64 sha1 self id v s = Ok (tt, after_delete s1 id r e) ∧
    vinv D None (after_delete s1 id r e).
Proof.
  intros Hinv Hr Hl Hlead Hgo. unfold complete_one_request, completion.
  set (a := match r_callback r, v with InitialRequestCb, Some _ => true | _, _ => have_self_avatar s end).
  exists a. cbv zeta. set (s1 := with_events s a _).
  assert (vinv D None s1) as H1 by (eapply vinv_same; [exact Hinv|unfold same; by split_and!]).
  destruct (delete_request_spec D s1 id r e H1 Hr Hl Hlead Hgo) as [Hd Hv]. split; [|done].
  rewrite (bind_eq _ _ s r s) by (unfold get_request, mbind, M_bind, get; by rewrite Hr).
  rewrite (bind_eq _ _ s tt s1); [done|]. unfold s1, a, with_events.
  destruct (r_callback r), v; cbn; unfold mbind, M_bind, emit, initial_request_cb, modify;
    cbn; rewrite <- ?app_assoc, ?app_nil_r; by destruct s.
Qed.

(** *** Completing the requests of an entry *)

Definition completions s (l : list Z) (v : option WockyNode) : list vcard_event :=
  l ≫= λ id, match requests s !! id with Some r => completion id r v | None => [] end.

(** The requests [l] of [h] are left. *)
Definition completing (h : Z) (l : list Z) s0 s : Prop :=
  vinv (Some h) None s ∧ NoDup l ∧
  (∀ id, id ∈ l → ∃ r, requests s !! id = Some r ∧ requests s0 !! id = Some r ∧ r_entry r = h) ∧
  (∀ e, cache s !! h = Some e →
    pending_requests e = l ∧ pipeline_item e = None ∧ suspended_timer_id e = None) ∧
  (∀ h', h' ≠ h → cache s !! h' = cache s0 !! h') ∧
  (∀ e v, cache s0 !! h = Some e → vcard_node e = Some v →
    ∃ l', cache s !! h = Some (with_pending l' e)) ∧
  (∀ id r, r_entry r ≠ h → requests s !! id = Some r ↔ requests s0 !! id = Some r) ∧
  requests s ⊆ requests s0 ∧
  (h = self → edits s = [] ∨ edit_pipeline_item s ≠ None) ∧
  edits s = edits s0 ∧ edit_pipeline_item s = edit_pipeline_item s0 ∧
  timed_cache s = timed_cache s0 ∧ pipeline s = pipeline s0 ∧ next_id s = next_id s0 ∧
  edit_requests s = edit_requests s0 ∧ contact_repo s = contact_repo s0 ∧
  patched_vcard s = patched_vcard s0.

Lemma not_leading D s h e id :
  vinv D None s → cache s !! h = Some e → id ∈ pending_requests e →
  pipeline_item e = None → suspended_timer_id e = None → ¬ leads s id.
Proof.
  intros Hinv Hl Hin Hit Hsu.
  destruct (eo_pending _ _ _ _ (v_entries _ _ _ Hinv h e Hl) id Hin) as (r & Hr & Hrh).
  intros [(it & Hp)|(h' & e' & Hl' & Hs')].
  - destruct (v_items _ _ _ Hinv it _ Hp) as (r' & e' & Hr' & Hl' & Hit' & _). congruence.
  - destruct (eo_susp _ _ _ _ (v_entries _ _ _ Hinv h' e' Hl') id Hs') as (_ & Hin' & _).
    destruct (eo_pending _ _ _ _ (v_entries _ _ _ Hinv h' e' Hl') id Hin') as (r' & Hr' & Hrh').
    congruence.
Qed.

Lemma complete_step h id l v s0 s :
  completing h (id :: l) s0 s →
  wp (complete_one_request b64 sha1 self id v) (λ _ s', completing h l s0 s' ∧
    events s' = events s ++ match requests s0 !! id with Some r => completion id r v | None => [] end) s.
Proof.
  intros (Hinv & Hnd & Hreq & Hent & Hoth & Hcard & Hkeep & Hsub & Hself & Hrest).
  destruct (Hreq id ltac:(by left)) as (r & Hr & Hr0 & Hrh).
  destruct (v_requests _ _ _ Hinv id r Hr ltac:(done)) as (e & Hl & Hin & _).
  rewrite Hrh in Hl. destruct (Hent e Hl) as (Hp & Hit & Hsu).
  destruct (complete_one_spec (Some h) s id r e v Hinv Hr) as (a & Hrun & Hv).
  { by rewrite Hrh. } { by eapply not_leading. } { intros Hs. rewrite Hrh in Hs. auto. }
  unfold wp. rewrite Hrun, Hr0. unfold after_delete in *. rewrite Hp in *.
  assert (drop_id id (id :: l) = l) as Hdrop by (cbn; by rewrite Z.eqb_refl).
  rewrite Hdrop in *. rewrite Hrh in *.
  apply NoDup_cons in Hnd as [Hid Hnd]. split; [|by destruct (frees _)].
  destruct_and! Hrest. split_and!; cbn; try done.
  - intros id' Hin'. destruct (Hreq id' ltac:(by right)) as (r' & Hr' & ? & ?). exists r'.
    rewrite lookup_delete_ne by congruence. done.
  - intros e'. destruct (frees _); [by rewrite lookup_delete_eq|]. rewrite lookup_insert_eq.
    by intros [= <-].
  - intros h' Hne. rewrite <- Hoth by done.
    destruct (frees _); [by rewrite lookup_delete_ne|by rewrite lookup_insert_ne].
  - intros e0 w Hl0 Hw. destruct (Hcard e0 w Hl0 Hw) as [l' Hl']. rewrite Hl in Hl'. injection Hl' as ->.
    unfold frees. cbn. rewrite Hw. cbn. rewrite lookup_insert_eq. by exists l.
  - intros id' r' Hne. rewrite lookup_delete_Some, Hkeep by done. naive_solver congruence.
  - etrans; [apply delete_subseteq|done].
Qed.

Lemma complete_requests_wp h e error s :
  vinv (Some h) None s → cache s !! h = Some e → pipeline_item e = None →
  suspended_timer_id e = None → (h = self → edits s = [] ∨ edit_pipeline_item s ≠ None) →
  wp (cache_entry_complete_requests b64 sha1 self h error) (λ _ s', completing h [] s s' ∧
    events s' = events s ++ completions s (pending_requests e) (if error then None else vcard_node e)) s.
Proof.
  intros Hinv Hl Hit Hsu Hself. pose proof (v_entries _ _ _ Hinv h e Hl) as Heo.
  assert (completing h (pending_requests e) s s) as Hc.
  { split_and!; try done.
    - apply Heo.
    - intros id Hin. destruct (eo_pending _ _ _ _ Heo id Hin) as (r & ? & ?). eauto.
    - intros e'. rewrite Hl. by intros [= <-].
    - intros e' w Hl' _. exists (pending_requests e'). rewrite Hl'. by destruct e'. }
  unfold cache_entry_complete_requests, get_entry.
  eapply wp_known; [unfold mbind, M_bind, get; by rewrite Hl|].
  set (v := if error then None else vcard_node e). clearbody v.
  assert (∀ l s1, completing h l s s1 → wp (for_each l (λ id, complete_one_request b64 sha1 self id v))
    (λ _ s', completing h [] s s' ∧ events s' = events s1 ++ completions s l v) s1) as Hloop.
  { induction l as [|id l IH]; intros s1 H1; [apply wp_ret; by rewrite app_nil_r|].
    cbn [for_each]. apply wp_bind. eapply wp_mono; [|by apply complete_step].
    intros [] s2 [H2 He2]. eapply wp_mono; [|by apply IH]. intros [] s3 [H3 He3]. split; [done|].
    rewrite He3, He2, <- app_assoc. done. }
  by apply Hloop.
Qed.

Lemma completing_done h s s' : completing h [] s s' → vinv None None s'.
Proof.
  intros (Hinv & _ & _ & Hent & _). destruct Hinv as [He Hr Hg Hi Hs Hpa Hh Hn Ht Hw Hf Hfi].
  split; try assumption.
  - intros h' e Hl. pose proof (He h' e Hl) as [].
    split; try assumption. intros Hp _. apply eo_answer0; [done|]. intros [= <-].
    by destruct (Hent e Hl).
  - intros id r Hl HX. destruct (Hr id r Hl HX) as (e & Hle & Hin & Htm). exists e. split_and!; [done|done|].
    intros Hx _. apply Htm; [done|]. intros [= Heq]. rewrite <- Heq in Hle.
    destruct (Hent e Hle) as (Hp & _). rewrite Hp in Hin. by apply elem_of_nil in Hin.
Qed.

(** *** Edits *)

Lemma apply_edit_some c info v :
  well_formed info → is_Some (gabble_vcard_manager_edit_info_apply c info v).
Proof.
  intros Hw. unfold gabble_vcard_manager_edit_info_apply.
  destruct (edit_type info) eqn:Et; try done.
  unfold gabble_vcard_manager_edit_info_apply_set_alias. rewrite (Hw Et).
  cbn [bool_decide]. rewrite bool_decide_eq_false_2 by tauto.
  destruct (new_alias info); [done|]. destruct (bool_decide _); [done|].
  destruct (cached_alias c) as [source alias]. by destruct (_ <? _).
Qed.

Lemma apply_edits_some c l v b : Forall well_formed l → is_Some (apply_edits c l v b).
Proof.
  revert v b. induction l as [|info l IH]; intros v b Hw; [done|]. cbn.
  apply Forall_cons in Hw as [Hi Hw]. destruct (apply_edit_some c info v Hi) as [[v' b'] ->].
  by apply IH.
Qed.

Definition set_stanza (v : WockyNode) : WockyNode :=
  mkNode "iq" None (Some "jabber:client") [mkAttribute "type" "set" None] [v].

(** The state once the edits were applied and, if they changed anything, sent. *)
Definition patched s (v : WockyNode) (changed : bool) : Manager :=
  mkManager (cache s) (timed_cache s) (cache_timer s) (have_self_avatar s) []
    (if changed then Some (next_item s) else edit_pipeline_item s)
    ((λ r, mkEditRequest (edit_id r) (has_callback r) true) <$> edit_requests s)
    (if changed then Some v else patched_vcard s) (requests s) (next_id s)
    (if changed then <[next_item s := ReplaceReplyCb]> (pipeline s) else pipeline s)
    (if changed then next_item s + 1 else next_item s) (qdata s) (contact_repo s)
    (if changed then events s ++ [SendIq (next_item s) (set_stanza v)] else events s).

Definition idle_or_editing s : bool :=
  bool_decide (length (edits s) = O) || bool_decide (edit_pipeline_item s ≠ None).

Lemma patch_spec c old v changed s :
  apply_edits c (edits s) old false = Some (v, changed) →
  manager_patch_vcard c old s = Ok (tt, if idle_or_editing s then s else patched s v changed).
Proof.
  intros Ha. unfold manager_patch_vcard, idle_or_editing. rewrite (bind_eq _ _ s s s) by reflexivity.
  destruct (_ || _); [done|]. rewrite Ha. by destruct changed.
Qed.

Lemma patched_vinv D X s v changed :
  vinv D X s → edit_pipeline_item s = None → vinv D X (patched s v changed).
Proof.
  intros [He Hr Hg Hi Hs Hpa Hh Hn Ht Hw Hf Hfi] Hno. destruct changed.
  2: { split; cbn; try done. intros h e Hl.
       by eapply entry_ok_ext; [exact (He h e Hl)|..]. }
  assert (pipeline s !! next_item s = None) as Hnew by (apply Hfi; lia).
  assert (∀ it cb, pipeline s !! it = Some cb → it ≠ next_item s) as Hne by congruence.
  split; cbn; try done.
  - intros h e Hl. eapply entry_ok_ext; [exact (He h e Hl)|done|done| |done]. cbn.
    intros it id _ Hp. rewrite lookup_insert_ne; [done|]. by apply not_eq_sym, (Hne _ _ Hp).
  - intros id r Hl HX. destruct (Hr id r Hl HX) as (e & H1 & H2 & H3). exists e. split_and!; [done|done|].
    cbn. intros Htm HD. destruct (H3 Htm HD) as (it & Hit & Hp). exists it. split; [done|].
    rewrite lookup_insert_ne; [done|]. by apply not_eq_sym, (Hne _ _ Hp).
  - intros it cb. rewrite lookup_insert_Some. intros [[<- <-]|[Hneq Hp]]; [done|].
    specialize (Hi it cb Hp). destruct cb; cbn in *; [done|congruence].
  - intros it [= <-]. apply lookup_insert_eq.
  - intros it Hit. rewrite lookup_insert_ne by lia. apply Hfi. lia.
Qed.

(** What sending edits leaves alone. *)
Definition same_tables s s' : Prop :=
  cache s' = cache s ∧ timed_cache s' = timed_cache s ∧ cache_timer s' = cache_timer s ∧
  requests s' = requests s ∧ next_id s' = next_id s ∧ contact_repo s' = contact_repo s ∧
  qdata s' = qdata s.

(** What the server is sent. *)
Definition patch_events c s (old : WockyNode) : list vcard_event :=
  if idle_or_editing s then []
  else match apply_edits c (edits s) old false with
       | Some (v, true) => [SendIq (next_item s) (set_stanza v)]
       | _ => []
       end.

Lemma patch_wp D X c old s :
  vinv D X s →
  wp (manager_patch_vcard c old) (λ _ s', vinv D X s' ∧ same_tables s s' ∧
    events s' = events s ++ patch_events c s old ∧
    (edits s' = [] ∨ edit_pipeline_item s' ≠ None)) s.
Proof.
  intros Hinv. destruct (apply_edits_some c (edits s) old false (v_wf _ _ _ Hinv)) as [[v b] Ha].
  unfold wp, patch_events. rewrite (patch_spec c old v b s Ha), Ha. unfold idle_or_editing.
  destruct (bool_decide (length (edits s) = O)) eqn:E1; cbn [orb].
  { apply bool_decide_eq_true, length_zero_iff_nil in E1. rewrite app_nil_r.
    split_and!; [done| |done|auto]. unfold same_tables. by split_and!. }
  destruct (bool_decide (edit_pipeline_item s ≠ None)) eqn:E2.
  { apply bool_decide_eq_true in E2. rewrite app_nil_r. split_and!; [done| |done|auto].
    unfold same_tables. by split_and!. }
  apply bool_decide_eq_false in E2.
  split_and!; [|unfold same_tables; by split_and!|destruct b; cbn; by rewrite ?app_nil_r|by left].
  apply patched_vinv; [done|]. destruct (edit_pipeline_item s); [|done]. by exfalso; apply E2.
Qed.

(** *** Replies to an edit *)

Lemma vinv_put_edits D X s l :
  vinv D X s → Forall well_formed l →
  vinv D X (mkManager (cache s) (timed_cache s) (cache_timer s) (have_self_avatar s) l
    (edit_pipeline_item s) (edit_requests s) (patched_vcard s) (requests s) (next_id s)
    (pipeline s) (next_item s) (qdata s) (contact_repo s) (events s)).
Proof.
  intros [He Hr Hg Hi Hs Hpa Hh Hn Ht Hw Hf Hfi] Hl. split; cbn; try done. intros h e Hlk.
  by eapply entry_ok_ext; [exact (He h e Hlk)|..].
Qed.

(** The item of the edit that was answered is forgotten. *)
Definition unedit s (p : option WockyNode) : Manager :=
  mkManager (cache s) (timed_cache s) (cache_timer s) (have_self_avatar s) (edits s)
    None (edit_requests s) p (requests s) (next_id s)
    (pipeline s) (next_item s) (qdata s) (contact_repo s) (events s).

Lemma vinv_unedit D X s p q : vinv D X (unedit s p) → vinv D X (unedit s q).
Proof.
  intros [He Hr Hg Hi Hs Hpa Hh Hn Ht Hw Hf Hfi]. split; cbn; try done.
 
  intros h e Hlk. by eapply entry_ok_ext; [exact (He h e Hlk)|..].
Qed.

(** A new entry, and a vCard in an entry. *)
Lemma vinv_new_entry D X s h :
  vinv D X s → cache s !! h = None →
  vinv D X (with_tables s (<[h := empty_entry]> (cache s)) (timed_cache s) (requests s)).
Proof.
  intros [He Hr Hg Hi Hs Hpa Hh Hn Ht Hw Hf Hfi] Hl. split; cbn; try done.
  - intros h' e. rewrite lookup_insert_Some. intros [[<- <-]|[Hne Hl']].
    + split; cbn; try done. apply NoDup_nil_2. by intros id ?%elem_of_nil.
    + by eapply entry_ok_ext; [exact (He h' e Hl')|..].
  - intros id r Hlr HX. destruct (Hr id r Hlr HX) as (e & H1 & H2 & H3). exists e.
    split; [|done]. cbn. rewrite lookup_insert_ne; [done|]. congruence.
  - intros id h' e HX. rewrite lookup_insert_Some. intros [[<- <-]|[Hne Hl']]; [by intros ?%elem_of_nil|eauto].
  - intros it cb Hc. specialize (Hi it cb Hc). destruct cb as [id|]; cbn in *; [|done].
    destruct Hi as (r & e & H1 & H2 & H3 & H4). exists r, e. split_and!; try done.
    rewrite lookup_insert_ne; [done|]. congruence.
  - intros h' Hin. destruct (Hh h' Hin) as (Hv & e & H1 & H2). split; [done|]. exists e.
    rewrite lookup_insert_ne; [done|]. congruence.
Qed.

Lemma vinv_put_vcard D X s h e v x :
  vinv D X s → cache s !! h = Some e → (v = None → h ∉ timed_cache s) →
  vinv D X (with_tables s (<[h := with_expires x (with_vcard v e)]> (cache s)) (timed_cache s) (requests s)).
Proof.
  intros [He Hr Hg Hi Hs Hpa Hh Hn Ht Hw Hf Hfi] Hl Hheap. split; cbn; try done.
  - intros h' e'. rewrite lookup_insert_Some. intros [[<- <-]|[Hne Hl']].
    + destruct (He h e Hl). by split.
    + by eapply entry_ok_ext; [exact (He h' e' Hl')|..].
  - intros id r Hlr HX. destruct (Hr id r Hlr HX) as (e' & H1 & H2 & H3).
    destruct (decide (r_entry r = h)) as [Heq|Hne].
    + rewrite Heq, Hl in H1. injection H1 as <-. eexists. cbn. rewrite Heq, lookup_insert_eq.
      split_and!; [done|done|by rewrite <- Heq].
    + exists e'. cbn. by rewrite lookup_insert_ne by done.
  - intros id h' e' HX. rewrite lookup_insert_Some. intros [[<- <-]|[Hne Hl']]; [exact (Hg id h e HX Hl)|eauto].
  - intros it cb Hc. specialize (Hi it cb Hc). destruct cb as [id|]; cbn in *; [|done].
    destruct Hi as (r & e' & H1 & H2 & H3 & H4). destruct (decide (r_entry r = h)) as [Heq|Hne].
    + rewrite Heq, Hl in H2. injection H2 as <-. eexists r, _. rewrite Heq, lookup_insert_eq. by split_and!.
    + exists r, e'. by rewrite lookup_insert_ne by done.
  - intros h' Hin. destruct (Hh h' Hin) as (Hv & e' & H1 & H2 & H3 & H4). split; [done|].
    destruct (decide (h' = h)) as [->|Hne].
    + rewrite Hl in H1. injection H1 as <-. eexists. rewrite lookup_insert_eq. split_and!; try done.
      cbn. intros ->. by apply Hheap.
    + exists e'. by rewrite lookup_insert_ne by done.
Qed.

(** What observing a vCard shows and remembers. *)
Definition alias_kept s (h : Z) (v : WockyNode) : bool :=
  let old := gabble_vcard_manager_get_cached_alias s h in
  bool_decide (old ≠ None) && bool_decide (old = vcard_alias v).

Definition observed_events s (h : Z) (v : WockyNode) : list vcard_event :=
  VCardUpdate h ::
  if alias_kept s h v then []
  else if bool_decide (gabble_vcard_manager_get_cached_alias s h ≠ None) ||
          bool_decide (vcard_alias v ≠ None) then [NicknameUpdate h] else [].

Definition observed s (h : Z) (v : WockyNode) : Manager :=
  mkManager (cache s) (timed_cache s) (cache_timer s) (have_self_avatar s) (edits s)
    (edit_pipeline_item s) (edit_requests s) (patched_vcard s) (requests s) (next_id s) (pipeline s)
    (next_item s) (if alias_kept s h v then qdata s else <[h := vcard_alias v]> (qdata s))
    (contact_repo s) (events s ++ observed_events s h v).

Lemma observe_spec s h v : observe_vcard h v s = Ok (tt, observed s h v).
Proof.
  unfold observe_vcard, observed, observed_events. cbv zeta.
  rewrite (bind_eq _ _ s tt (with_events s (have_self_avatar s) (events s ++ [VCardUpdate h])))
    by reflexivity.
  erewrite bind_eq by reflexivity.
  change (gabble_vcard_manager_get_cached_alias (with_events _ _ _) h) with
    (gabble_vcard_manager_get_cached_alias s h).
  unfold alias_kept. destruct (_ && _); [done|]. destruct (_ || _); [|done].
  unfold mbind, M_bind, put_qdata, emit, modify, when. cbn. by rewrite <- app_assoc.
Qed.

Lemma observed_vinv D X s h v : vinv D X s → vinv D X (observed s h v).
Proof. intros Hinv. eapply vinv_same; [exact Hinv|]. unfold same. by split_and!. Qed.

(** The callbacks of the edit requests a reply answers. *)
Definition edit_callbacks (error : bool) (l : list GabbleVCardManagerEditRequest) : list vcard_event :=
  List.filter (answered_by error) l ≫= λ r,
    if has_callback r then [EditCallback (edit_id r) (negb error)] else [].

Definition with_edit_requests s (l : list GabbleVCardManagerEditRequest) (ev : list vcard_event) :
    Manager :=
  mkManager (cache s) (timed_cache s) (cache_timer s) (have_self_avatar s) (edits s)
    (edit_pipeline_item s) l (patched_vcard s) (requests s) (next_id s) (pipeline s)
    (next_item s) (qdata s) (contact_repo s) ev.

Lemma edit_callbacks_spec (ok : bool) l s :
  for_each l (λ r, when (has_callback r) (emit (EditCallback (edit_id r) ok))) s =
  Ok (tt, with_events s (have_self_avatar s)
    (events s ++ l ≫= λ r, if has_callback r then [EditCallback (edit_id r) ok] else [])).
Proof.
  revert s. induction l as [|r l IH]; intros s; [cbn; rewrite app_nil_r; by destruct s|].
  cbn [for_each]. unfold when at 1. destruct (has_callback r) eqn:Er.
  - rewrite (bind_eq _ _ s tt (with_events s (have_self_avatar s)
      (events s ++ [EditCallback (edit_id r) ok]))) by reflexivity.
    rewrite IH. cbn. rewrite Er. unfold with_events. cbn. by rewrite <- app_assoc.
  - rewrite (bind_eq _ _ s tt s) by reflexivity. rewrite IH. cbn. by rewrite Er.
Qed.

(** Those that are left. *)
Definition unanswered (error : bool) s : list GabbleVCardManagerEditRequest :=
  List.filter (λ r, negb (answered_by error r)) (edit_requests s).

Lemma unanswered_error s : unanswered true s = [].
Proof.
  unfold unanswered, answered_by. induction (edit_requests s) as [|r l IH]; [done|].
  cbn. by rewrite orb_true_r.
Qed.

(** The state when an edit failed. *)
Definition edit_failed s : Manager :=
  mkManager (cache s) (timed_cache s) (cache_timer s) (have_self_avatar s) []
    None (unanswered true s) None (requests s) (next_id s) (pipeline s)
    (next_item s) (qdata s) (contact_repo s) (events s ++ edit_callbacks true (edit_requests s)).

Lemma replace_reply_error_spec c s : replace_reply_cb self c true s = Ok (tt, edit_failed s).
Proof.
  unfold replace_reply_cb. rewrite (bind_eq _ _ s s s) by reflexivity.
  rewrite (bind_eq _ _ s tt (unedit s (patched_vcard s))) by reflexivity.
  rewrite (bind_eq _ _ _ None (unedit s None)) by reflexivity.
  rewrite (bind_eq _ _ (unedit s None) (unedit s None) (unedit s None)) by reflexivity.
  rewrite (bind_eq _ _ _ _ _ (edit_callbacks_spec _ _ _)). done.
Qed.

Lemma edit_failed_vinv D s : vinv D None (unedit s None) → vinv D None (edit_failed s).
Proof.
  intros Hinv. eapply vinv_same; [apply (vinv_put_edits _ _ _ [] Hinv); by apply Forall_nil_2|].
  unfold same. by split_and!.
Qed.

(** The entry an edit that was made is put in, and the state then. *)
Definition entry_of s (h : Z) : GabbleVCardCacheEntry := default empty_entry (cache s !! h).

Definition edit_made s (v : WockyNode) : Manager :=
  let s1 := observed (with_tables (unedit s None)
    (<[self := with_vcard (Some v) (entry_of s self)]> (cache s)) (timed_cache s) (requests s)) self v in
  with_edit_requests s1 (unanswered false s) (events s1 ++ edit_callbacks false (edit_requests s)).

Lemma replace_reply_ok_spec c s v :
  patched_vcard s = Some v → replace_reply_cb self c false s = manager_patch_vcard c v (edit_made s v).
Proof.
  intros Hp. unfold replace_reply_cb. rewrite (bind_eq _ _ s s s) by reflexivity.
  rewrite (bind_eq _ _ s tt (unedit s (patched_vcard s))) by reflexivity. rewrite Hp.
  set (s1 := observed (with_tables (unedit s None)
    (<[self := with_vcard (Some v) (entry_of s self)]> (cache s)) (timed_cache s) (requests s)) self v).
  rewrite (bind_eq _ _ _ (Some v) s1).
  2: { unfold s1, entry_of, cache_entry_get. set (s0 := unedit s (Some v)).
       set (s2 := with_tables s0 (<[self := default empty_entry (cache s !! self)]> (cache s))
         (timed_cache s) (requests s)).
       rewrite (bind_eq _ _ s0 (default empty_entry (cache s !! self)) s2).
       2: { unfold mbind, M_bind, get, s2, with_tables. cbn. destruct (cache s !! self) eqn:El; cbn; [|done].
            rewrite insert_id by done. done. }
       rewrite (bind_eq _ _ s2 tt s2) by reflexivity. unfold put_entry.
       erewrite bind_eq by (erewrite bind_eq by reflexivity; reflexivity).
       erewrite bind_eq by reflexivity. cbn [cache put_edit_item].
       erewrite bind_eq; [reflexivity|]. rewrite observe_spec. unfold s2. cbn.
       by rewrite insert_insert_eq. }
  rewrite (bind_eq _ _ s1 s1 s1) by reflexivity.
  rewrite (bind_eq _ _ _ _ _ (edit_callbacks_spec _ _ _)). done.
Qed.

Lemma vinv_entry_of D X s h :
  vinv D X s → vinv D X (with_tables s (<[h := entry_of s h]> (cache s)) (timed_cache s) (requests s)).
Proof.
  intros Hinv. unfold entry_of. destruct (cache s !! h) as [e|] eqn:El; cbn.
  - rewrite insert_id by done. eapply vinv_same; [exact Hinv|]. unfold same. by split_and!.
  - by apply vinv_new_entry.
Qed.

Lemma edit_made_vinv D s v : vinv D None (unedit s None) → vinv D None (edit_made s v).
Proof.
  intros Hinv. pose proof (vinv_entry_of _ _ _ self Hinv) as H1.
  pose proof (vinv_put_vcard _ _ _ self (entry_of s self) (Some v) (expires (entry_of s self)) H1
    ltac:(apply lookup_insert_eq) ltac:(done)) as H2.
  eapply vinv_same; [exact H2|]. unfold same, edit_made, entry_of. cbn.
  rewrite insert_insert_eq. by split_and!.
Qed.

Lemma cache_entry_get_spec s h :
  cache_entry_get h s = Ok (entry_of s h,
    with_tables s (<[h := entry_of s h]> (cache s)) (timed_cache s) (requests s)).
Proof.
  unfold cache_entry_get, entry_of, mbind, M_bind, get, with_tables.
  destruct (cache s !! h) eqn:El; cbn; [|done]. rewrite insert_id by done. by destruct s.
Qed.

(** *** Sending a request *)

Definition busy e : bool :=
  bool_decide (pipeline_item e ≠ None) || bool_decide (suspended_timer_id e ≠ None).

Lemma busy_false e : busy e = false → pipeline_item e = None ∧ suspended_timer_id e = None.
Proof.
  unfold busy. rewrite orb_false_iff, !bool_decide_eq_false.
  destruct (pipeline_item e), (suspended_timer_id e); naive_solver.
Qed.

Definition get_stanza s (h : Z) : WockyNode :=
  mkNode "iq" None (Some "jabber:client")
    (mkAttribute "type" "get" None ::
      if h =? self then []
      else [mkAttribute "to" (default EmptyString (tp_handle_inspect (contact_repo s) h)) None])
    [mkNode "vCard" None (Some NS_VCARD_TEMP) [] []].

Definition sent s (id : Z) (r : GabbleVCardManagerRequest) e : Manager :=
  mkManager (<[r_entry r := with_item (Some (next_item s)) e]> (cache s)) (timed_cache s)
    (cache_timer s) (have_self_avatar s) (edits s) (edit_pipeline_item s) (edit_requests s)
    (patched_vcard s) (<[id := with_timer true r]> (requests s)) (next_id s)
    (<[next_item s := PipelineReplyCb id]> (pipeline s)) (next_item s + 1) (qdata s)
    (contact_repo s) (events s ++ [SendIq (next_item s) (get_stanza s (r_entry r))]).

Lemma request_send_spec s id r e :
  requests s !! id = Some r → cache s !! r_entry r = Some e → timer_id r = false →
  request_send self id s = Ok (tt, if busy e then s else sent s id r e).
Proof.
  intros Hr Hl Ht. unfold request_send, busy.
  rewrite (bind_eq _ _ s r s) by (unfold get_request, mbind, M_bind, get; by rewrite Hr).
  rewrite (bind_eq _ _ s e s) by (unfold get_entry, mbind, M_bind, get; by rewrite Hl).
  rewrite Ht. rewrite (bind_eq _ _ s tt s) by reflexivity.
  destruct (bool_decide (pipeline_item e ≠ None)); [done|].
  destruct (bool_decide (suspended_timer_id e ≠ None)); done.
Qed.

(** Between the requests of an entry and the others. *)
Lemma request_of_entry D s id r e h e' :
  vinv D None s → requests s !! id = Some r → cache s !! r_entry r = Some e →
  cache s !! h = Some e' → id ∈ pending_requests e' → h = r_entry r ∧ e' = e.
Proof.
  intros Hinv Hr Hl Hl' Hin.
  destruct (eo_pending _ _ _ _ (v_entries _ _ _ Hinv h e' Hl') id Hin) as (r' & Hr' & Hh).
  assert (h = r_entry r) as -> by congruence. split; congruence.
Qed.

Lemma sent_vinv s id r e :
  vinv (Some (r_entry r)) None s → requests s !! id = Some r → cache s !! r_entry r = Some e →
  (∀ id' r', requests s !! id' = Some r' → r_entry r' = r_entry r → timer_id r' = false) →
  busy e = false → r_entry r ∉ timed_cache s → vinv None None (sent s id r e).
Proof.
  intros Hinv Hr Hl Ht [Hno Hsu]%busy_false Hheap.
  destruct (v_requests _ _ _ Hinv id r Hr ltac:(done)) as (e' & Hl' & Hid & _).
  assert (e' = e) as -> by congruence. clear Hl'.
  pose proof (request_of_entry (Some (r_entry r)) s id r e) as Hother.
  pose proof Hinv as [He Hrs Hg Hi Hs Hpa Hh Hn Htm Hw Hf Hfi].
  assert (pipeline s !! next_item s = None) as Hnew by (apply Hfi; lia).
  assert (∀ it cb, pipeline s !! it = Some cb →
    <[next_item s := PipelineReplyCb id]> (pipeline s) !! it = Some cb) as Hkeep.
  { intros it cb Hp. rewrite lookup_insert_ne; [done|]. congruence. }
  assert (∀ it, pipeline s !! it ≠ Some (PipelineReplyCb id)) as Hunsent.
  { intros it Hp. destruct (Hi it _ Hp) as (r' & e' & Hr' & Hl' & Hit & _). congruence. }
  split; cbn; try done.
  - intros h e'. rewrite lookup_insert_Some. intros [[<- <-]|[Hne Hl']].
    + destruct (He _ e Hl) as [Hnd Hpd Hit Hsu' Hva Han]. split; cbn; try done.
      * intros id' Hin. destruct (Hpd id' Hin) as (r' & Hr' & Hh'). destruct (decide (id' = id)) as [->|Hne].
        { exists (with_timer true r). by rewrite lookup_insert_eq. }
        exists r'. by rewrite lookup_insert_ne by congruence.
      * intros it [= <-]. exists id. by rewrite lookup_insert_eq.
      * intros id' Hx. congruence.
      * by left.
    + eapply entry_ok_ext; [exact (He h e' Hl')|congruence| |intros it id' _; apply Hkeep|done].
      cbn. intros id' r' Hin Hr'. rewrite lookup_insert_ne; [done|]. intros <-.
      destruct (Hother h e' Hinv Hr Hl Hl' Hin). congruence.
  - intros id' r'. rewrite lookup_insert_Some. intros [[<- <-]|[Hne Hr']] _.
    + exists (with_item (Some (next_item s)) e). cbn. rewrite !lookup_insert_eq. split_and!; [done|done|].
      intros _ _. eexists. split; [done|]. apply lookup_insert_eq.
    + destruct (Hrs id' r' Hr' ltac:(done)) as (e' & Hl' & Hin & Htm').
      destruct (decide (r_entry r' = r_entry r)) as [Heq|Hneq].
      * rewrite Heq, Hl in Hl'. injection Hl' as <-. exists (with_item (Some (next_item s)) e). cbn.
        rewrite Heq, lookup_insert_eq. split_and!; [done|done|].
        intros Hx. rewrite (Ht id' r' Hr' Heq) in Hx. done.
      * exists e'. cbn. rewrite lookup_insert_ne by done. split_and!; [done|done|].
        intros Hx _. destruct (Htm' Hx) as (it & Hit & Hp); [congruence|]. eauto.
  - intros it cb. rewrite lookup_insert_Some. intros [[<- <-]|[Hne Hp]].
    + exists (with_timer true r), (with_item (Some (next_item s)) e). cbn. by rewrite !lookup_insert_eq.
    + specialize (Hi it cb Hp). destruct cb as [id'|]; cbn in *; [|done].
      destruct Hi as (r' & e' & Hr' & Hl' & Hit & Hin).
      assert (r_entry r' ≠ r_entry r) as Hneq by congruence. exists r', e'.
      rewrite lookup_insert_ne by congruence. by rewrite lookup_insert_ne by done.
  - intros it Hit. auto.
  - intros h Hin. destruct (Hh h Hin) as (Hv & e' & Hl' & H1). split; [done|]. exists e'.
    rewrite lookup_insert_ne; [done|]. congruence.
  - intros id' Hid'. rewrite lookup_insert_ne; [by apply Hf|]. intros <-. rewrite Hf in Hr by done. done.
  - intros it Hit. rewrite lookup_insert_ne by lia. apply Hfi. lia.
Qed.

(** *** A new request *)

Definition request_of (h timeout : Z) (cb : request_callback) : GabbleVCardManagerRequest :=
  mkRequest h false (if timeout =? 0 then default_request_timeout else timeout) cb.

Definition requested s (h : Z) (r : GabbleVCardManagerRequest) e : Manager :=
  mkManager (<[h := with_pending (next_id s :: pending_requests e) e]> (cache s)) (timed_cache s)
    (cache_timer s) (have_self_avatar s) (edits s) (edit_pipeline_item s) (edit_requests s)
    (patched_vcard s) (<[next_id s := r]> (requests s)) (next_id s + 1)
    (pipeline s) (next_item s) (qdata s) (contact_repo s) (events s).

Lemma requested_vinv D s h r e :
  vinv None None s → cache s !! h = Some e → r_entry r = h → timer_id r = false →
  valid (contact_repo s) h = true → (D ≠ Some h → busy e = true) → vinv D None (requested s h r e).
Proof.
  intros Hinv Hl Hrh Htr Hv HD. pose proof Hinv as [He Hr Hg Hi Hs Hpa Hh Hn Htm Hw Hf Hfi].
  assert (requests s !! next_id s = None) as Hnew by (apply Hf; lia).
  assert (∀ id r', requests s !! id = Some r' → <[next_id s := r]> (requests s) !! id = Some r') as Hkeep.
  { intros id r' Hl'. rewrite lookup_insert_ne; [done|]. congruence. }
  split; cbn; try done.
  - intros h' e'. rewrite lookup_insert_Some. intros [[<- <-]|[Hne Hl']].
    + destruct (He h e Hl) as [Hnd Hpd Hit Hsu' Hva Han]. split; cbn; try done.
      * apply NoDup_cons. split; [|done]. intros Hin. destruct (Hpd _ Hin) as (r' & ? & _). congruence.
      * intros id [->|Hin]%elem_of_cons; [exists r; by rewrite lookup_insert_eq|].
        destruct (Hpd id Hin) as (r' & Hr' & ?). eauto.
      * intros it Hx. destruct (Hit it Hx) as (id & ? & ?). exists id. split; [done|by right].
      * intros id Hx. destruct (Hsu' id Hx) as (? & Hin & Ht). split_and!; [done|by right|].
        intros r' Hl'. destruct (Hpd id Hin) as (r'' & Hr'' & _). rewrite (Hkeep _ _ Hr'') in Hl'.
        injection Hl' as <-. auto.
      * intros _ HDh. specialize (HD HDh). unfold busy in HD.
        by rewrite orb_true_iff, !bool_decide_eq_true in HD.
    + eapply entry_ok_ext; [exact (He h' e' Hl')|done| |done|done]. cbn. auto.
  - intros id r'. rewrite lookup_insert_Some. intros [[<- <-]|[Hne Hr']] _.
    + eexists. cbn. rewrite Hrh, lookup_insert_eq. split_and!; [done|by left|congruence].
    + destruct (Hr id r' Hr' ltac:(done)) as (e' & Hl' & Hin & Ht).
      destruct (decide (r_entry r' = h)) as [Heq|Hneq].
      * rewrite Heq, Hl in Hl'. injection Hl' as <-. eexists. cbn. rewrite Heq, lookup_insert_eq.
        split_and!; [done|by right|]. intros Hx _. by apply Ht.
      * exists e'. cbn. rewrite lookup_insert_ne by done. split_and!; [done|done|]. intros Hx _. by apply Ht.
  - intros it cb Hp. specialize (Hi it cb Hp). destruct cb as [id|]; cbn in *; [|done].
    destruct Hi as (r' & e' & Hr' & Hl' & Hit & Hin).
    destruct (decide (r_entry r' = h)) as [Heq|Hneq].
    + rewrite Heq, Hl in Hl'. injection Hl' as <-. eexists r', _.
      rewrite Heq, lookup_insert_eq. split_and!; [by apply Hkeep|done|done|by right].
    + exists r', e'. split_and!; [by apply Hkeep|by rewrite lookup_insert_ne by done|done|done].
  - intros h' Hin. destruct (Hh h' Hin) as (Hv' & e' & Hl' & H1). split; [done|].
    destruct (decide (h' = h)) as [->|Hneq].
    + rewrite Hl in Hl'. injection Hl' as <-. eexists. by rewrite lookup_insert_eq.
    + exists e'. by rewrite lookup_insert_ne by done.
  - intros id Hid. rewrite lookup_insert_ne by lia. apply Hf. lia.
Qed.

Definition asked s (h : Z) (r : GabbleVCardManagerRequest) : Manager :=
  let e := entry_of s h in
  let s1 := requested s h r e in
  if busy e then s1 else sent s1 (next_id s) r (with_pending (next_id s :: pending_requests e) e).

Lemma request_spec c s h t cb :
  connected c = true → valid (contact_repo s) h = true → vcard_node (entry_of s h) = None →
  gabble_vcard_manager_request self c h t cb s = Ok (Some (next_id s), asked s h (request_of h t cb)).
Proof.
  intros Hc Hv Hn. unfold gabble_vcard_manager_request.
  rewrite (bind_eq _ _ _ _ _ (cache_entry_get_spec s h)).
  set (s1 := with_tables s _ _ _). rewrite (bind_eq _ _ s1 true s1)
    by (unfold VCardManager.handle_is_valid, mbind, M_bind, get; cbn; by rewrite Hv).
  rewrite Hc, Hn. cbn [andb negb].
  rewrite (bind_eq _ _ s1 tt s1) by reflexivity. rewrite (bind_eq _ _ s1 s1 s1) by reflexivity.
  erewrite bind_eq by reflexivity. unfold put_entry.
  erewrite bind_eq by (erewrite bind_eq by reflexivity; reflexivity).
  set (s2 := mkManager _ _ _ _ _ _ _ _ _ _ _ _ _ _ _).
  assert (s2 = requested s h (request_of h t cb) (entry_of s h)) as ->.
  { unfold s2, requested. cbn. by rewrite insert_insert_eq. }
  erewrite bind_eq; [|eapply (request_send_spec _ _ (request_of h t cb));
    [apply lookup_insert_eq|apply lookup_insert_eq|done]]. unfold asked. done.
Qed.

(** An entry that waits for nothing has no timer running for its requests. *)
Lemma idle_untimed X s h e id r :
  vinv None X s → cache s !! h = Some e → pipeline_item e = None → X ≠ Some id →
  requests s !! id = Some r → r_entry r = h → timer_id r = false.
Proof.
  intros Hinv Hl Hno HX Hr Hrh. destruct (v_requests _ _ _ Hinv id r Hr HX) as (e' & Hl' & _ & Ht).
  destruct (timer_id r); [|done]. destruct (Ht eq_refl) as (it & Hit & _); [done|]. congruence.
Qed.

Lemma asked_vinv s h t cb :
  vinv None None s → valid (contact_repo s) h = true → vcard_node (entry_of s h) = None →
  vinv None None (asked s h (request_of h t cb)).
Proof.
  intros Hinv Hv Hn. unfold asked.
  pose proof (vinv_entry_of _ _ _ h Hinv) as H0. set (s0 := with_tables s _ _ _) in H0.
  assert (cache s0 !! h = Some (entry_of s h)) as Hl by apply lookup_insert_eq.
  assert (requested s0 h (request_of h t cb) (entry_of s h) =
    requested s h (request_of h t cb) (entry_of s h)) as Heq.
  { unfold s0, requested. cbn. by rewrite insert_insert_eq. }
  rewrite <- Heq. destruct (busy (entry_of s h)) eqn:Eb; [by apply requested_vinv|].
  eapply sent_vinv; try done.
  - by apply requested_vinv.
  - apply lookup_insert_eq.
  - apply lookup_insert_eq.
  - cbn. intros id' r'. rewrite lookup_insert_Some. intros [[<- <-]|[Hne Hr']]; [done|].
    apply busy_false in Eb as [Hno _]. by eapply (idle_untimed _ s0 h (entry_of s h) id').
  - cbn. intros Hin. destruct (v_heap _ _ _ Hinv h Hin) as (_ & e & Hle & Hx & _).
    unfold entry_of in Hn. by rewrite Hle in Hn.
Qed.

Lemma asked_pending s h r :
  r_entry r = h →
  ∃ e, cache (asked s h r) !! h = Some e ∧
    pending_requests e = next_id s :: pending_requests (entry_of s h).
Proof.
  intros <-. unfold asked. destruct (busy _); cbn; rewrite lookup_insert_eq; by eexists.
Qed.

(** *** A suspended request is sent again *)

Lemma vinv_put_entry D D' s h e e' :
  vinv D None s → cache s !! h = Some e → entry_ok D' s h e' →
  pending_requests e' = pending_requests e → pipeline_item e' = pipeline_item e →
  (h ∈ timed_cache s → vcard_node e' ≠ None ∧ suspended_timer_id e' = None) →
  (∀ h', D' ≠ Some h' → D ≠ Some h') →
  vinv D' None (with_tables s (<[h := e']> (cache s)) (timed_cache s) (requests s)).
Proof.
  intros [He Hr Hg Hi Hs Hpa Hh Hn Ht Hw Hf Hfi] Hl Heo Hp Hit Hheap HD. split; cbn; try done.
  - intros h' e2. rewrite lookup_insert_Some. intros [[<- <-]|[Hne Hl']].
    + by eapply entry_ok_ext; [exact Heo|..].
    + by eapply entry_ok_ext; [exact (He h' e2 Hl')|auto..].
  - intros id r Hlr HX. destruct (Hr id r Hlr HX) as (e2 & H1 & H2 & H3).
    destruct (decide (r_entry r = h)) as [Heq|Hne].
    + rewrite Heq, Hl in H1. injection H1 as <-. exists e'. cbn. rewrite Heq, lookup_insert_eq, Hp, Hit.
      split_and!; [done|done|]. rewrite <- Heq. auto.
    + exists e2. cbn. rewrite lookup_insert_ne by done. auto.
  - intros it cb Hc. specialize (Hi it cb Hc). destruct cb as [id|]; cbn in *; [|done].
    destruct Hi as (r & e2 & H1 & H2 & H3 & H4). destruct (decide (r_entry r = h)) as [Heq|Hne].
    + rewrite Heq, Hl in H2. injection H2 as <-. exists r, e'. rewrite Heq, lookup_insert_eq, Hp, Hit.
      by split_and!.
    + exists r, e2. by rewrite lookup_insert_ne by done.
  - intros h' Hin. destruct (Hh h' Hin) as (Hv & e2 & H1 & H2 & H3 & H4). split; [done|].
    destruct (decide (h' = h)) as [->|Hne].
    + rewrite Hl in H1. injection H1 as <-. exists e'. rewrite lookup_insert_eq, Hit.
      destruct (Hheap Hin). by split_and!.
    + exists e2. by rewrite lookup_insert_ne by done.
Qed.

Definition resent s (id : Z) (r : GabbleVCardManagerRequest) e : Manager :=
  let e' := with_suspended None e in
  sent (with_tables s (<[r_entry r := e']> (cache s)) (timed_cache s) (requests s)) id r e'.

Lemma suspended_spec s h e id :
  vinv None None s → cache s !! h = Some e → suspended_timer_id e = Some id →
  ∃ r, requests s !! id = Some r ∧ r_entry r = h ∧
    suspended_request_timeout_cb self id s = Ok (tt, resent s id r e) ∧
    vinv None None (resent s id r e).
Proof.
  intros Hinv Hl Hsu. pose proof (v_entries _ _ _ Hinv h e Hl) as Heo.
  destruct (eo_susp _ _ _ _ Heo id Hsu) as (Hno & Hin & Htm).
  destruct (eo_pending _ _ _ _ Heo id Hin) as (r & Hr & Hrh). subst h. specialize (Htm r Hr).
  exists r. split; [done|]. split; [done|].
  set (e' := with_suspended None e).
  set (s1 := with_tables s (<[r_entry r := e']> (cache s)) (timed_cache s) (requests s)).
  assert (cache s1 !! r_entry r = Some e') as Hl1 by apply lookup_insert_eq.
  assert (busy e' = false) as Hb by (unfold busy; cbn; by rewrite Hno).
  assert (r_entry r ∉ timed_cache s) as Hheap.
  { intros Hx. destruct (v_heap _ _ _ Hinv _ Hx) as (_ & e2 & Hl2 & _ & _ & ?). congruence. }
  split.
  - unfold suspended_request_timeout_cb.
    rewrite (bind_eq _ _ s r s) by (unfold get_request, mbind, M_bind, get; by rewrite Hr).
    rewrite (bind_eq _ _ s e s) by (unfold get_entry, mbind, M_bind, get; by rewrite Hl).
    rewrite (bind_eq _ _ s tt s1) by reflexivity.
    rewrite (request_send_spec s1 id r e' Hr Hl1 Htm), Hb. done.
  - apply sent_vinv; try done.
    + eapply (vinv_put_entry None); [exact Hinv|exact Hl| |done|done|by intros|done].
      destruct Heo. by split.
    + intros id' r' Hr' Hrh. by eapply (idle_untimed _ s (r_entry r) e id' r').
Qed.

(** *** A reply to a request *)

Definition taken s (it h : Z) e : Manager :=
  mkManager (<[h := with_item None e]> (cache s)) (timed_cache s) (cache_timer s)
    (have_self_avatar s) (edits s) (edit_pipeline_item s) (edit_requests s) (patched_vcard s)
    (requests s) (next_id s) (delete it (pipeline s)) (next_item s) (qdata s)
    (contact_repo s) (events s).

Lemma taken_vinv s it h e id :
  vinv None None s → pipeline s !! it = Some (PipelineReplyCb id) → cache s !! h = Some e →
  pipeline_item e = Some it → vinv (Some h) None (taken s it h e).
Proof.
  intros Hinv Hp Hl Hit. pose proof Hinv as [He Hr Hg Hi Hs Hpa Hh Hn Ht Hw Hf Hfi].
  assert (∀ h' e', cache s !! h' = Some e' → h' ≠ h → pipeline_item e' ≠ Some it) as Hother.
  { intros h' e' Hl' Hne Hx.
    destruct (eo_item _ _ _ _ (He h' e' Hl') it Hx) as (id1 & Hp1 & Hin1).
    destruct (eo_item _ _ _ _ (He h e Hl) it Hit) as (id2 & Hp2 & Hin2).
    assert (id1 = id2) as -> by congruence.
    destruct (eo_pending _ _ _ _ (He h' e' Hl') id2 Hin1) as (r1 & ? & ?).
    destruct (eo_pending _ _ _ _ (He h e Hl) id2 Hin2) as (r2 & ? & ?). congruence. }
  split; cbn; try done.
  - intros h' e'. rewrite lookup_insert_Some. intros [[<- <-]|[Hne Hl']].
    + destruct (He h e Hl) as [Hnd Hpd Hit' Hsu' Hva Han]. split; cbn; try done.
      intros id' Hx. destruct (Hsu' id' Hx). congruence.
    + eapply entry_ok_ext; [exact (He h' e' Hl')|done|done| |done]. cbn. intros it' id' Hx Hp'.
      rewrite lookup_delete_ne; [done|]. intros <-. by apply (Hother h' e').
  - intros id' r' Hr' HX. destruct (Hr id' r' Hr' HX) as (e' & Hl' & Hin & Htm).
    destruct (decide (r_entry r' = h)) as [Heq|Hne].
    + rewrite Heq, Hl in Hl'. injection Hl' as <-. eexists. cbn. rewrite Heq, lookup_insert_eq.
      split_and!; done.
    + exists e'. cbn. rewrite lookup_insert_ne by done. split_and!; [done|done|]. intros Hx _.
      destruct (Htm Hx) as (it' & Hit' & Hp'); [done|]. exists it'. split; [done|].
      rewrite lookup_delete_ne; [done|]. intros <-. by apply (Hother (r_entry r') e').
  - intros it' cb. rewrite lookup_delete_Some. intros [Hne Hp'].
    specialize (Hi it' cb Hp'). destruct cb as [id'|]; cbn in *; [|done].
    destruct Hi as (r' & e' & Hr' & Hl' & Hit' & Hin). exists r', e'. split_and!; try done.
    rewrite lookup_insert_ne; [done|]. congruence.
  - intros it' Hx. rewrite lookup_delete_Some. split; [|by apply Hs]. intros <-.
    apply Hs in Hx. congruence.
  - intros h' Hin. destruct (Hh h' Hin) as (Hv & e' & Hl' & H1 & H2 & H3). split; [done|]. exists e'.
    rewrite lookup_insert_ne; [done|]. congruence.
  - intros it' Hx. rewrite lookup_delete_None. auto.
Qed.

Lemma vinv_stop_timer D s id r :
  vinv D None s → requests s !! id = Some r →
  vinv D None (with_tables s (cache s) (timed_cache s) (<[id := with_timer false r]> (requests s))).
Proof.
  intros [He Hr Hg Hi Hs Hpa Hh Hn Ht Hw Hf Hfi] Hl.
  assert (∀ id' r', requests s !! id' = Some r' → ∃ r2,
    <[id := with_timer false r]> (requests s) !! id' = Some r2 ∧ r_entry r2 = r_entry r') as Hkeep.
  { intros id' r' Hl'. destruct (decide (id' = id)) as [->|Hne].
    - eexists. rewrite lookup_insert_eq. split; [done|]. cbn. congruence.
    - exists r'. by rewrite lookup_insert_ne. }
  split; cbn; try done.
  - intros h e Hle. destruct (He h e Hle) as [Hnd Hpd Hit Hsu Hva Han]. split; try done.
    + intros id' Hin. destruct (Hpd id' Hin) as (r' & Hr' & <-). by apply Hkeep.
    + intros id' Hx. destruct (Hsu id' Hx) as (? & ? & Htm). split_and!; [done|done|].
      intros r'. cbn. rewrite lookup_insert_Some. intros [[<- <-]|[_ ?]]; auto.
  - intros id' r'. rewrite lookup_insert_Some. intros [[<- <-]|[_ Hl']] HX.
    + destruct (Hr id r Hl HX) as (e & ? & ? & ?). exists e. by split_and!.
    + by apply Hr.
  - intros it cb Hc. specialize (Hi it cb Hc). destruct cb as [id'|]; cbn in *; [|done].
    destruct Hi as (r' & e & Hr' & Hle & ? & ?). destruct (Hkeep id' r' Hr') as (r2 & Hr2 & Heq).
    exists r2, e. rewrite Heq. by split_and!.
  - intros id' Hid. rewrite lookup_insert_ne; [auto|]. intros <-. rewrite Hf in Hl by done. done.
Qed.

(** The entry waits for its timer. *)
Lemma vinv_suspend s h e id :
  vinv (Some h) None s → cache s !! h = Some e → pipeline_item e = None →
  id ∈ pending_requests e → h ∉ timed_cache s →
  (∀ id' r', requests s !! id' = Some r' → r_entry r' = h → timer_id r' = false) →
  vinv None None (with_tables s (<[h := with_suspended (Some id) e]> (cache s)) (timed_cache s) (requests s)).
Proof.
  intros Hinv Hl Hno Hin Hheap Htm. pose proof Hinv as [He _ _ _ _ _ _ _ _ _ _ _].
  destruct (He h e Hl) as [Hnd Hpd Hit Hsu Hva Han].
  assert (vinv (Some h) None (with_tables s (<[h := with_suspended (Some id) e]> (cache s))
    (timed_cache s) (requests s))) as H1.
  { eapply vinv_put_entry; [exact Hinv|exact Hl| |done|done|done|done]. split; try done.
    intros id' [= <-]. split_and!; [done|done|]. intros r Hr. destruct (Hpd id Hin) as (r' & ? & ?).
    apply (Htm id r Hr). congruence. }
  destruct H1 as [He1 Hr1 Hg1 Hi1]. split; try assumption.
  - intros h' e' Hl'. destruct (He1 h' e' Hl'). split; try done. intros Hp _.
    cbn in Hl'. rewrite lookup_insert_Some in Hl'. destruct Hl' as [[<- <-]|[Hne Hl']]; [by right|].
    apply eo_answer0; [done|congruence].
  - intros id' r' Hr' HX. destruct (Hr1 id' r' Hr' HX) as (e' & ? & ? & Ht). exists e'.
    split_and!; [done|done|]. intros Hx _. apply Ht; [done|]. intros [= Heq].
    rewrite (Htm id' r' Hr' (eq_sym Heq)) in Hx. done.
Qed.

(** A vCard that will expire. *)
Lemma vinv_heap_add D s h e :
  vinv D None s → cache s !! h = Some e → vcard_node e ≠ None → pipeline_item e = None →
  suspended_timer_id e = None → valid (contact_repo s) h = true → h ∉ timed_cache s →
  vinv D None (mkManager (cache s) (timed_cache s ++ [h]) true (have_self_avatar s) (edits s)
    (edit_pipeline_item s) (edit_requests s) (patched_vcard s) (requests s) (next_id s)
    (pipeline s) (next_item s) (qdata s) (contact_repo s) (events s)).
Proof.
  intros [He Hr Hg Hi Hs Hpa Hh Hn Ht Hw Hf Hfi] Hl Hv Hno Hsu Hva Hnot. split; cbn; try done.
  - intros h' e' Hl'. by eapply entry_ok_ext; [exact (He h' e' Hl')|..].
  - intros h'. rewrite elem_of_app, list_elem_of_singleton. intros [Hin| ->]; [by apply Hh|].
    split; [done|]. by exists e.
  - apply NoDup_app. split_and!; [done| |apply NoDup_singleton]. intros x Hx ->%list_elem_of_singleton.
    done.
Qed.

(** What the manager takes as the answer: the <vCard/> or an empty one. *)
Definition vcard_of (msg : WockyNode) : WockyNode :=
  default (mkNode "vCard" None (Some NS_VCARD_TEMP) [] []) (wocky_node_get_child msg "vCard").

Definition is_success (error : option reply_error) : bool :=
  match error with Some (mkError false _) => false | _ => true end.

Definition is_wait (reply : option WockyNode) (error : option reply_error) : bool :=
  match error with Some (mkError false w) => bool_decide (is_Some reply) && w | _ => false end.

(** What an item that waits for a vCard is known to be. *)
Lemma item_request s it id :
  vinv None None s → pipeline s !! it = Some (PipelineReplyCb id) →
  ∃ r e, requests s !! id = Some r ∧ cache s !! r_entry r = Some e ∧ pipeline_item e = Some it ∧
    suspended_timer_id e = None ∧ id ∈ pending_requests e ∧
    valid (contact_repo s) (r_entry r) = true ∧ r_entry r ∉ timed_cache s.
Proof.
  intros Hinv Hp. destruct (v_items _ _ _ Hinv it _ Hp) as (r & e & Hr & Hl & Hit & Hin).
  exists r, e. pose proof (v_entries _ _ _ Hinv _ e Hl) as Heo. split_and!; try done.
  - destruct (suspended_timer_id e) as [id'|] eqn:Es; [|done].
    destruct (eo_susp _ _ _ _ Heo id' Es). congruence.
  - apply (eo_valid _ _ _ _ Heo). intros Hz. rewrite Hz in Hin. by apply elem_of_nil in Hin.
  - intros Hx. destruct (v_heap _ _ _ Hinv _ Hx) as (_ & e' & ? & _ & ? & _). congruence.
Qed.

(** The part all replies share. *)
Definition reply_body (c : Conn) (id : Z) (r : GabbleVCardManagerRequest) e
    (reply_msg : option WockyNode) (error : option reply_error) : MV unit :=
  let h := r_entry r in
  match error with
  | Some (mkError false wait) =>
      if bool_decide (is_Some reply_msg) && wait then
        put_request id (with_timer false r) ;;
        put_entry h (with_suspended (Some id) e)
      else
        s ← get;
        when ((h =? self) && bool_decide (length (edits s) ≠ O))
          (put_edits [] ;; replace_reply_cb self c true) ;;
        cache_entry_complete_requests b64 sha1 self h true
  | _ =>
      match reply_msg with
      | None => fail AssertFailed
      | Some msg =>
          put_entry h (with_expires (time c + VCARD_CACHE_ENTRY_TTL)
            (with_vcard (Some (vcard_of msg)) e)) ;;
          s ← get;
          put_timed_cache (timed_cache s ++ [h]) true ;;
          when (h =? self) (manager_patch_vcard c (vcard_of msg)) ;;
          observe_vcard h (vcard_of msg) ;;
          cache_entry_complete_requests b64 sha1 self h false
      end
  end.

Lemma answers_request c s it id r e reply error :
  vinv None None s → pipeline s !! it = Some (PipelineReplyCb id) → requests s !! id = Some r →
  cache s !! r_entry r = Some e → pipeline_item e = Some it → suspended_timer_id e = None →
  valid (contact_repo s) (r_entry r) = true →
  pipeline_answers b64 sha1 self c it reply error s =
  reply_body c id r (with_item None e) reply error (taken s it (r_entry r) e).
Proof.
  intros Hinv Hp Hr Hl Hit Hsu Hv. unfold pipeline_answers.
  rewrite (bind_eq _ _ s s s) by reflexivity. rewrite Hp.
  erewrite bind_eq by reflexivity. unfold pipeline_reply_cb. set (s1 := mkManager _ _ _ _ _ _ _ _ _ _ _ _ _ _ _).
  rewrite (bind_eq _ _ s1 r s1) by (unfold get_request, mbind, M_bind, get; cbn; by rewrite Hr).
  cbv zeta.
  rewrite (bind_eq _ _ s1 e s1) by (unfold get_entry, mbind, M_bind, get; cbn; by rewrite Hl).
  rewrite (bind_eq _ _ s1 true s1)
    by (unfold VCardManager.handle_is_valid, mbind, M_bind, get; cbn; by rewrite Hv).
  rewrite (bind_eq _ _ s1 tt s1) by reflexivity.
  rewrite (bind_eq _ _ s1 tt s1) by (by rewrite Hit).
  rewrite (bind_eq _ _ s1 tt s1) by (by rewrite Hsu).
  by erewrite bind_eq by reflexivity.
Qed.

(** Where the edits of our vCard stand. *)
Lemma edits_ok_settled s : edits s = [] ∨ edit_pipeline_item s ≠ None → edits_ok s.
Proof. intros [H1|H1] H2; [done|by left]. Qed.

Lemma edits_ok_mono s s' :
  edits_ok s → edits s' = edits s → edit_pipeline_item s' = edit_pipeline_item s →
  (∀ e, cache s !! self = Some e → pending_requests e ≠ [] →
    ∃ e', cache s' !! self = Some e' ∧ pending_requests e' ≠ []) → edits_ok s'.
Proof.
  unfold edits_ok. intros Hok -> -> Hc Hne. destruct (Hok Hne) as [?|(e & ? & ?)]; [by left|right; eauto].
Qed.

(** The requests of [h] were answered, and no others. *)
Definition served (h : Z) s0 s : Prop :=
  ∀ id r, requests s !! id = Some r ↔ requests s0 !! id = Some r ∧ r_entry r ≠ h.

Lemma completing_served h s0 s : completing h [] s0 s → served h s0 s.
Proof.
  intros (Hinv & _ & _ & Hent & _ & _ & Hkeep & Hsub & _) id r. split; [|intros [? ?]; by apply Hkeep].
  intros Hr. split; [by eapply lookup_weaken|]. intros Heq.
  destruct (v_requests _ _ _ Hinv id r Hr ltac:(done)) as (e & Hl & Hin & _). rewrite Heq in Hl.
  destruct (Hent e Hl) as (Hp & _). rewrite Hp in Hin. by apply elem_of_nil in Hin.
Qed.

Lemma completing_edits_ok h s0 s :
  completing h [] s0 s → (h ≠ self → edits_ok s0) → edits_ok s.
Proof.
  intros (_ & _ & _ & _ & Hoth & _ & _ & _ & Hself & Hed & Hit & _) Hok.
  destruct (decide (h = self)) as [Heq|Hne]; [by apply edits_ok_settled, Hself|].
  eapply edits_ok_mono; [by apply Hok|done|done|]. intros e Hl Hp. rewrite Hoth by congruence. eauto.
Qed.

(** The entry with its new vCard. *)
Definition cached_entry (c : Conn) e (v : WockyNode) : GabbleVCardCacheEntry :=
  with_expires (time c + VCARD_CACHE_ENTRY_TTL) (with_vcard (Some v) (with_item None e)).

Definition arrived s (it h : Z) e : Manager :=
  mkManager (<[h := e]> (cache s)) (timed_cache s ++ [h]) true
    (have_self_avatar s) (edits s) (edit_pipeline_item s) (edit_requests s) (patched_vcard s)
    (requests s) (next_id s) (delete it (pipeline s)) (next_item s) (qdata s)
    (contact_repo s) (events s).

Lemma arrived_vinv c s it id r e v :
  vinv None None s → pipeline s !! it = Some (PipelineReplyCb id) → cache s !! r_entry r = Some e →
  pipeline_item e = Some it → suspended_timer_id e = None →
  valid (contact_repo s) (r_entry r) = true → r_entry r ∉ timed_cache s →
  vinv (Some (r_entry r)) None (arrived s it (r_entry r) (cached_entry c e v)).
Proof.
  intros Hinv Hp Hl Hit Hsu Hv Hheap.
  pose proof (taken_vinv s it _ e id Hinv Hp Hl Hit) as H1.
  pose proof (vinv_put_vcard _ _ _ (r_entry r) (with_item None e) (Some v)
    (time c + VCARD_CACHE_ENTRY_TTL) H1 ltac:(apply lookup_insert_eq) ltac:(done)) as H2.
  pose proof (vinv_heap_add _ _ (r_entry r) (cached_entry c e v) H2 ltac:(apply lookup_insert_eq)
    ltac:(done) eq_refl Hsu Hv Hheap) as H3.
  unfold arrived. cbn in H3. by rewrite insert_insert_eq in H3.
Qed.

Lemma reply_body_ok c s it id r e msg error :
  is_success error = true →
  reply_body c id r (with_item None e) (Some msg) error (taken s it (r_entry r) e) =
  (when (r_entry r =? self) (manager_patch_vcard c (vcard_of msg)) ;;
   observe_vcard (r_entry r) (vcard_of msg) ;;
   cache_entry_complete_requests b64 sha1 self (r_entry r) false)
    (arrived s it (r_entry r) (cached_entry c e (vcard_of msg))).
Proof.
  intros Hs. unfold reply_body.
  destruct error as [[[] ?]|]; try discriminate Hs; unfold put_entry;
    (erewrite bind_eq by (erewrite bind_eq by reflexivity; reflexivity));
    (erewrite bind_eq by reflexivity); (erewrite bind_eq by reflexivity);
    unfold taken, arrived; cbn [cache]; by rewrite insert_insert_eq.
Qed.

Lemma reply_ok_wp c s it id r e msg error :
  vinv None None s → edits_ok s → pipeline s !! it = Some (PipelineReplyCb id) →
  requests s !! id = Some r → cache s !! r_entry r = Some e → is_success error = true →
  wp (pipeline_answers b64 sha1 self c it (Some msg) error) (λ _ s',
    let h := r_entry r in let v := vcard_of msg in
    vinv None None s' ∧ edits_ok s' ∧ served h s s' ∧
    cache s' !! h = Some (with_pending [] (cached_entry c e v)) ∧ h ∈ timed_cache s' ∧
    next_id s' = next_id s ∧
    events s' = events s ++ (if h =? self then patch_events c s v else []) ++
      observed_events s h v ++ completions s (pending_requests e) (Some v)) s.
Proof.
  intros Hinv Hok Hp Hr Hl Hsucc.
  destruct (item_request s it id Hinv Hp) as (r' & e' & Hr' & Hl' & Hit & Hsu & Hin & Hv & Hheap).
  assert (r' = r) as -> by congruence. assert (e' = e) as -> by congruence. clear Hr' Hl'.
  pose proof (arrived_vinv c s it id r e (vcard_of msg) Hinv Hp Hl Hit Hsu Hv Hheap) as H1.
  set (h := r_entry r) in *. set (v := vcard_of msg) in *.
  unfold wp. rewrite (answers_request c s it id r e), reply_body_ok by done.
  fold h v. set (s1 := arrived s it h (cached_entry c e v)) in *.
  change (wp (when (h =? self) (manager_patch_vcard c v) ;; observe_vcard h v ;;
    cache_entry_complete_requests b64 sha1 self h false) (λ _ s',
    vinv None None s' ∧ edits_ok s' ∧ served h s s' ∧
    cache s' !! h = Some (with_pending [] (cached_entry c e v)) ∧ h ∈ timed_cache s' ∧
    next_id s' = next_id s ∧
    events s' = events s ++ (if h =? self then patch_events c s v else []) ++
      observed_events s h v ++ completions s (pending_requests e) (Some v)) s1).
  apply wp_bind. eapply (wp_mono _ (λ _ s2, vinv (Some h) None s2 ∧ same_tables s1 s2 ∧
    events s2 = events s ++ (if h =? self then patch_events c s v else []) ∧
    (h = self → edits s2 = [] ∨ edit_pipeline_item s2 ≠ None) ∧ (h ≠ self → edits_ok s2))).
  2: { destruct (Z.eqb_spec h self) as [Heq|Hne]; cbn [when].
       - eapply wp_mono; [|by apply (patch_wp (Some h) None c v s1)].
         intros [] s2 (Ha & Hb & Hc & Hd). by split_and!.
       - apply wp_ret. rewrite app_nil_r. split_and!; try done.
         intros _. eapply edits_ok_mono; [exact Hok|done|done|]. intros e' Hl' Hp'. exists e'.
         split; [|done]. unfold s1. cbn. by rewrite lookup_insert_ne. }
  intros [] s2 (H2 & Hsame & Hev & Hself & Hok2). eapply wp_known; [apply observe_spec|].
  destruct Hsame as (Hca & Htc & _ & Hre & Hnx & Hco & Hq).
  assert (cache (observed s2 h v) !! h = Some (cached_entry c e v)) as Hl2.
  { cbn. rewrite Hca. apply lookup_insert_eq. }
  eapply wp_mono; [|apply (complete_requests_wp h _ false _ (observed_vinv _ _ _ h v H2) Hl2)]; try done.
  intros [] s3 [H3 He3]. split_and!.
  - by eapply completing_done.
  - by eapply completing_edits_ok.
  - intros id' r'. by rewrite (completing_served _ _ _ H3 id' r'); cbn; rewrite Hre.
  - destruct H3 as (_ & _ & _ & Hent & _ & Hcard & _). destruct (Hcard _ v Hl2 eq_refl) as [l' Hl3].
    destruct (Hent _ Hl3) as (Hz & _). cbn in Hz. by rewrite Hl3, Hz.
  - assert (timed_cache s3 = timed_cache s2) as -> by apply H3. rewrite Htc. apply elem_of_app. right.
    by left.
  - transitivity (next_id s2); [apply H3|done].
  - rewrite He3. change (events (observed s2 h v)) with (events s2 ++ observed_events s2 h v).
    replace (observed_events s2 h v) with (observed_events s h v)
      by (unfold observed_events, alias_kept, gabble_vcard_manager_get_cached_alias; by rewrite Hq, Hco).
    replace (completions (observed s2 h v)) with (completions s) by (unfold completions; cbn; by rewrite Hre).
    by rewrite Hev, <- !app_assoc.
Qed.

(** A temporary error: the request is kept for later. *)
Definition suspended s (it id : Z) (r : GabbleVCardManagerRequest) e : Manager :=
  let s1 := taken s it (r_entry r) e in
  with_tables s1 (<[r_entry r := with_suspended (Some id) (with_item None e)]> (cache s1))
    (timed_cache s1) (<[id := with_timer false r]> (requests s1)).

Lemma reply_wait_spec c s it id r e reply error :
  vinv None None s → pipeline s !! it = Some (PipelineReplyCb id) →
  requests s !! id = Some r → cache s !! r_entry r = Some e → is_wait reply error = true →
  pipeline_answers b64 sha1 self c it reply error s = Ok (tt, suspended s it id r e) ∧
  vinv None None (suspended s it id r e).
Proof.
  intros Hinv Hp Hr Hl Hwait.
  destruct (item_request s it id Hinv Hp) as (r' & e' & Hr' & Hl' & Hit & Hsu & Hin & Hv & Hheap).
  assert (r' = r) as -> by congruence. assert (e' = e) as -> by congruence. clear Hr' Hl'. split.
  - rewrite (answers_request c s it id r e) by done. unfold reply_body.
    destruct error as [[[] w]|]; try discriminate Hwait. cbn [is_wait] in Hwait. rewrite Hwait. done.
  - pose proof (taken_vinv s it _ e id Hinv Hp Hl Hit) as H1.
    pose proof (vinv_stop_timer _ _ id r H1 Hr) as H2.
    refine (vinv_suspend _ (r_entry r) (with_item None e) id H2 _ eq_refl Hin Hheap _);
      [apply lookup_insert_eq|].
    intros id' r'. cbn. rewrite lookup_insert_Some. intros [[<- <-]|[Hne Hr']] Hrh; [done|].
    destruct (v_requests _ _ _ Hinv id' r' Hr' ltac:(done)) as (e' & Hl' & _ & Ht).
    rewrite Hrh, Hl in Hl'. injection Hl' as <-. destruct (timer_id r'); [|done].
    destruct (Ht eq_refl) as (it' & Hit' & Hp'); [done|]. congruence.
Qed.

(** An error: what it shows of the edits that waited for our vCard. *)
Definition lost_edits s (h : Z) : list vcard_event :=
  if (h =? self) && bool_decide (length (edits s) ≠ O) then edit_callbacks true (edit_requests s) else [].

Definition fail_edits s : Manager :=
  edit_failed (mkManager (cache s) (timed_cache s) (cache_timer s) (have_self_avatar s) []
    (edit_pipeline_item s) (edit_requests s) (patched_vcard s) (requests s) (next_id s)
    (pipeline s) (next_item s) (qdata s) (contact_repo s) (events s)).

Lemma fail_edits_vinv D s : vinv D None s → edit_pipeline_item s = None → vinv D None (fail_edits s).
Proof.
  intros Hinv Hno. apply (edit_failed_vinv _ s), (vinv_unedit _ _ _ (patched_vcard s)).
  eapply vinv_same; [exact Hinv|].
  unfold same. cbn. rewrite Hno. by split_and!.
Qed.

(** Our edits are not lost on the way: a failure to fetch our own vCard while
    one SET is under way and other edits wait is what the guard excludes. *)
Definition may_fail s (h : Z) : Prop := h = self → edits s ≠ [] → edit_pipeline_item s = None.

Lemma reply_error_wp c s it id r e reply error :
  vinv None None s → edits_ok s → pipeline s !! it = Some (PipelineReplyCb id) →
  requests s !! id = Some r → cache s !! r_entry r = Some e → is_success error = false →
  is_wait reply error = false → may_fail s (r_entry r) →
  wp (pipeline_answers b64 sha1 self c it reply error) (λ _ s',
    let h := r_entry r in
    vinv None None s' ∧ edits_ok s' ∧ served h s s' ∧ next_id s' = next_id s ∧
    (h = self → edits s ≠ [] → edits s' = [] ∧ edit_requests s' = []) ∧
    events s' = events s ++ lost_edits s h ++ completions s (pending_requests e) None) s.
Proof.
  intros Hinv Hok Hp Hr Hl Hfail Hnow Hmay.
  destruct (item_request s it id Hinv Hp) as (r' & e' & Hr' & Hl' & Hit & Hsu & Hin & Hv & Hheap).
  assert (r' = r) as -> by congruence. assert (e' = e) as -> by congruence. clear Hr' Hl'.
  pose proof (taken_vinv s it _ e id Hinv Hp Hl Hit) as H1.
  unfold wp. rewrite (answers_request c s it id r e) by done. unfold reply_body.
  destruct error as [[[] w]|]; try discriminate Hfail. cbn [is_wait] in Hnow. rewrite Hnow.
  set (h := r_entry r) in *. cbv zeta. set (s1 := taken s it h e) in *.
  rewrite (bind_eq _ _ s1 s1 s1) by reflexivity.
  set (lost := (h =? self) && bool_decide (length (edits s1) ≠ O)).
  set (s2 := if lost then fail_edits s1 else s1).
  rewrite (bind_eq _ _ s1 tt s2).
  2: { unfold s2. destruct lost; [|done]. cbn [when]. erewrite bind_eq by reflexivity.
       by rewrite replace_reply_error_spec. }
  assert (vinv (Some h) None s2 ∧ (h = self → edits s2 = [] ∨ edit_pipeline_item s2 ≠ None) ∧
    (h ≠ self → edits_ok s2) ∧ cache s2 = cache s1 ∧ requests s2 = requests s1 ∧
    next_id s2 = next_id s ∧ (h = self → edits s ≠ [] → edits s2 = [] ∧ edit_requests s2 = []) ∧
    events s2 = events s ++ lost_edits s h) as (H2 & Hself & Hok2 & Hca & Hre & Hnx & Hlost & Hev).
  { unfold s2, lost, lost_edits. change (edits s1) with (edits s).
    destruct (Z.eqb_spec h self) as [Heq|Hne]; cbn [andb].
    - destruct (edits s) as [|i l] eqn:Ee; cbn [length].
      + rewrite bool_decide_eq_false_2 by tauto. rewrite app_nil_r. split_and!; try done. intros _. by left.
      + rewrite bool_decide_eq_true_2 by done. split_and!; try done; [|by left|].
        * apply fail_edits_vinv; [done|]. by apply Hmay; [|rewrite Ee].
        * intros _ _. split; [done|]. apply unanswered_error.
    - rewrite app_nil_r. split_and!; try done. intros _.
      eapply edits_ok_mono; [exact Hok|done|done|]. intros e' Hl' Hp'. exists e'. split; [|done].
      unfold s1. cbn. by rewrite lookup_insert_ne. }
  assert (cache s2 !! h = Some (with_item None e)) as Hl2 by (rewrite Hca; apply lookup_insert_eq).
  pose proof (complete_requests_wp h _ true s2 H2 Hl2 eq_refl Hsu Hself) as Hwp. unfold wp in Hwp.
  destruct (cache_entry_complete_requests _ _ _ _ _ s2) as [[[] s3]|]; [|done].
  destruct Hwp as [H3 He3]. split_and!.
  - by eapply completing_done.
  - by eapply completing_edits_ok.
  - intros id' r'. by rewrite (completing_served _ _ _ H3 id' r'); cbn; rewrite Hre.
  - transitivity (next_id s2); [apply H3|done].
  - intros Heq Hne. destruct (Hlost Heq Hne) as [<- <-]. split; apply H3.
  - rewrite He3, Hev, <- app_assoc. do 2 f_equal. unfold completions. by rewrite Hre.
Qed.

(** *** The cache *)

Lemma vinv_heap_remove D s h :
  vinv D None s → vinv D None (with_tables s (cache s) (drop_id h (timed_cache s)) (requests s)).
Proof.
  intros [He Hr Hg Hi Hs Hpa Hh Hn Ht Hw Hf Hfi]. split; cbn; try done.
  - intros h' e Hl. by eapply entry_ok_ext; [exact (He h' e Hl)|..].
  - intros h' Hin%drop_id_subseteq. by apply Hh.
  - by apply NoDup_drop_id.
  - intros Hc. by rewrite (Ht Hc).
Qed.

Definition invalidated s (h : Z) e : Manager :=
  let e' := with_vcard None e in
  with_tables s (if frees e' then delete h (cache s) else <[h := e']> (cache s))
    (drop_id h (timed_cache s)) (requests s).

Lemma not_in_dropped D s h : vinv D None s → h ∉ drop_id h (timed_cache s).
Proof. intros Hinv Hin. by apply elem_of_drop_id in Hin as [_ []]; [|apply Hinv]. Qed.

Lemma invalidate_spec s h e :
  vinv None None s → edits_ok s → valid (contact_repo s) h = true → cache s !! h = Some e →
  gabble_vcard_manager_invalidate_cache self h s = Ok (tt, invalidated s h e) ∧
  vinv None None (invalidated s h e).
Proof.
  intros Hinv Hok Hv Hl. pose proof (not_in_dropped _ s h Hinv) as Hnot.
  set (e' := with_vcard None e).
  set (s1 := with_tables s (cache s) (drop_id h (timed_cache s)) (requests s)).
  set (s2 := with_tables s (<[h := e']> (cache s)) (drop_id h (timed_cache s)) (requests s)).
  assert (vinv None None s2) as H2.
  { pose proof (vinv_put_vcard _ _ s1 h e None (expires e) (vinv_heap_remove _ _ h Hinv) Hl
      ltac:(done)) as H2. by destruct e. }
  assert (cache s2 !! h = Some e') as Hl2 by apply lookup_insert_eq.
  pose proof (attempt_to_free_spec _ _ s2 h e' H2 Hl2) as Hfree.
  pose proof (attempt_to_free_vinv _ _ s2 h e' H2 Hl2) as H3.
  assert ((if frees e' then with_tables s2 (delete h (cache s2)) (timed_cache s2) (requests s2) else s2) =
    invalidated s h e) as Heq.
  { unfold invalidated, s2, with_tables. fold e'. destruct (frees e'); cbn; by rewrite ?delete_insert_eq. }
  rewrite Heq in *. split; [|done]. unfold gabble_vcard_manager_invalidate_cache.
  rewrite (bind_eq _ _ s true s)
    by (unfold VCardManager.handle_is_valid, mbind, M_bind, get; by rewrite Hv).
  rewrite (bind_eq _ _ s s s) by reflexivity. cbn [negb]. rewrite Hl.
  rewrite (bind_eq _ _ s tt s1) by reflexivity.
  rewrite (bind_eq _ _ s1 e s1) by (unfold get_entry, mbind, M_bind, get; cbn; by rewrite Hl).
  rewrite (bind_eq _ _ s1 tt s2) by reflexivity. apply Hfree. intros -> Hp.
  destruct (edits s) as [|i l] eqn:Ee; [by left|right]. destruct Hok as [?|(e2 & Hl' & Hp')]; [congruence|done|].
  cbn in Hp. congruence.
Qed.

Lemma edits_ok_invalidated s h e :
  edits_ok s → cache s !! h = Some e → edits_ok (invalidated s h e).
Proof.
  intros Hok Hl. eapply edits_ok_mono; [exact Hok|done|done|]. intros e2 Hl2 Hp2. cbn.
  destruct (decide (self = h)) as [Heq|Hne].
  - rewrite Heq, Hl in Hl2. injection Hl2 as ->. rewrite Heq. unfold frees. cbn.
    rewrite (bool_decide_eq_false_2 (pending_requests e2 = [])) by done. rewrite andb_false_r.
    rewrite lookup_insert_eq. by eexists.
  - exists e2. split; [|done]. destruct (frees _); [by rewrite lookup_delete_ne|by rewrite lookup_insert_ne].
Qed.

Lemma first_to_expire_none s l : first_to_expire s l = None → l = [].
Proof. destruct l as [|h l]; [done|]. cbn. destruct (first_to_expire s l); [|done]. by destruct (_ <=? _). Qed.

Lemma first_to_expire_least s l h :
  first_to_expire s l = Some h → h ∈ l ∧ ∀ h', h' ∈ l → expiry s h <= expiry s h'.
Proof.
  revert h. induction l as [|x l IH]; intros h; [done|]. cbn.
  destruct (first_to_expire s l) as [y|] eqn:Ey.
  - destruct (IH y eq_refl) as [Hin Hle]. destruct (Z.leb_spec (expiry s x) (expiry s y)); intros [= <-].
    + split; [by left|]. intros h' [->|Hh]%elem_of_cons; [lia|]. specialize (Hle h' Hh). lia.
    + split; [by right|]. intros h' [->|Hh]%elem_of_cons; [lia|auto].
  - intros [= <-]. apply first_to_expire_none in Ey as ->. split; [by left|].
    intros h' [->|Hh]%elem_of_cons; [lia|]. by apply elem_of_nil in Hh.
Qed.

(** Nothing waits for an entry in the heap. *)
Lemma heap_entry s h :
  vinv None None s → h ∈ timed_cache s →
  valid (contact_repo s) h = true ∧ ∃ e, cache s !! h = Some e ∧ vcard_node e ≠ None ∧
    pipeline_item e = None ∧ pending_requests e = [] ∧ frees (with_vcard None e) = true.
Proof.
  intros Hinv Hin. destruct (v_heap _ _ _ Hinv h Hin) as (Hv & e & Hl & Hc & Hit & Hsu). split; [done|].
  exists e. assert (pending_requests e = []) as Hp.
  { destruct (pending_requests e) as [|x l] eqn:Ep; [done|].
    destruct (eo_answer _ _ _ _ (v_entries _ _ _ Hinv h e Hl)) as [?|?]; [by rewrite Ep|done|done|done]. }
  split_and!; try done. unfold frees. cbn. by rewrite Hit, Hp.
Qed.

(** What is left of the cache when the timer has fired: [t] is the time. *)
Record purged (t : Z) s s' : Prop := {
  pu_vinv : vinv None None s';
  pu_edits : edits_ok s';
  pu_left h : h ∈ timed_cache s' ↔ h ∈ timed_cache s ∧ t < expiry s h;
  pu_gone h : h ∈ timed_cache s → expiry s h <= t → cache s' !! h = None;
  pu_kept h : h ∉ timed_cache s ∨ t < expiry s h → cache s' !! h = cache s !! h;
  pu_requests : requests s' = requests s;
  pu_next : next_id s' = next_id s;
  pu_events : events s' = events s;
}.

Lemma purged_trans t s1 s2 s3 h :
  h ∈ timed_cache s1 → expiry s1 h <= t → NoDup (timed_cache s1) →
  s2 = with_tables s1 (delete h (cache s1)) (drop_id h (timed_cache s1)) (requests s1) →
  purged t s2 s3 → purged t s1 s3.
Proof.
  intros Hin Hexp Hnd -> [H1 H2 Hl Hg Hk Hr Hnx He].
  assert (∀ h', h' ∈ drop_id h (timed_cache s1) ↔ h' ∈ timed_cache s1 ∧ h' ≠ h) as Hdrop
    by (intros h'; by apply elem_of_drop_id).
  assert (∀ h', h' ≠ h → expiry (with_tables s1 (delete h (cache s1)) (drop_id h (timed_cache s1))
    (requests s1)) h' = expiry s1 h') as Hsame.
  { intros h' Hne. unfold expiry. cbn. by rewrite lookup_delete_ne. }
  cbn [timed_cache with_tables cache] in *.
  split; try done.
  - intros h'. rewrite Hl. destruct (decide (h' = h)) as [->|Hne].
    + split; [by intros [[_ ?]%Hdrop _]|]. intros [_ ?]. lia.
    + rewrite Hdrop, Hsame by done. naive_solver.
  - intros h' Hin' Hx. destruct (decide (h' = h)) as [->|Hne].
    + rewrite Hk; [apply lookup_delete_eq|]. left. by intros [_ ?]%Hdrop.
    + apply Hg; [by apply Hdrop|]. by rewrite Hsame.
  - intros h' Hx. destruct (decide (h' = h)) as [->|Hne]; [destruct Hx; [done|lia]|].
    rewrite Hk; [by apply lookup_delete_ne|]. rewrite Hdrop, Hsame by done. naive_solver.
Qed.

Lemma expire_loop_wp c n s :
  vinv None None s → edits_ok s → (length (timed_cache s) < n)%nat →
  wp (expire_loop self c n) (λ _ s', purged (time c) s s') s.
Proof.
  revert s. induction n as [|n IH]; intros s Hinv Hok Hlen; [lia|]. cbn [expire_loop].
  eapply wp_known; [done|]. destruct (first_to_expire s (timed_cache s)) as [h|] eqn:Ef.
  2: { apply first_to_expire_none in Ef. apply wp_ret. split; try done; rewrite Ef.
       - intros h. rewrite elem_of_nil. tauto.
       - by intros h ?%elem_of_nil. }
  destruct (first_to_expire_least _ _ _ Ef) as [Hin Hleast].
  destruct (heap_entry s h Hinv Hin) as (Hv & e & Hl & Hc & Hit & Hp & Hfr).
  assert (expiry s h = expires e) as Hexp by (unfold expiry; by rewrite Hl).
  eapply wp_known; [unfold get_entry, mbind, M_bind, get; by rewrite Hl|].
  destruct (Z.ltb_spec (time c) (expires e)) as [Hlt|Hge].
  { apply wp_ret. split; try done; intros h'; [split; [|naive_solver]|]; intros Hx;
      specialize (Hleast h' Hx); [split; [done|]|intros ?]; lia. }
  rewrite Hit. eapply wp_known; [done|].
  destruct (invalidate_spec s h e Hinv Hok Hv Hl) as [Hrun H2]. eapply wp_known; [exact Hrun|].
  eapply wp_mono; [|apply IH; [done|by apply edits_ok_invalidated|]].
  - intros [] s3 H3. eapply (purged_trans _ s _ s3 h); [done|lia|apply Hinv| |exact H3].
    unfold invalidated. by rewrite Hfr.
  - unfold invalidated. cbn. rewrite (length_drop_id h) in Hlen by done. lia.
Qed.

Lemma cache_timeout_wp c s :
  vinv None None s → edits_ok s →
  wp (cache_entry_timeout self c) (λ _ s', purged (time c) s s' ∧
    cache_timer s' = bool_decide (timed_cache s' ≠ [])) s.
Proof.
  intros Hinv Hok. unfold cache_entry_timeout. eapply wp_known; [done|]. apply wp_bind.
  eapply wp_mono; [|apply expire_loop_wp; [done|done|lia]]. intros [] s1 [H1 H2 Hl Hg Hk Hr Hnx He].
  eapply wp_known; [done|]. apply wp_modify. split; [|done]. split; try done.
  destruct H1 as [He1 Hr1 Hg1 Hi1 Hs1 Hpa1 Hh1 Hn1 Ht1 Hw1 Hf1 Hfi1]. split; cbn; try done.
  - intros h e Hle. by eapply entry_ok_ext; [exact (He1 h e Hle)|..].
  - rewrite bool_decide_eq_false. intros Hx. destruct (timed_cache s1); [done|]. by exfalso; apply Hx.
Qed.

(** *** The reply to an edit *)

Definition without_item s (it : Z) : Manager :=
  mkManager (cache s) (timed_cache s) (cache_timer s) (have_self_avatar s) (edits s)
    (edit_pipeline_item s) (edit_requests s) (patched_vcard s) (requests s) (next_id s)
    (delete it (pipeline s)) (next_item s) (qdata s) (contact_repo s) (events s).

Lemma set_taken_vinv s it p :
  vinv None None s → pipeline s !! it = Some ReplaceReplyCb →
  vinv None None (unedit (without_item s it) p).
Proof.
  intros [He Hr Hg Hi Hs Hpa Hh Hn Ht Hw Hf Hfi] Hp. pose proof (Hi it _ Hp) as Hit. cbn in Hit.
  assert (∀ it' id, pipeline s !! it' = Some (PipelineReplyCb id) →
    delete it (pipeline s) !! it' = Some (PipelineReplyCb id)) as Hkeep.
  { intros it' id Hp'. rewrite lookup_delete_ne; [done|]. congruence. }
  split; cbn; try done.
  - intros h e Hl. eapply entry_ok_ext; [exact (He h e Hl)|done|done| |done]. cbn. auto.
  - intros id r Hl HX. destruct (Hr id r Hl HX) as (e & ? & ? & Htm). exists e. split_and!; [done|done|].
    intros Hx HD. destruct (Htm Hx HD) as (it' & ? & ?). cbn. eauto.
  - intros it' cb. rewrite lookup_delete_Some. intros [Hne Hp']. specialize (Hi it' cb Hp').
    destruct cb; cbn in *; [done|]. congruence.
  - intros it' Hx. rewrite lookup_delete_None. auto.
Qed.

Lemma set_reply_error_spec c s it reply err :
  vinv None None s → pipeline s !! it = Some ReplaceReplyCb →
  pipeline_answers b64 sha1 self c it reply (Some err) s = Ok (tt, edit_failed (without_item s it)) ∧
  vinv None None (edit_failed (without_item s it)) ∧ edits_ok (edit_failed (without_item s it)).
Proof.
  intros Hinv Hp. split_and!.
  - unfold pipeline_answers. rewrite (bind_eq _ _ s s s) by reflexivity. rewrite Hp.
    rewrite (bind_eq _ _ s tt (without_item s it)) by reflexivity. apply replace_reply_error_spec.
  - by apply edit_failed_vinv, set_taken_vinv.
  - apply edits_ok_settled. by left.
Qed.

Lemma set_reply_ok_wp c s it reply :
  vinv None None s → pipeline s !! it = Some ReplaceReplyCb →
  ∃ v, patched_vcard s = Some v ∧
  wp (pipeline_answers b64 sha1 self c it reply None) (λ _ s',
    vinv None None s' ∧ edits_ok s' ∧
    cache s' = <[self := with_vcard (Some v) (entry_of s self)]> (cache s) ∧
    requests s' = requests s ∧ next_id s' = next_id s ∧
    events s' = events s ++ observed_events s self v ++ edit_callbacks false (edit_requests s) ++
      patch_events c (unedit s None) v) s.
Proof.
  intros Hinv Hp. pose proof (v_items _ _ _ Hinv it _ Hp) as Hit. cbn in Hit.
  destruct (v_patched _ _ _ Hinv) as [v Hv]; [by rewrite Hit|]. exists v. split; [done|].
  unfold wp, pipeline_answers. rewrite (bind_eq _ _ s s s) by reflexivity. rewrite Hp.
  rewrite (bind_eq _ _ s tt (without_item s it)) by reflexivity.
  change (bool_decide (is_Some (@None reply_error))) with false.
  rewrite (replace_reply_ok_spec c (without_item s it) v Hv).
  pose proof (patch_wp None None c v (edit_made (without_item s it) v)
    (edit_made_vinv _ _ _ (set_taken_vinv s it None Hinv Hp))) as Hwp.
  unfold wp in Hwp. destruct (manager_patch_vcard c v _) as [[[] s']|]; [|done].
  destruct Hwp as (H1 & (Hca & _ & _ & Hre & Hnx & _) & Hev & Hed).
  split_and!; [done|by apply edits_ok_settled|done|done|done|].
  rewrite Hev. unfold edit_made. cbn [events with_edit_requests observed with_tables unedit without_item].
  by rewrite <- !app_assoc.
Qed.

(** *** Timeouts and cancelling *)

Lemma completions_ext s s' l v :
  (∀ id r, id ∈ l → requests s !! id = Some r →
    ∃ r', requests s' !! id = Some r' ∧ r_entry r' = r_entry r ∧ r_callback r' = r_callback r) →
  (∀ id, id ∈ l → is_Some (requests s !! id)) → completions s' l v = completions s l v.
Proof.
  unfold completions. induction l as [|id l IH]; intros H1 H2; [done|]. cbn. f_equal.
  - destruct (H2 id) as [r Hr]; [by left|]. destruct (H1 id r) as (r' & Hr' & He & Hc); [by left|done|].
    rewrite Hr, Hr'. unfold completion. by rewrite He, Hc.
  - apply IH; intros id'; [intros r Hin|intros Hin]; [apply H1|apply H2]; by right.
Qed.

Lemma timeout_wp c s id r e :
  vinv None None s → edits_ok s → requests s !! id = Some r → timer_id r = true →
  cache s !! r_entry r = Some e → may_fail s (r_entry r) →
  wp (timeout_request b64 sha1 self c id) (λ _ s',
    let h := r_entry r in
    vinv None None s' ∧ edits_ok s' ∧ served h s s' ∧ next_id s' = next_id s ∧
    (h = self → edits s ≠ [] → edits s' = [] ∧ edit_requests s' = []) ∧
    events s' = events s ++ lost_edits s h ++ completions s (pending_requests e) None) s.
Proof.
  intros Hinv Hok Hr Ht Hl Hmay.
  destruct (v_requests _ _ _ Hinv id r Hr ltac:(done)) as (e' & Hl' & Hin & Htm).
  assert (e' = e) as -> by congruence. clear Hl'.
  destruct (Htm Ht ltac:(done)) as (it & Hit & Hp). clear Htm.
  set (s1 := with_tables s (cache s) (timed_cache s) (<[id := with_timer false r]> (requests s))).
  pose proof (reply_error_wp c s1 it id (with_timer false r) e None (Some (mkError false false))
    (vinv_stop_timer _ _ _ _ Hinv Hr) Hok Hp ltac:(apply lookup_insert_eq) Hl eq_refl eq_refl Hmay) as Hwp.
  unfold timeout_request, gabble_request_pipeline_item_cancel.
  eapply wp_known; [unfold get_request, mbind, M_bind, get; by rewrite Hr|].
  eapply wp_known; [done|]. fold s1.
  eapply wp_known; [unfold get_entry, mbind, M_bind, get; cbn; by rewrite Hl|].
  rewrite Hit. eapply (wp_known _ _ _ s1 s1 s1); [done|]. cbv beta.
  change (pipeline s1) with (pipeline s). rewrite Hp.
  eapply wp_mono; [|exact Hwp]. intros [] s' (H1 & H2 & H3 & Hnx & Hlost & Hev). split_and!; try done.
  { intros id' r'. rewrite (H3 id' r'). cbn. destruct (decide (id' = id)) as [->|Hne].
    - rewrite lookup_insert_eq, Hr. split; intros [[= <-] Hx]; by exfalso; apply Hx.
    - by rewrite lookup_insert_ne. }
  rewrite Hev. do 2 f_equal. pose proof (v_entries _ _ _ Hinv _ e Hl) as Heo. apply completions_ext.
  - intros id' r' Hin' Hr'. destruct (decide (id' = id)) as [->|Hne].
    + exists (with_timer false r). cbn. rewrite lookup_insert_eq. split_and!; cbn; congruence.
    + exists r'. cbn. by rewrite lookup_insert_ne.
  - intros id' Hin'. destruct (eo_pending _ _ _ _ Heo id' Hin') as (r' & ? & _). by exists r'.
Qed.

(** A request that is not the one sent has company. *)
Lemma others_wait s id r e :
  vinv None None s → requests s !! id = Some r → cache s !! r_entry r = Some e → ¬ leads s id →
  drop_id id (pending_requests e) ≠ [].
Proof.
  intros Hinv Hr Hl Hlead. pose proof (v_entries _ _ _ Hinv _ e Hl) as Heo.
  destruct (v_requests _ _ _ Hinv id r Hr ltac:(done)) as (e' & Hl' & Hin & _).
  assert (e' = e) as -> by congruence. clear Hl'.
  assert (∃ x, x ∈ pending_requests e ∧ x ≠ id) as (x & Hx & Hne).
  { destruct (eo_answer _ _ _ _ Heo) as [Hit|Hsu].
    - intros Hz. rewrite Hz in Hin. by apply elem_of_nil in Hin.
    - done.
    - destruct (pipeline_item e) as [it|] eqn:Ei; [|done].
      destruct (eo_item _ _ _ _ Heo it Ei) as (x & Hp & Hx). exists x. split; [done|]. intros ->.
      apply Hlead. left. eauto.
    - destruct (suspended_timer_id e) as [x|] eqn:Es; [|done].
      destruct (eo_susp _ _ _ _ Heo x Es) as (_ & Hx & _). exists x. split; [done|]. intros ->.
      apply Hlead. right. eauto. }
  intros Hz. assert (x ∈ drop_id id (pending_requests e)) as Hx'
    by (apply elem_of_drop_id; [apply Heo|done]). rewrite Hz in Hx'. by apply elem_of_nil in Hx'.
Qed.

Lemma after_delete_edits_ok s id r e :
  edits_ok s → cache s !! r_entry r = Some e → drop_id id (pending_requests e) ≠ [] →
  edits_ok (after_delete s id r e).
Proof.
  intros Hok Hl Hne. eapply edits_ok_mono; [exact Hok|done|done|]. intros e' Hl' Hp'. cbn.
  unfold frees. cbn. rewrite (bool_decide_eq_false_2 (drop_id _ _ = [])) by done. rewrite andb_false_r.
  destruct (decide (self = r_entry r)) as [Heq|Hn].
  - rewrite Heq, lookup_insert_eq. by eexists.
  - exists e'. by rewrite lookup_insert_ne.
Qed.

Lemma cancel_wp s id r :
  vinv None None s → edits_ok s → requests s !! id = Some r → ¬ leads s id →
  wp (gabble_vcard_manager_cancel_request b64 sha1 self id) (λ _ s',
    vinv None None s' ∧ edits_ok s' ∧ requests s' = delete id (requests s) ∧ next_id s' = next_id s ∧
    events s' = events s ++ completion id r None) s.
Proof.
  intros Hinv Hok Hr Hlead.
  destruct (v_requests _ _ _ Hinv id r Hr ltac:(done)) as (e & Hl & _).
  pose proof (others_wait s id r e Hinv Hr Hl Hlead) as Hne.
  destruct (complete_one_spec None s id r e None Hinv Hr Hl Hlead) as (a & Hrun & H1); [by intros _ ?|].
  unfold gabble_vcard_manager_cancel_request, cancel_request.
  eapply wp_known; [unfold get_request, mbind, M_bind, get; by rewrite Hr|].
  unfold wp. rewrite Hrun. split_and!; try done. by apply after_delete_edits_ok.
Qed.

Lemma object_died_wp s id r :
  vinv None None s → edits_ok s → requests s !! id = Some r → ¬ leads s id →
  wp (notify_delete_request self id) (λ _ s',
    vinv None None s' ∧ edits_ok s' ∧ requests s' = delete id (requests s) ∧ next_id s' = next_id s ∧ events s' = events s) s.
Proof.
  intros Hinv Hok Hr Hlead.
  destruct (v_requests _ _ _ Hinv id r Hr ltac:(done)) as (e & Hl & _).
  pose proof (others_wait s id r e Hinv Hr Hl Hlead) as Hne.
  destruct (delete_request_spec None s id r e Hinv Hr Hl Hlead) as (Hrun & H1); [by intros _ ?|].
  unfold notify_delete_request, wp. rewrite Hrun. split_and!; try done. by apply after_delete_edits_ok.
Qed.

(** *** Asking and editing *)

(** The requests whose callbacks were called. *)
Definition called_by (ev : vcard_event) : option Z :=
  match ev with Callback id _ _ => Some id | _ => None end.
Definition called s : list Z := omap called_by (events s).

(** No callback is called, and no number is used again. *)
Definition quiet s s' : Prop :=
  called s' = called s ∧ next_id s <= next_id s' ∧
  ∀ id, id < next_id s → requests s !! id = None → requests s' !! id = None.

Lemma vcard_quiet_trans s1 s2 s3 : quiet s1 s2 → quiet s2 s3 → quiet s1 s3.
Proof.
  intros (Hc1 & Hn1 & Hr1) (Hc2 & Hn2 & Hr2). split_and!; [congruence|lia|].
  intros id Hid Hz. apply Hr2; [lia|]. by apply Hr1.
Qed.

Lemma quiet_same s s' :
  events s' = events s → next_id s <= next_id s' → requests s' = requests s → quiet s s'.
Proof. intros He Hn Hr. unfold quiet, called. by rewrite He, Hr. Qed.

Lemma edits_ok_grow s s' h :
  edits_ok s → edits s' = edits s → edit_pipeline_item s' = edit_pipeline_item s →
  (∀ h', h' ≠ h → cache s' !! h' = cache s !! h') →
  (∃ e, cache s' !! h = Some e ∧ (pending_requests (entry_of s h) ≠ [] → pending_requests e ≠ [])) →
  edits_ok s'.
Proof.
  intros Hok He Hi Hoth (e' & Hl' & Hp'). eapply edits_ok_mono; [exact Hok|done|done|].
  intros e Hl Hp. destruct (decide (self = h)) as [Heq|Hne].
  - rewrite Heq in *. exists e'. split; [done|]. apply Hp'. unfold entry_of. by rewrite Hl.
  - exists e. by rewrite Hoth.
Qed.

Lemma asked_others s h r h' : r_entry r = h → h' ≠ h → cache (asked s h r) !! h' = cache s !! h'.
Proof.
  intros <- Hne. unfold asked. destruct (busy _); cbn; by rewrite ?lookup_insert_ne by done.
Qed.

Lemma asked_same s h r :
  edits (asked s h r) = edits s ∧ edit_pipeline_item (asked s h r) = edit_pipeline_item s ∧
  edit_requests (asked s h r) = edit_requests s ∧ next_id (asked s h r) = next_id s + 1 ∧
  contact_repo (asked s h r) = contact_repo s.
Proof. unfold asked. by destruct (busy _). Qed.

Lemma asked_quiet s h r : quiet s (asked s h r).
Proof.
  unfold asked. destruct (busy _).
  - split_and!; [done|cbn; lia|]. intros id Hid Hz. cbn. by rewrite lookup_insert_ne by lia.
  - split_and!; [unfold called; cbn; by rewrite omap_app, app_nil_r|cbn; lia|]. intros id Hid Hz. cbn.
    by rewrite !lookup_insert_ne by lia.
Qed.

Lemma request_wp c s h t cb :
  vinv None None s → edits_ok s → vcard_node (entry_of s h) = None →
  wp (gabble_vcard_manager_request self c h t cb)
    (λ _ s', vinv None None s' ∧ edits_ok s' ∧ quiet s s') s.
Proof.
  intros Hinv Hok Hn. destruct (connected c && valid (contact_repo s) h) eqn:Ec.
  - apply andb_true_iff in Ec as [Hc Hv]. unfold wp. rewrite request_spec by done.
    split_and!; [by apply asked_vinv| |apply asked_quiet].
    destruct (asked_same s h (request_of h t cb)) as (He & Hi & _).
    destruct (asked_pending s h (request_of h t cb) eq_refl) as (e & Hl & Hp).
    eapply (edits_ok_grow s _ h); [done|done|done|by intros; apply asked_others|].
    exists e. split; [done|]. by rewrite Hp.
  - unfold gabble_vcard_manager_request. eapply wp_known; [apply cache_entry_get_spec|].
    eapply wp_known; [done|]. cbn [contact_repo with_tables]. rewrite Ec. apply wp_ret.
    split_and!; [by apply vinv_entry_of| |by apply quiet_same].
    eapply (edits_ok_grow s _ h); [done|done|done|by intros; apply lookup_insert_ne|].
    eexists. split; [apply lookup_insert_eq|done].
Qed.

Lemma vinv_add_edits s l n er :
  vinv None None s → Forall well_formed l → next_id s <= n →
  vinv None None (mkManager (cache s) (timed_cache s) (cache_timer s) (have_self_avatar s)
    (edits s ++ l) (edit_pipeline_item s) er (patched_vcard s) (requests s) n
    (pipeline s) (next_item s) (qdata s) (contact_repo s) (events s)).
Proof.
  intros [He Hr Hg Hi Hs Hpa Hh Hn Ht Hw Hf Hfi] Hl Hle. split; cbn; try done.
  - intros h e Hlk. by eapply entry_ok_ext; [exact (He h e Hlk)|..].
  - by apply Forall_app.
  - intros id Hid. apply Hf. lia.
Qed.

(** Our vCard is being fetched or edited. *)
Definition awaited s : Prop :=
  edit_pipeline_item s ≠ None ∨ ∃ e, cache s !! self = Some e ∧ pending_requests e ≠ [].

Lemma uncached_self s :
  vinv None None s → edits_ok s → valid (contact_repo s) self = true →
  wp (gabble_vcard_manager_invalidate_cache self self) (λ _ s', vinv None None s' ∧ edits_ok s' ∧
    vcard_node (entry_of s' self) = None ∧ contact_repo s' = contact_repo s ∧
    edit_requests s' = edit_requests s ∧ edits s' = edits s ∧ quiet s s') s.
Proof.
  intros Hinv Hok Hv. destruct (cache s !! self) as [e|] eqn:El.
  - destruct (invalidate_spec s self e Hinv Hok Hv El) as [Hrun H1]. unfold wp. rewrite Hrun.
    split_and!; try done; [by apply edits_ok_invalidated|]. unfold entry_of. cbn.
    destruct (frees _); [by rewrite lookup_delete_eq|by rewrite lookup_insert_eq].
  - unfold gabble_vcard_manager_invalidate_cache. do 2 (eapply wp_known; [done|]). cbv beta.
    rewrite Hv, El. apply wp_ret. split_and!; try done. unfold entry_of. by rewrite El.
Qed.

Lemma edit_wp c s callback l :
  vinv None None s → edits_ok s → valid (contact_repo s) self = true → connected c = true →
  Forall well_formed l →
  wp (gabble_vcard_manager_edit self c callback l) (λ o s', vinv None None s' ∧ edits_ok s' ∧
    awaited s' ∧ quiet s s' ∧ edits s' = edits s ++ l ∧
    ∃ id, o = Some id ∧ edit_requests s' = edit_requests s ++ [mkEditRequest id callback false]) s.
Proof.
  intros Hinv Hok Hv Hc Hl. unfold gabble_vcard_manager_edit. rewrite Hc. cbn [negb].
  apply wp_bind. eapply wp_mono; [|by apply uncached_self].
  intros [] s1 (H1 & Hok1 & Hn1 & Hco & Her & Hed & Hq1).
  eapply wp_known; [apply cache_entry_get_spec|]. set (s2 := with_tables s1 _ _ _).
  assert (cache s2 !! self = Some (entry_of s1 self)) as Hl2 by apply lookup_insert_eq.
  assert (entry_of s2 self = entry_of s1 self) as He2 by (unfold entry_of at 1; by rewrite Hl2).
  assert (vinv None None s2) as H2 by by apply vinv_entry_of.
  assert (quiet s s2) as Hq2 by (eapply vcard_quiet_trans; [exact Hq1|by apply quiet_same]).
  eapply wp_known; [done|]. cbv beta. change (edit_pipeline_item s2) with (edit_pipeline_item s1).
  apply wp_bind. eapply (wp_mono _ (λ _ s3, vinv None None s3 ∧ awaited s3 ∧ quiet s s3 ∧
    edit_requests s3 = edit_requests s ∧ edits s3 = edits s)).
  { intros [] s3 (H3 & Haw & Hq3 & Her3 & Hed3). eapply wp_known; [done|].
    do 3 (eapply wp_known; [done|]). apply wp_ret. cbn.
    split_and!; [apply vinv_add_edits; [done|done|lia]| | | |by rewrite Hed3|].
    - intros _. exact Haw.
    - exact Haw.
    - eapply vcard_quiet_trans; [exact Hq3|]. apply quiet_same; [done|cbn; lia|done].
    - exists (next_id s3). by rewrite Her3. }
  destruct (bool_decide (edit_pipeline_item s1 = None) && bool_decide (pending_requests (entry_of s1 self) = []))
    eqn:Eb; cbn [when].
  - apply wp_bind. unfold wp. rewrite request_spec; [|done|by cbn; rewrite Hco|by rewrite He2].
    change (wp (mret tt) (λ _ s3, vinv None None s3 ∧ awaited s3 ∧ quiet s s3 ∧ edit_requests s3 = edit_requests s ∧
      edits s3 = edits s) (asked s2 self (request_of self 0 NoCallback))).
    apply wp_ret. destruct (asked_same s2 self (request_of self 0 NoCallback)) as (Ha & _ & Hb & _).
    destruct (asked_pending s2 self (request_of self 0 NoCallback) eq_refl) as (e & Hle & Hpe).
    split_and!; [apply asked_vinv; [done|by cbn; rewrite Hco|by rewrite He2]| | |by rewrite Hb|by rewrite Ha].
    + right. exists e. split; [done|]. by rewrite Hpe.
    + eapply vcard_quiet_trans; [exact Hq2|apply asked_quiet].
  - apply wp_ret. split_and!; [done| |done|done|done]. apply andb_false_iff in Eb.
    rewrite !bool_decide_eq_false in Eb. destruct Eb as [Hx|Hx]; [by left|right]. by eexists.
Qed.

Lemma status_changed_wp c s :
  vinv None None s → edits_ok s → valid (contact_repo s) self = true →
  vcard_node (entry_of s self) = None →
  wp (status_changed_cb self c) (λ _ s', vinv None None s' ∧ edits_ok s' ∧ quiet s s') s.
Proof.
  intros Hinv Hok Hv Hn. unfold status_changed_cb. destruct (connected c) eqn:Hc; cbn [when].
  2: { apply wp_ret. split_and!; [done|done|by apply quiet_same]. }
  destruct (cached_alias c) as [src alias]. eapply wp_known; [done|]. cbv beta.
  set (l := if Roster.GABBLE_CONNECTION_ALIAS_FROM_VCARD <=? src
            then option_list (gabble_vcard_manager_edit_info_new None alias SET_ALIAS) else []).
  set (s1 := mkManager (cache s) (timed_cache s) (cache_timer s) (have_self_avatar s)
    (edits s ++ l) (edit_pipeline_item s) (edit_requests s) (patched_vcard s) (requests s) (next_id s)
    (pipeline s) (next_item s) (qdata s) (contact_repo s) (events s)).
  eapply (wp_known _ _ _ _ tt s1).
  { unfold s1, l. destruct (_ <=? _); cbn [when]; [done|]. rewrite app_nil_r. by destruct s. }
  assert (vinv None None s1) as H1.
  { apply vinv_add_edits; [done| |lia]. unfold l. destruct (_ <=? _); [|done]. by apply Forall_singleton. }
  apply wp_bind. unfold wp at 1. rewrite (request_spec c s1 self 0 InitialRequestCb Hc Hv Hn).
  apply wp_ret. split_and!; [by apply asked_vinv| |].
  2: { eapply vcard_quiet_trans; [by apply (quiet_same s s1)|apply asked_quiet]. }
  intros _. right.
  destruct (asked_pending s1 self (request_of self 0 InitialRequestCb) eq_refl) as (e & Hle & Hpe).
  exists e. split; [done|]. by rewrite Hpe.
Qed.

End facts.
End VCardFacts.
