(* ===== verification/VCardTheorems.v ===== *)
(** * vCards: what holds of every run

    The inputs of the vCard manager and the theorems about the states they
    lead to, from the operations' lemmas of [VCardFacts]; then what editing a
    vCard does to it, and concrete runs that show what the guards exclude. *)

From S2P Require Import Prelude Node Namespaces Jid Capabilities Presence PresenceCache PresenceCacheFacts Roster VCardManager VCardFacts.

Module VCardTheorems.
Import Jid Capabilities VCardManager VCardFacts.

(** ** Inputs *)

(** What the manager is called with: by the rest of the program, by the
    timers it set, by the pipeline, and by the connection. *)
Inductive vcard_input (R : Type) :=
  | Ask (c : Conn) (h timeout : Z) (cb : request_callback)
  | Edit (c : Conn) (callback : bool) (l : list GabbleVCardManagerEditInfo)
  | Invalidate (h : Z)
  | CacheTimer (c : Conn)
  | ResendTimer (id : Z)
  | RequestTimer (c : Conn) (id : Z)
  | Answer (c : Conn) (it : Z) (reply : option WockyNode) (error : option reply_error)
  | Cancel (id : Z)
  | ObjectDied (id : Z)
  | RemoveEdit (id : Z)
  | EditObjectDied (id : Z)
  | StatusChanged (c : Conn)
  | NewHandles (repo : R).
Arguments Ask {R}.
Arguments Edit {R}.
Arguments Invalidate {R}.
Arguments CacheTimer {R}.
Arguments ResendTimer {R}.
Arguments RequestTimer {R}.
Arguments Answer {R}.
Arguments Cancel {R}.
Arguments ObjectDied {R}.
Arguments RemoveEdit {R}.
Arguments EditObjectDied {R}.
Arguments StatusChanged {R}.
Arguments NewHandles {R}.

Section runs.
Context {R : Type} `{HL : HandleRepoLaws R}.
Context (b64 : string → option string) (sha1 : string → string) (self : Z).

Local Notation Manager := (GabbleVCardManager R).
Local Notation MV := (M Manager).
Local Notation valid := PresenceCache.handle_is_valid.
Local Notation input := (vcard_input R).
Implicit Types (s : Manager) (i : input).

Definition put_repo (repo : R) : MV unit := modify (λ s,
  mkManager (cache s) (timed_cache s) (cache_timer s) (have_self_avatar s) (edits s)
    (edit_pipeline_item s) (edit_requests s) (patched_vcard s) (requests s) (next_id s)
    (pipeline s) (next_item s) (qdata s) repo (events s)).

Definition handle i : MV unit :=
  match i with
  | Ask c h t cb => gabble_vcard_manager_request self c h t cb ;; mret tt
  | Edit c cb l => gabble_vcard_manager_edit self c cb l ;; mret tt
  | Invalidate h => gabble_vcard_manager_invalidate_cache self h
  | CacheTimer c => cache_entry_timeout self c
  | ResendTimer id => suspended_request_timeout_cb self id
  | RequestTimer c id => timeout_request b64 sha1 self c id
  | Answer c it reply error => pipeline_answers b64 sha1 self c it reply error
  | Cancel id => gabble_vcard_manager_cancel_request b64 sha1 self id
  | ObjectDied id => notify_delete_request self id
  | RemoveEdit id => gabble_vcard_manager_remove_edit_request id
  | EditObjectDied id => notify_delete_edit_request id
  | StatusChanged c => status_changed_cb self c
  | NewHandles repo => put_repo repo
  end.

(** What the callers see to: a vCard that is in the cache is not asked for, a
    timer fires when it is set, a reply comes once and with a stanza unless it
    is a failure, a pointer is to something that is there, edits are made by
    edit_info_new. *)
Definition enabled s i : Prop :=
  match i with
  | Ask _ h _ _ => vcard_node (entry_of s h) = None
  | Edit _ _ l => Forall well_formed l
  | Invalidate _ => True
  | CacheTimer _ => cache_timer s = true
  | ResendTimer id => ∃ h e, cache s !! h = Some e ∧ suspended_timer_id e = Some id
  | RequestTimer _ id => ∃ r, requests s !! id = Some r ∧ timer_id r = true
  | Answer _ it reply error => is_Some (pipeline s !! it) ∧ (is_success error = true → is_Some reply)
  | Cancel id | ObjectDied id => is_Some (requests s !! id)
  | RemoveEdit id | EditObjectDied id => existsb (λ r, edit_id r =? id) (edit_requests s) = true
  | StatusChanged _ => vcard_node (entry_of s self) = None
  | NewHandles repo => ∀ h, valid (contact_repo s) h = true → valid repo h = true
  end.

(** What the code relies on and nothing sees to: a request is not cancelled
    when it is the one its entry's IQ or timer was set up with, and fetching
    our vCard does not fail while an edit is under way and others wait. *)
Definition guarded s i : Prop :=
  match i with
  | Cancel id | ObjectDied id => ¬ leads s id
  | RequestTimer _ id => ∀ r, requests s !! id = Some r → may_fail self s (r_entry r)
  | Answer _ it reply error => ∀ id r, pipeline s !! it = Some (PipelineReplyCb id) →
      requests s !! id = Some r → is_success error = false → is_wait reply error = false →
      may_fail self s (r_entry r)
  | _ => True
  end.

Inductive reachable : Manager → Prop :=
  | reachable_init repo : valid repo self = true → reachable (gabble_vcard_manager_init repo)
  | reachable_step s s' i :
      reachable s → enabled s i → guarded s i → handle i s = Ok (tt, s') → reachable s'.

Record good s : Prop := {
  g_vinv : vinv None None s;
  g_edits : edits_ok self s;
  g_self : valid (contact_repo s) self = true;
}.

(** ** The handles stay *)

Lemma retains_expire_loop c n r s : retains contact_repo r (expire_loop self c n) s.
Proof.
  revert s. induction n as [|n IH]; intros s; cbn [expire_loop]; [apply retains_fail|].
  retains_with ltac:(idtac; match goal with |- retains _ _ (expire_loop _ _ n) _ => apply IH end).
Qed.

Lemma repo_kept i s s' :
  handle i s = Ok (tt, s') → (∀ repo, i ≠ NewHandles repo) → contact_repo s' = contact_repo s.
Proof.
  intros Hrun Hi. assert (retains contact_repo (contact_repo s) (handle i) s) as Hk; [|by eapply Hk].
  destruct i; cbn [handle]; try (by exfalso; eapply Hi);
    retains_with ltac:(idtac; match goal with
      |- retains _ _ (expire_loop _ _ _) _ => apply retains_expire_loop end).
Qed.

(** ** Every input keeps the invariant *)

Lemma good_init repo : valid repo self = true → good (gabble_vcard_manager_init repo).
Proof.
  intros Hv. split; [|by apply edits_ok_settled; left|done]. split; cbn; try done; try (intros *; by rewrite lookup_empty).
  - by intros h ?%elem_of_nil.
  - apply NoDup_nil_2.
Qed.

Lemma remove_edit_good id s :
  good s → existsb (λ r, edit_id r =? id) (edit_requests s) = true →
  wp (gabble_vcard_manager_remove_edit_request id) (λ _ s', vinv None None s' ∧ edits_ok self s') s.
Proof.
  intros [H1 H2 _] He. unfold gabble_vcard_manager_remove_edit_request.
  eapply wp_known; [done|]. cbv beta. rewrite He. apply wp_modify. split; [|done].
  eapply vinv_same; [exact H1|]. unfold same. by split_and!.
Qed.

Lemma new_handles_good repo s :
  good s → (∀ h, valid (contact_repo s) h = true → valid repo h = true) →
  wp (put_repo repo) (λ _ s', good s') s.
Proof.
  intros [[He Hr Hg Hi Hs Hpa Hh Hn Ht Hw Hf Hfi] H2 Hv] Hrepo. apply wp_modify.
  split; [|done|by apply Hrepo]. split; cbn; try done.
  - intros h e Hl. destruct (He h e Hl) as [Hnd Hpd Hit Hsu Hva Han]. split; try done. cbn. auto.
  - intros h Hin. destruct (Hh h Hin) as (? & e & ?). split; [auto|eauto].
Qed.

Lemma answer_good c it reply error s :
  good s → enabled s (Answer c it reply error) → guarded s (Answer c it reply error) →
  wp (pipeline_answers b64 sha1 self c it reply error) (λ _ s', vinv None None s' ∧ edits_ok self s') s.
Proof.
  intros [H1 H2 _] [[cb Hp] Hrep] Hg. destruct cb as [id|].
  - destruct (item_request s it id H1 Hp) as (r & e & Hr & Hl & _).
    destruct (is_success error) eqn:Es.
    + destruct (Hrep eq_refl) as [msg ->].
      eapply wp_mono; [|by apply (reply_ok_wp b64 sha1 self c s it id r e msg error)]. by intros [] s' (? & ? & _).
    + destruct (is_wait reply error) eqn:Ew.
      * destruct (reply_wait_spec b64 sha1 self c s it id r e reply error H1 Hp Hr Hl Ew) as [Hrun Hv].
        unfold wp. rewrite Hrun. split; [done|]. eapply edits_ok_mono; [exact H2|done|done|].
        intros e' Hl' Hp'. cbn. rewrite !insert_insert_eq.
        destruct (decide (self = r_entry r)) as [Heq|Hne].
        { rewrite Heq, Hl in Hl'. injection Hl' as <-. rewrite Heq, lookup_insert_eq. by eexists. }
        exists e'. by rewrite lookup_insert_ne.
      * eapply wp_mono; [|apply (reply_error_wp b64 sha1 self c s it id r e reply error); eauto].
        by intros [] s' (? & ? & _).
  - destruct error as [err|].
    + destruct (set_reply_error_spec b64 sha1 self c s it reply err H1 Hp) as (Hrun & ? & ?).
      unfold wp. by rewrite Hrun.
    + destruct (set_reply_ok_wp b64 sha1 self c s it reply H1 Hp) as (v & _ & Hwp).
      eapply wp_mono; [|exact Hwp]. by intros [] s' (? & ? & _).
Qed.

Lemma handle_keeps i s :
  good s → enabled s i → guarded s i → (∀ repo, i ≠ NewHandles repo) →
  wp (handle i) (λ _ s', vinv None None s' ∧ edits_ok self s') s.
Proof.
  intros Hgood He Hg Hi. pose proof Hgood as [H1 H2 Hv].
  destruct i as [c h t cb|c cb l|h|c|id|c id|c it reply error|id|id|id|id|c|repo]; cbn [handle].
  - apply wp_bind. eapply wp_mono; [|by apply request_wp]. intros o s' (? & ? & _). by apply wp_ret.
  - destruct (connected c) eqn:Hc; [|unfold gabble_vcard_manager_edit; by rewrite Hc].
    apply wp_bind. eapply wp_mono; [|by apply edit_wp]. intros o s' (? & ? & _). by apply wp_ret.
  - destruct (valid (contact_repo s) h) eqn:Eh.
    2: { unfold gabble_vcard_manager_invalidate_cache. do 2 (eapply wp_known; [done|]). cbv beta. by rewrite Eh. }
    destruct (cache s !! h) as [e|] eqn:El.
    + destruct (invalidate_spec self s h e H1 H2 Eh El) as [Hrun ?]. unfold wp. rewrite Hrun.
      split; [done|by apply edits_ok_invalidated].
    + unfold gabble_vcard_manager_invalidate_cache. do 2 (eapply wp_known; [done|]). cbv beta.
      by rewrite Eh, El.
  - eapply wp_mono; [|by apply cache_timeout_wp]. by intros [] s' [[]].
  - destruct He as (h & e & Hl & Hs). destruct (suspended_spec self s h e id H1 Hl Hs) as (r & Hr & <- & Hrun & Hv').
    unfold wp. rewrite Hrun. split; [done|]. eapply edits_ok_mono; [exact H2|done|done|].
    intros e' Hl' Hp'. cbn. rewrite insert_insert_eq. destruct (decide (self = r_entry r)) as [Heq|Hne].
    + rewrite Heq, Hl in Hl'. injection Hl' as <-. rewrite Heq, lookup_insert_eq. by eexists.
    + exists e'. by rewrite lookup_insert_ne.
  - destruct He as (r & Hr & Ht). destruct (v_requests _ _ _ H1 id r Hr ltac:(done)) as (e & Hl & _).
    eapply wp_mono; [|apply (timeout_wp b64 sha1 self c s id r e); eauto]. by intros [] s' (? & ? & _).
  - by apply answer_good.
  - destruct He as [r Hr]. eapply wp_mono; [|by apply (cancel_wp b64 sha1 self s id r)]. by intros [] s' (? & ? & _).
  - destruct He as [r Hr]. eapply wp_mono; [|by apply (object_died_wp self s id r)]. by intros [] s' (? & ? & _).
  - by apply remove_edit_good.
  - by apply remove_edit_good.
  - eapply wp_mono; [|by apply status_changed_wp]. by intros [] s' (? & ? & _).
  - by exfalso; eapply Hi.
Qed.

Lemma vcard_handle_good i s : good s → enabled s i → guarded s i → wp (handle i) (λ _ s', good s') s.
Proof.
  intros Hgood He Hg.
  assert ((∃ repo, i = NewHandles repo) ∨ ∀ repo, i ≠ NewHandles repo) as [[repo ->]|Hi]
    by (destruct i; first [left; by eexists|by right]).
  - by apply new_handles_good.
  - pose proof (handle_keeps i s Hgood He Hg Hi) as Hwp. unfold wp in *.
    destruct (handle i s) as [[[] s']|] eqn:Er; [|done]. destruct Hwp. split; [done|done|].
    rewrite (repo_kept i s s' Er Hi). exact (g_self _ Hgood).
Qed.

Lemma vcard_reachable_good s : reachable s → good s.
Proof.
  induction 1 as [repo Hv|s s' i Hr IH He Hg Hrun]; [by apply good_init|].
  pose proof (vcard_handle_good i s IH He Hg) as Hwp. unfold wp in Hwp. by rewrite Hrun in Hwp.
Qed.

(** ** Safety *)

(** C10: every input that its caller may give, and that is not one
    of the two the code does not handle, is handled without a failed
    assertion, without following a dangling pointer and without the cache
    timer's loop running on. *)
Theorem vcard_safe s i :
  reachable s → enabled s i → guarded s i → ∃ s', handle i s = Ok (tt, s') ∧ reachable s'.
Proof.
  intros Hr He Hg. pose proof (vcard_handle_good i s (vcard_reachable_good s Hr) He Hg) as Hwp. unfold wp in Hwp.
  destruct (handle i s) as [[[] s']|] eqn:Er; [|done]. exists s'. split; [done|]. by econstructor.
Qed.

(** ** Replies *)

(** A reply to a request for a vCard is cached
    for sixty seconds, answers every request for that contact, newest first,
    with the vCard of the reply or an empty one, and leaves none; our own is
    edited first when edits wait and no edit is under way. *)
Theorem vcard_reply_serves_all c s it id r e msg error :
  reachable s → pipeline s !! it = Some (PipelineReplyCb id) → requests s !! id = Some r →
  cache s !! r_entry r = Some e → is_success error = true →
  ∃ s', handle (Answer c it (Some msg) error) s = Ok (tt, s') ∧
    let h := r_entry r in let v := vcard_of msg in
    gabble_vcard_manager_get_cached s' h = Some v ∧
    h ∈ timed_cache s' ∧ expiry s' h = time c + VCARD_CACHE_ENTRY_TTL ∧ served h s s' ∧
    events s' = events s ++ (if h =? self then patch_events c s v else []) ++
      observed_events s h v ++ completions b64 sha1 s (pending_requests e) (Some v).
Proof.
  intros Hreach Hp Hr Hl Hs. pose proof (vcard_reachable_good s Hreach) as [H1 H2 Hv].
  pose proof (reply_ok_wp b64 sha1 self c s it id r e msg error H1 H2 Hp Hr Hl Hs) as Hwp.
  destruct (item_request s it id H1 Hp) as (r' & _ & Hr' & _ & _ & _ & _ & Hvr & _).
  assert (r' = r) as -> by congruence. unfold wp in Hwp. cbn [handle].
  destruct (pipeline_answers _ _ _ _ _ _ _ s) as [[[] s']|] eqn:Er; [|done]. exists s'. split; [done|].
  destruct Hwp as (_ & _ & Ha & Hc & Hh & _ & Hev). cbv zeta. split_and!; try done.
  - unfold gabble_vcard_manager_get_cached.
    rewrite (repo_kept (Answer c it (Some msg) error) s s' Er) by done. by rewrite Hvr, Hc.
  - unfold expiry. by rewrite Hc.
Qed.

(** What a request's callback is called with. *)
Definition outcome (reply : option WockyNode) (error : option reply_error) : option WockyNode :=
  if is_success error then vcard_of <$> reply else None.

Lemma completion_called s l v id r :
  id ∈ l → requests s !! id = Some r → r_callback r ≠ NoCallback →
  Callback id (r_entry r) v ∈ completions b64 sha1 s l v.
Proof.
  intros Hin Hr Hc. apply list_elem_of_bind. exists id. split; [|done]. rewrite Hr. unfold completion.
  destruct (r_callback r); [done|by left|by left].
Qed.

Lemma served_gone h s s' id r :
  served h s s' → requests s !! id = Some r → r_entry r = h → requests s' !! id = None.
Proof.
  intros Hs Hr Hh. destruct (requests s' !! id) as [r'|] eqn:E; [|done].
  apply Hs in E as [? ?]. congruence.
Qed.

(** Whatever the answer, all the requests of the entry end. *)
Lemma answer_serves c s it lead r e reply error :
  reachable s → enabled s (Answer c it reply error) → guarded s (Answer c it reply error) →
  pipeline s !! it = Some (PipelineReplyCb lead) → requests s !! lead = Some r →
  cache s !! r_entry r = Some e → is_wait reply error = false →
  ∃ s', handle (Answer c it reply error) s = Ok (tt, s') ∧ served (r_entry r) s s' ∧
    ∃ l1 l2, events s' = events s ++ l1 ++ l2 ++
      completions b64 sha1 s (pending_requests e) (outcome reply error).
Proof.
  intros Hreach [_ Hrep] Hg Hp Hr Hl Hw. pose proof (vcard_reachable_good s Hreach) as [H1 H2 Hv].
  unfold outcome. cbn [handle]. destruct (is_success error) eqn:Es.
  - destruct (Hrep eq_refl) as [msg ->].
    pose proof (reply_ok_wp b64 sha1 self c s it lead r e msg error H1 H2 Hp Hr Hl Es) as Hwp.
    unfold wp in Hwp. destruct (pipeline_answers _ _ _ _ _ _ _ s) as [[[] s']|]; [|done]. exists s'.
    destruct Hwp as (_ & _ & Ha & _ & _ & _ & Hev). eauto.
  - pose proof (reply_error_wp b64 sha1 self c s it lead r e reply error H1 H2 Hp Hr Hl Es Hw
      (Hg lead r Hp Hr Es Hw)) as Hwp.
    unfold wp in Hwp. destruct (pipeline_answers _ _ _ _ _ _ _ s) as [[[] s']|]; [|done]. exists s'.
    destruct Hwp as (_ & _ & Ha & _ & _ & Hev). split_and!; [done|done|]. by eexists _, [].
Qed.

(** C11: In every state of the vCard manager reached
    by inputs that its callers may give (enabled) and that neither cancel a
    request with which an IQ or a timer of its entry was set up nor make the
    fetching of our own vCard fail while one edit is under way and others wait
    (guarded), no request is forgotten: either an IQ is in the pipeline such
    that every answer to it that is enabled and guarded in this sense and does
    not ask to wait ends the request and calls its callback, if it has one,
    with the vCard or the error; or a timer is set that sends such an IQ again
    and leaves the request waiting. *)
Theorem vcard_request_progress s id r :
  reachable s → requests s !! id = Some r →
  (∃ it lead, pipeline s !! it = Some (PipelineReplyCb lead) ∧
    ∀ c reply error, let i := Answer c it reply error in
      enabled s i → guarded s i → is_wait reply error = false →
      ∃ s', handle i s = Ok (tt, s') ∧ requests s' !! id = None ∧
        (r_callback r ≠ NoCallback → Callback id (r_entry r) (outcome reply error) ∈ events s')) ∨
  (∃ lead s', enabled s (ResendTimer lead) ∧ handle (ResendTimer lead) s = Ok (tt, s') ∧
    pipeline s' !! next_item s = Some (PipelineReplyCb lead) ∧ is_Some (requests s' !! id)).
Proof.
  intros Hreach Hr. pose proof (vcard_reachable_good s Hreach) as [H1 H2 Hv].
  destruct (v_requests _ _ _ H1 id r Hr ltac:(done)) as (e & Hl & Hin & _).
  pose proof (v_entries _ _ _ H1 _ e Hl) as Heo.
  destruct (eo_answer _ _ _ _ Heo) as [Hit|Hsu]; [by intros Hz; rewrite Hz in Hin; apply elem_of_nil in Hin|done| |].
  - left. destruct (pipeline_item e) as [it|] eqn:Ei; [|done].
    destruct (eo_item _ _ _ _ Heo it Ei) as (lead & Hp & Hlin). exists it, lead. split; [done|].
    destruct (eo_pending _ _ _ _ Heo lead Hlin) as (r' & Hr' & Hrh).
    intros c reply error i He Hg Hw.
    destruct (answer_serves c s it lead r' e reply error) as (s' & Hrun & Hsv & l1 & l2 & Hev); try done;
      [by rewrite Hrh|]. exists s'. split_and!; [done|by eapply served_gone|]. intros Hc.
    rewrite Hev, !elem_of_app. do 3 right. by apply completion_called.
  - right. destruct (suspended_timer_id e) as [lead|] eqn:Es; [|done].
    destruct (suspended_spec self s _ e lead H1 Hl Es) as (r' & Hr' & Hrh & Hrun & _).
    exists lead, (resent self s lead r' e). split_and!; [by eexists _, e|done|apply lookup_insert_eq|].
    cbn. destruct (decide (id = lead)) as [->|Hne]; [by rewrite lookup_insert_eq|].
    by rewrite lookup_insert_ne, Hr by done.
Qed.

(** ** Callbacks *)

Lemma calls_completions s l v : sublist (omap called_by (completions b64 sha1 s l v)) l.
Proof.
  unfold completions. induction l as [|id l IH]; [done|]. cbn. rewrite omap_app.
  destruct (requests s !! id) as [r|]; [|by apply sublist_cons].
  unfold completion. destruct (r_callback r), v; cbn; by constructor.
Qed.

Lemma calls_none (f : list vcard_event) :
  Forall (λ ev, called_by ev = None) f → omap called_by f = [].
Proof. induction 1 as [|ev f Hev _ IH]; [done|]. cbn. by rewrite Hev. Qed.

Lemma patch_events_quiet c s v : omap called_by (patch_events c s v) = [].
Proof.
  unfold patch_events. destruct (idle_or_editing s); [done|].
  by destruct (apply_edits _ _ _ _) as [[? []]|].
Qed.

Lemma observed_events_quiet s h v : omap called_by (observed_events s h v) = [].
Proof. unfold observed_events. destruct (alias_kept _ _ _); [done|]. by destruct (_ || _). Qed.

Lemma edit_callbacks_quiet error l : omap called_by (edit_callbacks error l) = [].
Proof.
  apply calls_none. unfold edit_callbacks. apply Forall_forall. intros ev (r & Hin & _)%list_elem_of_bind.
  destruct (has_callback r); [|by apply elem_of_nil in Hin]. by apply list_elem_of_singleton in Hin as ->.
Qed.

Lemma lost_edits_quiet s h : omap called_by (lost_edits self s h) = [].
Proof. unfold lost_edits. destruct (_ && _); [apply edit_callbacks_quiet|done]. Qed.

(** A callback was called at most once, and its request is gone. *)
Definition once s : Prop :=
  NoDup (called s) ∧ ∀ id, id ∈ called s → id < next_id s ∧ requests s !! id = None.

Lemma once_quiet s s' : quiet s s' → once s → once s'.
Proof.
  intros (Hc & Hn & Hr) [Hnd Ho]. unfold once. rewrite Hc. split; [done|]. intros id Hin.
  destruct (Ho id Hin). split; [lia|]. by apply Hr.
Qed.

Lemma once_calls s s' l :
  vinv None None s → once s → called s' = called s ++ l → NoDup l → next_id s' = next_id s →
  (∀ id, id ∈ l → is_Some (requests s !! id) ∧ requests s' !! id = None) →
  (∀ id, requests s !! id = None → requests s' !! id = None) → once s'.
Proof.
  intros Hinv [Hnd Ho] Hc Hl Hn Hgo Hk. unfold once. rewrite Hc, Hn. split.
  - apply NoDup_app. split_and!; [done| |done]. intros id Hin Hin'. destruct (Ho id Hin) as [_ Hz].
    destruct (Hgo id Hin') as [[r ?] _]. congruence.
  - intros id [Hin|Hin]%elem_of_app; [destruct (Ho id Hin); auto|].
    destruct (Hgo id Hin) as [[r Hr] Hz]. split; [|done].
    destruct (Z.le_gt_cases (next_id s) id) as [Hle|]; [|lia].
    rewrite (v_fresh _ _ _ Hinv id Hle) in Hr. done.
Qed.

Lemma once_served s s' id r e v pre :
  vinv None None s → once s → requests s !! id = Some r → cache s !! r_entry r = Some e →
  served (r_entry r) s s' → next_id s' = next_id s → omap called_by pre = [] →
  events s' = events s ++ pre ++ completions b64 sha1 s (pending_requests e) v → once s'.
Proof.
  intros Hinv Ho Hr Hl Hs Hn Hpre Hev. pose proof (v_entries _ _ _ Hinv _ e Hl) as Heo.
  pose proof (calls_completions s (pending_requests e) v) as Hsub.
  eapply (once_calls s s' (omap called_by (completions b64 sha1 s (pending_requests e) v))); try done.
  - unfold called. by rewrite Hev, !omap_app, Hpre.
  - eapply sublist_NoDup; [apply Heo|exact Hsub].
  - intros id' Hin. destruct (eo_pending _ _ _ _ Heo id') as (r' & Hr' & Hrh).
    { by eapply elem_of_sublist. }
    split; [done|]. by eapply served_gone.
  - intros id' Hz. destruct (requests s' !! id') as [r'|] eqn:E; [|done]. apply Hs in E as [? _]. congruence.
Qed.

Lemma answer_once c it reply error s s' :
  good s → once s → enabled s (Answer c it reply error) → guarded s (Answer c it reply error) →
  handle (Answer c it reply error) s = Ok (tt, s') → once s'.
Proof.
  intros [H1 H2 _] Ho [[cb Hp] Hrep] Hg Hrun. cbn [handle] in Hrun. destruct cb as [id|].
  - destruct (item_request s it id H1 Hp) as (r & e & Hr & Hl & _).
    destruct (is_success error) eqn:Es; [|destruct (is_wait reply error) eqn:Ew].
    + destruct (Hrep eq_refl) as [msg ->].
      pose proof (reply_ok_wp b64 sha1 self c s it id r e msg error H1 H2 Hp Hr Hl Es) as Hwp.
      unfold wp in Hwp. rewrite Hrun in Hwp. destruct Hwp as (_ & _ & Hs & _ & _ & Hn & Hev).
      rewrite (app_assoc _ (observed_events _ _ _)) in Hev.
      eapply (once_served s s' id r e); [done..| |exact Hev].
      rewrite omap_app, observed_events_quiet, app_nil_r.
      destruct (_ =? _); [apply patch_events_quiet|done].
    + destruct (reply_wait_spec b64 sha1 self c s it id r e reply error H1 Hp Hr Hl Ew) as [Hrun' _].
      rewrite Hrun in Hrun'. injection Hrun' as ->. eapply once_quiet; [|exact Ho]. split_and!; [done|done|].
      cbn. intros id' _ Hz. rewrite lookup_insert_ne; [done|]. congruence.
    + pose proof (reply_error_wp b64 sha1 self c s it id r e reply error H1 H2 Hp Hr Hl Es Ew
        (Hg id r Hp Hr Es Ew)) as Hwp.
      unfold wp in Hwp. rewrite Hrun in Hwp. destruct Hwp as (_ & _ & Hs & Hn & _ & Hev).
      eapply (once_served s s' id r e); [done..|apply lost_edits_quiet|exact Hev].
  - destruct error as [err|].
    + destruct (set_reply_error_spec b64 sha1 self c s it reply err H1 Hp) as (Hrun' & _).
      rewrite Hrun in Hrun'. injection Hrun' as ->. eapply once_quiet; [|exact Ho]. split_and!; [|done|done].
      unfold called. cbn [events edit_failed without_item].
      by rewrite omap_app, edit_callbacks_quiet, app_nil_r.
    + destruct (set_reply_ok_wp b64 sha1 self c s it reply H1 Hp) as (v & _ & Hwp).
      unfold wp in Hwp. rewrite Hrun in Hwp. destruct Hwp as (_ & _ & _ & Hre & Hn & Hev).
      eapply once_quiet; [|exact Ho]. split_and!; [|lia|by rewrite Hre]. unfold called.
      rewrite Hev, !omap_app, observed_events_quiet, edit_callbacks_quiet, patch_events_quiet.
      by rewrite app_nil_r.
Qed.

Lemma gone_once s s' l id :
  vinv None None s → once s → is_Some (requests s !! id) → requests s' = delete id (requests s) →
  next_id s' = next_id s → called s' = called s ++ l → l = [id] ∨ l = [] → once s'.
Proof.
  intros Hinv Ho Hid Hr Hn Hc Hl. eapply once_calls; [done|done|exact Hc| |done| |].
  - destruct Hl as [-> | ->]; [apply NoDup_singleton|apply NoDup_nil_2].
  - intros id' Hin. rewrite Hr. destruct Hl as [-> | ->]; [|by apply elem_of_nil in Hin].
    apply list_elem_of_singleton in Hin as ->. by rewrite lookup_delete_eq.
  - intros id' Hz. rewrite Hr. apply lookup_delete_None. by right.
Qed.

(** The inputs that call nobody. *)
Lemma handle_quiet i s :
  good s → enabled s i →
  match i with
  | Ask _ _ _ _ | Edit _ _ _ | Invalidate _ | CacheTimer _ | ResendTimer _ | RemoveEdit _
  | EditObjectDied _ | StatusChanged _ | NewHandles _ => wp (handle i) (λ _ s', quiet s s') s
  | _ => True
  end.
Proof.
  intros [H1 H2 Hv] He.
  destruct i as [c h t cb|c cb l|h|c|id|c id|c it reply error|id|id|id|id|c|repo]; cbn [handle]; try done.
  - apply wp_bind. eapply wp_mono; [|by apply request_wp]. intros o s' (_ & _ & ?). by apply wp_ret.
  - destruct (connected c) eqn:Hc.
    2: { unfold gabble_vcard_manager_edit. rewrite Hc. by apply wp_ret, quiet_same. }
    apply wp_bind. eapply wp_mono; [|by apply edit_wp]. intros o s' (_ & _ & _ & ? & _). by apply wp_ret.
  - destruct (valid (contact_repo s) h) eqn:Eh; [destruct (cache s !! h) as [e|] eqn:El|].
    + destruct (invalidate_spec self s h e H1 H2 Eh El) as [Hrun _]. unfold wp. rewrite Hrun. by apply quiet_same.
    + unfold gabble_vcard_manager_invalidate_cache. do 2 (eapply wp_known; [done|]). cbv beta.
      rewrite Eh, El. by apply wp_ret, quiet_same.
    + unfold gabble_vcard_manager_invalidate_cache. do 2 (eapply wp_known; [done|]). cbv beta.
      rewrite Eh. by apply wp_ret, quiet_same.
  - eapply wp_mono; [|by apply cache_timeout_wp]. intros [] s' [[_ _ _ _ _ Hr Hn Hev] _].
    apply quiet_same; [done|lia|done].
  - destruct He as (h & e & Hl & Hs). destruct (suspended_spec self s h e id H1 Hl Hs) as (r & Hr & _ & Hrun & _).
    unfold wp. rewrite Hrun. split_and!; [unfold called; cbn; by rewrite omap_app, app_nil_r|done|].
    intros id' _ Hz. cbn. rewrite lookup_insert_ne; [done|]. congruence.
  - unfold gabble_vcard_manager_remove_edit_request. eapply wp_known; [done|]. cbv beta. cbn in He.
    rewrite He. by apply wp_modify, quiet_same.
  - unfold notify_delete_edit_request, gabble_vcard_manager_remove_edit_request.
    eapply wp_known; [done|]. cbv beta. cbn in He. rewrite He. by apply wp_modify, quiet_same.
  - eapply wp_mono; [|by apply status_changed_wp]. by intros [] s' (_ & _ & ?).
Qed.

Lemma handle_once i s s' :
  good s → once s → enabled s i → guarded s i → handle i s = Ok (tt, s') → once s'.
Proof.
  intros Hgood Ho He Hg Hrun. pose proof (handle_quiet i s Hgood He) as Hq.
  pose proof Hgood as [H1 H2 _].
  destruct i as [c h t cb|c cb l|h|c|id|c id|c it reply error|id|id|id|id|c|repo];
    try (unfold wp in Hq; rewrite Hrun in Hq; by eapply once_quiet).
  - destruct He as (r & Hr & Ht). destruct (v_requests _ _ _ H1 id r Hr ltac:(done)) as (e & Hl & _).
    pose proof (timeout_wp b64 sha1 self c s id r e H1 H2 Hr Ht Hl (Hg r Hr)) as Hwp.
    unfold wp in Hwp. cbn [handle] in Hrun. rewrite Hrun in Hwp. destruct Hwp as (_ & _ & Hs & Hn & _ & Hev).
    eapply (once_served s s' id r e); [done..|apply lost_edits_quiet|exact Hev].
  - by eapply answer_once.
  - destruct He as [r Hr]. pose proof (cancel_wp b64 sha1 self s id r H1 H2 Hr Hg) as Hwp.
    unfold wp in Hwp. cbn [handle] in Hrun. rewrite Hrun in Hwp. destruct Hwp as (_ & _ & Hd & Hn & Hev).
    eapply (gone_once s s' (omap called_by (completion b64 sha1 id r None)) id); try done.
    + unfold called. by rewrite Hev, omap_app.
    + unfold completion. destruct (r_callback r); cbn; auto.
  - destruct He as [r Hr]. pose proof (object_died_wp self s id r H1 H2 Hr Hg) as Hwp.
    unfold wp in Hwp. cbn [handle] in Hrun. rewrite Hrun in Hwp. destruct Hwp as (_ & _ & Hd & Hn & Hev).
    eapply (gone_once s s' [] id); try done; [|by right]. unfold called. by rewrite Hev, app_nil_r.
Qed.

(** In every run the callback of a request is called
    at most once, and a request that still exists has not had its. *)
Theorem vcard_callbacks_once s :
  reachable s → NoDup (called s) ∧ ∀ id r, requests s !! id = Some r → id ∉ called s.
Proof.
  intros Hr. assert (once s) as [Hnd Ho].
  { induction Hr as [repo Hv|s s' i Hr IH He Hg Hrun].
    - split; [apply NoDup_nil_2|]. by intros id ?%elem_of_nil.
    - by eapply handle_once; [apply vcard_reachable_good| | | |]. }
  split; [done|]. intros id r Hid Hin. destruct (Ho id Hin). congruence.
Qed.

(** ** The cache *)

(** When the cache timer fires it drops the vCards
    whose sixty seconds are over and no others, its loop ends, and the timer is
    set again exactly when a vCard is left that will expire. *)
Theorem vcard_cache_expires c s :
  reachable s → ∃ s', handle (CacheTimer c) s = Ok (tt, s') ∧
    (∀ h, h ∈ timed_cache s' ↔ h ∈ timed_cache s ∧ time c < expiry s h) ∧
    (∀ h, cache s' !! h =
      if bool_decide (h ∈ timed_cache s) && (expiry s h <=? time c) then None else cache s !! h) ∧
    cache_timer s' = bool_decide (timed_cache s' ≠ []) ∧ events s' = events s.
Proof.
  intros Hr. pose proof (vcard_reachable_good s Hr) as [H1 H2 _].
  pose proof (cache_timeout_wp self c s H1 H2) as Hwp. cbn [handle]. unfold wp in Hwp.
  destruct (cache_entry_timeout self c s) as [[[] s']|]; [|done]. exists s'. split; [done|].
  destruct Hwp as [[_ _ Hl Hg Hk _ _ Hev] Ht]. split_and!; try done. intros h.
  destruct (bool_decide (h ∈ timed_cache s)) eqn:Eb; cbn [andb].
  - apply bool_decide_eq_true in Eb. destruct (Z.leb_spec (expiry s h) (time c)); [by apply Hg|].
    apply Hk. by right.
  - apply bool_decide_eq_false in Eb. apply Hk. by left.
Qed.

(** ** Our own vCard *)

(** When the server has accepted an edit the
    vCard that was sent, not the one fetched, is the one in the cache, the
    callers of the edits it was for are told, and edits that came in the
    meantime are applied to that vCard and sent. *)
Theorem vcard_edit_acknowledged c s it reply :
  reachable s → edit_pipeline_item s = Some it →
  ∃ v s', patched_vcard s = Some v ∧ handle (Answer c it reply None) s = Ok (tt, s') ∧
    gabble_vcard_manager_get_cached s' self = Some v ∧ requests s' = requests s ∧
    events s' = events s ++ observed_events s self v ++ edit_callbacks false (edit_requests s) ++
      patch_events c (unedit s None) v.
Proof.
  intros Hr Hit. pose proof (vcard_reachable_good s Hr) as [H1 H2 Hv].
  pose proof (v_set _ _ _ H1 it Hit) as Hp.
  destruct (set_reply_ok_wp b64 sha1 self c s it reply H1 Hp) as (v & Hpv & Hwp). exists v.
  unfold wp in Hwp. cbn [handle]. destruct (pipeline_answers _ _ _ _ _ _ _ s) as [[[] s']|] eqn:Er; [|done].
  exists s'. destruct Hwp as (_ & _ & Hc & Hre & _ & Hev). split_and!; try done.
  unfold gabble_vcard_manager_get_cached.
  rewrite (repo_kept (Answer c it reply None) s s' Er) by done. by rewrite Hv, Hc, lookup_insert_eq.
Qed.

(** When our own vCard cannot be fetched the
    edits that waited for it are dropped and every caller of an edit is told
    of the failure, as is every caller who asked for the vCard. *)
Theorem vcard_fetch_failure_reported c s it id r e reply error :
  reachable s → pipeline s !! it = Some (PipelineReplyCb id) → requests s !! id = Some r →
  r_entry r = self → cache s !! self = Some e → edits s ≠ [] → edit_pipeline_item s = None →
  is_success error = false → is_wait reply error = false →
  ∃ s', handle (Answer c it reply error) s = Ok (tt, s') ∧ served self s s' ∧
    edits s' = [] ∧ edit_requests s' = [] ∧
    events s' = events s ++ edit_callbacks true (edit_requests s) ++
      completions b64 sha1 s (pending_requests e) None.
Proof.
  intros Hreach Hp Hr Hh Hl Hne Hno Hs Hw. pose proof (vcard_reachable_good s Hreach) as [H1 H2 _].
  rewrite <- Hh in Hl.
  pose proof (reply_error_wp b64 sha1 self c s it id r e reply error H1 H2 Hp Hr Hl Hs Hw
    ltac:(by intros _ _)) as Hwp.
  unfold wp in Hwp. cbn [handle]. destruct (pipeline_answers _ _ _ _ _ _ _ s) as [[[] s']|]; [|done].
  exists s'. rewrite Hh in Hwp. destruct Hwp as (_ & _ & Hsv & _ & Hlost & Hev).
  destruct (Hlost eq_refl Hne) as [Hed Her]. split_and!; try done. rewrite Hev. f_equal. f_equal.
  unfold lost_edits. rewrite Z.eqb_refl. by destruct (edits s).
Qed.

(** ** What the guards exclude *)

(** C40: cancelling the request with which an
    IQ was sent frees it while the pipeline still holds a pointer to it, and
    whatever the server then answers the pointer is followed. *)
Theorem cancelled_leader_use_after_free s it id :
  reachable s → pipeline s !! it = Some (PipelineReplyCb id) →
  ∃ s', handle (Cancel id) s = Ok (tt, s') ∧ requests s' !! id = None ∧
    ∀ c reply error, handle (Answer c it reply error) s' = Abort MemoryFault.
Proof.
  intros Hreach Hp. pose proof (vcard_reachable_good s Hreach) as [H1 _ _].
  destruct (item_request s it id H1 Hp) as (r & e & Hr & Hl & Hit & _).
  set (e' := with_pending (drop_id id (pending_requests e)) e).
  assert (∃ a ev, handle (Cancel id) s = Ok (tt, with_tables (with_events s a ev)
    (<[r_entry r := e']> (cache s)) (timed_cache s) (delete id (requests s)))) as (a & ev & Hrun).
  { cbn [handle]. unfold gabble_vcard_manager_cancel_request, cancel_request, complete_one_request.
    rewrite (bind_eq _ _ s r s) by (unfold get_request, mbind, M_bind, get; by rewrite Hr).
    rewrite (bind_eq _ _ s r s) by (unfold get_request, mbind, M_bind, get; by rewrite Hr).
    set (s1 := with_events s (have_self_avatar s) (events s ++ completion b64 sha1 id r None)).
    exists (have_self_avatar s), (events s ++ completion b64 sha1 id r None).
    rewrite (bind_eq _ _ s tt s1).
    2: { unfold s1, completion. destruct (r_callback r); cbn; [rewrite app_nil_r; by destruct s|done|done]. }
    unfold delete_request.
    rewrite (bind_eq _ _ s1 r s1) by (unfold get_request, mbind, M_bind, get; cbn; by rewrite Hr).
    rewrite (bind_eq _ _ s1 e s1) by (unfold get_entry, mbind, M_bind, get; cbn; by rewrite Hl).
    set (s2 := with_tables s1 (<[r_entry r := e']> (cache s)) (timed_cache s) (requests s)).
    rewrite (bind_eq _ _ s1 tt s2) by reflexivity.
    rewrite (bind_eq _ _ s2 tt s2); [done|]. unfold cache_entry_attempt_to_free.
    rewrite (bind_eq _ _ s2 e' s2)
      by (unfold get_entry, mbind, M_bind, get; cbn; by rewrite lookup_insert_eq).
    destruct (bool_decide (vcard_node e' ≠ None)); [done|]. cbn [e' pipeline_item with_pending].
    by rewrite Hit. }
  eexists. split; [exact Hrun|]. split; [apply lookup_delete_eq|]. intros c reply error.
  cbn [handle]. unfold pipeline_answers. rewrite (bind_eq _ _ _ _ _ (eq_refl : get _ = Ok (_, _))).
  cbn [pipeline with_tables with_events]. rewrite Hp.
  erewrite bind_eq by reflexivity. unfold pipeline_reply_cb. apply bind_Abort.
  unfold get_request, mbind, M_bind, get. cbn. by rewrite lookup_delete_eq.
Qed.

End runs.

(** ** What an edit does to a vCard *)

(** An edit that [edit_info_new] made, perhaps with children added. *)
Definition made (info : GabbleVCardManagerEditInfo) : Prop :=
  match edit_type info with
  | REPLACE | APPEND => ∃ el, element info = Some el ∧ element_name info = Some (name el)
  | DELETE | CLEAR => True
  | SET_ALIAS => element_name info = None
  end.

Lemma edit_info_new_made nm value ty info :
  gabble_vcard_manager_edit_info_new nm value ty = Some info → made info.
Proof.
  destruct ty, nm as [n|], value; cbn; intros [= <-]; try done; by eexists.
Qed.

Lemma edit_info_add_child_made info key value :
  made info → made (gabble_vcard_manager_edit_info_add_child info key value).
Proof.
  unfold gabble_vcard_manager_edit_info_add_child. destruct (element info) as [el|] eqn:Ee; [|done].
  unfold made. cbn. destruct (edit_type info); try done; intros (el' & Hel & Hn); eexists; split; try done;
    rewrite Hn; assert (el' = el) as -> by congruence; done.
Qed.

(** The fields of a vCard. *)
Definition fields (v : WockyNode) (n : string) : list WockyNode :=
  List.filter (named (Some n)) (children v).

(** The specification of an edit: which fields it leaves. *)
Definition spec_replace (c : Conn) (nm : string) (el : WockyNode) (f : string → list WockyNode) :
    string → list WockyNode := λ n,
  if bool_decide (n = nm) && gabble_vcard_manager_can_use_vcard_field c (Some nm) then [el] else f n.

Definition alias_node (nm : string) (alias : option string) : WockyNode :=
  mkNode nm alias (Some NS_VCARD_TEMP) [] [].

Definition alias_field (c : Conn) : string :=
  if gabble_vcard_manager_can_use_vcard_field c (Some "NICKNAME") then "NICKNAME" else "FN".

Definition spec_edit (c : Conn) (info : GabbleVCardManagerEditInfo) (f : string → list WockyNode) :
    string → list WockyNode :=
  match edit_type info, element_name info, element info with
  | REPLACE, Some nm, Some el => spec_replace c nm el f
  | APPEND, Some nm, Some el => λ n,
      if bool_decide (n = nm) && gabble_vcard_manager_can_use_vcard_field c (Some nm)
      then f n ++ [el] else f n
  | DELETE, Some nm, _ => λ n, if bool_decide (n = nm) then [] else f n
  | DELETE, None, _ => λ _, []
  | CLEAR, _, _ => λ n, if bool_decide (n = "PHOTO") then f n else []
  | SET_ALIAS, _, _ =>
      match new_alias info with
      | Some _ => spec_replace c (alias_field c) (alias_node (alias_field c) (new_alias info)) f
      | None =>
          if bool_decide (f (alias_field c) ≠ []) ||
             (fst (cached_alias c) <? Roster.GABBLE_CONNECTION_ALIAS_FROM_VCARD) then f
          else spec_replace c (alias_field c) (alias_node (alias_field c) (snd (cached_alias c))) f
      end
  | _, _, _ => f
  end.

(** Nodes the code takes for the same. *)
Definition same_node : relation WockyNode := rtc (λ x y, wocky_node_equal x y = true).
Definition same_fields (f g : string → list WockyNode) : Prop :=
  ∀ n, Forall2 same_node (f n) (g n).

#[global] Instance same_node_preorder : PreOrder same_node.
Proof. apply rtc_po. Qed.

#[global] Instance same_fields_preorder : PreOrder same_fields.
Proof.
  split.
  - by intros f n.
  - intros f g k Hfg Hgk n. by etrans; [apply Hfg|apply Hgk].
Qed.

(** The specification does not tell such nodes apart. *)
Lemma spec_replace_mono c nm el f g :
  same_fields f g → same_fields (spec_replace c nm el f) (spec_replace c nm el g).
Proof.
  intros Hfg n. unfold spec_replace. destruct (_ && _); [|apply Hfg].
  apply Forall2_cons_2; [apply rtc_refl|apply Forall2_nil_2].
Qed.

#[global] Instance spec_edit_proper c info : Proper (same_fields ==> same_fields) (spec_edit c info).
Proof.
  intros f g Hfg. unfold spec_edit.
  destruct (edit_type info); [destruct (element_name info), (element info)..| |]; try done.
  - by apply spec_replace_mono.
  - intros n. destruct (_ && _); [|apply Hfg]. apply Forall2_app; [apply Hfg|].
    apply Forall2_cons_2; [apply rtc_refl|apply Forall2_nil_2].
  - intros n. destruct (bool_decide _); [apply Forall2_nil_2|apply Hfg].
  - intros n. destruct (bool_decide _); [apply Forall2_nil_2|apply Hfg].
  - by destruct (element_name info); intros n; destruct (bool_decide _); try apply Hfg; apply Forall2_nil_2.
  - destruct (new_alias info); [by apply spec_replace_mono|].
    assert (bool_decide (f (alias_field c) ≠ []) = bool_decide (g (alias_field c) ≠ [])) as ->.
    { apply bool_decide_ext. specialize (Hfg (alias_field c)). inversion Hfg; naive_solver. }
    destruct (_ || _); [done|by apply spec_replace_mono].
Qed.

Lemma fields_removed v nm n :
  fields (fst (remove_all_children_named v (Some nm))) n =
  if bool_decide (n = nm) then [] else fields v n.
Proof.
  unfold fields. cbn. induction (children v) as [|x l IH]; cbn; [by destruct (bool_decide _)|].
  destruct (bool_decide_reflect (name x = nm)) as [Hx|Hx]; cbn;
    rewrite IH; destruct (bool_decide_reflect (n = nm)) as [Hn|Hn];
    destruct (bool_decide_reflect (name x = n)); congruence.
Qed.

Lemma fields_added v el n :
  fields (wocky_node_add_node_tree v el) n =
  fields v n ++ if bool_decide (n = name el) then [el] else [].
Proof.
  unfold fields, wocky_node_add_node_tree. cbn. rewrite List.filter_app. cbn.
  f_equal. destruct (bool_decide_reflect (name el = n)), (bool_decide_reflect (n = name el)); congruence.
Qed.

Lemma insignificant el l :
  significant el false l = false → ∃ x, l = [x] ∧ wocky_node_equal x el = true.
Proof.
  destruct l as [|x [|y l]]; cbn; [done| |by destruct (wocky_node_equal x el)].
  destruct (wocky_node_equal x el) eqn:E; [|done]. by exists x.
Qed.

Lemma replace_refines c info v el :
  element info = Some el → element_name info = Some (name el) →
  let '(v', b) := gabble_vcard_manager_edit_info_apply_replace c info v in
  same_fields (fields v') (spec_replace c (name el) el (fields v)) ∧ (b = false → v' = v).
Proof.
  intros He Hn. unfold gabble_vcard_manager_edit_info_apply_replace, spec_replace. rewrite Hn.
  destruct (gabble_vcard_manager_can_use_vcard_field c (Some (name el))); cbn [negb].
  2: { split; [|done]. intros n. rewrite andb_false_r. reflexivity. }
  unfold gabble_vcard_manager_replace_is_significant. rewrite He, Hn.
  destruct (significant el false _) eqn:Es; cbn [negb].
  - split; [|done]. intros n. unfold add_element. rewrite He, fields_added, fields_removed, andb_true_r.
    destruct (bool_decide (n = name el)); [|rewrite app_nil_r; reflexivity].
    apply Forall2_cons_2; [apply rtc_refl|apply Forall2_nil_2].
  - split; [|done]. intros n. rewrite andb_true_r.
    destruct (bool_decide_reflect (n = name el)) as [->|Hne]; [|reflexivity].
    apply insignificant in Es as (x & Hx & Hxe). unfold fields. rewrite Hx.
    apply Forall2_cons_2; [by apply rtc_once|apply Forall2_nil_2].
Qed.

Lemma removed_none nm v :
  existsb (named nm) (children v) = false → fst (remove_all_children_named v nm) = v.
Proof.
  intros He. unfold remove_all_children_named. cbn. destruct v as [nm' ct ns' at' l]. unfold set_children.
  cbn in *. f_equal. induction l as [|x l IH]; [done|]. cbn in *. apply orb_false_iff in He as [Hx Hl].
  rewrite Hx. cbn. by rewrite IH.
Qed.

Lemma removed_all v n : fields (fst (remove_all_children_named v None)) n = [].
Proof. unfold fields. cbn. by induction (children v). Qed.

Lemma fields_cleared v n :
  fields (fst (gabble_vcard_manager_edit_info_apply_clear v)) n =
  if bool_decide (n = "PHOTO") then fields v n else [].
Proof.
  unfold fields. cbn. induction (children v) as [|x l IH]; cbn; [by destruct (bool_decide _)|].
  destruct (bool_decide_reflect (name x = "PHOTO")) as [Hx|Hx]; cbn;
    rewrite IH; destruct (bool_decide_reflect (n = "PHOTO")) as [Hn|Hn];
    destruct (bool_decide_reflect (name x = n)); congruence.
Qed.

Lemma cleared_none v :
  existsb (λ n, negb (named (Some "PHOTO") n)) (children v) = false →
  fst (gabble_vcard_manager_edit_info_apply_clear v) = v.
Proof.
  intros He. unfold gabble_vcard_manager_edit_info_apply_clear. cbn [fst].
  destruct v as [nm' ct ns' at' l]. unfold set_children. cbn [children] in *.
  cbn. f_equal. induction l as [|x l IH]; [done|]. cbn in *. apply orb_false_iff in He as [Hx Hl].
  apply negb_false_iff in Hx. rewrite Hx. by rewrite IH.
Qed.

Lemma fields_child v nm : wocky_node_get_child v nm = None ↔ fields v nm = [].
Proof.
  unfold wocky_node_get_child, wocky_node_get_child_ns, fields.
  change (node_compare_child (Some nm) None) with (named (Some nm)).
  induction (children v) as [|x l IH]; [done|]. cbn [List.find List.filter].
  by destruct (named (Some nm) x).
Qed.

Lemma set_alias_refines c info v v' b :
  edit_type info = SET_ALIAS → element_name info = None →
  gabble_vcard_manager_edit_info_apply_set_alias c info v = Some (v', b) →
  same_fields (fields v') (spec_edit c info (fields v)) ∧ (b = false → v' = v).
Proof.
  intros Ht Hn. unfold gabble_vcard_manager_edit_info_apply_set_alias, spec_edit. rewrite Ht, Hn.
  rewrite bool_decide_eq_false_2 by tauto. fold (alias_field c). cbv zeta.
  pose proof (λ alias, replace_refines c (mkInfo (Some (alias_field c)) REPLACE
    (Some (alias_node (alias_field c) alias)) alias) v (alias_node (alias_field c) alias) eq_refl eq_refl)
    as Hrep. cbn [name alias_node] in Hrep.
  destruct (new_alias info) as [a|].
  - intros [= Ha]. specialize (Hrep (Some a)). unfold alias_node in Hrep. by rewrite Ha in Hrep.
  - assert (bool_decide (is_Some (wocky_node_get_child v (alias_field c))) =
      bool_decide (fields v (alias_field c) ≠ [])) as ->.
    { apply bool_decide_ext. rewrite <- fields_child, <- not_eq_None_Some. done. }
    destruct (bool_decide _); [intros [= <- <-]; by split|]. cbn [orb].
    destruct (cached_alias c) as [src alias]. cbn [fst snd].
    destruct (src <? _); [intros [= <- <-]; by split|]. intros [= Ha].
    specialize (Hrep alias). unfold alias_node in Hrep. by rewrite Ha in Hrep.
Qed.

Lemma edit_refines c info v v' b :
  made info → gabble_vcard_manager_edit_info_apply c info v = Some (v', b) →
  same_fields (fields v') (spec_edit c info (fields v)) ∧ (b = false → v' = v).
Proof.
  unfold made, gabble_vcard_manager_edit_info_apply. destruct (edit_type info) eqn:Et.
  - intros (el & He & Hn) [= Ha]. pose proof (replace_refines c info v el He Hn) as Hrep.
    rewrite Ha in Hrep. unfold spec_edit. by rewrite Et, He, Hn.
  - intros (el & He & Hn). unfold gabble_vcard_manager_edit_info_apply_append, spec_edit.
    rewrite Et, He, Hn. destruct (gabble_vcard_manager_can_use_vcard_field _ _); intros [= <- <-].
    + split; [|done]. intros n. unfold add_element. rewrite He, fields_added, andb_true_r.
      destruct (bool_decide _); by rewrite ?app_nil_r.
    + split; [|done]. intros n. by rewrite andb_false_r.
  - intros _ [= Hv Hb]. unfold spec_edit. rewrite Et.
    change (fst (remove_all_children_named v (element_name info)) = v') in Hv. split.
    + intros n. rewrite <- Hv. destruct (element_name info); by rewrite ?fields_removed, ?removed_all.
    + intros ->. rewrite <- Hv. by apply removed_none.
  - intros _ [= Hv Hb]. change (fst (gabble_vcard_manager_edit_info_apply_clear v) = v') in Hv. split.
    + intros n. rewrite <- Hv, fields_cleared. unfold spec_edit. rewrite Et. by destruct (element_name info).
    + intros ->. rewrite <- Hv. by apply cleared_none.
  - intros Hn Ha. by apply set_alias_refines.
Qed.

Lemma apply_edits_refines c l v v' b0 b :
  Forall made l → apply_edits c l v b0 = Some (v', b) →
  same_fields (fields v') (foldl (λ f info, spec_edit c info f) (fields v) l) ∧
  (b = false → v' = v ∧ b0 = false).
Proof.
  revert v b0. induction l as [|info l IH]; intros v b0 Hm Ha.
  - injection Ha as -> ->. split; [reflexivity|done].
  - apply Forall_cons in Hm as [Hi Hm]. cbn in Ha.
    destruct (gabble_vcard_manager_edit_info_apply c info v) as [[v1 b1]|] eqn:Ee; [|done].
    destruct (edit_refines c info v v1 b1 Hi Ee) as [H1 Hno]. cbn in Ha.
    destruct (IH v1 (b0 || b1) Hm Ha) as [H2 Hno2]. split.
    + etrans; [exact H2|]. cbn. clear -H1. revert H1. generalize (fields v1), (spec_edit c info (fields v)).
      induction l as [|i l IH]; intros f g Hfg; [done|]. cbn. apply IH. by apply spec_edit_proper.
    + intros Hb. destruct (Hno2 Hb) as [-> Hor]. apply orb_false_iff in Hor as [? ?]. auto.
Qed.

(** C12: a list of edits leaves a vCard with the fields
    that the specification of the edits, one after the other, leaves it with,
    up to nodes that [wocky_node_equal] takes for the same; and when the code
    says that nothing changed, so that nothing is sent, nothing did. *)
Theorem vcard_edits_refine c l v v' changed :
  Forall made l → apply_edits c l v false = Some (v', changed) →
  same_fields (fields v') (foldl (λ f info, spec_edit c info f) (fields v) l) ∧
  (changed = false → v' = v).
Proof.
  intros Hm Ha. destruct (apply_edits_refines c l v v' false changed Hm Ha) as [? Hno].
  split; [done|]. intros Hc. by destruct (Hno Hc).
Qed.

(** ** Concrete runs *)

Local Notation Manager := (GabbleVCardManager (list string)).
Local Notation input := (vcard_input (list string)).

(** We are contact 1; bob is contact 2. *)
Definition repo : list string := ["me@example.com"; "bob@example.com"].
Definition conn : Conn := mkConn true false (0, None) 1000.
Definition hdl : input → M Manager unit := handle Some (λ x, x) 1.
Definition start : Manager := gabble_vcard_manager_init repo.
Definition ok (i : input) (s : Manager) : Prop := enabled 1 s i.

(** Inputs that are each what the callers may give, the guards aside. *)
Inductive runs : Manager → list input → Manager → Prop :=
  | runs_nil s : runs s [] s
  | runs_cons s s1 s2 i l : ok i s → hdl i s = Ok (tt, s1) → runs s1 l s2 → runs s (i :: l) s2.

Definition step (i : input) (s : Manager) : Manager :=
  match hdl i s with Ok (_, s') => s' | Abort _ => s end.
Definition steps (l : list input) : Manager := foldl (λ s i, step i s) start l.

Definition field (nm value : string) : WockyNode := mkNode nm (Some value) (Some NS_VCARD_TEMP) [] [].
Definition reply_of (l : list WockyNode) : option WockyNode :=
  Some (mkNode "iq" None (Some "jabber:client") []
    [mkNode "vCard" None (Some NS_VCARD_TEMP) [] l]).
Definition nickname (value : string) : GabbleVCardManagerEditInfo :=
  mkInfo (Some "NICKNAME") REPLACE (Some (field "NICKNAME" value)) None.
Definition failure : option reply_error := Some (mkError false false).

Definition asks : list input := [Ask conn 2 0 UserCb; Ask conn 2 30 UserCb].
Definition editing : list input := [Edit conn true [nickname "a"]].
Definition edited : list input := editing ++ [Answer conn 0 (reply_of []) None].

Lemma init_reachable : reachable Some (λ x, x) 1 start.
Proof. by apply reachable_init. Qed.

Definition succeeds (i : input) (s : Manager) : bool :=
  match hdl i s with Ok _ => true | Abort _ => false end.

Lemma step_ok i s : succeeds i s = true → hdl i s = Ok (tt, step i s).
Proof. unfold succeeds, step. by destruct (hdl i s) as [[[] s']|]. Qed.

Lemma steps_snoc l i : steps (l ++ [i]) = step i (steps l).
Proof. unfold steps. by rewrite foldl_app. Qed.

Lemma extend_reachable l i :
  reachable Some (λ x, x) 1 (steps l) → ok i (steps l) → guarded 1 (steps l) i →
  succeeds i (steps l) = true → reachable Some (λ x, x) 1 (steps (l ++ [i])).
Proof.
  intros Hr He Hg Hs. rewrite steps_snoc. eapply reachable_step; [exact Hr|exact He|exact Hg|].
  by apply step_ok.
Qed.

Lemma runs_then s l s2 i :
  runs s l s2 → ok i s2 → succeeds i s2 = true → runs s (l ++ [i]) (step i s2).
Proof.
  induction 1 as [s|s s1 s2 i' l' Hok Hrun H IH]; intros He Hs.
  - eapply (runs_cons _ (step i s)); [done|by apply step_ok|constructor].
  - eapply (runs_cons _ s1); [done|done|by apply IH].
Qed.

Lemma runs_snoc l i :
  runs start l (steps l) → ok i (steps l) → succeeds i (steps l) = true →
  runs start (l ++ [i]) (steps (l ++ [i])).
Proof. rewrite steps_snoc. apply runs_then. Qed.

Lemma asks_reachable : reachable Some (λ x, x) 1 (steps asks).
Proof.
  apply (extend_reachable [Ask conn 2 0 UserCb]); [|by vm_compute|done|by vm_compute].
  apply (extend_reachable []); [apply init_reachable|by vm_compute|done|by vm_compute].
Qed.

Lemma editing_reachable : reachable Some (λ x, x) 1 (steps editing).
Proof.
  apply (extend_reachable []); [apply init_reachable| |done|by vm_compute].
  by apply Forall_singleton.
Qed.

Lemma edited_reachable : reachable Some (λ x, x) 1 (steps edited).
Proof.
  apply (extend_reachable editing); [apply editing_reachable| |by intros id r _ _ [=]|by vm_compute].
  split; [vm_compute; by eexists|by eexists].
Qed.

Lemma editing_runs : runs start editing (steps editing).
Proof. apply (runs_snoc []); [constructor|by apply Forall_singleton|by vm_compute]. Qed.

Lemma edited_runs : runs start edited (steps edited).
Proof.
  apply runs_snoc; [apply editing_runs| |by vm_compute]. split; [vm_compute; by eexists|by eexists].
Qed.

(** *** The guards are needed *)

(** With an edit under way and another waiting,
    a failure to fetch our vCard makes the manager forget the first edit's
    item, and the server's acceptance of that edit then fails an assertion. *)
Theorem failed_fetch_aborts_edit :
  let l := edited ++ [Edit conn true [nickname "b"]] ++ [Ask conn 1 0 UserCb] ++
    [Answer conn 2 None failure] in
  runs start l (steps l) ∧ ok (Answer conn 1 (reply_of []) None) (steps l) ∧
  hdl (Answer conn 1 (reply_of []) None) (steps l) = Abort AssertFailed.
Proof.
  cbv zeta. rewrite !app_assoc. split; [|split; [split; [vm_compute; by eexists|by eexists]|by vm_compute]].
  apply runs_snoc; [|split; [vm_compute; by eexists|done]|by vm_compute].
  apply runs_snoc; [|by vm_compute|by vm_compute].
  apply runs_snoc; [apply edited_runs|by apply Forall_singleton|by vm_compute].
Qed.

(** An edit that changes nothing is never answered:
    its caller's callback is not called, nothing is in the pipeline whose reply
    would call it, and no edit is left that would be sent. *)
Theorem no_op_edit_unanswered :
  let l := [Edit conn true [nickname "a"]] ++ [Answer conn 0 (reply_of [field "NICKNAME" "a"]) None] in
  runs start l (steps l) ∧ length (edit_requests (steps l)) = 1%nat ∧
  pipeline (steps l) = ∅ ∧ edits (steps l) = [] ∧
  Forall (λ ev, ∀ id b, ev ≠ EditCallback id b) (events (steps l)).
Proof.
  cbv zeta. split_and!; [|by vm_compute..|].
  - apply runs_snoc; [apply editing_runs| |by vm_compute]. split; [vm_compute; by eexists|by eexists].
  - vm_compute. repeat constructor; done.
Qed.

(** When the manager goes while a request waits
    for its timer, the entry is freed with its last request and then read. *)
Theorem dispose_reads_freed_entry :
  let l := [Ask conn 2 0 UserCb] ++ [Answer conn 0 (reply_of []) (Some (mkError false true))] in
  runs start l (steps l) ∧
  gabble_vcard_manager_dispose Some (λ x, x) 1 conn (steps l) = Abort MemoryFault.
Proof.
  cbv zeta. split; [|by vm_compute].
  apply runs_snoc; [|split; [vm_compute; by eexists|by eexists]|by vm_compute].
  apply (runs_snoc []); [constructor|by vm_compute|by vm_compute].
Qed.

(** *** The theorems at work *)

Lemma vcard_safe_witness :
  ∃ s', hdl (Ask conn 2 0 UserCb) (steps asks) = Ok (tt, s') ∧ reachable Some (λ x, x) 1 s'.
Proof. apply vcard_safe; [apply asks_reachable|by vm_compute|exact I]. Defined.

Lemma vcard_reply_serves_all_witness :
  ∃ s', hdl (Answer conn 0 (reply_of [field "FN" "Bob"]) None) (steps asks) = Ok (tt, s') ∧
    gabble_vcard_manager_get_cached s' 2 = Some (mkNode "vCard" None (Some NS_VCARD_TEMP) [] [field "FN" "Bob"]) ∧
    called s' = [1; 0].
Proof.
  destruct (vcard_reply_serves_all Some (λ x, x) 1 conn (steps asks) 0 0 (mkRequest 2 true 180 UserCb)
    (mkEntry (Some 0) [1; 0] None None 0) (mkNode "iq" None (Some "jabber:client") []
    [mkNode "vCard" None (Some NS_VCARD_TEMP) [] [field "FN" "Bob"]]) None asks_reachable)
    as (s' & Hrun & Hc & _ & _ & _ & Hev); [by vm_compute..|].
  exists s'. split; [exact Hrun|]. split; [exact Hc|]. unfold called. rewrite Hev. by vm_compute.
Defined.

Lemma vcard_request_progress_witness : ∃ it lead, pipeline (steps asks) !! it = Some (PipelineReplyCb lead).
Proof.
  destruct (vcard_request_progress Some (λ x, x) 1 (steps asks) 0 (mkRequest 2 true 180 UserCb)
    asks_reachable ltac:(by vm_compute)) as [(it & lead & Hp & _)|(lead & s' & (h & e & Hl & Hs) & _)].
  - by exists it, lead.
  - by exists 0, 0.
Defined.

Lemma vcard_callbacks_once_witness : NoDup (called (steps asks)) ∧ 0 ∉ called (steps asks).
Proof.
  destruct (vcard_callbacks_once Some (λ x, x) 1 (steps asks) asks_reachable) as [Hn Hr].
  split; [exact Hn|]. apply (Hr 0 (mkRequest 2 true 180 UserCb)). by vm_compute.
Defined.

Lemma vcard_cache_expires_witness :
  ∃ s', hdl (CacheTimer (mkConn true false (0, None) 2000)) (steps edited) = Ok (tt, s') ∧
    cache s' !! 1 = None ∧ cache_timer s' = false.
Proof.
  destruct (vcard_cache_expires Some (λ x, x) 1 (mkConn true false (0, None) 2000) (steps edited)
    edited_reachable) as (s' & Hrun & Hl & Hc & Ht & _).
  exists s'. split; [exact Hrun|]. split; [rewrite Hc; by vm_compute|]. rewrite Ht.
  apply bool_decide_eq_false_2. intros Hx. apply Hx. destruct (timed_cache s') as [|h l] eqn:E; [done|].
  exfalso. destruct (Hl h) as [Hh _]. destruct Hh as [Hin Hlt]; [by left|].
  assert (h = 1) as ->; [|vm_compute in Hlt; discriminate].
  apply list_elem_of_singleton. change [1] with (timed_cache (steps edited)). exact Hin.
Defined.

Lemma vcard_edit_acknowledged_witness :
  ∃ v s', patched_vcard (steps edited) = Some v ∧
    hdl (Answer conn 1 None None) (steps edited) = Ok (tt, s') ∧
    gabble_vcard_manager_get_cached s' 1 = Some v.
Proof.
  destruct (vcard_edit_acknowledged Some (λ x, x) 1 conn (steps edited) 1 None edited_reachable
    ltac:(by vm_compute)) as (v & s' & Hp & Hrun & Hc & _). exists v, s'.
  split; [exact Hp|]. split; [exact Hrun|exact Hc].
Defined.

Lemma vcard_fetch_failure_reported_witness :
  ∃ s', hdl (Answer conn 0 None failure) (steps editing) = Ok (tt, s') ∧ edits s' = [] ∧
    EditCallback 1 false ∈ events s'.
Proof.
  destruct (vcard_fetch_failure_reported Some (λ x, x) 1 conn (steps editing) 0 0
    (mkRequest 1 true 180 NoCallback) (mkEntry (Some 0) [0] None None 0) None failure editing_reachable)
    as (s' & Hrun & _ & He & _ & Hev); try by vm_compute.
  exists s'. split; [exact Hrun|]. split; [exact He|]. rewrite Hev. vm_compute. apply elem_of_cons. right. by left.
Defined.

Lemma cancelled_leader_use_after_free_witness :
  ∃ s', hdl (Cancel 0) (steps asks) = Ok (tt, s') ∧
    hdl (Answer conn 0 (reply_of []) None) s' = Abort MemoryFault.
Proof.
  destruct (cancelled_leader_use_after_free Some (λ x, x) 1 (steps asks) 0 0 asks_reachable
    ltac:(by vm_compute)) as (s' & Hrun & _ & Hab). exists s'. split; [exact Hrun|apply Hab].
Defined.

Lemma vcard_edits_refine_witness :
  let l := [nickname "a"; mkInfo (Some "FN") DELETE None None] in
  let v := mkNode "vCard" None (Some NS_VCARD_TEMP) [] [field "FN" "x"; field "NICKNAME" "y"; field "URL" "z"] in
  let v' := mkNode "vCard" None (Some NS_VCARD_TEMP) [] [field "URL" "z"; field "NICKNAME" "a"] in
  apply_edits conn l v false = Some (v', true) ∧
    same_fields (fields v') (foldl (λ f info, spec_edit conn info f) (fields v) l).
Proof.
  cbv zeta.
  assert (apply_edits conn [nickname "a"; mkInfo (Some "FN") DELETE None None]
    (mkNode "vCard" None (Some NS_VCARD_TEMP) [] [field "FN" "x"; field "NICKNAME" "y"; field "URL" "z"]) false =
    Some (mkNode "vCard" None (Some NS_VCARD_TEMP) [] [field "URL" "z"; field "NICKNAME" "a"], true)) as Ha
    by (vm_compute; reflexivity).
  split; [exact Ha|]. refine (proj1 (vcard_edits_refine _ _ _ _ _ _ Ha)).
  apply Forall_cons. split; [by eexists|]. by apply Forall_singleton.
Defined.


End VCardTheorems.
