(* ===== verification/Disco.v ===== *)
(** * Service discovery (src/disco.c)

    Requests for what an entity is and has, the pipelines that ask about all
    the items of a server, and the services found on our own.  A pointer to a
    request is its address: the memory of a request that was freed can be
    given to another one, and the code compares pointers.  The callbacks of
    other components are outside: what they do to the rest of the program is
    the class [DiscoClient]; they do not call back into this one. *)

From S2P Require Import Prelude Node Namespaces XmppError.

(** What the rest of the program does when it is called back; the user of a
    pipeline can look at the services that were found. *)
Class DiscoClient (W : Type) (Item : Type) (Error : Type) := {
  request_cb : nat → option WockyNode → option Error → W → W;
  pipeline_cb : list Item → nat → Item → W → W;
  pipeline_end_cb : nat → W → W;
}.

(** The allocator of requests, and the order of a hash table. *)
Class Runtime := {
  malloc : gset nat → nat;
  first_item : gset string → option string;
}.
Class RuntimeLaws `{Runtime} := {
  malloc_fresh X : malloc X ∉ X;
  first_item_Some X j : first_item X = Some j → j ∈ X;
  first_item_None X : first_item X = None → X = ∅;
}.

Module Disco.
Import Namespaces.

Definition NS_DISCO_ITEMS : string := "http://jabber.org/protocol/disco#items".

Definition DISCO_PIPELINE_SIZE : nat := 10.

(** ** Data *)

Inductive GabbleDiscoType := GABBLE_DISCO_TYPE_INFO | GABBLE_DISCO_TYPE_ITEMS.

Inductive GabbleDiscoError :=
  | GABBLE_DISCO_ERROR_CANCELLED
  | GABBLE_DISCO_ERROR_TIMEOUT
  | GABBLE_DISCO_ERROR_UNKNOWN
  | StanzaError (code : XmppError.WockyXmppError) (message : string).

(** The callbacks with their user data. *)
Inductive GabbleDiscoCb :=
  | ClientCb (user_data : nat)
  | ItemInfoCb (pipeline : nat)
  | DiscoItemsCb (pipeline : nat).
#[global] Instance GabbleDiscoCb_eq_dec : EqDecision GabbleDiscoCb.
Proof. solve_decision. Defined.

Inductive GObject := TheDisco | OtherObject (n : nat).
#[global] Instance GObject_eq_dec : EqDecision GObject.
Proof. solve_decision. Defined.

(** [serial] numbers the requests in the order they were made; the program
    does not have it.  [timer]: the timer is running. *)
Record GabbleDiscoRequest := mkRequest {
  serial : nat;
  r_type : GabbleDiscoType;
  r_jid : string;
  r_node : option string;
  r_callback : GabbleDiscoCb;
  bound_object : option GObject;
  timer : bool;
}.

Record GabbleDiscoItem := mkItem {
  item_jid : string;
  item_name : string;
  item_category : string;
  item_type : string;
  item_features : gmap string (option string);
}.

(** Whose pipeline it is: [services_cb] and [end_cb], or the callbacks of
    another component. *)
Inductive PipelineUser := Services | OtherUser (user_data : nat).

(** [list_request]: [None] until it is first assigned. *)
Record GabbleDiscoPipeline := mkPipeline {
  p_user : PipelineUser;
  disco_pipeline : list (option nat);
  remaining_items : gset string;
  list_request : option (option nat);
  running : bool;
}.

Inductive disco_event :=
  | SendIq (iq : nat) (stanza : WockyNode)
  | Called (request : nat) (callback : GabbleDiscoCb) (jid : string)
      (result : option WockyNode) (error : option GabbleDiscoError)
  | NotSent (request : nat)
  | ObjectGone (request : nat)
  | ItemFound (item : GabbleDiscoItem)
  | Done
  | PipelineEnd (user : PipelineUser).

(** [iqs]: the IQs that have no reply yet, with the address their reply will
    be given to and the number of the request they were sent for. *)
Record GabbleDisco (W : Type) := mkDisco {
  service_cache : list GabbleDiscoItem;
  requests : list nat;
  memory : gmap nat GabbleDiscoRequest;
  next_serial : nat;
  iqs : gmap nat (nat * nat);
  next_iq : nat;
  pipelines : gmap nat GabbleDiscoPipeline;
  next_pipeline : nat;
  has_porter : bool;
  dispose_has_run : bool;
  world : W;
  events : list disco_event;
}.
Arguments mkDisco {W}.
Arguments service_cache {W}.
Arguments requests {W}.
Arguments memory {W}.
Arguments next_serial {W}.
Arguments iqs {W}.
Arguments next_iq {W}.
Arguments pipelines {W}.
Arguments next_pipeline {W}.
Arguments has_porter {W}.
Arguments dispose_has_run {W}.
Arguments world {W}.
Arguments events {W}.

(** [g_ptr_array_remove_fast]: the last element takes the place of the one
    that is removed. *)
Definition g_ptr_array_remove_fast {A} `{EqDecision A} (x : A) (l : list A) : list A :=
  match list_find (x =.) l with
  | None => l
  | Some (i, _) =>
      match last l with
      | Some y => take (length l - 1) (<[i := y]> l)
      | None => l
      end
  end.

(** ** Operations *)

Section disco.
Context {W : Type} `{DiscoClient W GabbleDiscoItem GabbleDiscoError} `{Runtime}.
Context (error_domains : list XmppError.WockyXmppErrorDomain).

Local Abbreviation State := (GabbleDisco W).
Local Abbreviation MD := (M State).

(** *** State *)

Definition put_cache (c : list GabbleDiscoItem) : MD unit := modify (λ s,
  mkDisco c (requests s) (memory s) (next_serial s) (iqs s) (next_iq s) (pipelines s)
    (next_pipeline s) (has_porter s) (dispose_has_run s) (world s) (events s)).
Definition put_requests (l : list nat) (m : gmap nat GabbleDiscoRequest) (n : nat) : MD unit :=
  modify (λ s,
  mkDisco (service_cache s) l m n (iqs s) (next_iq s) (pipelines s)
    (next_pipeline s) (has_porter s) (dispose_has_run s) (world s) (events s)).
Definition put_iqs (m : gmap nat (nat * nat)) (n : nat) : MD unit := modify (λ s,
  mkDisco (service_cache s) (requests s) (memory s) (next_serial s) m n (pipelines s)
    (next_pipeline s) (has_porter s) (dispose_has_run s) (world s) (events s)).
Definition put_pipelines (m : gmap nat GabbleDiscoPipeline) (n : nat) : MD unit := modify (λ s,
  mkDisco (service_cache s) (requests s) (memory s) (next_serial s) (iqs s) (next_iq s) m n
    (has_porter s) (dispose_has_run s) (world s) (events s)).
Definition put_disposed : MD unit := modify (λ s,
  mkDisco (service_cache s) (requests s) (memory s) (next_serial s) (iqs s) (next_iq s)
    (pipelines s) (next_pipeline s) (has_porter s) true (world s) (events s)).
Definition put_porter (b : bool) : MD unit := modify (λ s,
  mkDisco (service_cache s) (requests s) (memory s) (next_serial s) (iqs s) (next_iq s)
    (pipelines s) (next_pipeline s) b (dispose_has_run s) (world s) (events s)).
Definition call_out (f : W → W) : MD unit := modify (λ s,
  mkDisco (service_cache s) (requests s) (memory s) (next_serial s) (iqs s) (next_iq s)
    (pipelines s) (next_pipeline s) (has_porter s) (dispose_has_run s) (f (world s)) (events s)).
Definition emit (e : disco_event) : MD unit := modify (λ s,
  mkDisco (service_cache s) (requests s) (memory s) (next_serial s) (iqs s) (next_iq s)
    (pipelines s) (next_pipeline s) (has_porter s) (dispose_has_run s) (world s)
    (events s ++ [e])).

Definition get_request (a : nat) : MD GabbleDiscoRequest :=
  s ← get; match memory s !! a with Some r => mret r | None => fail MemoryFault end.
Definition put_request (a : nat) (r : GabbleDiscoRequest) : MD unit :=
  s ← get; put_requests (requests s) (<[a := r]> (memory s)) (next_serial s).
Definition get_pipeline (p : nat) : MD GabbleDiscoPipeline :=
  s ← get; match pipelines s !! p with Some pl => mret pl | None => fail MemoryFault end.
Definition put_pipeline (p : nat) (pl : GabbleDiscoPipeline) : MD unit :=
  s ← get; put_pipelines (<[p := pl]> (pipelines s)) (next_pipeline s).

Definition with_bound (o : option GObject) (r : GabbleDiscoRequest) : GabbleDiscoRequest :=
  mkRequest (serial r) (r_type r) (r_jid r) (r_node r) (r_callback r) o (timer r).
Definition with_timer (b : bool) (r : GabbleDiscoRequest) : GabbleDiscoRequest :=
  mkRequest (serial r) (r_type r) (r_jid r) (r_node r) (r_callback r) (bound_object r) b.

Definition with_running (b : bool) (pl : GabbleDiscoPipeline) : GabbleDiscoPipeline :=
  mkPipeline (p_user pl) (disco_pipeline pl) (remaining_items pl) (list_request pl) b.
Definition with_list (l : option (option nat)) (pl : GabbleDiscoPipeline) : GabbleDiscoPipeline :=
  mkPipeline (p_user pl) (disco_pipeline pl) (remaining_items pl) l (running pl).
Definition with_items (l : list (option nat)) (r : gset string) (pl : GabbleDiscoPipeline) :
    GabbleDiscoPipeline :=
  mkPipeline (p_user pl) l r (list_request pl) (running pl).

(** *** Requests *)

Definition delete_request (a : nat) : MD unit :=
  get_request a ;;
  s ← get;
  g_assert (bool_decide (a ∈ requests s)) ;;
  put_requests (g_slist_remove a (requests s)) (delete a (memory s)) (next_serial s).

Definition disco_type_to_xmlns (t : GabbleDiscoType) : string :=
  match t with
  | GABBLE_DISCO_TYPE_INFO => NS_DISCO_INFO
  | GABBLE_DISCO_TYPE_ITEMS => NS_DISCO_ITEMS
  end.

Definition request_stanza (t : GabbleDiscoType) (jid : string) (node : option string) : WockyNode :=
  mkNode "iq" None (Some "jabber:client")
    [mkAttribute "type" "get" None; mkAttribute "to" jid None]
    [mkNode "query" None (Some (disco_type_to_xmlns t))
       match node with Some n => [mkAttribute "node" n None] | None => [] end []].

(** The request, or NULL when it could not be sent.  [gabble_disco_request]
    does it with the default timeout. *)
Definition gabble_disco_request (t : GabbleDiscoType) (jid : string) (node : option string)
    (callback : GabbleDiscoCb) (object : option GObject) : MD (option nat) :=
  s ← get;
  let a := malloc (dom (memory s)) in
  let r := mkRequest (next_serial s) t jid node callback object false in
  put_requests (a :: requests s) (<[a := r]> (memory s)) (S (next_serial s)) ;;
  if has_porter s then
    put_iqs (<[next_iq s := (a, serial r)]> (iqs s)) (S (next_iq s)) ;;
    emit (SendIq (next_iq s) (request_stanza t jid node)) ;;
    put_request a (with_timer true r) ;;
    mret (Some a)
  else
    emit (NotSent (serial r)) ;;
    delete_request a ;;
    mret None.

Definition notify_delete_request (a : nat) : MD unit :=
  r ← get_request a;
  put_request a (with_bound None r) ;;
  emit (ObjectGone (serial r)) ;;
  delete_request a.

(** *** Callbacks

    [run a r result error] calls the callback of the request [r] at [a]. *)

Section callbacks.
Context (run : nat → GabbleDiscoRequest → option WockyNode → option GabbleDiscoError → MD unit).

Definition cancel_request (a : nat) : MD unit :=
  r ← get_request a;
  run a r None (Some GABBLE_DISCO_ERROR_CANCELLED) ;;
  delete_request a.

Definition gabble_disco_cancel_request (request : option nat) : MD unit :=
  match request with
  | None => mret tt
  | Some a =>
      s ← get;
      if bool_decide (a ∈ requests s) then cancel_request a else mret tt
  end.

(** Every turn cancels the first request of the array. *)
Fixpoint destroy_loop (fuel : nat) (p : nat) : MD unit :=
  match fuel with
  | O => fail OutOfFuel
  | S n =>
      pl ← get_pipeline p;
      match disco_pipeline pl with
      | [] => mret tt
      | request :: _ => gabble_disco_cancel_request request ;; destroy_loop n p
      end
  end.

Definition gabble_disco_pipeline_destroy (p : nat) : MD unit :=
  pl ← get_pipeline p;
  put_pipeline p (with_running false pl) ;;
  match list_request pl with
  | None => fail MemoryFault
  | Some None => mret tt
  | Some (Some a) =>
      gabble_disco_cancel_request (Some a) ;;
      pl ← get_pipeline p;
      put_pipeline p (with_list (Some None) pl)
  end ;;
  pl ← get_pipeline p;
  destroy_loop (S (length (disco_pipeline pl))) p ;;
  s ← get;
  put_pipelines (delete p (pipelines s)) (next_pipeline s).

Definition services_cb (item : GabbleDiscoItem) : MD unit :=
  s ← get;
  put_cache (item :: service_cache s) ;;
  emit (ItemFound item).

Definition end_cb (p : nat) : MD unit :=
  gabble_disco_pipeline_destroy p ;;
  s ← get;
  put_cache (reverse (service_cache s)) ;;
  emit Done.

(** Every turn adds to the array. *)
Fixpoint fill_loop (fuel : nat) (p : nat) : MD unit :=
  match fuel with
  | O => fail OutOfFuel
  | S n =>
      pl ← get_pipeline p;
      if (length (disco_pipeline pl) <? DISCO_PIPELINE_SIZE)%nat then
        match first_item (remaining_items pl) with
        | None => mret tt
        | Some jid =>
            request ← gabble_disco_request GABBLE_DISCO_TYPE_INFO jid None (ItemInfoCb p)
              (Some TheDisco);
            pl ← get_pipeline p;
            put_pipeline p (with_items (disco_pipeline pl ++ [request])
                              (remaining_items pl ∖ {[jid]}) pl) ;;
            fill_loop n p
        end
      else mret tt
  end.

Definition gabble_disco_fill_pipeline (p : nat) : MD unit :=
  pl ← get_pipeline p;
  if running pl then
    fill_loop (S DISCO_PIPELINE_SIZE) p ;;
    pl ← get_pipeline p;
    when (bool_decide (disco_pipeline pl = []))
      (put_pipeline p (with_running false pl) ;;
       emit (PipelineEnd (p_user pl)) ;;
       match p_user pl with
       | Services => end_cb p
       | OtherUser u => call_out (pipeline_end_cb u)
       end)
  else mret tt.

(** The features of an item, and the fields of its forms. *)
Definition add_field (keys : gmap string (option string)) (field : WockyNode) :
    gmap string (option string) :=
  match wocky_node_get_attribute field "var" with
  | None => keys
  | Some var =>
      match wocky_node_get_child field "value" ≫= content with
      | None => keys
      | Some value => <[var := Some value]> keys
      end
  end.

Definition add_feature (keys : gmap string (option string)) (feature : WockyNode) :
    gmap string (option string) :=
  if bool_decide (name feature = "feature") then
    match wocky_node_get_attribute feature "var" with
    | Some var => <[var := None]> keys
    | None => keys
    end
  else if bool_decide (name feature = "x") && bool_decide (ns feature = Some NS_X_DATA) then
    foldl add_field keys (List.filter (λ f, bool_decide (name f = "field")) (children feature))
  else keys.

(** [None]: the item is not told to the user of the pipeline. *)
Definition item_of_result (jid : string) (result : WockyNode) : option GabbleDiscoItem :=
  identity ← wocky_node_get_child result "identity";
  nm ← wocky_node_get_attribute identity "name";
  category ← wocky_node_get_attribute identity "category";
  ty ← wocky_node_get_attribute identity "type";
  Some (mkItem jid nm category ty (foldl add_feature ∅ (children result))).

Definition item_info_cb (p a : nat) (jid : string) (result : option WockyNode)
    (error : option GabbleDiscoError) : MD unit :=
  pl ← get_pipeline p;
  put_pipeline p (with_items (g_ptr_array_remove_fast (Some a) (disco_pipeline pl))
                    (remaining_items pl) pl) ;;
  match error with
  | Some _ => mret tt
  | None =>
      match result with
      | None => fail MemoryFault
      | Some node =>
          match item_of_result jid node with
          | None => mret tt
          | Some item =>
              match p_user pl with
              | Services => services_cb item
              | OtherUser u => s ← get; call_out (pipeline_cb (service_cache s) u item)
              end
          end
      end
  end ;;
  gabble_disco_fill_pipeline p.

(** The JIDs of the items. *)
Definition items_of_result (result : WockyNode) : gset string :=
  list_to_set (omap (λ item, wocky_node_get_attribute item "jid")
    (List.filter (λ n, bool_decide (name n = "item")) (children result))).

Definition disco_items_cb (p : nat) (result : option WockyNode) (error : option GabbleDiscoError) :
    MD unit :=
  pl ← get_pipeline p;
  put_pipeline p (with_list (Some None) pl) ;;
  match error with
  | Some _ => mret tt
  | None =>
      match result with
      | None => fail MemoryFault
      | Some node =>
          pl ← get_pipeline p;
          put_pipeline p (with_items (disco_pipeline pl)
                            (remaining_items pl ∪ items_of_result node) pl)
      end
  end ;;
  gabble_disco_fill_pipeline p.

Definition call_callback (a : nat) (r : GabbleDiscoRequest) (result : option WockyNode)
    (error : option GabbleDiscoError) : MD unit :=
  emit (Called (serial r) (r_callback r) (r_jid r) result error) ;;
  match r_callback r with
  | ClientCb n => call_out (request_cb n result error)
  | ItemInfoCb p => item_info_cb p a (r_jid r) result error
  | DiscoItemsCb p => disco_items_cb p result error
  end.
End callbacks.

(** A callback may end a pipeline, which cancels what is left of it, whose
    callbacks do nothing but leave the pipeline: two levels. *)
Fixpoint run_callback (depth : nat) (a : nat) (r : GabbleDiscoRequest)
    (result : option WockyNode) (error : option GabbleDiscoError) : MD unit :=
  match depth with
  | O => fail OutOfFuel
  | S n => call_callback (run_callback n) a r result error
  end.

Definition call : nat → GabbleDiscoRequest → option WockyNode → option GabbleDiscoError → MD unit :=
  run_callback 2.

(** *** What the main loop and other components call *)

Definition timeout_request (a : nat) : MD unit :=
  r ← get_request a;
  put_request a (with_bound None r) ;;
  r ← get_request a;
  call a r None (Some GABBLE_DISCO_ERROR_TIMEOUT) ;;
  r ← get_request a;
  put_request a (with_timer false r) ;;
  delete_request a.

Definition request_reply_cb (a : nat) (reply_msg : WockyNode) : MD unit :=
  s ← get;
  if negb (bool_decide (a ∈ requests s)) then mret tt
  else
    r ← get_request a;
    let query_node := wocky_node_get_child_ns reply_msg (Some "query")
                        (Some (disco_type_to_xmlns (r_type r))) in
    let err :=
      match XmppError.wocky_stanza_extract_errors error_domains reply_msg with
      | Some x => Some (StanzaError (XmppError.x_core x).1 (XmppError.x_core x).2)
      | None => match query_node with
                | None => Some GABBLE_DISCO_ERROR_UNKNOWN
                | Some _ => None
                end
      end in
    call a r query_node err ;;
    delete_request a.

(** [message_send_reply_cb] of the connection: the reply to an IQ, or [None]
    when it could not be sent or was cancelled. *)
Definition message_send_reply_cb (iq : nat) (reply : option WockyNode) : MD unit :=
  s ← get;
  match iqs s !! iq with
  | None => mret tt
  | Some (a, _) =>
      put_iqs (delete iq (iqs s)) (next_iq s) ;;
      match reply with
      | Some stanza => if dispose_has_run s then mret tt else request_reply_cb a stanza
      | None => mret tt
      end
  end.

(** An object that requests are bound to goes away. *)
Definition object_dies (o : GObject) : MD unit :=
  s ← get;
  for_each (List.filter (λ a, bool_decide (memory s !! a ≫= bound_object = Some o)) (requests s))
    notify_delete_request.

Definition gabble_disco_pipeline_init (user : PipelineUser) : MD nat :=
  s ← get;
  put_pipelines (<[next_pipeline s := mkPipeline user [] ∅ None true]> (pipelines s))
    (S (next_pipeline s)) ;;
  mret (next_pipeline s).

Definition gabble_disco_pipeline_run (p : nat) (server : string) : MD unit :=
  pl ← get_pipeline p;
  put_pipeline p (with_running true pl) ;;
  request ← gabble_disco_request GABBLE_DISCO_TYPE_ITEMS server None (DiscoItemsCb p)
    (Some TheDisco);
  pl ← get_pipeline p;
  put_pipeline p (with_list (Some request) pl).

(** [status]: whether it is CONNECTED. *)
Definition gabble_disco_conn_status_changed_cb (status : bool) (server : string) : MD unit :=
  when status
    (p ← gabble_disco_pipeline_init Services;
     gabble_disco_pipeline_run p server).

Fixpoint dispose_loop (fuel : nat) : MD unit :=
  match fuel with
  | O => fail OutOfFuel
  | S n =>
      s ← get;
      match requests s with
      | [] => mret tt
      | a :: _ => cancel_request call a ;; dispose_loop n
      end
  end.

(** Every turn frees a request; those that are made meanwhile are about items
    that remained. *)
Definition dispose_fuel (s : State) : nat :=
  S (length (requests s) +
     sum_list ((λ x, size (remaining_items x.2)) <$> map_to_list (pipelines s))).

Definition gabble_disco_dispose : MD unit :=
  s ← get;
  if dispose_has_run s then mret tt
  else
    put_disposed ;;
    dispose_loop (dispose_fuel s) ;;
    put_cache [].

Definition service_matches (category type feature : option string) (item : GabbleDiscoItem) : bool :=
  match category with Some c => bool_decide (c = item_category item) | None => true end &&
  match type with Some t => bool_decide (t = item_type item) | None => true end &&
  match feature with
  | Some f => bool_decide (is_Some (item_features item !! f))
  | None => true
  end.

Definition gabble_disco_service_find (s : State) (category type feature : option string) :
    option GabbleDiscoItem :=
  List.find (service_matches category type feature) (service_cache s).

Definition gabble_disco_init (w : W) : State :=
  mkDisco [] [] ∅ 0 ∅ 0 ∅ 0 false false w [].

End disco.
End Disco.
