(* ===== verification/DiscoFacts.v ===== *)
(** * Service discovery: what holds of it

    The invariant of the requests and the pipelines under every input, what
    becomes of each request, how a pipeline works its items off, and how a
    late reply reaches the wrong request. *)

From S2P Require Import Prelude Node Namespaces XmppError Disco.

Module DiscoFacts.
Import Disco.

(** ** Arrays *)

Lemma remove_fast_perm {A} `{EqDecision A} (x : A) l :
  x ∈ l → l ≡ₚ x :: g_ptr_array_remove_fast x l.
Proof.
  intros Hx. unfold g_ptr_array_remove_fast.
  destruct (list_find (x =.) l) as [[i y]|] eqn:E.
  2:{ apply list_find_None in E. rewrite Forall_forall in E. by destruct (E x Hx). }
  apply list_find_Some in E as (Hi & <- & _).
  destruct (last l) as [z|] eqn:Hl; [|by apply last_None in Hl as ->].
  apply last_Some in Hl as [l' ->]. rewrite length_app. cbn [length].
  replace (length l' + 1 - 1)%nat with (length l') by lia.
  destruct (decide (i < length l')%nat) as [Hlt|Hge].
  - rewrite insert_app_l by done. rewrite take_app_length' by (by rewrite length_insert).
    rewrite lookup_app_l in Hi by done.
    rewrite <-(take_drop_middle l' i x Hi) at 1.
    rewrite insert_take_drop by done. solve_Permutation.
  - rewrite lookup_app_r in Hi by lia. assert (i = length l') as ->.
    { destruct (i - length l')%nat eqn:E; [lia|]. by cbn in Hi; destruct n. }
    rewrite Nat.sub_diag in Hi. injection Hi as ->.
    rewrite insert_app_r_alt, take_app_length by lia. solve_Permutation.
Qed.

Lemma remove_fast_nin {A} `{EqDecision A} (x : A) l :
  x ∉ l → g_ptr_array_remove_fast x l = l.
Proof.
  intros Hx. unfold g_ptr_array_remove_fast.
  destruct (list_find (x =.) l) as [[i y]|] eqn:E; [|done].
  apply list_find_Some in E as (Hi & <- & _). by apply list_elem_of_lookup_2 in Hi.
Qed.

Lemma slist_remove_filter (a : nat) l :
  NoDup l → g_slist_remove a l = filter (λ b, Some a ≠ Some b) l.
Proof.
  induction 1 as [|b l Hb Hnd IH]; [done|]. cbn [g_slist_remove]. rewrite filter_cons.
  destruct (decide (a = b)) as [->|Hne].
  - rewrite decide_False by (intros Hx; by apply Hx). rewrite <-IH.
    by rewrite g_slist_remove_not_in.
  - rewrite decide_True by congruence. by rewrite IH.
Qed.

Lemma filter_true {A} (P : A → Prop) `{∀ x, Decision (P x)} (l : list A) :
  (∀ x, P x) → filter P l = l.
Proof.
  intros HP. induction l as [|b l IH]; [done|]. rewrite filter_cons, decide_True by done. by rewrite IH.
Qed.

Lemma mem_cons {A} (m : gmap nat A) l b r :
  (∀ a, a ∈ l ↔ is_Some (m !! a)) → ∀ a, a ∈ b :: l ↔ is_Some (<[b := r]> m !! a).
Proof.
  intros Hl a. rewrite elem_of_cons, Hl. destruct (decide (a = b)) as [->|Hne].
  - rewrite lookup_insert_eq. split; [by eexists|by left].
  - rewrite lookup_insert_ne by done. split; [by intros [?|?]|by right].
Qed.

(** ** What has become of the requests *)

Definition called (evs : list disco_event) : list nat :=
  omap (λ e, match e with Called k _ _ _ _ => Some k | _ => None end) evs.
(** Those whose callback is not called: they could not be sent, or their
    object is gone. *)
Definition dropped (evs : list disco_event) : list nat :=
  omap (λ e, match e with NotSent k | ObjectGone k => Some k | _ => None end) evs.
(** The pipelines that have ended. *)
Definition ends (evs : list disco_event) : list PipelineUser :=
  omap (λ e, match e with PipelineEnd u => Some u | _ => None end) evs.

Section disco.
Context {W : Type} `{DiscoClient W GabbleDiscoItem GabbleDiscoError} `{RuntimeLaws}.
Context (error_domains : list XmppError.WockyXmppErrorDomain).
Local Abbreviation State := (GabbleDisco W).
Implicit Types s : State.

(** The requests that wait, but for [x]. *)
Definition live (x : option nat) s : list nat :=
  omap (λ a, serial <$> memory s !! a) (filter (λ a, x ≠ Some a) (requests s)).

(** The items a pipeline has yet to hear about. *)
Definition open_items s (pl : GabbleDiscoPipeline) : list string :=
  omap (λ e, a ← e; r_jid <$> memory s !! a) (disco_pipeline pl) ++ elements (remaining_items pl).

(** ** The invariant

    [x] is the request whose callback is being called, [q] the pipeline that
    is being changed. *)

Definition request_ok s (a : nat) (r : GabbleDiscoRequest) : Prop :=
  match r_callback r with
  | ClientCb _ => True
  | ItemInfoCb p => (∀ n, bound_object r ≠ Some (OtherObject n)) ∧
      ∃ pl, pipelines s !! p = Some pl ∧ Some a ∈ disco_pipeline pl
  | DiscoItemsCb p => (∀ n, bound_object r ≠ Some (OtherObject n)) ∧
      ∃ pl, pipelines s !! p = Some pl ∧ list_request pl = Some (Some a)
  end.

(** Before it is run and while it waits for the list, while it asks about the
    items, and after. *)
Definition phase (pl : GabbleDiscoPipeline) : Prop :=
  match list_request pl with
  | Some None =>
      if running pl then
        disco_pipeline pl ≠ [] ∧
        ((length (disco_pipeline pl) < DISCO_PIPELINE_SIZE)%nat → remaining_items pl = ∅)
      else disco_pipeline pl = [] ∧ remaining_items pl = ∅
  | _ => running pl = true ∧ disco_pipeline pl = [] ∧ remaining_items pl = ∅
  end.

Record pipe_ok (x q : option nat) s (p : nat) (pl : GabbleDiscoPipeline) : Prop := {
  pipe_nodup : NoDup (disco_pipeline pl);
  pipe_size : (length (disco_pipeline pl) <= DISCO_PIPELINE_SIZE)%nat;
  pipe_entries e : e ∈ disco_pipeline pl →
    ∃ a r, e = Some a ∧ x ≠ Some a ∧ memory s !! a = Some r ∧ r_callback r = ItemInfoCb p;
  pipe_list a : list_request pl = Some (Some a) →
    x ≠ Some a ∧ ∃ r, memory s !! a = Some r ∧ r_callback r = DiscoItemsCb p;
  pipe_phase : q ≠ Some p → phase pl;
  pipe_porter : list_request pl = None ∨ has_porter s = true;
}.

Record ok (x q : option nat) s : Prop := {
  ok_nodup : NoDup (requests s);
  ok_mem a : a ∈ requests s ↔ is_Some (memory s !! a);
  ok_x a : x = Some a → is_Some (memory s !! a);
  ok_serials :
    called (events s) ++ dropped (events s) ++ live x s ≡ₚ seq 0 (next_serial s);
  ok_request a r : x ≠ Some a → memory s !! a = Some r → timer r = true ∧ request_ok s a r;
  ok_pipe p pl : pipelines s !! p = Some pl → pipe_ok x q s p pl;
  ok_next p : is_Some (pipelines s !! p) → (p < next_pipeline s)%nat;
}.

Lemma init_disco_ok w : ok None None (gabble_disco_init w).
Proof.
  split; cbn; try done.
  - apply NoDup_nil_2.
  - intros a. rewrite lookup_empty. split; [by intros ?%elem_of_nil|by intros []].
  - intros p. rewrite lookup_empty. by intros [].
Qed.

(** ** Changes of the state *)

Lemma live_frame x s s' :
  requests s' = requests s → (∀ a, x ≠ Some a → serial <$> memory s' !! a = serial <$> memory s !! a) →
  live x s' = live x s.
Proof.
  intros Hr Hm. unfold live. rewrite Hr. generalize (requests s). intros l.
  induction l as [|a l IH]; [done|]. rewrite filter_cons. case_decide as Hx; [|done].
  cbn. by rewrite Hm, IH.
Qed.

(** A request starts being called back. *)
Lemma live_call a r s : NoDup (requests s) → a ∈ requests s → memory s !! a = Some r →
  live None s ≡ₚ serial r :: live (Some a) s.
Proof.
  intros Hnd Ha Hm. unfold live. rewrite <-slist_remove_filter by done.
  rewrite (filter_true _ (requests s)) by done.
  rewrite (g_slist_remove_perm a (requests s) Ha) at 1. cbn. by rewrite Hm.
Qed.

(** A request is freed. *)
Lemma live_free a s s' : NoDup (requests s) → a ∈ requests s →
  requests s' = g_slist_remove a (requests s) → memory s' = delete a (memory s) →
  live None s' = live (Some a) s.
Proof.
  intros Hnd Ha Hr Hm. unfold live. rewrite Hr, Hm, slist_remove_filter by done.
  generalize (requests s). intros l. induction l as [|b l IH]; [done|].
  rewrite filter_cons. case_decide as Hb; [|done].
  rewrite filter_cons, decide_True by done. cbn. rewrite lookup_delete_ne by congruence. by rewrite IH.
Qed.

(** A request is made. *)
Lemma live_new x a r s s' : a ∉ requests s → x ≠ Some a →
  requests s' = a :: requests s → memory s' = <[a := r]> (memory s) →
  live x s' = serial r :: live x s.
Proof.
  intros Ha Hx Hr Hm. unfold live. rewrite Hr, filter_cons, decide_True by done. cbn.
  rewrite Hm, lookup_insert_eq. cbn. f_equal. clear Hr. revert Ha.
  generalize (requests s). intros l Ha. induction l as [|b l IH]; [done|].
  apply not_elem_of_cons in Ha as [Hab Ha]. rewrite filter_cons. case_decide; [|by apply IH].
  cbn. rewrite lookup_insert_ne by congruence. by rewrite IH.
Qed.

(** What the invariant is about. *)
Record same s s' : Prop := {
  same_requests : requests s' = requests s;
  same_memory : memory s' = memory s;
  same_serial : next_serial s' = next_serial s;
  same_pipelines : pipelines s' = pipelines s;
  same_next : next_pipeline s' = next_pipeline s;
  same_porter : has_porter s' = has_porter s;
  same_called : called (events s') = called (events s);
  same_dropped : dropped (events s') = dropped (events s);
}.

Lemma ok_same x q s s' : same s s' → ok x q s → ok x q s'.
Proof.
  intros [Hr Hm Hn Hp Hnp Hpo Hc Hd] [K1 K2 K3 K4 K5 K6 K7].
  split; rewrite ?Hr, ?Hm, ?Hn, ?Hp, ?Hnp, ?Hc, ?Hd; try done.
  - rewrite (live_frame x s s') by (done || by rewrite Hm). done.
  - intros a r Hx Ha. destruct (K5 a r Hx Ha) as [Ht Hk]. split; [done|].
    unfold request_ok. by rewrite Hp.
  - intros p pl Hpl. destruct (K6 p pl Hpl) as [E1 E2 E3 E4 E5 E6].
    split; rewrite ?Hm, ?Hpo; done.
Qed.

Lemma called_app a b : called (a ++ b) = called a ++ called b.
Proof. apply omap_app. Qed.
Lemma dropped_app a b : dropped (a ++ b) = dropped a ++ dropped b.
Proof. apply omap_app. Qed.
Lemma ends_app a b : ends (a ++ b) = ends a ++ ends b.
Proof. apply omap_app. Qed.

Lemma wp_request {A} s a r (k : GabbleDiscoRequest → M State A) Q :
  memory s !! a = Some r → wp (k r) Q s → wp (get_request a ≫= k) Q s.
Proof. intros Ha. apply wp_known. unfold get_request, mbind, M_bind, get. by rewrite Ha. Qed.

Lemma wp_pipeline {A} s p pl (k : GabbleDiscoPipeline → M State A) Q :
  pipelines s !! p = Some pl → wp (k pl) Q s → wp (get_pipeline p ≫= k) Q s.
Proof. intros Ha. apply wp_known. unfold get_pipeline, mbind, M_bind, get. by rewrite Ha. Qed.

(** A pipeline does not notice other requests. *)
Lemma pipe_ok_memory x x' q s s' p pl :
  (∀ a r, x ≠ Some a → memory s !! a = Some r → x' ≠ Some a ∧ memory s' !! a = Some r) →
  (has_porter s = true → has_porter s' = true) → pipe_ok x q s p pl → pipe_ok x' q s' p pl.
Proof.
  intros Hm Hp [E1 E2 E3 E4 E5 E6]. split; try done.
  - intros e He. destruct (E3 e He) as (b & r & -> & Hb & Hr & Hc). exists b, r.
    destruct (Hm b r Hb Hr). done.
  - intros b Hb. destruct (E4 b Hb) as (Hne & r & Hr & Hc). destruct (Hm b r Hne Hr). eauto.
  - destruct E6; auto.
Qed.

(** *** Freeing a request *)

Definition freed (a : nat) s : State :=
  mkDisco (service_cache s) (g_slist_remove a (requests s)) (delete a (memory s)) (next_serial s)
    (iqs s) (next_iq s) (pipelines s) (next_pipeline s) (has_porter s) (dispose_has_run s) (world s)
    (events s).

Lemma delete_request_known a r s : memory s !! a = Some r → a ∈ requests s →
  delete_request a s = Ok (tt, freed a s).
Proof.
  intros Hr Ha.
  unfold delete_request, get_request, mbind, M_bind, get. rewrite Hr.
  unfold mret, M_ret, g_assert. by rewrite bool_decide_eq_true_2.
Qed.

Lemma delete_request_eq q a s : ok (Some a) q s → delete_request a s = Ok (tt, freed a s).
Proof.
  intros K. pose proof (ok_x _ _ _ K a eq_refl) as [r Hr].
  eapply delete_request_known; [done|]. apply (ok_mem _ _ _ K). by eexists.
Qed.

Lemma freed_ok q a s : ok (Some a) q s → ok None q (freed a s).
Proof.
  intros K. pose proof K as [K1 K2 K3 K4 K5 K6 K7].
  assert (a ∈ requests s) as Ha by (apply K2, K3; done).
  destruct (g_slist_remove_NoDup a (requests s) K1) as [Hnd Hna]. split; cbn; try done.
  - intros b. destruct (decide (b = a)) as [->|Hne].
    + rewrite lookup_delete_eq. split; [done|by intros []].
    + rewrite lookup_delete_ne by done. rewrite <-K2. split.
      * apply elem_of_g_slist_remove.
      * rewrite (g_slist_remove_perm a (requests s) Ha) at 1.
        intros [?|?]%elem_of_cons; done.
  - rewrite <-(live_free a s (freed a s)) in K4 by done. exact K4.
  - intros b r _ [Hne Hr]%lookup_delete_Some. apply K5; congruence.
  - intros p pl Hpl. apply (pipe_ok_memory (Some a) None q s); [|done|by apply K6].
    intros b r Hb Hr. split; [done|]. cbn. rewrite lookup_delete_ne; congruence.
Qed.

(** *** Making a request *)

Definition address s : nat := malloc (dom (memory s)).

Definition sent (t : GabbleDiscoType) (jid : string) (node : option string) (cb : GabbleDiscoCb)
    (object : option GObject) s : State :=
  mkDisco (service_cache s) (address s :: requests s)
    (<[address s := mkRequest (next_serial s) t jid node cb object true]> (memory s))
    (S (next_serial s)) (<[next_iq s := (address s, next_serial s)]> (iqs s)) (S (next_iq s))
    (pipelines s) (next_pipeline s) (has_porter s) (dispose_has_run s) (world s)
    (events s ++ [SendIq (next_iq s) (request_stanza t jid node)]).

Definition unsent s : State :=
  mkDisco (service_cache s) (requests s) (memory s) (S (next_serial s)) (iqs s) (next_iq s)
    (pipelines s) (next_pipeline s) (has_porter s) (dispose_has_run s) (world s)
    (events s ++ [NotSent (next_serial s)]).

Lemma address_fresh s : memory s !! address s = None.
Proof. apply not_elem_of_dom, malloc_fresh. Qed.

Lemma request_sent t jid node cb object s : has_porter s = true →
  gabble_disco_request t jid node cb object s = Ok (Some (address s), sent t jid node cb object s).
Proof.
  intros Hp. unfold gabble_disco_request, put_requests, put_iqs, emit, put_request, mbind, M_bind,
    get, modify, mret, M_ret. rewrite Hp. cbn. unfold sent. by rewrite insert_insert_eq, Hp.
Qed.

Lemma request_unsent t jid node cb object s : has_porter s = false →
  gabble_disco_request t jid node cb object s = Ok (None, unsent s).
Proof.
  intros Hp. unfold gabble_disco_request, put_requests, emit, delete_request, get_request, mbind,
    M_bind, get, modify, mret, M_ret. rewrite Hp. cbn. rewrite lookup_insert_eq. cbn.
  unfold g_assert. rewrite bool_decide_eq_true_2 by (by apply elem_of_cons; left). cbn.
  rewrite decide_True by done. rewrite delete_insert_id by apply address_fresh. unfold unsent. by rewrite Hp.
Qed.

Definition set_pipeline (p : nat) (pl : GabbleDiscoPipeline) s : State :=
  mkDisco (service_cache s) (requests s) (memory s) (next_serial s) (iqs s) (next_iq s)
    (<[p := pl]> (pipelines s)) (next_pipeline s) (has_porter s) (dispose_has_run s) (world s)
    (events s).

Lemma sent_serials x q s t jid node cb object s' : ok x q s →
  requests s' = address s :: requests s →
  memory s' = <[address s := mkRequest (next_serial s) t jid node cb object true]> (memory s) →
  events s' = events s ++ [SendIq (next_iq s) (request_stanza t jid node)] →
  next_serial s' = S (next_serial s) →
  called (events s') ++ dropped (events s') ++ live x s' ≡ₚ seq 0 (next_serial s').
Proof.
  intros K Hr Hm He Hn. pose proof (address_fresh s) as Hf.
  rewrite He, called_app, dropped_app. cbn [called dropped omap list_omap].
  rewrite !app_nil_r, Hn, seq_S, <-(ok_serials _ _ _ K). cbn [Nat.add].
  rewrite (live_new x (address s) (mkRequest (next_serial s) t jid node cb object true) s s');
    [cbn; solve_Permutation| | |done|done].
  - intros Hin%(ok_mem _ _ _ K). rewrite Hf in Hin. by destruct Hin.
  - intros Hx. apply (ok_x _ _ _ K) in Hx. rewrite Hf in Hx. by destruct Hx.
Qed.

(** A request of the rest of the program. *)
Lemma sent_client_ok x q s t jid node n object : ok x q s →
  ok x q (sent t jid node (ClientCb n) object s).
Proof.
  intros K. pose proof (address_fresh s) as Hf. pose proof K as [K1 K2 K3 K4 K5 K6 K7].
  split; try done.
  - cbn. apply NoDup_cons. split; [|done]. rewrite K2, Hf. by intros [].
  - by apply mem_cons.
  - intros a Ha. cbn. rewrite lookup_insert_is_Some. destruct (decide (address s = a)); auto.
  - by eapply sent_serials.
  - intros a r Hx. cbn. rewrite lookup_insert_Some. intros [[<- <-]|[Hne Ha]]; [done|by apply K5].
  - intros p pl Hpl. apply (pipe_ok_memory x x q s); [|done|by apply K6].
    intros b r Hb Hr. split; [done|]. cbn. rewrite lookup_insert_ne; congruence.
Qed.

Lemma unsent_ok x q s : ok x q s → ok x q (unsent s).
Proof.
  intros K. pose proof K as [K1 K2 K3 K4 K5 K6 K7]. split; try done.
  - cbn [unsent events next_serial]. rewrite called_app, dropped_app.
    cbn [called dropped omap list_omap]. rewrite app_nil_r, seq_S, <-K4. cbn [Nat.add].
    rewrite (live_frame x s (unsent s)) by done. solve_Permutation.
  - intros p pl Hpl. by destruct (K6 p pl Hpl).
Qed.

(** A request of a pipeline. *)
Definition joins s (p : nat) (pl pl' : GabbleDiscoPipeline) (cb : GabbleDiscoCb) : Prop :=
  (cb = ItemInfoCb p ∧ (length (disco_pipeline pl) < DISCO_PIPELINE_SIZE)%nat ∧
   disco_pipeline pl' = disco_pipeline pl ++ [Some (address s)] ∧
   list_request pl' = list_request pl) ∨
  (cb = DiscoItemsCb p ∧ (∀ a, list_request pl ≠ Some (Some a)) ∧
   disco_pipeline pl' = disco_pipeline pl ∧ list_request pl' = Some (Some (address s))).

Lemma sent_pipeline_ok x q s t jid node cb p pl pl' :
  ok x q s → pipelines s !! p = Some pl → joins s p pl pl' cb → has_porter s = true →
  (q ≠ Some p → phase pl') →
  ok x q (set_pipeline p pl' (sent t jid node cb (Some TheDisco) s)).
Proof.
  intros K Hpl Hj Hpo Hph. pose proof (address_fresh s) as Hf.
  pose proof K as [K1 K2 K3 K4 K5 K6 K7].
  assert (Hxa : x ≠ Some (address s)).
  { intros Hx%K3. rewrite Hf in Hx. by destruct Hx. }
  split; try done.
  - cbn. apply NoDup_cons. split; [|done]. rewrite K2, Hf. by intros [].
  - by apply mem_cons.
  - intros a Ha. cbn. rewrite lookup_insert_is_Some. destruct (decide (address s = a)); auto.
  - by eapply sent_serials.
  - intros a r Hx. cbn. rewrite lookup_insert_Some. unfold request_ok. cbn.
    intros [[<- <-]|[Hne Ha]]; cbn.
    + split; [done|]. destruct Hj as [(-> & _ & Hd & _)|(-> & _ & _ & Hl)].
      * split; [done|]. exists pl'. rewrite lookup_insert_eq, Hd. split; [done|]. set_solver.
      * split; [done|]. exists pl'. by rewrite lookup_insert_eq.
    + destruct (K5 a r Hx Ha) as [Ht Hk]. split; [done|]. unfold request_ok in Hk.
      destruct (r_callback r) as [n|p'|p']; [done| |].
      * destruct Hk as (Hb & pl0 & Hp0 & Hin). split; [done|].
        destruct (decide (p' = p)) as [->|Hpp]; [|exists pl0; by rewrite lookup_insert_ne].
        exists pl'. rewrite lookup_insert_eq. split; [done|]. rewrite Hpl in Hp0. injection Hp0 as <-.
        destruct Hj as [(_ & _ & -> & _)|(_ & _ & -> & _)]; [set_solver|done].
      * destruct Hk as (Hb & pl0 & Hp0 & Hin). split; [done|].
        destruct (decide (p' = p)) as [->|Hpp]; [|exists pl0; by rewrite lookup_insert_ne].
        exists pl'. rewrite lookup_insert_eq. split; [done|]. rewrite Hpl in Hp0. injection Hp0 as <-.
        destruct Hj as [(_ & _ & _ & ->)|(_ & Hno & _ & _)]; [done|by destruct (Hno a)].
  - intros p' pl0. cbn. rewrite lookup_insert_Some. intros [[<- <-]|[Hne Hp0]].
    + destruct (K6 p pl Hpl) as [E1 E2 E3 E4 E5 E6]. 
      assert (Hmem : ∀ e, e ∈ disco_pipeline pl → ∃ a r, e = Some a ∧ x ≠ Some a ∧
        <[address s := mkRequest (next_serial s) t jid node cb (Some TheDisco) true]> (memory s) !! a
          = Some r ∧ r_callback r = ItemInfoCb p).
      { intros e He. destruct (E3 e He) as (b & r & -> & Hb & Hm & Hr). exists b, r.
        rewrite lookup_insert_ne by congruence. done. }
      destruct Hj as [(-> & Hlen & Hd & Hl)|(-> & Hno & Hd & Hl)]; split; cbn; rewrite ?Hd, ?Hl; try done.
      * apply NoDup_app. split; [done|]. split; [|by apply NoDup_singleton].
        intros e He ->%list_elem_of_singleton. destruct (E3 _ He) as (b & r & [= <-] & _ & Hm & _).
        by rewrite Hf in Hm.
      * rewrite length_app. cbn. lia.
      * intros e [He| ->%list_elem_of_singleton]%elem_of_app; [by apply Hmem|].
        exists (address s). eexists. rewrite lookup_insert_eq. done.
      * intros b Hb. destruct (E4 b Hb) as (Hne & r & Hm & Hr). split; [done|]. exists r.
        rewrite lookup_insert_ne by congruence. done.
      * intros b [= <-]. split; [done|]. eexists. by rewrite lookup_insert_eq.
      * by right.
    + apply (pipe_ok_memory x x q s); [|done|by apply K6].
      intros b r Hb Hr. split; [done|]. cbn. rewrite lookup_insert_ne; congruence.
  - intros p'. cbn. intros [->|[_ ?]]%lookup_insert_is_Some; [apply K7; by eexists|by apply K7].
Qed.

(** ** Filling a pipeline *)

(** The items that have not been asked about. *)
Definition unasked (m : gmap nat GabbleDiscoPipeline) : nat :=
  sum_list ((λ x, size (remaining_items x.2)) <$> map_to_list m).

(** A request for each item that is no longer in a table. *)
Definition budget s s' : Prop :=
  (next_serial s' + unasked (pipelines s') = next_serial s + unasked (pipelines s))%nat.

Lemma unasked_delete m p pl : m !! p = Some pl →
  unasked m = (size (remaining_items pl) + unasked (delete p m))%nat.
Proof.
  intros Hp. unfold unasked. by rewrite <-(map_to_list_delete m p pl Hp).
Qed.

Lemma unasked_insert m p pl pl' : m !! p = Some pl →
  (unasked (<[p := pl']> m) + size (remaining_items pl) =
   unasked m + size (remaining_items pl'))%nat.
Proof.
  intros Hp. rewrite (unasked_delete _ p pl' (lookup_insert_eq _ _ _)), (unasked_delete m p pl Hp).
  rewrite delete_insert_eq. lia.
Qed.

(** What working on the pipeline [p] leaves alone. *)
Record frame (p : nat) s s' : Prop := {
  fr_pipes p' : p' ≠ p → pipelines s' !! p' = pipelines s !! p';
  fr_memory a r : memory s !! a = Some r → memory s' !! a = Some r;
  fr_porter : has_porter s' = has_porter s;
  fr_called : called (events s') = called (events s);
  fr_dropped : dropped (events s') = dropped (events s);
  fr_budget : budget s s';
}.

Lemma frame_refl p s : frame p s s.
Proof. by split. Qed.

Lemma frame_trans p s1 s2 s3 : frame p s1 s2 → frame p s2 s3 → frame p s1 s3.
Proof.
  intros [A1 A2 A3 A4 A5 A6] [B1 B2 B3 B4 B5 B6]. split; try congruence.
  - intros p' Hp. by rewrite B1, A1.
  - intros a r Ha. by apply B2, A2.
Qed.

Lemma same_frame p s s' : same s s' → frame p s s'.
Proof. intros []. split; unfold budget; congruence. Qed.

(** The same without the counts. *)
Record near (p : nat) s s' : Prop := {
  near_pipes p' : p' ≠ p → pipelines s' !! p' = pipelines s !! p';
  near_memory : memory s' = memory s;
  near_porter : has_porter s' = has_porter s;
  near_called : called (events s') = called (events s);
  near_dropped : dropped (events s') = dropped (events s);
}.

Lemma set_near p pl s : near p s (set_pipeline p pl s).
Proof. split; try done. intros p' Hp. cbn. by rewrite lookup_insert_ne. Qed.

Lemma open_about x q s s' p pl :
  pipe_ok x q s p pl →
  (∀ a r, x ≠ Some a → r_callback r = ItemInfoCb p → memory s !! a = Some r → memory s' !! a = Some r) →
  open_items s' pl = open_items s pl.
Proof.
  intros K Hm. unfold open_items. f_equal. pose proof (pipe_entries _ _ _ _ _ K) as He. clear K.
  induction (disco_pipeline pl) as [|e l IH]; [done|].
  destruct (He e ltac:(by apply elem_of_cons; left)) as (a & r & -> & Hx & Ha & Hc). cbn.
  rewrite (Hm a r Hx Hc Ha), Ha. cbn. f_equal. apply IH. intros e' He'. apply He. by apply elem_of_cons; right.
Qed.

Lemma open_frame x q s s' p pl :
  pipe_ok x q s p pl → (∀ a r, x ≠ Some a → memory s !! a = Some r → memory s' !! a = Some r) →
  open_items s' pl = open_items s pl.
Proof. intros K Hm. eapply open_about; [done|]. intros a r Hx _. by apply Hm. Qed.

Lemma elements_take (X : gset string) j : j ∈ X → elements X ≡ₚ j :: elements (X ∖ {[j]}).
Proof.
  intros Hj. rewrite (union_difference_singleton_L j X Hj) at 1.
  rewrite elements_union_singleton by set_solver. done.
Qed.

Lemma fill_loop_ok x p fuel s pl :
  ok x (Some p) s → pipelines s !! p = Some pl → list_request pl = Some None →
  (DISCO_PIPELINE_SIZE - length (disco_pipeline pl) < fuel)%nat →
  wp (fill_loop fuel p) (λ _ s', ok x (Some p) s' ∧ frame p s s' ∧
    ends (events s') = ends (events s) ∧ world s' = world s ∧
    ∃ l r, pipelines s' !! p = Some (with_items l r pl) ∧
      open_items s' (with_items l r pl) ≡ₚ open_items s pl ∧
      ((length l < DISCO_PIPELINE_SIZE)%nat → r = ∅)) s.
Proof.
  revert s pl. induction fuel as [|fuel IH]; intros s pl K Hpl Hl Hf; [lia|].
  assert (Hdone : ∀ Q : Prop, (Q → (length (disco_pipeline pl) < DISCO_PIPELINE_SIZE)%nat →
      remaining_items pl = ∅) → Q →
    ∃ l r, pipelines s !! p = Some (with_items l r pl) ∧
      open_items s (with_items l r pl) ≡ₚ open_items s pl ∧
      ((length l < DISCO_PIPELINE_SIZE)%nat → r = ∅)).
  { intros Q HQ Hq. exists (disco_pipeline pl), (remaining_items pl).
    split; [by rewrite Hpl; destruct pl|]. split; [done|]. by apply HQ. }
  cbn [fill_loop]. eapply wp_pipeline; [done|].
  destruct (Nat.ltb_spec (length (disco_pipeline pl)) DISCO_PIPELINE_SIZE) as [Hlt|Hge].
  2:{ apply wp_ret. split; [done|]. split; [apply frame_refl|]. do 2 (split; [done|]).
      apply (Hdone True); [lia|done]. }
  destruct (first_item (remaining_items pl)) as [jid|] eqn:Hj.
  2:{ apply wp_ret. split; [done|]. split; [apply frame_refl|]. do 2 (split; [done|]).
      apply (Hdone True); [|done]. intros _ _. by apply first_item_None. }
  apply first_item_Some in Hj. pose proof (ok_pipe _ _ _ K p pl Hpl) as Kp.
  assert (Hpo : has_porter s = true) by (destruct (pipe_porter _ _ _ _ _ Kp); congruence).
  eapply wp_known; [by apply request_sent|]. eapply wp_pipeline; [exact Hpl|].
  set (pl' := with_items (disco_pipeline pl ++ [Some (address s)]) (remaining_items pl ∖ {[jid]}) pl).
  set (s1 := set_pipeline p pl' (sent GABBLE_DISCO_TYPE_INFO jid None (ItemInfoCb p) (Some TheDisco) s)).
  apply (wp_known _ _ _ _ tt s1); [done|].
  assert (K1 : ok x (Some p) s1).
  { eapply sent_pipeline_ok; [done|done| |done|done]. left. done. }
  assert (Hp1 : pipelines s1 !! p = Some pl') by apply lookup_insert_eq.
  assert (F1 : frame p s s1).
  { split; cbn; [intros; by rewrite lookup_insert_ne| |done| | |].
    - intros a r Ha. rewrite lookup_insert_ne; [done|]. intros <-. by rewrite address_fresh in Ha.
    - rewrite called_app. apply app_nil_r.
    - rewrite dropped_app. apply app_nil_r.
    - unfold budget. cbn. pose proof (unasked_insert (pipelines s) p pl pl' Hpl) as Hu. cbn in Hu.
      rewrite (size_difference (remaining_items pl) {[jid]}), size_singleton in Hu by set_solver.
      pose proof (subseteq_size {[jid]} (remaining_items pl) ltac:(set_solver)) as Hs.
      rewrite size_singleton in Hs.
      lia. }
  assert (O1 : open_items s1 pl' ≡ₚ open_items s pl).
  { unfold open_items at 1. cbn [pl' with_items disco_pipeline remaining_items]. rewrite omap_app.
    assert (Ha : memory s1 !! address s = Some (mkRequest (next_serial s) GABBLE_DISCO_TYPE_INFO jid
      None (ItemInfoCb p) (Some TheDisco) true)) by apply lookup_insert_eq.
    cbn [omap list_omap mbind option_bind]. rewrite Ha. cbn [fmap option_fmap option_map r_jid].
    pose proof (open_frame x (Some p) s s1 p pl Kp (λ a r _, fr_memory _ _ _ F1 a r)) as Ho.
    rewrite <-Ho. unfold open_items. rewrite (elements_take _ _ Hj). solve_Permutation. }
  eapply wp_mono; [|apply (IH s1 pl' K1 Hp1 Hl)].
  - intros _ s' (K' & F' & E' & Hw & l & r & Hp' & Ho & Hr). split; [done|].
    split; [by eapply frame_trans|]. split; [rewrite E'; cbn; rewrite ends_app; apply app_nil_r|].
    split; [done|].
    exists l, r. split; [done|]. split; [|done]. by rewrite <-O1, <-Ho.
  - cbn [pl' with_items disco_pipeline]. rewrite length_app. cbn [length]. lia.
Qed.

(** ** Changing a pipeline *)

Lemma set_pipeline_ok x q s p pl pl' :
  ok x q s → pipelines s !! p = Some pl →
  disco_pipeline pl' = disco_pipeline pl → list_request pl' = list_request pl →
  (q ≠ Some p → phase pl') → ok x q (set_pipeline p pl' s).
Proof.
  intros K Hpl Hd Hl Hph. pose proof K as [K1 K2 K3 K4 K5 K6 K7]. split; try done.
  - intros a r Hx Ha. destruct (K5 a r Hx Ha) as [Ht Hk]. split; [done|].
    unfold request_ok in *. cbn. destruct (r_callback r) as [n|p'|p']; [done| |];
      destruct Hk as (Hb & pl0 & Hp0 & Hin); (split; [done|]);
      (destruct (decide (p' = p)) as [->|Hpp]; [|exists pl0; by rewrite lookup_insert_ne]);
      exists pl'; rewrite lookup_insert_eq; rewrite Hpl in Hp0; injection Hp0 as <-;
      rewrite ?Hd, ?Hl; done.
  - intros p' pl0. cbn. rewrite lookup_insert_Some. intros [[<- <-]|[Hne Hp0]].
    + destruct (K6 p pl Hpl) as [E1 E2 E3 E4 E5 E6]. split; rewrite ?Hd, ?Hl; done.
    + destruct (K6 p' pl0 Hp0). by split.
  - intros p'. cbn. intros [->|[_ ?]]%lookup_insert_is_Some; [apply K7; by eexists|by apply K7].
Qed.

Lemma ok_phase x p s : ok x (Some p) s →
  (∀ pl, pipelines s !! p = Some pl → phase pl) → ok x None s.
Proof.
  intros [K1 K2 K3 K4 K5 K6 K7] Hph. split; try done.
  intros p' pl Hpl. destruct (K6 p' pl Hpl) as [E1 E2 E3 E4 E5 E6]. split; try done.
  intros _. destruct (decide (p' = p)) as [->|Hne]; [by apply Hph|apply E5; congruence].
Qed.

Lemma ok_weaken x q s : ok x None s → ok x q s.
Proof.
  intros [K1 K2 K3 K4 K5 K6 K7]. split; try done.
  intros p pl Hpl. destruct (K6 p pl Hpl) as [E1 E2 E3 E4 E5 E6]. split; try done. by intros _; apply E5.
Qed.

Definition without_pipeline (p : nat) s : State :=
  mkDisco (service_cache s) (requests s) (memory s) (next_serial s) (iqs s) (next_iq s)
    (delete p (pipelines s)) (next_pipeline s) (has_porter s) (dispose_has_run s) (world s)
    (events s).

Lemma without_pipeline_ok x p s pl :
  ok x (Some p) s → pipelines s !! p = Some pl → disco_pipeline pl = [] →
  list_request pl = Some None → ok x None (without_pipeline p s).
Proof.
  intros K Hpl Hd Hl. pose proof K as [K1 K2 K3 K4 K5 K6 K7]. split; try done.
  - intros a r Hx Ha. destruct (K5 a r Hx Ha) as [Ht Hk]. split; [done|].
    unfold request_ok in *. cbn. destruct (r_callback r) as [n|p'|p']; [done| |];
      destruct Hk as (Hb & pl0 & Hp0 & Hin); (split; [done|]); exists pl0;
      rewrite lookup_delete_ne; try done; intros ->; rewrite Hpl in Hp0; injection Hp0 as <-.
    + rewrite Hd in Hin. by apply elem_of_nil in Hin.
    + congruence.
  - intros p' pl0. cbn. intros [Hne Hp0]%lookup_delete_Some.
    destruct (K6 p' pl0 Hp0) as [E1 E2 E3 E4 E5 E6]. split; try done. intros _. apply E5. congruence.
  - intros p'. cbn. intros [_ ?]%lookup_delete_is_Some. by apply K7.
Qed.

Lemma without_frame p s pl : pipelines s !! p = Some pl → remaining_items pl = ∅ →
  frame p s (without_pipeline p s).
Proof.
  intros Hp Hr. split; try done; [intros p' Hp'; cbn; by rewrite lookup_delete_ne|].
  unfold budget. cbn. by rewrite (unasked_delete _ p pl Hp), Hr.
Qed.

Lemma set_frame p pl pl' s : pipelines s !! p = Some pl → remaining_items pl' = remaining_items pl →
  frame p s (set_pipeline p pl' s).
Proof.
  intros Hp Hr. split; try done; [intros p' Hp'; cbn; by rewrite lookup_insert_ne|].
  unfold budget. cbn. pose proof (unasked_insert (pipelines s) p pl pl' Hp) as Hu. rewrite Hr in Hu. lia.
Qed.

Section run.
Context (run : nat → GabbleDiscoRequest → option WockyNode → option GabbleDiscoError → M State unit).

(** A pipeline that has ended has nothing to cancel. *)
Lemma destroy_empty p s pl :
  pipelines s !! p = Some pl → disco_pipeline pl = [] → list_request pl = Some None →
  gabble_disco_pipeline_destroy run p s = Ok (tt, without_pipeline p s).
Proof.
  intros Hpl Hd Hl. unfold gabble_disco_pipeline_destroy, get_pipeline, put_pipeline, put_pipelines,
    mbind, M_bind, get, modify, mret, M_ret. rewrite Hpl, Hl. cbn. rewrite lookup_insert_eq. cbn.
  rewrite Hd. cbn. unfold get_pipeline, mbind, M_bind, get, mret, M_ret. cbn.
  rewrite lookup_insert_eq. cbn. rewrite Hd. cbn. unfold without_pipeline. by rewrite delete_insert_eq.
Qed.

(** What becomes of the pipeline [pl] when the items [O] are open. *)
Definition settled (p : nat) (pl : GabbleDiscoPipeline) (O : list string) s s' : Prop :=
  (O ≠ [] ∧ ends (events s') = ends (events s) ∧ world s' = world s ∧
   ∃ l r, pipelines s' !! p = Some (with_items l r pl) ∧ open_items s' (with_items l r pl) ≡ₚ O) ∨
  (O = [] ∧ ends (events s') = ends (events s) ++ [p_user pl] ∧
   match p_user pl with
   | Services => pipelines s' !! p = None ∧ world s' = world s
   | OtherUser u => pipelines s' !! p = Some (with_running false (with_items [] ∅ pl)) ∧
       world s' = pipeline_end_cb u (world s)
   end).

Lemma fill_ok x p s pl :
  ok x (Some p) s → pipelines s !! p = Some pl → list_request pl = Some None → running pl = true →
  wp (gabble_disco_fill_pipeline run p) (λ _ s', ok x None s' ∧ frame p s s' ∧
    settled p pl (open_items s pl) s s') s.
Proof.
  intros K Hpl Hl Hrun. unfold gabble_disco_fill_pipeline. eapply wp_pipeline; [done|]. rewrite Hrun.
  apply wp_bind. eapply wp_mono; [|eapply fill_loop_ok; [done|done|done|lia]].
  intros _ s1 (K1 & F1 & E1 & W1 & l & r & Hp1 & Ho & Hr). eapply wp_pipeline; [done|].
  cbn [with_items disco_pipeline p_user]. destruct l as [|e l].
  - rewrite bool_decide_eq_true_2 by done. cbn [when]. specialize (Hr ltac:(cbn; unfold DISCO_PIPELINE_SIZE; lia)) as ->.
    cbn in Ho. rewrite elements_empty in Ho. symmetry in Ho. apply Permutation_nil_r in Ho.
    set (pl1 := with_running false (with_items [] ∅ pl)).
    apply (wp_known _ _ _ _ tt (set_pipeline p pl1 s1)); [done|].
    apply wp_bind, wp_modify.
    set (s2 := mkDisco _ _ _ _ _ _ _ _ _ _ _ _).
    assert (K2 : ok x (Some p) s2).
    { apply (ok_same x (Some p) (set_pipeline p pl1 s1)).
      - split; cbn; try done; [by rewrite called_app, app_nil_r|by rewrite dropped_app, app_nil_r].
      - by eapply (set_pipeline_ok x (Some p) s1 p _ pl1). }
    assert (F2 : frame p s s2).
    { eapply frame_trans; [done|]. eapply frame_trans; [exact (set_frame p (with_items [] ∅ pl) pl1 s1 Hp1 eq_refl)|].
      split; cbn; try done; [by rewrite called_app, app_nil_r|by rewrite dropped_app, app_nil_r]. }
    assert (Hp2 : pipelines s2 !! p = Some pl1) by apply lookup_insert_eq.
    assert (E2 : ends (events s2) = ends (events s) ++ [p_user pl]).
    { cbn. by rewrite ends_app, E1. }
    destruct (p_user pl) as [|u] eqn:Hu.
    + unfold end_cb. eapply wp_known; [by eapply destroy_empty|].
      apply wp_bind, wp_get, wp_bind, wp_modify, wp_modify.
      set (s3 := mkDisco _ _ _ _ _ _ _ _ _ _ _ _).
      assert (S3 : same (without_pipeline p s2) s3).
      { split; cbn; try done; [by rewrite !called_app, app_nil_r|by rewrite !dropped_app, app_nil_r]. }
      split; [|split].
      * eapply ok_same; [exact S3|]. by eapply without_pipeline_ok.
      * eapply frame_trans; [exact F2|]. eapply frame_trans; [by apply (without_frame p s2 pl1)|].
        by apply same_frame.
      * right. split; [done|]. rewrite Hu. split; [|split].
        -- cbn. rewrite ends_app, app_nil_r. exact E2.
        -- cbn. apply lookup_delete_eq.
        -- done.
    + apply wp_modify. set (s3 := mkDisco _ _ _ _ _ _ _ _ _ _ _ _).
      assert (S3 : same s2 s3) by (by split). split; [|split].
      * eapply ok_same; [exact S3|]. eapply ok_phase; [done|]. intros pl'. rewrite Hp2.
        intros [= <-]. unfold phase. cbn. by rewrite Hl.
      * eapply frame_trans; [exact F2|]. by apply same_frame.
      * right. split; [done|]. rewrite Hu. split; [done|]. split; [done|]. cbn. by rewrite W1.
  - rewrite bool_decide_eq_false_2 by done. cbn [when]. apply wp_ret. split; [|split; [done|]].
    + eapply ok_phase; [done|]. intros pl'. rewrite Hp1. intros [= <-].
      unfold phase. cbn. rewrite Hl, Hrun. done.
    + left. split; [|split; [done|split; [done|]]].
      * intros Hn. rewrite Hn in Ho. apply Permutation_nil_r in Ho.
        pose proof (ok_pipe _ _ _ K1 p _ Hp1) as Kp.
        destruct (pipe_entries _ _ _ _ _ Kp e ltac:(by apply elem_of_cons; left)) as (a & rq & -> & _ & Ha & _).
        unfold open_items in Ho. cbn in Ho. by rewrite Ha in Ho.
      * eauto.
Qed.
End run.

(** ** Calling back *)

(** The state in which the callback of [r] is under way, with these pipelines. *)
Definition reporting (e : disco_event) (pipes : gmap nat GabbleDiscoPipeline) s : State :=
  mkDisco (service_cache s) (requests s) (memory s) (next_serial s) (iqs s) (next_iq s) pipes
    (next_pipeline s) (has_porter s) (dispose_has_run s) (world s) (events s ++ [e]).

Definition calling (r : GabbleDiscoRequest) (result : option WockyNode)
    (error : option GabbleDiscoError) (pipes : gmap nat GabbleDiscoPipeline) s : State :=
  reporting (Called (serial r) (r_callback r) (r_jid r) result error) pipes s.

(** The pipeline [pl] without the request [a]. *)
Record loses (q : option nat) (p a : nat) (pl pl' : GabbleDiscoPipeline) : Prop := {
  lose_nodup : NoDup (disco_pipeline pl');
  lose_size : (length (disco_pipeline pl') <= DISCO_PIPELINE_SIZE)%nat;
  lose_entries e : e ∈ disco_pipeline pl' ↔ e ∈ disco_pipeline pl ∧ e ≠ Some a;
  lose_list b : list_request pl' = Some (Some b) ↔ list_request pl = Some (Some b) ∧ b ≠ a;
  lose_none : list_request pl = None → list_request pl' = None;
  lose_phase : q ≠ Some p → phase pl';
}.

Lemma reporting_ok q q' s a r e pipes :
  ok None q s → memory s !! a = Some r → called [e] ++ dropped [e] = [serial r] →
  (∀ p pl', pipes !! p = Some pl' → ∃ pl, pipelines s !! p = Some pl ∧ loses q' p a pl pl') →
  (∀ p, is_Some (pipelines s !! p) → is_Some (pipes !! p)) →
  ok (Some a) q' (reporting e pipes s).
Proof.
  intros K Ha Hev Hto Hfrom. pose proof K as [K1 K2 K3 K4 K5 K6 K7].
  assert (Ha' : a ∈ requests s) by (apply K2; by eexists). split; try done.
  - intros b [= <-]. by eexists.
  - cbn [reporting events next_serial]. rewrite called_app, dropped_app, <-K4.
    rewrite (live_call a r s K1 Ha' Ha).
    rewrite (live_frame (Some a) s (reporting e pipes s)) by done.
    change (serial r :: live (Some a) s) with ([serial r] ++ live (Some a) s). rewrite <-Hev.
    solve_Permutation.
  - intros b rb Hb Hrb. destruct (K5 b rb ltac:(done) Hrb) as [Ht Hk]. split; [done|].
    unfold request_ok in *. cbn. destruct (r_callback rb) as [n|p|p]; [done| |];
      destruct Hk as (Hbo & pl & Hpl & Hin); (split; [done|]);
      destruct (Hfrom p ltac:(by eexists)) as [pl' Hpl']; exists pl'; (split; [done|]);
      destruct (Hto p pl' Hpl') as (pl0 & Hpl0 & L); rewrite Hpl in Hpl0; injection Hpl0 as <-.
    + apply (lose_entries _ _ _ _ _ L). split; [done|congruence].
    + apply (lose_list _ _ _ _ _ L). split; [done|congruence].
  - intros p pl' Hpl'. destruct (Hto p pl' Hpl') as (pl & Hpl & L).
    destruct (K6 p pl Hpl) as [E1 E2 E3 E4 E5 E6]. destruct L as [L1 L2 L3 L4 L5 L6]. split; try done.
    + intros e0 [He Hne]%L3. destruct (E3 e0 He) as (b & rb & -> & _ & Hm & Hc). exists b, rb.
      split; [done|]. split; [congruence|]. done.
    + intros b [Hb Hne]%L4. destruct (E4 b Hb) as (_ & rb & Hm & Hc). split; [congruence|]. eauto.
    + destruct E6 as [E6|E6]; [left; auto|by right].
  - intros p. cbn. intros [pl' Hpl']. apply K7. destruct (Hto p pl' Hpl') as (pl & Hpl & _). by eexists.
Qed.

Lemma loses_refl q q' s p a pl : pipe_ok None q s p pl → (q' ≠ Some p → phase pl) →
  Some a ∉ disco_pipeline pl → list_request pl ≠ Some (Some a) → loses q' p a pl pl.
Proof.
  intros [E1 E2 E3 E4 E5 E6] Hph Hin Hl. split; try done.
  - intros e. split; [|tauto]. intros He. split; [done|]. by intros ->.
  - intros b. split; [|tauto]. intros Hb. split; [done|]. by intros ->.
Qed.

(** No pipeline knows a request of somebody else. *)
Lemma not_in_pipeline q s p a r pl : ok None q s → memory s !! a = Some r →
  pipelines s !! p = Some pl →
  (r_callback r ≠ ItemInfoCb p → Some a ∉ disco_pipeline pl) ∧
  (r_callback r ≠ DiscoItemsCb p → list_request pl ≠ Some (Some a)).
Proof.
  intros K Ha Hpl. destruct (ok_pipe _ _ _ K p pl Hpl) as [E1 E2 E3 E4 E5 E6]. split.
  - intros Hc Hin. destruct (E3 _ Hin) as (b & rb & [= <-] & _ & Hm & Hrb). congruence.
  - intros Hc Hl. destruct (E4 _ Hl) as (_ & rb & Hm & Hrb). congruence.
Qed.

(** The callbacks of other components. *)
Lemma calling_client_ok q s a r n result error :
  ok None q s → memory s !! a = Some r → r_callback r = ClientCb n →
  ok (Some a) q (calling r result error (pipelines s) s).
Proof.
  intros K Ha Hc. eapply reporting_ok; [done|done|done| |done].
  intros p pl Hpl. exists pl. split; [done|]. pose proof (ok_pipe _ _ _ K p pl Hpl) as Kp.
  destruct (not_in_pipeline q s p a r pl K Ha Hpl) as [H1' H2'].
  eapply loses_refl; [done|by destruct Kp|apply H1'; congruence|apply H2'; congruence].
Qed.

(** A pipeline's own. *)
Lemma calling_pipeline_ok q s a r p pl pl' result error :
  ok None q s → memory s !! a = Some r → q = None ∨ q = Some p →
  r_callback r = ItemInfoCb p ∨ r_callback r = DiscoItemsCb p →
  pipelines s !! p = Some pl → loses (Some p) p a pl pl' →
  ok (Some a) (Some p) (calling r result error (<[p := pl']> (pipelines s)) s).
Proof.
  intros K Ha Hq Hc Hpl L. eapply reporting_ok; [done|done|done| |].
  - intros p' pl1. rewrite lookup_insert_Some. intros [[<- <-]|[Hne Hp1]]; [by exists pl|].
    exists pl1. split; [done|]. pose proof (ok_pipe _ _ _ K p' pl1 Hp1) as Kp.
    destruct (not_in_pipeline q s p' a r pl1 K Ha Hp1) as [H1' H2'].
    eapply loses_refl; [done| | |].
    + intros _. apply (pipe_phase _ _ _ _ _ Kp). destruct Hq; congruence.
    + apply H1'. destruct Hc; congruence.
    + apply H2'. destruct Hc; congruence.
  - intros p' Hp'. rewrite lookup_insert_is_Some. destruct (decide (p = p')); auto.
Qed.

Definition about (cb : GabbleDiscoCb) (p : nat) : Prop := cb = ItemInfoCb p ∨ cb = DiscoItemsCb p.

(** What a callback leaves alone. *)
Record after (r : GabbleDiscoRequest) (error : option GabbleDiscoError) s s' : Prop := {
  af_pipes p : ¬ about (r_callback r) p → pipelines s' !! p = pipelines s !! p;
  af_memory a ra : memory s !! a = Some ra → memory s' !! a = Some ra;
  af_porter : has_porter s' = has_porter s;
  af_called : called (events s') = called (events s) ++ [serial r];
  af_dropped : dropped (events s') = dropped (events s);
  af_budget : error ≠ None → budget s s';
}.

(** What the user of a pipeline hears of an answer about [jid]. *)
Definition told (services : list GabbleDiscoItem) (pl : GabbleDiscoPipeline) (jid : string)
    (result : option WockyNode) (error : option GabbleDiscoError) (w : W) : W :=
  match error, result ≫= item_of_result jid, p_user pl with
  | None, Some item, OtherUser u => pipeline_cb services u item w
  | _, _, _ => w
  end.

Definition listed (result : option WockyNode) (error : option GabbleDiscoError) : gset string :=
  match error, result with None, Some node => items_of_result node | _, _ => ∅ end.

Definition answered (a : nat) (r : GabbleDiscoRequest) (result : option WockyNode)
    (error : option GabbleDiscoError) s s' : Prop :=
  match r_callback r with
  | ClientCb n => ends (events s') = ends (events s) ∧ world s' = request_cb n result error (world s)
  | ItemInfoCb p => ∃ pl O s1, pipelines s !! p = Some pl ∧ list_request pl = Some None ∧
      running pl = true ∧ open_items s pl ≡ₚ r_jid r :: O ∧
      ends (events s1) = ends (events s) ∧ world s1 = told (service_cache s) pl (r_jid r) result error (world s) ∧
      settled p pl O s1 s'
  | DiscoItemsCb p => ∃ pl s1, pipelines s !! p = Some pl ∧ list_request pl = Some (Some a) ∧
      ends (events s1) = ends (events s) ∧ world s1 = world s ∧
      settled p (with_list (Some None) pl) (elements (listed result error)) s1 s'
  end.

Lemma remove_fast_loses q p a pl : NoDup (disco_pipeline pl) → Some a ∈ disco_pipeline pl →
  (length (disco_pipeline pl) <= DISCO_PIPELINE_SIZE)%nat → list_request pl ≠ Some (Some a) →
  (q ≠ Some p → phase (with_items (g_ptr_array_remove_fast (Some a) (disco_pipeline pl))
                         (remaining_items pl) pl)) →
  loses q p a pl (with_items (g_ptr_array_remove_fast (Some a) (disco_pipeline pl))
                    (remaining_items pl) pl).
Proof.
  intros Hnd Hin Hlen Hl Hph. pose proof (remove_fast_perm _ _ Hin) as Hp. rewrite Hp in Hnd.
  apply NoDup_cons in Hnd as [Hni Hnd]. apply Permutation_length in Hp as Hpl. cbn in Hpl.
  split; cbn; try done; [lia| |].
  - intros e. rewrite Hp at 2. rewrite elem_of_cons. split; [|by intros [[?|?] ?]].
    intros He. split; [by right|]. by intros ->.
  - intros b. split; [|tauto]. intros Hb. split; [done|]. by intros ->.
Qed.

Section run.
Context (run : nat → GabbleDiscoRequest → option WockyNode → option GabbleDiscoError → M State unit).

Lemma item_info_ok a r p s result error :
  ok None None s → memory s !! a = Some r → r_callback r = ItemInfoCb p →
  (error = None → is_Some result) →
  wp (call_callback run a r result error) (λ _ s', ok (Some a) None s' ∧ after r error s s' ∧
    answered a r result error s s') s.
Proof.
  intros K Ha Hc He. unfold call_callback, answered. rewrite Hc.
  destruct (ok_request _ _ _ K a r ltac:(done) Ha) as [_ Hk]. unfold request_ok in Hk. rewrite Hc in Hk.
  destruct Hk as (_ & pl & Hpl & Hin). pose proof (ok_pipe _ _ _ K p pl Hpl) as Kp.
  pose proof Kp as [E1 E2 E3 E4 E5 E6]. specialize (E5 ltac:(done)).
  assert (list_request pl = Some None ∧ running pl = true) as [Hl Hrun].
  { unfold phase in E5. destruct (list_request pl) as [[b|]|], (running pl); try done;
      destruct E5 as (? & ?); destruct_and?; simplify_eq;
      repeat match goal with H : disco_pipeline _ = [] |- _ => rewrite H in Hin end; set_solver. }
  apply wp_bind, wp_modify. unfold item_info_cb. eapply wp_pipeline; [exact Hpl|].
  set (pl1 := with_items _ _ pl).
  assert (K1 : ok (Some a) (Some p) (calling r result error (<[p := pl1]> (pipelines s)) s)).
  { eapply calling_pipeline_ok; [done|done|by left|by left|done|].
    apply remove_fast_loses; try done. by rewrite Hl. }
  set (s1 := calling r result error (<[p := pl1]> (pipelines s)) s) in *.
  apply (wp_known _ _ _ _ tt s1). { unfold s1, calling, reporting. by rewrite Hc. }
  assert (O1 : open_items s pl ≡ₚ r_jid r :: open_items s1 pl1).
  { unfold open_items. cbn [pl1 with_items disco_pipeline remaining_items s1 calling memory].
    rewrite (remove_fast_perm _ _ Hin) at 1. cbn [omap list_omap mbind option_bind]. by rewrite Ha. }
  set (m := match error with Some _ => _ | None => _ end).
  assert (Hm : ∃ s2, m s1 = Ok (tt, s2) ∧ same s1 s2 ∧ ends (events s2) = ends (events s) ∧
    world s2 = told (service_cache s) pl (r_jid r) result error (world s)).
  { assert (E : ends (events s1) = ends (events s)) by (cbn; rewrite ends_app; apply app_nil_r).
    unfold m, told. destruct error as [e|]; [by exists s1|].
    destruct (He eq_refl) as [node ->]. cbn [mbind option_bind].
    destruct (item_of_result (r_jid r) node) as [item|]; [|by exists s1].
    destruct (p_user pl) as [|u]; eexists; (split; [reflexivity|]); (split; [split; try done|split; [|done]]); cbn.
    - rewrite !called_app. by rewrite app_nil_r.
    - rewrite !dropped_app. by rewrite app_nil_r.
    - rewrite !ends_app. cbn. by rewrite !app_nil_r.
    - rewrite ends_app. apply app_nil_r. }
  destruct Hm as (s2 & Hm & S2 & N2 & W2). eapply wp_known; [exact Hm|].
  assert (Hp2 : pipelines s2 !! p = Some pl1).
  { rewrite (same_pipelines _ _ S2). apply lookup_insert_eq. }
  eapply wp_mono; [|eapply (fill_ok run (Some a) p s2 pl1); [by eapply ok_same|done|done|done]].
  intros _ s' (K' & F & Hs). split; [done|]. split.
  - split.
    + intros p' Hp'. rewrite (fr_pipes _ _ _ F) by (intros ->; apply Hp'; by left).
      rewrite (same_pipelines _ _ S2). cbn. apply lookup_insert_ne. intros ->. apply Hp'. by left.
    + intros b rb Hb. apply (fr_memory _ _ _ F). by rewrite (same_memory _ _ S2).
    + by rewrite (fr_porter _ _ _ F), (same_porter _ _ S2).
    + rewrite (fr_called _ _ _ F), (same_called _ _ S2). cbn. by rewrite called_app.
    + rewrite (fr_dropped _ _ _ F), (same_dropped _ _ S2). cbn. by rewrite dropped_app, app_nil_r.
    + intros _. pose proof (fr_budget _ _ _ F) as Hb. unfold budget in *.
      rewrite Hb, (same_serial _ _ S2), (same_pipelines _ _ S2). cbn.
      pose proof (unasked_insert (pipelines s) p pl pl1 Hpl) as Hu. cbn in Hu. lia.
  - exists pl, (open_items s1 pl1), s2. do 6 (split; [done|]). 
    assert (open_items s2 pl1 = open_items s1 pl1) as Ho.
    { unfold open_items. by rewrite (same_memory _ _ S2). }
    rewrite <-Ho. exact Hs.
Qed.

Lemma disco_items_ok a r p s result error :
  ok None None s → memory s !! a = Some r → r_callback r = DiscoItemsCb p →
  (error = None → is_Some result) →
  wp (call_callback run a r result error) (λ _ s', ok (Some a) None s' ∧ after r error s s' ∧
    answered a r result error s s') s.
Proof.
  intros K Ha Hc He. unfold call_callback, answered. rewrite Hc.
  destruct (ok_request _ _ _ K a r ltac:(done) Ha) as [_ Hk]. unfold request_ok in Hk. rewrite Hc in Hk.
  destruct Hk as (_ & pl & Hpl & Hl). pose proof (ok_pipe _ _ _ K p pl Hpl) as Kp.
  pose proof Kp as [E1 E2 E3 E4 E5 E6]. specialize (E5 ltac:(done)).
  unfold phase in E5. rewrite Hl in E5. destruct E5 as (Hrun & Hd & Hr).
  apply wp_bind, wp_modify. unfold disco_items_cb. eapply wp_pipeline; [exact Hpl|].
  set (pl1 := with_list (Some None) pl).
  assert (K1 : ok (Some a) (Some p) (calling r result error (<[p := pl1]> (pipelines s)) s)).
  { eapply calling_pipeline_ok; [done|done|by left|by right|done|].
    split; cbn; rewrite ?Hd; try done; [by apply NoDup_nil_2|cbn; lia|set_solver| |congruence].
    intros b. split; [done|]. rewrite Hl. by intros [[= <-] ?]. }
  set (s1 := calling r result error (<[p := pl1]> (pipelines s)) s) in *.
  apply (wp_known _ _ _ _ tt s1). { unfold s1, calling, reporting. by rewrite Hc. }
  assert (N1 : ends (events s1) = ends (events s)) by (cbn; rewrite ends_app; apply app_nil_r).
  assert (Hp1 : pipelines s1 !! p = Some pl1) by apply lookup_insert_eq.
  set (pl2 := with_items [] (listed result error) pl1).
  set (m := match error with Some _ => _ | None => _ end).
  assert (Hm : ∃ s2, m s1 = Ok (tt, s2) ∧ ok (Some a) (Some p) s2 ∧ near p s1 s2 ∧
    pipelines s2 !! p = Some pl2 ∧ ends (events s2) = ends (events s) ∧ world s2 = world s ∧
    next_serial s2 = next_serial s ∧ (error ≠ None → pipelines s2 = pipelines s1)).
  { unfold m, pl2, listed. destruct error as [e|].
    - exists s1. split; [done|]. split; [done|]. split; [by split|]. split; [|done].
      rewrite Hp1. unfold pl1, with_list, with_items. cbn. by rewrite Hd, Hr.
    - destruct (He eq_refl) as [node ->]. exists (set_pipeline p pl2 s1).
      split; [|split; [|split; [apply set_near|split; [apply lookup_insert_eq|done]]]].
      + unfold get_pipeline, mbind, M_bind, get. rewrite Hp1. unfold mret, M_ret, put_pipeline, set_pipeline, pl2, pl1.
        unfold mbind, M_bind, get, put_pipelines, modify. cbn. rewrite Hd, Hr. unfold with_items. cbn.
        by rewrite (left_id_L ∅ (∪)).
      + eapply (set_pipeline_ok _ _ _ _ pl1); [done|done| |done|done]. cbn. by rewrite Hd. }
  destruct Hm as (s2 & Hm & K2 & [F1 F2 F3 F4 F5] & Hp2 & N2 & W2 & Hser & Hsame). eapply wp_known; [exact Hm|].
  eapply wp_mono; [|eapply (fill_ok run (Some a) p s2 pl2); [done|done|done|done]].
  intros _ s' (K' & F & Hs). split; [done|]. split.
  - split.
    + intros p' Hp'. assert (p' ≠ p) by (intros ->; apply Hp'; by right).
      rewrite (fr_pipes _ _ _ F), F1 by done. cbn. by apply lookup_insert_ne.
    + intros b rb Hb. apply (fr_memory _ _ _ F). by rewrite F2.
    + by rewrite (fr_porter _ _ _ F), F3.
    + rewrite (fr_called _ _ _ F), F4. cbn. by rewrite called_app.
    + rewrite (fr_dropped _ _ _ F), F5. cbn. by rewrite dropped_app, app_nil_r.
    + intros Hne. pose proof (fr_budget _ _ _ F) as Hb. unfold budget in *.
      rewrite Hb, Hser, (Hsame Hne). cbn.
      pose proof (unasked_insert (pipelines s) p pl pl1 Hpl) as Hu. cbn in Hu. lia.
  - exists pl, s2. do 4 (split; [done|]). exact Hs.
Qed.

Lemma call_ok a r s result error :
  ok None None s → memory s !! a = Some r → (error = None → is_Some result) →
  wp (call_callback run a r result error) (λ _ s', ok (Some a) None s' ∧ after r error s s' ∧
    answered a r result error s s') s.
Proof.
  intros K Ha He. destruct (r_callback r) as [n|p|p] eqn:Hc.
  - unfold call_callback, answered. rewrite Hc. apply wp_bind, wp_modify, wp_modify.
    split; [|split].
    + apply (ok_same _ _ (calling r result error (pipelines s) s)).
      * unfold calling, reporting. rewrite Hc. by split.
      * by eapply calling_client_ok.
    + split; cbn; try done; [by rewrite called_app|by rewrite dropped_app, app_nil_r].
    + split; [|done]. cbn. rewrite ends_app. apply app_nil_r.
  - by eapply item_info_ok.
  - by eapply disco_items_ok.
Qed.
End run.

(** ** Requests that are answered *)

(** The request [r] at [a] is answered, and freed. *)
Record finished (a : nat) (r : GabbleDiscoRequest) (result : option WockyNode)
    (error : option GabbleDiscoError) s s' : Prop := {
  fin_ok : ok None None s';
  fin_pipes p : ¬ about (r_callback r) p → pipelines s' !! p = pipelines s !! p;
  fin_memory b rb : b ≠ a → memory s !! b = Some rb → memory s' !! b = Some rb;
  fin_gone : memory s' !! a = None;
  fin_porter : has_porter s' = has_porter s;
  fin_called : called (events s') = called (events s) ++ [serial r];
  fin_dropped : dropped (events s') = dropped (events s);
  fin_budget : error ≠ None → budget s s';
  fin_answered : answered a r result error s s';
}.

Lemma settled_free p pl O a s s1 : ok (Some a) None s1 → settled p pl O s s1 → settled p pl O s (freed a s1).
Proof.
  intros K [(Ho & He & Hw & l & r & Hp & Hi)|Hend]; [left|by right].
  split; [done|]. split; [done|]. split; [done|]. exists l, r. split; [done|].
  rewrite <-Hi. erewrite open_frame; [done|by apply (ok_pipe _ _ _ K)|].
  intros b rb Hb Hm. cbn. rewrite lookup_delete_ne; congruence.
Qed.

Lemma free_finished a r result error s s1 :
  ok (Some a) None s1 → after r error s s1 → answered a r result error s s1 →
  finished a r result error s (freed a s1).
Proof.
  intros K [A1 A2 A3 A4 A5 A6] Ha. split; cbn; try done.
  - by apply freed_ok.
  - intros b rb Hb Hm. rewrite lookup_delete_ne by done. by apply A2.
  - apply lookup_delete_eq.
  - unfold answered in *. destruct (r_callback r) as [n|p|p]; [done| |].
    + destruct Ha as (pl & O & s0 & Hp & Hl & Hr & Ho & He & Hw & Hs). exists pl, O, s0.
      do 6 (split; [done|]). by apply settled_free.
    + destruct Ha as (pl & s0 & Hp & Hl & He & Hw & Hs). exists pl, s0.
      do 4 (split; [done|]). by apply settled_free.
Qed.

Lemma run_delete_ok depth a r result error s :
  ok None None s → memory s !! a = Some r → (error = None → is_Some result) →
  wp (run_callback (S depth) a r result error ;; delete_request a)
    (λ _ s', finished a r result error s s') s.
Proof.
  intros K Ha He. apply wp_bind. cbn [run_callback].
  eapply wp_mono; [|apply (call_ok (run_callback depth) a r s result error K Ha He)].
  intros _ s1 (K1 & A1 & Ha1). unfold wp. erewrite delete_request_eq by done.
  by apply free_finished.
Qed.

Lemma cancel_request_ok depth a r s : ok None None s → memory s !! a = Some r →
  wp (cancel_request (run_callback (S depth)) a)
    (λ _ s', finished a r None (Some GABBLE_DISCO_ERROR_CANCELLED) s s') s.
Proof. intros K Ha. unfold cancel_request. eapply wp_request; [done|]. by apply run_delete_ok. Qed.

(** A request's object is changed. *)
Definition rebound (o : option GObject) (a : nat) (r : GabbleDiscoRequest) s : State :=
  mkDisco (service_cache s) (requests s) (<[a := with_bound o r]> (memory s)) (next_serial s) (iqs s)
    (next_iq s) (pipelines s) (next_pipeline s) (has_porter s) (dispose_has_run s) (world s) (events s).

Lemma rebound_ok s a r o : ok None None s → memory s !! a = Some r →
  (∀ n, o = Some (OtherObject n) → bound_object r = o) → ok None None (rebound o a r s).
Proof.
  intros K Ha Ho. pose proof K as [K1 K2 K3 K4 K5 K6 K7].
  assert (Hk : ∀ b rb, <[a := with_bound o r]> (memory s) !! b = Some rb →
    ∃ rb0, memory s !! b = Some rb0 ∧ r_callback rb = r_callback rb0 ∧ timer rb = timer rb0 ∧
      (bound_object rb = bound_object rb0 ∨ bound_object rb = o ∧ b = a ∧ rb0 = r)).
  { intros b rb. rewrite lookup_insert_Some. intros [[<- <-]|[Hne Hb]]; [by exists r; eauto 10|].
    exists rb. eauto. }
  split; try done.
  - intros b. cbn. rewrite K2. destruct (decide (a = b)) as [<-|Hne].
    + by rewrite lookup_insert_eq, Ha.
    + by rewrite lookup_insert_ne.
  - rewrite (live_frame None s (rebound o a r s)); [done|done|]. intros b _. cbn.
    destruct (decide (a = b)) as [<-|Hne]; [by rewrite lookup_insert_eq, Ha|by rewrite lookup_insert_ne].
  - intros b rb _ (rb0 & Hb & Hc & Ht & Hbo)%Hk. destruct (K5 b rb0 ltac:(done) Hb) as [Ht0 Hk0].
    split; [congruence|]. unfold request_ok in *. cbn. rewrite Hc.
    assert (Hn : ∀ n, bound_object rb = Some (OtherObject n) → bound_object rb0 = Some (OtherObject n)).
    { intros n Hn. destruct Hbo as [Hbo|(Hbo & _ & ->)]; [congruence|].
      rewrite Hbo in Hn. rewrite (Ho n Hn). done. }
    destruct (r_callback rb0); [done| |]; destruct Hk0 as [Hk0 ?]; (split; [|done]);
      intros n Hx; by apply (Hk0 n), Hn.
  - intros p pl Hpl. destruct (K6 p pl Hpl) as [E1 E2 E3 E4 E5 E6]. split; try done; cbn.
    + intros e He. destruct (E3 e He) as (b & rb & -> & Hb & Hm & Hc). exists b.
      destruct (decide (a = b)) as [<-|Hne]; [|rewrite lookup_insert_ne by done; eauto].
      rewrite lookup_insert_eq. eexists. do 3 (split; [done|]). cbn. congruence.
    + intros b Hb. destruct (E4 b Hb) as (_ & rb & Hm & Hc). split; [done|].
      destruct (decide (a = b)) as [<-|Hne]; [|rewrite lookup_insert_ne by done; eauto].
      rewrite lookup_insert_eq. eexists. split; [done|]. cbn. congruence.
Qed.

(** An answer is the same for a request that is bound to something else. *)
Lemma answered_memory a r r0 result error s s0 s' :
  r_callback r0 = r_callback r → r_jid r0 = r_jid r → pipelines s0 = pipelines s →
  events s0 = events s → world s0 = world s → service_cache s0 = service_cache s →
  (∀ b, r_jid <$> memory s0 !! b = r_jid <$> memory s !! b) →
  answered a r0 result error s0 s' → answered a r result error s s'.
Proof.
  intros Hc Hj Hp He Hw Hv Hm. unfold answered. rewrite Hc, Hj, Hp, He, Hw, Hv.
  destruct (r_callback r) as [n|p|p]; [done| |done].
  intros (pl & O & s1 & Hpl & Hl & Hr & Ho & Hs). exists pl, O, s1. do 3 (split; [done|]).
  split; [|done]. rewrite <-Ho. unfold open_items. apply Permutation_app_tail.
  induction (disco_pipeline pl) as [|[b|] l IH]; [done| |done]. cbn. rewrite <-Hm.
  by destruct (r_jid <$> memory s0 !! b); [apply perm_skip|].
Qed.

Lemma timeout_ok a r s : ok None None s → memory s !! a = Some r →
  wp (timeout_request a) (λ _ s', finished a r None (Some GABBLE_DISCO_ERROR_TIMEOUT) s s') s.
Proof.
  intros K Ha. unfold timeout_request. eapply wp_request; [done|].
  set (s0 := rebound None a r s). set (r0 := with_bound None r).
  apply (wp_known _ _ _ _ tt s0); [done|].
  assert (K0 : ok None None s0) by (by apply rebound_ok).
  assert (Ha0 : memory s0 !! a = Some r0) by apply lookup_insert_eq.
  eapply wp_request; [done|]. apply wp_bind.
  change (call a r0) with (call_callback (run_callback 1) a r0).
  eapply wp_mono; [|exact (call_ok (run_callback 1) a r0 s0 None (Some GABBLE_DISCO_ERROR_TIMEOUT) K0 Ha0
                             ltac:(discriminate))].
  intros _ s1 (K1 & A1 & Ha1). pose proof (af_memory _ _ _ _ A1 a r0 Ha0) as Hm1.
  eapply wp_request; [done|]. apply wp_bind, wp_bind, wp_get, wp_modify.
  set (s2 := mkDisco _ _ _ _ _ _ _ _ _ _ _ _). unfold wp.
  rewrite (delete_request_known a (with_timer false r0) s2); [| |].
  2:{ apply lookup_insert_eq. }
  2:{ apply (ok_mem _ _ _ K1). by eexists. }
  assert (freed a s2 = freed a s1) as ->.
  { unfold freed, s2. cbn. by rewrite delete_insert_eq. }
  assert (F : finished a r0 None (Some GABBLE_DISCO_ERROR_TIMEOUT) s0 (freed a s1)) by (by apply free_finished).
  destruct F as [F1 F2 F3 F4 F5 F6 F7 F8 F9]. split; try done.
  - intros b rb Hb Hm. apply F3; [done|]. cbn. by rewrite lookup_insert_ne.
  - apply (answered_memory a r r0 None _ s s0); try done. intros b. cbn.
    destruct (decide (a = b)) as [<-|Hne]; [by rewrite lookup_insert_eq, Ha|by rewrite lookup_insert_ne].
Qed.

(** What a callback is given for a reply. *)
Definition verdict (r : GabbleDiscoRequest) (reply : WockyNode) :
    option WockyNode * option GabbleDiscoError :=
  let query_node := wocky_node_get_child_ns reply (Some "query")
                      (Some (disco_type_to_xmlns (r_type r))) in
  (query_node,
   match XmppError.wocky_stanza_extract_errors error_domains reply with
   | Some x => Some (StanzaError (XmppError.x_core x).1 (XmppError.x_core x).2)
   | None => match query_node with
             | None => Some GABBLE_DISCO_ERROR_UNKNOWN
             | Some _ => None
             end
   end).

Lemma reply_ok a r s reply : ok None None s → memory s !! a = Some r →
  wp (request_reply_cb error_domains a reply)
    (λ _ s', finished a r (verdict r reply).1 (verdict r reply).2 s s') s.
Proof.
  intros K Ha. unfold request_reply_cb. apply wp_bind, wp_get.
  rewrite bool_decide_eq_true_2 by (apply (ok_mem _ _ _ K); by eexists). cbn [negb].
  eapply wp_request; [done|]. apply (run_delete_ok 1 a r _ _ s K Ha).
  destruct (XmppError.wocky_stanza_extract_errors _ _); [done|].
  by destruct (wocky_node_get_child_ns _ _ _).
Qed.

(** ** Objects that go away *)

Lemma notify_ok a r n s :
  ok None None s → memory s !! a = Some r → bound_object r = Some (OtherObject n) →
  wp (notify_delete_request a) (λ _ s', ok None None s' ∧ memory s' = delete a (memory s) ∧
    pipelines s' = pipelines s ∧ ends (events s') = ends (events s) ∧ world s' = world s ∧
    has_porter s' = has_porter s) s.
Proof.
  intros K Ha Hb. destruct (ok_request _ _ _ K a r ltac:(done) Ha) as [_ Hk]. unfold request_ok in Hk.
  assert (∃ m, r_callback r = ClientCb m) as [m Hc].
  { destruct (r_callback r); [by eexists| |]; destruct Hk as [Hk _]; by destruct (Hk n). }
  assert (K1 : ok (Some a) None (reporting (ObjectGone (serial r)) (pipelines s) s)).
  { eapply reporting_ok; [done|done|done| |done]. intros p pl Hpl. exists pl. split; [done|].
    pose proof (ok_pipe _ _ _ K p pl Hpl) as Kp.
    destruct (not_in_pipeline None s p a r pl K Ha Hpl) as [H1' H2'].
    eapply loses_refl; [done|by destruct Kp|apply H1'; congruence|apply H2'; congruence]. }
  unfold notify_delete_request. eapply wp_request; [done|].
  apply (wp_known _ _ _ _ tt (rebound None a r s)); [done|]. apply wp_bind, wp_modify.
  set (s2 := mkDisco _ _ _ _ _ _ _ _ _ _ _ _). unfold wp.
  rewrite (delete_request_known a (with_bound None r) s2).
  2:{ apply lookup_insert_eq. }
  2:{ apply (ok_mem _ _ _ K). by eexists. }
  assert (freed a s2 = freed a (reporting (ObjectGone (serial r)) (pipelines s) s)) as ->.
  { unfold freed, s2, reporting. cbn. by rewrite delete_insert_eq. }
  split; [by apply freed_ok|]. split; [done|]. split; [done|]. split; [|done].
  cbn. rewrite ends_app. apply app_nil_r.
Qed.

(** Nothing but requests of other components that are bound to [n] goes. *)
Record unbound (n : nat) s s' : Prop := {
  ub_ok : ok None None s';
  ub_pipes : pipelines s' = pipelines s;
  ub_ends : ends (events s') = ends (events s);
  ub_world : world s' = world s;
  ub_porter : has_porter s' = has_porter s;
  ub_memory a r : memory s !! a = Some r → bound_object r ≠ Some (OtherObject n) →
    memory s' !! a = Some r;
}.

Lemma object_dies_ok n s : ok None None s →
  wp (object_dies (OtherObject n)) (λ _ s', unbound n s s') s.
Proof.
  intros K. unfold object_dies. apply wp_bind, wp_get.
  eapply wp_mono; [|apply (wp_for_each (λ l s', unbound n s s' ∧ NoDup l ∧
    ∀ a, a ∈ l → ∃ r, memory s' !! a = Some r ∧ bound_object r = Some (OtherObject n)))].
  - by intros _ s' [? _].
  - intros a l s1 (U & Hnd & Hl). destruct U as [K1 U1 U2 U3 U4 U5].
    destruct (Hl a ltac:(by apply elem_of_cons; left)) as (r & Ha & Hb).
    apply NoDup_cons in Hnd as [Hal Hnd].
    eapply wp_mono; [|by apply (notify_ok a r n s1)].
    intros _ s2 (K2 & M2 & P2 & E2 & W2 & H2). split; [|split; [done|]].
    + split; try congruence. intros b rb Hm Hne. rewrite M2, lookup_delete_ne; [by apply U5|].
      intros <-. pose proof (U5 a rb Hm Hne). congruence.
    + intros b Hbl. rewrite M2, lookup_delete_ne by (intros <-; done). apply Hl.
      by apply elem_of_cons; right.
  - split; [by split|]. split.
    + apply NoDup_ListNoDup, List.NoDup_filter, NoDup_ListNoDup. apply (ok_nodup _ _ _ K).
    + intros a Ha%list_elem_of_In%filter_In. destruct Ha as [_ Ha%bool_decide_eq_true].
      destruct (memory s !! a) as [r|]; [|done]. by exists r.
Qed.

(** ** Destroying a pipeline *)

(** The pipeline [pl] when its request [r] at [a] is cancelled. *)
Definition left_by (a : nat) (r : GabbleDiscoRequest) (pl : GabbleDiscoPipeline) : GabbleDiscoPipeline :=
  match r_callback r with
  | ItemInfoCb _ => with_items (g_ptr_array_remove_fast (Some a) (disco_pipeline pl))
                      (remaining_items pl) pl
  | _ => with_list (Some None) pl
  end.

Definition cancelled (p a : nat) (r : GabbleDiscoRequest) (pl : GabbleDiscoPipeline) s : State :=
  freed a (calling r None (Some GABBLE_DISCO_ERROR_CANCELLED) (<[p := left_by a r pl]> (pipelines s)) s).

Lemma left_by_loses p a r s pl : ok None (Some p) s → memory s !! a = Some r →
  about (r_callback r) p → pipelines s !! p = Some pl → loses (Some p) p a pl (left_by a r pl).
Proof.
  intros K Ha Hc Hpl. pose proof (ok_pipe _ _ _ K p pl Hpl) as [E1 E2 E3 E4 E5 E6].
  destruct (ok_request _ _ _ K a r ltac:(done) Ha) as [_ Hk]. unfold request_ok in Hk.
  destruct (not_in_pipeline _ s p a r pl K Ha Hpl) as [N1 N2].
  unfold left_by. destruct Hc as [Hc|Hc]; rewrite Hc in Hk |- *;
    destruct Hk as (_ & pl0 & Hp0 & Hin); rewrite Hpl in Hp0; injection Hp0 as <-.
  - apply remove_fast_loses; try done. apply N2. congruence.
  - split; cbn; try done.
    + intros e. split; [|tauto]. intros He. split; [done|]. intros ->. revert He. apply N1. congruence.
    + intros b. rewrite Hin. split; [done|]. by intros [[= <-] ?].
    + congruence.
Qed.

(** A pipeline that is not running is not filled. *)
Lemma cancel_destroying depth p a r s pl :
  ok None (Some p) s → memory s !! a = Some r → about (r_callback r) p →
  pipelines s !! p = Some pl → running pl = false →
  cancel_request (run_callback (S depth)) a s = Ok (tt, cancelled p a r pl s) ∧
  ok None (Some p) (cancelled p a r pl s).
Proof.
  intros K Ha Hc Hpl Hrun. pose proof (left_by_loses p a r s pl K Ha Hc Hpl) as L.
  assert (K1 : ok (Some a) (Some p) (calling r None (Some GABBLE_DISCO_ERROR_CANCELLED)
    (<[p := left_by a r pl]> (pipelines s)) s)).
  { eapply calling_pipeline_ok; [done|done|by right|done|done|done]. }
  split; [|by apply freed_ok].
  unfold cancel_request. rewrite (bind_eq _ _ s r s).
  2:{ unfold get_request, mbind, M_bind, get. by rewrite Ha. }
  erewrite bind_eq; [by eapply delete_request_eq|]. cbn [run_callback].
  set (s1 := calling _ _ _ _ _) in *.
  assert (Hp1 : pipelines s1 !! p = Some (left_by a r pl)) by apply lookup_insert_eq.
  assert (Hf : gabble_disco_fill_pipeline (run_callback depth) p s1 = Ok (tt, s1)).
  { unfold gabble_disco_fill_pipeline. rewrite (bind_eq _ _ s1 (left_by a r pl) s1).
    - assert (running (left_by a r pl) = false) as -> by (by unfold left_by; destruct (r_callback r)). done.
    - unfold get_pipeline, mbind, M_bind, get. by rewrite Hp1. }
  unfold call_callback. rewrite (bind_eq _ _ s tt (reporting
    (Called (serial r) (r_callback r) (r_jid r) None (Some GABBLE_DISCO_ERROR_CANCELLED)) (pipelines s) s)) by done.
  set (s0 := reporting _ _ _).
  assert (Hg : ∀ (k : GabbleDiscoPipeline → M State unit), (get_pipeline p ≫= k) s0 = k pl s0).
  { intros k. apply bind_eq. unfold get_pipeline, mbind, M_bind, get, s0. cbn. by rewrite Hpl. }
  destruct Hc as [Hc|Hc]; rewrite Hc.
  - unfold item_info_cb. rewrite Hg. rewrite (bind_eq _ _ s0 tt s1); [exact Hf|].
    unfold s1, calling, left_by, s0. by rewrite Hc.
  - unfold disco_items_cb. rewrite Hg. rewrite (bind_eq _ _ s0 tt s1); [exact Hf|].
    unfold s1, calling, left_by, s0. by rewrite Hc.
Qed.

(** What destroying the pipeline [p] leaves alone. *)
Record torn (p : nat) s s' : Prop := {
  torn_pipes p' : p' ≠ p → pipelines s' !! p' = pipelines s !! p';
  torn_memory a r : ¬ about (r_callback r) p → memory s !! a = Some r → memory s' !! a = Some r;
  torn_porter : has_porter s' = has_porter s;
  torn_ends : ends (events s') = ends (events s);
  torn_world : world s' = world s;
}.

Lemma torn_refl p s : torn p s s.
Proof. by split. Qed.

Lemma torn_trans p s1 s2 s3 : torn p s1 s2 → torn p s2 s3 → torn p s1 s3.
Proof.
  intros [A1 A2 A3 A4 A5] [B1 B2 B3 B4 B5]. split; try congruence.
  - intros p' Hp. by rewrite B1, A1.
  - intros a r Hr Ha. by apply B2, A2.
Qed.

Lemma set_torn p pl s : torn p s (set_pipeline p pl s).
Proof. split; try done. intros p' Hp. cbn. by rewrite lookup_insert_ne. Qed.

Lemma cancelled_torn p a r pl s : memory s !! a = Some r → about (r_callback r) p →
  torn p s (cancelled p a r pl s).
Proof.
  intros Ha Hc. split; cbn; try done.
  - intros p' Hp. by rewrite lookup_insert_ne.
  - intros b rb Hb Hm. rewrite lookup_delete_ne; [done|]. intros <-. congruence.
  - rewrite ends_app. apply app_nil_r.
Qed.

(** The first of the requests is a live one of this pipeline. *)
Lemma cancel_known depth p a s pl :
  ok None (Some p) s → pipelines s !! p = Some pl → running pl = false →
  Some a ∈ disco_pipeline pl ∨ list_request pl = Some (Some a) →
  ∃ r, memory s !! a = Some r ∧ about (r_callback r) p ∧
    gabble_disco_cancel_request (run_callback (S depth)) (Some a) s = Ok (tt, cancelled p a r pl s) ∧
    ok None (Some p) (cancelled p a r pl s).
Proof.
  intros K Hpl Hrun Hin. pose proof (ok_pipe _ _ _ K p pl Hpl) as [E1 E2 E3 E4 E5 E6].
  assert (∃ r, memory s !! a = Some r ∧ about (r_callback r) p) as (r & Ha & Hc).
  { destruct Hin as [Hin|Hl].
    - destruct (E3 _ Hin) as (b & r & [= <-] & _ & Hm & Hr). exists r. split; [done|by left].
    - destruct (E4 _ Hl) as (_ & r & Hm & Hr). exists r. split; [done|by right]. }
  exists r. split; [done|]. split; [done|].
  destruct (cancel_destroying depth p a r s pl K Ha Hc Hpl Hrun) as [He Hk]. split; [|done].
  cbn [gabble_disco_cancel_request]. rewrite (bind_eq _ _ s s s) by done.
  rewrite bool_decide_eq_true_2 by (apply (ok_mem _ _ _ K); by eexists). done.
Qed.

Lemma destroy_loop_ok depth p fuel s pl :
  ok None (Some p) s → pipelines s !! p = Some pl → running pl = false →
  list_request pl = Some None → (length (disco_pipeline pl) < fuel)%nat →
  wp (destroy_loop (run_callback (S depth)) fuel p) (λ _ s', ok None (Some p) s' ∧ torn p s s' ∧
    ∃ pl', pipelines s' !! p = Some pl' ∧ disco_pipeline pl' = [] ∧ list_request pl' = Some None) s.
Proof.
  revert s pl. induction fuel as [|fuel IH]; intros s pl K Hpl Hrun Hl Hf; [lia|].
  cbn [destroy_loop]. eapply wp_pipeline; [done|].
  destruct (disco_pipeline pl) as [|e l] eqn:Hd.
  { apply wp_ret. split; [done|]. split; [apply torn_refl|]. by exists pl. }
  assert (Hin : e ∈ disco_pipeline pl) by (rewrite Hd; by apply elem_of_cons; left).
  destruct (pipe_entries _ _ _ _ _ (ok_pipe _ _ _ K p pl Hpl) e Hin) as (a & _ & -> & _).
  destruct (cancel_known depth p a s pl K Hpl Hrun (or_introl Hin)) as (r & Ha & Hc & He & Hk).
  eapply wp_known; [exact He|].
  pose proof (left_by_loses p a r s pl K Ha Hc Hpl) as L.
  assert (Hlb : left_by a r pl = with_items (g_ptr_array_remove_fast (Some a) (disco_pipeline pl))
    (remaining_items pl) pl).
  { unfold left_by. destruct Hc as [->|Hc]; [done|]. exfalso.
    destruct (not_in_pipeline _ s p a r pl K Ha Hpl) as [N1 _]. apply N1; [congruence|done]. }
  eapply wp_mono; [|apply (IH (cancelled p a r pl s) (left_by a r pl)); try done].
  - intros _ s' (K' & T' & Hp'). split; [done|]. split; [|done].
    eapply torn_trans; [by apply cancelled_torn|done].
  - apply lookup_insert_eq.
  - by rewrite Hlb.
  - by rewrite Hlb.
  - rewrite Hlb. cbn [with_items disco_pipeline].
    pose proof (Permutation_length (remove_fast_perm _ _ Hin)) as Hlen. rewrite Hd in *. cbn in Hlen, Hf. lia.
Qed.

Lemma destroy_ok depth p s pl :
  ok None None s → pipelines s !! p = Some pl → list_request pl ≠ None →
  wp (gabble_disco_pipeline_destroy (run_callback (S depth)) p)
    (λ _ s', ok None None s' ∧ torn p s s' ∧ pipelines s' !! p = None) s.
Proof.
  intros K Hpl Hl. unfold gabble_disco_pipeline_destroy. eapply wp_pipeline; [done|].
  set (pl0 := with_running false pl). set (s0 := set_pipeline p pl0 s).
  apply (wp_known _ _ _ _ tt s0); [done|].
  assert (K0 : ok None (Some p) s0) by (by eapply (set_pipeline_ok _ _ s p pl pl0); [apply ok_weaken|..]).
  assert (Hp0 : pipelines s0 !! p = Some pl0) by apply lookup_insert_eq.
  set (m := match list_request pl with None => _ | Some _ => _ end).
  assert (Hm : ∃ s1 pl1, m s0 = Ok (tt, s1) ∧ ok None (Some p) s1 ∧ torn p s0 s1 ∧
    pipelines s1 !! p = Some pl1 ∧ running pl1 = false ∧ list_request pl1 = Some None).
  { unfold m. destruct (list_request pl) as [[a|]|] eqn:El; [|exists s0, pl0|done].
    2:{ split; [done|]. split; [done|]. split; [apply torn_refl|]. done. }
    destruct (cancel_known depth p a s0 pl0 K0 Hp0 eq_refl (or_intror El)) as (r & Ha & Hc & He & Hk).
    set (s1 := cancelled p a r pl0 s0) in *. set (pl1 := left_by a r pl0).
    assert (Hp1 : pipelines s1 !! p = Some pl1) by apply lookup_insert_eq.
    assert (Hl1 : list_request pl1 = Some None).
    { unfold pl1, left_by. destruct Hc as [Hc| ->]; [|done]. exfalso.
      destruct (not_in_pipeline _ s0 p a r pl0 K0 Ha Hp0) as [_ N2]. apply N2; [congruence|done]. }
    exists (set_pipeline p (with_list (Some None) pl1) s1), (with_list (Some None) pl1).
    split; [|split; [|split; [|split; [apply lookup_insert_eq|split; [|done]]]]].
    - rewrite (bind_eq _ _ _ _ _ He).
      rewrite (bind_eq _ _ _ pl1 s1) by (unfold get_pipeline, mbind, M_bind, get; by rewrite Hp1). done.
    - by eapply (set_pipeline_ok _ _ s1 p pl1).
    - eapply torn_trans; [by apply cancelled_torn|apply set_torn].
    - cbn. unfold pl1, left_by. by destruct (r_callback r). }
  destruct Hm as (s1 & pl1 & Hm & K1 & T1 & Hp1 & Hr1 & Hl1). eapply wp_known; [exact Hm|].
  eapply wp_pipeline; [done|]. apply wp_bind.
  eapply wp_mono; [|apply (destroy_loop_ok depth p _ s1 pl1); try done; lia].
  intros _ s2 (K2 & T2 & pl2 & Hp2 & Hd2 & Hl2). apply wp_bind, wp_get, wp_modify.
  split; [by eapply (without_pipeline_ok None p s2)|]. split; [|by apply lookup_delete_eq].
  eapply torn_trans; [apply (set_torn p pl0)|]. eapply torn_trans; [done|]. eapply torn_trans; [done|].
  split; try done. intros p' Hp'. cbn. by rewrite lookup_delete_ne.
Qed.

(** ** Disposing *)

Lemma live_length q s : ok None q s → length (live None s) = length (requests s).
Proof.
  intros K. unfold live. rewrite (filter_true _ (requests s)) by done.
  assert (Hl : ∀ a, a ∈ requests s → is_Some (memory s !! a)) by (intros a; apply (ok_mem _ _ _ K)).
  clear K. induction (requests s) as [|a l IH]; [done|].
  destruct (Hl a ltac:(by apply elem_of_cons; left)) as [r Hr]. cbn. rewrite Hr. cbn. f_equal.
  apply IH. intros b Hb. apply Hl. by apply elem_of_cons; right.
Qed.

Lemma count_requests q s : ok None q s →
  (length (called (events s)) + length (dropped (events s)) + length (requests s) = next_serial s)%nat.
Proof.
  intros K. pose proof (Permutation_length (ok_serials _ _ _ K)) as Hlen.
  rewrite !length_app, length_seq, (live_length q s K) in Hlen. lia.
Qed.

Lemma finished_count a r result error s s' : ok None None s → finished a r result error s s' →
  error ≠ None →
  (S (length (requests s') + unasked (pipelines s')) = length (requests s) + unasked (pipelines s))%nat.
Proof.
  intros K F He. pose proof (count_requests _ _ K) as C. pose proof (count_requests _ _ (fin_ok _ _ _ _ _ _ F)) as C'.
  pose proof (fin_budget _ _ _ _ _ _ F He) as B. unfold budget in B.
  rewrite (fin_called _ _ _ _ _ _ F), (fin_dropped _ _ _ _ _ _ F), length_app in C'. cbn in C'. lia.
Qed.

Lemma dispose_loop_ok fuel s : ok None None s →
  (length (requests s) + unasked (pipelines s) < fuel)%nat →
  wp (dispose_loop fuel) (λ _ s', ok None None s' ∧ requests s' = []) s.
Proof.
  revert s. induction fuel as [|fuel IH]; intros s K Hf; [lia|].
  cbn [dispose_loop]. apply wp_bind, wp_get. destruct (requests s) as [|a l] eqn:Hl.
  { apply wp_ret. done. }
  assert (is_Some (memory s !! a)) as [r Ha].
  { apply (ok_mem _ _ _ K). rewrite Hl. by apply elem_of_cons; left. }
  apply wp_bind. eapply wp_mono; [|exact (cancel_request_ok 1 a r s K Ha)].
  intros ? s1 F. apply IH; [by apply F|].
  pose proof (finished_count _ _ _ _ _ _ K F ltac:(done)) as Hc. rewrite Hl in Hc. lia.
Qed.

Lemma dispose_ok s : ok None None s → dispose_has_run s = false →
  wp gabble_disco_dispose (λ _ s', requests s' = [] ∧ memory s' = ∅ ∧
    called (events s') ++ dropped (events s') ≡ₚ seq 0 (next_serial s')) s.
Proof.
  intros K Hd. unfold gabble_disco_dispose. apply wp_bind, wp_get. rewrite Hd.
  apply wp_bind, wp_modify. set (s1 := mkDisco _ _ _ _ _ _ _ _ _ _ _ _). apply wp_bind.
  eapply wp_mono; [|apply (dispose_loop_ok (dispose_fuel s) s1)].
  - intros _ s2 (K2 & Hr). apply wp_modify. cbn. split; [done|]. split.
    + apply map_empty. intros a. destruct (memory s2 !! a) as [r|] eqn:Ha; [|done].
      assert (a ∈ requests s2) as Hin by (apply (ok_mem _ _ _ K2); by eexists). rewrite Hr in Hin.
      by apply elem_of_nil in Hin.
    + rewrite <-(ok_serials _ _ _ K2). pose proof (live_length _ _ K2) as Hl. rewrite Hr in Hl.
      apply nil_length_inv in Hl. by rewrite Hl, app_nil_r.
  - by apply (ok_same _ _ s).
  - cbn. unfold dispose_fuel, unasked. lia.
Qed.

(** ** Inputs *)

Inductive disco_input :=
  | UserRequest (t : GabbleDiscoType) (jid : string) (node : option string) (n : nat)
      (object : option nat)
  | UserCancel (a : nat)
  | ObjectDies (n : nat)
  | TimerFires (a : nat)
  | IqReply (iq : nat) (reply : option WockyNode)
  | PorterAvailable
  | Connected (server : string)
  | PipelineInit (u : nat)
  | PipelineRun (p : nat) (server : string)
  | PipelineDestroy (p : nat).

Definition handle (i : disco_input) : M State unit :=
  match i with
  | UserRequest t jid node n object =>
      gabble_disco_request t jid node (ClientCb n) (OtherObject <$> object) ;; mret tt
  | UserCancel a => gabble_disco_cancel_request call (Some a)
  | ObjectDies n => object_dies (OtherObject n)
  | TimerFires a => timeout_request a
  | IqReply iq reply => message_send_reply_cb error_domains iq reply
  | PorterAvailable => put_porter true
  | Connected server => gabble_disco_conn_status_changed_cb true server
  | PipelineInit u => gabble_disco_pipeline_init (OtherUser u) ;; mret tt
  | PipelineRun p server => gabble_disco_pipeline_run p server
  | PipelineDestroy p => gabble_disco_pipeline_destroy call p
  end.

(** A pipeline that can be run: it was not, or has ended. *)
Definition idle (pl : GabbleDiscoPipeline) : Prop :=
  list_request pl = None ∨ list_request pl = Some None ∧ running pl = false.

(** The timers that can fire are those of requests; there is a porter before
    the connection is connected; a pipeline is not run twice at a time, and not
    destroyed before it is run. *)
Definition input_ok s (i : disco_input) : Prop :=
  dispose_has_run s = false ∧
  match i with
  | TimerFires a => is_Some (memory s !! a)
  | Connected _ => has_porter s = true
  | PipelineRun p _ => has_porter s = true ∧ ∃ pl, pipelines s !! p = Some pl ∧ idle pl
  | PipelineDestroy p => ∃ pl, pipelines s !! p = Some pl ∧ list_request pl ≠ None
  | _ => True
  end.

(** The request an input answers, and how. *)
Definition answers s (i : disco_input) :
    option (nat * GabbleDiscoRequest * option WockyNode * option GabbleDiscoError) :=
  match i with
  | UserCancel a =>
      r ← memory s !! a; Some (a, r, None, Some GABBLE_DISCO_ERROR_CANCELLED)
  | TimerFires a =>
      r ← memory s !! a; Some (a, r, None, Some GABBLE_DISCO_ERROR_TIMEOUT)
  | IqReply iq (Some reply) =>
      x ← iqs s !! iq; r ← memory s !! x.1;
      Some (x.1, r, (verdict r reply).1, (verdict r reply).2)
  | _ => None
  end.

Lemma finished_same a r result error s s0 s' :
  same s s0 → events s0 = events s → world s0 = world s → service_cache s0 = service_cache s →
  finished a r result error s0 s' → finished a r result error s s'.
Proof.
  intros [S1 S2 S3 S4 S5 S6 S7 S8] He Hw Hv [F1 F2 F3 F4 F5 F6 F7 F8 F9]. split; try congruence.
  - intros p Hp. by rewrite F2, S4.
  - intros b rb Hb Hm. apply F3; [done|]. by rewrite S2.
  - intros Hne. specialize (F8 Hne). unfold budget in *. congruence.
  - apply (answered_memory a r r _ _ s s0); try done. intros b. by rewrite S2.
Qed.

Lemma handle_answers s i a r result error :
  ok None None s → dispose_has_run s = false → answers s i = Some (a, r, result, error) →
  wp (handle i) (λ _ s', finished a r result error s s') s.
Proof.
  intros K Hd Hi. destruct i as [| b| | b|iq [reply|]| | | | |]; try done; cbn [answers] in Hi.
  - destruct (memory s !! b) as [rb|] eqn:Hb; [|done]. cbn in Hi. injection Hi as <- <- <- <-.
    cbn [handle gabble_disco_cancel_request]. apply wp_bind, wp_get.
    rewrite bool_decide_eq_true_2 by (apply (ok_mem _ _ _ K); by eexists).
    exact (cancel_request_ok 1 b rb s K Hb).
  - destruct (memory s !! b) as [rb|] eqn:Hb; [|done]. cbn in Hi. injection Hi as <- <- <- <-.
    by apply timeout_ok.
  - destruct (iqs s !! iq) as [[b k]|] eqn:Hq; [|done]. cbn in Hi.
    destruct (memory s !! b) as [rb|] eqn:Hb; [|done]. cbn in Hi. injection Hi as <- <- <- <-.
    cbn [handle message_send_reply_cb]. unfold message_send_reply_cb. apply wp_bind, wp_get.
    rewrite Hq. apply wp_bind, wp_modify. rewrite Hd.
    set (s0 := mkDisco _ _ _ _ _ _ _ _ _ _ _ _).
    eapply wp_mono; [|apply (reply_ok b rb s0 reply); [by apply (ok_same _ _ s)|done]].
    intros ? s'. by apply finished_same.
Qed.

(** ** Making and running a pipeline *)

(** Pipelines and requests are added; [p] is a pipeline that may change. *)
Record adds (p : nat) s s' : Prop := {
  adds_pipes p' : p' ≠ p → pipelines s' !! p' = pipelines s !! p';
  adds_memory a r : memory s !! a = Some r → memory s' !! a = Some r;
  adds_ends : ends (events s') = ends (events s);
  adds_world : world s' = world s;
  adds_porter : has_porter s' = has_porter s;
}.

Lemma adds_trans p s1 s2 s3 : adds p s1 s2 → adds p s2 s3 → adds p s1 s3.
Proof.
  intros [A1 A2 A3 A4 A5] [B1 B2 B3 B4 B5]. split; try congruence; [|eauto].
  intros p' Hp. by rewrite B1, A1.
Qed.

Lemma pipeline_init_ok u s : ok None None s →
  wp (gabble_disco_pipeline_init u) (λ p s', p = next_pipeline s ∧ ok None None s' ∧ adds p s s' ∧
    pipelines s' !! p = Some (mkPipeline u [] ∅ None true)) s.
Proof.
  intros K. pose proof K as [K1 K2 K3 K4 K5 K6 K7].
  unfold gabble_disco_pipeline_init. apply wp_bind, wp_get, wp_bind, wp_modify, wp_ret.
  set (s1 := mkDisco _ _ _ _ _ _ _ _ _ _ _ _).
  assert (Hfresh : ∀ p pl, pipelines s !! p = Some pl → p ≠ next_pipeline s).
  { intros p pl Hp ->. specialize (K7 (next_pipeline s) ltac:(by eexists)). lia. }
  split; [done|]. split; [|split; [|apply lookup_insert_eq]].
  - split; try done.
    + intros a r Hx Ha. destruct (K5 a r Hx Ha) as [Ht Hk]. split; [done|].
      unfold request_ok in *. cbn. destruct (r_callback r) as [n|p|p]; [done| |];
        destruct Hk as (Hb & pl & Hpl & Hin); (split; [done|]); exists pl;
        rewrite lookup_insert_ne; try done; apply not_eq_sym; eauto.
    + intros p pl. cbn. rewrite lookup_insert_Some. intros [[<- <-]|[Hne Hpl]].
      * split; cbn; try done; [by apply NoDup_nil_2|lia|set_solver|by left].
      * destruct (K6 p pl Hpl). by split.
    + intros p. cbn. intros [<-|[_ Hp%K7]]%lookup_insert_is_Some; lia.
  - split; try done. intros p' Hne. cbn. by rewrite lookup_insert_ne.
Qed.

Lemma pipeline_run_ok p server s pl :
  ok None None s → pipelines s !! p = Some pl → idle pl → has_porter s = true →
  wp (gabble_disco_pipeline_run p server) (λ _ s', ok None None s' ∧ adds p s s' ∧
    ∃ a r, pipelines s' !! p = Some (mkPipeline (p_user pl) [] ∅ (Some (Some a)) true) ∧
      memory s' !! a = Some r ∧ r_callback r = DiscoItemsCb p) s.
Proof.
  intros K Hpl Hidle Hpo. unfold gabble_disco_pipeline_run. eapply wp_pipeline; [done|].
  set (pl0 := with_running true pl). set (s0 := set_pipeline p pl0 s).
  apply (wp_known _ _ _ _ tt s0); [done|].
  pose proof (pipe_phase _ _ _ _ _ (ok_pipe _ _ _ K p pl Hpl) ltac:(done)) as Hph.
  assert (disco_pipeline pl = [] ∧ remaining_items pl = ∅) as [Hd Hr].
  { unfold phase in Hph. destruct Hidle as [Hi|[Hi Hi']]; rewrite Hi in Hph; [tauto|].
    by rewrite Hi' in Hph. }
  assert (K0 : ok None (Some p) s0) by (by eapply (set_pipeline_ok _ _ s p pl pl0); [apply ok_weaken|..]).
  assert (Hp0 : pipelines s0 !! p = Some pl0) by apply lookup_insert_eq.
  eapply wp_known; [by apply request_sent|]. eapply wp_pipeline; [exact Hp0|].
  set (s1 := sent _ _ _ _ _ s0). set (pl1 := with_list (Some (Some (address s0))) pl0).
  apply wp_bind, wp_get, wp_modify. change (ok None None (set_pipeline p pl1 s1) ∧
    adds p s (set_pipeline p pl1 s1) ∧ ∃ a r, pipelines (set_pipeline p pl1 s1) !! p =
      Some (mkPipeline (p_user pl) [] ∅ (Some (Some a)) true) ∧
      memory (set_pipeline p pl1 s1) !! a = Some r ∧ r_callback r = DiscoItemsCb p).
  split; [|split].
  - apply (ok_phase None p).
    + eapply sent_pipeline_ok; [done|done| |done|done]. right. split; [done|]. split; [|done].
      intros a Ha. cbn in Ha. destruct Hidle as [Hi|[Hi _]]; congruence.
    + intros pl'. cbn. rewrite lookup_insert_eq. intros [= <-]. unfold phase. cbn. by rewrite Hd, Hr.
  - split; try done.
    + intros p' Hne. cbn. by rewrite !lookup_insert_ne.
    + intros a r Ha. cbn. rewrite lookup_insert_ne; [done|]. intros <-.
      pose proof (address_fresh s0) as Hf. cbn in Hf. congruence.
    + cbn. rewrite ends_app. apply app_nil_r.
  - exists (address s0). eexists. cbn. rewrite !lookup_insert_eq. split; [|done].
    unfold pl1, pl0, with_list, with_running. cbn. by rewrite Hd, Hr.
Qed.

(** ** Inputs that answer nothing *)

Definition touches (i : disco_input) (p : nat) : Prop :=
  match i with PipelineRun p' _ | PipelineDestroy p' => p = p' | _ => False end.

(** Neither makes, nor runs, nor destroys a pipeline of another component. *)
Definition plain (i : disco_input) : Prop :=
  match i with PipelineInit _ | PipelineRun _ _ | PipelineDestroy _ => False | _ => True end.

Record quiet (i : disco_input) s s' : Prop := {
  quiet_ok : ok None None s';
  quiet_pipes p pl : ¬ touches i p → pipelines s !! p = Some pl →
    pipelines s' !! p = Some pl ∧ open_items s' pl = open_items s pl;
  quiet_ends : ends (events s') = ends (events s);
  quiet_world : world s' = world s;
  quiet_users p pl c : plain i → pipelines s' !! p = Some pl → p_user pl = OtherUser c →
    pipelines s !! p = Some pl;
}.

Lemma quiet_memory i s s' : ok None None s → ok None None s' →
  (∀ p pl, ¬ touches i p → pipelines s !! p = Some pl → pipelines s' !! p = Some pl) →
  (∀ p a r, ¬ touches i p → about (r_callback r) p → memory s !! a = Some r → memory s' !! a = Some r) →
  ends (events s') = ends (events s) → world s' = world s →
  (∀ p pl c, plain i → pipelines s' !! p = Some pl → p_user pl = OtherUser c →
     pipelines s !! p = Some pl) →
  quiet i s s'.
Proof.
  intros K K' Hp Hm He Hw Hu. split; [done| |done|done|done]. intros p pl Ht Hpl. split; [by apply Hp|].
  eapply open_about; [by apply (ok_pipe _ _ _ K)|]. intros a r _ Hc. apply (Hm p); [done|by left].
Qed.

Lemma disco_handle_quiet s i :
  ok None None s → input_ok s i → answers s i = None → wp (handle i) (λ _ s', quiet i s s') s.
Proof.
  intros K [Hd Hi] Ha.
  assert (Q : ∀ s', same s s' → ends (events s') = ends (events s) → world s' = world s →
    quiet i s s').
  { intros s' Sm He Hw. pose proof Sm as [S1 S2 S3 S4 S5 S6 S7 S8]. apply quiet_memory; try done.
    - by apply (ok_same _ _ s).
    - intros. by rewrite S4.
    - intros. by rewrite S2.
    - intros p pl c _. by rewrite S4. }
  destruct i as [t jid node n object|b|n|b|iq reply| |server|u|p server|p]; cbn [handle answers] in *.
  - destruct (has_porter s) eqn:Hpo.
    + eapply wp_known; [by apply request_sent|]. apply wp_ret. apply quiet_memory; try done.
      * by apply sent_client_ok.
      * intros _ a r _ _ Hm. cbn. rewrite lookup_insert_ne; [done|]. intros <-.
        by rewrite address_fresh in Hm.
      * cbn. rewrite ends_app. apply app_nil_r.
    + eapply wp_known; [by apply request_unsent|]. apply wp_ret. apply quiet_memory; try done.
      * by apply unsent_ok.
      * cbn. rewrite ends_app. apply app_nil_r.
  - destruct (memory s !! b) eqn:Hb; [done|]. cbn [gabble_disco_cancel_request]. apply wp_bind, wp_get.
    rewrite bool_decide_eq_false_2; [by apply wp_ret, Q|]. intros [? Hx]%(ok_mem _ _ _ K). congruence.
  - eapply wp_mono; [|by apply object_dies_ok]. intros [] s' [U1 U2 U3 U4 U5 U6]. apply quiet_memory; try done.
    + intros. by rewrite U2.
    + intros p a r _ Hc Hm. apply U6; [done|].
      destruct (ok_request _ _ _ K a r ltac:(done) Hm) as [_ Hk]. unfold request_ok in Hk.
      destruct Hc as [Hc|Hc]; rewrite Hc in Hk; by apply Hk.
    + intros p pl c _. by rewrite U2.
  - destruct Hi as [r Hr]. by rewrite Hr in Ha.
  - unfold message_send_reply_cb. apply wp_bind, wp_get.
    destruct (iqs s !! iq) as [[b k]|] eqn:Hq; [|by apply wp_ret, Q].
    apply wp_bind, wp_modify. set (s0 := mkDisco _ _ _ _ _ _ _ _ _ _ _ _).
    destruct reply as [reply|]; [|by apply wp_ret, Q]. rewrite Hd.
    cbn in Ha. destruct (memory s !! b) eqn:Hb; [done|].
    unfold request_reply_cb. apply wp_bind, wp_get. rewrite bool_decide_eq_false_2; [by apply wp_ret, Q|].
    cbn. intros [? Hx]%(ok_mem _ _ _ K). congruence.
  - apply wp_modify. apply quiet_memory; try done.
    pose proof K as [K1 K2 K3 K4 K5 K6 K7]. split; try done.
    intros p pl Hpl. destruct (K6 p pl Hpl). split; try done. by right.
  - unfold gabble_disco_conn_status_changed_cb. cbn [when]. apply wp_bind.
    eapply wp_mono; [|by apply pipeline_init_ok]. intros p s1 (-> & K1 & A1 & Hp1).
    eapply wp_mono; [|eapply (pipeline_run_ok _ _ s1); [done|done|by left|]].
    2:{ by rewrite (adds_porter _ _ _ A1). }
    intros ? s2 (K2 & A2 & a & r & Hp2 & _). pose proof (adds_trans _ _ _ _ A1 A2) as [B1 B2 B3 B4 B5].
    apply quiet_memory; try done; [|eauto|].
    + intros p pl _ Hp. rewrite B1; [done|]. intros ->.
      pose proof (ok_next _ _ _ K (next_pipeline s) ltac:(by eexists)). lia.
    + intros p pl c _ Hp Hu. destruct (decide (p = next_pipeline s)) as [->|Hne].
      * rewrite Hp2 in Hp. by injection Hp as <-.
      * by rewrite B1 in Hp.
  - apply wp_bind. eapply wp_mono; [|by apply pipeline_init_ok].
    intros p s1 (-> & K1 & [B1 B2 B3 B4 B5] & Hp1). apply wp_ret. apply quiet_memory; try done; [|eauto].
    intros p pl _ Hp. rewrite B1; [done|]. intros ->.
    pose proof (ok_next _ _ _ K (next_pipeline s) ltac:(by eexists)). lia.
  - destruct Hi as (Hpo & pl & Hpl & Hid).
    eapply wp_mono; [|by eapply pipeline_run_ok]. intros [] s2 (K2 & [B1 B2 B3 B4 B5] & _).
    apply quiet_memory; try done; [|eauto]. intros p' pl' Hne Hp'. by rewrite B1.
  - destruct Hi as (pl & Hpl & Hl).
    eapply wp_mono; [|by apply (destroy_ok 1 p s pl)]. intros [] s2 (K2 & [B1 B2 B3 B4 B5] & _).
    apply quiet_memory; try done.
    + intros p' pl' Hne Hp'. rewrite B1; done.
    + intros p' a r Hne Hc Hm. apply B2; [|done]. intros Hc'. apply Hne. cbn.
      destruct Hc as [Hc|Hc], Hc' as [Hc'|Hc']; congruence.
Qed.

(** ** The theorems *)

Inductive reach : State → Prop :=
  | reach_init w : reach (gabble_disco_init w)
  | reach_step s i s' : reach s → input_ok s i → handle i s = Ok (tt, s') → reach s'.

Lemma handle_ok s i : ok None None s → input_ok s i → wp (handle i) (λ _ s', ok None None s') s.
Proof.
  intros K Hi. destruct (answers s i) as [[[[a r] result] error]|] eqn:Ha.
  - eapply wp_mono; [|apply (handle_answers s i a r result error K (proj1 Hi) Ha)].
    intros ? s' F. apply F.
  - eapply wp_mono; [|by apply disco_handle_quiet]. intros ? s' F. apply F.
Qed.

Lemma answers_live s i a r result error :
  answers s i = Some (a, r, result, error) → memory s !! a = Some r.
Proof.
  destruct i as [| b| | b|iq [reply|]| | | | |]; try done; cbn.
  - destruct (memory s !! b) eqn:E; [|done]. cbn. by intros [= <- <- <- <-].
  - destruct (memory s !! b) eqn:E; [|done]. cbn. by intros [= <- <- <- <-].
  - destruct (iqs s !! iq) as [[b k]|]; [|done]. cbn. destruct (memory s !! b) eqn:E; [|done]. cbn.
    by intros [= <- <- <- <-].
Qed.

Lemma wp_returns (m : M State unit) (Q : unit → State → Prop) s : wp m Q s → ∃ s', m s = Ok (tt, s') ∧ Q tt s'.
Proof. unfold wp. destruct (m s) as [[[] s']|]; [eauto|done]. Qed.

Lemma reach_ok s : reach s → ok None None s.
Proof.
  induction 1 as [w|s i s' _ IH Hi Hs]; [apply init_disco_ok|].
  destruct (wp_returns _ _ _ (handle_ok s i IH Hi)) as (s1 & H1' & K1).
  rewrite Hs in H1'. by injection H1' as <-.
Qed.

(** C16: In every state of service discovery reached by
    the inputs that are allowed, none of these inputs aborts, and every
    request is in exactly one of three places: its callback was called, it was
    dropped because it could not be sent or its object is gone, or it waits;
    and every request that waits has its timer running. Allowed is whatever
    comes before the object is disposed, provided that a timer that fires is
    that of a request, that there is a porter when the connection is connected
    and when a pipeline is run, that a pipeline that is run exists and is not
    running, and that one that is destroyed exists and has been run. *)
Theorem disco_requests_once s i : reach s → input_ok s i →
  (∃ s', handle i s = Ok (tt, s')) ∧
  called (events s) ++ dropped (events s) ++ live None s ≡ₚ seq 0 (next_serial s) ∧
  (∀ a r, memory s !! a = Some r → timer r = true).
Proof.
  intros K%reach_ok Hi. destruct (wp_returns _ _ _ (handle_ok s i K Hi)) as (s1 & H1' & _).
  split; [by exists s1|]. split; [apply (ok_serials _ _ _ K)|].
  intros a r Ha. by apply (ok_request _ _ _ K a r).
Qed.

(** C18: disposing of the object comes to an end, although the requests that are
    cancelled make room for others, and leaves no request unanswered. *)
Theorem disco_disposes s : reach s → dispose_has_run s = false →
  ∃ s', gabble_disco_dispose s = Ok (tt, s') ∧ memory s' = ∅ ∧
    called (events s') ++ dropped (events s') ≡ₚ seq 0 (next_serial s').
Proof.
  intros K%reach_ok Hd. destruct (wp_returns _ _ _ (dispose_ok s K Hd)) as (s' & Hs & _ & Hm). eauto.
Qed.

(** *** Replies and addresses *)

(** What calling back another component's request does, exactly. *)
Record called_back (a u : nat) (r : GabbleDiscoRequest) (result : option WockyNode)
    (error : option GabbleDiscoError) s s' : Prop := {
  cb_requests : requests s' = g_slist_remove a (requests s);
  cb_memory : memory s' = delete a (memory s);
  cb_serial : next_serial s' = next_serial s;
  cb_iqs : iqs s' = iqs s;
  cb_next_iq : next_iq s' = next_iq s;
  cb_porter : has_porter s' = has_porter s;
  cb_disposed : dispose_has_run s' = dispose_has_run s;
  cb_world : world s' = request_cb u result error (world s);
  cb_events : events s' = events s ++ [Called (serial r) (ClientCb u) (r_jid r) result error];
}.

(** The state after the callback of such a request. *)
Definition after_callback (u : nat) (r : GabbleDiscoRequest) (result : option WockyNode)
    (error : option GabbleDiscoError) s : State :=
  mkDisco (service_cache s) (requests s) (memory s) (next_serial s) (iqs s) (next_iq s) (pipelines s)
    (next_pipeline s) (has_porter s) (dispose_has_run s) (request_cb u result error (world s))
    (events s ++ [Called (serial r) (r_callback r) (r_jid r) result error]).

Lemma call_client a u r result error s :
  r_callback r = ClientCb u → call a r result error s = Ok (tt, after_callback u r result error s).
Proof.
  intros Hcb. change (call a r) with (call_callback (run_callback 1) a r).
  unfold call_callback, after_callback. erewrite bind_eq by reflexivity. rewrite Hcb. reflexivity.
Qed.

Lemma delete_client a r s :
  memory s !! a = Some r → a ∈ requests s →
  delete_request a s = Ok (tt, mkDisco (service_cache s) (g_slist_remove a (requests s)) (delete a (memory s))
    (next_serial s) (iqs s) (next_iq s) (pipelines s) (next_pipeline s) (has_porter s) (dispose_has_run s)
    (world s) (events s)).
Proof.
  intros Ha Hin. unfold delete_request.
  rewrite (bind_eq _ _ s r s) by (unfold get_request, mbind, M_bind, get; by rewrite Ha).
  rewrite (bind_eq _ _ s s s) by done. by rewrite bool_decide_eq_true_2.
Qed.

Lemma get_known_request a r s : memory s !! a = Some r → get_request a s = Ok (r, s).
Proof. intros Ha. unfold get_request, mbind, M_bind, get. by rewrite Ha. Qed.

Lemma timeout_client a u r s :
  memory s !! a = Some r → a ∈ requests s → r_callback r = ClientCb u →
  ∃ s', timeout_request a s = Ok (tt, s') ∧
        called_back a u r None (Some GABBLE_DISCO_ERROR_TIMEOUT) s s'.
Proof.
  intros Ha Hin Hcb. unfold timeout_request. rewrite (bind_eq _ _ _ _ _ (get_known_request a r s Ha)).
  erewrite (bind_eq (put_request _ _)) by reflexivity. set (r1 := with_bound None r).
  erewrite bind_eq by (apply get_known_request, lookup_insert_eq).
  erewrite bind_eq by (by apply (call_client a u r1)).
  erewrite bind_eq by (apply get_known_request, lookup_insert_eq).
  erewrite (bind_eq (put_request _ _)) by reflexivity.
  eexists. split; [eapply delete_client; [apply lookup_insert_eq|done]|].
  split; cbn; try done; [by rewrite !delete_insert_eq|by rewrite Hcb].
Qed.

Lemma reply_client a u r reply s :
  memory s !! a = Some r → a ∈ requests s → r_callback r = ClientCb u →
  ∃ s', request_reply_cb error_domains a reply s = Ok (tt, s') ∧
        called_back a u r (verdict r reply).1 (verdict r reply).2 s s'.
Proof.
  intros Ha Hin Hcb. unfold request_reply_cb. erewrite bind_eq by reflexivity.
  rewrite bool_decide_eq_true_2 by done. cbn [negb].
  rewrite (bind_eq _ _ _ _ _ (get_known_request a r s Ha)).
  erewrite bind_eq by (by apply (call_client a u r)).
  eexists. split; [by eapply delete_client|]. split; cbn; try done. by rewrite Hcb.
Qed.

(** C36: A reply is given to whatever request has
    the address its own request had. Take any reachable state of service
    discovery that is not disposed and has a porter, any request of another
    component in it that waits for its IQ, and an allocator that gives its
    memory to the next request once it is freed. When the request times out
    and another request, not bound to an object, is made, the late reply to
    the first calls the callback of the second with what it says, and then the
    second's own reply is ignored. *)
Theorem stale_reply_misdelivered s a u r iq t jid node u' reply reply' :
  reach s → dispose_has_run s = false → has_porter s = true →
  memory s !! a = Some r → r_callback r = ClientCb u → iqs s !! iq = Some (a, serial r) →
  (iq < next_iq s)%nat → malloc (dom (memory s) ∖ {[a]}) = a →
  let r' := mkRequest (next_serial s) t jid node (ClientCb u') None true in
  ∃ s1 s2 s3 s4,
    handle (TimerFires a) s = Ok (tt, s1) ∧ handle (UserRequest t jid node u' None) s1 = Ok (tt, s2) ∧
    handle (IqReply iq (Some reply)) s2 = Ok (tt, s3) ∧
    handle (IqReply (next_iq s) (Some reply')) s3 = Ok (tt, s4) ∧
    iqs s2 !! next_iq s = Some (a, serial r') ∧
    world s4 = request_cb u' (verdict r' reply).1 (verdict r' reply).2
                 (request_cb u None (Some GABBLE_DISCO_ERROR_TIMEOUT) (world s)) ∧
    events s4 = events s ++
      [Called (serial r) (ClientCb u) (r_jid r) None (Some GABBLE_DISCO_ERROR_TIMEOUT);
       SendIq (next_iq s) (request_stanza t jid node);
       Called (serial r') (ClientCb u') jid (verdict r' reply).1 (verdict r' reply).2].
Proof.
  intros K%reach_ok Hd Hp Ha Hcb Hq Hlt Hm r'.
  assert (Hin : a ∈ requests s) by (apply (ok_mem _ _ _ K); eauto).
  destruct (timeout_client a u r s Ha Hin Hcb) as (s1 & Hrun1 & C1).
  set (s2 := mkDisco (service_cache s1) (a :: requests s1) (<[a := r']> (memory s1)) (S (next_serial s1))
    (<[next_iq s1 := (a, next_serial s1)]> (iqs s1)) (S (next_iq s1)) (pipelines s1) (next_pipeline s1)
    (has_porter s1) (dispose_has_run s1) (world s1)
    (events s1 ++ [SendIq (next_iq s1) (request_stanza t jid node)])).
  assert (Hrun2 : handle (UserRequest t jid node u' None) s1 = Ok (tt, s2)).
  { cbn [handle]. unfold gabble_disco_request, put_request, put_requests, put_iqs, emit, mbind, M_bind, get,
      modify, mret, M_ret. cbn. rewrite (cb_porter _ _ _ _ _ _ _ C1), Hp. cbn.
    rewrite (cb_memory _ _ _ _ _ _ _ C1), dom_delete_L, Hm, insert_insert_eq. unfold s2, r'.
    by rewrite (cb_memory _ _ _ _ _ _ _ C1), (cb_serial _ _ _ _ _ _ _ C1), (cb_porter _ _ _ _ _ _ _ C1), Hp. }
  set (s2' := mkDisco (service_cache s2) (requests s2) (memory s2) (next_serial s2) (delete iq (iqs s2))
    (next_iq s2) (pipelines s2) (next_pipeline s2) (has_porter s2) (dispose_has_run s2) (world s2) (events s2)).
  destruct (reply_client a u' r' reply s2') as (s3 & Hrun3 & C3); [apply lookup_insert_eq|by left|done|].
  assert (Hni : a ∉ requests s3).
  { rewrite (cb_requests _ _ _ _ _ _ _ C3). cbn. rewrite decide_True by done.
    rewrite (cb_requests _ _ _ _ _ _ _ C1). intros Hx. pose proof (g_slist_remove_perm a _ Hin) as Hperm.
    pose proof (ok_nodup _ _ _ K) as Hnd. rewrite Hperm in Hnd. by apply NoDup_cons in Hnd as [? _]. }
  assert (Hq3 : iqs s3 !! next_iq s = Some (a, next_serial s)).
  { rewrite (cb_iqs _ _ _ _ _ _ _ C3). cbn.
    rewrite lookup_delete_ne by lia.
    by rewrite (cb_next_iq _ _ _ _ _ _ _ C1), (cb_serial _ _ _ _ _ _ _ C1), lookup_insert_eq. }
  eexists s1, s2, s3, _. split_and!; [exact Hrun1|exact Hrun2| | | | |].
  - cbn [handle]. unfold message_send_reply_cb. erewrite bind_eq by done.
    replace (iqs s2 !! iq) with (Some (a, serial r)).
    2: { cbn. rewrite (cb_next_iq _ _ _ _ _ _ _ C1), lookup_insert_ne by lia.
         by rewrite (cb_iqs _ _ _ _ _ _ _ C1). }
    rewrite (bind_eq _ _ s2 tt s2') by reflexivity.
    destruct (dispose_has_run s2) eqn:E; [|exact Hrun3].
    cbn in E. by rewrite (cb_disposed _ _ _ _ _ _ _ C1), Hd in E.
  - cbn [handle]. unfold message_send_reply_cb. erewrite bind_eq by done. rewrite Hq3.
    erewrite bind_eq by done.
    rewrite (cb_disposed _ _ _ _ _ _ _ C3). cbn [dispose_has_run s2' s2].
    rewrite (cb_disposed _ _ _ _ _ _ _ C1), Hd. unfold request_reply_cb. erewrite bind_eq by done.
    cbn [requests]. by rewrite bool_decide_eq_false_2.
  - cbn. by rewrite (cb_next_iq _ _ _ _ _ _ _ C1), (cb_serial _ _ _ _ _ _ _ C1), lookup_insert_eq.
  - cbn [world]. by rewrite (cb_world _ _ _ _ _ _ _ C3), <- (cb_world _ _ _ _ _ _ _ C1).
  - cbn [events]. rewrite (cb_events _ _ _ _ _ _ _ C3). cbn [events s2' s2].
    by rewrite (cb_events _ _ _ _ _ _ _ C1), (cb_next_iq _ _ _ _ _ _ _ C1), <- !(assoc_L (++)).
Qed.

(** *** Pipelines, as their users see them *)

Inductive PipelineView := Fresh | Listing | Asking (open : list string) | Ended.

Definition view s (p : nat) : option PipelineView :=
  pl ← pipelines s !! p;
  Some match list_request pl with
       | None => Fresh
       | Some (Some _) => Listing
       | Some None => if running pl then Asking (open_items s pl) else Ended
       end.

(** The pipeline has these items to hear about; it has ended when there are
    none, and its user is told then and only then. *)
Definition has_open (O : list string) (user : PipelineUser) s s' (p : nat) : Prop :=
  if decide (O = []) then
    (view s' p = Some Ended ∨ view s' p = None) ∧ ends (events s') = ends (events s) ++ [user]
  else
    (∃ O', view s' p = Some (Asking O') ∧ O' ≡ₚ O) ∧ ends (events s') = ends (events s).

Lemma settled_open p pl O s s1 s' : list_request pl = Some None → running pl = true →
  ends (events s1) = ends (events s) → settled p pl O s1 s' → has_open O (p_user pl) s s' p.
Proof.
  intros Hl Hr He Hs. unfold has_open, view.
  destruct Hs as [(Ho & Hn & _ & l & r & Hp & Hi)|(-> & Hn & Hu)].
  - rewrite decide_False by done. split; [|congruence]. rewrite Hp. cbn. rewrite Hl, Hr. eauto.
  - rewrite decide_True by done. split; [|congruence]. destruct (p_user pl).
    + right. by destruct Hu as [-> _].
    + left. destruct Hu as [-> _]. cbn. by rewrite Hl.
Qed.

(** C17: a pipeline is nothing but the items it has yet to hear about.  The
    answer to the first request makes them the items of the server; the
    answer to a request for an item, whatever it is, takes that item away;
    nothing else changes them; and when none is left the user is told. *)
Theorem disco_pipeline_refines s i s' p pl :
  reach s → input_ok s i → handle i s = Ok (tt, s') → pipelines s !! p = Some pl →
  match answers s i with
  | Some (a, r, result, error) =>
      if decide (r_callback r = ItemInfoCb p) then
        ∃ O O', view s p = Some (Asking O) ∧ O ≡ₚ r_jid r :: O' ∧ has_open O' (p_user pl) s s' p
      else if decide (r_callback r = DiscoItemsCb p) then
        view s p = Some Listing ∧ has_open (elements (listed result error)) (p_user pl) s s' p
      else view s' p = view s p
  | None => ¬ touches i p → view s' p = view s p ∧ ends (events s') = ends (events s)
  end.
Proof.
  intros K%reach_ok Hi Hs Hp. destruct (answers s i) as [[[[a r] result] error]|] eqn:Ha.
  - destruct (wp_returns _ _ _ (handle_answers s i a r result error K (proj1 Hi) Ha)) as (s1 & Hs1 & F).
    rewrite Hs in Hs1. injection Hs1 as <-. pose proof (fin_answered _ _ _ _ _ _ F) as Han. unfold answered in Han.
    destruct (decide _) as [Hc|Hc]; [|destruct (decide _) as [Hc'|Hc']].
    + rewrite Hc in Han. destruct Han as (pl0 & O & s0 & Hp0 & Hl & Hr & Ho & He & _ & Hset). simplify_eq.
      exists (open_items s pl), O. split; [unfold view; rewrite Hp; cbn; by rewrite Hl, Hr|].
      split; [done|]. by eapply settled_open.
    + rewrite Hc' in Han. destruct Han as (pl0 & s0 & Hp0 & Hl & He & _ & Hset). simplify_eq.
      split; [unfold view; rewrite Hp; cbn; by rewrite Hl|].
      eapply (settled_open p (with_list (Some None) pl)); [done| |done|done].
      pose proof (pipe_phase _ _ _ _ _ (ok_pipe _ _ _ K p pl Hp) ltac:(done)) as Hph.
      unfold phase in Hph. rewrite Hl in Hph. by apply Hph.
    + assert (Hna : ¬ about (r_callback r) p) by (by intros [?|?]).
      unfold view. rewrite (fin_pipes _ _ _ _ _ _ F p Hna), Hp. cbn.
      rewrite (open_about None None s s' p pl (ok_pipe _ _ _ K p pl Hp)); [done|].
      intros b rb _ Hcb Hm. apply (fin_memory _ _ _ _ _ _ F); [|done]. intros ->.
      rewrite (answers_live s i a r result error Ha) in Hm. congruence.
  - intros Ht. destruct (wp_returns _ _ _ (disco_handle_quiet s i K Hi Ha)) as (s1 & Hs1 & Q).
    rewrite Hs in Hs1. injection Hs1 as <-.
    destruct (quiet_pipes _ _ _ Q p pl Ht Hp) as [Hp' Ho]. split; [|apply Q].
    unfold view. rewrite Hp', Hp. cbn. by rewrite Ho.
Qed.
End disco.
End DiscoFacts.
