(* ===== verification/DiscoRuns.v ===== *)
(** * Runs of service discovery

    An allocator that gives out the lowest free address, as a slice allocator
    hands a freed block out again, a client that keeps what it was told, and
    what happens in concrete runs: that the hypotheses of the theorems of
    [DiscoFacts] hold in them, and the ways in which comparing pointers of
    requests and the array of a pipeline go wrong. *)

From S2P Require Import Prelude Node Namespaces XmppError Disco DiscoFacts.

Module DiscoRuns.
Import Disco DiscoFacts.

(** ** An allocator *)

Definition lowest_free (X : gset nat) : nat :=
  default 0%nat (head (List.filter (λ n, bool_decide (n ∉ X)) (seq 0 (S (size X))))).

Lemma lowest_free_fresh X : lowest_free X ∉ X.
Proof.
  unfold lowest_free. destruct (List.filter _ _) as [|n l] eqn:E; cbn.
  - exfalso. assert (Hin : ∀ n, (n < S (size X))%nat → n ∈ X).
    { intros n Hn. destruct (decide (n ∈ X)) as [|Hx]; [done|]. exfalso.
      assert (In n []) as []. rewrite <-E. apply filter_In. split; [apply in_seq; lia|].
      by apply bool_decide_eq_true_2. }
    assert (Hs : (set_seq 0 (S (size X)) : gset nat) ⊆ X).
    { intros n Hn%elem_of_set_seq. apply Hin. lia. }
    apply subseteq_size in Hs. rewrite size_set_seq in Hs. lia.
  - assert (Hn : In n (n :: l)) by by left. rewrite <-E in Hn.
    apply filter_In in Hn as [_ Hn]. by apply bool_decide_eq_true_1 in Hn.
Qed.

#[global] Instance run_time : Runtime := {
  malloc := lowest_free;
  first_item X := head (elements X);
}.

#[global] Instance run_time_laws : RuntimeLaws.
Proof.
  split.
  - apply lowest_free_fresh.
  - intros X j. cbn. destruct (elements X) as [|k l] eqn:E; [done|]. cbn. intros [= <-].
    apply elem_of_elements. rewrite E. apply elem_of_cons. by left.
  - intros X. cbn. destruct (elements X) eqn:E; [|done]. intros _. apply leibniz_equiv.
    by apply elements_empty_inv.
Qed.

(** ** A client *)

Inductive heard :=
  | Answer (n : nat) (result : option WockyNode) (error : option GabbleDiscoError)
  | Item (u : nat) (item : GabbleDiscoItem)
  | End (u : nat).

#[global] Instance hearing : DiscoClient (list heard) GabbleDiscoItem GabbleDiscoError := {
  request_cb n result error l := l ++ [Answer n result error];
  pipeline_cb _ u item l := l ++ [Item u item];
  pipeline_end_cb u l := l ++ [End u];
}.

(** Whether an input can come, decided. *)
Definition can_come {W} (s : GabbleDisco W) (i : disco_input) : bool :=
  negb (dispose_has_run s) &&
  match i with
  | TimerFires a => bool_decide (is_Some (memory s !! a))
  | Connected _ => has_porter s
  | PipelineRun p _ =>
      has_porter s &&
      match pipelines s !! p with
      | Some pl =>
          match list_request pl with
          | None => true
          | Some None => negb (running pl)
          | Some (Some _) => false
          end
      | None => false
      end
  | PipelineDestroy p =>
      match pipelines s !! p with Some pl => bool_decide (list_request pl ≠ None) | None => false end
  | _ => true
  end.

Lemma can_come_ok {W} (s : GabbleDisco W) i : can_come s i = true → input_ok s i.
Proof.
  unfold can_come, input_ok. intros [Hd Hi]%andb_prop. split; [by destruct (dispose_has_run s)|].
  destruct i as [| | |a| | | | |p server|p]; try done.
  - by apply bool_decide_eq_true_1 in Hi.
  - apply andb_prop in Hi as [Hp Hi]. split; [done|].
    destruct (pipelines s !! p) as [pl|]; [|done]. exists pl. split; [done|]. unfold idle.
    destruct (list_request pl) as [[|]|]; [done| |by left].
    right. split; [done|]. by destruct (running pl).
  - destruct (pipelines s !! p) as [pl|]; [|done]. exists pl. split; [done|].
    by apply bool_decide_eq_true_1 in Hi.
Qed.

(** The inputs, one after the other. *)
Definition run_inputs (l : list disco_input) : M (GabbleDisco (list heard)) unit :=
  for_each l (λ i, s ← get; g_assert (can_come s i) ;; handle [] i).

Lemma run_inputs_reach l s s' : reach [] s → run_inputs l s = Ok (tt, s') → reach [] s'.
Proof.
  revert s. induction l as [|i l IH]; intros s Hs; unfold run_inputs; cbn [for_each].
  - cbn. by intros [= <-].
  - intros ([] & s1 & H1 & H2)%bind_Ok. apply (IH s1); [|done].
    apply bind_Ok in H1 as (s0 & s0' & Hg & H1). injection Hg as <- <-.
    apply bind_Ok in H1 as ([] & s2 & Ha & H1). unfold g_assert in Ha.
    destruct (can_come s i) eqn:Hc; [|done]. injection Ha as <-.
    eapply reach_step; [done|by apply can_come_ok|done].
Qed.

Definition start : GabbleDisco (list heard) := gabble_disco_init [].
Definition after_inputs (l : list disco_input) : GabbleDisco (list heard) :=
  match run_inputs l start with Ok (_, s) => s | Abort _ => start end.

Lemma after_inputs_reach l :
  match run_inputs l start with Ok _ => true | Abort _ => false end = true →
  reach [] (after_inputs l).
Proof.
  unfold after_inputs. destruct (run_inputs l start) as [[[] s]|] eqn:E; [|done]. intros _.
  eapply run_inputs_reach; [apply reach_init|exact E].
Qed.

(** ** Stanzas *)

Definition info_reply (nm : string) : WockyNode :=
  mkNode "iq" None (Some "jabber:client") [mkAttribute "type" "result" None]
    [mkNode "query" None (Some NS_DISCO_INFO) []
       [mkNode "identity" None None
          [mkAttribute "category" "conference" None; mkAttribute "type" "text" None;
           mkAttribute "name" nm None] [];
        mkNode "feature" None None
          [mkAttribute "var" "http://jabber.org/protocol/muc" None] []]].

Definition items_reply (jids : list string) : WockyNode :=
  mkNode "iq" None (Some "jabber:client") [mkAttribute "type" "result" None]
    [mkNode "query" None (Some NS_DISCO_ITEMS) []
       ((λ j, mkNode "item" None None [mkAttribute "jid" j None] []) <$> jids)].

(** ** The hypotheses of the theorems hold *)

(** A request waits, and a pipeline has heard about one of two items. *)
Definition busy_inputs : list disco_input :=
  [PorterAvailable; UserRequest GABBLE_DISCO_TYPE_INFO "romeo@example.net" None 7 None;
   PipelineInit 3; PipelineRun 0 "conf.example.net";
   IqReply 1 (Some (items_reply ["a@conf"; "b@conf"])); IqReply 2 (Some (info_reply "A"))].
Definition busy : GabbleDisco (list heard) := after_inputs busy_inputs.

Lemma busy_reach : reach [] busy.
Proof. apply after_inputs_reach. vm_compute. reflexivity. Qed.

Lemma disco_requests_once_witness :
  (∃ s', handle [] (IqReply 3 (Some (info_reply "B"))) busy = Ok (tt, s')) ∧
  called (events busy) ++ dropped (events busy) ++ live None busy ≡ₚ seq 0 (next_serial busy) ∧
  (∀ a r, memory busy !! a = Some r → timer r = true).
Proof. apply disco_requests_once; [apply busy_reach|apply can_come_ok; vm_compute; reflexivity]. Defined.

Lemma disco_disposes_witness : ∃ s', gabble_disco_dispose busy = Ok (tt, s') ∧ memory s' = ∅ ∧
  called (events s') ++ dropped (events s') ≡ₚ seq 0 (next_serial s').
Proof. apply (disco_disposes []); [apply busy_reach|vm_compute; reflexivity]. Defined.

Definition busy_pipeline : GabbleDiscoPipeline :=
  mkPipeline (OtherUser 3) [Some 3%nat] ∅ (Some None) true.
Definition b_request : GabbleDiscoRequest :=
  mkRequest 3 GABBLE_DISCO_TYPE_INFO "b@conf" None (ItemInfoCb 0) (Some TheDisco) true.
Definition b_query : option WockyNode :=
  wocky_node_get_child_ns (info_reply "B") (Some "query") (Some NS_DISCO_INFO).
Definition last_input : disco_input := IqReply 3 (Some (info_reply "B")).
Definition quiet_end : GabbleDisco (list heard) := after_inputs (busy_inputs ++ [last_input]).

(** The answer about the last item ends the pipeline. *)
Lemma disco_pipeline_refines_witness :
  answers [] busy last_input = Some (3%nat, b_request, b_query, None) ∧
  ∃ O O', view busy 0 = Some (Asking O) ∧ O ≡ₚ "b@conf" :: O' ∧
    has_open O' (OtherUser 3) busy quiet_end 0.
Proof.
  assert (Ha : answers [] busy last_input = Some (3%nat, b_request, b_query, None))
    by (vm_compute; reflexivity).
  split; [exact Ha|].
  assert (Hs : handle [] last_input busy = Ok (tt, quiet_end)) by (vm_compute; reflexivity).
  assert (Hp : pipelines busy !! 0%nat = Some busy_pipeline) by (vm_compute; reflexivity).
  pose proof (disco_pipeline_refines [] busy last_input quiet_end 0 busy_pipeline busy_reach
    (can_come_ok busy last_input ltac:(vm_compute; reflexivity)) Hs Hp) as R.
  rewrite Ha in R. rewrite decide_True in R by reflexivity. exact R.
Defined.

(** ** What goes wrong *)

Definition romeo_asked : GabbleDisco (list heard) :=
  after_inputs [PorterAvailable; UserRequest GABBLE_DISCO_TYPE_INFO "romeo@example.net" None 1 None].

(** A request about Romeo times out, one about Juliet gets its memory; the
    reply about Romeo is taken for that about Juliet. *)
Lemma stale_reply_misdelivered_witness :
  ∃ s1 s2 s3 s4,
    handle [] (TimerFires 0) romeo_asked = Ok (tt, s1) ∧
    handle [] (UserRequest GABBLE_DISCO_TYPE_INFO "juliet@example.net" None 2 None) s1 = Ok (tt, s2) ∧
    handle [] (IqReply 0 (Some (info_reply "Romeo"))) s2 = Ok (tt, s3) ∧
    handle [] (IqReply 1 (Some (info_reply "Juliet"))) s3 = Ok (tt, s4) ∧
    iqs s2 !! 1%nat = Some (0%nat, 1%nat) ∧
    world s4 =
      [Answer 1 None (Some GABBLE_DISCO_ERROR_TIMEOUT);
       Answer 2 (wocky_node_get_child_ns (info_reply "Romeo") (Some "query") (Some NS_DISCO_INFO)) None] ∧
    events s4 = events romeo_asked ++
      [Called 0 (ClientCb 1) "romeo@example.net" None (Some GABBLE_DISCO_ERROR_TIMEOUT);
       SendIq 1 (request_stanza GABBLE_DISCO_TYPE_INFO "juliet@example.net" None);
       Called 1 (ClientCb 2) "juliet@example.net"
         (wocky_node_get_child_ns (info_reply "Romeo") (Some "query") (Some NS_DISCO_INFO)) None].
Proof.
  assert (Hn : next_iq romeo_asked = 1%nat) by (vm_compute; reflexivity).
  destruct (stale_reply_misdelivered [] romeo_asked 0 1
    (mkRequest 0 GABBLE_DISCO_TYPE_INFO "romeo@example.net" None (ClientCb 1) None true) 0
    GABBLE_DISCO_TYPE_INFO "juliet@example.net" None 2 (info_reply "Romeo") (info_reply "Juliet"))
    as (s1 & s2 & s3 & s4 & R1 & R2 & R3 & R4 & Hq & Hw & He);
    [apply after_inputs_reach; vm_compute; reflexivity|vm_compute; reflexivity..|rewrite Hn; lia|
     vm_compute; reflexivity|].
  rewrite Hn in R4, Hq. exists s1, s2, s3, s4. split_and!; [done..|rewrite Hq|rewrite Hw|rewrite He, Hn];
    vm_compute; reflexivity.
Defined.

(** A pipeline that was made and is destroyed before it is run has a pointer
    that was never set. *)
Lemma destroyed_before_run : ∃ s,
  run_inputs [PorterAvailable; PipelineInit 3] start = Ok (tt, s) ∧
  gabble_disco_pipeline_destroy call 0 s = Abort MemoryFault.
Proof. eexists. split; [vm_compute; reflexivity|]. vm_compute. reflexivity. Qed.

(** The array of a pipeline keeps a NULL for a request that could not be sent;
    cancelling it does nothing, so that destroying the pipeline never ends. *)
Lemma null_never_leaves p pl rest (s : GabbleDisco (list heard)) n :
  pipelines s !! p = Some pl → disco_pipeline pl = None :: rest →
  destroy_loop call n p s = Abort OutOfFuel.
Proof.
  intros Hp Hd. induction n as [|n IH]; [done|]. cbn. unfold mbind, M_bind, get_pipeline.
  unfold mbind, M_bind. cbn. rewrite Hp. cbn. rewrite Hd. exact IH.
Qed.

Definition unsent_items : outcome (unit * GabbleDisco (list heard)) :=
  (p ← gabble_disco_pipeline_init (OtherUser 3);
   gabble_disco_pipeline_run p "conf" ;;
   disco_items_cb call p (head (children (items_reply ["a@conf"]))) None) start.

Lemma unsent_stays :
  match unsent_items with
  | Ok (_, s) => disco_pipeline <$> pipelines s !! 0%nat = Some [None]
  | Abort _ => False
  end.
Proof. vm_compute. reflexivity. Qed.
End DiscoRuns.
