(* ===== verification/Roomlist.v ===== *)
(** * Room lists (src/roomlist-channel.c, src/roomlist-manager.c)

    The channels that list the chat rooms of a server, and the manager that
    makes them.  A channel is the user of a pipeline of [Disco]: what it does
    when a room is found and when there are no more is an instance of
    [DiscoClient].  The timers of the main loop that point to channels are
    part of the state. *)

From S2P Require Import Prelude Node Namespaces Jid Disco.

Module Roomlist.
Import Jid Disco.

Definition NS_MUC : string := "http://jabber.org/protocol/muc".
Definition TP_IFACE_CHANNEL : string := "org.freedesktop.Telepathy.Channel".
Definition TP_IFACE_CHANNEL_TYPE_TEXT : string := "org.freedesktop.Telepathy.Channel.Type.Text".
Definition TP_IFACE_CHANNEL_TYPE_ROOM_LIST : string :=
  "org.freedesktop.Telepathy.Channel.Type.RoomList".

(** ** Data *)

Inductive GValue := G_STRING (s : string) | G_BOOLEAN (b : bool) | G_UINT (n : Z).

(** A room handle is the name it stands for. *)
Record RoomInfo := mkRoom {
  handle_name : string;
  room_channel_type : string;
  room_keys : gmap string GValue;
}.

Record GabbleRoomlistChannel := mkRoomlist {
  conference_server : string;
  listing : bool;
  channel_pipeline : option nat;
  signalled_rooms : gset string;
  pending_room_signals : list RoomInfo;
  timer_source_id : option nat;
  destroyed : bool;
}.

Inductive RoomlistError := ROOMLIST_NOT_IMPLEMENTED | ROOMLIST_NOT_AVAILABLE.

Inductive room_event :=
  | ListingRooms (channel : nat) (listing : bool)
  | GotRooms (channel : nat) (rooms : list RoomInfo)
  | NewChannel (channel : nat) (token : nat)
  | AlreadySatisfied (channel : nat) (token : nat)
  | RequestFailed (token : nat) (error : RoomlistError)
  | ChannelClosed (channel : nat).

(** [sources]: the timers of the main loop, with the channel each is given.
    [fault]: what a callback of a pipeline aborted with. *)
Record RoomWorld := mkWorld {
  objects : gmap nat GabbleRoomlistChannel;
  next_object : nat;
  channels : option (list nat);
  watching : bool;
  manager_disposed : bool;
  sources : gmap nat nat;
  next_source : nat;
  conn_conference_server : option string;
  fallback_conference_server : option string;
  fault : option abort;
  signals : list room_event;
}.

Definition with_listing (b : bool) (ch : GabbleRoomlistChannel) : GabbleRoomlistChannel :=
  mkRoomlist (conference_server ch) b (channel_pipeline ch) (signalled_rooms ch)
    (pending_room_signals ch) (timer_source_id ch) (destroyed ch).
Definition with_pipeline (p : option nat) (ch : GabbleRoomlistChannel) : GabbleRoomlistChannel :=
  mkRoomlist (conference_server ch) (listing ch) p (signalled_rooms ch)
    (pending_room_signals ch) (timer_source_id ch) (destroyed ch).
Definition with_rooms (h : gset string) (l : list RoomInfo) (ch : GabbleRoomlistChannel) :
    GabbleRoomlistChannel :=
  mkRoomlist (conference_server ch) (listing ch) (channel_pipeline ch) h l
    (timer_source_id ch) (destroyed ch).
Definition with_source (t : option nat) (ch : GabbleRoomlistChannel) : GabbleRoomlistChannel :=
  mkRoomlist (conference_server ch) (listing ch) (channel_pipeline ch) (signalled_rooms ch)
    (pending_room_signals ch) t (destroyed ch).
Definition with_destroyed (ch : GabbleRoomlistChannel) : GabbleRoomlistChannel :=
  mkRoomlist (conference_server ch) (listing ch) (channel_pipeline ch) (signalled_rooms ch)
    (pending_room_signals ch) (timer_source_id ch) true.

(** ** What is done without service discovery *)

Section rooms.
Context (g_utf8_strdown g_utf8_normalize : string → string).

Local Abbreviation MW := (M RoomWorld).

Definition put_objects (m : gmap nat GabbleRoomlistChannel) (n : nat) : MW unit := modify (λ w,
  mkWorld m n (channels w) (watching w) (manager_disposed w) (sources w) (next_source w)
    (conn_conference_server w) (fallback_conference_server w) (fault w) (signals w)).
Definition put_channels (l : option (list nat)) : MW unit := modify (λ w,
  mkWorld (objects w) (next_object w) l (watching w) (manager_disposed w) (sources w)
    (next_source w) (conn_conference_server w) (fallback_conference_server w) (fault w) (signals w)).
Definition put_watching (b : bool) : MW unit := modify (λ w,
  mkWorld (objects w) (next_object w) (channels w) b (manager_disposed w) (sources w)
    (next_source w) (conn_conference_server w) (fallback_conference_server w) (fault w) (signals w)).
Definition put_manager_disposed : MW unit := modify (λ w,
  mkWorld (objects w) (next_object w) (channels w) (watching w) true (sources w)
    (next_source w) (conn_conference_server w) (fallback_conference_server w) (fault w) (signals w)).
Definition put_sources (m : gmap nat nat) (n : nat) : MW unit := modify (λ w,
  mkWorld (objects w) (next_object w) (channels w) (watching w) (manager_disposed w) m n
    (conn_conference_server w) (fallback_conference_server w) (fault w) (signals w)).
Definition put_conference_server (server : option string) : MW unit := modify (λ w,
  mkWorld (objects w) (next_object w) (channels w) (watching w) (manager_disposed w) (sources w)
    (next_source w) server (fallback_conference_server w) (fault w) (signals w)).
Definition signal (e : room_event) : MW unit := modify (λ w,
  mkWorld (objects w) (next_object w) (channels w) (watching w) (manager_disposed w) (sources w)
    (next_source w) (conn_conference_server w) (fallback_conference_server w) (fault w)
    (signals w ++ [e])).
Definition faulty (r : abort) (w : RoomWorld) : RoomWorld :=
  mkWorld (objects w) (next_object w) (channels w) (watching w) (manager_disposed w) (sources w)
    (next_source w) (conn_conference_server w) (fallback_conference_server w) (Some r) (signals w).

Definition get_channel (c : nat) : MW GabbleRoomlistChannel :=
  w ← get; match objects w !! c with Some ch => mret ch | None => fail MemoryFault end.
Definition put_channel (c : nat) (ch : GabbleRoomlistChannel) : MW unit :=
  w ← get; put_objects (<[c := ch]> (objects w)) (next_object w).

Definition g_timeout_add (c : nat) : MW nat :=
  w ← get; put_sources (<[next_source w := c]> (sources w)) (S (next_source w)) ;;
  mret (next_source w).
Definition g_source_remove (t : option nat) : MW unit :=
  match t with
  | None => mret tt
  | Some t => w ← get; put_sources (delete t (sources w)) (next_source w)
  end.

(** *** Names of rooms *)

(** [services] are those that were found on our server. *)
Definition _gabble_connection_find_conference_server (services : list GabbleDiscoItem) :
    MW (option string) :=
  w ← get;
  (match conn_conference_server w with
   | None =>
       match List.find (service_matches (Some "conference") (Some "text") (Some NS_MUC)) services with
       | Some item => put_conference_server (Some (item_jid item))
       | None => mret tt
       end
   | Some _ => mret tt
   end) ;;
  w ← get;
  (match conn_conference_server w with
   | None => put_conference_server (fallback_conference_server w)
   | Some _ => mret tt
   end) ;;
  w ← get; mret (conn_conference_server w).

Definition gabble_connection_get_canonical_room_name (services : list GabbleDiscoItem)
    (nm : string) : MW (option string) :=
  if strchr nm "@" then mret (Some nm)
  else
    server ← _gabble_connection_find_conference_server services;
    match server with
    | None => mret None
    | Some sv => mret (Some (gabble_encode_jid g_utf8_normalize (Some nm) sv None))
    end.

Definition gabble_normalize_room (services : list GabbleDiscoItem) (jid : string) :
    MW (option string) :=
  qualified ← gabble_connection_get_canonical_room_name services jid;
  mret (qualified_name ← qualified;
        x ← wocky_decode_jid g_utf8_strdown qualified_name;
        match x.2 with None => Some qualified_name | Some _ => None end).

(** *** Channels *)

(** Whether the timer goes on. *)
Definition emit_room_signal (c : nat) : MW bool :=
  ch ← get_channel c;
  if negb (listing ch) then mret false
  else
    match pending_room_signals ch with
    | [] => mret true
    | rooms =>
        signal (GotRooms c rooms) ;;
        put_channel c (with_rooms (signalled_rooms ch) [] ch) ;;
        mret true
    end.

(** The features of a room that become keys, in the order they are looked at;
    the last one that is there decides. *)
Definition feature_keys : list (string * string * bool) :=
  [("muc_membersonly", "invite-only", true); ("muc_open", "invite-only", false);
   ("muc_passwordprotected", "password", true); ("muc_unsecure", "password", false);
   ("muc_unsecured", "password", false); ("muc_hidden", "hidden", true);
   ("muc_public", "hidden", false); ("muc_membersonly", "members-only", true);
   ("muc_open", "members-only", false); ("muc_moderated", "moderated", true);
   ("muc_unmoderated", "moderated", false); ("muc_nonanonymous", "anonymous", false);
   ("muc_anonymous", "anonymous", true); ("muc_semianonymous", "anonymous", false);
   ("muc_persistent", "persistent", true); ("muc_temporary", "persistent", false)].

Definition insert_feature (features : gmap string (option string)) (keys : gmap string GValue)
    (x : string * string * bool) : gmap string GValue :=
  match features !! x.1.1 with
  | Some _ => <[x.1.2 := G_BOOLEAN x.2]> keys
  | None => keys
  end.

Definition insert_var (features : gmap string (option string)) (var key : string)
    (f : string → GValue) (keys : gmap string GValue) : gmap string GValue :=
  match features !! var with
  | Some (Some value) => <[key := f value]> keys
  | _ => keys
  end.

Definition keys_of_item (handle : string) (item : GabbleDiscoItem) : gmap string GValue :=
  let features := item_features item in
  insert_var features "muc#roominfo_lang" "language" G_STRING
    (insert_var features "muc#roominfo_occupants" "members"
       (λ v, G_UINT (wrap 32 (strtoul v)))
       (insert_var features "muc#roominfo_description" "description" G_STRING
          (foldl (insert_feature features)
             (<["name" := G_STRING (item_name item)]> {["handle-name" := G_STRING handle]})
             feature_keys))).

Definition is_room (item : GabbleDiscoItem) : bool :=
  bool_decide (item_category item = "conference") && bool_decide (item_type item = "text") &&
  bool_decide (is_Some (item_features item !! NS_MUC)).

Definition room_info_cb (services : list GabbleDiscoItem) (c : nat) (item : GabbleDiscoItem) :
    MW unit :=
  get_channel c ;;
  if is_room item then
    handle ← gabble_normalize_room services (item_jid item);
    match handle with
    | None => mret tt
    | Some h =>
        ch ← get_channel c;
        put_channel c (with_rooms (signalled_rooms ch ∪ {[h]})
          (pending_room_signals ch ++ [mkRoom h TP_IFACE_CHANNEL_TYPE_TEXT (keys_of_item h item)])
          ch)
    end
  else mret tt.

Definition rooms_end_cb (c : nat) : MW unit :=
  emit_room_signal c ;;
  ch ← get_channel c;
  put_channel c (with_listing false ch) ;;
  signal (ListingRooms c false) ;;
  ch ← get_channel c;
  g_source_remove (timer_source_id ch) ;;
  put_channel c (with_source None ch).

(** A callback runs in the state the rest of the program has. *)
Definition called_back (m : MW unit) (w : RoomWorld) : RoomWorld :=
  match m w with Ok (_, w') => w' | Abort r => faulty r w end.

#[global] Instance roomlist_client : DiscoClient RoomWorld GabbleDiscoItem GabbleDiscoError := {
  request_cb _ _ _ w := w;
  pipeline_cb services c item := called_back (room_info_cb services c item);
  pipeline_end_cb c := called_back (rooms_end_cb c);
}.

(** ** What uses service discovery *)

Context `{Runtime}.
Local Abbreviation State := (GabbleDisco RoomWorld).
Local Abbreviation MD := (M State).

Definition set_world (w : RoomWorld) (s : State) : State :=
  mkDisco (service_cache s) (requests s) (memory s) (next_serial s) (iqs s) (next_iq s)
    (pipelines s) (next_pipeline s) (has_porter s) (dispose_has_run s) w (events s).

Definition in_world {A} (m : MW A) : MD A := λ s,
  match m (world s) with
  | Ok (a, w) => Ok (a, set_world w s)
  | Abort r => Abort r
  end.

Definition stop_listing (c : nat) : MD unit :=
  ch ← in_world (get_channel c);
  when (listing ch)
    (in_world
       (emit_room_signal c ;;
        ch ← get_channel c;
        put_channel c (with_listing false ch) ;;
        signal (ListingRooms c false))) ;;
  ch ← in_world (get_channel c);
  (match channel_pipeline ch with
   | Some p =>
       gabble_disco_pipeline_destroy call p ;;
       ch ← in_world (get_channel c);
       in_world (put_channel c (with_pipeline None ch))
   | None => mret tt
   end) ;;
  ch ← in_world (get_channel c);
  (match timer_source_id ch with
   | Some t => in_world (g_source_remove (Some t) ;; put_channel c (with_source None ch))
   | None => mret tt
   end) ;;
  ch ← in_world (get_channel c);
  g_assert (bool_decide (pending_room_signals ch = [])).

Definition gabble_roomlist_channel_list_rooms (c : nat) : MD unit :=
  ch ← in_world (get_channel c);
  in_world (put_channel c (with_listing true ch) ;; signal (ListingRooms c true)) ;;
  ch ← in_world (get_channel c);
  p ← match channel_pipeline ch with
      | Some p => mret p
      | None =>
          p ← gabble_disco_pipeline_init (OtherUser c);
          in_world (put_channel c (with_pipeline (Some p) ch)) ;;
          mret p
      end;
  gabble_disco_pipeline_run p (conference_server ch) ;;
  in_world
    (t ← g_timeout_add c;
     ch ← get_channel c;
     put_channel c (with_source (Some t) ch)).

Definition gabble_roomlist_channel_stop_listing : nat → MD unit := stop_listing.

Definition gabble_roomlist_channel_get_listing_rooms (c : nat) : MD bool :=
  ch ← in_world (get_channel c); mret (listing ch).

(** The timer of the main loop; it is removed when the function says so. *)
Definition source_fires (t : nat) : MD unit :=
  s ← get;
  match sources (world s) !! t with
  | None => mret tt
  | Some c =>
      again ← in_world (emit_room_signal c);
      when (negb again) (in_world (g_source_remove (Some t)))
  end.

(** [unref] gives up the reference of the manager. *)
Definition roomlist_channel_closed_cb (unref : nat → MD unit) (c : nat) : MD unit :=
  in_world (signal (ChannelClosed c)) ;;
  s ← get;
  match channels (world s) with
  | None => mret tt
  | Some l => in_world (put_channels (Some (g_slist_remove c l))) ;; unref c
  end.

(** [tp_base_channel_destroyed]: the signal is emitted. *)
Definition tp_base_channel_destroyed (unref : nat → MD unit) (c : nat) : MD unit :=
  ch ← in_world (get_channel c);
  in_world (put_channel c (with_destroyed ch)) ;;
  roomlist_channel_closed_cb unref c.

(** The base class destroys a channel that was not; giving up a reference to an
    object that is being disposed of is a fault. *)
Definition gabble_roomlist_channel_dispose (c : nat) : MD unit :=
  stop_listing c ;;
  ch ← in_world (get_channel c);
  g_assert (bool_decide (pending_room_signals ch = [])) ;;
  if destroyed ch then mret tt
  else tp_base_channel_destroyed (λ _, fail MemoryFault) c.

(** The last reference of a channel is the manager's. *)
Definition unref_roomlist (c : nat) : MD unit :=
  gabble_roomlist_channel_dispose c ;;
  s ← get;
  in_world (put_objects (delete c (objects (world s))) (next_object (world s))).

Definition gabble_roomlist_channel_close (c : nat) : MD unit :=
  stop_listing c ;;
  tp_base_channel_destroyed unref_roomlist c.

(** *** The manager *)

Definition gabble_roomlist_manager_close_all : MD unit :=
  in_world (put_watching false) ;;
  s ← get;
  match channels (world s) with
  | None => mret tt
  | Some l => in_world (put_channels None) ;; for_each l unref_roomlist
  end.

Definition gabble_roomlist_manager_dispose : MD unit :=
  s ← get;
  if manager_disposed (world s) then mret tt
  else
    in_world put_manager_disposed ;;
    gabble_roomlist_manager_close_all ;;
    s ← get;
    g_assert (bool_decide (channels (world s) = None)).

Inductive TpConnectionStatus := CONNECTING | CONNECTED | DISCONNECTED.

(** Called while the manager watches the connection. *)
Definition connection_status_changed_cb (status : TpConnectionStatus) : MD unit :=
  match status with
  | CONNECTING => mret tt
  | CONNECTED => mret tt
  | DISCONNECTED => gabble_roomlist_manager_close_all
  end.

Definition gabble_roomlist_manager_foreach_channel : MW (list nat) :=
  w ← get; match channels w with Some l => mret l | None => fail MemoryFault end.

Definition roomlist_channel_fixed_properties : list string :=
  [TP_IFACE_CHANNEL +:+ ".ChannelType"; TP_IFACE_CHANNEL +:+ ".TargetHandleType"].
Definition roomlist_channel_allowed_properties : list string :=
  [TP_IFACE_CHANNEL_TYPE_ROOM_LIST +:+ ".Server"].

Definition tp_asv_get_string (asv : gmap string GValue) (key : string) : option string :=
  match asv !! key with Some (G_STRING s) => Some s | _ => None end.
Definition tp_asv_get_uint32 (asv : gmap string GValue) (key : string) : Z :=
  match asv !! key with Some (G_UINT n) => n | _ => 0 end.

Definition tp_channel_manager_asv_has_unknown_properties (asv : gmap string GValue)
    (fixed allowed : list string) : bool :=
  existsb (λ kv, negb (bool_decide (kv.1 ∈ fixed ++ allowed))) (map_to_list asv).

Definition _gabble_roomlist_channel_new (server : string) : MW nat :=
  w ← get;
  put_objects (<[next_object w := mkRoomlist server false None ∅ [] None false]> (objects w))
    (S (next_object w)) ;;
  mret (next_object w).

(** The server of a request, or why there is none. *)
Definition request_server (services : list GabbleDiscoItem) (asv : gmap string GValue) :
    MW (string + RoomlistError) :=
  if bool_decide (tp_asv_get_uint32 asv (TP_IFACE_CHANNEL +:+ ".TargetHandleType") ≠ 0)
  then mret (inr ROOMLIST_NOT_IMPLEMENTED)
  else if tp_channel_manager_asv_has_unknown_properties asv roomlist_channel_fixed_properties
            roomlist_channel_allowed_properties
  then mret (inr ROOMLIST_NOT_IMPLEMENTED)
  else
    match tp_asv_get_string asv (TP_IFACE_CHANNEL_TYPE_ROOM_LIST +:+ ".Server") with
    | Some (String a rest) => mret (inl (String a rest))
    | _ =>
        server ← _gabble_connection_find_conference_server services;
        match server with
        | Some sv => mret (inl sv)
        | None => mret (inr ROOMLIST_NOT_AVAILABLE)
        end
    end.

Fixpoint find_list (server : string) (l : list nat) : MW (option nat) :=
  match l with
  | [] => mret None
  | c :: l =>
      ch ← get_channel c;
      if bool_decide (conference_server ch = server) then mret (Some c) else find_list server l
  end.

(** Whether the request is for this manager. *)
Definition gabble_roomlist_manager_handle_request (token : nat) (asv : gmap string GValue)
    (require_new : bool) : MD bool :=
  s ← get;
  if bool_decide (tp_asv_get_string asv (TP_IFACE_CHANNEL +:+ ".ChannelType") ≠
                  Some TP_IFACE_CHANNEL_TYPE_ROOM_LIST) then mret false
  else
    server ← in_world (request_server (service_cache s) asv);
    (match server : string + RoomlistError with
     | inr e => in_world (signal (RequestFailed token e))
     | inl sv =>
         found ← if require_new then mret None
                 else in_world (l ← gabble_roomlist_manager_foreach_channel; find_list sv l);
         match found with
         | Some c => in_world (signal (AlreadySatisfied c token))
         | None =>
             in_world
               (c ← _gabble_roomlist_channel_new sv;
                w ← get;
                (match channels w with
                 | Some l => put_channels (Some (l ++ [c]))
                 | None => mret tt
                 end) ;;
                signal (NewChannel c token))
         end
     end) ;;
    mret true.

Definition gabble_roomlist_manager_create_channel (token : nat) (asv : gmap string GValue) : MD bool :=
  gabble_roomlist_manager_handle_request token asv true.
Definition gabble_roomlist_manager_request_channel (token : nat) (asv : gmap string GValue) : MD bool :=
  gabble_roomlist_manager_handle_request token asv false.
Definition gabble_roomlist_manager_ensure_channel (token : nat) (asv : gmap string GValue) : MD bool :=
  gabble_roomlist_manager_handle_request token asv false.

Definition gabble_roomlist_manager_constructed (fallback : option string) : RoomWorld :=
  mkWorld ∅ 0 (Some []) true false ∅ 0 None fallback None [].

End rooms.
End Roomlist.
