(* ===== verification/RoomlistFacts.v ===== *)
(** * Room lists: proofs

    The invariant that ties the channels to the pipelines of service discovery
    and to the timers of the main loop, what every operation does to it, and
    the rooms that are announced. *)

From S2P Require Import Prelude Node Namespaces XmppError Jid Disco DiscoFacts Roomlist.

Module RoomlistFacts.
Import Jid Disco DiscoFacts Roomlist.

(** ** What a channel has said *)

Definition got (c : nat) (evs : list room_event) : list RoomInfo :=
  concat (omap (λ e, match e with
                     | GotRooms c' l => if decide (c' = c) then Some l else None
                     | _ => None
                     end) evs).

Definition pending (c : nat) (w : RoomWorld) : list RoomInfo :=
  match objects w !! c with Some ch => pending_room_signals ch | None => [] end.

(** The rooms a channel has announced and those it is about to. *)
Definition heard_of (c : nat) (w : RoomWorld) : list RoomInfo := got c (signals w) ++ pending c w.

Lemma got_app c l k : got c (l ++ k) = got c l ++ got c k.
Proof. unfold got. by rewrite omap_app, concat_app. Qed.

(** ** The invariant *)

Definition channel_ok (P : gmap nat GabbleDiscoPipeline) (w : RoomWorld) (c : nat)
    (ch : GabbleRoomlistChannel) : Prop :=
  match channel_pipeline ch with
  | None => listing ch = false
  | Some p => ∃ pl, P !! p = Some pl ∧ p_user pl = OtherUser c ∧ list_request pl ≠ None ∧
      running pl = listing ch
  end ∧
  if listing ch then ∃ t, timer_source_id ch = Some t ∧ sources w !! t = Some c
  else timer_source_id ch = None ∧ pending_room_signals ch = [].

Record rooms_ok (P : gmap nat GabbleDiscoPipeline) (w : RoomWorld) : Prop := {
  rk_fault : fault w = None;
  rk_channel c ch : objects w !! c = Some ch → channel_ok P w c ch;
  rk_pipes p pl c : P !! p = Some pl → p_user pl = OtherUser c →
    ∃ ch, objects w !! c = Some ch ∧ channel_pipeline ch = Some p;
  rk_sources t c : sources w !! t = Some c →
    ∃ ch, objects w !! c = Some ch ∧ timer_source_id ch = Some t;
  rk_next c : is_Some (objects w !! c) → (c < next_object w)%nat;
  rk_source_next t : is_Some (sources w !! t) → (t < next_source w)%nat;
}.

(** The manager has the channels, none of which was destroyed. *)
Record managed (w : RoomWorld) (l : list nat) : Prop := {
  mg_nodup : NoDup l;
  mg_objects c : c ∈ l ↔ is_Some (objects w !! c);
  mg_alive c ch : objects w !! c = Some ch → destroyed ch = false;
}.

Definition manager_ok (w : RoomWorld) : Prop :=
  managed w (default [] (channels w)).

(** ** Changing a channel *)

(** [w'] is [w] with another channel at [c], other timers, and more signals. *)
Record touched (c : nat) (ch' : GabbleRoomlistChannel) (src : gmap nat nat) (n : nat)
    (evs : list room_event) (w w' : RoomWorld) : Prop := {
  to_objects : objects w' = <[c := ch']> (objects w);
  to_next : next_object w' = next_object w;
  to_channels : channels w' = channels w;
  to_watching : watching w' = watching w;
  to_disposed : manager_disposed w' = manager_disposed w;
  to_sources : sources w' = src;
  to_source_next : next_source w' = n;
  to_fault : fault w' = fault w;
  to_signals : signals w' = signals w ++ evs;
}.

Lemma touched_trans c ch1 ch2 src1 src2 n1 n2 evs1 evs2 w w1 w2 :
  touched c ch1 src1 n1 evs1 w w1 → touched c ch2 src2 n2 evs2 w1 w2 →
  touched c ch2 src2 n2 (evs1 ++ evs2) w w2.
Proof.
  intros [A1 A2 A3 A4 A5 A6 A7 A8 A9] [B1 B2 B3 B4 B5 B6 B7 B8 B9]. split; try congruence.
  - by rewrite B1, A1, insert_insert_eq.
  - by rewrite B9, A9, app_assoc.
Qed.

Lemma touched_managed c ch ch' src n evs w w' l :
  objects w !! c = Some ch → destroyed ch' = destroyed ch → touched c ch' src n evs w w' →
  managed w l → managed w' l.
Proof.
  intros Hc Hd T [M1 M2 M3]. split; [done| |].
  - intros c'. rewrite M2, (to_objects _ _ _ _ _ _ _ T), lookup_insert_is_Some'.
    split; [by right|]. intros [<-|?]; [by eexists|done].
  - intros c' ch0. rewrite (to_objects _ _ _ _ _ _ _ T), lookup_insert_Some.
    intros [[<- <-]|[_ Hc']]; [rewrite Hd|]; eauto.
Qed.

Lemma touched_heard c ch ch' src n evs w w' c' :
  objects w !! c = Some ch → touched c ch' src n evs w w' →
  (∀ c0, c0 ≠ c → got c0 evs = []) →
  heard_of c' w' = if decide (c' = c) then got c (signals w) ++ got c evs ++ pending_room_signals ch'
                   else heard_of c' w.
Proof.
  intros Hc T He. unfold heard_of, pending. rewrite (to_objects _ _ _ _ _ _ _ T), (to_signals _ _ _ _ _ _ _ T), got_app.
  destruct (decide (c' = c)) as [->|Hne].
  - by rewrite lookup_insert_eq, app_assoc.
  - rewrite lookup_insert_ne by done. by rewrite He, app_nil_r.
Qed.

(** Pipelines of the other channels stay as they are. *)
Definition others_same (c : nat) (P P' : gmap nat GabbleDiscoPipeline) : Prop :=
  ∀ p pl c', c' ≠ c → p_user pl = OtherUser c' → P' !! p = Some pl ↔ P !! p = Some pl.

Lemma touched_ok P P' c ch ch' src n evs w w' :
  rooms_ok P w → objects w !! c = Some ch → touched c ch' src n evs w w' →
  others_same c P P' → channel_ok P' w' c ch' →
  (∀ p pl, P' !! p = Some pl → p_user pl = OtherUser c → channel_pipeline ch' = Some p) →
  (∀ t c', c' ≠ c → src !! t = Some c' ↔ sources w !! t = Some c') →
  (∀ t, src !! t = Some c → timer_source_id ch' = Some t) →
  (∀ t, is_Some (src !! t) → (t < n)%nat) →
  rooms_ok P' w'.
Proof.
  intros K Hc [T1 T2 T3 T4 T5 T6 T7 T8 T9] Ho Hch Hp Hs Hs' Hn. split.
  - rewrite T8. apply K.
  - intros c' ch0. rewrite T1, lookup_insert_Some. intros [[<- <-]|[Hne Hc']]; [done|].
    destruct (rk_channel _ _ K c' ch0 Hc') as [R1 R2]. split.
    + destruct (channel_pipeline ch0) as [p|]; [|done]. destruct R1 as (pl & Hpl & Hu & R1).
      exists pl. split; [by apply (Ho p pl c')|done].
    + destruct (listing ch0); [|done]. destruct R2 as (t & Ht & Hst). exists t.
      split; [done|]. rewrite T6. by apply Hs.
  - intros p pl c' Hpl Hu. rewrite T1. destruct (decide (c' = c)) as [->|Hne].
    + exists ch'. rewrite lookup_insert_eq. eauto.
    + rewrite lookup_insert_ne by done. apply (rk_pipes _ _ K p pl); [|done]. by eapply Ho.
  - intros t c'. rewrite T1, T6. intros Ht. destruct (decide (c' = c)) as [->|Hne].
    + exists ch'. rewrite lookup_insert_eq. eauto.
    + rewrite lookup_insert_ne by done. apply (rk_sources _ _ K). by apply Hs.
  - intros c'. rewrite T1, T2, lookup_insert_is_Some'. intros [<-|Hc']; apply K; [by eexists|done].
  - intros t. rewrite T6, T7. apply Hn.
Qed.

(** The pipelines change in ways the channels do not see. *)
Lemma rooms_pipes P P' w : rooms_ok P w →
  (∀ p pl c, P !! p = Some pl → p_user pl = OtherUser c → list_request pl ≠ None → ∃ pl',
     P' !! p = Some pl' ∧ p_user pl' = p_user pl ∧ list_request pl' ≠ None ∧
     running pl' = running pl) →
  (∀ p pl' c, P' !! p = Some pl' → p_user pl' = OtherUser c → ∃ pl,
     P !! p = Some pl ∧ p_user pl = OtherUser c) →
  rooms_ok P' w.
Proof.
  intros [K1 K2 K3 K4 K5 K6] H1 H2. split; try done.
  - intros c ch Hc. destruct (K2 c ch Hc) as [R1 R2]. split; [|done].
    destruct (channel_pipeline ch) as [p|]; [|done]. destruct R1 as (pl & Hpl & Hu & Hl & Hr).
    destruct (H1 p pl c Hpl Hu Hl) as (pl' & ? & ? & ? & ?). exists pl'. repeat split; congruence.
  - intros p pl' c Hp Hu. destruct (H2 p pl' c Hp Hu) as (pl & Hpl & Hu'). by apply (K3 p pl).
Qed.

(** ** What the callbacks do *)

Section rooms.
Context (strdown norm : string → string).

Lemma room_channel_known c ch w : objects w !! c = Some ch → get_channel c w = Ok (ch, w).
Proof. intros Hc. unfold get_channel. unfold mbind, M_bind, get. by rewrite Hc. Qed.

Lemma put_channel_touched c ch' w : ∃ w', put_channel c ch' w = Ok (tt, w') ∧
  touched c ch' (sources w) (next_source w) [] w w'.
Proof. eexists. split; [reflexivity|]. split; try done. cbn. by rewrite app_nil_r. Qed.

Definition flushed (ch : GabbleRoomlistChannel) : GabbleRoomlistChannel :=
  if listing ch then with_rooms (signalled_rooms ch) [] ch else ch.
Definition flushes (c : nat) (ch : GabbleRoomlistChannel) : list room_event :=
  if listing ch then
    match pending_room_signals ch with [] => [] | rooms => [GotRooms c rooms] end
  else [].

Lemma got_flushes c ch : got c (flushes c ch) = if listing ch then pending_room_signals ch else [].
Proof.
  unfold flushes, got. destruct (listing ch); [|done]. destruct (pending_room_signals ch); [done|].
  cbn. rewrite decide_True by done. apply app_nil_r.
Qed.
Lemma got_flushes_other c c' ch : c' ≠ c → got c' (flushes c ch) = [].
Proof.
  intros Hne. unfold flushes, got. destruct (listing ch), (pending_room_signals ch); try done.
  cbn. by rewrite decide_False.
Qed.

Lemma with_rooms_id ch : with_rooms (signalled_rooms ch) (pending_room_signals ch) ch = ch.
Proof. by destruct ch. Qed.

Lemma emit_room_signal_touched c ch w : objects w !! c = Some ch → ∃ w',
  emit_room_signal c w = Ok (listing ch, w') ∧
  touched c (flushed ch) (sources w) (next_source w) (flushes c ch) w w'.
Proof.
  intros Hc. unfold emit_room_signal, flushed, flushes.
  unfold mbind at 1, M_bind at 1. rewrite (room_channel_known _ _ _ Hc).
  destruct (listing ch); cbn [negb].
  2:{ exists w. split; [done|]. split; try done; [by rewrite insert_id|by rewrite app_nil_r]. }
  pose proof (with_rooms_id ch) as Hid. destruct (pending_room_signals ch) as [|r l].
  - exists w. split; [done|]. rewrite Hid.
    split; try done; [by rewrite insert_id|by rewrite app_nil_r].
  - eexists. split; [reflexivity|]. by split.
Qed.

Lemma find_server_keeps services w : ∃ o w', _gabble_connection_find_conference_server services w = Ok (o, w') ∧
  ∀ c ch, objects w !! c = Some ch → touched c ch (sources w) (next_source w) [] w w'.
Proof.
  assert (Hid : ∀ c ch, objects w !! c = Some ch → <[c := ch]> (objects w) = objects w)
    by (intros; by rewrite insert_id).
  unfold _gabble_connection_find_conference_server, mbind, M_bind. cbn.
  destruct (conn_conference_server w) eqn:E; [|destruct (List.find _ _)]; cbn; rewrite ?E; cbn;
    eexists _, _; (split; [reflexivity|]); intros c ch Hc; specialize (Hid c ch Hc);
    split; cbn; rewrite ?app_nil_r; done.
Qed.

Lemma normalize_room_keeps services jid w : ∃ o w',
  gabble_normalize_room strdown norm services jid w = Ok (o, w') ∧
  ∀ c ch, objects w !! c = Some ch → touched c ch (sources w) (next_source w) [] w w'.
Proof.
  unfold gabble_normalize_room, gabble_connection_get_canonical_room_name.
  unfold mbind at 1, M_bind at 1. destruct (strchr jid "@").
  - eexists _, w. split; [reflexivity|]. intros c ch Hc.
    split; try done; [by rewrite insert_id|by rewrite app_nil_r].
  - unfold mbind at 1, M_bind at 1. destruct (find_server_keeps services w) as (o & w' & -> & T).
    destruct o; eexists _, w'; (split; [reflexivity|exact T]).
Qed.

(** The room an item is, if it is one. *)
Definition rooms_of (services : list GabbleDiscoItem) (w : RoomWorld) (item : GabbleDiscoItem) :
    list RoomInfo :=
  if is_room item then
    match gabble_normalize_room strdown norm services (item_jid item) w with
    | Ok (Some h, _) => [mkRoom h TP_IFACE_CHANNEL_TYPE_TEXT (keys_of_item h item)]
    | _ => []
    end
  else [].

Lemma room_info_touched services c ch item w : objects w !! c = Some ch → ∃ w' h,
  room_info_cb strdown norm services c item w = Ok (tt, w') ∧
  touched c (with_rooms h (pending_room_signals ch ++ rooms_of services w item) ch)
    (sources w) (next_source w) [] w w'.
Proof.
  intros Hc. unfold room_info_cb, rooms_of. unfold mbind at 1, M_bind at 1.
  rewrite (room_channel_known _ _ _ Hc).
  assert (T0 : touched c (with_rooms (signalled_rooms ch) (pending_room_signals ch ++ []) ch)
    (sources w) (next_source w) [] w w).
  { rewrite app_nil_r, with_rooms_id. split; try done; [by rewrite insert_id|by rewrite app_nil_r]. }
  destruct (is_room item); [|eauto].
  destruct (normalize_room_keeps services (item_jid item) w) as (o & w1 & E1 & T1).
  specialize (T1 c ch Hc). unfold mbind at 1, M_bind at 1. rewrite E1. destruct o as [h|].
  - assert (Hc1 : objects w1 !! c = Some ch) by (rewrite (to_objects _ _ _ _ _ _ _ T1); apply lookup_insert_eq).
    unfold mbind at 1, M_bind at 1. rewrite (room_channel_known _ _ _ Hc1).
    set (ch' := with_rooms _ _ ch). destruct (put_channel_touched c ch' w1) as (w2 & E2 & T2).
    exists w2. eexists. split; [exact E2|].
    rewrite (to_sources _ _ _ _ _ _ _ T1), (to_source_next _ _ _ _ _ _ _ T1) in T2.
    exact (touched_trans _ _ _ _ _ _ _ _ _ _ _ _ T1 T2).
  - exists w1, (signalled_rooms ch). split; [done|]. by rewrite app_nil_r, with_rooms_id.
Qed.

Definition rested (ch : GabbleRoomlistChannel) : GabbleRoomlistChannel :=
  with_source None (with_listing false (flushed ch)).
Definition timers_left (ch : GabbleRoomlistChannel) (src : gmap nat nat) : gmap nat nat :=
  match timer_source_id ch with Some t => delete t src | None => src end.

Lemma flushed_timer ch : timer_source_id (flushed ch) = timer_source_id ch.
Proof. unfold flushed. by destruct (listing ch). Qed.

Lemma rooms_end_touched c ch w : objects w !! c = Some ch → ∃ w',
  rooms_end_cb c w = Ok (tt, w') ∧
  touched c (rested ch) (timers_left ch (sources w)) (next_source w)
    (flushes c ch ++ [ListingRooms c false]) w w'.
Proof.
  intros Hc. unfold rooms_end_cb, rested, timers_left. destruct (emit_room_signal_touched c ch w Hc) as (w1 & E1 & T1).
  unfold mbind at 1, M_bind at 1. rewrite E1.
  assert (Hc1 : objects w1 !! c = Some (flushed ch)) by (rewrite (to_objects _ _ _ _ _ _ _ T1); apply lookup_insert_eq).
  unfold mbind at 1, M_bind at 1. rewrite (room_channel_known _ _ _ Hc1). rewrite <-(flushed_timer ch).
  unfold g_source_remove, put_channel, get_channel, put_objects, signal, modify, get. unfold mbind, M_bind. cbn.
  rewrite lookup_insert_eq. cbn. destruct T1 as [A1 A2 A3 A4 A5 A6 A7 A8 A9].
  destruct (timer_source_id (flushed ch)) as [t|]; cbn; eexists; (split; [reflexivity|]);
    split; cbn; try congruence; rewrite ?insert_insert_eq, ?A1, ?insert_insert_eq, ?A6, ?A9, ?app_assoc; done.
Qed.

#[local] Hint Extern 0 (DiscoClient _ _ _) => exact (roomlist_client strdown norm) : typeclass_instances.

(** ** Callbacks and the invariant *)

(** What the manager has and what was heard, but for [news] of [c]. *)
Record keeps (c : nat) (news : list RoomInfo) (w w' : RoomWorld) : Prop := {
  ke_managed l : managed w l → managed w' l;
  ke_channels : channels w' = channels w;
  ke_heard c' : heard_of c' w' = heard_of c' w ++ (if decide (c' = c) then news else []);
}.

Lemma keeps_refl c w : keeps c [] w w.
Proof. split; try done. intros c'. by destruct (decide _); rewrite app_nil_r. Qed.

Lemma keeps_trans c n1 n2 w1 w2 w3 : keeps c n1 w1 w2 → keeps c n2 w2 w3 → keeps c (n1 ++ n2) w1 w3.
Proof.
  intros [A1 A2 A3] [B1 B2 B3]. split; [auto|congruence|]. intros c'.
  rewrite B3, A3. destruct (decide _); by rewrite <-app_assoc.
Qed.

Lemma touched_keeps c ch ch' src n evs news w w' :
  objects w !! c = Some ch → destroyed ch' = destroyed ch → touched c ch' src n evs w w' →
  (∀ c0, c0 ≠ c → got c0 evs = []) →
  got c evs ++ pending_room_signals ch' = pending_room_signals ch ++ news →
  keeps c news w w'.
Proof.
  intros Hc Hd T He Hn. split.
  - intros l. by eapply touched_managed.
  - apply (to_channels _ _ _ _ _ _ _ T).
  - intros c'. rewrite (touched_heard c ch ch' src n evs w w' c' Hc T He).
    destruct (decide _) as [->|]; [|by rewrite app_nil_r].
    unfold heard_of, pending. by rewrite Hc, <-app_assoc, Hn.
Qed.

Lemma others_refl c P : others_same c P P.
Proof. done. Qed.

Lemma info_keeps P services c ch item w :
  rooms_ok P w → objects w !! c = Some ch → listing ch = true →
  rooms_ok P (pipeline_cb services c item w) ∧
  keeps c (rooms_of services w item) w (pipeline_cb services c item w).
Proof.
  intros K Hc Hl. destruct (room_info_touched services c ch item w Hc) as (w' & h & E & T).
  cbn. unfold called_back. rewrite E. destruct (rk_channel _ _ K c ch Hc) as [R1 R2]. split.
  - eapply touched_ok; [done|done|exact T|done| | | | |].
    + split; [exact R1|]. rewrite Hl in R2. cbn. rewrite Hl. by rewrite (to_sources _ _ _ _ _ _ _ T).
    + intros p pl Hp Hu. destruct (rk_pipes _ _ K p pl c Hp Hu) as (ch0 & Hc0 & Hp0).
      cbn. congruence.
    + done.
    + intros t Ht. destruct (rk_sources _ _ K t c Ht) as (ch0 & Hc0 & Ht0). cbn. congruence.
    + apply K.
  - by eapply touched_keeps; [done| |exact T|..].
Qed.

Lemma flushed_pending ch : listing ch = true → pending_room_signals (flushed ch) = [].
Proof. unfold flushed. by intros ->. Qed.

Lemma timers_left_same P w c ch t c' : rooms_ok P w → objects w !! c = Some ch → c' ≠ c →
  timers_left ch (sources w) !! t = Some c' ↔ sources w !! t = Some c'.
Proof.
  intros K Hc Hne. unfold timers_left. destruct (timer_source_id ch) as [t0|] eqn:Ht0; [|done].
  rewrite lookup_delete_Some. split; [tauto|]. intros Ht. split; [|done]. intros ->.
  destruct (rk_sources _ _ K t c' Ht) as (ch' & Hc' & Ht').
  destruct (rk_channel _ _ K c ch Hc) as [_ R2]. destruct (listing ch).
  - destruct R2 as (t1 & Ht1 & Hs). congruence.
  - destruct R2. congruence.
Qed.

Lemma timers_left_none P w c ch t : rooms_ok P w → objects w !! c = Some ch →
  timers_left ch (sources w) !! t ≠ Some c.
Proof.
  intros K Hc Ht. unfold timers_left in Ht. destruct (timer_source_id ch) as [t0|] eqn:Ht0.
  - apply lookup_delete_Some in Ht as [Hne Ht].
    destruct (rk_sources _ _ K t c Ht) as (ch' & Hc' & Ht'). congruence.
  - destruct (rk_sources _ _ K t c Ht) as (ch' & Hc' & Ht'). congruence.
Qed.

Lemma timers_left_bound P w ch t : rooms_ok P w →
  is_Some (timers_left ch (sources w) !! t) → (t < next_source w)%nat.
Proof.
  intros K Ht. apply (rk_source_next _ _ K). unfold timers_left in Ht.
  destruct (timer_source_id ch); [|done]. by apply lookup_delete_is_Some in Ht as [_ Ht].
Qed.

(** The channel rests: with the pipeline that has ended, or without one. *)
Lemma rested_ok P P' c ch ch' w w' evs :
  rooms_ok P w → objects w !! c = Some ch →
  touched c ch' (timers_left ch (sources w)) (next_source w) evs w w' →
  others_same c P P' → listing ch' = false → timer_source_id ch' = None → pending_room_signals ch' = [] →
  match channel_pipeline ch' with
  | Some p => ∃ pl, P' !! p = Some pl ∧ p_user pl = OtherUser c ∧ list_request pl ≠ None ∧
      running pl = false
  | None => True
  end →
  (∀ p pl, P' !! p = Some pl → p_user pl = OtherUser c → channel_pipeline ch' = Some p) →
  rooms_ok P' w'.
Proof.
  intros K Hc T Ho Hl Ht Hp Hpi Hpi'. eapply touched_ok; [done|done|exact T|done| |done| | |].
  - split; rewrite Hl; [|done]. destruct (channel_pipeline ch'); done.
  - intros t c' Hne. by eapply timers_left_same.
  - intros t Hs. exfalso. by eapply timers_left_none.
  - intros t Hs. by eapply timers_left_bound.
Qed.

Lemma end_keeps P c ch p pl pl' w :
  rooms_ok P w → objects w !! c = Some ch → channel_pipeline ch = Some p → listing ch = true →
  P !! p = Some pl → p_user pl' = p_user pl → list_request pl' ≠ None → running pl' = false →
  rooms_ok (<[p := pl']> P) (pipeline_end_cb c w) ∧ keeps c [] w (pipeline_end_cb c w).
Proof.
  intros K Hc Hp Hl Hpl Hu' Hl' Hr'. destruct (rooms_end_touched c ch w Hc) as (w' & E & T).
  cbn. unfold called_back. rewrite E. destruct (rk_channel _ _ K c ch Hc) as [R1 R2].
  rewrite Hp in R1. destruct R1 as (pl0 & Hpl0 & Hu & R1). rewrite Hpl in Hpl0. injection Hpl0 as <-.
  assert (Hpf : channel_pipeline (rested ch) = Some p).
  { unfold rested, flushed. by rewrite Hl. }
  split.
  - eapply rested_ok; [exact K|done|exact T| |done|done| | |].
    + intros p' pl1 c' Hne Hu1. rewrite lookup_insert_Some. split.
      * intros [[<- <-]|[_ ?]]; [congruence|done].
      * intros Hp'. right. split; [|done]. intros <-. congruence.
    + by apply flushed_pending.
    + rewrite Hpf. exists pl'. rewrite lookup_insert_eq. repeat split; congruence.
    + intros p' pl1. rewrite lookup_insert_Some, Hpf. intros [[<- _]|[_ Hp']] Hu1; [done|].
      destruct (rk_pipes _ _ K p' pl1 c Hp' Hu1) as (ch0 & Hc0 & Hp0). congruence.
  - eapply touched_keeps; [done| |exact T| |].
    + unfold rested, flushed. by rewrite Hl.
    + intros c0 Hne. rewrite got_app, got_flushes_other by done. done.
    + rewrite got_app, got_flushes, Hl. cbn. rewrite (flushed_pending ch Hl). by rewrite !app_nil_r.
Qed.

(** ** Operations *)

Context `{RuntimeLaws} (error_domains : list XmppError.WockyXmppErrorDomain).
Local Abbreviation State := (GabbleDisco RoomWorld).
Implicit Types s : State.

Lemma in_world_eq {A} (m : M RoomWorld A) s a w :
  m (world s) = Ok (a, w) → in_world m s = Ok (a, set_world w s).
Proof. unfold in_world. by intros ->. Qed.

Lemma set_world_id s : set_world (world s) s = s.
Proof. by destruct s. Qed.

Lemma in_world_channel c ch s : objects (world s) !! c = Some ch →
  in_world (get_channel c) s = Ok (ch, s).
Proof.
  intros Hc. rewrite (in_world_eq _ _ ch (world s)); [by rewrite set_world_id|].
  by apply room_channel_known.
Qed.

Lemma set_world_ok x q w s : ok x q s → ok x q (set_world w s).
Proof. by apply ok_same. Qed.

(** A channel that lists nothing and will say nothing. *)
Definition at_rest (ch : GabbleRoomlistChannel) : Prop :=
  listing ch = false ∧ channel_pipeline ch = None ∧ timer_source_id ch = None ∧
  pending_room_signals ch = [].

Definition hushed (ch : GabbleRoomlistChannel) : GabbleRoomlistChannel :=
  with_listing false (flushed ch).
Definition hushes (c : nat) (ch : GabbleRoomlistChannel) : list room_event :=
  if listing ch then flushes c ch ++ [ListingRooms c false] else [].

Lemma hush_touched c ch s : objects (world s) !! c = Some ch → ∃ w1,
  when (listing ch)
    (in_world
       (emit_room_signal c ;;
        ch ← get_channel c;
        put_channel c (with_listing false ch) ;;
        signal (ListingRooms c false))) s = Ok (tt, set_world w1 s) ∧
  touched c (hushed ch) (sources (world s)) (next_source (world s)) (hushes c ch) (world s) w1.
Proof.
  intros Hc. unfold hushed, hushes. destruct (listing ch) eqn:Hl; cbn [when].
  - destruct (emit_room_signal_touched c ch (world s) Hc) as (w1 & E1 & T1).
    assert (Hc1 : objects w1 !! c = Some (flushed ch))
      by (rewrite (to_objects _ _ _ _ _ _ _ T1); apply lookup_insert_eq).
    eexists. split.
    + apply in_world_eq. erewrite bind_eq by exact E1. erewrite bind_eq by (by apply room_channel_known).
      reflexivity.
    + destruct T1 as [A1 A2 A3 A4 A5 A6 A7 A8 A9]. split; cbn; try congruence.
      * by rewrite A1, insert_insert_eq.
      * by rewrite A9, app_assoc.
  - exists (world s). rewrite set_world_id. split; [done|]. unfold flushed. rewrite Hl.
    assert (with_listing false ch = ch) as -> by (rewrite <-Hl; by destruct ch).
    split; try done; [by rewrite insert_id|by rewrite app_nil_r].
Qed.

Lemma got_hushes_other c c' ch : c' ≠ c → got c' (hushes c ch) = [].
Proof.
  intros Hne. unfold hushes. destruct (listing ch); [|done].
  by rewrite got_app, got_flushes_other.
Qed.
Lemma got_hushes P w c ch : channel_ok P w c ch →
  got c (hushes c ch) ++ [] = pending_room_signals ch ++ [].
Proof.
  intros [_ R]. unfold hushes. destruct (listing ch) eqn:Hl.
  - rewrite got_app, got_flushes, Hl. cbn. by rewrite !app_nil_r.
  - destruct R as [_ ->]. done.
Qed.
Lemma hushed_pending P w c ch : channel_ok P w c ch → pending_room_signals (hushed ch) = [].
Proof.
  intros [_ R]. unfold hushed, flushed. by destruct (listing ch); [|destruct R].
Qed.
Lemma hushed_fields ch : timer_source_id (hushed ch) = timer_source_id ch ∧
  channel_pipeline (hushed ch) = channel_pipeline ch ∧ destroyed (hushed ch) = destroyed ch ∧
  conference_server (hushed ch) = conference_server ch.
Proof. unfold hushed, flushed. by destruct (listing ch). Qed.

(** The channel's pipeline is destroyed. *)
Lemma drop_pipeline_ok c ch s : ok None None s → objects (world s) !! c = Some ch →
  match channel_pipeline ch with
  | Some p => ∃ pl, pipelines s !! p = Some pl ∧ list_request pl ≠ None
  | None => True
  end →
  wp (match channel_pipeline ch with
      | Some p =>
          gabble_disco_pipeline_destroy call p ;;
          ch ← in_world (get_channel c);
          in_world (put_channel c (with_pipeline None ch))
      | None => mret tt
      end)
    (λ _ s', ok None None s' ∧
       touched c (with_pipeline None ch) (sources (world s)) (next_source (world s)) [] (world s) (world s') ∧
       (∀ p, channel_pipeline ch ≠ Some p → pipelines s' !! p = pipelines s !! p) ∧
       (∀ p, channel_pipeline ch = Some p → pipelines s' !! p = None) ∧
       ends (events s') = ends (events s) ∧ has_porter s' = has_porter s) s.
Proof.
  intros K Hc Hp. destruct (channel_pipeline ch) as [p|] eqn:Hpi.
  - destruct Hp as (pl & Hpl & Hl). apply wp_bind.
    eapply wp_mono; [|exact (destroy_ok 1 p s pl K Hpl Hl)].
    intros [] s1 (K1 & [B1 B2 B3 B4 B5] & Hgone).
    eapply wp_known; [apply in_world_channel; by rewrite B5|].
    unfold wp. rewrite <-B5. destruct (put_channel_touched c (with_pipeline None ch) (world s1)) as (w2 & E2 & T2).
    rewrite (in_world_eq _ _ _ _ E2). split; [by apply set_world_ok|]. split; [exact T2|].
    split; [|split; [|done]].
    + intros p' Hne. apply B1. congruence.
    + intros p' [= <-]. done.
  - apply wp_ret. assert (with_pipeline None ch = ch) as -> by (rewrite <-Hpi; by destruct ch).
    do 2 (split; [try done|]); [|done]. split; try done; [by rewrite insert_id|by rewrite app_nil_r].
Qed.

Lemma drop_source_touched c ch s : objects (world s) !! c = Some ch → ∃ w',
  (match timer_source_id ch with
   | Some t => in_world (g_source_remove (Some t) ;; put_channel c (with_source None ch))
   | None => mret tt
   end) s = Ok (tt, set_world w' s) ∧
  touched c (with_source None ch) (timers_left ch (sources (world s))) (next_source (world s)) []
    (world s) w'.
Proof.
  intros Hc. unfold timers_left. destruct (timer_source_id ch) as [t|] eqn:Ht.
  - eexists. split; [reflexivity|]. split; try done. cbn. by rewrite app_nil_r.
  - exists (world s). rewrite set_world_id. split; [done|].
    assert (with_source None ch = ch) as -> by (rewrite <-Ht; by destruct ch).
    split; try done; [by rewrite insert_id|by rewrite app_nil_r].
Qed.

(** What stopping does: the rooms that were found are announced, the channel
    has no pipeline and no timer. *)
Definition stopped (ch : GabbleRoomlistChannel) : GabbleRoomlistChannel :=
  with_source None (with_pipeline None (hushed ch)).

Record stops (c : nat) (ch : GabbleRoomlistChannel) s s' : Prop := {
  st_disco : ok None None s';
  st_rooms : rooms_ok (pipelines s') (world s');
  st_touched : touched c (stopped ch) (timers_left ch (sources (world s))) (next_source (world s))
    (hushes c ch) (world s) (world s');
  st_keeps : keeps c [] (world s) (world s');
  st_ends : ends (events s') = ends (events s);
  st_porter : has_porter s' = has_porter s;
}.

Lemma stopped_at_rest P w c ch : channel_ok P w c ch → at_rest (stopped ch).
Proof. intros R. unfold at_rest. split_and!; try done. by eapply (hushed_pending P w c). Qed.

Lemma stop_listing_ok c ch s :
  ok None None s → rooms_ok (pipelines s) (world s) → objects (world s) !! c = Some ch →
  wp (stop_listing strdown norm c) (λ _ s', stops c ch s s') s.
Proof.
  intros K R Hc. pose proof (rk_channel _ _ R c ch Hc) as Rc.
  destruct (hushed_fields ch) as (Ht1 & Hp1 & Hd1 & _).
  unfold stop_listing. eapply wp_known; [by apply in_world_channel|].
  destruct (hush_touched c ch s Hc) as (w1 & E1 & T1). eapply wp_known; [exact E1|].
  set (s1 := set_world w1 s) in *. change w1 with (world s1) in T1.
  assert (Hc1 : objects (world s1) !! c = Some (hushed ch))
    by (rewrite (to_objects _ _ _ _ _ _ _ T1); apply lookup_insert_eq).
  eapply wp_known; [by apply in_world_channel|]. apply wp_bind.
  eapply wp_mono; [|apply (drop_pipeline_ok c (hushed ch) s1); [by apply set_world_ok|done|]].
  2:{ rewrite Hp1. destruct Rc as [Rc _]. destruct (channel_pipeline ch); [|done].
      destruct Rc as (pl & ? & ? & ? & ?). eauto. }
  intros [] s2 (K2 & T2 & P2 & P2' & N2 & O2). rewrite Hp1 in P2, P2'.
  pose proof (touched_trans _ _ _ _ _ _ _ _ _ _ _ _ T1 T2) as T12. rewrite app_nil_r in T12.
  assert (Hc2 : objects (world s2) !! c = Some (with_pipeline None (hushed ch)))
    by (rewrite (to_objects _ _ _ _ _ _ _ T12); apply lookup_insert_eq).
  eapply wp_known; [by apply in_world_channel|].
  destruct (drop_source_touched c _ s2 Hc2) as (w3 & E3 & T3). eapply wp_known; [exact E3|].
  set (s3 := set_world w3 s2) in *. change w3 with (world s3) in T3.
  pose proof (touched_trans _ _ _ _ _ _ _ _ _ _ _ _ T12 T3) as T. rewrite app_nil_r in T.
  change (with_source None _) with (stopped ch) in T.
  assert (timers_left (with_pipeline None (hushed ch)) (sources (world s2)) =
    timers_left ch (sources (world s))) as Hsrc.
  { unfold timers_left. change (timer_source_id (with_pipeline None (hushed ch))) with (timer_source_id (hushed ch)).
    by rewrite Ht1, (to_sources _ _ _ _ _ _ _ T12), (to_sources _ _ _ _ _ _ _ T1). }
  rewrite Hsrc, (to_source_next _ _ _ _ _ _ _ T12), (to_source_next _ _ _ _ _ _ _ T1) in T.
  assert (Hc3 : objects (world s3) !! c = Some (stopped ch))
    by (rewrite (to_objects _ _ _ _ _ _ _ T); apply lookup_insert_eq).
  eapply wp_known; [by apply in_world_channel|]. pose proof (stopped_at_rest _ _ _ _ Rc) as (_ & _ & _ & Hpe).
  apply wp_assert; [by apply bool_decide_eq_true_2|].
  split; [by apply set_world_ok| |exact T| |done|done].
  - eapply rested_ok; [exact R|done|exact T| |done|done|done|done|].
    + intros p pl c' Hne Hu. cbn. destruct (decide (channel_pipeline ch = Some p)) as [Hp|Hp].
      * rewrite (P2' p Hp). split; [done|]. intros Hpl. exfalso.
        destruct (rk_pipes _ _ R p pl c' Hpl Hu) as (ch' & Hc' & Hp').
        destruct Rc as [Rc _]. rewrite Hp in Rc. destruct Rc as (pl' & Hpl' & Hu' & _). congruence.
      * by rewrite (P2 p Hp).
    + intros p pl. cbn. intros Hp Hu. exfalso. destruct (decide (channel_pipeline ch = Some p)) as [He|He].
      * by rewrite (P2' p He) in Hp.
      * rewrite (P2 p He) in Hp. destruct (rk_pipes _ _ R p pl c Hp Hu) as (ch' & Hc' & Hp'). congruence.
  - eapply touched_keeps; [done| |exact T| |].
    + exact Hd1.
    + intros c0. by apply got_hushes_other.
    + etransitivity; [|by eapply got_hushes]. f_equal. done.
Qed.

Lemma stop_at_rest c ch s : objects (world s) !! c = Some ch → at_rest ch →
  stop_listing strdown norm c s = Ok (tt, s).
Proof.
  intros Hc (Hl & Hp & Ht & Hpe). pose proof (in_world_channel c ch s Hc) as G.
  unfold stop_listing. erewrite bind_eq by exact G. rewrite Hl. erewrite bind_eq by reflexivity.
  erewrite bind_eq by exact G. rewrite Hp. erewrite bind_eq by reflexivity.
  erewrite bind_eq by exact G. rewrite Ht. erewrite bind_eq by reflexivity.
  erewrite bind_eq by exact G. by rewrite Hpe.
Qed.

(** *** Channels that go away *)

Lemma rooms_world P w w' : rooms_ok P w → objects w' = objects w → next_object w' = next_object w →
  sources w' = sources w → next_source w' = next_source w → fault w' = fault w → rooms_ok P w'.
Proof.
  intros [K1 K2 K3 K4 K5 K6] Ho Hn Hs Hsn Hf.
  split; unfold channel_ok in *; rewrite ?Ho, ?Hn, ?Hs, ?Hsn, ?Hf; done.
Qed.

Lemma rooms_destroyed P w c ch : rooms_ok P w → objects w !! c = Some ch →
  rooms_ok P (match put_channel c (with_destroyed ch) w with Ok (_, w') => w' | Abort _ => w end).
Proof.
  intros K Hc. destruct (put_channel_touched c (with_destroyed ch) w) as (w' & -> & T).
  pose proof (rk_channel _ _ K c ch Hc) as [R1 R2].
  eapply touched_ok; [done|done|exact T|done| | |done| |apply K].
  - split; [done|]. cbn. by rewrite (to_sources _ _ _ _ _ _ _ T).
  - intros p pl Hp Hu. destruct (rk_pipes _ _ K p pl c Hp Hu) as (ch0 & Hc0 & Hp0). cbn. congruence.
  - intros t Ht. destruct (rk_sources _ _ K t c Ht) as (ch0 & Hc0 & Ht0). cbn. congruence.
Qed.

Lemma rooms_delete P w w' c ch : rooms_ok P w → objects w !! c = Some ch → at_rest ch →
  objects w' = delete c (objects w) → next_object w' = next_object w →
  sources w' = sources w → next_source w' = next_source w → fault w' = fault w → rooms_ok P w'.
Proof.
  intros [K1 K2 K3 K4 K5 K6] Hc (Hl & Hp & Ht & Hpe) Ho Hn Hs Hsn Hf. split.
  - by rewrite Hf.
  - intros c' ch'. rewrite Ho, lookup_delete_Some. intros [_ Hc'].
    unfold channel_ok. rewrite Hs. by apply K2.
  - intros p pl c' Hpl Hu. destruct (K3 p pl c' Hpl Hu) as (ch' & Hc' & Hp'). exists ch'.
    rewrite Ho, lookup_delete_ne; [done|]. intros ->. congruence.
  - intros t c'. rewrite Hs. intros Hst. destruct (K4 t c' Hst) as (ch' & Hc' & Ht'). exists ch'.
    rewrite Ho, lookup_delete_ne; [done|]. intros ->. congruence.
  - intros c'. rewrite Ho, Hn. intros [_ Hc']%lookup_delete_is_Some. by apply K5.
  - intros t. rewrite Hs, Hsn. apply K6.
Qed.

(** The channel is no more; whatever it had found was announced. *)
Record gone (c : nat) s s' : Prop := {
  go_disco : ok None None s';
  go_rooms : rooms_ok (pipelines s') (world s');
  go_objects : objects (world s') = delete c (objects (world s));
  go_channels : channels (world s') = g_slist_remove c <$> channels (world s);
  go_heard c' : heard_of c' (world s') = heard_of c' (world s);
  go_porter : has_porter s' = has_porter s;
}.

(** The objects, the manager's list and the signals at the end. *)
Definition removed (c : nat) (l : option (list nat)) (w : RoomWorld) : RoomWorld :=
  mkWorld (delete c (objects w)) (next_object w) l (watching w) (manager_disposed w) (sources w)
    (next_source w) (conn_conference_server w) (fallback_conference_server w) (fault w)
    (signals w ++ [ChannelClosed c]).

Lemma stops_gone c ch s s1 : objects (world s) !! c = Some ch → channel_ok (pipelines s) (world s) c ch →
  stops c ch s s1 →
  gone c s (set_world (removed c (g_slist_remove c <$> channels (world s)) (world s1)) s1).
Proof.
  intros Hc Rc [S1 S2 S3 S4 S5 S6]. pose proof (stopped_at_rest _ _ _ _ Rc) as Hr.
  assert (Hc1 : objects (world s1) !! c = Some (stopped ch))
    by (rewrite (to_objects _ _ _ _ _ _ _ S3); apply lookup_insert_eq).
  split; [by apply set_world_ok| | |done| |done].
  - by eapply rooms_delete.
  - cbn. by rewrite (to_objects _ _ _ _ _ _ _ S3), delete_insert_eq.
  - intros c'. pose proof (ke_heard _ _ _ _ S4 c') as Hh. rewrite <-(app_nil_r (heard_of c' (world s))).
    replace (heard_of c' (world s) ++ []) with (heard_of c' (world s1))
      by (rewrite Hh; by destruct (decide _)).
    unfold heard_of, pending. cbn [world set_world removed objects signals]. rewrite got_app.
    change (got c' [ChannelClosed c]) with (@nil RoomInfo). rewrite app_nil_r.
    destruct (decide (c' = c)) as [->|Hne].
    + rewrite lookup_delete_eq, Hc1. f_equal. symmetry. apply Hr.
    + by rewrite lookup_delete_ne.
Qed.

Lemma unref_gone c ch s :
  ok None None s → rooms_ok (pipelines s) (world s) → objects (world s) !! c = Some ch →
  destroyed ch = false → channels (world s) = None →
  wp (unref_roomlist strdown norm c) (λ _ s', gone c s s') s.
Proof.
  intros K R Hc Hd Hn. pose proof (rk_channel _ _ R c ch Hc) as Rc.
  unfold unref_roomlist, gabble_roomlist_channel_dispose. apply wp_bind, wp_bind.
  eapply wp_mono; [|by apply stop_listing_ok]. intros [] s1 S.
  pose proof (stops_gone c ch s s1 Hc Rc S) as G. rewrite Hn in G. destruct S as [S1 S2 S3 S4 S5 S6].
  assert (Hc1 : objects (world s1) !! c = Some (stopped ch))
    by (rewrite (to_objects _ _ _ _ _ _ _ S3); apply lookup_insert_eq).
  eapply wp_known; [by apply in_world_channel|].
  pose proof (stopped_at_rest _ _ _ _ Rc) as (_ & _ & _ & Hpe).
  apply wp_bind, wp_assert; [by apply bool_decide_eq_true_2|].
  assert (destroyed (stopped ch) = false) as Hds by (rewrite <-Hd; apply hushed_fields).
  rewrite Hds. unfold tp_base_channel_destroyed. eapply wp_known; [by apply in_world_channel|].
  eapply wp_known; [reflexivity|]. unfold roomlist_channel_closed_cb.
  eapply wp_known; [reflexivity|]. apply wp_bind, wp_get. cbn [world set_world].
  rewrite (to_channels _ _ _ _ _ _ _ S3), Hn. apply wp_ret, wp_bind, wp_get.
  unfold wp. cbn. rewrite delete_insert_eq. 
  exact G.
Qed.

Lemma close_gone c ch s l :
  ok None None s → rooms_ok (pipelines s) (world s) → objects (world s) !! c = Some ch →
  channels (world s) = Some l →
  wp (gabble_roomlist_channel_close strdown norm c) (λ _ s', gone c s s') s.
Proof.
  intros K R Hc Hn. pose proof (rk_channel _ _ R c ch Hc) as Rc.
  unfold gabble_roomlist_channel_close. apply wp_bind.
  eapply wp_mono; [|by apply stop_listing_ok]. intros [] s1 S.
  pose proof (stops_gone c ch s s1 Hc Rc S) as G. rewrite Hn in G. destruct S as [S1 S2 S3 S4 S5 S6].
  assert (Hc1 : objects (world s1) !! c = Some (stopped ch))
    by (rewrite (to_objects _ _ _ _ _ _ _ S3); apply lookup_insert_eq).
  pose proof (stopped_at_rest _ _ _ _ Rc) as Hr.
  unfold tp_base_channel_destroyed. eapply wp_known; [by apply in_world_channel|].
  eapply wp_known; [reflexivity|]. unfold roomlist_channel_closed_cb.
  eapply wp_known; [reflexivity|]. apply wp_bind, wp_get. cbn [world set_world].
  rewrite (to_channels _ _ _ _ _ _ _ S3), Hn. eapply wp_known; [reflexivity|].
  unfold unref_roomlist, gabble_roomlist_channel_dispose.
  set (s2 := set_world _ _). set (ch2 := with_destroyed (stopped ch)).
  assert (Hc2 : objects (world s2) !! c = Some ch2) by apply lookup_insert_eq.
  apply wp_bind. eapply wp_known; [by apply (stop_at_rest c ch2)|].
  eapply wp_known; [by apply in_world_channel|].
  apply wp_bind, wp_assert; [apply bool_decide_eq_true_2, Hr|].
  apply wp_ret, wp_bind, wp_get. unfold wp. cbn. rewrite delete_insert_eq. exact G.
Qed.

(** *** Listing *)

(** The pipeline of a channel that lists nothing can be run. *)
Lemma pipeline_idle P w s c ch p : ok None None s → P = pipelines s → channel_ok P w c ch →
  listing ch = false → channel_pipeline ch = Some p →
  ∃ pl, pipelines s !! p = Some pl ∧ p_user pl = OtherUser c ∧ idle pl.
Proof.
  intros K -> [R _] Hl Hp. rewrite Hp in R. destruct R as (pl & Hpl & Hu & Hne & Hr). exists pl.
  split; [done|]. split; [done|]. rewrite Hl in Hr.
  pose proof (pipe_phase _ _ _ _ _ (ok_pipe _ _ _ K p pl Hpl) ltac:(done)) as Hph.
  unfold phase in Hph. right. destruct (list_request pl) as [[a|]|]; [|done|done].
  destruct Hph; congruence.
Qed.

Lemma take_pipeline_ok c ch s : ok None None s → objects (world s) !! c = Some ch →
  (∀ p, channel_pipeline ch = Some p →
     ∃ pl, pipelines s !! p = Some pl ∧ p_user pl = OtherUser c ∧ idle pl) →
  wp (match channel_pipeline ch with
      | Some p => mret p
      | None =>
          p ← gabble_disco_pipeline_init (OtherUser c);
          in_world (put_channel c (with_pipeline (Some p) ch)) ;;
          mret p
      end)
    (λ p s', ok None None s' ∧ has_porter s' = has_porter s ∧
       (∃ pl, pipelines s' !! p = Some pl ∧ p_user pl = OtherUser c ∧ idle pl) ∧
       (∀ p', p' ≠ p → pipelines s' !! p' = pipelines s !! p') ∧
       (∀ pl, pipelines s !! p = Some pl → p_user pl = OtherUser c) ∧
       (∀ p', channel_pipeline ch = Some p' → p' = p) ∧
       touched c (with_pipeline (Some p) ch) (sources (world s)) (next_source (world s)) []
         (world s) (world s')) s.
Proof.
  intros K Hc Hp. destruct (channel_pipeline ch) as [p|] eqn:Hpi.
  - destruct (Hp p eq_refl) as (pl & Hpl & Hu & Hid). apply wp_ret.
    do 2 (split; [done|]). split; [eauto|]. split; [done|]. do 2 (split; [congruence|]).
    assert (with_pipeline (Some p) ch = ch) as -> by (rewrite <-Hpi; by destruct ch).
    split; try done; [by rewrite insert_id|by rewrite app_nil_r].
  - apply wp_bind. eapply wp_mono; [|by apply pipeline_init_ok].
    intros p s1 (-> & K1 & [B1 B2 B3 B4 B5] & Hp1). rewrite <-B4.
    destruct (put_channel_touched c (with_pipeline (Some (next_pipeline s)) ch) (world s1)) as (w2 & E2 & T2).
    eapply wp_known; [by apply in_world_eq|]. apply wp_ret. split; [by apply set_world_ok|].
    split; [done|]. split; [eexists; split; [exact Hp1|]; split; [done|by left]|].
    split; [done|]. split; [|split; [congruence|exact T2]]. intros pl Hpl. exfalso.
    pose proof (ok_next _ _ _ K (next_pipeline s) ltac:(by eexists)). lia.
Qed.

Lemma start_listing_touched c ch1 w : ∃ w',
  (put_channel c ch1 ;; signal (ListingRooms c true)) w = Ok (tt, w') ∧
  touched c ch1 (sources w) (next_source w) [ListingRooms c true] w w'.
Proof. eexists. split; [reflexivity|]. by split. Qed.

Lemma start_timer_touched c ch w : objects w !! c = Some ch → ∃ w',
  (t ← g_timeout_add c; ch ← get_channel c; put_channel c (with_source (Some t) ch)) w = Ok (tt, w') ∧
  touched c (with_source (Some (next_source w)) ch) (<[next_source w := c]> (sources w))
    (S (next_source w)) [] w w'.
Proof.
  intros Hc. eexists. split.
  - erewrite bind_eq by reflexivity. erewrite bind_eq by (by apply room_channel_known). reflexivity.
  - split; try done. cbn. by rewrite app_nil_r.
Qed.

Lemma list_rooms_ok c ch s :
  ok None None s → rooms_ok (pipelines s) (world s) → objects (world s) !! c = Some ch →
  listing ch = false → has_porter s = true →
  wp (gabble_roomlist_channel_list_rooms c) (λ _ s', ok None None s' ∧
    rooms_ok (pipelines s') (world s') ∧ keeps c [] (world s) (world s') ∧
    has_porter s' = has_porter s) s.
Proof.
  intros K R Hc Hl Hpo. pose proof (rk_channel _ _ R c ch Hc) as Rc.
  unfold gabble_roomlist_channel_list_rooms. eapply wp_known; [by apply in_world_channel|].
  set (ch1 := with_listing true ch).
  destruct (start_listing_touched c ch1 (world s)) as (w1 & E1 & T1).
  eapply wp_known; [by apply in_world_eq|]. set (s1 := set_world w1 s). change w1 with (world s1) in T1.
  assert (Hc1 : objects (world s1) !! c = Some ch1)
    by (rewrite (to_objects _ _ _ _ _ _ _ T1); apply lookup_insert_eq).
  eapply wp_known; [by apply in_world_channel|]. apply wp_bind.
  eapply wp_mono; [|apply (take_pipeline_ok c ch1 s1); [by apply set_world_ok|done|]].
  2:{ intros p Hp. by apply (pipeline_idle _ (world s) s c ch p K eq_refl). }
  intros p s2 (K2 & O2 & (pl2 & Hpl2 & Hu2 & Hid2) & P2 & P2' & P2'' & T2). apply wp_bind.
  eapply wp_mono; [|apply (pipeline_run_ok p (conference_server ch1) s2 pl2 K2 Hpl2 Hid2); by rewrite O2].
  intros [] s3 (K3 & [B1 B2 B3 B4 B5] & a & r & Hp3 & _).
  rewrite <-B4 in T2. pose proof (touched_trans _ _ _ _ _ _ _ _ _ _ _ _ T1 T2) as T12.
  rewrite app_nil_r, (to_sources _ _ _ _ _ _ _ T1), (to_source_next _ _ _ _ _ _ _ T1) in T12.
  set (ch2 := with_pipeline (Some p) ch1) in *.
  assert (Hc3 : objects (world s3) !! c = Some ch2)
    by (rewrite (to_objects _ _ _ _ _ _ _ T12); apply lookup_insert_eq).
  set (n := next_source (world s)). assert (Hn : next_source (world s3) = n)
    by apply (to_source_next _ _ _ _ _ _ _ T12).
  assert (Hsrc : sources (world s3) = sources (world s)) by apply (to_sources _ _ _ _ _ _ _ T12).
  assert (Hfresh : sources (world s) !! n = None).
  { destruct (sources (world s) !! n) eqn:E; [|done].
    pose proof (rk_source_next _ _ R n ltac:(by eexists)). unfold n in *. lia. }
  destruct (start_timer_touched c ch2 (world s3) Hc3) as (w4 & E4 & T4). unfold wp.
  rewrite (in_world_eq _ _ _ _ E4). set (s4 := set_world w4 s3). change w4 with (world s4) in T4.
  rewrite Hn, Hsrc in T4. apply (touched_trans _ _ _ _ _ _ _ _ _ _ _ _ T12) in T4. rewrite app_nil_r in T4.
  split; [by apply set_world_ok|]. split; [|split; [|cbn; by rewrite B5, O2]].
  - eapply touched_ok; [exact R|exact Hc|exact T4| | | | | |].
    + intros p' pl c' Hne Hu. cbn. destruct (decide (p' = p)) as [->|Hp].
      * rewrite Hp3. split; [|intros Hpl; specialize (P2' pl Hpl); congruence].
        intros [= <-]. cbn in Hu. congruence.
      * by rewrite B1, P2.
    + split; cbn.
      * rewrite Hp3. eexists. split; [done|]. by rewrite Hu2.
      * exists n. split; [done|]. change w4 with (world s4). rewrite (to_sources _ _ _ _ _ _ _ T4). apply lookup_insert_eq.
    + intros p' pl. cbn. destruct (decide (p' = p)) as [->|Hp]; [done|].
      rewrite B1, P2 by done. intros Hpl Hu. destruct (rk_pipes _ _ R p' pl c Hpl Hu) as (ch0 & Hc0 & Hp0).
      rewrite Hc in Hc0. injection Hc0 as <-. exfalso. by apply Hp, P2''.
    + intros t c' Hne. rewrite lookup_insert_Some. split.
      * intros [[_ ?]|[_ ?]]; [congruence|done].
      * intros Ht. right. split; [|done]. intros <-. congruence.
    + intros t. rewrite lookup_insert_Some. intros [[<- _]|[_ Ht]]; [done|].
      destruct (rk_sources _ _ R t c Ht) as (ch0 & Hc0 & Ht0). destruct Rc as [_ Rc].
      rewrite Hl in Rc. destruct Rc. congruence.
    + intros t [<-|Ht]%lookup_insert_is_Some'; [lia|].
      pose proof (rk_source_next _ _ R t Ht). unfold n. lia.
  - eapply touched_keeps; [done| |exact T4| |]; [done|done|].
    destruct Rc as [_ Rc]. rewrite Hl in Rc. cbn. by destruct Rc as [_ ->].
Qed.

(** *** The whole *)

Record system s : Prop := {
  sys_disco : ok None None s;
  sys_rooms : rooms_ok (pipelines s) (world s);
  sys_manager : manager_ok (world s);
}.

(** Nothing was heard of. *)
Definition silent s s' : Prop := ∀ c, heard_of c (world s') = heard_of c (world s).

Lemma keeps_silent c s s' : keeps c [] (world s) (world s') → silent s s'.
Proof. intros Ke c'. rewrite (ke_heard _ _ _ _ Ke). destruct (decide _); apply app_nil_r. Qed.

Lemma keeps_manager c news w w' : keeps c news w w' → manager_ok w → manager_ok w'.
Proof. intros Ke. unfold manager_ok. rewrite (ke_channels _ _ _ _ Ke). apply Ke. Qed.

(** The manager knows every channel there is. *)
Lemma channel_listed c ch w : manager_ok w → objects w !! c = Some ch →
  ∃ l, channels w = Some l ∧ c ∈ l.
Proof.
  unfold manager_ok. intros [_ M2 _] Hc. assert (Hin : c ∈ default [] (channels w)) by (apply M2; eauto).
  destruct (channels w) as [l|]; [eauto|]. by apply not_elem_of_nil in Hin.
Qed.

Lemma managed_remove c w w' l : managed w l → objects w' = delete c (objects w) →
  managed w' (g_slist_remove c l).
Proof.
  intros [M1 M2 M3] Ho. destruct (g_slist_remove_NoDup c l M1) as [Hnd Hni]. split; [done| |].
  - intros c'. rewrite Ho, lookup_delete_is_Some, <-M2. split.
    + intros Hin. split; [|by eapply elem_of_g_slist_remove]. by intros <-.
    + intros [Hne Hin]. destruct (decide (c ∈ l)) as [Hc|Hc]; [|by rewrite g_slist_remove_not_in].
      rewrite (g_slist_remove_perm c l Hc) in Hin. by apply elem_of_cons in Hin as [?|?].
  - intros c' ch. rewrite Ho, lookup_delete_Some. intros [_ Hc]. eauto.
Qed.

Lemma close_system c ch s : system s → objects (world s) !! c = Some ch →
  wp (gabble_roomlist_channel_close strdown norm c) (λ _ s', system s' ∧ silent s s') s.
Proof.
  intros [K R Mg] Hc. destruct (channel_listed c ch _ Mg Hc) as (l & Hl & Hin).
  eapply wp_mono; [|by apply (close_gone c ch s l)]. intros [] s' [G1 G2 G3 G4 G5 G6].
  split; [|exact G5]. split; [done|done|]. unfold manager_ok in *. rewrite G4, Hl in *. cbn in *.
  by eapply managed_remove.
Qed.

Lemma stop_system c ch s : system s → objects (world s) !! c = Some ch →
  wp (stop_listing strdown norm c) (λ _ s', system s' ∧ silent s s') s.
Proof.
  intros [K R Mg] Hc. eapply wp_mono; [|by apply stop_listing_ok].
  intros [] s' [S1 S2 S3 S4 S5 S6]. split; [|by eapply keeps_silent].
  split; [done|done|]. by eapply keeps_manager.
Qed.

Lemma list_system c ch s : system s → objects (world s) !! c = Some ch → listing ch = false →
  has_porter s = true →
  wp (gabble_roomlist_channel_list_rooms c) (λ _ s', system s' ∧ silent s s') s.
Proof.
  intros [K R Mg] Hc Hl Hp. eapply wp_mono; [|by apply (list_rooms_ok c ch)].
  intros [] s' (K' & R' & Ke & _). split; [|by eapply keeps_silent].
  split; [done|done|]. by eapply keeps_manager.
Qed.

Lemma timer_listing P w t c ch : rooms_ok P w → sources w !! t = Some c → objects w !! c = Some ch →
  listing ch = true.
Proof.
  intros R Ht Hc. destruct (rk_sources _ _ R t c Ht) as (ch' & Hc' & Ht').
  rewrite Hc in Hc'. injection Hc' as <-. destruct (rk_channel _ _ R c ch Hc) as [_ R2].
  destruct (listing ch); [done|]. destruct R2. congruence.
Qed.

Lemma source_system t s : system s → wp (source_fires t) (λ _ s', system s' ∧ silent s s') s.
Proof.
  intros [K R Mg]. unfold source_fires. apply wp_bind, wp_get.
  destruct (sources (world s) !! t) as [c|] eqn:Ht; [|by apply wp_ret].
  destruct (rk_sources _ _ R t c Ht) as (ch & Hc & Hst). pose proof (timer_listing _ _ _ _ _ R Ht Hc) as Hl.
  destruct (emit_room_signal_touched c ch (world s) Hc) as (w1 & E1 & T1).
  eapply wp_known; [by apply in_world_eq|]. rewrite Hl. apply wp_ret.
  destruct (rk_channel _ _ R c ch Hc) as [R1 R2]. rewrite Hl in R2.
  assert (Hf : flushed ch = with_rooms (signalled_rooms ch) [] ch) by (unfold flushed; by rewrite Hl).
  assert (Ke : keeps c [] (world s) w1).
  { eapply touched_keeps; [done| |exact T1| |].
    - by rewrite Hf.
    - intros c0. by apply got_flushes_other.
    - by rewrite got_flushes, Hl, Hf. }
  split; [|by apply (keeps_silent c)]. split; [by apply set_world_ok| |by eapply keeps_manager].
  eapply touched_ok; [exact R|done|exact T1|done| | |done| |apply R].
  - rewrite Hf. split; [done|]. cbn. by rewrite Hl, (to_sources _ _ _ _ _ _ _ T1).
  - rewrite Hf. intros p pl Hp Hu. destruct (rk_pipes _ _ R p pl c Hp Hu) as (ch0 & Hc0 & Hp0). cbn. congruence.
  - rewrite Hf. intros t' Ht'. destruct (rk_sources _ _ R t' c Ht') as (ch0 & Hc0 & Ht0). cbn. congruence.
Qed.

Lemma close_all_system s : system s →
  wp (gabble_roomlist_manager_close_all strdown norm) (λ _ s', system s' ∧ silent s s' ∧
    channels (world s') = None) s.
Proof.
  intros [K R Mg]. unfold gabble_roomlist_manager_close_all. eapply wp_known; [reflexivity|].
  apply wp_bind, wp_get. cbn [world set_world channels]. unfold manager_ok in Mg.
  destruct (channels (world s)) as [l|] eqn:Hl; cbn in Mg.
  - eapply wp_known; [reflexivity|]. eapply wp_mono; [|apply (wp_for_each (λ l s', ok None None s' ∧
      rooms_ok (pipelines s') (world s') ∧ managed (world s') l ∧ channels (world s') = None ∧
      silent s s'))].
    + intros [] s' (K' & R' & M' & Hn & Hs). split; [|done]. split; [done|done|].
      unfold manager_ok. by rewrite Hn.
    + intros c l' s1 (K1 & R1 & M1 & Hn & Hs).
      destruct (proj1 (mg_objects _ _ M1 c) ltac:(by left)) as [ch Hc].
      eapply wp_mono; [|apply (unref_gone c ch s1 K1 R1 Hc); [by apply (mg_alive _ _ M1 c)|done]].
      intros [] s2 [G1 G2 G3 G4 G5 G6]. split_and!; try done.
      * pose proof (managed_remove c _ _ _ M1 G3) as M2. cbn in M2. by rewrite decide_True in M2.
      * by rewrite G4, Hn.
      * intros c'. by rewrite G5.
    + split_and!; [by do 2 apply set_world_ok|apply (rooms_world _ (world s)); done| |done|done].
      destruct Mg as [M1 M2 M3]. by split.
  - apply wp_ret. split_and!; [|done|done]. split; [by apply set_world_ok|apply (rooms_world _ (world s)); done|].
    destruct Mg as [M1 M2 M3]. unfold manager_ok. cbn. by rewrite ?Hl.
Qed.

(** *** Requests for channels *)

(** Nothing but the connection's conference server and the signals change. *)
Record aside (w w' : RoomWorld) : Prop := {
  as_objects : objects w' = objects w;
  as_next : next_object w' = next_object w;
  as_channels : channels w' = channels w;
  as_sources : sources w' = sources w;
  as_source_next : next_source w' = next_source w;
  as_fault : fault w' = fault w;
  as_got c : got c (signals w') = got c (signals w);
}.

Lemma aside_system w s : aside (world s) w → system s →
  system (set_world w s) ∧ silent s (set_world w s).
Proof.
  intros [A1 A2 A3 A4 A5 A6 A7] [K R Mg]. split; [split|].
  - by apply set_world_ok.
  - by apply (rooms_world _ (world s)).
  - unfold manager_ok in *. cbn. rewrite A3. destruct Mg as [M1 M2 M3]. split; rewrite ?A1; done.
  - intros c. unfold heard_of, pending. cbn. by rewrite A1, A7.
Qed.

Lemma find_server_aside services w : ∃ o w',
  _gabble_connection_find_conference_server services w = Ok (o, w') ∧ aside w w'.
Proof.
  unfold _gabble_connection_find_conference_server, mbind, M_bind. cbn.
  destruct (conn_conference_server w) eqn:E; [|destruct (List.find _ _)]; cbn; rewrite ?E; cbn;
    eexists _, _; (split; [reflexivity|]); by split.
Qed.

Lemma request_server_aside services asv w : ∃ o w', request_server services asv w = Ok (o, w') ∧ aside w w'.
Proof.
  assert (A : aside w w) by by split. unfold request_server.
  destruct (bool_decide _); [by eexists _, w|].
  destruct (tp_channel_manager_asv_has_unknown_properties _ _ _); [by eexists _, w|].
  destruct (find_server_aside services w) as (o & w' & E & A').
  destruct (tp_asv_get_string _ _) as [[|a rest]|]; [|by eexists _, w|];
    unfold mbind, M_bind; rewrite E; destruct o; by eexists _, w'.
Qed.

Lemma find_list_found server l w : (∀ c, c ∈ l → is_Some (objects w !! c)) →
  ∃ o, find_list server l w = Ok (o, w).
Proof.
  induction l as [|c l IH]; intros Hl; [by exists None|]. cbn [find_list].
  destruct (Hl c ltac:(by left)) as [ch Hc]. unfold mbind at 1, M_bind at 1.
  rewrite (room_channel_known _ _ _ Hc). destruct (bool_decide _); [by eexists|].
  apply IH. intros c' Hc'. apply Hl. by right.
Qed.

Lemma new_channel_system sv token l s : system s → channels (world s) = Some l →
  wp (in_world
        (c ← _gabble_roomlist_channel_new sv;
         w ← get;
         (match channels w with
          | Some l => put_channels (Some (l ++ [c]))
          | None => mret tt
          end) ;;
         signal (NewChannel c token))) (λ _ s', system s' ∧ silent s s') s.
Proof.
  intros [[] [R1 R2 R3 R4 R5 R6] Mg] Hl. set (n := next_object (world s)).
  assert (Hn : objects (world s) !! n = None).
  { destruct (objects (world s) !! n) eqn:E; [|done]. pose proof (R5 n ltac:(by eexists)). unfold n in *. lia. }
  unfold wp, in_world. erewrite bind_eq by reflexivity. erewrite bind_eq by reflexivity. cbn [channels].
  rewrite Hl. erewrite bind_eq by reflexivity. cbn. split; [split|].
  - by apply set_world_ok.
  - split; cbn; try done.
    + intros c ch. rewrite lookup_insert_Some. intros [[<- <-]|[_ Hc]]; [by split|]. by apply R2.
    + intros p pl c Hp Hu. destruct (R3 p pl c Hp Hu) as (ch & Hc & Hp'). exists ch.
      rewrite lookup_insert_ne; [done|]. fold n. congruence.
    + intros t c Ht. destruct (R4 t c Ht) as (ch & Hc & Ht'). exists ch.
      rewrite lookup_insert_ne; [done|]. fold n. congruence.
    + intros c [<-|Hc]%lookup_insert_is_Some'; [lia|]. specialize (R5 c Hc). lia.
  - unfold manager_ok in *. rewrite Hl in Mg. cbn in *. destruct Mg as [M1 M2 M3]. split; cbn.
    + apply NoDup_app. split; [done|]. split; [|apply NoDup_singleton].
      intros c Hc%M2 ->%list_elem_of_singleton. fold n in Hc. rewrite Hn in Hc. by destruct Hc.
    + intros c. rewrite elem_of_app, list_elem_of_singleton, M2, lookup_insert_is_Some'.
      split; (intros [?|?]; [by right|by left]) || (intros [?|?]; [right|left]; congruence).
    + intros c ch. rewrite lookup_insert_Some. intros [[_ <-]|[_ Hc]]; [done|]. by eapply M3.
  - intros c. unfold heard_of, pending. cbn [world set_world signals objects]. rewrite got_app.
    change (got c [NewChannel _ token]) with (@nil RoomInfo). rewrite app_nil_r. f_equal.
    destruct (decide (c = n)) as [->|Hne].
    + fold n. by rewrite lookup_insert_eq, Hn.
    + rewrite lookup_insert_ne; [done|]. by fold n.
Qed.

Lemma signal_system e s : (∀ c, got c [e] = []) → system s →
  wp (in_world (signal e)) (λ _ s', system s' ∧ silent s s') s.
Proof.
  intros He Sy. unfold wp. cbn. apply aside_system; [|done]. split; try done.
  intros c. cbn [signals]. by rewrite got_app, He, app_nil_r.
Qed.

Lemma request_system token asv require_new s : system s → channels (world s) ≠ None →
  wp (gabble_roomlist_manager_handle_request token asv require_new)
    (λ _ s', system s' ∧ silent s s') s.
Proof.
  intros Sy Hch. unfold gabble_roomlist_manager_handle_request. apply wp_bind, wp_get.
  destruct (bool_decide _); [by apply wp_ret|].
  destruct (request_server_aside (service_cache s) asv (world s)) as (o & w1 & E1 & A1).
  eapply wp_known; [by apply in_world_eq|]. destruct (aside_system w1 s A1 Sy) as [Sy1 Si1].
  set (s1 := set_world w1 s) in *.
  assert (T : ∀ m : M State unit, wp m (λ _ s', system s' ∧ silent s1 s') s1 →
    wp (m ;; mret true) (λ _ s', system s' ∧ silent s s') s1).
  { intros m Hm. apply wp_bind. eapply wp_mono; [|exact Hm]. intros ? s' [? Hs]. apply wp_ret.
    split; [done|]. intros c. by rewrite Hs, Si1. }
  apply T. destruct o as [sv|e]; [|by apply signal_system].
  destruct (channels (world s)) as [l|] eqn:Hl; [|done]. 
  assert (Hl1 : channels (world s1) = Some l) by (cbn; by rewrite (as_channels _ _ A1)).
  assert (Hf : ∃ o, (if require_new then mret None
    else in_world (l ← gabble_roomlist_manager_foreach_channel; find_list sv l)) s1 = Ok (o, s1)).
  { destruct require_new; [by exists None|].
    destruct (find_list_found sv l (world s1)) as [o Ho].
    { intros c Hc. pose proof (sys_manager _ Sy1) as Mg. unfold manager_ok in Mg. rewrite Hl1 in Mg.
      by apply (mg_objects _ _ Mg). }
    exists o. rewrite <-(set_world_id s1) at 2. apply in_world_eq.
    unfold mbind at 1, M_bind at 1. unfold gabble_roomlist_manager_foreach_channel.
    unfold mbind at 1, M_bind at 1. cbn [get]. rewrite Hl1. exact Ho. }
  destruct Hf as [found Hf]. eapply wp_known; [exact Hf|]. destruct found as [c|].
  - by apply signal_system.
  - by eapply new_channel_system.
Qed.

(** *** Service discovery goes on *)

(** The channel of a pipeline that runs lists rooms. *)
Lemma pipeline_listing P w p pl c : rooms_ok P w → P !! p = Some pl → p_user pl = OtherUser c →
  running pl = true →
  ∃ ch, objects w !! c = Some ch ∧ channel_pipeline ch = Some p ∧ listing ch = true.
Proof.
  intros R Hp Hu Hr. destruct (rk_pipes _ _ R p pl c Hp Hu) as (ch & Hc & Hcp). exists ch.
  split; [done|]. split; [done|]. destruct (rk_channel _ _ R c ch Hc) as [R1 _]. rewrite Hcp in R1.
  destruct R1 as (pl' & Hpl' & _ & _ & Hr'). congruence.
Qed.

Lemma settled_rooms p pl0 pl O s s1 s' :
  rooms_ok (pipelines s) (world s1) → pipelines s !! p = Some pl0 →
  p_user pl = p_user pl0 → running pl0 = true → running pl = true → list_request pl = Some None →
  (∀ p', p' ≠ p → pipelines s' !! p' = pipelines s !! p') → settled p pl O s1 s' →
  rooms_ok (pipelines s') (world s') ∧ ∃ c, keeps c [] (world s1) (world s').
Proof.
  intros R Hp Hu Hr0 Hr Hl Ho Hs.
  assert (Hkeep : ∀ x, pipelines s' !! p = x →
    (∀ c, p_user pl = OtherUser c → ∃ pl', x = Some pl' ∧ p_user pl' = p_user pl ∧
       list_request pl' ≠ None ∧ running pl' = true) →
    (∀ pl', x = Some pl' → p_user pl' = p_user pl) → rooms_ok (pipelines s') (world s1)).
  { intros x Hx Hx1 Hx2. apply (rooms_pipes (pipelines s)); [done| |].
    - intros p' pl' c Hp' Hu' Hl'. destruct (decide (p' = p)) as [->|Hne].
      + rewrite Hp in Hp'. injection Hp' as <-. destruct (Hx1 c ltac:(congruence)) as (pl1 & -> & ? & ? & ?).
        exists pl1. repeat split; congruence.
      + exists pl'. by rewrite Ho.
    - intros p' pl' c Hp' Hu'. destruct (decide (p' = p)) as [->|Hne].
      + exists pl0. split; [done|]. rewrite Hx in Hp'. rewrite <-Hu, <-(Hx2 pl' Hp'). done.
      + exists pl'. by rewrite <-Ho. }
  destruct Hs as [(_ & _ & Hw & l & r & Hp' & _)|(_ & _ & Hend)].
  - rewrite Hw. split; [|exists 0%nat; apply keeps_refl].
    apply (Hkeep _ Hp'); [|by intros ? [= <-]]. intros c _. eexists. split; [done|].
    cbn. by rewrite Hl.
  - destruct (p_user pl) as [|c] eqn:Hupl.
    + destruct Hend as [Hp' Hw]. rewrite Hw. split; [|exists 0%nat; apply keeps_refl].
      by apply (Hkeep _ Hp').
    + destruct Hend as [Hp' Hw]. rewrite Hw.
      destruct (pipeline_listing _ _ p pl0 c R Hp ltac:(congruence) Hr0) as (ch & Hc & Hcp & Hli).
      set (pl' := with_running false (with_items [] ∅ pl)) in *.
      assert (pipelines s' = <[p := pl']> (pipelines s)) as ->.
      { apply map_eq. intros p'. destruct (decide (p' = p)) as [->|Hne].
        - by rewrite lookup_insert_eq.
        - by rewrite lookup_insert_ne, Ho. }
      destruct (end_keeps (pipelines s) c ch p pl0 pl' (world s1)) as [R' Ke]; try done.
      * cbn. congruence.
      * cbn. by rewrite Hl.
      * eauto.
Qed.

(** What an input tells the channel [c]. *)
Definition news s (i : disco_input) (c : nat) : list RoomInfo :=
  match answers error_domains s i with
  | Some (a, r, Some node, None) =>
      match r_callback r, objects (world s) !! c, item_of_result (r_jid r) node with
      | ItemInfoCb p, Some ch, Some item =>
          if decide (channel_pipeline ch = Some p) then rooms_of (service_cache s) (world s) item else []
      | _, _, _ => []
      end
  | _ => []
  end.

Lemma told_rooms P services p pl jid result error w :
  rooms_ok P w → P !! p = Some pl → running pl = true →
  let w' := told services pl jid result error w in
  rooms_ok P w' ∧ ∃ u, keeps u (match error, result ≫= item_of_result jid, p_user pl with
    | None, Some item, OtherUser u => rooms_of services w item
    | _, _, _ => []
    end) w w' ∧ (p_user pl = OtherUser u ∨ p_user pl = Services).
Proof.
  intros R Hp Hr w'. unfold w', told. destruct (p_user pl) as [|u] eqn:Hu.
  - destruct error, (result ≫= item_of_result jid); (split; [done|]; exists 0%nat; split; [apply keeps_refl|by right]).
  - destruct (pipeline_listing P w p pl u R Hp Hu Hr) as (ch & Hc & Hcp & Hl).
    destruct error; [|destruct (result ≫= item_of_result jid) as [item|]].
    + split; [done|]. exists u. split; [apply keeps_refl|by left].
    + destruct (info_keeps P services u ch item w R Hc Hl) as [R' Ke]. split; [done|]. exists u.
      split; [done|by left].
    + split; [done|]. exists u. split; [apply keeps_refl|by left].
Qed.

Lemma pipe_owner P w p pl u c : rooms_ok P w → P !! p = Some pl → p_user pl = OtherUser u →
  match objects w !! c with Some ch => channel_pipeline ch = Some p | None => False end ↔ c = u.
Proof.
  intros R Hp Hu. destruct (rk_pipes _ _ R p pl u Hp Hu) as (ch & Hc & Hcp).
  split; [|by intros ->; rewrite Hc].
  destruct (objects w !! c) as [ch'|] eqn:Hc'; [|done]. intros Hcp'. destruct (rk_channel _ _ R c ch' Hc') as [R1 _].
    rewrite Hcp' in R1. destruct R1 as (pl' & Hpl' & Hu' & _). congruence.
Qed.

(** What [c] hears when the answer about an item of the pipeline [p] comes. *)
Lemma news_heard s w1 w2 c u n p pl a r result error i :
  rooms_ok (pipelines s) (world s) → pipelines s !! p = Some pl →
  answers error_domains s i = Some (a, r, result, error) → r_callback r = ItemInfoCb p →
  keeps u (match error, result ≫= item_of_result (r_jid r), p_user pl with
    | None, Some item, OtherUser u => rooms_of (service_cache s) (world s) item
    | _, _, _ => []
    end) (world s) w1 → (p_user pl = OtherUser u ∨ p_user pl = Services) →
  keeps n [] w1 w2 → heard_of c w2 = heard_of c (world s) ++ news s i c.
Proof.
  intros R Hp Ha Hc Ke Hu Ke'. unfold news. rewrite Ha, Hc.
  rewrite (ke_heard _ _ _ _ Ke'), (ke_heard _ _ _ _ Ke).
  destruct (decide (c = n)); rewrite app_nil_r; f_equal; clear Ke Ke'.
  all: destruct result as [node|]; [|destruct error; by destruct (decide _)].
  all: destruct error as [err|]; [by destruct (decide _)|]; cbn [mbind option_bind].
  all: destruct (item_of_result (r_jid r) node) as [item|];
    [|destruct (objects (world s) !! c); by destruct (decide _)].
  all: destruct Hu as [Hu|Hu]; rewrite Hu.
  1,3: pose proof (pipe_owner _ _ p pl u c R Hp Hu) as How; destruct (objects (world s) !! c) as [ch|].
  1,3: destruct (decide (c = u)), (decide (channel_pipeline ch = Some p)); tauto.
  1,2: rewrite decide_False; [done|tauto].
  all: destruct (objects (world s) !! c) as [ch|] eqn:Hch; [|by destruct (decide _)].
  all: assert (channel_pipeline ch ≠ Some p) as Hne
    by (intros Hcp; destruct (rk_channel _ _ R c ch Hch) as [R1 _]; rewrite Hcp in R1;
        destruct R1 as (pl' & Hpl' & Hu' & _); congruence).
  all: rewrite (decide_False (P := channel_pipeline ch = Some p)) by done; by destruct (decide _).
Qed.

Lemma finished_system i a r result error s s' : system s →
  answers error_domains s i = Some (a, r, result, error) → finished a r result error s s' →
  system s' ∧ ∀ c, heard_of c (world s') = heard_of c (world s) ++ news s i c.
Proof.
  intros [K R Mg] Ha [F1 F2 F3 F4 F5 F6 F7 F8 F9]. unfold answered in F9.
  destruct (r_callback r) as [n|p|p] eqn:Hc.
  - destruct F9 as [_ Hw]. cbn in Hw.
    assert (pipelines s' = pipelines s) as Hps by (apply map_eq; intros p; apply F2; by intros [?|?]).
    split; [split; [done|by rewrite Hps, Hw|by rewrite Hw]|].
    intros c. unfold news. rewrite Ha, Hc, Hw.
    by destruct result, error; rewrite app_nil_r.
  - destruct F9 as (pl & O & s1 & Hp & Hl & Hr & _ & _ & Hw & Hs).
    destruct (told_rooms _ (service_cache s) p pl (r_jid r) result error _ R Hp Hr) as [R1 (u & Ke & Hu)].
    rewrite <-Hw in R1, Ke.
    destruct (settled_rooms p pl pl O s s1 s') as [R2 [n Ke']]; try done.
    { intros p' Hne. apply F2. intros [Hx|Hx]; congruence. }
    split; [split; [done|done|]|].
    + eapply keeps_manager; [exact Ke'|]. by eapply keeps_manager.
    + intros c. by eapply news_heard.
  - destruct F9 as (pl & s1 & Hp & Hl & _ & Hw & Hs).
    pose proof (pipe_phase _ _ _ _ _ (ok_pipe _ _ _ K p pl Hp) ltac:(done)) as Hph.
    unfold phase in Hph. rewrite Hl in Hph. rewrite <-Hw in R, Mg.
    destruct (settled_rooms p pl (with_list (Some None) pl) (elements (listed result error)) s s1 s')
      as [R2 [n Ke']]; try done; [apply Hph|apply Hph| |].
    { intros p' Hne. apply F2. intros [Hx|Hx]; congruence. }
    split; [split; [done|done|by eapply keeps_manager]|].
    intros c. unfold news. rewrite Ha, Hc, (ke_heard _ _ _ _ Ke'), Hw.
    destruct (decide _), result, error; done.
Qed.

Lemma disco_system i s : system s → input_ok s i → plain i →
  wp (handle error_domains i) (λ _ s', system s' ∧
    ∀ c, heard_of c (world s') = heard_of c (world s) ++ news s i c) s.
Proof.
  intros [K R Mg] Hi Hpl. destruct (answers error_domains s i) as [[[[a r] result] error]|] eqn:Ha.
  - eapply wp_mono; [|apply (handle_answers _ s i a r result error K (proj1 Hi) Ha)].
    intros [] s'. by apply finished_system.
  - eapply wp_mono; [|by apply disco_handle_quiet]. intros [] s' [Q1 Q2 Q3 Q4 Q5].
    split; [split; [done| |by rewrite Q4]|].
    + rewrite Q4. apply (rooms_pipes (pipelines s)); [done| |].
      * intros p pl c Hp Hu Hne. exists pl. repeat split; try done. apply Q2; [|done].
        destruct i; cbn in *; tauto.
      * intros p pl c Hp Hu. exists pl. split; [|done]. by eapply Q5.
    + intros c. unfold news. rewrite Ha, Q4. by rewrite app_nil_r.
Qed.

(** ** Inputs *)

Inductive room_input :=
  | DiscoInput (i : disco_input)
  | ListRooms (c : nat)
  | StopListing (c : nat)
  | CloseChannel (c : nat)
  | SourceFires (t : nat)
  | ChannelRequest (token : nat) (asv : gmap string GValue) (require_new : bool)
  | StatusChanged (status : TpConnectionStatus)
  | ManagerDispose.

Definition room_step (i : room_input) : M State unit :=
  match i with
  | DiscoInput i => handle error_domains i
  | ListRooms c => gabble_roomlist_channel_list_rooms c
  | StopListing c => gabble_roomlist_channel_stop_listing strdown norm c
  | CloseChannel c => gabble_roomlist_channel_close strdown norm c
  | SourceFires t => source_fires t
  | ChannelRequest token asv require_new =>
      gabble_roomlist_manager_handle_request token asv require_new ;; mret tt
  | StatusChanged status => connection_status_changed_cb strdown norm status
  | ManagerDispose => gabble_roomlist_manager_dispose strdown norm
  end.

(** What a callback aborts with, the whole aborts with. *)
Definition room_handle (i : room_input) : M State unit :=
  room_step i ;;
  s ← get;
  match fault (world s) with Some r => fail r | None => mret tt end.

(** The methods of a channel are called while it is on the bus; ListRooms is
    not called while rooms are listed; a timer that fires is one of the main
    loop; channels are not requested of a connection that is closed; the
    manager hears of the status while it watches the connection. *)
Definition room_enabled s (i : room_input) : Prop :=
  match i with
  | DiscoInput i => plain i ∧ input_ok s i
  | ListRooms c => has_porter s = true ∧
      ∃ ch, objects (world s) !! c = Some ch ∧ listing ch = false
  | StopListing c | CloseChannel c => is_Some (objects (world s) !! c)
  | SourceFires t => is_Some (sources (world s) !! t)
  | ChannelRequest _ _ _ => channels (world s) ≠ None
  | StatusChanged _ => watching (world s) = true
  | ManagerDispose => True
  end.

Inductive room_reach : State → Prop :=
  | room_init fallback : room_reach (gabble_disco_init (gabble_roomlist_manager_constructed fallback))
  | room_next s i s' : room_reach s → room_enabled s i → room_handle i s = Ok (tt, s') → room_reach s'.

Definition room_news s (i : room_input) (c : nat) : list RoomInfo :=
  match i with DiscoInput i => news s i c | _ => [] end.

Lemma silent_heard s s' i : silent s s' → (∀ i', i ≠ DiscoInput i') →
  ∀ c, heard_of c (world s') = heard_of c (world s) ++ room_news s i c.
Proof. intros Hs Hi c. rewrite Hs. destruct i; try (by rewrite app_nil_r). by destruct (Hi i). Qed.

Lemma room_step_ok i s : system s → room_enabled s i →
  wp (room_step i) (λ _ s', system s' ∧
    ∀ c, heard_of c (world s') = heard_of c (world s) ++ room_news s i c) s.
Proof.
  intros Sy Hi. assert (Hsil : (∀ i', i ≠ DiscoInput i') → wp (room_step i) (λ _ s', system s' ∧ silent s s') s →
    wp (room_step i) (λ _ s', system s' ∧ ∀ c, heard_of c (world s') = heard_of c (world s) ++ room_news s i c) s).
  { intros Hne Hw. eapply wp_mono; [|exact Hw]. intros [] s' [? ?]. split; [done|]. by apply silent_heard. }
  destruct i as [i|c|c|c|t|token asv b|st|]; cbn [room_enabled] in Hi; try (apply Hsil; [done|]).
  - destruct Hi. by apply disco_system.
  - destruct Hi as (Hp & ch & Hc & Hl). by eapply list_system.
  - destruct Hi as [ch Hc]. by eapply stop_system.
  - destruct Hi as [ch Hc]. by eapply close_system.
  - by apply source_system.
  - apply wp_bind. eapply wp_mono; [|by apply request_system]. intros ? s' ?. by apply wp_ret.
  - destruct st; [by apply wp_ret..|]. eapply wp_mono; [|by apply close_all_system]. by intros [] s' (? & ? & _).
  - cbn [room_step]. unfold gabble_roomlist_manager_dispose. apply wp_bind, wp_get.
    destruct (manager_disposed (world s)); [by apply wp_ret|].
    eapply wp_known; [reflexivity|]. destruct (aside_system (world
      (set_world (mkWorld (objects (world s)) (next_object (world s)) (channels (world s)) (watching (world s)) true
        (sources (world s)) (next_source (world s)) (conn_conference_server (world s))
        (fallback_conference_server (world s)) (fault (world s)) (signals (world s))) s)) s) as [Sy1 Si1]; [by split|done|].
    apply wp_bind. eapply wp_mono; [|by apply close_all_system]. intros [] s2 (Sy2 & Si2 & Hn).
    apply wp_bind, wp_get, wp_assert; [by apply bool_decide_eq_true_2|]. split; [done|].
    intros c. by rewrite Si2, Si1.
Qed.

Lemma init_system fallback : system (gabble_disco_init (gabble_roomlist_manager_constructed fallback)).
Proof.
  split; [apply init_disco_ok| |].
  - split; cbn; try done; by intros ? [].
  - split; cbn; [by apply NoDup_nil_2| |done].
    intros c. split; [by intros ?%not_elem_of_nil|by intros []].
Qed.

Lemma room_handle_ok i s : system s → room_enabled s i →
  ∃ s', room_handle i s = Ok (tt, s') ∧ system s' ∧
    ∀ c, heard_of c (world s') = heard_of c (world s) ++ room_news s i c.
Proof.
  intros Sy Hi. destruct (wp_returns _ _ _ (room_step_ok i s Sy Hi)) as (s' & Hs & Sy' & Hh).
  exists s'. split; [|done]. unfold room_handle. rewrite (bind_eq _ _ _ _ _ Hs).
  unfold mbind, M_bind. cbn. by rewrite (rk_fault _ _ (sys_rooms _ Sy')).
Qed.

Lemma room_reach_system s : room_reach s → system s.
Proof.
  induction 1 as [fallback|s i s' _ IH Hi Hs]; [apply init_system|].
  destruct (room_handle_ok i s IH Hi) as (s1 & Hs1 & Sy & _). rewrite Hs in Hs1. by injection Hs1 as <-.
Qed.

(** ** The theorems *)

(** C19: In every state of room lists and service discovery
    together that is reached by the inputs that are allowed, none of these
    inputs aborts or uses freed memory; a channel lists rooms exactly while
    its pipeline waits for the list or has items to ask about; and every timer
    is that of a channel that lists rooms. Allowed are: ListRooms on a channel
    that exists and is not listing, with a porter (calling it while listing
    faults, which list_rooms_twice shows); stopping and closing a channel that
    exists; the firing of a timer that is set; requests for channels until the
    connection is closed; changes of status while the manager watches them;
    disposing of the manager; and of the inputs of service discovery those
    disco_requests_once allows, other than making, running and destroying
    pipelines of other components. *)
Theorem roomlist_safe s i : room_reach s → room_enabled s i →
  (∃ s', room_handle i s = Ok (tt, s')) ∧
  (∀ c ch, objects (world s) !! c = Some ch →
     (listing ch = true ↔ ∃ p, channel_pipeline ch = Some p ∧
        (view s p = Some Listing ∨ ∃ O, view s p = Some (Asking O)))) ∧
  (∀ t c, sources (world s) !! t = Some c →
     ∃ ch, objects (world s) !! c = Some ch ∧ listing ch = true ∧ timer_source_id ch = Some t).
Proof.
  intros [K R Mg]%room_reach_system Hi. split; [|split].
  - destruct (room_handle_ok i s) as (s' & Hs & _); [done|done|eauto].
  - intros c ch Hc. destruct (rk_channel _ _ R c ch Hc) as [R1 _].
    destruct (channel_pipeline ch) as [p|].
    2:{ split; [congruence|by intros (p & ? & _)]. }
    destruct R1 as (pl & Hpl & Hu & Hl & Hr). unfold view.
    pose proof (pipe_phase _ _ _ _ _ (ok_pipe _ _ _ K p pl Hpl) ltac:(done)) as Hph. unfold phase in Hph.
    split.
    + intros Hli. exists p. split; [done|]. rewrite Hpl. cbn. destruct (list_request pl) as [[a|]|]; [by left| |done].
      right. rewrite Hr, Hli. eauto.
    + intros (p' & [= <-] & Hv). rewrite Hpl in Hv. cbn in Hv. rewrite <-Hr.
      destruct (list_request pl) as [[a|]|]; [apply Hph| |done].
      destruct (running pl); [done|]. by destruct Hv as [?|[? ?]].
  - intros t c Ht. destruct (rk_sources _ _ R t c Ht) as (ch & Hc & Hst). exists ch. split; [done|].
    split; [|done]. by eapply timer_listing.
Qed.

Lemma all_got s c : system s →
  (∀ ch, objects (world s) !! c = Some ch → listing ch = false) →
  got c (signals (world s)) = heard_of c (world s).
Proof.
  intros [K R Mg] Hl. unfold heard_of, pending. destruct (objects (world s) !! c) as [ch|] eqn:Hc.
  - destruct (rk_channel _ _ R c ch Hc) as [_ R2]. rewrite (Hl ch eq_refl) in R2.
    destruct R2 as [_ ->]. by rewrite app_nil_r.
  - by rewrite app_nil_r.
Qed.

(** C20: every room that is found is announced, once and in order, on the channel
    that lists it: what a channel has announced and is about to announce grows
    by the room an answer is about and by nothing else, and a channel that has
    stopped, ended or was closed has announced it all. *)
Theorem rooms_announced_once s i s' c :
  room_reach s → room_enabled s i → room_handle i s = Ok (tt, s') →
  heard_of c (world s') = heard_of c (world s) ++ room_news s i c ∧
  ((∀ ch, objects (world s') !! c = Some ch → listing ch = false) →
   got c (signals (world s')) = heard_of c (world s')).
Proof.
  intros Sy%room_reach_system Hi Hs. destruct (room_handle_ok i s Sy Hi) as (s1 & Hs1 & Sy1 & Hh).
  rewrite Hs in Hs1. injection Hs1 as <-. split; [apply Hh|by apply all_got].
Qed.

(** *** A server that does not answer *)

(** The timers of [n] requests fire, and nothing else happens. *)
Inductive expire : State → nat → State → Prop :=
  | expire_none s : expire s 0 s
  | expire_one s a r s1 n s2 : memory s !! a = Some r → timer r = true →
      room_handle (DiscoInput (TimerFires a)) s = Ok (tt, s1) → expire s1 n s2 → expire s (S n) s2.

Lemma timer_system s a r : system s → memory s !! a = Some r →
  ∃ s', room_handle (DiscoInput (TimerFires a)) s = Ok (tt, s') ∧ system s' ∧
    finished a r None (Some GABBLE_DISCO_ERROR_TIMEOUT) s s' ∧ silent s s'.
Proof.
  intros Sy Ha. destruct (wp_returns _ _ _ (timeout_ok a r s (sys_disco _ Sy) Ha)) as (s' & Hs & F).
  destruct (finished_system (TimerFires a) a r None (Some GABBLE_DISCO_ERROR_TIMEOUT) s s' Sy) as [Sy' Hh].
  { cbn. by rewrite Ha. } { done. }
  exists s'. split; [|split_and!; try done].
  - unfold room_handle. cbn [room_step handle]. rewrite (bind_eq _ _ _ _ _ Hs).
    unfold mbind, M_bind. cbn. by rewrite (rk_fault _ _ (sys_rooms _ Sy')).
  - intros c. rewrite Hh. unfold news. cbn. rewrite Ha. cbn. apply app_nil_r.
Qed.

(** The channel has stopped listing. *)
Definition ended (c : nat) s : Prop := ∃ ch, objects (world s) !! c = Some ch ∧ listing ch = false.

Lemma pipeline_stopped s c p pl : system s → pipelines s !! p = Some pl → p_user pl = OtherUser c →
  running pl = false → ended c s.
Proof.
  intros [K R Mg] Hp Hu Hr. destruct (rk_pipes _ _ R p pl c Hp Hu) as (ch & Hc & Hcp). exists ch.
  split; [done|]. destruct (rk_channel _ _ R c ch Hc) as [R1 _]. rewrite Hcp in R1.
  destruct R1 as (pl' & Hpl' & _ & _ & Hr'). congruence.
Qed.

Lemma asking_expires n : ∀ s c p pl, system s → pipelines s !! p = Some pl → p_user pl = OtherUser c →
  list_request pl = Some None → running pl = true → length (open_items s pl) = n →
  ∃ s', expire s n s' ∧ system s' ∧ ended c s' ∧ silent s s'.
Proof.
  induction n as [|n IH]; intros s c p pl Sy Hp Hu Hl Hr Hn;
    pose proof (ok_pipe _ _ _ (sys_disco _ Sy) p pl Hp) as Kp;
    pose proof (pipe_phase _ _ _ _ _ Kp ltac:(done)) as Hph; unfold phase in Hph; rewrite Hl, Hr in Hph;
    destruct Hph as [Hne _]; destruct (disco_pipeline pl) as [|e l] eqn:Hd; try done;
    destruct (pipe_entries _ _ _ _ _ Kp e ltac:(rewrite Hd; by left)) as (a & r & -> & _ & Ha & Hc).
  - exfalso. unfold open_items in Hn. rewrite Hd in Hn. cbn in Hn. by rewrite Ha in Hn.
  - destruct (ok_request _ _ _ (sys_disco _ Sy) a r ltac:(done) Ha) as [Ht _].
    destruct (timer_system s a r Sy Ha) as (s1 & Hs1 & Sy1 & F & Si).
    pose proof (fin_answered _ _ _ _ _ _ F) as Han. unfold answered in Han. rewrite Hc in Han.
    destruct Han as (pl' & O & s0 & Hp' & _ & _ & Ho & _ & _ & Hset). rewrite Hp in Hp'. injection Hp' as <-.
    apply Permutation_length in Ho. cbn in Ho.
    destruct Hset as [(HO & _ & _ & l' & r' & Hp1 & Hi)|(-> & _ & Hend)].
    + destruct (IH s1 c p _ Sy1 Hp1) as (s' & He & Sy' & Hen & Si'); try done.
      { rewrite (Permutation_length Hi). lia. }
      exists s'. split; [by eapply expire_one|]. split_and!; try done. intros c'. by rewrite Si'.
    + cbn in Ho. assert (n = 0)%nat as -> by lia. exists s1.
      split; [by eapply expire_one; [..|apply expire_none]|]. split_and!; try done.
      rewrite Hu in Hend. destruct Hend as [Hp1 _]. by eapply pipeline_stopped.
Qed.

(** C21: listing rooms comes to an end even when the server never answers: once the
    timers of the requests have fired, one for the list or one for each item
    that is left, the channel says that it has stopped, and everything it had
    found was announced. *)
Theorem listing_ends s c ch p pl : room_reach s → objects (world s) !! c = Some ch → listing ch = true →
  channel_pipeline ch = Some p → pipelines s !! p = Some pl →
  ∃ n s', expire s n s' ∧ (n <= Nat.max 1 (length (open_items s pl)))%nat ∧ ended c s' ∧
    got c (signals (world s')) = heard_of c (world s).
Proof.
  intros Sy%room_reach_system Hc Hli Hcp Hp. destruct (rk_channel _ _ (sys_rooms _ Sy) c ch Hc) as [R1 _].
  rewrite Hcp in R1. destruct R1 as (pl' & Hp' & Hu & Hne & Hr). rewrite Hp in Hp'. injection Hp' as <-.
  rewrite Hli in Hr.
  assert (∃ n s', expire s n s' ∧ (n <= Nat.max 1 (length (open_items s pl)))%nat ∧ system s' ∧ ended c s' ∧
    silent s s') as (n & s' & He & Hn & Sy' & Hen & Si).
  - destruct (list_request pl) as [[a|]|] eqn:Hl; [| |done].
    + destruct (pipe_list _ _ _ _ _ (ok_pipe _ _ _ (sys_disco _ Sy) p pl Hp) a Hl) as (_ & r & Ha & Hcb).
      destruct (ok_request _ _ _ (sys_disco _ Sy) a r ltac:(done) Ha) as [Ht _].
      destruct (timer_system s a r Sy Ha) as (s1 & Hs1 & Sy1 & F & Si).
      exists 1%nat, s1. split; [by eapply expire_one; [..|apply expire_none]|]. split; [lia|]. split_and!; try done.
      pose proof (fin_answered _ _ _ _ _ _ F) as Han. unfold answered in Han. rewrite Hcb in Han.
      destruct Han as (pl' & s0 & Hp' & _ & _ & _ & Hset). rewrite Hp in Hp'. injection Hp' as <-.
      destruct Hset as [(HO & _)|(_ & _ & Hend)]; [done|]. cbn [with_list p_user] in Hend.
      rewrite Hu in Hend. destruct Hend as [Hp1 _]. by eapply pipeline_stopped.
    + destruct (asking_expires _ s c p pl Sy Hp Hu Hl Hr eq_refl) as (s' & He & Sy' & Hen & Si).
      exists (length (open_items s pl)), s'. split_and!; try done. lia.
  - exists n, s'. split_and!; try done. rewrite <-Si. apply all_got; [done|].
    intros ch' Hc'. destruct Hen as (ch2 & Hc2 & Hl2). congruence.
Qed.
End rooms.
End RoomlistFacts.
