(* ===== verification/RoomlistRuns.v ===== *)
(** * Runs of room lists

    That the hypotheses of the theorems of [RoomlistFacts] hold in concrete
    runs, and what happens when ListRooms is called while rooms are listed. *)

From S2P Require Import Prelude Node Namespaces XmppError Jid Disco DiscoFacts DiscoRuns Roomlist RoomlistFacts.

Module RoomlistRuns.
Import Disco DiscoFacts DiscoRuns Roomlist RoomlistFacts.

#[local] Hint Extern 0 (DiscoClient RoomWorld _ _) => exact (roomlist_client id id) : typeclass_instances.

Local Abbreviation State := (GabbleDisco RoomWorld).

(** Whether an input can come, decided. *)
Definition room_can (s : State) (i : room_input) : bool :=
  match i with
  | DiscoInput i =>
      match i with PipelineInit _ | PipelineRun _ _ | PipelineDestroy _ => false | _ => can_come s i end
  | ListRooms c =>
      has_porter s &&
      match objects (world s) !! c with Some ch => negb (listing ch) | None => false end
  | StopListing c | CloseChannel c => bool_decide (is_Some (objects (world s) !! c))
  | SourceFires t => bool_decide (is_Some (sources (world s) !! t))
  | ChannelRequest _ _ _ => bool_decide (channels (world s) ≠ None)
  | StatusChanged _ => watching (world s)
  | ManagerDispose => true
  end.

Lemma room_can_ok s i : room_can s i = true → room_enabled s i.
Proof.
  destruct i as [i|c|c|c|t|token asv b|st|]; cbn; try done;
    try (intros Hi; by apply bool_decide_eq_true_1 in Hi).
  - intros Hi. split; [by destruct i|]. apply can_come_ok. by destruct i.
  - intros [Hp Hi]%andb_prop. split; [done|]. destruct (objects (world s) !! c) as [ch|]; [|done].
    exists ch. split; [done|]. by destruct (listing ch).
Qed.

Definition room_run (l : list room_input) : M State unit :=
  for_each l (λ i, s ← get; g_assert (room_can s i) ;; room_handle id id [] i).

Lemma room_run_reach l s s' : room_reach id id [] s → room_run l s = Ok (tt, s') → room_reach id id [] s'.
Proof.
  revert s. induction l as [|i l IH]; intros s Hs; unfold room_run; cbn [for_each].
  - cbn. by intros [= <-].
  - intros ([] & s1 & H1 & H2)%bind_Ok. apply (IH s1); [|done].
    apply bind_Ok in H1 as (s0 & s0' & Hg & H1). injection Hg as <- <-.
    apply bind_Ok in H1 as ([] & s2 & Ha & H1). apply assert_Ok in Ha as [-> Hc].
    eapply room_next; [done|by apply room_can_ok|done].
Qed.

Definition room_start : State := gabble_disco_init (gabble_roomlist_manager_constructed None).
Definition after_rooms (l : list room_input) : State :=
  match room_run l room_start with Ok (_, s) => s | Abort _ => room_start end.

Lemma after_rooms_reach l :
  match room_run l room_start with Ok _ => true | Abort _ => false end = true →
  room_reach id id [] (after_rooms l).
Proof.
  unfold after_rooms. destruct (room_run l room_start) as [[[] s]|] eqn:E; [|done]. intros _.
  eapply room_run_reach; [apply room_init|exact E].
Qed.

(** ** Two rooms are found *)

Definition list_request_asv : gmap string GValue :=
  {[ TP_IFACE_CHANNEL +:+ ".ChannelType" := G_STRING TP_IFACE_CHANNEL_TYPE_ROOM_LIST;
     TP_IFACE_CHANNEL_TYPE_ROOM_LIST +:+ ".Server" := G_STRING "conf.example.net" ]}.

Definition two_rooms : list room_input :=
  [DiscoInput PorterAvailable; ChannelRequest 5 list_request_asv true; ListRooms 0;
   DiscoInput (IqReply 0 (Some (items_reply ["a@conf.example.net"; "b@conf.example.net"])));
   DiscoInput (IqReply 1 (Some (info_reply "A")))].
Definition two : State := after_rooms two_rooms.

Lemma two_reach : room_reach id id [] two.
Proof. apply after_rooms_reach. vm_compute. reflexivity. Qed.

Definition room_a : RoomInfo :=
  mkRoom "a@conf.example.net" TP_IFACE_CHANNEL_TYPE_TEXT
    (<["name" := G_STRING "A"]> {["handle-name" := G_STRING "a@conf.example.net"]}).

Definition b_info : room_input := DiscoInput (IqReply 2 (Some (info_reply "B"))).
Definition room_b : RoomInfo :=
  mkRoom "b@conf.example.net" TP_IFACE_CHANNEL_TYPE_TEXT
    (<["name" := G_STRING "B"]> {["handle-name" := G_STRING "b@conf.example.net"]}).
Definition all_found : State := after_rooms (two_rooms ++ [b_info]).

Lemma roomlist_safe_witness :
  (∃ s', room_handle id id [] b_info two = Ok (tt, s')) ∧
  (∀ c ch, objects (world two) !! c = Some ch →
     (listing ch = true ↔ ∃ p, channel_pipeline ch = Some p ∧
        (view two p = Some Listing ∨ ∃ O, view two p = Some (Asking O)))) ∧
  (∀ t c, sources (world two) !! t = Some c →
     ∃ ch, objects (world two) !! c = Some ch ∧ listing ch = true ∧ timer_source_id ch = Some t).
Proof.
  apply (roomlist_safe id id [] two b_info two_reach). apply room_can_ok. vm_compute. reflexivity.
Defined.

(** The second room is the news; then the channel stops, and has announced both. *)
Lemma rooms_announced_once_witness :
  room_news id id [] two b_info 0 = [room_b] ∧
  heard_of 0 (world all_found) = heard_of 0 (world two) ++ [room_b] ∧
  got 0 (signals (world all_found)) = [room_a; room_b].
Proof.
  assert (Hn : room_news id id [] two b_info 0 = [room_b]) by (vm_compute; reflexivity).
  assert (Hs : room_handle id id [] b_info two = Ok (tt, all_found)) by (vm_compute; reflexivity).
  assert (Hh : heard_of 0 (world all_found) = [room_a; room_b]) by (vm_compute; reflexivity).
  assert (Hl : (listing <$> objects (world all_found) !! 0%nat) = Some false) by (vm_compute; reflexivity).
  destruct (rooms_announced_once id id [] two b_info all_found 0 two_reach
    (room_can_ok two b_info ltac:(vm_compute; reflexivity)) Hs) as [H1 H2].
  split; [exact Hn|]. split; [rewrite <-Hn; exact H1|]. rewrite <-Hh. apply H2.
  intros ch Hc. rewrite Hc in Hl. by injection Hl.
Defined.

Definition two_channel : GabbleRoomlistChannel :=
  mkRoomlist "conf.example.net" true (Some 0%nat) {["a@conf.example.net"]} [room_a] (Some 0%nat) false.
Definition two_pipeline : GabbleDiscoPipeline :=
  mkPipeline (OtherUser 0) [Some 2%nat] ∅ (Some None) true.

Lemma listing_ends_witness : ∃ n s', expire id id [] two n s' ∧ (n <= 1)%nat ∧ ended 0 s' ∧
  got 0 (signals (world s')) = [room_a].
Proof.
  assert (Hc : objects (world two) !! 0%nat = Some two_channel) by (vm_compute; reflexivity).
  assert (Hp : pipelines two !! 0%nat = Some two_pipeline) by (vm_compute; reflexivity).
  assert (Hh : heard_of 0 (world two) = [room_a]) by (vm_compute; reflexivity).
  assert (Ho : length (open_items two two_pipeline) = 1%nat) by (vm_compute; reflexivity).
  destruct (listing_ends id id [] two 0 two_channel 0 two_pipeline two_reach Hc eq_refl eq_refl Hp)
    as (n & s' & He & Hn & Hen & Hg).
  exists n, s'. rewrite Ho in Hn. rewrite Hh in Hg. split; [exact He|]. split; [exact Hn|].
  split; [exact Hen|exact Hg].
Defined.

(** ** ListRooms while rooms are listed *)

Definition steps (l : list room_input) : M State unit := for_each l (room_handle id id []).

(** Calling ListRooms twice is not safe, although any client can do it.  The
    second call forgets the request for the list that the first one made, so
    that stopping frees the pipeline and leaves that request, and the reply to
    it uses the freed pipeline; and it forgets the timer of the first call, so
    that closing the channel frees the channel and leaves the timer, which uses
    it when it fires. *)
Theorem list_rooms_twice :
  (∃ s, steps [DiscoInput PorterAvailable; ChannelRequest 5 list_request_asv true; ListRooms 0;
               ListRooms 0; StopListing 0] room_start = Ok (tt, s) ∧
   room_handle id id [] (DiscoInput (IqReply 0 (Some (items_reply [])))) s = Abort MemoryFault) ∧
  (∃ s, steps [DiscoInput PorterAvailable; ChannelRequest 5 list_request_asv true; ListRooms 0;
               ListRooms 0; CloseChannel 0] room_start = Ok (tt, s) ∧
   room_handle id id [] (SourceFires 0) s = Abort MemoryFault).
Proof.
  split; (eexists; split; [vm_compute; reflexivity|]); vm_compute; reflexivity.
Qed.
End RoomlistRuns.
