(* ===== verification/WockyMuc.v ===== *)
(** * Rooms on the wire (lib/ext/wocky/wocky/wocky-muc.c)

    What the presences and messages of a room mean: who is in it, whether we
    are, and the signals this gives rise to.  The object is part of a bigger
    state, in which the handlers of the signals run: the functions take the
    means to read it and to write it, and the handlers, as arguments. *)

From Stdlib Require String.
From S2P Require Import Prelude Node Namespaces Jid XmppError MessageUtil.

Module WockyMuc.
Import Jid XmppError.

Definition WOCKY_NS_MUC : string := "http://jabber.org/protocol/muc".
Definition WOCKY_NS_MUC_USER : string := "http://jabber.org/protocol/muc#user".
Definition WOCKY_NS_MUC_ADMIN : string := "http://jabber.org/protocol/muc#admin".
Definition WOCKY_NS_MUC_OWNER : string := "http://jabber.org/protocol/muc#owner".
Definition WOCKY_NS_CHATSTATE : string := "http://jabber.org/protocol/chatstates".

(** ** Data *)

Definition WOCKY_MUC_CODE_UNKNOWN : Z := 0.
Definition WOCKY_MUC_CODE_OWN_PRESENCE : Z := Z.shiftl 1 5.
Definition WOCKY_MUC_CODE_CFG_ONYMOUS : Z := Z.shiftl 1 8.
Definition WOCKY_MUC_CODE_CFG_SEMIONYMOUS : Z := Z.shiftl 1 9.
Definition WOCKY_MUC_CODE_CFG_ANONYMOUS : Z := Z.shiftl 1 10.
Definition WOCKY_MUC_CODE_NEW_ROOM : Z := Z.shiftl 1 11.
Definition WOCKY_MUC_CODE_NICK_CHANGE_FORCED : Z := Z.shiftl 1 12.
Definition WOCKY_MUC_CODE_BANNED : Z := Z.shiftl 1 13.
Definition WOCKY_MUC_CODE_KICKED : Z := Z.shiftl 1 15.
Definition WOCKY_MUC_CODE_KICKED_AFFILIATION : Z := Z.shiftl 1 16.
Definition WOCKY_MUC_CODE_KICKED_ROOM_PRIVATISED : Z := Z.shiftl 1 17.
Definition WOCKY_MUC_CODE_KICKED_SHUTDOWN : Z := Z.shiftl 1 18.

Definition WOCKY_MUC_NONANONYMOUS : Z := Z.shiftl 1 7.
Definition WOCKY_MUC_SEMIANONYMOUS : Z := Z.shiftl 1 13.

Inductive WockyMucRole := ROLE_NONE | ROLE_VISITOR | ROLE_PARTICIPANT | ROLE_MODERATOR.
#[global] Instance WockyMucRole_eq_dec : EqDecision WockyMucRole.
Proof. solve_decision. Defined.

Inductive WockyMucAffiliation :=
  AFFILIATION_OUTCAST | AFFILIATION_NONE | AFFILIATION_MEMBER | AFFILIATION_ADMIN | AFFILIATION_OWNER.
#[global] Instance WockyMucAffiliation_eq_dec : EqDecision WockyMucAffiliation.
Proof. solve_decision. Defined.

Inductive WockyMucMsgType := MSG_NONE | MSG_NORMAL | MSG_ACTION | MSG_NOTICE.

Inductive WockyMucMsgState :=
  MSG_STATE_NONE | MSG_STATE_ACTIVE | MSG_STATE_COMPOSING | MSG_STATE_INACTIVE | MSG_STATE_PAUSED.
#[global] Instance WockyMucMsgState_eq_dec : EqDecision WockyMucMsgState.
Proof. solve_decision. Defined.

(** The numbers of two enumerations that the code mixes. *)
Definition WOCKY_MUC_MSG_NONE : Z := 0.
Definition msg_state_of_number (n : Z) : WockyMucMsgState :=
  if n =? 0 then MSG_STATE_ACTIVE else if n =? 1 then MSG_STATE_COMPOSING
  else if n =? 2 then MSG_STATE_INACTIVE else if n =? 3 then MSG_STATE_PAUSED
  else MSG_STATE_NONE.

(** In the order of their numbers. *)
Inductive WockyMucState := MUC_CREATED | MUC_INITIATED | MUC_AUTH | MUC_JOINED | MUC_ENDED.
#[global] Instance WockyMucState_eq_dec : EqDecision WockyMucState.
Proof. solve_decision. Defined.

Definition state_number (s : WockyMucState) : Z :=
  match s with MUC_CREATED => 0 | MUC_INITIATED => 1 | MUC_AUTH => 2 | MUC_JOINED => 3 | MUC_ENDED => 4 end.

Record WockyMucMember := mkMember {
  m_from : string;
  m_jid : option string;
  m_nick : option string;
  m_role : WockyMucRole;
  m_affiliation : WockyMucAffiliation;
  m_status : option string;
  presence_stanza : option WockyNode;
}.

(** [handlers]: the handlers of presences and messages are registered. *)
Record WockyMuc := mkWockyMuc {
  user : string;
  muc_jid : string;
  service : option string;
  room : option string;
  rjid : string;
  nick : option string;
  pass : option string;
  status : option string;
  room_type : Z;
  members : gmap string WockyMucMember;
  muc_state : WockyMucState;
  role : WockyMucRole;
  affiliation : WockyMucAffiliation;
  handlers : bool;
}.

Inductive WockyMucSig :=
  | SIG_NICK_CHANGE (stanza : WockyNode) (codes : Z)
  | SIG_PERM_CHANGE (stanza : WockyNode) (codes : Z) (actor why : option string)
  | SIG_PRESENCE (stanza : WockyNode) (codes : Z) (member : WockyMucMember)
  | SIG_OWN_PRESENCE (stanza : WockyNode) (codes : Z)
  | SIG_PRESENCE_ERROR (stanza : WockyNode) (error : Extracted)
  | SIG_JOINED (stanza : WockyNode) (codes : Z)
  | SIG_PARTED (stanza : WockyNode) (codes : Z) (actor why msg : option string)
  | SIG_LEFT (stanza : WockyNode) (codes : Z) (member : WockyMucMember) (actor why msg : option string)
  | SIG_MSG (stanza : WockyNode) (type : WockyMucMsgType) (id : option string) (stamp : option Z)
      (who : option WockyMucMember) (body subject : option string) (state : WockyMucMsgState)
  | SIG_MSG_ERR (stanza : WockyNode) (type : WockyMucMsgType) (id : option string) (stamp : option Z)
      (who : option WockyMucMember) (body : option string) (error : Extracted).

(** ** Reading stanzas *)

Definition status_code_to_muc_flag (code : Z) : Z :=
  match code with
  | 100 => Z.shiftl 1 0
  | 101 => Z.shiftl 1 1
  | 102 => Z.shiftl 1 2
  | 103 => Z.shiftl 1 3
  | 104 => Z.shiftl 1 4
  | 110 => WOCKY_MUC_CODE_OWN_PRESENCE
  | 170 => Z.shiftl 1 6
  | 171 => Z.shiftl 1 7
  | 172 => WOCKY_MUC_CODE_CFG_ONYMOUS
  | 173 => WOCKY_MUC_CODE_CFG_SEMIONYMOUS
  | 174 => WOCKY_MUC_CODE_CFG_ANONYMOUS
  | 201 => WOCKY_MUC_CODE_NEW_ROOM
  | 210 => WOCKY_MUC_CODE_NICK_CHANGE_FORCED
  | 301 => WOCKY_MUC_CODE_BANNED
  | 303 => Z.shiftl 1 14
  | 307 => WOCKY_MUC_CODE_KICKED
  | 321 => WOCKY_MUC_CODE_KICKED_AFFILIATION
  | 322 => WOCKY_MUC_CODE_KICKED_ROOM_PRIVATISED
  | 332 => WOCKY_MUC_CODE_KICKED_SHUTDOWN
  | _ => WOCKY_MUC_CODE_UNKNOWN
  end.

Definition has_code (codes flag : Z) : bool := negb (Z.land codes flag =? 0).

Definition add_status_code (codes : Z) (node : WockyNode) : Z :=
  match wocky_node_get_attribute node "code" with
  | None => codes
  | Some code =>
      let cnum := status_code_to_muc_flag (strtoul code) in
      let codes := Z.lor codes cnum in
      if (cnum =? WOCKY_MUC_CODE_NICK_CHANGE_FORCED) || (cnum =? WOCKY_MUC_CODE_NEW_ROOM)
      then Z.lor codes WOCKY_MUC_CODE_OWN_PRESENCE
      else codes
  end.

Definition extract_status_codes (x : WockyNode) : Z :=
  foldl add_status_code 0 (List.filter (λ n, bool_decide (name n = "status")) (children x)).

Definition presence_features (room_type codes : Z) : Z :=
  if has_code codes WOCKY_MUC_CODE_CFG_ONYMOUS then
    Z.ldiff (Z.lor room_type WOCKY_MUC_NONANONYMOUS) WOCKY_MUC_SEMIANONYMOUS
  else if has_code codes WOCKY_MUC_CODE_CFG_SEMIONYMOUS then
    Z.ldiff (Z.lor room_type WOCKY_MUC_SEMIANONYMOUS) WOCKY_MUC_NONANONYMOUS
  else if has_code codes WOCKY_MUC_CODE_CFG_ANONYMOUS then
    Z.ldiff room_type (Z.lor WOCKY_MUC_NONANONYMOUS WOCKY_MUC_SEMIANONYMOUS)
  else room_type.

Definition string_to_role (r : option string) : WockyMucRole :=
  if bool_decide (r = Some "visitor") then ROLE_VISITOR
  else if bool_decide (r = Some "participant") then ROLE_PARTICIPANT
  else if bool_decide (r = Some "moderator") then ROLE_MODERATOR
  else ROLE_NONE.

Definition string_to_aff (a : option string) : WockyMucAffiliation :=
  if bool_decide (a = Some "outcast") then AFFILIATION_OUTCAST
  else if bool_decide (a = Some "member") then AFFILIATION_MEMBER
  else if bool_decide (a = Some "admin") then AFFILIATION_ADMIN
  else if bool_decide (a = Some "owner") then AFFILIATION_OWNER
  else AFFILIATION_NONE.

(** What the item of a presence says. *)
Record Item := mkItem {
  pjid : option string;
  pnic : option string;
  it_role : WockyMucRole;
  it_aff : WockyMucAffiliation;
  ajid : option string;
  why : option string;
}.

Definition parse_item (x : WockyNode) : Item :=
  match wocky_node_get_child x "item" with
  | None => mkItem None None ROLE_NONE AFFILIATION_NONE None None
  | Some item =>
      mkItem (wocky_node_get_attribute item "jid") (wocky_node_get_attribute item "nick")
        (string_to_role (wocky_node_get_attribute item "role"))
        (string_to_aff (wocky_node_get_attribute item "affiliation"))
        (actor ← wocky_node_get_child item "actor"; wocky_node_get_attribute actor "jid")
        (cause ← wocky_node_get_child item "reason"; content cause)
  end.

(** Messages that start with /me are actions.  The comparison with exactly
    "/me" is made with the bytes of the pointer to the body instead of those
    of the body; they are taken to differ. *)
Definition determine_message_type (body : option string) (sub_type : option string) :
    WockyMucMsgType * option string :=
  match body with
  | None => (MSG_NOTICE, None)
  | Some b =>
      if String.prefix "/me " b
      then (MSG_ACTION, Some (String.substring 4 (String.length b - 4) b))
      else if bool_decide (sub_type = Some "groupchat") || bool_decide (sub_type = Some "chat")
      then (MSG_NORMAL, Some b)
      else (MSG_NOTICE, Some b)
  end.

Definition msg_state_nicks : list (Z * string) :=
  [(0, "active"); (1, "composing"); (2, "inactive"); (3, "paused"); (-1, "none")].

Definition extract_chat_state (msg : WockyNode) : WockyMucMsgState :=
  msg_state_of_number
    match List.find (λ n, bool_decide (ns n = Some WOCKY_NS_CHATSTATE)) (children msg) with
    | None => WOCKY_MUC_MSG_NONE
    | Some child => default WOCKY_MUC_MSG_NONE (from_nick msg_state_nicks (name child))
    end.

Section wocky.
Context (g_utf8_strdown : string → string) (from_iso8601 : string → option Z).
Context (error_domains : list WockyXmppErrorDomain).

Definition extract_timestamp (msg : WockyNode) : option Z :=
  x ← wocky_node_get_child_ns msg (Some "x") (Some MessageUtil.NS_X_DELAY);
  tm ← wocky_node_get_attribute x "stamp";
  from_iso8601 (tm +:+ "Z").

(** A NULL that is printed. *)
Definition printed (s : option string) : string := default "(null)" s.

(** The property "jid". *)
Definition set_jid (jid : string) (muc : WockyMuc) : WockyMuc :=
  let '(rm, sv, nk) :=
    match wocky_decode_jid g_utf8_strdown jid with
    | Some (n, d, r) => (n, Some d, r)
    | None => (None, None, None)
    end in
  mkWockyMuc (user muc) jid sv rm (printed rm +:+ "@" +:+ printed sv) nk (pass muc) (status muc)
    (room_type muc) (members muc) (muc_state muc) (role muc) (affiliation muc) (handlers muc).

Definition with_pass (p : option string) (muc : WockyMuc) : WockyMuc :=
  mkWockyMuc (user muc) (muc_jid muc) (service muc) (room muc) (rjid muc) (nick muc) p (status muc)
    (room_type muc) (members muc) (muc_state muc) (role muc) (affiliation muc) (handlers muc).
Definition with_state (st : WockyMucState) (r : WockyMucRole) (h : bool) (muc : WockyMuc) : WockyMuc :=
  mkWockyMuc (user muc) (muc_jid muc) (service muc) (room muc) (rjid muc) (nick muc) (pass muc)
    (status muc) (room_type muc) (members muc) st r (affiliation muc) h.
Definition with_members (m : gmap string WockyMucMember) (muc : WockyMuc) : WockyMuc :=
  mkWockyMuc (user muc) (muc_jid muc) (service muc) (room muc) (rjid muc) (nick muc) (pass muc)
    (status muc) (room_type muc) m (muc_state muc) (role muc) (affiliation muc) (handlers muc).

Definition wocky_muc_new (jid usr : string) : WockyMuc :=
  set_jid jid (mkWockyMuc usr jid None None "" None None None 0 ∅ MUC_CREATED ROLE_NONE
                 AFFILIATION_NONE false).

(** Our own presence: nick, status, role, affiliation and kind of room. *)
Definition own_presence (nk : option string) (r : WockyMucRole) (a : WockyMucAffiliation)
    (st : option string) (codes : Z) (muc : WockyMuc) : WockyMuc :=
  mkWockyMuc (user muc)
    (if bool_decide (nick muc = nk) then muc_jid muc
     else printed (room muc) +:+ "@" +:+ printed (service muc) +:+ "/" +:+ printed nk)
    (service muc) (room muc) (rjid muc) nk (pass muc) st (presence_features (room_type muc) codes)
    (members muc) (muc_state muc) r a (handlers muc).

(** *** Signals *)

Context {S : Type} (get_muc : M S WockyMuc) (put_muc : WockyMuc → M S unit).
Context (g_signal_emit : WockyMucSig → M S unit) (fill_presence : WockyNode → M S WockyNode).

Definition handle_self_presence (stanza : WockyNode) (nk : option string) (r : WockyMucRole)
    (aff : WockyMucAffiliation) (actor reason st : option string) (codes : Z) : M S unit :=
  muc ← get_muc;
  let nick_update := negb (bool_decide (nick muc = nk)) in
  let permission_update := negb (bool_decide (role muc = r)) || negb (bool_decide (affiliation muc = aff)) in
  put_muc (own_presence nk r aff st codes muc) ;;
  when nick_update (g_signal_emit (SIG_NICK_CHANGE stanza codes)) ;;
  when permission_update (g_signal_emit (SIG_PERM_CHANGE stanza codes actor reason)).

Definition handle_user_presence (stanza : WockyNode) (from : string) (jid nk : option string)
    (r : WockyMucRole) (aff : WockyMucAffiliation) (st : option string) (codes : Z) : M S bool :=
  match nk with
  | None => mret false
  | Some _ =>
      muc ← get_muc;
      let member := mkMember from jid nk r aff st (Some stanza) in
      put_muc (with_members (<[from := member]> (members muc)) muc) ;;
      when (state_number MUC_JOINED <=? state_number (muc_state muc))
        (g_signal_emit (SIG_PRESENCE stanza codes member)) ;;
      mret true
  end.

Definition handle_presence_standard (stanza : WockyNode) (available : bool)
    (from : string) (resource : option string) : M S bool :=
  let msg := wocky_node_get_child stanza "status" ≫= content in
  match wocky_node_get_child_ns stanza (Some "x") (Some WOCKY_NS_MUC_USER) with
  | None => mret false
  | Some x =>
      muc ← get_muc;
      let item := parse_item x in
      let nk := match pnic item with Some n => Some n | None => resource end in
      let codes := extract_status_codes x in
      let codes := if bool_decide (muc_jid muc = from) || bool_decide (Some (user muc) = pjid item)
                   then Z.lor codes WOCKY_MUC_CODE_OWN_PRESENCE else codes in
      let self_presence := has_code codes WOCKY_MUC_CODE_OWN_PRESENCE in
      if available then
        if self_presence then
          handle_self_presence stanza nk (it_role item) (it_aff item) (ajid item) (why item) msg codes ;;
          muc ← get_muc;
          (if state_number (muc_state muc) <? state_number MUC_JOINED then
             put_muc (with_state MUC_JOINED (role muc) (handlers muc) muc) ;;
             g_signal_emit (SIG_JOINED stanza codes)
           else g_signal_emit (SIG_OWN_PRESENCE stanza codes)) ;;
          mret false
        else
          handle_user_presence stanza from (pjid item) nk (it_role item) (it_aff item) msg codes
      else if self_presence then
        put_muc (with_state MUC_ENDED ROLE_NONE (handlers muc) muc) ;;
        g_signal_emit (SIG_PARTED stanza codes (ajid item) (why item) msg) ;;
        mret true
      else
        match members muc !! from with
        | None => mret false
        | Some member =>
            g_signal_emit (SIG_LEFT stanza codes member (ajid item) (why item) msg) ;;
            muc ← get_muc;
            put_muc (with_members (delete from (members muc)) muc) ;;
            mret true
        end
  end.

(** The presence handler; [None] as a sender is not given to it. *)
Definition handle_presence (stanza : WockyNode) : M S bool :=
  match wocky_node_get_attribute stanza "from" with
  | None => mret true
  | Some from =>
      match wocky_node_get_attribute stanza "type" with
      | None =>
          match wocky_decode_jid g_utf8_strdown from with
          | None => mret true
          | Some (_, _, resource) => handle_presence_standard stanza true from resource
          end
      | Some t =>
          if bool_decide (t = "unavailable") then
            match wocky_decode_jid g_utf8_strdown from with
            | None => mret true
            | Some (_, _, resource) => handle_presence_standard stanza false from resource
            end
          else if bool_decide (t = "error") then
            match wocky_stanza_extract_errors error_domains stanza with
            | Some error => g_signal_emit (SIG_PRESENCE_ERROR stanza error) ;; mret false
            | None => mret false
            end
          else mret false
      end
  end.

(** [normalise] is [wocky_normalise_jid]; the porter gives no stanza for which
    it is NULL, which is empty here. *)
Definition get_message_sender (normalise : string → option string) (from : string) :
    M S WockyMucMember :=
  muc ← get_muc;
  match members muc !! from with
  | Some who => mret who
  | None =>
      let nfrom := normalise from in
      if bool_decide (nfrom = Some (muc_jid muc)) then
        mret (mkMember (muc_jid muc) (Some (user muc)) (nick muc) (role muc) (affiliation muc) None None)
      else mret (mkMember (default EmptyString nfrom) None None ROLE_NONE AFFILIATION_NONE None None)
  end.

Definition handle_message (normalise : string → option string) (msg : WockyNode) : M S bool :=
  let id := wocky_node_get_attribute msg "id" in
  let body := wocky_node_get_child msg "body" ≫= content in
  let subj := wocky_node_get_child msg "subject" ≫= content in
  let sub_type := wocky_node_get_attribute msg "type" in
  match wocky_node_get_attribute msg "from" with
  | None => fail MemoryFault
  | Some from =>
      let member := strchr from "/" in
      who ← if member then who ← get_message_sender normalise from; mret (Some who) else mret None;
      if member && negb (bool_decide (sub_type = Some "groupchat")) then mret false
      else
        let '(mtype, body) := determine_message_type body sub_type in
        match wocky_stanza_extract_errors error_domains msg with
        | Some error =>
            g_signal_emit (SIG_MSG_ERR msg mtype id (extract_timestamp msg) who body error) ;; mret true
        | None =>
            g_signal_emit (SIG_MSG msg mtype id (extract_timestamp msg) who body subj
                             (extract_chat_state msg)) ;;
            mret true
        end
  end.

(** *** Sending *)

(** A presence to the room; the handler of "fill-presence" fills it when there
    is no status. *)
Definition wocky_muc_create_presence (unavailable : bool) (st : option string) : M S WockyNode :=
  muc ← get_muc;
  let stanza := mkNode "presence" None (Some "jabber:client")
    ((if unavailable then [mkAttribute "type" "unavailable" None] else []) ++
     [mkAttribute "from" (user muc) None; mkAttribute "to" (muc_jid muc) None]) [] in
  g_assert (bool_decide (st = None) || unavailable) ;;
  match st with
  | Some s => mret (wocky_node_add_child_with_content stanza "status" (Some s))
  | None => fill_presence stanza
  end.

(** The presence to be sent. *)
Definition wocky_muc_join : M S WockyNode :=
  presence ← wocky_muc_create_presence false None;
  muc ← get_muc;
  let x := mkNode "x" None (Some WOCKY_NS_MUC) [] [] in
  let x := match pass muc with
           | Some p => wocky_node_add_child_with_content x "password" (Some p)
           | None => x
           end in
  put_muc (with_state MUC_INITIATED (role muc)
    (handlers muc || (state_number (muc_state muc) <? state_number MUC_INITIATED)) muc) ;;
  mret (set_children presence (children presence ++ [x])).

End wocky.
End WockyMuc.
