(* ===== verification/MucChannel.v ===== *)
(** * Chat rooms (src/muc-channel.c)

    The channel of one chat room: joining with its passwords and nickname
    conflicts, the occupants, messages and subjects, the configuration of the
    room, leaving and closing.  The protocol below is [WockyMuc], whose
    signals the functions here handle.  The sets of members belong to
    telepathy-glib's TpGroupMixin, a class with its laws.

    The channel lives for as long as its factory, an operation in flight or a
    running function refers to it; the timers of the main loop point to it
    without a reference.  A handle stands for its identifier, the empty
    string for the handle 0.  Of the tubes and calls of the room there is
    only whether there are any. *)

From Stdlib Require String.
From S2P Require Import Prelude Node Namespaces Jid XmppError MessageUtil WockyMuc.

(** ** The group *)

Record GroupChange := mkChange {
  add : gset string;
  del : gset string;
  add_local_pending : gset string;
  add_remote_pending : gset string;
}.

Class TpGroupMixin (G : Type) := {
  tp_group_mixin_init : string → G;
  self_handle : G → string;
  group_members : G → gset string;
  local_pending : G → gset string;
  remote_pending : G → gset string;
  tp_group_mixin_change_self_handle : G → string → G;
  tp_group_mixin_change_members : G → GroupChange → G;
}.

Class TpGroupMixinLaws (G : Type) `{TpGroupMixin G} := {
  self_init h : self_handle (tp_group_mixin_init h) = h;
  members_init h : group_members (tp_group_mixin_init h) = ∅;
  local_init h : local_pending (tp_group_mixin_init h) = ∅;
  remote_init h : remote_pending (tp_group_mixin_init h) = ∅;
  self_change g h : self_handle (tp_group_mixin_change_self_handle g h) = h;
  members_change_self g h :
    group_members (tp_group_mixin_change_self_handle g h) = group_members g;
  local_change_self g h :
    local_pending (tp_group_mixin_change_self_handle g h) = local_pending g;
  remote_change_self g h :
    remote_pending (tp_group_mixin_change_self_handle g h) = remote_pending g;
  self_change_members g c : self_handle (tp_group_mixin_change_members g c) = self_handle g;
  members_change g c :
    group_members (tp_group_mixin_change_members g c) =
    (group_members g ∪ add c) ∖ (del c ∪ add_local_pending c ∪ add_remote_pending c);
  local_change g c :
    local_pending (tp_group_mixin_change_members g c) =
    (local_pending g ∪ add_local_pending c) ∖ (add c ∪ del c ∪ add_remote_pending c);
  remote_change g c :
    remote_pending (tp_group_mixin_change_members g c) =
    (remote_pending g ∪ add_remote_pending c) ∖ (add c ∪ del c ∪ add_local_pending c);
}.

Module MucChannel.
Import Jid XmppError MessageUtil WockyMuc.

(** ** Data *)

Definition MAX_NICK_RETRIES : Z := 3.
Definition G_MAXINT64 : Z := 2 ^ 63 - 1.

(** In the order of their numbers. *)
Inductive GabbleMucState :=
  MUC_STATE_CREATED | MUC_STATE_INITIATED | MUC_STATE_AUTH | MUC_STATE_JOINED | MUC_STATE_ENDED.
#[global] Instance GabbleMucState_eq_dec : EqDecision GabbleMucState.
Proof. solve_decision. Defined.

Definition muc_state_number (s : GabbleMucState) : Z :=
  match s with
  | MUC_STATE_CREATED => 0 | MUC_STATE_INITIATED => 1 | MUC_STATE_AUTH => 2
  | MUC_STATE_JOINED => 3 | MUC_STATE_ENDED => 4
  end.

Inductive ChangeReason := REASON_NONE | REASON_BANNED | REASON_BUSY | REASON_KICKED
  | REASON_INVITED | REASON_RENAMED.

Inductive GValue := G_BOOLEAN (b : bool) | G_STRING (s : string).

Inductive TpBaseRoomConfigProperty :=
  CONFIG_ANONYMOUS | CONFIG_INVITE_ONLY | CONFIG_LIMIT | CONFIG_MODERATED | CONFIG_TITLE
| CONFIG_DESCRIPTION | CONFIG_PERSISTENT | CONFIG_PRIVATE | CONFIG_PASSWORD_PROTECTED
| CONFIG_PASSWORD | CONFIG_PASSWORD_HINT.
#[global] Instance TpBaseRoomConfigProperty_eq_dec : EqDecision TpBaseRoomConfigProperty.
Proof. solve_decision. Defined.

(** The table of the properties to be changed. *)
Abbreviation Properties := (list (TpBaseRoomConfigProperty * GValue)).

(** [tubes_or_calls]: a tube or a call of the room is open or being made.
    [registered] and [destroyed] belong to the base class. *)
Record Life := mkLife {
  muc_channel_state : GabbleMucState;
  closing : bool;
  autoclose : bool;
  ready : bool;
  registered : bool;
  destroyed : bool;
  tubes_or_calls : bool;
}.

Record Timers := mkTimers {
  join_timer_id : option nat;
  poll_timer_id : option nat;
  leave_timer_id : option nat;
}.

Record Password := mkPassword {
  must_provide_password : bool;
  password_ctx : option nat;
}.

Record Identity := mkIdentity {
  nick_retry_count : Z;
  self_jid : string;
  self_role : WockyMucRole;
  self_affil : WockyMucAffiliation;
}.

Record Subject := mkSubject {
  subject : option string;
  subject_actor : option string;
  subject_timestamp : Z;
  set_subject_context : option nat;
  set_subject_stanza_id : option string;
}.

Record GabbleMucChannel (G : Type) := mkMuc {
  jid : string;
  invited : bool;
  life : Life;
  timers : Timers;
  password : Password;
  identity : Identity;
  subj : Subject;
  properties_being_updated : option Properties;
  have_received_error_type_wait : bool;
  wmuc : WockyMuc.WockyMuc;
  group : G;
}.
Arguments mkMuc {G}.
Arguments jid {G}.
Arguments invited {G}.
Arguments life {G}.
Arguments timers {G}.
Arguments password {G}.
Arguments identity {G}.
Arguments subj {G}.
Arguments properties_being_updated {G}.
Arguments have_received_error_type_wait {G}.
Arguments wmuc {G}.
Arguments group {G}.

Inductive Timer := TIMER_JOIN | TIMER_POLL | TIMER_LEAVE.
#[global] Instance Timer_eq_dec : EqDecision Timer.
Proof. solve_decision. Defined.

(** What is in flight and has a reference to the channel. *)
Inductive Operation :=
  | SendingMessage (message : TpMessage) (token : string)
  | SendingSubject
  | PermsConfigForm
  | RequestConfigForm (result : nat)
  | SubmitConfigForm (result : nat).

(** A text of the room. *)
Record MucText := mkMucText {
  mt_sender : option string;
  mt_type : TpChannelTextMessageType;
  mt_stamp : Z;
  mt_scrollback : bool;
  mt_text : string;
  mt_token : option string;
}.

Inductive MucReceived :=
  | MucMessage (t : MucText)
  | MucReport (token : string) (status : TpDeliveryStatus) (delivery_token : option string)
      (error : option (TpChannelTextSendError * option string)) (echo : MucText).

Inductive JoinErrorKind :=
  JOIN_BANNED | JOIN_FULL | JOIN_INVITE_ONLY | JOIN_NICK_IN_USE | JOIN_NOT_AVAILABLE.

Inductive muc_event :=
  | SendStanza (stanza : WockyNode)
  | SendAsync (op : nat) (stanza : WockyNode)
  | SendKick (stanza : WockyNode)
  | DiscoInfo (jid : string)
  | GroupChanged (message : option string) (change : GroupChange) (actor : string)
      (reason : ChangeReason)
  | GroupFlags (added removed : Z)
  | HandleOwner (handle owner : string)
  | ChatStateChanged (contact : string) (state : TpChannelChatState)
  | Received (m : MucReceived)
  | MessageSent (message : TpMessage) (token : option string)
  | PasswordFlags (must_provide : bool)
  | PasswordReturn (ctx : nat) (success : bool)
  | PasswordError (ctx : nat)
  | SubjectReturn (ctx : nat) (success : bool)
  | SubjectChanged
  | Ready (registered : bool)
  | JoinError (kind : JoinErrorKind)
  | Closed (registered destroyed : bool)
  | Reopened (initiator : string)
  | PrePresence (stanza : WockyNode)
  | PreInvite (jid : string)
  | ContactJoin (owner : string)
  | PresenceUpdate (handle : string)
  | PresenceMessage (handle from : string) (stanza : WockyNode)
  | PresencesForgotten (handles : gset string)
  | ConfigSet (property : string) (value : GValue)
  | ConfigRetrieved
  | ConfigCanUpdate (b : bool)
  | ConfigDescriptionMutable
  | ConfigChanged
  | ConfigReturn (result : nat) (success : bool).

Record World (G : Type) := mkWorld {
  chan : option (GabbleMucChannel G);
  contacts : gset string;
  sources : gmap nat Timer;
  next_source : nat;
  in_factory : bool;
  held : nat;
  operations : gmap nat Operation;
  next_operation : nat;
  events : list muc_event;
}.
Arguments mkWorld {G}.
Arguments chan {G}.
Arguments contacts {G}.
Arguments sources {G}.
Arguments next_source {G}.
Arguments in_factory {G}.
Arguments held {G}.
Arguments operations {G}.
Arguments next_operation {G}.
Arguments events {G}.

(** What is read of the connection: ourselves, what our presence puts into a
    stanza ([gabble_presence_add_status_and_vcard] of [Presence]), what the
    open tubes publish, and the numbers that contacts and rooms have as
    handles, each in a repository of its own. *)
Record Env := mkEnv {
  own_contact : string;
  own_full_jid : string;
  add_status_and_vcard : WockyNode → WockyNode;
  self_hidden : bool;
  published_tubes : list WockyNode;
  generated_id : string;
  new_stanza_id : string;
  own_nick : option string;
  contact_number : string → Z;
  room_number : string → Z;
}.

Section muc.
Context {G : Type} `{TpGroupMixin G}.
Context (g_utf8_strdown g_utf8_normalize : string → string) (from_iso8601 : string → option Z).
Context (error_domains : list WockyXmppErrorDomain).

Local Notation Chan := (GabbleMucChannel G).
Local Notation W := (World G).
Local Notation MW := (M (World G)).

(** *** State *)

Definition emit (e : muc_event) : MW unit := modify (λ s,
  mkWorld (chan s) (contacts s) (sources s) (next_source s) (in_factory s) (held s) (operations s)
    (next_operation s) (events s ++ [e])).
Definition set_chan (c : option Chan) : MW unit := modify (λ s,
  mkWorld c (contacts s) (sources s) (next_source s) (in_factory s) (held s) (operations s)
    (next_operation s) (events s)).
Definition put_contacts (c : gset string) : MW unit := modify (λ s,
  mkWorld (chan s) c (sources s) (next_source s) (in_factory s) (held s) (operations s)
    (next_operation s) (events s)).
Definition put_sources (m : gmap nat Timer) (n : nat) : MW unit := modify (λ s,
  mkWorld (chan s) (contacts s) m n (in_factory s) (held s) (operations s) (next_operation s)
    (events s)).
Definition put_refs (f : bool) (h : nat) : MW unit := modify (λ s,
  mkWorld (chan s) (contacts s) (sources s) (next_source s) f h (operations s) (next_operation s)
    (events s)).
Definition put_operations (m : gmap nat Operation) (n : nat) : MW unit := modify (λ s,
  mkWorld (chan s) (contacts s) (sources s) (next_source s) (in_factory s) (held s) m n (events s)).

(** A pointer to a channel that was freed faults. *)
Definition get_chan : MW Chan :=
  s ← get;
  match chan s with Some ch => mret ch | None => fail MemoryFault end.
Definition change (f : Chan → Chan) : MW unit :=
  ch ← get_chan; set_chan (Some (f ch)).

Definition with_life (l : Life) (ch : Chan) : Chan :=
  mkMuc (jid ch) (invited ch) l (timers ch) (password ch) (identity ch) (subj ch)
    (properties_being_updated ch) (have_received_error_type_wait ch) (wmuc ch) (group ch).
Definition with_timers (t : Timers) (ch : Chan) : Chan :=
  mkMuc (jid ch) (invited ch) (life ch) t (password ch) (identity ch) (subj ch)
    (properties_being_updated ch) (have_received_error_type_wait ch) (wmuc ch) (group ch).
Definition with_password (p : Password) (ch : Chan) : Chan :=
  mkMuc (jid ch) (invited ch) (life ch) (timers ch) p (identity ch) (subj ch)
    (properties_being_updated ch) (have_received_error_type_wait ch) (wmuc ch) (group ch).
Definition with_identity (i : Identity) (ch : Chan) : Chan :=
  mkMuc (jid ch) (invited ch) (life ch) (timers ch) (password ch) i (subj ch)
    (properties_being_updated ch) (have_received_error_type_wait ch) (wmuc ch) (group ch).
Definition with_subject (u : Subject) (ch : Chan) : Chan :=
  mkMuc (jid ch) (invited ch) (life ch) (timers ch) (password ch) (identity ch) u
    (properties_being_updated ch) (have_received_error_type_wait ch) (wmuc ch) (group ch).
Definition with_properties (p : option Properties) (ch : Chan) : Chan :=
  mkMuc (jid ch) (invited ch) (life ch) (timers ch) (password ch) (identity ch) (subj ch)
    p (have_received_error_type_wait ch) (wmuc ch) (group ch).
Definition with_wait (b : bool) (ch : Chan) : Chan :=
  mkMuc (jid ch) (invited ch) (life ch) (timers ch) (password ch) (identity ch) (subj ch)
    (properties_being_updated ch) b (wmuc ch) (group ch).
Definition with_wmuc (w : WockyMuc.WockyMuc) (ch : Chan) : Chan :=
  mkMuc (jid ch) (invited ch) (life ch) (timers ch) (password ch) (identity ch) (subj ch)
    (properties_being_updated ch) (have_received_error_type_wait ch) w (group ch).
Definition with_group (g : G) (ch : Chan) : Chan :=
  mkMuc (jid ch) (invited ch) (life ch) (timers ch) (password ch) (identity ch) (subj ch)
    (properties_being_updated ch) (have_received_error_type_wait ch) (wmuc ch) g.

Definition live_state (st : GabbleMucState) (l : Life) : Life :=
  mkLife st (closing l) (autoclose l) (ready l) (registered l) (destroyed l) (tubes_or_calls l).
Definition live_closing (l : Life) : Life :=
  mkLife (muc_channel_state l) true (autoclose l) (ready l) (registered l) (destroyed l)
    (tubes_or_calls l).
Definition live_autoclose (b : bool) (l : Life) : Life :=
  mkLife (muc_channel_state l) (closing l) b (ready l) (registered l) (destroyed l)
    (tubes_or_calls l).
Definition live_ready (l : Life) : Life :=
  mkLife (muc_channel_state l) (closing l) (autoclose l) true (registered l) (destroyed l)
    (tubes_or_calls l).
Definition live_registered (b : bool) (l : Life) : Life :=
  mkLife (muc_channel_state l) (closing l) (autoclose l) (ready l) b (destroyed l)
    (tubes_or_calls l).
Definition live_destroyed (l : Life) : Life :=
  mkLife (muc_channel_state l) (closing l) (autoclose l) (ready l) false true (tubes_or_calls l).
Definition live_tubes (b : bool) (l : Life) : Life :=
  mkLife (muc_channel_state l) (closing l) (autoclose l) (ready l) (registered l) (destroyed l) b.

Definition change_life (f : Life → Life) : MW unit := change (λ ch, with_life (f (life ch)) ch).

(** *** The main loop and telepathy-glib *)

Definition g_timeout_add (t : Timer) : MW nat :=
  s ← get;
  put_sources (<[next_source s := t]> (sources s)) (S (next_source s)) ;;
  mret (next_source s).
Definition g_source_remove (id : nat) : MW unit :=
  s ← get; put_sources (delete id (sources s)) (next_source s).

(** [tp_handle_ensure]; the empty string when the identifier is invalid. *)
Definition tp_handle_ensure (id : string) (mode : GabbleNormalizeContactJIDMode) : MW string :=
  s ← get;
  match gabble_normalize_contact g_utf8_strdown g_utf8_normalize
          (Some (λ n, bool_decide (n ∈ contacts s))) id mode with
  | Some n => put_contacts ({[n]} ∪ contacts s) ;; mret n
  | None => mret EmptyString
  end.

(** A set with a handle; the handle 0 is not put into sets. *)
Definition containing (handle : string) : gset string :=
  if is_empty handle then ∅ else {[handle]}.

Definition change_members (message : option string) (c : GroupChange) (actor : string)
    (reason : ChangeReason) : MW unit :=
  change (λ ch, with_group (tp_group_mixin_change_members (group ch) c) ch) ;;
  emit (GroupChanged message c actor reason).

(** *** Timers *)

Definition clear_join_timer : MW unit :=
  ch ← get_chan;
  match join_timer_id (timers ch) with
  | Some id =>
      g_source_remove id ;;
      change (λ ch, with_timers (mkTimers None (poll_timer_id (timers ch)) (leave_timer_id (timers ch))) ch)
  | None => mret tt
  end.
Definition clear_poll_timer : MW unit :=
  ch ← get_chan;
  match poll_timer_id (timers ch) with
  | Some id =>
      g_source_remove id ;;
      change (λ ch, with_timers (mkTimers (join_timer_id (timers ch)) None (leave_timer_id (timers ch))) ch)
  | None => mret tt
  end.
Definition clear_leave_timer : MW unit :=
  ch ← get_chan;
  match leave_timer_id (timers ch) with
  | Some id =>
      g_source_remove id ;;
      change (λ ch, with_timers (mkTimers (join_timer_id (timers ch)) (poll_timer_id (timers ch)) None) ch)
  | None => mret tt
  end.

(** *** The life of the object *)

Definition gabble_muc_channel_dispose : MW unit :=
  clear_join_timer ;; clear_poll_timer ;; clear_leave_timer ;; set_chan None.

(** [g_object_unref], after a reference was dropped. *)
Definition unref : MW unit :=
  s ← get;
  if in_factory s || (0 <? held s)%nat || negb (bool_decide (operations s = ∅)) then mret tt
  else gabble_muc_channel_dispose.

(** Says it is closed; the factory lets go of it
    ([muc_channel_closed_cb] of muc-factory.c).  The signals [Ready] and
    [Closed] have with them what the factory reads of the channel then. *)
Definition tp_base_channel_destroyed : MW unit :=
  ch ← get_chan;
  change_life live_destroyed ;;
  emit (Closed (registered (life ch)) true) ;;
  s ← get; put_refs false (held s) ;;
  unref.

(** Off the bus, but alive. *)
Definition tp_base_channel_disappear : MW unit :=
  ch ← get_chan;
  change_life (live_registered false) ;; emit (Closed (registered (life ch)) false).

Definition tp_base_channel_reopened_with_requested (initiator : string) : MW unit :=
  change_life (live_registered true) ;; emit (Reopened initiator).

Definition gabble_muc_channel_can_be_closed (ch : Chan) : bool := negb (tubes_or_calls (life ch)).

(** *** Passwords *)

Definition change_must_provide_password (must : bool) : MW unit :=
  ch ← get_chan;
  if bool_decide (must_provide_password (password ch) = must) then mret tt
  else
    change (λ ch, with_password (mkPassword must (password_ctx (password ch))) ch) ;;
    emit (PasswordFlags must).

Definition provide_password_return_if_pending (success : bool) : MW unit :=
  ch ← get_chan;
  match password_ctx (password ch) with
  | Some ctx =>
      emit (PasswordReturn ctx success) ;;
      change (λ ch, with_password (mkPassword (must_provide_password (password ch)) None) ch)
  | None => mret tt
  end ;;
  when success (change_must_provide_password false).

(** *** States *)

Definition channel_state_changed (new_state : GabbleMucState) : MW unit :=
  match new_state with
  | MUC_STATE_INITIATED =>
      id ← g_timeout_add TIMER_JOIN;
      change (λ ch, with_timers (mkTimers (Some id) (poll_timer_id (timers ch)) (leave_timer_id (timers ch))) ch)
  | MUC_STATE_JOINED =>
      provide_password_return_if_pending true ;;
      clear_join_timer ;;
      id ← g_timeout_add TIMER_POLL;
      change (λ ch, with_timers (mkTimers (join_timer_id (timers ch)) (Some id) (leave_timer_id (timers ch))) ch)
  | MUC_STATE_ENDED => clear_poll_timer
  | _ => mret tt
  end ;;
  match new_state with
  | MUC_STATE_JOINED | MUC_STATE_AUTH =>
      ch ← get_chan;
      when (negb (ready (life ch))) (emit (Ready (registered (life ch))) ;; change_life live_ready)
  | _ => mret tt
  end.

(** The property "state". *)
Definition set_state (st : GabbleMucState) : MW unit :=
  ch ← get_chan;
  let prev_state := muc_channel_state (life ch) in
  change_life (live_state st) ;;
  when (negb (bool_decide (st = prev_state))) (channel_state_changed st).

(** *** Presences that are sent *)

Definition tube_pre_presence (env : Env) (stanza : WockyNode) : WockyNode :=
  set_children stanza
    (children stanza ++ [mkNode "tubes" None (Some NS_TUBES) [] (published_tubes env)]).

Definition handle_fill_presence (env : Env) (stanza : WockyNode) : MW WockyNode :=
  ch ← get_chan;
  handle ← tp_handle_ensure (self_jid (identity ch)) GABBLE_JID_ROOM_MEMBER;
  let stanza := add_status_and_vcard env stanza in
  let stanza := if self_hidden env then wocky_node_add_child_with_content stanza "show" (Some "dnd")
                else stanza in
  emit (PresenceUpdate handle) ;;
  let stanza := tube_pre_presence env stanza in
  emit (PrePresence stanza) ;;
  mret stanza.

Definition get_muc : MW WockyMuc.WockyMuc := ch ← get_chan; mret (wmuc ch).
Definition put_muc (w : WockyMuc.WockyMuc) : MW unit := change (with_wmuc w).

Definition send_join_request (env : Env) : MW unit :=
  stanza ← wocky_muc_join get_muc put_muc (handle_fill_presence env);
  emit (SendStanza stanza).

Definition send_leave_message (env : Env) (reason : option string) : MW unit :=
  stanza ← wocky_muc_create_presence get_muc (handle_fill_presence env) true reason;
  let stanza := tube_pre_presence env stanza in
  emit (PrePresence stanza) ;;
  emit (SendStanza stanza) ;;
  id ← g_timeout_add TIMER_LEAVE;
  change (λ ch, with_timers (mkTimers (join_timer_id (timers ch)) (poll_timer_id (timers ch)) (Some id)) ch).

Definition gabble_muc_channel_send_presence (env : Env) : MW unit :=
  ch ← get_chan;
  if muc_state_number (muc_channel_state (life ch)) <? muc_state_number MUC_STATE_INITIATED
  then mret tt
  else
    stanza ← wocky_muc_create_presence get_muc (handle_fill_presence env) false None;
    emit (SendStanza stanza).

(** *** Closing *)

Definition return_from_set_subject (success : bool) : MW unit :=
  ch ← get_chan;
  match set_subject_context (subj ch) with
  | Some ctx => emit (SubjectReturn ctx success)
  | None => mret tt
  end ;;
  change (λ ch, with_subject (mkSubject (subject (subj ch)) (subject_actor (subj ch))
    (subject_timestamp (subj ch)) None None) ch).

Definition close_channel (env : Env) (reason : option string) (inform_muc : bool) (actor : string)
    (reason_code : ChangeReason) : MW unit :=
  ch ← get_chan;
  if destroyed (life ch) then mret tt
  else if closing (life ch) && negb inform_muc then
    clear_leave_timer ;; tp_base_channel_destroyed
  else if inform_muc && negb (gabble_muc_channel_can_be_closed ch) then
    change_life (live_autoclose true) ;; tp_base_channel_disappear
  else
    s ← get; put_refs (in_factory s) (S (held s)) ;;
    change_life (live_tubes false) ;;
    change_members reason (mkChange ∅ (containing (self_handle (group ch))) ∅ ∅) actor reason_code ;;
    (if inform_muc &&
        (muc_state_number MUC_STATE_INITIATED <=? muc_state_number (muc_channel_state (life ch))) &&
        negb (bool_decide (muc_channel_state (life ch) = MUC_STATE_AUTH))
     then send_leave_message env reason ;; change_life live_closing
     else tp_base_channel_destroyed) ;;
    ch ← get_chan;
    emit (PresencesForgotten (group_members (group ch))) ;;
    when (bool_decide (is_Some (set_subject_context (subj ch)))) (return_from_set_subject false) ;;
    set_state MUC_STATE_ENDED ;;
    s ← get; put_refs (in_factory s) (pred (held s)) ;;
    unref.

Definition gabble_muc_channel_close (env : Env) : MW unit :=
  close_channel env None true EmptyString REASON_NONE.

Definition gabble_muc_channel_teardown (env : Env) : MW unit :=
  close_channel env None false EmptyString REASON_NONE.

(** A tube of the room was closed, the [last] one or another.  It gives us a
    reference to the channel, which is not dropped. *)
Definition muc_sub_channel_closed_cb (env : Env) (last : bool) : MW unit :=
  change_life (live_tubes (negb last)) ;;
  s ← get; put_refs (in_factory s) (S (held s)) ;;
  ch ← get_chan;
  when (gabble_muc_channel_can_be_closed ch && autoclose (life ch)) (gabble_muc_channel_close env).

Definition timeout_leave : MW unit := get_chan ;; tp_base_channel_destroyed.

Definition timeout_join (env : Env) : MW unit :=
  provide_password_return_if_pending false ;;
  close_channel env None false EmptyString REASON_NONE.

(** *** The room's properties *)

Definition room_properties_update : MW unit := ch ← get_chan; emit (DiscoInfo (jid ch)).

Definition timeout_poll : MW unit := room_properties_update.

(** [config_property_name] is empty for the namespace, which is ignored. *)
Definition features : list (string * string * bool) :=
  [("muc_nonanonymous", "anonymous", false); ("muc_semianonymous", "anonymous", true);
   ("muc_anonymous", "anonymous", true);
   ("muc_open", "invite-only", false); ("muc_membersonly", "invite-only", true);
   ("muc_unmoderated", "moderated", false); ("muc_moderated", "moderated", true);
   ("muc_unsecure", "password-protected", false); ("muc_unsecured", "password-protected", false);
   ("muc_passwordprotected", "password-protected", true);
   ("muc_temporary", "persistent", false); ("muc_persistent", "persistent", true);
   ("muc_public", "private", false); ("muc_hidden", "private", true);
   (WOCKY_NS_MUC, EmptyString, false)].

Definition lookup_feature (var : string) : option (string * string * bool) :=
  List.find (λ f, bool_decide (f.1.1 = var)) features.

Definition map_feature (feature : WockyNode) : option (string * GValue) :=
  var ← wocky_node_get_attribute feature "var";
  f ← lookup_feature var;
  if is_empty f.1.2 then None else Some (f.1.2, G_BOOLEAN f.2).

Definition handle_form (x : WockyNode) : option (string * GValue) :=
  field ← List.find (λ f, bool_decide (name f = "field") &&
                          bool_decide (wocky_node_get_attribute f "var" = Some "muc#roominfo_description"))
            (children x);
  Some ("description", G_STRING (default EmptyString (wocky_node_get_content_from_child field "value"))).

Definition NS_X_DATA : string := "jabber:x:data".

Definition room_property (child : WockyNode) : option (string * GValue) :=
  if bool_decide (name child = "feature") then map_feature child
  else if bool_decide (name child = "x") && bool_decide (ns child = Some NS_X_DATA)
  then handle_form child
  else None.

Definition room_title (query_result : WockyNode) : option string :=
  identity ← wocky_node_get_child query_result "identity";
  if bool_decide (wocky_node_get_attribute identity "category" = Some "conference") &&
     bool_decide (wocky_node_get_attribute identity "type" = Some "text")
  then wocky_node_get_attribute identity "name"
  else None.

Definition properties_disco_cb (query_result : option WockyNode) : MW unit :=
  get_chan ;;
  match query_result with
  | None => mret tt
  | Some q =>
      match room_title q with
      | Some n => emit (ConfigSet "title" (G_STRING n))
      | None => mret tt
      end ;;
      for_each (children q) (λ child,
        match room_property child with
        | Some (p, v) => emit (ConfigSet p v)
        | None => mret tt
        end) ;;
      emit ConfigRetrieved
  end.

(** *** Permissions *)

Definition start_operation (o : Operation) (stanza : WockyNode) : MW unit :=
  s ← get;
  put_operations (<[next_operation s := o]> (operations s)) (S (next_operation s)) ;;
  emit (SendAsync (next_operation s) stanza).

Definition finish_operation (id : nat) : MW unit :=
  s ← get; put_operations (delete id (operations s)) (next_operation s) ;; unref.

Definition owner_query (room : string) : WockyNode :=
  mkNode "iq" None (Some "jabber:client")
    [mkAttribute "type" "get" None; mkAttribute "to" room None]
    [mkNode "query" None (Some WOCKY_NS_MUC_OWNER) [] []].

Definition owner_submit (room : string) (fields : list WockyNode) : WockyNode :=
  mkNode "iq" None (Some "jabber:client")
    [mkAttribute "type" "set" None; mkAttribute "to" room None]
    [mkNode "query" None (Some WOCKY_NS_MUC_OWNER) []
       [mkNode "x" None (Some NS_X_DATA) [mkAttribute "type" "submit" None] fields]].

Definition GROUP_FLAG_CAN_ADD : Z := 1.
Definition GROUP_FLAG_CAN_REMOVE : Z := 2.
Definition GROUP_FLAG_MESSAGE_ADD : Z := 8.
Definition GROUP_FLAG_MESSAGE_REMOVE : Z := 16.
Definition GROUP_FLAG_HANDLE_OWNERS_NOT_AVAILABLE : Z := 1024.

Definition update_permissions : MW unit :=
  ch ← get_chan;
  let moderator := bool_decide (self_role (identity ch) = ROLE_MODERATOR) in
  let rm := Z.lor GROUP_FLAG_CAN_REMOVE GROUP_FLAG_MESSAGE_REMOVE in
  let ad := Z.lor GROUP_FLAG_CAN_ADD GROUP_FLAG_MESSAGE_ADD in
  emit (GroupFlags (if moderator then Z.lor ad rm else ad) (if moderator then 0 else rm)) ;;
  let owner := bool_decide (self_affil (identity ch) = AFFILIATION_OWNER) in
  emit (ConfigCanUpdate owner) ;;
  emit ConfigChanged ;;
  when owner (start_operation PermsConfigForm (owner_query (jid ch))).

Definition config_form_get_form_node (stanza : WockyNode) : option WockyNode :=
  query ← wocky_node_get_child stanza "query";
  List.find (λ x, bool_decide (name x = "x") && bool_decide (ns x = Some NS_X_DATA) &&
                  bool_decide (wocky_node_get_attribute x "type" = Some "form"))
    (children query).

(** [reply]: [None] when the IQ failed. *)
Definition perms_config_form_reply_cb (id : nat) (reply : option WockyNode) : MW unit :=
  ch ← get_chan;
  (if bool_decide (self_affil (identity ch) = AFFILIATION_OWNER) then
     match reply ≫= config_form_get_form_node with
     | None => mret tt
     | Some form_node =>
         when (existsb (λ f, bool_decide (name f = "field") &&
                (bool_decide (wocky_node_get_attribute f "var" = Some "muc#roomconfig_roomdesc") ||
                 bool_decide (wocky_node_get_attribute f "var" = Some "muc#owner_roomdesc")))
                 (children form_node))
           (emit ConfigDescriptionMutable ;; emit ConfigChanged)
     end
   else mret tt) ;;
  finish_operation id.

(** *** Joining *)

Definition handle_nick_conflict (env : Env) (stanza : WockyNode) : MW (option JoinErrorKind) :=
  ch ← get_chan;
  match wocky_node_get_attribute stanza "from" with
  | None => fail AssertFailed
  | Some from =>
      if strchr from "/" && negb (bool_decide (from = self_jid (identity ch))) then mret None
      else if MAX_NICK_RETRIES <=? nick_retry_count (identity ch) then mret (Some JOIN_NICK_IN_USE)
      else
        let i := identity ch in
        let new_jid := self_jid i +:+ "_" in
        change (with_identity (mkIdentity (nick_retry_count i) new_jid (self_role i) (self_affil i))) ;;
        w ← get_muc; put_muc (set_jid g_utf8_strdown new_jid w) ;;
        handle ← tp_handle_ensure new_jid GABBLE_JID_ROOM_MEMBER;
        change (λ ch, with_group (tp_group_mixin_change_self_handle (group ch) handle) ch) ;;
        change_members None
          (mkChange ∅ (containing (self_handle (group ch))) ∅ (containing handle)) EmptyString
          REASON_RENAMED ;;
        change (with_identity (mkIdentity (nick_retry_count i + 1) new_jid (self_role i) (self_affil i))) ;;
        send_join_request env ;;
        mret None
  end.

Definition join_failed (env : Env) (kind : JoinErrorKind) (message : string)
    (reason : ChangeReason) : MW unit :=
  emit (JoinError kind) ;;
  close_channel env (Some message) false EmptyString reason.

(** [description] is [wocky_xmpp_error_description]. *)
Definition handle_error (description : WockyXmppError → string) (env : Env) (stanza : WockyNode)
    (error : Extracted) : MW unit :=
  ch ← get_chan;
  let st := muc_channel_state (life ch) in
  if muc_state_number MUC_STATE_JOINED <=? muc_state_number st then mret tt
  else
    match (x_core error).1 with
    | NOT_AUTHORIZED =>
        clear_join_timer ;;
        if bool_decide (st = MUC_STATE_AUTH) then provide_password_return_if_pending false
        else
          change_must_provide_password true ;;
          set_state MUC_STATE_AUTH
    | FORBIDDEN => join_failed env JOIN_BANNED "banned from room" REASON_BANNED
    | SERVICE_UNAVAILABLE => join_failed env JOIN_FULL "room is full" REASON_BUSY
    | REGISTRATION_REQUIRED => join_failed env JOIN_INVITE_ONLY "room is invite only" REASON_NONE
    | CONFLICT =>
        failed ← handle_nick_conflict env stanza;
        match failed with
        | None => mret tt
        | Some kind =>
            join_failed env kind "nickname already in use and retry count exceeded" REASON_NONE
        end
    | code => join_failed env JOIN_NOT_AVAILABLE (description code) REASON_NONE
    end.

(** *** Occupants *)

Definition muc_status_codes_to_change_reason (codes : Z) : ChangeReason :=
  if has_code codes WOCKY_MUC_CODE_BANNED then REASON_BANNED
  else if has_code codes (Z.lor (Z.lor WOCKY_MUC_CODE_KICKED WOCKY_MUC_CODE_KICKED_AFFILIATION)
                            (Z.lor WOCKY_MUC_CODE_KICKED_ROOM_PRIVATISED WOCKY_MUC_CODE_KICKED_SHUTDOWN))
  then REASON_KICKED
  else REASON_NONE.

Definition actor_handle (actor_jid : option string) : MW string :=
  match actor_jid with
  | Some a => tp_handle_ensure a GABBLE_JID_ANY
  | None => mret EmptyString
  end.

Definition handle_parted (env : Env) (codes : Z) (actor_jid why : option string) : MW unit :=
  ch ← get_chan;
  member ← tp_handle_ensure (muc_jid (wmuc ch)) GABBLE_JID_ANY;
  if closing (life ch) then clear_leave_timer ;; tp_base_channel_destroyed
  else if is_empty member then mret tt
  else
    actor ← actor_handle actor_jid;
    close_channel env why false actor (muc_status_codes_to_change_reason codes).

Definition handle_left (codes : Z) (who : WockyMucMember) (actor_jid why : option string) : MW unit :=
  get_chan ;;
  member ← tp_handle_ensure (m_from who) GABBLE_JID_ANY;
  if is_empty member then mret tt
  else
    actor ← actor_handle actor_jid;
    change_members why (mkChange ∅ (containing member) ∅ ∅) actor
      (muc_status_codes_to_change_reason codes) ;;
    emit (ChatStateChanged member STATE_GONE).

Definition handle_perms : MW unit :=
  change (λ ch, with_identity (mkIdentity (nick_retry_count (identity ch)) (self_jid (identity ch))
    (role (wmuc ch)) (affiliation (wmuc ch))) ch) ;;
  room_properties_update ;;
  update_permissions.

Definition handle_renamed : MW unit :=
  ch ← get_chan;
  myself ← tp_handle_ensure (muc_jid (wmuc ch)) GABBLE_JID_ROOM_MEMBER;
  userid ← tp_handle_ensure (user (wmuc ch)) GABBLE_JID_ROOM_MEMBER;
  let old_self := containing (self_handle (group ch)) in
  change (λ ch, with_group (tp_group_mixin_change_self_handle (group ch) myself) ch) ;;
  emit (HandleOwner myself userid) ;;
  change_members (Some EmptyString) (mkChange ∅ old_self ∅ ∅) EmptyString REASON_NONE.

(** The beginning of [gabble_presence_parse_presence_message]: our own
    presences are ignored; the stanza is looked at, and so is the entry of the
    handle, which must be one.  What is done then is in [PresenceCache]; the
    porter gives the room's handlers nothing but presences. *)
Definition gabble_presence_parse_presence_message (env : Env) (handle from : string)
    (stanza : option WockyNode) : MW unit :=
  if bool_decide (from = own_full_jid env) then mret tt
  else
    match stanza with
    | None => fail MemoryFault
    | Some n =>
        g_assert (negb (is_empty handle)) ;;
        emit (PresenceMessage handle from n)
    end.

Definition owner_handle (owner_jid : option string) : MW string :=
  match owner_jid with
  | Some o => tp_handle_ensure o GABBLE_JID_GLOBAL
  | None => mret EmptyString
  end.

(** The member's handle. *)
Definition update_roster_presence (env : Env) (member : WockyMucMember) : MW string :=
  handle ← tp_handle_ensure (m_from member) GABBLE_JID_ROOM_MEMBER;
  owner ← owner_handle (m_jid member);
  gabble_presence_parse_presence_message env handle (m_from member) (presence_stanza member) ;;
  emit (HandleOwner handle owner) ;;
  when (negb (is_empty owner))
    (emit (GroupFlags 0 GROUP_FLAG_HANDLE_OWNERS_NOT_AVAILABLE) ;; emit (ContactJoin owner)) ;;
  mret handle.

Fixpoint update_roster_presences (env : Env) (l : list WockyMucMember) : MW (gset string) :=
  match l with
  | [] => mret ∅
  | m :: l' =>
      handle ← update_roster_presence env m;
      others ← update_roster_presences env l';
      mret (containing handle ∪ others)
  end.

Definition handle_join (env : Env) (codes : Z) : MW unit :=
  ch ← get_chan;
  myself ← tp_handle_ensure (muc_jid (wmuc ch)) GABBLE_JID_ROOM_MEMBER;
  members ← update_roster_presences env (map_to_list (WockyMuc.members (wmuc ch))).*2;
  emit (HandleOwner myself (own_contact env)) ;;
  change_members (Some EmptyString) (mkChange (members ∪ containing myself) ∅ ∅ ∅) EmptyString
    REASON_NONE ;;
  when (has_code codes WOCKY_MUC_CODE_NEW_ROOM) (emit (SendStanza (owner_submit (jid ch) []))) ;;
  set_state MUC_STATE_JOINED.

Definition handle_presence (env : Env) (who : WockyMucMember) : MW unit :=
  get_chan ;;
  handle ← tp_handle_ensure (m_from who) GABBLE_JID_ROOM_MEMBER;
  owner ← owner_handle (m_jid who);
  when (negb (is_empty owner)) (emit (GroupFlags 0 GROUP_FLAG_HANDLE_OWNERS_NOT_AVAILABLE)) ;;
  gabble_presence_parse_presence_message env handle (m_from who) (presence_stanza who) ;;
  change_members (Some EmptyString) (mkChange (containing handle) ∅ ∅ ∅) EmptyString REASON_NONE ;;
  emit (HandleOwner handle owner).

(** *** Messages and subjects *)

Definition stamp_or (d : Z) (datetime : option Z) : Z := default d datetime.

Definition _gabble_muc_channel_handle_subject (from_member : bool) (sender : string)
    (datetime : option Z) (subject : option string) (error : option Extracted) : MW unit :=
  ch ← get_chan;
  match error with
  | Some _ =>
      when (bool_decide (is_Some (set_subject_context (subj ch))))
        (return_from_set_subject false ;; room_properties_update)
  | None =>
      let actor := if from_member then sender else EmptyString in
      change (λ ch, with_subject (mkSubject subject (Some actor) (stamp_or G_MAXINT64 datetime)
        (set_subject_context (subj ch)) (set_subject_stanza_id (subj ch))) ch) ;;
      emit SubjectChanged ;;
      when (bool_decide (is_Some (set_subject_context (subj ch)))) (return_from_set_subject true)
  end.

Definition _gabble_muc_channel_receive (env : Env) (msg_type : TpChannelTextMessageType)
    (from_member : bool) (sender : string) (datetime : option Z) (id : option string) (text : string)
    (send_error : option Extracted) (error_status : TpDeliveryStatus) : MW unit :=
  ch ← get_chan;
  let timestamp := stamp_or 0 datetime in
  let muc_self_handle := self_handle (group ch) in
  let is_error := bool_decide (is_Some send_error) in
  let number := if from_member then contact_number env sender else room_number env sender in
  let from_self := number =? contact_number env muc_self_handle in
  if is_error && from_self then mret tt
  else
    let is_echo := from_self && (timestamp =? 0) in
    if negb is_echo && negb is_error && negb from_member then mret tt
    else
      when (negb (registered (life ch))) (tp_base_channel_reopened_with_requested sender) ;;
      change_life (live_autoclose false) ;;
      if is_error || is_echo then
        emit (Received (MucReport (generated_id env)
          (if is_error then error_status else DELIVERY_DELIVERED) id
          ((λ e, (gabble_tp_send_error_from_wocky_xmpp_error (x_core e).1,
                  if is_empty (x_core e).2 then None else Some (x_core e).2)) <$> send_error)
          (mkMucText (Some muc_self_handle) msg_type timestamp false text id)))
      else
        emit (Received (MucMessage (mkMucText (if from_member then Some sender else None) msg_type
          timestamp (negb (timestamp =? 0)) text id))).

Definition message_type (type : WockyMucMsgType) : TpChannelTextMessageType :=
  match type with
  | MSG_NORMAL => TYPE_NORMAL
  | MSG_ACTION => TYPE_ACTION
  | _ => TYPE_NOTICE
  end.

Definition tp_chat_state (state : WockyMucMsgState) : TpChannelChatState :=
  match state with
  | MSG_STATE_COMPOSING => STATE_COMPOSING
  | MSG_STATE_INACTIVE => STATE_INACTIVE
  | MSG_STATE_PAUSED => STATE_PAUSED
  | _ => STATE_ACTIVE
  end.

(** The handle of the sender, [None] when there is none, and the room's name
    when it is the sender. *)
Definition message_sender (who : option WockyMucMember) : MW (option string) :=
  match who with
  | Some m =>
      from ← tp_handle_ensure (m_from m) GABBLE_JID_ROOM_MEMBER;
      mret (if is_empty from then None else Some from)
  | None => ch ← get_chan; mret (Some (jid ch))
  end.

Definition handle_message (env : Env) (type : WockyMucMsgType) (xmpp_id : option string)
    (datetime : option Z) (who : option WockyMucMember) (text subject : option string)
    (state : WockyMucMsgState) : MW unit :=
  get_chan ;;
  let from_member := bool_decide (is_Some who) in
  sender ← message_sender who;
  match sender with
  | None => mret tt
  | Some from =>
      match text with
      | Some t =>
          _gabble_muc_channel_receive env (message_type type) from_member from datetime xmpp_id t None
            DELIVERY_DELIVERED
      | None => mret tt
      end ;;
      when (from_member && negb (bool_decide (state = MSG_STATE_NONE)))
        (emit (ChatStateChanged from (tp_chat_state state))) ;;
      match subject with
      | Some _ => _gabble_muc_channel_handle_subject from_member from datetime subject None
      | None => mret tt
      end
  end.

Definition handle_errmsg (env : Env) (stanza : WockyNode) (xmpp_id : option string)
    (datetime : option Z) (who : option WockyMucMember) (text : option string) (error : Extracted) :
    MW unit :=
  get_chan ;;
  let from_member := bool_decide (is_Some who) in
  sender ← message_sender who;
  match sender with
  | None => mret tt
  | Some from =>
      let wait := bool_decide (x_type error = TYPE_WAIT) in
      when wait (change (with_wait true)) ;;
      match text with
      | Some t =>
          _gabble_muc_channel_receive env TYPE_NOTICE from_member from datetime xmpp_id t (Some error)
            (if wait then DELIVERY_TEMPORARILY_FAILED else DELIVERY_PERMANENTLY_FAILED)
      | None => mret tt
      end ;;
      ch ← get_chan;
      let subject := wocky_node_get_content_from_child stanza "subject" in
      when (bool_decide (is_Some subject) ||
            match set_subject_stanza_id (subj ch) with
            | Some id => bool_decide (xmpp_id = Some id)
            | None => false
            end)
        (_gabble_muc_channel_handle_subject from_member from datetime subject (Some error))
  end.

(** *** The signals of the room *)

Definition g_signal_emit (description : WockyXmppError → string) (env : Env) (sig : WockyMucSig) :
    MW unit :=
  match sig with
  | SIG_NICK_CHANGE _ _ => handle_renamed
  | SIG_PERM_CHANGE _ _ _ _ => handle_perms
  | SIG_PRESENCE _ _ who => handle_presence env who
  | SIG_OWN_PRESENCE _ _ => mret tt
  | SIG_PRESENCE_ERROR stanza error => handle_error description env stanza error
  | SIG_JOINED _ codes => handle_join env codes
  | SIG_PARTED _ codes actor why _ => handle_parted env codes actor why
  | SIG_LEFT _ codes who actor why _ => handle_left codes who actor why
  | SIG_MSG _ type id stamp who body subject state =>
      handle_message env type id stamp who body subject state
  | SIG_MSG_ERR stanza _ id stamp who body error => handle_errmsg env stanza id stamp who body error
  end.

(** *** Methods *)

Definition gabble_muc_channel_provide_password (env : Env) (p : string) (ctx : nat) : MW unit :=
  ch ← get_chan;
  if negb (must_provide_password (password ch)) || bool_decide (is_Some (password_ctx (password ch)))
  then emit (PasswordError ctx)
  else
    w ← get_muc; put_muc (with_pass (Some p) w) ;;
    send_join_request env ;;
    change (λ ch, with_password (mkPassword (must_provide_password (password ch)) (Some ctx)) ch).

Definition gabble_muc_channel_send (env : Env) (message : TpMessage) : MW unit :=
  ch ← get_chan;
  emit (ChatStateChanged (own_contact env) STATE_ACTIVE) ;;
  match gabble_message_util_build_stanza message (generated_id env) (own_nick env) SUB_GROUPCHAT
          (Some STATE_ACTIVE) (jid ch) false with
  | Some stanza => start_operation (SendingMessage message (generated_id env)) stanza
  | None => emit (MessageSent message None)
  end.

Definition _gabble_muc_channel_message_sent_cb (id : nat) (message : TpMessage) (token : string)
    (success : bool) : MW unit :=
  get_chan ;;
  emit (MessageSent message (if success then Some token else None)) ;;
  finish_operation id.

Definition gabble_muc_channel_send_chat_state (state : TpChannelChatState) : MW unit :=
  ch ← get_chan;
  if have_received_error_type_wait ch then mret tt
  else emit (SendStanza (gabble_message_util_send_chat_state SUB_GROUPCHAT state (jid ch))).

Definition invite_stanza (room to : string) (message : string) (continue_ : bool) : WockyNode :=
  let invite := mkNode "invite" None (Some WOCKY_NS_MUC_USER) [mkAttribute "to" to None] [] in
  let invite := if is_empty message then invite
                else wocky_node_add_child_with_content invite "reason" (Some message) in
  let invite := if continue_ then wocky_node_add_child_with_content invite "continue" None
                else invite in
  mkNode "message" None (Some "jabber:client") [mkAttribute "to" room None]
    [mkNode "x" None (Some WOCKY_NS_MUC_USER) [] [invite]].

Definition gabble_muc_channel_send_invite (to message : string) (continue_ : bool) : MW unit :=
  ch ← get_chan;
  emit (PreInvite to) ;;
  emit (SendStanza (invite_stanza (jid ch) to message continue_)).

(** Whether it was possible.  [first]: the first member of the array made of
    the members, if there is any. *)
Definition gabble_muc_channel_add_member (env : Env) (first : gset string → option string)
    (handle message : string) : MW bool :=
  ch ← get_chan;
  let g := group ch in
  if bool_decide (handle = self_handle g) then
    if bool_decide (handle ∈ group_members g) || bool_decide (handle ∈ remote_pending g)
    then mret false
    else
      emit (HandleOwner (self_handle g) (own_contact env)) ;;
      change_members (Some EmptyString)
        (mkChange ∅ (from_option containing ∅ (first (group_members g))) ∅ (containing handle))
        EmptyString (if invited ch then REASON_INVITED else REASON_NONE) ;;
      send_join_request env ;;
      set_state MUC_STATE_INITIATED ;;
      emit (GroupFlags 0 GROUP_FLAG_CAN_ADD) ;;
      mret true
  else if muc_state_number (muc_channel_state (life ch)) <? muc_state_number MUC_STATE_JOINED
  then mret false
  else gabble_muc_channel_send_invite handle message false ;; mret true.

(** A member has a nick. *)
Definition kick_stanza (room member message : string) : WockyNode :=
  let item := mkNode "item" None (Some WOCKY_NS_MUC_ADMIN)
    (match split_first "/" member with
     | Some (_, nick) => [mkAttribute "nick" nick None; mkAttribute "role" "none" None]
     | None => []
     end) [] in
  let item := if is_empty message then item
              else wocky_node_add_child_with_content item "reason" (Some message) in
  mkNode "iq" None (Some "jabber:client")
    [mkAttribute "type" "set" None; mkAttribute "to" room None]
    [mkNode "query" None (Some WOCKY_NS_MUC_ADMIN) [] [item]].

Definition gabble_muc_channel_remove_member (env : Env) (handle message : string) : MW unit :=
  ch ← get_chan;
  if bool_decide (handle = self_handle (group ch)) then
    close_channel env (Some message) true (self_handle (group ch)) REASON_NONE
  else emit (SendKick (kick_stanza (jid ch) handle message)).

Definition gabble_muc_channel_set_subject (env : Env) (text : string) (ctx : nat) : MW unit :=
  ch ← get_chan;
  let st := muc_channel_state (life ch) in
  if (muc_state_number st <? muc_state_number MUC_STATE_JOINED) ||
     (muc_state_number MUC_STATE_JOINED <? muc_state_number st) || closing (life ch) ||
     bool_decide (is_Some (set_subject_context (subj ch)))
  then emit (SubjectReturn ctx false)
  else
    g_assert (bool_decide (set_subject_stanza_id (subj ch) = None)) ;;
    change (λ ch, with_subject (mkSubject (subject (subj ch)) (subject_actor (subj ch))
      (subject_timestamp (subj ch)) (Some ctx) (Some (new_stanza_id env))) ch) ;;
    start_operation SendingSubject
      (mkNode "message" None (Some "jabber:client")
         [mkAttribute "type" "groupchat" None; mkAttribute "to" (jid ch) None;
          mkAttribute "id" (new_stanza_id env) None]
         [mkNode "subject" (Some text) (Some "jabber:client") [] []]).

Definition sent_subject_cb (id : nat) (success : bool) : MW unit :=
  ch ← get_chan;
  when (negb success && bool_decide (is_Some (set_subject_context (subj ch))))
    (return_from_set_subject false) ;;
  finish_operation id.

(** *** The configuration of the room *)

Definition g_value_get_boolean (v : GValue) : bool :=
  match v with G_BOOLEAN b => b | G_STRING _ => false end.
Definition g_value_get_string (v : GValue) : option string :=
  match v with G_STRING s => Some s | G_BOOLEAN _ => None end.

Definition map_bool (v : GValue) : option string := Some (if g_value_get_boolean v then "1" else "0").
Definition map_bool_inverted (v : GValue) : option string :=
  Some (if g_value_get_boolean v then "0" else "1").
Definition map_roomconfig_whois (v : GValue) : option string :=
  Some (if g_value_get_boolean v then "moderators" else "anyone").
Definition map_owner_whois (v : GValue) : option string :=
  Some (if g_value_get_boolean v then "admins" else "anyone").

Definition form_mappings : list (string * TpBaseRoomConfigProperty * (GValue → option string)) :=
  [("anonymous", CONFIG_ANONYMOUS, map_bool);
   ("muc#roomconfig_whois", CONFIG_ANONYMOUS, map_roomconfig_whois);
   ("muc#owner_whois", CONFIG_ANONYMOUS, map_owner_whois);
   ("members_only", CONFIG_INVITE_ONLY, map_bool);
   ("muc#roomconfig_membersonly", CONFIG_INVITE_ONLY, map_bool);
   ("muc#owner_inviteonly", CONFIG_INVITE_ONLY, map_bool);
   ("moderated", CONFIG_MODERATED, map_bool);
   ("muc#roomconfig_moderatedroom", CONFIG_MODERATED, map_bool);
   ("muc#owner_moderatedroom", CONFIG_MODERATED, map_bool);
   ("title", CONFIG_TITLE, g_value_get_string);
   ("muc#roomconfig_roomname", CONFIG_TITLE, g_value_get_string);
   ("muc#owner_roomname", CONFIG_TITLE, g_value_get_string);
   ("muc#roomconfig_roomdesc", CONFIG_DESCRIPTION, g_value_get_string);
   ("muc#owner_roomdesc", CONFIG_DESCRIPTION, g_value_get_string);
   ("password", CONFIG_PASSWORD, g_value_get_string);
   ("muc#roomconfig_roomsecret", CONFIG_PASSWORD, g_value_get_string);
   ("muc#owner_roomsecret", CONFIG_PASSWORD, g_value_get_string);
   ("password_protected", CONFIG_PASSWORD_PROTECTED, map_bool);
   ("muc#roomconfig_passwordprotectedroom", CONFIG_PASSWORD_PROTECTED, map_bool);
   ("muc#owner_passwordprotectedroom", CONFIG_PASSWORD_PROTECTED, map_bool);
   ("persistent", CONFIG_PERSISTENT, map_bool);
   ("muc#roomconfig_persistentroom", CONFIG_PERSISTENT, map_bool);
   ("muc#owner_persistentroom", CONFIG_PERSISTENT, map_bool);
   ("public", CONFIG_PRIVATE, map_bool_inverted);
   ("muc#roomconfig_publicroom", CONFIG_PRIVATE, map_bool_inverted);
   ("muc#owner_publicroom", CONFIG_PRIVATE, map_bool_inverted)].

Definition lookup_config_form_field (var : string) :
    option (string * TpBaseRoomConfigProperty * (GValue → option string)) :=
  List.find (λ f, bool_decide (f.1.1 = var)) form_mappings.

(** [g_hash_table_lookup] in the properties. *)
Definition lookup_property (properties : Properties) (p : TpBaseRoomConfigProperty) : option GValue :=
  snd <$> List.find (λ e, bool_decide (e.1 = p)) properties.

(** A field of the form: what is submitted for it, and the property it sets. *)
Definition config_field (properties : Properties) (child : WockyNode) :
    option (WockyNode * option TpBaseRoomConfigProperty) :=
  var ← wocky_node_get_attribute child "var";
  let field := mkNode "field" None (Some NS_X_DATA)
    (mkAttribute "var" var None ::
     match wocky_node_get_attribute child "type" with
     | Some t => [mkAttribute "type" t None]
     | None => []
     end) [] in
  let value v := mkNode "value" v (Some NS_X_DATA) [] [] in
  match f ← lookup_config_form_field var; v ← lookup_property properties f.1.2; Some (f, v) with
  | Some (f, v) => Some (set_children field [value (f.2 v)], Some f.1.2)
  | None =>
      Some (set_children field
        (value ∘ content <$> List.filter (λ n, bool_decide (name n = "value")) (children child)), None)
  end.

(** The fields to be submitted, or the properties that no field is for. *)
Definition fill_config_form (properties : Properties) (form_node : WockyNode) :
    list TpBaseRoomConfigProperty + list WockyNode :=
  let fields := omap (config_field properties)
    (List.filter (λ n, bool_decide (name n = "field")) (children form_node)) in
  let props_left := List.filter (λ p, negb (bool_decide (Some p ∈ fields.*2))) properties.*1 in
  match props_left with
  | [] => inr fields.*1
  | _ => inl props_left
  end.

Definition gabble_muc_channel_update_configuration_async (properties : Properties) (result : nat) :
    MW unit :=
  ch ← get_chan;
  g_assert (bool_decide (properties_being_updated ch = None)) ;;
  start_operation (RequestConfigForm result) (owner_query (jid ch)) ;;
  change (with_properties (Some properties)).

(** [reply]: [None] when the IQ failed. *)
Definition request_config_form_reply_cb (id result : nat) (reply : option WockyNode) : MW unit :=
  ch ← get_chan;
  let outcome :=
    form_node ← reply ≫= config_form_get_form_node;
    match fill_config_form (default [] (properties_being_updated ch)) form_node with
    | inr fields => Some fields
    | inl _ => None
    end in
  match outcome with
  | Some fields => start_operation (SubmitConfigForm result) (owner_submit (jid ch) fields)
  | None => emit (ConfigReturn result false) ;; change (with_properties None)
  end ;;
  finish_operation id.

Definition request_config_form_submit_reply_cb (id result : nat) (success : bool) : MW unit :=
  get_chan ;;
  emit (ConfigReturn result success) ;;
  change (with_properties None) ;;
  room_properties_update ;;
  finish_operation id.

(** *** The object is made *)

(** [from_jid]: the alias is our JID, of which the node is taken. *)
Definition create_room_identity (room alias : string) (from_jid : bool) : option string :=
  nick ← if from_jid then wocky_decode_jid g_utf8_strdown alias ≫= λ d, d.1.1 else Some alias;
  Some (room +:+ "/" +:+ nick).

(** [invitation]: the inviter and the message; without one we join. *)
Definition gabble_muc_channel_constructed (env : Env) (first : gset string → option string)
    (room alias : string) (alias_from_jid : bool) (initially_register : bool)
    (invitation : option (string * option string)) : MW unit :=
  g_assert (negb (strchr room "/")) ;;
  match create_room_identity room alias alias_from_jid with
  | None => fail AssertFailed
  | Some sj =>
      handle ← tp_handle_ensure sj GABBLE_JID_ROOM_MEMBER;
      set_chan (Some (mkMuc room (bool_decide (is_Some invitation))
        (mkLife MUC_STATE_CREATED false false false initially_register false false)
        (mkTimers None None None) (mkPassword false None)
        (mkIdentity 0 sj ROLE_NONE AFFILIATION_NONE) (mkSubject None None G_MAXINT64 None None)
        None false (wocky_muc_new g_utf8_strdown handle (own_full_jid env))
        (tp_group_mixin_init handle))) ;;
      s ← get; put_refs true (held s) ;;
      emit (HandleOwner handle (own_contact env)) ;;
      match invitation with
      | Some (inviter, message) =>
          change_members message (mkChange (containing inviter) ∅ (containing handle) ∅) inviter
            REASON_INVITED ;;
          change_life live_ready
      | None => gabble_muc_channel_add_member env first handle EmptyString ;; mret tt
      end
  end.

(** *** Inputs

    [SendInvite] and the two after it are calls of the factory; [Forget] is
    that it drops its reference, and [KnownContacts] that other parts of the
    program know more contacts. *)

Inductive muc_input :=
  | Presence (stanza : WockyNode)
  | Message (stanza : WockyNode)
  | TimerFires (id : nat)
  | Close
  | Teardown
  | AddMember (handle message : string)
  | RemoveMember (handle message : string)
  | ProvidePassword (p : string) (ctx : nat)
  | SetSubject (text : string) (ctx : nat)
  | Send (message : TpMessage)
  | SendChatState (state : TpChannelChatState)
  | SendPresence
  | UpdateConfiguration (properties : Properties) (result : nat)
  | DiscoReply (query_result : option WockyNode)
  | OperationDone (id : nat) (reply : option WockyNode)
  | TubeOpened
  | TubeClosed (last : bool)
  | SendInvite (to message : string) (continue_ : bool)
  | SetAutoclose (b : bool)
  | Register
  | Forget
  | KnownContacts (cs : gset string).

(** The porter gives the stanzas of the room to its handlers. *)
Definition from_room (w : WockyMuc.WockyMuc) (stanza : WockyNode) : bool :=
  handlers w &&
  match wocky_node_get_attribute stanza "from" ≫= wocky_decode_jid g_utf8_strdown with
  | Some (Some n, d, _) => bool_decide (rjid w = n +:+ "@" +:+ d)
  | _ => false
  end.

(** For as long as the channel exists. *)
Definition if_alive (k : Chan → MW unit) : MW unit :=
  s ← get;
  match chan s with Some ch => k ch | None => mret tt end.

(** A method can be called for as long as the channel is on the bus. *)
Definition on_bus (m : MW unit) : MW unit :=
  if_alive (λ ch, when (registered (life ch)) m).

Definition fire (env : Env) (id : nat) (t : Timer) : MW unit :=
  match t with
  | TIMER_JOIN => timeout_join env ;; g_source_remove id
  | TIMER_LEAVE => timeout_leave ;; g_source_remove id
  | TIMER_POLL => timeout_poll
  end.

Definition operation_done (id : nat) (reply : option WockyNode) (o : Operation) : MW unit :=
  let success := bool_decide (is_Some reply) in
  match o with
  | SendingMessage message token => _gabble_muc_channel_message_sent_cb id message token success
  | SendingSubject => sent_subject_cb id success
  | PermsConfigForm => perms_config_form_reply_cb id reply
  | RequestConfigForm result => request_config_form_reply_cb id result reply
  | SubmitConfigForm result => request_config_form_submit_reply_cb id result success
  end.

Definition run_input (description : WockyXmppError → string) (first : gset string → option string)
    (env : Env) (i : muc_input) : MW unit :=
  let normalise := wocky_normalise_jid g_utf8_strdown in
  match i with
  | Presence stanza =>
      if_alive (λ ch, when (from_room (wmuc ch) stanza)
        (WockyMuc.handle_presence g_utf8_strdown error_domains get_muc put_muc
           (g_signal_emit description env) stanza ;; mret tt))
  | Message stanza =>
      if_alive (λ ch, when (from_room (wmuc ch) stanza)
        (WockyMuc.handle_message from_iso8601 error_domains get_muc
           (g_signal_emit description env) normalise stanza ;; mret tt))
  | TimerFires id =>
      s ← get; match sources s !! id with Some t => fire env id t | None => mret tt end
  | Close => on_bus (gabble_muc_channel_close env)
  | Teardown => if_alive (λ _, gabble_muc_channel_teardown env)
  | AddMember h m => on_bus (gabble_muc_channel_add_member env first h m ;; mret tt)
  | RemoveMember h m => on_bus (gabble_muc_channel_remove_member env h m)
  | ProvidePassword p ctx => on_bus (gabble_muc_channel_provide_password env p ctx)
  | SetSubject t ctx => on_bus (gabble_muc_channel_set_subject env t ctx)
  | Send message => on_bus (gabble_muc_channel_send env message)
  | SendChatState st => on_bus (gabble_muc_channel_send_chat_state st)
  | SendPresence => if_alive (λ _, gabble_muc_channel_send_presence env)
  | UpdateConfiguration ps result =>
      on_bus (gabble_muc_channel_update_configuration_async ps result)
  | DiscoReply q => if_alive (λ _, properties_disco_cb q)
  | OperationDone id reply =>
      s ← get;
      match operations s !! id with Some o => operation_done id reply o | None => mret tt end
  | TubeOpened => if_alive (λ _, change_life (live_tubes true))
  | TubeClosed last => if_alive (λ _, muc_sub_channel_closed_cb env last)
  | SendInvite to message c => if_alive (λ _, gabble_muc_channel_send_invite to message c)
  | SetAutoclose b => if_alive (λ _, change_life (live_autoclose b))
  | Register => if_alive (λ _, change_life (live_registered true))
  | Forget => if_alive (λ _, s ← get; put_refs false (held s) ;; unref)
  | KnownContacts cs => s ← get; put_contacts (cs ∪ contacts s)
  end.
End muc.
End MucChannel.
