(* ===== verification/MucFacts.v ===== *)
(** * Chat rooms: the invariant of a channel

    The rules by which the handlers of [MucChannel] are run symbolically, the
    invariant of the channel with its timers and references, and that every
    input keeps it. *)

From S2P Require Import Prelude Node Namespaces Jid XmppError MessageUtil WockyMuc MucChannel.

Module MucFacts.
Import Jid XmppError MessageUtil WockyMuc MucChannel.

Section facts.
Context {G : Type} `{TpGroupMixinLaws G}.
Context (strdown normalize : string → string).

Local Notation Chan := (GabbleMucChannel G).
Local Notation W := (World G).
Local Notation ensure := (tp_handle_ensure (G:=G) strdown normalize).
Implicit Types (s : W) (ch : Chan).

(** ** Symbolic execution *)

(** What refers to the channel: the factory, running functions, operations. *)
Record Refs := mkRefs { r_factory : bool; r_held : nat; r_operations : gmap nat Operation }.

Definition referenced (r : Refs) : Prop :=
  r_factory r = true ∨ (0 < r_held r)%nat ∨ r_operations r ≠ ∅.

(** The channel, the references, the timers, the contacts that have handles
    and what was said. *)
Record At (r : Refs) (srcs : gmap nat Timer) (cs : gset string) (ev : list muc_event) ch s : Prop := {
  at_chan : chan s = Some ch;
  at_refs : mkRefs (in_factory s) (held s) (operations s) = r;
  at_sources : sources s = srcs;
  at_contacts : contacts s = cs;
  at_events : events s = ev;
  at_fresh : ∀ n, (next_source s ≤ n)%nat → srcs !! n = None;
  at_operations : ∀ n, (next_operation s ≤ n)%nat → r_operations r !! n = None;
}.

Section rules.
Context {r : Refs} {srcs : gmap nat Timer} {cs : gset string} {ev : list muc_event} {ch : Chan} {s : W}.
Context (HA : At r srcs cs ev ch s).

Lemma wp_emit e Q : (∀ s', At r srcs cs (ev ++ [e]) ch s' → Q tt s') → wp (emit e) Q s.
Proof. intros HQ. apply HQ. destruct HA. split; cbn; congruence || done. Qed.

Lemma wp_get_chan {A} (k : Chan → M W A) Q : wp (k ch) Q s → wp (get_chan ≫= k) Q s.
Proof.
  intros HQ. apply wp_bind. unfold get_chan. apply wp_bind, wp_get. by rewrite (at_chan _ _ _ _ _ _ HA).
Qed.

Lemma wp_change f Q : (∀ s', At r srcs cs ev (f ch) s' → Q tt s') → wp (change f) Q s.
Proof.
  intros HQ. unfold change. apply wp_get_chan. apply HQ. destruct HA. split; cbn; congruence || done.
Qed.

Lemma wp_get_muc Q : Q (wmuc ch) s → wp get_muc Q s.
Proof. intros HQ. unfold get_muc. apply wp_get_chan. by apply wp_ret. Qed.

Lemma wp_put_muc w Q : (∀ s', At r srcs cs ev (with_wmuc w ch) s' → Q tt s') → wp (put_muc w) Q s.
Proof. apply wp_change. Qed.

Lemma wp_timeout_add t Q :
  (∀ id s', srcs !! id = None → At r (<[id := t]> srcs) cs ev ch s' → Q id s') →
  wp (g_timeout_add t) Q s.
Proof.
  intros HQ. unfold g_timeout_add. apply wp_bind, wp_get, wp_bind, wp_modify, wp_ret, HQ.
  - apply (at_fresh _ _ _ _ _ _ HA). done.
  - destruct HA as [????? Hf Ho]. split; cbn; try congruence; try done.
    intros n Hn. rewrite lookup_insert_ne by lia. apply Hf. lia.
Qed.

Lemma wp_source_remove id Q :
  (∀ s', At r (delete id srcs) cs ev ch s' → Q tt s') → wp (g_source_remove id) Q s.
Proof.
  intros HQ. unfold g_source_remove. apply wp_bind, wp_get, wp_modify, HQ.
  destruct HA as [????? Hf Ho]. split; cbn; try congruence; try done.
  intros n Hn. rewrite lookup_delete_None. auto.
Qed.

Definition normal (id : string) (mode : GabbleNormalizeContactJIDMode) : option string :=
  gabble_normalize_contact strdown normalize (Some (λ n, bool_decide (n ∈ cs))) id mode.

Lemma wp_ensure id mode Q :
  (∀ n s', normal id mode = Some n → At r srcs ({[n]} ∪ cs) ev ch s' → Q n s') →
  (normal id mode = None → Q EmptyString s) →
  wp (ensure id mode) Q s.
Proof.
  intros H1 H2. unfold tp_handle_ensure. apply wp_bind, wp_get.
  rewrite (at_contacts _ _ _ _ _ _ HA). fold (normal id mode).
  destruct (normal id mode) as [n|] eqn:E; [|by apply wp_ret, H2].
  apply wp_bind, wp_modify, wp_ret, H1; [done|]. destruct HA. split; cbn; congruence || done.
Qed.

(** Whatever the handle is. *)
Lemma wp_ensure_any id mode Q :
  (∀ n cs' s', cs ⊆ cs' → At r srcs cs' ev ch s' → Q n s') → wp (ensure id mode) Q s.
Proof.
  intros HQ. apply wp_ensure; intros; eapply HQ; [|done| |done]; set_solver.
Qed.

Definition with_operation (id : nat) (o : Operation) : Refs :=
  mkRefs (r_factory r) (r_held r) (<[id := o]> (r_operations r)).

Lemma wp_start_operation o stanza Q :
  (∀ id s', r_operations r !! id = None →
     At (with_operation id o) srcs cs (ev ++ [SendAsync id stanza]) ch s' → Q tt s') →
  wp (start_operation o stanza) Q s.
Proof.
  intros HQ. unfold start_operation. apply wp_bind, wp_get, wp_bind, wp_modify, wp_modify.
  pose proof (at_operations _ _ _ _ _ _ HA (next_operation s) (le_n _)) as Hn.
  apply (HQ (next_operation s)); [done|].
  destruct HA as [? Hr ??? Hf Ho]. split; cbn; try congruence; try done.
  - unfold with_operation. by rewrite <- Hr.
  - intros n Hle. rewrite lookup_insert_ne by lia. apply Ho. lia.
Qed.

Lemma wp_put_refs f h Q :
  (∀ s', At (mkRefs f h (r_operations r)) srcs cs ev ch s' → Q tt s') → wp (put_refs f h) Q s.
Proof.
  intros HQ. apply HQ. destruct HA as [? Hr ??? Hf Ho]. split; cbn; try congruence; try done.
  by rewrite <- Hr.
Qed.
End rules.

(** ** The invariant *)

Definition state_of ch : GabbleMucState := muc_channel_state (life ch).

Definition timer_id (t : Timer) (l : Timers) : option nat :=
  match t with
  | TIMER_JOIN => join_timer_id l
  | TIMER_POLL => poll_timer_id l
  | TIMER_LEAVE => leave_timer_id l
  end.

(** Somebody in a room. *)
Definition occupant (from : string) : Prop :=
  ∃ n d r, wocky_decode_jid strdown from = Some (Some n, d, Some r).

(** Invited, and neither accepted nor refused. *)
Definition unanswered ch : Prop :=
  local_pending (group ch) ⊆ containing (self_handle (group ch)) ∧
  state_of ch = MUC_STATE_CREATED ∧ handlers (wmuc ch) = false ∧
  must_provide_password (password ch) = false.

(** A member has the name of an occupant, and the presence that named it. *)
Definition known_member (m : WockyMucMember) : Prop :=
  occupant (m_from m) ∧ is_Some (presence_stanza m).

(** Every timer is one that the channel knows. *)
Record chan_ok (srcs : gmap nat Timer) ch : Prop := {
  ok_timers : ∀ n t, srcs !! n = Some t → timer_id t (timers ch) = Some n;
  ok_join : ∀ n, srcs !! n = Some TIMER_JOIN → state_of ch ≠ MUC_STATE_CREATED;
  ok_poll : ∀ n, srcs !! n = Some TIMER_POLL → state_of ch = MUC_STATE_JOINED;
  ok_leave : ∀ n, srcs !! n = Some TIMER_LEAVE → closing (life ch) = true;
  ok_pending : local_pending (group ch) = ∅ ∨ unanswered ch;
  ok_subject : set_subject_context (subj ch) = None → set_subject_stanza_id (subj ch) = None;
  ok_members : map_Forall (λ _, known_member) (members (wmuc ch));
  ok_retries : 0 <= nick_retry_count (identity ch) <= MAX_NICK_RETRIES;
}.

Record gone s : Prop := {
  gone_chan : chan s = None;
  gone_sources : sources s = ∅;
  gone_operations : operations s = ∅;
  gone_factory : in_factory s = false;
  gone_held : held s = 0%nat;
}.

(** There is a channel that is well, between two inputs. *)
Definition alive s : Prop :=
  ∃ r srcs cs ev ch, At r srcs cs ev ch s ∧ chan_ok srcs ch ∧ referenced r.

Definition settled s : Prop := alive s ∨ gone s.
End facts.

(** Goes on in the state after a rule was applied to [HA]. *)
Ltac next HA s := clear HA; try clear s; let s' := fresh "s" in intros s' HA.
Ltac next_of HA s H := clear HA; try clear s; let s' := fresh "s" in intros ?id s' H HA.

Ltac step1 :=
  match goal with
  | HA : At _ _ _ _ _ ?s |- wp (get_chan ≫= _) _ ?s => apply (wp_get_chan HA)
  | |- wp (mret _) _ _ => apply wp_ret
  | |- wp (_ ≫= _) _ _ => apply wp_bind
  | |- wp get _ _ => apply wp_get
  | HA : At _ _ _ _ _ ?s |- wp get_muc _ ?s => apply (wp_get_muc HA)
  | HA : At _ _ _ _ _ ?s |- wp (put_muc _) _ ?s => apply (wp_put_muc HA); next HA s
  | HA : At _ _ _ _ _ ?s |- wp (change_life _) _ ?s =>
      unfold change_life; apply (wp_change HA); next HA s
  | |- wp (when _ _) _ _ => apply wp_when; intros ?E
  | |- wp (g_assert _) _ _ => apply wp_assert
  | HA : At _ _ _ _ _ ?s |- wp (emit _) _ ?s => apply (wp_emit HA); next HA s
  | HA : At _ _ _ _ _ ?s |- wp (change _) _ ?s => apply (wp_change HA); next HA s
  | HA : At _ _ _ _ _ ?s |- wp (g_source_remove _) _ ?s => apply (wp_source_remove HA); next HA s
  | HA : At _ _ _ _ _ ?s |- wp (g_timeout_add _) _ ?s =>
      apply (wp_timeout_add HA); let Hid := fresh "Hid" in next_of HA s Hid
  | HA : At _ _ _ _ _ ?s |- wp (start_operation _ _) _ ?s =>
      apply (wp_start_operation HA); let Ho := fresh "Ho" in next_of HA s Ho
  | HA : At _ _ _ _ _ ?s |- wp (tp_handle_ensure _ _ _ _) _ ?s =>
      apply (wp_ensure_any _ _ HA); clear HA; try clear s;
      let s' := fresh "s" in intros ?n ?cs s' ?Hcs HA
  end; cbv beta zeta.
Ltac steps := repeat step1.

Section safety.
Context {G : Type} `{TpGroupMixinLaws G}.
Context (strdown normalize : string → string).

Local Notation Chan := (GabbleMucChannel G).
Local Notation W := (World G).
Local Notation chan_ok := (chan_ok strdown).
Local Notation alive := (alive strdown).
Local Notation settled := (settled strdown).
Implicit Types (s : W) (ch : Chan) (srcs : gmap nat Timer).

(** *** Timers *)

Definition clear (t : Timer) (l : Timers) : Timers :=
  match t with
  | TIMER_JOIN => mkTimers None (poll_timer_id l) (leave_timer_id l)
  | TIMER_POLL => mkTimers (join_timer_id l) None (leave_timer_id l)
  | TIMER_LEAVE => mkTimers (join_timer_id l) (poll_timer_id l) None
  end.

Lemma ok_cleared srcs ch t id :
  chan_ok srcs ch → timer_id t (timers ch) = Some id →
  chan_ok (delete id srcs) (with_timers (clear t (timers ch)) ch).
Proof.
  intros [Ht Hj Hp Hl Hq Hu Hm Hr] Hid.
  split; try done; cbn; try (intros n Hn; apply lookup_delete_Some in Hn as [_ Hn]; eauto).
  intros n t' [Hne Hn]%lookup_delete_Some. pose proof (Ht n t' Hn) as E.
  destruct t, t'; cbn in *; congruence.
Qed.

(** No timer of the kind is left. *)
Definition unset (t : Timer) srcs : Prop := ∀ n, srcs !! n ≠ Some t.

Lemma unset_cleared srcs ch t id :
  chan_ok srcs ch → timer_id t (timers ch) = Some id → unset t (delete id srcs).
Proof.
  intros Hok Hid n [Hne Hn]%lookup_delete_Some.
  pose proof (ok_timers _ _ _ Hok n t Hn). congruence.
Qed.

Lemma unset_none srcs ch t : chan_ok srcs ch → timer_id t (timers ch) = None → unset t srcs.
Proof. intros Hok Hid n Hn. pose proof (ok_timers _ _ _ Hok n t Hn). congruence. Qed.

Definition clear_timer (t : Timer) : M W unit :=
  match t with
  | TIMER_JOIN => clear_join_timer
  | TIMER_POLL => clear_poll_timer
  | TIMER_LEAVE => clear_leave_timer
  end.

(** After a timer is cleared the channel is as before but for its number. *)
Lemma clear_timer_ok t r srcs cs ev ch s Q :
  At r srcs cs ev ch s → chan_ok srcs ch →
  (∀ srcs' s', At r srcs' cs ev (with_timers (clear t (timers ch)) ch) s' →
     chan_ok srcs' (with_timers (clear t (timers ch)) ch) → unset t srcs' → srcs' ⊆ srcs → Q tt s') →
  wp (clear_timer t) Q s.
Proof.
  intros HA Hok HQ.
  assert (Hsame : timer_id t (timers ch) = None → with_timers (clear t (timers ch)) ch = ch).
  { destruct ch as [?? ? [] ???????]. destruct t; cbn; by intros ->. }
  destruct t; cbn [clear_timer]; unfold clear_join_timer, clear_poll_timer, clear_leave_timer;
    apply (wp_get_chan HA); cbn [timer_id clear] in *;
    [destruct (join_timer_id (timers ch)) eqn:E
    |destruct (poll_timer_id (timers ch)) eqn:E
    |destruct (leave_timer_id (timers ch)) eqn:E];
    try (apply wp_ret; rewrite Hsame in HQ by done; by eapply HQ; [| |eapply unset_none|]).
  all: apply wp_bind, (wp_source_remove HA); clear s HA; intros s HA; apply (wp_change HA);
    clear s HA; intros s HA; eapply HQ;
    [exact HA|by apply (ok_cleared _ _ TIMER_JOIN)||by apply (ok_cleared _ _ TIMER_POLL)
      ||by apply (ok_cleared _ _ TIMER_LEAVE)
    |by eapply (unset_cleared _ ch)|apply delete_subseteq].
Qed.

(** *** References *)

Lemma muc_dispose_ok srcs cs ev ch s :
  At (mkRefs false 0 ∅) srcs cs ev ch s → chan_ok srcs ch →
  wp gabble_muc_channel_dispose (λ _, gone) s.
Proof.
  intros HA Hok. unfold gabble_muc_channel_dispose.
  apply wp_bind, (clear_timer_ok TIMER_JOIN _ _ _ _ _ _ _ HA Hok). clear s HA.
  intros srcs1 s HA Hok1 Hj1 Hs1.
  apply wp_bind, (clear_timer_ok TIMER_POLL _ _ _ _ _ _ _ HA Hok1). clear s HA.
  intros srcs2 s HA Hok2 Hp2 Hs2.
  apply wp_bind, (clear_timer_ok TIMER_LEAVE _ _ _ _ _ _ _ HA Hok2). clear s HA.
  intros srcs3 s HA Hok3 Hl3 Hs3.
  apply wp_modify. destruct HA as [_ Hr Hs _ _ _ _]. injection Hr as Hf Hh Ho.
  split; cbn; try done. rewrite Hs. apply map_empty. intros n.
  destruct (srcs3 !! n) as [[]|] eqn:E; [| | |done].
  - destruct (Hj1 n). eapply lookup_weaken; [|exact Hs2]. by eapply lookup_weaken.
  - destruct (Hp2 n). by eapply lookup_weaken.
  - by destruct (Hl3 n).
Qed.

(** Dropping a reference ends the channel when it was the last. *)
Lemma unref_ok r srcs cs ev ch s Q :
  At r srcs cs ev ch s → chan_ok srcs ch →
  (referenced r → Q tt s) → (∀ s', r_held r = 0%nat → gone s' → Q tt s') →
  wp unref Q s.
Proof.
  intros HA Hok H1 H2. unfold unref. apply wp_bind, wp_get.
  pose proof (at_refs _ _ _ _ _ _ HA) as Hr.
  destruct (in_factory s || (0 <? held s)%nat || negb (bool_decide (operations s = ∅))) eqn:E.
  - apply wp_ret, H1. rewrite <- Hr. unfold referenced. cbn.
    apply orb_true_iff in E as [[E|E%Nat.ltb_lt]%orb_true_iff|E%negb_true_iff%bool_decide_eq_false];
      auto.
  - apply orb_false_iff in E as [[Ef Eh%Nat.ltb_ge]%orb_false_iff Eo%negb_false_iff%bool_decide_eq_true].
    assert (held s = 0%nat) as Eh' by lia.
    assert (r = mkRefs false 0 ∅) as -> by (rewrite <- Hr; by rewrite Ef, Eh', Eo).
    eapply wp_mono; [|by eapply muc_dispose_ok]. intros [] s' Hg. by apply H2.
Qed.

Lemma destroyed_ok r srcs cs ev ch s Q :
  At r srcs cs ev ch s → chan_ok srcs ch →
  (∀ s', At (mkRefs false (r_held r) (r_operations r)) srcs cs (ev ++ [Closed (registered (life ch)) true])
           (with_life (live_destroyed (life ch)) ch) s' →
         referenced (mkRefs false (r_held r) (r_operations r)) → Q tt s') →
  (∀ s', r_held r = 0%nat → gone s' → Q tt s') →
  wp tp_base_channel_destroyed Q s.
Proof.
  intros HA Hok H1 H2. unfold tp_base_channel_destroyed. steps.
  assert (held s = r_held r) as -> by (by rewrite <- (at_refs _ _ _ _ _ _ HA)).
  apply (wp_put_refs HA). clear s HA. intros s HA.
  eapply unref_ok; [exact HA|by destruct Hok; split; cbn|eauto|eauto].
Qed.

(** *** States *)

(** The same but for the state of the channel, its timers and the password. *)
Record like ch ch' : Prop := {
  like_jid : jid ch' = jid ch;
  like_closing : closing (life ch') = closing (life ch);
  like_destroyed : destroyed (life ch') = destroyed (life ch);
  like_wmuc : wmuc ch' = wmuc ch;
  like_group : group ch' = group ch;
  like_subj : subj ch' = subj ch;
  like_identity : identity ch' = identity ch;
}.

Lemma like_refl ch : like ch ch.
Proof. done. Qed.
Lemma like_trans ch ch' ch'' : like ch ch' → like ch' ch'' → like ch ch''.
Proof. intros [] []. split; congruence. Qed.

Definition with_must (b : bool) ch : Chan := with_password (mkPassword b (password_ctx (password ch))) ch.

Lemma change_must_ok b r srcs cs ev ch s Q :
  At r srcs cs ev ch s → chan_ok srcs ch → (b = true → local_pending (group ch) = ∅) →
  (∀ ev' ch' s', At r srcs cs ev' ch' s' → chan_ok srcs ch' → like ch ch' →
     life ch' = life ch → timers ch' = timers ch → Q tt s') →
  wp (change_must_provide_password b) Q s.
Proof.
  intros HA Hok Hb HQ. unfold change_must_provide_password. steps. case_bool_decide as E; steps.
  - by eapply HQ.
  - eapply HQ; [exact HA| |done..]. destruct Hok as [?????]. split; cbn; try done.
    destruct b; [left; auto|]. unfold unanswered in *. cbn. naive_solver.
Qed.

Lemma password_return_ok b r srcs cs ev ch s Q :
  At r srcs cs ev ch s → chan_ok srcs ch →
  (∀ ev' ch' s', At r srcs cs ev' ch' s' → chan_ok srcs ch' → like ch ch' →
     life ch' = life ch → timers ch' = timers ch → Q tt s') →
  wp (provide_password_return_if_pending b) Q s.
Proof.
  intros HA Hok HQ. unfold provide_password_return_if_pending. steps.
  assert (Hend : ∀ ev' ch' s', At r srcs cs ev' ch' s' → chan_ok srcs ch' → like ch ch' →
     life ch' = life ch → timers ch' = timers ch →
     wp (when b (change_must_provide_password false)) Q s').
  { intros ev1 ch1 s1 HA1 Hok1 Hl1 H1 H2. apply wp_when; intros _; [|by eapply HQ].
    eapply change_must_ok; [done..|]. intros ev2 ch2 s2 HA2 Hok2 Hl2 H3 H4.
    eapply HQ; [done|done|by eapply like_trans|congruence|congruence]. }
  destruct (password_ctx (password ch)); [do 3 step1|step1; by eapply Hend].
  eapply Hend; [exact HA| |done..]. destruct Hok. by split; cbn.
Qed.

Definition may_enter (st : GabbleMucState) ch : Prop :=
  local_pending (group ch) = ∅ ∧
  match st with
  | MUC_STATE_CREATED => False
  | MUC_STATE_INITIATED => state_of ch = MUC_STATE_CREATED
  | MUC_STATE_AUTH => state_of ch ≠ MUC_STATE_JOINED
  | _ => True
  end.

Lemma ready_ok r srcs cs ev ch s Q :
  At r srcs cs ev ch s → chan_ok srcs ch →
  (∀ ev' ch' s', At r srcs cs ev' ch' s' → chan_ok srcs ch' → like ch ch' →
     state_of ch' = state_of ch → Q tt s') →
  wp (ch ← get_chan; when (negb (ready (life ch))) (emit (Ready (registered (life ch))) ;; change_life live_ready)) Q s.
Proof.
  intros HA Hok HQ. steps; [|by eapply HQ].
  eapply HQ; [exact HA| |done..]. destruct Hok. by split; cbn.
Qed.

(** A channel in the state, before its timers are seen to. *)
Lemma state_set_ok st srcs ch :
  chan_ok srcs ch → may_enter st ch → (st ≠ MUC_STATE_JOINED → unset TIMER_POLL srcs) →
  chan_ok srcs (with_life (live_state st (life ch)) ch).
Proof.
  intros [Ht Hj Hp Hl Hq Hu Hm Hr] [Hlp Hst] Hun. split; cbn; auto.
  - by destruct st.
  - intros n Hn. destruct (decide (st = MUC_STATE_JOINED)) as [->|Hne]; [done|].
    by destruct (Hun Hne n).
Qed.

Lemma timer_set_ok t id srcs ch :
  chan_ok srcs ch → srcs !! id = None → unset t srcs →
  match t with
  | TIMER_JOIN => state_of ch ≠ MUC_STATE_CREATED
  | TIMER_POLL => state_of ch = MUC_STATE_JOINED
  | TIMER_LEAVE => closing (life ch) = true
  end →
  chan_ok (<[id := t]> srcs)
    (with_timers match t with
                 | TIMER_JOIN => mkTimers (Some id) (poll_timer_id (timers ch)) (leave_timer_id (timers ch))
                 | TIMER_POLL => mkTimers (join_timer_id (timers ch)) (Some id) (leave_timer_id (timers ch))
                 | TIMER_LEAVE => mkTimers (join_timer_id (timers ch)) (poll_timer_id (timers ch)) (Some id)
                 end ch).
Proof.
  intros [Ht Hj Hp Hl Hq Hu Hm Hr] Hid Hun Hst. split; try done.
  - intros n t' [[<- <-]|[Hne Hn]]%lookup_insert_Some; [by destruct t|].
    pose proof (Ht n t' Hn). destruct t, t'; cbn in *; try done; by destruct (Hun n).
  - intros n [[<- ->]|[Hne Hn]]%lookup_insert_Some; [done|by eapply Hj].
  - intros n [[<- ->]|[Hne Hn]]%lookup_insert_Some; [done|by eapply Hp].
  - intros n [[<- ->]|[Hne Hn]]%lookup_insert_Some; [done|by eapply Hl].
Qed.

Lemma set_state_ok st r srcs cs ev ch s Q :
  At r srcs cs ev ch s → chan_ok srcs ch → may_enter st ch →
  (∀ srcs' ev' ch' s', At r srcs' cs ev' ch' s' → chan_ok srcs' ch' → like ch ch' →
     state_of ch' = st → Q tt s') →
  wp (set_state st) Q s.
Proof.
  intros HA Hok Hme HQ. unfold set_state. do 3 step1.
  assert (Hpoll : state_of ch ≠ MUC_STATE_JOINED → unset TIMER_POLL srcs).
  { intros Hne n Hn. by apply Hne, (ok_poll _ _ _ Hok n). }
  step1.
  2: { apply negb_false_iff, bool_decide_eq_true in E. eapply HQ; [exact HA| |done..].
    apply state_set_ok; [done..|]. intros Hne. apply Hpoll. unfold state_of. congruence. }
  apply negb_true_iff, bool_decide_eq_false in E. unfold channel_state_changed.
  destruct st; [by destruct Hme| | | |].
  - (* initiated *)
    destruct Hme as [Hlp Hst]. steps. eapply HQ; [exact HA| |done..].
    apply (timer_set_ok TIMER_JOIN); [|done| |done].
    + apply state_set_ok; [done..|]. intros _. apply Hpoll. congruence.
    + intros n Hn. by apply (ok_join _ _ _ Hok n).
  - (* password *)
    destruct Hme as [Hlp Hst]. do 2 step1. eapply ready_ok; [exact HA| |].
    { apply state_set_ok; [done..|]. intros _. by apply Hpoll. }
    intros ev1 ch1 s1 HA1 Hok1 Hl1 Hs1. eapply HQ; [exact HA1|done| |done]. by destruct Hl1.
  - (* joined *)
    step1. step1. eapply password_return_ok; [exact HA|by apply state_set_ok|]. clear s HA.
    intros ev1 ch1 s HA Hok1 Hl1 Hlf1 Ht1. step1.
    apply (clear_timer_ok TIMER_JOIN _ _ _ _ _ _ _ HA Hok1). clear s HA.
    intros srcs2 s HA Hok2 Hj2 Hsub2. do 3 step1.
    eapply ready_ok; [exact HA| |].
    { apply (timer_set_ok TIMER_POLL); [done..| |by unfold state_of; cbn; rewrite Hlf1].
      intros n Hn. apply (Hpoll (not_eq_sym E) n). by eapply lookup_weaken. }
    clear s HA. intros ev3 ch3 s HA Hok3 Hl3 Hs3. eapply HQ; [exact HA|done| |].
    + eapply like_trans; [|exact Hl3]. by destruct Hl1.
    + rewrite Hs3. unfold state_of. cbn. by rewrite Hlf1.
  - (* ended *)
    step1. unfold clear_poll_timer. apply (wp_get_chan HA). cbn.
    destruct (poll_timer_id (timers ch)) as [id|] eqn:Ep; steps; (eapply HQ; [exact HA| |done..]).
    + apply (state_set_ok _ _ (with_timers (clear TIMER_POLL (timers ch)) ch)); [|done|].
      * by apply ok_cleared.
      * intros _. by eapply unset_cleared.
    + apply state_set_ok; [done..|]. intros _. by eapply unset_none.
Qed.

(** *** Presences that are sent *)

Lemma fill_presence_ok env stanza r srcs cs ev ch s Q :
  At r srcs cs ev ch s →
  (∀ n cs' ev' s', cs ⊆ cs' → At r srcs cs' ev' ch s' → Q n s') →
  wp (handle_fill_presence strdown normalize env stanza) Q s.
Proof. intros HA HQ. unfold handle_fill_presence. steps. by eapply HQ. Qed.

Lemma create_presence_ok env unavailable st r srcs cs ev ch s Q :
  At r srcs cs ev ch s → (st = None ∨ unavailable = true) →
  (∀ n cs' ev' s', cs ⊆ cs' → At r srcs cs' ev' ch s' → Q n s') →
  wp (wocky_muc_create_presence get_muc (handle_fill_presence strdown normalize env) unavailable st) Q s.
Proof.
  intros HA Hst HQ. unfold wocky_muc_create_presence. steps.
  { apply orb_true_iff. rewrite bool_decide_eq_true. naive_solver. }
  destruct st; steps; [by eapply HQ|]. by eapply fill_presence_ok.
Qed.

Definition joining ch : Chan :=
  with_wmuc (with_state MUC_INITIATED (role (wmuc ch))
    (handlers (wmuc ch) || (state_number (WockyMuc.muc_state (wmuc ch)) <? state_number MUC_INITIATED))
    (wmuc ch)) ch.

Lemma joining_ok srcs ch : chan_ok srcs ch → local_pending (group ch) = ∅ → chan_ok srcs (joining ch).
Proof. intros [] Hlp. split; cbn; auto. Qed.

Lemma join_request_ok env r srcs cs ev ch s Q :
  At r srcs cs ev ch s →
  (∀ cs' ev' s', cs ⊆ cs' → At r srcs cs' ev' (joining ch) s' → Q tt s') →
  wp (send_join_request strdown normalize env) Q s.
Proof.
  intros HA HQ. unfold send_join_request, wocky_muc_join. do 2 step1.
  eapply create_presence_ok; [exact HA|by left|]. clear s HA. intros n cs1 ev1 s Hcs HA. steps.
  by eapply HQ.
Qed.

Lemma leave_message_ok env reason r srcs cs ev ch s Q :
  At r srcs cs ev ch s →
  (∀ id cs' ev' s', cs ⊆ cs' → srcs !! id = None →
     At r (<[id := TIMER_LEAVE]> srcs) cs' ev'
       (with_timers (mkTimers (join_timer_id (timers ch)) (poll_timer_id (timers ch)) (Some id)) ch) s' →
     Q tt s') →
  wp (send_leave_message strdown normalize env reason) Q s.
Proof.
  intros HA HQ. unfold send_leave_message. step1.
  eapply create_presence_ok; [exact HA|by right|]. clear s HA. intros n cs1 ev1 s Hcs HA. steps.
  by eapply HQ.
Qed.

(** *** Closing *)

Lemma return_subject_ok b r srcs cs ev ch s Q :
  At r srcs cs ev ch s → chan_ok srcs ch →
  (∀ ev' ch' s', At r srcs cs ev' ch' s' → chan_ok srcs ch' →
     life ch' = life ch → wmuc ch' = wmuc ch → group ch' = group ch → timers ch' = timers ch → Q tt s') →
  wp (return_from_set_subject b) Q s.
Proof.
  intros HA Hok HQ. unfold return_from_set_subject. steps.
  destruct (set_subject_context (subj ch)); steps; (eapply HQ; [exact HA| |done..]); destruct Hok;
    by split; cbn.
Qed.

Lemma members_changed_ok srcs ch c :
  chan_ok srcs ch →
  (local_pending (tp_group_mixin_change_members (group ch) c) = ∅ ∨
   add_local_pending c = ∅ ∧ unanswered ch) →
  chan_ok srcs (with_group (tp_group_mixin_change_members (group ch) c) ch).
Proof.
  intros [Ht Hj Hp Hl Hq Hu Hm Hr] Hc. split; cbn; try done. destruct Hc as [Hc|[Hal Hun]]; [by left|].
  right. destruct Hun as (Hsub & Hun). split; [|done]. cbn.
  rewrite local_change, self_change_members, Hal. set_solver.
Qed.

Lemma close_tail r srcs cs ev ch s Q :
  At r srcs cs ev ch s → chan_ok srcs ch → local_pending (group ch) = ∅ →
  (∀ s', settled s' → Q tt s') →
  wp (ch ← get_chan;
      emit (PresencesForgotten (group_members (group ch))) ;;
      when (bool_decide (is_Some (set_subject_context (subj ch)))) (return_from_set_subject false) ;;
      set_state MUC_STATE_ENDED ;;
      s ← get; put_refs (in_factory s) (pred (held s)) ;;
      unref) Q s.
Proof.
  intros HA Hok Hlp HQ. do 3 step1.
  assert (Hend : ∀ ev' ch' s', At r srcs cs ev' ch' s' → chan_ok srcs ch' → group ch' = group ch →
    wp (set_state MUC_STATE_ENDED ;; s ← get; put_refs (in_factory s) (pred (held s)) ;; unref) Q s').
  { clear s HA. intros ev1 ch1 s HA Hok1 Hg. step1.
    eapply set_state_ok; [exact HA|done|by split; [rewrite Hg|]|]. clear s HA.
    intros srcs2 ev2 ch2 s HA Hok2 Hl2 _. do 3 step1.
    pose proof (at_refs _ _ _ _ _ _ HA) as Hr.
    assert (held s = r_held r) as -> by (by rewrite <- Hr).
    assert (in_factory s = r_factory r) as -> by (by rewrite <- Hr).
    apply (wp_put_refs HA). clear s HA Hr. intros s HA.
    eapply unref_ok; [exact HA|done| |]; intros; apply HQ; [left|right; done].
    by exists (mkRefs (r_factory r) (pred (r_held r)) (r_operations r)), srcs2, cs, ev2, ch2. }
  step1. step1.
  - eapply return_subject_ok; [exact HA|done|]. clear s HA. intros ev1 ch1 s HA Hok1 _ _ Hg _.
    by eapply Hend.
  - by eapply Hend.
Qed.

(** Between two inputs: a channel that is well. *)
Lemma settled_at r srcs cs ev ch s :
  At r srcs cs ev ch s → chan_ok srcs ch → referenced r → settled s.
Proof. intros. left. by exists r, srcs, cs, ev, ch. Qed.

Lemma close_ok env reason inform actor code r srcs cs ev ch s :
  At r srcs cs ev ch s → chan_ok srcs ch → referenced r →
  (inform = true → closing (life ch) = false) →
  wp (close_channel strdown normalize env reason inform actor code) (λ _, settled) s.
Proof.
  intros HA Hok Href Hin. unfold close_channel. step1.
  destruct (destroyed (life ch)); [by apply wp_ret; eapply settled_at|].
  destruct (closing (life ch) && negb inform).
  { step1. apply (clear_timer_ok TIMER_LEAVE _ _ _ _ _ _ _ HA Hok). clear s HA.
    intros srcs1 s HA Hok1 _ _. eapply destroyed_ok; [exact HA|done| |by intros; right].
    intros s' HA' Href'. eapply settled_at; [exact HA'| |done..]. destruct Hok1. by split; cbn. }
  destruct (inform && negb (gabble_muc_channel_can_be_closed ch)).
  { unfold tp_base_channel_disappear. steps. eapply settled_at; [exact HA| |done..].
    destruct Hok. by split; cbn. }
  do 3 step1. assert (held s = r_held r) as -> by (by rewrite <- (at_refs _ _ _ _ _ _ HA)).
  assert (in_factory s = r_factory r) as -> by (by rewrite <- (at_refs _ _ _ _ _ _ HA)).
  apply (wp_put_refs HA). clear s HA. intros s HA. unfold change_members. steps. cbn in HA.
  set (c := mkChange _ _ _ _) in HA.
  set (ch1 := with_group _ _) in HA.
  assert (Hlp : local_pending (group ch1) = ∅).
  { cbn. rewrite local_change. cbn. destruct (ok_pending _ _ _ Hok) as [->|[Hsub _]]; set_solver. }
  assert (Hok1 : chan_ok srcs ch1).
  { subst ch1. apply (members_changed_ok _ (with_life (live_tubes false (life ch)) ch)); [|by left].
    destruct Hok. by split; cbn. }
  destruct (inform && _ && _) eqn:Ei.
  - step1. eapply leave_message_ok; [exact HA|]. clear s HA. intros id cs1 ev1 s Hcs Hid HA. step1.
    eapply close_tail; [exact HA| |done..|auto].
    assert (inform = true) as Hi by (by destruct inform).
    destruct Hok1 as [Ht Hj Hp Hl Hq Hu Hm Hr]. split; try done; cbn.
    + intros n t [[<- <-]|[Hne Hn]]%lookup_insert_Some; [done|].
      pose proof (Ht n t Hn). destruct t; try done. specialize (Hl n Hn). cbn in Hl.
      rewrite Hin in Hl; done.
    + intros n [[_ ?]|[Hne Hn]]%lookup_insert_Some; [done|by eapply Hj].
    + intros n [[_ ?]|[Hne Hn]]%lookup_insert_Some; [done|by eapply Hp].
  - eapply destroyed_ok; [exact HA|done| |done]. clear s HA. intros s HA Href1.
    eapply close_tail; [exact HA| |done..|auto]. destruct Hok1. by split; cbn.
Qed.

(** *** Joining *)

Lemma local_stays_empty g c :
  local_pending g = ∅ → add_local_pending c = ∅ →
  local_pending (tp_group_mixin_change_members (G:=G) g c) = ∅.
Proof. intros Hg Hc. rewrite local_change, Hg, Hc. set_solver. Qed.

Lemma set_jid_members j w : members (set_jid strdown j w) = members w.
Proof. unfold set_jid. by destruct (wocky_decode_jid strdown j) as [[[]]|]. Qed.

Lemma nick_conflict_ok env stanza from r srcs cs ev ch s Q :
  At r srcs cs ev ch s → chan_ok srcs ch → local_pending (group ch) = ∅ →
  wocky_node_get_attribute stanza "from" = Some from →
  (∀ k, Q (Some k) s) →
  (∀ cs' ev' ch' s', At r srcs cs' ev' ch' s' → chan_ok srcs ch' → Q None s') →
  wp (handle_nick_conflict strdown normalize env stanza) Q s.
Proof.
  intros HA Hok Hlp Hf Hsome Hnone. unfold handle_nick_conflict. step1. rewrite Hf.
  destruct (strchr from "/" && _); [by apply wp_ret; eapply Hnone|].
  destruct (MAX_NICK_RETRIES <=? nick_retry_count (identity ch)) eqn:Em; [by apply wp_ret|].
  apply Z.leb_gt in Em. unfold change_members. steps.
  eapply join_request_ok; [exact HA|]. clear HA. intros cs1 ev1 s9 Hcs1 HA. steps.
  eapply Hnone; [exact HA|]. apply joining_ok.
  - destruct Hok as [Ht Hj Hp Hl Hq Hu Hm Hr]. split; cbn; try done; [left|by rewrite set_jid_members|lia].
    rewrite local_stays_empty; [done| |done]. by rewrite local_change_self.
  - cbn. rewrite local_stays_empty; [done| |done]. by rewrite local_change_self.
Qed.

Lemma join_failed_ok env k msg code r srcs cs ev ch s :
  At r srcs cs ev ch s → chan_ok srcs ch → referenced r →
  wp (join_failed strdown normalize env k msg code) (λ _, settled) s.
Proof. intros HA Hok Href. unfold join_failed. steps. by eapply close_ok. Qed.

Lemma invitation_answered ch c :
  local_pending (group ch) = ∅ ∨ unanswered ch → add_local_pending c = ∅ →
  containing (self_handle (group ch)) ⊆ del c ∪ add_remote_pending c →
  local_pending (tp_group_mixin_change_members (group ch) c) = ∅.
Proof. intros Hq Hc Hs. rewrite local_change, Hc. destruct Hq as [->|[Hq _]]; set_solver. Qed.

Lemma add_member_ok first env handle message r srcs cs ev ch s :
  At r srcs cs ev ch s → chan_ok srcs ch → referenced r →
  (handle = self_handle (group ch) →
   handle ∈ group_members (group ch) ∨ handle ∈ remote_pending (group ch) ∨
   state_of ch = MUC_STATE_CREATED) →
  wp (gabble_muc_channel_add_member strdown normalize env first handle message) (λ _, settled) s.
Proof.
  intros HA Hok Href Hin. unfold gabble_muc_channel_add_member. step1. case_bool_decide as Es.
  - destruct (_ || _) eqn:E; [apply wp_ret; by eapply settled_at|].
    apply orb_false_iff in E as [E1%bool_decide_eq_false E2%bool_decide_eq_false].
    assert (Hst : state_of ch = MUC_STATE_CREATED) by naive_solver.
    unfold change_members. do 6 step1.
    set (ch1 := with_group _ ch) in HA.
    assert (Hlp1 : local_pending (group ch1) = ∅).
    { subst ch1. cbn. apply invitation_answered; [apply (ok_pending _ _ _ Hok)|done|].
      rewrite <- Es. cbn. set_solver. }
    assert (Hok1 : chan_ok srcs ch1) by (apply members_changed_ok; auto).
    step1. eapply join_request_ok; [exact HA|]. clear s HA. intros cs1 ev1 s Hcs1 HA. step1.
    eapply set_state_ok; [exact HA|by apply joining_ok|done|]. clear s HA.
    intros srcs2 ev2 ch2 s HA Hok2 _ _. steps. by eapply settled_at.
  - destruct (_ <? _); [apply wp_ret; by eapply settled_at|].
    unfold gabble_muc_channel_send_invite. steps. by eapply settled_at.
Qed.

Context (description : WockyXmppError → string).

Lemma error_ok env stanza from error r srcs cs ev ch s :
  At r srcs cs ev ch s → chan_ok srcs ch → local_pending (group ch) = ∅ → referenced r →
  wocky_node_get_attribute stanza "from" = Some from →
  wp (handle_error strdown normalize description env stanza error) (λ _, settled) s.
Proof.
  intros HA Hok Hlp Href Hf. unfold handle_error. step1.
  destruct (muc_state_number MUC_STATE_JOINED <=? _) eqn:Est; [by apply wp_ret; eapply settled_at|].
  destruct (x_core error).1; try (by eapply join_failed_ok).
  - step1. apply (clear_timer_ok TIMER_JOIN _ _ _ _ _ _ _ HA Hok). clear s HA.
    intros srcs1 s HA Hok1 _ _. case_bool_decide as Ea.
    + eapply password_return_ok; [exact HA|done|]. clear s HA. intros. by eapply settled_at.
    + step1. eapply change_must_ok; [exact HA|done..|]. clear s HA.
      intros ev2 ch2 s HA Hok2 Hl2 Hlf2 _. eapply set_state_ok; [exact HA|done| |].
      * split; [by rewrite (like_group _ _ Hl2)|]. unfold state_of. rewrite Hlf2. cbn.
        intros E. by rewrite E in Est.
      * clear s HA. intros. by eapply settled_at.
  - step1. eapply nick_conflict_ok; [exact HA|done..| |].
    + intros k. by eapply join_failed_ok.
    + clear s HA. intros. apply wp_ret. by eapply settled_at.
Qed.

(** *** Occupants *)

Lemma actor_ok jid r srcs cs ev ch s Q :
  At r srcs cs ev ch s →
  (∀ n cs' s', cs ⊆ cs' → At r srcs cs' ev ch s' → Q n s') →
  wp (actor_handle strdown normalize jid) Q s.
Proof. intros HA HQ. destruct jid; cbn; steps; by eapply HQ. Qed.

Lemma owner_ok jid r srcs cs ev ch s Q :
  At r srcs cs ev ch s →
  (∀ n cs' s', cs ⊆ cs' → At r srcs cs' ev ch s' → Q n s') →
  wp (owner_handle strdown normalize jid) Q s.
Proof. intros HA HQ. destruct jid; cbn; steps; by eapply HQ. Qed.

Lemma parted_ok env codes actor why r srcs cs ev ch s :
  At r srcs cs ev ch s → chan_ok srcs ch → referenced r →
  wp (handle_parted strdown normalize env codes actor why) (λ _, settled) s.
Proof.
  intros HA Hok Href. unfold handle_parted. do 3 step1. destruct (closing (life ch)).
  { step1. apply (clear_timer_ok TIMER_LEAVE _ _ _ _ _ _ _ HA Hok). clear s HA.
    intros srcs1 s HA Hok1 _ _. eapply destroyed_ok; [exact HA|done| |by intros; right].
    clear s HA. intros s HA Href'. eapply settled_at; [exact HA| |done..]. destruct Hok1. by split; cbn. }
  destruct (is_empty n); [by apply wp_ret; eapply settled_at|].
  step1. eapply actor_ok; [exact HA|]. clear s HA. intros m cs1 s Hcs1 HA. by eapply close_ok.
Qed.

(** What the handlers of signals leave behind when they end no channel. *)
Definition well (r : Refs) ch (Q : unit → W → Prop) : Prop :=
  ∀ r' srcs' cs' ev' ch' s', At r' srcs' cs' ev' ch' s' → chan_ok srcs' ch' →
    (referenced r → referenced r') → r_held r' = r_held r → wmuc ch' = wmuc ch →
    local_pending (group ch') = ∅ → Q tt s'.

Lemma left_ok codes who actor why r srcs cs ev ch s Q :
  At r srcs cs ev ch s → chan_ok srcs ch → local_pending (group ch) = ∅ → well r ch Q →
  wp (handle_left strdown normalize codes who actor why) Q s.
Proof.
  intros HA Hok Hlp HQ. unfold handle_left, change_members. do 3 step1.
  destruct (is_empty n); [by apply wp_ret; eapply HQ|].
  step1. eapply actor_ok; [exact HA|]. clear s HA. intros m cs1 s Hcs1 HA. steps.
  eapply HQ; [exact HA| |done..|].
  - apply members_changed_ok; [done|]. left. by apply local_stays_empty.
  - by apply local_stays_empty.
Qed.

Lemma perms_ok r srcs cs ev ch s Q :
  At r srcs cs ev ch s → chan_ok srcs ch → local_pending (group ch) = ∅ → well r ch Q →
  wp handle_perms Q s.
Proof.
  intros HA Hok Hlp HQ. unfold handle_perms, room_properties_update, update_permissions. steps.
  - eapply HQ; [exact HA|destruct Hok; by split; cbn|..|done|done]; [|done].
    intros _. right; right. cbn. apply insert_non_empty.
  - eapply HQ; [exact HA|destruct Hok; by split; cbn|done..].
Qed.

Lemma renamed_ok r srcs cs ev ch s Q :
  At r srcs cs ev ch s → chan_ok srcs ch → local_pending (group ch) = ∅ → well r ch Q →
  wp (handle_renamed strdown normalize) Q s.
Proof.
  intros HA Hok Hlp HQ. unfold handle_renamed, change_members. steps.
  assert (local_pending (group (with_group (tp_group_mixin_change_self_handle (group ch) n) ch)) = ∅)
    as Hlp' by (cbn; by rewrite local_change_self).
  eapply HQ; [exact HA| |done..|].
  - apply (members_changed_ok _ (with_group _ ch)); [|left; by apply local_stays_empty].
    destruct Hok. split; cbn; try done. by left.
  - by apply local_stays_empty.
Qed.

Context (normalize_nonempty : ∀ x, x ≠ EmptyString → normalize x ≠ EmptyString).

Lemma occupant_handle cs from :
  occupant strdown from →
  ∃ n, normal strdown normalize (cs:=cs) from GABBLE_JID_ROOM_MEMBER = Some n ∧ n ≠ EmptyString.
Proof.
  intros (n & d & r & Hd). eexists. split.
  - unfold normal, gabble_normalize_contact. rewrite Hd. done.
  - apply normalize_nonempty. by destruct n as [|? []].
Qed.

Lemma parse_presence_ok env handle from stanza r srcs cs ev ch s Q :
  At r srcs cs ev ch s → handle ≠ EmptyString → is_Some stanza →
  (∀ ev' s', At r srcs cs ev' ch s' → Q tt s') →
  wp (gabble_presence_parse_presence_message env handle from stanza) Q s.
Proof.
  intros HA Hne [n ->] HQ. unfold gabble_presence_parse_presence_message.
  case_bool_decide; steps; [by eapply HQ| |by eapply HQ].
  apply negb_true_iff. by apply is_empty_false.
Qed.

Lemma roster_presence_ok env m r srcs cs ev ch s Q :
  At r srcs cs ev ch s → known_member strdown m →
  (∀ n cs' ev' s', cs ⊆ cs' → n ∈ cs' →
     normal strdown normalize (cs:=cs) (m_from m) GABBLE_JID_ROOM_MEMBER = Some n →
     At r srcs cs' ev' ch s' → Q n s') →
  wp (update_roster_presence strdown normalize env m) Q s.
Proof.
  intros HA [Hoc Hst] HQ. unfold update_roster_presence.
  destruct (occupant_handle cs _ Hoc) as (n & Hn & Hne). step1.
  apply (wp_ensure _ _ HA); [|congruence]. clear s HA. intros n' s Hn' HA. simplify_eq.
  step1. eapply owner_ok; [exact HA|]. clear s HA. intros o cs1 s Hcs1 HA. step1.
  eapply parse_presence_ok; [exact HA|done..|]. clear s HA. intros ev1 s HA. steps;
    (eapply HQ; [| | |exact HA]; [set_solver|set_solver|done]).
Qed.

Lemma roster_presences_ok env l r srcs cs ev ch s Q :
  At r srcs cs ev ch s → Forall (known_member strdown) l →
  (∀ ms cs' ev' s', cs ⊆ cs' → ms ⊆ cs' → At r srcs cs' ev' ch s' → Q ms s') →
  wp (update_roster_presences strdown normalize env l) Q s.
Proof.
  revert cs ev s Q. induction l as [|m l IH]; intros cs ev s Q HA Hall HQ; cbn.
  - apply wp_ret. eapply HQ; [| |exact HA]; set_solver.
  - apply Forall_cons in Hall as [Hm Hall]. step1.
    eapply roster_presence_ok; [exact HA|done|]. clear s HA. intros n cs1 ev1 s Hcs1 Hn1 _ HA. step1.
    eapply IH; [exact HA|done|]. clear s HA. intros ms cs2 ev2 s Hcs2 Hms HA. apply wp_ret.
    eapply HQ; [| |exact HA]; [set_solver|].
    unfold containing. destruct (is_empty n); set_solver.
Qed.

Lemma join_ok env codes r srcs cs ev ch s Q :
  At r srcs cs ev ch s → chan_ok srcs ch → local_pending (group ch) = ∅ → well r ch Q →
  wp (handle_join strdown normalize env codes) Q s.
Proof.
  intros HA Hok Hlp HQ. unfold handle_join, change_members. do 3 step1. step1.
  eapply roster_presences_ok; [exact HA| |].
  { apply Forall_fmap, Forall_forall. intros [k m] Hm%elem_of_map_to_list.
    by apply (ok_members _ _ _ Hok k m). }
  clear s HA. intros ms cs1 ev1 s Hcs1 _ HA.
  do 7 step1.
  set (ch1 := with_group _ ch) in HA.
  assert (Hlp1 : local_pending (group ch1) = ∅) by (by apply local_stays_empty).
  assert (Hok1 : chan_ok srcs ch1) by (apply members_changed_ok; auto).
  assert (Hend : ∀ ev' s', At r srcs cs1 ev' ch1 s' → wp (set_state MUC_STATE_JOINED) Q s').
  { intros ev' s' HA'. eapply set_state_ok; [exact HA'|done..|]. clear s HA.
    intros srcs2 ev2 ch2 s HA Hok2 Hl2 Hs2. eapply HQ; [exact HA|done..| |];
      [by rewrite (like_wmuc _ _ Hl2)|by rewrite (like_group _ _ Hl2)]. }
  step1; [step1; by eapply Hend|by eapply Hend].
Qed.

Lemma presence_ok env who r srcs cs ev ch s Q :
  At r srcs cs ev ch s → chan_ok srcs ch → local_pending (group ch) = ∅ →
  known_member strdown who → well r ch Q →
  wp (MucChannel.handle_presence strdown normalize env who) Q s.
Proof.
  intros HA Hok Hlp [Hoc Hst] HQ. unfold MucChannel.handle_presence, change_members.
  destruct (occupant_handle cs _ Hoc) as (n & Hn & Hne). do 2 step1.
  apply (wp_ensure _ _ HA); [|congruence]. clear s HA. intros n' s Hn' HA. simplify_eq.
  step1. eapply owner_ok; [exact HA|]. clear s HA. intros o cs1 s Hcs1 HA. step1.
  assert (Hend : ∀ ev' s', At r srcs cs1 ev' ch s' →
    wp (gabble_presence_parse_presence_message env n (m_from who) (presence_stanza who) ;;
        (change (λ ch, with_group (tp_group_mixin_change_members (group ch) (mkChange (containing n) ∅ ∅ ∅)) ch) ;;
         emit (GroupChanged (Some EmptyString) (mkChange (containing n) ∅ ∅ ∅) EmptyString REASON_NONE)) ;;
        emit (HandleOwner n o)) Q s').
  { clear s HA. intros ev1 s HA. step1. eapply parse_presence_ok; [exact HA|done..|]. clear s HA.
    intros ev2 s HA. steps. eapply HQ; [exact HA| |done..|].
    - apply members_changed_ok; [done|]. left. by apply local_stays_empty.
    - by apply local_stays_empty. }
  step1; [step1; by eapply Hend|by eapply Hend].
Qed.

(** *** Messages *)

Lemma ok_subject_set srcs ch u :
  chan_ok srcs ch → (set_subject_context u = None → set_subject_stanza_id u = None) →
  chan_ok srcs (with_subject u ch).
Proof. intros [] Hu. by split; cbn. Qed.

Lemma ok_life srcs ch l :
  chan_ok srcs ch → muc_channel_state l = state_of ch → closing l = closing (life ch) →
  chan_ok srcs (with_life l ch).
Proof.
  intros [Ht Hj Hp Hl Hq Hu Hm Hr] Hs Hc.
  split; try done; unfold unanswered, state_of in *; cbn in *; by rewrite ?Hs, ?Hc.
Qed.

Lemma subject_ok fm sender dt text error r srcs cs ev ch s Q :
  At r srcs cs ev ch s → chan_ok srcs ch → local_pending (group ch) = ∅ → well r ch Q →
  wp (_gabble_muc_channel_handle_subject fm sender dt text error) Q s.
Proof.
  intros HA Hok Hlp HQ. unfold _gabble_muc_channel_handle_subject. step1. destruct error.
  - step1; [|by eapply HQ]. step1. eapply return_subject_ok; [exact HA|done|]. clear s HA.
    intros ev1 ch1 s HA Hok1 _ Hw Hg _. unfold room_properties_update. steps.
    eapply HQ; [exact HA|done|done|done|done|by rewrite Hg].
  - do 4 step1.
    assert (Hok1 : ∀ u, set_subject_context u = set_subject_context (subj ch) →
      set_subject_stanza_id u = set_subject_stanza_id (subj ch) → chan_ok srcs (with_subject u ch)).
    { intros u Hu1 Hu2. apply ok_subject_set; [done|]. rewrite Hu1, Hu2. apply (ok_subject _ _ _ Hok). }
    step1.
    + eapply return_subject_ok; [exact HA|by apply Hok1|]. clear s HA.
      intros ev1 ch1 s HA Hok2 _ Hw Hg _. eapply HQ; [exact HA|done|done|done|done|by rewrite Hg].
    + eapply HQ; [exact HA|by apply Hok1|done..].
Qed.

Lemma receive_ok env ty fm sender dt id text error ds r srcs cs ev ch s Q :
  At r srcs cs ev ch s → chan_ok srcs ch → local_pending (group ch) = ∅ → well r ch Q →
  wp (_gabble_muc_channel_receive env ty fm sender dt id text error ds) Q s.
Proof.
  intros HA Hok Hlp HQ. unfold _gabble_muc_channel_receive. step1.
  destruct (_ && _); [by apply wp_ret; eapply HQ|].
  destruct (_ && _ && _); [by apply wp_ret; eapply HQ|].
  step1.
  assert (Hend : ∀ ev' l m s', At r srcs cs ev' (with_life l ch) s' →
    muc_channel_state l = state_of ch → closing l = closing (life ch) →
    wp (emit (Received m)) Q s').
  { clear s HA. intros ev1 l m s HA Hl1 Hl2. steps. eapply HQ; [exact HA|by apply ok_life|done..]. }
  unfold tp_base_channel_reopened_with_requested. step1.
  - do 5 step1. destruct (_ || _); by eapply (Hend _ (live_autoclose false (live_registered true (life ch)))).
  - do 2 step1. destruct (_ || _); by eapply (Hend _ (live_autoclose false (life ch))).
Qed.

Lemma sender_ok who r srcs cs ev ch s Q :
  At r srcs cs ev ch s →
  (∀ n cs' s', cs ⊆ cs' → At r srcs cs' ev ch s' → Q n s') →
  wp (message_sender strdown normalize who) Q s.
Proof. intros HA HQ. unfold message_sender. destruct who; steps; by eapply HQ. Qed.

Lemma well_trans r r' ch ch' Q :
  well r ch Q → (referenced r → referenced r') → r_held r' = r_held r → wmuc ch' = wmuc ch → well r' ch' Q.
Proof. intros HQ H1 H2 H3 r2 srcs2 cs2 ev2 ch2 s2 HA2 Hok2 Hr2 Hh2 Hw2 Hl2. eapply HQ; eauto; congruence. Qed.

Lemma message_ok env ty id dt who text sub st r srcs cs ev ch s Q :
  At r srcs cs ev ch s → chan_ok srcs ch → local_pending (group ch) = ∅ → well r ch Q →
  wp (MucChannel.handle_message strdown normalize env ty id dt who text sub st) Q s.
Proof.
  intros HA Hok Hlp HQ. unfold MucChannel.handle_message. do 2 step1.
  eapply sender_ok; [exact HA|]. clear s HA. intros [from|] cs1 s Hcs1 HA; [|by apply wp_ret; eapply HQ].
  step1.
  assert (Hend : well r ch (λ _ s',
    wp (when (bool_decide (is_Some who) && negb (bool_decide (st = MSG_STATE_NONE)))
          (emit (ChatStateChanged from (tp_chat_state st))) ;;
        match sub with
        | Some _ => _gabble_muc_channel_handle_subject (bool_decide (is_Some who)) from dt sub None
        | None => mret tt
        end) Q s')).
  { clear s HA cs1 Hcs1. intros r1 srcs1 cs1 ev1 ch1 s HA Hok1 Hr1 Hh1 Hw1 Hl1.
    pose proof (well_trans _ _ _ _ _ HQ Hr1 Hh1 Hw1) as HQ1.
    step1. step1; [step1|]; (destruct sub; [by eapply subject_ok|]); apply wp_ret; by eapply HQ1. }
  destruct text; [by eapply receive_ok|]. apply wp_ret. by eapply Hend.
Qed.

Lemma errmsg_ok env stanza id dt who text error r srcs cs ev ch s Q :
  At r srcs cs ev ch s → chan_ok srcs ch → local_pending (group ch) = ∅ → well r ch Q →
  wp (handle_errmsg strdown normalize env stanza id dt who text error) Q s.
Proof.
  intros HA Hok Hlp HQ. unfold handle_errmsg. do 2 step1.
  eapply sender_ok; [exact HA|]. clear s HA. intros [from|] cs1 s Hcs1 HA; [|by apply wp_ret; eapply HQ].
  step1.
  assert (Hrest : ∀ ch1 s', At r srcs cs1 ev ch1 s' → chan_ok srcs ch1 → wmuc ch1 = wmuc ch →
    local_pending (group ch1) = ∅ →
    wp (match text with
        | Some t => _gabble_muc_channel_receive env TYPE_NOTICE (bool_decide (is_Some who)) from dt id t
            (Some error) (if bool_decide (x_type error = TYPE_WAIT) then DELIVERY_TEMPORARILY_FAILED
                          else DELIVERY_PERMANENTLY_FAILED)
        | None => mret tt
        end ;;
        ch ← get_chan;
        when (bool_decide (is_Some (wocky_node_get_content_from_child stanza "subject")) ||
              match set_subject_stanza_id (subj ch) with
              | Some i => bool_decide (id = Some i)
              | None => false
              end)
          (_gabble_muc_channel_handle_subject (bool_decide (is_Some who)) from dt
             (wocky_node_get_content_from_child stanza "subject") (Some error))) Q s').
  { clear s HA. intros ch1 s HA Hok1 Hw1 Hl1.
    pose proof (well_trans _ r _ ch1 _ HQ (λ x, x) eq_refl Hw1) as HQ1.
    assert (Hend : well r ch1 (λ _ s',
      wp (ch ← get_chan;
        when (bool_decide (is_Some (wocky_node_get_content_from_child stanza "subject")) ||
              match set_subject_stanza_id (subj ch) with
              | Some i => bool_decide (id = Some i)
              | None => false
              end)
          (_gabble_muc_channel_handle_subject (bool_decide (is_Some who)) from dt
             (wocky_node_get_content_from_child stanza "subject") (Some error))) Q s')).
    { clear s HA. intros r2 srcs2 cs2 ev2 ch2 s HA Hok2 Hr2 Hh2 Hw2 Hl2.
      pose proof (well_trans _ _ _ _ _ HQ1 Hr2 Hh2 Hw2) as HQ2. step1.
      step1; [by eapply subject_ok|by eapply HQ2]. }
    step1. destruct text; [by eapply receive_ok|]. apply wp_ret. by eapply Hend. }
  step1.
  - step1. eapply Hrest; [exact HA| |done..]. destruct Hok. by split; cbn.
  - by eapply Hrest.
Qed.

(** *** The room's presences *)

Local Notation signal := (g_signal_emit strdown normalize description).

Lemma ok_wmuc srcs ch w :
  chan_ok srcs ch → local_pending (group ch) = ∅ →
  map_Forall (λ _, known_member strdown) (members w) → chan_ok srcs (with_wmuc w ch).
Proof. intros [] Hlp Hm. split; cbn; auto. Qed.

(** A presence of somebody in the room names that occupant. *)
Definition names_occupant (stanza : WockyNode) : Prop :=
  wocky_node_get_attribute stanza "type" = None →
  ∀ from n d, wocky_node_get_attribute stanza "from" = Some from →
    wocky_decode_jid strdown from ≠ Some (n, d, None).

Lemma user_presence_ok env stanza from jid nk ro aff st codes r srcs cs ev ch s :
  At r srcs cs ev ch s → chan_ok srcs ch → local_pending (group ch) = ∅ → referenced r →
  occupant strdown from →
  wp (handle_user_presence get_muc put_muc (signal env) stanza from jid nk ro aff st codes)
    (λ _, settled) s.
Proof.
  intros HA Hok Hlp Href Hoc. unfold handle_user_presence.
  destruct nk; [|apply wp_ret; by eapply settled_at]. do 4 step1.
  match type of HA with At _ _ _ _ (with_wmuc ?w _) _ =>
    assert (Hok1 : chan_ok srcs (with_wmuc w ch)) end.
  { apply ok_wmuc; [done..|]. apply map_Forall_insert_2; [by split|]. apply (ok_members _ _ _ Hok). }
  step1. step1.
  - eapply presence_ok; [exact HA|done..|]. clear s HA. intros r1 srcs1 cs1 ev1 ch1 s HA Hok2 Hr1 Hh1 _ _.
    apply wp_ret. eapply settled_at; [exact HA|done|auto].
  - apply wp_ret. by eapply settled_at.
Qed.

Lemma self_presence_ok env stanza nk ro aff actor why st codes r srcs cs ev ch s Q :
  At r srcs cs ev ch s → chan_ok srcs ch → local_pending (group ch) = ∅ →
  (∀ r' srcs' cs' ev' ch' s', At r' srcs' cs' ev' ch' s' → chan_ok srcs' ch' →
     (referenced r → referenced r') → r_held r' = r_held r →
     wmuc ch' = own_presence nk ro aff st codes (wmuc ch) → local_pending (group ch') = ∅ → Q tt s') →
  wp (handle_self_presence get_muc put_muc (signal env) stanza nk ro aff actor why st codes) Q s.
Proof.
  intros HA Hok Hlp HQ. unfold handle_self_presence. do 4 step1.
  set (w := own_presence nk ro aff st codes (wmuc ch)) in *.
  assert (Hok1 : chan_ok srcs (with_wmuc w ch)) by (apply ok_wmuc; [done..|apply (ok_members _ _ _ Hok)]).
  assert (Hperm : well r (with_wmuc w ch) (λ _ s',
    wp (when (negb (bool_decide (role (wmuc ch) = ro)) || negb (bool_decide (affiliation (wmuc ch) = aff)))
          (signal env (SIG_PERM_CHANGE stanza codes actor why))) Q s')).
  { clear s HA. intros r1 srcs1 cs1 ev1 ch1 s HA Hok2 Hr1 Hh1 Hw1 Hl1. step1; [|by eapply HQ].
    eapply perms_ok; [exact HA|done..|]. clear s HA.
    intros r2 srcs2 cs2 ev2 ch2 s HA Hok3 Hr2 Hh2 Hw2 Hl2. eapply HQ; [exact HA|done|auto|by rewrite Hh2|by rewrite Hw2|done]. }
  step1. step1; [by eapply renamed_ok|by eapply Hperm].
Qed.

Lemma presence_standard_ok env stanza available from n d resource r srcs cs ev ch s :
  At r srcs cs ev ch s → chan_ok srcs ch → local_pending (group ch) = ∅ → referenced r →
  wocky_decode_jid strdown from = Some (Some n, d, resource) →
  (available = true → resource ≠ None) →
  wp (handle_presence_standard get_muc put_muc (signal env) stanza available from resource)
    (λ _, settled) s.
Proof.
  intros HA Hok Hlp Href Hd Hav. unfold handle_presence_standard.
  destruct (wocky_node_get_child_ns stanza (Some "x") _) as [x|];
    [|apply wp_ret; by eapply settled_at].
  do 2 step1. destruct available; [|destruct (has_code _ _)].
  - destruct (has_code _ _).
    + step1. eapply self_presence_ok; [exact HA|done..|]. clear s HA.
      intros r1 srcs1 cs1 ev1 ch1 s HA Hok1 Hr1 Hh1 Hw1 Hl1. do 3 step1.
      destruct (_ <? _).
      * do 2 step1. eapply join_ok; [exact HA|apply ok_wmuc; [done..|]|done|].
        { apply (ok_members _ _ _ Hok1). }
        clear s HA. intros r2 srcs2 cs2 ev2 ch2 s HA Hok2 Hr2 Hh2 _ _. apply wp_ret.
        eapply settled_at; [exact HA|done|auto].
      * cbn. apply wp_ret, wp_ret. eapply settled_at; [exact HA|done|auto].
    + eapply user_presence_ok; [exact HA|done..|].
      destruct resource as [res|]; [by exists n, d, res|by destruct Hav].
  - do 3 step1. apply (wp_mono _ (λ _, settled)); [by intros [] s' Hs; apply wp_ret|].
    eapply parted_ok; [exact HA| |done..]. apply ok_wmuc; [done..|apply (ok_members _ _ _ Hok)].
  - destruct (members (wmuc ch) !! from) as [m|] eqn:Em; [|apply wp_ret; by eapply settled_at].
    step1. eapply left_ok; [exact HA|done..|]. clear s HA.
    intros r1 srcs1 cs1 ev1 ch1 s HA Hok1 Hr1 Hh1 Hw1 Hl1. steps.
    eapply settled_at; [exact HA| |auto]. apply ok_wmuc; [done..|].
    apply map_Forall_delete, (ok_members _ _ _ Hok1).
Qed.

Lemma from_room_decode w stanza :
  from_room strdown w stanza = true →
  handlers w = true ∧ ∃ from n d res, wocky_node_get_attribute stanza "from" = Some from ∧
    wocky_decode_jid strdown from = Some (Some n, d, res).
Proof.
  unfold from_room. intros [Hh Hf]%andb_true_iff. split; [done|].
  destruct (wocky_node_get_attribute stanza "from") as [from|]; [|done]. cbn in Hf.
  destruct (wocky_decode_jid strdown from) as [[[[n|] d] res]|] eqn:E; [|done..]. eauto 8.
Qed.

Context (from_iso8601 : string → option Z) (domains : list WockyXmppErrorDomain).

Lemma room_presence_ok env stanza r srcs cs ev ch s :
  At r srcs cs ev ch s → chan_ok srcs ch → referenced r →
  from_room strdown (wmuc ch) stanza = true → names_occupant stanza →
  wp (WockyMuc.handle_presence strdown domains get_muc put_muc (signal env) stanza)
    (λ _, settled) s.
Proof.
  intros HA Hok Href Hfr Hn.
  destruct (from_room_decode _ _ Hfr) as (Hhd & from & n & d & res & Hf & Hd).
  assert (Hlp : local_pending (group ch) = ∅).
  { destruct (ok_pending _ _ _ Hok) as [?|(_ & _ & Hh' & _)]; congruence. }
  unfold WockyMuc.handle_presence. rewrite Hf.
  destruct (wocky_node_get_attribute stanza "type") as [t|] eqn:Et; [|rewrite Hd].
  - case_bool_decide; [rewrite Hd; by eapply presence_standard_ok|].
    case_bool_decide; [|apply wp_ret; by eapply settled_at].
    destruct (wocky_stanza_extract_errors domains stanza) as [error|];
      [|apply wp_ret; by eapply settled_at].
    step1. eapply wp_mono; [|by eapply error_ok]. intros [] s' Hs. by apply wp_ret.
  - eapply presence_standard_ok; [exact HA|done..|]. intros _ ->. by eapply Hn.
Qed.

Lemma room_message_ok env stanza r srcs cs ev ch s :
  At r srcs cs ev ch s → chan_ok srcs ch → referenced r →
  from_room strdown (wmuc ch) stanza = true →
  wp (WockyMuc.handle_message from_iso8601 domains get_muc (signal env)
        (wocky_normalise_jid strdown) stanza) (λ _, settled) s.
Proof.
  intros HA Hok Href Hfr.
  destruct (from_room_decode _ _ Hfr) as (Hhd & from & n & d & res & Hf & Hd).
  assert (Hlp : local_pending (group ch) = ∅).
  { destruct (ok_pending _ _ _ Hok) as [?|(_ & _ & Hh' & _)]; congruence. }
  unfold WockyMuc.handle_message. rewrite Hf. step1.
  assert (Hrest : ∀ who, wp
    (if strchr from "/" && negb (bool_decide (wocky_node_get_attribute stanza "type" = Some "groupchat"))
     then mret false
     else
       let '(mtype, body) := determine_message_type (wocky_node_get_child stanza "body" ≫= content)
                               (wocky_node_get_attribute stanza "type") in
       match wocky_stanza_extract_errors domains stanza with
       | Some error =>
           signal env (SIG_MSG_ERR stanza mtype (wocky_node_get_attribute stanza "id")
             (extract_timestamp from_iso8601 stanza) who body error) ;; mret true
       | None =>
           signal env (SIG_MSG stanza mtype (wocky_node_get_attribute stanza "id")
             (extract_timestamp from_iso8601 stanza) who body
             (wocky_node_get_child stanza "subject" ≫= content) (extract_chat_state stanza)) ;;
           mret true
       end) (λ _, settled) s).
  { intros who. destruct (_ && _); [apply wp_ret; by eapply settled_at|].
    destruct (determine_message_type _ _) as [mtype body].
    destruct (wocky_stanza_extract_errors domains stanza); step1;
      [eapply errmsg_ok|eapply message_ok]; try done;
      intros r1 srcs1 cs1 ev1 ch1 s1 HA1 Hok1 Hr1 Hh1 Hw1 Hl1; apply wp_ret;
      (eapply settled_at; [exact HA1|done|auto]). }
  destruct (strchr from "/"); [|apply wp_ret, Hrest].
  unfold get_message_sender. do 3 step1.
  destruct (members (wmuc ch) !! from); [repeat apply wp_ret; apply Hrest|].
  destruct (bool_decide (_ = Some (muc_jid _))); repeat apply wp_ret; apply Hrest.
Qed.

(** *** Methods *)

Lemma ok_fewer srcs srcs' ch : srcs' ⊆ srcs → chan_ok srcs ch → chan_ok srcs' ch.
Proof.
  intros Hsub [Ht Hj Hp Hl Hq Hu Hm Hr].
  split; try done; intros; [eapply Ht|eapply Hj|eapply Hp|eapply Hl]; by eapply lookup_weaken.
Qed.

Lemma source_removed_settled id s : settled s → wp (g_source_remove id) (λ _, settled) s.
Proof.
  intros [(r & srcs & cs & ev & ch & HA & Hok & Href)|[Hc Hs Ho Hf Hh]].
  - step1. eapply settled_at; [exact HA| |done..]. eapply ok_fewer; [|done]. apply delete_subseteq.
  - unfold g_source_remove. apply wp_bind, wp_get, wp_modify. right. split; cbn; try done.
    rewrite Hs. apply delete_empty.
Qed.

Lemma remove_member_ok env handle message r srcs cs ev ch s :
  At r srcs cs ev ch s → chan_ok srcs ch → referenced r →
  (handle = self_handle (group ch) → closing (life ch) = false) →
  wp (gabble_muc_channel_remove_member strdown normalize env handle message) (λ _, settled) s.
Proof.
  intros HA Hok Href Hin. unfold gabble_muc_channel_remove_member. step1. case_bool_decide as Es.
  - eapply close_ok; eauto.
  - steps. by eapply settled_at.
Qed.

Lemma provide_password_ok env p ctx r srcs cs ev ch s :
  At r srcs cs ev ch s → chan_ok srcs ch → referenced r →
  wp (gabble_muc_channel_provide_password strdown normalize env p ctx) (λ _, settled) s.
Proof.
  intros HA Hok Href. unfold gabble_muc_channel_provide_password. step1.
  destruct (_ || _) eqn:E; [steps; by eapply settled_at|].
  apply orb_false_iff in E as [E%negb_false_iff _].
  assert (Hlp : local_pending (group ch) = ∅).
  { destruct (ok_pending _ _ _ Hok) as [?|(_ & _ & _ & Hm)]; congruence. }
  do 5 step1. eapply join_request_ok; [exact HA|]. clear s HA. intros cs1 ev1 s Hcs1 HA. steps.
  eapply settled_at; [exact HA| |done..].
  assert (Hok1 : chan_ok srcs (joining (with_wmuc (with_pass (Some p) (wmuc ch)) ch))).
  { apply joining_ok; [|done]. apply ok_wmuc; [done..|apply (ok_members _ _ _ Hok)]. }
  destruct Hok1. split; cbn; auto.
Qed.

Lemma set_subject_ok env text ctx r srcs cs ev ch s :
  At r srcs cs ev ch s → chan_ok srcs ch → referenced r →
  wp (gabble_muc_channel_set_subject env text ctx) (λ _, settled) s.
Proof.
  intros HA Hok Href. unfold gabble_muc_channel_set_subject. step1.
  destruct (_ || _) eqn:E; [steps; by eapply settled_at|].
  apply orb_false_iff in E as [_ E%bool_decide_eq_false].
  assert (Hn : set_subject_context (subj ch) = None).
  { destruct (set_subject_context (subj ch)); [|done]. by destruct E. }
  steps; [apply bool_decide_eq_true, (ok_subject _ _ _ Hok), Hn|].
  eapply settled_at; [exact HA|by apply ok_subject_set|].
  right; right. apply insert_non_empty.
Qed.

Lemma finish_ok id r srcs cs ev ch s :
  At r srcs cs ev ch s → chan_ok srcs ch → wp (finish_operation id) (λ _, settled) s.
Proof.
  intros HA Hok. unfold finish_operation. apply wp_bind, wp_get, wp_bind, wp_modify.
  match goal with |- wp unref _ ?s1 =>
    assert (HA1 : At (mkRefs (r_factory r) (r_held r) (delete id (r_operations r))) srcs cs ev ch s1) end.
  { destruct HA as [? <- ??? Hf Ho]. cbn in *. split; cbn; try done.
    intros n Hn. rewrite lookup_delete_None. right. by apply Ho. }
  eapply unref_ok; [exact HA1|exact Hok| |by right]. intros Href. by eapply settled_at.
Qed.

Lemma ok_properties srcs ch p : chan_ok srcs ch → chan_ok srcs (with_properties p ch).
Proof. intros []. by split; cbn. Qed.

Lemma operation_ok id reply o r srcs cs ev ch s :
  At r srcs cs ev ch s → chan_ok srcs ch → referenced r →
  wp (operation_done id reply o) (λ _, settled) s.
Proof.
  intros HA Hok Href. destruct o; cbn.
  - unfold _gabble_muc_channel_message_sent_cb. do 3 step1. by eapply finish_ok.
  - unfold sent_subject_cb. do 3 step1; [|by eapply finish_ok].
    eapply return_subject_ok; [exact HA|done|]. clear s HA. intros. by eapply finish_ok.
  - unfold perms_config_form_reply_cb. step1. step1. case_bool_decide; [|step1; by eapply finish_ok].
    destruct (reply ≫= config_form_get_form_node); [|step1; by eapply finish_ok].
    step1; [do 3 step1|]; by eapply finish_ok.
  - unfold request_config_form_reply_cb. step1. step1.
    match goal with |- wp (match ?x with _ => _ end) _ _ => destruct x end.
    + step1. by eapply finish_ok.
    + do 3 step1. eapply finish_ok; [exact HA|by apply ok_properties].
  - unfold request_config_form_submit_reply_cb, room_properties_update. do 8 step1.
    eapply finish_ok; [exact HA|by apply ok_properties].
Qed.

(** *** Every input *)

(** The channel is not closed a second time while it waits for the room to
    let us go, nor do we ask to join it again then or under another name;
    the room does not say of itself that it is in the room. *)
Definition polite ch (i : muc_input) : Prop :=
  match i with
  | Presence stanza => names_occupant stanza
  | Close => closing (life ch) = false
  | RemoveMember h _ => h = self_handle (group ch) → closing (life ch) = false
  | TubeClosed true => autoclose (life ch) = true → closing (life ch) = false
  | AddMember h _ =>
      h = self_handle (group ch) →
      h ∈ group_members (group ch) ∪ remote_pending (group ch) ∪ local_pending (group ch)
  | UpdateConfiguration _ _ => properties_being_updated ch = None
  | _ => True
  end.

Definition polite_in s (i : muc_input) : Prop := ∀ ch, chan s = Some ch → polite ch i.

Context (first : gset string → option string).
Local Notation run := (run_input strdown normalize from_iso8601 domains description first).

Lemma if_alive_ok k s :
  settled s →
  (∀ r srcs cs ev ch, At r srcs cs ev ch s → chan_ok srcs ch → referenced r →
     wp (k ch) (λ _, settled) s) →
  wp (if_alive k) (λ _, settled) s.
Proof.
  intros Hs Hk. unfold if_alive. apply wp_bind, wp_get. destruct Hs as [Ha|Hg].
  - destruct Ha as (r & srcs & cs & ev & ch & HA & Hok & Href).
    rewrite (at_chan _ _ _ _ _ _ HA). by eapply Hk.
  - rewrite (gone_chan _ Hg). apply wp_ret. by right.
Qed.

Lemma on_bus_ok m s :
  settled s →
  (∀ r srcs cs ev ch, At r srcs cs ev ch s → chan_ok srcs ch → referenced r →
     wp m (λ _, settled) s) →
  wp (on_bus m) (λ _, settled) s.
Proof.
  intros Hs Hm. apply if_alive_ok; [done|]. intros r srcs cs ev ch HA Hok Href.
  step1; [by eapply Hm|by eapply settled_at].
Qed.

Lemma fire_ok env id t r srcs cs ev ch s :
  At r srcs cs ev ch s → chan_ok srcs ch → referenced r →
  wp (fire strdown normalize env id t) (λ _, settled) s.
Proof.
  intros HA Hok Href. destruct t; cbn.
  - step1. unfold timeout_join. step1. eapply password_return_ok; [exact HA|done|]. clear s HA.
    intros ev1 ch1 s HA Hok1 _ _ _. eapply wp_mono; [|by eapply close_ok].
    intros [] s'. apply source_removed_settled.
  - unfold timeout_poll, room_properties_update. steps. by eapply settled_at.
  - step1. unfold timeout_leave. step1. eapply destroyed_ok; [exact HA|done|..].
    + clear s HA. intros s HA Href'. apply source_removed_settled. eapply settled_at; [exact HA| |done..].
      by apply ok_life.
    + intros s' _ Hg. apply source_removed_settled. by right.
Qed.

Lemma disco_ok q r srcs cs ev ch s :
  At r srcs cs ev ch s → chan_ok srcs ch → referenced r →
  wp (properties_disco_cb q) (λ _, settled) s.
Proof.
  intros HA Hok Href. unfold properties_disco_cb. step1.
  destruct q as [q|]; [|apply wp_ret; by eapply settled_at].
  step1. apply (wp_mono _ (λ _ s', ∃ ev', At r srcs cs ev' ch s')).
  - intros [] s1 [ev1 HA1]. apply wp_bind.
    eapply wp_mono; [|apply (wp_for_each (λ _ s', ∃ ev', At r srcs cs ev' ch s')); [|by exists ev1]].
    + intros [] s2 [ev2 HA2]. step1. by eapply settled_at.
    + intros c l s2 [ev2 HA2]. destruct (room_property c) as [[p v]|]; step1; eauto.
  - destruct (room_title q); step1; eauto.
Qed.

Lemma tube_closed_ok env last r srcs cs ev ch s :
  At r srcs cs ev ch s → chan_ok srcs ch → (last = true → autoclose (life ch) = true → closing (life ch) = false) →
  wp (muc_sub_channel_closed_cb strdown normalize env last) (λ _, settled) s.
Proof.
  intros HA Hok Hc. unfold muc_sub_channel_closed_cb. do 4 step1.
  assert (held s = r_held r) as -> by (by rewrite <- (at_refs _ _ _ _ _ _ HA)).
  assert (in_factory s = r_factory r) as -> by (by rewrite <- (at_refs _ _ _ _ _ _ HA)).
  apply wp_bind, (wp_put_refs HA). clear s HA. intros s HA. step1.
  assert (Href : referenced (mkRefs (r_factory r) (S (r_held r)) (r_operations r))) by (right; left; cbn; lia).
  apply wp_when; intros E.
  - eapply close_ok; [exact HA|by apply ok_life|done|]. intros _. cbn in *.
    apply andb_true_iff in E as [E1 E2]. apply Hc; [|done]. by destruct last.
  - eapply settled_at; [exact HA|by apply ok_life|done].
Qed.

Lemma muc_input_ok env i s :
  settled s → polite_in s i → wp (run env i) (λ _, settled) s.
Proof.
  intros Hs Hp. destruct i; cbn [run_input];
    try (first [apply on_bus_ok|apply if_alive_ok]; [done|]; intros r srcs cs ev ch HA Hok Href;
         specialize (Hp ch (at_chan _ _ _ _ _ _ HA)); cbn in Hp).
  - step1; [|by eapply settled_at]. step1. eapply wp_mono; [|by eapply room_presence_ok].
    intros b s' Hs'. by apply wp_ret.
  - step1; [|by eapply settled_at]. step1. eapply wp_mono; [|by eapply room_message_ok].
    intros b s' Hs'. by apply wp_ret.
  - apply wp_bind, wp_get. destruct (sources s !! id) as [t|] eqn:E; [|by apply wp_ret].
    destruct Hs as [(r & srcs & cs & ev & ch & HA & Hok & Href)|Hg].
    + by eapply fire_ok.
    + by rewrite (gone_sources _ Hg), lookup_empty in E.
  - eapply close_ok; eauto.
  - by eapply close_ok.
  - step1. eapply wp_mono; [|eapply add_member_ok; [exact HA|done..|]].
    + intros b s' Hs'. by apply wp_ret.
    + intros Hself. specialize (Hp Hself). destruct (ok_pending _ _ _ Hok) as [Hl|(_ & ? & _)]; set_solver.
  - by eapply remove_member_ok.
  - by eapply provide_password_ok.
  - by eapply set_subject_ok.
  - unfold gabble_muc_channel_send. do 3 step1.
    destruct (gabble_message_util_build_stanza _ _ _ _ _ _ _); steps; [|by eapply settled_at].
    eapply settled_at; [exact HA|done|]. right; right. apply insert_non_empty.
  - unfold gabble_muc_channel_send_chat_state. step1.
    destruct (have_received_error_type_wait ch); steps; by eapply settled_at.
  - unfold gabble_muc_channel_send_presence. step1.
    destruct (_ <? _); [apply wp_ret; by eapply settled_at|]. step1.
    eapply create_presence_ok; [exact HA|by left|]. clear s Hs HA. intros n cs1 ev1 s Hcs1 HA. step1.
    by eapply settled_at.
  - unfold gabble_muc_channel_update_configuration_async. steps; [by apply bool_decide_eq_true|].
    eapply settled_at; [exact HA|by apply ok_properties|]. right; right. apply insert_non_empty.
  - by eapply disco_ok.
  - apply wp_bind, wp_get. destruct (operations s !! id) as [o|] eqn:E; [|by apply wp_ret].
    destruct Hs as [(r & srcs & cs & ev & ch & HA & Hok & Href)|Hg].
    + by eapply operation_ok.
    + by rewrite (gone_operations _ Hg), lookup_empty in E.
  - step1. eapply settled_at; [exact HA|by apply ok_life|done..].
  - eapply tube_closed_ok; [exact HA|done|]. by intros ->.
  - unfold gabble_muc_channel_send_invite. steps. by eapply settled_at.
  - step1. eapply settled_at; [exact HA|by apply ok_life|done].
  - step1. eapply settled_at; [exact HA|by apply ok_life|done].
  - do 2 step1. apply wp_bind.
    assert (held s = r_held r) as -> by (by rewrite <- (at_refs _ _ _ _ _ _ HA)).
    apply (wp_put_refs HA). clear s Hs HA. intros s HA.
    eapply unref_ok; [exact HA|done| |by right]. intros. by eapply settled_at.
  - apply wp_bind, wp_get, wp_modify. destruct Hs as [(r & srcs & cs' & ev & ch & HA & Hok & Href)|[]].
    + left. exists r, srcs, (cs ∪ contacts s), ev, ch. destruct HA. by split_and!; [split|..].
    + right. by split.
Qed.
End safety.
End MucFacts.
