(* ===== verification/MucTheorems.v ===== *)
(** * Chat rooms: theorems

    That no input aborts a channel whose user is patient and whose room is
    well-behaved, that the members of the channel are the occupants of the
    room, how joining ends, how messages and configurations travel; and what
    an impatient user and an ill-behaved room bring about. *)

From Stdlib Require String.
From S2P Require Import Prelude Node Namespaces Jid XmppError MessageUtil WockyMuc MucChannel MucFacts.

Module MucTheorems.
Import Jid XmppError MessageUtil WockyMuc MucChannel MucFacts.

(** ** The configuration of a room *)

(** The fields of a form that have a name. *)
Definition named_fields (form : WockyNode) : list WockyNode :=
  List.filter (λ n, bool_decide (is_Some (wocky_node_get_attribute n "var")))
    (List.filter (λ n, bool_decide (name n = "field")) (children form)).

Definition field_values (field : WockyNode) : list (option string) :=
  content <$> List.filter (λ n, bool_decide (name n = "value")) (children field).

(** The property a field is for. *)
Definition field_property (field : WockyNode) : option TpBaseRoomConfigProperty :=
  var ← wocky_node_get_attribute field "var"; f ← lookup_config_form_field var; Some f.1.2.

(** What is asked for a field. *)
Definition asked_value (properties : Properties) (field : WockyNode) : option (option string) :=
  var ← wocky_node_get_attribute field "var"; f ← lookup_config_form_field var;
  v ← lookup_property properties f.1.2; Some (f.2 v).

(** What is submitted for a field of the form. *)
Definition answers (properties : Properties) (field answer : WockyNode) : Prop :=
  wocky_node_get_attribute answer "var" = wocky_node_get_attribute field "var" ∧
  wocky_node_get_attribute answer "type" = wocky_node_get_attribute field "type" ∧
  field_values answer = match asked_value properties field with
                        | Some v => [v]
                        | None => field_values field
                        end.

Lemma copied_values (l : list WockyNode) :
  content <$> List.filter (λ n, bool_decide (name n = "value"))
    ((λ v, mkNode "value" v (Some NS_X_DATA) [] []) ∘ content <$> l) = content <$> l.
Proof.
  induction l as [|c l IH]; [done|]. rewrite !fmap_cons. cbn [List.filter].
  rewrite bool_decide_eq_true_2 by done. rewrite fmap_cons. f_equal. exact IH.
Qed.

Lemma config_field_answers properties field :
  match config_field properties field with
  | Some (answer, p) =>
      is_Some (wocky_node_get_attribute field "var") ∧ answers properties field answer ∧
      p = (q ← field_property field; _ ← lookup_property properties q; Some q)
  | None => wocky_node_get_attribute field "var" = None
  end.
Proof.
  unfold config_field, answers, asked_value, field_property.
  destruct (wocky_node_get_attribute field "var") as [var|] eqn:Ev; cbn [mbind option_bind]; [|done].
  assert (Hat : ∀ l, wocky_node_get_attribute (set_children (mkNode "field" None (Some NS_X_DATA)
      (mkAttribute "var" var None :: match wocky_node_get_attribute field "type" with
        | Some t => [mkAttribute "type" t None] | None => [] end) []) l) "var" = Some var ∧
    wocky_node_get_attribute (set_children (mkNode "field" None (Some NS_X_DATA)
      (mkAttribute "var" var None :: match wocky_node_get_attribute field "type" with
        | Some t => [mkAttribute "type" t None] | None => [] end) []) l) "type" =
    wocky_node_get_attribute field "type").
  { intros l. by destruct (wocky_node_get_attribute field "type"). }
  destruct (lookup_config_form_field var) as [f|]; cbn [mbind option_bind];
    [destruct (lookup_property properties f.1.2) as [v|]; cbn [mbind option_bind]|].
  - split; [done|]. split; [|done]. by split_and!; [apply Hat..|].
  - split; [done|]. split; [|done]. split_and!; [apply Hat..|]. unfold field_values. cbn [children set_children].
    apply copied_values.
  - split; [done|]. split; [|done]. split_and!; [apply Hat..|]. unfold field_values. cbn [children set_children].
    apply copied_values.
Qed.

Lemma lookup_property_in (properties : Properties) p :
  p ∈ properties.*1 ↔ is_Some (lookup_property properties p).
Proof.
  unfold lookup_property. induction properties as [|[q v] l IH]; cbn.
  - split; [by intros ?%not_elem_of_nil|by intros [? ?]].
  - rewrite elem_of_cons, IH. case_bool_decide as E; cbn; naive_solver.
Qed.

(** C25: The form that is sent back to configure a room
    has an answer for every named field of the form, in order: the values
    that were asked for where a field is for a property to be changed, and the
    values it had elsewhere.  If a property has no field, nothing is sent and
    the properties without one are those that are reported. *)
Theorem room_config_submitted properties form :
  match fill_config_form properties form with
  | inr fields =>
      Forall2 (answers properties) (named_fields form) fields ∧
      ∀ p, p ∈ properties.*1 → ∃ field, field ∈ named_fields form ∧ field_property field = Some p
  | inl missing =>
      missing ≠ [] ∧
      ∀ p, p ∈ missing ↔ p ∈ properties.*1 ∧ ∀ field, field ∈ named_fields form → field_property field ≠ Some p
  end.
Proof.
  unfold fill_config_form, named_fields.
  set (cf := List.filter (λ n, bool_decide (name n = "field")) (children form)). clearbody cf.
  set (nf := List.filter _ cf).
  assert (Hfor : Forall2 (λ c a, answers properties c a.1 ∧
      a.2 = (q ← field_property c; _ ← lookup_property properties q; Some q))
    nf (omap (config_field properties) cf)).
  { subst nf. induction cf as [|c cf IH]; [done|]. cbn. pose proof (config_field_answers properties c) as Hc.
    destruct (config_field properties c) as [[a p]|].
    - destruct Hc as (Hs & Ha & Hp). rewrite bool_decide_eq_true_2 by done. by constructor.
    - rewrite bool_decide_eq_false_2; [done|]. rewrite Hc. by intros [? ?]. }
  set (out := omap _ _) in *. clearbody out.
  assert (Hcov : ∀ p, p ∈ properties.*1 → Some p ∈ out.*2 ↔ ∃ c, c ∈ nf ∧ field_property c = Some p).
  { clearbody nf. intros p Hp%lookup_property_in. induction Hfor as [|c [a q] nf out [Ha Hq] Hfor IH]; cbn.
    - split; [by intros ?%not_elem_of_nil|intros (c & ?%not_elem_of_nil & _); done].
    - rewrite elem_of_cons, IH. cbn in Hq. subst q. split.
      + intros [E|(c' & Hc' & E)]; [exists c|exists c'; split; [by right|done]]. split; [by left|].
        destruct (field_property c) as [q|]; cbn in E; [|done].
        destruct (lookup_property properties q); cbn in E; congruence.
      + intros (c' & [->|Hc']%elem_of_cons & E); [left|right; eauto]. rewrite E. cbn.
        destruct Hp as [v Hv]. by rewrite Hv. }
  set (missing := List.filter _ properties.*1).
  assert (Hleft : ∀ p, p ∈ missing ↔ p ∈ properties.*1 ∧ ¬ (Some p ∈ out.*2)).
  { intros p. subst missing. rewrite list_elem_of_In, filter_In, <- list_elem_of_In.
    rewrite negb_true_iff, bool_decide_eq_false. done. }
  destruct missing as [|p0 missing'] eqn:El; cbv iota.
  - split.
    + clear Hcov Hleft El. induction Hfor as [|c [a q] nf out [Ha _] Hfor IH]; cbn; by constructor.
    + intros p Hp. apply Hcov; [done|]. destruct (decide (Some p ∈ out.*2)) as [|Hn]; [done|].
      exfalso. by apply (not_elem_of_nil p), Hleft.
  - split; [done|]. intros p. rewrite Hleft. split.
    + intros [Hp Hn]. split; [done|]. intros c Hc E. apply Hn, Hcov; eauto.
    + intros [Hp Hn]. split; [done|]. intros (c & Hc & E)%Hcov; [|done]. by eapply Hn.
Qed.

Section theorems.
Context {G : Type} `{TpGroupMixinLaws G}.
Context (strdown normalize : string → string) (from_iso8601 : string → option Z).
Context (domains : list WockyXmppErrorDomain) (description : WockyXmppError → string).
Context (first : gset string → option string).
Context (normalize_nonempty : ∀ x, x ≠ EmptyString → normalize x ≠ EmptyString).

Local Notation Chan := (GabbleMucChannel G).
Local Notation W := (World G).
Local Notation run := (run_input strdown normalize from_iso8601 domains description first).
Local Notation settled := (settled strdown).
Local Notation chan_ok := (chan_ok strdown).
Implicit Types (s : W) (ch : Chan).

(** ** Safety *)

Definition no_channel (cs : gset string) : W := mkWorld None cs ∅ 0 false 0 ∅ 0 [].

(** Runs of a channel from its construction, the world's answers and the
    user's wishes as they come. *)
Inductive reachable : W → Prop :=
  | reach_constructed env room alias from_jid reg invitation cs s :
      gabble_muc_channel_constructed strdown normalize env first room alias from_jid reg invitation
        (no_channel cs) = Ok (tt, s) →
      reachable s
  | reach_input env i s s' :
      reachable s → polite_in strdown s i → run env i s = Ok (tt, s') → reachable s'.

(** A channel can be made for a room whose name has no resource, by somebody
    who has a name. *)
Lemma constructed_wp env room alias from_jid reg invitation cs sj :
  strchr room "/" = false → create_room_identity strdown room alias from_jid = Some sj →
  wp (gabble_muc_channel_constructed strdown normalize env first room alias from_jid reg invitation)
    (λ _, settled) (no_channel cs).
Proof.
  intros Hslash Hid. unfold gabble_muc_channel_constructed. rewrite Hslash, Hid.
  apply wp_bind, wp_ret, wp_bind. unfold tp_handle_ensure. apply wp_bind, wp_get.
  assert (Hmain : ∀ handle cs',
    wp (set_chan (Some (mkMuc room (bool_decide (is_Some invitation))
        (mkLife MUC_STATE_CREATED false false false reg false false)
        (mkTimers None None None) (mkPassword false None)
        (mkIdentity 0 sj ROLE_NONE AFFILIATION_NONE) (mkSubject None None G_MAXINT64 None None)
        None false (wocky_muc_new strdown handle (own_full_jid env))
        (tp_group_mixin_init handle))) ;;
      s ← get; put_refs true (held s) ;;
      emit (HandleOwner handle (own_contact env)) ;;
      match invitation with
      | Some (inviter, message) =>
          change_members message (mkChange (containing inviter) ∅ (containing handle) ∅) inviter
            REASON_INVITED ;;
          change_life live_ready
      | None => gabble_muc_channel_add_member strdown normalize env first handle EmptyString ;; mret tt
      end) (λ _, settled) (no_channel cs')).
  { intros handle cs'.
    set (ch0 := mkMuc _ _ _ _ _ _ _ _ _ _ _).
    apply wp_bind, wp_modify, wp_bind, wp_get, wp_bind, wp_modify. cbn.
    match goal with |- wp _ _ ?s0 => assert (HA : At (mkRefs true 0 ∅) ∅ cs' [] ch0 s0) end.
    { split; cbn; try done; intros; apply lookup_empty. }
    assert (Hm : members (wmuc ch0) = ∅).
    { subst ch0. cbn. unfold wocky_muc_new. by rewrite set_jid_members. }
    assert (Hok : chan_ok ∅ ch0).
    { split; try (by intros ? ?; rewrite lookup_empty); try (by intros ? ? ?%lookup_empty_Some); cbn; try done.
      - left. apply local_init.
      - change (map_Forall (λ _, known_member strdown) (members (wmuc ch0))). rewrite Hm. done. }
    step1. step1. destruct invitation as [[inviter message]|].
    - unfold change_members. steps. eapply settled_at; [exact HA| |by left].
      destruct Hok as [Ht Hj Hp Hl Hq Hu Hmm Hr]. split; cbn; try done. right.
      split; [|split_and!; try done]; cbn.
      + rewrite local_change, self_change_members, self_init, local_init. cbn. set_solver.
      + unfold wocky_muc_new, set_jid. by destruct (wocky_decode_jid strdown handle) as [[[]]|].
    - step1. eapply wp_mono; [|eapply add_member_ok; [exact HA|done|by left|auto]].
      intros b s' Hs. by apply wp_ret. }
  destruct (gabble_normalize_contact _ _ _ _ _); cbn [contacts no_channel].
  - apply wp_bind, wp_modify, wp_ret. apply Hmain.
  - apply wp_ret. apply Hmain.
Qed.

Lemma constructed_ok env room alias from_jid reg invitation cs s :
  gabble_muc_channel_constructed strdown normalize env first room alias from_jid reg invitation
    (no_channel cs) = Ok (tt, s) → settled s.
Proof.
  intros Hrun. destruct (strchr room "/") eqn:Hslash.
  { unfold gabble_muc_channel_constructed in Hrun. by rewrite Hslash in Hrun. }
  destruct (create_room_identity strdown room alias from_jid) as [sj|] eqn:Hid.
  - pose proof (constructed_wp env room alias from_jid reg invitation cs sj Hslash Hid) as Hw.
    unfold wp in Hw. by rewrite Hrun in Hw.
  - unfold gabble_muc_channel_constructed in Hrun. by rewrite Hslash, Hid in Hrun.
Qed.

Lemma reachable_settled s : reachable s → settled s.
Proof.
  induction 1 as [env room alias from_jid reg invitation cs s Hc|env i s s' Hr IH Hp Hs];
    [by eapply constructed_ok|].
  pose proof (muc_input_ok strdown normalize description
                normalize_nonempty from_iso8601 domains first env i s IH Hp) as Hw.
  unfold wp in Hw. by rewrite Hs in Hw.
Qed.


(** ** The members of the channel are the occupants of the room *)

(** A name that is its own normal form. *)
Definition canonical (from : string) : Prop :=
  gabble_normalize_contact strdown normalize None from GABBLE_JID_ROOM_MEMBER = Some from.

(** Who is in the room, by the presences alone. *)
Definition presence_name (stanza : WockyNode) : string :=
  default EmptyString (wocky_node_get_attribute stanza "from").

(** A presence of the room that is ours, or is not. *)
Definition is_ours (w : WockyMuc.WockyMuc) (stanza x : WockyNode) : bool :=
  has_code (extract_status_codes x) WOCKY_MUC_CODE_OWN_PRESENCE ||
  bool_decide (muc_jid w = presence_name stanza) || bool_decide (Some (user w) = pjid (parse_item x)).




(** The same room and the same name in it. *)
Record same_room ch ch' : Prop := {
  sr_user : user (wmuc ch') = user (wmuc ch);
  sr_jid : muc_jid (wmuc ch') = muc_jid (wmuc ch);
  sr_nick : nick (wmuc ch') = nick (wmuc ch);
  sr_rjid : rjid (wmuc ch') = rjid (wmuc ch);
  sr_handlers : handlers (wmuc ch') = handlers (wmuc ch);
  sr_self : self_handle (group ch') = self_handle (group ch);
}.





Lemma canonical_decode from :
  canonical from → ∃ n d r, wocky_decode_jid strdown from = Some (Some n, d, Some r).
Proof.
  unfold canonical, gabble_normalize_contact.
  destruct (wocky_decode_jid strdown from) as [[[[n|] d] [r|]]|]; try done. eauto.
Qed.

Lemma canonical_ne from : canonical from → from ≠ EmptyString.
Proof. intros (n & d & r & Hd)%canonical_decode ->. done. Qed.

Lemma canonical_normal cs from :
  canonical from → normal strdown normalize (cs:=cs) from GABBLE_JID_ROOM_MEMBER = Some from.
Proof.
  unfold canonical, normal, gabble_normalize_contact.
  by destruct (wocky_decode_jid strdown from) as [[[[n|] d] [r|]]|].
Qed.











(** A presence that is ours has the code that says so. *)
Lemma own_code c b1 b2 :
  has_code c WOCKY_MUC_CODE_OWN_PRESENCE || b1 || b2 = true →
  has_code (if b1 || b2 then Z.lor c WOCKY_MUC_CODE_OWN_PRESENCE else c) WOCKY_MUC_CODE_OWN_PRESENCE = true.
Proof.
  intros Hc. rewrite <- orb_assoc in Hc. destruct (b1 || b2); [|by rewrite orb_false_r in Hc].
  unfold has_code. rewrite Z.land_lor_distr_l, Z.land_diag.
  apply negb_true_iff, Z.eqb_neq. intros [_ Habs]%Z.lor_eq_0_iff. done.
Qed.


Lemma same_room_refl ch : same_room ch ch.
Proof. done. Qed.






(** ** Messages *)

(** In a room a notice is a message like others. *)
Definition arrives_as (ty : TpChannelTextMessageType) : TpChannelTextMessageType :=
  match ty with TYPE_NOTICE => TYPE_NORMAL | _ => ty end.

Lemma determine_sent ty text :
  sendable ty text →
  ∃ mtype, determine_message_type (Some (body_text ty text)) (Some "groupchat") = (mtype, Some text) ∧
    message_type mtype = arrives_as ty.
Proof.
  intros Hs. unfold determine_message_type. destruct ty; cbn [sendable body_text] in *; try done.
  - rewrite Hs. eexists. by split.
  - exists MSG_ACTION. rewrite str_prefix_app, str_length_app. split; [|done]. f_equal. f_equal.
    change (String.length "/me ") with 4%nat.
    replace (4 + String.length text - 4)%nat with (String.length text) by lia.
    exact (str_substring_app "/me " text).
  - rewrite Hs. eexists. by split.
Qed.

(** What the room makes of a message that was sent to it. *)
Lemma sent_stanza message id own_nick room from ty text :
  check_message message = Some (ty, text) →
  ∃ stanza, gabble_message_util_build_stanza message id own_nick SUB_GROUPCHAT (Some STATE_ACTIVE) room
      false = Some stanza ∧
    let m := delivered from stanza in
    wocky_node_get_attribute m "from" = Some from ∧ wocky_node_get_attribute m "id" = Some id ∧
    wocky_node_get_attribute m "type" = Some "groupchat" ∧
    wocky_node_get_child m "body" ≫= content = Some (body_text ty text) ∧
    wocky_node_get_child m "subject" = None ∧
    wocky_node_get_child_ns m (Some "x") (Some MessageUtil.NS_X_DELAY) = None ∧
    extract_chat_state m = MSG_STATE_ACTIVE.
Proof.
  intros Hc. unfold gabble_message_util_build_stanza. rewrite Hc. cbn [mbind option_bind].
  rewrite bool_decide_eq_false_2 by done. eexists. split; [reflexivity|].
  generalize (body_text ty text). intros b. vm_compute. done.
Qed.

(** The occupant that a message is from, in the table or not. *)
Definition known_as ch (from : string) : Prop :=
  match members (wmuc ch) !! from with
  | Some m => m_from m = from
  | None => wocky_normalise_jid strdown from = Some from
  end.

Definition expected (env : Env) ch (from : string) (ty : TpChannelTextMessageType) (text id : string) :
    MucReceived :=
  if bool_decide (from = self_handle (group ch))
  then MucReport (generated_id env) DELIVERY_DELIVERED (Some id) None
         (mkMucText (Some from) (arrives_as ty) 0 false text (Some id))
  else MucMessage (mkMucText (Some from) (arrives_as ty) 0 false text (Some id)).

Lemma room_receive_exact env ty from id text r srcs cs ev ch s Q :
  At r srcs cs ev ch s → Inj (=) (=) (contact_number env) → registered (life ch) = true →
  (∀ s', At r srcs cs
     (ev ++ [Received (if bool_decide (from = self_handle (group ch))
                       then MucReport (generated_id env) DELIVERY_DELIVERED (Some id) None
                              (mkMucText (Some from) ty 0 false text (Some id))
                       else MucMessage (mkMucText (Some from) ty 0 false text (Some id)))])
     (with_life (live_autoclose false (life ch)) ch) s' → Q tt s') →
  wp (_gabble_muc_channel_receive env ty true from None (Some id) text None DELIVERY_DELIVERED) Q s.
Proof.
  intros HA Hinj Hreg HQ. unfold _gabble_muc_channel_receive. step1. cbn [stamp_or default].
  replace (contact_number env from =? contact_number env (self_handle (group ch)))
    with (bool_decide (from = self_handle (group ch))).
  2: { case_bool_decide as E; [subst; by rewrite Z.eqb_refl|]. symmetry. apply Z.eqb_neq.
       intros Ee. by apply E, Hinj. }
  rewrite Hreg. rewrite (bool_decide_eq_false_2 (is_Some None)) by (by intros [? ?]).
  change (0 =? 0) with true.
  case_bool_decide as E; cbn [andb orb negb when]; steps; apply HQ; [by subst|done].
Qed.

(** C24: What is sent to a room arrives. Take a message that
    passes the checks of the sender's channel (one text/plain part) and is an
    action, or a normal message or notice whose text does not begin with /me
    and a space. Sending it succeeds and hands one stanza to the porter; when
    that stanza, with the sender's canonical name in the room as its sender,
    comes to a channel of the room that is on the bus, in any reachable state
    in which that name, if it is in the table of occupants, is recorded under
    itself and is its own normal form otherwise, and handles are numbered
    injectively, then exactly two things are signalled: the message, with that
    sender, text and id, and its type except that a notice is shown as a
    normal message, or, if the sender is ourselves, the report that our
    message was delivered, with that message as its echo; and then that the
    sender's chat state is active. *)
Theorem muc_end_to_end env s ch message ty text env' s' ch' from :
  chan s = Some ch → check_message message = Some (ty, text) → sendable ty text →
  reachable s' → chan s' = Some ch' → registered (life ch') = true → canonical from →
  (∀ st, wocky_node_get_attribute st "from" = Some from → from_room strdown (wmuc ch') st = true) →
  known_as ch' from → Inj (=) (=) (contact_number env') →
  ∃ s1 id stanza,
    gabble_muc_channel_send env message s = Ok (tt, s1) ∧
    last (events s1) = Some (SendAsync id stanza) ∧
    wp (run env' (Message (delivered from stanza))) (λ _ s2,
      events s2 = events s' ++ [Received (expected env' ch' from ty text (generated_id env));
                                ChatStateChanged from STATE_ACTIVE]) s'.
Proof.
  intros Hch Hc Hs Hr' Hch' Hreg Hcan Hroom Hkn Hinj.
  destruct (sent_stanza message (generated_id env) (own_nick env) (jid ch) from ty text Hc)
    as (stanza & Hb & Hf & Hid & Hty & Hbody & Hsub & Hx & Hst).
  eexists _, (next_operation s), stanza. split_and!.
  { unfold gabble_muc_channel_send, get_chan, mbind, M_bind, get. rewrite Hch. cbn. by rewrite Hb. }
  { cbn. by rewrite last_snoc. }
  set (m := delivered from stanza) in *. clearbody m.
  destruct (reachable_settled _ Hr') as [(r & srcs & cs & ev & ch1 & HA & _)|Hg];
    [|by rewrite (gone_chan _ Hg) in Hch'].
  pose proof (at_chan _ _ _ _ _ _ HA) as Hc1. rewrite Hch' in Hc1. injection Hc1 as <-.
  rewrite (at_events _ _ _ _ _ _ HA).
  cbn [run_input]. unfold if_alive. apply wp_bind, wp_get. rewrite Hch', (Hroom m Hf). cbn [when].
  destruct (determine_sent ty text Hs) as (mtype & Hmt & Hmty).
  destruct (canonical_decode _ Hcan) as (n & d & res & Hd).
  assert (Hslash : strchr from "/" = true).
  { unfold wocky_decode_jid in Hd. unfold strchr. destruct (split_first "/" from) as [[]|]; [done|].
    destruct (split_first "@" from) as [[]|]; repeat case_match; simplify_eq. }
  step1. unfold WockyMuc.handle_message. rewrite Hf, Hslash, Hty. step1.
  assert (Hrest : ∀ who, m_from who = from → wp
    (if true && negb (bool_decide (Some "groupchat" = Some "groupchat")) then mret false
     else
       let '(mtype, body) := determine_message_type (wocky_node_get_child m "body" ≫= content)
                               (Some "groupchat") in
       match wocky_stanza_extract_errors domains m with
       | Some error =>
           g_signal_emit strdown normalize description env' (SIG_MSG_ERR m mtype
             (wocky_node_get_attribute m "id") (extract_timestamp from_iso8601 m) (Some who) body error) ;;
           mret true
       | None =>
           g_signal_emit strdown normalize description env' (SIG_MSG m mtype
             (wocky_node_get_attribute m "id") (extract_timestamp from_iso8601 m) (Some who) body
             (wocky_node_get_child m "subject" ≫= content) (extract_chat_state m)) ;;
           mret true
       end) (λ _ s2, wp (mret tt) (λ _ s2, events s2 = ev ++
         [Received (expected env' ch' from ty text (generated_id env));
          ChatStateChanged from STATE_ACTIVE]) s2) s').
  { intros who Hwho. rewrite bool_decide_eq_true_2 by done. cbn [andb negb].
    rewrite Hbody, Hmt. unfold wocky_stanza_extract_errors. rewrite Hty.
    rewrite bool_decide_eq_false_2 by done. rewrite Hid, Hsub, Hst.
    unfold extract_timestamp. rewrite Hx. cbn [mbind option_bind g_signal_emit]. step1.
    unfold MucChannel.handle_message. do 2 step1. unfold message_sender. step1. rewrite Hwho.
    apply (wp_ensure _ _ HA); rewrite canonical_normal by done; [|done].
    intros n' s1 [= <-] HA1. rewrite (proj2 (is_empty_false from) (canonical_ne _ Hcan)).
    do 2 step1. rewrite Hmty. eapply room_receive_exact; [exact HA1|done..|]. clear s1 HA1.
    intros s1 HA1. rewrite (bool_decide_eq_true_2 (is_Some (Some who))) by eauto.
    rewrite (bool_decide_eq_false_2 (MSG_STATE_ACTIVE = MSG_STATE_NONE)) by done. cbn [andb negb when].
    steps. rewrite (at_events _ _ _ _ _ _ HA1), <- app_assoc. unfold expected. done. }
  step1. unfold get_message_sender. do 2 step1. unfold known_as in Hkn.
  destruct (members (wmuc ch') !! from) as [who|]; [by do 2 apply wp_ret; apply Hrest|].
  rewrite Hkn. destruct (bool_decide (Some from = Some (muc_jid (wmuc ch')))) eqn:E; do 2 apply wp_ret; apply Hrest; [|done].
  apply bool_decide_eq_true in E. cbn. congruence.
Qed.
(** ** Where it goes wrong *)

(** What runs before leads to what aborts. *)
Lemma stops_bind {A B} r (m : M W A) (f : A → M W B) s :
  wp m (λ a s', f a s' = Abort r) s → (m ≫= f) s = Abort r.
Proof. unfold wp, mbind, M_bind. destruct (m s) as [[a s']|]; [done|by intros []]. Qed.

(** The room itself has no name of an occupant. *)
Lemma bare_no_handle from n d cs :
  wocky_decode_jid strdown from = Some (n, d, None) →
  normal strdown normalize (cs:=cs) from GABBLE_JID_ROOM_MEMBER = None.
Proof. intros Hd. unfold normal, gabble_normalize_contact. rewrite Hd. by destruct n. Qed.

(** C38: In every reachable state in which we are in a
    room, any available presence that the room sends under its bare name,
    which is not our own address, with a muc#user element whose item has a
    nick and which is not marked as ours, makes the channel pass the handle 0
    to the presence cache, whose assertion aborts the process. *)
Theorem bare_presence_aborts env s ch stanza from n d x nk :
  reachable s → chan s = Some ch → WockyMuc.muc_state (wmuc ch) = MUC_JOINED →
  from_room strdown (wmuc ch) stanza = true →
  wocky_node_get_attribute stanza "type" = None →
  wocky_node_get_attribute stanza "from" = Some from →
  wocky_decode_jid strdown from = Some (n, d, None) → from ≠ own_full_jid env →
  wocky_node_get_child_ns stanza (Some "x") (Some WOCKY_NS_MUC_USER) = Some x →
  pnic (parse_item x) = Some nk → is_ours (wmuc ch) stanza x = false →
  run env (Presence stanza) s = Abort AssertFailed.
Proof.
  intros Hr Hch Hst Hroom Hty Hf Hd Hne Hx Hnk Hours.
  destruct (reachable_settled _ Hr) as [(r & srcs & cs & ev & ch1 & HA & _)|Hg];
    [|by rewrite (gone_chan _ Hg) in Hch].
  pose proof (at_chan _ _ _ _ _ _ HA) as Hc. rewrite Hch in Hc. injection Hc as <-.
  unfold is_ours, presence_name in Hours. rewrite Hf in Hours. cbn [default from_option id] in Hours.
  apply orb_false_iff in Hours as [[Hcode Hj]%orb_false_iff Hu].
  cbn [run_input]. unfold if_alive. apply stops_bind, wp_get. rewrite Hch, Hroom. cbn [when].
  apply bind_Abort. unfold WockyMuc.handle_presence. rewrite Hf, Hty, Hd.
  unfold handle_presence_standard. rewrite Hx. apply stops_bind, (wp_get_muc HA).
  rewrite Hj, Hu. cbn [orb]. rewrite Hcode, Hnk. unfold handle_user_presence.
  apply stops_bind, (wp_get_muc HA), stops_bind, (wp_put_muc HA). clear s Hr Hch HA. intros s HA.
  rewrite Hst. apply bind_Abort. cbn [when state_number Z.leb]. cbn.
  unfold MucChannel.handle_presence. apply stops_bind. unfold get_chan.
  apply wp_bind, wp_get. rewrite (at_chan _ _ _ _ _ _ HA). apply wp_ret.
  apply stops_bind. cbn [m_from].
  apply (wp_ensure _ _ HA); rewrite (bare_no_handle _ _ _ _ Hd); [done|]. intros _.
  apply stops_bind. eapply owner_ok; [exact HA|]. clear s HA. intros o cs1 s Hcs HA. apply stops_bind.
  assert (Hend : ∀ s', (gabble_presence_parse_presence_message env EmptyString from (Some stanza) ;;
      change_members (Some EmptyString) (mkChange (containing EmptyString) ∅ ∅ ∅) EmptyString REASON_NONE ;;
      emit (HandleOwner EmptyString o)) s' = Abort AssertFailed).
  { intros s'. apply bind_Abort. unfold gabble_presence_parse_presence_message.
    by rewrite bool_decide_eq_false_2. }
  apply wp_when; intros _; [apply wp_modify|]; apply Hend.
Qed.

(** The sources that are left when a timer is cleared. *)
Definition without (id : option nat) (srcs : gmap nat Timer) : gmap nat Timer :=
  match id with Some n => delete n srcs | None => srcs end.

Lemma without_other id n srcs : id ≠ Some n → without id srcs !! n = srcs !! n.
Proof. intros Hne. destruct id; [|done]. cbn. apply lookup_delete_ne. congruence. Qed.

(** A timer is cleared, in whatever state the channel is. *)
Lemma clear_timer_any t r srcs cs ev ch s Q :
  At r srcs cs ev ch s →
  (∀ s', At r (without (timer_id t (timers ch)) srcs) cs ev (with_timers (clear t (timers ch)) ch) s' → Q tt s') →
  wp (clear_timer t) Q s.
Proof.
  intros HA HQ.
  assert (Hsame : timer_id t (timers ch) = None → with_timers (clear t (timers ch)) ch = ch).
  { destruct ch as [?? ? [] ???????]. destruct t; cbn; by intros ->. }
  destruct t; cbn [clear_timer]; unfold clear_join_timer, clear_poll_timer, clear_leave_timer;
    apply (wp_get_chan HA); cbn [timer_id clear] in *;
    [destruct (join_timer_id (timers ch)) eqn:E
    |destruct (poll_timer_id (timers ch)) eqn:E
    |destruct (leave_timer_id (timers ch)) eqn:E];
    try (apply wp_ret; apply HQ; by rewrite Hsame).
  all: apply wp_bind, (wp_source_remove HA); clear s HA; intros s HA; apply (wp_change HA);
    clear s HA; intros s HA; by apply HQ.
Qed.

(** The channel that is let go of is freed, and its own timers are cleared. *)
Lemma let_go srcs cs ev ch s n :
  At (mkRefs true 0 ∅) srcs cs ev ch s →
  join_timer_id (timers ch) ≠ Some n → poll_timer_id (timers ch) ≠ Some n → leave_timer_id (timers ch) ≠ Some n →
  wp (clear_leave_timer ;; tp_base_channel_destroyed) (λ _ s', chan s' = None ∧ sources s' !! n = srcs !! n) s.
Proof.
  intros HA Hj Hp Hl. step1. eapply (clear_timer_any TIMER_LEAVE); [exact HA|]. clear s HA. intros s HA.
  unfold tp_base_channel_destroyed. do 8 step1.
  assert (held s = 0%nat) as -> by (pose proof (at_refs _ _ _ _ _ _ HA) as E; by injection E).
  apply (wp_put_refs HA). clear s HA. intros s HA. unfold unref. apply wp_bind, wp_get.
  pose proof (at_refs _ _ _ _ _ _ HA) as E. injection E as Ef Eh Eo.
  rewrite Ef, Eh, Eo, bool_decide_eq_true_2 by done. cbn [orb negb Nat.ltb Nat.leb].
  unfold gabble_muc_channel_dispose.
  step1. eapply (clear_timer_any TIMER_JOIN); [exact HA|]. clear s HA Ef Eh Eo. intros s HA.
  step1. eapply (clear_timer_any TIMER_POLL); [exact HA|]. clear s HA. intros s HA.
  step1. eapply (clear_timer_any TIMER_LEAVE); [exact HA|]. clear s HA. intros s HA.
  apply wp_modify. cbn [chan sources]. split; [done|]. rewrite (at_sources _ _ _ _ _ _ HA). cbn.
  rewrite !without_other; done.
Qed.

(** A channel that is being closed, once more: another timer is started, and
    the number of the first is forgotten. *)
Lemma close_again env srcs cs ev ch s :
  At (mkRefs true 0 ∅) srcs cs ev ch s →
  registered (life ch) = true → destroyed (life ch) = false → tubes_or_calls (life ch) = false →
  muc_channel_state (life ch) = MUC_STATE_ENDED →
  wp (run env Close) (λ _ s', ∃ id cs' ev' ch', srcs !! id = None ∧
    At (mkRefs true 0 ∅) (<[id := TIMER_LEAVE]> srcs) cs' ev' ch' s' ∧ closing (life ch') = true ∧
    timers ch' = mkTimers (join_timer_id (timers ch)) (poll_timer_id (timers ch)) (Some id) ∧
    wmuc ch' = wmuc ch) s.
Proof.
  intros HA Hreg Hd Ht Hst. cbn [run_input]. unfold on_bus, if_alive. apply wp_bind, wp_get.
  rewrite (at_chan _ _ _ _ _ _ HA), Hreg. cbn [when].
  unfold gabble_muc_channel_close, close_channel, gabble_muc_channel_can_be_closed. step1.
  rewrite Hd, Ht, Hst. cbn [negb andb]. rewrite andb_false_r. step1. step1.
  assert (held s = 0%nat) as -> by (pose proof (at_refs _ _ _ _ _ _ HA) as E; by injection E).
  assert (in_factory s = true) as -> by (pose proof (at_refs _ _ _ _ _ _ HA) as E; by injection E).
  step1. apply (wp_put_refs HA). clear s HA. intros s HA. unfold change_members. do 5 step1.
  do 2 step1. rewrite bool_decide_eq_false_2 by done. cbn -[get_chan].
  step1. eapply leave_message_ok; [exact HA|]. clear s HA. intros id cs1 ev1 s Hcs Hid HA.
  do 5 step1.
  match type of HA with At _ _ _ _ ?c _ => set (ch1 := c) in * end.
  assert (Hend : ∀ ev' ch2 s', At (mkRefs true 1 ∅) (<[id := TIMER_LEAVE]> srcs) cs1 ev' ch2 s' →
    life ch2 = life ch1 → timers ch2 = timers ch1 → wmuc ch2 = wmuc ch1 →
    wp (set_state MUC_STATE_ENDED ;; s ← get; put_refs (in_factory s) (pred (held s)) ;; unref)
      (λ _ s', ∃ id cs' ev' ch', srcs !! id = None ∧
        At (mkRefs true 0 ∅) (<[id := TIMER_LEAVE]> srcs) cs' ev' ch' s' ∧ closing (life ch') = true ∧
        timers ch' = mkTimers (join_timer_id (timers ch)) (poll_timer_id (timers ch)) (Some id) ∧
        wmuc ch' = wmuc ch) s').
  { clear s HA. intros ev2 ch2 s HA Hl2 Ht2 Hw2. unfold set_state. do 3 step1.
    rewrite Hl2. step1. rewrite bool_decide_eq_true_2 by (by cbn). cbn [negb when]. do 3 step1.
    assert (held s = 1%nat) as -> by (pose proof (at_refs _ _ _ _ _ _ HA) as E'; by injection E').
    assert (in_factory s = true) as -> by (pose proof (at_refs _ _ _ _ _ _ HA) as E'; by injection E').
    apply wp_bind, (wp_put_refs HA). clear s HA. intros s HA. unfold unref. apply wp_bind, wp_get.
    assert (in_factory s = true) as -> by (pose proof (at_refs _ _ _ _ _ _ HA) as E'; by injection E').
    cbn [orb]. apply wp_ret. eexists id, _, _, _. split_and!; [done|exact HA|..]; cbn; rewrite ?Hl2, ?Ht2, ?Hw2; done. }
  step1; [|by eapply Hend; [exact HA|..]]. unfold return_from_set_subject. do 2 step1.
  destruct (set_subject_context (subj ch1)); do 2 step1; by eapply Hend; [exact HA|..].
Qed.

(** The room says that we, who are leaving, are out of it. *)
Lemma farewell_frees env stanza x from srcs cs ev ch s n :
  At (mkRefs true 0 ∅) srcs cs ev ch s → closing (life ch) = true →
  join_timer_id (timers ch) ≠ Some n → poll_timer_id (timers ch) ≠ Some n →
  leave_timer_id (timers ch) ≠ Some n →
  from_room strdown (wmuc ch) stanza = true →
  wocky_node_get_attribute stanza "type" = Some "unavailable" →
  wocky_node_get_attribute stanza "from" = Some from →
  wocky_node_get_child_ns stanza (Some "x") (Some WOCKY_NS_MUC_USER) = Some x →
  is_ours (wmuc ch) stanza x = true →
  wp (run env (Presence stanza)) (λ _ s', chan s' = None ∧ sources s' !! n = srcs !! n) s.
Proof.
  intros HA Hcl Hj Hp Hl Hroom Hty Hf Hx Hours. cbn [run_input]. unfold if_alive.
  apply wp_bind, wp_get. rewrite (at_chan _ _ _ _ _ _ HA), Hroom. cbn [when].
  destruct (from_room_decode _ _ _ Hroom) as (_ & from' & n' & d & res & Hf' & Hd).
  rewrite Hf in Hf'. injection Hf' as <-.
  step1. unfold WockyMuc.handle_presence. rewrite Hf, Hty. cbn [bool_decide].
  rewrite bool_decide_eq_true_2 by done. rewrite Hd.
  unfold handle_presence_standard. rewrite Hx. do 2 step1.
  rewrite own_code by (unfold is_ours, presence_name in Hours; by rewrite Hf in Hours).
  do 3 step1. cbn [g_signal_emit]. unfold handle_parted. step1. step1.
  apply (wp_ensure_any _ _ HA). clear s HA. intros h cs1 s Hcs HA.
  cbn [life with_wmuc]. rewrite Hcl.
  eapply wp_mono; [|by apply (let_go _ _ _ _ _ n HA)]. intros [] s' Hs. by do 2 apply wp_ret.
Qed.

(** C37: Take any reachable state in which a chat
    room channel on the bus has been closed and waits with a timer for the
    room to let us go, with nothing but the manager referring to it and no
    tube or call open; that timer is not the one remembered for joining or
    polling. Closing it again starts a second timer and forgets the first;
    when any presence of the room that is unavailable and ours comes, the
    channel is freed, the first timer is still there, and when it fires it
    uses the memory of the channel. *)
Theorem close_twice_use_after_free env s ch t stanza x from :
  reachable s → chan s = Some ch → in_factory s = true → held s = 0%nat → operations s = ∅ →
  registered (life ch) = true → destroyed (life ch) = false → tubes_or_calls (life ch) = false →
  muc_channel_state (life ch) = MUC_STATE_ENDED → sources s !! t = Some TIMER_LEAVE →
  join_timer_id (timers ch) ≠ Some t → poll_timer_id (timers ch) ≠ Some t →
  from_room strdown (wmuc ch) stanza = true →
  wocky_node_get_attribute stanza "type" = Some "unavailable" →
  wocky_node_get_attribute stanza "from" = Some from →
  wocky_node_get_child_ns stanza (Some "x") (Some WOCKY_NS_MUC_USER) = Some x →
  is_ours (wmuc ch) stanza x = true →
  ∃ s1 s2, run env Close s = Ok (tt, s1) ∧ run env (Presence stanza) s1 = Ok (tt, s2) ∧
    chan s2 = None ∧ sources s2 !! t = Some TIMER_LEAVE ∧
    ∀ env', run env' (TimerFires t) s2 = Abort MemoryFault.
Proof.
  intros Hr Hch Hf Hh Ho Hreg Hd Ht Hst Hsrc Hj Hp Hroom Hty Hfrom Hx Hours.
  destruct (reachable_settled _ Hr) as [(r & srcs & cs & ev & ch0 & HA & _)|Hg];
    [|by rewrite (gone_chan _ Hg) in Hch].
  pose proof (at_chan _ _ _ _ _ _ HA) as Hc. rewrite Hch in Hc. injection Hc as <-.
  pose proof (at_refs _ _ _ _ _ _ HA) as Hrefs. rewrite Hf, Hh, Ho in Hrefs. subst r.
  rewrite (at_sources _ _ _ _ _ _ HA) in Hsrc.
  pose proof (close_again env srcs cs ev ch s HA Hreg Hd Ht Hst) as Hw. unfold wp in Hw.
  destruct (run env Close s) as [[[] s1]|]; [|done].
  destruct Hw as (id & cs1 & ev1 & ch1 & Hid & HA1 & Hcl & Htm & Hwm).
  assert (Hne : id ≠ t) by congruence.
  pose proof (farewell_frees env stanza x from _ _ _ ch1 s1 t HA1 Hcl) as Hw.
  rewrite Htm, Hwm in Hw. cbn [join_timer_id poll_timer_id leave_timer_id] in Hw.
  specialize (Hw Hj Hp ltac:(congruence) Hroom Hty Hfrom Hx Hours). unfold wp in Hw.
  destruct (run env (Presence stanza) s1) as [[[] s2]|] eqn:E2; [|done].
  destruct Hw as [Hn Hs2]. rewrite lookup_insert_ne, Hsrc in Hs2 by done.
  exists s1, s2. split_and!; [done..|]. intros env'. cbn [run_input].
  erewrite bind_eq by reflexivity. rewrite Hs2. cbn [fire]. apply bind_Abort. unfold timeout_leave.
  apply bind_Abort. unfold get_chan. erewrite bind_eq by reflexivity. by rewrite Hn.
Qed.

(** The signals the manager of the rooms listens to. *)
Definition heard (e : muc_event) : bool :=
  match e with Ready _ | JoinError _ | Closed _ _ | Reopened _ => true | _ => false end.

(** [s'] has said more than [ev], and of what the manager hears only [l]. *)
Definition says (ev : list muc_event) (l : list muc_event) s' : Prop :=
  ∃ evs, events s' = ev ++ evs ∧ List.filter heard evs = l.

(** The last reference goes, of a channel that has told it is destroyed. *)
Lemma last_unref srcs cs ev ch s :
  At (mkRefs false 0 ∅) srcs cs ev ch s → wp unref (λ _ s', chan s' = None ∧ events s' = ev) s.
Proof.
  intros HA. unfold unref. apply wp_bind, wp_get.
  pose proof (at_refs _ _ _ _ _ _ HA) as E. injection E as Ef Eh Eo.
  rewrite Ef, Eh, Eo, bool_decide_eq_true_2 by done. cbn [orb negb Nat.ltb Nat.leb].
  unfold gabble_muc_channel_dispose.
  step1. eapply (clear_timer_any TIMER_JOIN); [exact HA|]. clear s HA Ef Eh Eo. intros s HA.
  step1. eapply (clear_timer_any TIMER_POLL); [exact HA|]. clear s HA. intros s HA.
  step1. eapply (clear_timer_any TIMER_LEAVE); [exact HA|]. clear s HA. intros s HA.
  apply wp_modify. split; [done|]. apply (at_events _ _ _ _ _ _ HA).
Qed.

(** A channel that nothing else refers to is closed without a word to the
    room: it is freed, and the manager hears that it is destroyed. *)
Lemma close_silent env cs srcs ev ch s :
  At (mkRefs true 0 ∅) srcs cs ev ch s → destroyed (life ch) = false → closing (life ch) = false →
  wp (close_channel strdown normalize env None false EmptyString REASON_NONE)
    (λ _ s', chan s' = None ∧ says ev [Closed (registered (life ch)) true] s') s.
Proof.
  intros HA Hd Hc. unfold close_channel. step1. rewrite Hd, Hc. cbn [negb andb]. step1. step1.
  assert (held s = 0%nat) as -> by (pose proof (at_refs _ _ _ _ _ _ HA) as E; by injection E).
  assert (in_factory s = true) as -> by (pose proof (at_refs _ _ _ _ _ _ HA) as E; by injection E).
  step1. apply (wp_put_refs HA). clear s HA. intros s HA. unfold change_members. do 7 step1.
  unfold tp_base_channel_destroyed. do 8 step1.
  assert (held s = 1%nat) as -> by (pose proof (at_refs _ _ _ _ _ _ HA) as E; by injection E).
  apply (wp_put_refs HA). clear s HA. intros s HA.
  unfold unref at 1. apply wp_bind, wp_get.
  assert (in_factory s = false) as -> by (pose proof (at_refs _ _ _ _ _ _ HA) as E; by injection E).
  assert (held s = 1%nat) as -> by (pose proof (at_refs _ _ _ _ _ _ HA) as E; by injection E).
  cbn [orb Nat.ltb Nat.leb]. apply wp_ret.
  assert (Hend : ∀ srcs' ev' ch2 s', At (mkRefs false 1 ∅) srcs' cs ev' ch2 s' →
    (∃ evs, ev' = ev ++ evs ∧ List.filter heard evs = [Closed (registered (life ch)) true]) →
    wp (set_state MUC_STATE_ENDED ;; s ← get; put_refs (in_factory s) (pred (held s)) ;; unref)
      (λ _ s', chan s' = None ∧ says ev [Closed (registered (life ch)) true] s') s').
  { clear s HA. intros srcs1 ev1 ch2 s HA Hev. unfold set_state. do 4 step1.
    apply (wp_mono _ (λ _ s', ∃ srcs' ch', At (mkRefs false 1 ∅) srcs' cs ev1 ch' s')).
    2: { apply wp_when; intros _; [|by eexists _, _]. unfold channel_state_changed. apply wp_bind.
         eapply (clear_timer_any TIMER_POLL); [exact HA|]. clear s HA. intros s HA. apply wp_ret. by eexists _, _. }
    clear s HA. intros [] s (srcs2 & ch3 & HA). do 2 step1.
    assert (in_factory s = false) as -> by (pose proof (at_refs _ _ _ _ _ _ HA) as E; by injection E).
    assert (held s = 1%nat) as -> by (pose proof (at_refs _ _ _ _ _ _ HA) as E; by injection E).
    apply wp_bind, (wp_put_refs HA). clear s HA. intros s HA.
    eapply wp_mono; [|by eapply last_unref]. intros [] s' [Hn He]. split; [done|].
    destruct Hev as (evs & -> & Hf). by exists evs. }
  do 4 step1. step1; [unfold return_from_set_subject; do 2 step1; destruct (set_subject_context _);
    do 2 step1|]; (eapply Hend; [exact HA|]); rewrite <- ?app_assoc; eexists; (split; [reflexivity|done]).
Qed.

(** Joining the room takes too long. *)
Lemma join_timeout_exact env srcs cs ev ch s t :
  At (mkRefs true 0 ∅) srcs cs ev ch s → srcs !! t = Some TIMER_JOIN →
  destroyed (life ch) = false → closing (life ch) = false →
  wp (run env (TimerFires t)) (λ _ s', chan s' = None ∧ says ev [Closed (registered (life ch)) true] s') s.
Proof.
  intros HA Ht Hd Hc. cbn [run_input]. apply wp_bind, wp_get. rewrite (at_sources _ _ _ _ _ _ HA), Ht.
  cbn [fire]. step1.
  apply (wp_mono _ (λ _ s', chan s' = None ∧ says ev [Closed (registered (life ch)) true] s')).
  { intros [] s' Hs. unfold g_source_remove. by apply wp_bind, wp_get, wp_modify. }
  unfold timeout_join, provide_password_return_if_pending. step1. step1.
  apply (wp_mono _ (λ _ s', ∃ ev' ch', At (mkRefs true 0 ∅) srcs cs (ev ++ ev') ch' s' ∧ List.filter heard ev' = [] ∧
    life ch' = life ch)).
  - intros [] s' (ev' & ch' & HA' & Hf & Hl).
    eapply wp_mono; [|eapply close_silent; [exact HA'|by rewrite Hl..]].
    intros [] s2 [Hn (evs & He & Hfe)]. split; [done|]. exists (ev' ++ evs). rewrite Hl in Hfe.
    split; [by rewrite (assoc_L (++))|]. by rewrite List.filter_app, Hf, Hfe.
  - destruct (password_ctx (password ch)) as [ctx|].
    + steps; [done|]. eexists [_], _. by split_and!.
    + apply wp_bind, wp_ret, wp_ret. exists [], ch. by rewrite app_nil_r.
Qed.

End theorems.
End MucTheorems.
