(* ===== verification/MucRuns.v ===== *)
(** * Chat rooms: concrete runs

    An implementation of the group, the theorems of [MucTheorems] at concrete
    rooms, those in which the channel misbehaves among them. *)

From S2P Require Import Prelude Node Namespaces Jid XmppError MessageUtil WockyMuc MucChannel MucFacts MucTheorems.

Module MucRuns.
Import Jid XmppError MessageUtil WockyMuc MucChannel MucFacts MucTheorems.

(** ** A group *)

Record Group := mkGroup { g_self : string; g_members : gset string; g_local : gset string; g_remote : gset string }.

#[global] Instance group_mixin : TpGroupMixin Group := {
  tp_group_mixin_init h := mkGroup h ∅ ∅ ∅;
  self_handle := g_self;
  group_members := g_members;
  local_pending := g_local;
  remote_pending := g_remote;
  tp_group_mixin_change_self_handle g h := mkGroup h (g_members g) (g_local g) (g_remote g);
  tp_group_mixin_change_members g c :=
    mkGroup (g_self g)
      ((g_members g ∪ add c) ∖ (del c ∪ add_local_pending c ∪ add_remote_pending c))
      ((g_local g ∪ add_local_pending c) ∖ (add c ∪ del c ∪ add_remote_pending c))
      ((g_remote g ∪ add_remote_pending c) ∖ (add c ∪ del c ∪ add_local_pending c));
}.

#[global] Instance group_mixin_laws : TpGroupMixinLaws Group.
Proof. by split. Qed.

(** ** A room *)

Definition same (x : string) : string := x.
Definition describe (_ : WockyXmppError) : string := "no".
Definition first_of (m : gset string) : option string := head (elements m).
Definition no_time (_ : string) : option Z := None.

Lemma same_nonempty : ∀ x, x ≠ EmptyString → same x ≠ EmptyString.
Proof. done. Qed.

Definition numbers (s : string) : Z := Z.of_N (Npos (encode s)).
Lemma numbers_inj : Inj (=) (=) numbers.
Proof. intros a b E. apply (inj encode). unfold numbers in E. lia. Qed.

Definition env : Env :=
  mkEnv "me@x" "me@x/pc" (λ n, n) false [] "gid" "sid" None numbers (λ _, 0).

Abbreviation RunWorld := (World Group).
Definition run (i : muc_input) : M RunWorld unit :=
  run_input same same no_time [] describe first_of env i.

Definition step_on (s : RunWorld) (i : muc_input) : RunWorld :=
  match run i s with Ok (_, s') => s' | Abort _ => s end.
Definition after_inputs (s : RunWorld) (l : list muc_input) : RunWorld := foldl step_on s l.

(** We join room@conf as me. *)
Definition made : RunWorld :=
  match gabble_muc_channel_constructed same same env first_of "room@conf" "me" false true None
          (no_channel ∅) with
  | Ok (_, s) => s
  | Abort _ => no_channel ∅
  end.

Definition item (attrs : list Attribute) : WockyNode := mkNode "item" None (Some WOCKY_NS_MUC_USER) attrs [].
Definition muc_presence (from : string) (type : list Attribute) (children : list WockyNode) : WockyNode :=
  mkNode "presence" None (Some "jabber:client") (mkAttribute "from" from None :: type)
    [mkNode "x" None (Some WOCKY_NS_MUC_USER) [] children].
Definition comes (who : string) : WockyNode := muc_presence ("room@conf/" +:+ who) [] [item []].
Definition goes (who : string) : WockyNode :=
  muc_presence ("room@conf/" +:+ who) [mkAttribute "type" "unavailable" None] [item []].
Definition refusal (condition : string) : WockyNode :=
  mkNode "presence" None (Some "jabber:client")
    [mkAttribute "from" "room@conf" None; mkAttribute "type" "error" None]
    [mkNode "error" None (Some "jabber:client") [mkAttribute "type" "auth" None]
       [mkNode condition None (Some XmppError.NS_STANZAS) [] []]].

Definition joined : RunWorld := after_inputs made [Presence (comes "ann"); Presence (comes "me")].

Definition the_members (s : RunWorld) : gset string :=
  from_option (λ ch, group_members (group ch)) ∅ (chan s).

Definition reachable' : RunWorld → Prop := reachable same same no_time [] describe first_of.

Lemma made_reachable : reachable' made.
Proof.
  apply (reach_constructed _ _ _ _ _ _ env "room@conf" "me" false true None ∅). vm_compute. reflexivity.
Qed.

(** A presence that names somebody. *)
Definition named (st : WockyNode) : bool :=
  match wocky_node_get_attribute st "from" ≫= wocky_decode_jid same with
  | Some (_, _, None) => false
  | _ => true
  end.

Lemma named_names st : named st = true → names_occupant same st.
Proof.
  unfold named. intros Hn _ from n d Hf Hd. rewrite Hf in Hn. cbn [mbind option_bind] in Hn.
  by rewrite Hd in Hn.
Qed.

Lemma presence_reachable s st :
  reachable' s → named st = true → bool_decide (is_Some (chan (step_on s (Presence st)))) = true →
  match run (Presence st) s with Ok _ => true | Abort _ => false end = true →
  reachable' (step_on s (Presence st)).
Proof.
  intros Hs Hn _ Hr. unfold step_on. destruct (run (Presence st) s) as [[[] s']|] eqn:E; [|done].
  eapply (reach_input _ _ _ _ _ _ env (Presence st)); [exact Hs| |exact E].
  intros ch _. by apply named_names.
Qed.

Lemma joined_reachable : reachable' joined.
Proof.
  apply (presence_reachable (step_on made (Presence (comes "ann"))) (comes "me"));
    [|vm_compute; reflexivity..].
  apply presence_reachable; [apply made_reachable|vm_compute; reflexivity..].
Qed.




Lemma joined_members : elements (the_members joined) = ["room@conf/me"; "room@conf/ann"].
Proof. vm_compute. reflexivity. Qed.

(** ** Witnesses *)




Definition hello : TpMessage := mkMessage None [mkPart (Some "text/plain") (Some "hello")].

Lemma muc_end_to_end_witness :
  ∃ s1 id stanza,
    gabble_muc_channel_send env hello joined = Ok (tt, s1) ∧
    last (events s1) = Some (SendAsync id stanza) ∧
    wp (run (Message (delivered "room@conf/ann" stanza))) (λ _ s2,
      events s2 = events joined ++
        [Received (MucMessage (mkMucText (Some "room@conf/ann") TYPE_NORMAL 0 false "hello" (Some "gid")));
         ChatStateChanged "room@conf/ann" STATE_ACTIVE]) joined.
Proof.
  destruct (chan joined) as [ch|] eqn:Hch; [|by vm_compute in Hch].
  pose proof Hch as Hch'. vm_compute in Hch'. injection Hch' as E.
  replace (MucMessage _) with (expected env ch "room@conf/ann" TYPE_NORMAL "hello" (generated_id env))
    by (by rewrite <- E).
  apply (muc_end_to_end same same no_time [] describe first_of same_nonempty env joined ch hello
           TYPE_NORMAL "hello" env joined ch "room@conf/ann" Hch);
    [vm_compute; reflexivity..|apply joined_reachable|exact Hch|by rewrite <- E|vm_compute; reflexivity| | |
     apply numbers_inj].
  - intros st Hf. unfold from_room. rewrite Hf, <- E. vm_compute. reflexivity.
  - rewrite <- E. vm_compute. reflexivity.
Defined.

(** ** Runs in which the channel misbehaves *)

(** We have left the room and wait for it to say so. *)
Definition leaving : RunWorld := after_inputs joined [Close].

Lemma leaving_reachable : reachable' leaving.
Proof.
  apply (reach_input _ _ _ _ _ _ env Close joined); [apply joined_reachable| |vm_compute; reflexivity].
  intros ch Hch. vm_compute in Hch. by injection Hch as <-.
Qed.

Lemma close_twice_use_after_free_witness :
  ∃ t s1 s2, run Close leaving = Ok (tt, s1) ∧ run (Presence (goes "me")) s1 = Ok (tt, s2) ∧
    chan s2 = None ∧ sources s2 !! t = Some TIMER_LEAVE ∧
    ∀ env', run_input same same no_time [] describe first_of env' (TimerFires t) s2 = Abort MemoryFault.
Proof.
  destruct (chan leaving) as [ch|] eqn:Hch; [|by vm_compute in Hch].
  pose proof Hch as Hch'. vm_compute in Hch'. injection Hch' as E.
  exists 2%nat. eapply (close_twice_use_after_free same same no_time [] describe first_of same_nonempty env leaving ch 2
    (goes "me") _ "room@conf/me");
    [apply leaving_reachable|exact Hch|..]; try (vm_compute; reflexivity);
    rewrite <- E; vm_compute; (reflexivity || discriminate).
Defined.

(** The room comes under its own name, with the nick of an occupant. *)
Definition bare_presence : WockyNode :=
  muc_presence "room@conf" [] [item [mkAttribute "nick" "ann" None]].

Lemma bare_presence_aborts_witness : run (Presence bare_presence) joined = Abort AssertFailed.
Proof.
  destruct (chan joined) as [ch|] eqn:Hch; [|by vm_compute in Hch].
  pose proof Hch as Hch'. vm_compute in Hch'. injection Hch' as E.
  eapply (bare_presence_aborts same same no_time [] describe first_of same_nonempty env joined ch bare_presence
    "room@conf" (Some "room") "conf");
    [apply joined_reachable|exact Hch|..]; try (vm_compute; reflexivity);
    try (rewrite <- E; vm_compute; reflexivity). vm_compute. discriminate.
Defined.

Definition is_password_answer (e : muc_event) : bool :=
  match e with PasswordReturn _ _ | PasswordError _ => true | _ => false end.
Definition is_join_error (e : muc_event) : bool :=
  match e with JoinError JOIN_BANNED => true | _ => false end.

(** When a room that asked for a password refuses us
    for another reason after we gave it, the channel is closed and gone, and
    the call that gave the password is never answered. *)
Theorem password_unanswered :
  let s := after_inputs made [Presence (refusal "not-authorized"); ProvidePassword "secret" 7;
                              Presence (refusal "forbidden")] in
  chan s = None ∧ sources s = ∅ ∧ operations s = ∅ ∧
  existsb is_join_error (events s) = true ∧ existsb is_password_answer (events s) = false.
Proof. vm_compute. done. Qed.

(** When a room gives us another name while we are in
    it, the channel takes us for no member of it. *)
Theorem renamed_not_member :
  ∃ ch, chan (after_inputs joined
      [Presence (muc_presence "room@conf/me2" []
         [item []; mkNode "status" None (Some WOCKY_NS_MUC_USER) [mkAttribute "code" "210" None] []])]) =
    Some ch ∧
  self_handle (group ch) = "room@conf/me2" ∧ group_members (group ch) = {["room@conf/ann"]} ∧
  muc_channel_state (life ch) = MUC_STATE_JOINED.
Proof. eexists. split; [vm_compute; reflexivity|]. vm_compute. done. Qed.

(** A message of the room itself. *)
Definition notice : WockyNode :=
  mkNode "message" None (Some "jabber:client")
    [mkAttribute "from" "room@conf" None; mkAttribute "type" "groupchat" None]
    [mkNode "body" (Some "This room is not anonymous") (Some "jabber:client") [] []].

(** The code compares the handle of a room with
    the handle of a contact.  When the room and we in it have the same number,
    what the room itself says, which is to be ignored, is shown as the report
    that a message of ours was delivered. *)
Theorem room_taken_for_ourselves :
  let env' := mkEnv "me@x" "me@x/pc" (λ n, n) false [] "gid" "sid" None numbers
                (λ _, numbers "room@conf/me") in
  ∃ s, run_input same same no_time [] describe first_of env' (Message notice) joined = Ok (tt, s) ∧
    events s = events joined ++
      [Received (MucReport "gid" DELIVERY_DELIVERED None None
         (mkMucText (Some "room@conf/me") TYPE_NORMAL 0 false "This room is not anonymous" None))] ∧
  ∃ s0, run (Message notice) joined = Ok (tt, s0) ∧ events s0 = events joined.
Proof.
  eexists. split; [vm_compute; reflexivity|]. split; [vm_compute; reflexivity|].
  eexists. split; [vm_compute; reflexivity|]. vm_compute. reflexivity.
Qed.

(** A message without a chat state is taken for one that says its sender is
    active, because the default is the number of another enumeration. *)
Lemma stateless_message_active :
  extract_chat_state notice = MSG_STATE_ACTIVE.
Proof. reflexivity. Qed.

(** A message that is exactly "/me" is no action, because the pointer to the
    text is compared and not the text. *)
Lemma bare_me_no_action : determine_message_type (Some "/me") (Some "groupchat") = (MSG_NORMAL, Some "/me").
Proof. reflexivity. Qed.
End MucRuns.
