(* ===== verification/MucFactory.v ===== *)
(** * The manager of chat rooms (src/muc-factory.c)

    The table of the rooms' channels, the requests that wait for a channel to
    be ready, and invitations, which make channels.  Each channel is a world
    of [MucChannel]: what happens to it is one of that module's inputs, and
    the signals it emits meanwhile are handled here.  The handlers do not call
    the channel that emits, and what they read of it comes with the signal, so
    they run when it has done.

    Channels are numbered in the order they are made, and have an address
    besides: a table of requests is keyed by pointers it does not own, and
    the memory of a channel that was freed can be that of another.  Rooms and
    contacts are the names their handles stand for.

    Tubes and calls in rooms have requests of their own, of which there is
    what they do to the text channel ([EnsureRoom]); of the calls there is
    besides that sessions are given to them ([JingleSession]). *)

From S2P Require Import Prelude Node Namespaces Jid XmppError MessageUtil WockyMuc MucChannel.

Module MucFactory.
Import Jid XmppError MessageUtil WockyMuc MucChannel.

Definition NS_X_CONFERENCE : string := "jabber:x:conference".

(** ** Data *)

Record Object (G : Type) := mkObject {
  address : nat;
  room : string;
  world : World G;
}.
Arguments mkObject {G}.
Arguments address {G}.
Arguments room {G}.
Arguments world {G}.

Inductive RequestError :=
  | REQUEST_NOT_IMPLEMENTED
  | REQUEST_INVALID_HANDLE
  | REQUEST_INVALID_ARGUMENT
  | REQUEST_NOT_AVAILABLE
  | REQUEST_DISCONNECTED
  | REQUEST_JOIN (kind : JoinErrorKind).

(** [Lost]: tokens of requests that are forgotten; nobody is told. *)
Inductive factory_event :=
  | NewChannel (o : nat) (tokens : list nat)
  | AlreadySatisfied (o token : nat)
  | RequestFailed (token : nat) (error : RequestError)
  | ChannelClosed (o : nat)
  | Discovering (n : nat) (room : string)
  | Lost (tokens : list nat).

Record DiscoInviteData := mkInvite {
  invited_to : string;
  inviter : string;
  invite_reason : option string;
}.

(** [queued_requests]: the newest first, by the address of the channel. *)
Record GabbleMucFactory (G : Type) := mkFactory {
  objects : gmap nat (Object G);
  next_object : nat;
  text_channels : option (gmap string nat);
  queued_requests : option (gmap nat (list nat));
  disco_requests : gmap nat DiscoInviteData;
  next_disco : nat;
  listening : bool;
  watching : bool;
  dispose_has_run : bool;
  all_contacts : gset string;
  signals : list factory_event;
}.
Arguments mkFactory {G}.
Arguments objects {G}.
Arguments next_object {G}.
Arguments text_channels {G}.
Arguments queued_requests {G}.
Arguments disco_requests {G}.
Arguments next_disco {G}.
Arguments listening {G}.
Arguments watching {G}.
Arguments dispose_has_run {G}.
Arguments all_contacts {G}.
Arguments signals {G}.

Inductive TargetType := TARGET_NONE | TARGET_ROOM | TARGET_OTHER.
#[global] Instance TargetType_eq_dec : EqDecision TargetType.
Proof. solve_decision. Defined.

(** The properties of a request.  [target] is empty without a handle;
    [is_text]: the channel type is text; otherwise it is none that is made
    here. *)
Record Request := mkRequest {
  is_text : bool;
  target_type : TargetType;
  target : string;
  unknown_properties : bool;
  initial_channels : option (list string);
  initial_handles : option (list string);
  initial_ids : option (list string);
  invite_msg : option string;
  room_name : option string;
  server_prop : option string;
}.

(** What is read of the rest: the environment of the channels, our alias, the
    contact of a one-to-one chat of this connection by the chat's path, which
    contacts have a handle, which use Google's web client, a fresh name, the
    name of a room with its server ([gabble_connection_get_canonical_room_name]
    of [Roomlist]), whether a message is one of OLPC's, whether a disco
    request could be sent, which rooms have a handle, and which channels have
    a call, which takes the sessions that come for it. *)
Record FactoryEnv := mkFactoryEnv {
  muc_env : Env;
  own_alias : string;
  alias_from_jid : bool;
  im_channel : string → option string;
  known_handle : string → bool;
  google_webmail : string → bool;
  fresh_uuid : string;
  canonical_room : string → option string;
  olpc_message : WockyNode → bool;
  disco_sent : bool;
  known_room : string → bool;
  has_call : nat → bool;
}.

Section factory.
Context {G : Type} `{TpGroupMixin G}.
Context (g_utf8_strdown g_utf8_normalize : string → string) (from_iso8601 : string → option Z).
Context (error_domains : list WockyXmppErrorDomain) (description : WockyXmppError → string).
Context (first : gset string → option string) (malloc : gset nat → nat).

Local Notation F := (GabbleMucFactory G).
Local Notation MF := (M (GabbleMucFactory G)).
Local Notation run := (run_input g_utf8_strdown g_utf8_normalize from_iso8601 error_domains
                         description first).

(** ** State *)

Definition put_objects (m : gmap nat (Object G)) (n : nat) : MF unit := modify (λ f,
  mkFactory m n (text_channels f) (queued_requests f) (disco_requests f) (next_disco f)
    (listening f) (watching f) (dispose_has_run f) (all_contacts f) (signals f)).
Definition put_text (t : option (gmap string nat)) : MF unit := modify (λ f,
  mkFactory (objects f) (next_object f) t (queued_requests f) (disco_requests f) (next_disco f)
    (listening f) (watching f) (dispose_has_run f) (all_contacts f) (signals f)).
Definition put_queued (q : option (gmap nat (list nat))) : MF unit := modify (λ f,
  mkFactory (objects f) (next_object f) (text_channels f) q (disco_requests f) (next_disco f)
    (listening f) (watching f) (dispose_has_run f) (all_contacts f) (signals f)).
Definition put_disco (d : gmap nat DiscoInviteData) (n : nat) : MF unit := modify (λ f,
  mkFactory (objects f) (next_object f) (text_channels f) (queued_requests f) d n
    (listening f) (watching f) (dispose_has_run f) (all_contacts f) (signals f)).
Definition put_flags (l w d : bool) : MF unit := modify (λ f,
  mkFactory (objects f) (next_object f) (text_channels f) (queued_requests f) (disco_requests f)
    (next_disco f) l w d (all_contacts f) (signals f)).
Definition put_all_contacts (c : gset string) : MF unit := modify (λ f,
  mkFactory (objects f) (next_object f) (text_channels f) (queued_requests f) (disco_requests f)
    (next_disco f) (listening f) (watching f) (dispose_has_run f) c (signals f)).
Definition announce (e : factory_event) : MF unit := modify (λ f,
  mkFactory (objects f) (next_object f) (text_channels f) (queued_requests f) (disco_requests f)
    (next_disco f) (listening f) (watching f) (dispose_has_run f) (all_contacts f)
    (signals f ++ [e])).

Definition get_object (o : nat) : MF (Object G) :=
  f ← get; match objects f !! o with Some ob => mret ob | None => fail MemoryFault end.

(** The channel of an object; a freed one faults. *)
Definition get_channel (o : nat) : MF (GabbleMucChannel G) :=
  ob ← get_object o;
  match chan (world ob) with Some ch => mret ch | None => fail MemoryFault end.

(** The signals an object emits while it runs. *)
Definition update_object (o : nat) (m : M (World G) unit) : MF (list muc_event) :=
  f ← get; ob ← get_object o;
  match m (world ob) with
  | Abort r => fail r
  | Ok (_, w) =>
      put_objects (<[o := mkObject (address ob) (room ob) w]> (objects f)) (next_object f) ;;
      put_all_contacts (contacts w ∪ all_contacts f) ;;
      mret (drop (length (events (world ob))) (events w))
  end.

(** The repositories of handles. *)
Definition ensure_contact (id : string) : MF string :=
  f ← get;
  match gabble_normalize_contact g_utf8_strdown g_utf8_normalize
          (Some (λ n, bool_decide (n ∈ all_contacts f))) id GABBLE_JID_ANY with
  | Some n => put_all_contacts ({[n]} ∪ all_contacts f) ;; mret n
  | None => mret EmptyString
  end.
Definition ensure_room (env : FactoryEnv) (id : string) : option string :=
  gabble_normalize_room g_utf8_strdown (Some (canonical_room env)) id.

(** ** Requests that wait *)

Definition gabble_muc_factory_associate_request (channel : nat) (request : nat) : MF unit :=
  f ← get;
  match queued_requests f with
  | None => mret tt
  | Some q => put_queued (Some (<[channel := request :: default [] (q !! channel)]> q))
  end.

(** Looks up the requests of a channel and steals them from the table. *)
Definition steal_requests (channel : nat) : MF (list nat) :=
  f ← get;
  match queued_requests f with
  | None => mret []
  | Some q => put_queued (Some (delete channel q)) ;; mret (reverse (default [] (q !! channel)))
  end.

(** ** Signals of the channels *)

Definition forget (env : FactoryEnv) (o : nat) : MF unit :=
  update_object o (run (muc_env env) Forget) ;; mret tt.

Definition muc_channel_closed_cb (env : FactoryEnv) (o : nat) (registered destroyed : bool) : MF unit :=
  when registered (announce (ChannelClosed o)) ;;
  when destroyed
    (f ← get; ob ← get_object o;
     match text_channels f with
     | None => mret tt
     | Some t =>
         put_text (Some (delete (room ob) t)) ;;
         match t !! room ob with
         | Some o' => when (negb (bool_decide (o' = o))) (forget env o')
         | None => mret tt
         end
     end).

(** Tubes that wait for the text channel are announced then, or fail, as well;
    there are none here. *)
Definition muc_ready_cb (o : nat) (registered : bool) : MF unit :=
  ob ← get_object o;
  requests_satisfied_text ← steal_requests (address ob);
  if registered then announce (NewChannel o requests_satisfied_text)
  else announce (Lost requests_satisfied_text).

Definition muc_join_error_cb (o : nat) (error : JoinErrorKind) : MF unit :=
  ob ← get_object o;
  requests_satisfied ← steal_requests (address ob);
  for_each requests_satisfied (λ token, announce (RequestFailed token (REQUEST_JOIN error))).

Definition muc_signal (env : FactoryEnv) (o : nat) (e : muc_event) : MF unit :=
  match e with
  | Ready registered => muc_ready_cb o registered
  | JoinError kind => muc_join_error_cb o kind
  | Closed registered destroyed => muc_channel_closed_cb env o registered destroyed
  | Reopened _ => announce (NewChannel o [])
  | _ => mret tt
  end.

(** Something happens to a channel. *)
Definition on_channel (env : FactoryEnv) (o : nat) (i : muc_input) : MF unit :=
  f ← get;
  emitted ← update_object o (run (muc_env env) (KnownContacts (all_contacts f)) ;; run (muc_env env) i);
  for_each emitted (muc_signal env o).

(** ** Channels are made *)

Definition gabble_muc_factory_find_text_channel (handle : string) : MF (option nat) :=
  f ← get; mret (text_channels f ≫= λ t, t !! handle).

(** The addresses of the channels that exist. *)
Definition allocated (f : F) : gset nat :=
  list_to_set (address <$> List.filter (λ ob, bool_decide (is_Some (chan (world ob))))
                             (map_to_list (objects f)).*2).

Definition no_channel (cs : gset string) : World G := mkWorld None cs ∅ 0 false 0 ∅ 0 [].

(** [invitation]: the inviter and the message. *)
Definition new_muc_channel (env : FactoryEnv) (handle : string)
    (invitation : option (string * option string)) (initially_register : bool) : MF nat :=
  existing ← gabble_muc_factory_find_text_channel handle;
  g_assert (bool_decide (existing = None)) ;;
  f ← get;
  let o := next_object f in
  match gabble_muc_channel_constructed g_utf8_strdown g_utf8_normalize (muc_env env) first handle
          (own_alias env) (alias_from_jid env) initially_register invitation
          (no_channel (all_contacts f)) with
  | Abort r => fail r
  | Ok (_, w) =>
      put_objects (<[o := mkObject (malloc (allocated f)) handle w]> (objects f)) (S o) ;;
      put_all_contacts (contacts w)
  end ;;
  match text_channels f with
  | None => mret tt
  | Some t => put_text (Some (<[handle := o]> t))
  end ;;
  ch ← get_channel o;
  when (ready (life ch)) (muc_ready_cb o (registered (life ch))) ;;
  mret o.

Definition do_invite (env : FactoryEnv) (room inviter_handle : string) (reason : option string) :
    MF unit :=
  match ensure_room env room with
  | None => mret tt
  | Some room_handle =>
      existing ← gabble_muc_factory_find_text_channel room_handle;
      match existing with
      | None => new_muc_channel env room_handle (Some (inviter_handle, reason)) true ;; mret tt
      | Some _ => mret tt
      end
  end.

(** [result]: [None] when there was an error. *)
Definition obsolete_invite_disco_cb (env : FactoryEnv) (request : nat) (data : DiscoInviteData)
    (result : option WockyNode) : MF unit :=
  f ← get; put_disco (delete request (disco_requests f)) (next_disco f) ;;
  match result with
  | None => mret tt
  | Some query_result =>
      let identity := wocky_node_get_child query_result "identity" in
      let attribute a := identity ≫= λ n, wocky_node_get_attribute n a in
      when (bool_decide (attribute "category" = Some "conference") &&
            bool_decide (attribute "type" = Some "text"))
        (do_invite env (invited_to data) (inviter data) (invite_reason data))
  end.

(** Whether the message was an invitation. *)
Definition process_muc_invite (env : FactoryEnv) (message : WockyNode) (from : string)
    (is_error : bool) : MF bool :=
  match x ← wocky_node_get_child_ns message (Some "x") (Some WOCKY_NS_MUC_USER);
        wocky_node_get_child x "invite" with
  | None => mret false
  | Some invite_node =>
      (if is_error then mret tt
       else
         match wocky_node_get_attribute invite_node "from" with
         | None => mret tt
         | Some invite_from =>
             inviter_handle ← ensure_contact invite_from;
             if is_empty inviter_handle then mret tt
             else do_invite env (gabble_remove_resource from) inviter_handle
                    (wocky_node_get_child invite_node "reason" ≫= content)
         end) ;;
      mret true
  end.

Definition process_obsolete_invite (env : FactoryEnv) (message : WockyNode) (from : string)
    (body : option string) (is_error : bool) : MF bool :=
  match wocky_node_get_child_ns message (Some "x") (Some NS_X_CONFERENCE) with
  | None => mret false
  | Some x_node =>
      (if is_error then mret tt
       else
         match wocky_node_get_attribute x_node "jid" with
         | None => mret tt
         | Some room =>
             inviter_handle ← ensure_contact from;
             if is_empty inviter_handle then mret tt
             else
               when (disco_sent env)
                 (f ← get;
                  announce (Discovering (next_disco f) room) ;;
                  put_disco (<[next_disco f := mkInvite room inviter_handle body]> (disco_requests f))
                    (S (next_disco f)))
         end) ;;
      mret true
  end.

(** Whether the message was taken. *)
Definition muc_factory_message_cb (env : FactoryEnv) (message : WockyNode) : MF bool :=
  match gabble_message_util_parse_incoming_message from_iso8601 error_domains message with
  | None => mret true
  | Some m =>
      if olpc_message env message then mret true
      else
        let is_error := bool_decide (is_Some (i_send_error m)) in
        taken ← process_muc_invite env message (i_from m) is_error;
        if (taken : bool) then mret true
        else process_obsolete_invite env message (i_from m) (i_body m) is_error
  end.

Definition gabble_muc_factory_broadcast_presence (env : FactoryEnv) : MF unit :=
  f ← get;
  match text_channels f with
  | None => mret tt
  | Some t => for_each (map_to_list t).*2 (λ o, on_channel env o SendPresence)
  end.

(** The channel of a room, made if there is none, and whether it is ready. *)
Definition ensure_muc_channel (env : FactoryEnv) (handle : string) (export_text : bool) :
    MF (nat * bool) :=
  existing ← gabble_muc_factory_find_text_channel handle;
  o ← match existing with
      | None =>
          o ← new_muc_channel env handle None export_text;
          on_channel env o (SetAutoclose (negb export_text)) ;;
          mret o
      | Some o => when export_text (on_channel env o (SetAutoclose false)) ;; mret o
      end;
  ch ← get_channel o;
  mret (o, ready (life ch)).

(** ** Requests *)

(** Those to be invited: the contacts of the chats the room is made from, the
    contacts given, and those with the names given; and those of the first
    kind. *)
Definition invitees_of_channels (env : FactoryEnv) (r : Request) : gset string :=
  list_to_set (omap (im_channel env) (default [] (initial_channels r))).
Definition invitees_of_handles (env : FactoryEnv) (r : Request) : gset string :=
  list_to_set (List.filter (known_handle env) (default [] (initial_handles r))).
Fixpoint invitees_of_ids (ids : list string) : MF (gset string) :=
  match ids with
  | [] => mret ∅
  | id :: ids' =>
      handle ← ensure_contact id;
      others ← invitees_of_ids ids';
      mret (containing handle ∪ others)
  end.

(** The name of a room that was not named by a handle. *)
Definition room_id (env : FactoryEnv) (r : Request) (invitees : list string) : string :=
  let server := match server_prop r with
                | Some s => "@" +:+ s
                | None => if existsb (google_webmail env) invitees then "@groupchat.google.com"
                          else EmptyString
                end in
  match room_name r with
  | Some n => if is_empty n then "private-chat-" +:+ fresh_uuid env +:+ server else n +:+ server
  | None => "private-chat-" +:+ fresh_uuid env +:+ server
  end.

(** The handle of the room has the name and the server that were asked for. *)
Definition check_room (r : Request) (room : string) : MF bool :=
  match room_name r with
  | Some n =>
      if is_empty n then mret true
      else
        match wocky_decode_jid g_utf8_strdown room with
        | Some (target_room, _, _) => mret (bool_decide (target_room = Some n))
        | None => fail AssertFailed
        end
  | None => mret true
  end.
Definition check_server (r : Request) (room : string) : MF bool :=
  match server_prop r with
  | Some s =>
      match wocky_decode_jid g_utf8_strdown room with
      | Some (_, target_server, _) => mret (bool_decide (target_server = s))
      | None => fail AssertFailed
      end
  | None => mret true
  end.

Definition has_initial (r : Request) : bool :=
  bool_decide (is_Some (initial_channels r)) || bool_decide (is_Some (initial_handles r)) ||
  bool_decide (is_Some (initial_ids r)).

(** The channel is ready: it serves the request as it is. *)
Definition satisfy_ready (env : FactoryEnv) (o token : nat) (r : Request) (require_new : bool) :
    MF (option RequestError) :=
  ch ← get_channel o;
  let reg := registered (life ch) in
  if require_new && reg then mret (Some REQUEST_NOT_AVAILABLE)
  else if has_initial r then mret (Some REQUEST_INVALID_ARGUMENT)
  else
    (if reg then announce (AlreadySatisfied o token)
     else on_channel env o Register ;; announce (NewChannel o [token])) ;;
    mret None.

(** The channel is not ready: the request waits for it, and the contacts are
    invited. *)
Definition await_channel (env : FactoryEnv) (o token : nat) (r : Request) (invitees : list string)
    (continue_handles : gset string) : MF (option RequestError) :=
  ob ← get_object o;
  gabble_muc_factory_associate_request (address ob) token ;;
  for_each invitees (λ id,
    on_channel env o (SendInvite id (default EmptyString (invite_msg r))
                        (bool_decide (id ∈ continue_handles)))) ;;
  mret None.

Definition handle_text_channel_request (env : FactoryEnv) (token : nat) (r : Request)
    (require_new : bool) : MF (option RequestError) :=
  if unknown_properties r then mret (Some REQUEST_NOT_IMPLEMENTED)
  else
    let continue_handles := invitees_of_channels env r in
    named ← invitees_of_ids (default [] (initial_ids r));
    let invitees := elements (continue_handles ∪ invitees_of_handles env r ∪ named) in
    match (if is_empty (target r) then ensure_room env (room_id env r invitees)
           else Some (target r)) with
    | None => mret (Some REQUEST_INVALID_HANDLE)
    | Some room =>
        right_name ← check_room r room;
        if negb right_name then mret (Some REQUEST_INVALID_ARGUMENT)
        else
          right_server ← check_server r room;
          if negb right_server then mret (Some REQUEST_INVALID_ARGUMENT)
          else
            '(o, is_ready) ← ensure_muc_channel env room true;
            if (is_ready : bool) then satisfy_ready env o token r require_new
            else await_channel env o token r invitees continue_handles
    end.

(** Whether the request is one for this manager. *)
Definition gabble_muc_factory_request (env : FactoryEnv) (token : nat) (r : Request)
    (require_new : bool) : MF bool :=
  let anonymous := bool_decide (target_type r = TARGET_NONE) && is_text r in
  let conference := anonymous && has_initial r in
  let named := anonymous && bool_decide (is_Some (room_name r)) in
  if negb (bool_decide (target_type r = TARGET_ROOM)) && negb conference && negb named
  then mret false
  else
    g_assert (conference || named || negb (is_empty (target r))) ;;
    if is_text r then
      error ← handle_text_channel_request env token r require_new;
      match error with
      | Some e => announce (RequestFailed token e)
      | None => mret tt
      end ;;
      mret true
    else mret false.

(** ** The end *)

Definition cancel_queued_requests (requests_satisfied : list nat) : MF unit :=
  for_each (reverse requests_satisfied)
    (λ token, announce (RequestFailed token REQUEST_DISCONNECTED)).

Definition gabble_muc_factory_close_all (env : FactoryEnv) : MF unit :=
  f ← get;
  put_flags (listening f) false (dispose_has_run f) ;;
  match queued_requests f with
  | None => mret tt
  | Some q => for_each (map_to_list q).*2 cancel_queued_requests
  end ;;
  put_queued None ;;
  match text_channels f with
  | None => mret tt
  | Some t =>
      put_text None ;;
      for_each (map_to_list t).*2 (λ o, on_channel env o Teardown) ;;
      for_each (map_to_list t).*2 (forget env)
  end ;;
  f ← get; put_flags false (watching f) (dispose_has_run f).

(** A request that is cancelled has its callback called with an error.  That
    takes it out of the table, and [g_hash_table_foreach], whose table was
    changed, stops: one request is cancelled, whichever comes first.  The
    others are forgotten with the table, and with the object they are bound
    to. *)
Definition cancel_disco_request (env : FactoryEnv) (request : nat * DiscoInviteData) : MF unit :=
  obsolete_invite_disco_cb env request.1 request.2 None.

Definition gabble_muc_factory_dispose (env : FactoryEnv) : MF unit :=
  f ← get;
  if dispose_has_run f then mret tt
  else
    put_flags (listening f) (watching f) true ;;
    gabble_muc_factory_close_all env ;;
    f ← get;
    g_assert (bool_decide (text_channels f = None)) ;;
    g_assert (bool_decide (queued_requests f = None)) ;;
    match map_to_list (disco_requests f) with
    | [] => mret tt
    | request :: _ => cancel_disco_request env request
    end ;;
    f ← get; put_disco ∅ (next_disco f).

(** ** Calls *)

(** [gabble_get_room_handle_from_jid]: the room of a name, if it has a handle. *)
Definition gabble_get_room_handle_from_jid (env : FactoryEnv) (jid : string) : option string :=
  room ← ensure_room env (gabble_remove_resource jid);
  if known_room env room then Some room else None.

(** Whether the session is one of a call in a room. *)
Definition gabble_muc_factory_handle_jingle_session (env : FactoryEnv) (peer_jid : string) : MF bool :=
  match gabble_get_room_handle_from_jid env peer_jid with
  | None => mret false
  | Some room =>
      channel ← gabble_muc_factory_find_text_channel room;
      g_assert (bool_decide (is_Some channel)) ;;
      match channel with
      | Some o => get_channel o ;; mret (has_call env o)
      | None => mret false
      end
  end.

Definition gabble_muc_factory_init (cs : gset string) : F :=
  mkFactory ∅ 0 (Some ∅) (Some ∅) ∅ 0 false true false cs [].

(** ** Inputs *)

Inductive factory_input :=
  | ChannelInput (o : nat) (i : muc_input)
  | PorterAvailable
  | MessageStanza (stanza : WockyNode)
  | DiscoAnswer (request : nat) (result : option WockyNode)
  | RequestChannel (token : nat) (r : Request) (require_new : bool)
  | EnsureRoom (room : string)
  | BroadcastPresence
  | Disconnected
  | Dispose
  | JingleSession (peer_jid : string).

Definition factory_run (env : FactoryEnv) (i : factory_input) : MF unit :=
  match i with
  | ChannelInput o i =>
      f ← get; when (bool_decide (is_Some (objects f !! o))) (on_channel env o i)
  | PorterAvailable => f ← get; put_flags true (watching f) (dispose_has_run f)
  | MessageStanza stanza =>
      f ← get; when (listening f) (muc_factory_message_cb env stanza ;; mret tt)
  | DiscoAnswer n result =>
      f ← get;
      match disco_requests f !! n with
      | Some data => obsolete_invite_disco_cb env n data result
      | None => mret tt
      end
  | RequestChannel token r require_new =>
      gabble_muc_factory_request env token r require_new ;; mret tt
  | EnsureRoom room =>
      '(o, _) ← ensure_muc_channel env room false;
      on_channel env o TubeOpened
  | BroadcastPresence => gabble_muc_factory_broadcast_presence env
  | Disconnected => f ← get; when (watching f) (gabble_muc_factory_close_all env)
  | Dispose => gabble_muc_factory_dispose env
  | JingleSession peer => gabble_muc_factory_handle_jingle_session env peer ;; mret tt
  end.
End factory.
End MucFactory.
