(* ===== verification/MucFactoryFacts.v ===== *)
(** * The manager of chat rooms: invariants and theorems

    First what the manager knows of a channel from outside: whatever happens
    to it, it stays the channel of its room, and it drops out of the table of
    rooms exactly when it says that it was destroyed ([follows], a relation
    between the world before and after that is closed under sequencing).  Then
    the books of the requests, the invariant of the table, and the theorems. *)

From S2P Require Import Prelude Node Namespaces Jid XmppError MessageUtil WockyMuc MucChannel MucFacts MucTheorems MucFactory.

Module MucFactoryFacts.
Import Jid XmppError MessageUtil WockyMuc MucChannel MucFacts MucTheorems MucFactory.

(** ** A channel seen from outside *)

Section outside.
Context {G : Type} `{TpGroupMixin G}.

Local Notation Chan := (GabbleMucChannel G).
Local Notation W := (World G).
Implicit Types (s : W) (ch : Chan).

(** The channel says that it was destroyed. *)
Definition ends (e : muc_event) : bool :=
  match e with Closed _ destroyed => destroyed | _ => false end.

(** [e]: the channel may come to its end. *)
Definition goes_on (e : bool) s s' : Prop :=
  (∃ l, events s' = events s ++ l ∧ in_factory s' = in_factory s && negb (existsb ends l) ∧
        (e = false → existsb ends l = false)) ∧
  (∀ ch', chan s' = Some ch' → ∃ ch, chan s = Some ch ∧ jid ch' = jid ch).

Lemma goes_on_refl e s : goes_on e s s.
Proof.
  split; [exists []; by rewrite app_nil_r, andb_true_r|eauto].
Qed.

Lemma goes_on_trans e s1 s2 s3 : goes_on e s1 s2 → goes_on e s2 s3 → goes_on e s1 s3.
Proof.
  intros [(l1 & E1 & F1 & N1) C1] [(l2 & E2 & F2 & N2) C2]. split.
  - exists (l1 ++ l2). rewrite existsb_app, F2, F1, E2, E1, app_assoc. split; [done|].
    split; [by destruct (existsb ends l1), (in_factory s1)|]. intros He. by rewrite N1, N2.
  - intros ch3 (ch2 & H2 & ->)%C2. by destruct (C1 ch2 H2) as (ch1 & H1 & ->); eauto.
Qed.

Definition follows (e : bool) {A} (m : M W A) s : Prop :=
  ∀ a s', m s = Ok (a, s') → goes_on e s s'.

Lemma follows_ret e {A} (a : A) s : follows e (mret a) s.
Proof. intros b s' [= _ <-]. apply goes_on_refl. Qed.
Lemma follows_fail e {A} r s : follows e (fail r : M W A) s.
Proof. done. Qed.
Lemma follows_modify e g s : goes_on e s (g s) → follows e (modify g) s.
Proof. by intros Hg [] s' [= <-]. Qed.
Lemma follows_get e {B} (k : W → M W B) s : follows e (k s) s → follows e (get ≫= k) s.
Proof. done. Qed.
Lemma follows_bind e {A B} (m : M W A) (k : A → M W B) s :
  follows e m s → (∀ a s', follows e (k a) s') → follows e (m ≫= k) s.
Proof.
  intros Hm Hk b s'. unfold mbind, M_bind. destruct (m s) as [[a s1]|] eqn:E; [|done].
  intros E'. eapply goes_on_trans; [by eapply Hm|by eapply Hk].
Qed.
Lemma follows_when e b (m : M W unit) s : follows e m s → follows e (when b m) s.
Proof. intros Hm. destruct b; [done|apply follows_ret]. Qed.
Lemma follows_for_each e {A} (l : list A) (body : A → M W unit) s :
  (∀ x s', follows e (body x) s') → follows e (for_each l body) s.
Proof.
  intros Hb. revert s. induction l as [|x l IH]; intros s; [apply follows_ret|].
  apply follows_bind; auto.
Qed.

(** A change of the state that says nothing and changes no reference. *)
Lemma follows_silent e g s :
  events (g s) = events s → in_factory (g s) = in_factory s → chan (g s) = chan s →
  follows e (modify g) s.
Proof.
  intros E F C. apply follows_modify. split.
  - exists []. by rewrite app_nil_r, andb_true_r.
  - rewrite C. eauto.
Qed.

Lemma follows_emit e ev s : (ends ev = true → False) → follows e (emit ev) s.
Proof.
  intros He. apply follows_modify. split; [|eauto]. exists [ev]. cbn.
  destruct (ends ev); [by destruct He|]. by rewrite andb_true_r.
Qed.

Lemma follows_change e f s : (∀ ch, jid (f ch) = jid ch) → follows e (change f) s.
Proof.
  intros Hf [] s'. unfold change, get_chan, mbind, M_bind, get. destruct (chan s) as [ch|] eqn:C; [|done].
  intros [= <-]. split; cbn; [exists []; by rewrite app_nil_r, andb_true_r|].
  intros ch' [= <-]. eauto.
Qed.

Lemma follows_forget_chan e s : follows e (set_chan None) s.
Proof. apply follows_modify. split; [exists []; by rewrite app_nil_r, andb_true_r|done]. Qed.
End outside.

Ltac follows_with tac :=
  repeat first
    [ progress intros
    | tac
    | match goal with
      | |- follows _ (mret _) _ => apply follows_ret
      | |- follows _ (fail _) _ => apply follows_fail
      | |- follows _ (emit _) _ => apply follows_emit; cbn; done
      | |- follows _ (change _) _ => apply follows_change; done
      | |- follows _ (set_chan None) _ => apply follows_forget_chan
      | |- follows _ (if ?b then _ else _) _ => destruct b
      | |- follows _ (match ?x with _ => _ end) _ => destruct x
      | |- follows _ (let _ := _ in _) _ => cbv zeta
      | |- follows _ (get ≫= _) _ => apply follows_get
      | |- follows _ (mbind _ _) _ => apply follows_bind
      | |- follows _ (when _ _) _ => apply follows_when
      | |- follows _ (for_each _ _) _ => apply follows_for_each
      | |- follows _ (modify _) _ => apply follows_silent; done
      | |- follows _ ?m _ => unfold_head m
      end ].
Ltac follow := follows_with fail.

Section handlers.
Context {G : Type} `{TpGroupMixin G}.
Context (strdown normalize : string → string) (from_iso8601 : string → option Z).
Context (domains : list WockyXmppErrorDomain) (description : WockyXmppError → string).
Context (first : gset string → option string).

Local Notation W := (World G).
Implicit Types s : W.

Lemma unref_follows e s : follows e unref s.
Proof. follow. Qed.

Lemma destroyed_follows s : follows true tp_base_channel_destroyed s.
Proof.
  intros [] s'. unfold tp_base_channel_destroyed, get_chan, mbind, M_bind, get.
  destruct (chan s) as [ch|] eqn:C; [|done]. unfold change_life, change, get_chan, mbind, M_bind, get, emit, put_refs.
  cbn. rewrite C. cbn. intros Hu. eapply goes_on_trans; [|by eapply unref_follows].
  split; cbn; [|intros ch' [= <-]; eauto].
  exists [Closed (registered (life ch)) true]. cbn. by rewrite andb_false_r.
Qed.

Lemma ensure_follows e id mode s : follows e (tp_handle_ensure strdown normalize id mode) s.
Proof. follow. Qed.
Lemma set_state_follows e st s : follows e (set_state st) s.
Proof. follow. Qed.
Lemma join_follows e env s : follows e (send_join_request strdown normalize env) s.
Proof. follow. Qed.
Lemma add_member_follows e env h m s :
  follows e (gabble_muc_channel_add_member strdown normalize env first h m) s.
Proof.
  follows_with ltac:(first [apply ensure_follows|apply set_state_follows|apply join_follows]).
Qed.

Lemma close_follows env reason inform actor code s :
  follows true (close_channel strdown normalize env reason inform actor code) s.
Proof.
  follows_with ltac:(first [apply destroyed_follows|apply ensure_follows|apply set_state_follows
                           |apply unref_follows]).
Qed.

Lemma error_follows env stanza err s :
  follows true (handle_error strdown normalize description env stanza err) s.
Proof.
  follows_with ltac:(first [apply close_follows|apply ensure_follows|apply set_state_follows
                           |apply join_follows]).
Qed.

Lemma roster_follows env l s : follows true (update_roster_presences strdown normalize env l) s.
Proof.
  revert s. induction l as [|m l IH]; intros s; cbn [update_roster_presences]; [apply follows_ret|].
  apply follows_bind; [|intros; apply follows_bind; [apply IH|intros; apply follows_ret]].
  follows_with ltac:(apply ensure_follows).
Qed.

Lemma signal_follows env sig s : follows true (g_signal_emit strdown normalize description env sig) s.
Proof.
  destruct sig; cbn [g_signal_emit];
    follows_with ltac:(first [apply destroyed_follows|apply close_follows|apply error_follows
      |apply ensure_follows|apply set_state_follows|apply roster_follows]).
Qed.

(** Whatever happens to a channel that is not done by its manager alone. *)
Lemma run_follows env i s :
  i ≠ Forget → follows true (run_input strdown normalize from_iso8601 domains description first env i) s.
Proof.
  intros Hi. destruct i; try done; cbn [run_input];
    follows_with ltac:(first [apply destroyed_follows|apply close_follows|apply signal_follows
      |apply ensure_follows|apply set_state_follows|apply unref_follows|apply join_follows
      |apply add_member_follows]).
Qed.
End handlers.

(** ** The books of the requests *)

Section books.
Context {G : Type} `{TpGroupMixin G}.
Context (strdown normalize : string → string) (from_iso8601 : string → option Z).
Context (domains : list WockyXmppErrorDomain) (description : WockyXmppError → string).
Context (first : gset string → option string) (malloc : gset nat → nat).

Local Notation F := (GabbleMucFactory G).
Local Notation frun := (factory_run strdown normalize from_iso8601 domains description first malloc).
Implicit Types f : F.

(** The requests that an announcement answers, and those it loses. *)
Definition answers (e : factory_event) : list nat :=
  match e with
  | NewChannel _ tokens => tokens
  | AlreadySatisfied _ token | RequestFailed token _ => [token]
  | _ => []
  end.
Definition losses (e : factory_event) : list nat :=
  match e with Lost tokens => tokens | _ => [] end.
Definition answered f : list nat := signals f ≫= answers.
Definition lost f : list nat := signals f ≫= losses.
Definition waiting f : list nat :=
  from_option (λ q, mjoin (map_to_list q).*2) [] (queued_requests f).

(** How often a request is in the books. *)
Definition times (t : nat) (l : list nat) : nat := count_occ Nat.eq_dec l t.
Definition entries (t : nat) f : nat :=
  (times t (answered f) + times t (lost f) + times t (waiting f))%nat.

Lemma times_app t l k : times t (l ++ k) = (times t l + times t k)%nat.
Proof. apply count_occ_app. Qed.
Lemma times_perm t l k : l ≡ₚ k → times t l = times t k.
Proof. intros Hp. by apply Permutation_count_occ. Qed.
Lemma times_reverse t l : times t (reverse l) = times t l.
Proof. apply times_perm, reverse_Permutation. Qed.

Definition adds (t n : nat) {A} (m : M F A) f : Prop :=
  ∀ a f', m f = Ok (a, f') → entries t f' = (n + entries t f)%nat.

Lemma adds_ret t {A} (a : A) f : adds t 0 (mret a) f.
Proof. by intros b f' [= _ <-]. Qed.
Lemma adds_fail t n {A} r f : adds t n (fail r : M F A) f.
Proof. done. Qed.
Lemma adds_get t n {B} (k : F → M F B) f : adds t n (k f) f → adds t n (get ≫= k) f.
Proof. done. Qed.
Lemma adds_bind t n1 n2 {A B} (m : M F A) (k : A → M F B) f :
  adds t n1 m f → (∀ a f', adds t n2 (k a) f') → adds t (n2 + n1) (m ≫= k) f.
Proof.
  intros Hm Hk b f'. unfold mbind, M_bind. destruct (m f) as [[a f1]|] eqn:E; [|done].
  intros E'. rewrite (Hk _ _ _ _ E'), (Hm _ _ E). lia.
Qed.
Lemma adds_bind_0 t {A B} (m : M F A) (k : A → M F B) f :
  adds t 0 m f → (∀ a f', adds t 0 (k a) f') → adds t 0 (m ≫= k) f.
Proof. apply (adds_bind t 0 0). Qed.
Lemma adds_when t b (m : M F unit) f : adds t 0 m f → adds t 0 (when b m) f.
Proof. intros Hm. destruct b; [done|apply adds_ret]. Qed.
Lemma adds_for_each t {A} (l : list A) (body : A → M F unit) f :
  (∀ x f', adds t 0 (body x) f') → adds t 0 (for_each l body) f.
Proof.
  intros Hb. revert f. induction l as [|x l IH]; intros f; [apply adds_ret|].
  apply adds_bind_0; auto.
Qed.
(** What changes neither the announcements nor the table of requests. *)
Lemma adds_silent t g f :
  signals (g f) = signals f → queued_requests (g f) = queued_requests f → adds t 0 (modify g) f.
Proof. intros E1 E2 [] f' [= <-]. unfold entries, answered, lost, waiting. by rewrite E1, E2. Qed.

Lemma adds_announce t e f : adds t (times t (answers e) + times t (losses e)) (announce e) f.
Proof.
  intros [] f' [= <-]. unfold entries, answered, lost, waiting. cbn [signals queued_requests].
  rewrite !bind_app, !times_app. cbn [mbind list_bind]. rewrite !app_nil_r. lia.
Qed.

Lemma adds_announces t e (l : list nat) f :
  (∀ x, answers (e x) = [x] ∧ losses (e x) = []) → adds t (times t l) (for_each l (λ x, announce (e x))) f.
Proof.
  intros He. revert f. induction l as [|x l IH]; intros f; cbn [for_each]; [apply adds_ret|].
  change (x :: l) with ([x] ++ l). rewrite times_app, Nat.add_comm. apply adds_bind; [|auto].
  intros [] f' E. rewrite (adds_announce _ _ _ _ _ E). destruct (He x) as [-> ->]. cbn. lia.
Qed.

Lemma waiting_split (q : gmap nat (list nat)) a :
  mjoin (map_to_list q).*2 ≡ₚ default [] (q !! a) ++ mjoin (map_to_list (delete a q)).*2.
Proof.
  destruct (q !! a) as [l|] eqn:E; cbn; [|by rewrite delete_id].
  by rewrite <- (map_to_list_delete q a l E).
Qed.

Lemma steal_adds t a f l f' :
  steal_requests a f = Ok (l, f') → (times t l + entries t f')%nat = entries t f.
Proof.
  unfold steal_requests, mbind, M_bind, get. destruct (queued_requests f) as [q|] eqn:E; [|by intros [= <- <-]].
  intros [= <- <-]. unfold entries, answered, lost, waiting. cbn [signals queued_requests]. rewrite E.
  cbn [from_option].
  rewrite (times_perm t _ _ (waiting_split q a)), times_app, times_reverse. lia.
Qed.

Lemma associate_adds t a token f :
  queued_requests f ≠ None →
  adds t (times t [token]) (gabble_muc_factory_associate_request a token) f.
Proof.
  intros Hq [] f'. unfold gabble_muc_factory_associate_request, mbind, M_bind, get.
  destruct (queued_requests f) as [q|] eqn:E; [|done]. intros [= <-].
  unfold entries, answered, lost, waiting. cbn [signals queued_requests]. rewrite E. cbn [from_option].
  rewrite (times_perm t _ _ (waiting_split (<[a:=_]> q) a)), (times_perm t _ _ (waiting_split q a)).
  set (l := default [] (q !! a)). rewrite lookup_insert_eq, delete_insert_eq. cbn [default from_option id].
  change (token :: l) with ([token] ++ l). rewrite !times_app. lia.
Qed.

(** *** Every operation *)

Lemma announce_nothing t e f : answers e = [] → losses e = [] → adds t 0 (announce e) f.
Proof. intros E1 E2 [] f' E. rewrite (adds_announce _ _ _ _ _ E), E1, E2. done. Qed.

Lemma ready_adds t o reg f : adds t 0 (muc_ready_cb o reg) f.
Proof.
  unfold muc_ready_cb. apply adds_bind_0; [intros ob f'; unfold get_object, mbind, M_bind, get|].
  { by destruct (objects f !! o); [intros [= _ <-]|]. }
  intros ob f1 [] f2. unfold mbind at 1, M_bind. destruct (steal_requests _ _) as [[l f3]|] eqn:E; [|done].
  pose proof (steal_adds t _ _ _ _ E) as Hs. intros Ha.
  destruct reg; rewrite (adds_announce _ _ _ _ _ Ha); cbn [answers losses]; cbn; lia.
Qed.

Lemma join_error_adds t o k f : adds t 0 (muc_join_error_cb o k) f.
Proof.
  unfold muc_join_error_cb. apply adds_bind_0; [intros ob f'; unfold get_object, mbind, M_bind, get|].
  { by destruct (objects f !! o); [intros [= _ <-]|]. }
  intros ob f1 [] f2. unfold mbind at 1, M_bind. destruct (steal_requests _ _) as [[l f3]|] eqn:E; [|done].
  pose proof (steal_adds t _ _ _ _ E) as Hs. intros Ha.
  rewrite (adds_announces t (λ x, RequestFailed x (REQUEST_JOIN k)) l _ (λ x, conj eq_refl eq_refl) _ _ Ha). lia.
Qed.
End books.

Ltac adds_with tac :=
  repeat first
    [ progress intros
    | tac
    | apply ready_adds
    | apply join_error_adds
    | match goal with
      | |- adds _ 0 (mret _) _ => apply adds_ret
      | |- adds _ _ (fail _) _ => apply adds_fail
      | |- adds _ 0 (announce _) _ => apply announce_nothing; done
      | |- adds _ _ (if ?b then _ else _) _ => destruct b
      | |- adds _ _ (match ?x with _ => _ end) _ => destruct x
      | |- adds _ _ (let _ := _ in _) _ => cbv zeta
      | |- adds _ _ (get ≫= _) _ => apply adds_get
      | |- adds _ 0 (mbind _ _) _ => apply adds_bind_0
      | |- adds _ 0 (when _ _) _ => apply adds_when
      | |- adds _ 0 (for_each _ _) _ => apply adds_for_each
      | |- adds _ 0 (modify _) _ => apply adds_silent; done
      | |- adds _ _ ?m _ => unfold_head m
      end ].

Section requests.
Context {G : Type} `{TpGroupMixin G}.
Context (strdown normalize : string → string) (from_iso8601 : string → option Z).
Context (domains : list WockyXmppErrorDomain) (description : WockyXmppError → string).
Context (first : gset string → option string) (malloc : gset nat → nat).

Local Notation F := (GabbleMucFactory G).
Local Notation frun := (factory_run strdown normalize from_iso8601 domains description first malloc).
Implicit Types f : F.

Lemma update_adds t o m f : adds (G:=G) t 0 (update_object o m) f.
Proof. adds_with ltac:(fail). Qed.

Lemma on_channel_adds t env o i f :
  adds t 0 (on_channel strdown normalize from_iso8601 domains description first env o i) f.
Proof. unfold on_channel. adds_with ltac:(apply update_adds). Qed.

Lemma new_channel_adds t env h inv reg f :
  adds t 0 (new_muc_channel strdown normalize first malloc env h inv reg) f.
Proof. unfold new_muc_channel. adds_with ltac:(fail). Qed.

Lemma ensure_adds t env h e f :
  adds t 0 (ensure_muc_channel strdown normalize from_iso8601 domains description first malloc env h e) f.
Proof. unfold ensure_muc_channel. adds_with ltac:(first [apply on_channel_adds|apply new_channel_adds]). Qed.

(** Until the connection ends there is a table of requests. *)
Definition is_open f : bool :=
  match queued_requests f with Some _ => true | None => false end.

Ltac keeps_table := apply retains_modify; intros E; exact E.

Lemma steal_open a f : retains is_open true (steal_requests a) f.
Proof.
  intros Ho l f'. unfold steal_requests, mbind, M_bind, get. destruct (queued_requests f); [|by intros [= _ <-]].
  by intros [= _ <-].
Qed.
Lemma on_channel_open env o i f :
  retains is_open true
    (on_channel strdown normalize from_iso8601 domains description first env o i) f.
Proof. retains_with ltac:(first [apply steal_open|keeps_table]). Qed.
Lemma new_channel_open env h inv reg f :
  retains is_open true (new_muc_channel strdown normalize first malloc env h inv reg) f.
Proof. retains_with ltac:(first [apply steal_open|keeps_table]). Qed.
Lemma ensure_open env h e f :
  retains is_open true
    (ensure_muc_channel strdown normalize from_iso8601 domains description first malloc env h e) f.
Proof. unfold ensure_muc_channel. retains_with ltac:(first [apply on_channel_open|apply new_channel_open|keeps_table]). Qed.

(** A request that is taken and not refused is in the books. *)
Definition settles (t token : nat) (m : M F (option RequestError)) f : Prop :=
  ∀ r f', m f = Ok (r, f') →
    entries t f' = (match r with None => times t [token] | Some _ => 0 end + entries t f)%nat.

Lemma settles_refused t token e f : settles t token (mret (Some e)) f.
Proof. by intros r f' [= <- <-]. Qed.
Lemma settles_adds t token (m : M F unit) f :
  adds t (times t [token]) m f → settles t token (m ;; mret None) f.
Proof.
  intros Hm r f'. unfold mbind, M_bind. destruct (m f) as [[[] f1]|] eqn:E; [|done].
  intros [= <- <-]. by apply Hm in E.
Qed.
Lemma settles_bind t token {A} (m : M F A) k f :
  adds t 0 m f → retains is_open true m f → is_open f = true →
  (∀ a f', is_open f' = true → settles t token (k a) f') → settles t token (m ≫= k) f.
Proof.
  intros Hm Ho Hf Hk r f'. unfold mbind, M_bind. destruct (m f) as [[a f1]|] eqn:E; [|done].
  intros E'. rewrite (Hk a f1 (Ho Hf _ _ E) _ _ E'). by rewrite (Hm _ _ E).
Qed.

Lemma ready_settles t env o token r b f :
  is_open f = true →
  settles t token
    (satisfy_ready strdown normalize from_iso8601 domains description first env o token r b) f.
Proof.
  intros Ho. unfold satisfy_ready. apply settles_bind; [adds_with ltac:(fail)|retains_with keeps_table|done|].
  clear f Ho. intros ch f Ho. destruct (b && _); [apply settles_refused|].
  destruct (has_initial r); [apply settles_refused|]. apply settles_adds.
  destruct (registered (life ch)).
  - intros [] f' E. rewrite (adds_announce _ _ _ _ _ E). cbn. lia.
  - rewrite <- (Nat.add_0_r (times _ _)). apply adds_bind; [apply on_channel_adds|].
    intros _ f1 [] f2 E. rewrite (adds_announce _ _ _ _ _ E). cbn. lia.
Qed.

Lemma await_settles t env o token r l c f :
  is_open f = true →
  settles t token
    (await_channel strdown normalize from_iso8601 domains description first env o token r l c) f.
Proof.
  intros Ho. unfold await_channel. apply settles_bind; [adds_with ltac:(fail)|retains_with keeps_table|done|].
  clear f Ho. intros ob f Ho.
  assert (Hq : queued_requests f ≠ None) by (unfold is_open in Ho; by destruct (queued_requests f)).
  intros e f'. unfold mbind, M_bind.
  destruct (gabble_muc_factory_associate_request _ _ f) as [[[] f1]|] eqn:E1; [|done].
  destruct (for_each _ _ f1) as [[[] f2]|] eqn:E2; [|done]. intros [= <- <-].
  assert (Hl : adds t 0 (for_each l (λ id, on_channel strdown normalize from_iso8601 domains description first
    env o (SendInvite id (default EmptyString (invite_msg r)) (bool_decide (id ∈ c))))) f1)
    by (apply adds_for_each; intros; apply on_channel_adds).
  rewrite (Hl _ _ E2). by rewrite (associate_adds t _ _ _ Hq _ _ E1).
Qed.

Lemma text_request_settles t env token r b f :
  is_open f = true →
  settles t token
    (handle_text_channel_request strdown normalize from_iso8601 domains description first malloc
       env token r b) f.
Proof.
  intros Ho. unfold handle_text_channel_request. destruct (unknown_properties r); [apply settles_refused|].
  assert (Hids : ∀ l f', adds t 0 (invitees_of_ids (G:=G) strdown normalize l) f' ∧
                         retains is_open true (invitees_of_ids (G:=G) strdown normalize l) f').
  { intros l. induction l as [|id l IH]; intros f'; cbn [invitees_of_ids]; (split; [adds_with ltac:(apply IH)|]);
      retains_with ltac:(first [apply IH|keeps_table]). }
  apply settles_bind; [apply Hids|apply Hids|done|]. clear f Ho. intros named f Ho.
  destruct (if is_empty _ then _ else _) as [room|]; [|apply settles_refused].
  apply settles_bind; [adds_with ltac:(fail)|retains_with keeps_table|done|]. clear f Ho. intros [] f Ho; [|apply settles_refused].
  apply settles_bind; [adds_with ltac:(fail)|retains_with keeps_table|done|]. clear f Ho. intros [] f Ho; [|apply settles_refused].
  apply settles_bind; [apply ensure_adds|apply ensure_open|done|]. clear f Ho. intros [o []] f Ho.
  - by apply ready_settles.
  - by apply await_settles.
Qed.

(** The requests that this manager takes. *)
Definition for_us (r : Request) : bool :=
  is_text r &&
  (bool_decide (target_type r = TARGET_ROOM) ||
   (bool_decide (target_type r = TARGET_NONE) &&
    (has_initial r || bool_decide (is_Some (room_name r))))).

Definition taken (i : factory_input) : list nat :=
  match i with RequestChannel token r _ => if for_us r then [token] else [] | _ => [] end.

Lemma request_adds t env token r b f :
  (for_us r = true → is_open f = true) →
  adds t (times t (if for_us r then [token] else []))
    (gabble_muc_factory_request strdown normalize from_iso8601 domains description first malloc
       env token r b) f.
Proof.
  unfold gabble_muc_factory_request, for_us. intros Ho.
  destruct (is_text r); cbn [andb] in *; [|rewrite ?andb_false_r; change (times t []) with 0%nat; adds_with ltac:(fail)].
  rewrite !andb_true_r in *. set (c := bool_decide (target_type r = TARGET_NONE)) in *.
  set (n := bool_decide (is_Some (room_name r))) in *. set (k := bool_decide (target_type r = TARGET_ROOM)) in *.
  replace (negb k && negb (c && has_initial r) && negb (c && n)) with (negb (k || c && (has_initial r || n)))
    by (by destruct k, c, (has_initial r), n).
  destruct (k || c && (has_initial r || n)); cbn [negb]; [specialize (Ho eq_refl)|apply adds_ret].
  intros x f'. unfold mbind, M_bind, g_assert. destruct (_ || negb (is_empty (target r))); [|done]. cbn [mret M_ret].
  destruct (handle_text_channel_request _ _ _ _ _ _ _ _ _ _ _ f) as [[e f1]|] eqn:E; [|done].
  pose proof (text_request_settles t env token r b f Ho _ _ E) as Hs.
  destruct e as [e|].
  - destruct (announce _ f1) as [[[] f2]|] eqn:E2; [|done]. intros [= _ <-].
    rewrite (adds_announce _ _ _ _ _ E2), Hs. cbn. lia.
  - by intros [= _ <-].
Qed.

Lemma cancelled_adds t (ls : list (list nat)) f :
  adds t (times t (mjoin ls)) (for_each ls cancel_queued_requests) f.
Proof.
  revert f. induction ls as [|l ls IH]; intros f; cbn [for_each]; [apply adds_ret|].
  change (mjoin (l :: ls)) with (l ++ mjoin ls). rewrite times_app, Nat.add_comm, <- (times_reverse t l).
  apply adds_bind; [|auto]. unfold cancel_queued_requests. by apply adds_announces.
Qed.

Lemma cancelled_queue (ls : list (list nat)) q f :
  retains queued_requests q (for_each ls (cancel_queued_requests (G:=G))) f.
Proof. retains_with ltac:(fail). Qed.

Lemma close_all_adds t env f :
  adds t 0 (gabble_muc_factory_close_all strdown normalize from_iso8601 domains description first env) f.
Proof.
  unfold gabble_muc_factory_close_all. apply adds_get. intros [] f' E.
  apply bind_Ok in E as ([] & f0 & [= <-] & E). set (f0 := mkFactory _ _ _ _ _ _ _ _ _ _ _) in E.
  change (entries t f) with (entries t f0).
  change (queued_requests f) with (queued_requests f0) in E. clearbody f0.
  apply bind_Ok in E as ([] & f1 & E1 & E).
  assert (Hc : (entries t f1 = from_option (λ q, times t (mjoin (map_to_list q).*2)) 0 (queued_requests f0)
                               + entries t f0)%nat ∧ queued_requests f1 = queued_requests f0).
  { destruct (queued_requests f0) as [q|] eqn:Hq; cbn; [|by injection E1 as <-].
    split; [by apply (cancelled_adds t) in E1|]. by eapply (cancelled_queue _ (Some q)) in E1. }
  destruct Hc as [He Hq]. apply bind_Ok in E as ([] & f2 & [= <-] & E).
  set (f2 := mkFactory _ _ _ _ _ _ _ _ _ _ _) in E.
  assert (He2 : entries t f2 = entries t f0).
  { revert He. unfold entries, answered, lost, waiting. subst f2. cbn [signals queued_requests].
    rewrite Hq. destruct (queued_requests f0); unfold times; cbn [from_option count_occ]; lia. }
  rewrite <- He2. clearbody f2. clear - E.
  match type of E with ?m _ = _ => assert (Hm : adds t 0 m f2) end; [|by apply Hm in E].
  adds_with ltac:(first [apply on_channel_adds|apply update_adds]).
Qed.

(** The books are true: every request that was taken is answered, lost, or
    waits, and is so once. *)
Lemma input_adds t env i f :
  (taken i ≠ [] → is_open f = true) → adds t (times t (taken i)) (frun env i) f.
Proof.
  intros Ho. destruct i; cbn [taken factory_run]; change (times t []) with 0%nat;
    try (adds_with ltac:(first [apply on_channel_adds|apply update_adds|apply ensure_adds
           |apply new_channel_adds|apply close_all_adds]); fail).
  intros [] f'. unfold mbind, M_bind.
  destruct (gabble_muc_factory_request _ _ _ _ _ _ _ _ _ _ _ f) as [[x f1]|] eqn:E; [|done]. intros [= <-].
  eapply request_adds; [|exact E]. intros Eu. apply Ho. cbn. by rewrite Eu.
Qed.
End requests.
End MucFactoryFacts.
