(* ===== verification/MucFactoryTheorems.v ===== *)
(** * The manager of chat rooms: safety, its table, its requests

    The table of rooms refers to channels that exist, each the channel of its
    room; with what [MucTheorems] shows of one channel no input aborts, and
    with the books of [MucFactoryFacts] every request is accounted for, though
    perhaps with the wrong channel. *)

From S2P Require Import Prelude Node Namespaces Jid XmppError MessageUtil WockyMuc MucChannel MucFacts MucTheorems MucFactory MucFactoryFacts.

Module MucFactoryTheorems.
Import Jid XmppError MessageUtil WockyMuc MucChannel MucFacts MucTheorems MucFactory MucFactoryFacts.

Section theorems.
Context {G : Type} `{TpGroupMixinLaws G}.
Context (strdown normalize : string → string) (from_iso8601 : string → option Z).
Context (domains : list WockyXmppErrorDomain) (description : WockyXmppError → string).
Context (first : gset string → option string) (malloc : gset nat → nat).
Context (normalize_nonempty : ∀ x, x ≠ EmptyString → normalize x ≠ EmptyString).

Local Notation F := (GabbleMucFactory G).
Local Notation W := (World G).
Local Notation run := (run_input strdown normalize from_iso8601 domains description first).
Local Notation frun := (factory_run strdown normalize from_iso8601 domains description first malloc).
Local Notation reachable := (reachable strdown normalize from_iso8601 domains description first).
Local Notation on_channel := (on_channel strdown normalize from_iso8601 domains description first).
Local Notation muc_signal := (muc_signal strdown normalize from_iso8601 domains description first).
Local Notation forget := (forget strdown normalize from_iso8601 domains description first).
Implicit Types (f : F) (w : W).

(** ** One channel *)

Lemma reachable_known cs env w :
  reachable w → wp (run env (KnownContacts cs)) (λ _ w', reachable w' ∧ chan w' = chan w) w.
Proof.
  intros Hw. cbn [run_input]. apply wp_bind, wp_get, wp_modify. split; [|done].
  by eapply (reach_input _ _ _ _ _ _ env (KnownContacts cs)).
Qed.

Lemma reachable_run env i w :
  reachable w → polite_in strdown w i → wp (run env i) (λ _ w', reachable w') w.
Proof.
  intros Hw Hp.
  assert (Hs : wp (run env i) (λ _ _, True) w).
  { eapply wp_mono; [|apply muc_input_ok; [done| |exact Hp]]; [done|].
    by eapply (reachable_settled strdown normalize from_iso8601). }
  unfold wp in *. destruct (run env i w) as [[[] w']|] eqn:E; [|done]. by eapply reach_input.
Qed.

Definition happens (env : FactoryEnv) (cs : gset string) (i : muc_input) : M W unit :=
  run (muc_env env) (KnownContacts cs) ;; run (muc_env env) i.

Lemma happens_ok env cs i w :
  reachable w → polite_in strdown w i → wp (happens env cs i) (λ _ w', reachable w') w.
Proof.
  intros Hw Hp. unfold happens. apply wp_bind. eapply wp_mono; [|by apply reachable_known].
  intros [] w1 [Hw1 Hc]. apply reachable_run; [done|]. intros ch Hch. apply Hp. congruence.
Qed.

Lemma happens_follows env cs i w : i ≠ Forget → follows true (happens env cs i) w.
Proof. intros Hi. apply follows_bind; intros; by apply run_follows. Qed.

(** What is done to a channel without ending it. *)
Definition quiet (i : muc_input) : bool :=
  match i with SetAutoclose _ | SendInvite _ _ _ | Register | TubeOpened => true | _ => false end.

Lemma quiet_follows env cs i w : quiet i = true → follows false (happens env cs i) w.
Proof.
  intros Hi. destruct i; try done; apply follows_bind; intros; cbn [run_input]; follow.
Qed.

Lemma quiet_polite i w : quiet i = true → polite_in strdown w i.
Proof. intros Hi ch _. by destruct i. Qed.

Lemma forget_jid env w w' ch' :
  run env Forget w = Ok (tt, w') → chan w' = Some ch' → ∃ ch, chan w = Some ch ∧ jid ch' = jid ch.
Proof.
  cbn [run_input]. unfold if_alive, mbind, M_bind, get. destruct (chan w) as [ch|] eqn:E; [|intros [= <-]; congruence].
  cbn [put_refs modify]. intros Hu. apply (unref_follows true) in Hu as [_ Hj]. intros Hc.
  destruct (Hj _ Hc) as (ch0 & Hc0 & ->). cbn in Hc0. exists ch0. by rewrite <- E.
Qed.

(** ** The table of rooms *)

(** [pending o]: the channel has said that it was destroyed, and that was not
    dealt with yet. *)
Record okay (pending : nat → bool) f : Prop := {
  okay_worlds : ∀ o ob, objects f !! o = Some ob →
    reachable (world ob) ∧ ∀ ch, chan (world ob) = Some ch → jid ch = room ob;
  okay_fresh : ∀ o, (next_object f ≤ o)%nat → objects f !! o = None;
  okay_table : ∀ t r o, text_channels f = Some t → t !! r = Some o →
    ∃ ob, objects f !! o = Some ob ∧ room ob = r ∧ (in_factory (world ob) = true ∨ pending o = true);
}.

Definition factory_ok : F → Prop := okay (λ _, false).

(** What the invariant is about. *)
Definition core f : gmap nat (Object G) * nat * option (gmap string nat) :=
  (objects f, next_object f, text_channels f).

Lemma okay_core p f f' : core f' = core f → okay p f → okay p f'.
Proof. intros [= E1 E2 E3] [H1 H2 H3]. split; rewrite ?E1, ?E2, ?E3; done. Qed.

Lemma okay_mono (p q : nat → bool) f : (∀ o, p o = true → q o = true) → okay p f → okay q f.
Proof.
  intros Hpq [H1 H2 H3]. split; [done..|]. intros t r o Ht Hr.
  destruct (H3 t r o Ht Hr) as (ob & ? & ? & [?|?]); eauto 8.
Qed.

(** Objects are there for good. *)
Definition grows f f' : Prop := ∀ o, is_Some (objects f !! o) → is_Some (objects f' !! o).

Lemma grows_trans f1 f2 f3 : grows f1 f2 → grows f2 f3 → grows f1 f3.
Proof. unfold grows. auto. Qed.
Lemma grows_core f f' : core f' = core f → grows f f'.
Proof. intros [= E1 _ _] o. by rewrite E1. Qed.

Definition object_after f (o : nat) (ob : Object G) w : F :=
  mkFactory (<[o := mkObject (address ob) (room ob) w]> (objects f)) (next_object f) (text_channels f)
    (queued_requests f) (disco_requests f) (next_disco f) (listening f) (watching f)
    (dispose_has_run f) (contacts w ∪ all_contacts f) (signals f).

Lemma wp_update o m f ob (Q : list muc_event → F → Prop) :
  objects f !! o = Some ob →
  wp m (λ _ w, Q (drop (length (events (world ob))) (events w)) (object_after f o ob w)) (world ob) →
  wp (update_object o m) Q f.
Proof.
  intros Ho Hm. unfold update_object, get_object. apply wp_bind, wp_get, wp_bind, wp_bind, wp_get.
  rewrite Ho. apply wp_ret. unfold wp in Hm. destruct (m (world ob)) as [[[] w]|]; [|done].
  apply wp_bind, wp_modify, wp_bind, wp_modify, wp_ret. done.
Qed.

Lemma grows_after f o ob w : grows f (object_after f o ob w).
Proof. intros o' Ho. cbn. destruct (decide (o' = o)) as [->|]; [by rewrite lookup_insert_eq|by rewrite lookup_insert_ne]. Qed.

(** A world is replaced by what became of it. *)
Lemma okay_after p q f o ob w :
  okay p f → objects f !! o = Some ob → reachable w →
  (∀ ch', chan w = Some ch' → ∃ ch, chan (world ob) = Some ch ∧ jid ch' = jid ch) →
  (∀ o', o' ≠ o → p o' = true → q o' = true) →
  (∀ t, text_channels f = Some t → t !! room ob = Some o → in_factory w = true ∨ q o = true) →
  okay q (object_after f o ob w).
Proof.
  intros [H1 H2 H3] Ho Hw Hj Hpq Ht. split; cbn.
  - intros o' ob' [[<- <-]|[Hne Hl]]%lookup_insert_Some; [|by eapply H1]. cbn. split; [done|].
    intros ch' (ch & Hc & ->)%Hj. by apply (H1 _ _ Ho).
  - intros o' Hn. rewrite lookup_insert_ne; [by apply H2|]. intros <-. by rewrite H2 in Ho.
  - intros t r o' E Hr. destruct (H3 t r o' E Hr) as (ob' & Ho' & Hrm & Hf).
    destruct (decide (o' = o)) as [->|Hne].
    + rewrite Ho in Ho'. injection Ho' as <-. exists (mkObject (address ob) (room ob) w).
      rewrite lookup_insert_eq. split_and!; [done..|]. cbn. subst r. by eapply Ht.
    + exists ob'. rewrite lookup_insert_ne by done. split_and!; [done..|]. destruct Hf as [?|?]; auto.
Qed.

Lemma forget_ok env o f :
  factory_ok f → is_Some (objects f !! o) →
  (∀ t r, text_channels f = Some t → t !! r ≠ Some o) →
  wp (forget env o) (λ _ f', factory_ok f' ∧ grows f f') f.
Proof.
  intros Hok [ob Ho] Hnot. unfold MucFactory.forget. apply wp_bind. eapply wp_update; [exact Ho|].
  destruct (okay_worlds _ _ Hok _ _ Ho) as [Hw _].
  assert (Hr := reachable_run (muc_env env) Forget _ Hw (λ _ _, I)).
  unfold wp in *. destruct (run (muc_env env) Forget (world ob)) as [[[] w']|] eqn:E; [|done].
  split; [|apply grows_after]. eapply okay_after; [exact Hok|done|done| |done|].
  - intros ch' Hc. by eapply forget_jid.
  - intros t Ht Hl. by destruct (Hnot _ _ Ht Hl).
Qed.

(** *** Signals *)

Lemma wp_object o f ob {A} (k : Object G → M F A) Q :
  objects f !! o = Some ob → wp (k ob) Q f → wp (get_object o ≫= k) Q f.
Proof. intros Ho Hk. unfold get_object. apply wp_bind, wp_bind, wp_get. by rewrite Ho; apply wp_ret. Qed.

Lemma steal_core a f : wp (steal_requests a) (λ _ f', core f' = core f) f.
Proof.
  unfold steal_requests. apply wp_bind, wp_get. destruct (queued_requests f); [|by apply wp_ret].
  apply wp_bind, wp_modify. by apply wp_ret.
Qed.

Lemma announces_core e (l : list nat) f :
  wp (for_each l (λ x, announce (e x))) (λ _ f', core f' = core f) f.
Proof.
  revert f. induction l as [|x l IH]; intros f; [done|]. cbn [for_each]. apply wp_bind, wp_modify.
  eapply wp_mono; [|apply IH]. by intros [] f' ->.
Qed.

Lemma ready_core o reg f :
  is_Some (objects f !! o) → wp (muc_ready_cb o reg) (λ _ f', core f' = core f) f.
Proof.
  intros [ob Ho]. unfold muc_ready_cb. eapply wp_object; [exact Ho|]. apply wp_bind.
  eapply wp_mono; [|apply steal_core]. intros l f' E. destruct reg; by apply wp_modify.
Qed.

Lemma join_error_core o k f :
  is_Some (objects f !! o) → wp (muc_join_error_cb o k) (λ _ f', core f' = core f) f.
Proof.
  intros [ob Ho]. unfold muc_join_error_cb. eapply wp_object; [exact Ho|]. apply wp_bind.
  eapply wp_mono; [|apply steal_core]. intros l f' E.
  eapply wp_mono; [|apply (announces_core (λ x, RequestFailed x (REQUEST_JOIN k)))]. intros [] f2 E2. congruence.
Qed.

(** A channel that was destroyed is taken out of the table. *)
Lemma closed_ok env o reg (p : nat → bool) f :
  okay p f → (∀ o', p o' = true → o' = o) → is_Some (objects f !! o) →
  wp (muc_channel_closed_cb strdown normalize from_iso8601 domains description first env o reg true)
    (λ _ f', factory_ok f' ∧ grows f f') f.
Proof.
  intros Hok Hp [ob Ho]. unfold muc_channel_closed_cb. apply wp_bind.
  apply (wp_mono _ (λ _ f', core f' = core f)).
  2: { destruct reg; [by apply wp_modify|by apply wp_ret]. }
  intros [] f1 E1. pose proof (okay_core _ _ _ E1 Hok) as Hok1. injection E1 as Eo En Et.
  cbn [when]. apply wp_bind, wp_get. eapply wp_object; [by rewrite Eo|].
  destruct (text_channels f1) as [t|] eqn:Ht.
  2: { apply wp_ret. split; [|intros o'; by rewrite Eo]. destruct Hok1 as [Hw Hf Htb]. split; [done..|].
       intros t r o' E. congruence. }
  apply wp_bind, wp_modify. set (f2 := mkFactory _ _ _ _ _ _ _ _ _ _ _).
  assert (Hok2 : factory_ok f2).
  { destruct Hok1 as [Hw Hf Htb]. split; [done..|]. intros t' r o' [= <-] [Hne Hr]%lookup_delete_Some.
    destruct (Htb t r o' Ht Hr) as (ob' & Ho' & Hrm & [Hf'|Hpend]); [by exists ob'; auto|].
    apply Hp in Hpend as ->. rewrite <- Eo in Ho. congruence. }
  assert (Hg : grows f f2) by (intros o'; cbn; by rewrite Eo).
  destruct (t !! room ob) as [o'|] eqn:El; [|by apply wp_ret].
  destruct (negb (bool_decide (o' = o))); [|by apply wp_ret].
  destruct (okay_table _ _ Hok1 _ _ _ Ht El) as (ob' & Ho' & Hrm & _).
  eapply wp_mono; [|apply forget_ok; [exact Hok2|by exists ob'|]].
  - intros [] f3 [H1 H2]. split; [done|by eapply grows_trans].
  - intros t' r [= <-] [Hne Hr]%lookup_delete_Some.
    destruct (okay_table _ _ Hok1 _ _ _ Ht Hr) as (ob2 & Ho2 & Hrm2 & _).
    rewrite Ho' in Ho2. injection Ho2 as <-. congruence.
Qed.

(** The signals still to be dealt with end the channel. *)
Definition ending (o : nat) (l : list muc_event) (o' : nat) : bool :=
  bool_decide (o' = o) && existsb ends l.

Lemma signal_quiet env o e f :
  ends e = false → is_Some (objects f !! o) → wp (muc_signal env o e) (λ _ f', core f' = core f) f.
Proof.
  intros He Ho.
  destruct e as [| | | | | | | | | | | | | | |reg|kind|reg []|init| | | | | | | | | | | |]; cbn [MucFactory.muc_signal];
    try done.
  - by apply ready_core.
  - by apply join_error_core.
  - unfold muc_channel_closed_cb. apply wp_bind. destruct reg; [apply wp_modify|apply wp_ret]; by apply wp_ret.
Qed.

Lemma signal_ok env o e l f :
  okay (ending o (e :: l)) f → is_Some (objects f !! o) →
  wp (muc_signal env o e) (λ _ f', okay (ending o l) f' ∧ grows f f') f.
Proof.
  intros Hok Ho. destruct (ends e) eqn:He.
  - destruct e as [| | | | | | | | | | | | | | | | |reg []| | | | | | | | | | | | |]; try done; cbn [MucFactory.muc_signal].
    eapply wp_mono; [|eapply closed_ok; [exact Hok| |done]].
    + intros [] f' [Hf Hg]. split; [|done]. by eapply okay_mono; [|exact Hf].
    + unfold ending. intros o' [E _]%andb_true_iff. by apply bool_decide_eq_true in E.
  - eapply wp_mono; [|by apply signal_quiet]. intros [] f' E. split; [|by apply grows_core].
    eapply okay_core; [exact E|]. eapply okay_mono; [|exact Hok]. intros o'. unfold ending. cbn. by rewrite He.
Qed.

Lemma signals_ok env o l f :
  okay (ending o l) f → is_Some (objects f !! o) →
  wp (for_each l (muc_signal env o)) (λ _ f', factory_ok f' ∧ grows f f') f.
Proof.
  revert f. induction l as [|e l IH]; intros f Hok Ho; cbn [for_each].
  - apply wp_ret. split; [|by intros ?]. eapply okay_mono; [|exact Hok]. intros o'. unfold ending. cbn. by rewrite andb_false_r.
  - apply wp_bind. eapply wp_mono; [|by apply signal_ok]. intros [] f1 [Hok1 Hg1].
    eapply wp_mono; [|apply IH; [done|by apply Hg1]]. intros [] f2 [Hok2 Hg2].
    split; [done|by eapply grows_trans].
Qed.

Lemma drop_events w w' l : events w' = events w ++ l → drop (length (events w)) (events w') = l.
Proof. intros ->. by rewrite drop_app_length. Qed.

(** Whatever happens to a channel. *)
Lemma on_channel_ok env o i f :
  factory_ok f → is_Some (objects f !! o) → i ≠ Forget →
  (∀ ob, objects f !! o = Some ob → polite_in strdown (world ob) i) →
  wp (on_channel env o i) (λ _ f', factory_ok f' ∧ grows f f') f.
Proof.
  intros Hok [ob Ho] Hi Hp. unfold MucFactory.on_channel. apply wp_bind, wp_get, wp_bind.
  eapply wp_update; [exact Ho|]. destruct (okay_worlds _ _ Hok _ _ Ho) as [Hw _].
  assert (Hr := happens_ok env (all_contacts f) i _ Hw (Hp _ Ho)). fold (happens env (all_contacts f) i).
  unfold wp in *. destruct (happens env (all_contacts f) i (world ob)) as [[[] w']|] eqn:E; [|done].
  destruct (happens_follows env (all_contacts f) i _ Hi _ _ E) as [(l & He & Hf & _) Hj].
  rewrite (drop_events _ _ _ He).
  assert (Hok' : okay (ending o l) (object_after f o ob w')).
  { eapply okay_after; [exact Hok|done|done|done|done|]. intros t Ht Hl.
    destruct (okay_table _ _ Hok _ _ _ Ht Hl) as (ob' & Ho' & _ & [Hin|]); [|done].
    rewrite Ho in Ho'. injection Ho' as <-. rewrite Hf, Hin. unfold ending. rewrite bool_decide_eq_true_2 by done.
    destruct (existsb ends l); auto. }
  fold (wp (for_each l (muc_signal env o)) (λ _ f', factory_ok f' ∧ grows f f') (object_after f o ob w')).
  eapply wp_mono; [|apply signals_ok; [exact Hok'|]].
  - intros [] f' [H1 H2]. split; [done|]. eapply grows_trans; [apply grows_after|done].
  - by apply grows_after, (ex_intro _ ob).
Qed.

(** *** Channels in the table *)

Definition alive f (o : nat) : Prop := ∃ ob, objects f !! o = Some ob ∧ in_factory (world ob) = true.

Lemma alive_core f f' o : core f' = core f → alive f o → alive f' o.
Proof. intros [= E _ _] (ob & Ho & Hf). exists ob. by rewrite E. Qed.

Lemma alive_some f o : alive f o → is_Some (objects f !! o).
Proof. intros (ob & Ho & _). by exists ob. Qed.

Lemma table_alive f t r o : factory_ok f → text_channels f = Some t → t !! r = Some o → alive f o.
Proof. intros Hok Ht Hr. destruct (okay_table _ _ Hok _ _ _ Ht Hr) as (ob & ? & _ & [?|?]); [by exists ob|done]. Qed.

(** A channel in the table exists. *)
Lemma alive_channel p f o :
  okay p f → alive f o → ∃ ob ch, objects f !! o = Some ob ∧ chan (world ob) = Some ch.
Proof.
  intros Hok (ob & Ho & Hf). destruct (okay_worlds _ _ Hok _ _ Ho) as [Hw _].
  destruct (reachable_settled strdown normalize from_iso8601 domains description first normalize_nonempty _ Hw)
    as [(r & srcs & cs & ev & ch & HA & _)|[]]; [|congruence].
  exists ob, ch. split; [done|]. apply (at_chan _ _ _ _ _ _ HA).
Qed.

Lemma wp_get_channel {A} f o (k : GabbleMucChannel G → M F A) Q :
  factory_ok f → alive f o → (∀ ch, wp (k ch) Q f) → wp (get_channel o ≫= k) Q f.
Proof.
  intros Hok Ha Hk. destruct (alive_channel _ _ _ Hok Ha) as (ob & ch & Ho & Hc).
  unfold get_channel. apply wp_bind. eapply wp_object; [exact Ho|]. rewrite Hc. by apply wp_ret.
Qed.

Lemma signals_quiet env o l f :
  existsb ends l = false → is_Some (objects f !! o) →
  wp (for_each l (muc_signal env o)) (λ _ f', core f' = core f) f.
Proof.
  revert f. induction l as [|e l IH]; intros f Hl Ho; cbn [for_each]; [done|].
  cbn in Hl. apply orb_false_iff in Hl as [He Hl]. apply wp_bind.
  eapply wp_mono; [|by apply signal_quiet]. intros [] f1 E1.
  eapply wp_mono; [|apply IH; [done|]]; [intros [] f2; congruence|]. injection E1 as E _ _. by rewrite E.
Qed.

(** Objects that are in the table before and after. *)
Definition steady f f' : Prop := grows f f' ∧ ∀ o, alive f o → alive f' o.
Lemma steady_core f f' : core f' = core f → steady f f'.
Proof. intros E. split; [by apply grows_core|]. intros o. by apply alive_core. Qed.
Lemma steady_trans f1 f2 f3 : steady f1 f2 → steady f2 f3 → steady f1 f3.
Proof. intros [] []. split; [by eapply grows_trans|auto]. Qed.

Lemma quiet_ok env o i f :
  factory_ok f → alive f o → quiet i = true →
  wp (on_channel env o i) (λ _ f', factory_ok f' ∧ steady f f' ∧ text_channels f' = text_channels f) f.
Proof.
  intros Hok Ha Hi. pose proof Ha as (ob & Ho & Hin). unfold MucFactory.on_channel. apply wp_bind, wp_get, wp_bind.
  eapply wp_update; [exact Ho|]. destruct (okay_worlds _ _ Hok _ _ Ho) as [Hw _].
  assert (Hr := happens_ok env (all_contacts f) i _ Hw (quiet_polite i _ Hi)). fold (happens env (all_contacts f) i).
  unfold wp in *. destruct (happens env (all_contacts f) i (world ob)) as [[[] w']|] eqn:E; [|done].
  destruct (quiet_follows env (all_contacts f) i _ Hi _ _ E) as [(l & He & Hf & Hn) Hj].
  rewrite (drop_events _ _ _ He). specialize (Hn eq_refl). rewrite Hn, Hin in Hf. cbn in Hf.
  fold (wp (for_each l (muc_signal env o))
          (λ _ f', factory_ok f' ∧ steady f f' ∧ text_channels f' = text_channels f) (object_after f o ob w')).
  eapply wp_mono; [|apply signals_quiet; [done|]].
  - intros [] f' Ec. split; [|split].
    + eapply okay_core; [exact Ec|]. eapply okay_after; [exact Hok|done..| |]; auto.
    + eapply steady_trans; [|by apply steady_core]. split; [apply grows_after|].
      intros o' (ob' & Ho' & Hf'). unfold alive. cbn. destruct (decide (o' = o)) as [->|Hne].
      * rewrite lookup_insert_eq. eauto.
      * rewrite lookup_insert_ne by done. eauto.
    + by injection Ec.
  - by apply grows_after, (ex_intro _ ob).
Qed.

(** *** Channels are made *)

Lemma constructed_outside env rm alias fj reg inv cs w :
  gabble_muc_channel_constructed strdown normalize env first rm alias fj reg inv (MucTheorems.no_channel cs)
    = Ok (tt, w) →
  in_factory w = true ∧ ∀ ch, chan w = Some ch → jid ch = rm.
Proof.
  unfold gabble_muc_channel_constructed. intros ([] & s1 & _ & E)%bind_Ok.
  destruct (create_room_identity strdown rm alias fj) as [sj|]; [|done].
  apply bind_Ok in E as (handle & s2 & _ & E). apply bind_Ok in E as ([] & s3 & [= <-] & E).
  apply bind_Ok in E as (s3 & s4 & [= <- <-] & E). apply bind_Ok in E as ([] & s4 & [= <-] & E).
  set (s5 := mkWorld _ _ _ _ _ _ _ _ _) in E.
  match type of E with ?m _ = _ => assert (Hm : follows false m s5) end.
  { follows_with ltac:(apply add_member_follows). }
  destruct (Hm _ _ E) as [(l & _ & Hf & Hn) Hj]. rewrite Hn in Hf by done. split; [done|].
  intros ch (ch0 & Hc & ->)%Hj. by injection Hc as <-.
Qed.

(** Somebody who has a name in rooms. *)
Definition has_alias (env : FactoryEnv) : Prop :=
  ∀ rm, create_room_identity strdown rm (own_alias env) (alias_from_jid env) ≠ None.

Lemma new_channel_ok env h inv reg f :
  factory_ok f → has_alias env → strchr h "/" = false → text_channels f ≫= (λ t, t !! h) = None →
  wp (new_muc_channel strdown normalize first malloc env h inv reg)
    (λ o f', factory_ok f' ∧ grows f f' ∧ alive f' o) f.
Proof.
  intros Hok Hal Hh Hnone. unfold new_muc_channel, gabble_muc_factory_find_text_channel.
  apply wp_bind, wp_bind, wp_get, wp_ret. rewrite Hnone. apply wp_bind, wp_ret, wp_bind, wp_get, wp_bind.
  destruct (create_room_identity strdown h (own_alias env) (alias_from_jid env)) as [sj|] eqn:Hid;
    [|by destruct (Hal h)].
  pose proof (constructed_wp strdown normalize from_iso8601 first normalize_nonempty (muc_env env) h (own_alias env)
    (alias_from_jid env) reg inv (all_contacts f) sj Hh Hid) as Hw.
  change (MucFactory.no_channel (all_contacts f)) with (MucTheorems.no_channel (G:=G) (all_contacts f)).
  unfold wp in Hw. destruct (gabble_muc_channel_constructed _ _ _ _ _ _ _ _ _ _) as [[[] w]|] eqn:E; [|done].
  destruct (constructed_outside _ _ _ _ _ _ _ _ E) as [Hf Hj].
  apply wp_bind, wp_modify, wp_modify, wp_bind. set (o := next_object f).
  set (ob := mkObject (malloc (allocated f)) h w). set (f1 := mkFactory _ _ _ _ _ _ _ _ _ _ _).
  assert (Hgrow : grows f f1).
  { intros o' Ho'. cbn. destruct (decide (o' = o)) as [->|]; [by rewrite lookup_insert_eq|by rewrite lookup_insert_ne]. }
  assert (Hfin : ∀ f2, objects f2 = objects f1 → next_object f2 = S o →
    text_channels f2 = (λ t, <[h := o]> t) <$> text_channels f →
    factory_ok f2 ∧ grows f f2 ∧ alive f2 o).
  { intros f2 Eo En Et. unfold f1 in Eo. cbn [objects] in Eo. destruct Hok as [H1 H2 H3]. split; [split|split].
    - intros o' ob'. rewrite Eo. intros [[<- <-]|[_ Hl]]%lookup_insert_Some; [|by eapply H1]. cbn.
      split; [|done]. by eapply reach_constructed.
    - intros o'. rewrite En, Eo. intros Hn. cbn. rewrite lookup_insert_ne by lia. apply H2. lia.
    - intros t r o'. rewrite Et, Eo. destruct (text_channels f) as [t0|] eqn:Et0; [|done]. cbn. intros [= <-].
      intros [[<- <-]|[Hne Hr]]%lookup_insert_Some.
      + exists ob. rewrite lookup_insert_eq. by auto.
      + destruct (H3 t0 r o' eq_refl Hr) as (ob' & Ho' & ? & [?|?]); [|done].
        exists ob'. rewrite lookup_insert_ne; [by auto|]. intros <-. rewrite H2 in Ho'; [done|lia].
    - intros o' Ho'. rewrite Eo. by apply (Hgrow o').
    - exists ob. rewrite Eo. cbn. by rewrite lookup_insert_eq. }
  assert (Hrest : ∀ f2, factory_ok f2 ∧ grows f f2 ∧ alive f2 o →
    wp (ch ← get_channel o; when (ready (life ch)) (muc_ready_cb o (registered (life ch))) ;; mret o)
      (λ o f', factory_ok f' ∧ grows f f' ∧ alive f' o) f2).
  { intros f2 (Hok2 & Hg2 & Ha2). apply wp_get_channel; [done..|]. intros ch. apply wp_bind.
    apply (wp_mono _ (λ _ f', core f' = core f2)).
    - intros [] f3 Ec. apply wp_ret. split_and!; [by eapply okay_core| |by eapply alive_core].
      eapply grows_trans; [done|by apply grows_core].
    - destruct (ready (life ch)); [|by apply wp_ret]. apply ready_core. by apply alive_some. }
  destruct (text_channels f) as [t|] eqn:Et; [apply wp_modify|apply wp_ret]; apply Hrest, Hfin; cbn; by rewrite ?Et.
Qed.

(** The name of a room is that of a bare JID. *)
Definition valid_room (r : string) : Prop := ∃ n d, wocky_decode_jid strdown r = Some (n, d, None).

Lemma ensure_room_valid env id r : ensure_room strdown env id = Some r → valid_room r.
Proof.
  unfold ensure_room, gabble_normalize_room. intros (q & _ & Hd)%bind_Some.
  destruct (wocky_decode_jid strdown q) as [[[n d] [res|]]|] eqn:E; [done| |done]. injection Hd as <-.
  by exists n, d.
Qed.

Lemma valid_no_slash r : valid_room r → strchr r "/" = false.
Proof.
  intros (n & d & E). unfold wocky_decode_jid in E. unfold strchr. destruct (split_first "/" r) as [[a b]|]; [|done].
  exfalso. revert E. destruct (split_first "@" a) as [[]|]; repeat case_match; intros; simplify_eq.
Qed.

Lemma invite_ok env rm who reason f :
  factory_ok f → has_alias env →
  wp (do_invite strdown normalize first malloc env rm who reason) (λ _ f', factory_ok f') f.
Proof.
  intros Hok Hal. unfold do_invite. destruct (ensure_room strdown env rm) as [r|] eqn:E; [|by apply wp_ret].
  unfold gabble_muc_factory_find_text_channel. apply wp_bind, wp_bind, wp_get, wp_ret.
  destruct (text_channels f ≫= _) eqn:Et; [by apply wp_ret|]. apply wp_bind.
  eapply wp_mono; [|apply new_channel_ok; [done..| |done]].
  - intros o f' (? & _ & _). by apply wp_ret.
  - by eapply valid_no_slash, ensure_room_valid.
Qed.

Lemma ensure_ok env h e f :
  factory_ok f → has_alias env → strchr h "/" = false →
  wp (ensure_muc_channel strdown normalize from_iso8601 domains description first malloc env h e)
    (λ a f', factory_ok f' ∧ alive f' a.1) f.
Proof.
  intros Hok Hal Hh. unfold ensure_muc_channel, gabble_muc_factory_find_text_channel.
  apply wp_bind, wp_bind, wp_get, wp_ret, wp_bind.
  apply (wp_mono _ (λ o f', factory_ok f' ∧ alive f' o)).
  { intros o f' [Hok' Ha']. apply wp_get_channel; [done..|]. intros ch. by apply wp_ret. }
  destruct (text_channels f ≫= λ t, t !! h) as [o|] eqn:Et.
  - apply bind_Some in Et as (t & Et & Hr). pose proof (table_alive _ _ _ _ Hok Et Hr) as Ha. apply wp_bind.
    destruct e; [|by apply wp_ret, wp_ret]. cbn [when]. eapply wp_mono; [|by apply quiet_ok].
    intros [] f' (? & [_ Hst] & _). apply wp_ret. auto.
  - apply wp_bind. eapply wp_mono; [|by apply new_channel_ok]. intros o f' (Hok' & _ & Ha'). apply wp_bind.
    eapply wp_mono; [|by apply quiet_ok]. intros [] f2 (? & [_ Hst] & _). apply wp_ret. auto.
Qed.

(** ** Requests *)

Lemma contact_core id f :
  wp (ensure_contact (G:=G) strdown normalize id) (λ _ f', core f' = core f ∧ queued_requests f' = queued_requests f) f.
Proof.
  unfold ensure_contact. apply wp_bind, wp_get. destruct (gabble_normalize_contact _ _ _ _ _); [|by apply wp_ret].
  apply wp_bind, wp_modify. by apply wp_ret.
Qed.

Lemma ids_core ids f :
  wp (invitees_of_ids (G:=G) strdown normalize ids) (λ _ f', core f' = core f) f.
Proof.
  revert f. induction ids as [|id ids IH]; intros f; cbn [invitees_of_ids]; [by apply wp_ret|].
  apply wp_bind. eapply wp_mono; [|apply contact_core]. intros h f1 [E1 _]. apply wp_bind.
  eapply wp_mono; [|apply IH]. intros l f2 E2. apply wp_ret. congruence.
Qed.

Lemma check_room_ok r rm f (Q : bool → F → Prop) :
  valid_room rm → (∀ b, Q b f) → wp (check_room (G:=G) strdown r rm) Q f.
Proof.
  intros (n & d & E) HQ. unfold check_room. destruct (room_name r) as [nm|]; [|by apply wp_ret].
  destruct (is_empty nm); [by apply wp_ret|]. rewrite E. by apply wp_ret.
Qed.

Lemma check_server_ok r rm f (Q : bool → F → Prop) :
  valid_room rm → (∀ b, Q b f) → wp (check_server (G:=G) strdown r rm) Q f.
Proof.
  intros (n & d & E) HQ. unfold check_server. destruct (server_prop r) as [sv|]; [|by apply wp_ret].
  rewrite E. by apply wp_ret.
Qed.

Lemma satisfy_ok env o token r b f :
  factory_ok f → alive f o →
  wp (satisfy_ready strdown normalize from_iso8601 domains description first env o token r b)
    (λ _ f', factory_ok f') f.
Proof.
  intros Hok Ha. unfold satisfy_ready. apply wp_get_channel; [done..|]. intros ch.
  destruct (b && _); [by apply wp_ret|]. destruct (has_initial r); [by apply wp_ret|]. apply wp_bind.
  destruct (registered (life ch)).
  - apply wp_modify, wp_ret. by eapply okay_core; [|exact Hok].
  - apply wp_bind. eapply wp_mono; [|by apply quiet_ok]. intros [] f' (Hok' & _ & _).
    apply wp_modify, wp_ret. by eapply okay_core; [|exact Hok'].
Qed.

Lemma await_ok env o token r l c f :
  factory_ok f → alive f o →
  wp (await_channel strdown normalize from_iso8601 domains description first env o token r l c)
    (λ _ f', factory_ok f') f.
Proof.
  intros Hok Ha. unfold await_channel. pose proof Ha as (ob & Ho & _). eapply wp_object; [exact Ho|].
  apply wp_bind. apply (wp_mono _ (λ _ f', core f' = core f)).
  2: { unfold gabble_muc_factory_associate_request. apply wp_bind, wp_get.
       destruct (queued_requests f); [by apply wp_modify|by apply wp_ret]. }
  intros [] f1 E1. apply wp_bind. apply (wp_mono _ (λ _ f', factory_ok f' ∧ alive f' o)).
  - intros [] f2 [? _]. by apply wp_ret.
  - apply (wp_for_each (λ _ f', factory_ok f' ∧ alive f' o)).
    + intros id l' f2 [Hok2 Ha2]. eapply wp_mono; [|by apply quiet_ok]. intros [] f3 (? & [_ ?] & _). auto.
    + split; [by eapply okay_core|by eapply alive_core].
Qed.

Lemma text_request_ok env token r b f :
  factory_ok f → has_alias env → (target r ≠ EmptyString → valid_room (target r)) →
  wp (handle_text_channel_request strdown normalize from_iso8601 domains description first malloc
        env token r b) (λ _ f', factory_ok f') f.
Proof.
  intros Hok Hal Hv. unfold handle_text_channel_request.
  destruct (unknown_properties r); [by apply wp_ret|]. apply wp_bind.
  eapply wp_mono; [|apply ids_core]. intros named f1 E1. pose proof (okay_core _ _ _ E1 Hok) as Hok1.
  set (rm := if is_empty (target r) then _ else _).
  assert (Hrm : ∀ x, rm = Some x → valid_room x).
  { intros x. subst rm. destruct (is_empty (target r)) eqn:Ee; [apply ensure_room_valid|].
    intros [= <-]. apply Hv. by apply is_empty_false. }
  destruct rm as [rm'|]; [|by apply wp_ret]. specialize (Hrm rm' eq_refl).
  apply wp_bind, check_room_ok; [done|]. intros []; [|by apply wp_ret]. cbn [negb].
  apply wp_bind, check_server_ok; [done|]. intros []; [|by apply wp_ret]. cbn [negb].
  apply wp_bind. eapply wp_mono; [|apply ensure_ok; [done..|by apply valid_no_slash]].
  intros [o []] f2 [Hok2 Ha2]; [by apply satisfy_ok|by apply await_ok].
Qed.

Lemma request_ok env token r b f :
  factory_ok f → has_alias env → (target_type r = TARGET_ROOM → target r ≠ EmptyString) →
  (target r ≠ EmptyString → valid_room (target r)) →
  wp (gabble_muc_factory_request strdown normalize from_iso8601 domains description first malloc
        env token r b) (λ _ f', factory_ok f') f.
Proof.
  intros Hok Hal Ht Hv. unfold gabble_muc_factory_request.
  set (c := _ && has_initial r). set (n := _ && bool_decide (is_Some (room_name r))).
  destruct (negb _ && negb c && negb n) eqn:E; [by apply wp_ret|].
  apply wp_bind, wp_assert.
  { destruct c; [done|]. destruct n; [done|]. cbn in *. rewrite !andb_true_r in E.
    apply negb_false_iff, bool_decide_eq_true in E. apply negb_true_iff, is_empty_false. auto. }
  destruct (is_text r); [|by apply wp_ret]. apply wp_bind.
  eapply wp_mono; [|by apply text_request_ok]. intros e f' Hok'. apply wp_bind.
  destruct e as [e|]; [apply wp_modify, wp_ret|by apply wp_ret, wp_ret]. by eapply okay_core; [|exact Hok'].
Qed.

(** A room cannot be asked for by a name with capital letters: the name of the
    handle is made lower case before it is compared with the one asked for. *)
Lemma capital_name_refused env r n token b f :
  room_name r = Some n → n ≠ EmptyString → (∀ x, strdown x ≠ n) → unknown_properties r = false →
  initial_ids r = None → target r = EmptyString →
  ∃ e, handle_text_channel_request strdown normalize from_iso8601 domains description first malloc
         env token r b f = Ok (Some e, f).
Proof.
  intros Hn Hne Hlow Hu Hids Ht. unfold handle_text_channel_request. rewrite Hu, Hids, Ht. cbn [default from_option].
  unfold mbind, M_bind. cbn [invitees_of_ids]. cbn [mret M_ret].
  change (is_empty EmptyString) with true. cbv iota.
  destruct (ensure_room strdown env _) as [rm|] eqn:E; [|by eexists].
  destruct (ensure_room_valid _ _ _ E) as (node & d & Hd). unfold check_room. rewrite Hn.
  rewrite (proj2 (is_empty_false n) Hne). cbv iota. rewrite Hd. cbv iota. rewrite bool_decide_eq_false_2; [by eexists|].
  intros ->. unfold wocky_decode_jid in Hd. revert Hd.
  repeat case_match; intros; simplify_eq/=; by eapply Hlow.
Qed.

(** ** Messages and the end *)

Lemma invitation_message_ok env stanza f :
  factory_ok f → has_alias env →
  wp (muc_factory_message_cb strdown normalize from_iso8601 domains first malloc env stanza)
    (λ _ f', factory_ok f') f.
Proof.
  intros Hok Hal. unfold muc_factory_message_cb.
  destruct (gabble_message_util_parse_incoming_message from_iso8601 domains stanza) as [m|]; [|by apply wp_ret].
  destruct (olpc_message env stanza); [by apply wp_ret|]. apply wp_bind.
  apply (wp_mono _ (λ _ f', factory_ok f')).
  - clear f Hok. intros [] f Hok; [by apply wp_ret|]. unfold process_obsolete_invite.
    destruct (wocky_node_get_child_ns stanza _ _) as [x|]; [|by apply wp_ret]. apply wp_bind.
    destruct (bool_decide _); [by apply wp_ret, wp_ret|].
    destruct (wocky_node_get_attribute x "jid") as [rm|]; [|by apply wp_ret, wp_ret].
    apply wp_bind. eapply wp_mono; [|apply contact_core]. intros who f1 [E1 _].
    pose proof (okay_core _ _ _ E1 Hok) as Hok1. destruct (is_empty who); [by apply wp_ret, wp_ret|].
    destruct (disco_sent env); [|by apply wp_ret, wp_ret]. cbn [when].
    apply wp_bind, wp_get, wp_bind, wp_modify, wp_modify, wp_ret. by eapply okay_core; [|exact Hok1].
  - unfold process_muc_invite. destruct (wocky_node_get_child_ns stanza _ _ ≫= _) as [inv|]; [|by apply wp_ret].
    apply wp_bind. destruct (bool_decide _); [by apply wp_ret, wp_ret|].
    destruct (wocky_node_get_attribute inv "from") as [who|]; [|by apply wp_ret, wp_ret].
    apply wp_bind. eapply wp_mono; [|apply contact_core]. intros h f1 [E1 _].
    pose proof (okay_core _ _ _ E1 Hok) as Hok1. destruct (is_empty h); [by apply wp_ret, wp_ret|].
    eapply wp_mono; [|by apply invite_ok]. intros [] f2 Hok2. by apply wp_ret.
Qed.

Lemma disco_answer_ok env n data result f :
  factory_ok f → has_alias env →
  wp (obsolete_invite_disco_cb strdown normalize first malloc env n data result) (λ _ f', factory_ok f') f.
Proof.
  intros Hok Hal. unfold obsolete_invite_disco_cb. apply wp_bind, wp_get, wp_bind, wp_modify.
  set (f1 := mkFactory _ _ _ _ _ _ _ _ _ _ _).
  assert (Hok1 : factory_ok f1) by (by eapply okay_core; [|exact Hok]).
  destruct result; [|by apply wp_ret]. apply wp_when; intros _; [by apply invite_ok|done].
Qed.

(** Something happens to many channels. *)
Lemma channels_ok env i l f :
  factory_ok f → (∀ o, o ∈ l → is_Some (objects f !! o)) → i ≠ Forget → (∀ w, polite_in strdown w i) →
  wp (for_each l (λ o, on_channel env o i)) (λ _ f', factory_ok f' ∧ grows f f') f.
Proof.
  intros Hok Hl Hi Hp.
  apply (wp_mono _ (λ _ f', factory_ok f' ∧ grows f f' ∧ ∀ o, o ∈ [] → is_Some (objects f' !! o))); [naive_solver|].
  apply (wp_for_each (λ l f', factory_ok f' ∧ grows f f' ∧ ∀ o, o ∈ l → is_Some (objects f' !! o))).
  - intros o l' f1 (Hok1 & Hg1 & Hl1). eapply wp_mono; [|apply on_channel_ok; [done|apply Hl1; by left|done|auto]].
    intros [] f2 [Hok2 Hg2]. split_and!; [done|by eapply grows_trans|]. intros o' Ho'. apply Hg2, Hl1. by right.
  - split_and!; [done|by intros ?|done].
Qed.

(** There are no tables any more. *)
Definition tables f : bool * option (gmap string nat) := (is_open f, text_channels f).

Lemma on_channel_shut env o i f : retains tables (false, None) (on_channel env o i) f.
Proof.
  assert (Hsteal : ∀ a f', retains tables (false, None) (steal_requests (G:=G) a) f').
  { intros a f' [= Ho Ht] l f2. unfold steal_requests, mbind, M_bind, get, is_open in *.
    destruct (queued_requests f') eqn:E; [done|]. intros [= _ <-]. unfold tables, is_open. by rewrite E, Ht. }
  assert (Hclosed : ∀ reg d f', retains tables (false, None)
    (muc_channel_closed_cb strdown normalize from_iso8601 domains description first env o reg d) f').
  { intros reg d f'. unfold muc_channel_closed_cb. apply retains_bind.
    { destruct reg; [|apply retains_ret]. apply retains_modify. by intros E. }
    intros _ f1 _. destruct d; [|apply retains_ret]. apply retains_get.
    destruct (text_channels f1) as [t|] eqn:Ht; [intros [= _ E]; congruence|].
    retains_with ltac:(apply retains_modify; intros E; exact E). }
  retains_with ltac:(first [apply Hsteal|apply Hclosed|apply retains_modify; intros E; exact E]).
Qed.

Lemma close_all_ok env f :
  factory_ok f →
  wp (gabble_muc_factory_close_all strdown normalize from_iso8601 domains description first env)
    (λ _ f', factory_ok f' ∧ text_channels f' = None ∧ queued_requests f' = None) f.
Proof.
  intros Hok. unfold gabble_muc_factory_close_all. apply wp_bind, wp_get, wp_bind, wp_modify, wp_bind.
  set (f0 := mkFactory _ _ _ _ _ _ _ _ _ _ _). apply (wp_mono _ (λ _ f', core f' = core f)).
  2: { destruct (queued_requests f) as [q|]; [|by apply wp_ret].
       apply (wp_mono _ (λ _ f', core f' = core f)); [done|].
       apply (wp_for_each (λ _ f', core f' = core f)); [|done]. intros l l' f1 E1. unfold cancel_queued_requests.
       eapply wp_mono; [|apply (announces_core (λ x, RequestFailed x REQUEST_DISCONNECTED))]. intros [] f2 E2. congruence. }
  intros [] f1 E1. apply wp_bind, wp_modify, wp_bind. set (f2 := mkFactory _ _ _ _ _ _ _ _ _ _ _).
  assert (Hok2 : factory_ok f2) by (eapply (okay_core _ f1); [done|by eapply okay_core]).
  apply (wp_mono _ (λ _ f', factory_ok f' ∧ tables f' = (false, None))).
  { intros [] f3 [Hok3 [= Hq Ht]]. apply wp_bind, wp_get, wp_modify. split_and!; [by eapply okay_core; [|exact Hok3]|done|].
    unfold is_open in Hq. cbn. by destruct (queued_requests f3). }
  destruct (text_channels f) as [t|] eqn:Et.
  2: { apply wp_ret. split; [done|]. unfold tables. cbn. injection E1 as _ _ E1. by rewrite E1, Et. }
  apply wp_bind, wp_modify. set (f3 := mkFactory _ _ _ _ _ _ _ _ _ _ _).
  assert (Hok3 : factory_ok f3).
  { destruct Hok2 as [Hw Hf _]. split; [done..|]. by intros ? ? ? [=]. }
  assert (Hobj : ∀ o, o ∈ (map_to_list t).*2 → is_Some (objects f3 !! o)).
  { intros o ([r o'] & -> & Hin)%list_elem_of_fmap. apply elem_of_map_to_list in Hin.
    destruct (okay_table _ _ Hok _ _ _ Et Hin) as (ob & Ho & _). injection E1 as E1 _ _.
    exists ob. change (objects f3) with (objects f1). by rewrite E1. }
  apply wp_bind. apply (wp_mono _ (λ _ f', (factory_ok f' ∧ grows f3 f') ∧ tables f' = (false, None))).
  - intros [] f4 [[Hok4 Hg4] Ht4].
    apply (wp_mono _ (λ _ f', factory_ok f' ∧ tables f' = (false, None) ∧ ∀ o, o ∈ [] → is_Some (objects f' !! o))); [naive_solver|].
    apply (wp_for_each (λ l f', factory_ok f' ∧ tables f' = (false, None) ∧ ∀ o, o ∈ l → is_Some (objects f' !! o))).
    + intros o l' f5 (Hok5 & Ht5 & Hl5). pose proof Ht5 as [= Hq5 Hn5].
      eapply wp_mono; [|apply (wp_retains tables (false, None));
        [apply forget_ok; [done|apply Hl5; by left|by rewrite Hn5]|done|]].
      * intros [] f6 [[Hok6 Hg6] Ht6]. split_and!; [done|exact Ht6|]. intros o' Ho'. apply Hg6, Hl5. by right.
      * retains_with ltac:(apply retains_modify; intros E; exact E).
    + split_and!; [done..|]. intros o Ho. by apply Hg4, Hobj.
  - apply (wp_retains tables (false, None)); [by apply channels_ok| |].
    + unfold tables. cbn. by injection E1 as _ _ E1.
    + apply retains_for_each. intros. apply on_channel_shut.
Qed.

(** ** Every input *)

(** What may come: we have a name to use in rooms; a channel is treated as
    [polite] says; requests come while there is a connection, and name rooms
    by valid handles; and a call session whose peer is in a room that has a
    handle comes while that room has a channel. *)
Definition allowed (env : FactoryEnv) f (i : factory_input) : Prop :=
  has_alias env ∧
  match i with
  | ChannelInput o i =>
      i ≠ Forget ∧ ∀ ob, objects f !! o = Some ob → polite_in strdown (world ob) i
  | RequestChannel _ r _ =>
      is_open f = true ∧ (target_type r = TARGET_ROOM → target r ≠ EmptyString) ∧
      (target r ≠ EmptyString → valid_room (target r))
  | EnsureRoom rm => valid_room rm
  | JingleSession peer => ∀ rm,
      gabble_get_room_handle_from_jid strdown env peer = Some rm →
      is_Some (text_channels f ≫= λ t, t !! rm)
  | _ => True
  end.

Lemma manager_input_ok env i f :
  factory_ok f → allowed env f i → wp (frun env i) (λ _ f', factory_ok f') f.
Proof.
  intros Hok [Hal Hi]. destruct i as [o i| |stanza|n result|token r b|rm| | | |peer]; cbn [factory_run].
  - apply wp_bind, wp_get, wp_when; intros Ho; [|done]. apply bool_decide_eq_true in Ho as Hs. destruct Hi as [Hf Hp].
    eapply wp_mono; [|by apply on_channel_ok]. by intros [] f' [].
  - apply wp_bind, wp_get, wp_modify. by eapply okay_core; [|exact Hok].
  - apply wp_bind, wp_get, wp_when; intros _; [|done]. apply wp_bind.
    eapply wp_mono; [|by apply invitation_message_ok]. intros x f' Hf'. by apply wp_ret.
  - apply wp_bind, wp_get. destruct (disco_requests f !! n); [by apply disco_answer_ok|by apply wp_ret].
  - destruct Hi as (_ & Ht & Hv). apply wp_bind. eapply wp_mono; [|by apply request_ok].
    intros x f' Hf'. by apply wp_ret.
  - apply wp_bind. eapply wp_mono; [|apply ensure_ok; [done..|by apply valid_no_slash]].
    intros [o x] f1 [Hok1 Ha1]. eapply wp_mono; [|by apply quiet_ok]. by intros [] f2 (? & _).
  - unfold gabble_muc_factory_broadcast_presence. apply wp_bind, wp_get.
    destruct (text_channels f) as [t|] eqn:Et; [|by apply wp_ret].
    eapply wp_mono; [|apply channels_ok; [done| |done|done]]; [by intros [] f' []|].
    intros o ([r o'] & -> & Hin)%list_elem_of_fmap. apply elem_of_map_to_list in Hin.
    eapply alive_some, table_alive; eauto.
  - apply wp_bind, wp_get, wp_when; intros _; [|done]. eapply wp_mono; [|by apply close_all_ok]. by intros [] f' [].
  - unfold gabble_muc_factory_dispose. apply wp_bind, wp_get. destruct (dispose_has_run f); [by apply wp_ret|].
    apply wp_bind, wp_modify, wp_bind. set (f1 := mkFactory _ _ _ _ _ _ _ _ _ _ _).
    assert (Hok1 : factory_ok f1) by (by eapply okay_core; [|exact Hok]).
    eapply wp_mono; [|by apply close_all_ok]. intros [] f2 (Hok2 & Ht2 & Hq2).
    apply wp_bind, wp_get, wp_bind, wp_assert; [by apply bool_decide_eq_true|].
    apply wp_bind, wp_assert; [by apply bool_decide_eq_true|].
    apply wp_bind, (wp_mono _ (λ _ f', factory_ok f')).
    + intros [] f3 Hok3. apply wp_bind, wp_get, wp_modify. by eapply okay_core; [|exact Hok3].
    + destruct (map_to_list (disco_requests f2)) as [|x l]; [by apply wp_ret|]. by apply disco_answer_ok.
  - apply wp_bind. unfold gabble_muc_factory_handle_jingle_session.
    destruct (gabble_get_room_handle_from_jid strdown env peer) as [rm|]; [|by do 2 apply wp_ret].
    destruct (Hi rm eq_refl) as [o Hl]. unfold gabble_muc_factory_find_text_channel.
    apply wp_bind, wp_bind, wp_get, wp_ret. rewrite Hl.
    apply wp_bind, wp_assert; [by apply bool_decide_eq_true_2|]. apply wp_bind.
    destruct (text_channels f) as [t|] eqn:Et; [|done].
    destruct (alive_channel _ _ _ Hok (table_alive _ _ _ _ Hok Et Hl)) as (ob & ch & Ho & Hc).
    unfold get_channel, get_object. apply wp_bind, wp_bind, wp_get. rewrite Ho. apply wp_ret.
    rewrite Hc. by do 3 apply wp_ret.
Qed.

(** Runs of the manager, with the requests that it has taken. *)
Inductive reach : list nat → F → Prop :=
  | reach_init cs : reach [] (gabble_muc_factory_init cs)
  | reach_step env i l f f' :
      reach l f → allowed env f i → frun env i f = Ok (tt, f') → reach (l ++ taken i) f'.

Lemma manager_reach_ok l f : reach l f → factory_ok f.
Proof.
  induction 1 as [cs|env i l f f' Hr IH Ha E].
  - split; cbn; [intros o ob; by rewrite lookup_empty|intros; apply lookup_empty|].
    intros t r o [= <-]. by rewrite lookup_empty.
  - pose proof (manager_input_ok env i f IH Ha) as Hw. unfold wp in Hw. by rewrite E in Hw.
Qed.

Lemma reach_books l f t : reach l f → entries t f = times t l.
Proof.
  induction 1 as [cs|env i l f f' Hr IH Ha E]; [done|].
  rewrite (input_adds strdown normalize from_iso8601 domains description first malloc t env i f) with (2 := E).
  - rewrite IH, times_app. lia.
  - destruct i as [| | | |token r b| | | | |]; cbn [taken]; try done. intros _. apply Ha.
Qed.

Lemma books_permutation l f : (∀ t, entries t f = times t l) → answered f ++ lost f ++ waiting f ≡ₚ l.
Proof.
  intros Hb. apply (Permutation_count_occ Nat.eq_dec). intros t.
  change (times t (answered f ++ lost f ++ waiting f) = times t l). rewrite <- Hb, !times_app. unfold entries. lia.
Qed.


(** C27: Every request for a chat room that the manager has
    taken is in exactly one of three places, and there once: it was answered,
    with a channel or an error; it waits for a channel to be ready; or it was
    lost because its channel became ready while it was not on the bus. *)
Theorem muc_requests_once l f : reach l f → answered f ++ lost f ++ waiting f ≡ₚ l.
Proof. intros Hr. apply books_permutation. intros t. by apply reach_books. Qed.

(** C28: When the connection ends no request waits any
    more: every request that was taken and not lost has been answered, once,
    and the manager has no channels. *)
Theorem disconnection_answers env l f :
  reach l f → has_alias env → watching f = true →
  wp (frun env Disconnected) (λ _ f',
    answered f' ++ lost f' ≡ₚ l ∧ waiting f' = [] ∧ text_channels f' = None) f.
Proof.
  intros Hr Hal Hw. pose proof (close_all_ok env f (manager_reach_ok _ _ Hr)) as Hc.
  cbn [factory_run]. apply wp_bind, wp_get. rewrite Hw. cbn [when].
  unfold wp in *. destruct (gabble_muc_factory_close_all _ _ _ _ _ _ _ f) as [[[] f']|] eqn:E; [|done].
  destruct Hc as (_ & Ht & Hq). assert (Hn : waiting f' = []) by (unfold waiting; by rewrite Hq).
  split_and!; [|done|done]. pose proof (books_permutation l f') as Hb. rewrite Hn, app_nil_r in Hb. apply Hb.
  intros t. pose proof (close_all_adds strdown normalize from_iso8601 domains description first t env f _ _ E) as He.
  rewrite He. by apply reach_books.
Qed.
(** ** A request that nobody answers *)

(** What the manager does not hear of changes nothing. *)
Lemma unheard_signals env o l f (Q : unit → F → Prop) :
  wp (for_each (List.filter heard l) (muc_signal env o)) Q f → wp (for_each l (muc_signal env o)) Q f.
Proof.
  revert f. induction l as [|e l IH]; intros f Hl; [done|]. cbn [List.filter] in Hl. cbn [for_each].
  destruct (heard e) eqn:E.
  - unfold wp in *. cbn [for_each] in Hl. unfold mbind, M_bind in *.
    destruct (muc_signal env o e f) as [[[] f1]|]; [|done]. by apply IH.
  - apply wp_bind. assert (muc_signal env o e = mret tt) as -> by (by destruct e). by apply wp_ret, IH.
Qed.

(** The channel of a room that is told to be destroyed leaves the table. *)
Lemma closed_signal env o f ob tab reg :
  objects f !! o = Some ob → text_channels f = Some tab → tab !! room ob = Some o →
  wp (muc_signal env o (Closed reg true)) (λ _ f', objects f' = objects f ∧
    text_channels f' = Some (delete (room ob) tab) ∧ queued_requests f' = queued_requests f ∧
    signals f' = signals f ++ if reg then [ChannelClosed o] else []) f.
Proof.
  intros Ho Ht Hl. cbn [muc_signal]. unfold muc_channel_closed_cb. apply wp_bind.
  apply (wp_mono _ (λ _ f', objects f' = objects f ∧ text_channels f' = text_channels f ∧
    queued_requests f' = queued_requests f ∧ signals f' = signals f ++ if reg then [ChannelClosed o] else [])).
  2: { destruct reg; [by apply wp_modify|]. apply wp_ret. by rewrite app_nil_r. }
  intros [] f1 (Ho1 & Ht1 & Hq1 & Hs1). cbn [when]. apply wp_bind, wp_get.
  eapply wp_object; [by rewrite Ho1|]. rewrite Ht1, Ht. apply wp_bind, wp_modify. rewrite Hl.
  rewrite bool_decide_eq_true_2 by done. by apply wp_ret.
Qed.

(** C39: Take any reachable state of the
    manager of chat rooms in which requests wait for the channel the table has
    for a room, which is neither closing nor destroyed and to which nothing
    else refers, and its join timer fires. The channel is closed and freed,
    and nobody tells whoever asked: the requests stay under the address of the
    freed channel. And in any state with these requests waiting in which a
    channel of whatever room has that address, is on the bus and becomes
    ready, they are answered with that channel. *)
Theorem timed_out_request_misdirected env l f o ob ch tab t q tokens :
  reach l f → objects f !! o = Some ob → chan (world ob) = Some ch →
  text_channels f = Some tab → tab !! room ob = Some o →
  queued_requests f = Some q → q !! address ob = Some tokens →
  sources (world ob) !! t = Some TIMER_JOIN → held (world ob) = 0%nat → operations (world ob) = ∅ →
  destroyed (life ch) = false → closing (life ch) = false →
  (∃ f', frun env (ChannelInput o (TimerFires t)) f = Ok (tt, f') ∧
     chan ∘ world <$> objects f' !! o = Some None ∧
     text_channels f' = Some (delete (room ob) tab) ∧ queued_requests f' = Some q ∧
     signals f' = signals f ++ if registered (life ch) then [ChannelClosed o] else []) ∧
  (∀ f2 o2 ob2, objects f2 !! o2 = Some ob2 → address ob2 = address ob → queued_requests f2 = Some q →
   ∃ f3, muc_ready_cb o2 true f2 = Ok (tt, f3) ∧
     signals f3 = signals f2 ++ [NewChannel o2 (reverse tokens)] ∧
     queued_requests f3 = Some (delete (address ob) q)).
Proof.
  intros Hr Ho Hc Ht Hl Hq Hk Hsrc Hh Hop Hd Hcl. split.
  - pose proof (manager_reach_ok _ _ Hr) as Hok. destruct (okay_worlds _ _ Hok _ _ Ho) as [Hw _].
    destruct (okay_table _ _ Hok _ _ _ Ht Hl) as (ob' & Ho' & _ & [Hf|?]); [|done].
    rewrite Ho in Ho'. injection Ho' as <-.
    assert (Hwp : wp (frun env (ChannelInput o (TimerFires t))) (λ _ f',
      chan ∘ world <$> objects f' !! o = Some None ∧
      text_channels f' = Some (delete (room ob) tab) ∧ queued_requests f' = Some q ∧
      signals f' = signals f ++ if registered (life ch) then [ChannelClosed o] else []) f).
    { cbn [factory_run]. apply wp_bind, wp_get. rewrite bool_decide_eq_true_2 by eauto. cbn [when].
      unfold on_channel. apply wp_bind, wp_get, wp_bind. eapply wp_update; [exact Ho|].
      apply wp_bind. unfold run_input at 1. apply wp_bind, wp_get, wp_modify.
      set (w := mkWorld _ _ _ _ _ _ _ _ _).
      assert (Hat : ∃ srcs cs, At (mkRefs true 0 ∅) srcs cs (events (world ob)) ch w ∧ srcs !! t = Some TIMER_JOIN).
      { destruct (reachable_settled _ _ _ _ _ _ ltac:(done) _ Hw) as [(r & srcs & cs & ev & ch1 & HA & _)|Hg];
          [|by rewrite (gone_chan _ Hg) in Hc].
        destruct HA as [Hc1 Hr1 Hs1 _ _ Hf1 Ho1]. exists (sources (world ob)), (contacts w).
        split; [split; cbn; try done|done].
        + by rewrite Hf, Hh, Hop.
        + by rewrite Hs1. }
      destruct Hat as (srcs & cs & HA & Hsrc').
      eapply wp_mono; [|by eapply (join_timeout_exact strdown normalize from_iso8601 domains description first)].
      intros [] w' [Hn (evs & He & Hfe)]. rewrite He, drop_app_length.
      apply unheard_signals. rewrite Hfe. cbn [for_each]. apply wp_bind.
      eapply wp_mono; [|eapply (closed_signal _ _ _ (mkObject (address ob) (room ob) w') tab);
        [apply lookup_insert_eq|exact Ht|exact Hl]].
      intros [] f1 (Ho1 & Ht1 & Hq1 & Hs1). apply wp_ret. rewrite Ho1, Ht1, Hq1, Hs1. cbn.
      rewrite lookup_insert_eq. cbn. by rewrite Hn. }
    unfold wp in Hwp. destruct (frun env (ChannelInput o (TimerFires t)) f) as [[[] f']|]; [|done]. eauto.
  - intros f2 o2 ob2 Ho2 Ha Hq2. unfold muc_ready_cb, get_object, steal_requests, announce, put_queued,
      mbind, M_bind, get, modify, mret, M_ret. rewrite Ho2, Hq2, Ha, Hk. cbn. eauto.
Qed.

End theorems.
End MucFactoryTheorems.
