(* ===== verification/MucFactoryRuns.v ===== *)
(** * The manager of chat rooms: concrete runs

    The theorems of [MucFactoryTheorems] at concrete requests, and the runs in
    which a request is answered with the channel of another room, or never. *)

From S2P Require Import Prelude Node Namespaces Jid XmppError MessageUtil WockyMuc MucChannel MucFacts MucTheorems MucRuns MucFactory MucFactoryFacts MucFactoryTheorems DiscoRuns.

Module MucFactoryRuns.
Import Jid XmppError MessageUtil WockyMuc MucChannel MucFacts MucTheorems MucRuns MucFactory MucFactoryFacts MucFactoryTheorems.

Definition factory_env : FactoryEnv :=
  mkFactoryEnv env "me" false (λ _, None) (λ _, true) (λ _, false) "uuid" Some (λ _, false) true
    (λ _, true) (λ _, false).

Abbreviation RunFactory := (GabbleMucFactory Group).
Definition manager (i : factory_input) : M RunFactory unit :=
  factory_run same same no_time [] describe first_of DiscoRuns.lowest_free factory_env i.
Definition reach' : list nat → RunFactory → Prop :=
  reach same same no_time [] describe first_of DiscoRuns.lowest_free.

Definition step_manager (f : RunFactory) (i : factory_input) : RunFactory :=
  match manager i f with Ok (_, f') => f' | Abort _ => f end.
Definition after (l : list factory_input) : RunFactory := foldl step_manager (gabble_muc_factory_init ∅) l.

(** A request for a text channel, and our own presence in a room. *)
Definition ask (token : nat) (room : string) : factory_input :=
  RequestChannel token (mkRequest true TARGET_ROOM room false None None None None None None) false.
Definition let_in (o : nat) (room : string) : factory_input :=
  ChannelInput o (Presence (muc_presence (room +:+ "/me") [] [item []])).

Lemma alias : has_alias same factory_env.
Proof. by intros rm. Qed.

Lemma valid_a : valid_room same "a@conf".
Proof. exists (Some "a"), "conf". vm_compute. reflexivity. Qed.

Lemma ask_allowed (f : RunFactory) token : is_open f = true → allowed same factory_env f (ask token "a@conf").
Proof. intros Ho. split; [apply alias|]. cbn. split_and!; [done..|]. intros _. apply valid_a. Qed.

Definition waits : RunFactory := after [ask 1 "a@conf"].

Lemma waits_reach : reach' [1%nat] waits.
Proof.
  apply (reach_step same same no_time [] describe first_of DiscoRuns.lowest_free factory_env (ask 1 "a@conf") []
    (gabble_muc_factory_init ∅)); [apply reach_init|by apply ask_allowed|]. vm_compute. reflexivity.
Qed.


Lemma muc_requests_once_witness :
  answered waits ++ lost waits ++ waiting waits ≡ₚ [1%nat] ∧ waiting waits = [1%nat].
Proof.
  split; [|vm_compute; reflexivity].
  apply (muc_requests_once same same no_time [] describe first_of DiscoRuns.lowest_free), waits_reach.
Defined.

Lemma disconnection_answers_witness :
  wp (manager Disconnected) (λ _ f',
    answered f' ++ lost f' ≡ₚ [1%nat] ∧ waiting f' = [] ∧ text_channels f' = None) waits.
Proof.
  apply (disconnection_answers same same no_time [] describe first_of DiscoRuns.lowest_free same_nonempty factory_env);
    [apply waits_reach|apply alias|vm_compute; reflexivity].
Defined.

(** ** Runs in which a request goes wrong *)

(** The joining of a room that was asked for times out; another room's channel
    gets the memory. *)
Lemma timed_out_request_misdirected_witness :
  (∃ f', manager (ChannelInput 0 (TimerFires 0)) waits = Ok (tt, f') ∧
     chan ∘ world <$> objects f' !! 0%nat = Some None ∧
     text_channels f' = Some (delete "a@conf" {["a@conf" := 0%nat]}) ∧
     queued_requests f' = Some {[0%nat := [1%nat]]} ∧ signals f' = signals waits ++ [ChannelClosed 0]) ∧
  (∀ f2 o2 ob2, objects f2 !! o2 = Some ob2 → address ob2 = 0%nat →
   queued_requests f2 = Some {[0%nat := [1%nat]]} →
   ∃ f3, muc_ready_cb (G:=Group) o2 true f2 = Ok (tt, f3) ∧
     signals f3 = signals f2 ++ [NewChannel o2 (reverse [1%nat])] ∧
     queued_requests f3 = Some (delete 0%nat {[0%nat := [1%nat]]})).
Proof.
  destruct (objects waits !! 0%nat) as [ob|] eqn:Ho; [|by vm_compute in Ho].
  pose proof Ho as E. vm_compute in E. injection E as E.
  destruct (chan (world ob)) as [ch|] eqn:Hc; [|by rewrite <- E in Hc].
  pose proof Hc as Ec. rewrite <- E in Ec. cbn in Ec. injection Ec as Ec.
  pose proof (timed_out_request_misdirected same same no_time [] describe first_of DiscoRuns.lowest_free
    same_nonempty factory_env [1%nat] waits 0 ob ch {["a@conf" := 0%nat]} 0 {[0%nat := [1%nat]]} [1%nat]
    waits_reach Ho Hc) as Hthm.
  replace (room ob) with "a@conf" in Hthm by (by rewrite <- E).
  replace (address ob) with 0%nat in Hthm by (by rewrite <- E).
  replace (registered (life ch)) with true in Hthm by (by rewrite <- Ec).
  apply Hthm; try (vm_compute; reflexivity); first [rewrite <- E|rewrite <- Ec]; vm_compute; reflexivity.
Defined.

Definition misdirected : RunFactory :=
  after [ask 1 "a@conf"; ChannelInput 0 (TimerFires 0); ask 2 "b@conf"; let_in 1 "b@conf"].
Lemma misdirected_run :
  signals misdirected = [ChannelClosed 0; NewChannel 1 [1%nat; 2%nat]] ∧
  room <$> objects misdirected !! 1%nat = Some "b@conf".
Proof. vm_compute. done. Qed.

(** A request for the text channel of a room that is being joined for the sake
    of a tube is lost: when we are in the room its channel is not on the bus,
    and the request is forgotten. *)
Theorem request_lost :
  let f := after [EnsureRoom "a@conf"; ask 1 "a@conf"; let_in 0 "a@conf"] in
  signals f = [Lost [1%nat]] ∧ answered f = [] ∧ waiting f = [].
Proof. vm_compute. done. Qed.

(** A channel that has left its room after a time-out, and exists because an
    operation is in flight, hears late that it is out of the room and takes
    the channel out of the table that has been made for the room since. *)
Theorem late_farewell_forgets :
  let f := after [ask 1 "a@conf"; let_in 0 "a@conf";
                  ChannelInput 0 (Send (mkMessage (Some (Some 1)) [mkPart (Some "text/plain") (Some "hi")]));
                  ChannelInput 0 Close; ChannelInput 0 (TimerFires 2); ask 2 "a@conf";
                  ChannelInput 0 (Presence (muc_presence "a@conf/me" [mkAttribute "type" "unavailable" None] [item []]))] in
  text_channels f = Some ∅ ∧ waiting f = [2%nat] ∧
  (chan ∘ world <$> objects f !! 1%nat) = Some None.
Proof. vm_compute. done. Qed.
End MucFactoryRuns.
